(* ===== verification/_CoqProject ===== *)
-Q . S2P
Prelude.v
Package.v
PackageStream.v
Message.v
NgxQueue.v
QueueFamily.v
PcMap.v
StringMap.v
StrBuffer.v
Float.v
Utf8.v
RealText.v
Jansson.v
HashTable.v
HashRefine.v
JsonArray.v
JsonValue.v
JsonHeap.v
JsonCounts.v
JsonMemory.v
JsonDump.v
JsonLoad.v
JsonLex.v
JsonRead.v
JsonTokens.v
JsonRoundtrip.v
JsonSafe.v
JsonTotal.v
PbWire.v
PbEncode.v
PbDecode.v
PbRoundtrip.v
Listeners.v
Backoff.v
Uv.v
UvStream.v
UvStreamInv.v
UvStreamRun.v
UvStreamSpec.v
UvAsync.v
UvTimers.v
UvPoll.v
UvInet.v
UvPool.v
UvLoop.v
Protocol.v
CodecMemory.v
ClientState.v
Client.v
ClientLogic.v
ClientInv.v
ClientRequests.v
ClientTimers.v
ClientStop.v
ClientConnect.v
ClientCall.v
ClientReconnect.v
ClientExamples.v
