(* ===== verification/Prelude.v ===== *)
(** * A verification development of libpomelo, a C client for Pomelo servers

    ** The program

    libpomelo ([src/src/], [src/include/]) connects a user's program to a Pomelo
    game server. Calls of the user ([pc_client_connect], [pc_request],
    [pc_notify], [pc_add_listener], [pc_client_disconnect], ...) and callbacks of
    a libuv loop act on one client structure. From the socket upwards:

    - bytes of the socket are cut into packages by an incremental parser
      ([package.c]); a package is a handshake, an acknowledgement, a heartbeat or
      data;
    - the handshake ([pkg-handshake.c]) gives the client the heartbeat interval,
      the route dictionary and the protobuf schemas; heartbeats
      ([pkg-heartbeat.c]) are kept alive by two timers;
    - a data package carries a message ([message.c]): flag, id, route and body;
      the route is a string or a dictionary code, the body JSON text
      ([msg-json.c]) or protobuf ([msg-pb.c], [pb-encode.c], [pb-decode.c],
      [pb-util.c]); [protocol.c] chooses, and hands the message to the request
      with its id or to the listeners of its route;
    - requests and listeners are kept in a string map ([map.c]) whose buckets,
      like the listener lists ([listener.c]), are intrusive queues
      ([ngx-queue.h]);
    - [client.c], [network.c], [transport.c] and [thread.c] connect, submit, stop
      and reconnect, with a growing delay between attempts;
    - JSON values and their text are those of the bundled Jansson
      ([deps/jansson]).

    ** The files

    Shared:
    - [Prelude.v]: outcomes of C code ([exec]: a value, undefined behaviour, or
      a loop bound that was too small), machine integers, bytes as [Z] with their
      reads and writes, list lemmas and tactics.

    Codecs, bottom up:
    - [Package.v] ([package.c]): [pc_pkg_encode] and the parser
      [pc_pkg_parser_feed] with its head and body states and the ownership of the
      body buffer. The callback may change the host of the parser; hosts are the
      class [ParserHost].
    - [PackageStream.v]: the wire format as a function on the whole stream,
      [parse_frames], and that the parser computes it.
    - [Message.v] ([message.c]): [pc_msg_encode_route], [pc_msg_encode_code],
      [pc_msg_decode].
    - [Float.v]: IEEE 754 conversions, on bit patterns.
    - [Utf8.v] ([utf.c] of Jansson) and [Jansson.v] ([value.c], [hashtable.c]):
      objects in their iteration order, arrays, strings, numbers, read as trees.
    - [HashTable.v] ([hashtable.c]): the same hash table on its pointers, with
      buckets, rehashing, iterators and failing allocations; [HashRefine.v]: it
      implements the tables of [Jansson.v]. [JsonArray.v] ([value.c]): the growing
      table of an array, and that it implements a list.
    - [JsonValue.v] ([value.c]): comparing, copying and updating whole values.
    - [JsonHeap.v] ([value.c], [jansson.h]): values as blocks with reference counts,
      created, stored, replaced and deleted; [JsonCounts.v]: what the counts count,
      kept through a deletion; [JsonMemory.v]: programs of such calls.
    - [StrBuffer.v] ([strbuffer.c]), [RealText.v] ([strconv.c]) and
      [JsonDump.v] ([dump.c]): [json_dumps] and the text it prints.
    - [JsonLoad.v] ([load.c]): the lexer, the parser, [json_loadb] and
      [json_load_file]; [JsonLex.v], [JsonRead.v] and [JsonTokens.v]: what each
      operation of the lexer does with text it accepts; [JsonRoundtrip.v]: printed
      text is read back; [JsonSafe.v] and [JsonTotal.v]: any bytes are read
      without undefined behaviour.
    - [PbWire.v] ([pb-util.c], the streams and scalar fields of [pb-encode.c] and
      [pb-decode.c]), [PbEncode.v] ([pb_encode]), [PbDecode.v] ([pb_decode]),
      [PbRoundtrip.v] (the two composed).
    - [Protocol.v] ([protocol.c], [msg-json.c], [msg-pb.c], the dictionary of
      [pkg-handshake.c]): [pc__default_msg_encode_cb] and
      [pc__default_msg_parse_cb].
    - [CodecMemory.v] ([message.c], [protocol.c], [msg-json.c], [msg-pb.c],
      [jansson-memory.c]): the same callbacks with the blocks they allocate and
      free, and with the allocation hooks.

    Containers:
    - [NgxQueue.v] ([ngx-queue.h]) and [QueueFamily.v]: circular lists on their
      two link fields, one heap, several queues.
    - [PcMap.v] ([map.c]): the hash map on those pointers.
    - [StringMap.v]: what the client expects of a map, as a class of operations
      and a class of laws, with the map of [PcMap.v] as an instance of both; the
      components below are proved against the laws.
    - [Listeners.v] ([client.c], [listener.c]): registration, removal, emission,
      release.

    The event loop ([deps/uv/src/unix]), below the callbacks it owes the client:
    - [UvStream.v] ([stream.c], [tcp.c], [core.c]): one TCP handle with its watcher,
      its queues of write requests and its callbacks; the kernel's answers are lists
      and the user is a function from what happened to the calls it makes.
      [UvStreamInv.v] and [UvStreamRun.v]: its invariants, by triples over that
      monad; [UvStreamSpec.v]: the theorems about whole runs.
    - [UvAsync.v] ([async.c]): [uv_async_send] in any number of threads and the loop,
      interleaved access by access; the queue of handles as the pointers of
      [NgxQueue.v] where two threads change it.
    - [UvTimers.v] ([timer.c]): all timers of a loop, its clock and its turns; the
      timers of [Uv.v] are a view of these.
    - [UvPoll.v] ([core.c], [linux-core.c]): the table and queue of watchers and
      [uv__io_poll] with the kernel's [epoll] set.
    - [UvLoop.v] ([core.c], [loop.c], [loop-watcher.c], [uv-common.h]): [uv_run], the flags
      and counts of handles that decide when it returns, and closing.
    - [UvPool.v] ([threadpool.c]): the threads of the pool, the loop and the queues
      between them, interleaved.
    - [UvInet.v] ([inet.c], [uv-common.c]): addresses printed and read.

    The client:
    - [Backoff.v] ([client.c]): reconnection delays in 32-bit arithmetic.
    - [Uv.v] ([deps/uv/src/unix/timer.c]): timers and closing of handles as their
      owner sees them.
    - [ClientState.v] ([pomelo.h]): the structures, the world of one client and
      the monad of its operations.
    - [Client.v]: every operation of the client and every callback of the loop,
      from [client.c], [network.c], [transport.c], [thread.c],
      [pkg-handshake.c], [pkg-heartbeat.c] and [protocol.c]; [deliver] runs one event, [reach]
      is reachability and [run] runs a list of events.
    - [ClientLogic.v]: triples and frame reasoning for these programs.
    - [ClientInv.v], [ClientRequests.v], [ClientTimers.v], [ClientStop.v]:
      invariants of all reachable worlds.
    - [ClientConnect.v], [ClientCall.v], [ClientReconnect.v]: what the main
      scenarios lead to.
    - [ClientExamples.v]: a concrete environment, with runs that instantiate the
      theorems and runs in which the code misbehaves.

    ** How code is represented

    Integers are [Z] with their width written out ([u16], [u32] and the like, [wrap] and [swrap]);
    signed overflow, out-of-bounds accesses, null or dangling pointers, closing a
    handle twice and failed assertions are the outcome [UB]. Where a component
    depends on sharing (the queues, the maps, the listener blocks, JSON values in
    [JsonHeap.v], transports and requests that callbacks point to), blocks are kept in finite maps and freeing
    removes them; elsewhere a pointer is the value it points to. The outcome of
    every allocation is an input (an oracle list in the client, an argument
    elsewhere), except in [Jansson.v], [JsonValue.v], [PcMap.v] and [Listeners.v],
    where allocation succeeds.

    The client of [Client.v] is a state machine. A user call or a callback the
    loop owes the client is an [event]; [enabled] says when the loop may run it
    (a write callback for an outstanding write, a timer that is active, a close
    callback for a closing handle, ...) and [deliver] runs its whole handler.
    Events follow each other in any order, which is what the threads of the
    library can observe of each other: user calls only enqueue work and touch the
    fields under a mutex. The world records the calls of user callbacks and the
    packages written, in order. libuv's answers, the clock and random numbers come
    from the oracle, so a theorem over [reach] holds for all of them.

    Outside the development, as parameters ([externals] in [Client.v]): the
    contents of protocol files, name resolution, the user's handshake and message
    callbacks, memory ([malloc]) and the integer part of libm's logarithm. Each theorem names what it needs of them, and its witness
    gives a concrete function.

    ** What is proved

    - Framing: the parser computes [parse_frames] on the concatenation of the
      chunks, wherever they are cut ([feed_refines]), is the inverse of the
      encoder ([pkg_stream_roundtrip]), and never leaves its buffers
      ([feed_safe]).
    - Messages: round trips with either route form, behaviour on every branch, and
      exactly on which inputs the decoder is defined ([msg_decode_safe]): not on ids
      that are truncated or 2^31 or more, nor on a route length byte of 255.
    - Protobuf: the two-pass encoder equals a one-pass reference
      ([pb_encode_wire]), the decoder inverts it ([pb_message_roundtrip]) and
      terminates on arbitrary bytes ([pb_decode_safe]); varints and zigzag.
    - JSON text: the printer writes exactly the reference text ([json_dumps_text]),
      the parser reads it back as the same value ([json_roundtrip]), and returns
      on arbitrary bytes NULL or a well-formed value ([json_loadb_total]).
    - JSON values: the pointers of hash tables and the tables of arrays behave as
      lists ([hashtable_refines], [array_refines]), except after a rehash that finds
      no memory ([failed_rehash_breaks_table]); [json_equal] decides equality of
      trees ([json_equal_alike]); a program that keeps to the rules of ownership
      never touches a freed value and, unless values contain themselves, leaves none
      behind ([json_memory_safe]).
    - Bodies and routes: two endpoints understand each other
      ([peers_roundtrip], for messages and routes the format can carry); dictionaries
      resolve, and collide modulo 256; the blocks
      of a message are freed once ([parsed_messages_freed],
      [encoded_messages_freed]), but for two leaks: the values of sub-messages when a
      protobuf body cannot be decoded, and the JSON text when one cannot be encoded.
    - Containers: the map and the listeners refine finite maps
      ([map_calls_refine], [listeners_refine]), every listener block is freed once
      ([listeners_released]), and storing a present key is analysed exactly.
    - The client, in all reachable worlds: state, transport pointer and
      transports agree ([client_state_consistent]); requests are conserved
      ([requests_conserved]); heartbeat and timeout timers exclude each other
      ([heartbeat_exclusive]); stopping closes the handles the client points to once and,
      but for a later [pc_client_disconnect], is final without reconnection
      ([stop_closes], [stopped_is_final]); stopped in the initial state the client can be
      revived ([stopped_initial_revives]), and a socket that is connecting is left open
      ([connecting_socket_left]).
    - The client's scenarios: connecting ([client_connects]), a request and its
      response ([request_answered]), losing the connection
      ([stop_reconnects]); the delays are the documented ones, or longer with exponential
      backoff ([backoff_in_bounds], [documented_backoff]).
    - Streams, for every kernel and every user within the rules: no assertion fails
      and every loop ends ([stream_assertions_hold]), the wire has the bytes of the
      requests in order and callbacks come once and, until the close, in order
      ([stream_sends_in_order]), closing calls back exactly what is outstanding
      ([close_calls_all_back]), the queue is watched ([queue_is_watched]), except
      after a write that was submitted while connecting
      ([write_while_connecting_stalls]), and its size is exact
      ([queue_size_exact]).
    - The loop: no wake-up is lost ([wakeup_not_lost]) nor made up
      ([async_never_spurious]), but initialising a handle in another thread can
      lose all later ones ([async_init_races_close]); a turn of the timers ends and calls
      those that are due, in order ([timers_fire_in_order], [turn_ends]), unless callbacks
      start timers for now for ever ([zero_timer_starves]);
      the loop sleeps as long as it may ([next_timeout_exact],
      [poll_never_oversleeps]), the client's view of a timer is right
      ([timer_refines]); the kernel's set of descriptors follows the watchers
      ([kernel_in_step]) and, with a kernel that keeps to its manual pages, no assertion
      fails and only wanted, fresh events are passed on ([polling_safe]).
    - Running: handles are counted exactly and closed once ([loop_bookkeeping]),
      [uv_run] returns 0 only when nothing keeps it alive ([uv_run_result]), and does in
      the iteration that closes the last handles ([loop_ends_when_closed]).
    - The thread pool, in every interleaving: a request is run once and called back, or
      cancelled and called back ([pool_jobs_once]); no thread sleeps while work waits for
      it ([pool_work_conserving]); everything submitted is called back
      ([pool_drains]).
    - Addresses: what is printed is read back ([inet_roundtrip]), the IPv4 reader accepts
      exactly the canonical texts ([inet_pton4_exact]), and any text is read within the
      buffers ([inet_pton_safe]).
    - Divergences from the documentation and undefined behaviour, as theorems
      about concrete inputs or runs.

    ** Loop bounds

    The parser loop is given one round more than the chunk has bytes, and
    [feed_safe] shows that it ends. Loops over queues are given one round more
    than there are nodes; the refinement theorems of the map and of the listeners
    show that they end, and [map_set_shared_diverges] shows one that does not,
    whatever the bound. The protobuf decoder is given the bytes left, of which
    each round and each nested message consumes one ([pb_decode_safe]); the
    encoder is given the depth of the message and the round trip proves success.
    The JSON parser and the loops of its lexer are given the bytes left, which
    [json_loadb_total] shows to be enough.
    Loops over hash tables are given one round more than there are pairs
    ([hashtable_refines]), a deletion of JSON values one level more than there are
    blocks ([json_memory_safe]).
    The loops over completed and cancelled writes are given one round more than the
    requests that can come to them ([stream_assertions_hold]). The rounds of a turn of
    timers are an argument: [timers_fire_in_order] shows that some number is enough and
    [turn_ends] which, when no callback starts a timer for now. The iterations of [uv_run] are those
    the environment gives; [loop_ends_when_closed] says when one is the last.
    The message decoder is given the length of its input. Where the invariants of
    the client speak of reachable worlds, the scenario theorems and
    [stop_closes] show that the handlers return.

    ** Not modelled

    Of Jansson: the reference counts inside the other components, which read values
    as trees ([CodecMemory.v] counts a value as one block); packing and unpacking by format strings, the sorting of keys, files
    as output, positions and messages of parse errors; of libuv: servers, pipes, UDP, files,
    processes, signals and name resolution, the red-black tree of the timers, and which
    callbacks of [UvTimers.v] and [UvPoll.v] fill an iteration of [UvLoop.v], where they are
    any calls; Windows; mutexes and threads inside a handler;
    [pc_client_join], [pc_run] and [pc__cond_wait], which only wait;
    the destructor of a parser outside a client; error texts and debugging output; the programs of
    [example/] and [test/]. *)

From Stdlib Require Export ZArith Lia.
From stdpp Require Export base list gmap strings numbers decidable pretty.

(** [set_solver] clears hypotheses that are already gone. *)
#[export] Set Warnings "-clear-no-such-hyp".

(** ** Outcomes of C code

    [Val a]: the code returns [a] (an error code is an ordinary value);
    [UB]: undefined behaviour (an access out of bounds, a null or dangling
    dereference, a signed overflow, an over-wide shift);
    [NoFuel]: the bound given to a loop was too small. *)
Inductive exec (A : Type) : Type :=
| Val (a : A)
| UB
| NoFuel.

Arguments Val {A} a.
Arguments UB {A}.
Arguments NoFuel {A}.

#[global] Instance exec_ret : MRet exec := fun _ a => Val a.

#[global] Instance exec_bind : MBind exec := fun _ _ f c =>
  match c with Val a => f a | UB => UB | NoFuel => NoFuel end.

#[global] Instance exec_eq_dec `{EqDecision A} : EqDecision (exec A).
Proof. solve_decision. Defined.

(** An obligation whose violation is undefined behaviour. *)
Definition require (b : bool) : exec unit := if b then Val tt else UB.

Definition is_val {A} (c : exec A) : bool :=
  match c with Val _ => true | _ => false end.

Lemma bind_Val {A B} (a : A) (f : A → exec B) : (Val a ≫= f) = f a.
Proof. reflexivity. Qed.

Lemma bind_Val_inv {A B} (c : exec A) (f : A → exec B) (b : B) :
  (c ≫= f) = Val b → ∃ a, c = Val a ∧ f a = Val b.
Proof. destruct c; simpl; [eauto | discriminate..]. Qed.

Lemma bind_assoc {A B C} (c : exec A) (f : A → exec B) (g : B → exec C) :
  ((c ≫= f) ≫= g) = (c ≫= λ a, f a ≫= g).
Proof. by destruct c. Qed.

Lemma require_Val_inv (b : bool) (u : unit) : require b = Val u → b = true.
Proof. by destruct b. Qed.

Lemma require_true (b : bool) : b = true → require b = Val tt.
Proof. by intros ->. Qed.

(** Peel the binds of a hypothesis [_ = Val _]. *)
Ltac exec_inv :=
  repeat match goal with
  | H : Val _ = Val _ |- _ => injection H as H; subst
  | H : UB = Val _ |- _ => discriminate H
  | H : NoFuel = Val _ |- _ => discriminate H
  | H : require _ = Val _ |- _ => apply require_Val_inv in H
  | H : (_ ≫= _) = Val _ |- _ =>
      let a := fresh "a" in let E := fresh "E" in
      apply bind_Val_inv in H as (a & E & H)
  end.

(** ** Machine integers

    LP64 with two's complement and signed plain [char] (Linux/x86-64, the
    library's primary target): [size_t] and [uint64_t] are [u64], [int] is
    [s32], a byte read through a [char] is [s8]. *)
Definition wrap (w z : Z) : Z := z mod 2 ^ w.
Definition swrap (w z : Z) : Z := (z + 2 ^ (w - 1)) mod 2 ^ w - 2 ^ (w - 1).

Abbreviation u8 := (wrap 8).
Abbreviation u16 := (wrap 16).
Abbreviation u32 := (wrap 32).
Abbreviation u64 := (wrap 64).
Abbreviation s8 := (swrap 8).
Abbreviation s32 := (swrap 32).
Abbreviation s64 := (swrap 64).

Local Open Scope Z_scope.

Definition INT_MAX : Z := 2 ^ 31 - 1.
Definition SIZE_MAX : Z := 2 ^ 64 - 1.

Definition is_u (w z : Z) : Prop := 0 ≤ z < 2 ^ w.
Definition is_s (w z : Z) : Prop := - 2 ^ (w - 1) ≤ z < 2 ^ (w - 1).
Abbreviation is_byte := (is_u 8).

Lemma wrap_range w z : 0 ≤ w → is_u w (wrap w z).
Proof. intros. apply Z.mod_pos_bound. by apply Z.pow_pos_nonneg. Qed.

Lemma wrap_small w z : is_u w z → wrap w z = z.
Proof. apply Z.mod_small. Qed.

Lemma swrap_small w z : 0 < w → is_s w z → swrap w z = z.
Proof.
  intros Hw [H1 H2]. unfold swrap. rewrite Z.mod_small; [lia|].
  replace (2 ^ w) with (2 ^ (w - 1) + 2 ^ (w - 1)); [lia|].
  replace w with (Z.succ (w - 1)) at 3 by lia. rewrite Z.pow_succ_r; lia.
Qed.

Lemma swrap_range w z : 0 < w → is_s w (swrap w z).
Proof.
  intros Hw. unfold is_s, swrap.
  pose proof (Z.mod_pos_bound (z + 2 ^ (w - 1)) (2 ^ w)) as H.
  assert (2 ^ w = 2 ^ (w - 1) + 2 ^ (w - 1)) as E.
  { replace w with (Z.succ (w - 1)) at 1 by lia. rewrite Z.pow_succ_r; lia. }
  assert (0 < 2 ^ (w - 1)) by (apply Z.pow_pos_nonneg; lia). lia.
Qed.

Lemma s8_high (b : Z) : 128 ≤ b < 256 → s8 b = b - 256.
Proof.
  intros. unfold swrap. change (2 ^ 8) with 256. change (2 ^ (8 - 1)) with 128.
  replace (b + 128) with ((b - 128) + 1 * 256) by lia.
  rewrite Z_mod_plus_full, Z.mod_small; lia.
Qed.

(** Boolean tests of the code as propositions. *)
Ltac b2p :=
  repeat match goal with
  | H : (_ && _) = true |- _ => apply andb_true_iff in H as [? ?]
  | H : (_ && _) = false |- _ => apply andb_false_iff in H as [?|?]
  | H : (_ || _) = true |- _ => apply orb_true_iff in H as [?|?]
  | H : (_ || _) = false |- _ => apply orb_false_iff in H as [? ?]
  | H : negb _ = true |- _ => apply negb_true_iff in H
  | H : negb _ = false |- _ => apply negb_false_iff in H
  | H : (_ <=? _) = true |- _ => apply Z.leb_le in H
  | H : (_ <=? _) = false |- _ => apply Z.leb_gt in H
  | H : (_ <? _) = true |- _ => apply Z.ltb_lt in H
  | H : (_ <? _) = false |- _ => apply Z.ltb_ge in H
  | H : (_ >=? _) = _ |- _ => rewrite Z.geb_leb in H
  | H : (_ >? _) = _ |- _ => rewrite Z.gtb_ltb in H
  | H : (_ =? _) = true |- _ => apply Z.eqb_eq in H
  | H : (_ =? _) = false |- _ => apply Z.eqb_neq in H
  end.

Ltac blia := b2p; lia.

(** Closes a side condition about ranges of machine integers. *)
Ltac int_solve := unfold is_u, is_s, INT_MAX, SIZE_MAX in *; simpl Z.pow in *; lia.

(** ** Byte buffers

    A block of memory is the list of its bytes; [rd], [memcpy_from] and
    [memcpy_to] are the accesses, with undefined behaviour out of bounds. *)
Abbreviation bytes := (list Z).

Definition zlen {A} (l : list A) : Z := Z.of_nat (length l).

Definition rd (buf : bytes) (i : Z) : exec Z :=
  if i <? 0 then UB
  else match buf !! Z.to_nat i with Some b => Val b | None => UB end.

(** The [n] bytes at offset [off]. *)
Definition memcpy_from (buf : bytes) (off n : Z) : exec bytes :=
  if (0 <=? off) && (0 <=? n) && (off + n <=? zlen buf)
  then Val (take (Z.to_nat n) (drop (Z.to_nat off) buf)) else UB.

(** [src] stored at offset [off]. *)
Definition memcpy_to (buf : bytes) (off : Z) (src : bytes) : exec bytes :=
  if (0 <=? off) && (off + zlen src <=? zlen buf)
  then Val (take (Z.to_nat off) buf ++ src ++ drop (Z.to_nat off + length src)%nat buf)
  else UB.

Definition zeros (n : Z) : bytes := replicate (Z.to_nat n) 0.

(** Allocations that fit the address space succeed. *)
Definition malloc_succeeds (malloc : Z → bool) : Prop := ∀ n, 0 ≤ n < 2 ^ 63 → malloc n = true.

Lemma zlen_nonneg {A} (l : list A) : 0 ≤ zlen l.
Proof. unfold zlen. lia. Qed.

Lemma zlen_nil {A} : zlen (@nil A) = 0.
Proof. reflexivity. Qed.

Lemma zlen_cons {A} (x : A) l : zlen (x :: l) = 1 + zlen l.
Proof. unfold zlen. simpl. lia. Qed.

Lemma zlen_app {A} (l k : list A) : zlen (l ++ k) = zlen l + zlen k.
Proof. unfold zlen. rewrite length_app. lia. Qed.

Lemma zlen_zeros n : 0 ≤ n → zlen (zeros n) = n.
Proof. intros. unfold zlen, zeros. rewrite length_replicate. lia. Qed.

(** Closes a goal about lengths of concrete list shapes. *)
Ltac zl :=
  unfold zlen in *; do 2 (simpl length in *; rewrite ?length_app in *); simpl length in *; lia.

Create HintDb pomelo.
#[export] Hint Resolve zlen_nonneg : pomelo.
Create Rewrite HintDb zlen.
#[export] Hint Rewrite @zlen_nil @zlen_cons @zlen_app : zlen.

Lemma rd_middle (p s : bytes) b i : i = zlen p → rd (p ++ b :: s) i = Val b.
Proof.
  intros ->. unfold rd, zlen. destruct (Z.ltb_spec (Z.of_nat (length p)) 0); [lia|].
  rewrite Nat2Z.id, list_lookup_middle; done.
Qed.

Lemma rd_end (p : bytes) : rd p (zlen p) = UB.
Proof.
  unfold rd, zlen. destruct (Z.ltb_spec (Z.of_nat (length p)) 0); [done|].
  by rewrite Nat2Z.id, lookup_ge_None_2.
Qed.

Lemma rd_app_head (b : Z) (l : bytes) : rd ([b] ++ l) 0 = Val b.
Proof. reflexivity. Qed.

Lemma memcpy_from_middle (p m s : bytes) off n :
  off = zlen p → n = zlen m → memcpy_from (p ++ m ++ s) off n = Val m.
Proof.
  intros -> ->. unfold memcpy_from. rewrite !zlen_app.
  destruct (_ && _ && _) eqn:E.
  - f_equal. unfold zlen. rewrite !Nat2Z.id, drop_app_length.
    by rewrite take_app_length.
  - unfold zlen in *. blia.
Qed.

Lemma memcpy_to_middle (p m s src : bytes) off :
  off = zlen p → length m = length src →
  memcpy_to (p ++ m ++ s) off src = Val (p ++ src ++ s).
Proof.
  intros -> Hl. unfold memcpy_to. rewrite !zlen_app.
  destruct (_ && _) eqn:E.
  - f_equal. unfold zlen. rewrite !Nat2Z.id, take_app_length. f_equal. f_equal.
    rewrite <- Hl, app_assoc, <- length_app, drop_app_length. done.
  - unfold zlen in *. blia.
Qed.

Lemma memcpy_from_eq (buf : bytes) off n :
  0 ≤ off → 0 ≤ n → off + n ≤ zlen buf →
  memcpy_from buf off n = Val (take (Z.to_nat n) (drop (Z.to_nat off) buf)).
Proof. intros. unfold memcpy_from. destruct (_ && _ && _) eqn:E; [done|blia]. Qed.

Lemma memcpy_to_eq (buf : bytes) off src :
  0 ≤ off → off + zlen src ≤ zlen buf →
  memcpy_to buf off src =
    Val (take (Z.to_nat off) buf ++ src ++ drop (Z.to_nat off + length src) buf).
Proof. intros. unfold memcpy_to. destruct (_ && _) eqn:E; [done|blia]. Qed.

Lemma memcpy_to_head (x b : Z) (l : bytes) : memcpy_to (b :: l) 0 [x] = Val (x :: l).
Proof. rewrite memcpy_to_eq by zl. simpl. by rewrite drop_0. Qed.

Lemma zlen_take {A} (l : list A) (n : nat) : zlen (take n l) = Z.min (Z.of_nat n) (zlen l).
Proof. unfold zlen. rewrite length_take. lia. Qed.

Lemma zlen_drop {A} (l : list A) (n : nat) : zlen (drop n l) = Z.max 0 (zlen l - Z.of_nat n).
Proof. unfold zlen. rewrite length_drop. lia. Qed.

#[export] Hint Rewrite @zlen_take @zlen_drop : zlen.

(** Reading a byte through [char] and masking it gives the byte back. *)
Lemma land_s8_255 (b : Z) : Z.land (s8 b) 0xff = u8 b.
Proof.
  change 0xff with (Z.ones 8). rewrite Z.land_ones by lia.
  unfold swrap, wrap. change (2 ^ (8 - 1)) with 128. change (2 ^ 8) with 256.
  rewrite Zminus_mod_idemp_l. f_equal. lia.
Qed.

Lemma land_127 v : Z.land v 0x7F = v mod 128.
Proof. change 0x7F with (Z.ones 7). by rewrite Z.land_ones by lia. Qed.

Lemma u8_byte b : is_byte b → u8 b = b.
Proof. apply wrap_small. Qed.

(** Disjoint bits: an or is a sum. *)
Lemma lor_low_high (n a b : Z) : 0 ≤ n → is_u n b → Z.lor (a * 2 ^ n) b = a * 2 ^ n + b.
Proof.
  intros Hn Hb. rewrite <- Z.lxor_lor; [symmetry; apply Z.add_nocarry_lxor|].
  all: apply Z.bits_inj'; intros i Hi; rewrite Z.land_spec, Z.bits_0.
  all: destruct (Z.ltb_spec i n) as [H|H]; [by rewrite Z.mul_pow2_bits_low by lia|].
  all: rewrite <- (Z.mod_small b (2 ^ n)) by done.
  all: rewrite Z.mod_pow2_bits_high by lia; apply andb_false_r.
Qed.

(** ** C strings

    A C string is the [string] of its characters, without the terminator. *)
Definition char_val (c : Ascii.ascii) : Z := Z.of_N (Ascii.N_of_ascii c).

Definition bytes_of (s : string) : bytes := map char_val (String.list_ascii_of_string s).

Definition string_of (bs : bytes) : string :=
  String.string_of_list_ascii (map (λ b, Ascii.ascii_of_N (Z.to_N b)) bs).

(** The bytes before the first NUL: what a [char *] to [bs] denotes. *)
Fixpoint until_nul (bs : bytes) : bytes :=
  match bs with
  | [] => []
  | b :: bs => if b =? 0 then [] else b :: until_nul bs
  end.

Definition strlen (s : string) : Z := zlen (bytes_of s).

(** [sprintf(buf, "%u", n)]. *)
Definition sprintf_u (n : Z) : string := pretty (Z.to_N n).

Lemma sprintf_u_inj a b : 0 ≤ a → 0 ≤ b → sprintf_u a = sprintf_u b → a = b.
Proof. unfold sprintf_u. intros Ha Hb E. apply (inj pretty) in E. lia. Qed.

Lemma char_val_byte c : is_byte (char_val c).
Proof.
  unfold char_val, is_u. pose proof (Ascii.N_ascii_bounded c). change (2 ^ 8) with 256. lia.
Qed.

Lemma bytes_of_byte s : Forall is_byte (bytes_of s).
Proof. apply Forall_forall. intros b (c & <- & _)%list_elem_of_In%in_map_iff. apply char_val_byte. Qed.

Lemma string_of_bytes_of s : string_of (bytes_of s) = s.
Proof.
  unfold string_of, bytes_of. rewrite map_map.
  rewrite <- (String.string_of_list_ascii_of_string s) at 2. f_equal.
  rewrite <- (map_id (String.list_ascii_of_string s)) at 2. apply map_ext. intros c.
  unfold char_val. rewrite N2Z.id. apply Ascii.ascii_N_embedding.
Qed.

Lemma bytes_of_string_of bs : Forall is_byte bs → bytes_of (string_of bs) = bs.
Proof.
  intros Hb. unfold string_of, bytes_of. rewrite String.list_ascii_of_string_of_list_ascii, map_map.
  rewrite <- (map_id bs) at 2. apply map_ext_in. intros b Hin.
  apply (proj1 (List.Forall_forall _ _) Hb) in Hin. unfold char_val.
  rewrite Ascii.N_ascii_embedding; int_solve.
Qed.
