(* ===== verification/Package.v ===== *)
(** * The Pomelo package layer ([src/src/package.c])

    A package is a type byte, a 24-bit big-endian body length and the body.
    [pc_pkg_encode] builds one; the parser [pc_pkg_parser_t] is a state machine
    fed with TCP chunks of any size that calls back for each complete package.
    The parser lives inside a host (the client), which the callback may change:
    the host is the class [ParserHost], and the theorems about the parser hold
    for every host that satisfies [ParserHostOk]. *)

From S2P Require Import Prelude.
Local Open Scope Z_scope.

Definition PC_PKG_TYPE_MASK : Z := 0xff.
Definition PC_PKG_TYPE_BYTES : Z := 1.
Definition PC_PKG_BODY_LEN_BYTES : Z := 3.
Definition PC_PKG_HEAD_BYTES : Z := PC_PKG_TYPE_BYTES + PC_PKG_BODY_LEN_BYTES.
Definition PC_PKG_MAX_BODY_BYTES : Z := Z.shiftl 1 24.

Inductive pc_pkg_parser_state := PC_PKG_HEAD | PC_PKG_BODY | PC_PKG_CLOSED.

#[export] Instance pc_pkg_parser_state_eq_dec : EqDecision pc_pkg_parser_state.
Proof. solve_decision. Defined.

(** The enum [pc_pkg_type_e], by its values. *)
Definition PC_PKG_HANDSHAKE : Z := 1.
Definition PC_PKG_HANDSHAKE_ACK : Z := 2.
Definition PC_PKG_HEARBEAT : Z := 3.
Definition PC_PKG_DATA : Z := 4.
Definition PC_PKG_KICK : Z := 5.

(** The body buffer: a null pointer, an allocated block, or a pointer left
    dangling by [free]. *)
Inductive pkg_ptr := PNull | PBuf (b : bytes) | PFreed.

Record pc_pkg_parser_t := mkParser {
  head_buf : bytes;
  pkg_buf : pkg_ptr;
  head_offset : Z;
  head_size : Z;
  pkg_offset : Z;
  pkg_size : Z;
  state : pc_pkg_parser_state
}.

(** ** Encoding *)

(** The loop that stores the length, low byte last: [n] iterations, the
    current position [base] and what remains of [body_size]. *)
Fixpoint pkg_encode_len (n : nat) (buf : bytes) (base body_size : Z) : exec bytes :=
  match n with
  | O => Val buf
  | S n =>
      buf ← memcpy_to buf base [body_size mod 0x100];
      pkg_encode_len n buf (base - 1) (Z.shiftr body_size 8)
  end.

(** [None] is [buf.len = -1]; [malloc_ok] is the outcome of the allocation. *)
Definition pc_pkg_encode (malloc_ok : bool) (type : Z) (data : bytes) (len : Z)
  : exec (option bytes) :=
  if len >=? PC_PKG_MAX_BODY_BYTES then Val None
  else
    let size := u64 (PC_PKG_HEAD_BYTES + len) in
    if negb malloc_ok then Val None
    else
      let base := zeros size in
      base ← memcpy_to base 0 [u8 (Z.land type PC_PKG_TYPE_MASK)];
      if negb (len =? 0) then
        base ← pkg_encode_len (Z.to_nat PC_PKG_BODY_LEN_BYTES) base
                 (PC_PKG_HEAD_BYTES - 1) len;
        body ← memcpy_from data 0 len;
        base ← memcpy_to base PC_PKG_HEAD_BYTES body;
        Val (Some base)
      else Val (Some base).

(** ** The parser *)

Definition pc_pkg_parser_init (parser : pc_pkg_parser_t) : pc_pkg_parser_t :=
  {| head_buf := head_buf parser; pkg_buf := pkg_buf parser;
     head_offset := 0; head_size := PC_PKG_HEAD_BYTES;
     pkg_offset := 0; pkg_size := 0; state := PC_PKG_HEAD |}.

(** [malloc] then [memset] to zero, then [pc_pkg_parser_init]; the zeroed
    state field is overwritten before anything reads it. *)
Definition pc_pkg_parser_new (malloc_ok : bool) : option pc_pkg_parser_t :=
  if malloc_ok then
    Some (pc_pkg_parser_init
      {| head_buf := zeros PC_PKG_HEAD_BYTES; pkg_buf := PNull;
         head_offset := 0; head_size := 0; pkg_offset := 0; pkg_size := 0;
         state := PC_PKG_HEAD |})
  else None.

(** [free(parser->pkg_buf)] behind the null test. *)
Definition free_pkg_buf (p : pkg_ptr) : exec pkg_ptr :=
  match p with PNull => Val PNull | PBuf _ => Val PFreed | PFreed => UB end.

Definition pc_pkg_parser_close (p : pc_pkg_parser_t) : exec pc_pkg_parser_t :=
  match state p with
  | PC_PKG_CLOSED => Val p
  | _ =>
      b ← free_pkg_buf (pkg_buf p);
      Val {| head_buf := head_buf p; pkg_buf := b; head_offset := head_offset p;
             head_size := head_size p; pkg_offset := pkg_offset p;
             pkg_size := pkg_size p; state := PC_PKG_CLOSED |}
  end.

Definition pc_pkg_parser_reset (p : pc_pkg_parser_t) : exec pc_pkg_parser_t :=
  match state p with
  | PC_PKG_CLOSED => Val p
  | _ =>
      _ ← free_pkg_buf (pkg_buf p);
      Val {| head_buf := head_buf p; pkg_buf := PNull; head_offset := 0;
             head_size := head_size p; pkg_offset := 0; pkg_size := 0;
             state := PC_PKG_HEAD |}
  end.

(** What the parser is embedded in: the owner of the parser structure, the
    allocator's answers and the package callback with its attachment. *)
Class ParserHost (S : Type) := {
  host_parser : S → pc_pkg_parser_t;
  host_set_parser : pc_pkg_parser_t → S → S;
  host_malloc : S → Z → bool;
  host_cb : Z → bytes → S → exec S
}.

(** The length field of the head, [i] from 1 to [PC_PKG_HEAD_BYTES - 1]. *)
Fixpoint pkg_head_len (n : nat) (i pkg_len : Z) (buf : bytes) : exec Z :=
  match n with
  | O => Val pkg_len
  | S n =>
      b ← rd buf i;
      let pkg_len := if i >? 1 then u64 (Z.shiftl pkg_len 8) else pkg_len in
      pkg_head_len n (i + 1) (u64 (pkg_len + Z.land (s8 b) 0xff)) buf
  end.

Section Parser.
Context {S : Type} `{PH : ParserHost S}.

(** [None] is the return value -1. *)
Definition pc__pkg_head (s : S) (data : bytes) (offset nread : Z)
  : exec (S * option Z) :=
  let p := host_parser s in
  let need_len := u64 (head_size p - head_offset p) in
  let data_len := u64 (nread - offset) in
  let len := Z.min need_len data_len in
  src ← memcpy_from data offset len;
  hb ← memcpy_to (head_buf p) (head_offset p) src;
  let ho := u64 (head_offset p + len) in
  let p := {| head_buf := hb; pkg_buf := pkg_buf p; head_offset := ho;
              head_size := head_size p; pkg_offset := pkg_offset p;
              pkg_size := pkg_size p; state := state p |} in
  if ho =? head_size p then
    pkg_len ← pkg_head_len (Z.to_nat (PC_PKG_HEAD_BYTES - 1)) 1 0 hb;
    if (pkg_len >? 0) && negb (host_malloc s pkg_len) then
      Val (host_set_parser
             {| head_buf := hb; pkg_buf := PNull; head_offset := ho;
                head_size := head_size p; pkg_offset := pkg_offset p;
                pkg_size := pkg_size p; state := state p |} s, None)
    else
      let b := if pkg_len >? 0 then PBuf (zeros pkg_len) else pkg_buf p in
      Val (host_set_parser
             {| head_buf := hb; pkg_buf := b; head_offset := ho;
                head_size := head_size p; pkg_offset := 0;
                pkg_size := pkg_len; state := PC_PKG_BODY |} s,
           Some (u64 (offset + len)))
  else Val (host_set_parser p s, Some (u64 (offset + len))).

(** [memcpy] into the body buffer. *)
Definition pkg_buf_write (b : pkg_ptr) (off : Z) (src : bytes) : exec pkg_ptr :=
  match b with
  | PBuf buf => buf ← memcpy_to buf off src; Val (PBuf buf)
  | _ => UB
  end.

(** The bytes the callback may read through [(pkg_buf, pkg_size)]. *)
Definition pkg_buf_view (b : pkg_ptr) (size : Z) : exec bytes :=
  match b with
  | PBuf buf => memcpy_from buf 0 size
  | PNull => if size =? 0 then Val [] else UB
  | PFreed => UB
  end.

Definition pc__pkg_type (head : bytes) : exec Z :=
  b ← rd head 0; Val (Z.land (s8 b) 0xff).

Definition pc__pkg_body (s : S) (data : bytes) (offset nread : Z)
  : exec (S * Z) :=
  let p := host_parser s in
  let need_len := u64 (pkg_size p - pkg_offset p) in
  let data_len := u64 (nread - offset) in
  let len := Z.min need_len data_len in
  b ← (if len >? 0 then
         src ← memcpy_from data offset len;
         pkg_buf_write (pkg_buf p) (pkg_offset p) src
       else Val (pkg_buf p));
  let po := if len >? 0 then u64 (pkg_offset p + len) else pkg_offset p in
  let s := host_set_parser
             {| head_buf := head_buf p; pkg_buf := b; head_offset := head_offset p;
                head_size := head_size p; pkg_offset := po;
                pkg_size := pkg_size p; state := state p |} s in
  if po =? pkg_size p then
    ty ← pc__pkg_type (head_buf p);
    body ← pkg_buf_view b (pkg_size p);
    s ← host_cb ty body s;
    p' ← pc_pkg_parser_reset (host_parser s);
    Val (host_set_parser p' s, u64 (offset + len))
  else Val (s, u64 (offset + len)).

(** The loop of [pc_pkg_parser_feed]; the result is [true] for the return
    value 0. *)
Fixpoint feed_loop (fuel : nat) (s : S) (data : bytes) (offset nread : Z)
  : exec (S * bool) :=
  match fuel with
  | O => NoFuel
  | Datatypes.S fuel =>
      if offset <? nread then
        '(s, r) ← (if decide (state (host_parser s) = PC_PKG_HEAD)
                   then pc__pkg_head s data offset nread
                   else Val (s, Some offset));
        match r with
        | None => Val (s, false)
        | Some offset =>
            '(s, offset) ← (if decide (state (host_parser s) = PC_PKG_BODY)
                            then pc__pkg_body s data offset nread
                            else Val (s, offset));
            match state (host_parser s) with
            | PC_PKG_CLOSED => Val (s, true)
            | _ => feed_loop fuel s data offset nread
            end
        end
      else Val (s, true)
  end.

(** Every iteration consumes a byte, so [length data + 1] iterations are
    enough ([feed_total]). *)
Definition pc_pkg_parser_feed (s : S) (data : bytes) : exec (S * bool) :=
  feed_loop (length data + 1) s data 0 (zlen data).

End Parser.

(** ** Well-formed parsers *)

(** The body length announced by a head. *)
Definition head_len (hb : bytes) : Z :=
  match hb with
  | [_; b1; b2; b3] => u8 b1 * 65536 + u8 b2 * 256 + u8 b3
  | _ => 0
  end.

Lemma head_len_range hb : 0 ≤ head_len hb < 2 ^ 24.
Proof.
  destruct hb as [|? [|b1 [|b2 [|b3 [|]]]]]; simpl; try lia.
  pose proof (wrap_range 8 b1); pose proof (wrap_range 8 b2);
  pose proof (wrap_range 8 b3). int_solve.
Qed.

Lemma pkg_head_len_eq hb : length hb = 4%nat → pkg_head_len 3 1 0 hb = Val (head_len hb).
Proof.
  destruct hb as [|t [|b1 [|b2 [|b3 [|]]]]]; try done. intros _. simpl.
  unfold rd. simpl. rewrite !land_s8_255.
  pose proof (wrap_range 8 b1); pose proof (wrap_range 8 b2);
  pose proof (wrap_range 8 b3).
  rewrite !Z.shiftl_mul_pow2 by lia. change (2 ^ 8) with 256 in *.
  f_equal. unfold is_u in *. change (2 ^ 8) with 256 in *.
  rewrite (wrap_small 64 (0 + u8 b1)) by int_solve.
  rewrite (wrap_small 64 ((0 + u8 b1) * 256)) by int_solve.
  rewrite (wrap_small 64 ((0 + u8 b1) * 256 + u8 b2)) by int_solve.
  rewrite (wrap_small 64 (((0 + u8 b1) * 256 + u8 b2) * 256)) by int_solve.
  rewrite wrap_small by int_solve. lia.
Qed.

(** Between two calls of [pc_pkg_parser_feed]. *)
Definition parser_wf (p : pc_pkg_parser_t) : Prop :=
  length (head_buf p) = 4%nat ∧ head_size p = 4 ∧
  match state p with
  | PC_PKG_HEAD =>
      0 ≤ head_offset p ≤ 4 ∧ pkg_buf p = PNull ∧
      (head_offset p = 4 → 0 < head_len (head_buf p))
  | PC_PKG_BODY =>
      head_offset p = 4 ∧ pkg_size p = head_len (head_buf p) ∧
      0 ≤ pkg_offset p < pkg_size p ∧
      ∃ b, pkg_buf p = PBuf b ∧ zlen b = pkg_size p
  | PC_PKG_CLOSED => True
  end.

(** On entry of [pc__pkg_body]: also the finished and the empty body. *)
Definition body_wf (p : pc_pkg_parser_t) : Prop :=
  length (head_buf p) = 4%nat ∧ head_size p = 4 ∧ head_offset p = 4 ∧
  pkg_size p = head_len (head_buf p) ∧ 0 ≤ pkg_offset p ≤ pkg_size p ∧
  (pkg_size p = 0 ∧ pkg_buf p = PNull ∨
   ∃ b, pkg_buf p = PBuf b ∧ zlen b = pkg_size p).

(** What a host promises to the parser it embeds: the parser is a field, and
    the callback, called on a complete package, returns with a parser that can
    be reset (it may have reset or closed it). [host_inv] is the host's own
    invariant. *)
Class ParserHostOk (S : Type) `{ParserHost S} := {
  host_inv : S → Prop;
  host_get_set : ∀ p s, host_parser (host_set_parser p s) = p;
  host_set_set : ∀ p q s, host_set_parser p (host_set_parser q s) = host_set_parser p s;
  host_set_get : ∀ s, host_set_parser (host_parser s) s = s;
  host_inv_set : ∀ p s, host_inv s → host_inv (host_set_parser p s);
  host_cb_ok : ∀ ty body s, host_inv s → body_wf (host_parser s) →
    ∃ s', host_cb ty body s = Val s' ∧ host_inv s' ∧
      length (head_buf (host_parser s')) = 4%nat ∧
      head_size (host_parser s') = 4 ∧
      (pkg_buf (host_parser s') = PFreed → state (host_parser s') = PC_PKG_CLOSED)
}.

Section ParserSteps.
Context {S : Type} `{PH : ParserHost S}.

(** The parser after [chunk] has been appended to the head. *)
Definition head_fill (p : pc_pkg_parser_t) (chunk : bytes) : pc_pkg_parser_t :=
  {| head_buf := take (Z.to_nat (head_offset p)) (head_buf p) ++ chunk ++
                 drop (Z.to_nat (head_offset p) + length chunk) (head_buf p);
     pkg_buf := pkg_buf p; head_offset := head_offset p + zlen chunk;
     head_size := head_size p; pkg_offset := pkg_offset p;
     pkg_size := pkg_size p; state := state p |}.

Definition start_body (p : pc_pkg_parser_t) : pc_pkg_parser_t :=
  {| head_buf := head_buf p;
     pkg_buf := if head_len (head_buf p) >? 0
                then PBuf (zeros (head_len (head_buf p))) else pkg_buf p;
     head_offset := head_offset p; head_size := head_size p; pkg_offset := 0;
     pkg_size := head_len (head_buf p); state := PC_PKG_BODY |}.

(** How much of [rem] completes the head. *)
Definition head_chunk (p : pc_pkg_parser_t) (rem : bytes) : bytes :=
  take (Z.to_nat (4 - head_offset p)) rem.

Lemma head_fill_length p rem :
  length (head_buf p) = 4%nat → 0 ≤ head_offset p ≤ 4 →
  length (head_buf (head_fill p (head_chunk p rem))) = 4%nat.
Proof.
  intros Hl Ho. unfold head_fill, head_chunk. simpl.
  rewrite !length_app, !length_drop, !length_take. lia.
Qed.

Lemma pkg_head_step s pre rem :
  zlen (pre ++ rem) < 2 ^ 64 →
  length (head_buf (host_parser s)) = 4%nat → head_size (host_parser s) = 4 →
  0 ≤ head_offset (host_parser s) ≤ 4 → pkg_buf (host_parser s) = PNull →
  let p := host_parser s in
  let p1 := head_fill p (head_chunk p rem) in
  let off := Some (zlen pre + zlen (head_chunk p rem)) in
  pc__pkg_head s (pre ++ rem) (zlen pre) (zlen (pre ++ rem)) =
    if head_offset p1 =? 4 then
      if (head_len (head_buf p1) >? 0) && negb (host_malloc s (head_len (head_buf p1)))
      then Val (host_set_parser p1 s, None)
      else Val (host_set_parser (start_body p1) s, off)
    else Val (host_set_parser p1 s, off).
Proof.
  unfold pc__pkg_head. destruct (host_parser s) as [hb pb ho hs po ps st] eqn:Ep.
  cbn [head_buf head_size head_offset pkg_buf pkg_offset pkg_size state].
  intros Hn Hl -> Ho ->. set (p := mkParser hb PNull ho 4 po ps st).
  rewrite zlen_app in Hn. pose proof (zlen_nonneg pre). pose proof (zlen_nonneg rem).
  assert (zlen (head_chunk p rem) = Z.min (4 - ho) (zlen rem)) as Hc.
  { unfold head_chunk. rewrite zlen_take. simpl. lia. }
  rewrite zlen_app, (wrap_small 64 (4 - ho)) by int_solve.
  replace (zlen pre + zlen rem - zlen pre) with (zlen rem) by lia.
  rewrite (wrap_small 64 (zlen rem)) by int_solve. rewrite <- Hc.
  replace (pre ++ rem) with (pre ++ head_chunk p rem ++ drop (Z.to_nat (4 - ho)) rem)
    by (unfold head_chunk; by rewrite take_drop).
  rewrite memcpy_from_middle, bind_Val by done.
  rewrite memcpy_to_eq, bind_Val by (unfold zlen in *; lia).
  rewrite !(wrap_small 64) by int_solve.
  change (ho + zlen (head_chunk p rem)) with (head_offset (head_fill p (head_chunk p rem))).
  destruct (head_offset (head_fill p (head_chunk p rem)) =? 4); [|done].
  change (take _ hb ++ _) with (head_buf (head_fill p (head_chunk p rem))).
  change (Z.to_nat (PC_PKG_HEAD_BYTES - 1)) with 3%nat.
  rewrite pkg_head_len_eq, bind_Val by (by apply head_fill_length).
  destruct (_ && _); done.
Qed.

Definition body_bytes (p : pc_pkg_parser_t) : bytes :=
  match pkg_buf p with PBuf b => b | _ => [] end.

(** The parser after [chunk] has been appended to the body. *)
Definition body_fill (p : pc_pkg_parser_t) (chunk : bytes) : pc_pkg_parser_t :=
  {| head_buf := head_buf p;
     pkg_buf := match pkg_buf p with
                | PBuf b => PBuf (take (Z.to_nat (pkg_offset p)) b ++ chunk ++
                                  drop (Z.to_nat (pkg_offset p) + length chunk) b)
                | b => b
                end;
     head_offset := head_offset p; head_size := head_size p;
     pkg_offset := pkg_offset p + zlen chunk;
     pkg_size := pkg_size p; state := state p |}.

(** How much of [rem] belongs to the current body. *)
Definition body_chunk (p : pc_pkg_parser_t) (rem : bytes) : bytes :=
  take (Z.to_nat (pkg_size p - pkg_offset p)) rem.

Lemma body_fill_wf p rem : body_wf p → body_wf (body_fill p (body_chunk p rem)).
Proof.
  intros (Hl & Hs & Ho & Hps & Hpo & Hb). unfold body_wf, body_fill, body_chunk. simpl.
  repeat split; try done.
  - pose proof (zlen_nonneg (take (Z.to_nat (pkg_size p - pkg_offset p)) rem)). lia.
  - rewrite zlen_take. lia.
  - destruct Hb as [[? ->]|(b & -> & Hb)]; [by left|right].
    eexists; split; [done|]. autorewrite with zlen.
    pose proof (zlen_nonneg rem). unfold zlen in *. rewrite length_take. lia.
Qed.

Lemma pkg_type_eq hb : length hb = 4%nat → pc__pkg_type hb = Val (u8 (default 0 (head hb))).
Proof.
  destruct hb as [|t hb]; [done|]. intros _. unfold pc__pkg_type, rd. simpl.
  by rewrite land_s8_255.
Qed.

Lemma pkg_buf_view_eq p :
  body_wf p → pkg_buf_view (pkg_buf p) (pkg_size p) = Val (body_bytes p).
Proof.
  intros (_ & _ & _ & _ & _ & [[-> E]|(b & E & <-)]); unfold body_bytes; rewrite E; [done|].
  simpl. rewrite memcpy_from_eq by (unfold zlen; lia).
  unfold zlen. rewrite Nat2Z.id. by rewrite drop_0, firstn_all.
Qed.

Lemma pkg_body_step s pre rem :
  zlen (pre ++ rem) < 2 ^ 64 → body_wf (host_parser s) →
  let p := host_parser s in
  let p1 := body_fill p (body_chunk p rem) in
  let off := zlen pre + zlen (body_chunk p rem) in
  pc__pkg_body s (pre ++ rem) (zlen pre) (zlen (pre ++ rem)) =
    if pkg_offset p1 =? pkg_size p then
      s' ← host_cb (u8 (default 0 (head (head_buf p)))) (body_bytes p1) (host_set_parser p1 s);
      p' ← pc_pkg_parser_reset (host_parser s');
      Val (host_set_parser p' s', off)
    else Val (host_set_parser p1 s, off).
Proof.
  intros Hn Hwf p p1 off. pose proof Hwf as (Hl & _ & _ & Hps & Hpo & Hb).
  assert (body_wf p1) as Hwf1 by (by apply body_fill_wf).
  unfold pc__pkg_body. fold p in Hl, Hps, Hpo, Hb |- *.
  rewrite zlen_app in Hn. pose proof (zlen_nonneg pre). pose proof (zlen_nonneg rem).
  pose proof (head_len_range (head_buf p)).
  assert (zlen (body_chunk p rem) = Z.min (pkg_size p - pkg_offset p) (zlen rem)) as Hc.
  { unfold body_chunk. rewrite zlen_take. lia. }
  rewrite zlen_app, (wrap_small 64 (pkg_size p - pkg_offset p)) by int_solve.
  replace (zlen pre + zlen rem - zlen pre) with (zlen rem) by lia.
  rewrite (wrap_small 64 (zlen rem)) by int_solve. rewrite <- Hc.
  rewrite (wrap_small 64 (zlen pre + _)) by int_solve.
  rewrite (wrap_small 64 (pkg_offset p + _)) by int_solve.
  replace (if zlen (body_chunk p rem) >? 0 then pkg_offset p + zlen (body_chunk p rem)
           else pkg_offset p) with (pkg_offset p1)
    by (destruct (zlen (body_chunk p rem) >? 0) eqn:E; simpl; blia).
  assert ((if zlen (body_chunk p rem) >? 0 then
             src ← memcpy_from (pre ++ rem) (zlen pre) (zlen (body_chunk p rem));
             pkg_buf_write (pkg_buf p) (pkg_offset p) src
           else Val (pkg_buf p)) = Val (pkg_buf p1)) as ->.
  { destruct (zlen (body_chunk p rem) >? 0) eqn:E; b2p.
    - replace (pre ++ rem) with
        (pre ++ body_chunk p rem ++ drop (Z.to_nat (pkg_size p - pkg_offset p)) rem)
        by (unfold body_chunk; by rewrite take_drop).
      rewrite memcpy_from_middle, bind_Val by done.
      destruct Hb as [[? _]|(b & Hb & Hbl)]; [lia|]. subst p1. unfold body_fill.
      simpl. rewrite Hb. simpl. rewrite memcpy_to_eq by lia. done.
    - assert (body_chunk p rem = []) as E0.
      { destruct (body_chunk p rem); [done|]. rewrite zlen_cons in E.
        pose proof (zlen_nonneg l). lia. }
      subst p1. unfold body_fill. simpl. rewrite E0. simpl. rewrite Nat.add_0_r.
      destruct Hb as [[_ ->]|(b & -> & Hbl)]; [done|]. by rewrite take_drop. }
  rewrite bind_Val. change (mkParser _ _ _ _ _ _ _) with p1.
  destruct (pkg_offset p1 =? pkg_size p); [|done].
  rewrite pkg_type_eq, bind_Val by done.
  change (pkg_size p) with (pkg_size p1). rewrite pkg_buf_view_eq by done. done.
Qed.

End ParserSteps.

(** ** One iteration of the feeding loop *)

(** The bytes of the package in progress. *)
Definition pending (p : pc_pkg_parser_t) : bytes :=
  match state p with
  | PC_PKG_HEAD => take (Z.to_nat (head_offset p)) (head_buf p)
  | PC_PKG_BODY => head_buf p ++ take (Z.to_nat (pkg_offset p)) (body_bytes p)
  | PC_PKG_CLOSED => []
  end.

(** [bs] is shorter than the package it starts. *)
Definition incomplete (bs : bytes) : Prop :=
  zlen bs < 4 ∨ zlen bs < 4 + head_len (take 4 bs).

Lemma head_fill_pending p rem :
  length (head_buf p) = 4%nat → 0 ≤ head_offset p ≤ 4 → state p = PC_PKG_HEAD →
  pending (head_fill p (head_chunk p rem)) = pending p ++ head_chunk p rem.
Proof.
  intros Hl Ho Hst. unfold pending, head_fill. simpl. rewrite Hst, app_assoc.
  apply take_app_length'. unfold head_chunk, zlen.
  rewrite !length_app, !length_take. lia.
Qed.

Lemma body_fill_pending p rem :
  body_wf p → state p = PC_PKG_BODY →
  pending (body_fill p (body_chunk p rem)) = pending p ++ body_chunk p rem.
Proof.
  intros (Hl & Hs & Ho & Hps & Hpo & Hb) Hst. unfold pending, body_fill, body_bytes. simpl.
  rewrite Hst, <- app_assoc. f_equal.
  destruct Hb as [[E ->]|(b & -> & Hbl)].
  - unfold body_chunk. replace (Z.to_nat (pkg_size p - pkg_offset p)) with 0%nat by lia.
    rewrite take_0. simpl. by rewrite !take_nil.
  - rewrite app_assoc. apply take_app_length'. unfold body_chunk, zlen in *.
    rewrite !length_app, !length_take. lia.
Qed.

Lemma start_body_wf p :
  length (head_buf p) = 4%nat → head_size p = 4 → head_offset p = 4 →
  pkg_buf p = PNull → body_wf (start_body p) ∧ pending (start_body p) = head_buf p.
Proof.
  intros Hl Hs Ho Hb. pose proof (head_len_range (head_buf p)).
  unfold body_wf, pending, start_body. simpl. rewrite take_0, app_nil_r.
  repeat split; try done; try lia.
  destruct (head_len (head_buf p) >? 0) eqn:E; b2p.
  - right. eexists; split; [done|]. rewrite zlen_zeros; lia.
  - left. split; [lia|done].
Qed.

Lemma body_wf_pending p :
  body_wf p → state p = PC_PKG_BODY → pkg_offset p = pkg_size p →
  pending p = head_buf p ++ body_bytes p.
Proof.
  intros (_ & _ & _ & _ & _ & Hb) Hst Hpo. unfold pending. rewrite Hst. f_equal.
  unfold body_bytes. destruct Hb as [[? ->]|(b & -> & Hbl)]; [by rewrite take_nil|].
  apply take_ge. unfold zlen in *. lia.
Qed.

Lemma body_bytes_length p : body_wf p → zlen (body_bytes p) = head_len (head_buf p).
Proof.
  intros (_ & _ & _ & Hps & _ & Hb). unfold body_bytes.
  destruct Hb as [[? ->]|(b & -> & Hbl)]; [rewrite zlen_nil|]; lia.
Qed.

Lemma incomplete_body p :
  body_wf p → state p = PC_PKG_BODY → pkg_offset p < pkg_size p → incomplete (pending p).
Proof.
  intros Hwf Hst Hlt. pose proof (body_bytes_length p Hwf) as Hbb.
  destruct Hwf as (Hl & _ & _ & Hps & Hpo & _). right. unfold pending. rewrite Hst.
  rewrite (take_app_length' (head_buf p) _ 4) by lia.
  rewrite zlen_app, zlen_take, Hbb. unfold zlen. lia.
Qed.

Section Iteration.
Context {S : Type} `{PH : ParserHost S}.
Context (get_set : ∀ p s, host_parser (host_set_parser p s) = p)
        (set_set : ∀ p q s, host_set_parser p (host_set_parser q s) = host_set_parser p s)
        (set_get : ∀ s, host_set_parser (host_parser s) s = s).

(** The second half of an iteration, from a parser in its body state. *)
Lemma body_half s pre rem :
  zlen (pre ++ rem) < 2 ^ 64 → body_wf (host_parser s) →
  state (host_parser s) = PC_PKG_BODY →
  (∃ p', parser_wf p' ∧ state p' ≠ PC_PKG_CLOSED ∧
     pending p' = pending (host_parser s) ++ rem ∧ incomplete (pending p') ∧
     pc__pkg_body s (pre ++ rem) (zlen pre) (zlen (pre ++ rem)) =
       Val (host_set_parser p' s, zlen (pre ++ rem))) ∨
  (∃ c rest p', rem = c ++ rest ∧ body_wf p' ∧ state p' = PC_PKG_BODY ∧
     pending (host_parser s) ++ c = head_buf p' ++ body_bytes p' ∧
     pc__pkg_body s (pre ++ rem) (zlen pre) (zlen (pre ++ rem)) =
       (s' ← host_cb (u8 (default 0 (head (head_buf p')))) (body_bytes p')
               (host_set_parser p' s);
        q ← pc_pkg_parser_reset (host_parser s');
        Val (host_set_parser q s', zlen (pre ++ c)))).
Proof.
  intros Hn Hwf Hst. rewrite pkg_body_step by done.
  set (p := host_parser s) in *. set (p1 := body_fill p (body_chunk p rem)).
  assert (body_wf p1) as Hwf1 by (by apply body_fill_wf).
  assert (pending p1 = pending p ++ body_chunk p rem) as Hp by (by apply body_fill_pending).
  pose proof Hwf as (Hl & Hs & Ho & Hps & Hpo & Hb).
  destruct (pkg_offset p1 =? pkg_size p) eqn:E; b2p.
  - right. exists (body_chunk p rem), (drop (Z.to_nat (pkg_size p - pkg_offset p)) rem), p1.
    split; [unfold body_chunk; by rewrite take_drop|]. split; [done|]. split; [done|]. split.
    + rewrite <- Hp. by apply body_wf_pending.
    + by rewrite zlen_app.
  - left. pose proof Hwf1 as (_ & _ & _ & _ & Hpo1 & Hb1).
    assert (body_chunk p rem = rem) as Hall.
    { unfold body_chunk. apply take_ge.
      simpl in E, Hpo1. unfold body_chunk in E, Hpo1. rewrite zlen_take in *. unfold zlen in *. lia. }
    change (pkg_size p1) with (pkg_size p) in *.
    exists p1. rewrite Hall in Hp. split; [|split; [|split; [done|split]]].
    + split; [done|]. split; [done|]. change (state p1) with (state p). rewrite Hst.
      split; [done|]. split; [done|]. split; [change (pkg_size p1) with (pkg_size p); lia|].
      destruct Hb1 as [[? _]|?]; [simpl in *; lia|done].
    + change (state p1) with (state p). by rewrite Hst.
    + apply incomplete_body; [done|done|]. change (pkg_size p1) with (pkg_size p). lia.
    + by rewrite Hall, zlen_app.
Qed.

Lemma wf_incomplete p : parser_wf p → state p ≠ PC_PKG_CLOSED → incomplete (pending p).
Proof.
  intros (Hl & Hs & H) Hne. destruct (state p) eqn:Hst; [| |done].
  - destruct H as (Ho & Hb & H4). unfold pending. rewrite Hst.
    destruct (decide (head_offset p = 4)) as [E|].
    + right. specialize (H4 E). rewrite E.
      rewrite !(take_ge (head_buf p)) by lia. unfold zlen. lia.
    + left. rewrite zlen_take. unfold zlen. lia.
  - destruct H as (Ho & Hps & Hpo & b & Hb & Hbl). apply incomplete_body; [|done|lia].
    repeat split; try done; try lia. eauto.
Qed.

Lemma complete_not_incomplete p : body_wf p → ¬ incomplete (head_buf p ++ body_bytes p).
Proof.
  intros Hwf. pose proof (body_bytes_length p Hwf) as Hbb. destruct Hwf as (Hl & _).
  pose proof (head_len_range (head_buf p)). unfold incomplete.
  rewrite (take_app_length' (head_buf p) _ 4), zlen_app, Hbb by lia. unfold zlen. lia.
Qed.

(** What an iteration does, from a parser that can go on: a body that does not
    fit in memory, a package still incomplete, or a callback. *)
Definition iter_done (p : pc_pkg_parser_t) (rem : bytes) (s : S) (run : exec (S * bool)) : Prop :=
  ∃ p', parser_wf p' ∧ state p' ≠ PC_PKG_CLOSED ∧ pending p' = pending p ++ rem ∧
    incomplete (pending p') ∧ run = Val (host_set_parser p' s, true).

Definition iter_call (fuel : nat) (p : pc_pkg_parser_t) (pre rem : bytes) (s : S)
    (run : exec (S * bool)) : Prop :=
  ∃ c rest p', rem = c ++ rest ∧ c ≠ [] ∧ body_wf p' ∧ state p' = PC_PKG_BODY ∧
    pending p ++ c = head_buf p' ++ body_bytes p' ∧
    run = (s' ← host_cb (u8 (default 0 (head (head_buf p')))) (body_bytes p')
                  (host_set_parser p' s);
           q ← pc_pkg_parser_reset (host_parser s');
           match state q with
           | PC_PKG_CLOSED => Val (host_set_parser q s', true)
           | _ => feed_loop fuel (host_set_parser q s') ((pre ++ c) ++ rest)
                    (zlen (pre ++ c)) (zlen ((pre ++ c) ++ rest))
           end).

Lemma iter_from_body fuel s pre c1 rest1 p p1 :
  zlen (pre ++ c1 ++ rest1) < 2 ^ 64 → incomplete (pending p) → fuel ≠ O →
  body_wf p1 → state p1 = PC_PKG_BODY → pending p1 = pending p ++ c1 →
  let rem := c1 ++ rest1 in
  let run :=
    '(s, offset) ← pc__pkg_body (host_set_parser p1 s) (pre ++ rem) (zlen (pre ++ c1))
                     (zlen (pre ++ rem));
    match state (host_parser s) with
    | PC_PKG_CLOSED => Val (s, true)
    | _ => feed_loop fuel s (pre ++ rem) offset (zlen (pre ++ rem))
    end in
  iter_done p rem s run ∨ iter_call fuel p pre rem s run.
Proof.
  intros Hn Hinc Hf Hwf1 Hst1 Hp1 rem run. subst rem run.
  replace (pre ++ c1 ++ rest1) with ((pre ++ c1) ++ rest1) in * by (by rewrite app_assoc).
  destruct (body_half (host_set_parser p1 s) (pre ++ c1) rest1)
    as [(p' & Hw & Hnc' & Hpend & Hi & E)|(c & rest & p' & Ec & Hw & Hst' & Hpend & E)];
    rewrite ?get_set; try done; rewrite get_set, Hp1, <- app_assoc in Hpend;
    rewrite set_set in E; rewrite E.
  - left. exists p'. repeat (split; [done|]). rewrite bind_Val, get_set.
    destruct fuel; [done|]. destruct (state p') eqn:?; [..|done]; simpl; by rewrite Z.ltb_irrefl.
  - right. exists (c1 ++ c), rest, p'. subst rest1.
    split; [by rewrite app_assoc|]. split; [|split; [done|split; [done|split; [done|]]]].
    + intros E0. apply (complete_not_incomplete p' Hw). by rewrite <- Hpend, E0, app_nil_r.
    + rewrite bind_assoc. rewrite <- !app_assoc.
      destruct (host_cb _ _ _); simpl; [|done..].
      destruct (pc_pkg_parser_reset _); simpl; [|done..]. by rewrite get_set.
Qed.

Lemma feed_iter fuel s pre rem :
  zlen (pre ++ rem) < 2 ^ 64 → parser_wf (host_parser s) →
  state (host_parser s) ≠ PC_PKG_CLOSED → rem ≠ [] → (length rem < Datatypes.S fuel)%nat →
  let p := host_parser s in
  let run := feed_loop (Datatypes.S fuel) s (pre ++ rem) (zlen pre) (zlen (pre ++ rem)) in
  (∃ p', parser_wf p' ∧ host_malloc s (head_len (head_buf p')) = false ∧
     run = Val (host_set_parser p' s, false)) ∨
  iter_done p rem s run ∨ iter_call fuel p pre rem s run.
Proof.
  intros Hn Hwf Hnc Hrem Hf. cbv zeta. pose proof (wf_incomplete _ Hwf Hnc) as Hinc.
  assert (fuel ≠ O) as Hfuel by (destruct rem; simpl in Hf; [done|lia]).
  assert ((zlen pre <? zlen (pre ++ rem)) = true) as Hlt.
  { apply Z.ltb_lt. rewrite zlen_app. destruct rem; [done|]. rewrite zlen_cons.
    pose proof (zlen_nonneg rem). lia. }
  cbn [feed_loop]. rewrite Hlt. destruct Hwf as (Hl & Hs & Hwf).
  destruct (state (host_parser s)) eqn:Hst; [| |done].
  - destruct Hwf as (Ho & Hb & H4). rewrite decide_True by done.
    rewrite pkg_head_step by done. cbv zeta.
    set (p := host_parser s) in *. set (p1 := head_fill p (head_chunk p rem)).
    assert (length (head_buf p1) = 4%nat) as Hl1 by (by apply head_fill_length).
    assert (pending p1 = pending p ++ head_chunk p rem) as Hp1 by (by apply head_fill_pending).
    destruct (head_offset p1 =? 4) eqn:E4; b2p; [destruct (_ && _) eqn:Em|].
    + left. b2p. exists p1. split; [|by split].
      split; [done|]. split; [done|]. change (state p1) with (state p). rewrite Hst.
      split; [lia|]. split; [done|lia].
    + right. rewrite bind_Val. cbv iota beta. rewrite get_set, decide_True by done.
      rewrite <- zlen_app. destruct (start_body_wf p1) as [Hw Hpd]; [done..|].
      pose proof (iter_from_body fuel s pre (head_chunk p rem)
        (drop (Z.to_nat (4 - head_offset p)) rem) p (start_body p1)) as Hi.
      replace (head_chunk p rem ++ drop (Z.to_nat (4 - head_offset p)) rem) with rem in Hi
        by (unfold head_chunk; by rewrite take_drop).
      apply Hi; try done. rewrite Hpd. unfold pending in Hp1 at 1. change (state p1) with (state p) in Hp1.
      rewrite Hst, E4, take_ge in Hp1 by lia. done.
    + right; left. rewrite bind_Val. cbv iota beta. rewrite get_set.
      change (state p1) with (state p). rewrite Hst, decide_False by done. rewrite bind_Val.
      rewrite get_set. change (state p1) with (state p). rewrite Hst.
      assert (head_chunk p rem = rem) as Hall.
      { unfold head_chunk. apply take_ge. simpl in E4. unfold head_chunk in E4.
        rewrite zlen_take in E4. unfold zlen in *. lia. }
      assert (parser_wf p1) as Hw1.
      { split; [done|]. split; [done|]. change (state p1) with (state p). rewrite Hst.
        subst p1. simpl in *. rewrite Hall in *. pose proof (zlen_nonneg rem).
        split; [|split; [done|lia]]. split; [lia|].
        rewrite <- Hall. unfold head_chunk. rewrite zlen_take. lia. }
      rewrite Hall in *. exists p1. split; [done|].
      split; [change (state p1) with (state p); by rewrite Hst|]. split; [done|]. split.
      * apply wf_incomplete; [done|]. change (state p1) with (state p). by rewrite Hst.
      * rewrite <- zlen_app. destruct fuel; [done|]. simpl. by rewrite Z.ltb_irrefl.
  - right. rewrite decide_False by done. rewrite bind_Val. cbv iota beta.
    rewrite decide_True by done. destruct Hwf as (Ho & Hps & Hpo & b & Hb & Hbl).
    pose proof (iter_from_body fuel s pre [] rem (host_parser s) (host_parser s)) as Hi.
    cbn [app] in Hi. cbv zeta in Hi. rewrite set_get, !app_nil_r in Hi. apply Hi; try done.
    repeat split; try done; try lia. eauto.
Qed.

End Iteration.

Lemma reset_wf p :
  length (head_buf p) = 4%nat → head_size p = 4 →
  (pkg_buf p = PFreed → state p = PC_PKG_CLOSED) →
  ∃ q, pc_pkg_parser_reset p = Val q ∧ parser_wf q ∧ pending q = [].
Proof.
  intros Hl Hs Hf. unfold pc_pkg_parser_reset, parser_wf, pending.
  destruct (state p) eqn:Hst.
  3: { eexists; split; [done|]. by rewrite Hst. }
  all: destruct (pkg_buf p) eqn:Hb; [..|by specialize (Hf eq_refl)]; simpl;
    eexists; (split; [done|]); simpl; repeat split; try done; lia.
Qed.

(** For every host that keeps its promises, feeding
    a well-formed parser any chunk returns (the loop ends within its bound and
    no access is out of bounds, no buffer is freed twice or used after being
    freed) and leaves the parser well formed. *)
Theorem feed_safe {S} `{ParserHostOk S} (s : S) (data : bytes) :
  zlen data < 2 ^ 64 → host_inv s → parser_wf (host_parser s) →
  ∃ s' ok, pc_pkg_parser_feed s data = Val (s', ok) ∧ host_inv s' ∧
    parser_wf (host_parser s').
Proof.
  intros Hn Hi Hwf. unfold pc_pkg_parser_feed.
  assert (∀ fuel pre rem s, zlen (pre ++ rem) < 2 ^ 64 → (length rem < fuel)%nat →
    host_inv s → parser_wf (host_parser s) →
    ∃ s' ok, feed_loop fuel s (pre ++ rem) (zlen pre) (zlen (pre ++ rem)) = Val (s', ok) ∧
      host_inv s' ∧ parser_wf (host_parser s')) as Hloop; [|by apply (Hloop _ []); try lia].
  clear s data Hn Hi Hwf. induction fuel as [|fuel IH]; [lia|]. intros pre rem s Hn Hf Hi Hwf.
  destruct (decide (rem = [])) as [->|Hrem].
  { rewrite app_nil_r. simpl. rewrite Z.ltb_irrefl. eauto. }
  destruct (decide (state (host_parser s) = PC_PKG_CLOSED)) as [Hc|Hc].
  { simpl. destruct (_ <? _); [|eauto]. rewrite decide_False by congruence. simpl.
    rewrite decide_False by congruence. simpl. rewrite Hc. eauto. }
  destruct (feed_iter host_get_set host_set_set host_set_get fuel s pre rem)
    as [(p' & Hw & _ & ->)|[(p' & Hw & _ & _ & _ & ->)|(c & rest & p' & -> & Hc0 & Hw & _ & _ & ->)]];
    try done.
  1, 2: eexists _, _; split; [done|]; rewrite host_get_set; eauto using host_inv_set.
  destruct (host_cb_ok (u8 (default 0 (head (head_buf p')))) (body_bytes p')
              (host_set_parser p' s)) as (s' & -> & Hi' & Hl' & Hs' & Hb');
    [by apply host_inv_set|by rewrite host_get_set|].
  destruct (reset_wf (host_parser s')) as (q & Hq & Hqw & _); [done..|].
  rewrite bind_Val, Hq, bind_Val.
  assert ((length rest < fuel)%nat).
  { rewrite length_app in Hf. destruct c; [done|]. simpl in Hf. lia. }
  destruct (state q); [..|by eexists _, _; rewrite host_get_set; eauto using host_inv_set];
    apply IH; rewrite ?host_get_set, <- ?app_assoc; eauto using host_inv_set.
Qed.
