(* ===== verification/PackageStream.v ===== *)
(** * The package stream: what the parser computes

    [parse_frames] is the wire format as a pure function on the whole byte
    stream. The parser of [Package.v], fed in chunks, computes it
    ([feed_refines]), whatever the chunks are, and [pc_pkg_encode] is its
    inverse ([pkg_stream_roundtrip]). *)

From S2P Require Import Prelude Package.
Local Open Scope Z_scope.

(** ** The package stream as a pure function *)

Definition complete (bs : bytes) : bool :=
  (4 <=? zlen bs) && (4 + head_len (take 4 bs) <=? zlen bs).

(** The complete packages at the front of a byte stream and what is left. *)
Fixpoint frames (fuel : nat) (bs : bytes) : list (Z * bytes) * bytes :=
  match fuel with
  | O => ([], bs)
  | S fuel =>
      if complete bs then
        let n := Z.to_nat (head_len (take 4 bs)) in
        let '(fs, r) := frames fuel (drop (4 + n) bs) in
        ((u8 (default 0 (head bs)), take n (drop 4 bs)) :: fs, r)
      else ([], bs)
  end.

Definition parse_frames (bs : bytes) : list (Z * bytes) * bytes := frames (length bs) bs.

Lemma incomplete_complete bs : incomplete bs ↔ complete bs = false.
Proof.
  unfold incomplete, complete. split.
  - intros H. apply andb_false_iff. rewrite !Z.leb_gt. lia.
  - intros H. b2p; lia.
Qed.

Lemma frames_fuel f1 f2 bs :
  (length bs ≤ f1)%nat → (length bs ≤ f2)%nat → frames f1 bs = frames f2 bs.
Proof.
  revert f2 bs. induction f1 as [|f1 IH]; intros [|f2] bs H1 H2; simpl; try done.
  - destruct bs; [done|simpl in *; lia].
  - destruct bs; [done|simpl in *; lia].
  - destruct (complete bs) eqn:E; [|done].
    assert (0 < length bs)%nat by (unfold complete, zlen in E; b2p; lia).
    rewrite (IH f2); [done|rewrite length_drop; lia..].
Qed.

Lemma parse_frames_incomplete bs : incomplete bs → parse_frames bs = ([], bs).
Proof.
  intros H%incomplete_complete. unfold parse_frames.
  destruct (length bs); simpl; [done|]. by rewrite H.
Qed.

Lemma complete_parts hb body rest :
  length hb = 4%nat → zlen body = head_len hb → complete (hb ++ body ++ rest) = true.
Proof.
  intros Hl Hb. unfold complete. rewrite (take_app_length' hb _ 4) by lia.
  rewrite !zlen_app. apply andb_true_iff. rewrite !Z.leb_le.
  pose proof (head_len_range hb). pose proof (zlen_nonneg rest). unfold zlen in *. lia.
Qed.

Lemma parse_frames_complete hb body rest :
  length hb = 4%nat → zlen body = head_len hb →
  parse_frames (hb ++ body ++ rest) =
    ((u8 (default 0 (head hb)), body) :: fst (parse_frames rest), snd (parse_frames rest)).
Proof.
  intros Hl Hb. unfold parse_frames.
  destruct (length (hb ++ body ++ rest)) as [|fuel] eqn:E.
  { rewrite length_app in E. lia. }
  cbn [frames]. rewrite complete_parts by done.
  rewrite (take_app_length' hb _ 4) by lia.
  replace (Z.to_nat (head_len hb)) with (length body) by (unfold zlen in *; lia).
  replace (drop (4 + length body) (hb ++ body ++ rest)) with rest
    by (rewrite app_assoc, drop_app_length'; [done|rewrite length_app; lia]).
  rewrite (drop_app_length' hb _ 4), take_app_length by lia.
  rewrite (frames_fuel fuel (length rest)); [|rewrite !length_app in E; lia..].
  destruct (frames (length rest) rest), hb; done.
Qed.

(** A complete stream is a complete package followed by the rest. *)
Lemma complete_split bs :
  complete bs = true →
  ∃ hb body rest, bs = hb ++ body ++ rest ∧ length hb = 4%nat ∧ zlen body = head_len hb.
Proof.
  unfold complete. intros H. b2p. pose proof (head_len_range (take 4 bs)).
  set (n := Z.to_nat (head_len (take 4 bs))) in *.
  exists (take 4 bs), (take n (drop 4 bs)), (drop n (drop 4 bs)).
  rewrite !take_drop. split; [done|]. unfold zlen in *.
  rewrite !length_take, length_drop. lia.
Qed.

(** Parsing can stop at any point of the stream and go on from what is left. *)
Lemma parse_frames_app a b :
  parse_frames (a ++ b) =
    (fst (parse_frames a) ++ fst (parse_frames (snd (parse_frames a) ++ b)),
     snd (parse_frames (snd (parse_frames a) ++ b))).
Proof.
  remember (length a) as n eqn:Hn. revert a Hn.
  induction n as [n IH] using lt_wf_ind. intros a ->.
  destruct (complete a) eqn:E.
  - destruct (complete_split a E) as (hb & body & rest & -> & Hl & Hb).
    rewrite <- !app_assoc, !parse_frames_complete by done. cbn [fst snd].
    rewrite (IH (length rest)); [|rewrite !length_app; lia|done]. done.
  - rewrite (parse_frames_incomplete a) by (by apply incomplete_complete). simpl.
    by destruct (parse_frames (a ++ b)).
Qed.

(** ** Refinement: the parser computes [parse_frames] *)

(** A host that only records the packages it is called with. *)
Record log_host := mkLog {
  lh_parser : pc_pkg_parser_t;
  lh_malloc : Z → bool;
  lh_log : list (Z * bytes)
}.

#[export] Instance log_parser_host : ParserHost log_host := {
  host_parser := lh_parser;
  host_set_parser p s := mkLog p (lh_malloc s) (lh_log s);
  host_malloc := lh_malloc;
  host_cb ty body s := Val (mkLog (lh_parser s) (lh_malloc s) (lh_log s ++ [(ty, body)]))
}.

#[export] Instance log_parser_host_ok : ParserHostOk log_host.
Proof.
  refine {| host_inv _ := True |}; try done.
  - by intros [].
  - intros ty body s _ (Hl & Hs & Ho & Hps & Hpo & Hb). eexists. repeat split; try done.
    change (pkg_buf (lh_parser s) = PFreed → state (lh_parser s) = PC_PKG_CLOSED).
    by destruct Hb as [[_ Hb]|(b & Hb & _)]; simpl in Hb; rewrite Hb.
Defined.

Lemma reset_body_wf p :
  body_wf p → state p = PC_PKG_BODY →
  ∃ q, pc_pkg_parser_reset p = Val q ∧ parser_wf q ∧ state q = PC_PKG_HEAD ∧ pending q = [].
Proof.
  intros (Hl & Hs & _ & _ & _ & Hb) Hst.
  assert (pkg_buf p ≠ PFreed) as Hf by (by destruct Hb as [[_ ->]|(? & -> & _)]).
  destruct (reset_wf p) as (q & Hq & Hw & Hp); [done..|]. exists q. repeat (split; [done|]).
  split; [|done]. unfold pc_pkg_parser_reset in Hq. rewrite Hst in Hq. exec_inv. done.
Qed.

Lemma feed_refines_loop fuel pre rem (s : log_host) :
  zlen (pre ++ rem) < 2 ^ 64 → (length rem < fuel)%nat →
  (∀ n, lh_malloc s n = true) → parser_wf (lh_parser s) →
  state (lh_parser s) ≠ PC_PKG_CLOSED →
  let r := parse_frames (pending (lh_parser s) ++ rem) in
  ∃ p', feed_loop fuel s (pre ++ rem) (zlen pre) (zlen (pre ++ rem)) =
          Val (mkLog p' (lh_malloc s) (lh_log s ++ fst r), true) ∧
    parser_wf p' ∧ state p' ≠ PC_PKG_CLOSED ∧ pending p' = snd r.
Proof.
  revert pre rem s. induction fuel as [|fuel IH]; [lia|]. intros pre rem s Hn Hf Hm Hwf Hc.
  cbv zeta. pose proof (wf_incomplete _ Hwf Hc) as Hinc.
  destruct (decide (rem = [])) as [->|Hrem].
  { rewrite !app_nil_r. simpl. rewrite Z.ltb_irrefl, parse_frames_incomplete by done.
    simpl. rewrite app_nil_r. exists (lh_parser s). by destruct s. }
  destruct (feed_iter host_get_set host_set_set host_set_get fuel s pre rem)
    as [(p' & _ & Hm' & _)|[(p' & Hw & Hc' & Hp & Hi & ->)|
        (c & rest & p' & -> & Hc0 & Hw & Hst & Hp & ->)]]; try done.
  - simpl in Hm'. by rewrite Hm in Hm'.
  - exists p'. cbn [host_parser log_parser_host] in Hp.
    rewrite <- Hp, parse_frames_incomplete by done. simpl. by rewrite app_nil_r.
  - cbn [host_parser log_parser_host] in Hp.
    cbn [host_cb log_parser_host]. rewrite bind_Val. cbn [host_parser log_parser_host lh_parser].
    destruct (reset_body_wf p' Hw Hst) as (q & Hq & Hqw & Hqs & Hqp).
    cbn [host_set_parser log_parser_host lh_parser lh_malloc lh_log].
    rewrite Hq, bind_Val, Hqs.
    destruct (IH (pre ++ c) rest (mkLog q (lh_malloc s)
      (lh_log s ++ [(u8 (default 0 (head (head_buf p'))), body_bytes p')])))
      as (p'' & -> & Hw' & Hc' & Hp'); try done.
    + by rewrite <- app_assoc.
    + rewrite length_app in Hf. destruct c; [done|]. simpl in Hf. lia.
    + simpl. congruence.
    + exists p''. cbn [lh_parser lh_malloc lh_log] in *. rewrite Hqp in *. cbn [app] in *.
      replace (pending (lh_parser s) ++ c ++ rest) with (head_buf p' ++ body_bytes p' ++ rest)
        by (by rewrite !app_assoc, Hp).
      rewrite parse_frames_complete by (by apply Hw || by apply body_bytes_length).
      cbn [fst snd]. by rewrite <- app_assoc.
Qed.

(** The chunks of a connection, one [pc_pkg_parser_feed] each, until one
    fails. *)
Fixpoint feed_all {S} `{ParserHost S} (s : S) (chunks : list bytes) : exec (S * bool) :=
  match chunks with
  | [] => Val (s, true)
  | c :: chunks =>
      '(s, ok) ← pc_pkg_parser_feed s c;
      if ok : bool then feed_all s chunks else Val (s, false)
  end.

Lemma feed_all_log (chunks : list bytes) (s : log_host) :
  Forall (λ c, zlen c < 2 ^ 64) chunks → (∀ n, lh_malloc s n = true) →
  parser_wf (lh_parser s) → state (lh_parser s) ≠ PC_PKG_CLOSED →
  let r := parse_frames (pending (lh_parser s) ++ concat chunks) in
  ∃ p', feed_all s chunks = Val (mkLog p' (lh_malloc s) (lh_log s ++ fst r), true) ∧
    parser_wf p' ∧ state p' ≠ PC_PKG_CLOSED ∧ pending p' = snd r.
Proof.
  cbv zeta. revert s. induction chunks as [|c chunks IH]; intros s Hl Hm Hwf Hc.
  - exists (lh_parser s). simpl.
    rewrite app_nil_r, parse_frames_incomplete by (by apply wf_incomplete).
    simpl. rewrite app_nil_r. by destruct s.
  - apply Forall_cons_1 in Hl as [Hl1 Hl]. simpl.
    destruct (feed_refines_loop (length c + 1) [] c s) as (p1 & E1 & Hw1 & Hc1 & Hp1);
      [done|lia|done..|]. unfold pc_pkg_parser_feed. simpl in E1.
    change (zlen (@nil Z)) with 0 in E1. rewrite E1, bind_Val.
    destruct (IH (mkLog p1 (lh_malloc s)
                    (lh_log s ++ fst (parse_frames (pending (lh_parser s) ++ c)))))
      as (p2 & -> & Hw2 & Hc2 & Hp2); try done.
    exists p2. simpl in *. rewrite Hp1 in *.
    rewrite (app_assoc (pending _)), (parse_frames_app (pending _ ++ c)). simpl.
    by rewrite app_assoc.
Qed.

(** C1 (refinement). Fed with the chunks of a connection, the parser delivers,
    in order, exactly the packages of the concatenated stream and keeps exactly
    the bytes of the package in progress: the state machine computes
    [parse_frames], whatever the chunk boundaries are. *)
Theorem feed_refines (s : log_host) (chunks : list bytes) :
  Forall (λ c, zlen c < 2 ^ 64) chunks → (∀ n, lh_malloc s n = true) →
  parser_wf (lh_parser s) → state (lh_parser s) ≠ PC_PKG_CLOSED →
  let r := parse_frames (pending (lh_parser s) ++ concat chunks) in
  ∃ p', feed_all s chunks = Val (mkLog p' (lh_malloc s) (lh_log s ++ fst r), true) ∧
    parser_wf p' ∧ state p' ≠ PC_PKG_CLOSED ∧ pending p' = snd r.
Proof. apply feed_all_log. Qed.

(** ** Encoding is the inverse *)

Definition fresh_parser : pc_pkg_parser_t :=
  {| head_buf := [0; 0; 0; 0]; pkg_buf := PNull; head_offset := 0; head_size := 4;
     pkg_offset := 0; pkg_size := 0; state := PC_PKG_HEAD |}.

Lemma parser_new_fresh : pc_pkg_parser_new true = Some fresh_parser.
Proof. reflexivity. Qed.

Lemma fresh_parser_wf : parser_wf fresh_parser.
Proof. repeat split; simpl; lia. Qed.

(** The package as it goes on the wire. *)
Definition wire (type : Z) (body : bytes) : bytes :=
  [u8 type; zlen body / 65536; zlen body / 256 mod 256; zlen body mod 256] ++ body.

Lemma pkg_encode_len_eq t n : 0 ≤ n < 2 ^ 24 → ∀ tl,
  pkg_encode_len 3 (t :: 0 :: 0 :: 0 :: tl) 3 n =
    Val (t :: n / 65536 :: n / 256 mod 256 :: n mod 256 :: tl).
Proof.
  intros Hn tl. cbn [pkg_encode_len].
  pose proof (zlen_nonneg tl).
  do 3 (rewrite memcpy_to_eq, bind_Val by (rewrite ?zlen_cons, ?zlen_nil; lia);
        simpl; rewrite ?drop_0).
  rewrite !Z.shiftr_div_pow2 by lia. change (2 ^ 8) with 256. change 0x100 with 256.
  rewrite Z.div_div by lia. do 2 f_equal. f_equal. apply Z.mod_small.
  split; [apply Z.div_pos; lia|]. apply Z.div_lt_upper_bound; lia.
Qed.

Lemma pkg_encode_eq (malloc_ok : bool) (type : Z) (body : bytes) :
  zlen body < 2 ^ 64 - 4 →
  pc_pkg_encode malloc_ok type body (zlen body) =
    Val (if (zlen body <? 2 ^ 24) && malloc_ok then Some (wire type body) else None).
Proof.
  intros Hb. pose proof (zlen_nonneg body). unfold pc_pkg_encode.
  change PC_PKG_MAX_BODY_BYTES with (2 ^ 24).
  rewrite Z.geb_leb, Z.leb_antisym. destruct (zlen body <? 2 ^ 24) eqn:E; [|done].
  destruct malloc_ok; [|done]. cbn [andb negb]. b2p.
  change PC_PKG_HEAD_BYTES with 4. rewrite wrap_small by int_solve.
  assert (zeros (4 + zlen body) = 0 :: 0 :: 0 :: 0 :: zeros (zlen body)) as ->.
  { unfold zeros. rewrite Z2Nat.inj_add by lia. done. }
  rewrite memcpy_to_head, bind_Val.
  change PC_PKG_TYPE_MASK with (Z.ones 8). rewrite Z.land_ones by lia.
  replace (u8 (type mod 2 ^ 8)) with (u8 type) by (unfold wrap; by rewrite Z.mod_mod).
  destruct (zlen body =? 0) eqn:E0; cbn [negb]; b2p.
  - destruct body; [done|]. rewrite zlen_cons in E0. pose proof (zlen_nonneg body). lia.
  - change (Z.to_nat PC_PKG_BODY_LEN_BYTES) with 3%nat. change (4 - 1) with 3.
    rewrite pkg_encode_len_eq, bind_Val by lia.
    pose proof (memcpy_from_middle [] body [] 0 (zlen body)) as Hcp.
    simpl in Hcp. rewrite app_nil_r in Hcp. rewrite Hcp, bind_Val by done.
    pose proof (memcpy_to_middle [u8 type; zlen body / 65536; zlen body / 256 mod 256;
      zlen body mod 256] (zeros (zlen body)) [] body 4) as Hcp2.
    rewrite !app_nil_r in Hcp2. simpl app in Hcp2.
    rewrite Hcp2; [done|done|]. unfold zeros, zlen. rewrite length_replicate. lia.
Qed.

(** [pc_pkg_encode] on every branch: a body of 16 MB or more
    and a failed allocation are errors, otherwise the result is the type byte,
    the 24-bit big-endian length and the body. *)
Theorem pkg_encode_spec (malloc_ok : bool) (type : Z) (body : bytes) :
  zlen body < 2 ^ 64 - 4 →
  pc_pkg_encode malloc_ok type body (zlen body) =
    Val (if (zlen body <? 2 ^ 24) && malloc_ok then Some (wire type body) else None).
Proof. apply pkg_encode_eq. Qed.

Lemma wire_parts type body :
  zlen body < 2 ^ 24 →
  ∃ hb, wire type body = hb ++ body ∧ length hb = 4%nat ∧ head_len hb = zlen body ∧
    u8 (default 0 (head hb)) = u8 type.
Proof.
  intros Hb. pose proof (zlen_nonneg body). eexists; split; [reflexivity|].
  split; [done|]. split.
  - unfold head_len. rewrite !wrap_small.
    + pose proof (Z.div_mod (zlen body) 256). pose proof (Z.div_mod (zlen body / 256) 256).
      rewrite Z.div_div in * by lia. change (256 * 256) with 65536 in *. lia.
    + apply Z.mod_pos_bound; lia.
    + apply Z.mod_pos_bound; lia.
    + split; [apply Z.div_pos; lia|]. apply Z.div_lt_upper_bound; lia.
  - simpl. apply wrap_small, wrap_range. lia.
Qed.

(** *** One package, for any host *)

Section OnePackage.
Context {S : Type} `{PH : ParserHost S}.
Context (get_set : ∀ p s, host_parser (host_set_parser p s) = p)
        (set_set : ∀ p q s, host_set_parser p (host_set_parser q s) = host_set_parser p s)
        (set_get : ∀ s, host_set_parser (host_parser s) s = s).

(** A chunk that does not finish the package is only stored. *)
Lemma feed_prefix s data :
  zlen data < 2 ^ 64 → parser_wf (host_parser s) → state (host_parser s) ≠ PC_PKG_CLOSED →
  (∀ n, host_malloc s n = true) → data ≠ [] → incomplete (pending (host_parser s) ++ data) →
  ∃ p', parser_wf p' ∧ state p' ≠ PC_PKG_CLOSED ∧ pending p' = pending (host_parser s) ++ data ∧
    pc_pkg_parser_feed s data = Val (host_set_parser p' s, true).
Proof.
  intros Hn Hwf Hc Hm Hd Hi. unfold pc_pkg_parser_feed. rewrite Nat.add_1_r.
  destruct (feed_iter get_set set_set set_get (length data) s [] data)
    as [(p' & _ & Hm' & _)|[(p' & Hw & Hc' & Hp & _ & E)|(c & rest & p' & Ec & _ & Hw & _ & Hp & _)]];
    [done..|lia| | |]; [by rewrite Hm in Hm'|exists p'; by rewrite Hp|exfalso].
  rewrite Ec, app_assoc, Hp, <- app_assoc in Hi.
  apply incomplete_complete in Hi. by rewrite complete_parts in Hi by (by apply Hw || by apply body_bytes_length).
Qed.

(** A proper prefix of a package is incomplete. *)
Lemma prefix_incomplete a b ty body :
  zlen body < 2 ^ 24 → a ++ b = wire ty body → b ≠ [] → incomplete a.
Proof.
  intros Hb Hw Hne. apply incomplete_complete. destruct (complete a) eqn:Hc; [exfalso|done].
  destruct (complete_split a Hc) as (hb' & body' & rest & -> & Hl' & Hbl').
  destruct (wire_parts ty body Hb) as (hb & Ew & Hl & Hhl & _). rewrite Ew, <- !app_assoc in Hw.
  destruct (app_inj_1 _ _ _ _ (eq_trans Hl' (eq_sym Hl)) Hw) as [-> Er].
  apply (f_equal length) in Er. rewrite !length_app in Er. unfold zlen in *.
  destruct b; [done|]. simpl in Er. lia.
Qed.

(** A chunk that finishes it calls the callback, and the parser starts anew. *)
Lemma feed_package s data ty body :
  zlen data < 2 ^ 64 → parser_wf (host_parser s) → state (host_parser s) ≠ PC_PKG_CLOSED →
  (∀ n, host_malloc s n = true) → data ≠ [] → zlen body < 2 ^ 24 →
  pending (host_parser s) ++ data = wire ty body →
  ∃ p', body_wf p' ∧ state p' = PC_PKG_BODY ∧
    ∀ s1, host_cb (u8 ty) body (host_set_parser p' s) = Val s1 → host_parser s1 = p' →
    ∃ q, parser_wf q ∧ state q = PC_PKG_HEAD ∧ pending q = [] ∧
      pc_pkg_parser_feed s data = Val (host_set_parser q s1, true).
Proof.
  intros Hn Hwf Hc Hm Hd Hb Hw. destruct (wire_parts ty body Hb) as (hb & Ew & Hl & Hhl & Hty).
  unfold pc_pkg_parser_feed. rewrite Nat.add_1_r.
  destruct (feed_iter get_set set_set set_get (length data) s [] data)
    as [(p' & _ & Hm' & _)|[(p' & _ & _ & Hp & Hi & _)|(c & rest & p' & Ec & _ & Hbw & Hst & Hp & E)]];
    [done..|lia| | |].
  { by rewrite Hm in Hm'. }
  { exfalso. rewrite Hp, Hw, Ew in Hi. apply incomplete_complete in Hi.
    rewrite <- (app_nil_r body), complete_parts in Hi by (lia || done). done. }
  assert (head_buf p' = hb ∧ body_bytes p' = body ∧ rest = []) as (Eh & Eb & ->).
  { rewrite Ec, app_assoc, Hp, Ew, <- app_assoc in Hw. pose proof (body_bytes_length p' Hbw) as Hbl.
    destruct (app_inj_1 _ _ _ _ (eq_trans (proj1 Hbw) (eq_sym Hl)) Hw) as [Eh Er].
    rewrite Eh, Hhl in Hbl. rewrite <- (app_nil_r body) in Er.
    destruct (app_inj_1 (body_bytes p') body rest []) as [? ?]; [unfold zlen in *; lia|done|done]. }
  exists p'. split; [done|]. split; [done|]. intros s1 Ecb Hs1.
  destruct (reset_body_wf p' Hbw Hst) as (q & Hq & Hqw & Hqs & Hqp). exists q. do 3 (split; [done|]).
  change (zlen (@nil Z)) with 0 in E. cbn [app] in E. rewrite E, Eh, Eb, Hty, Ecb, bind_Val, Hs1, Hq, bind_Val, Hqs.
  rewrite app_nil_r, <- (app_nil_r data) in Ec. rewrite app_nil_r. apply (f_equal length) in Ec.
  destruct (length data) as [|n] eqn:Hlen; [by destruct data|]. cbn [feed_loop]. by rewrite Z.ltb_irrefl.
Qed.
End OnePackage.

Lemma parse_wires (ps : list (Z * bytes)) :
  Forall (λ p, zlen p.2 < 2 ^ 24) ps →
  parse_frames (concat (map (λ p, wire p.1 p.2) ps)) = (map (λ p, (u8 p.1, p.2)) ps, []).
Proof.
  induction 1 as [|[t b] ps Hb Hps IH]; [done|]. cbn [map concat fst snd].
  destruct (wire_parts t b Hb) as (hb & -> & Hl & Hn & Ht).
  rewrite <- app_assoc, parse_frames_complete, IH by done. simpl. by rewrite Ht.
Qed.

(** Encode a sequence of packages, all of which must succeed. *)
Fixpoint encode_all (ps : list (Z * bytes)) : exec (option bytes) :=
  match ps with
  | [] => Val (Some [])
  | (t, b) :: ps =>
      w ← pc_pkg_encode true t b (zlen b);
      ws ← encode_all ps;
      Val (match w, ws with Some w, Some ws => Some (w ++ ws) | _, _ => None end)
  end.

Lemma encode_all_eq ps :
  Forall (λ p, zlen p.2 < 2 ^ 24) ps →
  encode_all ps = Val (Some (concat (map (λ p, wire p.1 p.2) ps))).
Proof.
  induction 1 as [|[t b] ps Hb Hps IH]; [done|]. simpl in *.
  rewrite pkg_encode_eq, IH by lia. simpl.
  rewrite (proj2 (Z.ltb_lt _ _) Hb). done.
Qed.

(** C6 (roundtrip). Any sequence of packages, encoded by [pc_pkg_encode], sent
    as one stream, cut into chunks anywhere and fed to a new parser, is
    delivered as the same sequence of types and bodies, and the parser is back
    at the start of a package. *)
Theorem pkg_stream_roundtrip (ps : list (Z * bytes)) (stream : bytes) (chunks : list bytes)
    (p : pc_pkg_parser_t) :
  Forall (λ p, zlen p.2 < 2 ^ 24) ps → encode_all ps = Val (Some stream) →
  concat chunks = stream → Forall (λ c, zlen c < 2 ^ 64) chunks →
  pc_pkg_parser_new true = Some p →
  ∃ p', feed_all (mkLog p (λ _, true) []) chunks =
      Val (mkLog p' (λ _, true) (map (λ p, (u8 p.1, p.2)) ps), true) ∧
    parser_wf p' ∧ pending p' = [].
Proof.
  intros Hps He Hc Hl Hp. rewrite parser_new_fresh in Hp. injection Hp as <-. rewrite encode_all_eq in He by done.
  injection He as <-.
  destruct (feed_all_log chunks (mkLog fresh_parser (λ _, true) [])) as (p' & E & Hw & _ & Hp);
    [done|done|apply fresh_parser_wf|done|].
  exists p'. rewrite E. simpl in *. rewrite Hc, parse_wires in * by done. done.
Qed.

(** ** Witnesses *)

Lemma feed_refines_witness :
  ∃ p', feed_all (mkLog fresh_parser (λ _, true) [])
          [[4; 0]; [0; 2; 7; 8; 3; 0; 0; 0; 5; 0]] =
      Val (mkLog p' (λ _, true) [(4, [7; 8]); (3, [])], true) ∧
    parser_wf p' ∧ state p' ≠ PC_PKG_CLOSED ∧ pending p' = [5; 0].
Proof.
  apply (feed_refines (mkLog fresh_parser (λ _, true) [])
           [[4; 0]; [0; 2; 7; 8; 3; 0; 0; 0; 5; 0]]).
  - repeat constructor.
  - reflexivity.
  - apply fresh_parser_wf.
  - discriminate.
Defined.

Lemma pkg_encode_spec_witness :
  pc_pkg_encode true PC_PKG_DATA [1; 2] 2 = Val (Some [4; 0; 0; 2; 1; 2]).
Proof. apply (pkg_encode_spec true PC_PKG_DATA [1; 2]). reflexivity. Defined.

Lemma pkg_stream_roundtrip_witness :
  ∃ p', feed_all (mkLog fresh_parser (λ _, true) [])
          [[4]; [0; 0; 2; 1]; [2; 3; 0; 0; 0]] =
      Val (mkLog p' (λ _, true) [(4, [1; 2]); (3, [])], true) ∧
    parser_wf p' ∧ pending p' = [].
Proof.
  apply (pkg_stream_roundtrip [(4, [1; 2]); (3, [])] [4; 0; 0; 2; 1; 2; 3; 0; 0; 0]);
    [repeat constructor|vm_compute; reflexivity|reflexivity|repeat constructor|reflexivity].
Defined.

Lemma feed_safe_witness :
  ∃ (s' : log_host) ok,
    pc_pkg_parser_feed (mkLog fresh_parser (λ _, false) []) [4; 0; 0; 2; 9] = Val (s', ok) ∧
    host_inv s' ∧ parser_wf (host_parser s').
Proof.
  apply (feed_safe (mkLog fresh_parser (λ _, false) []) [4; 0; 0; 2; 9]);
    [reflexivity|exact I|apply fresh_parser_wf].
Defined.
