(* ===== verification/Message.v ===== *)
(** * The Pomelo message layer ([src/src/message.c])

    A message is a flag byte (type and route-compression bit), a base-128
    message id for requests and responses, a route (a string with a length
    byte, or a 16-bit dictionary code) for everything but responses, and the
    body. Allocations are inputs of the model: an encoder is given the outcome
    and the contents of the block, the decoder an oracle on sizes. *)

From S2P Require Import Prelude.
Local Open Scope Z_scope.

Definition PC_MSG_FLAG_BYTES : Z := 1.
Definition PC_MSG_ROUTE_LEN_BYTES : Z := 1.
Definition PC_MSG_ROUTE_CODE_BYTES : Z := 2.

(** The enum [pc_msg_type], by its values. *)
Definition PC_MSG_REQUEST : Z := 0.
Definition PC_MSG_NOTIFY : Z := 1.
Definition PC_MSG_RESPONSE : Z := 2.
Definition PC_MSG_PUSH : Z := 3.

Definition PC_MSG_HAS_ID (type : Z) : bool :=
  (type =? PC_MSG_REQUEST) || (type =? PC_MSG_RESPONSE).

Definition PC_MSG_HAS_ROUTE (type : Z) : bool := negb (type =? PC_MSG_RESPONSE).

Definition PC_MSG_VALIDATE (type : Z) : bool :=
  (type =? PC_MSG_REQUEST) || (type =? PC_MSG_NOTIFY) ||
  (type =? PC_MSG_RESPONSE) || (type =? PC_MSG_PUSH).

(** The route of a raw message: the zeroed union, a code, or the bytes of the
    allocated string (without its terminator). *)
Inductive msg_route := RNull | RCode (code : Z) | RStr (str : bytes).

Record pc__msg_raw_t := mkRaw {
  raw_id : Z;
  raw_type : Z;
  compressRoute : Z;
  raw_route : msg_route;
  raw_body : bytes
}.

(** ** Encoding *)

(** The [do ... while] of [pc__msg_id_length]; five rounds are enough for 32
    bits. *)
Fixpoint msg_id_length_loop (fuel : nat) (len id : Z) : exec Z :=
  match fuel with
  | O => NoFuel
  | S fuel =>
      let len := u8 (len + 1) in
      let id := Z.shiftr id 7 in
      if id >? 0 then msg_id_length_loop fuel len id else Val len
  end.

Definition pc__msg_id_length (id : Z) : exec Z := msg_id_length_loop 5 0 id.

Definition pc__msg_encode_flag (type : Z) (compress : bool) (base : bytes) (offset : Z)
  : exec (bytes * Z) :=
  base ← memcpy_to base offset [u8 (Z.lor (Z.shiftl type 1) (if compress then 1 else 0))];
  Val (base, offset + 1).

Fixpoint msg_encode_id_loop (fuel : nat) (id : Z) (base : bytes) (offset : Z)
  : exec (bytes * Z) :=
  match fuel with
  | O => NoFuel
  | S fuel =>
      let tmp := id mod 128 in
      let next := id / 128 in
      let tmp := if negb (next =? 0) then tmp + 128 else tmp in
      base ← memcpy_to base offset [u8 tmp];
      let offset := offset + 1 in
      let id := next in
      if negb (id =? 0) then msg_encode_id_loop fuel id base offset
      else Val (base, offset)
  end.

Definition pc__msg_encode_id (id : Z) (base : bytes) (offset : Z) : exec (bytes * Z) :=
  msg_encode_id_loop 5 id base offset.

Definition pc__msg_encode_route (route : bytes) (route_len : Z) (base : bytes) (offset : Z)
  : exec (bytes * Z) :=
  base ← memcpy_to base offset [u8 (Z.land route_len 0xff)];
  let offset := offset + 1 in
  src ← memcpy_from route 0 route_len;
  base ← memcpy_to base offset src;
  Val (base, offset + route_len).

(** A block of [n] bytes as [malloc] leaves it. *)
Definition malloc_block (junk : Z) (n : Z) : bytes := replicate (Z.to_nat n) junk.

(** [None] is [buf.len = -1]. *)
Definition pc_msg_encode_route (malloc_ok : bool) (junk : Z) (id type : Z) (route msg : bytes)
  : exec (option bytes) :=
  id_len ← (if PC_MSG_HAS_ID type then pc__msg_id_length id else Val 0);
  let route_len := if PC_MSG_HAS_ROUTE type then u16 (zlen route) else 0 in
  let msg_len := u64 (PC_MSG_FLAG_BYTES + id_len + PC_MSG_ROUTE_LEN_BYTES +
                      route_len + zlen msg) in
  if negb malloc_ok then Val None
  else
    let base := malloc_block junk msg_len in
    '(base, offset) ← pc__msg_encode_flag type false base 0;
    '(base, offset) ← (if PC_MSG_HAS_ID type then pc__msg_encode_id id base offset
                       else Val (base, offset));
    '(base, offset) ← (if PC_MSG_HAS_ROUTE type
                       then pc__msg_encode_route route route_len base offset
                       else Val (base, offset));
    base ← memcpy_to base offset msg;
    Val (Some base).

Definition pc_msg_encode_code (malloc_ok : bool) (junk : Z) (id type routeCode : Z) (msg : bytes)
  : exec (option bytes) :=
  id_len ← (if PC_MSG_HAS_ID type then pc__msg_id_length id else Val 0);
  let route_len := if PC_MSG_HAS_ROUTE type then PC_MSG_ROUTE_CODE_BYTES else 0 in
  let msg_len := u64 (PC_MSG_FLAG_BYTES + id_len + route_len + zlen msg) in
  if negb malloc_ok then Val None
  else
    let base := malloc_block junk msg_len in
    '(base, offset) ← pc__msg_encode_flag type true base 0;
    '(base, offset) ← (if PC_MSG_HAS_ID type then pc__msg_encode_id id base offset
                       else Val (base, offset));
    '(base, offset) ← (if PC_MSG_HAS_ROUTE type then
                         base ← memcpy_to base offset [Z.land (Z.shiftr routeCode 8) 0xff];
                         base ← memcpy_to base (offset + 1) [Z.land routeCode 0xff];
                         Val (base, offset + 2)
                       else Val (base, offset));
    base ← memcpy_to base offset msg;
    Val (Some base).

(** ** Decoding *)

(** The [do ... while] that reads the id. [1 << (7*i)] is undefined from 32
    bits on, and so is the signed product that does not fit an [int]; a read
    past the data is undefined. Six rounds are enough: the sixth is undefined. *)
Fixpoint msg_decode_id_loop (fuel : nat) (data : bytes) (id i offset : Z)
  : exec (Z * Z) :=
  match fuel with
  | O => NoFuel
  | S fuel =>
      b ← rd data offset;
      let m := u8 b in
      let offset := offset + 1 in
      _ ← require (7 * i <? 32);
      let v := Z.land m 0x7f * Z.shiftl 1 (7 * i) in
      _ ← require (v <=? INT_MAX);
      let id := u32 (id + v) in
      if m >=? 128 then msg_decode_id_loop fuel data id (i + 1) offset
      else Val (id, offset)
  end.

(** [None] is the [error] label: a null result, everything released.
    [malloc n] tells whether an allocation of [n] bytes succeeds;
    [sizeof_raw] stands for [sizeof(pc__msg_raw_t)]. *)
Definition sizeof_raw : Z := 40.

Definition msg_decode_route (malloc : Z → bool) (data : bytes) (len offset : Z)
    (compress : Z) : exec (option (msg_route * Z)) :=
  if negb (compress =? 0) then
    if u64 (offset + PC_MSG_ROUTE_CODE_BYTES) >? len then Val None
    else
      hi ← rd data offset;
      lo ← rd data (offset + 1);
      let code := u16 (Z.lor 0 (Z.shiftl (Z.land (s8 hi) 0xff) 8)) in
      Val (Some (RCode (u16 (Z.lor code (Z.land (s8 lo) 0xff))), offset + 2))
  else
    if u64 (offset + PC_MSG_ROUTE_LEN_BYTES) >? len then Val None
    else
      b ← rd data offset;
      let offset := offset + 1 in
      let route_len := u64 (s8 b) in
      if negb (route_len =? 0) then
        if negb (malloc (u64 (route_len + 1))) then Val None
        else if u64 (offset + route_len) >? len then Val None
        else
          _ ← require (route_len <? u64 (route_len + 1));
          str ← memcpy_from data offset route_len;
          Val (Some (RStr str, u64 (offset + route_len)))
      else Val (Some (RNull, offset)).

Definition pc_msg_decode (malloc : Z → bool) (data : bytes) (len : Z)
  : exec (option pc__msg_raw_t) :=
  if negb (malloc sizeof_raw) then Val None
  else if u64 (0 + PC_MSG_FLAG_BYTES) >? len then Val None
  else
    b ← rd data 0;
    let flag := u8 b in
    let offset := 1 in
    let type := Z.land (Z.shiftr flag 1) 0xff in
    if negb (PC_MSG_VALIDATE type) then Val None
    else
      let compress := Z.land flag 0x01 in
      if PC_MSG_HAS_ID type && (u64 (offset + 1) >? len) then Val None
      else
        '(id, offset) ← (if PC_MSG_HAS_ID type then msg_decode_id_loop 6 data 0 0 offset
                         else Val (0, offset));
        r ← (if PC_MSG_HAS_ROUTE type
             then msg_decode_route malloc data len offset compress
             else Val (Some (RNull, offset)));
        match r with
        | None => Val None
        | Some (route, offset) =>
            let body_len := u64 (len - offset) in
            body ← (if negb (body_len =? 0) then
                      _ ← require (malloc body_len);
                      memcpy_from data offset body_len
                    else Val []);
            Val (Some (mkRaw id type compress route body))
        end.

(** ** Base-128 ids *)

(** The groups of seven bits of [id], low group first, [n] groups at most. *)
Fixpoint id_bytes (n : nat) (id : Z) : bytes :=
  match n with
  | O => []
  | S n =>
      if id / 128 =? 0 then [id mod 128] else (id mod 128 + 128) :: id_bytes n (id / 128)
  end.

Definition id_fits (n : nat) (id : Z) : Prop := 0 ≤ id < 2 ^ (7 * Z.of_nat n).

Lemma id_fits_next n id : id_fits (S n) id → id_fits n (id / 128).
Proof.
  unfold id_fits. intros [H1 H2]. split; [apply Z.div_pos; lia|].
  apply Z.div_lt_upper_bound; [lia|]. change 128 with (2 ^ 7).
  rewrite <- Z.pow_add_r by lia. replace (7 + 7 * Z.of_nat n) with (7 * Z.of_nat (S n)) by lia.
  done.
Qed.

Lemma id_fits_nonempty n id : id_fits n id → (0 < n)%nat → id_bytes n id ≠ [].
Proof. destruct n; [lia|]. simpl. by destruct (_ =? _). Qed.

Lemma id_fits_0 id : id_fits 0 id → id = 0.
Proof. unfold id_fits. simpl. lia. Qed.

Lemma id_fits_5 id : is_u 32 id → id_fits 5 id.
Proof. unfold id_fits, is_u. simpl. lia. Qed.

Lemma id_bytes_length_le n id : (length (id_bytes n id) ≤ n)%nat.
Proof.
  revert id. induction n as [|n IH]; intros id; simpl; [lia|].
  destruct (_ =? _); simpl; [lia|]. specialize (IH (id / 128)). lia.
Qed.

Lemma id_bytes_bytes n id : 0 ≤ id → Forall is_byte (id_bytes n id).
Proof.
  revert id. induction n as [|n IH]; intros id Hid; simpl; [constructor|].
  pose proof (Z.mod_pos_bound id 128).
  destruct (_ =? _); constructor; try constructor; try int_solve.
  apply IH. apply Z.div_pos; lia.
Qed.

Lemma msg_id_length_loop_eq n id len :
  id_fits n id → (0 < n)%nat → 0 ≤ len → len + Z.of_nat n < 256 →
  msg_id_length_loop n len id = Val (len + zlen (id_bytes n id)).
Proof.
  revert id len. induction n as [|n IH]; intros id len Hid Hn Hl Hln; [lia|]. simpl.
  rewrite wrap_small by int_solve. rewrite Z.shiftr_div_pow2 by lia. change (2 ^ 7) with 128.
  pose proof (id_fits_next n id Hid) as Hnext.
  destruct (id / 128 =? 0) eqn:E; b2p.
  - rewrite E. simpl. f_equal.
  - assert (0 < n)%nat by (destruct n; [apply id_fits_0 in Hnext; lia|lia]).
    assert ((id / 128 >? 0) = true) as -> by (rewrite Z.gtb_ltb, Z.ltb_lt; destruct Hnext; lia).
    rewrite IH by (done || lia). rewrite zlen_cons. f_equal. lia.
Qed.

Lemma msg_encode_id_loop_eq n id p hole s off :
  id_fits n id → (0 < n)%nat → off = zlen p → length hole = length (id_bytes n id) →
  msg_encode_id_loop n id (p ++ hole ++ s) off =
    Val (p ++ id_bytes n id ++ s, off + zlen (id_bytes n id)).
Proof.
  revert id p hole off. induction n as [|n IH]; intros id p hole off Hid Hn -> Hh; [lia|].
  pose proof (id_fits_next n id Hid) as Hnext. pose proof (Z.mod_pos_bound id 128).
  simpl in *. destruct (id / 128 =? 0) eqn:E; simpl.
  - rewrite wrap_small by int_solve. by rewrite memcpy_to_middle by done.
  - b2p. assert (0 < n)%nat by (destruct n; [apply id_fits_0 in Hnext; lia|lia]).
    destruct hole as [|h hole]; [done|]. injection Hh as Hh.
    rewrite wrap_small by int_solve.
    change ((h :: hole) ++ s) with ([h] ++ hole ++ s).
    rewrite memcpy_to_middle by done. rewrite bind_Val, app_assoc.
    rewrite IH; [|done|lia|zl|done].
    rewrite zlen_cons. f_equal. f_equal; [|lia].
    by rewrite <- app_assoc.
Qed.

Lemma wrap_add_l w a b : 0 ≤ w → wrap w (wrap w a + b) = wrap w (a + b).
Proof. intros. unfold wrap. by rewrite Zplus_mod_idemp_l. Qed.

Lemma msg_decode_id_loop_eq n k id acc i p s off :
  id_fits n id → (0 < n ≤ k)%nat → off = zlen p → 0 ≤ i → i + Z.of_nat n ≤ 5 →
  id * 2 ^ (7 * i) < 2 ^ 31 →
  msg_decode_id_loop k (p ++ id_bytes n id ++ s) acc i off =
    Val (u32 (acc + id * 2 ^ (7 * i)), off + zlen (id_bytes n id)).
Proof.
  revert k id acc i p off.
  induction n as [|n IH]; intros k id acc i p off Hid Hk -> Hi Hin Hsm; [lia|].
  destruct k as [|k]; [lia|].
  pose proof (id_fits_next n id Hid) as Hnext. pose proof (Z.mod_pos_bound id 128).
  pose proof (Z.div_mod id 128).
  assert (0 < 2 ^ (7 * i)) by (apply Z.pow_pos_nonneg; lia).
  assert (id mod 128 * 2 ^ (7 * i) ≤ INT_MAX).
  { unfold INT_MAX. destruct Hid, Hnext. nia. }
  cbn [msg_decode_id_loop id_bytes]. destruct (id / 128 =? 0) eqn:E; b2p.
  - cbn [app]. rewrite rd_middle, bind_Val by done.
    rewrite wrap_small by int_solve. rewrite land_127, Z.mod_mod, Z.shiftl_1_l by lia.
    rewrite (proj2 (Z.ltb_lt (7 * i) 32)) by lia. rewrite (proj2 (Z.leb_le _ INT_MAX)) by lia.
    cbn [require mbind exec_bind]. rewrite Z.geb_leb, (proj2 (Z.leb_gt 128 _)) by lia.
    rewrite E in *. do 3 f_equal. f_equal. lia.
  - assert (0 < n)%nat by (destruct n; [apply id_fits_0 in Hnext; lia|lia]).
    cbn [app]. rewrite rd_middle, bind_Val by done.
    rewrite wrap_small by int_solve. rewrite land_127.
    replace ((id mod 128 + 128) mod 128) with (id mod 128)
      by (rewrite <- Zplus_mod_idemp_r, Z_mod_same_full, Z.add_0_r, Z.mod_mod; lia).
    rewrite Z.shiftl_1_l, (proj2 (Z.ltb_lt (7 * i) 32)) by lia.
    rewrite (proj2 (Z.leb_le _ INT_MAX)) by lia.
    cbn [require mbind exec_bind]. rewrite Z.geb_leb, (proj2 (Z.leb_le 128 _)) by lia.
    change (p ++ (id mod 128 + 128) :: id_bytes n (id / 128) ++ s) with
      (p ++ [id mod 128 + 128] ++ id_bytes n (id / 128) ++ s). rewrite app_assoc.
    assert (2 ^ (7 * (i + 1)) = 128 * 2 ^ (7 * i)) as Hp.
    { replace (7 * (i + 1)) with (7 + 7 * i) by lia. rewrite Z.pow_add_r by lia. done. }
    rewrite IH; [|done|lia|zl|lia|lia|rewrite Hp; destruct Hid, Hnext; nia].
    rewrite wrap_add_l, Hp, zlen_cons by lia. f_equal. f_equal; [f_equal; nia|lia].
Qed.

(** ** The wire format *)

Definition route_wire (type compress : Z) (r : msg_route) : bytes :=
  if PC_MSG_HAS_ROUTE type then
    match r with
    | RNull => [0]
    | RCode c => [c / 256; c mod 256]
    | RStr s => zlen s :: s
    end
  else [].

Definition id_wire (type id : Z) : bytes := if PC_MSG_HAS_ID type then id_bytes 5 id else [].

Definition msg_wire (m : pc__msg_raw_t) : bytes :=
  [2 * raw_type m + compressRoute m] ++ id_wire (raw_type m) (raw_id m) ++
  route_wire (raw_type m) (compressRoute m) (raw_route m) ++ raw_body m.

(** Messages whose header the decoder reads without error: ids below 2^31 and
    routes below 128 bytes. *)
Definition route_ok (type compress : Z) (r : msg_route) : Prop :=
  if PC_MSG_HAS_ROUTE type then
    match r with
    | RNull => compress = 0
    | RCode c => compress = 1 ∧ is_u 16 c
    | RStr s => compress = 0 ∧ 0 < zlen s < 128
    end
  else r = RNull.

Record raw_ok (m : pc__msg_raw_t) : Prop := {
  ok_type : PC_MSG_VALIDATE (raw_type m) = true;
  ok_id : if PC_MSG_HAS_ID (raw_type m) then 0 ≤ raw_id m < 2 ^ 31 else raw_id m = 0;
  ok_compress : compressRoute m = 0 ∨ compressRoute m = 1;
  ok_route : route_ok (raw_type m) (compressRoute m) (raw_route m);
  ok_len : zlen (msg_wire m) < 2 ^ 63
}.

(** Larger ones fail ([malloc] cannot return more than [PTRDIFF_MAX] bytes). *)
Definition malloc_bounded (malloc : Z → bool) : Prop := ∀ n, 2 ^ 63 ≤ n → malloc n = false.

Lemma validate_cases type :
  PC_MSG_VALIDATE type = true → type = 0 ∨ type = 1 ∨ type = 2 ∨ type = 3.
Proof. unfold PC_MSG_VALIDATE. intros. b2p; tauto. Qed.

(** A length check that passes. *)
Lemma check_len_ok a len : 0 ≤ a ≤ len → len < 2 ^ 64 → (u64 a >? len) = false.
Proof. intros. rewrite wrap_small by int_solve. rewrite Z.gtb_ltb. apply Z.ltb_ge. lia. Qed.

Lemma decode_route_eq malloc p type compress r body :
  malloc_succeeds malloc → PC_MSG_HAS_ROUTE type = true → route_ok type compress r →
  let data := p ++ route_wire type compress r ++ body in
  zlen data < 2 ^ 63 →
  msg_decode_route malloc data (zlen data) (zlen p) compress =
    Val (Some (r, zlen p + zlen (route_wire type compress r))).
Proof.
  cbv zeta. unfold route_ok, route_wire. intros Hm Ht Hr Hlen. rewrite Ht in *.
  pose proof (zlen_nonneg p). pose proof (zlen_nonneg body).
  unfold msg_decode_route, PC_MSG_ROUTE_CODE_BYTES, PC_MSG_ROUTE_LEN_BYTES.
  destruct r as [|c|s].
  - subst compress. cbn [negb Z.eqb]. rewrite check_len_ok by zl.
    cbn [app]. rewrite rd_middle, bind_Val by done. reflexivity.
  - destruct Hr as [-> Hc]. change (negb (1 =? 0)) with true. cbv iota.
    rewrite check_len_ok by zl. cbn [app].
    rewrite (rd_middle p _ _ (zlen p)), bind_Val by done.
    change (p ++ c / 256 :: c mod 256 :: body) with (p ++ [c / 256] ++ c mod 256 :: body).
    rewrite app_assoc, rd_middle, bind_Val by zl.
    rewrite !land_s8_255, Z.lor_0_l, Z.shiftl_mul_pow2 by lia.
    pose proof (Z.mod_pos_bound c 256). pose proof (Z.div_mod c 256).
    assert (0 ≤ c / 256 < 256).
    { split; [apply Z.div_pos; int_solve|apply Z.div_lt_upper_bound; int_solve]. }
    rewrite (wrap_small 8 (c / 256)), (wrap_small 8 (c mod 256)) by int_solve.
    rewrite (wrap_small 16 (c / 256 * 2 ^ 8)) by int_solve.
    rewrite lor_low_high by int_solve. change (2 ^ 8) with 256.
    replace (c / 256 * 256 + c mod 256) with c by lia. by rewrite wrap_small by done.
  - destruct Hr as [-> Hs]. cbn [negb Z.eqb app]. rewrite check_len_ok by zl.
    rewrite rd_middle, bind_Val by done.
    rewrite (swrap_small 8) by int_solve. rewrite (wrap_small 64 (zlen s)) by int_solve.
    rewrite (proj2 (Z.eqb_neq (zlen s) 0)) by lia. cbn [negb].
    rewrite (wrap_small 64 (zlen s + 1)) by int_solve. rewrite Hm by lia. cbn [negb].
    rewrite check_len_ok by zl. rewrite (proj2 (Z.ltb_lt _ _)) by lia. cbn [require].
    rewrite bind_Val.
    change (p ++ zlen s :: s ++ body) with (p ++ [zlen s] ++ s ++ body).
    rewrite app_assoc, memcpy_from_middle, bind_Val by zl.
    rewrite zlen_cons, wrap_small by (split; zl). do 3 f_equal. lia.
Qed.

(** The flag byte, read back. *)
Lemma flag_type type c :
  PC_MSG_VALIDATE type = true → c = 0 ∨ c = 1 →
  let flag := u8 (2 * type + c) in
  Z.land (Z.shiftr flag 1) 0xff = type ∧ Z.land flag 0x01 = c.
Proof.
  intros Ht Hc. apply validate_cases in Ht.
  destruct Ht as [->|[->|[->| ->]]], Hc as [->| ->]; done.
Qed.

Lemma decode_id_wire type id p s :
  (if PC_MSG_HAS_ID type then 0 ≤ id < 2 ^ 31 else id = 0) → zlen p = 1 →
  (if PC_MSG_HAS_ID type then msg_decode_id_loop 6 (p ++ id_wire type id ++ s) 0 0 1
   else Val (0, 1)) = Val (id, zlen (p ++ id_wire type id)).
Proof.
  unfold id_wire. intros Hid Hp. rewrite zlen_app, Hp. destruct (PC_MSG_HAS_ID type).
  - rewrite msg_decode_id_loop_eq; [|apply id_fits_5; int_solve|lia|lia|lia|lia|simpl; lia].
    rewrite Z.mul_1_r, wrap_small by int_solve. done.
  - by subst id.
Qed.

Lemma id_wire_check type id p s :
  zlen p = 1 → (0 ≤ id < 2 ^ 31 ∨ PC_MSG_HAS_ID type = false) →
  zlen (p ++ id_wire type id ++ s) < 2 ^ 63 →
  PC_MSG_HAS_ID type && (u64 (1 + 1) >? zlen (p ++ id_wire type id ++ s)) = false.
Proof.
  unfold id_wire. intros Hp Hid Hl. destruct (PC_MSG_HAS_ID type); [|done]. cbn [andb].
  destruct Hid as [Hid|]; [|done].
  destruct (id_bytes 5 id) as [|b bs] eqn:E.
  { exfalso. apply (id_fits_nonempty 5 id); [apply id_fits_5; int_solve|lia|exact E]. }
  apply check_len_ok; zl.
Qed.

Lemma decode_body malloc p body :
  malloc_succeeds malloc → zlen (p ++ body) < 2 ^ 63 →
  let body_len := u64 (zlen (p ++ body) - zlen p) in
  (if negb (body_len =? 0) then
     _ ← require (malloc body_len); memcpy_from (p ++ body) (zlen p) body_len
   else Val []) = Val body.
Proof.
  intros Hm Hl. cbv zeta. pose proof (zlen_nonneg p). pose proof (zlen_nonneg body).
  rewrite zlen_app in *. replace (zlen p + zlen body - zlen p) with (zlen body) by lia.
  rewrite wrap_small by int_solve. destruct (zlen body =? 0) eqn:E; b2p; cbn [negb].
  - destruct body; [done|]. rewrite zlen_cons in E. pose proof (zlen_nonneg body). lia.
  - rewrite Hm by lia. cbn [require]. rewrite bind_Val.
    rewrite <- (app_nil_r body) at 1. by apply memcpy_from_middle.
Qed.

Lemma decode_wire_eq (malloc : Z → bool) (m : pc__msg_raw_t) :
  malloc_succeeds malloc → raw_ok m →
  pc_msg_decode malloc (msg_wire m) (zlen (msg_wire m)) = Val (Some m).
Proof.
  intros Hm [Ht Hid Hc Hr Hl]. destruct m as [id type c r body].
  unfold msg_wire in *. cbn [raw_type raw_id compressRoute raw_route raw_body] in *.
  unfold pc_msg_decode. rewrite Hm by (unfold sizeof_raw; lia). cbn [negb].
  rewrite check_len_ok by (unfold PC_MSG_FLAG_BYTES; zl).
  rewrite rd_app_head, bind_Val.
  destruct (flag_type type c Ht Hc) as [-> ->]. rewrite Ht. cbn [negb].
  rewrite id_wire_check; [|done| |done]; cycle 1.
  { destruct (PC_MSG_HAS_ID type); auto. }
  rewrite decode_id_wire by done. rewrite bind_Val. cbv beta iota.
  rewrite !app_assoc in *. set (p := _ ++ id_wire type id) in *.
  assert ((if PC_MSG_HAS_ROUTE type
           then msg_decode_route malloc ((p ++ route_wire type c r) ++ body)
                  (zlen ((p ++ route_wire type c r) ++ body)) (zlen p) c
           else Val (Some (RNull, zlen p)))
          = Val (Some (r, zlen (p ++ route_wire type c r)))) as ->.
  { rewrite <- app_assoc in *. rewrite (zlen_app p (route_wire _ _ _)).
    destruct (PC_MSG_HAS_ROUTE type) eqn:E; [by apply decode_route_eq|].
    unfold route_ok, route_wire in *. rewrite E in *. subst r.
    change (zlen (@nil Z)) with 0. by rewrite Z.add_0_r. }
  rewrite bind_Val. rewrite decode_body by done. done.
Qed.

(** Every message whose id is below 2^31 and whose route is a
    code or a string of less than 128 bytes, of any of the four types, is
    decoded from its wire form to the same message. *)
Theorem msg_decode_wire (malloc : Z → bool) (m : pc__msg_raw_t) :
  malloc_succeeds malloc → raw_ok m →
  pc_msg_decode malloc (msg_wire m) (zlen (msg_wire m)) = Val (Some m).
Proof. apply decode_wire_eq. Qed.

(** ** What the encoders produce *)

Lemma malloc_block_add junk a b :
  0 ≤ a → 0 ≤ b → malloc_block junk (a + b) = malloc_block junk a ++ malloc_block junk b.
Proof. intros. unfold malloc_block. by rewrite Z2Nat.inj_add, replicate_add by lia. Qed.

Lemma length_malloc_block junk (l : bytes) : length (malloc_block junk (zlen l)) = length l.
Proof. unfold malloc_block, zlen. rewrite length_replicate. lia. Qed.

Lemma encode_flag_eq type (compress : bool) junk s :
  PC_MSG_VALIDATE type = true →
  pc__msg_encode_flag type compress (malloc_block junk 1 ++ s) 0 =
    Val ([2 * type + Z.b2z compress] ++ s, 1).
Proof.
  intros Ht. unfold pc__msg_encode_flag.
  change (malloc_block junk 1 ++ s) with (junk :: s). rewrite memcpy_to_head, bind_Val.
  apply validate_cases in Ht. by destruct Ht as [->|[->|[->| ->]]], compress.
Qed.

Lemma encode_id_eq type id junk p s :
  is_u 32 id →
  (if PC_MSG_HAS_ID type
   then pc__msg_encode_id id (p ++ malloc_block junk (zlen (id_wire type id)) ++ s) (zlen p)
   else Val (p ++ malloc_block junk (zlen (id_wire type id)) ++ s, zlen p)) =
  Val (p ++ id_wire type id ++ s, zlen (p ++ id_wire type id)).
Proof.
  intros Hid. unfold id_wire, pc__msg_encode_id. rewrite zlen_app.
  destruct (PC_MSG_HAS_ID type).
  - rewrite msg_encode_id_loop_eq; [done|by apply id_fits_5|lia|done|].
    apply length_malloc_block.
  - change (zlen (@nil Z)) with 0. rewrite Z.add_0_r. done.
Qed.

Lemma encode_id_length type id :
  is_u 32 id →
  (if PC_MSG_HAS_ID type then pc__msg_id_length id else Val 0) = Val (zlen (id_wire type id)).
Proof.
  intros Hid. unfold id_wire, pc__msg_id_length. destruct (PC_MSG_HAS_ID type); [|done].
  rewrite msg_id_length_loop_eq; [f_equal; lia|by apply id_fits_5|lia..].
Qed.

Lemma id_wire_le type id : zlen (id_wire type id) ≤ 5.
Proof.
  unfold id_wire. destruct (PC_MSG_HAS_ID type); [|zl].
  pose proof (id_bytes_length_le 5 id). zl.
Qed.

Lemma encode_route_part route rl junk p s :
  0 ≤ rl ≤ zlen route →
  pc__msg_encode_route route rl (p ++ (malloc_block junk 1 ++ malloc_block junk rl) ++ s) (zlen p) =
    Val (p ++ (rl mod 256 :: take (Z.to_nat rl) route) ++ s, zlen p + 1 + rl).
Proof.
  intros Hrl. unfold pc__msg_encode_route.
  change 0xff with (Z.ones 8). rewrite Z.land_ones by lia. change (2 ^ 8) with 256.
  rewrite wrap_small by (apply Z.mod_pos_bound; lia).
  rewrite <- !app_assoc, memcpy_to_middle, bind_Val by done.
  rewrite memcpy_from_eq, bind_Val by (done || lia). rewrite drop_0.
  rewrite (app_assoc p). rewrite memcpy_to_middle, bind_Val; [by rewrite <- app_assoc|zl|].
  unfold malloc_block. rewrite length_replicate, length_take. zl.
Qed.

(** The bytes [pc_msg_encode_route] announces and copies for a route. *)
Definition route_part (type : Z) (route : bytes) : bytes :=
  if PC_MSG_HAS_ROUTE type then
    let rl := u16 (zlen route) in (rl mod 256) :: take (Z.to_nat rl) route
  else [].

Lemma encode_route_eq (malloc_ok : bool) junk id type route msg :
  PC_MSG_VALIDATE type = true → is_u 32 id → zlen route + zlen msg < 2 ^ 63 →
  pc_msg_encode_route malloc_ok junk id type route msg =
    Val (if malloc_ok then
           Some ([2 * type] ++ id_wire type id ++ route_part type route ++ msg ++
                 (if PC_MSG_HAS_ROUTE type then [] else [junk]))
         else None).
Proof.
  intros Ht Hid Hl. unfold pc_msg_encode_route. rewrite encode_id_length, bind_Val by done.
  destruct malloc_ok; [|done]. cbn [negb]. unfold route_part.
  pose proof (id_wire_le type id). pose proof (zlen_nonneg (id_wire type id)).
  pose proof (zlen_nonneg msg). pose proof (zlen_nonneg route).
  assert (0 ≤ u16 (zlen route) ≤ zlen route).
  { pose proof (wrap_range 16 (zlen route)). split; [int_solve|]. apply Z.mod_le; lia. }
  unfold PC_MSG_FLAG_BYTES, PC_MSG_ROUTE_LEN_BYTES.
  destruct (PC_MSG_HAS_ROUTE type).
  - set (rl := u16 (zlen route)) in *. rewrite (wrap_small 64) by int_solve.
    rewrite !malloc_block_add, <- !app_assoc, encode_flag_eq, bind_Val by (done || lia).
    cbn [Z.b2z]. rewrite Z.add_0_r. cbv beta iota.
    pose proof (encode_id_eq type id junk [2 * type]) as E. change (zlen [2 * type]) with 1 in E.
    rewrite E, bind_Val by done. cbv beta iota. rewrite (app_assoc [_]).
    pose proof (encode_route_part route rl junk ([2 * type] ++ id_wire type id)
      (malloc_block junk (zlen msg))) as E2. rewrite <- (app_assoc (malloc_block junk 1)) in E2.
    rewrite E2, bind_Val by done. cbv beta iota. rewrite (app_assoc (_ ++ _) (_ :: _)).
    rewrite <- (app_nil_r (malloc_block junk (zlen msg))).
    rewrite memcpy_to_middle; [rewrite bind_Val, <- !app_assoc; done| |apply length_malloc_block].
    rewrite !zlen_app, !zlen_cons, zlen_take. lia.
  - rewrite Z.add_0_r. rewrite (wrap_small 64) by int_solve.
    replace (1 + zlen (id_wire type id) + 1 + zlen msg)
      with (1 + zlen (id_wire type id) + (zlen msg + 1)) by lia.
    rewrite !malloc_block_add, <- !app_assoc, encode_flag_eq, bind_Val by (done || lia).
    cbn [Z.b2z]. rewrite Z.add_0_r. cbv beta iota.
    pose proof (encode_id_eq type id junk [2 * type]) as E. change (zlen [2 * type]) with 1 in E.
    rewrite E, bind_Val by done. cbv beta iota. rewrite bind_Val. rewrite (app_assoc [_]).
    rewrite memcpy_to_middle; [|done|apply length_malloc_block].
    rewrite bind_Val, <- !app_assoc. done.
Qed.

(** The code [pc_msg_encode_code] stores: the low 16 bits of the [int]. *)
Lemma route_code_bytes c :
  Z.land (Z.shiftr c 8) 0xff = wrap 16 c / 256 ∧ Z.land c 0xff = wrap 16 c mod 256.
Proof.
  change 0xff with (Z.ones 8). rewrite !Z.land_ones, Z.shiftr_div_pow2 by lia.
  unfold wrap. change (2 ^ 16) with (256 * 256). change (2 ^ 8) with 256.
  rewrite Z.rem_mul_r by lia. rewrite (Z.add_comm (c mod 256)), (Z.mul_comm 256).
  pose proof (Z.mod_pos_bound c 256). split.
  - rewrite Z.div_add_l by lia. rewrite (Z.div_small (c mod 256)) by lia. lia.
  - rewrite Z.add_comm, Z_mod_plus_full, Z.mod_mod; lia.
Qed.

Lemma encode_code_eq (malloc_ok : bool) junk id type code msg :
  PC_MSG_VALIDATE type = true → is_u 32 id → zlen msg < 2 ^ 63 →
  pc_msg_encode_code malloc_ok junk id type code msg =
    Val (if malloc_ok then
           Some ([2 * type + 1] ++ id_wire type id ++
                 route_wire type 1 (RCode (u16 code)) ++ msg)
         else None).
Proof.
  intros Ht Hid Hl. unfold pc_msg_encode_code. rewrite encode_id_length, bind_Val by done.
  destruct malloc_ok; [|done]. cbn [negb]. unfold route_wire.
  pose proof (id_wire_le type id). pose proof (zlen_nonneg (id_wire type id)).
  pose proof (zlen_nonneg msg). destruct (route_code_bytes code) as [-> ->].
  pose proof (encode_id_eq type id junk [2 * type + 1]) as E.
  change (zlen [2 * type + 1]) with 1 in E.
  unfold PC_MSG_FLAG_BYTES, PC_MSG_ROUTE_CODE_BYTES.
  destruct (PC_MSG_HAS_ROUTE type); rewrite (wrap_small 64) by int_solve.
  - change 2 with (1 + 1) at 1. rewrite (Z.add_assoc _ 1 1).
    rewrite !malloc_block_add, <- !app_assoc, encode_flag_eq, bind_Val by (done || lia).
    cbn [Z.b2z]. cbv beta iota. rewrite E, bind_Val by done. cbv beta iota. rewrite (app_assoc [_]).
    rewrite memcpy_to_middle, bind_Val by done. rewrite (app_assoc (_ ++ _)).
    rewrite memcpy_to_middle, bind_Val by (done || zl). rewrite bind_Val.
    cbv beta iota. rewrite (app_assoc (_ ++ [_])).
    rewrite <- (app_nil_r (malloc_block junk (zlen msg))).
    rewrite memcpy_to_middle; [|zl|apply length_malloc_block].
    rewrite bind_Val, app_nil_r, <- !app_assoc. done.
  - rewrite Z.add_0_r.
    rewrite !malloc_block_add, <- !app_assoc, encode_flag_eq, bind_Val by (done || lia).
    cbn [Z.b2z]. cbv beta iota. rewrite E, bind_Val by done. cbv beta iota. rewrite bind_Val.
    rewrite (app_assoc [_]). rewrite <- (app_nil_r (malloc_block junk (zlen msg))).
    rewrite memcpy_to_middle; [|done|apply length_malloc_block].
    rewrite bind_Val, app_nil_r, <- !app_assoc. done.
Qed.

(** [pc_msg_encode_route] on every branch and type: the flag,
    the base-128 id when the type has one, the low byte of the 16-bit route
    length, that many route bytes and the body; a response, which the length
    computation gives one byte too many, ends with an uninitialised byte. *)
Theorem msg_encode_route_spec (malloc_ok : bool) junk id type route msg :
  PC_MSG_VALIDATE type = true → is_u 32 id → zlen route + zlen msg < 2 ^ 63 →
  pc_msg_encode_route malloc_ok junk id type route msg =
    Val (if malloc_ok then
           Some ([2 * type] ++ id_wire type id ++ route_part type route ++ msg ++
                 (if PC_MSG_HAS_ROUTE type then [] else [junk]))
         else None).
Proof. apply encode_route_eq. Qed.

(** What a decoded message looks like for an encoded one. *)
Definition decoded (id type compress : Z) (r : msg_route) (body : bytes) : pc__msg_raw_t :=
  mkRaw (if PC_MSG_HAS_ID type then id else 0) type compress r body.

Lemma route_roundtrip_eq (malloc : Z → bool) junk id type route body out :
  malloc_succeeds malloc → PC_MSG_VALIDATE type = true → PC_MSG_HAS_ROUTE type = true →
  0 ≤ id < 2 ^ 31 → 0 < zlen route < 128 → zlen body < 2 ^ 62 →
  pc_msg_encode_route true junk id type route body = Val (Some out) →
  pc_msg_decode malloc out (zlen out) = Val (Some (decoded id type 0 (RStr route) body)).
Proof.
  intros Hm Ht Hrt Hid Hr Hb He.
  rewrite encode_route_eq in He; [|done|int_solve|lia].
  assert (out = msg_wire (decoded id type 0 (RStr route) body)) as ->.
  { injection He as <-. unfold msg_wire, decoded, route_part, route_wire, id_wire.
    cbn [raw_type raw_id compressRoute raw_route raw_body].
    rewrite Hrt, app_nil_r, Z.add_0_r. rewrite (wrap_small 16) by int_solve.
    rewrite (Z.mod_small (zlen route)) by lia.
    rewrite take_ge by zl. by destruct (PC_MSG_HAS_ID type). }
  apply decode_wire_eq; [done|].
  split; unfold decoded; cbn [raw_type raw_id compressRoute raw_route raw_body]; try done.
  - by destruct (PC_MSG_HAS_ID type).
  - by left.
  - unfold route_ok. by rewrite Hrt.
  - unfold msg_wire. cbn [raw_type raw_id compressRoute raw_route raw_body]. rewrite !zlen_app, !zlen_cons.
    pose proof (id_wire_le type (if PC_MSG_HAS_ID type then id else 0)).
    unfold route_wire. rewrite Hrt, !zlen_cons. change (zlen (@nil Z)) with 0. lia.
Qed.

(** A message encoded with a route string of 1 to 127 bytes is
    decoded to the same id, type, route and body. *)
Theorem msg_route_roundtrip (malloc : Z → bool) junk id type route body out :
  malloc_succeeds malloc → PC_MSG_VALIDATE type = true → PC_MSG_HAS_ROUTE type = true →
  0 ≤ id < 2 ^ 31 → 0 < zlen route < 128 → zlen body < 2 ^ 62 →
  pc_msg_encode_route true junk id type route body = Val (Some out) →
  pc_msg_decode malloc out (zlen out) = Val (Some (decoded id type 0 (RStr route) body)).
Proof. apply route_roundtrip_eq. Qed.

Lemma code_roundtrip_eq (malloc : Z → bool) junk id type code body out :
  malloc_succeeds malloc → PC_MSG_VALIDATE type = true → PC_MSG_HAS_ROUTE type = true →
  0 ≤ id < 2 ^ 31 → zlen body < 2 ^ 62 →
  pc_msg_encode_code true junk id type code body = Val (Some out) →
  pc_msg_decode malloc out (zlen out) = Val (Some (decoded id type 1 (RCode (u16 code)) body)).
Proof.
  intros Hm Ht Hrt Hid Hb He.
  rewrite encode_code_eq in He; [|done|int_solve|lia].
  assert (out = msg_wire (decoded id type 1 (RCode (u16 code)) body)) as ->.
  { injection He as <-. unfold msg_wire, decoded, id_wire. simpl. by destruct (PC_MSG_HAS_ID type). }
  apply decode_wire_eq; [done|].
  split; unfold decoded; cbn [raw_type raw_id compressRoute raw_route raw_body]; try done.
  - by destruct (PC_MSG_HAS_ID type).
  - by right.
  - unfold route_ok. rewrite Hrt. split; [done|]. apply wrap_range. lia.
  - unfold msg_wire. cbn [raw_type raw_id compressRoute raw_route raw_body]. rewrite !zlen_app.
    pose proof (id_wire_le type (if PC_MSG_HAS_ID type then id else 0)).
    unfold route_wire. rewrite Hrt. unfold zlen in *. simpl length. lia.
Qed.

(** A message encoded with a dictionary code is decoded to the
    same id, type and body and to the low 16 bits of the code. *)
Theorem msg_code_roundtrip (malloc : Z → bool) junk id type code body out :
  malloc_succeeds malloc → PC_MSG_VALIDATE type = true → PC_MSG_HAS_ROUTE type = true →
  0 ≤ id < 2 ^ 31 → zlen body < 2 ^ 62 →
  pc_msg_encode_code true junk id type code body = Val (Some out) →
  pc_msg_decode malloc out (zlen out) = Val (Some (decoded id type 1 (RCode (u16 code)) body)).
Proof. apply code_roundtrip_eq. Qed.

(** ** Which inputs the decoder handles without undefined behaviour *)

(** What follows an id of at most [n] groups, of which the fifth is below 8 so that
    its product fits an [int]; [None] when the id is not terminated, is longer, or is 2^31
    or more. *)
Fixpoint id_rest (n : nat) (bs : bytes) : option bytes :=
  match n, bs with
  | S n, b :: bs =>
      if b <? 128 then if (n =? 0)%nat && (8 <=? b) then None else Some bs
      else if (n =? 0)%nat then None else id_rest n bs
  | _, _ => None
  end.

Definition route_byte_ok (compress : Z) (bs : bytes) : bool :=
  match bs with b :: _ => negb (compress =? 0) || negb (b =? 255) | [] => true end.

(** A terminated id of at most five groups and below 2^31, and a route length byte other
    than 255. *)
Definition header_ok (data : bytes) : bool :=
  match data with
  | [] => true
  | b :: rest =>
      let type := Z.land (Z.shiftr b 1) 0xff in
      if negb (PC_MSG_VALIDATE type) then true
      else
        match (if PC_MSG_HAS_ID type then
                 match rest with [] => Some [] | _ => id_rest 5 rest end
               else Some rest) with
        | None => false
        | Some rest => negb (PC_MSG_HAS_ROUTE type) || route_byte_ok (Z.land b 1) rest
        end
  end.

Lemma id_rest_loop n k bs rest p acc i :
  id_rest n bs = Some rest → Forall is_byte bs → (n ≤ k)%nat → 0 ≤ i → i + Z.of_nat n = 5 →
  ∃ id ids, bs = ids ++ rest ∧
    msg_decode_id_loop k (p ++ bs) acc i (zlen p) = Val (id, zlen (p ++ ids)).
Proof.
  revert k bs p acc i. induction n as [|n IH]; intros k bs p acc i Hr Hb Hk Hi Hin; [done|].
  destruct bs as [|b bs]; [done|]. apply Forall_cons_1 in Hb as [Hb Hbs].
  destruct k as [|k]; [lia|]. cbn [id_rest] in Hr. cbn [msg_decode_id_loop].
  rewrite rd_middle, bind_Val by done. rewrite (wrap_small 8) by done. rewrite land_127.
  rewrite (proj2 (Z.ltb_lt (7 * i) 32)) by lia. cbn [require]. rewrite bind_Val.
  rewrite Z.shiftl_1_l. pose proof (Z.mod_pos_bound b 128).
  destruct (b <? 128) eqn:E128; b2p.
  - destruct (_ && _) eqn:E8; [done|]. injection Hr as <-. rewrite Z.mod_small by int_solve.
    assert (b * 2 ^ (7 * i) ≤ INT_MAX).
    { assert (2 ^ (7 * i) ≤ 2 ^ 28) by (apply Z.pow_le_mono_r; lia).
      destruct n as [|n]; simpl in E8.
      - b2p. replace (7 * i) with 28 by lia. unfold INT_MAX. lia.
      - assert (2 ^ (7 * i) ≤ 2 ^ 21) by (apply Z.pow_le_mono_r; lia).
        unfold INT_MAX, is_u in *. nia. }
    rewrite (proj2 (Z.leb_le _ INT_MAX)) by done. cbn [require]. rewrite bind_Val.
    rewrite Z.geb_leb, (proj2 (Z.leb_gt 128 b)) by done.
    eexists _, [b]. split; [done|]. rewrite zlen_app. done.
  - destruct n as [|n]; [done|]. cbn [Nat.eqb] in Hr.
    assert (b mod 128 * 2 ^ (7 * i) ≤ INT_MAX).
    { assert (2 ^ (7 * i) ≤ 2 ^ 21) by (apply Z.pow_le_mono_r; lia).
      unfold INT_MAX. nia. }
    rewrite (proj2 (Z.leb_le _ INT_MAX)) by done. cbn [require]. rewrite bind_Val.
    rewrite Z.geb_leb, (proj2 (Z.leb_le 128 b)) by done.
    change (p ++ b :: bs) with (p ++ [b] ++ bs). rewrite app_assoc.
    replace (zlen p + 1) with (zlen (p ++ [b])) by zl.
    edestruct (IH k bs (p ++ [b])) as (id & ids & -> & ->); [done|done|lia| |lia|].
    { lia. }
    exists id, (b :: ids). split; [done|]. by rewrite <- app_assoc.
Qed.

Lemma decode_route_safe malloc p rest compress :
  malloc_succeeds malloc → malloc_bounded malloc → Forall is_byte rest →
  zlen (p ++ rest) < 2 ^ 63 → route_byte_ok compress rest = true →
  ∃ r, msg_decode_route malloc (p ++ rest) (zlen (p ++ rest)) (zlen p) compress = Val r ∧
    (∀ route off, r = Some (route, off) → ∃ q rest', p ++ rest = q ++ rest' ∧ off = zlen q).
Proof.
  intros Hm Hmb Hb Hl Hr. unfold msg_decode_route, PC_MSG_ROUTE_CODE_BYTES, PC_MSG_ROUTE_LEN_BYTES.
  pose proof (zlen_nonneg p). pose proof (zlen_nonneg rest). rewrite zlen_app in Hl.
  destruct (negb (compress =? 0)) eqn:Ec.
  - destruct (u64 (zlen p + 2) >? zlen (p ++ rest)) eqn:E; [by eexists|].
    rewrite zlen_app, (wrap_small 64) in E by int_solve. b2p.
    destruct rest as [|hi [|lo rest]]; [zl|zl|].
    rewrite (rd_middle p _ _ (zlen p)), bind_Val by done.
    change (p ++ hi :: lo :: rest) with (p ++ [hi] ++ lo :: rest).
    rewrite app_assoc, rd_middle, bind_Val by zl. eexists; split; [done|].
    intros route off [= _ <-]. exists ((p ++ [hi]) ++ [lo]), rest.
    split; [by rewrite <- !app_assoc|zl].
  - destruct (u64 (zlen p + 1) >? zlen (p ++ rest)) eqn:E; [by eexists|].
    rewrite zlen_app, (wrap_small 64) in E by int_solve. b2p.
    destruct rest as [|b rest]; [zl|]. apply Forall_cons_1 in Hb as [Hb Hbs].
    rewrite rd_middle, bind_Val by done.
    unfold route_byte_ok in Hr. rewrite Ec in Hr. simpl in Hr. b2p.
    destruct (decide (b < 128)) as [Hlow|Hhigh].
    + rewrite (swrap_small 8), (wrap_small 64 b) by int_solve.
      destruct (b =? 0) eqn:E0; b2p; cbn [negb].
      { eexists; split; [done|]. intros route off [= _ <-].
        exists (p ++ [b]), rest. split; [by rewrite <- app_assoc|zl]. }
      rewrite (wrap_small 64 (b + 1)) by int_solve. rewrite Hm by int_solve. cbn [negb].
      destruct (u64 (zlen p + 1 + b) >? _) eqn:E2; [by eexists|].
      rewrite (wrap_small 64) in E2 by int_solve. b2p.
      rewrite (proj2 (Z.ltb_lt b (b + 1))) by lia. cbn [require]. rewrite bind_Val.
      rewrite memcpy_from_eq by int_solve. rewrite bind_Val. eexists; split; [done|].
      intros route off [= _ <-]. rewrite wrap_small by int_solve.
      exists (take (Z.to_nat (zlen p + 1 + b)) (p ++ b :: rest)),
             (drop (Z.to_nat (zlen p + 1 + b)) (p ++ b :: rest)).
      rewrite take_drop. split; [done|]. rewrite zlen_take. int_solve.
    + rewrite s8_high by int_solve.
      assert (u64 (b - 256) = 2 ^ 64 + b - 256) as ->.
      { unfold wrap. rewrite <- (Z.mod_small (2 ^ 64 + b - 256) (2 ^ 64)) by int_solve.
        replace (2 ^ 64 + b - 256) with (b - 256 + 1 * 2 ^ 64) by lia.
        by rewrite Z_mod_plus_full. }
      rewrite (proj2 (Z.eqb_neq (2 ^ 64 + b - 256) 0)) by int_solve. cbn [negb].
      rewrite (wrap_small 64) by int_solve. rewrite Hmb by int_solve. cbn [negb].
      eexists; split; [done|]. done.
Qed.

Lemma decode_body_safe malloc q rest :
  malloc_succeeds malloc → zlen (q ++ rest) < 2 ^ 63 →
  ∃ body, (let body_len := u64 (zlen (q ++ rest) - zlen q) in
           if negb (body_len =? 0) then
             _ ← require (malloc body_len); memcpy_from (q ++ rest) (zlen q) body_len
           else Val []) = Val body.
Proof. intros. eexists. by apply decode_body. Qed.

(** The decoder after the id. *)
Lemma decode_tail_safe malloc p rest id type compress :
  malloc_succeeds malloc → malloc_bounded malloc → Forall is_byte rest →
  zlen (p ++ rest) < 2 ^ 63 →
  negb (PC_MSG_HAS_ROUTE type) || route_byte_ok compress rest = true →
  ∃ r,
    (r ← (if PC_MSG_HAS_ROUTE type
          then msg_decode_route malloc (p ++ rest) (zlen (p ++ rest)) (zlen p) compress
          else Val (Some (RNull, zlen p)));
     match r with
     | None => Val None
     | Some (route, offset) =>
         let body_len := u64 (zlen (p ++ rest) - offset) in
         body ← (if negb (body_len =? 0) then
                   _ ← require (malloc body_len);
                   memcpy_from (p ++ rest) offset body_len
                 else Val []);
         Val (Some (mkRaw id type compress route body))
     end) = Val r.
Proof.
  intros Hm Hmb Hb Hl Hr. destruct (PC_MSG_HAS_ROUTE type).
  - destruct (decode_route_safe malloc p rest compress) as (r & -> & Hpos); [done..|].
    rewrite bind_Val. destruct r as [[route off]|]; [|by eexists].
    destruct (Hpos _ _ eq_refl) as (q & rest' & Eq & ->). rewrite Eq in *. cbv zeta.
    destruct (decode_body_safe malloc q rest') as [body E]; [done..|].
    cbv zeta in E. rewrite E, bind_Val. by eexists.
  - rewrite bind_Val. cbv zeta.
    destruct (decode_body_safe malloc p rest) as [body E]; [done..|].
    cbv zeta in E. rewrite E, bind_Val. by eexists.
Qed.

Lemma decode_header_safe (malloc : Z → bool) (data : bytes) :
  malloc_succeeds malloc → malloc_bounded malloc → Forall is_byte data →
  zlen data < 2 ^ 63 → header_ok data = true →
  ∃ r, pc_msg_decode malloc data (zlen data) = Val r.
Proof.
  intros Hm Hmb Hb Hl Hh. unfold pc_msg_decode. rewrite Hm by (unfold sizeof_raw; lia). cbn [negb].
  destruct data as [|b rest]; [by eexists|]. apply Forall_cons_1 in Hb as [Hb Hbs].
  rewrite check_len_ok by (unfold PC_MSG_FLAG_BYTES; zl).
  change (b :: rest) with ([b] ++ rest) in *. rewrite rd_app_head, bind_Val.
  rewrite (wrap_small 8 b) by done. cbn [header_ok app] in Hh.
  set (type := Z.land (Z.shiftr b 1) 0xff) in *.
  destruct (PC_MSG_VALIDATE type) eqn:Ht; cbn [negb] in *; [|by eexists].
  destruct (PC_MSG_HAS_ID type) eqn:Hid; cbn [andb].
  - destruct rest as [|c rest]; [by eexists|].
    rewrite check_len_ok by zl. destruct (id_rest 5 (c :: rest)) as [tl|] eqn:Er; [|done].
    destruct (id_rest_loop 5 6 (c :: rest) tl [b] 0 0) as (id & ids & Es & E); try done; try lia.
    change (zlen [b]) with 1 in E. rewrite E, bind_Val. cbv beta iota.
    rewrite Es in *. apply Forall_app in Hbs as [_ Htl].
    rewrite app_assoc in *. by apply decode_tail_safe.
  - rewrite bind_Val. cbv beta iota. change 1 with (zlen [b]). by apply decode_tail_safe.
Qed.

(** The id loop on an id that is not terminated, too long or too large. *)
Lemma id_rest_undefined n bs p acc i :
  id_rest n bs = None → Forall is_byte bs → 0 ≤ i → i + Z.of_nat n = 5 →
  msg_decode_id_loop (S n) (p ++ bs) acc i (zlen p) = UB.
Proof.
  revert bs p acc i. induction n as [|n IH]; intros bs p acc i Hr Hb Hi Hin.
  - cbn [msg_decode_id_loop]. destruct bs as [|b bs]; [by rewrite app_nil_r, rd_end|]. rewrite rd_middle, bind_Val by done.
    by rewrite (proj2 (Z.ltb_ge (7 * i) 32)) by lia.
  - remember (S n) as k eqn:Ek. cbn [msg_decode_id_loop]. destruct bs as [|b bs]; [by rewrite app_nil_r, rd_end|]. apply Forall_cons_1 in Hb as [Hb Hbs]. subst k.
    rewrite rd_middle, bind_Val by done. rewrite (wrap_small 8) by done. rewrite land_127.
    rewrite (proj2 (Z.ltb_lt (7 * i) 32)) by lia. cbn [require]. rewrite bind_Val.
    destruct (_ <=? INT_MAX) eqn:Ei; [|done]. cbn [require]. rewrite bind_Val. cbn [id_rest] in Hr.
    destruct (b <? 128) eqn:E128; b2p.
    + destruct (_ && _) eqn:E8; [|done]. apply andb_true_iff in E8 as [En%Nat.eqb_eq E8]. b2p. exfalso.
      replace i with 4 in Ei by lia. rewrite Z.mod_small in Ei by int_solve. change (Z.shiftl 1 (7 * 4)) with 268435456 in Ei. unfold INT_MAX in Ei. lia.
    + rewrite Z.geb_leb, (proj2 (Z.leb_le 128 b)) by done.
      change (p ++ b :: bs) with (p ++ [b] ++ bs). rewrite app_assoc. replace (zlen p + 1) with (zlen (p ++ [b])) by zl.
      apply IH; [by destruct n|done|lia|lia].
Qed.

(** A route length byte of 255 is a copy of [SIZE_MAX] bytes. *)
Lemma decode_route_undefined malloc p rest compress :
  malloc_succeeds malloc → zlen (p ++ rest) < 2 ^ 63 → route_byte_ok compress rest = false →
  msg_decode_route malloc (p ++ rest) (zlen (p ++ rest)) (zlen p) compress = UB.
Proof.
  intros Hm Hl Hr. destruct rest as [|b rest]; [done|]. cbn [route_byte_ok] in Hr. apply orb_false_iff in Hr as [Ec Eb].
  unfold msg_decode_route, PC_MSG_ROUTE_LEN_BYTES. rewrite Ec. pose proof (zlen_nonneg p). pose proof (zlen_nonneg rest).
  rewrite zlen_app, zlen_cons in *. rewrite (wrap_small 64 (zlen p + 1)) by int_solve. rewrite Z.gtb_ltb, (proj2 (Z.ltb_ge _ _)) by lia.
  rewrite rd_middle, bind_Val by done. assert (b = 255) as -> by (apply negb_false_iff, Z.eqb_eq in Eb; done).
  change (u64 (s8 255)) with (2 ^ 64 - 1). change (u64 (2 ^ 64 - 1 + 1)) with 0. rewrite Hm by lia. cbn [Z.eqb negb].
  destruct (_ >? _) eqn:E; [|done]. exfalso. assert (u64 (zlen p + 1 + (2 ^ 64 - 1)) = zlen p) as Ez.
  { unfold wrap. replace (zlen p + 1 + (2 ^ 64 - 1)) with (zlen p + 1 * 2 ^ 64) by lia. rewrite Z_mod_plus_full. apply Z.mod_small. lia. }
  rewrite Ez in E. b2p. lia.
Qed.

Lemma decode_header_undefined (malloc : Z → bool) (data : bytes) :
  malloc_succeeds malloc → Forall is_byte data → zlen data < 2 ^ 63 → header_ok data = false →
  pc_msg_decode malloc data (zlen data) = UB.
Proof.
  intros Hm Hb Hl Hh. unfold pc_msg_decode. rewrite Hm by (unfold sizeof_raw; lia). cbn [negb].
  destruct data as [|b rest]; [done|]. apply Forall_cons_1 in Hb as [Hb Hbs].
  rewrite check_len_ok by (unfold PC_MSG_FLAG_BYTES; zl).
  change (b :: rest) with ([b] ++ rest) in *. rewrite rd_app_head, bind_Val.
  rewrite (wrap_small 8 b) by done. cbn [header_ok app] in Hh.
  set (type := Z.land (Z.shiftr b 1) 0xff) in *.
  destruct (PC_MSG_VALIDATE type) eqn:Ht; cbn [negb] in *; [|done].
  assert (∀ p rest', negb (PC_MSG_HAS_ROUTE type) || route_byte_ok (Z.land b 1) rest' = false → zlen (p ++ rest') < 2 ^ 63 →
    (if PC_MSG_HAS_ROUTE type then msg_decode_route malloc (p ++ rest') (zlen (p ++ rest')) (zlen p) (Z.land b 1)
     else Val (Some (RNull, zlen p))) = UB) as Htail.
  { intros p rest' [H1 H2]%orb_false_iff Hl'. apply negb_false_iff in H1. rewrite H1. by apply decode_route_undefined. }
  destruct (PC_MSG_HAS_ID type) eqn:Hid; cbn [andb].
  - destruct rest as [|c rest]; [by rewrite orb_true_r in Hh|].
    rewrite check_len_ok by zl. destruct (id_rest 5 (c :: rest)) as [tl|] eqn:Er.
    + destruct (id_rest_loop 5 6 (c :: rest) tl [b] 0 0) as (id & ids & Es & E); try done; try lia.
      change (zlen [b]) with 1 in E. rewrite E, bind_Val. cbv beta iota. rewrite Es, app_assoc in *. by rewrite Htail.
    + change 1 with (zlen [b]) at 1. rewrite (id_rest_undefined 5) by done. done.
  - rewrite bind_Val. cbv beta iota. change 1 with (zlen [b]) at 1. by rewrite Htail.
Qed.

(** C39 (safety). When memory suffices, the decoder of messages is defined on exactly
    these inputs: those whose id, if the type has one, is terminated, has at most five
    groups of seven bits and is below 2^31, and whose route length byte, if there is one, is
    not 255. There it stays in bounds and returns a message or the error value. On every
    other input its behaviour is undefined: it reads past the end of the data, the product
    or the shift of the id loop overflows an [int], or the copy of the route leaves its
    block. *)
Theorem msg_decode_safe (malloc : Z → bool) (data : bytes) :
  malloc_succeeds malloc → malloc_bounded malloc → Forall is_byte data → zlen data < 2 ^ 63 →
  if header_ok data then ∃ r, pc_msg_decode malloc data (zlen data) = Val r
  else pc_msg_decode malloc data (zlen data) = UB.
Proof.
  intros Hm Hmb Hb Hl. destruct (header_ok data) eqn:E; [by apply decode_header_safe|by apply decode_header_undefined].
Qed.

(** What the decoder does with a route length byte of 128 or more,
    which [data[offset++]] sign-extends: 128 to 254 are rejected, whatever
    follows, and 255 is a copy of [SIZE_MAX] bytes into an empty block. *)
Theorem msg_decode_long_route (malloc : Z → bool) (b : Z) (rest : bytes) :
  malloc_succeeds malloc → malloc_bounded malloc → 128 ≤ b < 256 → zlen rest < 2 ^ 62 →
  let data := [2 * PC_MSG_PUSH; b] ++ rest in
  pc_msg_decode malloc data (zlen data) = if b =? 255 then UB else Val None.
Proof.
  intros Hm Hmb Hb Hl. cbv zeta. unfold pc_msg_decode.
  rewrite Hm by (unfold sizeof_raw; lia). cbn [negb].
  rewrite check_len_ok by (unfold PC_MSG_FLAG_BYTES; zl).
  change ([2 * PC_MSG_PUSH; b] ++ rest) with ([6] ++ [b] ++ rest). rewrite rd_app_head, bind_Val.
  change (Z.land (Z.shiftr (u8 6) 1) 0xff) with 3. change (Z.land (u8 6) 0x01) with 0.
  change (PC_MSG_VALIDATE 3) with true. change (PC_MSG_HAS_ID 3) with false.
  change (PC_MSG_HAS_ROUTE 3) with true. cbn [negb andb]. rewrite bind_Val. cbv beta iota.
  unfold msg_decode_route. change (negb (0 =? 0)) with false. cbv iota.
  unfold PC_MSG_ROUTE_LEN_BYTES. rewrite check_len_ok by zl.
  change ([6] ++ [b] ++ rest) with ([6] ++ b :: rest). rewrite rd_middle, bind_Val by done.
  rewrite s8_high by lia. change (1 + 1) with 2.
  assert (u64 (b - 256) = 2 ^ 64 + b - 256) as ->.
  { unfold wrap. rewrite <- (Z.mod_small (2 ^ 64 + b - 256) (2 ^ 64)) by int_solve.
    replace (2 ^ 64 + b - 256) with (b - 256 + 1 * 2 ^ 64) by lia.
    by rewrite Z_mod_plus_full. }
  rewrite (proj2 (Z.eqb_neq (2 ^ 64 + b - 256) 0)) by int_solve. cbn [negb].
  destruct (b =? 255) eqn:E; b2p.
  - subst b. change (u64 (2 ^ 64 + 255 - 256 + 1)) with 0. rewrite Hm by lia. cbn [negb].
    change (u64 (2 + (2 ^ 64 + 255 - 256))) with 1.
    rewrite Z.gtb_ltb, (proj2 (Z.ltb_ge _ _)) by zl. done.
  - rewrite (wrap_small 64) by int_solve. rewrite Hmb by int_solve. done.
Qed.

(** An id that runs to the end of a request or response is read
    past the end of the buffer: only its first byte is checked. *)
Theorem msg_decode_truncated_id (malloc : Z → bool) (type : Z) (ids : bytes) :
  malloc_succeeds malloc → type = PC_MSG_REQUEST ∨ type = PC_MSG_RESPONSE →
  ids ≠ [] → Forall (λ b, 128 ≤ b < 256) ids → zlen ids < 2 ^ 62 →
  pc_msg_decode malloc ([2 * type] ++ ids) (zlen ([2 * type] ++ ids)) = UB.
Proof.
  intros Hm Ht Hne Hids Hl.
  assert (∀ k bs p acc i, Forall (λ b, 128 ≤ b < 256) bs → i ≤ 5 → 6 ≤ i + Z.of_nat k →
    msg_decode_id_loop k (p ++ bs) acc i (zlen p) = UB) as Hloop.
  { induction k as [|k IH]; intros bs p acc i Hbs Hi Hk; [lia|]. cbn [msg_decode_id_loop].
    destruct bs as [|b bs]; [by rewrite app_nil_r, rd_end|].
    apply Forall_cons_1 in Hbs as [Hb Hbs]. rewrite rd_middle, bind_Val by done.
    destruct (7 * i <? 32) eqn:E; [|done]. cbn [require]. rewrite bind_Val.
    destruct (_ <=? INT_MAX); [|done]. cbn [require]. rewrite bind_Val. b2p.
    rewrite (wrap_small 8) by int_solve. rewrite Z.geb_leb, (proj2 (Z.leb_le 128 b)) by lia.
    change (p ++ b :: bs) with (p ++ [b] ++ bs). rewrite app_assoc.
    replace (zlen p + 1) with (zlen (p ++ [b])) by zl. apply IH; [done|lia..]. }
  unfold pc_msg_decode. rewrite Hm by (unfold sizeof_raw; lia). cbn [negb].
  rewrite check_len_ok by (unfold PC_MSG_FLAG_BYTES; zl). rewrite rd_app_head, bind_Val.
  specialize (Hloop 6%nat ids [2 * type] 0 0 Hids). change (zlen [2 * type]) with 1 in Hloop.
  destruct ids as [|c ids]; [done|].
  destruct Ht as [-> | ->]; cbn -[msg_decode_id_loop msg_decode_route zlen wrap app];
    (rewrite (check_len_ok (1 + 1)) by zl); simpl app in *; rewrite Hloop by lia; done.
Qed.

(** ** Witnesses *)

Definition malloc_64 (n : Z) : bool := n <? 2 ^ 63.

Lemma malloc_64_succeeds : malloc_succeeds malloc_64.
Proof. intros n Hn. apply Z.ltb_lt. lia. Qed.

Lemma malloc_64_bounded : malloc_bounded malloc_64.
Proof. intros n Hn. by apply Z.ltb_ge. Qed.

Lemma msg_decode_wire_witness :
  pc_msg_decode malloc_64 [5; 0xac; 0x02; 0x7b; 0x7d] 5 =
    Val (Some (mkRaw 300 PC_MSG_RESPONSE 1 RNull [0x7b; 0x7d])).
Proof.
  apply (msg_decode_wire malloc_64 (mkRaw 300 PC_MSG_RESPONSE 1 RNull [0x7b; 0x7d]));
    [apply malloc_64_succeeds|].
  split; simpl; try done. by right.
Defined.

Lemma msg_encode_route_spec_witness :
  pc_msg_encode_route true 0xa5 300 PC_MSG_REQUEST [0x61; 0x2e; 0x62] [1; 2] =
    Val (Some [0; 0xac; 0x02; 3; 0x61; 0x2e; 0x62; 1; 2]).
Proof.
  apply (msg_encode_route_spec true 0xa5 300 PC_MSG_REQUEST [0x61; 0x2e; 0x62] [1; 2]);
    [reflexivity|int_solve|reflexivity].
Defined.

Lemma msg_route_roundtrip_witness :
  pc_msg_decode malloc_64 [0; 0xac; 0x02; 3; 0x61; 0x2e; 0x62; 1; 2] 9 =
    Val (Some (mkRaw 300 PC_MSG_REQUEST 0 (RStr [0x61; 0x2e; 0x62]) [1; 2])).
Proof.
  apply (msg_route_roundtrip malloc_64 0 300 PC_MSG_REQUEST [0x61; 0x2e; 0x62] [1; 2]);
    [apply malloc_64_succeeds|reflexivity|reflexivity|lia|split; reflexivity|reflexivity|].
  vm_compute. reflexivity.
Defined.

Lemma msg_code_roundtrip_witness :
  pc_msg_decode malloc_64 [3; 1; 2; 9] 4 =
    Val (Some (mkRaw 0 PC_MSG_NOTIFY 1 (RCode 258) [9])).
Proof.
  apply (msg_code_roundtrip malloc_64 0 7 PC_MSG_NOTIFY 65794 [9]);
    [apply malloc_64_succeeds|reflexivity|reflexivity|lia|reflexivity|].
  vm_compute. reflexivity.
Defined.

(** The second input has the id 2^31, in five groups. *)
Lemma msg_decode_safe_witness :
  (∃ r, pc_msg_decode malloc_64 [0; 0x80; 0x01; 200; 5] 5 = Val r) ∧
  pc_msg_decode malloc_64 [4; 0x80; 0x80; 0x80; 0x80; 8; 1] 7 = UB.
Proof.
  split.
  - apply (msg_decode_safe malloc_64 [0; 0x80; 0x01; 200; 5]);
      [apply malloc_64_succeeds|apply malloc_64_bounded| |reflexivity].
    repeat constructor; int_solve.
  - apply (msg_decode_safe malloc_64 [4; 0x80; 0x80; 0x80; 0x80; 8; 1]);
      [apply malloc_64_succeeds|apply malloc_64_bounded| |reflexivity].
    repeat constructor; int_solve.
Defined.

Lemma msg_decode_long_route_witness :
  pc_msg_decode malloc_64 [6; 255; 1] 3 = UB ∧
  pc_msg_decode malloc_64 [6; 130; 1] 3 = Val None.
Proof.
  split.
  - apply (msg_decode_long_route malloc_64 255 [1]);
      [apply malloc_64_succeeds|apply malloc_64_bounded|lia|reflexivity].
  - apply (msg_decode_long_route malloc_64 130 [1]);
      [apply malloc_64_succeeds|apply malloc_64_bounded|lia|reflexivity].
Defined.

Lemma msg_decode_truncated_id_witness : pc_msg_decode malloc_64 [4; 0x80] 2 = UB.
Proof.
  apply (msg_decode_truncated_id malloc_64 PC_MSG_RESPONSE [0x80]);
    [apply malloc_64_succeeds|right; reflexivity|discriminate|repeat constructor; lia|reflexivity].
Defined.
