(* ===== verification/NgxQueue.v ===== *)
(** * The intrusive doubly linked queue ([src/include/pomelo-private/ngx-queue.h])

    Buckets of the map and listener lists are circular lists of [ngx_queue_t]
    nodes. The model keeps the two link fields of every node in a heap (one
    finite map per field), so that the macros are the same pointer updates and
    loops that unlink the node they stand on behave as they do in C.
    [is_queue] is the representation predicate, with the frame it leaves
    untouched. *)

From S2P Require Import Prelude.

Record qheap (K : Type) `{Countable K} := mkHeap {
  q_prev : gmap K K;
  q_next : gmap K K
}.
Arguments mkHeap {K _ _} _ _.
Arguments q_prev {K _ _} _.
Arguments q_next {K _ _} _.

Section Queue.
Context {K : Type} `{ED : EqDecision K} `{CK : !Countable K}.
Implicit Types (H : qheap K) (h x : K) (xs : list K).

(** ** Field accesses *)

Definition get_prev (x : K) (H : qheap K) : exec K :=
  match q_prev H !! x with Some y => Val y | None => UB end.

Definition get_next (x : K) (H : qheap K) : exec K :=
  match q_next H !! x with Some y => Val y | None => UB end.

Definition set_prev (x v : K) (H : qheap K) : exec (qheap K) :=
  match q_prev H !! x with
  | Some _ => Val (mkHeap (<[x := v]> (q_prev H)) (q_next H))
  | None => UB
  end.

Definition set_next (x v : K) (H : qheap K) : exec (qheap K) :=
  match q_next H !! x with
  | Some _ => Val (mkHeap (q_prev H) (<[x := v]> (q_next H)))
  | None => UB
  end.

(** Memory of a node that comes into existence, and of one that is freed. *)
Definition q_alloc (x : K) (H : qheap K) : qheap K :=
  mkHeap (<[x := x]> (q_prev H)) (<[x := x]> (q_next H)).

Definition q_free (x : K) (H : qheap K) : qheap K :=
  mkHeap (delete x (q_prev H)) (delete x (q_next H)).

(** ** The macros *)

Definition ngx_queue_init (q : K) (H : qheap K) : exec (qheap K) :=
  H ← set_prev q q H; set_next q q H.

Definition ngx_queue_empty (h : K) (H : qheap K) : exec bool :=
  p ← get_prev h H; Val (bool_decide (h = p)).

Definition ngx_queue_insert_tail (h x : K) (H : qheap K) : exec (qheap K) :=
  hp ← get_prev h H;
  H ← set_prev x hp H;
  xp ← get_prev x H;
  H ← set_next xp x H;
  H ← set_next x h H;
  set_prev h x H.

Definition ngx_queue_head (h : K) (H : qheap K) : exec K := get_next h H.

Definition ngx_queue_next (q : K) (H : qheap K) : exec K := get_next q H.

Definition ngx_queue_remove (x : K) (H : qheap K) : exec (qheap K) :=
  xn ← get_next x H;
  xp ← get_prev x H;
  H ← set_prev xn xp H;
  xp ← get_prev x H;
  xn ← get_next x H;
  set_next xp xn H.

(** [ngx_queue_foreach(q, h) body], from the current [q]; the body returns
    [true] to leave the loop ([break] or [return]). *)
Fixpoint foreach_from {S} (hp : S → qheap K) (fuel : nat) (q h : K)
    (body : K → S → exec (S * bool)) (s : S) : exec S :=
  match fuel with
  | O => NoFuel
  | Datatypes.S fuel =>
      if bool_decide (q = h) then Val s
      else
        e ← ngx_queue_empty h (hp s);
        if e : bool then Val s
        else
          '(s, stop) ← body q s;
          if stop : bool then Val s
          else
            q ← ngx_queue_next q (hp s);
            foreach_from hp fuel q h body s
  end.

Definition ngx_queue_foreach {S} (hp : S → qheap K) (fuel : nat) (h : K)
    (body : K → S → exec (S * bool)) (s : S) : exec S :=
  q ← ngx_queue_head h (hp s);
  foreach_from hp fuel q h body s.

(** ** Representation *)

(** Consecutive nodes are linked both ways. *)
Fixpoint chain (H : qheap K) (l : list K) : Prop :=
  match l with
  | a :: (b :: _) as t => q_next H !! a = Some b ∧ q_prev H !! b = Some a ∧ chain H t
  | _ => True
  end.

(** The queue of head [h] holds the nodes [xs], in order. *)
Definition is_queue (H : qheap K) (h : K) (xs : list K) : Prop :=
  NoDup (h :: xs) ∧ chain H (h :: xs ++ [h]).

Lemma chain_cons2 H a b l :
  chain H (a :: b :: l) ↔
    q_next H !! a = Some b ∧ q_prev H !! b = Some a ∧ chain H (b :: l).
Proof. done. Qed.

Lemma chain_app H l a l' :
  chain H (l ++ a :: l') ↔ chain H (l ++ [a]) ∧ chain H (a :: l').
Proof.
  induction l as [|x l IH]; [simpl; tauto|].
  destruct l as [|y l]; simpl app in *; [rewrite !chain_cons2; simpl; tauto|].
  rewrite !chain_cons2, IH. tauto.
Qed.

Lemma chain_snoc H l a b :
  chain H ((l ++ [a]) ++ [b]) ↔
    chain H (l ++ [a]) ∧ q_next H !! a = Some b ∧ q_prev H !! b = Some a.
Proof.
  rewrite <- app_assoc. simpl app. rewrite (chain_app H l a [b]), chain_cons2. simpl. tauto.
Qed.

(** A chain only reads the [next] of all nodes but the last and the [prev] of
    all but the first. *)
Lemma chain_frame H H' l a :
  (∀ x, x ∈ l → q_next H' !! x = q_next H !! x) →
  (∀ x, x ∈ tail (l ++ [a]) → q_prev H' !! x = q_prev H !! x) →
  chain H (l ++ [a]) → chain H' (l ++ [a]).
Proof.
  induction l as [|x l IH]; intros Hn Hp Hc; [done|]. simpl tail in Hp.
  destruct l as [|y l]; simpl app in *; rewrite chain_cons2 in *.
  - rewrite Hn, Hp by set_solver. done.
  - destruct Hc as (H1 & H2 & H3). rewrite Hn, Hp by set_solver.
    split; [done|]. split; [done|]. apply IH; [set_solver| |done].
    intros z Hz. apply Hp. simpl in *. set_solver.
Qed.

Lemma snoc_view h xs : ∃ l p, h :: xs = l ++ [p].
Proof.
  destruct (exists_last (l := h :: xs)) as (l & p & E); [done|]. eauto.
Qed.

Lemma is_queue_frame H H' h xs :
  (∀ x, x ∈ h :: xs → q_next H' !! x = q_next H !! x) →
  (∀ x, x ∈ h :: xs → q_prev H' !! x = q_prev H !! x) →
  is_queue H h xs → is_queue H' h xs.
Proof.
  intros Hn Hp [Hd Hc]. split; [done|].
  apply (chain_frame H H' (h :: xs) h); [done| |done].
  intros x Hx. apply Hp. simpl in Hx. set_solver.
Qed.

(** ** The operations on a represented queue *)

Lemma ngx_queue_init_spec q H :
  q ∈ dom (q_prev H) → q ∈ dom (q_next H) →
  ngx_queue_init q H = Val (mkHeap (<[q := q]> (q_prev H)) (<[q := q]> (q_next H))).
Proof.
  intros [y Hp]%elem_of_dom [z Hn]%elem_of_dom.
  unfold ngx_queue_init, set_prev, set_next. rewrite Hp. simpl. by rewrite Hn.
Qed.

Lemma is_queue_alloc q H : is_queue (q_alloc q H) q [].
Proof.
  split; [apply NoDup_singleton|]. simpl. by rewrite !lookup_insert_eq.
Qed.

Lemma is_queue_last H h xs l p :
  is_queue H h xs → h :: xs = l ++ [p] →
  q_prev H !! h = Some p ∧ q_next H !! p = Some h ∧ chain H (l ++ [p]).
Proof.
  intros [_ Hc] E. change (h :: xs ++ [h]) with ((h :: xs) ++ [h]) in Hc.
  rewrite E, chain_snoc in Hc. tauto.
Qed.

Lemma ngx_queue_empty_spec H h xs :
  is_queue H h xs → ngx_queue_empty h H = Val (bool_decide (xs = [])).
Proof.
  intros Hq. destruct (snoc_view h xs) as (l & p & E).
  destruct (is_queue_last H h xs l p Hq E) as (Hp & _). unfold ngx_queue_empty, get_prev.
  rewrite Hp. simpl. f_equal. apply bool_decide_ext. destruct Hq as [Hd _].
  destruct l as [|z l]; [by injection E as -> ->|]. injection E as -> ->. split.
  - intros ->. exfalso. apply list.NoDup_cons in Hd as [Hd _]. set_solver.
  - by destruct l.
Qed.

Lemma ngx_queue_head_spec H h xs :
  is_queue H h xs → ngx_queue_head h H = Val (default h (head xs)).
Proof.
  intros [_ Hc]. unfold ngx_queue_head, get_next.
  destruct xs as [|x xs]; simpl in Hc; destruct Hc as [-> _]; done.
Qed.

Lemma is_queue_next H h xs ys x :
  is_queue H h (xs ++ x :: ys) → q_next H !! x = Some (default h (head ys)).
Proof.
  intros [_ Hc]. rewrite <- app_assoc in Hc. cbn [app] in Hc.
  change (h :: xs ++ x :: ys ++ [h]) with ((h :: xs) ++ x :: ys ++ [h]) in Hc.
  rewrite chain_app in Hc. destruct Hc as [_ Hc].
  destruct ys as [|y ys]; simpl in Hc; by destruct Hc as [-> _].
Qed.

Lemma is_queue_dom H h xs x ys :
  is_queue H h (xs ++ x :: ys) → x ∈ dom (q_prev H) ∧ x ∈ dom (q_next H).
Proof.
  intros Hq. split; [|apply is_queue_next in Hq; by apply elem_of_dom_2 in Hq].
  destruct Hq as [_ Hc]. destruct (snoc_view h xs) as (l & a & El).
  rewrite <- app_assoc in Hc. cbn [app] in Hc.
  change (h :: xs ++ x :: ys ++ [h]) with ((h :: xs) ++ x :: ys ++ [h]) in Hc.
  rewrite El, <- app_assoc in Hc. cbn [app] in Hc. rewrite chain_app, chain_cons2 in Hc.
  destruct Hc as (_ & _ & Hp & _). by apply elem_of_dom_2 in Hp.
Qed.

Lemma ngx_queue_insert_tail_spec H h xs x :
  is_queue H h xs → x ∉ h :: xs → x ∈ dom (q_prev H) → x ∈ dom (q_next H) →
  ∃ H', ngx_queue_insert_tail h x H = Val H' ∧ is_queue H' h (xs ++ [x]) ∧
    (∀ y, y ∉ h :: x :: xs → q_prev H' !! y = q_prev H !! y ∧ q_next H' !! y = q_next H !! y) ∧
    dom (q_prev H') = dom (q_prev H) ∧ dom (q_next H') = dom (q_next H).
Proof.
  intros Hq Hx Hxp Hxn. destruct (snoc_view h xs) as (l & p & E).
  destruct (is_queue_last H h xs l p Hq E) as (Hhp & Hpn & Hc).
  destruct Hq as [Hd _]. pose proof Hd as Hd'. rewrite E in Hd'.
  apply list.NoDup_app in Hd' as (_ & Hlp & _).
  assert (h ≠ x ∧ p ≠ x) as [Hhx Hpx].
  { split; [set_solver|]. assert (p ∈ h :: xs) by (rewrite E; set_solver). set_solver. }
  apply elem_of_dom in Hxp as [vp Hvp]. apply elem_of_dom in Hxn as [vn Hvn].
  unfold ngx_queue_insert_tail, get_prev, set_prev, set_next.
  rewrite Hhp. simpl. rewrite Hvp. simpl. rewrite lookup_insert_eq. simpl.
  rewrite Hpn. simpl. rewrite lookup_insert_ne, Hvn by done. simpl.
  rewrite lookup_insert_ne, Hhp by done. eexists; split; [done|].
  split; [split|split; [|split]]; cbn [q_prev q_next].
  - change (h :: xs ++ [x]) with ((h :: xs) ++ [x]). apply list.NoDup_app.
    split; [done|]. split; [set_solver|apply NoDup_singleton].
  - change (h :: (xs ++ [x]) ++ [h]) with (((h :: xs) ++ [x]) ++ [h]). rewrite E.
    rewrite chain_snoc, chain_snoc. cbn [q_prev q_next]. rewrite !lookup_insert_eq.
    rewrite !(lookup_insert_ne _ h x), !(lookup_insert_ne _ x p), !lookup_insert_eq by done.
    split; [|done]. split; [|done].
    eapply chain_frame, Hc; cbn [q_prev q_next].
    + intros y Hy. assert (y ∈ h :: xs) by (rewrite E; set_solver).
      rewrite lookup_insert_ne by set_solver. rewrite lookup_insert_ne; [done|].
      intros <-. eapply Hlp; set_solver.
    + intros y Hy. rewrite <- E in Hy. simpl in Hy. apply list.NoDup_cons in Hd as [Hd _].
      rewrite !lookup_insert_ne; set_solver.
  - intros y Hy. assert (y ≠ p).
    { intros ->. apply Hy. assert (p ∈ h :: xs) by (rewrite E; set_solver). set_solver. }
    rewrite !lookup_insert_ne; set_solver.
  - rewrite !dom_insert_L. apply elem_of_dom_2 in Hvp, Hhp. set_solver.
  - rewrite !dom_insert_L. apply elem_of_dom_2 in Hvn, Hpn. set_solver.
Qed.

Lemma ngx_queue_remove_spec H h xs x ys :
  is_queue H h (xs ++ x :: ys) →
  ∃ H', ngx_queue_remove x H = Val H' ∧ is_queue H' h (xs ++ ys) ∧
    (∀ y, y ∉ h :: xs ++ ys → q_prev H' !! y = q_prev H !! y ∧ q_next H' !! y = q_next H !! y) ∧
    dom (q_prev H') = dom (q_prev H) ∧ dom (q_next H') = dom (q_next H).
Proof.
  intros [Hd Hc]. destruct (snoc_view h xs) as (l & a & El).
  assert (∃ b n, ys ++ [h] = b :: n) as (b & n & Er) by (destruct ys; simpl; eauto).
  assert (h :: (xs ++ x :: ys) ++ [h] = l ++ a :: x :: b :: n) as E.
  { change (h :: (xs ++ x :: ys) ++ [h]) with ((h :: (xs ++ x :: ys)) ++ [h]).
    change (h :: xs ++ x :: ys) with ((h :: xs) ++ x :: ys). rewrite El, <- !app_assoc. simpl.
    by rewrite Er. }
  rewrite E, chain_app, !chain_cons2 in Hc.
  destruct Hc as (Hl & Hax & Hxa & Hxb & Hbx & Hr).
  unfold ngx_queue_remove, get_prev, get_next, set_prev, set_next.
  rewrite Hxb. simpl. rewrite Hxa. simpl. rewrite Hbx. simpl.
  assert (NoDup ((h :: xs) ++ x :: ys)) as Hd2 by done.
  apply list.NoDup_app in Hd2 as (Hd1 & Hdis & Hd2). apply list.NoDup_cons in Hd2 as [Hxys Hd2].
  assert (x ≠ a) as Hxa' by (assert (a ∈ h :: xs) by (rewrite El; set_solver); set_solver).
  assert (x ≠ b) as Hxb'.
  { assert (b ∈ ys ++ [h]) by (rewrite Er; set_solver). set_solver. }
  rewrite lookup_insert_ne, Hxa by done. simpl. rewrite Hxb. simpl. rewrite Hax.
  eexists; split; [done|]. split; [split|split; [|split]]; cbn [q_prev q_next].
  - change (h :: xs ++ ys) with ((h :: xs) ++ ys). apply list.NoDup_app. set_solver.
  - change (h :: (xs ++ ys) ++ [h]) with (((h :: xs) ++ ys) ++ [h]).
    rewrite <- app_assoc, Er, El, <- app_assoc. cbn [app].
    rewrite chain_app, chain_cons2. cbn [q_prev q_next].
    rewrite !lookup_insert_eq. split; [|split; [done|split; [done|]]].
    + eapply chain_frame, Hl; cbn [q_prev q_next]; intros y Hy.
      * rewrite lookup_insert_ne; [done|]. intros <-. rewrite El in Hd1.
        apply list.NoDup_app in Hd1 as (_ & Hd1 & _). eapply Hd1; set_solver.
      * rewrite <- El in Hy. simpl in Hy. rewrite lookup_insert_ne; [done|]. intros <-.
        assert (b ∈ ys ++ [h]) as Hb by (rewrite Er; set_solver).
        apply list.NoDup_cons in Hd1 as [Hd1 _]. set_solver.
    + destruct (exists_last (l := b :: n)) as (m & z & Em); [done|]. rewrite Em in Hr |- *.
      rewrite <- Er in Em. apply app_inj_tail in Em as [<- <-].
      eapply chain_frame, Hr; cbn [q_prev q_next]; intros y Hy.
      * rewrite lookup_insert_ne; [done|]. intros <-.
        assert (a ∈ h :: xs) by (rewrite El; set_solver). set_solver.
      * rewrite Er in Hy. simpl in Hy. rewrite lookup_insert_ne; [done|]. intros <-.
        assert (NoDup (ys ++ [h])) as Hn.
        { apply list.NoDup_app. split; [done|]. split; [|apply NoDup_singleton]. set_solver. }
        rewrite Er in Hn. apply list.NoDup_cons in Hn as [Hn _]. done.
  - intros y Hy. assert (a ∈ h :: xs) by (rewrite El; set_solver).
    assert (b ∈ ys ++ [h]) by (rewrite Er; set_solver).
    rewrite !lookup_insert_ne; set_solver.
  - rewrite !dom_insert_L. apply elem_of_dom_2 in Hbx. set_solver.
  - rewrite !dom_insert_L. apply elem_of_dom_2 in Hax. set_solver.
Qed.

(** ** Traversals *)

(** The loop over the nodes themselves. *)
Fixpoint iter_list {S} (xs : list K) (body : K → S → exec (S * bool)) (s : S) : exec S :=
  match xs with
  | [] => Val s
  | x :: xs =>
      '(s, stop) ← body x s;
      if stop : bool then Val s else iter_list xs body s
  end.

(** A traversal whose body leaves the links alone when it goes on (from the
    states [P] the loop can be in) visits the nodes of the queue in order. *)
Lemma foreach_iter {S} (P : S → Prop) (hp : S → qheap K) fuel h xs body s :
  is_queue (hp s) h xs → (length xs < fuel)%nat → P s →
  (∀ x s s', x ∈ xs → P s → body x s = Val (s', false) → P s' ∧ hp s' = hp s) →
  ngx_queue_foreach hp fuel h body s = iter_list xs body s.
Proof.
  intros Hq Hf HP Hb. unfold ngx_queue_foreach. rewrite (ngx_queue_head_spec _ _ xs) by done.
  rewrite bind_Val.
  assert (∀ rest seen fuel s, xs = seen ++ rest → is_queue (hp s) h xs →
    (length rest < fuel)%nat → P s →
    foreach_from hp fuel (default h (head rest)) h body s = iter_list rest body s) as Hloop.
  { clear fuel s Hq Hf HP. induction rest as [|x rest IH]; intros seen fuel s E Hq Hf HP;
      (destruct fuel as [|fuel]; [lia|]); simpl.
    - by rewrite bool_decide_true.
    - rewrite bool_decide_false; [|intros ->; destruct Hq as [Hd _]; rewrite E in Hd;
        apply NoDup_cons_1_1 in Hd; set_solver].
      rewrite (ngx_queue_empty_spec _ _ xs) by done. rewrite bind_Val, bool_decide_false
        by (rewrite E; by destruct seen).
      destruct (body x s) as [[s' stop]| |] eqn:Eb; simpl; [|done..].
      destruct stop; [done|]. destruct (Hb x s s') as [HP' Hs]; [set_solver|done..|].
      unfold ngx_queue_next, get_next. rewrite E in Hq. rewrite Hs.
      rewrite (is_queue_next _ _ _ _ _ Hq). simpl.
      apply (IH (seen ++ [x])); [by rewrite <- app_assoc|by rewrite Hs, E|simpl in Hf; lia|done]. }
  by apply (Hloop xs []).
Qed.

End Queue.
