(* ===== verification/QueueFamily.v ===== *)
(** * Families of queues

    Several queues in one heap, with their heads [Bucket i] and nodes
    [PairNode n]: the buckets of a map, the listener queues of the events. [bk i]
    lists the nodes of queue [i]; [P] says which queues are live. The lemmas say
    what linking, unlinking and freeing one node does to all of them. *)

From S2P Require Import Prelude NgxQueue.
Local Open Scope Z_scope.

(** Addresses: a queue head, or the node inside a block. *)
Inductive addr := Bucket (i : Z) | PairNode (n : positive).

#[export] Instance addr_eq_dec : EqDecision addr.
Proof. solve_decision. Defined.

#[export] Instance addr_countable : Countable addr.
Proof.
  refine (inj_countable' (λ a, match a with Bucket i => inl i | PairNode n => inr n end)
            (λ s, match s with inl i => Bucket i | inr n => PairNode n end) _).
  by intros [].
Defined.

Definition add_to (bk : Z → list positive) (i : Z) (n : positive) : Z → list positive :=
  λ j, if decide (j = i) then bk j ++ [n] else bk j.

Lemma add_to_in bk i n j x : x ∈ add_to bk i n j ↔ x ∈ bk j ∨ (j = i ∧ x = n).
Proof. unfold add_to. case_decide; set_solver. Qed.

Definition bk_set (bk : Z → list positive) (b : Z) (l : list positive) : Z → list positive :=
  λ j, if decide (j = b) then l else bk j.

Lemma bk_set_in bk b xs n ys i x :
  NoDup (bk b) → bk b = xs ++ n :: ys → (i = b ∨ n ∉ bk i) →
  x ∈ bk_set bk b (xs ++ ys) i → x ≠ n.
Proof.
  intros Hnd Ebk Hi. unfold bk_set. case_decide.
  - rewrite Ebk in Hnd. apply list.NoDup_app in Hnd as (_ & Hd & Hnd).
    apply NoDup_cons_1_1 in Hnd. specialize (Hd n). set_solver.
  - intros Hx ->. by destruct Hi.
Qed.

(** Linking a new node at the tail of its queue, from a heap in which the
    queues hold [bk]. *)
Lemma insert_new H bk (P : Z → Prop) b n :
  (∀ i, P i → is_queue H (Bucket i) (PairNode <$> bk i)) → P b →
  (∀ i, P i → n ∉ bk i) → (∀ i x, P i → x ∈ bk i → x ∈ bk b → i = b) →
  PairNode n ∈ dom (q_prev H) → PairNode n ∈ dom (q_next H) →
  ∃ H', ngx_queue_insert_tail (Bucket b) (PairNode n) H = Val H' ∧
    (∀ i, P i → is_queue H' (Bucket i) (PairNode <$> add_to bk b n i)) ∧
    (∀ x, x ≠ Bucket b → x ≠ PairNode n → x ∉ PairNode <$> bk b →
       q_prev H' !! x = q_prev H !! x ∧ q_next H' !! x = q_next H !! x) ∧
    dom (q_prev H') = dom (q_prev H) ∧ dom (q_next H') = dom (q_next H).
Proof.
  intros Hq Hb Hn Hdis Hp1 Hp2.
  destruct (ngx_queue_insert_tail_spec H (Bucket b) (PairNode <$> bk b) (PairNode n))
    as (H' & E & Hq' & Hfr & Hd1 & Hd2); [by apply Hq| |done..|].
  { rewrite not_elem_of_cons. split; [done|]. intros (x & [= <-] & Hx)%list_elem_of_fmap.
    by apply (Hn b). }
  exists H'. split; [done|]. split; [|split; [|done]].
  - intros i Hi. unfold add_to. case_decide as Ei.
    + subst i. by rewrite fmap_app.
    + eapply is_queue_frame, (Hq i Hi); intros x Hx; apply Hfr;
        (rewrite !not_elem_of_cons; apply elem_of_cons in Hx as [->|(y & -> & Hy)%list_elem_of_fmap];
         [split; [congruence|split; [done|]]; intros (z & ? & _)%list_elem_of_fmap; done
         |split; [done|split]]).
      1, 3: intros [= ->]; by apply (Hn i).
      all: intros (z & [= <-] & Hz)%list_elem_of_fmap; by apply Ei, (Hdis i y).
  - intros x Hx1 Hx2 Hx3. apply Hfr. rewrite !not_elem_of_cons. done.
Qed.

(** [ngx_queue_remove] then [ngx_queue_init] of a block's node, in a heap whose
    queues hold [bk] and share no node. *)
Lemma unlink H bk (P : Z → Prop) b xs n ys :
  (∀ i, P i → is_queue H (Bucket i) (PairNode <$> bk i)) →
  (∀ i j x, P i → P j → x ∈ bk i → x ∈ bk j → i = j) →
  P b → bk b = xs ++ n :: ys →
  ∃ H1 H', ngx_queue_remove (PairNode n) H = Val H1 ∧ ngx_queue_init (PairNode n) H1 = Val H' ∧
    q_prev H' !! PairNode n = Some (PairNode n) ∧ q_next H' !! PairNode n = Some (PairNode n) ∧
    (∀ i, P i → is_queue H' (Bucket i) (PairNode <$> bk_set bk b (xs ++ ys) i)) ∧
    dom (q_prev H') = dom (q_prev H) ∧ dom (q_next H') = dom (q_next H).
Proof.
  intros HQ Hdis Hb Ebk. pose proof (HQ b Hb) as Hq.
  assert (NoDup (bk b)) as Hnd.
  { destruct Hq as [Hd _]. by apply NoDup_cons_1_2, NoDup_fmap_1 in Hd. }
  rewrite Ebk in Hnd, Hq. rewrite fmap_app, fmap_cons in Hq.
  assert (n ∉ xs ++ ys) as Hn.
  { apply list.NoDup_app in Hnd as (_ & Hd & Hnd). apply NoDup_cons_1_1 in Hnd.
    rewrite elem_of_app. intros [Hx|Hy]; [|done]. apply (Hd n Hx). set_solver. }
  destruct (is_queue_dom _ _ _ _ _ Hq) as [Hdp Hdn].
  destruct (ngx_queue_remove_spec H (Bucket b) (PairNode <$> xs) (PairNode n)
              (PairNode <$> ys)) as (H1 & E1 & Hq1 & Hfr & Hd1 & Hd2); [done|].
  eexists H1, _. split; [done|]. rewrite ngx_queue_init_spec by (by rewrite ?Hd1, ?Hd2).
  split; [done|]. cbn [q_prev q_next]. rewrite !lookup_insert_eq.
  split; [done|]. split; [done|]. split; [|rewrite !dom_insert_L; set_solver].
  intros i Hi. unfold bk_set. case_decide as Ei.
  - subst i. rewrite fmap_app. eapply is_queue_frame, Hq1; intros x Hx; cbn [q_prev q_next];
      (rewrite lookup_insert_ne; [done|]); intros <-;
      apply elem_of_cons in Hx as [?|Hx]; try done; rewrite <- fmap_app in Hx;
      apply list_elem_of_fmap in Hx as (y & [= <-] & Hy); done.
  - eapply is_queue_frame, (HQ i Hi); intros x Hx; cbn [q_prev q_next].
    all: assert (x ≠ PairNode n ∧ x ∉ Bucket b :: (PairNode <$> xs) ++ (PairNode <$> ys)) as [Hx1 Hx2].
    1, 3: apply elem_of_cons in Hx as [->|(y & -> & Hy)%list_elem_of_fmap].
    1, 3: split; [done|]; rewrite <- fmap_app, not_elem_of_cons; split; [congruence|];
      intros (z & ? & _)%list_elem_of_fmap; done.
    1, 2: assert (y ∉ bk b) as Hyb by (intros Hyb; by apply Ei, (Hdis i b y));
      rewrite Ebk in Hyb; split; [intros [= ->]; apply Hyb; set_solver|];
      rewrite <- fmap_app, not_elem_of_cons; split; [done|];
      intros (z & [= <-] & Hz)%list_elem_of_fmap; apply Hyb; set_solver.
    all: rewrite lookup_insert_ne by done; by apply Hfr.
Qed.

(** Forgetting a node that is in no queue changes no queue. *)
Lemma q_free_queue (H : qheap addr) h xs x :
  is_queue H h xs → x ∉ h :: xs → is_queue (q_free x H) h xs.
Proof.
  intros Hq Hx. eapply is_queue_frame, Hq; intros y Hy; simpl;
    (rewrite lookup_delete_ne; [done|]); by intros <-.
Qed.


(** Removing a node twice is removing it once, as long as its own links stay:
    listeners are unlinked by [pc_remove_listener] and again when destroyed. *)
Lemma remove_again {K} `{Countable K} (h h' : qheap K) x a b :
  q_next h !! x = Some b → q_prev h !! x = Some a → x ≠ a → x ≠ b →
  ngx_queue_remove x h = Val h' → ngx_queue_remove x h' = Val h'.
Proof.
  intros Hn Hp Ha Hb. unfold ngx_queue_remove, get_prev, get_next, set_prev, set_next.
  rewrite Hn. simpl. rewrite Hp. simpl. destruct (q_prev h !! b) eqn:Hbp; [|done]. simpl.
  rewrite lookup_insert_ne, Hp by done. simpl. rewrite Hn. simpl.
  destruct (q_next h !! a) eqn:Han; [|done]. intros [= <-]. cbn [q_prev q_next].
  do 2 (repeat rewrite (lookup_insert_ne _ a x), ?Hn by done; simpl;
    repeat rewrite (lookup_insert_ne _ b x), ?Hp by done; simpl;
    rewrite ?lookup_insert_eq, ?insert_insert_eq; simpl).
  done.
Qed.

Lemma remove_self {K} `{Countable K} (h : qheap K) x :
  q_next h !! x = Some x → q_prev h !! x = Some x → ngx_queue_remove x h = Val h.
Proof.
  intros Hn Hp. unfold ngx_queue_remove, get_prev, get_next, set_prev, set_next.
  rewrite Hn. simpl. rewrite Hp. simpl. rewrite lookup_insert_eq. simpl.
  rewrite Hn. simpl. rewrite !insert_id by done. by destruct h.
Qed.

(** The links of a node inside a queue lead elsewhere. *)
Lemma is_queue_links {K} `{Countable K} (h : qheap K) hd xs x ys :
  is_queue h hd (xs ++ x :: ys) →
  ∃ a b, q_next h !! x = Some b ∧ q_prev h !! x = Some a ∧ x ≠ a ∧ x ≠ b.
Proof.
  intros Hq. pose proof (is_queue_next _ _ _ _ _ Hq) as Hn. destruct Hq as [Hd Hc].
  destruct (snoc_view hd xs) as (l & a & El).
  rewrite <- app_assoc in Hc. cbn [app] in Hc.
  change (hd :: xs ++ x :: ys ++ [hd]) with ((hd :: xs) ++ x :: ys ++ [hd]) in Hc.
  rewrite El, <- app_assoc in Hc. cbn [app] in Hc. rewrite chain_app, chain_cons2 in Hc.
  destruct Hc as (_ & _ & Hp & _). exists a, (default hd (head ys)). split; [done|]. split; [done|].
  change (NoDup ((hd :: xs) ++ x :: ys)) in Hd. apply list.NoDup_app in Hd as (_ & Hdis & Hd).
  apply NoDup_cons_1_1 in Hd. split.
  - intros <-. apply (Hdis x); [rewrite El|]; set_solver.
  - intros E. destruct ys as [|y ys]; simpl in E; subst; [apply (Hdis hd)|]; set_solver.
Qed.

(** Unlinking a node twice and freeing it, as [pc_remove_listener] does. *)
Lemma unlink_free H bk (P : Z → Prop) b xs n ys :
  (∀ i, P i → is_queue H (Bucket i) (PairNode <$> bk i)) →
  (∀ i j x, P i → P j → x ∈ bk i → x ∈ bk j → i = j) →
  P b → bk b = xs ++ n :: ys →
  ∃ H1, ngx_queue_remove (PairNode n) H = Val H1 ∧ ngx_queue_remove (PairNode n) H1 = Val H1 ∧
    (∀ i, P i → is_queue (q_free (PairNode n) H1) (Bucket i) (PairNode <$> bk_set bk b (xs ++ ys) i)) ∧
    dom (q_prev H1) = dom (q_prev H) ∧ dom (q_next H1) = dom (q_next H).
Proof.
  intros HQ Hdis Hb Ebk.
  destruct (unlink H bk P b xs n ys) as (H1 & H2 & E1 & E2 & _ & _ & HQ' & _); [done..|].
  pose proof (HQ b Hb) as Hq. rewrite Ebk, fmap_app, fmap_cons in Hq.
  destruct (is_queue_links _ _ _ _ _ Hq) as (x & y & Hn & Hp & Hx & Hy).
  destruct (ngx_queue_remove_spec _ _ _ _ _ Hq) as (H1' & E1' & Hq1 & Hfr & Hd1 & Hd2).
  rewrite E1 in E1'. injection E1' as <-. exists H1. split; [done|].
  split; [by apply (remove_again H _ _ x y)|]. split; [|done].
  destruct (is_queue_dom _ _ _ _ _ Hq) as [Hdp Hdn].
  rewrite ngx_queue_init_spec in E2 by (by rewrite ?Hd1, ?Hd2). injection E2 as <-.
  intros i Hi. specialize (HQ' i Hi). assert (n ∉ bk_set bk b (xs ++ ys) i) as Hni.
  { intros Hin. eapply (bk_set_in bk b xs n ys i n); [|done| |done|done].
    - destruct (HQ b Hb) as [Hd _]. by apply NoDup_cons_1_2, NoDup_fmap_1 in Hd.
    - destruct (decide (i = b)); [by left|right]. intros Hn'. assert (i = b) as ->; [|done].
      apply (Hdis i b n); [done..|]. rewrite Ebk. set_solver. }
  eapply is_queue_frame, HQ'; intros z Hz; cbn [q_prev q_next q_free].
  all: assert (z ≠ PairNode n) by (intros ->; apply elem_of_cons in Hz as [?|(w & [= <-] & Hw)%list_elem_of_fmap]; done).
  all: by rewrite lookup_delete_ne, lookup_insert_ne.
Qed.
