(* ===== verification/PcMap.v ===== *)
(** * The string map ([src/src/map.c], [src/include/pomelo-private/map.h])

    A bucket array of [ngx_queue_t] heads; a pair is a heap block with its
    queue node inside. The model runs the loops on the pointers of
    [NgxQueue.v], so that what [pc_map_set] does to the node it stands on is
    visible. [map_rep] relates a map to the finite map [gmap string V] it
    stands for; the theorems say what each operation does to that map. The
    release callback is the list of the pairs it is called with, in order. *)

From S2P Require Import Prelude NgxQueue QueueFamily.
Local Open Scope Z_scope.

Definition PC__MAP_DEFAULT_CAPACITY : Z := 64.

(** [pairs] are the live [pc__pair_t] blocks; [brk] is where the next one is
    allocated. *)
Record pc_map_t (V : Type) := mkMap {
  capacity : Z;
  buckets : bool;
  links : qheap addr;
  pairs : gmap positive (string * V);
  brk : positive
}.
Arguments mkMap {V} _ _ _ _ _.
Arguments capacity {V} _.
Arguments buckets {V} _.
Arguments links {V} _.
Arguments pairs {V} _.
Arguments brk {V} _.

(** Characters are added as [(size_t)*str], sign-extended. *)
Definition pc__hash (str : string) : Z :=
  foldl (λ hash c, u64 (hash + u64 (s8 c))) 0 (bytes_of str).

Section Map.
Context {V : Type}.
Implicit Types (m : pc_map_t V) (key : string) (value : V).

Definition bucket_of m key : Z := pc__hash key mod capacity m.

Definition set_links (H : qheap addr) m : pc_map_t V :=
  mkMap (capacity m) (buckets m) H (pairs m) (brk m).

(** [ngx_queue_data(q, pc__pair_t, queue)], then a field access. *)
Definition pair_at m (q : addr) : exec (string * V) :=
  match q with
  | PairNode n => match pairs m !! n with Some kv => Val kv | None => UB end
  | Bucket _ => UB
  end.

(** [free] of the key copy and of the pair. *)
Definition free_pair (q : addr) m : exec (pc_map_t V) :=
  match q with
  | PairNode n =>
      match pairs m !! n with
      | Some _ => Val (mkMap (capacity m) (buckets m) (q_free q (links m))
                         (delete n (pairs m)) (brk m))
      | None => UB
      end
  | Bucket _ => UB
  end.

(** ** Initialisation *)

Fixpoint init_buckets (n : nat) (i : Z) (H : qheap addr) : exec (qheap addr) :=
  match n with
  | O => Val H
  | S n =>
      H ← ngx_queue_init (Bucket i) (q_alloc (Bucket i) H);
      init_buckets n (i + 1) H
  end.

(** [None] is the return value -1. *)
Definition pc_map_init (malloc_ok : bool) (cap : Z) : exec (option (pc_map_t V)) :=
  let cap := if cap <? PC__MAP_DEFAULT_CAPACITY then PC__MAP_DEFAULT_CAPACITY else cap in
  if negb malloc_ok then Val None
  else
    H ← init_buckets (Z.to_nat cap) 0 (mkHeap ∅ ∅);
    Val (Some (mkMap cap true H ∅ 1%positive)).

Definition pc_map_new (malloc_map malloc_buckets : bool) (cap : Z) : exec (option (pc_map_t V)) :=
  if malloc_map then pc_map_init malloc_buckets cap else Val None.

(** ** Lookup, insertion, removal *)

Definition pc_map_get (fuel : nat) m key : exec (option V) :=
  let head := Bucket (bucket_of m key) in
  ngx_queue_foreach (λ _, links m) fuel head
    (λ q r,
       '(k, v) ← pair_at m q;
       if bool_decide (key = k) then Val (Some v, true) else Val (r, false))
    None.

(** The result is the map, the return value and the pairs handed to
    [release_value]. *)
Definition pc_map_set (fuel : nat) (malloc_pair malloc_key : bool) m key value
  : exec (pc_map_t V * Z * list (string * V)) :=
  if negb malloc_pair || negb malloc_key then Val (m, -1, [])
  else
    let n := brk m in
    let pair := PairNode n in
    let m := mkMap (capacity m) (buckets m) (q_alloc pair (links m))
               (<[n := (key, value)]> (pairs m)) (Pos.succ n) in
    H ← ngx_queue_init pair (links m);
    let m := set_links H m in
    let head := Bucket (bucket_of m key) in
    '(m, old_pair) ← ngx_queue_foreach (λ s, links (fst s)) fuel head
      (λ q '(m, _),
         '(k, _) ← pair_at m q;
         if bool_decide (k = key) then
           H ← ngx_queue_remove q (links m);
           H ← ngx_queue_init q H;
           Val ((set_links H m, Some q), false)
         else Val ((m, None), false))
      (m, None);
    H ← ngx_queue_insert_tail head pair (links m);
    let m := set_links H m in
    match old_pair with
    | Some old =>
        kv ← pair_at m old;
        m ← free_pair old m;
        Val (m, 0, [kv])
    | None => Val (m, 0, [])
    end.

Definition pc_map_del (fuel : nat) m key : exec (pc_map_t V * option V) :=
  let head := Bucket (bucket_of m key) in
  ngx_queue_foreach (λ s, links (fst s)) fuel head
    (λ q '(m, r),
       '(k, v) ← pair_at m q;
       if bool_decide (key = k) then
         H ← ngx_queue_remove q (links m);
         H ← ngx_queue_init q H;
         m ← free_pair q (set_links H m);
         Val ((m, Some v), true)
       else Val ((m, r), false))
    (m, None).

(** ** Clearing *)

(** [while(!ngx_queue_empty(head))] of one bucket. *)
Fixpoint clear_bucket (fuel : nat) (head : addr) m : exec (pc_map_t V * list (string * V)) :=
  match fuel with
  | O => NoFuel
  | S fuel =>
      e ← ngx_queue_empty head (links m);
      if e : bool then Val (m, [])
      else
        q ← ngx_queue_next head (links m);
        kv ← pair_at m q;
        H ← ngx_queue_remove q (links m);
        H ← ngx_queue_init q H;
        m ← free_pair q (set_links H m);
        '(m, rel) ← clear_bucket fuel head m;
        Val (m, kv :: rel)
  end.

(** [for(i=0; i<capacity; i++)], [n] buckets left; [i] is an [int]. *)
Fixpoint clear_from (fuel n : nat) (i : Z) m : exec (pc_map_t V * list (string * V)) :=
  match n with
  | O => Val (m, [])
  | S n =>
      '(m, rel) ← clear_bucket fuel (Bucket i) m;
      _ ← require (i <? INT_MAX);
      '(m, rel') ← clear_from fuel n (i + 1) m;
      Val (m, rel ++ rel')
  end.

Definition pc_map_clear (fuel : nat) m : exec (pc_map_t V * list (string * V)) :=
  if negb (buckets m) then Val (m, [])
  else clear_from fuel (Z.to_nat (capacity m)) 0 m.

Definition pc_map_close (fuel : nat) m : exec (pc_map_t V * list (string * V)) :=
  '(m, rel) ← pc_map_clear fuel m;
  Val (mkMap (capacity m) false (mkHeap ∅ ∅) (pairs m) (brk m), rel).

(** [pc_map_close], then the map itself is freed. *)
Definition pc_map_destroy (fuel : nat) m : exec (list (string * V)) :=
  '(_, rel) ← pc_map_close fuel m; Val rel.

End Map.

(** ** What a map stands for *)

Section Rep.
Context {V : Type}.
Implicit Types (m : pc_map_t V) (M : gmap string V).

(** [bk i] lists the pairs of bucket [i], in order; [M] is the finite map. *)
Record map_rep m (bk : Z → list positive) M : Prop := {
  rep_cap : 64 ≤ capacity m ≤ INT_MAX;
  rep_live : buckets m = true;
  rep_queue : ∀ i, 0 ≤ i < capacity m → is_queue (links m) (Bucket i) (PairNode <$> bk i);
  rep_pair : ∀ i n, 0 ≤ i < capacity m → n ∈ bk i →
    ∃ k v, pairs m !! n = Some (k, v) ∧ bucket_of m k = i ∧ M !! k = Some v;
  rep_key : ∀ k v, M !! k = Some v →
    ∃ n, n ∈ bk (bucket_of m k) ∧ pairs m !! n = Some (k, v);
  rep_uniq : ∀ n n' k v v', pairs m !! n = Some (k, v) → pairs m !! n' = Some (k, v') → n = n';
  rep_own : ∀ n kv, pairs m !! n = Some kv → n ∈ bk (bucket_of m kv.1);
  rep_brk : ∀ n kv, pairs m !! n = Some kv → (n < brk m)%positive
}.

Lemma bucket_of_range m k : 64 ≤ capacity m → 0 ≤ bucket_of m k < capacity m.
Proof. intros. apply Z.mod_pos_bound. lia. Qed.

(** Where a key is, or is not, in its bucket. *)
Fixpoint find_pair m (key : string) (ns : list positive) : option (positive * V) :=
  match ns with
  | [] => None
  | n :: ns =>
      match pairs m !! n with
      | Some (k, v) => if bool_decide (key = k) then Some (n, v) else find_pair m key ns
      | None => find_pair m key ns
      end
  end.

Lemma find_pair_rep m bk M key :
  map_rep m bk M → snd <$> find_pair m key (bk (bucket_of m key)) = M !! key.
Proof.
  intros R. pose proof (bucket_of_range m key (proj1 (rep_cap _ _ _ R))) as Hi.
  assert (∀ ns, (∀ n, n ∈ ns → n ∈ bk (bucket_of m key)) →
    (∀ v, snd <$> find_pair m key ns = Some v → M !! key = Some v) ∧
    (find_pair m key ns = None → ∀ n v, n ∈ ns → pairs m !! n ≠ Some (key, v))) as Hf.
  { induction ns as [|n ns IH]; intros Hin; [split; [done|set_solver]|]. simpl.
    destruct (rep_pair _ _ _ R _ n Hi) as (k & v & Hn & Hb & HM); [set_solver|].
    destruct (IH (λ n' Hn', Hin n' (list_elem_of_further n' n ns Hn'))) as [IH1 IH2].
    rewrite Hn. case_bool_decide as E.
    - subst k. split; [|done]. by intros v' [= <-].
    - split; [done|]. intros HN n' v' [->|Hn']%elem_of_cons; [congruence|by apply IH2]. }
  destruct (Hf (bk (bucket_of m key)) (λ n Hn, Hn)) as [H1 H2].
  destruct (find_pair m key (bk (bucket_of m key))) as [[n v]|] eqn:E; simpl in *.
  - symmetry. by apply H1.
  - destruct (M !! key) as [v|] eqn:EM; [|done].
    destruct (rep_key _ _ _ R key v EM) as (n & Hin & Hn). by destruct (H2 eq_refl n v).
Qed.

(** [pc_map_get] returns the value of the finite map. *)
Lemma get_eq m bk M key fuel :
  map_rep m bk M → (length (bk (bucket_of m key)) < fuel)%nat →
  pc_map_get fuel m key = Val (M !! key).
Proof.
  intros R Hf. pose proof (bucket_of_range m key (proj1 (rep_cap _ _ _ R))) as Hi.
  unfold pc_map_get. rewrite (foreach_iter (λ _, True) _ _ _ (PairNode <$> bk (bucket_of m key)));
    [|by apply R|by rewrite length_fmap|done|done].
  rewrite <- (find_pair_rep m bk M key R).
  assert (∀ ns, (∀ n, n ∈ ns → n ∈ bk (bucket_of m key)) →
    iter_list (PairNode <$> ns)
      (λ q r, '(k, v) ← pair_at m q;
        if bool_decide (key = k) then Val (Some v, true) else Val (r, false)) None
    = Val (snd <$> find_pair m key ns)) as Hl; [|by apply Hl].
  induction ns as [|n ns IH]; intros Hin; [done|]. simpl.
  destruct (rep_pair _ _ _ R _ n Hi) as (k & v & Hn & _); [set_solver|].
  rewrite Hn. simpl. case_bool_decide; [done|]. simpl. apply IH. set_solver.
Qed.

(** ** Insertion *)

(** The nodes of a bucket, seen from a map with one more pair. *)
Lemma rep_node_ne m bk M i n :
  map_rep m bk M → 0 ≤ i < capacity m → n ∈ bk i → n ≠ brk m.
Proof.
  intros R Hi Hn ->. destruct (rep_pair _ _ _ R _ _ Hi Hn) as (k & v & Hp & _).
  apply (rep_brk _ _ _ R) in Hp. lia.
Qed.

(** The map after the new pair is allocated and its node initialised. *)
Definition with_pair m (key : string) (value : V) : pc_map_t V :=
  let p := PairNode (brk m) in
  mkMap (capacity m) (buckets m)
    (mkHeap (<[p := p]> (<[p := p]> (q_prev (links m)))) (<[p := p]> (<[p := p]> (q_next (links m)))))
    (<[brk m := (key, value)]> (pairs m)) (Pos.succ (brk m)).

Lemma with_pair_queue m bk M key value i :
  map_rep m bk M → 0 ≤ i < capacity m →
  is_queue (links (with_pair m key value)) (Bucket i) (PairNode <$> bk i).
Proof.
  intros R Hi. eapply is_queue_frame, (rep_queue _ _ _ R i Hi); intros x Hx; simpl;
    (assert (x ≠ PairNode (brk m)) as Hne;
     [apply elem_of_cons in Hx as [->|(n & -> & Hn)%list_elem_of_fmap]; [done|];
      intros [= ->]; by apply (rep_node_ne m bk M i (brk m) R Hi)
     |by rewrite !lookup_insert_ne]).
Qed.

Definition set_body (key : string) (q : addr) (s : pc_map_t V * option addr)
  : exec (pc_map_t V * option addr * bool) :=
  let '(m, _) := s in
  '(k, _) ← pair_at m q;
  if bool_decide (k = key) then
    H ← ngx_queue_remove q (links m);
    H ← ngx_queue_init q H;
    Val ((set_links H m, Some q), false)
  else Val ((m, None), false).

(** [pc_map_set] once its allocations have succeeded. *)
Lemma set_unfold fuel m key value :
  pc_map_set fuel true true m key value =
    let m1 := with_pair m key value in
    let head := Bucket (bucket_of m key) in
    '(m2, old_pair) ← ngx_queue_foreach (λ s, links (fst s)) fuel head (set_body key) (m1, None);
    H ← ngx_queue_insert_tail head (PairNode (brk m)) (links m2);
    match old_pair with
    | Some old =>
        kv ← pair_at (set_links H m2) old;
        m3 ← free_pair old (set_links H m2);
        Val (m3, 0, [kv])
    | None => Val (set_links H m2, 0, [])
    end.
Proof.
  unfold pc_map_set. cbn [negb orb]. rewrite ngx_queue_init_spec;
    [reflexivity|simpl; rewrite dom_insert_L; set_solver..].
Qed.

(** The loop over pairs with other keys changes nothing. *)
Lemma set_body_other m bk M key value i ns o :
  map_rep m bk M → 0 ≤ i < capacity m → (∀ n, n ∈ ns → n ∈ bk i) →
  (∀ n v, n ∈ ns → pairs m !! n ≠ Some (key, v)) →
  iter_list (PairNode <$> ns) (set_body key) (with_pair m key value, o) =
    Val (with_pair m key value, match ns with [] => o | _ => None end).
Proof.
  intros R Hi. revert o. induction ns as [|n ns IH]; intros o Hin Hk; [done|].
  cbn [fmap list_fmap iter_list]. unfold set_body at 1. unfold pair_at.
  destruct (rep_pair _ _ _ R i n Hi) as (k & v & Hn & _); [apply Hin; set_solver|].
  assert (n ≠ brk m) by (eapply rep_node_ne; [done|done|apply Hin; set_solver]).
  simpl. rewrite lookup_insert_ne, Hn by done. simpl.
  rewrite bool_decide_false; [|intros ->; apply (Hk n v); [set_solver|done]]. simpl.
  rewrite IH; [by destruct ns|set_solver|set_solver].
Qed.
(** A bucket is no longer than the map has pairs. *)
Lemma bucket_length m bk M i :
  map_rep m bk M → 0 ≤ i < capacity m → (length (bk i) ≤ size (pairs m))%nat.
Proof.
  intros R Hi. destruct (rep_queue _ _ _ R i Hi) as [Hd _].
  apply NoDup_cons_1_2, NoDup_fmap_1 in Hd.
  rewrite <- size_dom, <- (size_list_to_set (C := gset positive) (bk i)) by done.
  apply subseteq_size. intros n Hn%elem_of_list_to_set.
  destruct (rep_pair _ _ _ R i n Hi Hn) as (k & v & Hp & _). by apply elem_of_dom_2 in Hp.
Qed.

(** Appending a pair with a new key to its bucket keeps the representation. *)
Lemma rep_add m bk M key value H' :
  map_rep m bk M → M !! key = None →
  let b := bucket_of m key in
  (∀ i, 0 ≤ i < capacity m →
     is_queue H' (Bucket i) (PairNode <$> add_to bk b (brk m) i)) →
  map_rep (set_links H' (with_pair m key value)) (add_to bk b (brk m)) (<[key := value]> M).
Proof.
  intros R HM b Hq. pose proof (bucket_of_range m key (proj1 (rep_cap _ _ _ R))) as Hb.
  assert (∀ n v, pairs m !! n ≠ Some (key, v)) as Hno.
  { intros n v Hn. pose proof (rep_own _ _ _ R n _ Hn) as Hin. simpl in Hin.
    destruct (rep_pair _ _ _ R _ n Hb Hin) as (k' & v' & Hn' & _ & HM'). congruence. }
  split; simpl; try apply R.
  - done.
  - intros i n Hi [Hn|[-> ->]]%add_to_in.
    + destruct (rep_pair _ _ _ R i n Hi Hn) as (k & v & Hp & Hbk & HMk).
      exists k, v. assert (n ≠ brk m) by (by eapply rep_node_ne).
      rewrite !lookup_insert_ne by congruence. done.
    + exists key, value. by simplify_map_eq.
  - intros k v. destruct (decide (k = key)) as [->|Hne].
    + rewrite lookup_insert_eq. intros [= <-]. exists (brk m). rewrite add_to_in.
      by simplify_map_eq; auto.
    + rewrite lookup_insert_ne by done. intros Hk.
      destruct (rep_key _ _ _ R k v Hk) as (n & Hin & Hp). exists n. rewrite add_to_in.
      split; [by left|]. apply (rep_brk _ _ _ R) in Hp as Hlt.
      rewrite lookup_insert_ne; [done|lia].
  - intros n n' k v v'. rewrite !lookup_insert_Some.
    intros [[<- [= <- <-]]|[Hn Hp]] [[<- E']|[Hn' Hp']]; try done.
    + by destruct (Hno n' v').
    + injection E' as -> ->. by destruct (Hno n v).
    + by eapply (rep_uniq _ _ _ R).
  - intros n kv [[<- <-]|[Hn Hp]]%lookup_insert_Some; apply add_to_in; [by right|].
    left. by apply (rep_own _ _ _ R).
  - intros n kv [[<- <-]|[Hn Hp]]%lookup_insert_Some; [lia|].
    apply (rep_brk _ _ _ R) in Hp. lia.
Qed.

Lemma set_fresh_eq m bk M key value fuel :
  map_rep m bk M → M !! key = None → (size (pairs m) < fuel)%nat →
  ∃ m' bk', pc_map_set fuel true true m key value = Val (m', 0, []) ∧
    map_rep m' bk' (<[key := value]> M).
Proof.
  intros R HM Hf. pose proof (bucket_of_range m key (proj1 (rep_cap _ _ _ R))) as Hb.
  rewrite set_unfold. cbv zeta.
  rewrite (foreach_iter (λ s, fst s = with_pair m key value) _ _ _
             (PairNode <$> bk (bucket_of m key))).
  - rewrite (set_body_other m bk M key value (bucket_of m key)); [|done..|].
    2: { intros n v Hn Hp. destruct (rep_pair _ _ _ R _ n Hb Hn) as (k & v' & Hp' & _ & HM').
         congruence. }
    rewrite bind_Val.
    destruct (insert_new (links (with_pair m key value)) bk (λ i, 0 ≤ i < capacity m) (bucket_of m key) (brk m))
      as (H' & E & Hq' & _).
    + intros. by eapply with_pair_queue.
    + done.
    + intros i Hi Hn. by eapply rep_node_ne.
    + intros i x Hi H1 H2. destruct (rep_pair _ _ _ R _ _ Hi H1) as (k & v & Hp & <- & _).
      destruct (rep_pair _ _ _ R _ _ Hb H2) as (k' & v' & Hp' & <- & _). congruence.
    + simpl. rewrite !dom_insert_L. set_solver.
    + simpl. rewrite !dom_insert_L. set_solver.
    + replace (match bk (bucket_of m key) with [] => None | _ => None end) with (@None addr)
        by (by destruct (bk _)).
      rewrite E, bind_Val. eexists _, _. split; [done|]. by apply rep_add.
  - by eapply with_pair_queue.
  - rewrite length_fmap. pose proof (bucket_length m bk M _ R Hb). lia.
  - done.
  - intros x [m1 o] s' (n & -> & Hn)%list_elem_of_fmap Hm E. simpl in Hm. subst m1.
    unfold set_body, pair_at in E. simpl in E. rewrite lookup_insert_ne in E
      by (apply not_eq_sym; by eapply rep_node_ne).
    destruct (rep_pair _ _ _ R _ n Hb Hn) as (k & v & Hp & _ & HM'). rewrite Hp in E. simpl in E.
    rewrite bool_decide_false in E by congruence. by injection E as <-.
Qed.
(** ** Removal *)

(** Buckets share no pair. *)
Lemma rep_disjoint m bk M i j n :
  map_rep m bk M → 0 ≤ i < capacity m → 0 ≤ j < capacity m → n ∈ bk i → n ∈ bk j → i = j.
Proof.
  intros R Hi Hj H1 H2. destruct (rep_pair _ _ _ R _ _ Hi H1) as (k & v & Hp & <- & _).
  destruct (rep_pair _ _ _ R _ _ Hj H2) as (k' & v' & Hp' & <- & _). congruence.
Qed.

Lemma bucket_NoDup m bk M i : map_rep m bk M → 0 ≤ i < capacity m → NoDup (bk i).
Proof.
  intros R Hi. destruct (rep_queue _ _ _ R i Hi) as [Hd _].
  by apply NoDup_cons_1_2, NoDup_fmap_1 in Hd.
Qed.

(** Dropping a pair from its bucket keeps the representation. *)
Lemma rep_remove m bk M b xs n ys key v H' :
  map_rep m bk M → 0 ≤ b < capacity m → bk b = xs ++ n :: ys → pairs m !! n = Some (key, v) →
  (∀ i, 0 ≤ i < capacity m → is_queue H' (Bucket i) (PairNode <$> bk_set bk b (xs ++ ys) i)) →
  map_rep (mkMap (capacity m) (buckets m) H' (delete n (pairs m)) (brk m))
    (bk_set bk b (xs ++ ys)) (delete key M).
Proof.
  intros R Hb Ebk Hn Hq. pose proof (bucket_NoDup m bk M b R Hb) as Hnd.
  assert (bucket_of m key = b) as Hkey.
  { destruct (rep_pair _ _ _ R b n Hb) as (k & v' & Hp & Hbk & _); [rewrite Ebk; set_solver|].
    congruence. }
  assert (∀ i x, 0 ≤ i < capacity m → x ∈ bk_set bk b (xs ++ ys) i ↔ x ∈ bk i ∧ x ≠ n) as Hin.
  { intros i x Hi. unfold bk_set. case_decide as Ei.
    - subst i. rewrite Ebk in Hnd |- *. apply list.NoDup_app in Hnd as (_ & Hd & Hnd).
      apply NoDup_cons_1_1 in Hnd. specialize (Hd n). set_solver.
    - split; [|tauto]. intros Hx. split; [done|]. intros ->.
      apply Ei, (rep_disjoint m bk M i b n); try done. rewrite Ebk. set_solver. }
  split; try apply R; cbn [capacity links pairs brk].
  - done.
  - intros i x Hi [Hx Hne]%Hin; [|done].
    destruct (rep_pair _ _ _ R i x Hi Hx) as (k & v' & Hp & Hbk & HM).
    exists k, v'. rewrite lookup_delete_ne by done. split; [done|]. split; [done|].
    rewrite lookup_delete_ne; [done|]. intros <-. apply Hne. by eapply (rep_uniq _ _ _ R).
  - intros k v' [Hne Hk]%lookup_delete_Some.
    destruct (rep_key _ _ _ R k v' Hk) as (x & Hx & Hp). exists x.
    assert (x ≠ n) by congruence. rewrite lookup_delete_ne by done. split; [|done].
    apply Hin; [|done]. apply (bucket_of_range m), R.
  - intros n1 n2 k v1 v2 [_ H1]%lookup_delete_Some [_ H2]%lookup_delete_Some.
    by eapply (rep_uniq _ _ _ R).
  - intros x kv [Hne Hp]%lookup_delete_Some. apply Hin; [apply (bucket_of_range m), R|].
    split; [by apply (rep_own _ _ _ R)|done].
  - intros x kv [Hne Hp]%lookup_delete_Some. by eapply (rep_brk _ _ _ R).
Qed.

(** What removing and freeing the pair [n] of bucket [b] does. *)
Lemma remove_pair m bk M b xs n ys key v :
  map_rep m bk M → 0 ≤ b < capacity m → bk b = xs ++ n :: ys → pairs m !! n = Some (key, v) →
  ∃ m', (H ← ngx_queue_remove (PairNode n) (links m);
         H ← ngx_queue_init (PairNode n) H;
         free_pair (PairNode n) (set_links H m)) = Val m' ∧
    capacity m' = capacity m ∧ pairs m' = delete n (pairs m) ∧
    map_rep m' (bk_set bk b (xs ++ ys)) (delete key M).
Proof.
  intros R Hb Ebk Hn. pose proof (bucket_NoDup m bk M b R Hb) as Hnd.
  destruct (unlink (links m) bk (λ i, 0 ≤ i < capacity m) b xs n ys) as (H1 & H & -> & E & _ & _ & Hq & _);
    [apply R|intros ???; by apply (rep_disjoint m bk M)|done..|].
  rewrite bind_Val, E, bind_Val. unfold free_pair. simpl. rewrite Hn.
  eexists; split; [done|]. split; [done|]. split; [done|]. apply rep_remove with v; try done.
  intros i Hi. apply q_free_queue; [by apply Hq|]. rewrite not_elem_of_cons. split; [done|].
  intros (x & [= <-] & Hx)%list_elem_of_fmap.
  eapply (bk_set_in bk b xs n ys i n); try done.
  destruct (decide (i = b)) as [|Hne]; [by left|right]. intros Hin.
  apply Hne, (rep_disjoint m bk M i b n); try done. rewrite Ebk. set_solver.
Qed.

Definition del_body (key : string) (q : addr) (s : pc_map_t V * option V)
  : exec (pc_map_t V * option V * bool) :=
  let '(m, r) := s in
  '(k, v) ← pair_at m q;
  if bool_decide (key = k) then
    H ← ngx_queue_remove q (links m);
    H ← ngx_queue_init q H;
    m ← free_pair q (set_links H m);
    Val ((m, Some v), true)
  else Val ((m, r), false).

Lemma del_body_hit m n key v r :
  pairs m !! n = Some (key, v) →
  del_body key (PairNode n) (m, r) =
    (H ← ngx_queue_remove (PairNode n) (links m);
     H ← ngx_queue_init (PairNode n) H;
     m ← free_pair (PairNode n) (set_links H m);
     Val ((m, Some v), true)).
Proof.
  intros Hn. unfold del_body, pair_at. rewrite Hn, bind_Val. cbv beta iota.
  by rewrite bool_decide_true.
Qed.

(** Where the pair of a key sits. *)
Lemma find_split m bk M key v :
  map_rep m bk M → M !! key = Some v →
  ∃ xs n ys, bk (bucket_of m key) = xs ++ n :: ys ∧ pairs m !! n = Some (key, v) ∧
    (∀ x v', x ∈ xs ++ ys → pairs m !! x ≠ Some (key, v')).
Proof.
  intros R HM. destruct (rep_key _ _ _ R key v HM) as (n & Hin & Hn).
  destruct (list_elem_of_split _ _ Hin) as (xs & ys & E). exists xs, n, ys.
  split; [done|]. split; [done|]. intros x v' Hx Hp.
  assert (x = n) as -> by (by eapply (rep_uniq _ _ _ R)).
  pose proof (bucket_NoDup m bk M (bucket_of m key) R) as Hnd. rewrite E in Hnd.
  apply list.NoDup_app in Hnd as (_ & Hd & Hnd); [|apply bucket_of_range, R].
  apply NoDup_cons_1_1 in Hnd. specialize (Hd n). set_solver.
Qed.

Lemma del_eq m bk M key fuel :
  map_rep m bk M → (size (pairs m) < fuel)%nat →
  ∃ m' bk', pc_map_del fuel m key = Val (m', M !! key) ∧ map_rep m' bk' (delete key M).
Proof.
  intros R Hf. pose proof (bucket_of_range m key (proj1 (rep_cap _ _ _ R))) as Hb.
  pose proof (bucket_length m bk M _ R Hb).
  change (pc_map_del fuel m key) with
    (ngx_queue_foreach (λ s, links (fst s)) fuel (Bucket (bucket_of m key)) (del_body key) (m, None)).
  rewrite (foreach_iter (λ s, fst s = m) _ _ _ (PairNode <$> bk (bucket_of m key)));
    [|by apply R|rewrite length_fmap; lia|done|].
  2: { intros x [m1 r] s' (n & -> & Hn)%list_elem_of_fmap Hm E. simpl in Hm. subst m1.
       unfold del_body, pair_at in E.
       destruct (rep_pair _ _ _ R _ n Hb Hn) as (k & v & Hp & _). rewrite Hp in E. simpl in E.
       case_bool_decide; [|by injection E as <-]. exec_inv. simplify_eq. }
  assert (∀ ns rest r, (∀ n, n ∈ ns → n ∈ bk (bucket_of m key)) →
    (∀ n v, n ∈ ns → pairs m !! n ≠ Some (key, v)) →
    iter_list ((PairNode <$> ns) ++ rest) (del_body key) (m, r) =
    iter_list rest (del_body key) (m, r)) as Hskip.
  { induction ns as [|n ns IH]; intros rest r Hin Hno; [done|]. simpl.
    destruct (rep_pair _ _ _ R _ n Hb) as (k & v & Hp & _); [set_solver|]. rewrite Hp. simpl.
    rewrite bool_decide_false; [|intros ->; apply (Hno n v); [set_solver|done]]. simpl.
    apply IH; set_solver. }
  destruct (M !! key) as [v|] eqn:HM.
  - destruct (find_split m bk M key v R HM) as (xs & n & ys & E & Hn & Hno).
    rewrite E, fmap_app, fmap_cons, Hskip;
      [|intros x Hx; rewrite E; set_solver|intros x v' Hx; apply Hno; set_solver].
    cbn [iter_list].
    rewrite (del_body_hit m n key v) by done.
    destruct (remove_pair m bk M (bucket_of m key) xs n ys key v) as (m' & Em & _ & _ & R');
      [done..|]. exists m', (bk_set bk (bucket_of m key) (xs ++ ys)). split; [|done].
    destruct (ngx_queue_remove (PairNode n) (links m)) as [H1| |]; [|done..].
    cbn [mbind exec_bind] in *. destruct (ngx_queue_init (PairNode n) H1) as [H2| |]; [|done..].
    cbn [mbind exec_bind] in *. by rewrite Em.
  - exists m, bk. rewrite delete_id by done. split; [|done].
    rewrite <- (app_nil_r (PairNode <$> _)), Hskip; [done|done|].
    intros n v Hin Hp. destruct (rep_pair _ _ _ R _ n Hb Hin) as (k & v' & Hp' & _ & HM').
    congruence.
Qed.
(** ** Insertion of a key that is already there *)

Lemma set_body_hit m n key v o :
  pairs m !! n = Some (key, v) →
  set_body key (PairNode n) (m, o) =
    (H ← ngx_queue_remove (PairNode n) (links m);
     H ← ngx_queue_init (PairNode n) H;
     Val ((set_links H m, Some (PairNode n)), false)).
Proof.
  intros Hn. unfold set_body, pair_at. rewrite Hn, bind_Val. cbv beta iota.
  by rewrite bool_decide_true.
Qed.

Lemma set_body_miss m n k key v o :
  pairs m !! n = Some (k, v) → k ≠ key →
  set_body key (PairNode n) (m, o) = Val ((m, None), false).
Proof.
  intros Hn Hk. unfold set_body, pair_at. rewrite Hn, bind_Val. cbv beta iota.
  by rewrite bool_decide_false.
Qed.

(** The unlinked node is linked to itself, so the loop stays on it, and only an
    empty bucket ends it. *)
Lemma set_loop_stuck fuel m n key v b o p :
  pairs m !! n = Some (key, v) →
  q_prev (links m) !! PairNode n = Some (PairNode n) →
  q_next (links m) !! PairNode n = Some (PairNode n) →
  q_prev (links m) !! Bucket b = Some p → p ≠ Bucket b →
  foreach_from (λ s : pc_map_t V * option addr, links (fst s)) fuel (PairNode n) (Bucket b)
    (set_body key) (m, o) = NoFuel.
Proof.
  intros Hn Hp Hx Hh Hne. revert o. induction fuel as [|fuel IH]; intros o; [done|].
  cbn [foreach_from]. rewrite bool_decide_false by done.
  unfold ngx_queue_empty, get_prev. cbn [fst]. rewrite Hh, bind_Val, bind_Val.
  rewrite bool_decide_false by done.
  rewrite (set_body_hit m n key v) by done.
  assert (ngx_queue_remove (PairNode n) (links m) = Val (links m)) as ->.
  { unfold ngx_queue_remove, get_next, get_prev, set_prev, set_next.
    rewrite Hx, Hp. simpl. rewrite Hp. simpl. rewrite lookup_insert_eq. simpl.
    rewrite Hx. simpl. rewrite ?Hx. destruct (links m). simpl in *.
    by rewrite !insert_id. }
  rewrite bind_Val. assert (ngx_queue_init (PairNode n) (links m) = Val (links m)) as ->.
  { unfold ngx_queue_init, set_prev, set_next. rewrite Hp. simpl. rewrite Hx.
    destruct (links m). simpl in *. by rewrite !insert_id. }
  rewrite !bind_Val. cbv beta iota. unfold ngx_queue_next, get_next. cbn [fst set_links links].
  rewrite Hx, bind_Val. replace (set_links (links m) m) with m by (by destruct m). apply IH.
Qed.
(** Up to the pair of the key the traversal of [pc_map_set] skips pairs. *)
Lemma set_loop_skip m bk M key value b xs n ys fuel :
  map_rep m bk M → 0 ≤ b < capacity m → bk b = xs ++ n :: ys →
  (∀ x v, x ∈ xs ++ ys → pairs m !! x ≠ Some (key, v)) →
  let m1 := with_pair m key value in
  ngx_queue_foreach (λ s, links (fst s)) fuel (Bucket b) (set_body key) (m1, None) =
    if decide (fuel ≤ length xs)%nat then NoFuel
    else foreach_from (λ s, links (fst s)) (fuel - length xs) (PairNode n) (Bucket b)
           (set_body key) (m1, None).
Proof.
  intros R Hb Ebk Hno m1. pose proof (with_pair_queue m bk M key value b R Hb) as Hq.
  fold m1 in Hq. unfold ngx_queue_foreach. cbn [fst].
  rewrite (ngx_queue_head_spec _ _ _ Hq), bind_Val.
  assert (∀ rest seen fuel, xs = seen ++ rest →
    foreach_from (λ s : pc_map_t V * option addr, links (fst s)) fuel
      (PairNode (default n (head rest))) (Bucket b) (set_body key) (m1, None) =
    if decide (fuel ≤ length rest)%nat then NoFuel
    else foreach_from (λ s, links (fst s)) (fuel - length rest) (PairNode n) (Bucket b)
           (set_body key) (m1, None)) as Hloop.
  { clear fuel. induction rest as [|x rest IH]; intros seen fuel E.
    { cbn [length head default]. rewrite Nat.sub_0_r. case_decide; [|done].
      by replace fuel with O by lia. }
    destruct fuel as [|fuel]; [done|]. cbn [foreach_from head default from_option].
    rewrite bool_decide_false by done. cbn [fst].
    rewrite (ngx_queue_empty_spec _ _ _ Hq), bind_Val.
    rewrite bool_decide_false by (rewrite Ebk; by destruct xs).
    assert (x ∈ bk b) as Hx by (rewrite Ebk, E; set_solver).
    destruct (rep_pair _ _ _ R b x Hb Hx) as (k & v & Hp & _).
    rewrite (set_body_miss m1 x k key v), bind_Val.
    2: { simpl. rewrite lookup_insert_ne; [done|]. apply not_eq_sym. by eapply rep_node_ne. }
    2: { intros ->. apply (Hno x v); [rewrite E; set_solver|done]. }
    cbv beta iota. unfold ngx_queue_next, get_next. cbn [fst].
    rewrite Ebk, E, <- app_assoc, fmap_app in Hq. cbn [app] in Hq. rewrite fmap_cons in Hq.
    change (id x) with x. rewrite (is_queue_next _ _ _ _ _ Hq), bind_Val.
    replace (default (Bucket b) (head (PairNode <$> rest ++ n :: ys)))
      with (PairNode (default n (head rest))) by (by destruct rest).
    rewrite (IH (seen ++ [x])) by (by rewrite <- app_assoc).
    cbn [length Nat.sub]. do 2 case_decide; try lia; done. }
  rewrite Ebk. replace (default (Bucket b) (head (PairNode <$> xs ++ n :: ys)))
    with (PairNode (default n (head xs))) by (by destruct xs).
  by apply (Hloop xs []).
Qed.

(** Storing a key that is already in the map never returns
    when its bucket holds another pair: the loop unlinks the old pair, makes it
    point to itself, and goes on from there. *)
Lemma set_shared_diverges m bk M key value v fuel :
  map_rep m bk M → M !! key = Some v → (1 < length (bk (bucket_of m key)))%nat →
  pc_map_set fuel true true m key value = NoFuel.
Proof.
  intros R HM Hl. pose proof (bucket_of_range m key (proj1 (rep_cap _ _ _ R))) as Hb.
  destruct (find_split m bk M key v R HM) as (xs & n & ys & E & Hn & Hno).
  rewrite set_unfold. cbv zeta.
  rewrite (set_loop_skip m bk M key value _ xs n ys) by done. cbv zeta.
  case_decide; [done|]. destruct (fuel - length xs)%nat as [|f] eqn:Ef; [lia|].
  assert (n ∈ bk (bucket_of m key)) as Hin by (rewrite E; set_solver).
  assert (pairs (with_pair m key value) !! n = Some (key, v)) as Hn1.
  { simpl. rewrite lookup_insert_ne; [done|]. apply not_eq_sym. by eapply rep_node_ne. }
  pose proof (with_pair_queue m bk M key value _ R Hb) as Hq.
  cbn [foreach_from]. rewrite bool_decide_false by done. cbn [fst].
  rewrite (ngx_queue_empty_spec _ _ _ Hq), bind_Val.
  rewrite bool_decide_false by (rewrite E; by destruct xs).
  rewrite (set_body_hit _ n key v) by done.
  destruct (unlink (links (with_pair m key value)) bk (λ i, 0 ≤ i < capacity m) (bucket_of m key) xs n ys)
    as (H1 & H2 & E1 & E2 & Hp2 & Hn2 & Hq2 & _).
  { intros. by eapply with_pair_queue. }
  { intros ???. by apply (rep_disjoint m bk M). }
  { done. }
  { done. }
  rewrite E1, bind_Val, E2, !bind_Val. cbv beta iota. unfold ngx_queue_next, get_next. cbn [fst set_links links].
  rewrite Hn2, bind_Val.
  specialize (Hq2 _ Hb). unfold bk_set in Hq2. rewrite decide_True in Hq2 by done.
  assert (∃ p, q_prev H2 !! Bucket (bucket_of m key) = Some p ∧ p ≠ Bucket (bucket_of m key))
    as (p & Hp & Hpne).
  { pose proof (ngx_queue_empty_spec _ _ _ Hq2) as He. unfold ngx_queue_empty, get_prev in He.
    destruct (q_prev H2 !! Bucket (bucket_of m key)) as [p|]; [|done]. exists p. split; [done|].
    intros ->. injection He as He. rewrite bool_decide_true in He by done. symmetry in He.
    apply bool_decide_eq_true_1 in He. rewrite E in Hl. rewrite length_app in Hl. simpl in Hl.
    destruct xs, ys; simpl in *; try done; lia. }
  by rewrite (set_loop_stuck f (set_links H2 (with_pair m key value)) n key v _ _ p).
Qed.

(** The one case in which a present key can be stored: it is
    alone in its bucket; the old value is released. *)
Lemma set_alone_eq m bk M key value v n fuel :
  map_rep m bk M → M !! key = Some v → bk (bucket_of m key) = [n] → (2 ≤ fuel)%nat →
  ∃ m' bk', pc_map_set fuel true true m key value = Val (m', 0, [(key, v)]) ∧
    map_rep m' bk' (<[key := value]> M).
Proof.
  intros R HM E Hf. pose proof (bucket_of_range m key (proj1 (rep_cap _ _ _ R))) as Hb.
  assert (pairs m !! n = Some (key, v)) as Hn.
  { destruct (rep_key _ _ _ R key v HM) as (n' & Hin & Hn'). rewrite E in Hin. set_solver. }
  assert (n ≠ brk m) as Hne by (eapply (rep_node_ne m bk M); [done|done|rewrite E; set_solver]).
  assert (pairs (with_pair m key value) !! n = Some (key, v)) as Hn1
    by (simpl; by rewrite lookup_insert_ne).
  rewrite set_unfold. cbv zeta.
  rewrite (set_loop_skip m bk M key value _ [] n []); [|done..|by intros ?? ?%not_elem_of_nil].
  cbv zeta. rewrite decide_False by (simpl; lia). cbn [length].
  destruct (fuel - 0)%nat as [|[|f]] eqn:Ef; [lia..|].
  pose proof (with_pair_queue m bk M key value _ R Hb) as Hq. rewrite E in Hq.
  destruct (unlink (links (with_pair m key value)) bk (λ i, 0 ≤ i < capacity m) (bucket_of m key) [] n [])
    as (H1 & H2 & E1 & E2 & Hp2 & Hn2 & Hq2 & Hd2).
  { intros. by eapply with_pair_queue. }
  { intros ???. by apply (rep_disjoint m bk M). }
  { done. }
  { done. }
  cbn [foreach_from]. rewrite bool_decide_false by done. cbn [fst].
  rewrite (ngx_queue_empty_spec _ _ _ Hq), bind_Val, bool_decide_false by done.
  rewrite (set_body_hit _ n key v), E1, bind_Val, E2, !bind_Val by done. cbv beta iota.
  unfold ngx_queue_next, get_next. cbn [fst set_links links]. rewrite Hn2, bind_Val.
  rewrite bool_decide_false by done.
  pose proof (Hq2 _ Hb) as Hq2b. unfold bk_set in Hq2b. rewrite decide_True in Hq2b by done.
  rewrite (ngx_queue_empty_spec _ _ _ Hq2b), bind_Val, bool_decide_true, bind_Val by done.
  assert (∀ i, 0 ≤ i < capacity m → n ∉ bk_set bk (bucket_of m key) [] i) as Hnb.
  { intros i Hi. unfold bk_set. case_decide as Ei; [set_solver|]. intros Hin.
    apply Ei, (rep_disjoint m bk M i _ n); try done. rewrite E. set_solver. }
  assert (∀ i x, x ∈ bk_set bk (bucket_of m key) [] i → x ∈ bk i) as Hsub.
  { intros i x. unfold bk_set. case_decide; set_solver. }
  destruct (insert_new H2 (bk_set bk (bucket_of m key) []) (λ i, 0 ≤ i < capacity m) (bucket_of m key) (brk m))
    as (H3 & E3 & Hq3 & _); [done|done| | |..].
  { intros i Hi Hin. apply Hsub in Hin. by eapply (rep_node_ne m bk M). }
  { intros i x Hi Hx Hx'. apply Hsub in Hx, Hx'. by apply (rep_disjoint m bk M i _ x). }
  1, 2: destruct Hd2 as [Hd2a Hd2b]; rewrite ?Hd2a, ?Hd2b; simpl; rewrite !dom_insert_L; set_solver.
  cbn [set_links links] in *. rewrite E3, bind_Val. unfold pair_at, free_pair.
  cbn [set_links pairs]. rewrite Hn1, !bind_Val.
  eexists _, _. split; [done|]. cbn [set_links capacity buckets links brk].
  pose proof (rep_remove m bk M (bucket_of m key) [] n [] key v H2 R Hb E Hn Hq2) as R2.
  pose proof (rep_add _ _ _ key value (q_free (PairNode n) H3) R2 (lookup_delete_eq _ _)) as R3.
  cbv zeta in R3. rewrite insert_delete_eq in R3.
  unfold set_links, with_pair in R3. cbn [capacity buckets links pairs brk] in R3.
  unfold with_pair. cbn [capacity buckets links pairs brk].
  rewrite delete_insert_ne by done. apply R3. intros i Hi.
  apply q_free_queue; [by apply Hq3|]. rewrite not_elem_of_cons. split; [done|].
  intros (x & [= <-] & [Hx|[_ ->]]%add_to_in)%list_elem_of_fmap; [|done].
  by apply (Hnb i).
Qed.

(** ** Clearing, creation *)

Lemma map_rep_ext m bk bk' M :
  (∀ i, bk i = bk' i) → map_rep m bk M → map_rep m bk' M.
Proof. intros E [? ? Hq Hp Hk ? Ho ?]. split; try done; by setoid_rewrite <- E. Qed.

(** [while(!ngx_queue_empty(head))] hands the pairs of its bucket over and
    leaves it empty. *)
Lemma clear_bucket_eq b ns : ∀ fuel m bk M,
  map_rep m bk M → 0 ≤ b < capacity m → bk b = ns → (length ns < fuel)%nat →
  ∃ m' M' rel, clear_bucket fuel (Bucket b) m = Val (m', rel) ∧
    capacity m' = capacity m ∧ rel ++ map_to_list M' ≡ₚ map_to_list M ∧
    map_rep m' (bk_set bk b []) M'.
Proof.
  induction ns as [|n ns IH]; intros [|fuel] m bk M R Hb Ebk Hf;
    [simpl in Hf; lia| |simpl in Hf; lia|].
  all: cbn [clear_bucket]; pose proof (rep_queue _ _ _ R b Hb) as Hq.
  all: rewrite (ngx_queue_empty_spec _ _ _ Hq), bind_Val, Ebk.
  - rewrite bool_decide_true by done. exists m, M, []. split; [done|]. split; [done|].
    split; [done|]. eapply map_rep_ext, R. intros i. unfold bk_set. case_decide; congruence.
  - rewrite bool_decide_false by done.
    unfold ngx_queue_next. pose proof (ngx_queue_head_spec _ _ _ Hq) as Hh.
    unfold ngx_queue_head in Hh. rewrite Hh, Ebk, bind_Val. cbn [fmap list_fmap head default].
    destruct (rep_pair _ _ _ R b n Hb) as (k & v & Hp & _ & HM); [rewrite Ebk; set_solver|].
    unfold pair_at at 1. cbn [from_option]. change (id (PairNode n)) with (PairNode n). cbv iota.
    rewrite Hp, bind_Val.
    destruct (remove_pair m bk M b [] n ns k v) as (m1 & E1 & Hc1 & _ & R1); [done..|].
    destruct (IH fuel m1 (bk_set bk b ns) _ R1) as (m' & M' & rel & E' & Hc' & Hrel & R');
      [by rewrite Hc1|unfold bk_set; by rewrite decide_True|simpl in Hf; lia|].
    exists m', M', ((k, v) :: rel). split; [|split; [congruence|split]].
    + destruct (ngx_queue_remove (PairNode n) (links m)) as [H1| |]; [|done..].
      cbn [mbind exec_bind] in *. destruct (ngx_queue_init (PairNode n) H1) as [H2| |]; [|done..].
      cbn [mbind exec_bind] in *. rewrite E1. cbn [mbind exec_bind]. by rewrite E'.
    + cbn [app]. rewrite Hrel. by apply map_to_list_delete.
    + eapply map_rep_ext, R'. intros i. unfold bk_set. by repeat case_decide.
Qed.

Lemma clear_from_eq n : ∀ fuel i m bk M,
  map_rep m bk M → 0 ≤ i → i + Z.of_nat n = capacity m →
  (∀ j, 0 ≤ j < i → bk j = []) → (∀ j, 0 ≤ j < capacity m → (length (bk j) < fuel)%nat) →
  ∃ m' M' bk' rel, clear_from fuel n i m = Val (m', rel) ∧
    rel ++ map_to_list M' ≡ₚ map_to_list M ∧ map_rep m' bk' M' ∧
    capacity m' = capacity m ∧ (∀ j, 0 ≤ j < capacity m → bk' j = []).
Proof.
  induction n as [|n IH]; intros fuel i m bk M R Hi Hn Hbk Hf.
  - exists m, M, bk, []. split; [done|]. split; [done|]. split; [done|]. split; [done|].
    intros j Hj. apply Hbk. lia.
  - destruct (clear_bucket_eq i (bk i) fuel m bk M R) as (m1 & M1 & rel & E & Hc & Hrel & R1);
      [lia|done|apply Hf; lia|].
    cbn [clear_from]. rewrite E, bind_Val. cbv beta iota.
    rewrite require_true, bind_Val by (pose proof (rep_cap _ _ _ R); apply Z.ltb_lt; lia).
    destruct (IH fuel (i + 1) m1 (bk_set bk i []) M1 R1) as (m' & M' & bk' & rel' & E' & Hr' & R' & Hc' & Hb').
    + lia.
    + lia.
    + intros j Hj. unfold bk_set. case_decide; [done|]. apply Hbk. lia.
    + intros j Hj. unfold bk_set. case_decide; [|apply Hf; lia]. specialize (Hf i). simpl. lia.
    + exists m', M', bk', (rel ++ rel'). rewrite E', bind_Val. split; [done|].
      split; [by rewrite <- Hrel, <- Hr', app_assoc|]. split; [done|]. split; [congruence|].
      intros j Hj. apply Hb'. by rewrite Hc.
Qed.

Lemma clear_eq m bk M fuel :
  map_rep m bk M → (size (pairs m) < fuel)%nat →
  ∃ m' rel, pc_map_clear fuel m = Val (m', rel) ∧ rel ≡ₚ map_to_list M ∧
    pairs m' = ∅ ∧ map_rep m' (λ _, []) ∅.
Proof.
  intros R Hf. unfold pc_map_clear. rewrite (rep_live _ _ _ R). cbn [negb].
  pose proof (rep_cap _ _ _ R) as Hcap.
  destruct (clear_from_eq (Z.to_nat (capacity m)) fuel 0 m bk M R)
    as (m' & M' & bk' & rel & E & Hrel & R' & Hc & Hb); [lia..| |].
  { intros j Hj. pose proof (bucket_length m bk M j R Hj). lia. }
  assert (∀ k, bk' (bucket_of m' k) = []) as Hb'.
  { intros k. apply Hb. rewrite <- Hc. apply bucket_of_range. lia. }
  assert (pairs m' = ∅) as Hp.
  { apply map_empty. intros n. destruct (pairs m' !! n) as [kv|] eqn:Hn; [|done].
    apply (rep_own _ _ _ R') in Hn. rewrite Hb' in Hn. by apply not_elem_of_nil in Hn. }
  assert (M' = ∅) as ->.
  { apply map_empty. intros k. destruct (M' !! k) as [v|] eqn:Hk; [|done].
    destruct (rep_key _ _ _ R' k v Hk) as (n & Hn & _). rewrite Hb' in Hn.
    by apply not_elem_of_nil in Hn. }
  exists m', rel. split; [done|]. rewrite map_to_list_empty, app_nil_r in Hrel.
  split; [done|]. split; [done|]. destruct R' as [? ? Hq Hpr Hk Hu Ho ?]. split; try done.
  - intros i Hi. rewrite Hc in Hi. rewrite <- (Hb i Hi). apply Hq. by rewrite Hc.
  - by intros ?? _ ?%not_elem_of_nil.
  - intros n kv. by rewrite Hp, lookup_empty.
Qed.

Lemma init_buckets_eq n : ∀ i H,
  (∀ j, 0 ≤ j < i → is_queue H (Bucket j) []) → 0 ≤ i →
  ∃ H', init_buckets n i H = Val H' ∧
    ∀ j, 0 ≤ j < i + Z.of_nat n → is_queue H' (Bucket j) [].
Proof.
  induction n as [|n IH]; intros i H Hq Hi.
  - exists H. split; [done|]. intros j Hj. apply Hq. lia.
  - cbn [init_buckets]. rewrite ngx_queue_init_spec by (simpl; rewrite dom_insert_L; set_solver).
    rewrite bind_Val. edestruct (IH (i + 1)) as (H' & E & Hq'); [| |exists H'; split; [exact E|]].
    + intros j Hj. destruct (decide (j = i)) as [->|Hne].
      * replace (q_alloc (Bucket i) H) with (q_alloc (Bucket i) H) by done.
        eapply is_queue_frame, (is_queue_alloc (Bucket i) H); intros x ->%list_elem_of_singleton;
          simpl; by rewrite !lookup_insert_eq.
      * eapply is_queue_frame, (Hq j); [..|lia]; intros x ->%list_elem_of_singleton; simpl;
          by rewrite !lookup_insert_ne by congruence.
    + lia.
    + intros j Hj. apply Hq'. lia.
Qed.

Lemma new_eq cap :
  cap ≤ INT_MAX →
  ∃ m, pc_map_new (V := V) true true cap = Val (Some m) ∧ capacity m = Z.max cap 64 ∧
    pairs m = ∅ ∧ map_rep m (λ _, []) ∅.
Proof.
  intros Hcap. unfold pc_map_new, pc_map_init, PC__MAP_DEFAULT_CAPACITY. cbn [negb].
  assert ((if cap <? 64 then 64 else cap) = Z.max cap 64) as ->
    by (destruct (Z.ltb_spec cap 64); lia).
  destruct (init_buckets_eq (Z.to_nat (Z.max cap 64)) 0 (mkHeap ∅ ∅)) as (H & -> & Hq); [lia..|].
  eexists. split; [done|]. split; [done|]. split; [done|].
  split; simpl; try done.
  - int_solve.
  - intros i Hi. apply Hq. lia.
  - by intros ?? _ ?%not_elem_of_nil.
Qed.

(** A map has as many pairs as its finite map. *)
Lemma rep_size m bk M : map_rep m bk M → size (pairs m) = size M.
Proof.
  intros R. rewrite <- !length_map_to_list.
  rewrite <- (length_fmap snd (map_to_list (pairs m))). apply Permutation_length, NoDup_Permutation.
  - apply NoDup_fmap_2_strong; [|apply NoDup_map_to_list].
    intros [n kv] [n' kv'] H1%elem_of_map_to_list H2%elem_of_map_to_list E. simpl in *. subst kv'.
    destruct kv. f_equal. by eapply (rep_uniq _ _ _ R).
  - apply NoDup_map_to_list.
  - intros [k v]. rewrite elem_of_map_to_list, list_elem_of_fmap. split.
    + intros ([n [k' v']] & [= <- <-] & Hn%elem_of_map_to_list).
      pose proof (rep_own _ _ _ R n _ Hn) as Hin.
      destruct (rep_pair _ _ _ R _ n (bucket_of_range m k (proj1 (rep_cap _ _ _ R))) Hin)
        as (k'' & v'' & Hp & _ & HM). congruence.
    + intros (n & _ & Hn)%(rep_key _ _ _ R). exists (n, (k, v)).
      by rewrite elem_of_map_to_list.
Qed.
End Rep.

(** ** Sequences of operations against the finite map *)

Section Sequences.
Context {V : Type}.

Inductive map_op := OGet (k : string) | OSet (k : string) (v : V) | ODel (k : string) | OClear.

(** What an operation answers: a value, or the pairs it releases. *)
Inductive map_res := RVal (o : option V) | RCode (rc : Z) | RReleased (l : list (string * V)).

(** One call on the C map. *)
Definition c_call (fuel : nat) (m : pc_map_t V) (o : map_op) : exec (pc_map_t V * map_res) :=
  match o with
  | OGet k => v ← pc_map_get fuel m k; Val (m, RVal v)
  | OSet k v => '(m, rc, _) ← pc_map_set fuel true true m k v; Val (m, RCode rc)
  | ODel k => '(m, v) ← pc_map_del fuel m k; Val (m, RVal v)
  | OClear => '(m, l) ← pc_map_clear fuel m; Val (m, RReleased l)
  end.

Fixpoint c_calls (fuel : nat) (m : pc_map_t V) (os : list map_op)
  : exec (pc_map_t V * list map_res) :=
  match os with
  | [] => Val (m, [])
  | o :: os =>
      '(m, r) ← c_call fuel m o;
      '(m, rs) ← c_calls fuel m os;
      Val (m, r :: rs)
  end.

(** The same call on the finite map. *)
Definition spec_call (M : gmap string V) (o : map_op) : gmap string V * map_res :=
  match o with
  | OGet k => (M, RVal (M !! k))
  | OSet k v => (<[k := v]> M, RCode 0)
  | ODel k => (delete k M, RVal (M !! k))
  | OClear => (∅, RReleased (map_to_list M))
  end.

Fixpoint spec_calls (M : gmap string V) (os : list map_op) : gmap string V * list map_res :=
  match os with
  | [] => (M, [])
  | o :: os =>
      let (M, r) := spec_call M o in
      let (M, rs) := spec_calls M os in
      (M, r :: rs)
  end.

(** Every store is of a key the map does not hold at that point. *)
Fixpoint fresh_sets (M : gmap string V) (os : list map_op) : bool :=
  match os with
  | [] => true
  | o :: os =>
      (match o with OSet k _ => bool_decide (M !! k = None) | _ => true end) &&
      fresh_sets (fst (spec_call M o)) os
  end.

(** Released pairs come in bucket order, which the finite map does not fix. *)
Inductive res_equiv : map_res → map_res → Prop :=
| res_same r : res_equiv r r
| res_perm l l' : l ≡ₚ l' → res_equiv (RReleased l) (RReleased l').

Lemma spec_size M o : (size (fst (spec_call M o)) ≤ S (size M))%nat.
Proof.
  destruct o; simpl; [lia| | |rewrite map_size_empty; lia].
  - rewrite map_size_insert. destruct (M !! k); simpl; lia.
  - rewrite map_size_delete. destruct (M !! k); simpl; lia.
Qed.

Lemma c_call_refines fuel m bk M o :
  map_rep m bk M → (size M < fuel)%nat →
  match o with OSet k _ => M !! k = None | _ => True end →
  ∃ m' bk' r, c_call fuel m o = Val (m', r) ∧ map_rep m' bk' (fst (spec_call M o)) ∧
    res_equiv r (snd (spec_call M o)).
Proof.
  intros R Hf Ho. rewrite <- (rep_size _ _ _ R) in Hf. destruct o as [k|k v|k|]; simpl.
  - pose proof (bucket_length m bk M _ R (bucket_of_range m k (proj1 (rep_cap _ _ _ R)))).
    rewrite (get_eq m bk M) by (done || lia). eexists _, _, _. split; [done|].
    split; [done|constructor].
  - destruct (set_fresh_eq m bk M k v fuel) as (m' & bk' & -> & R'); [done..|].
    eexists _, _, _. split; [done|]. split; [done|constructor].
  - destruct (del_eq m bk M k fuel) as (m' & bk' & -> & R'); [done..|].
    eexists _, _, _. split; [done|]. split; [done|constructor].
  - destruct (clear_eq m bk M fuel) as (m' & rel & -> & Hp & _ & R'); [done..|].
    eexists _, _, _. split; [done|]. split; [done|by constructor].
Qed.

Lemma c_calls_refines os : ∀ fuel m bk M,
  map_rep m bk M → (size M + length os < fuel)%nat → fresh_sets M os = true →
  ∃ m' bk' rs, c_calls fuel m os = Val (m', rs) ∧ map_rep m' bk' (fst (spec_calls M os)) ∧
    Forall2 res_equiv rs (snd (spec_calls M os)).
Proof.
  induction os as [|o os IH]; intros fuel m bk M R Hf Hs.
  - exists m, bk, []. split; [done|]. split; [done|constructor].
  - cbn [fresh_sets] in Hs. apply andb_true_iff in Hs as [Ho Hs].
    destruct (c_call_refines fuel m bk M o R) as (m1 & bk1 & r & E1 & R1 & Hr); [simpl in Hf; lia| |].
    { destruct o; try done. by apply bool_decide_eq_true_1 in Ho. }
    pose proof (spec_size M o). cbn [c_calls spec_calls]. rewrite E1, bind_Val. cbv beta iota.
    destruct (spec_call M o) as [M1 r1] eqn:EM. cbn [fst snd] in *.
    destruct (IH fuel m1 bk1 M1 R1) as (m2 & bk2 & rs & E2 & R2 & Hrs); [simpl in Hf; lia|done|].
    rewrite E2, bind_Val. destruct (spec_calls M1 os) as [M2 rs2] eqn:EM2.
    eexists _, _, _. split; [done|]. split; [done|]. by constructor.
Qed.
End Sequences.
Arguments map_op : clear implicits.
Arguments map_res : clear implicits.

(** C12 (refinement). Any sequence of get, set, del and clear calls on a map made
    by [pc_map_new] returns what the same calls on a finite map return (the
    pairs handed to the release callback by a clear, in some order, each once),
    as long as every stored key is absent when it is stored. The loops end:
    their bound is the number of calls. *)
Theorem map_calls_refine {V} (cap : Z) (os : list (map_op V)) (fuel : nat) :
  cap ≤ INT_MAX → fresh_sets ∅ os = true → (length os < fuel)%nat →
  ∃ m0 m bk rs, pc_map_new true true cap = Val (Some m0) ∧
    c_calls fuel m0 os = Val (m, rs) ∧
    map_rep m bk (fst (spec_calls ∅ os)) ∧ Forall2 res_equiv rs (snd (spec_calls ∅ os)).
Proof.
  intros Hc Hs Hf. destruct (new_eq (V := V) cap Hc) as (m0 & E0 & _ & _ & R0).
  destruct (c_calls_refines os fuel m0 _ ∅ R0) as (m & bk & rs & E & R & Hr);
    [by rewrite map_size_empty|done|]. by exists m0, m, bk, rs.
Qed.

Lemma map_calls_refine_witness :
  let os := [OSet "7" 70; OSet "13" 71; OGet "13"; ODel "7"; OGet "7"; OSet "7" 72; OClear] in
  ∃ m0 m bk rs, pc_map_new true true 256 = Val (Some m0) ∧
    c_calls 8 m0 os = Val (m, rs) ∧
    map_rep m bk (fst (spec_calls ∅ os)) ∧ Forall2 res_equiv rs (snd (spec_calls ∅ os)).
Proof.
  apply (map_calls_refine 256 [OSet "7" 70; OSet "13" 71; OGet "13"; ODel "7"; OGet "7";
    OSet "7" 72; OClear] 8); [done|by vm_compute|simpl; lia].
Defined.

(** Storing a key the map already holds never returns when its
    bucket holds another pair, whatever bound the loop is given: the loop
    unlinks the old pair, makes it point to itself and goes on from there. *)
Theorem map_set_shared_diverges {V} (m : pc_map_t V) bk M key value v :
  map_rep m bk M → M !! key = Some v → (1 < length (bk (bucket_of m key)))%nat →
  ∀ fuel, pc_map_set fuel true true m key value = NoFuel.
Proof. intros. by eapply set_shared_diverges. Qed.

(** Two keys of one bucket ("14" and "41" have the same hash): the second
    store of "14" diverges. *)
Lemma map_set_shared_diverges_witness :
  ∃ m0 m, pc_map_new true true 64 = Val (Some m0) ∧
    c_calls 3 m0 [OSet "14" 1; OSet "41" 2] = Val (m, [RCode 0; RCode 0]) ∧
    ∀ fuel, pc_map_set fuel true true m "14" 3 = NoFuel.
Proof.
  destruct (new_eq (V := Z) 64) as (m0 & E0 & Hc0 & _ & R0); [done|].
  destruct (c_calls_refines [OSet "14" 1; OSet "41" 2] 3 m0 _ ∅ R0) as (m & bk & rs & E & R & Hr);
    [rewrite map_size_empty; simpl; lia|by vm_compute|].
  exists m0, m. split; [exact E0|]. clear E0. split.
  { rewrite E. do 2 f_equal. inversion Hr as [|? ? ? ? H1 H2]. subst.
    inversion H2 as [|? ? ? ? H3 H4]. subst. inversion H4. subst.
    by inversion H1; inversion H3; subst. }
  cbn [spec_calls spec_call fst] in R.
  assert (bucket_of m "41" = bucket_of m "14") as Hb by done.
  destruct (rep_key _ _ _ R "14" 1) as (n1 & Hn1 & Hp1); [done|].
  destruct (rep_key _ _ _ R "41" 2) as (n2 & Hn2 & Hp2); [done|]. rewrite Hb in Hn2.
  apply (map_set_shared_diverges m bk _ "14" 3 1 R); [done|].
  destruct (bk (bucket_of m "14")) as [|a [|b l]]; [destruct (not_elem_of_nil n1 Hn1)| |simpl; lia].
  apply list_elem_of_singleton in Hn1, Hn2. congruence.
Defined.

(** The one case in which a present key can be replaced: its
    pair is alone in its bucket. The store then succeeds, the old pair is
    handed to the release callback, and the map holds the new value. *)
Theorem map_set_alone {V} (m : pc_map_t V) bk M key value v n fuel :
  map_rep m bk M → M !! key = Some v → bk (bucket_of m key) = [n] → (2 ≤ fuel)%nat →
  ∃ m' bk', pc_map_set fuel true true m key value = Val (m', 0, [(key, v)]) ∧
    map_rep m' bk' (<[key := value]> M).
Proof. apply set_alone_eq. Qed.

Lemma map_set_alone_witness :
  ∃ m0 m m' bk', pc_map_new true true 64 = Val (Some m0) ∧
    c_calls 3 m0 [OSet "a" 1] = Val (m, [RCode 0]) ∧
    pc_map_set 2 true true m "a" 5 = Val (m', 0, [("a", 1)]) ∧
    map_rep m' bk' (<["a" := 5]> {["a" := 1]}).
Proof.
  destruct (new_eq (V := Z) 64) as (m0 & E0 & Hc0 & Hp0 & R0); [done|].
  destruct (c_calls_refines [OSet "a" 1] 3 m0 _ ∅ R0) as (m & bk & rs & E & R & Hr);
    [rewrite map_size_empty; simpl; lia|by vm_compute|].
  exists m0, m. assert (∃ n, bk (bucket_of m "a") = [n]) as [n Hn].
  { clear E0. pose proof (bucket_length _ _ _ _ R (bucket_of_range m "a" (proj1 (rep_cap _ _ _ R)))) as Hl.
    rewrite (rep_size _ _ _ R) in Hl. cbn [spec_calls spec_call fst] in *.
    rewrite map_size_insert, lookup_empty, map_size_empty in Hl. simpl in Hl.
    destruct (rep_key _ _ _ R "a" 1) as (n & Hn & _); [done|].
    destruct (bk (bucket_of m "a")) as [|x [|y l]]; [destruct (not_elem_of_nil n Hn)|by exists x|].
    simpl in Hl. lia. }
  cbn [spec_calls spec_call fst] in R.
  destruct (map_set_alone m bk _ "a" 5 1 n 2 R (lookup_insert_eq _ _ _) Hn) as (m' & bk' & E' & R');
    [lia|].
  exists m', bk'. split; [exact E0|]. clear E0. split; [|split; [exact E'|exact R']].
  rewrite E. do 2 f_equal. inversion Hr as [|? ? ? ? H1 H2]. subst.
  inversion H2. subst. by inversion H1.
Defined.
