(* ===== verification/StringMap.v ===== *)
(** * What the client components expect of a string map

    The client keeps its requests and its listeners in [pc_map_t]s. The classes
    state the operations it uses and what they promise about the finite map a
    value stands for; the theorems about listeners and requests are proved
    against them, and [PcMap.v] discharges them. Allocation succeeds. A store is
    only promised for an absent key. *)

From S2P Require Import Prelude PcMap.
Local Open Scope Z_scope.

Class StringMap (M : Type → Type) := {
  sm_new : ∀ V, exec (M V);
  sm_get : ∀ V, M V → string → exec (option V);
  (** The pairs are those handed to the release callback. *)
  sm_set : ∀ V, M V → string → V → exec (M V * list (string * V));
  sm_del : ∀ V, M V → string → exec (M V * option V);
  sm_clear : ∀ V, M V → exec (M V * list (string * V));
  sm_destroy : ∀ V, M V → exec (list (string * V))
}.
Arguments sm_new {M _} V.
Arguments sm_get {M _ V} _ _.
Arguments sm_set {M _ V} _ _ _.
Arguments sm_del {M _ V} _ _.
Arguments sm_clear {M _ V} _.
Arguments sm_destroy {M _ V} _.

Class StringMapOk (M : Type → Type) `{StringMap M} := {
  sm_rep : ∀ V, M V → gmap string V → Prop;
  sm_new_ok V : ∃ m, sm_new V = Val m ∧ sm_rep V m ∅;
  sm_get_ok V m (G : gmap string V) k : sm_rep V m G → sm_get m k = Val (G !! k);
  sm_set_ok V m (G : gmap string V) k v :
    sm_rep V m G → G !! k = None → ∃ m', sm_set m k v = Val (m', []) ∧ sm_rep V m' (<[k := v]> G);
  sm_del_ok V m (G : gmap string V) k :
    sm_rep V m G → ∃ m', sm_del m k = Val (m', G !! k) ∧ sm_rep V m' (delete k G);
  sm_clear_ok V m (G : gmap string V) :
    sm_rep V m G → ∃ m' rel, sm_clear m = Val (m', rel) ∧ rel ≡ₚ map_to_list G ∧ sm_rep V m' ∅;
  sm_destroy_ok V m (G : gmap string V) :
    sm_rep V m G → ∃ rel, sm_destroy m = Val rel ∧ rel ≡ₚ map_to_list G
}.
Arguments sm_rep {M _ _ V} _ _.

(** The bound of the loops: one more than there are pairs. *)
Definition map_fuel {V} (m : pc_map_t V) : nat := S (size (pairs m)).

#[export] Instance pc_map_string_map : StringMap pc_map_t := {
  sm_new V := o ← pc_map_new true true 256; match o with Some m => Val m | None => UB end;
  sm_get V m k := pc_map_get (map_fuel m) m k;
  sm_set V m k v := '(m, _, rel) ← pc_map_set (map_fuel m) true true m k v; Val (m, rel);
  sm_del V m k := pc_map_del (map_fuel m) m k;
  sm_clear V m := pc_map_clear (map_fuel m) m;
  sm_destroy V m := pc_map_destroy (map_fuel m) m
}.

#[export] Instance pc_map_string_map_ok : StringMapOk pc_map_t.
Proof.
  refine {| sm_rep V m G := ∃ bk, map_rep m bk G |}.
  - intros V. destruct (new_eq (V := V) 256) as (m & E & _ & _ & R); [done|]. exists m. cbn [sm_new pc_map_string_map].
    rewrite E. split; [done|]. by eexists.
  - intros V m G k [bk R]. cbn [sm_get pc_map_string_map]. apply (get_eq m bk G); [done|]. unfold map_fuel.
    pose proof (bucket_length m bk G _ R (bucket_of_range m k (proj1 (rep_cap _ _ _ R)))). lia.
  - intros V m G k v [bk R] Hk. destruct (set_fresh_eq m bk G k v (map_fuel m)) as (m' & bk' & E & R');
      [done..|unfold map_fuel; lia|]. exists m'. cbn [sm_set pc_map_string_map]. rewrite E. split; [done|]. by eexists.
  - intros V m G k [bk R]. destruct (del_eq m bk G k (map_fuel m)) as (m' & bk' & E & R');
      [done|unfold map_fuel; lia|]. exists m'. split; [done|]. by eexists.
  - intros V m G [bk R]. destruct (clear_eq m bk G (map_fuel m)) as (m' & rel & E & Hp & _ & R');
      [done|unfold map_fuel; lia|]. exists m', rel. split; [done|]. split; [done|]. by eexists.
  - intros V m G [bk R]. destruct (clear_eq m bk G (map_fuel m)) as (m' & rel & E & Hp & _ & R');
      [done|unfold map_fuel; lia|]. exists rel. cbn [sm_destroy pc_map_string_map].
    unfold pc_map_destroy, pc_map_close. rewrite E. done.
Defined.
