(* ===== verification/StrBuffer.v ===== *)
(** * String buffers ([src/deps/jansson/src/strbuffer.c])

    The buffer that Jansson prints into and collects the text of a token in: a
    block that is replaced by a larger one when the text and its terminator no
    longer fit. [sb_rep B sb text] says that [sb] holds [text]; [B] bounds the
    texts it ever held, so that the sizes asked of the allocator are known.
    [malloc n] says whether an allocation of [n] bytes succeeds. *)

From S2P Require Import Prelude.
Local Open Scope Z_scope.

Definition STRBUFFER_MIN_SIZE : Z := 16.
Definition STRBUFFER_FACTOR : Z := 2.
Definition STRBUFFER_SIZE_MAX : Z := SIZE_MAX.

Record strbuffer_t := mkStrbuffer { sb_value : bytes; sb_length : Z; sb_size : Z }.

Section Operations.
Context (malloc : Z → bool).
Implicit Types (sb : strbuffer_t) (data : bytes).

(** [None] is the return value -1. *)
Definition strbuffer_init : exec (option strbuffer_t) :=
  if negb (malloc STRBUFFER_MIN_SIZE) then Val None
  else
    value ← memcpy_to (zeros STRBUFFER_MIN_SIZE) 0 [0];
    Val (Some (mkStrbuffer value 0 STRBUFFER_MIN_SIZE)).

Definition strbuffer_clear sb : exec strbuffer_t :=
  value ← memcpy_to (sb_value sb) 0 [0];
  Val (mkStrbuffer value 0 (sb_size sb)).

(** The [char *] of the buffer: its bytes up to the terminator. *)
Definition strbuffer_value sb : bytes := until_nul (sb_value sb).

(** The block replaced by one in which [size] more bytes and a terminator fit;
    [None] when there is none. *)
Definition strbuffer_grow sb (size : Z) : exec (option strbuffer_t) :=
  if (sb_size sb >? STRBUFFER_SIZE_MAX / STRBUFFER_FACTOR) || (size >? STRBUFFER_SIZE_MAX - 1)
     || (sb_length sb >? u64 (STRBUFFER_SIZE_MAX - 1 - size)) then Val None
  else
    let new_size := Z.max (u64 (sb_size sb * STRBUFFER_FACTOR)) (u64 (sb_length sb + size + 1)) in
    if negb (malloc new_size) then Val None
    else
      old ← memcpy_from (sb_value sb) 0 (sb_length sb);
      new_value ← memcpy_to (zeros new_size) 0 old;
      Val (Some (mkStrbuffer new_value (sb_length sb) new_size)).

(** The flag tells success; a buffer that cannot grow is left as it is. *)
Definition strbuffer_append_bytes sb data : exec (bool * strbuffer_t) :=
  let size := zlen data in
  grown ← (if size >=? u64 (sb_size sb - sb_length sb) then strbuffer_grow sb size else Val (Some sb));
  match grown with
  | None => Val (false, sb)
  | Some sb =>
      value ← memcpy_to (sb_value sb) (sb_length sb) data;
      let length := u64 (sb_length sb + size) in
      value ← memcpy_to value length [0];
      Val (true, mkStrbuffer value length (sb_size sb))
  end.

Definition strbuffer_append_byte sb (byte : Z) : exec (bool * strbuffer_t) :=
  strbuffer_append_bytes sb [byte].

(** The last byte, or NUL when there is none. *)
Definition strbuffer_pop sb : exec (Z * strbuffer_t) :=
  if sb_length sb >? 0 then
    let length := sb_length sb - 1 in
    c ← rd (sb_value sb) length;
    value ← memcpy_to (sb_value sb) length [0];
    Val (c, mkStrbuffer value length (sb_size sb))
  else Val (0, sb).

(** ** What a buffer holds *)

Record sb_rep (B : Z) sb (text : bytes) : Prop := {
  sb_block : ∃ junk, sb_value sb = text ++ 0 :: junk;
  sb_len : sb_length sb = zlen text;
  sb_sz : sb_size sb = zlen (sb_value sb);
  sb_bound : sb_size sb ≤ 2 * B + 16
}.

Context (Hmalloc : malloc_succeeds malloc).
Context (B : Z) (HB : 0 ≤ B < 2 ^ 61).

Lemma init_rep : ∃ sb, strbuffer_init = Val (Some sb) ∧ sb_rep B sb [].
Proof.
  unfold strbuffer_init. rewrite Hmalloc by done. eexists. split; [reflexivity|].
  split; [by eexists|done|done|]. simpl. unfold STRBUFFER_MIN_SIZE. lia.
Qed.

Lemma clear_rep sb text : sb_rep B sb text → ∃ sb', strbuffer_clear sb = Val sb' ∧ sb_rep B sb' [].
Proof.
  intros [[junk Hv] Hl Hs Hb]. unfold strbuffer_clear.
  rewrite memcpy_to_eq by (rewrite ?Hv; zl). rewrite bind_Val. eexists. split; [done|]. simpl take.
  split; cbn [sb_value sb_length sb_size]; [by eexists|done| |lia]. rewrite Hs, Hv. simpl length. autorewrite with zlen. pose proof (zlen_nonneg text). pose proof (zlen_nonneg junk). lia.
Qed.

Lemma grow_rep sb text size :
  sb_rep B sb text → 0 ≤ size → zlen text + size ≤ B → sb_size sb ≤ zlen text + size →
  ∃ sb', strbuffer_grow sb size = Val (Some sb') ∧ sb_rep B sb' text ∧ zlen text + size < sb_size sb'.
Proof.
  intros [[junk Hv] Hl Hs Hb] Hsz HtB Hgrow. unfold strbuffer_grow.
  assert (0 ≤ zlen text) by apply zlen_nonneg. assert (0 < sb_size sb) by (rewrite Hs, Hv; zl).
  unfold STRBUFFER_SIZE_MAX, STRBUFFER_FACTOR, SIZE_MAX. rewrite !wrap_small by (unfold is_u; lia).
  rewrite Hl. destruct (_ || _ || _) eqn:E.
  { change ((2 ^ 64 - 1) / 2) with (2 ^ 63 - 1) in E. blia. }
  set (n := Z.max (sb_size sb * 2) (zlen text + size + 1)).
  assert (0 ≤ n < 2 ^ 63) as Hn by (unfold n; lia). rewrite (Hmalloc n Hn). cbn [negb].
  rewrite Hv. change (text ++ 0 :: junk) with ([] ++ text ++ 0 :: junk).
  rewrite memcpy_from_middle by done. rewrite bind_Val.
  replace (zeros n) with ([] ++ zeros (zlen text) ++ 0 :: zeros (n - zlen text - 1)).
  2: { unfold zeros. cbn [app]. change (0 :: replicate ?k 0) with (replicate (S k) 0).
    rewrite <- replicate_add. f_equal. lia. }
  rewrite memcpy_to_middle; [|done|]. 2: { unfold zeros, zlen. rewrite length_replicate. lia. }
  rewrite bind_Val. eexists. split; [done|].
  split; [split; cbn|cbn; unfold n; lia]; [by eexists|done| |unfold n; lia].
  rewrite zlen_app, zlen_cons, zlen_zeros by (unfold n; lia). lia.
Qed.

(** Appending appends. *)
Lemma append_rep sb text data :
  sb_rep B sb text → zlen (text ++ data) ≤ B →
  ∃ sb', strbuffer_append_bytes sb data = Val (true, sb') ∧ sb_rep B sb' (text ++ data).
Proof.
  intros R Hd. rewrite zlen_app in Hd. pose proof (zlen_nonneg data). pose proof (zlen_nonneg text).
  unfold strbuffer_append_bytes.
  assert (∃ sb1, (if zlen data >=? u64 (sb_size sb - sb_length sb) then strbuffer_grow sb (zlen data)
    else Val (Some sb)) = Val (Some sb1) ∧ sb_rep B sb1 text ∧ zlen text + zlen data < sb_size sb1)
    as (sb1 & -> & [[junk Hv] Hl Hs Hb] & Hroom).
  { pose proof R as [[junk Hv] Hl Hs Hb]. assert (zlen text < sb_size sb) by (rewrite Hs, Hv; zl).
    rewrite wrap_small by (unfold is_u; lia).
    destruct (_ >=? _) eqn:E; b2p; [apply grow_rep; (done || lia)|exists sb; split; [done|]; split; [done|lia]]. }
  rewrite bind_Val, Hl, wrap_small by (unfold is_u; lia).
  assert (∃ gap rest, junk = gap ++ rest ∧ length gap = length data) as (gap & rest & -> & Hg).
  { rewrite Hs, Hv in Hroom. exists (take (length data) junk), (drop (length data) junk).
    rewrite take_drop. split; [done|]. rewrite length_take. zl. }
  assert (∃ gap' x, 0 :: gap = gap' ++ [x] ∧ length gap' = length data) as (gap' & x & Eg & Hg').
  { destruct (exists_last (l := 0 :: gap)) as (g & x & E); [done|]. exists g, x. split; [done|].
    apply (f_equal length) in E. rewrite length_app in E. simpl in E. lia. }
  rewrite Hv. replace (text ++ 0 :: gap ++ rest) with (text ++ gap' ++ [x] ++ rest)
    by (rewrite (app_assoc gap'), <- Eg; done).
  rewrite memcpy_to_middle by done. rewrite bind_Val, app_assoc.
  rewrite memcpy_to_middle by (done || zl). rewrite bind_Val. eexists. split; [done|].
  split; cbn; [by eexists|by rewrite zlen_app| |done].
  rewrite Hs, Hv. apply (f_equal length) in Eg. zl.
Qed.

Lemma pop_rep sb text c :
  sb_rep B sb (text ++ [c]) → ∃ sb', strbuffer_pop sb = Val (c, sb') ∧ sb_rep B sb' text.
Proof.
  intros [[junk Hv] Hl Hs Hb]. unfold strbuffer_pop. rewrite Hl, zlen_app. change (zlen [c]) with 1.
  pose proof (zlen_nonneg text). destruct (_ >? 0) eqn:E; [|blia].
  replace (zlen text + 1 - 1) with (zlen text) by lia. rewrite Hv, <- app_assoc. cbn [app].
  rewrite rd_middle by done. rewrite bind_Val.
  change (text ++ c :: 0 :: junk) with (text ++ [c] ++ 0 :: junk). rewrite memcpy_to_middle by done.
  rewrite bind_Val. eexists. split; [done|]. split; cbn; [by eexists|done| |done]. rewrite Hs, Hv. zl.
Qed.

(** The C string of a buffer whose text has no NUL is the text. *)
Lemma value_rep sb text : sb_rep B sb text → Forall (λ b, b ≠ 0) text → strbuffer_value sb = text.
Proof.
  intros [[junk Hv] _ _ _] Hn. unfold strbuffer_value. rewrite Hv. clear Hv. induction Hn as [|b text Hb _ IH]; [done|].
  simpl. by rewrite (proj2 (Z.eqb_neq b 0)), IH.
Qed.
End Operations.
