(* ===== verification/Float.v ===== *)
(** * IEEE 754 numbers, as their bit patterns

    [float] and [double] as the conversions of the protobuf codec use them: a
    finite number is sign, mantissa and exponent (the value
    [m * 2 ^ e]); [encode_fp] rounds to nearest, ties to even. [mw] is the
    width of the fraction, [ew] that of the exponent. *)

From S2P Require Import Prelude.
Local Open Scope Z_scope.

Record format := mkFormat { mw : Z; ew : Z }.

Definition binary32 : format := mkFormat 23 8.
Definition binary64 : format := mkFormat 52 11.

Definition bias (f : format) : Z := 2 ^ (ew f - 1) - 1.
(** The exponent of the last bit of a subnormal number. *)
Definition emin (f : format) : Z := 1 - bias f - mw f.

Inductive fpval := Finite (neg : bool) (m e : Z) | Infinite (neg : bool) | NaN.

#[export] Instance fpval_eq_dec : EqDecision fpval.
Proof. solve_decision. Defined.

(** [m / 2 ^ s] to the nearest integer, ties to even. *)
Definition round_ne (m s : Z) : Z :=
  if s <=? 0 then m * 2 ^ (- s)
  else
    let q := m / 2 ^ s in
    let r := m mod 2 ^ s in
    match r ?= 2 ^ (s - 1) with
    | Lt => q
    | Gt => q + 1
    | Eq => if Z.even q then q else q + 1
    end.

Definition sign_bit (f : format) (neg : bool) : Z := if neg then 2 ^ (mw f + ew f) else 0.

Definition inf_bits (f : format) : Z := (2 ^ ew f - 1) * 2 ^ mw f.

(** The exponent of the last bit of [m * 2 ^ e]. *)
Definition last_exp (f : format) (m e : Z) : Z := Z.max (e + Z.log2 m - mw f) (emin f).

(** A carry of the rounding moves into the exponent field by itself. *)
Definition encode_mag (f : format) (m e : Z) : Z :=
  if m =? 0 then 0
  else
    let E := last_exp f m e in
    Z.min ((E - emin f) * 2 ^ mw f + round_ne m (E - e)) (inf_bits f).

Definition encode_fp (f : format) (v : fpval) : Z :=
  match v with
  | Finite neg m e => sign_bit f neg + encode_mag f m e
  | Infinite neg => sign_bit f neg + inf_bits f
  | NaN => inf_bits f + 2 ^ (mw f - 1)
  end.

Definition decode_fp (f : format) (bits : Z) : fpval :=
  let neg := Z.testbit bits (mw f + ew f) in
  let ex := (bits / 2 ^ mw f) mod 2 ^ ew f in
  let frac := bits mod 2 ^ mw f in
  if ex =? 2 ^ ew f - 1 then (if frac =? 0 then Infinite neg else NaN)
  else if ex =? 0 then Finite neg frac (emin f)
  else Finite neg (2 ^ mw f + frac) (emin f + ex - 1).

(** ** The conversions of the code *)

(** [(double)n] for an integer. *)
Definition double_of_int (n : Z) : Z := encode_fp binary64 (Finite (n <? 0) (Z.abs n) 0).

(** [(T)d] for an integer type [T]: truncation, undefined outside the range
    [lo, hi] of [T]. *)
Definition int_of_double (lo hi d : Z) : exec Z :=
  match decode_fp binary64 d with
  | Finite neg m e =>
      let n := if 0 <=? e then m * 2 ^ e else m / 2 ^ (- e) in
      let n := if neg : bool then - n else n in
      if (lo <=? n) && (n <=? hi) then Val n else UB
  | _ => UB
  end.

(** [(float)d] and [(double)f]. *)
Definition float_of_double (d : Z) : Z := encode_fp binary32 (decode_fp binary64 d).
Definition double_of_float (x : Z) : Z := encode_fp binary64 (decode_fp binary32 x).

Definition is_finite (f : format) (bits : Z) : bool :=
  match decode_fp f bits with Finite _ _ _ => true | _ => false end.

(** 1.0, 0.1, 2^53 + 1, -3, the largest double, the least subnormal float. *)
Example float_examples :
  double_of_int 1 = 0x3ff0000000000000 ∧
  float_of_double 0x3fb999999999999a = 0x3dcccccd ∧
  double_of_int (2 ^ 53 + 1) = double_of_int (2 ^ 53) ∧
  double_of_int (-3) = 0xc008000000000000 ∧
  float_of_double 0x7fefffffffffffff = inf_bits binary32 ∧
  double_of_float 1 = 0x36a0000000000000 ∧
  float_of_double 0x36a0000000000000 = 1 ∧
  int_of_double (- 2 ^ 63) (2 ^ 63 - 1) 0xc00c000000000000 = Val (-3).
Proof. by vm_compute. Qed.

(** ** Exactness *)

(** [m * 2 ^ e] needs no rounding in [f]. *)
Definition representable (f : format) (m e : Z) : Prop :=
  0 ≤ m ∧ (m = 0 ∨ last_exp f m e ≤ e ∨ (2 ^ (last_exp f m e - e) | m)) ∧
  encode_mag f m e < inf_bits f.

Lemma round_ne_exact m s :
  0 ≤ m → s ≤ 0 ∨ (2 ^ s | m) → round_ne m s = if s <=? 0 then m * 2 ^ (- s) else m / 2 ^ s.
Proof.
  intros Hm Hs. unfold round_ne. destruct (Z.leb_spec s 0); [done|].
  destruct Hs as [?|[k ->]]; [lia|]. rewrite Z_mod_mult.
  assert (0 < 2 ^ (s - 1)) by (apply Z.pow_pos_nonneg; lia).
  by destruct (Z.compare_spec 0 (2 ^ (s - 1))); try lia.
Qed.

Class FormatOk (f : format) : Prop := { mw_pos : 1 ≤ mw f; ew_pos : 2 ≤ ew f }.

#[export] Instance binary32_ok : FormatOk binary32.
Proof. split; done. Qed.
#[export] Instance binary64_ok : FormatOk binary64.
Proof. split; done. Qed.

Section Exact.
Context (f : format) `{!FormatOk f}.

(** The fields of a bit pattern put together from them. *)
Lemma decode_fields neg ex frac :
  0 ≤ ex < 2 ^ ew f → 0 ≤ frac < 2 ^ mw f →
  let bits := sign_bit f neg + ex * 2 ^ mw f + frac in
  Z.testbit bits (mw f + ew f) = neg ∧ (bits / 2 ^ mw f) mod 2 ^ ew f = ex ∧
  bits mod 2 ^ mw f = frac.
Proof.
  intros Hex Hfr bits. pose proof mw_pos. pose proof ew_pos.
  assert (0 < 2 ^ mw f) by (apply Z.pow_pos_nonneg; lia).
  assert (0 < 2 ^ ew f) by (apply Z.pow_pos_nonneg; lia).
  assert (bits = ((if neg then 1 else 0) * 2 ^ ew f + ex) * 2 ^ mw f + frac) as ->.
  { unfold bits, sign_bit. destruct neg; rewrite ?Z.pow_add_r by lia; lia. }
  split; [|split].
  - apply Z.b2z_inj. rewrite Z.testbit_spec' by lia.
    rewrite Z.pow_add_r, <- Z.div_div by lia. rewrite Z.div_add_l, (Z.div_small frac), Z.add_0_r by lia.
    rewrite Z.div_add_l, (Z.div_small ex) by lia. by destruct neg.
  - rewrite Z.div_add_l, (Z.div_small frac), Z.add_0_r by lia.
    by rewrite Z.add_comm, Z_mod_plus_full, Z.mod_small.
  - by rewrite Z.add_comm, Z_mod_plus_full, Z.mod_small.
Qed.

(** A canonical finite number of [f]. *)
Definition canonical (q e : Z) : Prop :=
  0 ≤ q < 2 ^ (mw f + 1) ∧ emin f ≤ e ∧ (e = emin f ∨ 2 ^ mw f ≤ q) ∧
  (e - emin f) * 2 ^ mw f + q < inf_bits f.

Lemma decode_canonical neg q e :
  canonical q e → decode_fp f (sign_bit f neg + ((e - emin f) * 2 ^ mw f + q)) = Finite neg q e.
Proof.
  intros (Hq & He & Hn & Hinf). pose proof mw_pos. pose proof ew_pos.
  assert (0 < 2 ^ mw f) by (apply Z.pow_pos_nonneg; lia).
  assert (2 ≤ 2 ^ ew f) by (change 2 with (2 ^ 1) at 1; apply Z.pow_le_mono_r; lia).
  rewrite Z.pow_add_r in Hq by lia. change (2 ^ 1) with 2 in Hq.
  unfold inf_bits in Hinf. unfold decode_fp.
  destruct (Z.ltb_spec q (2 ^ mw f)).
  - assert (e = emin f) as -> by lia. rewrite Z.sub_diag, Z.add_assoc.
    destruct (decode_fields neg 0 q) as (-> & -> & ->); [lia..|].
    rewrite (proj2 (Z.eqb_neq _ _)) by lia. done.
  - set (ex := e - emin f + 1).
    replace (sign_bit f neg + ((e - emin f) * 2 ^ mw f + q))
      with (sign_bit f neg + ex * 2 ^ mw f + (q - 2 ^ mw f)) by lia.
    assert (ex * 2 ^ mw f < (2 ^ ew f - 1) * 2 ^ mw f) as Hex by lia.
    apply Z.mul_lt_mono_pos_r in Hex; [|lia].
    destruct (decode_fields neg ex (q - 2 ^ mw f)) as (-> & -> & ->); [lia..|].
    rewrite !(proj2 (Z.eqb_neq _ _)) by lia. f_equal; lia.
Qed.

Lemma pow2_log2 m : 0 < m → 2 ^ Z.log2 m ≤ m < 2 * 2 ^ Z.log2 m.
Proof. intros Hm. pose proof (Z.log2_spec m Hm). rewrite Z.pow_succ_r in *; [lia|]. apply Z.log2_nonneg. Qed.

(** [q], the mantissa of [m * 2 ^ e] at its last bit, without rounding. *)
Lemma representable_canonical m e :
  representable f m e → 0 < m →
  let E := last_exp f m e in
  let q := round_ne m (E - e) in
  canonical q E ∧ q * 2 ^ Z.max 0 (E - e) = m * 2 ^ Z.max 0 (e - E).
Proof.
  intros (_ & Hd & Hinf) Hm E q. pose proof mw_pos.
  assert (q = if E - e <=? 0 then m * 2 ^ (- (E - e)) else m / 2 ^ (E - e)) as Eq.
  { unfold q. apply round_ne_exact; [lia|]. fold E in Hd. destruct Hd as [?|[?|?]]; [lia|left; lia|by right]. }
  assert (q * 2 ^ Z.max 0 (E - e) = m * 2 ^ Z.max 0 (e - E)) as Hqm.
  { rewrite Eq. destruct (Z.leb_spec (E - e) 0).
    - rewrite (Z.max_l 0 (E - e)), (Z.max_r 0 (e - E)) by lia. rewrite Z.pow_0_r, Z.mul_1_r.
      do 2 f_equal. lia.
    - rewrite (Z.max_r 0 (E - e)), (Z.max_l 0 (e - E)) by lia. rewrite Z.pow_0_r, Z.mul_1_r.
      assert (2 ^ (E - e) ≠ 0) by (apply Z.pow_nonzero; lia).
      fold E in Hd. destruct Hd as [?|[?|Hd]]; [lia..|]. apply Z.mod_divide in Hd; [|done].
      rewrite Z.mul_comm. symmetry. by apply Z.div_exact. }
  split; [|done]. unfold encode_mag in Hinf. rewrite (proj2 (Z.eqb_neq m 0)) in Hinf by lia.
  cbv zeta in Hinf. fold E in Hinf. fold q in Hinf.
  pose proof (pow2_log2 m Hm) as Hlog. pose proof (Z.log2_nonneg m) as Hl0.
  set (a := Z.max 0 (E - e)) in *. set (b := Z.max 0 (e - E)) in *.
  assert (0 < 2 ^ a) by (apply Z.pow_pos_nonneg; lia).
  assert (0 < 2 ^ b) by (apply Z.pow_pos_nonneg; lia).
  assert (0 < 2 ^ mw f) by (apply Z.pow_pos_nonneg; lia).
  assert (e + Z.log2 m - mw f ≤ E ∧ emin f ≤ E ∧ (E = emin f ∨ E = e + Z.log2 m - mw f)) as (HE1 & HE2 & HE3)
    by (unfold E, last_exp; lia).
  split; [split|split; [|split]].
  - apply (Z.mul_le_mono_pos_r _ _ (2 ^ a)); [done|]. rewrite Hqm. nia.
  - apply (Z.mul_lt_mono_pos_r (2 ^ a)); [lia|]. rewrite Hqm, <- Z.pow_add_r by lia.
    apply (Z.lt_le_trans _ (2 ^ (Z.log2 m + 1) * 2 ^ b)).
    + apply Z.mul_lt_mono_pos_r; [lia|]. rewrite Z.pow_add_r by lia. lia.
    + rewrite <- Z.pow_add_r by lia. apply Z.pow_le_mono_r; lia.
  - done.
  - destruct HE3 as [|HE3]; [by left|right]. apply (Z.mul_le_mono_pos_r _ _ (2 ^ a)); [lia|].
    rewrite Hqm, <- Z.pow_add_r by lia. apply (Z.le_trans _ (2 ^ Z.log2 m * 2 ^ b)).
    + rewrite <- Z.pow_add_r by lia. apply Z.pow_le_mono_r; lia.
    + apply Z.mul_le_mono_nonneg_r; lia.
  - lia.
Qed.

Lemma encode_canonical m e :
  representable f m e → 0 < m →
  encode_mag f m e = (last_exp f m e - emin f) * 2 ^ mw f + round_ne m (last_exp f m e - e).
Proof.
  intros (_ & _ & Hinf) Hm. unfold encode_mag in *. rewrite (proj2 (Z.eqb_neq m 0)) in * by lia.
  cbv zeta in *. lia.
Qed.

(** A representable number comes back with its value. *)
Lemma decode_encode neg m e :
  representable f m e →
  ∃ q E, decode_fp f (encode_fp f (Finite neg m e)) = Finite neg q E ∧
    q * 2 ^ Z.max 0 (E - e) = m * 2 ^ Z.max 0 (e - E).
Proof.
  intros Hr. cbn [encode_fp]. destruct (Z.eqb_spec m 0) as [->|Hm].
  - exists 0, (emin f). unfold encode_mag. rewrite Z.eqb_refl.
    replace 0 with ((emin f - emin f) * 2 ^ mw f + 0) at 1 by lia.
    rewrite decode_canonical; [done|]. pose proof mw_pos. pose proof ew_pos.
    assert (0 < 2 ^ mw f) by (apply Z.pow_pos_nonneg; lia).
    assert (2 ≤ 2 ^ ew f) by (change 2 with (2 ^ 1) at 1; apply Z.pow_le_mono_r; lia).
    unfold canonical, inf_bits. rewrite Z.pow_add_r by lia. change (2 ^ 1) with 2. split; [lia|]. split; [lia|]. split; [lia|]. nia.
  - assert (0 < m) as Hm' by (destruct Hr; lia).
    destruct (representable_canonical m e Hr Hm') as [Hc Hv].
    eexists _, _. split; [|exact Hv]. rewrite encode_canonical by done. by apply decode_canonical.
Qed.
End Exact.

(** ** Conversions that lose nothing *)

Lemma representable_int n : 0 ≤ n ≤ 2 ^ 53 → representable binary64 n 0.
Proof.
  intros Hn. destruct (decide (n = 2 ^ 53)) as [->|Hne].
  { split; [done|]. split; [right; right; by exists (2 ^ 52)|done]. }
  destruct (Z.eqb_spec n 0) as [->|Hn0]; [split; [done|]; split; [by left|done]|].
  pose proof (pow2_log2 n ltac:(lia)) as Hl. pose proof (Z.log2_nonneg n).
  assert (Z.log2 n < 53) by (apply Z.log2_lt_pow2; lia).
  assert (last_exp binary64 n 0 = Z.log2 n - 52) as HE.
  { unfold last_exp. change (emin binary64) with (-1074). change (mw binary64) with 52. lia. }
  split; [lia|]. split; [right; left; rewrite HE; lia|].
  unfold encode_mag. rewrite (proj2 (Z.eqb_neq n 0)) by done. cbv zeta. rewrite HE.
  rewrite round_ne_exact by lia. rewrite (proj2 (Z.leb_le _ _)) by lia.
  change (emin binary64) with (-1074). change (mw binary64) with 52.
  change (inf_bits binary64) with (2047 * 2 ^ 52).
  assert (n * 2 ^ (52 - Z.log2 n) < 2 * 2 ^ 52).
  { replace (2 ^ 52) with (2 ^ Z.log2 n * 2 ^ (52 - Z.log2 n))
      by (rewrite <- Z.pow_add_r by lia; f_equal; lia).
    assert (0 < 2 ^ (52 - Z.log2 n)) by (apply Z.pow_pos_nonneg; lia). nia. }
  replace (- (Z.log2 n - 52 - 0)) with (52 - Z.log2 n) by lia. lia.
Qed.

(** An integer of at most 53 bits survives a trip through a double. *)
Lemma int_double_int n lo hi :
  - 2 ^ 53 ≤ n ≤ 2 ^ 53 → lo ≤ n ≤ hi → int_of_double lo hi (double_of_int n) = Val n.
Proof.
  intros Hn Hb. unfold double_of_int, int_of_double.
  destruct (decode_encode binary64 (n <? 0) (Z.abs n) 0) as (q & E & -> & Hv);
    [apply representable_int; lia|].
  assert ((if 0 <=? E then q * 2 ^ E else q / 2 ^ (- E)) = Z.abs n) as ->.
  { rewrite Z.sub_0_r, Z.sub_0_l in Hv. destruct (Z.leb_spec 0 E).
    - rewrite (Z.max_r 0 E), (Z.max_l 0 (- E)), Z.pow_0_r in Hv by lia. lia.
    - rewrite (Z.max_l 0 E), (Z.max_r 0 (- E)), Z.pow_0_r, Z.mul_1_r in Hv by lia.
      rewrite Hv. apply Z.div_mul, Z.pow_nonzero; lia. }
  assert ((if n <? 0 then - Z.abs n else Z.abs n) = n) as -> by (destruct (Z.ltb_spec n 0); lia).
  destruct (_ && _) eqn:Eb; [done|blia].
Qed.

(** Every finite pattern is canonical. *)
Lemma decode_finite f `{!FormatOk f} bits neg m e :
  is_u (mw f + ew f + 1) bits → decode_fp f bits = Finite neg m e →
  canonical f m e ∧ bits = sign_bit f neg + ((e - emin f) * 2 ^ mw f + m).
Proof.
  intros Hb. pose proof mw_pos. pose proof ew_pos.
  assert (0 < 2 ^ mw f) as HM by (apply Z.pow_pos_nonneg; lia).
  assert (2 ≤ 2 ^ ew f) as HW by (change 2 with (2 ^ 1) at 1; apply Z.pow_le_mono_r; lia).
  unfold is_u in Hb. rewrite !Z.pow_add_r in Hb by lia. change (2 ^ 1) with 2 in Hb.
  set (ex := (bits / 2 ^ mw f) mod 2 ^ ew f). set (fr := bits mod 2 ^ mw f).
  assert (0 ≤ fr < 2 ^ mw f) by (apply Z.mod_pos_bound; lia).
  assert (0 ≤ ex < 2 ^ ew f) by (apply Z.mod_pos_bound; lia).
  assert (bits = sign_bit f (Z.testbit bits (mw f + ew f)) + ex * 2 ^ mw f + fr) as Ebits.
  { set (t := Z.testbit bits (mw f + ew f)).
    assert (bits / 2 ^ mw f / 2 ^ ew f = Z.b2z t) as Ht.
    { unfold t. rewrite Z.testbit_spec', Z.pow_add_r, <- Z.div_div by lia.
      symmetry. apply Z.mod_small. split; [repeat apply Z.div_pos; lia|].
      apply Z.div_lt_upper_bound; [lia|]. apply Z.div_lt_upper_bound; lia. }
    pose proof (Z.div_mod bits (2 ^ mw f) ltac:(lia)) as D1. fold fr in D1.
    pose proof (Z.div_mod (bits / 2 ^ mw f) (2 ^ ew f) ltac:(lia)) as D2. fold ex in D2.
    rewrite Ht in D2. rewrite D2 in D1. unfold sign_bit. rewrite Z.pow_add_r by lia.
    destruct t; simpl in D1; lia. }
  unfold decode_fp. fold ex fr.
  destruct (Z.eqb_spec ex (2 ^ ew f - 1)); [by case_match|].
  unfold canonical, inf_bits. rewrite Z.pow_add_r by lia. change (2 ^ 1) with 2.
  destruct (Z.eqb_spec ex 0) as [E0|]; intros [= <- <- <-].
  - split; [|rewrite Ebits at 1; lia]. split; [lia|]. split; [lia|]. split; [lia|]. nia.
  - split; [|rewrite Ebits at 1; lia]. split; [lia|]. split; [lia|]. split; [lia|]. nia.
Qed.

(** A finite float survives a trip through a double. *)
Lemma float_double_float x :
  is_u 32 x → is_finite binary32 x = true →
  float_of_double (double_of_float x) = x ∧ is_finite binary64 (double_of_float x) = true.
Proof.
  unfold is_finite. destruct (decode_fp binary32 x) as [neg m e|?|] eqn:Hx; try done. intros Hu _.
  destruct (decode_finite binary32 x neg m e Hu Hx) as [(Hm & He & Hn & Hinf) ->].
  unfold double_of_float. rewrite Hx.
  change (mw binary32) with 23 in *. change (ew binary32) with 8 in *.
  change (emin binary32) with (-149) in *. change (inf_bits binary32) with (255 * 2 ^ 23) in *.
  assert (e ≤ 104) as He' by lia.
  destruct (Z.eqb_spec m 0) as [->|Hm0].
  { assert (e = -149) as -> by lia. by destruct neg. }
  pose proof (pow2_log2 m ltac:(lia)) as Hl. pose proof (Z.log2_nonneg m) as Hl0.
  assert (Z.log2 m < 24) by (apply Z.log2_lt_pow2; lia).
  assert (last_exp binary64 m e = e + Z.log2 m - 52) as HE.
  { unfold last_exp. change (emin binary64) with (-1074). change (mw binary64) with 52. lia. }
  assert (representable binary64 m e) as Hr.
  { split; [lia|]. split; [right; left; lia|]. unfold encode_mag.
    rewrite (proj2 (Z.eqb_neq m 0)) by done. cbv zeta. rewrite HE, round_ne_exact by lia.
    rewrite (proj2 (Z.leb_le _ _)) by lia.
    change (emin binary64) with (-1074). change (mw binary64) with 52.
    change (inf_bits binary64) with (2047 * 2 ^ 52).
    assert (m * 2 ^ (52 - Z.log2 m) < 2 * 2 ^ 52).
    { replace (2 ^ 52) with (2 ^ Z.log2 m * 2 ^ (52 - Z.log2 m))
        by (rewrite <- Z.pow_add_r by lia; f_equal; lia).
      assert (0 < 2 ^ (52 - Z.log2 m)) by (apply Z.pow_pos_nonneg; lia). nia. }
    replace (- (e + Z.log2 m - 52 - e)) with (52 - Z.log2 m) by lia. lia. }
  cbn [encode_fp]. rewrite encode_canonical by (done || lia).
  destruct (representable_canonical binary64 m e Hr) as [Hc Hv]; [lia|]. cbv zeta in Hc, Hv.
  unfold float_of_double. rewrite decode_canonical by (done || apply _). split; [|done].
  rewrite HE in *. set (k := 52 - Z.log2 m).
  assert (round_ne m (e + Z.log2 m - 52 - e) = m * 2 ^ k) as ->.
  { rewrite round_ne_exact by lia. rewrite (proj2 (Z.leb_le _ _)) by lia. do 2 f_equal. lia. }
  cbn [encode_fp]. f_equal. unfold encode_mag.
  assert (0 < 2 ^ k) by (apply Z.pow_pos_nonneg; lia).
  rewrite (proj2 (Z.eqb_neq _ 0)) by nia. cbv zeta.
  assert (last_exp binary32 (m * 2 ^ k) (e + Z.log2 m - 52) = e) as ->.
  { unfold last_exp. rewrite Z.log2_mul_pow2 by lia.
    change (emin binary32) with (-149). change (mw binary32) with 23.
    destruct Hn as [->|Hn]; [lia|]. assert (23 ≤ Z.log2 m) by (apply Z.log2_le_pow2; lia). lia. }
  replace (e - (e + Z.log2 m - 52)) with k by lia.
  rewrite round_ne_exact; [|nia|right; by exists m].
  rewrite (proj2 (Z.leb_gt _ _)) by lia. rewrite Z.div_mul by lia.
  change (emin binary32) with (-149). change (mw binary32) with 23.
  change (inf_bits binary32) with (255 * 2 ^ 23). lia.
Qed.
