(* ===== verification/Utf8.v ===== *)
(** * UTF-8 ([src/deps/jansson/src/utf.c])

    Checking, decoding and encoding. A pointer into a C string is the list of the
    bytes from it up to the terminator. [is_char c cp] says that the bytes [c] are
    the sequence of the code point [cp]; [valid] text is a sequence of those. *)

From S2P Require Import Prelude.
Local Open Scope Z_scope.

(** [None] is the return value -1. *)
Definition utf8_encode (codepoint : Z) : option bytes :=
  if codepoint <? 0 then None
  else if codepoint <? 0x80 then Some [codepoint]
  else if codepoint <? 0x800 then
    Some [0xC0 + Z.shiftr (Z.land codepoint 0x7C0) 6; 0x80 + Z.land codepoint 0x03F]
  else if codepoint <? 0x10000 then
    Some [0xE0 + Z.shiftr (Z.land codepoint 0xF000) 12; 0x80 + Z.shiftr (Z.land codepoint 0x0FC0) 6;
          0x80 + Z.land codepoint 0x003F]
  else if codepoint <=? 0x10FFFF then
    Some [0xF0 + Z.shiftr (Z.land codepoint 0x1C0000) 18; 0x80 + Z.shiftr (Z.land codepoint 0x03F000) 12;
          0x80 + Z.shiftr (Z.land codepoint 0x000FC0) 6; 0x80 + Z.land codepoint 0x00003F]
  else None.

Definition utf8_check_first (u : Z) : Z :=
  if u <? 0x80 then 1
  else if (0x80 <=? u) && (u <=? 0xBF) then 0
  else if (u =? 0xC0) || (u =? 0xC1) then 0
  else if (0xC2 <=? u) && (u <=? 0xDF) then 2
  else if (0xE0 <=? u) && (u <=? 0xEF) then 3
  else if (0xF0 <=? u) && (u <=? 0xF4) then 4
  else 0.

(** The loop over the continuation bytes; [None] when one is not. *)
Fixpoint utf8_continue (n : nat) (value : Z) (s : bytes) : option Z :=
  match n, s with
  | O, _ => Some value
  | S n, u :: s =>
      if (u <? 0x80) || (u >? 0xBF) then None
      else utf8_continue n (Z.shiftl value 6 + Z.land u 0x3F) s
  | S _, [] => None
  end.

(** The code point is stored through a pointer when the result is 1. *)
Definition utf8_check_full (s : bytes) (size : Z) : option Z :=
  match s with
  | [] => None
  | u :: rest =>
      let start :=
        if size =? 2 then Some (Z.land u 0x1F)
        else if size =? 3 then Some (Z.land u 0xF)
        else if size =? 4 then Some (Z.land u 0x7) else None in
      match start with
      | None => None
      | Some value =>
          match utf8_continue (Z.to_nat (size - 1)) value rest with
          | None => None
          | Some value =>
              if value >? 0x10FFFF then None
              else if (0xD800 <=? value) && (value <=? 0xDFFF) then None
              else if ((size =? 2) && (value <? 0x80)) || ((size =? 3) && (value <? 0x800))
                      || ((size =? 4) && (value <? 0x10000)) then None
              else Some value
          end
      end
  end.

(** The pointer after the first character and its code point; [None] is NULL. At
    the terminator the pointer is returned and no code point is stored. *)
Definition utf8_iterate (buffer : bytes) : option (bytes * option Z) :=
  match buffer with
  | [] => Some (buffer, None)
  | u :: _ =>
      let count := utf8_check_first u in
      if count <=? 0 then None
      else if count =? 1 then Some (drop (Z.to_nat count) buffer, Some u)
      else
        match utf8_check_full buffer count with
        | None => None
        | Some value => Some (drop (Z.to_nat count) buffer, Some value)
        end
  end.

(** [skip] bytes of a checked sequence are left to pass ([i += count - 1]). *)
Fixpoint utf8_check_from (skip : nat) (s : bytes) : bool :=
  match s with
  | [] => true
  | u :: rest =>
      match skip with
      | S skip => utf8_check_from skip rest
      | O =>
          let count := utf8_check_first u in
          if count =? 0 then false
          else if count >? 1 then
            if zlen s <? count then false
            else match utf8_check_full s count with
                 | None => false
                 | Some _ => utf8_check_from (Z.to_nat (count - 1)) rest
                 end
          else utf8_check_from 0 rest
      end
  end.

Definition utf8_check_string (s : string) : bool := utf8_check_from 0 (bytes_of s).

Example utf8_examples :
  utf8_check_string (string_of [0x61; 0xC3; 0xA9; 0xE2; 0x82; 0xAC]) = true ∧
  utf8_check_string (string_of [0xED; 0xA0; 0x80]) = false ∧
  utf8_check_string (string_of [0xC3]) = false.
Proof. by vm_compute. Qed.

(** ASCII is UTF-8. *)
Lemma utf8_ascii s : Forall (λ b, 0 ≤ b < 128) (bytes_of s) → utf8_check_string s = true.
Proof.
  unfold utf8_check_string. generalize (bytes_of s) as l. induction l as [|u l IH]; [done|].
  intros [Hu Hl]%Forall_cons_1. cbn [utf8_check_from]. unfold utf8_check_first.
  rewrite (proj2 (Z.ltb_lt u 0x80)) by lia. simpl. by apply IH.
Qed.

(** ** Characters *)

Abbreviation valid := (λ bs, utf8_check_from 0 bs = true).

Definition is_char (c : bytes) (cp : Z) : Prop :=
  (c = [cp] ∧ 0 ≤ cp < 0x80) ∨
  (∃ u l, c = u :: l ∧ utf8_check_first u = zlen c ∧ 2 ≤ zlen c ∧ utf8_check_full c (zlen c) = Some cp).

Lemma check_first_range u : utf8_check_first u = 0 ∨ 1 ≤ utf8_check_first u ≤ 4.
Proof. unfold utf8_check_first. repeat case_match; lia. Qed.

Lemma continue_app n : ∀ value s t, (n ≤ length s)%nat → utf8_continue n value (s ++ t) = utf8_continue n value s.
Proof.
  induction n as [|n IH]; intros value s t Hn; [by destruct s, t|]. destruct s as [|u s]; [simpl in Hn; lia|].
  simpl. case_match; [done|]. apply IH. simpl in Hn. lia.
Qed.

(** Only the sequence itself is looked at. *)
Lemma check_full_app c t size :
  c ≠ [] → Z.to_nat size = length c → utf8_check_full (c ++ t) size = utf8_check_full c size.
Proof.
  intros Hc Hs. destruct c as [|u l]; [done|]. cbn [utf8_check_full app]. case_match; [|done].
  rewrite continue_app; [done|]. simpl in Hs. lia.
Qed.

Lemma check_full_size s size cp : utf8_check_full s size = Some cp → 2 ≤ size ≤ 4.
Proof.
  unfold utf8_check_full. destruct s; [done|]. destruct (Z.eqb_spec size 2), (Z.eqb_spec size 3), (Z.eqb_spec size 4); try lia; done.
Qed.

Lemma check_from_skip n : ∀ s t, length s = n → utf8_check_from n (s ++ t) = utf8_check_from 0 t.
Proof. induction n as [|n IH]; intros [|u s] t Hl; try done. simpl. apply IH. simpl in Hl. lia. Qed.

Lemma char_length c cp : is_char c cp → 1 ≤ zlen c ≤ 4.
Proof.
  intros [[-> _]|(u & l & -> & Hf & Hl & _)]; [done|]. pose proof (check_first_range u). lia.
Qed.

(** A character in front of valid text. *)
Lemma valid_char c cp t : is_char c cp → valid t → valid (c ++ t).
Proof.
  intros [[-> Hcp]|(u & l & -> & Hf & Hl & Hc)] Ht.
  - cbn [app utf8_check_from]. unfold utf8_check_first. by rewrite (proj2 (Z.ltb_lt cp 0x80)) by lia.
  - cbn [app utf8_check_from]. rewrite Hf. rewrite (proj2 (Z.eqb_neq _ _)) by lia.
    rewrite (proj2 (Z.gtb_lt _ _)) by lia. rewrite (proj2 (Z.ltb_ge _ _)) by (unfold zlen; simpl; rewrite length_app; lia).
    change (u :: l ++ t) with ((u :: l) ++ t). rewrite check_full_app by (done || unfold zlen; lia). rewrite Hc.
    rewrite check_from_skip by (unfold zlen; simpl; lia). done.
Qed.

Lemma valid_tail c cp t : is_char c cp → valid (c ++ t) → valid t.
Proof.
  intros [[-> Hcp]|(u & l & -> & Hf & Hl & Hc)] Hv; cbn [app utf8_check_from] in Hv.
  - unfold utf8_check_first in Hv. by rewrite (proj2 (Z.ltb_lt cp 0x80)) in Hv by lia.
  - rewrite Hf in Hv. rewrite (proj2 (Z.eqb_neq _ _)), (proj2 (Z.gtb_lt _ _)) in Hv by lia.
    destruct (zlen _ <? zlen _); [done|]. destruct (utf8_check_full (u :: l ++ t) _); [|done].
    by rewrite check_from_skip in Hv by (unfold zlen; simpl; lia).
Qed.

(** Valid text is empty or starts with a character. *)
Lemma valid_inv bs : Forall is_byte bs → valid bs → bs = [] ∨ ∃ c cp t, bs = c ++ t ∧ is_char c cp ∧ valid t.
Proof.
  intros Hb Hv. destruct bs as [|u s]; [by left|right]. cbn [utf8_check_from] in Hv.
  apply Forall_cons in Hb as [Hu Hb].
  pose proof (check_first_range u) as Hr. destruct (Z.eqb_spec (utf8_check_first u) 0) as [|H0]; [done|].
  destruct (utf8_check_first u >? 1) eqn:E1.
  - destruct (Z.ltb_spec (zlen (u :: s)) (utf8_check_first u)) as [|Hlen]; [done|].
    destruct (utf8_check_full (u :: s) (utf8_check_first u)) as [cp|] eqn:Ef; [|done].
    set (n := Z.to_nat (utf8_check_first u - 1)) in *.
    assert (u :: s = (u :: take n s) ++ drop n s) as Es by (simpl; by rewrite take_drop).
    assert (length (take n s) = n) as Hn by (rewrite length_take; unfold zlen in Hlen; simpl in Hlen; lia).
    exists (u :: take n s), cp, (drop n s). split; [done|]. split.
    + right. exists u, (take n s). assert (zlen (u :: take n s) = utf8_check_first u) as ->
        by (unfold zlen; simpl; rewrite Hn; blia).
      split; [done|]. split; [done|]. split; [blia|]. rewrite Es, check_full_app in Ef; [done..|].
      simpl. rewrite Hn. blia.
    + rewrite <- (take_drop n s), check_from_skip in Hv; done.
  - exists [u], u, s. split; [done|]. split; [|done]. left. split; [done|].
    assert (utf8_check_first u = 1) as Hf by blia. unfold utf8_check_first in Hf. unfold is_u in Hu.
    destruct (Z.ltb_spec u 0x80); [lia|]. by repeat case_match.
Qed.

(** Induction over the characters of valid text. *)
Lemma valid_ind (P : bytes → Prop) :
  P [] → (∀ c cp t, is_char c cp → valid t → P t → P (c ++ t)) →
  ∀ bs, Forall is_byte bs → valid bs → P bs.
Proof.
  intros H0 H1 bs. remember (length bs) as n eqn:E. revert bs E.
  induction (lt_wf n) as [n _ IH]. intros bs -> Hb Hv.
  destruct (valid_inv bs Hb Hv) as [->|(c & cp & t & -> & Hc & Ht)]; [done|].
  apply Forall_app in Hb as [_ Hb]. apply (H1 c cp t Hc Ht). eapply IH; [|done..].
  pose proof (char_length c cp Hc). unfold zlen in *. rewrite length_app. lia.
Qed.

Lemma valid_app a b : Forall is_byte a → valid a → valid b → valid (a ++ b).
Proof.
  intros Ha Hv Hb. revert Ha Hv. apply (valid_ind (λ a, valid (a ++ b))); [done|].
  intros c cp t Hc _ IH. rewrite <- app_assoc. by eapply valid_char.
Qed.

Lemma valid_ascii bs : Forall (λ b, 0 ≤ b < 0x80) bs → valid bs.
Proof.
  induction 1 as [|b bs Hb _ IH]; [done|]. apply (valid_char [b] b bs); [by left|done].
Qed.

(** The pointer moves over one character. *)
Lemma iterate_char c cp t : is_char c cp → utf8_iterate (c ++ t) = Some (t, Some cp).
Proof.
  intros [[-> Hcp]|(u & l & -> & Hf & Hl & Hc)]; cbn [app utf8_iterate].
  - unfold utf8_check_first. by rewrite (proj2 (Z.ltb_lt cp 0x80)) by lia.
  - rewrite Hf. rewrite (proj2 (Z.leb_gt _ _)), (proj2 (Z.eqb_neq _ _)) by lia.
    change (u :: l ++ t) with ((u :: l) ++ t). rewrite check_full_app by (done || unfold zlen; lia). rewrite Hc.
    do 3 f_equal. by rewrite (drop_app_length' (u :: l)) by (unfold zlen; lia).
Qed.

(** ** Encoding and decoding *)

(** A field of bits, as a quotient and a remainder. *)
Lemma bit_field x k m mask : 0 ≤ k → 0 ≤ m → mask = Z.shiftl (Z.ones m) k →
  Z.shiftr (Z.land x mask) k = (x / 2 ^ k) mod 2 ^ m.
Proof.
  intros Hk Hm ->. rewrite Z.shiftr_land, Z.shiftr_shiftl_l, Z.sub_diag, Z.shiftl_0_r by lia.
  by rewrite Z.land_ones, Z.shiftr_div_pow2 by lia.
Qed.

Lemma low_bits x m mask : 0 ≤ m → mask = Z.ones m → Z.land x mask = x mod 2 ^ m.
Proof. intros Hm ->. by apply Z.land_ones. Qed.

(** The bit operations of the codec as arithmetic. *)
Ltac utf8_arith :=
  rewrite ?(bit_field _ 6 5), ?(bit_field _ 12 4), ?(bit_field _ 6 6), ?(bit_field _ 18 3), ?(bit_field _ 12 6),
    ?(low_bits _ 6), ?(low_bits _ 5), ?(low_bits _ 4), ?(low_bits _ 3), ?Z.shiftl_mul_pow2 by (reflexivity || lia);
  rewrite ?(bit_field _ 6 5), ?(bit_field _ 12 4), ?(bit_field _ 6 6), ?(bit_field _ 18 3), ?(bit_field _ 12 6) by (reflexivity || lia).

Lemma check_first_cases u :
  utf8_check_first u = 0 ∨ (utf8_check_first u = 1 ∧ u < 0x80) ∨ (utf8_check_first u = 2 ∧ 0xC2 ≤ u ≤ 0xDF) ∨
  (utf8_check_first u = 3 ∧ 0xE0 ≤ u ≤ 0xEF) ∨ (utf8_check_first u = 4 ∧ 0xF0 ≤ u ≤ 0xF4).
Proof.
  unfold utf8_check_first. destruct (Z.ltb_spec u 0x80); [lia|]. destruct (_ && _) eqn:?; [lia|].
  destruct (_ || _) eqn:?; [lia|]. destruct ((0xC2 <=? u) && _) eqn:?; [blia|].
  destruct ((0xE0 <=? u) && _) eqn:?; [blia|]. destruct ((0xF0 <=? u) && _) eqn:?; [blia|lia].
Qed.

Lemma continue_inv n value u s r : utf8_continue (S n) value (u :: s) = Some r →
  0x80 ≤ u ≤ 0xBF ∧ utf8_continue n (value * 64 + (u - 0x80)) s = Some r.
Proof.
  cbn [utf8_continue]. destruct (_ || _) eqn:E; [done|]. intros H. split; [blia|].
  rewrite Z.shiftl_mul_pow2, (low_bits _ 6) in H by (done || lia). rewrite <- H. f_equal.
  replace u with ((u - 0x80) + 2 * 2 ^ 6) at 2 by lia. rewrite Z_mod_plus_full, Z.mod_small by blia. lia.
Qed.

Lemma check_full_parts u l size cp :
  utf8_check_full (u :: l) size = Some cp →
  utf8_continue (Z.to_nat (size - 1)) (if size =? 2 then u mod 2 ^ 5 else if size =? 3 then u mod 2 ^ 4 else u mod 2 ^ 3) l
    = Some cp ∧
  cp ≤ 0x10FFFF ∧ ¬ (0xD800 ≤ cp ≤ 0xDFFF) ∧ (size = 2 → 0x80 ≤ cp) ∧ (size = 3 → 0x800 ≤ cp) ∧ (size = 4 → 0x10000 ≤ cp).
Proof.
  intros Hc. pose proof (check_full_size _ _ _ Hc). cbn [utf8_check_full] in Hc.
  rewrite <- (low_bits u 5 0x1F), <- (low_bits u 4 0xF), <- (low_bits u 3 0x7) by done.
  assert ((if size =? 2 then Some (Z.land u 0x1F) else if size =? 3 then Some (Z.land u 0xF)
    else if size =? 4 then Some (Z.land u 0x7) else None) =
    Some (if size =? 2 then Z.land u 0x1F else if size =? 3 then Z.land u 0xF else Z.land u 0x7)) as E.
  { destruct (Z.eqb_spec size 2), (Z.eqb_spec size 3), (Z.eqb_spec size 4); done || lia. }
  rewrite E in Hc. destruct (utf8_continue _ _ l) as [value|]; [|done].
  destruct (value >? 0x10FFFF) eqn:?; [done|]. destruct (_ && _) eqn:?; [done|].
  destruct (_ || _ || _) eqn:E3; [done|]. injection Hc as ->. split; [done|]. split; [blia|]. split; [blia|].
  repeat split; intros ->; blia.
Qed.

(** The code point of a sequence of more than one byte. *)
Lemma check_full_inv u l cp :
  utf8_check_first u = zlen (u :: l) → utf8_check_full (u :: l) (zlen (u :: l)) = Some cp →
  match l with
  | [v] => cp = (u - 0xC0) * 64 + (v - 0x80) ∧ 0x80 ≤ cp < 0x800 ∧ 0x80 ≤ v ≤ 0xBF
  | [v; w] => cp = ((u - 0xE0) * 64 + (v - 0x80)) * 64 + (w - 0x80) ∧ 0x800 ≤ cp < 0x10000 ∧
      ¬ (0xD800 ≤ cp ≤ 0xDFFF) ∧ 0x80 ≤ v ≤ 0xBF ∧ 0x80 ≤ w ≤ 0xBF
  | [v; w; x] => cp = (((u - 0xF0) * 64 + (v - 0x80)) * 64 + (w - 0x80)) * 64 + (x - 0x80) ∧
      0x10000 ≤ cp ≤ 0x10FFFF ∧ 0x80 ≤ v ≤ 0xBF ∧ 0x80 ≤ w ≤ 0xBF ∧ 0x80 ≤ x ≤ 0xBF
  | _ => False
  end.
Proof.
  intros Hf Hc. pose proof (check_first_cases u) as Hu. rewrite Hf in Hu. pose proof (check_full_size _ _ _ Hc) as Hs.
  apply check_full_parts in Hc as (Hc & H1 & H2 & H3 & H4 & H5).
  destruct l as [|v [|w [|x [|]]]]; unfold zlen in *; simpl length in *; try lia.
  - change (Z.of_nat 2) with 2 in *. cbv [Z.eqb] in Hc. change (Z.to_nat (2 - 1)) with 1%nat in Hc.
    replace u with ((u - 0xC0) + 6 * 2 ^ 5) in Hc by lia. rewrite Z_mod_plus_full, Z.mod_small in Hc by lia.
    apply continue_inv in Hc as [Hv Hc]. injection Hc as Hc. lia.
  - change (Z.of_nat 3) with 3 in *. change (Z.to_nat (3 - 1)) with 2%nat in Hc. simpl (_ =? _) in Hc. cbv iota in Hc.
    replace u with ((u - 0xE0) + 14 * 2 ^ 4) in Hc by lia. rewrite Z_mod_plus_full, Z.mod_small in Hc by lia.
    apply continue_inv in Hc as [Hv Hc]. apply continue_inv in Hc as [Hw Hc]. injection Hc as Hc. lia.
  - change (Z.of_nat 4) with 4 in *. change (Z.to_nat (4 - 1)) with 3%nat in Hc. simpl (_ =? _) in Hc. cbv iota in Hc.
    replace u with ((u - 0xF0) + 30 * 2 ^ 3) in Hc by lia. rewrite Z_mod_plus_full, Z.mod_small in Hc by lia.
    apply continue_inv in Hc as [Hv Hc]. apply continue_inv in Hc as [Hw Hc]. apply continue_inv in Hc as [Hx Hc].
    injection Hc as Hc. lia.
Qed.

(** A character is the encoding of its code point. *)
Lemma encode_char c cp : is_char c cp → utf8_encode cp = Some c.
Proof.
  intros [[-> Hcp]|(u & l & -> & Hf & Hl & Hc)]; unfold utf8_encode.
  { rewrite (proj2 (Z.ltb_ge cp 0)), (proj2 (Z.ltb_lt cp 0x80)) by lia. done. }
  apply check_full_inv in Hc; [|done]. pose proof (check_first_cases u) as Hu. rewrite Hf in Hu.
  destruct l as [|v [|w [|x [|]]]]; try done; unfold zlen in Hu; simpl length in Hu.
  - rewrite (proj2 (Z.ltb_ge cp 0)), (proj2 (Z.ltb_ge cp 0x80)), (proj2 (Z.ltb_lt cp 0x800)) by lia.
    utf8_arith. do 3 f_equal; Z.div_mod_to_equations; lia.
  - rewrite (proj2 (Z.ltb_ge cp 0)), (proj2 (Z.ltb_ge cp 0x80)), (proj2 (Z.ltb_ge cp 0x800)), (proj2 (Z.ltb_lt cp 0x10000)) by lia.
    utf8_arith. do 4 f_equal; Z.div_mod_to_equations; lia.
  - rewrite (proj2 (Z.ltb_ge cp 0)), (proj2 (Z.ltb_ge cp 0x80)), (proj2 (Z.ltb_ge cp 0x800)), (proj2 (Z.ltb_ge cp 0x10000)),
      (proj2 (Z.leb_le cp 0x10FFFF)) by lia.
    utf8_arith. do 5 f_equal; Z.div_mod_to_equations; lia.
Qed.

Lemma continue_step n value u s : 0x80 ≤ u ≤ 0xBF →
  utf8_continue (S n) value (u :: s) = utf8_continue n (value * 64 + (u - 0x80)) s.
Proof.
  intros Hu. cbn [utf8_continue]. destruct (_ || _) eqn:E; [blia|].
  rewrite Z.shiftl_mul_pow2, (low_bits _ 6) by (done || lia). f_equal.
  replace u with ((u - 0x80) + 2 * 2 ^ 6) at 1 by lia. rewrite Z_mod_plus_full, Z.mod_small by lia. lia.
Qed.

Lemma check_first_lead u : 0xC2 ≤ u ≤ 0xF4 →
  utf8_check_first u = if u <=? 0xDF then 2 else if u <=? 0xEF then 3 else 4.
Proof.
  intros Hu. unfold utf8_check_first.
  rewrite (proj2 (Z.ltb_ge u 0x80)), (proj2 (Z.leb_gt u 0xBF)), andb_false_r, !(proj2 (Z.eqb_neq u _)) by lia.
  rewrite (proj2 (Z.leb_le 0xC2 u)), (proj2 (Z.leb_le u 0xF4)) by lia. cbn [orb andb].
  destruct (Z.leb_spec u 0xDF); [done|]. rewrite (proj2 (Z.leb_le 0xE0 u)) by lia. cbn [andb].
  destruct (Z.leb_spec u 0xEF); [done|]. by rewrite (proj2 (Z.leb_le 0xF0 u)) by lia.
Qed.

(** A sequence whose value is in the range of its length is a character. *)
Lemma char_intro u l cp :
  0xC2 ≤ u ≤ 0xF4 → utf8_check_first u = zlen (u :: l) →
  let size := zlen (u :: l) in
  utf8_continue (length l) (if size =? 2 then u mod 2 ^ 5 else if size =? 3 then u mod 2 ^ 4 else u mod 2 ^ 3) l = Some cp →
  cp ≤ 0x10FFFF → ¬ (0xD800 ≤ cp ≤ 0xDFFF) →
  (size = 2 → 0x80 ≤ cp) → (size = 3 → 0x800 ≤ cp) → (size = 4 → 0x10000 ≤ cp) → is_char (u :: l) cp.
Proof.
  intros Hu Hf size Hc H1 H2 H3 H4 H5. right. exists u, l. fold size in Hf |- *.
  assert (2 ≤ size ≤ 4) as Hs by (rewrite <- Hf, check_first_lead by done; repeat case_match; lia).
  split; [done|]. split; [done|]. split; [lia|]. cbn [utf8_check_full].
  rewrite (low_bits u 5 0x1F), (low_bits u 4 0xF), (low_bits u 3 0x7) by done.
  replace (Z.to_nat (size - 1)) with (length l) by (unfold size, zlen; simpl; lia).
  assert ((if size =? 2 then Some (u mod 2 ^ 5) else if size =? 3 then Some (u mod 2 ^ 4)
    else if size =? 4 then Some (u mod 2 ^ 3) else None) =
    Some (if size =? 2 then u mod 2 ^ 5 else if size =? 3 then u mod 2 ^ 4 else u mod 2 ^ 3)) as ->.
  { destruct (Z.eqb_spec size 2), (Z.eqb_spec size 3), (Z.eqb_spec size 4); done || lia. }
  rewrite Hc. destruct (cp >? 0x10FFFF) eqn:?; [blia|]. destruct (_ && _) eqn:?; [blia|].
  destruct (_ || _ || _) eqn:E; [|done]. blia.
Qed.

(** The conditions of [char_intro] for an explicit sequence. *)
Ltac char_solve :=
  unfold zlen; cbn [length]; change (Z.of_nat 2) with 2; change (Z.of_nat 3) with 3; change (Z.of_nat 4) with 4;
  cbn [Z.eqb Pos.eqb]; rewrite ?continue_step by (Z.div_mod_to_equations; lia); cbn [utf8_continue];
  try (f_equal; Z.div_mod_to_equations; lia); lia.

(** The encoding of a code point that is no surrogate is a character. *)
Lemma char_of_encode cp :
  0 ≤ cp ≤ 0x10FFFF → ¬ (0xD800 ≤ cp ≤ 0xDFFF) →
  ∃ c, utf8_encode cp = Some c ∧ is_char c cp ∧ Forall (λ b, 0 ≤ b < 256 ∧ (cp ≠ 0 → b ≠ 0)) c.
Proof.
  intros Hr Hs. unfold utf8_encode. rewrite (proj2 (Z.ltb_ge cp 0)) by lia.
  destruct (Z.ltb_spec cp 0x80); [|destruct (Z.ltb_spec cp 0x800); [|destruct (Z.ltb_spec cp 0x10000)]].
  - eexists. split; [done|]. split; [left; split; [done|lia]|]. constructor; [lia|constructor].
  - utf8_arith. eexists. split; [done|]. split; [|repeat (constructor; [Z.div_mod_to_equations; lia|]); constructor].
    apply char_intro; [Z.div_mod_to_equations; lia|rewrite check_first_lead by (Z.div_mod_to_equations; lia)|..].
    { rewrite (proj2 (Z.leb_le _ _)) by (Z.div_mod_to_equations; lia). done. }
    all: char_solve.
  - utf8_arith. eexists. split; [done|]. split; [|repeat (constructor; [Z.div_mod_to_equations; lia|]); constructor].
    apply char_intro; [Z.div_mod_to_equations; lia|rewrite check_first_lead by (Z.div_mod_to_equations; lia)|..].
    { rewrite (proj2 (Z.leb_gt _ _)), (proj2 (Z.leb_le _ _)) by (Z.div_mod_to_equations; lia). done. }
    all: char_solve.
  - rewrite (proj2 (Z.leb_le cp 0x10FFFF)) by lia.
    utf8_arith. eexists. split; [done|]. split; [|repeat (constructor; [Z.div_mod_to_equations; lia|]); constructor].
    apply char_intro; [Z.div_mod_to_equations; lia|rewrite check_first_lead by (Z.div_mod_to_equations; lia)|..].
    { rewrite !(proj2 (Z.leb_gt _ _)) by (Z.div_mod_to_equations; lia). done. }
    all: char_solve.
Qed.
