(* ===== verification/RealText.v ===== *)
(** * Real numbers as text ([src/deps/jansson/src/strconv.c])

    [jsonp_dtostr] prints a double with [snprintf]'s %.17g and tidies the result;
    [jsonp_strtod] reads one with [strtod]. Both conversions of the C library are
    modelled as IEEE 754 and the C standard ask: %.17g rounds the exact value to 17
    significant digits, [strtod] rounds the exact decimal to the nearest double.
    A result that underflows sets [errno], as in glibc. Doubles are bit patterns. *)

From S2P Require Import Prelude Float.
Local Open Scope Z_scope.

(** ** Characters *)

Definition chr_minus : Z := 45.
Definition chr_plus : Z := 43.
Definition chr_dot : Z := 46.
Definition chr_0 : Z := 48.
Definition chr_e : Z := 101.
Definition chr_E : Z := 69.

Definition l_isdigit (c : Z) : bool := (48 <=? c) && (c <=? 57).

(** Digits, most significant first, and their characters. *)
Definition chars (ds : list Z) : bytes := map (λ d, chr_0 + d) ds.

Definition digits_val (ds : list Z) : Z := foldl (λ v d, v * 10 + d) 0 ds.

(** The last [n] digits of [v]. *)
Fixpoint digits_of (n : nat) (v : Z) : list Z :=
  match n with
  | O => []
  | S n => digits_of n (v / 10) ++ [v mod 10]
  end.

(** ** Printing *)

(** [a / b] to the nearest integer, ties to even. *)
Definition round_div (a b : Z) : Z :=
  let q := a / b in
  match 2 * (a mod b) ?= b with
  | Lt => q
  | Gt => q + 1
  | Eq => if Z.even q then q else q + 1
  end.

(** [10 ^ X <= n / d < 10 ^ (X + 1)]. *)
Fixpoint exp_below (fuel : nat) (n d k : Z) : Z :=
  match fuel with
  | O => k
  | S fuel => if d <=? n * 10 ^ k then k else exp_below fuel n d (k + 1)
  end.

Fixpoint exp_above (fuel : nat) (n d k : Z) : Z :=
  match fuel with
  | O => k
  | S fuel => if n <? d * 10 ^ (k + 1) then k else exp_above fuel n d (k + 1)
  end.

Definition dec_exp (n d : Z) : Z :=
  if d <=? n then exp_above (Z.to_nat (Z.log2 n + 1)) n d 0
  else - exp_below (Z.to_nat (Z.log2 d + 1)) n d 1.

(** 17 significant digits [D] and the exponent [X] of the first: [n / d] is
    about [D * 10 ^ (X - 16)]. *)
Definition round17 (n d : Z) : Z * Z :=
  let X := dec_exp n d in
  let D := round_div (n * 10 ^ Z.max 0 (16 - X)) (d * 10 ^ Z.max 0 (X - 16)) in
  if D =? 10 ^ 17 then (10 ^ 16, X + 1) else (D, X).

Fixpoint drop_zeros (l : list Z) : list Z :=
  match l with
  | 0 :: l => drop_zeros l
  | _ => l
  end.

Definition strip_zeros (l : list Z) : list Z := rev (drop_zeros (rev l)).

Definition fraction (ds : list Z) : bytes := if bool_decide (ds = []) then [] else chr_dot :: chars ds.

Definition minus (neg : bool) : bytes := if neg then [chr_minus] else [].

(** The exponent has at least two digits. *)
Definition exp_digits (x : Z) : list Z := if x <? 100 then digits_of 2 x else digits_of 3 x.

Definition g17_text (D X : Z) : bytes :=
  let ds := digits_of 17 D in
  if (X <? -4) || (17 <=? X) then
    chars (take 1 ds) ++ fraction (strip_zeros (drop 1 ds)) ++
    chr_e :: (if X <? 0 then chr_minus else chr_plus) :: chars (exp_digits (Z.abs X))
  else if 0 <=? X then
    chars (take (Z.to_nat (X + 1)) ds) ++ fraction (strip_zeros (drop (Z.to_nat (X + 1)) ds))
  else chars [0] ++ fraction (replicate (Z.to_nat (- X - 1)) 0 ++ strip_zeros ds).

(** [snprintf(buffer, size, "%.17g", value)] of a finite number. *)
Definition sprintf_g17 (value : Z) : bytes :=
  match decode_fp binary64 value with
  | Finite neg m e =>
      minus neg ++
      if m =? 0 then chars [0]
      else let '(D, X) := round17 (m * 2 ^ Z.max 0 e) (2 ^ Z.max 0 (- e)) in g17_text D X
  | Infinite neg => minus neg ++ bytes_of "inf"
  | NaN => bytes_of "nan"
  end.

(** [strchr]: the text from the first [c] on. *)
Fixpoint strchr (c : Z) (s : bytes) : option bytes :=
  match s with
  | [] => None
  | x :: s' => if x =? c then Some s else strchr c s'
  end.

(** The loop over the leading zeros of the exponent. *)
Fixpoint skip_zeros (s : bytes) : bytes :=
  match s with
  | c :: s' => if c =? chr_0 then skip_zeros s' else s
  | [] => []
  end.

(** The text of the returned length; [None] is -1. The text after the sign of the
    exponent is moved over its leading zeros. *)
Definition jsonp_dtostr (size value : Z) : option bytes :=
  let buffer := sprintf_g17 value in
  if zlen buffer >=? size then None
  else
    let no_mark := bool_decide (strchr chr_dot buffer = None) && bool_decide (strchr chr_e buffer = None) in
    if no_mark && (zlen buffer + 3 >=? size) then None
    else
      let buffer := if no_mark then buffer ++ [chr_dot; chr_0] else buffer in
      match strchr chr_e buffer with
      | None => Some buffer
      | Some from_e =>
          let start := drop 1 from_e in
          let end_ := skip_zeros (drop 1 start) in
          let start := match start with c :: s => if c =? chr_minus then s else start | [] => start end in
          Some (take (length buffer - length start) buffer ++ end_)
      end.

(** ** Reading *)

(** The digits at the start of a text. *)
Fixpoint span_digits (s : bytes) : list Z * bytes :=
  match s with
  | c :: s' => if l_isdigit c then let '(ds, r) := span_digits s' in (c - chr_0 :: ds, r) else ([], s)
  | [] => ([], [])
  end.

(** [2 ^ L <= n / d < 2 ^ (L + 1)]. *)
Definition rat_log2 (n d : Z) : Z :=
  let k := Z.log2 n - Z.log2 d in
  if n * 2 ^ Z.max 0 (- k) <? d * 2 ^ Z.max 0 k then k - 1 else k.

(** The double nearest to [n / d], and whether the conversion overflows or
    underflows. *)
Definition round_fp (n d : Z) : Z * bool :=
  if n =? 0 then (0, false)
  else
    let E := Z.max (rat_log2 n d - mw binary64) (emin binary64) in
    let a := n * 2 ^ Z.max 0 (- E) in
    let b := d * 2 ^ Z.max 0 E in
    let mag := Z.min ((E - emin binary64) * 2 ^ mw binary64 + round_div a b) (inf_bits binary64) in
    (mag, (mag =? inf_bits binary64) || ((mag <? 2 ^ mw binary64) && negb (a mod b =? 0))).

(** The optional fraction and the optional exponent of a number; a mark without
    digits is not part of it. *)
Definition strtod_fraction (s : bytes) : list Z * bytes :=
  match s with
  | c :: s' => if c =? chr_dot then span_digits s' else ([], s)
  | [] => ([], s)
  end.

Definition strtod_exponent (s : bytes) : Z * bytes :=
  match s with
  | c :: s' =>
      if (c =? chr_e) || (c =? chr_E) then
        let '(neg, s'') :=
          match s' with
          | x :: r => if x =? chr_minus then (true, r) else if x =? chr_plus then (false, r) else (false, s')
          | [] => (false, s')
          end in
        match span_digits s'' with
        | ([], _) => (0, s)
        | (ds, r) => (if neg : bool then - digits_val ds else digits_val ds, r)
        end
      else (0, s)
  | [] => (0, s)
  end.

(** [strtod] of a text that starts with an optional minus sign and a digit: the
    value, whether [errno] is [ERANGE], and [*end]. *)
Definition strtod (s : bytes) : Z * bool * bytes :=
  let '(neg, s) := match s with c :: s' => if c =? chr_minus then (true, s') else (false, s) | [] => (false, s) end in
  let '(ip, s) := span_digits s in
  let '(fp, s) := strtod_fraction s in
  let '(x, s) := strtod_exponent s in
  let e10 := x - zlen fp in
  let '(mag, erange) := round_fp (digits_val (ip ++ fp) * 10 ^ Z.max 0 e10) (10 ^ Z.max 0 (- e10)) in
  (sign_bit binary64 neg + mag, erange, s).

(** The assertion that the whole text is read; [None] is -1. *)
Definition jsonp_strtod (text : bytes) : exec (option Z) :=
  let '(value, erange, end_) := strtod text in
  _ ← require (bool_decide (end_ = []));
  if erange && negb (Z.land value (2 ^ 63 - 1) =? 0) then Val None else Val (Some value).

(** 0.1, 1e20, -2.5, 1e-7, 123456789012345680, the least subnormal number. *)
Example real_text_examples :
  jsonp_dtostr 100 0x3fb999999999999a = Some (bytes_of "0.10000000000000001") ∧
  jsonp_dtostr 100 0x4415af1d78b58c40 = Some (bytes_of "1e20") ∧
  jsonp_dtostr 100 0xc004000000000000 = Some (bytes_of "-2.5") ∧
  jsonp_dtostr 100 0x3e7ad7f29abcaf48 = Some (bytes_of "9.9999999999999995e-8") ∧
  jsonp_dtostr 100 0x4008000000000000 = Some (bytes_of "3.0") ∧
  jsonp_strtod (bytes_of "0.1") = Val (Some 0x3fb999999999999a) ∧
  jsonp_strtod (bytes_of "1E+20") = Val (Some 0x4415af1d78b58c40) ∧
  jsonp_strtod (bytes_of "1e400") = Val None ∧
  jsonp_strtod (bytes_of "4.9406564584124654e-324") = Val None.
Proof. by vm_compute. Qed.

(** ** Rounding *)

Lemma round_div_err a b : 0 < b → 2 * Z.abs (a - round_div a b * b) ≤ b.
Proof.
  intros Hb. unfold round_div. pose proof (Z.div_mod a b ltac:(lia)). pose proof (Z.mod_pos_bound a b Hb).
  destruct (Z.compare_spec (2 * (a mod b)) b); [destruct (Z.even _)|..]; lia.
Qed.

Lemma round_div_near a b q : 0 < b → 2 * Z.abs (a - q * b) < b → round_div a b = q.
Proof.
  intros Hb Hq. pose proof (round_div_err a b Hb). set (r := round_div a b) in *.
  assert (Z.abs ((r - q) * b) < b) as H1 by lia. rewrite Z.abs_mul, (Z.abs_eq b) in H1 by lia. nia.
Qed.

Lemma pow10_pos k : 0 < 10 ^ k ∨ k < 0.
Proof. destruct (Z.ltb_spec k 0); [by right|left]. by apply Z.pow_pos_nonneg. Qed.

Lemma pow10_gt2 k : 0 ≤ k → 2 ^ k ≤ 10 ^ k.
Proof. intros. apply Z.pow_le_mono_l. lia. Qed.

Lemma exp_above_spec fuel : ∀ n d k, 0 < d → 0 < n → 0 ≤ k → d * 10 ^ k ≤ n → Z.log2 n < k + Z.of_nat fuel →
  let X := exp_above fuel n d k in k ≤ X ∧ d * 10 ^ X ≤ n < d * 10 ^ (X + 1).
Proof.
  induction fuel as [|fuel IH]; intros n d k Hd Hn Hk Hle Hf; cbn [exp_above].
  - exfalso. pose proof (pow10_gt2 k Hk). pose proof (Z.pow_pos_nonneg 2 k ltac:(lia) Hk).
    assert (2 ^ k ≤ n) as Hp by nia. apply Z.log2_le_pow2 in Hp; lia.
  - destruct (Z.ltb_spec n (d * 10 ^ (k + 1))); [cbv zeta; lia|].
    destruct (IH n d (k + 1)); lia.
Qed.

Lemma exp_below_spec fuel : ∀ n d k, 0 < d → 0 < n → 1 ≤ k → n * 10 ^ (k - 1) < d → Z.log2 d < k + Z.of_nat fuel - 1 →
  let X := exp_below fuel n d k in k ≤ X ∧ n * 10 ^ (X - 1) < d ≤ n * 10 ^ X.
Proof.
  induction fuel as [|fuel IH]; intros n d k Hd Hn Hk Hle Hf; cbn [exp_below].
  - exfalso. pose proof (pow10_gt2 (k - 1) ltac:(lia)). pose proof (Z.pow_pos_nonneg 2 (k - 1) ltac:(lia) ltac:(lia)).
    assert (2 ^ (k - 1) ≤ d) as Hp by nia. apply Z.log2_le_pow2 in Hp; lia.
  - destruct (Z.leb_spec d (n * 10 ^ k)); [cbv zeta; lia|].
    destruct (IH n d (k + 1)); try lia. by replace (k + 1 - 1) with k by lia.
Qed.

(** Decimal numbers are compared at a common scale [10 ^ K]. *)
Lemma dec_exp_spec n d : 0 < n → 0 < d → let X := dec_exp n d in
  - Z.log2 d - 1 ≤ X ≤ Z.log2 n + 1 ∧ ∀ K, 0 ≤ X + K → 0 ≤ K → d * 10 ^ (X + K) ≤ n * 10 ^ K < d * 10 ^ (X + K + 1).
Proof.
  intros Hn Hd. unfold dec_exp. destruct (Z.leb_spec d n) as [Hle|Hlt].
  - destruct (exp_above_spec (Z.to_nat (Z.log2 n + 1)) n d 0) as [H0 H1]; [lia..|pose proof (Z.log2_nonneg n); lia|].
    set (X := exp_above _ n d 0) in *. split; [pose proof (Z.log2_nonneg d); split; [lia|]|].
    + pose proof (pow10_gt2 X H0). pose proof (Z.pow_pos_nonneg 2 X ltac:(lia) H0).
      assert (2 ^ X ≤ n) as Hp by nia. apply Z.log2_le_pow2 in Hp; lia.
    + intros K HXK HK. replace (X + K + 1) with (X + 1 + K) by lia. rewrite !Z.pow_add_r by lia.
      pose proof (Z.pow_pos_nonneg 10 K ltac:(lia) HK). rewrite Z.pow_add_r in H1 by lia. nia.
  - destruct (exp_below_spec (Z.to_nat (Z.log2 d + 1)) n d 1) as [H0 H1];
      [lia..|rewrite Z.pow_0_r; lia|pose proof (Z.log2_nonneg d); lia|].
    set (k := exp_below _ n d 1) in *. split; [pose proof (Z.log2_nonneg n); split; [|lia]|].
    + pose proof (pow10_gt2 (k - 1) ltac:(lia)). pose proof (Z.pow_pos_nonneg 2 (k - 1) ltac:(lia) ltac:(lia)).
      assert (2 ^ (k - 1) ≤ d) as Hp by nia. apply Z.log2_le_pow2 in Hp; lia.
    + intros K HXK HK. replace K with ((- k + K + 1) + (k - 1)) at 2 3 by lia.
      replace (- k + K + 1) with (- k + K + 1) by lia.
      assert (10 ^ (k - 1 + 1) = 10 ^ (k - 1) * 10) as E by (rewrite Z.pow_add_r by lia; done).
      replace (k - 1 + 1) with k in E by lia. rewrite E in H1.
      assert (10 ^ (- k + K + 1) = 10 ^ (- k + K) * 10) as E' by (rewrite Z.pow_add_r by lia; done).
      rewrite (Z.pow_add_r 10 (- k + K + 1)) by lia.
      pose proof (Z.pow_pos_nonneg 10 (- k + K) ltac:(lia) HXK). nia.
Qed.

(** [n / d] as 17 digits: at most half a unit of the last one away. *)
Lemma round17_spec n d D X : 0 < n → 0 < d → round17 n d = (D, X) →
  - Z.log2 d - 1 ≤ X ≤ Z.log2 n + 2 ∧ 10 ^ 16 ≤ D < 10 ^ 17 ∧
  ∀ K, 0 ≤ K → 16 ≤ X + K - 1 → 2 * Z.abs (n * 10 ^ K - D * (d * 10 ^ (X - 16 + K))) ≤ d * 10 ^ (X - 16 + K).
Proof.
  intros Hn Hd. unfold round17. destruct (dec_exp_spec n d Hn Hd) as [Hb HK].
  set (X0 := dec_exp n d) in *. set (D0 := round_div _ _).
  assert (∀ K, 0 ≤ K → 16 ≤ X0 + K → 2 * Z.abs (n * 10 ^ K - D0 * (d * 10 ^ (X0 - 16 + K))) ≤ d * 10 ^ (X0 - 16 + K)) as Herr.
  { intros K HK0 HXK. pose proof (round_div_err (n * 10 ^ Z.max 0 (16 - X0)) (d * 10 ^ Z.max 0 (X0 - 16))) as He.
    fold D0 in He. set (J := K - Z.max 0 (16 - X0)).
    assert (10 ^ K = 10 ^ Z.max 0 (16 - X0) * 10 ^ J) as -> by (rewrite <- Z.pow_add_r by lia; f_equal; lia).
    assert (10 ^ (X0 - 16 + K) = 10 ^ Z.max 0 (X0 - 16) * 10 ^ J) as -> by (rewrite <- Z.pow_add_r by lia; f_equal; lia).
    pose proof (Z.pow_pos_nonneg 10 J ltac:(lia) ltac:(lia)) as HJ.
    pose proof (Z.pow_pos_nonneg 10 (Z.max 0 (X0 - 16)) ltac:(lia) ltac:(lia)). specialize (He ltac:(nia)).
    replace (_ - _) with ((n * 10 ^ Z.max 0 (16 - X0) - D0 * (d * 10 ^ Z.max 0 (X0 - 16))) * 10 ^ J) by lia.
    rewrite Z.abs_mul, (Z.abs_eq (10 ^ J)) by lia. nia. }
  assert (10 ^ 16 ≤ D0 ≤ 10 ^ 17) as HD.
  { set (K := Z.max 0 (16 - X0)). specialize (HK K ltac:(lia) ltac:(lia)). specialize (Herr K ltac:(lia) ltac:(lia)).
    set (p := d * 10 ^ (X0 - 16 + K)) in *.
    assert (0 < p) by (pose proof (Z.pow_pos_nonneg 10 (X0 - 16 + K) ltac:(lia) ltac:(lia)); nia).
    replace (d * 10 ^ (X0 + K)) with (10 ^ 16 * p) in HK
      by (unfold p; replace (X0 + K) with (16 + (X0 - 16 + K)) by lia; rewrite (Z.pow_add_r 10 16) by lia; lia).
    replace (d * 10 ^ (X0 + K + 1)) with (10 ^ 17 * p) in HK
      by (unfold p; replace (X0 + K + 1) with (17 + (X0 - 16 + K)) by lia; rewrite (Z.pow_add_r 10 17) by lia; lia).
    nia. }
  destruct (Z.eqb_spec D0 (10 ^ 17)) as [E|E]; intros [= <- <-].
  - split; [lia|]. split; [lia|]. intros K HK0 HXK. specialize (Herr K HK0 ltac:(lia)). rewrite E in Herr.
    replace (X0 + 1 - 16 + K) with (X0 - 16 + K + 1) by lia. rewrite (Z.pow_add_r 10 (X0 - 16 + K)) by lia.
    pose proof (Z.pow_pos_nonneg 10 (X0 - 16 + K) ltac:(lia) ltac:(lia)). nia.
  - split; [lia|]. split; [lia|]. intros K HK0 HXK. apply Herr; lia.
Qed.

Lemma pow2_split a b : 0 ≤ a → 0 ≤ b → 2 ^ (a + b) = 2 ^ a * 2 ^ b.
Proof. intros. by apply Z.pow_add_r. Qed.

Lemma rat_log2_spec n d : 0 < n → 0 < d → let L := rat_log2 n d in
  ∀ S, 0 ≤ S → 1 ≤ L + S → d * 2 ^ (L + S) ≤ n * 2 ^ S < d * 2 ^ (L + S + 1).
Proof.
  intros Hn Hd. unfold rat_log2. set (k := Z.log2 n - Z.log2 d).
  pose proof (pow2_log2 n Hn) as Ln. pose proof (pow2_log2 d Hd) as Ld.
  pose proof (Z.log2_nonneg n). pose proof (Z.log2_nonneg d).
  assert (∀ S, 0 ≤ S → 1 ≤ k + S → n * 2 ^ S < d * 2 ^ (k + S + 1) ∧ d * 2 ^ (k + S - 1) < n * 2 ^ S) as Hk.
  { intros S HS HkS. assert (2 ^ Z.log2 n * 2 ^ S = 2 ^ Z.log2 d * 2 ^ (k + S)) as E
      by (rewrite <- !Z.pow_add_r by lia; f_equal; lia).
    assert (2 ^ (k + S + 1) = 2 * 2 ^ (k + S)) as -> by (rewrite Z.pow_add_r by lia; lia).
    assert (2 ^ (k + S) = 2 * 2 ^ (k + S - 1)) as E2
      by (replace (k + S) with (k + S - 1 + 1) at 1 by lia; rewrite Z.pow_add_r by lia; lia).
    pose proof (Z.pow_pos_nonneg 2 S ltac:(lia) ltac:(lia)).
    pose proof (Z.pow_pos_nonneg 2 (k + S - 1) ltac:(lia) ltac:(lia)). nia. }
  assert (∀ S, 0 ≤ S → 0 ≤ k + S →
    (n * 2 ^ Z.max 0 (- k) <? d * 2 ^ Z.max 0 k) = (n * 2 ^ S <? d * 2 ^ (k + S))) as Hb.
  { intros S HS HkS. set (J := S - Z.max 0 (- k)).
    assert (2 ^ S = 2 ^ Z.max 0 (- k) * 2 ^ J) as -> by (rewrite <- Z.pow_add_r by lia; f_equal; lia).
    assert (2 ^ (k + S) = 2 ^ Z.max 0 k * 2 ^ J) as -> by (rewrite <- Z.pow_add_r by lia; f_equal; lia).
    pose proof (Z.pow_pos_nonneg 2 J ltac:(lia) ltac:(lia)). rewrite !Z.mul_assoc.
    apply eq_true_iff_eq. rewrite !Z.ltb_lt. split; nia. }
  intros S HS HL. specialize (Hb S HS). destruct (n * 2 ^ Z.max 0 (- k) <? d * 2 ^ Z.max 0 k).
  - specialize (Hb ltac:(lia)). symmetry in Hb. apply Z.ltb_lt in Hb. destruct (Hk S HS ltac:(lia)) as [_ H2].
    replace (k - 1 + S) with (k + S - 1) by lia. replace (k + S - 1 + 1) with (k + S) by lia. lia.
  - specialize (Hb ltac:(lia)). symmetry in Hb. apply Z.ltb_ge in Hb. destruct (Hk S HS ltac:(lia)) as [H1 _]. lia.
Qed.

(** A number within half a unit of the last place of a normal double is rounded
    to it; below a power of two the unit is half as large. *)
Lemma round_fp_near n d q E :
  0 < n → 0 < d → canonical binary64 q E → 2 ^ 52 ≤ q →
  (∀ S, 0 ≤ S → 0 ≤ E + S → let t := d * 2 ^ (E + S) in
    2 * Z.abs (n * 2 ^ S - q * t) < t ∧ (q = 2 ^ 52 → 4 * Z.abs (n * 2 ^ S - q * t) < t)) →
  round_fp n d = ((E - emin binary64) * 2 ^ 52 + q, false).
Proof.
  intros Hn Hd (Hq & HE & _ & Hinf) Hq52 Hnear.
  unfold round_fp. change (mw binary64) with 52 in *. rewrite (proj2 (Z.eqb_neq n 0)) by lia. set (L := rat_log2 n d). cbv zeta.
  assert (L = E + 52 ∨ (L = E + 51 ∧ q = 2 ^ 52)) as HL.
  { set (S := Z.max 1 (Z.max (1 - L) (1 - E))).
    pose proof (rat_log2_spec n d Hn Hd S ltac:(lia) ltac:(fold L; lia)) as HS. fold L in HS. cbv zeta in HS.
    destruct (Hnear S ltac:(lia) ltac:(lia)) as [H1 H2]. set (x := n * 2 ^ S) in *. set (t := d * 2 ^ (E + S)) in *.
    assert (0 < t) by (unfold t; pose proof (Z.pow_pos_nonneg 2 (E + S) ltac:(lia) ltac:(lia)); nia).
    assert (∀ j, 0 ≤ j → d * 2 ^ (E + S + j) = 2 ^ j * t) as Ht by (intros j Hj; unfold t; rewrite (Z.pow_add_r 2 (E + S)) by lia; lia).
    assert (x < 2 ^ 53 * t) as Hup by nia.
    assert (L + S < E + S + 53) as HL1.
    { apply (Z.pow_lt_mono_r_iff 2); [lia..|]. apply (Z.mul_lt_mono_pos_l d); [done|]. rewrite Ht by lia. lia. }
    destruct (Z.ltb_spec x (2 ^ 52 * t)) as [Hlt|Hge].
    - assert (q = 2 ^ 52) as E52 by nia. right. split; [|done].
      assert (L + S < E + S + 52) as HL2.
      { apply (Z.pow_lt_mono_r_iff 2); [lia..|]. apply (Z.mul_lt_mono_pos_l d); [done|]. rewrite Ht by lia. lia. }
      assert (E + S + 51 < L + S + 1) as HL3; [|lia].
      apply (Z.pow_lt_mono_r_iff 2); [lia..|]. apply (Z.mul_lt_mono_pos_l d); [done|]. rewrite Ht by lia.
      specialize (H2 E52). rewrite E52 in H2. lia.
    - left. assert (E + S + 52 < L + S + 1) as HL3; [|lia].
      apply (Z.pow_lt_mono_r_iff 2); [lia..|]. apply (Z.mul_lt_mono_pos_l d); [done|]. rewrite Ht by lia. lia. }
  assert (∀ E', (E' = E ∨ (E' = E - 1 ∧ q = 2 ^ 52)) → emin binary64 ≤ E' →
    (E' - emin binary64) * 2 ^ 52 + round_div (n * 2 ^ Z.max 0 (- E')) (d * 2 ^ Z.max 0 E') =
    (E - emin binary64) * 2 ^ 52 + q) as Hr.
  { intros E' [->|[-> E52]] _.
    - rewrite (round_div_near _ _ q); [done|pose proof (Z.pow_pos_nonneg 2 (Z.max 0 E) ltac:(lia) ltac:(lia)); nia|].
      destruct (Hnear (Z.max 0 (- E)) ltac:(lia) ltac:(lia)) as [H1 _]. cbv zeta in H1.
      by replace (E + Z.max 0 (- E)) with (Z.max 0 E) in H1 by lia.
    - pose proof (Z.pow_pos_nonneg 2 (Z.max 0 (E - 1)) ltac:(lia) ltac:(lia)).
      rewrite (round_div_near _ _ (2 ^ 53)); [lia|nia|].
      destruct (Hnear (Z.max 0 (- (E - 1))) ltac:(lia) ltac:(lia)) as [_ H2]. specialize (H2 E52). cbv zeta in H2.
      replace (E + Z.max 0 (- (E - 1))) with (Z.max 0 (E - 1) + 1) in H2 by lia.
      rewrite (Z.pow_add_r 2 (Z.max 0 (E - 1)) 1) in H2 by lia. rewrite E52 in H2.
      replace (_ - 2 ^ 53 * _) with
        (n * 2 ^ Z.max 0 (- (E - 1)) - 2 ^ 52 * (d * (2 ^ Z.max 0 (E - 1) * 2 ^ 1))) by lia. lia. }
  assert (Z.max (L - 52) (emin binary64) = E ∨ (Z.max (L - 52) (emin binary64) = E - 1 ∧ q = 2 ^ 52)) as HE' by lia.
  rewrite (Hr _ HE') by lia. rewrite Z.min_l by lia. f_equal.
  rewrite (proj2 (Z.eqb_neq _ _)) by lia. rewrite (proj2 (Z.ltb_ge _ _)) by lia. done.
Qed.

(** 17 digits determine a normal double: whichever way the decimal number
    [D * 10 ^ (X - 16)] is written as [N * 10 ^ x], it is read as the number it
    was printed from. *)
Lemma digits17_read m e D X N x K :
  canonical binary64 m e → 2 ^ 52 ≤ m →
  round17 (m * 2 ^ Z.max 0 e) (2 ^ Z.max 0 (- e)) = (D, X) →
  0 < N → 0 ≤ K → 17 ≤ X + K → 0 ≤ x + K → N * 10 ^ (x + K) = D * 10 ^ (X - 16 + K) →
  round_fp (N * 10 ^ Z.max 0 x) (10 ^ Z.max 0 (- x)) = ((e - emin binary64) * 2 ^ 52 + m, false).
Proof.
  intros Hc Hm52 Hr HN HK HXK HxK HND. pose proof Hc as [Hm _]. change (mw binary64 + 1) with 53 in Hm.
  pose proof (Z.pow_pos_nonneg 2 (Z.max 0 e) ltac:(lia) ltac:(lia)).
  pose proof (Z.pow_pos_nonneg 10 (Z.max 0 x) ltac:(lia) ltac:(lia)).
  apply round17_spec in Hr as (_ & HD & Herr); [|nia|by apply Z.pow_pos_nonneg; lia].
  specialize (Herr K HK ltac:(lia)).
  apply round_fp_near; [nia|by apply Z.pow_pos_nonneg; lia|done..|]. intros S HS HeS t.
  set (p := 10 ^ (X - 16 + K)) in *. set (J := K - Z.max 0 (- x)).
  pose proof (Z.pow_pos_nonneg 10 (X - 16 + K) ltac:(lia) ltac:(lia)) as Hp. fold p in Hp.
  pose proof (Z.pow_pos_nonneg 10 J ltac:(lia) ltac:(lia)) as HJ.
  set (V := 2 ^ (e + S) * 10 ^ K). set (P := p * 2 ^ S).
  assert (0 < P) as HP by (unfold P; pose proof (Z.pow_pos_nonneg 2 S ltac:(lia) ltac:(lia)); nia).
  assert (2 * Z.abs (m * V - D * P) ≤ P) as HVP.
  { set (I := S - Z.max 0 (- e)). pose proof (Z.pow_pos_nonneg 2 I ltac:(lia) ltac:(lia)).
    assert (2 ^ (e + S) = 2 ^ Z.max 0 e * 2 ^ I) as E1 by (rewrite <- Z.pow_add_r by lia; f_equal; lia).
    assert (2 ^ S = 2 ^ Z.max 0 (- e) * 2 ^ I) as E2 by (rewrite <- Z.pow_add_r by lia; f_equal; lia).
    unfold V, P. rewrite E1, E2.
    replace (_ - _) with ((m * 2 ^ Z.max 0 e * 10 ^ K - D * (2 ^ Z.max 0 (- e) * p)) * 2 ^ I) by lia.
    rewrite Z.abs_mul, (Z.abs_eq (2 ^ I)) by lia. nia. }
  assert (P * (2 * 10 ^ 16 - 1) ≤ 2 * (m * V)) as HB
    by (pose proof (Z.mul_le_mono_nonneg_r (10 ^ 16) D P ltac:(lia) ltac:(lia)); lia).
  assert (0 < V) as HV by (unfold V; apply Z.mul_pos_pos; apply Z.pow_pos_nonneg; lia).
  assert (m * V ≤ (2 ^ 53 - 1) * V) as HmV by (apply Z.mul_le_mono_nonneg_r; lia).
  assert (V = t * 10 ^ J) as EV.
  { unfold V, t. assert (10 ^ K = 10 ^ Z.max 0 (- x) * 10 ^ J) as -> by (rewrite <- Z.pow_add_r by lia; f_equal; lia). lia. }
  assert (D * P = N * 10 ^ Z.max 0 x * 2 ^ S * 10 ^ J) as EP.
  { assert (10 ^ (x + K) = 10 ^ Z.max 0 x * 10 ^ J) as Ex by (rewrite <- Z.pow_add_r by lia; f_equal; lia).
    unfold P. rewrite Z.mul_assoc, <- HND, Ex. lia. }
  set (Y := N * 10 ^ Z.max 0 x * 2 ^ S) in *. rewrite EP, EV in HVP.
  replace (m * (t * 10 ^ J) - Y * 10 ^ J) with (- (Y - m * t) * 10 ^ J) in HVP by lia.
  rewrite Z.abs_mul, Z.abs_opp, (Z.abs_eq (10 ^ J)) in HVP by lia.
  split; [|intros Hm2].
  - assert (P < V) by lia. apply (Z.mul_lt_mono_pos_r (10 ^ J)); [done|]. lia.
  - assert (2 * P < V) by (rewrite Hm2 in HB; lia). apply (Z.mul_lt_mono_pos_r (10 ^ J)); [done|]. lia.
Qed.

(** ** Digits *)

Definition is_digit (d : Z) : Prop := 0 ≤ d < 10.

Lemma digits_val_from v ds : foldl (λ v d, v * 10 + d) v ds = v * 10 ^ zlen ds + digits_val ds.
Proof.
  unfold digits_val. revert v. induction ds as [|d ds IH]; intros v; [rewrite zlen_nil; simpl; lia|].
  cbn [foldl]. rewrite IH, (IH (0 * 10 + d)), zlen_cons, Z.pow_add_r by (lia || apply zlen_nonneg). lia.
Qed.

Lemma digits_val_app a b : digits_val (a ++ b) = digits_val a * 10 ^ zlen b + digits_val b.
Proof. unfold digits_val at 1. rewrite foldl_app. apply digits_val_from. Qed.

Lemma digits_val_cons d ds : digits_val (d :: ds) = d * 10 ^ zlen ds + digits_val ds.
Proof. apply (digits_val_app [d] ds). Qed.

Lemma digits_val_zeros n : digits_val (replicate n 0) = 0.
Proof. induction n as [|n IH]; [done|]. cbn [replicate]. rewrite digits_val_cons, IH. lia. Qed.

Lemma digits_val_nonneg ds : Forall is_digit ds → 0 ≤ digits_val ds.
Proof.
  induction 1 as [|d ds Hd _ IH]; [done|]. rewrite digits_val_cons.
  pose proof (Z.pow_pos_nonneg 10 (zlen ds) ltac:(lia) (zlen_nonneg ds)). unfold is_digit in Hd. nia.
Qed.

Lemma digits_of_length n : ∀ v, length (digits_of n v) = n.
Proof. induction n as [|n IH]; intros v; [done|]. simpl. rewrite length_app, IH. simpl. lia. Qed.

Lemma digits_of_digit n : ∀ v, Forall is_digit (digits_of n v).
Proof.
  induction n as [|n IH]; intros v; simpl; [constructor|]. apply Forall_app. split; [done|].
  constructor; [apply Z.mod_pos_bound; lia|constructor].
Qed.

Lemma digits_of_val n : ∀ v, 0 ≤ v < 10 ^ Z.of_nat n → digits_val (digits_of n v) = v.
Proof.
  induction n as [|n IH]; intros v Hv; [simpl in *; unfold digits_val; simpl; lia|].
  rewrite Nat2Z.inj_succ, Z.pow_succ_r in Hv by lia. cbn [digits_of]. rewrite digits_val_app, IH.
  - change (zlen [v mod 10]) with 1. unfold digits_val. simpl. pose proof (Z.div_mod v 10). lia.
  - split; [apply Z.div_pos; lia|apply Z.div_lt_upper_bound; lia].
Qed.

(** The first digit of a number that needs all of them is not zero. *)
Lemma digits_of_first n v : 10 ^ Z.of_nat n ≤ v < 10 ^ Z.of_nat (S n) → ∃ d ds, digits_of (S n) v = d :: ds ∧ d ≠ 0.
Proof.
  intros Hv. pose proof (digits_of_val (S n) v) as Hval. pose proof (digits_of_digit (S n) v) as Hd.
  pose proof (digits_of_length (S n) v) as Hl. pose proof (Z.pow_pos_nonneg 10 (Z.of_nat n) ltac:(lia) ltac:(lia)).
  specialize (Hval ltac:(lia)). destruct (digits_of (S n) v) as [|d ds]; [done|]. exists d, ds. split; [done|]. intros ->.
  rewrite digits_val_cons in Hval. assert (digits_val ds < 10 ^ Z.of_nat n); [|lia].
  replace n with (length ds) by (simpl in Hl; lia). apply Forall_cons in Hd as [_ Hd]. clear -Hd.
  induction Hd as [|d ds Hd _ IH]; [reflexivity|]. rewrite digits_val_cons. simpl length.
  rewrite Nat2Z.inj_succ, Z.pow_succ_r by lia. unfold zlen, is_digit in *. nia.
Qed.

Lemma drop_zeros_split l : ∃ k, l = replicate k 0 ++ drop_zeros l.
Proof. induction l as [|[| |] l [k IH]]; [by exists 0%nat| |by exists 0%nat..]. exists (S k). simpl. by f_equal. Qed.

Lemma strip_zeros_split l : ∃ k, l = strip_zeros l ++ replicate k 0.
Proof.
  destruct (drop_zeros_split (rev l)) as [k E]. exists k. unfold strip_zeros.
  apply (f_equal (@rev Z)) in E. rewrite rev_involutive, rev_app_distr in E. etrans; [exact E|]. f_equal. clear.
  induction k as [|k IH]; [done|]. cbn [replicate]. change (rev (0 :: replicate k 0)) with (rev (replicate k 0) ++ [0]).
  rewrite IH. by rewrite <- replicate_cons_app.
Qed.

(** ** The shape of a printed number *)

Definition exponent (ex : option (bool * list Z)) : bytes :=
  match ex with None => [] | Some (neg, ds) => chr_e :: minus neg ++ chars ds end.

Definition exponent_val (ex : option (bool * list Z)) : Z :=
  match ex with None => 0 | Some (neg, ds) => if neg : bool then - digits_val ds else digits_val ds end.

Definition num_text (neg : bool) (ip fp : list Z) (ex : option (bool * list Z)) : bytes :=
  minus neg ++ chars ip ++ fraction fp ++ exponent ex.

Record num_ok (ip fp : list Z) (ex : option (bool * list Z)) : Prop := {
  num_int : ip = [0] ∨ ∃ d ds, ip = d :: ds ∧ d ≠ 0;
  num_digits : Forall is_digit (ip ++ fp);
  num_real : fp ≠ [] ∨ ex ≠ None;
  num_exp : match ex with None => True | Some (_, ds) => ds ≠ [] ∧ Forall is_digit ds end
}.

Lemma isdigit_char d : is_digit d → l_isdigit (chr_0 + d) = true.
Proof. intros Hd. unfold is_digit in Hd. unfold l_isdigit, chr_0. rewrite (proj2 (Z.leb_le _ _)), (proj2 (Z.leb_le _ _)) by lia. done. Qed.

(** What does not continue a run of digits. *)
Definition no_digit (s : bytes) : Prop := match s with c :: _ => l_isdigit c = false | [] => True end.

Lemma span_chars ds s : Forall is_digit ds → no_digit s → span_digits (chars ds ++ s) = (ds, s).
Proof.
  intros Hd Hs. induction Hd as [|d ds Hd _ IH].
  - destruct s as [|c s]; [done|]. simpl in *. by rewrite Hs.
  - cbn [chars map app span_digits]. rewrite isdigit_char by done. fold (chars ds). rewrite IH.
    do 2 f_equal. unfold chr_0. lia.
Qed.

Lemma fraction_no_digit fp ex : no_digit (fraction fp ++ exponent ex).
Proof. unfold fraction. case_bool_decide; [|done]. by destruct ex as [[]|]. Qed.

Lemma strtod_fraction_text fp ex :
  Forall is_digit fp → strtod_fraction (fraction fp ++ exponent ex) = (fp, exponent ex).
Proof.
  intros Hd. unfold fraction. case_bool_decide as E.
  - subst fp. by destruct ex as [[]|].
  - cbn [app strtod_fraction]. rewrite Z.eqb_refl. apply span_chars; [done|]. by destruct ex as [[]|].
Qed.

(** A digit is not the sign. *)
Lemma chars_no_sign ds : Forall is_digit ds → ds ≠ [] →
  ∃ c s, chars ds = c :: s ∧ (c =? chr_minus) = false ∧ (c =? chr_plus) = false.
Proof.
  intros Hd Hn. destruct ds as [|d ds]; [done|]. apply Forall_cons in Hd as [Hd _]. unfold is_digit in Hd.
  eexists _, _. split; [done|]. unfold chr_0, chr_minus, chr_plus. split; apply Z.eqb_neq; lia.
Qed.

Lemma strtod_exponent_text ex :
  match ex with None => True | Some (_, ds) => ds ≠ [] ∧ Forall is_digit ds end →
  strtod_exponent (exponent ex) = (exponent_val ex, []).
Proof.
  destruct ex as [[neg ds]|]; [|done]. intros [Hn Hd]. cbn [exponent exponent_val strtod_exponent].
  rewrite Z.eqb_refl. cbn [orb]. pose proof (span_chars ds [] Hd I) as Hs. rewrite app_nil_r in Hs.
  destruct (chars_no_sign ds Hd Hn) as (c & s & Ec & E1 & E2).
  destruct neg; cbn [minus app].
  - change (chr_minus =? chr_minus) with true. cbn iota beta. rewrite Hs. by destruct ds.
  - rewrite Ec in *. rewrite E1, E2, Hs. by destruct ds.
Qed.

(** [strtod] reads the number the text writes, and all of it. *)
Lemma strtod_num_text neg ip fp ex : num_ok ip fp ex →
  strtod (num_text neg ip fp ex) =
    let e10 := exponent_val ex - zlen fp in
    let '(mag, erange) := round_fp (digits_val (ip ++ fp) * 10 ^ Z.max 0 e10) (10 ^ Z.max 0 (- e10)) in
    (sign_bit binary64 neg + mag, erange, []).
Proof.
  intros [Hi Hd _ Hx]. apply Forall_app in Hd as [Hdi Hdf]. unfold strtod, num_text.
  assert (ip ≠ []) as Hn by (by destruct Hi as [->|(? & ? & -> & _)]).
  destruct (chars_no_sign ip Hdi Hn) as (c & s & Ec & E1 & E2).
  assert (∀ A (f : bool * bytes → A), f (match minus neg ++ chars ip ++ fraction fp ++ exponent ex with
    | c :: s' => if c =? chr_minus then (true, s') else (false, minus neg ++ chars ip ++ fraction fp ++ exponent ex)
    | [] => (false, minus neg ++ chars ip ++ fraction fp ++ exponent ex) end) =
    f (neg, chars ip ++ fraction fp ++ exponent ex)) as E.
  { intros A f. f_equal. destruct neg; cbn [minus app]; [done|]. rewrite Ec. cbn [app]. by rewrite E1. }
  erewrite (E _ (λ '(neg, s), _)). cbv beta iota.
  rewrite span_chars by (done || apply fraction_no_digit). by rewrite strtod_fraction_text, strtod_exponent_text.
Qed.

Lemma strchr_app c a b : c ∉ a → strchr c (a ++ b) = strchr c b.
Proof.
  induction a as [|x a IH]; [done|]. intros [Hx Ha]%not_elem_of_cons. cbn [app strchr].
  by rewrite (proj2 (Z.eqb_neq x c)), IH by done.
Qed.

Lemma strchr_notin c a : c ∉ a → strchr c a = None.
Proof. intros H. rewrite <- (app_nil_r a), strchr_app by done. done. Qed.

Lemma chars_notin c ds : Forall is_digit ds → l_isdigit c = false → c ∉ chars ds.
Proof.
  intros Hd Hc Hin. apply list_elem_of_fmap in Hin as (d & -> & Hin). rewrite Forall_forall in Hd.
  rewrite isdigit_char in Hc; [done|]. by apply Hd.
Qed.

Lemma minus_notin c neg : c ≠ chr_minus → c ∉ minus neg.
Proof. destruct neg; [|intros _; apply not_elem_of_nil]. by intros H ->%list_elem_of_singleton. Qed.

(** The mantissa has no e, and a point only before a fraction. *)
Lemma mantissa_marks neg ip fp : Forall is_digit (ip ++ fp) →
  (chr_e ∉ minus neg ++ chars ip ++ fraction fp) ∧ (chr_dot ∉ minus neg ++ chars ip) ∧
  (fp ≠ [] → ∀ s, strchr chr_dot (minus neg ++ chars ip ++ fraction fp ++ s) ≠ None).
Proof.
  intros [Hi Hf]%Forall_app. rewrite !not_elem_of_app.
  assert (chr_dot ∉ (minus neg ++ chars ip)) as Hdot
    by (rewrite not_elem_of_app; split; [by apply minus_notin|by apply chars_notin]).
  split; [split; [by apply minus_notin|split; [by apply chars_notin|]]|split; [by rewrite <- not_elem_of_app|]].
  - unfold fraction. case_bool_decide; [apply not_elem_of_nil|]. apply not_elem_of_cons. split; [done|by apply chars_notin].
  - intros Hn s. rewrite app_assoc, strchr_app by done. unfold fraction. rewrite bool_decide_false by done. done.
Qed.

Lemma skip_zeros_chars ds : Forall is_digit ds → skip_zeros (chars ds) = chars (drop_zeros ds).
Proof.
  induction 1 as [|d ds Hd Hds IH]; [done|]. cbn [chars map skip_zeros drop_zeros].
  destruct (Z.eqb_spec (chr_0 + d) chr_0) as [E|E].
  - assert (d = 0) as -> by lia. exact IH.
  - destruct d; [lia|done..].
Qed.

Lemma dtostr_fixed value neg ip fp :
  sprintf_g17 value = minus neg ++ chars ip ++ fraction fp → Forall is_digit (ip ++ fp) → zlen (sprintf_g17 value) < 90 →
  jsonp_dtostr 100 value = Some (num_text neg ip (if bool_decide (fp = []) then [0] else fp) None).
Proof.
  intros Es Hd Hl. unfold jsonp_dtostr. destruct (mantissa_marks neg ip fp Hd) as (He & Hdot & Hfr).
  destruct (_ >=? 100) eqn:E1; [blia|]. rewrite Es in *. rewrite (strchr_notin _ _ He).
  rewrite (bool_decide_true (None = None)), andb_true_r by done. case_bool_decide as E2; cbn [andb].
  - destruct (_ + 3 >=? 100) eqn:E3; [blia|]. assert (fp = []) as ->.
    { destruct fp; [done|]. destruct (Hfr ltac:(done) []). by rewrite app_nil_r. }
    cbn [fraction] in *. rewrite bool_decide_true in * by done. rewrite app_nil_r in *.
    rewrite strchr_notin; [unfold num_text; by rewrite app_nil_r, <- app_assoc|].
    rewrite not_elem_of_app. split; [done|]. unfold chr_e, chr_dot, chr_0. intros [H|[H|H%elem_of_nil]%elem_of_cons]%elem_of_cons; done.
  - rewrite (strchr_notin _ _ He). rewrite bool_decide_false; [unfold num_text; by rewrite app_nil_r|].
    intros ->. apply E2. apply strchr_notin. change (fraction []) with (@nil Z). by rewrite app_nil_r.
Qed.

Lemma dtostr_exp value neg ip fp xneg xd :
  sprintf_g17 value =
    minus neg ++ chars ip ++ fraction fp ++ chr_e :: (if xneg : bool then chr_minus else chr_plus) :: chars xd →
  Forall is_digit (ip ++ fp) → Forall is_digit xd → zlen (sprintf_g17 value) < 90 →
  jsonp_dtostr 100 value = Some (num_text neg ip fp (Some (xneg, drop_zeros xd))).
Proof.
  intros Es Hd Hx Hl. unfold jsonp_dtostr. destruct (mantissa_marks neg ip fp Hd) as (He & _ & _).
  destruct (_ >=? 100) eqn:E1; [blia|]. rewrite Es. set (M := minus neg ++ chars ip ++ fraction fp) in *.
  set (sgn := if xneg then chr_minus else chr_plus).
  assert (minus neg ++ chars ip ++ fraction fp ++ chr_e :: sgn :: chars xd = M ++ chr_e :: sgn :: chars xd) as ->
    by (unfold M; by rewrite <- !app_assoc).
  assert (strchr chr_e (M ++ chr_e :: sgn :: chars xd) = Some (chr_e :: sgn :: chars xd)) as Ee
    by (by rewrite strchr_app).
  rewrite Ee, (bool_decide_false (Some _ = None)), andb_false_r by done. cbn [andb]. rewrite Ee. cbn [drop].
  rewrite ?drop_0, skip_zeros_chars by done. unfold num_text, exponent.
  replace (minus neg ++ chars ip ++ fraction fp ++ chr_e :: minus xneg ++ chars (drop_zeros xd))
    with (M ++ chr_e :: minus xneg ++ chars (drop_zeros xd)) by (unfold M; by rewrite <- !app_assoc).
  f_equal. unfold sgn. destruct xneg.
  - change (chr_minus =? chr_minus) with true. cbn iota. cbn [minus].
    replace (M ++ chr_e :: chr_minus :: chars xd) with ((M ++ [chr_e; chr_minus]) ++ chars xd) by (by rewrite <- app_assoc).
    rewrite take_app_length' by (rewrite !length_app; lia). by rewrite <- app_assoc.
  - change (chr_plus =? chr_minus) with false. cbn iota. cbn [minus].
    replace (M ++ chr_e :: chr_plus :: chars xd) with ((M ++ [chr_e]) ++ chr_plus :: chars xd) by (by rewrite <- app_assoc).
    rewrite take_app_length' by (rewrite !length_app; lia). by rewrite <- app_assoc.
Qed.

(** ** Printing and reading back *)

(** The reals that survive: zero and the normal numbers. *)
Definition normal_real (d : Z) : bool :=
  match decode_fp binary64 d with Finite _ m _ => (m =? 0) || (2 ^ 52 <=? m) | _ => false end.

Lemma round17_bounds n d D X a :
  0 < n → 0 < d → 0 ≤ a → n < d * 10 ^ a → d ≤ n * 10 ^ a → round17 n d = (D, X) → - a ≤ X ≤ a.
Proof.
  intros Hn Hd Ha H1 H2. unfold round17. destruct (dec_exp_spec n d Hn Hd) as [_ HK].
  set (X0 := dec_exp n d) in *. specialize (HK (a + Z.abs X0) ltac:(lia) ltac:(lia)). cbv zeta in HK.
  assert (X0 < a) as Hlt.
  { assert (X0 + (a + Z.abs X0) < a + (a + Z.abs X0)); [|lia]. apply (Z.pow_lt_mono_r_iff 10); [lia..|].
    apply (Z.mul_lt_mono_pos_l d); [done|]. rewrite (Z.pow_add_r 10 a) by lia.
    pose proof (Z.pow_pos_nonneg 10 (a + Z.abs X0) ltac:(lia) ltac:(lia)). nia. }
  assert (- a ≤ X0) as Hge.
  { assert (Z.abs X0 < X0 + (a + Z.abs X0) + 1); [|lia]. apply (Z.pow_lt_mono_r_iff 10); [lia..|].
    apply (Z.mul_lt_mono_pos_l d); [done|]. rewrite (Z.pow_add_r 10 a) in HK by lia.
    pose proof (Z.pow_pos_nonneg 10 (Z.abs X0) ltac:(lia) ltac:(lia)). nia. }
  destruct (_ =? 10 ^ 17); intros [= _ <-]; lia.
Qed.

Lemma double_bounds m e D X :
  canonical binary64 m e → 0 < m → round17 (m * 2 ^ Z.max 0 e) (2 ^ Z.max 0 (- e)) = (D, X) →
  - 330 ≤ X ≤ 330 ∧ 10 ^ 16 ≤ D < 10 ^ 17.
Proof.
  intros (Hm & He & Hn & Hinf) Hm52 Hr. change (mw binary64) with 52 in *. change (emin binary64) with (-1074) in *.
  change (inf_bits binary64) with (2047 * 2 ^ 52) in *. change (2 ^ (52 + 1)) with (2 * 2 ^ 52) in Hm.
  assert (e ≤ 971) as He' by (destruct Hn; lia).
  assert (1 ≤ 2 ^ Z.max 0 e ≤ 2 ^ 971) as Ha
    by (split; [change 1 with (2 ^ 0); apply Z.pow_le_mono_r; lia|apply Z.pow_le_mono_r; lia]).
  assert (1 ≤ 2 ^ Z.max 0 (- e) ≤ 2 ^ 1074) as Hb
    by (split; [change 1 with (2 ^ 0); apply Z.pow_le_mono_r; lia|apply Z.pow_le_mono_r; lia]).
  split; [|by apply round17_spec in Hr as (_ & ? & _); [|nia|lia]].
  revert Hr. generalize (2 ^ Z.max 0 e) (2 ^ Z.max 0 (- e)) Ha Hb. clear Ha Hb Hinf Hn. intros a b Ha Hb.
  assert (0 < m * a) as Hma by nia.
  assert (2 ^ 53 * 2 ^ 971 < 10 ^ 330 ∧ 2 ^ 1074 ≤ 10 ^ 330) as C by (split; vm_compute; congruence).
  apply (round17_bounds _ _ _ _ 330); [done|lia|done|..]; revert Ha Hb C; generalize (2 ^ 971) (2 ^ 1074) (10 ^ 330);
    intros P Q T Ha Hb [C1 C2].
  - assert (m * a ≤ 2 ^ 53 * P) by (apply Z.mul_le_mono_nonneg; lia). nia.
  - assert (1 * T ≤ m * a * T) by (apply Z.mul_le_mono_nonneg_r; nia). lia.
Qed.

(** A text whose digits are those of [round17], at whatever place the point is,
    is read as the number it was printed from. *)
Lemma read_back neg m e D X ip fp ex :
  canonical binary64 m e → 2 ^ 52 ≤ m → round17 (m * 2 ^ Z.max 0 e) (2 ^ Z.max 0 (- e)) = (D, X) →
  num_ok ip fp ex → 0 ≤ exponent_val ex - zlen fp + 400 →
  digits_val (ip ++ fp) * 10 ^ (exponent_val ex - zlen fp + 400) = D * 10 ^ (X - 16 + 400) →
  jsonp_strtod (num_text neg ip fp ex) = Val (Some (sign_bit binary64 neg + ((e - emin binary64) * 2 ^ mw binary64 + m))).
Proof.
  intros Hc Hm Hr Ho Hx HND. destruct (double_bounds m e D X Hc ltac:(lia) Hr) as [HX HD].
  pose proof (digits_val_nonneg _ (num_digits _ _ _ Ho)).
  pose proof (Z.pow_pos_nonneg 10 (X - 16 + 400) ltac:(lia) ltac:(lia)).
  pose proof (Z.pow_pos_nonneg 10 (exponent_val ex - zlen fp + 400) ltac:(lia) Hx).
  unfold jsonp_strtod. rewrite strtod_num_text by done. cbv zeta.
  rewrite (digits17_read m e D X _ _ 400) by (done || lia || nia). done.
Qed.

Lemma strip_zeros_spec l : ∃ k, zlen (strip_zeros l) + Z.of_nat k = zlen l ∧
  (Forall is_digit l → Forall is_digit (strip_zeros l)) ∧
  ∀ a, digits_val (a ++ l) = digits_val (a ++ strip_zeros l) * 10 ^ Z.of_nat k.
Proof.
  destruct (strip_zeros_split l) as [k E]. exists k. rewrite E at 2 3. rewrite zlen_app. unfold zlen at 3.
  rewrite length_replicate. split; [done|]. split; [by intros [? _]%Forall_app|]. intros a.
  rewrite E at 1. rewrite app_assoc, digits_val_app, digits_val_zeros. unfold zlen. rewrite length_replicate. lia.
Qed.

Lemma drop_zeros_val l : digits_val (drop_zeros l) = digits_val l.
Proof.
  destruct (drop_zeros_split l) as [k E]. rewrite E at 2. rewrite digits_val_app, digits_val_zeros. lia.
Qed.

Lemma exp_digits_spec x : 0 < x < 1000 →
  Forall is_digit (exp_digits x) ∧ zlen (exp_digits x) ≤ 3 ∧ digits_val (exp_digits x) = x ∧ drop_zeros (exp_digits x) ≠ [].
Proof.
  intros Hx. assert (Forall is_digit (exp_digits x) ∧ zlen (exp_digits x) ≤ 3 ∧ digits_val (exp_digits x) = x) as (H1 & H2 & H3).
  { unfold exp_digits. destruct (Z.ltb_spec x 100); unfold zlen; rewrite digits_of_length.
    all: split; [apply digits_of_digit|]; split; [lia|]; apply digits_of_val; lia. }
  do 3 (split; [done|]). intros E. pose proof (drop_zeros_val (exp_digits x)) as Hz. rewrite E, H3 in Hz. unfold digits_val in Hz.
  simpl in Hz. lia.
Qed.

Lemma zlen_fraction l : zlen (fraction l) ≤ 1 + zlen l.
Proof.
  unfold fraction. case_bool_decide; [rewrite zlen_nil; pose proof (zlen_nonneg l); lia|].
  rewrite zlen_cons. unfold chars, zlen. rewrite length_map. lia.
Qed.

Lemma zlen_chars l : zlen (chars l) = zlen l.
Proof. unfold chars, zlen. by rewrite length_map. Qed.

(** The two styles of the text, with the value of their digits. *)
Lemma g17_shape D X : - 330 ≤ X ≤ 330 → 10 ^ 16 ≤ D < 10 ^ 17 →
  ∃ ip fp ex, (ip = [0] ∨ ∃ d ds, ip = d :: ds ∧ d ≠ 0) ∧ Forall is_digit (ip ++ fp) ∧ 1 ≤ exponent_val ex - zlen fp + 400 ∧
    digits_val (ip ++ fp) * 10 ^ (exponent_val ex - zlen fp + 400) = D * 10 ^ (X - 16 + 400) ∧
    zlen (g17_text D X) < 80 ∧
    match ex with
    | None => g17_text D X = chars ip ++ fraction fp
    | Some (neg, xd) => 
        g17_text D X = chars ip ++ fraction fp ++ chr_e :: (if neg : bool then chr_minus else chr_plus) :: chars xd ∧
        Forall is_digit xd ∧ drop_zeros xd ≠ []
    end.
Proof.
  intros HX HD. unfold g17_text. destruct (digits_of_first 16 D HD) as (d0 & tl & Eds & Hd0).
  pose proof (digits_of_val 17 D ltac:(change (10 ^ Z.of_nat 17) with (10 ^ 17); lia)) as Hv.
  pose proof (digits_of_digit 17 D) as Hd. pose proof (digits_of_length 17 D) as Hl. rewrite Eds in *.
  assert (length tl = 16%nat) as Hlt by (simpl in Hl; lia). pose proof Hd as [Hd0' Hdt]%Forall_cons.
  destruct ((X <? -4) || (17 <=? X)) eqn:Es.
  - destruct (strip_zeros_spec tl) as (k & Hk & Hsd & Hsv). change (drop 1 (d0 :: tl)) with (drop 0 tl). rewrite drop_0.
    destruct (exp_digits_spec (Z.abs X)) as (Hx1 & Hx2 & Hx3 & Hx4); [blia|].
    exists [d0], (strip_zeros tl), (Some (X <? 0, exp_digits (Z.abs X))).
    assert (zlen tl = 16) as Hz by (unfold zlen; lia). rewrite Hz in Hk. pose proof (zlen_nonneg (strip_zeros tl)).
    assert (exponent_val (Some (X <? 0, exp_digits (Z.abs X))) = X) as ->
      by (cbn [exponent_val]; rewrite Hx3; destruct (Z.ltb_spec X 0); lia).
    split; [right; by exists d0, []|]. split; [constructor; auto|]. split; [lia|]. split; [|split].
    + rewrite <- Hv, (Hsv [d0] : digits_val (d0 :: tl) = _), <- Z.mul_assoc, <- Z.pow_add_r by lia. do 2 f_equal. lia.
    + rewrite zlen_app, zlen_app, !zlen_cons, !zlen_chars. pose proof (zlen_fraction (strip_zeros tl)).
      change (zlen (take 1 (d0 :: tl))) with 1. lia.
    + split; [done|]. done.
  - destruct (Z.leb_spec 0 X).
    + set (n := Z.to_nat (X + 1)). destruct (strip_zeros_spec (drop n (d0 :: tl))) as (k & Hk & Hsd & Hsv).
      exists (take n (d0 :: tl)), (strip_zeros (drop n (d0 :: tl))), None.
      assert (zlen (drop n (d0 :: tl)) = 16 - X) as Hz by (rewrite zlen_drop; unfold zlen; simpl length; blia).
      rewrite Hz in Hk. pose proof (zlen_nonneg (strip_zeros (drop n (d0 :: tl)))).
      split; [right; unfold n; replace (Z.to_nat (X + 1)) with (S (Z.to_nat X)) by lia; by eexists _, _|].
      split; [apply Forall_app; split; [by apply Forall_take|by apply Hsd, Forall_drop]|].
      split; [cbn [exponent_val]; lia|]. split; [|split; [|done]].
      * cbn [exponent_val]. pose proof (Hsv (take n (d0 :: tl))) as E. rewrite take_drop, Hv in E.
        rewrite E, <- Z.mul_assoc, <- Z.pow_add_r by lia. do 2 f_equal. lia.
      * rewrite zlen_app, zlen_chars, zlen_take. pose proof (zlen_fraction (strip_zeros (drop n (d0 :: tl)))).
        assert (zlen (d0 :: tl) = 17) by (unfold zlen; simpl; lia). lia.
    + destruct (strip_zeros_spec (d0 :: tl)) as (k & Hk & Hsd & Hsv).
      exists [0], (replicate (Z.to_nat (- X - 1)) 0 ++ strip_zeros (d0 :: tl)), None.
      assert (zlen (d0 :: tl) = 17) as Hz by (unfold zlen; simpl; lia). rewrite Hz in Hk.
      pose proof (zlen_nonneg (strip_zeros (d0 :: tl))).
      assert (zlen (replicate (Z.to_nat (- X - 1)) 0 ++ strip_zeros (d0 :: tl)) = - X - 1 + zlen (strip_zeros (d0 :: tl))) as Hzf
        by (rewrite zlen_app; unfold zlen; rewrite length_replicate; lia).
      split; [by left|]. split; [|split; [cbn [exponent_val]; blia|split; [|split; [|done]]]].
      * constructor; [done|]. apply Forall_app. split; [apply Forall_replicate; done|auto].
      * rewrite Hzf. cbn [exponent_val app]. rewrite digits_val_cons, digits_val_app, digits_val_zeros.
        rewrite <- Hv, (Hsv [] : digits_val (d0 :: tl) = _). cbn [app]. rewrite <- Z.mul_assoc, <- Z.pow_add_r by lia.
        rewrite !Z.mul_0_l, !Z.add_0_l. do 2 f_equal. lia.
      * rewrite zlen_app, zlen_chars. pose proof (zlen_fraction (replicate (Z.to_nat (- X - 1)) 0 ++ strip_zeros (d0 :: tl))).
        change (zlen [0]) with 1. blia.
Qed.

(** Zero and every normal double is printed as a number with a fraction or an
    exponent, and read back from it. *)
Lemma real_text d : is_u 64 d → normal_real d = true →
  ∃ neg ip fp ex, jsonp_dtostr 100 d = Some (num_text neg ip fp ex) ∧ num_ok ip fp ex ∧
    jsonp_strtod (num_text neg ip fp ex) = Val (Some d).
Proof.
  intros Hd Hn. unfold normal_real in Hn. destruct (decode_fp binary64 d) as [neg m e| |] eqn:Ed; try done.
  destruct (decode_finite binary64 d neg m e Hd Ed) as [Hc Eb].
  destruct (Z.eqb_spec m 0) as [->|Hm0].
  - exists neg, [0], [0], None.
    assert (sprintf_g17 d = minus neg ++ chars [0] ++ fraction []) as Es by (unfold sprintf_g17; by rewrite Ed).
    assert (num_ok [0] [0] None) as Ho by (split; [by left|by repeat constructor|by left|done]).
    split; [rewrite (dtostr_fixed d neg [0] [] Es); [done|by repeat constructor|by rewrite Es; destruct neg]|].
    split; [done|]. unfold jsonp_strtod. rewrite strtod_num_text by done. rewrite Eb.
    destruct Hc as (_ & _ & [->|H] & _); [|done]. by destruct neg.
  - assert (2 ^ 52 ≤ m) as Hm by (destruct (Z.leb_spec (2 ^ 52) m); done).
    destruct (round17 (m * 2 ^ Z.max 0 e) (2 ^ Z.max 0 (- e))) as [D X] eqn:Er.
    destruct (double_bounds m e D X Hc ltac:(lia) Er) as [HX HD].
    destruct (g17_shape D X HX HD) as (ip & fp & ex & Hi & Hdg & Hfp & HND & Hlen & Hshape).
    assert (sprintf_g17 d = minus neg ++ g17_text D X) as Es
      by (unfold sprintf_g17; rewrite Ed, (proj2 (Z.eqb_neq m 0)), Er; done).
    assert (zlen (sprintf_g17 d) < 90) as Hl by (rewrite Es, zlen_app; destruct neg; simpl; unfold zlen at 1; simpl; lia).
    destruct ex as [[xneg xd]|].
    + destruct Hshape as (Eg & Hxd & Hx0). exists neg, ip, fp, (Some (xneg, drop_zeros xd)).
      assert (exponent_val (Some (xneg, drop_zeros xd)) = exponent_val (Some (xneg, xd))) as Ex
        by (cbn [exponent_val]; by rewrite drop_zeros_val).
      assert (num_ok ip fp (Some (xneg, drop_zeros xd))) as Ho.
      { split; [done..|by right|]. split; [done|]. destruct (drop_zeros_split xd) as [k E]. rewrite E in Hxd.
        by apply Forall_app in Hxd as [_ ?]. }
      split; [apply dtostr_exp; [by rewrite Es, Eg|done..]|]. split; [done|]. rewrite Eb.
      eapply read_back; [done..|rewrite Ex; lia|by rewrite Ex].
    + exists neg, ip, (if bool_decide (fp = []) then [0] else fp), None.
      split; [apply dtostr_fixed; [by rewrite Es, Hshape|done..]|]. rewrite Eb. case_bool_decide as E.
      * subst fp. assert (num_ok ip [0] None) as Ho.
        { split; [done| |by left|done]. rewrite app_nil_r in Hdg. apply Forall_app. split; [done|by repeat constructor]. }
        split; [done|]. eapply read_back; [done..|]. rewrite <- HND, app_nil_r, digits_val_app. cbn [exponent_val].
        change (zlen [0]) with 1. change (digits_val [0]) with 0. change (zlen (@nil Z)) with 0.
        change (0 - 0 + 400) with (1 + (0 - 1 + 400)). rewrite (Z.pow_add_r 10 1) by lia. lia.
      * assert (num_ok ip fp None) as Ho by (split; [done..|by left|done]). split; [done|].
        eapply read_back; [done..|lia|done].
Qed.

(** ** The text is ASCII *)

Definition ascii (b : Z) : Prop := 0 < b < 0x80.

(** Every finite double has a text. *)
Lemma dtostr_finite d : is_u 64 d → is_finite binary64 d = true → ∃ t, jsonp_dtostr 100 d = Some t.
Proof.
  intros Hd Hf. assert (zlen (sprintf_g17 d) < 90) as Hl.
  { unfold is_finite in Hf. unfold sprintf_g17. destruct (decode_fp binary64 d) as [neg m e| |] eqn:Ed; try done.
    destruct (decode_finite binary64 d neg m e Hd Ed) as [Hc _]. rewrite zlen_app.
    assert (zlen (minus neg) ≤ 1) by (by destruct neg). destruct (Z.eqb_spec m 0) as [->|Hm0]; [unfold zlen at 2; simpl; lia|].
    destruct (round17 (m * 2 ^ Z.max 0 e) (2 ^ Z.max 0 (- e))) as [D X] eqn:Er.
    destruct (double_bounds m e D X Hc) as [HX HD]; [destruct Hc as ([? _] & _); lia|done|].
    destruct (g17_shape D X HX HD) as (_ & _ & _ & _ & _ & _ & _ & Hlen & _). lia. }
  unfold jsonp_dtostr. destruct (_ >=? 100) eqn:?; [blia|]. destruct (_ + 3 >=? 100) eqn:?; [blia|]. rewrite andb_false_r.
  destruct (strchr chr_e _); by eexists.
Qed.

Lemma chars_ascii ds : Forall is_digit ds → Forall ascii (chars ds).
Proof. induction 1 as [|d ds Hd _ IH]; constructor; [unfold ascii, is_digit, chr_0 in *; lia|done]. Qed.

Lemma minus_ascii neg : Forall ascii (minus neg).
Proof. destruct neg; repeat constructor. Qed.

Lemma fraction_ascii ds : Forall is_digit ds → Forall ascii (fraction ds).
Proof. intros Hd. unfold fraction. case_bool_decide; constructor; [done|by apply chars_ascii]. Qed.

Lemma strip_zeros_digits l : Forall is_digit l → Forall is_digit (strip_zeros l).
Proof. destruct (strip_zeros_spec l) as (_ & _ & H & _). done. Qed.

Lemma g17_ascii D X : Forall ascii (g17_text D X).
Proof.
  pose proof (digits_of_digit 17 D) as Hd. unfold g17_text. destruct (_ || _); [|destruct (0 <=? X)].
  - apply Forall_app. split; [by apply chars_ascii, Forall_take|]. apply Forall_app.
    split; [by apply fraction_ascii, strip_zeros_digits, Forall_drop|]. constructor; [done|].
    constructor; [by destruct (X <? 0)|]. apply chars_ascii. unfold exp_digits. destruct (_ <? 100); apply digits_of_digit.
  - apply Forall_app. split; [by apply chars_ascii, Forall_take|by apply fraction_ascii, strip_zeros_digits, Forall_drop].
  - apply Forall_app. split; [by apply chars_ascii; repeat constructor|]. apply fraction_ascii, Forall_app.
    split; [by apply Forall_replicate|by apply strip_zeros_digits].
Qed.

Lemma sprintf_g17_ascii d : Forall ascii (sprintf_g17 d).
Proof.
  unfold sprintf_g17. destruct (decode_fp binary64 d) as [neg m e|neg|].
  - apply Forall_app. split; [apply minus_ascii|]. destruct (m =? 0); [repeat constructor|].
    destruct (round17 _ _). apply g17_ascii.
  - apply Forall_app. split; [apply minus_ascii|repeat constructor].
  - repeat constructor.
Qed.

Lemma strchr_suffix c s t : strchr c s = Some t → ∃ p, s = p ++ t.
Proof.
  induction s as [|x s IH]; [done|]. cbn [strchr]. destruct (_ =? c); [intros [= <-]; by exists []|].
  intros [p ->]%IH. by exists (x :: p).
Qed.

Lemma skip_zeros_suffix s : ∃ p, s = p ++ skip_zeros s.
Proof.
  induction s as [|x s [p E]]; [by exists []|]. cbn [skip_zeros]. destruct (_ =? chr_0); [|by exists []].
  exists (x :: p). cbn [app]. by rewrite <- E.
Qed.

Lemma dtostr_ascii size d t : jsonp_dtostr size d = Some t → Forall ascii t.
Proof.
  unfold jsonp_dtostr. pose proof (sprintf_g17_ascii d) as Ha. destruct (_ >=? size); [done|].
  set (no_mark := bool_decide _ && bool_decide _). destruct (no_mark && _); [done|].
  set (buffer := if no_mark then _ else _). assert (Forall ascii buffer) as Hb.
  { unfold buffer. destruct no_mark; [|done]. apply Forall_app. split; [done|repeat constructor]. }
  destruct (strchr chr_e buffer) as [from_e|] eqn:Es; intros [= <-]; [|done].
  apply Forall_app. split; [by apply Forall_take|].
  destruct (skip_zeros_suffix (drop 1 (drop 1 from_e))) as [p E]. destruct (strchr_suffix _ _ _ Es) as [q Eq].
  rewrite Eq in Hb. apply Forall_app in Hb as [_ Hb]. apply (Forall_drop _ 1), (Forall_drop _ 1) in Hb. rewrite E in Hb.
  by apply Forall_app in Hb as [_ Hb].
Qed.

(** ** Integers *)

Lemma pretty_char_val x : (x < 10)%N → char_val (pretty_N_char x) = chr_0 + Z.of_N x.
Proof.
  intros Hx. assert (x = 0 ∨ x = 1 ∨ x = 2 ∨ x = 3 ∨ x = 4 ∨ x = 5 ∨ x = 6 ∨ x = 7 ∨ x = 8 ∨ x = 9)%N as Hc by lia.
  by repeat destruct Hc as [->|Hc]; subst.
Qed.

Lemma pretty_go_digits x : (0 < x)%N → ∀ s, ∃ d ds,
  bytes_of (pretty_N_go x s) = chars (d :: ds) ++ bytes_of s ∧ Forall is_digit (d :: ds) ∧
  digits_val (d :: ds) = Z.of_N x ∧ d ≠ 0.
Proof.
  induction (N.lt_wf_0 x) as [x _ IH]. intros Hx s. rewrite pretty_N_go_step by done.
  pose proof (N.mod_upper_bound x 10 ltac:(lia)) as Hm. pose proof (N.div_mod x 10 ltac:(lia)) as Hdm.
  set (c := pretty_N_char (x mod 10)). assert (char_val c = chr_0 + Z.of_N (x mod 10)) as Hc by (by apply pretty_char_val).
  assert (is_digit (Z.of_N (x mod 10))) as Hd by (revert Hm; generalize (x mod 10)%N; unfold is_digit; intros; lia).
  destruct (decide (x / 10 = 0)%N) as [E|E].
  - rewrite E, pretty_N_go_0. exists (Z.of_N (x mod 10)), []. unfold bytes_of. cbn. rewrite Hc. split; [done|].
    split; [constructor; [done|constructor]|].
    unfold digits_val. simpl. revert E Hdm. generalize (x / 10)%N (x mod 10)%N. intros; lia.
  - destruct (IH (x / 10)%N ltac:(apply N.div_lt; lia) ltac:(lia) (String c s)) as (d & ds & -> & Hds & Hv & Hd0).
    exists d, (ds ++ [Z.of_N (x mod 10)]). unfold chars. rewrite (map_app _ (d :: ds) [_] : map _ (d :: ds ++ _) = _), <- app_assoc.
    split; [unfold bytes_of; cbn; by rewrite Hc|]. split; [apply (Forall_app_2 _ (d :: ds)); [done|constructor; [done|constructor]]|].
    split; [|done]. rewrite (digits_val_app (d :: ds) [_] : digits_val (d :: ds ++ _) = _), Hv.
    change (zlen [Z.of_N (x mod 10)]) with 1. unfold digits_val. simpl. revert Hdm. generalize (x / 10)%N (x mod 10)%N. intros; lia.
Qed.

(** The decimal text of a number, as its digits. *)
Lemma sprintf_u_digits n : 0 ≤ n → ∃ ds, bytes_of (sprintf_u n) = chars ds ∧ Forall is_digit ds ∧ digits_val ds = n ∧
  (ds = [0] ∨ ∃ d l, ds = d :: l ∧ d ≠ 0).
Proof.
  intros Hn. unfold sprintf_u, pretty, pretty_N. case_decide as E.
  - exists [0]. split; [done|]. split; [by repeat constructor|]. split; [simpl; unfold digits_val; simpl; lia|by left].
  - destruct (pretty_go_digits (Z.to_N n) ltac:(lia) EmptyString) as (d & ds & Eb & Hd & Hv & Hd0).
    exists (d :: ds). rewrite Eb, app_nil_r. split; [done|]. split; [done|]. split; [lia|]. right. by exists d, ds.
Qed.
