(* ===== verification/Jansson.v ===== *)
(** * JSON values ([src/deps/jansson/src/value.c], [hashtable.c])

    The part of the bundled Jansson that libpomelo works with. An object is a
    hash table: one list of all pairs, in iteration order, in which the pairs
    of a bucket are next to each other; the bucket array points to the first
    and the last pair of each run. The model keeps the list and the index of
    the bucket count, and reads a bucket as its run. Allocation succeeds.
    [json_t *] arguments that may be NULL are options. *)

From S2P Require Import Prelude Float Utf8.
Local Open Scope Z_scope.

(** ** Hash tables *)

Definition hash_str (str : string) : Z :=
  foldl (λ hash c, u64 (u64 (u64 (Z.shiftl hash 5) + hash) + u64 (s8 c))) 5381 (bytes_of str).

Definition primes : list Z := [
  5; 13; 23; 53; 97; 193; 389; 769; 1543; 3079; 6151; 12289; 24593;
  49157; 98317; 196613; 393241; 786433; 1572869; 3145739; 6291469;
  12582917; 25165843; 50331653; 100663319; 201326611; 402653189;
  805306457; 1610612741 ].

(** [num_buckets] is an index into [primes]; [size] is the length of the list. *)
Record hashtable_t (V : Type) := mkTable { num_buckets_ix : nat; ht_list : list (string * V) }.
Arguments mkTable {V} _ _.
Arguments num_buckets_ix {V} _.
Arguments ht_list {V} _.

Section Hashtable.
Context {V : Type}.
Implicit Types (h : hashtable_t V) (key : string) (value : V).

Definition num_buckets h : Z := nth (num_buckets_ix h) primes 0.

Definition hashtable_init : hashtable_t V := mkTable 0 [].

(** The loop from [bucket->first] to [bucket->last]. *)
Fixpoint find_pair (n index : Z) key (l : list (string * V)) : option V :=
  match l with
  | [] => None
  | (k, v) :: l =>
      if (hash_str k mod n =? index) && (hash_str k =? hash_str key) && bool_decide (k = key)
      then Some v else find_pair n index key l
  end.

Definition hashtable_find_pair h key : option V :=
  find_pair (num_buckets h) (hash_str key mod num_buckets h) key (ht_list h).

(** Before the first pair of the bucket, or at the end of the list. *)
Fixpoint insert_to_bucket (n index : Z) (p : string * V) (l : list (string * V))
  : list (string * V) :=
  match l with
  | [] => [p]
  | q :: l' =>
      if hash_str (fst q) mod n =? index then p :: l else q :: insert_to_bucket n index p l'
  end.

Definition hashtable_do_rehash h : hashtable_t V :=
  let h' := mkTable (S (num_buckets_ix h)) [] in
  let new_size := num_buckets h' in
  mkTable (S (num_buckets_ix h))
    (foldl (λ l p, insert_to_bucket new_size (hash_str (fst p) mod new_size) p l) [] (ht_list h)).

(** [pair->value = value] of the pair of [key]. *)
Fixpoint replace_value key value (l : list (string * V)) : list (string * V) :=
  match l with
  | [] => []
  | (k, v) :: l => if bool_decide (k = key) then (k, value) :: l else (k, v) :: replace_value key value l
  end.

Definition hashtable_set h key value : hashtable_t V :=
  let h := if num_buckets h <=? zlen (ht_list h) then hashtable_do_rehash h else h in
  let n := num_buckets h in
  let index := hash_str key mod n in
  match hashtable_find_pair h key with
  | Some _ => mkTable (num_buckets_ix h) (replace_value key value (ht_list h))
  | None => mkTable (num_buckets_ix h) (insert_to_bucket n index (key, value) (ht_list h))
  end.

Definition hashtable_get h key : option V := hashtable_find_pair h key.

Fixpoint remove_pair key (l : list (string * V)) : list (string * V) :=
  match l with
  | [] => []
  | (k, v) :: l => if bool_decide (k = key) then l else (k, v) :: remove_pair key l
  end.

(** [None] is the return value -1: there is no such key. *)
Definition hashtable_del h key : option (hashtable_t V) :=
  match hashtable_find_pair h key with
  | Some _ => Some (mkTable (num_buckets_ix h) (remove_pair key (ht_list h)))
  | None => None
  end.

Definition hashtable_clear h : hashtable_t V := mkTable (num_buckets_ix h) [].

(** ** A hash table is a finite map *)

Definition ht_wf h : Prop := NoDup (ht_list h).*1.
Definition ht_map h : gmap string V := list_to_map (ht_list h).

Lemma find_pair_assoc n key l :
  find_pair n (hash_str key mod n) key l = (list_to_map l : gmap string V) !! key.
Proof.
  induction l as [|[k v] l IH]; [done|]. cbn [find_pair list_to_map foldr fst snd].
  case_bool_decide as E.
  - subst k. rewrite !Z.eqb_refl. simpl. by rewrite lookup_insert_eq.
  - rewrite andb_false_r, IH, lookup_insert_ne; done.
Qed.

Lemma get_map h key : hashtable_get h key = ht_map h !! key.
Proof. apply find_pair_assoc. Qed.

Lemma insert_to_bucket_perm n i p l : insert_to_bucket n i p l ≡ₚ p :: l.
Proof.
  induction l as [|q l IH]; [done|]. simpl. case_match; [done|]. rewrite IH. apply perm_swap.
Qed.

Lemma rehash_perm h : ht_list (hashtable_do_rehash h) ≡ₚ ht_list h.
Proof.
  unfold hashtable_do_rehash. cbv zeta. cbn [ht_list].
  assert (∀ l acc n, foldl (λ l p, insert_to_bucket n (hash_str (fst p) mod n) p l) acc l
    ≡ₚ acc ++ l) as Hf; [|by rewrite Hf].
  induction l as [|p l IH]; intros acc n; [by rewrite app_nil_r|]. simpl.
  by rewrite IH, insert_to_bucket_perm, <- Permutation_middle.
Qed.

Lemma rehash_ok h : ht_wf h → ht_wf (hashtable_do_rehash h) ∧ ht_map (hashtable_do_rehash h) = ht_map h.
Proof.
  intros Hw. assert (ht_wf (hashtable_do_rehash h)) as Hw'
    by (unfold ht_wf; by rewrite rehash_perm).
  split; [done|]. apply list_to_map_proper; [done|apply rehash_perm].
Qed.

Lemma replace_value_fst key value l : (replace_value key value l).*1 = l.*1.
Proof. induction l as [|[k v] l IH]; [done|]. cbn [replace_value]. case_bool_decide; csimpl; congruence. Qed.

Lemma replace_value_map key value l :
  is_Some ((list_to_map l : gmap string V) !! key) →
  (list_to_map (replace_value key value l) : gmap string V) = <[key := value]> (list_to_map l).
Proof.
  induction l as [|[k v] l IH]; [by intros []|]. cbn [replace_value list_to_map foldr fst snd].
  case_bool_decide as E; intros Hs.
  - subst k. simpl. by rewrite insert_insert_eq.
  - simpl. rewrite lookup_insert_ne in Hs by done. rewrite IH by done. by apply insert_insert_ne.
Qed.

Lemma set_map h key value :
  ht_wf h → ht_wf (hashtable_set h key value) ∧
    ht_map (hashtable_set h key value) = <[key := value]> (ht_map h).
Proof.
  intros Hw. unfold hashtable_set.
  set (h1 := if num_buckets h <=? zlen (ht_list h) then hashtable_do_rehash h else h).
  assert (ht_wf h1 ∧ ht_map h1 = ht_map h) as [Hw1 Hm1]
    by (unfold h1; case_match; [by apply rehash_ok|done]).
  clearbody h1. rewrite <- Hm1. cbv zeta. change (hashtable_find_pair h1 key) with (hashtable_get h1 key).
  rewrite get_map. destruct (ht_map h1 !! key) eqn:E; unfold ht_wf, ht_map in *; cbn [ht_list].
  - rewrite replace_value_fst. split; [done|]. by apply replace_value_map.
  - assert (NoDup (insert_to_bucket (num_buckets h1) (hash_str key mod num_buckets h1)
      (key, value) (ht_list h1)).*1) as Hn.
    { rewrite insert_to_bucket_perm. simpl. apply list.NoDup_cons. split; [|done].
      by apply not_elem_of_list_to_map. }
    split; [done|]. change (<[key := value]> (list_to_map (ht_list h1) : gmap string V))
      with (list_to_map ((key, value) :: ht_list h1) : gmap string V).
    apply list_to_map_proper; [done|apply insert_to_bucket_perm].
Qed.

(** What holds of every pair holds after setting one for which it holds. *)
Lemma set_Forall (P : string * V → Prop) h key value :
  Forall P (ht_list h) → P (key, value) → Forall P (ht_list (hashtable_set h key value)).
Proof.
  intros Hh Hp. unfold hashtable_set. set (h1 := if num_buckets h <=? zlen (ht_list h) then hashtable_do_rehash h else h).
  assert (Forall P (ht_list h1)) as H1 by (unfold h1; case_match; [by rewrite rehash_perm|done]).
  cbv zeta. destruct (hashtable_find_pair h1 key) as [v0|]; cbn [ht_list]; [|rewrite insert_to_bucket_perm; by constructor].
  induction H1 as [|[k v] l Hk Hl IH]; [constructor|]. cbn [replace_value]. case_bool_decide as E; [subst k|]; by constructor.
Qed.

(** The values of a table, which its pairs own. *)
Lemma values_map h : ht_wf h → (ht_list h).*2 ≡ₚ (map_to_list (ht_map h)).*2.
Proof. intros Hw. unfold ht_map. by rewrite map_to_list_to_map. Qed.

Lemma set_values h key value : ht_wf h →
  from_option (λ v, [v]) [] (hashtable_get h key) ++ (ht_list (hashtable_set h key value)).*2 ≡ₚ value :: (ht_list h).*2.
Proof.
  intros Hw. destruct (set_map h key value Hw) as [Hw' Hm]. rewrite (values_map _ Hw'), Hm, (values_map _ Hw), get_map.
  destruct (ht_map h !! key) as [old|] eqn:E; cbn [from_option app].
  - rewrite <- insert_delete_eq, map_to_list_insert by apply lookup_delete_eq.
    rewrite <- (map_to_list_delete (ht_map h) key old E). csimpl. apply perm_swap.
  - by rewrite map_to_list_insert.
Qed.

Lemma remove_pair_perm key v (l : list (string * V)) : (list_to_map l : gmap string V) !! key = Some v → (key, v) :: remove_pair key l ≡ₚ l.
Proof.
  induction l as [|[k w] l IH]; [done|]. cbn [remove_pair list_to_map foldr fst snd]. case_bool_decide as E.
  - subst k. rewrite lookup_insert_eq. by intros [= ->].
  - rewrite lookup_insert_ne by done. intros E2%IH. rewrite perm_swap. by rewrite E2.
Qed.

Lemma del_ok h key : ht_wf h →
  match hashtable_del h key, hashtable_get h key with
  | Some h', Some v => ht_wf h' ∧ (key, v) :: ht_list h' ≡ₚ ht_list h
  | None, None => True
  | _, _ => False
  end.
Proof.
  intros Hw. unfold hashtable_del. change (hashtable_find_pair h key) with (hashtable_get h key). destruct (hashtable_get h key) as [v|] eqn:E; [|done].
  rewrite get_map in E. pose proof (remove_pair_perm key v _ E) as Hp. cbn [ht_list]. split; [|done].
  unfold ht_wf in *. cbn [ht_list]. rewrite <- Hp in Hw. by apply NoDup_cons_1_2 in Hw.
Qed.

Lemma init_map : ht_wf hashtable_init ∧ ht_map hashtable_init = ∅.
Proof. split; [apply NoDup_nil_2|done]. Qed.
End Hashtable.

(** ** Values *)

#[local] Set Warnings "-register-all".

(** A real is its bit pattern. [JString] and the keys of objects hold no NUL. *)
Inductive json_t :=
| JObject (hashtable : hashtable_t json_t)
| JArray (table : list json_t)
| JString (value : string)
| JInteger (value : Z)
| JReal (value : Z)
| JTrue
| JFalse
| JNull.

(** Induction over values, with a hypothesis for every element and every pair. *)
Section JsonInd.
Context (P : json_t → Prop).
Context (P_object : ∀ n l, Forall (λ kv, P (snd kv)) l → P (JObject (mkTable n l))).
Context (P_array : ∀ l, Forall P l → P (JArray l)).
Context (P_string : ∀ s, P (JString s)) (P_integer : ∀ n, P (JInteger n)) (P_real : ∀ d, P (JReal d)).
Context (P_true : P JTrue) (P_false : P JFalse) (P_null : P JNull).

Fixpoint json_value_ind (v : json_t) : P v :=
  match v with
  | JObject (mkTable n l) =>
      P_object n l ((fix pairs (l : list (string * json_t)) : Forall (λ kv, P (snd kv)) l :=
        match l with
        | [] => Forall_nil_2 _
        | kv :: l => Forall_cons_2 _ kv l (let (k, v) as kv return P (snd kv) := kv in json_value_ind v) (pairs l)
        end) l)
  | JArray l =>
      P_array l ((fix elems (l : list json_t) : Forall P l :=
        match l with [] => Forall_nil_2 _ | v :: l => Forall_cons_2 _ v l (json_value_ind v) (elems l) end) l)
  | JString s => P_string s
  | JInteger n => P_integer n
  | JReal d => P_real d
  | JTrue => P_true
  | JFalse => P_false
  | JNull => P_null
  end.
End JsonInd.

Definition json_is_object (json : json_t) : bool := match json with JObject _ => true | _ => false end.
Definition json_is_array (json : json_t) : bool := match json with JArray _ => true | _ => false end.
Definition json_is_string (json : json_t) : bool := match json with JString _ => true | _ => false end.

Definition json_object : json_t := JObject hashtable_init.

(** [json] is NULL in [None]: the [json_is_*] tests of the code fail on it. *)
Definition json_object_get (json : option json_t) (key : string) : option json_t :=
  match json with Some (JObject h) => hashtable_get h key | _ => None end.

(** The pairs, in the order of [json_object_iter]/[json_object_iter_next]. *)
Definition json_object_iter (json : json_t) : list (string * json_t) :=
  match json with JObject h => ht_list h | _ => [] end.

Definition json_array_size (json : json_t) : Z :=
  match json with JArray l => zlen l | _ => 0 end.

Definition json_array_get (json : json_t) (index : Z) : option json_t :=
  match json with JArray l => l !! Z.to_nat index | _ => None end.

(** [None] when the return value is -1: the argument is unchanged. *)
Definition json_array_append_new (json : json_t) (value : option json_t) : json_t :=
  match json, value with
  | JArray l, Some v => JArray (l ++ [v])
  | _, _ => json
  end.

Definition json_string_value (json : option json_t) : option string :=
  match json with Some (JString s) => Some s | _ => None end.

Definition json_integer_value (json : option json_t) : Z :=
  match json with Some (JInteger n) => n | _ => 0 end.

Definition json_number_value (json : option json_t) : Z :=
  match json with
  | Some (JInteger n) => double_of_int n
  | Some (JReal d) => d
  | _ => 0
  end.

Definition json_real (value : Z) : option json_t :=
  if is_finite binary64 value then Some (JReal value) else None.

(** ** Values from text *)

Definition json_string (value : string) : option json_t :=
  if utf8_check_string value then Some (JString value) else None.

Definition json_string_nocheck (value : option string) : option json_t := option_map JString value.

(** A NULL value or a non-object changes nothing. *)
Definition json_object_set_new_nocheck (json : json_t) (key : string) (value : option json_t) : json_t :=
  match json, value with
  | JObject h, Some v => JObject (hashtable_set h key v)
  | _, _ => json
  end.

(** Nor does a key that is not UTF-8. *)
Definition json_object_set_new (json : json_t) (key : string) (value : option json_t) : json_t :=
  if negb (utf8_check_string key) then json else json_object_set_new_nocheck json key value.

(** ** Equality up to the order of pairs *)

(** The hash tables do not keep the order in which the pairs of an object were
    set. *)
Inductive same : json_t → json_t → Prop :=
| same_object h1 h2 :
    (∀ k, option_Forall2 same (ht_map h1 !! k) (ht_map h2 !! k)) → same (JObject h1) (JObject h2)
| same_array l1 l2 : Forall2 same l1 l2 → same (JArray l1) (JArray l2)
| same_other j : same j j.

Lemma same_list l : Forall2 same l l.
Proof. induction l; constructor; [constructor|done]. Qed.

(** [r] is an object that holds [done], up to [same]. *)
Definition holds (done : gmap string json_t) (r : json_t) : Prop :=
  ∃ h, r = JObject h ∧ ht_wf h ∧ ∀ k, option_Forall2 same (done !! k) (ht_map h !! k).

Lemma holds_set_nocheck done h k v v' :
  holds done (JObject h) → same v v' → holds (<[k := v]> done) (json_object_set_new_nocheck (JObject h) k (Some v')).
Proof.
  intros (h' & [= <-] & Hw & Hs) Hv. eexists. split; [done|]. destruct (set_map h k v' Hw) as [Hw' Hm]. split; [done|]. intros k'.
  rewrite Hm. destruct (decide (k' = k)) as [->|Hne].
  - rewrite !lookup_insert_eq. by constructor.
  - by rewrite !lookup_insert_ne.
Qed.

Lemma holds_set done h k v v' :
  holds done (JObject h) → same v v' → utf8_check_string k = true →
  holds (<[k := v]> done) (json_object_set_new (JObject h) k (Some v')).
Proof. intros Hh Hv Hu. unfold json_object_set_new. rewrite Hu. by apply holds_set_nocheck. Qed.
