(* ===== verification/HashTable.v ===== *)
(** * The hash table of Jansson on its pointers ([src/deps/jansson/src/hashtable.c])

    All pairs of a table are nodes of one circular list, in which the pairs of a
    bucket are next to each other; a bucket points to the first and the last of
    them. [Jansson.v] reads a table as the list of its pairs and a bucket as a part
    of it; here are the link fields, the bucket array and the pair blocks
    themselves, allocation failures included. [HashRefine.v] proves that they
    implement that reading.

    A node is the list head of the table or the list field of a pair block;
    [container_of] is the identity on the latter. [json_decref] of a value adds it
    to a log. *)

From S2P Require Import Prelude NgxQueue QueueFamily Jansson.
Local Open Scope Z_scope.

Inductive list_t := HEnd | HPair (pair : positive).

#[global] Instance list_t_eq_dec : EqDecision list_t.
Proof. solve_decision. Defined.

#[global] Instance list_t_countable : Countable list_t :=
  inj_countable' (λ x, match x with HEnd => None | HPair p => Some p end)
                 (λ o, match o with None => HEnd | Some p => HPair p end) ltac:(by intros []).

Record pair_t (V : Type) := mkPair { p_hash : Z; p_value : V; p_serial : Z; p_key : string }.
Arguments mkPair {V} _ _ _ _.
Arguments p_hash {V} _.
Arguments p_value {V} _.
Arguments p_serial {V} _.
Arguments p_key {V} _.

Record bucket_t := mkBucket { b_first : list_t; b_last : list_t }.

(** [t_buckets] is [None] when the pointer is NULL or dangling; [t_next] is the next
    unused pair block. *)
Record table_t (V : Type) := mkHt {
  t_size : Z;
  t_buckets : option (list bucket_t);
  t_num_buckets : nat;
  t_links : qheap list_t;
  t_pairs : gmap positive (pair_t V);
  t_next : positive;
  t_decrefs : list V
}.
Arguments mkHt {V} _ _ _ _ _ _ _.
Arguments t_size {V} _.
Arguments t_buckets {V} _.
Arguments t_num_buckets {V} _.
Arguments t_links {V} _.
Arguments t_pairs {V} _.
Arguments t_next {V} _.
Arguments t_decrefs {V} _.

(** ** The list *)

Definition list_init (list : list_t) (H : qheap list_t) : exec (qheap list_t) :=
  H ← set_next list list H; set_prev list list H.

Definition list_insert (list node : list_t) (H : qheap list_t) : exec (qheap list_t) :=
  H ← set_next node list H;
  p ← get_prev list H;
  H ← set_prev node p H;
  p ← get_prev list H;
  H ← set_next p node H;
  set_prev list node H.

Definition list_remove (list : list_t) (H : qheap list_t) : exec (qheap list_t) :=
  p ← get_prev list H;
  n ← get_next list H;
  H ← set_next p n H;
  n ← get_next list H;
  p ← get_prev list H;
  set_prev n p H.

(** ** The buckets *)

Definition bucket_is_empty (bucket : bucket_t) : bool :=
  bool_decide (b_first bucket = HEnd) && bool_decide (b_first bucket = b_last bucket).

Definition get_bucket (bs : list bucket_t) (index : Z) : exec bucket_t :=
  match bs !! Z.to_nat index with Some b => Val b | None => UB end.

Definition insert_to_bucket (index : Z) (node : list_t) (H : qheap list_t) (bs : list bucket_t) :
    exec (qheap list_t * list bucket_t) :=
  bucket ← get_bucket bs index;
  if bucket_is_empty bucket then
    H ← list_insert HEnd node H;
    Val (H, <[Z.to_nat index := mkBucket node node]> bs)
  else
    H ← list_insert (b_first bucket) node H;
    Val (H, <[Z.to_nat index := mkBucket node (b_last bucket)]> bs).

(** The bucket after one of its nodes is taken out. *)
Definition leave_bucket (node : list_t) (bucket : bucket_t) (H : qheap list_t) : exec bucket_t :=
  if bool_decide (node = b_first bucket) && bool_decide (node = b_last bucket) then Val (mkBucket HEnd HEnd)
  else if bool_decide (node = b_first bucket) then
    next ← get_next node H; Val (mkBucket next (b_last bucket))
  else if bool_decide (node = b_last bucket) then
    prev ← get_prev node H; Val (mkBucket (b_first bucket) prev)
  else Val bucket.

Section Table.
Context {V : Type}.
Context (malloc : Z → bool).
Implicit Types (t : table_t V) (key : string) (value : V).

Definition sizeof_bucket : Z := 16.

(** [offsetof(pair_t, key)]. *)
Definition offsetof_key : Z := 40.

(** [primes[hashtable->num_buckets]]. *)
Definition num_buckets t : exec Z :=
  match primes !! t_num_buckets t with Some n => Val n | None => UB end.

Definition buckets t : exec (list bucket_t) :=
  match t_buckets t with Some bs => Val bs | None => UB end.

(** [list_to_pair]: the block of a node. *)
Definition list_to_pair t (list : list_t) : exec (positive * pair_t V) :=
  match list with
  | HEnd => UB
  | HPair p => match t_pairs t !! p with Some pr => Val (p, pr) | None => UB end
  end.

Definition pair_free (p : positive) t : table_t V :=
  mkHt (t_size t) (t_buckets t) (t_num_buckets t) (q_free (HPair p) (t_links t)) (delete p (t_pairs t)) (t_next t)
    (t_decrefs t).

Definition json_decref value t : table_t V :=
  mkHt (t_size t) (t_buckets t) (t_num_buckets t) (t_links t) (t_pairs t) (t_next t) (t_decrefs t ++ [value]).

Definition set_links (H : qheap list_t) t : table_t V :=
  mkHt (t_size t) (t_buckets t) (t_num_buckets t) H (t_pairs t) (t_next t) (t_decrefs t).

Definition set_buckets (bs : option (list bucket_t)) t : table_t V :=
  mkHt (t_size t) bs (t_num_buckets t) (t_links t) (t_pairs t) (t_next t) (t_decrefs t).

Definition set_size (n : Z) t : table_t V :=
  mkHt n (t_buckets t) (t_num_buckets t) (t_links t) (t_pairs t) (t_next t) (t_decrefs t).

Definition set_num_buckets (n : nat) t : table_t V :=
  mkHt (t_size t) (t_buckets t) n (t_links t) (t_pairs t) (t_next t) (t_decrefs t).

Definition set_pair (p : positive) (pr : pair_t V) t : table_t V :=
  mkHt (t_size t) (t_buckets t) (t_num_buckets t) (t_links t) (<[p := pr]> (t_pairs t)) (t_next t) (t_decrefs t).

(** A bound on the rounds of a loop over pairs. *)
Definition rounds t : nat := S (size (t_pairs t)).

Fixpoint find_loop (fuel : nat) t (list last : list_t) key (hash : Z) : exec (option positive) :=
  match fuel with
  | O => NoFuel
  | S fuel =>
      '(p, pr) ← list_to_pair t list;
      if (p_hash pr =? hash) && bool_decide (p_key pr = key) then Val (Some p)
      else if bool_decide (list = last) then Val None
      else list ← get_next list (t_links t); find_loop fuel t list last key hash
  end.

Definition hashtable_find_pair t (bucket : bucket_t) key (hash : Z) : exec (option positive) :=
  if bucket_is_empty bucket then Val None
  else find_loop (rounds t) t (b_first bucket) (b_last bucket) key hash.

Definition hashtable_do_del t key (hash : Z) : exec (table_t V * bool) :=
  n ← num_buckets t;
  let index := hash mod n in
  bs ← buckets t;
  bucket ← get_bucket bs index;
  pr ← hashtable_find_pair t bucket key hash;
  match pr with
  | None => Val (t, false)
  | Some p =>
      bucket ← leave_bucket (HPair p) bucket (t_links t);
      let t := set_buckets (Some (<[Z.to_nat index := bucket]> bs)) t in
      H ← list_remove (HPair p) (t_links t);
      let t := set_links H t in
      '(_, pr) ← list_to_pair t (HPair p);
      let t := pair_free p (json_decref (p_value pr) t) in
      Val (set_size (u64 (t_size t - 1)) t, true)
  end.

Fixpoint clear_loop (fuel : nat) (list : list_t) t : exec (table_t V) :=
  match fuel with
  | O => NoFuel
  | S fuel =>
      if bool_decide (list = HEnd) then Val t
      else
        next ← get_next list (t_links t);
        '(p, pr) ← list_to_pair t list;
        clear_loop fuel next (pair_free p (json_decref (p_value pr) t))
  end.

Definition hashtable_do_clear t : exec (table_t V) :=
  list ← get_next HEnd (t_links t);
  clear_loop (rounds t) list t.

(** Every bucket is [&hashtable->list]. *)
Definition empty_buckets (n : Z) : list bucket_t := replicate (Z.to_nat n) (mkBucket HEnd HEnd).

Fixpoint rehash_loop (fuel : nat) (new_size : Z) (list : list_t) t : exec (table_t V) :=
  match fuel with
  | O => NoFuel
  | S fuel =>
      if bool_decide (list = HEnd) then Val t
      else
        next ← get_next list (t_links t);
        '(_, pr) ← list_to_pair t list;
        bs ← buckets t;
        '(H, bs) ← insert_to_bucket (p_hash pr mod new_size) list (t_links t) bs;
        rehash_loop fuel new_size next (set_links H (set_buckets (Some bs) t))
  end.

(** [false] is the return value -1. *)
Definition hashtable_do_rehash t : exec (table_t V * bool) :=
  let t := set_num_buckets (S (t_num_buckets t)) (set_buckets None t) in
  new_size ← num_buckets t;
  if negb (malloc (new_size * sizeof_bucket)) then Val (t, false)
  else
    let t := set_buckets (Some (empty_buckets new_size)) t in
    list ← get_next HEnd (t_links t);
    H ← list_init HEnd (t_links t);
    t ← rehash_loop (rounds t) new_size list (set_links H t);
    Val (t, true).

(** ** The operations *)

(** [None] is the return value -1. *)
Definition hashtable_init : exec (option (table_t V)) :=
  let t := mkHt 0 None 0 (q_alloc HEnd (mkHeap ∅ ∅)) ∅ 1 [] in
  n ← num_buckets t;
  if negb (malloc (n * sizeof_bucket)) then Val None
  else
    H ← list_init HEnd (t_links t);
    Val (Some (set_links H (set_buckets (Some (empty_buckets n)) t))).

Definition hashtable_close t : exec (table_t V) :=
  t ← hashtable_do_clear t;
  Val (set_buckets None t).

(** A new pair block with its fields. *)
Definition new_pair (hash : Z) key (serial : Z) value t : positive * table_t V :=
  let p := t_next t in
  (p, mkHt (t_size t) (t_buckets t) (t_num_buckets t) (q_alloc (HPair p) (t_links t))
        (<[p := mkPair hash value serial key]> (t_pairs t)) (Pos.succ p) (t_decrefs t)).

(** [hashtable_set] after the rehash. *)
Definition hashtable_store t key (serial : Z) value : exec (table_t V * bool) :=
  let hash := hash_str key in
  n ← num_buckets t;
  let index := hash mod n in
  bs ← buckets t;
  bucket ← get_bucket bs index;
  pr ← hashtable_find_pair t bucket key hash;
  match pr with
  | Some p =>
      '(_, pr) ← list_to_pair t (HPair p);
      let t := json_decref (p_value pr) t in
      Val (set_pair p (mkPair (p_hash pr) value (p_serial pr) (p_key pr)) t, true)
  | None =>
      if negb (malloc (offsetof_key + zlen (bytes_of key) + 1)) then Val (t, false)
      else
        let '(p, t) := new_pair hash key serial value t in
        H ← list_init (HPair p) (t_links t);
        '(H, bs) ← insert_to_bucket index (HPair p) H bs;
        let t := set_links H (set_buckets (Some bs) t) in
        Val (set_size (u64 (t_size t + 1)) t, true)
  end.

Definition hashtable_set t key (serial : Z) value : exec (table_t V * bool) :=
  n ← num_buckets t;
  '(t, ok) ← (if t_size t >=? n then hashtable_do_rehash t else Val (t, true));
  if negb ok then Val (t, false) else hashtable_store t key serial value.

Definition hashtable_get t key : exec (option V) :=
  let hash := hash_str key in
  n ← num_buckets t;
  bs ← buckets t;
  bucket ← get_bucket bs (hash mod n);
  pr ← hashtable_find_pair t bucket key hash;
  match pr with
  | None => Val None
  | Some p => '(_, pr) ← list_to_pair t (HPair p); Val (Some (p_value pr))
  end.

Definition hashtable_del t key : exec (table_t V * bool) := hashtable_do_del t key (hash_str key).

Definition hashtable_clear t : exec (table_t V) :=
  t ← hashtable_do_clear t;
  n ← num_buckets t;
  let t := set_buckets (Some (empty_buckets n)) t in
  H ← list_init HEnd (t_links t);
  Val (set_size 0 (set_links H t)).

(** ** Iteration *)

Definition hashtable_iter_next t (iter : list_t) : exec (option list_t) :=
  next ← get_next iter (t_links t);
  if bool_decide (next = HEnd) then Val None else Val (Some next).

Definition hashtable_iter t : exec (option list_t) := hashtable_iter_next t HEnd.

Definition hashtable_iter_at t key : exec (option list_t) :=
  let hash := hash_str key in
  n ← num_buckets t;
  bs ← buckets t;
  bucket ← get_bucket bs (hash mod n);
  pr ← hashtable_find_pair t bucket key hash;
  Val (option_map HPair pr).

Definition hashtable_iter_key t (iter : list_t) : exec string :=
  '(_, pr) ← list_to_pair t iter; Val (p_key pr).

Definition hashtable_iter_serial t (iter : list_t) : exec Z :=
  '(_, pr) ← list_to_pair t iter; Val (p_serial pr).

Definition hashtable_iter_value t (iter : list_t) : exec V :=
  '(_, pr) ← list_to_pair t iter; Val (p_value pr).

Definition hashtable_iter_set t (iter : list_t) value : exec (table_t V) :=
  '(p, pr) ← list_to_pair t iter;
  let t := json_decref (p_value pr) t in
  Val (set_pair p (mkPair (p_hash pr) value (p_serial pr) (p_key pr)) t).

(** The pairs met by [json_object_foreach]. *)
Fixpoint iter_pairs (fuel : nat) t (iter : option list_t) : exec (list (string * V)) :=
  match fuel, iter with
  | _, None => Val []
  | O, _ => NoFuel
  | S fuel, Some iter =>
      key ← hashtable_iter_key t iter;
      value ← hashtable_iter_value t iter;
      next ← hashtable_iter_next t iter;
      rest ← iter_pairs fuel t next;
      Val ((key, value) :: rest)
  end.

Definition all_pairs t : exec (list (string * V)) :=
  iter ← hashtable_iter t;
  iter_pairs (rounds t) t iter.
End Table.

(** ** Calls *)

Inductive ht_call (V : Type) :=
| HtGet (key : string)
| HtSet (key : string) (serial : Z) (value : V)
| HtDel (key : string)
| HtClear
| HtPairs.
Arguments HtGet {V} _.
Arguments HtSet {V} _ _ _.
Arguments HtDel {V} _.
Arguments HtClear {V}.
Arguments HtPairs {V}.

Inductive ht_result (V : Type) :=
| RGot (value : option V)
| RDone (ok : bool)
| RPairs (pairs : list (string * V)).
Arguments RGot {V} _.
Arguments RDone {V} _.
Arguments RPairs {V} _.

Section Calls.
Context {V : Type}.
Context (malloc : Z → bool).

Definition ht_step (c : ht_call V) (t : table_t V) : exec (table_t V * ht_result V) :=
  match c with
  | HtGet key => v ← hashtable_get t key; Val (t, RGot v)
  | HtSet key serial value => '(t, ok) ← hashtable_set malloc t key serial value; Val (t, RDone ok)
  | HtDel key => '(t, ok) ← hashtable_del t key; Val (t, RDone ok)
  | HtClear => t ← hashtable_clear t; Val (t, RDone true)
  | HtPairs => l ← all_pairs t; Val (t, RPairs l)
  end.

Fixpoint ht_run (cs : list (ht_call V)) (t : table_t V) : exec (table_t V * list (ht_result V)) :=
  match cs with
  | [] => Val (t, [])
  | c :: cs =>
      '(t, r) ← ht_step c t;
      '(t, rs) ← ht_run cs t;
      Val (t, r :: rs)
  end.

(** The same calls on the table of [Jansson.v]. *)
Definition ht_step_spec (c : ht_call V) (h : hashtable_t V) : hashtable_t V * ht_result V :=
  match c with
  | HtGet key => (h, RGot (Jansson.hashtable_get h key))
  | HtSet key _ value => (Jansson.hashtable_set h key value, RDone true)
  | HtDel key =>
      match Jansson.hashtable_del h key with
      | Some h' => (h', RDone true)
      | None => (h, RDone false)
      end
  | HtClear => (Jansson.hashtable_clear h, RDone true)
  | HtPairs => (h, RPairs (ht_list h))
  end.

Fixpoint ht_run_spec (cs : list (ht_call V)) (h : hashtable_t V) : hashtable_t V * list (ht_result V) :=
  match cs with
  | [] => (h, [])
  | c :: cs =>
      let '(h, r) := ht_step_spec c h in
      let '(h, rs) := ht_run_spec cs h in
      (h, r :: rs)
  end.

(** The values the calls hand to the table. *)
Definition stored (cs : list (ht_call V)) : list V :=
  omap (λ c, match c with HtSet _ _ value => Some value | _ => None end) cs.
End Calls.

Example ht_example :
  let sets := map (λ i, HtSet (pretty i) (Z.of_N i) i) [1; 2; 3; 4; 5; 6; 11; 12; 13; 14; 15; 16; 17; 18]%N in
  let cs := sets ++ [HtPairs; HtGet "5"; HtDel "5"; HtGet "5"; HtSet "6" 20 60%N; HtDel "x"; HtPairs; HtClear; HtPairs; HtSet "1" 1 1%N; HtPairs] in
  (t ← hashtable_init (λ _, true); match t with Some t => '(_, r) ← ht_run (λ _, true) cs t; Val r | None => UB end) =
  Val (snd (ht_run_spec cs Jansson.hashtable_init)).
Proof. vm_compute. done. Qed.
