(* ===== verification/HashRefine.v ===== *)
(** * The hash table implements a list of pairs

    The invariant of the table of [HashTable.v]: its list is a ring of the pair
    blocks, the pairs of a bucket are a run of it, and the bucket array points to
    the ends of the runs. Every operation keeps it and does to the list of pairs
    what the operations of [Jansson.v] do. *)

From S2P Require Import Prelude NgxQueue QueueFamily Jansson HashTable.
Local Open Scope Z_scope.

(** ** Runs

    The part of the list that belongs to bucket [i]. *)

Section Runs.
Context {A : Type} (f : A → Z).
Implicit Types (l pre run post : list A).

Definition is_run (i : Z) l run : Prop :=
  ∃ pre post, l = pre ++ run ++ post ∧ Forall (λ x, f x = i) run ∧ Forall (λ x, f x ≠ i) (pre ++ post).

(** What [insert_to_bucket] of [Jansson.v] does: before the run, or at the end. *)
Fixpoint put (x : A) l : list A :=
  match l with
  | [] => [x]
  | y :: l' => if f y =? f x then x :: l else y :: put x l'
  end.

Lemma put_none x l : Forall (λ y, f y ≠ f x) l → put x l = l ++ [x].
Proof. induction 1 as [|y l Hy _ IH]; [done|]. simpl. rewrite (proj2 (Z.eqb_neq _ _) Hy). by rewrite IH. Qed.

Lemma put_split x pre y post : Forall (λ y, f y ≠ f x) pre → f y = f x → put x (pre ++ y :: post) = pre ++ x :: y :: post.
Proof.
  intros Hpre Hy. induction Hpre as [|z pre Hz _ IH]; simpl; [by rewrite Hy, Z.eqb_refl|].
  rewrite (proj2 (Z.eqb_neq _ _) Hz). by rewrite IH.
Qed.

(** An element put next to a run of another bucket leaves it a run. *)
Lemma run_insert i l1 l2 run x :
  is_run i (l1 ++ l2) run → f x ≠ i → (∀ y l, l2 = y :: l → f y ≠ i) → is_run i (l1 ++ x :: l2) run.
Proof.
  intros (pre & post & E & Hr & Ho) Hx Hl2. apply Forall_app in Ho as [Hpre Hpost].
  apply app_eq_app in E as (k & [[-> E]|[-> ->]]).
  - apply app_eq_app in E as (k2 & [[-> ->]|[-> ->]]).
    + destruct k2 as [|y k2].
      * exists pre, (x :: post). rewrite app_nil_r, <- app_assoc. split; [done|]. split; [by rewrite app_nil_r in Hr|].
        apply Forall_app; split; [done|by constructor].
      * exfalso. apply Forall_app in Hr as [_ Hr]. apply Forall_cons in Hr as [Hy _]. by apply (Hl2 y (k2 ++ post)).
    + exists pre, (k2 ++ x :: l2). rewrite <- !app_assoc. split; [done|]. split; [done|].
      apply Forall_app in Hpost as [H1 H2]. apply Forall_app; split; [done|]. apply Forall_app; split; [done|by constructor].
  - exists (l1 ++ x :: k), post. rewrite <- app_assoc. split; [done|]. split; [done|].
    apply Forall_app in Hpre as [H1 H2]. apply Forall_app; split; [|done]. apply Forall_app; split; [done|by constructor].
Qed.

(** Removing an element of another bucket. *)
Lemma run_remove_other i l1 l2 run x : is_run i (l1 ++ x :: l2) run → f x ≠ i → is_run i (l1 ++ l2) run.
Proof.
  intros (pre & post & E & Hr & Ho) Hx. apply Forall_app in Ho as [Hpre Hpost].
  apply app_eq_app in E as (k & [[-> E]|[-> E]]).
  - apply app_eq_app in E as (k2 & [[-> E]|[-> ->]]).
    + destruct k2 as [|y k2]; cbn [app] in E.
      * subst post. rewrite app_nil_r in Hr. exists pre, l2. rewrite app_nil_r, <- app_assoc. split; [done|]. split; [done|].
        apply Forall_cons in Hpost as [_ Hpost]. by apply Forall_app.
      * exfalso. injection E as <- ->. apply Forall_app in Hr as [_ Hr]. apply Forall_cons in Hr as [Hy _]. done.
    + exists pre, (k2 ++ l2). rewrite <- !app_assoc. split; [done|]. split; [done|].
      apply Forall_app in Hpost as [H1 H2]. apply Forall_cons in H2 as [_ H2]. apply Forall_app; split; [done|by apply Forall_app].
  - destruct k as [|y k]; cbn [app] in E.
    + rewrite app_nil_r in Hpre. destruct run as [|y run]; cbn [app] in E.
      * subst post. exists l1, l2. split; [done|]. split; [done|]. apply Forall_cons in Hpost as [_ Hpost]. by apply Forall_app.
      * exfalso. injection E as <- ->. apply Forall_cons in Hr as [Hy _]. done.
    + injection E as <- ->. exists (l1 ++ k), post. rewrite <- !app_assoc. split; [done|]. split; [done|].
      apply Forall_app in Hpre as [H1 H2]. apply Forall_cons in H2 as [_ H2]. rewrite !Forall_app. done.
Qed.

Lemma put_perm x l : put x l ≡ₚ x :: l.
Proof. induction l as [|y l IH]; [done|]. simpl. case_match; [done|]. rewrite IH. apply perm_swap. Qed.

Lemma run_unique i l run run' : is_run i l run → is_run i l run' → run = run'.
Proof.
  assert (∀ l run, is_run i l run → run = filter (λ x, f x = i) l) as Hf; [|intros H1 H2; by rewrite (Hf _ _ H1), (Hf _ _ H2)].
  clear. intros l run (pre & post & -> & Hr & Ho). apply Forall_app in Ho as [Hpre Hpost].
  assert (∀ l, Forall (λ x, f x ≠ i) l → filter (λ x, f x = i) l = []) as Hn.
  { induction 1; [done|]. by rewrite filter_cons_False. }
  rewrite !filter_app, (Hn _ Hpre), (Hn _ Hpost), app_nil_r. simpl. clear -Hr. induction Hr; [done|].
  rewrite filter_cons_True by done. by f_equal.
Qed.

(** Where an element is put: in front of its run, of which it becomes the first. *)
Lemma put_run l run x : is_run (f x) l run →
  ∃ l1 l2, l = l1 ++ l2 ∧ put x l = l1 ++ x :: l2 ∧ is_run (f x) (l1 ++ x :: l2) (x :: run) ∧ head l2 = head run.
Proof.
  intros (pre & post & -> & Hr & Ho). destruct run as [|y run].
  - exists (pre ++ post), []. rewrite app_nil_r. cbn [app]. split; [done|]. split; [by apply put_none|]. split; [|done].
    exists (pre ++ post), []. rewrite !app_nil_r. split; [done|]. split; [by repeat constructor|done].
  - pose proof Hr as Hr'. apply Forall_cons in Hr' as [Hy _]. pose proof Ho as Ho'. apply Forall_app in Ho' as [Hpre _].
    exists pre, (y :: run ++ post). split; [done|]. split; [by apply put_split|]. split; [|done].
    exists pre, post. split; [done|]. split; [by constructor|done].
Qed.

(** Removing an element of the run itself. *)
Lemma run_remove_same i l run x : NoDup l → is_run i l run → x ∈ run →
  ∃ l1 l2 r1 r2, l = l1 ++ x :: l2 ∧ run = r1 ++ x :: r2 ∧ is_run i (l1 ++ l2) (r1 ++ r2) ∧
    (r1 ≠ [] → last l1 = last r1) ∧ (r2 ≠ [] → head l2 = head r2).
Proof.
  intros Hd (pre & post & -> & Hr & Ho) Hx. apply list_elem_of_split in Hx as (r1 & r2 & ->).
  exists (pre ++ r1), (r2 ++ post), r1, r2. rewrite <- !app_assoc. split; [done|]. split; [done|]. split; [|split].
  - exists pre, post. rewrite <- !app_assoc. split; [done|]. split; [|done]. apply Forall_app in Hr as [H1 H2].
    apply Forall_cons in H2 as [_ H2]. by apply Forall_app.
  - intros H1. rewrite last_app. by destruct (last r1) eqn:E; [|apply last_None in E].
  - intros H2. by destruct r2.
Qed.

Lemma run_elem i l run x : is_run i l run → x ∈ l → f x = i → x ∈ run.
Proof.
  intros (pre & post & -> & Hr & Ho) Hin Hx. apply Forall_app in Ho as [Hpre Hpost]. rewrite Forall_forall in Hpre, Hpost.
  rewrite !elem_of_app in Hin. destruct Hin as [H|[H|H]]; [by apply Hpre in H|done|by apply Hpost in H].
Qed.

Lemma run_sub i l run x : is_run i l run → x ∈ run → x ∈ l.
Proof. intros (pre & post & -> & _ & _) Hin. rewrite !elem_of_app. auto. Qed.
End Runs.

Lemma put_fmap {A B} (f : A → Z) (g : B → Z) (m : A → B) x l :
  (∀ y, y ∈ x :: l → g (m y) = f y) → m <$> put f x l = put g (m x) (m <$> l).
Proof.
  intros Hm. induction l as [|y l IH]; [done|]. cbn [put fmap list_fmap]. rewrite !Hm by set_solver.
  case_match; [done|]. cbn [fmap list_fmap]. f_equal. apply IH. set_solver.
Qed.

(** ** The list *)

Lemma queue_rotate {K} `{Countable K} (h : qheap K) hd xs q ys : is_queue h hd (xs ++ q :: ys) → is_queue h q (ys ++ hd :: xs).
Proof.
  intros [Hd Hc]. rewrite <- app_assoc in Hc. cbn [app] in Hc. split.
  - assert (hd :: xs ++ q :: ys ≡ₚ q :: ys ++ hd :: xs) as <-; [|done]. rewrite <- !Permutation_middle, perm_swap. by rewrite Permutation_app_comm.
  - rewrite <- app_assoc. cbn [app]. change (hd :: xs ++ q :: ys ++ [hd]) with ((hd :: xs) ++ q :: ys ++ [hd]) in Hc.
    rewrite chain_app in Hc. change (q :: ys ++ hd :: xs ++ [q]) with ((q :: ys) ++ hd :: xs ++ [q]). rewrite chain_app. tauto.
Qed.

Section Links.
Implicit Types (H : qheap list_t) (x h q : list_t) (xs ys : list list_t).

Lemma list_init_spec q H : q ∈ dom (q_prev H) → q ∈ dom (q_next H) →
  list_init q H = Val (mkHeap (<[q := q]> (q_prev H)) (<[q := q]> (q_next H))).
Proof.
  intros [y Hp]%elem_of_dom [z Hn]%elem_of_dom. unfold list_init, set_prev, set_next. rewrite Hn. simpl. by rewrite Hp.
Qed.

(** [list_insert] makes the assignments of [ngx_queue_insert_tail] in another order. *)
Lemma list_insert_tail H h xs x : is_queue H h xs → x ∉ h :: xs → x ∈ dom (q_prev H) → x ∈ dom (q_next H) →
  list_insert h x H = ngx_queue_insert_tail h x H.
Proof.
  intros Hq Hx [vp Hvp]%elem_of_dom [vn Hvn]%elem_of_dom. destruct (snoc_view h xs) as (l & p & E).
  destruct (is_queue_last H h xs l p Hq E) as (Hhp & Hpn & _).
  assert (h ≠ x ∧ p ≠ x) as [Hhx Hpx].
  { split; [set_solver|]. assert (p ∈ h :: xs) by (rewrite E; set_solver). set_solver. }
  unfold list_insert, ngx_queue_insert_tail, get_prev, set_prev, set_next. rewrite Hvn, Hhp. cbn -[insert lookup].
  rewrite Hhp. cbn -[insert lookup]. rewrite Hvp. cbn -[insert lookup]. rewrite lookup_insert_ne, Hhp, lookup_insert_eq by done. cbn -[insert lookup].
  rewrite lookup_insert_ne, Hpn by done. cbn -[insert lookup].
  rewrite !(lookup_insert_ne _ x h), !(lookup_insert_ne _ p x), Hhp, Hvn by done. cbn -[insert lookup].
  rewrite !(lookup_insert_ne _ x h), Hhp by done. by rewrite (insert_insert_ne _ x p) by done.
Qed.

Lemma list_remove_spec H h xs x ys : is_queue H h (xs ++ x :: ys) → list_remove x H = ngx_queue_remove x H.
Proof.
  intros Hq. destruct (is_queue_links _ _ _ _ _ Hq) as (a & b & Hn & Hp & Ha & Hb).
  unfold list_remove, ngx_queue_remove, get_prev, get_next, set_prev, set_next. rewrite Hn, Hp. cbn -[insert lookup].
  destruct (ngx_queue_remove_spec _ _ _ _ _ Hq) as (H' & E & _). revert E.
  unfold ngx_queue_remove, get_prev, get_next, set_prev, set_next. rewrite Hn, Hp. cbn -[insert lookup].
  destruct (q_prev H !! b) eqn:Hbp; [|done]. cbn -[insert lookup]. rewrite lookup_insert_ne, Hp, Hn by done. cbn -[insert lookup].
  destruct (q_next H !! a) eqn:Han; [|done]. intros _. cbn -[insert lookup].
  rewrite lookup_insert_ne, Hn by done. cbn -[insert lookup]. rewrite Hp. cbn -[insert lookup]. by rewrite Hbp.
Qed.

(** Inserting in front of any node. *)
Lemma list_insert_spec H h xs ys x :
  is_queue H h (xs ++ ys) → x ∉ h :: xs ++ ys → x ∈ dom (q_prev H) → x ∈ dom (q_next H) →
  ∃ H', list_insert (default h (head ys)) x H = Val H' ∧ is_queue H' h (xs ++ x :: ys) ∧
    (∀ y, y ∉ h :: x :: xs ++ ys → q_prev H' !! y = q_prev H !! y ∧ q_next H' !! y = q_next H !! y) ∧
    dom (q_prev H') = dom (q_prev H) ∧ dom (q_next H') = dom (q_next H).
Proof.
  intros Hq Hx Hp Hn. destruct ys as [|q ys]; cbn [head default from_option id].
  - rewrite app_nil_r in *. rewrite (list_insert_tail H h xs x) by done. by apply ngx_queue_insert_tail_spec.
  - pose proof (queue_rotate _ _ _ _ _ Hq) as Hr. assert (x ∉ q :: ys ++ h :: xs) as Hx' by set_solver.
    rewrite (list_insert_tail H q _ x Hr) by done.
    destruct (ngx_queue_insert_tail_spec H q _ x Hr Hx' Hp Hn) as (H' & E & Hq' & Hfr & Hd). exists H'. split; [done|].
    split; [|split; [|done]].
    + rewrite <- app_assoc in Hq'. cbn [app] in Hq'. apply queue_rotate in Hq'. by rewrite <- app_assoc in Hq'.
    + intros y Hy. apply Hfr. set_solver.
Qed.

Lemma is_queue_prev H h xs x ys : is_queue H h (xs ++ x :: ys) → q_prev H !! x = Some (default h (last xs)).
Proof.
  intros Hq%queue_rotate. destruct (exists_last (l := h :: xs)) as (l & p & E); [done|].
  destruct (is_queue_last H x (ys ++ h :: xs) (x :: ys ++ l) p Hq) as [-> _].
  { rewrite E. cbn [app]. by rewrite <- app_assoc. }
  f_equal. apply (f_equal last) in E. rewrite last_snoc, last_cons in E. by destruct (last xs); simplify_eq/=.
Qed.

(** Following [next] only. *)
Fixpoint nexts H (l : list list_t) : Prop :=
  match l with
  | a :: ((b :: _) as t) => q_next H !! a = Some b ∧ nexts H t
  | _ => True
  end.

Lemma chain_nexts H l : chain H l → nexts H l.
Proof. induction l as [|a [|b l] IH]; [done..|]. intros (H1 & _ & H2). split; [done|by apply IH]. Qed.

Lemma nexts_frame H H' l a : (∀ x, x ∈ l → q_next H' !! x = q_next H !! x) → nexts H (l ++ [a]) → nexts H' (l ++ [a]).
Proof.
  induction l as [|x [|y l] IH]; intros Hf; [done|..]; simpl app; simpl.
  - intros [E _]. split; [|done]. rewrite Hf by set_solver. done.
  - intros [E H2]. split; [rewrite Hf by set_solver; done|]. apply IH; [|done]. intros z Hz. apply Hf. set_solver.
Qed.
End Links.

(** ** The layout of list and buckets

    [sk] lists the pairs in order, with their hashes; [slot n] is the bucket. *)

Definition slot (n : Z) (x : positive * Z) : Z := snd x mod n.

Definition node_of (x : positive * Z) : list_t := HPair (fst x).

Definition run_bucket (run : list (positive * Z)) : bucket_t :=
  mkBucket (default HEnd (head (node_of <$> run))) (default HEnd (last (node_of <$> run))).

Record layout (H : qheap list_t) (n : Z) (bs : list bucket_t) (sk : list (positive * Z)) : Prop := {
  lay_ring : is_queue H HEnd (node_of <$> sk);
  lay_len : zlen bs = n;
  lay_runs : ∀ i b, 0 ≤ i → bs !! Z.to_nat i = Some b → ∃ run, is_run (slot n) i sk run ∧ b = run_bucket run
}.

Lemma bucket_empty run : bucket_is_empty (run_bucket run) = bool_decide (run = []).
Proof. destruct run as [|x run]; [done|]. by unfold bucket_is_empty. Qed.

Lemma layout_bucket H n bs sk i : layout H n bs sk → 0 ≤ i < n →
  ∃ run, bs !! Z.to_nat i = Some (run_bucket run) ∧ get_bucket bs i = Val (run_bucket run) ∧ is_run (slot n) i sk run.
Proof.
  intros L Hi. destruct (bs !! Z.to_nat i) as [b|] eqn:E.
  - destruct (lay_runs _ _ _ _ L i b ltac:(lia) E) as (run & Hr & ->). exists run. unfold get_bucket. by rewrite E.
  - apply lookup_ge_None in E. pose proof (lay_len _ _ _ _ L). unfold zlen in *. lia.
Qed.

Lemma layout_empty H n : 0 ≤ n → is_queue H HEnd [] → layout H n (empty_buckets n) [].
Proof.
  intros Hn Hq. split; [done| |].
  - unfold empty_buckets, zlen. rewrite length_replicate. lia.
  - intros i b _ [-> _]%lookup_replicate. exists []. split; [|done]. exists [], []. by repeat constructor.
Qed.

Lemma insert_layout H n bs sk p h :
  layout H n bs sk → 0 < n → HPair p ∉ node_of <$> sk → HPair p ∈ dom (q_prev H) → HPair p ∈ dom (q_next H) →
  ∃ H' bs', insert_to_bucket (h mod n) (HPair p) H bs = Val (H', bs') ∧ layout H' n bs' (put (slot n) (p, h) sk) ∧
    (∀ y, y ∉ HEnd :: HPair p :: (node_of <$> sk) → q_prev H' !! y = q_prev H !! y ∧ q_next H' !! y = q_next H !! y) ∧
    dom (q_prev H') = dom (q_prev H) ∧ dom (q_next H') = dom (q_next H).
Proof.
  intros L Hn Hp Hdp Hdn. pose proof (Z.mod_pos_bound h n Hn) as Hi.
  destruct (layout_bucket _ _ _ _ _ L Hi) as (run & Hb & Eb & Hrun).
  destruct (put_run (slot n) sk run (p, h) Hrun) as (l1 & l2 & -> & Eput & Hrun' & Ehd).
  pose proof (lay_ring _ _ _ _ L) as Hq. rewrite fmap_app in Hq, Hp |- *.
  destruct (list_insert_spec H HEnd _ _ (HPair p) Hq ltac:(set_solver) Hdp Hdn) as (H' & Ei & Hq' & Hfr & Hdom).
  exists H', (<[Z.to_nat (h mod n) := run_bucket ((p, h) :: run)]> bs). split; [|split; [|done]].
  - unfold insert_to_bucket. rewrite Eb, bind_Val, bucket_empty.
    replace (head (node_of <$> l2)) with (head (node_of <$> run)) in Ei by (destruct l2, run; simplify_eq/=; done).
    case_bool_decide as Er; [subst run|]; cbn [run_bucket b_first b_last].
    + simpl in Ei |- *. by rewrite Ei.
    + destruct run as [|y run]; [done|]. rewrite Ei. simpl. done.
  - rewrite Eput. split.
    + by rewrite fmap_app.
    + pose proof (lay_len _ _ _ _ L). unfold zlen in *. by rewrite length_insert.
    + intros i b Hi0 Hl. destruct (decide (i = h mod n)) as [->|Hne].
      * rewrite list_lookup_insert_eq in Hl by (apply lookup_lt_Some in Hb; done). injection Hl as <-. by eexists.
      * rewrite list_lookup_insert_ne in Hl by lia. destruct (lay_runs _ _ _ _ L i b Hi0 Hl) as (run2 & Hr2 & ->).
        exists run2. split; [|done]. apply run_insert; [done|unfold slot; simpl; lia|].
        intros y l ->. destruct run as [|z run]; [done|]. injection Ehd as ->. destruct Hrun as (? & ? & _ & Hr & _).
        apply Forall_cons in Hr as [Hz _]. simpl in Hz. congruence.
Qed.

(** The bucket of a run without one of its elements. *)
Lemma leave_run H l1 x l2 r1 r2 :
  is_queue H HEnd (node_of <$> l1 ++ x :: l2) → NoDup (node_of <$> r1 ++ x :: r2) →
  (r1 ≠ [] → last l1 = last r1) → (r2 ≠ [] → head l2 = head r2) →
  leave_bucket (node_of x) (run_bucket (r1 ++ x :: r2)) H = Val (run_bucket (r1 ++ r2)).
Proof.
  intros Hq Hd H1 H2. rewrite fmap_app, fmap_cons in Hq.
  pose proof (is_queue_next _ _ _ _ _ Hq) as En. pose proof (is_queue_prev _ _ _ _ _ Hq) as Ep.
  rewrite fmap_app, fmap_cons in Hd. apply list.NoDup_app in Hd as (_ & Hd1 & [Hd2 _]%list.NoDup_cons).
  assert (∀ y, y ∈ r1 → node_of x ≠ node_of y) as N1.
  { intros y Hy E. apply (Hd1 (node_of y)); [by apply list_elem_of_fmap_2|]. rewrite E. set_solver. }
  assert (∀ y, y ∈ r2 → node_of x ≠ node_of y) as N2.
  { intros y Hy E. apply Hd2. rewrite E. by apply list_elem_of_fmap_2. }
  unfold leave_bucket, run_bucket, get_next, get_prev. cbn [b_first b_last].
  rewrite !fmap_app, fmap_cons, !last_app, last_cons, En, Ep, !fmap_last.
  destruct r1 as [|y r1], (last r2) as [z|] eqn:Ez; cbn [fmap list_fmap app head option_fmap option_map default from_option id].
  - assert (z ∈ r2) as Hz by (by apply last_Some_elem_of). rewrite (bool_decide_false _ (N2 z Hz)), bool_decide_true by done.
    cbn [andb]. destruct r2 as [|w r2]; [done|]. specialize (H2 ltac:(done)). destruct l2 as [|w' l2]; simplify_eq/=. done.
  - apply last_None in Ez as ->. rewrite !bool_decide_true by done. done.
  - assert (z ∈ r2) as Hz by (by apply last_Some_elem_of). rewrite (bool_decide_false _ (N2 z Hz)).
    assert (node_of x ≠ node_of y) as Ny by (apply N1; set_solver). rewrite (bool_decide_false _ Ny). done.
  - apply last_None in Ez as ->. assert (node_of x ≠ node_of y) as Ny by (apply N1; set_solver).
    rewrite (bool_decide_false _ Ny), bool_decide_true by done. rewrite H1 by done. cbn. done.
Qed.

Lemma free_queue (H : qheap list_t) h xs x : is_queue H h xs → x ∉ h :: xs → is_queue (q_free x H) h xs.
Proof.
  intros Hq Hx. eapply is_queue_frame, Hq; intros y Hy; simpl; (rewrite lookup_delete_ne; [done|]); by intros <-.
Qed.

Lemma layout_nodup H n bs sk : layout H n bs sk → NoDup (node_of <$> sk) ∧ HEnd ∉ node_of <$> sk.
Proof. intros L. destruct (lay_ring _ _ _ _ L) as [Hd _]. apply list.NoDup_cons in Hd. tauto. Qed.

Lemma run_nodup H n bs sk i run : layout H n bs sk → is_run (slot n) i sk run → NoDup (node_of <$> run).
Proof.
  intros [Hd _]%layout_nodup (pre & post & -> & _). rewrite !fmap_app in Hd.
  apply list.NoDup_app in Hd as (_ & _ & (Hd & _)%list.NoDup_app). done.
Qed.

Lemma remove_layout H n bs sk x :
  layout H n bs sk → 0 < n → x ∈ sk →
  ∃ l1 l2 b b' H', sk = l1 ++ x :: l2 ∧ get_bucket bs (slot n x) = Val b ∧ leave_bucket (node_of x) b H = Val b' ∧
    list_remove (node_of x) H = Val H' ∧ layout (q_free (node_of x) H') n (<[Z.to_nat (slot n x) := b']> bs) (l1 ++ l2).
Proof.
  intros L Hn Hx. pose proof (Z.mod_pos_bound (snd x) n Hn) as Hi. fold (slot n x) in Hi.
  destruct (layout_bucket _ _ _ _ _ L Hi) as (run & Hb & Eb & Hrun).
  destruct (layout_nodup _ _ _ _ L) as [Hd He]. pose proof (run_nodup _ _ _ _ _ _ L Hrun) as Hdr.
  destruct (run_remove_same (slot n) (slot n x) sk run x) as (l1 & l2 & r1 & r2 & -> & -> & Hrun' & H1 & H2);
    [by eapply NoDup_fmap_1|done|by eapply run_elem|].
  pose proof (lay_ring _ _ _ _ L) as Hq. exists l1, l2, (run_bucket (r1 ++ x :: r2)), (run_bucket (r1 ++ r2)). rewrite fmap_app, fmap_cons in Hq.
  destruct (ngx_queue_remove_spec _ _ _ _ _ Hq) as (H' & Er & Hq' & _ & _). exists H'.
  split; [done|]. split; [exact Eb|]. split; [|split; [by erewrite list_remove_spec|]].
  { apply (leave_run H l1 x l2); [by rewrite fmap_app, fmap_cons|done..]. }
  split.
  - rewrite fmap_app. apply free_queue; [done|]. rewrite fmap_app, fmap_cons in Hd, He.
    apply list.NoDup_app in Hd as (_ & Hd1 & [Hd2 _]%list.NoDup_cons). rewrite not_elem_of_cons, not_elem_of_app. split; [done|]. split; [|done]. intros Hin. apply (Hd1 _ Hin). constructor.
  - pose proof (lay_len _ _ _ _ L). unfold zlen in *. by rewrite length_insert.
  - intros i b Hi0 Hl. destruct (decide (i = slot n x)) as [->|Hne].
    + rewrite list_lookup_insert_eq in Hl by (apply lookup_lt_Some in Hb; done). injection Hl as <-. by eexists.
    + rewrite list_lookup_insert_ne in Hl by lia. destruct (lay_runs _ _ _ _ L i b Hi0 Hl) as (run2 & Hr2 & ->).
      exists run2. split; [|done]. eapply run_remove_other; [done|]. congruence.
Qed.

(** ** The table *)

Section Rep.
Context {V : Type}.
Abbreviation block := (positive * pair_t V)%type.
Implicit Types (t : table_t V) (ps : list block) (key : string) (x : block).

Definition skel ps : list (positive * Z) := (λ x, (fst x, p_hash (snd x))) <$> ps.
Definition kvs ps : list (string * V) := (λ x, (p_key (snd x), p_value (snd x))) <$> ps.

Record ht_rep t ps : Prop := {
  rep_layout : ∃ n bs, primes !! t_num_buckets t = Some n ∧ t_buckets t = Some bs ∧ layout (t_links t) n bs (skel ps);
  rep_pairs : t_pairs t = list_to_map ps;
  rep_fresh : Forall (λ x, (fst x < t_next t)%positive) ps;
  rep_hash : Forall (λ x, p_hash (snd x) = hash_str (p_key (snd x))) ps;
  rep_keys : NoDup (kvs ps).*1;
  rep_size : t_size t = zlen ps
}.

Lemma nodes_skel ps : node_of <$> skel ps = (λ x, HPair (fst x)) <$> ps.
Proof. unfold skel. by rewrite <- list_fmap_compose. Qed.

Lemma layout_fst H n bs ps : layout H n bs (skel ps) → NoDup ps.*1.
Proof.
  intros [Hd _]%layout_nodup. rewrite nodes_skel in Hd. change (λ x, HPair x.1) with (HPair ∘ (fst : block → positive)) in Hd.
  rewrite list_fmap_compose in Hd. by eapply NoDup_fmap_1.
Qed.

Lemma pair_lookup t l1 x l2 : t_pairs t = list_to_map (l1 ++ x :: l2) → NoDup (l1 ++ x :: l2).*1 →
  list_to_pair t (HPair (fst x)) = Val x.
Proof.
  intros E Hd. unfold list_to_pair. rewrite E.
  rewrite (proj1 (elem_of_list_to_map (l1 ++ x :: l2) (fst x) (snd x) Hd)); [by destruct x|]. destruct x. set_solver.
Qed.

Fixpoint find_key key ps : option block :=
  match ps with
  | [] => None
  | x :: ps => if bool_decide (p_key (snd x) = key) then Some x else find_key key ps
  end.

Lemma find_key_Some key ps x : find_key key ps = Some x →
  ∃ l1 l2, ps = l1 ++ x :: l2 ∧ p_key (snd x) = key ∧ Forall (λ y, p_key (snd y) ≠ key) l1.
Proof.
  induction ps as [|y ps IH]; [done|]. cbn [find_key]. case_bool_decide as E.
  - intros [= ->]. exists [], ps. by repeat constructor.
  - intros (l1 & l2 & -> & Hx & Hl)%IH. exists (y :: l1), l2. split; [done|]. split; [done|by constructor].
Qed.

Lemma find_key_None key ps : find_key key ps = None → key ∉ (kvs ps).*1.
Proof.
  induction ps as [|y ps IH]; cbn [find_key]; [intros _; apply not_elem_of_nil|]. case_bool_decide; [done|].
  intros Hn. simpl. apply not_elem_of_cons. auto.
Qed.

Lemma find_key_skip key pre ps : Forall (λ y, p_key (snd y) ≠ key) pre → find_key key (pre ++ ps) = find_key key ps.
Proof. induction 1 as [|y pre Hy _ IH]; [done|]. simpl. by rewrite bool_decide_false. Qed.

Lemma find_key_none key ps : Forall (λ y, p_key (snd y) ≠ key) ps → find_key key ps = None.
Proof. intros Hf. rewrite <- (app_nil_r ps). by rewrite find_key_skip. Qed.

(** The loop from the first to the last pair of a run. *)
Lemma find_loop_run t pre run post key last_ fuel :
  is_queue (t_links t) HEnd (node_of <$> skel (pre ++ run ++ post)) → t_pairs t = list_to_map (pre ++ run ++ post) →
  NoDup (pre ++ run ++ post).*1 → Forall (λ x, p_hash (snd x) = hash_str (p_key (snd x))) run →
  (fst <$> last run) = Some last_ → (length run ≤ fuel)%nat →
  ∀ x r, run = x :: r → find_loop fuel t (HPair (fst x)) (HPair last_) key (hash_str key) = Val (fst <$> find_key key run).
Proof.
  revert pre fuel. induction run as [|x run IH]; intros pre fuel Hq Hp Hd Hh Hl Hf x' r [= -> ->].
  destruct fuel as [|fuel]; [simpl in Hf; lia|]. cbn [find_loop find_key].
  rewrite (pair_lookup t pre x' (r ++ post)) by done. rewrite bind_Val. destruct x' as [p pr]. cbn [fst snd] in *.
  apply Forall_cons in Hh as [Hx Hh]. cbn [snd] in Hx. case_bool_decide as E.
  { rewrite Hx, E, Z.eqb_refl. done. }
  rewrite andb_false_r. destruct r as [|y r].
  - simpl in Hl. injection Hl as <-. by rewrite bool_decide_true.
  - rewrite last_cons in Hl.
    assert (∃ z, last (y :: r) = Some z) as [z Ez] by (destruct (last (y :: r)) eqn:E'; [eauto|by apply last_None in E']).
    rewrite Ez in Hl. injection Hl as <-. assert (z ∈ y :: r) as Hz by (by apply last_Some_elem_of).
    rewrite bool_decide_false.
    2: { intros [= ->]. rewrite fmap_app in Hd. apply list.NoDup_app in Hd as (_ & _ & Hd). cbn [app] in Hd. rewrite fmap_cons in Hd.
      apply list.NoDup_cons in Hd as [Hd _]. apply Hd. cbn [fst]. change (y :: r ++ post) with ((y :: r) ++ post).
      apply list_elem_of_fmap_2, elem_of_app. by left. }
    rewrite nodes_skel, fmap_app in Hq. cbn [app] in Hq. rewrite fmap_cons in Hq.
    pose proof (is_queue_next _ _ _ _ _ Hq) as En. cbn [fst] in En. unfold get_next. rewrite En, bind_Val.
    cbn [app fmap list_fmap head default from_option id]. apply (IH (pre ++ [(p, pr)]) fuel) with (r := r).
    + rewrite nodes_skel, <- app_assoc, fmap_app. done.
    + by rewrite <- app_assoc.
    + by rewrite <- app_assoc.
    + done.
    + by rewrite Ez.
    + simpl in Hf |- *. lia.
    + done.
Qed.

Lemma primes_pos ix n : primes !! ix = Some n → 0 < n.
Proof. assert (Forall (λ n, 0 < n) primes) as Hf by (by repeat constructor). intros E. by apply (Forall_lookup_1 _ _ _ _ Hf E). Qed.

Lemma rounds_length t ps : t_pairs t = list_to_map ps → NoDup ps.*1 → rounds t = S (length ps).
Proof. intros E Hd. unfold rounds. by rewrite E, map_size_list_to_map. Qed.

Lemma find_spec t ps n bs key :
  ht_rep t ps → 0 < n → t_buckets t = Some bs → layout (t_links t) n bs (skel ps) →
  ∃ b, get_bucket bs (hash_str key mod n) = Val b ∧ hashtable_find_pair t b key (hash_str key) = Val (fst <$> find_key key ps).
Proof.
  intros R Hn Eb L. destruct (layout_bucket _ _ _ _ (hash_str key mod n) L) as (run & _ & Hb & Hrun); [by apply Z.mod_pos_bound|].
  exists (run_bucket run). split; [done|]. destruct Hrun as (pre & post & E & Hr & Ho). unfold skel in E.
  apply fmap_app_inv in E as (p1 & q & -> & E & Eps). symmetry in E. apply fmap_app_inv in E as (pr & p2 & -> & -> & ->). subst ps.
  assert (∀ l, Forall (λ x, p_hash (snd x) = hash_str (p_key (snd x))) l →
    Forall (λ x : positive * Z, slot n x ≠ hash_str key mod n) (skel l) → Forall (λ y, p_key (snd y) ≠ key) l) as Hne.
  { intros l H1 H2. unfold skel in H2. rewrite Forall_fmap in H2. rewrite Forall_forall in H1, H2 |- *. intros x Hx Ek.
    apply (H2 x Hx). unfold compose, slot. cbn [snd]. by rewrite H1, Ek. }
  pose proof (rep_hash _ _ R) as Hh. rewrite !Forall_app in Hh. destruct Hh as (Hh1 & Hh2 & Hh3). apply Forall_app in Ho as [Ho1 Ho2].
  rewrite find_key_skip by (by apply Hne). pose proof (Hne _ Hh3 Ho2) as H3.
  assert (find_key key (pr ++ p2) = find_key key pr) as ->.
  { clear -H3. induction pr as [|x l IH]; [by apply find_key_none|]. cbn [app find_key]. case_bool_decide; [done|exact IH]. }
  unfold hashtable_find_pair. rewrite bucket_empty. case_bool_decide as Er.
  { apply fmap_nil_inv in Er as ->. done. }
  destruct pr as [|x r]; [done|]. pose proof (layout_fst _ _ _ _ L) as Hd. rewrite (rounds_length _ _ (rep_pairs _ _ R) Hd).
  unfold run_bucket. cbn [b_first b_last]. change ((λ x, (x.1, p_hash x.2)) <$> x :: r) with (skel (x :: r)). rewrite nodes_skel.
  assert (∃ z, last (x :: r) = Some z) as [z Ez] by (destruct (last (x :: r)) eqn:E'; [eauto|by apply last_None in E']).
  rewrite fmap_last, Ez. cbn [head fmap list_fmap option_fmap option_map default from_option id].
  apply (find_loop_run t p1 (x :: r) p2 key (fst z)) with (r := r); [apply (lay_ring _ _ _ _ L)|apply (rep_pairs _ _ R)|done|done|by rewrite Ez| |done].
  rewrite !length_app. lia.
Qed.

(** *** Against the list of pairs *)

Lemma abs_num_buckets ix n (l : list (string * V)) : primes !! ix = Some n → Jansson.num_buckets (mkTable ix l) = n.
Proof. intros E. unfold Jansson.num_buckets. cbn [num_buckets_ix]. by apply nth_lookup_Some. Qed.

Lemma abs_find n key ps : Jansson.find_pair n (hash_str key mod n) key (kvs ps) = (λ x, p_value (snd x)) <$> find_key key ps.
Proof.
  induction ps as [|x ps IH]; [done|]. cbn [kvs fmap list_fmap find_pair find_key]. case_bool_decide as E.
  - subst key. by rewrite !Z.eqb_refl.
  - by rewrite andb_false_r.
Qed.

Lemma abs_find_pair ix n key ps : primes !! ix = Some n →
  Jansson.hashtable_find_pair (mkTable ix (kvs ps)) key = (λ x, p_value (snd x)) <$> find_key key ps.
Proof. intros E. unfold Jansson.hashtable_find_pair. rewrite (abs_num_buckets _ n) by done. apply abs_find. Qed.

Lemma abs_replace key value l1 x l2 serial :
  p_key (snd x) = key → Forall (λ y, p_key (snd y) ≠ key) l1 →
  replace_value key value (kvs (l1 ++ x :: l2)) =
  kvs (l1 ++ (fst x, mkPair (p_hash (snd x)) value serial (p_key (snd x))) :: l2).
Proof.
  intros Hx Hl. induction Hl as [|y l Hy _ IH]; cbn [app kvs fmap list_fmap replace_value].
  - by rewrite bool_decide_true.
  - rewrite bool_decide_false by done. f_equal. exact IH.
Qed.

Lemma abs_remove key l1 x l2 :
  p_key (snd x) = key → Forall (λ y, p_key (snd y) ≠ key) l1 → remove_pair key (kvs (l1 ++ x :: l2)) = kvs (l1 ++ l2).
Proof.
  intros Hx Hl. induction Hl as [|y l Hy _ IH]; cbn [app kvs fmap list_fmap remove_pair].
  - by rewrite bool_decide_true.
  - rewrite bool_decide_false by done. f_equal. exact IH.
Qed.

Definition pslot (n : Z) (x : block) : Z := p_hash (snd x) mod n.

Lemma abs_insert n x ps : p_hash (snd x) = hash_str (p_key (snd x)) →
  Forall (λ x, p_hash (snd x) = hash_str (p_key (snd x))) ps →
  Jansson.insert_to_bucket n (p_hash (snd x) mod n) (p_key (snd x), p_value (snd x)) (kvs ps) = kvs (put (pslot n) x ps).
Proof.
  intros Hx Hps. induction Hps as [|y l Hy _ IH]; [done|]. cbn [kvs fmap list_fmap Jansson.insert_to_bucket put fst]. rewrite <- Hy.
  unfold pslot at 1 2. case_match; [done|]. cbn [fmap list_fmap]. f_equal. exact IH.
Qed.

Lemma skel_put n x ps : skel (put (pslot n) x ps) = put (slot n) (fst x, p_hash (snd x)) (skel ps).
Proof. by apply (put_fmap (pslot n) (slot n) (λ x, (fst x, p_hash (snd x)))). Qed.

(** ** The operations implement those on the list *)

Definition abs t ps : hashtable_t V := mkTable (t_num_buckets t) (kvs ps).

(** The values the table owns. *)
Definition values ps : list V := (kvs ps).*2.

Lemma get_spec t ps key : ht_rep t ps → hashtable_get t key = Val (Jansson.hashtable_get (abs t ps) key).
Proof.
  intros R. destruct (rep_layout _ _ R) as (n & bs & En & Eb & L). destruct (find_spec t ps n bs key R (primes_pos _ _ En) Eb L) as (b & Hb & Hf).
  unfold hashtable_get, num_buckets, buckets. rewrite En, Eb, !bind_Val, Hb, bind_Val, Hf, bind_Val.
  unfold Jansson.hashtable_get, abs. rewrite (abs_find_pair _ n) by done.
  destruct (find_key key ps) as [x|] eqn:Ek; [|done]. cbn [fmap option_fmap option_map].
  apply find_key_Some in Ek as (l1 & l2 & -> & _ & _).
  rewrite (pair_lookup t l1 x l2 (rep_pairs _ _ R) (layout_fst _ _ _ _ L)), bind_Val. by destruct x.
Qed.

Lemma init_spec malloc : malloc_succeeds malloc → ∃ t, hashtable_init malloc = Val (Some t) ∧ ht_rep t [] ∧ t_num_buckets t = 0%nat ∧ t_decrefs t = [].
Proof.
  intros Hm. unfold hashtable_init, num_buckets. cbv zeta. cbn [t_num_buckets]. replace (primes !! 0%nat) with (Some 5) by done. rewrite bind_Val.
  rewrite Hm by (unfold sizeof_bucket; lia). cbn [negb t_links]. rewrite list_init_spec by (by rewrite ?dom_insert_L; set_solver).
  rewrite bind_Val. eexists. split; [done|]. split; [|done]. split; cbn; [|done|constructor|constructor|constructor|done].
  exists 5, (empty_buckets 5). split; [done|]. split; [done|]. apply layout_empty; [lia|]. apply (is_queue_alloc HEnd (q_alloc HEnd (mkHeap ∅ ∅))).
Qed.

Lemma map_replace (l1 l2 : list block) p pr pr' : NoDup (l1 ++ (p, pr) :: l2).*1 →
  <[p := pr']> (list_to_map (l1 ++ (p, pr) :: l2)) =@{gmap positive (pair_t V)} list_to_map (l1 ++ (p, pr') :: l2).
Proof.
  intros Hd. rewrite (list_to_map_proper (l1 ++ (p, pr) :: l2) ((p, pr) :: l1 ++ l2)) by (done || symmetry; apply Permutation_middle).
  rewrite (list_to_map_proper (l1 ++ (p, pr') :: l2) ((p, pr') :: l1 ++ l2)); [|by rewrite !fmap_app, !fmap_cons in *|symmetry; apply Permutation_middle].
  rewrite !list_to_map_cons. by rewrite insert_insert_eq.
Qed.

(** Storing a value in the pair of a key that is present. *)
Lemma replace_rep t l1 x l2 value : ht_rep t (l1 ++ x :: l2) →
  ht_rep (set_pair (fst x) (mkPair (p_hash (snd x)) value (p_serial (snd x)) (p_key (snd x))) (json_decref (p_value (snd x)) t))
    (l1 ++ (fst x, mkPair (p_hash (snd x)) value (p_serial (snd x)) (p_key (snd x))) :: l2).
Proof.
  intros R. destruct x as [p pr]. cbn [fst snd]. destruct (rep_layout _ _ R) as (n & bs & En & Eb & L).
  pose proof (layout_fst _ _ _ _ L) as Hd. split; cbn.
  - exists n, bs. split; [done|]. split; [done|]. unfold skel in *. by rewrite !fmap_app, !fmap_cons in *.
  - rewrite (rep_pairs _ _ R). by apply map_replace.
  - pose proof (rep_fresh _ _ R) as Hf. rewrite !Forall_app, !Forall_cons in *. done.
  - pose proof (rep_hash _ _ R) as Hf. rewrite !Forall_app, !Forall_cons in *. done.
  - pose proof (rep_keys _ _ R) as Hf. unfold kvs in *. by rewrite !fmap_app, !fmap_cons in *.
  - rewrite (rep_size _ _ R). zl.
Qed.

Lemma layout_frame H H' n bs sk : layout H n bs sk →
  (∀ y, y ∈ HEnd :: (node_of <$> sk) → q_prev H' !! y = q_prev H !! y ∧ q_next H' !! y = q_next H !! y) → layout H' n bs sk.
Proof. intros [Hq Hl Hr] Hf. split; [|done..]. eapply is_queue_frame, Hq; intros y Hy; by apply Hf. Qed.

(** Adding the pair of a new key. *)
Lemma insert_rep t ps n bs key serial value :
  ht_rep t ps → primes !! t_num_buckets t = Some n → t_buckets t = Some bs → layout (t_links t) n bs (skel ps) →
  key ∉ (kvs ps).*1 →
  ∃ H1 H bs' ps', let '(p, t1) := new_pair (hash_str key) key serial value t in
    list_init (HPair p) (t_links t1) = Val H1 ∧ insert_to_bucket (hash_str key mod n) (HPair p) H1 bs = Val (H, bs') ∧
    ht_rep (set_size (zlen ps + 1) (set_links H (set_buckets (Some bs') t1))) ps' ∧
    kvs ps' = Jansson.insert_to_bucket n (hash_str key mod n) (key, value) (kvs ps) ∧
    ps' ≡ₚ (p, mkPair (hash_str key) value serial key) :: ps.
Proof.
  intros R En Eb L Hk. cbn [new_pair t_links]. set (p := t_next t). set (pr := mkPair (hash_str key) value serial key).
  assert (p ∉ ps.*1) as Hp.
  { intros (x & E & Hx)%list_elem_of_fmap. pose proof (rep_fresh _ _ R) as Hf. rewrite Forall_forall in Hf. specialize (Hf x Hx). unfold p in E. lia. }
  assert (HPair p ∉ node_of <$> skel ps) as Hpn.
  { rewrite nodes_skel. intros (x & [= E] & Hx)%list_elem_of_fmap. apply Hp. rewrite E. by apply list_elem_of_fmap_2. }
  unfold q_alloc. cbn [q_prev q_next]. rewrite list_init_spec by (cbn; rewrite dom_insert_L; set_solver). cbn [q_prev q_next].
  rewrite !insert_insert_eq. set (H1 := mkHeap _ _).
  assert (layout H1 n bs (skel ps)) as L1.
  { apply (layout_frame (t_links t)); [done|]. intros y Hy. unfold H1. cbn [q_prev q_next].
    rewrite !lookup_insert_ne; [done|..]; intros <-; apply elem_of_cons in Hy as [|]; done. }
  destruct (insert_layout H1 n bs (skel ps) p (hash_str key) L1) as (H & bs' & E & L' & _); [by eapply primes_pos|done|unfold H1; cbn; rewrite dom_insert_L; set_solver..|].
  exists H1, H, bs', (put (pslot n) (p, pr) ps). split; [done|]. split; [done|].
  assert (put (pslot n) (p, pr) ps ≡ₚ (p, pr) :: ps) as Hperm by apply put_perm.
  assert (NoDup ((p, pr) :: ps).*1) as Hd by (apply list.NoDup_cons; split; [done|]; by eapply layout_fst).
  split; [|split; [|done]].
  - split; cbn.
    + exists n, bs'. split; [done|]. split; [done|]. by rewrite skel_put.
    + rewrite (rep_pairs _ _ R), <- list_to_map_cons. symmetry. apply list_to_map_proper; [by rewrite Hperm|done].
    + rewrite Hperm. constructor; [unfold p; simpl; lia|]. eapply Forall_impl; [apply (rep_fresh _ _ R)|]. intros x Hx. simpl in *. lia.
    + rewrite Hperm. constructor; [done|apply (rep_hash _ _ R)].
    + unfold kvs. rewrite Hperm. apply list.NoDup_cons. split; [done|apply (rep_keys _ _ R)].
    + unfold zlen. rewrite Hperm. simpl. lia.
  - symmetry. apply (abs_insert n (p, pr)); [done|apply (rep_hash _ _ R)].
Qed.

(** The nodes not yet moved keep their [next] fields. *)
Lemma rehash_loop_spec n rs : 0 < n → ∀ acc t bs fuel,
  layout (t_links t) n bs (skel acc) → t_buckets t = Some bs → NoDup (acc ++ rs).*1 →
  nexts (t_links t) ((node_of <$> skel rs) ++ [HEnd]) →
  (∀ x, x ∈ rs → t_pairs t !! fst x = Some (snd x) ∧ HPair (fst x) ∈ dom (q_prev (t_links t)) ∧ HPair (fst x) ∈ dom (q_next (t_links t))) →
  (length rs < fuel)%nat →
  ∃ H bs', rehash_loop fuel n (default HEnd (head (node_of <$> skel rs))) t = Val (set_links H (set_buckets (Some bs') t)) ∧
    layout H n bs' (skel (foldl (λ l x, put (pslot n) x l) acc rs)).
Proof.
  intros Hn. induction rs as [|x rs IH]; intros acc t bs fuel L Eb Hd Hnx Hrs Hf.
  - destruct fuel as [|fuel]; [simpl in Hf; lia|]. exists (t_links t), bs. split; [|done]. simpl. destruct t; simpl in *. by subst.
  - destruct fuel as [|fuel]; [simpl in Hf; lia|]. destruct x as [p pr]. cbn [skel fmap list_fmap head default from_option id node_of fst].
    cbn [rehash_loop]. rewrite bool_decide_false by done.
    destruct (Hrs (p, pr) ltac:(set_solver)) as (Hp & Hdp & Hdn). cbn [fst snd] in *.
    assert (nexts (t_links t) ((node_of <$> skel rs) ++ [HEnd]) ∧
      q_next (t_links t) !! HPair p = Some (default HEnd (head (node_of <$> skel rs)))) as [Hnx' En].
    { destruct rs as [|y rs]; simpl in Hnx; destruct Hnx as [? ?]; done. }
    change (node_of (p, p_hash pr)) with (HPair p). unfold get_next. rewrite En, bind_Val. unfold list_to_pair. rewrite Hp, bind_Val. unfold buckets. rewrite Eb, bind_Val.
    rewrite fmap_app in Hd. apply list.NoDup_app in Hd as (Hd1 & Hd2 & Hd3). rewrite fmap_cons in Hd3. apply list.NoDup_cons in Hd3 as [Hd3 Hd4].
    destruct (insert_layout _ n bs (skel acc) p (p_hash pr) L Hn) as (H & bs' & Ei & L' & Hfr & Hdomp & Hdomn).
    { rewrite nodes_skel. intros (y & [= E] & Hy)%list_elem_of_fmap. apply (Hd2 p); [rewrite E; by apply list_elem_of_fmap_2|constructor]. }
    { done. } { done. }
    rewrite Ei, bind_Val. set (t1 := set_links H (set_buckets (Some bs') t)).
    change (rehash_loop fuel n _ t1) with (rehash_loop fuel n (default HEnd (head (node_of <$> skel rs))) t1).
    destruct (IH (put (pslot n) (p, pr) acc) t1 bs' fuel) as (H2 & bs2 & E2 & L2).
    + unfold t1. cbn. by rewrite skel_put.
    + done.
    + rewrite fmap_app, put_perm. simpl. apply list.NoDup_cons. rewrite not_elem_of_app. split; [split; [|done]|].
      * intros Hin. apply (Hd2 _ Hin). constructor.
      * apply list.NoDup_app. split; [done|]. split; [|done]. intros z Hz Hz2. apply (Hd2 z Hz). by constructor.
    + unfold t1. cbn [set_links t_links]. eapply nexts_frame, Hnx'. intros y Hy. apply Hfr.
      rewrite nodes_skel in Hy |- *. apply list_elem_of_fmap in Hy as (z & -> & Hz). rewrite !not_elem_of_cons. split; [done|]. split.
      * intros [= E]. apply Hd3. cbn [fst]. rewrite <- E. by apply list_elem_of_fmap_2.
      * intros (w & [= E] & Hw)%list_elem_of_fmap. apply (Hd2 (fst w)); [by apply list_elem_of_fmap_2|]. rewrite <- E. constructor. by apply list_elem_of_fmap_2.
    + intros y Hy. unfold t1. cbn [set_links set_buckets t_links t_pairs]. rewrite Hdomp, Hdomn. apply Hrs. by constructor.
    + simpl in Hf. lia.
    + exists H2, bs2. split; [|done]. rewrite E2. done.
Qed.

Definition moved n acc ps : list block := foldl (λ l x, put (pslot n) x l) acc ps.

Lemma moved_perm n ps acc : moved n acc ps ≡ₚ acc ++ ps.
Proof.
  revert acc. induction ps as [|x ps IH]; intros acc; [by rewrite app_nil_r|]. cbn [moved foldl]. unfold moved in IH.
  by rewrite IH, put_perm, <- Permutation_middle.
Qed.

Lemma abs_moved n ps acc : let ok := Forall (λ x, p_hash (snd x) = hash_str (p_key (snd x))) in ok acc → ok ps →
  kvs (moved n acc ps) = foldl (λ l p, Jansson.insert_to_bucket n (hash_str (fst p) mod n) p l) (kvs acc) (kvs ps).
Proof.
  cbv zeta. revert acc. induction ps as [|x ps IH]; intros acc Ha Hps; [done|]. apply Forall_cons in Hps as [Hx Hps].
  cbn [moved foldl kvs fmap list_fmap fst]. unfold moved in IH. rewrite IH; [|rewrite put_perm; by constructor|done].
  rewrite <- (abs_insert n x acc Hx Ha), Hx. done.
Qed.

Lemma primes_bound ix n : primes !! ix = Some n → n < 2 ^ 31.
Proof. assert (Forall (λ n, n < 2 ^ 31) primes) as Hf by (by repeat constructor). intros E. by apply (Forall_lookup_1 _ _ _ _ Hf E). Qed.

Lemma rep_doms t ps x : ht_rep t ps → x ∈ ps →
  t_pairs t !! fst x = Some (snd x) ∧ HPair (fst x) ∈ dom (q_prev (t_links t)) ∧ HPair (fst x) ∈ dom (q_next (t_links t)).
Proof.
  intros R Hx. destruct (rep_layout _ _ R) as (n & bs & _ & _ & L). split.
  - rewrite (rep_pairs _ _ R). apply elem_of_list_to_map; [by eapply layout_fst|by destruct x].
  - apply list_elem_of_split in Hx as (l1 & l2 & ->). pose proof (lay_ring _ _ _ _ L) as Hq.
    rewrite nodes_skel, fmap_app, fmap_cons in Hq. by apply is_queue_dom in Hq.
Qed.

Lemma head_dom (H : qheap list_t) h xs : is_queue H h xs → h ∈ dom (q_prev H) ∧ h ∈ dom (q_next H).
Proof.
  intros Hq. destruct (snoc_view h xs) as (l & z & E). destruct (is_queue_last _ _ _ _ _ Hq E) as [Hp _].
  split; [by eapply elem_of_dom_2|]. destruct Hq as [_ Hc]. destruct xs; destruct Hc as [Hn _]; by eapply elem_of_dom_2.
Qed.

Lemma rehash_spec malloc t ps n : malloc_succeeds malloc → ht_rep t ps → primes !! S (t_num_buckets t) = Some n →
  ∃ t' ps', hashtable_do_rehash malloc t = Val (t', true) ∧ ht_rep t' ps' ∧ abs t' ps' = Jansson.hashtable_do_rehash (abs t ps) ∧
    ps' ≡ₚ ps ∧ t_decrefs t' = t_decrefs t.
Proof.
  intros Hm R En. destruct (rep_layout _ _ R) as (n0 & bs & _ & _ & L). pose proof (lay_ring _ _ _ _ L) as Hq.
  pose proof (layout_fst _ _ _ _ L) as Hd. pose proof (primes_pos _ _ En) as Hn. pose proof (primes_bound _ _ En) as Hn2.
  unfold hashtable_do_rehash, num_buckets. cbv zeta. cbn [set_num_buckets t_num_buckets]. rewrite En, bind_Val.
  rewrite Hm by (unfold sizeof_bucket; lia). cbn [negb set_buckets set_num_buckets t_links t_num_buckets t_size t_pairs t_next t_decrefs].
  pose proof (ngx_queue_head_spec _ _ _ Hq) as Hh. unfold ngx_queue_head in Hh. rewrite Hh, bind_Val.
  destruct (head_dom _ _ _ Hq) as [Hp Hnn]. destruct Hq as [Hdq Hc]. pose proof (chain_nexts _ _ Hc) as Hnx.
  rewrite list_init_spec by done. rewrite bind_Val. set (t1 := set_links _ _).
  match goal with |- context [rehash_loop ?r n _ t1] => change r with (rounds t1) end.
  destruct (rehash_loop_spec n ps Hn [] t1 (empty_buckets n) (rounds t1)) as (H & bs' & E & L').
  - apply layout_empty; [lia|]. apply is_queue_alloc.
  - done.
  - done.
  - unfold t1. cbn [set_links t_links]. eapply nexts_frame; [|eapply (nexts_frame (t_links t))]; [|done|].
    + intros y Hy. cbn [q_next]. rewrite lookup_insert_ne; [done|]. intros <-. by apply NoDup_cons_1_1 in Hdq.
    + destruct (node_of <$> skel ps); [done|]. by destruct Hnx.
  - intros x Hx. destruct (rep_doms t ps x R Hx) as (H1 & H2 & H3). unfold t1. cbn. rewrite !dom_insert_L. set_solver.
  - rewrite (rounds_length t1 ps); [lia|apply (rep_pairs _ _ R)|done].
  - fold (moved n [] ps) in L'. exists (set_links H (set_buckets (Some bs') t1)), (moved n [] ps). rewrite E. split; [done|].
    pose proof (moved_perm n ps []) as Hperm. cbn [app] in Hperm. split; [|split; [|done]].
    + split; cbn.
      * by exists n, bs'.
      * rewrite (rep_pairs _ _ R). apply list_to_map_proper; [done|by symmetry].
      * rewrite Hperm. apply (rep_fresh _ _ R).
      * rewrite Hperm. apply (rep_hash _ _ R).
      * unfold kvs. rewrite Hperm. apply (rep_keys _ _ R).
      * rewrite (rep_size _ _ R). unfold zlen. by rewrite Hperm.
    + unfold abs, Jansson.hashtable_do_rehash. cbn [t_num_buckets set_links set_buckets set_num_buckets t1 num_buckets_ix ht_list].
      rewrite (abs_num_buckets _ n) by done. f_equal. apply (abs_moved n ps []); [constructor|apply (rep_hash _ _ R)].
Qed.

(** A larger prime is left while there are fewer pairs than the largest. *)
Definition MAX_PAIRS : Z := 1610612741.

Lemma next_prime ix n (size : Z) : primes !! ix = Some n → n ≤ size < MAX_PAIRS → ∃ n', primes !! S ix = Some n'.
Proof.
  intros E Hs. destruct (primes !! S ix) as [n'|] eqn:E'; [by eexists|]. exfalso. apply lookup_ge_None in E'. apply lookup_lt_Some in E as Hl.
  assert (ix = 28%nat) as -> by (unfold primes in *; simpl length in *; lia). vm_compute in E. injection E as <-. unfold MAX_PAIRS in Hs. lia.
Qed.

(** [hashtable_set] of [Jansson.v] after the rehash. *)
Definition store_spec (h : hashtable_t V) key (value : V) : hashtable_t V :=
  let n := Jansson.num_buckets h in
  match Jansson.hashtable_find_pair h key with
  | Some _ => mkTable (num_buckets_ix h) (replace_value key value (ht_list h))
  | None => mkTable (num_buckets_ix h) (Jansson.insert_to_bucket n (hash_str key mod n) (key, value) (ht_list h))
  end.

Lemma store_ok malloc t ps key serial value :
  malloc_succeeds malloc → ht_rep t ps → zlen ps < MAX_PAIRS → 0 ≤ zlen (bytes_of key) < 2 ^ 62 →
  ∃ t' ps', hashtable_store malloc t key serial value = Val (t', true) ∧ ht_rep t' ps' ∧
    abs t' ps' = store_spec (abs t ps) key value ∧
    t_decrefs t' ++ values ps' ≡ₚ t_decrefs t ++ values ps ++ [value] ∧ zlen ps' ≤ zlen ps + 1.
Proof.
  intros Hm R Hmax Hkey. destruct (rep_layout _ _ R) as (n & bs & En & Eb & L).
  pose proof (rep_size _ _ R) as Hs. pose proof (primes_pos _ _ En) as Hn.
  destruct (find_spec t ps n bs key R Hn Eb L) as (b & Hb & Hf).
  unfold hashtable_store, num_buckets, buckets. rewrite En, bind_Val, Eb, bind_Val, Hb, bind_Val, Hf, bind_Val.
  unfold store_spec, abs. rewrite (abs_find_pair _ n), (abs_num_buckets _ n) by done. cbn [num_buckets_ix ht_list].
  destruct (find_key key ps) as [x|] eqn:Ek; cbn [fmap option_fmap option_map].
  - apply find_key_Some in Ek as (l1 & l2 & -> & Hx & Hl1).
    rewrite (pair_lookup t l1 x l2 (rep_pairs _ _ R) (layout_fst _ _ _ _ L)), bind_Val.
    pose proof (replace_rep t l1 x l2 value R) as R'. destruct x as [p pr]. cbn [fst snd] in *. eexists _, _. split; [done|].
    split; [exact R'|]. split; [unfold abs; by rewrite (abs_replace _ _ _ _ _ (p_serial pr))|]. split; [|zl].
    unfold values, kvs. rewrite !fmap_app, !fmap_cons. cbn. rewrite <- !app_assoc. apply Permutation_app_head. cbn [app].
    by rewrite <- !Permutation_middle, app_nil_r.
  - apply find_key_None in Ek. rewrite Hm by (unfold offsetof_key; lia). cbn [negb].
    destruct (insert_rep t ps n bs key serial value R En Eb L Ek) as (H1 & H & bs' & ps' & Hi).
    cbn [new_pair] in Hi |- *. destruct Hi as (E1 & E2 & R' & Ekv & Hperm). rewrite E1, bind_Val, E2, bind_Val.
    cbn [t_size set_links set_buckets]. rewrite Hs, wrap_small by (unfold is_u; pose proof (zlen_nonneg ps); unfold MAX_PAIRS in *; lia).
    eexists _, ps'. split; [done|]. split; [exact R'|]. split; [unfold abs; by rewrite Ekv|].
    assert (values ps' ≡ₚ value :: values ps) as Hv by (unfold values, kvs; by rewrite Hperm).
    split; [|unfold zlen; rewrite Hperm; simpl; lia]. rewrite Hv. cbn. by rewrite (Permutation_app_comm (values ps) [value]).
Qed.

Lemma set_spec malloc t ps key serial value :
  malloc_succeeds malloc → ht_rep t ps → zlen ps < MAX_PAIRS → 0 ≤ zlen (bytes_of key) < 2 ^ 62 →
  ∃ t' ps', hashtable_set malloc t key serial value = Val (t', true) ∧ ht_rep t' ps' ∧
    abs t' ps' = Jansson.hashtable_set (abs t ps) key value ∧
    t_decrefs t' ++ values ps' ≡ₚ t_decrefs t ++ values ps ++ [value] ∧ zlen ps' ≤ zlen ps + 1.
Proof.
  intros Hm R Hmax Hkey. destruct (rep_layout _ _ R) as (n & bs & En & Eb & L). pose proof (rep_size _ _ R) as Hs.
  unfold hashtable_set, num_buckets. rewrite En, bind_Val.
  change (Jansson.hashtable_set (abs t ps) key value) with (store_spec
    (if Jansson.num_buckets (abs t ps) <=? zlen (kvs ps) then Jansson.hashtable_do_rehash (abs t ps) else abs t ps) key value).
  assert (zlen (kvs ps) = zlen ps) as -> by (unfold zlen, kvs; by rewrite length_fmap).
  unfold abs at 2. rewrite (abs_num_buckets _ n) by done. rewrite Hs, Z.geb_leb.
  destruct (n <=? zlen ps) eqn:E; [|by apply store_ok].
  destruct (next_prime _ n (zlen ps) En ltac:(blia)) as [n' En'].
  destruct (rehash_spec malloc t ps n' Hm R En') as (t1 & ps1 & E1 & R1 & A1 & P1 & D1).
  rewrite E1, bind_Val, <- A1, <- D1. cbn [negb]. assert (zlen ps1 = zlen ps) as Hz by (unfold zlen; by rewrite P1). rewrite <- Hz in *.
  destruct (store_ok malloc t1 ps1 key serial value) as (t2 & ps2 & H1 & H2 & H3 & H4 & H5); [done..|].
  exists t2, ps2. do 3 (split; [done|]). split; [|done]. rewrite H4. unfold values, kvs. by rewrite P1.
Qed.

Lemma del_spec t ps key : ht_rep t ps → zlen ps < MAX_PAIRS →
  match Jansson.hashtable_del (abs t ps) key with
  | None => hashtable_del t key = Val (t, false)
  | Some h' => ∃ t' ps', hashtable_del t key = Val (t', true) ∧ ht_rep t' ps' ∧ abs t' ps' = h' ∧
      t_decrefs t' ++ values ps' ≡ₚ t_decrefs t ++ values ps ∧ zlen ps' ≤ zlen ps
  end.
Proof.
  intros R Hmax. destruct (rep_layout _ _ R) as (n & bs & En & Eb & L). pose proof (primes_pos _ _ En) as Hn.
  destruct (find_spec t ps n bs key R Hn Eb L) as (b & Hb & Hf).
  unfold Jansson.hashtable_del, abs at 1. rewrite (abs_find_pair _ n) by done.
  unfold hashtable_del, hashtable_do_del, num_buckets, buckets. rewrite En, bind_Val, Eb, bind_Val, Hb, bind_Val, Hf, bind_Val.
  destruct (find_key key ps) as [[p pr]|] eqn:Ek; cbn [fmap option_fmap option_map fst]; [|done].
  apply find_key_Some in Ek as (l1 & l2 & -> & Hx & Hl1). cbn [snd] in Hx.
  pose proof (layout_fst _ _ _ _ L) as Hd. pose proof (rep_hash _ _ R) as Hh. rewrite Forall_app, Forall_cons in Hh. destruct Hh as (Hh1 & Hp & Hh2). cbn [snd] in Hp.
  set (x := (p, p_hash pr)). assert (slot n x = hash_str key mod n) as Esl by (unfold slot, x; cbn; by rewrite Hp, Hx).
  destruct (remove_layout (t_links t) n bs _ x L Hn) as (k1 & k2 & b0 & b1 & H' & Esk & Hb0 & Hlv & Hrm & L').
  { unfold skel. rewrite fmap_app, fmap_cons. apply elem_of_app. right. constructor. }
  rewrite Esl, Hb in Hb0. injection Hb0 as <-. rewrite Esl in L'. change (node_of x) with (HPair p) in *.
  rewrite Hlv, bind_Val. cbn [t_links set_buckets]. rewrite Hrm, bind_Val.
  rewrite (pair_lookup _ l1 (p, pr) l2) by (apply (rep_pairs _ _ R) || done). rewrite bind_Val.
  assert (k1 = skel l1 ∧ k2 = skel l2) as [-> ->].
  { unfold skel in Esk. rewrite fmap_app, fmap_cons in Esk. cbn [fst snd] in Esk. fold x in Esk.
    destruct (layout_nodup _ _ _ _ L) as [Hds _]. unfold skel in Hds. rewrite fmap_app, fmap_cons in Hds. cbn [fst snd] in Hds. fold x in Hds. clearbody x. clear -Esk Hds.
    apply NoDup_fmap_1 in Hds. rewrite Esk in Hds. apply list.NoDup_app in Hds as (_ & Hk1 & [Hk2 _]%list.NoDup_cons).
    unfold skel. apply app_eq_app in Esk as (k & [[E1 E2]|[E1 E2]]); destruct k as [|y k]; rewrite ?app_nil_r in E1; cbn [app] in E2.
    - by injection E2 as E2.
    - exfalso. injection E2 as _ E2. apply Hk2. rewrite E2. apply elem_of_app. right. constructor.
    - by injection E2 as E2.
    - exfalso. injection E2 as E2 _. apply (Hk1 x); [rewrite E1, E2; apply elem_of_app; right|]; constructor. }
  eexists _, (l1 ++ l2). split; [done|]. split; [|split; [|split]].
  - split; cbn.
    + exists n, (<[Z.to_nat (hash_str key mod n) := b1]> bs). split; [done|]. split; [done|]. unfold skel in *. by rewrite fmap_app.
    + rewrite (rep_pairs _ _ R), (list_to_map_proper _ ((p, pr) :: l1 ++ l2)) by (done || symmetry; apply Permutation_middle).
      rewrite list_to_map_cons, delete_insert_id; [done|]. apply not_elem_of_list_to_map_1.
      rewrite <- Permutation_middle in Hd. by apply NoDup_cons_1_1 in Hd.
    + pose proof (rep_fresh _ _ R) as Hf0. rewrite !Forall_app, !Forall_cons in *. tauto.
    + by apply Forall_app.
    + pose proof (rep_keys _ _ R) as Hf0. unfold kvs in *. rewrite <- Permutation_middle in Hf0. by apply NoDup_cons_1_2 in Hf0.
    + rewrite (rep_size _ _ R). assert (zlen (l1 ++ (p, pr) :: l2) = zlen (l1 ++ l2) + 1) as -> by zl.
      rewrite Z.add_simpl_r. apply wrap_small. unfold is_u, MAX_PAIRS in *. pose proof (zlen_nonneg (l1 ++ l2)). zl.
  - unfold abs. cbn. by rewrite (abs_remove key l1 (p, pr) l2).
  - cbn. unfold values, kvs. rewrite !fmap_app, !fmap_cons. cbn. rewrite <- app_assoc. cbn [app]. apply Permutation_app_head, Permutation_middle.
  - zl.
Qed.

(** The loop frees every pair. *)
Lemma clear_loop_spec rs : ∀ t fuel,
  nexts (t_links t) ((node_of <$> skel rs) ++ [HEnd]) → t_pairs t = list_to_map rs → NoDup rs.*1 → (length rs < fuel)%nat →
  ∃ H, clear_loop fuel (default HEnd (head (node_of <$> skel rs))) t =
      Val (mkHt (t_size t) (t_buckets t) (t_num_buckets t) H ∅ (t_next t) (t_decrefs t ++ values rs)) ∧
    q_prev H !! HEnd = q_prev (t_links t) !! HEnd ∧ q_next H !! HEnd = q_next (t_links t) !! HEnd.
Proof.
  induction rs as [|[p pr] rs IH]; intros t fuel Hnx Hp Hd Hf; (destruct fuel as [|fuel]; [simpl in Hf; lia|]).
  - exists (t_links t). split; [|done]. cbn. rewrite app_nil_r. destruct t; cbn in *. by rewrite Hp.
  - cbn [skel fmap list_fmap head default from_option id clear_loop]. rewrite bool_decide_false by done.
    change (node_of _) with (HPair p).
    assert (nexts (t_links t) ((node_of <$> skel rs) ++ [HEnd]) ∧
      q_next (t_links t) !! HPair p = Some (default HEnd (head (node_of <$> skel rs)))) as [Hnx' En].
    { destruct rs as [|y rs]; simpl in Hnx; destruct Hnx as [? ?]; done. }
    pose proof (pair_lookup t [] (p, pr) rs Hp Hd) as Hl. cbn [fst] in Hl. unfold get_next. rewrite En, bind_Val, Hl, bind_Val.
    apply list.NoDup_cons in Hd as [Hnp Hd]. cbn [fst] in Hnp.
    destruct (IH (pair_free p (json_decref (p_value pr) t)) fuel) as (H & E & H1 & H2).
    + cbn [pair_free json_decref t_links]. eapply nexts_frame, Hnx'. intros y Hy. cbn [q_free q_next].
      rewrite lookup_delete_ne; [done|]. intros <-. rewrite nodes_skel in Hy. apply list_elem_of_fmap in Hy as (z & [= E] & Hz).
      apply Hnp. rewrite E. by apply list_elem_of_fmap_2.
    + cbn. rewrite Hp, list_to_map_cons, delete_insert_id; [done|]. by apply not_elem_of_list_to_map_1.
    + done.
    + simpl in Hf. lia.
    + exists H. rewrite E. cbn in *. rewrite <- app_assoc, !lookup_delete_ne in * by done. done.
Qed.

Lemma do_clear_spec t ps : ht_rep t ps → ∃ H, hashtable_do_clear t =
    Val (mkHt (t_size t) (t_buckets t) (t_num_buckets t) H ∅ (t_next t) (t_decrefs t ++ values ps)) ∧
  HEnd ∈ dom (q_prev H) ∧ HEnd ∈ dom (q_next H).
Proof.
  intros R. destruct (rep_layout _ _ R) as (n & bs & _ & _ & L). pose proof (layout_fst _ _ _ _ L) as Hd.
  pose proof (lay_ring _ _ _ _ L) as Hq. unfold hashtable_do_clear.
  pose proof (ngx_queue_head_spec _ _ _ Hq) as Hh. unfold ngx_queue_head in Hh. rewrite Hh, bind_Val.
  destruct (clear_loop_spec ps t (rounds t)) as (H & E & H1 & H2).
  - destruct Hq as [_ Hc%chain_nexts]. destruct (node_of <$> skel ps); [done|]. by destruct Hc.
  - apply (rep_pairs _ _ R).
  - done.
  - rewrite (rounds_length t ps); [lia|apply (rep_pairs _ _ R)|done].
  - exists H. split; [done|]. destruct (head_dom _ _ _ Hq). rewrite !elem_of_dom, H1, H2, <- !elem_of_dom. done.
Qed.

Lemma clear_spec t ps : ht_rep t ps → ∃ t', hashtable_clear t = Val t' ∧ ht_rep t' [] ∧
  abs t' [] = Jansson.hashtable_clear (abs t ps) ∧ t_decrefs t' = t_decrefs t ++ values ps.
Proof.
  intros R. destruct (do_clear_spec t ps R) as (H & E & H1 & H2). destruct (rep_layout _ _ R) as (n & bs & En & _ & L).
  unfold hashtable_clear. rewrite E, bind_Val. unfold num_buckets. cbn [t_num_buckets]. rewrite En, bind_Val.
  cbn [set_buckets t_links]. rewrite list_init_spec by done. rewrite bind_Val. eexists. split; [done|]. split; [|done].
  split; cbn; [|done|constructor|constructor|constructor|done]. exists n, (empty_buckets n). split; [done|]. split; [done|].
  apply layout_empty; [apply primes_pos in En; lia|]. apply is_queue_alloc.
Qed.

Lemma close_spec t ps : ht_rep t ps → ∃ t', hashtable_close t = Val t' ∧ t_pairs t' = ∅ ∧ t_buckets t' = None ∧
  t_decrefs t' = t_decrefs t ++ values ps.
Proof. intros R. destruct (do_clear_spec t ps R) as (H & E & _). unfold hashtable_close. rewrite E, bind_Val. by eexists. Qed.

Lemma iter_pairs_spec t pre rs fuel : ht_rep t (pre ++ rs) → (length rs ≤ fuel)%nat →
  iter_pairs fuel t (head (node_of <$> skel rs)) = Val (kvs rs).
Proof.
  revert pre fuel. induction rs as [|x rs IH]; intros pre fuel R Hf; [by destruct fuel|].
  destruct fuel as [|fuel]; [simpl in Hf; lia|]. destruct (rep_layout _ _ R) as (n & bs & _ & _ & L).
  cbn [skel fmap list_fmap head iter_pairs]. change (node_of _) with (HPair (fst x)).
  unfold hashtable_iter_key, hashtable_iter_value, hashtable_iter_next.
  rewrite !(pair_lookup t pre x rs (rep_pairs _ _ R) (layout_fst _ _ _ _ L)), !bind_Val.
  pose proof (lay_ring _ _ _ _ L) as Hq. rewrite nodes_skel, fmap_app, fmap_cons in Hq. pose proof (is_queue_next _ _ _ _ _ Hq) as En.
  rewrite <- nodes_skel in En. unfold get_next. rewrite En, bind_Val. destruct x as [p pr]. rewrite bind_Val.
  assert ((if bool_decide (default HEnd (head (node_of <$> skel rs)) = HEnd) then Val None else Val (Some (default HEnd (head (node_of <$> skel rs)))))
    = Val (head (node_of <$> skel rs))) as -> by (by destruct rs).
  rewrite !bind_Val, (IH (pre ++ [(p, pr)])); [done|by rewrite <- app_assoc|simpl in Hf; lia].
Qed.

Lemma pairs_spec t ps : ht_rep t ps → all_pairs t = Val (kvs ps).
Proof.
  intros R. destruct (rep_layout _ _ R) as (n & bs & _ & _ & L). pose proof (lay_ring _ _ _ _ L) as Hq.
  unfold all_pairs, hashtable_iter, hashtable_iter_next.
  pose proof (ngx_queue_head_spec _ _ _ Hq) as Hh. unfold ngx_queue_head in Hh. rewrite Hh, bind_Val.
  assert ((if bool_decide (default HEnd (head (node_of <$> skel ps)) = HEnd) then Val None else Val (Some (default HEnd (head (node_of <$> skel ps)))))
    = Val (head (node_of <$> skel ps))) as -> by (by destruct ps).
  rewrite bind_Val. apply (iter_pairs_spec t []); [done|].
  rewrite (rounds_length t ps (rep_pairs _ _ R) (layout_fst _ _ _ _ L)). lia.
Qed.
End Rep.

(** ** The theorem *)

Section Refinement.
Context {V : Type}.
Context (malloc : Z → bool).
Implicit Types (cs : list (ht_call V)) (c : ht_call V).

(** Keys are no longer than memory allows. *)
Definition call_ok c : bool := match c with HtSet key _ _ => zlen (bytes_of key) <? 2 ^ 62 | _ => true end.

Lemma hash_step_refines c t ps :
  malloc_succeeds malloc → ht_rep t ps → zlen ps < MAX_PAIRS → call_ok c = true →
  ∃ t' ps' r, ht_step malloc c t = Val (t', r) ∧ ht_rep t' ps' ∧ ht_step_spec c (abs t ps) = (abs t' ps', r) ∧
    t_decrefs t' ++ values ps' ≡ₚ t_decrefs t ++ values ps ++ stored [c] ∧ zlen ps' ≤ zlen ps + 1.
Proof.
  intros Hm R Hmax Hok. destruct c as [key|key serial value|key| |]; cbn [ht_step ht_step_spec stored omap list_omap].
  - exists t, ps. eexists. rewrite (get_spec _ _ _ R). split; [done|]. rewrite app_nil_r. split; [done|]. split; [done|]. split; [done|lia].
  - destruct (set_spec malloc t ps key serial value Hm R Hmax) as (t' & ps' & E & R' & A & D & Z).
    { cbn [call_ok] in Hok. pose proof (zlen_nonneg (bytes_of key)). blia. }
    exists t', ps', (RDone true). rewrite E. split; [done|]. split; [done|]. by rewrite A.
  - pose proof (del_spec t ps key R Hmax) as Hd. destruct (Jansson.hashtable_del (abs t ps) key) as [h'|].
    + destruct Hd as (t' & ps' & E & R' & A & D & Z). exists t', ps', (RDone true). rewrite E. split; [done|]. split; [done|].
      rewrite app_nil_r. subst h'. split; [done|]. split; [done|lia].
    + exists t, ps, (RDone false). rewrite Hd. split; [done|]. rewrite app_nil_r. split; [done|]. split; [done|]. split; [done|lia].
  - destruct (clear_spec t ps R) as (t' & E & R' & A & D). exists t', [], (RDone true). rewrite E. split; [done|]. split; [done|].
    rewrite A, D, !app_nil_r. split; [done|]. split; [done|]. pose proof (zlen_nonneg ps). zl.
  - exists t, ps. eexists. rewrite (pairs_spec _ _ R). split; [done|]. rewrite app_nil_r. split; [done|]. split; [done|]. split; [done|lia].
Qed.

Lemma hash_run_refines cs : ∀ t ps,
  malloc_succeeds malloc → ht_rep t ps → zlen ps + zlen cs ≤ MAX_PAIRS → forallb call_ok cs = true →
  ∃ t' ps' rs, ht_run malloc cs t = Val (t', rs) ∧ ht_rep t' ps' ∧ ht_run_spec cs (abs t ps) = (abs t' ps', rs) ∧
    t_decrefs t' ++ values ps' ≡ₚ t_decrefs t ++ values ps ++ stored cs.
Proof.
  induction cs as [|c cs IH]; intros t ps Hm R Hmax Hok.
  { exists t, ps, []. cbn [stored omap list_omap]. rewrite app_nil_r. done. }
  cbn [forallb] in Hok. apply andb_true_iff in Hok as [Hc Hcs]. rewrite zlen_cons in Hmax. pose proof (zlen_nonneg cs).
  destruct (hash_step_refines c t ps Hm R ltac:(lia) Hc) as (t1 & ps1 & r & E1 & R1 & A1 & D1 & Z1).
  destruct (IH t1 ps1 Hm R1 ltac:(lia) Hcs) as (t2 & ps2 & rs & E2 & R2 & A2 & D2).
  exists t2, ps2, (r :: rs). cbn [ht_run ht_run_spec]. rewrite E1, bind_Val, E2, bind_Val, A1, A2. split; [done|]. split; [done|]. split; [done|].
  rewrite D2, (app_assoc (t_decrefs t1)), D1, <- !app_assoc. change (c :: cs) with ([c] ++ cs). unfold stored. by rewrite omap_app.
Qed.

(** C32 (refinement). The pointers of Jansson's hash table implement the list of
    pairs that the rest of the development works with: any sequence of lookups,
    stores, deletions, clearings and iterations on a new table returns, without
    undefined behaviour, what the same calls return on [Jansson.v]'s tables,
    iteration order included; and closing the table frees all its blocks, after
    which every value handed to it has been released exactly once. *)
Theorem hashtable_refines cs :
  malloc_succeeds malloc → zlen cs ≤ MAX_PAIRS → forallb call_ok cs = true →
  ∃ t0 t t', hashtable_init malloc = Val (Some t0) ∧
    ht_run malloc cs t0 = Val (t, snd (ht_run_spec cs Jansson.hashtable_init)) ∧
    hashtable_close t = Val t' ∧ t_pairs t' = ∅ ∧ t_decrefs t' ≡ₚ stored cs.
Proof.
  intros Hm Hmax Hok. destruct (init_spec (V := V) malloc Hm) as (t0 & E0 & R0 & Ei & Ed).
  destruct (hash_run_refines cs t0 [] Hm R0 Hmax Hok) as (t & ps & rs & E & R & A & D).
  destruct (close_spec t ps R) as (t' & Ec & Ep & _ & Dc). exists t0, t, t'.
  replace (abs t0 []) with (Jansson.hashtable_init (V := V)) in A by (unfold abs; by rewrite Ei). rewrite A.
  do 4 (split; [done|]). rewrite Dc, D, Ed. done.
Qed.
End Refinement.

Lemma hashtable_refines_witness :
  let cs := [HtSet "a" 0 1; HtSet "b" 1 2; HtSet "a" 2 3; HtDel "b"; HtPairs] in
  ∃ t0 t t', hashtable_init (λ _, true) = Val (Some t0) ∧
    ht_run (λ _, true) cs t0 = Val (t, [RDone true; RDone true; RDone true; RDone true; RPairs [("a", 3)]]) ∧
    hashtable_close t = Val t' ∧ t_pairs t' = ∅ ∧ t_decrefs t' ≡ₚ [1; 2; 3].
Proof. apply (hashtable_refines (λ _, true) [HtSet "a" 0 1; HtSet "b" 1 2; HtSet "a" 2 3; HtDel "b"; HtPairs]); [done|vm_compute; done|reflexivity]. Defined.

(** When the larger bucket array cannot be allocated, [hashtable_set]
    reports the failure but has already freed the old array: the table is left
    without buckets, and the next lookup, store or deletion dereferences NULL. *)
Theorem failed_rehash_breaks_table {V} malloc (t : table_t V) ps key serial value n n' :
  ht_rep t ps → primes !! t_num_buckets t = Some n → primes !! S (t_num_buckets t) = Some n' →
  n ≤ zlen ps → malloc (n' * sizeof_bucket) = false →
  ∃ t', hashtable_set malloc t key serial value = Val (t', false) ∧
    (∀ k, hashtable_get t' k = UB) ∧ (∀ k, hashtable_del t' k = UB).
Proof.
  intros R En En' Hsz Hm. unfold hashtable_set, num_buckets. rewrite En, bind_Val, (rep_size _ _ R).
  destruct (zlen ps >=? n) eqn:E; [|blia]. unfold hashtable_do_rehash, num_buckets. cbn [set_num_buckets t_num_buckets].
  rewrite En', bind_Val, Hm. cbn [negb]. rewrite bind_Val. cbn [negb]. eexists. split; [done|].
  split; intros k; unfold hashtable_get, hashtable_del, hashtable_do_del, num_buckets; cbn [set_num_buckets set_buckets t_num_buckets];
    rewrite En', bind_Val; done.
Qed.

Lemma failed_rehash_breaks_table_witness :
  let five := [HtSet "a" 0 1; HtSet "b" 1 2; HtSet "c" 2 3; HtSet "d" 3 4; HtSet "e" 4 5] in
  ∃ t0 t t', hashtable_init (λ _, true) = Val (Some t0) ∧ ht_run (λ _, true) five t0 = Val (t, replicate 5 (RDone true)) ∧
    hashtable_set (λ n, negb (n =? 208)) t "f" 5 6 = Val (t', false) ∧ hashtable_get t' "a" = UB.
Proof.
  intros five. destruct (init_spec (V := Z) (λ _, true) ltac:(done)) as (t0 & E0 & R0 & Ei & Ed).
  destruct (hash_run_refines (λ _, true) five t0 [] ltac:(done) R0) as (t & ps & rs & E & R & A & _); [by vm_compute|done|].
  assert (∃ l, ht_run_spec five (mkTable 0 []) = (mkTable 0 l, replicate 5 (RDone true)) ∧ length l = 5%nat) as (l & Es & Hl)
    by (eexists; split; vm_compute; reflexivity).
  unfold abs in A. rewrite Ei in A. change (kvs []) with (@nil (string * Z)) in A. rewrite Es in A. injection A as En Ekv Ers.
  assert (zlen ps = 5) as Hz by (unfold zlen; rewrite <- (length_fmap (λ x, (p_key (snd x), p_value (snd x))) ps); fold (kvs ps); by rewrite <- Ekv, Hl).
  destruct (failed_rehash_breaks_table (λ n, negb (n =? 208)) t ps "f" 5 6 5 13) as (t' & H1 & H2 & _);
    [done|by rewrite <- En|by rewrite <- En|lia|done|].
  exists t0, t, t'. rewrite E, <- Ers. by repeat split.
Defined.
