(* ===== verification/JsonArray.v ===== *)
(** * The arrays of Jansson ([src/deps/jansson/src/value.c])

    [Jansson.v] and [JsonHeap.v] read an array as the list of its elements. Here is
    the table they are kept in, with its capacity, its growth and the moves inside
    it, and the proof that any sequence of operations does to the table what it
    does to the list. An entry of the table that was never written is [None];
    [json_decref] of an element adds it to a log. *)

From S2P Require Import Prelude Jansson.
Local Open Scope Z_scope.

Record array_t (V : Type) := mkArray {
  a_size : Z;
  a_entries : Z;
  a_table : list (option V);
  a_decrefs : list V
}.
Arguments mkArray {V} _ _ _ _.
Arguments a_size {V} _.
Arguments a_entries {V} _.
Arguments a_table {V} _.
Arguments a_decrefs {V} _.

Definition sizeof_pointer : Z := 8.

Section Array.
Context {V : Type}.
Context (malloc : Z → bool).
Abbreviation table := (list (option V)).
Implicit Types (a : array_t V) (t src : table) (value : V).

(** A block of [n] entries. *)
Definition new_table (n : Z) : table := replicate (Z.to_nat n) None.

Definition get_entry t (i : Z) : exec (option V) :=
  if i <? 0 then UB else match t !! Z.to_nat i with Some x => Val x | None => UB end.

Definition set_entry t (i : Z) value : exec table :=
  if (i <? 0) || (zlen t <=? i) then UB else Val (<[Z.to_nat i := Some value]> t).

(** [memcpy] and [memmove] of entries: all of them lie in their blocks. *)
Definition array_copy t (dpos : Z) src (spos count : Z) : exec table :=
  if (dpos <? 0) || (spos <? 0) || (count <? 0) || (zlen t <? dpos + count) || (zlen src <? spos + count) then UB
  else Val (take (Z.to_nat dpos) t ++ take (Z.to_nat count) (drop (Z.to_nat spos) src) ++ drop (Z.to_nat (dpos + count)) t).

Definition array_move t (dest src count : Z) : exec table := array_copy t dest t src count.

Definition with_table t a : array_t V := mkArray (a_size a) (a_entries a) t (a_decrefs a).
Definition with_entries (n : Z) a : array_t V := mkArray (a_size a) n (a_table a) (a_decrefs a).
Definition log_decref value a : array_t V := mkArray (a_size a) (a_entries a) (a_table a) (a_decrefs a ++ [value]).

(** [json_array]: the first table has eight entries. *)
Definition json_array : option (array_t V) :=
  if malloc (8 * sizeof_pointer) then Some (mkArray 8 0 (new_table 8) []) else None.

(** The array and the table to copy from, which is another one when [moved]; [None]
    is NULL. *)
Definition json_array_grow a (amount : Z) (copy : bool) : exec (option (array_t V * table * bool)) :=
  if u64 (a_entries a + amount) <=? a_size a then Val (Some (a, a_table a, false))
  else
    let old_table := a_table a in
    let new_size := Z.max (u64 (a_size a + amount)) (u64 (a_size a * 2)) in
    if negb (malloc (u64 (new_size * sizeof_pointer))) then Val None
    else
      let a := mkArray new_size (a_entries a) (new_table new_size) (a_decrefs a) in
      if copy then
        t ← array_copy (a_table a) 0 old_table 0 (a_entries a);
        Val (Some (with_table t a, t, false))
      else Val (Some (a, old_table, true)).

(** The flag is [false] for the return value -1; the value is then released. *)
Definition json_array_append_new a value : exec (array_t V * bool) :=
  g ← json_array_grow a 1 true;
  match g with
  | None => Val (log_decref value a, false)
  | Some (a, _, _) =>
      t ← set_entry (a_table a) (a_entries a) value;
      Val (with_entries (u64 (a_entries a + 1)) (with_table t a), true)
  end.

Definition json_array_insert_new a (index : Z) value : exec (array_t V * bool) :=
  if index >? a_entries a then Val (log_decref value a, false)
  else
    g ← json_array_grow a 1 false;
    match g with
    | None => Val (log_decref value a, false)
    | Some (a, old_table, moved) =>
        t ← (if moved : bool then
               t ← array_copy (a_table a) 0 old_table 0 index;
               array_copy t (index + 1) old_table index (a_entries a - index)
             else array_move (a_table a) (index + 1) index (a_entries a - index));
        t ← set_entry t index value;
        Val (with_entries (u64 (a_entries a + 1)) (with_table t a), true)
    end.

Definition decref_entry a (index : Z) : exec (array_t V) :=
  x ← get_entry (a_table a) index;
  match x with Some v => Val (log_decref v a) | None => UB end.

Definition json_array_set_new a (index : Z) value : exec (array_t V * bool) :=
  if index >=? a_entries a then Val (log_decref value a, false)
  else
    a ← decref_entry a index;
    t ← set_entry (a_table a) index value;
    Val (with_table t a, true).

Definition json_array_remove a (index : Z) : exec (array_t V * bool) :=
  if index >=? a_entries a then Val (a, false)
  else
    a ← decref_entry a index;
    t ← (if index <? a_entries a - 1 then array_move (a_table a) index (index + 1) (a_entries a - index - 1)
         else Val (a_table a));
    Val (with_entries (a_entries a - 1) (with_table t a), true).

Fixpoint decref_from (n : nat) (i : Z) a : exec (array_t V) :=
  match n with
  | O => Val a
  | S n => a ← decref_entry a i; decref_from n (i + 1) a
  end.

Definition json_array_clear a : exec (array_t V) :=
  a ← decref_from (Z.to_nat (a_entries a)) 0 a;
  Val (with_entries 0 a).

(** [json_array_extend] of another array; the elements gain a reference each. *)
Definition json_array_extend a (other : array_t V) : exec (array_t V * bool) :=
  g ← json_array_grow a (a_entries other) true;
  match g with
  | None => Val (a, false)
  | Some (a, _, _) =>
      t ← array_copy (a_table a) (a_entries a) (a_table other) 0 (a_entries other);
      Val (with_entries (u64 (a_entries a + a_entries other)) (with_table t a), true)
  end.

Definition json_array_get a (index : Z) : exec (option V) :=
  if index >=? a_entries a then Val None else get_entry (a_table a) index.

Definition json_array_size a : Z := a_entries a.
End Array.

(** ** Calls *)

Inductive ar_call (V : Type) :=
| ArGet (index : Z)
| ArAppend (value : V)
| ArInsert (index : Z) (value : V)
| ArSet (index : Z) (value : V)
| ArRemove (index : Z)
| ArClear
| ArExtend (values : list V).
Arguments ArGet {V} _.
Arguments ArAppend {V} _.
Arguments ArInsert {V} _ _.
Arguments ArSet {V} _ _.
Arguments ArRemove {V} _.
Arguments ArClear {V}.
Arguments ArExtend {V} _.

Inductive ar_result (V : Type) := AGot (value : option V) | ADone (ok : bool).
Arguments AGot {V} _.
Arguments ADone {V} _.

Section Calls.
Context {V : Type}.
Context (malloc : Z → bool).

(** An array that holds [values]. *)
Definition array_of (values : list V) : array_t V := mkArray (zlen values) (zlen values) (Some <$> values) [].

Definition ar_step (c : ar_call V) (a : array_t V) : exec (array_t V * ar_result V) :=
  match c with
  | ArGet index => v ← json_array_get a index; Val (a, AGot v)
  | ArAppend value => '(a, ok) ← json_array_append_new malloc a value; Val (a, ADone ok)
  | ArInsert index value => '(a, ok) ← json_array_insert_new malloc a index value; Val (a, ADone ok)
  | ArSet index value => '(a, ok) ← json_array_set_new a index value; Val (a, ADone ok)
  | ArRemove index => '(a, ok) ← json_array_remove a index; Val (a, ADone ok)
  | ArClear => a ← json_array_clear a; Val (a, ADone true)
  | ArExtend values => '(a, ok) ← json_array_extend malloc a (array_of values); Val (a, ADone ok)
  end.

Fixpoint ar_run (cs : list (ar_call V)) (a : array_t V) : exec (array_t V * list (ar_result V)) :=
  match cs with
  | [] => Val (a, [])
  | c :: cs =>
      '(a, r) ← ar_step c a;
      '(a, rs) ← ar_run cs a;
      Val (a, r :: rs)
  end.

(** The same calls on a list, with the elements they release. *)
Definition ar_spec (c : ar_call V) (l : list V) : list V * ar_result V * list V :=
  match c with
  | ArGet index => (l, AGot (l !! Z.to_nat index), [])
  | ArAppend value => (l ++ [value], ADone true, [])
  | ArInsert index value =>
      if index <=? zlen l then (take (Z.to_nat index) l ++ value :: drop (Z.to_nat index) l, ADone true, [])
      else (l, ADone false, [value])
  | ArSet index value =>
      match l !! Z.to_nat index with
      | Some old => (<[Z.to_nat index := value]> l, ADone true, [old])
      | None => (l, ADone false, [value])
      end
  | ArRemove index =>
      match l !! Z.to_nat index with
      | Some old => (take (Z.to_nat index) l ++ drop (S (Z.to_nat index)) l, ADone true, [old])
      | None => (l, ADone false, [])
      end
  | ArClear => ([], ADone true, l)
  | ArExtend values => (l ++ values, ADone true, [])
  end.

Fixpoint ar_run_spec (cs : list (ar_call V)) (l : list V) : list V * list (ar_result V) * list V :=
  match cs with
  | [] => (l, [], [])
  | c :: cs =>
      let '(l, r, d) := ar_spec c l in
      let '(l, rs, ds) := ar_run_spec cs l in
      (l, r :: rs, d ++ ds)
  end.
End Calls.

Example ar_example :
  let cs := map ArAppend [1; 2; 3; 4; 5; 6; 7; 8] ++
            [ArInsert 2 20; ArInsert 0 10; ArRemove 9; ArRemove 0; ArSet 3 30; ArSet 99 31; ArInsert 99 32; ArExtend [41; 42; 43; 44; 45; 46; 47; 48; 49];
             ArGet 8; ArGet 17; ArClear; ArGet 0; ArAppend 1; ArGet 0] in
  match json_array (λ _, true) with
  | Some a => '(a, rs) ← ar_run (λ _, true) cs a; Val (rs, a_decrefs a)
  | None => UB
  end = Val (let '(_, rs, ds) := ar_run_spec cs [] in (rs, ds)).
Proof. vm_compute. done. Qed.

(** ** The table holds the list *)

Section Refinement.
Context {V : Type}.
Context (malloc : Z → bool) (Hmalloc : malloc_succeeds malloc).
(** A bound on the length of the list. *)
Context (B : Z) (HB : 0 ≤ B < 2 ^ 58).
Implicit Types (a : array_t V) (l : list V) (t p m s c : list (option V)).

Record arr_rep a l : Prop := {
  ar_entries : a_entries a = zlen l;
  ar_size : a_size a = zlen (a_table a);
  ar_table : ∃ junk, a_table a = (Some <$> l) ++ junk;
  ar_bound : a_size a ≤ 2 * B + 8
}.

Lemma array_copy_spec p m s p' c s' dpos spos count :
  zlen p = dpos → zlen p' = spos → zlen m = count → zlen c = count →
  array_copy (p ++ m ++ s) dpos (p' ++ c ++ s') spos count = Val (p ++ c ++ s).
Proof.
  intros <- <- <- Hc. unfold array_copy. pose proof (zlen_nonneg p). pose proof (zlen_nonneg p'). pose proof (zlen_nonneg m).
  pose proof (zlen_nonneg s). pose proof (zlen_nonneg s'). destruct (_ || _ || _ || _ || _) eqn:E; [rewrite !zlen_app in E; blia|]. clear E. f_equal.
  unfold zlen in *. rewrite take_app_length' by lia. f_equal. rewrite (drop_app_length' p') by lia. rewrite take_app_length' by lia. f_equal.
  rewrite app_assoc, drop_app_length'; [done|]. rewrite length_app. lia.
Qed.

Lemma set_entry_spec p x s i v : zlen p = i → set_entry (p ++ x :: s) i v = Val (p ++ Some v :: s).
Proof.
  intros <-. unfold set_entry. pose proof (zlen_nonneg p). pose proof (zlen_nonneg s). destruct (_ || _) eqn:E; [rewrite zlen_app, zlen_cons in E; blia|].
  f_equal. unfold zlen. rewrite Nat2Z.id. replace (length p) with (length p + 0)%nat by lia. by rewrite insert_app_r.
Qed.

Lemma zlen_some (l : list V) : zlen (Some <$> l) = zlen l.
Proof. unfold zlen. by rewrite length_fmap. Qed.

Lemma zlen_new_table (k : Z) : 0 ≤ k → zlen (new_table (V := V) k) = k.
Proof. intros Hk. unfold new_table, zlen. rewrite length_replicate. lia. Qed.

#[local] Ltac table_length := repeat first [rewrite zlen_app | rewrite zlen_cons | rewrite zlen_some]; try lia.

Lemma init_array : ∃ a, json_array malloc = Some a ∧ arr_rep a [] ∧ a_decrefs a = [].
Proof.
  unfold json_array. rewrite Hmalloc by (unfold sizeof_pointer; lia). eexists. split; [done|]. split; [|done].
  split; cbn; [done|done|by eexists|lia].
Qed.

(** Growing: the table is large enough, or the elements are in the old one. *)
Lemma array_grow_rep a l amount copy : arr_rep a l → 0 ≤ amount → zlen l + amount ≤ B →
  (zlen l + amount ≤ a_size a ∧ json_array_grow malloc a amount copy = Val (Some (a, a_table a, false))) ∨
  (∃ n, zlen l + amount ≤ n ≤ 2 * B + 8 ∧
    json_array_grow malloc a amount copy =
      if copy then Val (Some (mkArray n (zlen l) ((Some <$> l) ++ new_table (n - zlen l)) (a_decrefs a), (Some <$> l) ++ new_table (n - zlen l), false))
      else Val (Some (mkArray n (zlen l) (new_table n) (a_decrefs a), a_table a, true))).
Proof.
  intros [He Hs [junk Ht] Hb] Ha Hl. pose proof (zlen_nonneg l) as Hl0. pose proof (zlen_nonneg junk). assert (zlen l ≤ a_size a) as Hls by (rewrite Hs, Ht, zlen_app, zlen_some; lia).
  unfold json_array_grow. rewrite He. rewrite wrap_small by (unfold is_u; lia). destruct (zlen l + amount <=? a_size a) eqn:E; [left; split; [blia|done]|].
  right. rewrite (wrap_small _ (a_size a + amount)), (wrap_small _ (a_size a * 2)) by (unfold is_u; lia). set (n := Z.max (a_size a + amount) (a_size a * 2)).
  assert (zlen l + amount ≤ n ≤ 2 * B + 8) as Hn by (unfold n; blia). exists n. split; [done|].
  unfold sizeof_pointer. rewrite wrap_small by (unfold is_u; lia). rewrite Hmalloc by lia. cbn [negb]. destruct copy; [|done].
  cbn [a_table a_entries]. rewrite Ht.
  replace (new_table n) with ([] ++ new_table (V := V) (zlen l) ++ new_table (n - zlen l)).
  2: { unfold new_table. cbn [app]. rewrite <- replicate_add. f_equal. lia. }
  change ((Some <$> l) ++ junk) with ([] ++ (Some <$> l) ++ junk).
  rewrite array_copy_spec; [done|done|done| |apply zlen_some]. apply zlen_new_table. lia.
Qed.

Lemma array_grow_copy_rep a l amount : arr_rep a l → 0 ≤ amount → zlen l + amount ≤ B →
  ∃ a' junk, json_array_grow malloc a amount true = Val (Some (a', a_table a', false)) ∧ arr_rep a' l ∧
    a_table a' = (Some <$> l) ++ junk ∧ amount ≤ zlen junk ∧ a_decrefs a' = a_decrefs a.
Proof.
  intros R Ha Hl. pose proof R as [He Hs [junk Ht] Hb]. pose proof (zlen_nonneg l). destruct (array_grow_rep a l amount true R Ha Hl) as [[Hsz E]|(n & Hn & E)].
  - exists a, junk. split; [done|]. split; [done|]. split; [done|]. split; [|done]. rewrite Hs, Ht, zlen_app, zlen_some in Hsz. lia.
  - eexists _, (new_table (n - zlen l)). split; [exact E|]. assert (zlen (new_table (V := V) (n - zlen l)) = n - zlen l) as Hz by (apply zlen_new_table; lia).
    split; [|split; [done|]; split; [lia|done]]. split; cbn [a_entries a_size a_table]; [done| |by eexists|lia]. rewrite zlen_app, zlen_some, Hz. lia.
Qed.

Lemma array_append_rep a l v : arr_rep a l → zlen l + 1 ≤ B →
  ∃ a', json_array_append_new malloc a v = Val (a', true) ∧ arr_rep a' (l ++ [v]) ∧ a_decrefs a' = a_decrefs a.
Proof.
  intros R Hl. pose proof (zlen_nonneg l). destruct (array_grow_copy_rep a l 1 R ltac:(lia) Hl) as (a1 & junk & E & R1 & Et & Hj & Ed).
  unfold json_array_append_new. rewrite E, bind_Val. destruct junk as [|x junk]; [rewrite zlen_nil in Hj; lia|]. pose proof R1 as [He Hs _ Hb].
  rewrite Et, set_entry_spec by (by rewrite zlen_some). rewrite bind_Val, He, wrap_small by (unfold is_u; lia). eexists. split; [done|]. split; [|done].
  split; cbn [with_entries with_table a_entries a_size a_table]; [zl| |exists junk; by rewrite fmap_app, <- app_assoc|done].
  rewrite Hs, Et. zl.
Qed.

Lemma array_insert_rep a l1 l2 v : arr_rep a (l1 ++ l2) → zlen (l1 ++ l2) + 1 ≤ B →
  ∃ a', json_array_insert_new malloc a (zlen l1) v = Val (a', true) ∧ arr_rep a' (l1 ++ v :: l2) ∧ a_decrefs a' = a_decrefs a.
Proof.
  intros R Hl. pose proof R as [He Hs [junk Ht] Hb]. pose proof (zlen_nonneg l1). pose proof (zlen_nonneg l2). unfold json_array_insert_new.
  assert (zlen (l1 ++ l2) = zlen l1 + zlen l2) as Hz by apply zlen_app.
  rewrite He. destruct (zlen l1 >? zlen (l1 ++ l2)) eqn:E; [blia|]. clear E.
  destruct (array_grow_rep a _ 1 false R ltac:(lia) Hl) as [[Hsz E]|(n & Hn & E)]; rewrite E, bind_Val; cbn [a_table a_entries]; rewrite ?He.
  - rewrite fmap_app, <- app_assoc in Ht. destruct junk as [|x junk].
    { rewrite Hs, Ht, !zlen_app, !zlen_some, zlen_nil in Hsz. lia. }
    assert (∃ y m, (Some <$> l2) ++ [x] = y :: m) as (y & m & Ey) by (destruct (Some <$> l2) as [|y t]; [by exists x, []|by exists y, (t ++ [x])]).
    assert (zlen m = zlen l2) as Hm. { apply (f_equal zlen) in Ey. rewrite zlen_app, zlen_some, !zlen_cons, zlen_nil in Ey. lia. }
    assert ((Some <$> l2) ++ x :: junk = [y] ++ m ++ junk) as Ej by (change (x :: junk) with ([x] ++ junk); rewrite app_assoc, Ey; done).
    pose proof (array_copy_spec ((Some <$> l1) ++ [y]) m junk (Some <$> l1) (Some <$> l2) (x :: junk) (zlen l1 + 1) (zlen l1) (zlen l2)) as Hc.
    rewrite <- app_assoc, <- Ej in Hc. unfold array_move. rewrite Ht, Hz, Z.add_simpl_l, Hc;
      [|rewrite zlen_app, zlen_some, zlen_cons, zlen_nil; lia|apply zlen_some|done|apply zlen_some].
    rewrite bind_Val, <- app_assoc. cbn [app]. rewrite set_entry_spec by (by rewrite zlen_some). rewrite bind_Val, wrap_small by (unfold is_u; lia).
    eexists. split; [done|]. split; [|done]. split; cbn [with_entries with_table a_entries a_size a_table]; [zl| |exists junk; by rewrite fmap_app, fmap_cons, <- app_assoc|done].
    rewrite Hs, Ht. table_length.
  - rewrite Ht, fmap_app, <- app_assoc.
    replace (new_table n) with ([] ++ new_table (V := V) (zlen l1) ++ None :: new_table (zlen l2) ++ new_table (n - zlen l1 - zlen l2 - 1)).
    2: { unfold new_table. cbn [app]. rewrite <- replicate_add. change (None :: replicate ?k None) with (replicate (S k) (None (A := V))). rewrite <- replicate_add. f_equal. lia. }
    set (rest := new_table (n - zlen l1 - zlen l2 - 1)).
    pose proof (array_copy_spec [] (new_table (zlen l1)) (None :: new_table (zlen l2) ++ rest) [] (Some <$> l1) ((Some <$> l2) ++ junk) 0 0 (zlen l1)) as H1.
    cbn [app] in H1 |- *. rewrite H1, bind_Val; [|done|done|by apply zlen_new_table|apply zlen_some]. clear H1.
    pose proof (array_copy_spec ((Some <$> l1) ++ [None]) (new_table (zlen l2)) rest (Some <$> l1) (Some <$> l2) junk (zlen l1 + 1) (zlen l1) (zlen l2)) as H2.
    rewrite <- app_assoc in H2. cbn [app] in H2. rewrite Hz, Z.add_simpl_l, H2;
      [|rewrite zlen_app, zlen_some, zlen_cons, zlen_nil; lia|apply zlen_some|by apply zlen_new_table|apply zlen_some]. unfold rest.
    rewrite bind_Val, <- app_assoc. cbn [app]. rewrite set_entry_spec by (by rewrite zlen_some). rewrite bind_Val, wrap_small by (unfold is_u; lia).
    eexists. split; [done|]. split; [|done]. split; cbn [with_entries with_table a_entries a_size a_table]; [zl| |eexists; by rewrite fmap_app, fmap_cons, <- app_assoc|lia].
    table_length. rewrite !zlen_new_table by lia. lia.
Qed.

Lemma get_entry_spec a l i : arr_rep a l → 0 ≤ i < zlen l → get_entry (a_table a) i = Val (l !! Z.to_nat i).
Proof.
  intros [_ _ [junk Ht] _] Hi. unfold get_entry. destruct (i <? 0) eqn:E; [blia|]. rewrite Ht, lookup_app_l by (rewrite length_fmap; unfold zlen in Hi; lia).
  rewrite list_lookup_fmap. destruct (l !! Z.to_nat i) eqn:El; [done|]. apply lookup_ge_None in El. unfold zlen in Hi. lia.
Qed.

Lemma decref_entry_spec a l i v : arr_rep a l → 0 ≤ i → l !! Z.to_nat i = Some v → decref_entry a i = Val (log_decref v a) ∧ arr_rep (log_decref v a) l.
Proof.
  intros R Hi Ev. unfold decref_entry. apply lookup_lt_Some in Ev as Hlt. rewrite (get_entry_spec a l) by (done || unfold zlen; lia). rewrite bind_Val, Ev.
  split; [done|]. destruct R. by split.
Qed.

Lemma array_get_rep a l i : arr_rep a l → 0 ≤ i → json_array_get a i = Val (l !! Z.to_nat i).
Proof.
  intros R Hi. unfold json_array_get. rewrite (ar_entries _ _ R). destruct (i >=? zlen l) eqn:E; [|apply get_entry_spec; [done|blia]].
  f_equal. symmetry. apply lookup_ge_None. unfold zlen in E. blia.
Qed.

Lemma array_set_rep a l i v : arr_rep a l → 0 ≤ i →
  match l !! Z.to_nat i with
  | Some old => ∃ a', json_array_set_new a i v = Val (a', true) ∧ arr_rep a' (<[Z.to_nat i := v]> l) ∧ a_decrefs a' = a_decrefs a ++ [old]
  | None => json_array_set_new a i v = Val (log_decref v a, false)
  end.
Proof.
  intros R Hi. unfold json_array_set_new. rewrite (ar_entries _ _ R). destruct (l !! Z.to_nat i) as [old|] eqn:Eo.
  - apply lookup_lt_Some in Eo as Hlt. destruct (i >=? zlen l) eqn:E; [unfold zlen in E; blia|].
    destruct (decref_entry_spec a l i old R Hi Eo) as [-> [He Hs [junk Ht] Hb]]. rewrite bind_Val.
    apply list_elem_of_split_length in Eo as (l1 & l2 & -> & Hl1). cbn [log_decref a_table] in *. rewrite Ht, fmap_app, fmap_cons, <- app_assoc. cbn [app].
    rewrite set_entry_spec by (rewrite zlen_some; unfold zlen; lia). rewrite bind_Val. eexists. split; [done|]. split; [|done].
    replace (Z.to_nat i) with (length l1 + 0)%nat by lia. rewrite insert_app_r. cbn [insert list_insert].
    split; cbn [with_table log_decref a_entries a_size a_table] in *; [rewrite He; zl|rewrite Hs, Ht; rewrite fmap_app, fmap_cons; table_length|exists junk; by rewrite fmap_app, fmap_cons, <- app_assoc|done].
  - apply lookup_ge_None in Eo. destruct (i >=? zlen l) eqn:E; [done|]. unfold zlen in E. blia.
Qed.

Lemma array_remove_rep a l i : arr_rep a l → 0 ≤ i →
  match l !! Z.to_nat i with
  | Some old => ∃ a', json_array_remove a i = Val (a', true) ∧ arr_rep a' (take (Z.to_nat i) l ++ drop (S (Z.to_nat i)) l) ∧ a_decrefs a' = a_decrefs a ++ [old]
  | None => json_array_remove a i = Val (a, false)
  end.
Proof.
  intros R Hi. unfold json_array_remove. rewrite (ar_entries _ _ R). destruct (l !! Z.to_nat i) as [old|] eqn:Eo.
  2: { apply lookup_ge_None in Eo. destruct (i >=? zlen l) eqn:E; [done|]. unfold zlen in E. blia. }
  apply lookup_lt_Some in Eo as Hlt. destruct (i >=? zlen l) eqn:E; [unfold zlen in E; blia|].
  destruct (decref_entry_spec a l i old R Hi Eo) as [-> [He Hs [junk Ht] Hb]]. rewrite bind_Val. cbn [log_decref a_table a_entries a_size] in *. rewrite He.
  apply list_elem_of_split_length in Eo as (l1 & l2 & -> & Hl1). pose proof (zlen_nonneg l2).
  assert (take (Z.to_nat i) (l1 ++ old :: l2) ++ drop (S (Z.to_nat i)) (l1 ++ old :: l2) = l1 ++ l2) as ->.
  { rewrite Hl1, take_app_length. f_equal. rewrite cons_middle, app_assoc. rewrite drop_app_length'; [done|]. rewrite length_app. simpl. lia. }
  assert (zlen l1 = i) as Hi1 by (unfold zlen; lia). assert (zlen (l1 ++ old :: l2) = i + 1 + zlen l2) as Hz by (rewrite zlen_app, zlen_cons; lia).
  rewrite Hz, fmap_app, fmap_cons, <- app_assoc in *. cbn [app] in *.
  destruct (exists_last (l := Some old :: (Some <$> l2))) as (m & z & Emz); [done|].
  assert (zlen m = zlen l2) as Hm. { apply (f_equal zlen) in Emz. rewrite zlen_cons, zlen_some, zlen_app, zlen_cons, zlen_nil in Emz. lia. }
  assert ((if i <? i + 1 + zlen l2 - 1 then array_move (a_table a) i (i + 1) (i + 1 + zlen l2 - i - 1) else Val (a_table a)) =
    Val ((Some <$> l1) ++ (Some <$> l2) ++ z :: junk)) as ->.
  { destruct (i <? _) eqn:Em.
    - pose proof (array_copy_spec (Some <$> l1) m (z :: junk) ((Some <$> l1) ++ [Some old]) (Some <$> l2) junk i (i + 1) (zlen l2)) as Hc.
      rewrite <- app_assoc in Hc. cbn [app] in Hc. unfold array_move. rewrite Ht.
      assert ((Some <$> l1) ++ Some old :: (Some <$> l2) ++ junk = (Some <$> l1) ++ m ++ z :: junk) as Ej.
      { f_equal. rewrite app_comm_cons, Emz, <- app_assoc. done. }
      rewrite Ej in Hc |- *. replace (i + 1 + zlen l2 - i - 1) with (zlen l2) by lia. apply Hc; [by rewrite zlen_some|table_length; rewrite zlen_nil; lia|done|apply zlen_some].
    - destruct l2 as [|y l2]; [|rewrite zlen_cons in Em; pose proof (zlen_nonneg l2); blia]. destruct m; [|destruct m; done]. cbn in Emz. injection Emz as <-. by rewrite Ht. }
  rewrite bind_Val. eexists. split; [done|]. split; [|done].
  split; cbn [with_entries with_table log_decref a_entries a_size a_table]; [rewrite zlen_app; lia| |exists (z :: junk); by rewrite fmap_app, <- app_assoc|done].
  rewrite Hs, Ht. table_length.
Qed.

Lemma decref_from_spec rest : ∀ a l1, arr_rep a (l1 ++ rest) →
  ∃ a', decref_from (length rest) (zlen l1) a = Val a' ∧ arr_rep a' (l1 ++ rest) ∧ a_decrefs a' = a_decrefs a ++ rest.
Proof.
  induction rest as [|v rest IH]; intros a l1 R; cbn [length decref_from].
  { exists a. by rewrite !app_nil_r in *. }
  destruct (decref_entry_spec a _ (zlen l1) v R (zlen_nonneg _)) as [-> R'].
  { unfold zlen. rewrite Nat2Z.id. apply list_lookup_middle. done. }
  rewrite bind_Val. rewrite cons_middle, app_assoc in R' |- *. destruct (IH _ _ R') as (a' & E & Ra & Ed).
  exists a'. replace (zlen l1 + 1) with (zlen (l1 ++ [v])) by zl. split; [done|]. split; [done|]. rewrite Ed. cbn [log_decref a_decrefs]. by rewrite <- app_assoc.
Qed.

Lemma array_clear_rep a l : arr_rep a l → ∃ a', json_array_clear a = Val a' ∧ arr_rep a' [] ∧ a_decrefs a' = a_decrefs a ++ l.
Proof.
  intros R. unfold json_array_clear. rewrite (ar_entries _ _ R). destruct (decref_from_spec l a [] R) as (a' & E & Ra & Ed).
  unfold zlen at 1. rewrite Nat2Z.id. rewrite zlen_nil in E. rewrite E, bind_Val. eexists. split; [done|]. split; [|done].
  destruct Ra as [_ Hs _ Hb]. split; [done|done|by eexists|done].
Qed.

Lemma array_extend_rep a l values : arr_rep a l → zlen l + zlen values ≤ B →
  ∃ a', json_array_extend malloc a (array_of values) = Val (a', true) ∧ arr_rep a' (l ++ values) ∧ a_decrefs a' = a_decrefs a.
Proof.
  intros R Hl. pose proof (zlen_nonneg l). pose proof (zlen_nonneg values). unfold json_array_extend. cbn [array_of a_entries a_table].
  destruct (array_grow_copy_rep a l (zlen values) R ltac:(lia) Hl) as (a1 & junk & E & R1 & Et & Hj & Ed). rewrite E, bind_Val. pose proof R1 as [He Hs _ Hb].
  rewrite Et, He. assert (∃ m s, junk = m ++ s ∧ zlen m = zlen values) as (m & s & -> & Hm).
  { exists (take (length values) junk), (drop (length values) junk). rewrite take_drop. split; [done|]. unfold zlen in *. rewrite length_take. lia. }
  pose proof (array_copy_spec (Some <$> l) m s [] (Some <$> values) [] (zlen l) 0 (zlen values)) as Hc. rewrite app_nil_r in Hc. cbn [app] in Hc.
  rewrite Hc, bind_Val, wrap_small by (apply zlen_some || done || unfold is_u; lia). eexists. split; [done|]. split; [|done].
  split; cbn [with_entries with_table a_entries a_size a_table]; [by rewrite zlen_app| |exists s; by rewrite fmap_app, <- app_assoc|done].
  rewrite Hs, Et. table_length.
Qed.

(** ** The theorem *)

Definition index_ok (c : ar_call V) : bool :=
  match c with ArGet i | ArInsert i _ | ArSet i _ | ArRemove i => 0 <=? i | _ => true end.

(** How many elements a call can add. *)
Definition added (c : ar_call V) : Z :=
  match c with ArAppend _ | ArInsert _ _ => 1 | ArExtend values => zlen values | _ => 0 end.

Definition all_added (cs : list (ar_call V)) : Z := foldr (λ (c : ar_call V) n, added c + n) 0 cs.

Lemma array_step_refines (c : ar_call V) a l : arr_rep a l → index_ok c = true → zlen l + added c ≤ B →
  ∃ a', ar_step malloc c a = Val (a', snd (fst (ar_spec c l))) ∧ arr_rep a' (fst (fst (ar_spec c l))) ∧
    a_decrefs a' = a_decrefs a ++ snd (ar_spec c l) ∧ zlen (fst (fst (ar_spec c l))) ≤ zlen l + added c.
Proof.
  intros R Hi Hl. pose proof (zlen_nonneg l). destruct c as [i|v|i v|i v|i| |values]; cbn [ar_step ar_spec index_ok added] in *.
  - exists a. rewrite (array_get_rep a l) by (done || blia). rewrite app_nil_r. cbn. split; [done|]. split; [done|]. split; [done|lia].
  - destruct (array_append_rep a l v R Hl) as (a' & E & R' & D). exists a'. rewrite E, app_nil_r. cbn. split; [done|]. split; [done|]. split; [done|zl].
  - destruct (i <=? zlen l) eqn:E; cbn [fst snd].
    + assert (i = zlen (take (Z.to_nat i) l)) as Ei by (unfold zlen in *; rewrite length_take; blia).
      destruct (array_insert_rep a (take (Z.to_nat i) l) (drop (Z.to_nat i) l) v) as (a' & Ea & R' & D); [by rewrite take_drop|by rewrite take_drop|].
      rewrite <- Ei in Ea. exists a'. rewrite Ea, app_nil_r. split; [done|]. split; [done|]. split; [done|].
      rewrite zlen_app, zlen_cons. pose proof (f_equal zlen (take_drop (Z.to_nat i) l)) as Hz. rewrite zlen_app in Hz. lia.
    + exists (log_decref v a). unfold json_array_insert_new. rewrite (ar_entries _ _ R). destruct (i >? zlen l) eqn:E'; [|blia].
      split; [done|]. split; [by destruct R|]. split; [done|lia].
  - pose proof (array_set_rep a l i v R ltac:(blia)) as Hs. destruct (l !! Z.to_nat i) as [old|]; cbn [fst snd].
    + destruct Hs as (a' & E & R' & D). exists a'. rewrite E. split; [done|]. split; [done|]. split; [done|]. unfold zlen. rewrite length_insert. lia.
    + exists (log_decref v a). rewrite Hs. split; [done|]. split; [by destruct R|]. split; [done|lia].
  - pose proof (array_remove_rep a l i R ltac:(blia)) as Hs. destruct (l !! Z.to_nat i) as [old|] eqn:Eo; cbn [fst snd].
    + destruct Hs as (a' & E & R' & D). exists a'. rewrite E. split; [done|]. split; [done|]. split; [done|].
      unfold zlen. rewrite length_app, length_take, length_drop. lia.
    + exists a. rewrite Hs, app_nil_r. split; [done|]. split; [done|]. split; [done|lia].
  - destruct (array_clear_rep a l R) as (a' & E & R' & D). exists a'. rewrite E. cbn. split; [done|]. split; [done|]. split; [done|]. rewrite zlen_nil. lia.
  - destruct (array_extend_rep a l values R Hl) as (a' & E & R' & D). exists a'. rewrite E, app_nil_r. cbn. split; [done|]. split; [done|]. split; [done|]. rewrite zlen_app. lia.
Qed.

Lemma added_nonneg (c : ar_call V) : 0 ≤ added c.
Proof. destruct c; cbn; [lia..|apply zlen_nonneg]. Qed.

Lemma all_added_nonneg cs : 0 ≤ all_added cs.
Proof. induction cs as [|c cs IH]; [done|]. cbn. fold (all_added cs). pose proof (added_nonneg c). lia. Qed.

Lemma array_run_refines cs : ∀ a l, arr_rep a l → forallb index_ok cs = true → zlen l + all_added cs ≤ B →
  ∃ a', ar_run malloc cs a = Val (a', snd (fst (ar_run_spec cs l))) ∧ a_decrefs a' = a_decrefs a ++ snd (ar_run_spec cs l) ∧
    arr_rep a' (fst (fst (ar_run_spec cs l))).
Proof.
  induction cs as [|c cs IH]; intros a l R Hok Hl; [exists a; cbn; by rewrite app_nil_r|].
  cbn [forallb] in Hok. apply andb_true_iff in Hok as [Hc Hcs]. cbn in Hl. fold (all_added cs) in Hl. pose proof (all_added_nonneg cs).
  destruct (array_step_refines c a l R Hc ltac:(lia)) as (a1 & E1 & R1 & D1 & Z1).
  destruct (IH a1 _ R1 Hcs ltac:(lia)) as (a2 & E2 & D2 & R2). exists a2. cbn [ar_run ar_run_spec].
  destruct (ar_spec c l) as [[l1 r] d]. cbn [fst snd] in *. destruct (ar_run_spec cs l1) as [[l2 rs] ds]. cbn [fst snd] in *.
  rewrite E1, bind_Val, E2, bind_Val, D2, D1, <- app_assoc. done.
Qed.
End Refinement.

(** Jansson's arrays behave as lists: whatever sequence of reads,
    appends, insertions, replacements, removals, clearings and extensions is
    applied to a new array, the table, its growth and its moves never leave their
    blocks, and results, contents and released elements are those of the same
    operations on a list. *)
Theorem array_refines {V} malloc (cs : list (ar_call V)) :
  malloc_succeeds malloc → forallb index_ok cs = true → all_added cs < 2 ^ 58 →
  ∃ a0 a, json_array malloc = Some a0 ∧ ar_run malloc cs a0 = Val (a, snd (fst (ar_run_spec cs []))) ∧
    a_decrefs a = snd (ar_run_spec cs []) ∧
    take (Z.to_nat (a_entries a)) (a_table a) = Some <$> fst (fst (ar_run_spec cs [])).
Proof.
  intros Hm Hok Hl. pose proof (all_added_nonneg cs). destruct (init_array (V := V) malloc Hm (all_added cs) ltac:(lia)) as (a0 & E0 & R0 & D0).
  destruct (array_run_refines malloc Hm (all_added cs) ltac:(lia) cs a0 [] R0 Hok ltac:(by rewrite zlen_nil)) as (a & E & D & R).
  exists a0, a. rewrite D, D0. split; [done|]. split; [done|]. split; [done|]. destruct R as [He _ [junk Ht] _].
  rewrite He, Ht. unfold zlen. rewrite Nat2Z.id, take_app_length'; [done|]. by rewrite length_fmap.
Qed.

Lemma array_refines_witness :
  let cs := [ArAppend 1; ArAppend 2; ArInsert 1 3; ArRemove 0; ArSet 5 9] in
  ∃ a0 a, json_array (λ _, true) = Some a0 ∧
    ar_run (λ _, true) cs a0 = Val (a, [ADone true; ADone true; ADone true; ADone true; ADone false]) ∧
    a_decrefs a = [1; 9] ∧ take (Z.to_nat (a_entries a)) (a_table a) = [Some 3; Some 2].
Proof. apply (array_refines (λ _, true) [ArAppend 1; ArAppend 2; ArInsert 1 3; ArRemove 0; ArSet 5 9]); [done|reflexivity|vm_compute; reflexivity]. Defined.
