(* ===== verification/JsonValue.v ===== *)
(** * Comparing, copying and merging JSON values ([src/deps/jansson/src/value.c])

    The operations on whole values that do not depend on how blocks are shared:
    [json_equal], the two kinds of copies and the three kinds of updates. Equality
    is specified by [alike]: objects hold alike values under the same keys, in
    whatever order; reals are compared as numbers. Allocation succeeds. *)

From S2P Require Import Prelude Float Utf8 Jansson.
Local Open Scope Z_scope.
#[local] Set Warnings "-register-all".

(** [x == y] on doubles. *)
Definition double_eq (x y : Z) : bool :=
  match decode_fp binary64 x, decode_fp binary64 y with
  | NaN, _ | _, NaN => false
  | _, _ => (x =? y) || ((Z.land x (2 ^ 63 - 1) =? 0) && (Z.land y (2 ^ 63 - 1) =? 0))
  end.

Definition json_object_size (json : json_t) : Z := match json with JObject h => zlen (ht_list h) | _ => 0 end.

(** ** Equality *)

(** [json2] may be NULL. Equal pointers are equal values: the test only matters for
    the three simple values. *)
Fixpoint json_equal (json1 : json_t) (json2 : option json_t) {struct json1} : bool :=
  match json1, json2 with
  | JObject (mkTable _ l), Some (JObject h2) =>
      (zlen l =? zlen (ht_list h2)) &&
      forallb (λ '(key, value1), json_equal value1 (hashtable_get h2 key)) l
  | JArray l1, Some (JArray l2) =>
      (zlen l1 =? zlen l2) &&
      (fix loop (l : list json_t) (i : nat) : bool :=
         match l with
         | [] => true
         | value1 :: l => json_equal value1 (l2 !! i) && loop l (S i)
         end) l1 0%nat
  | JString s1, Some (JString s2) => bool_decide (s1 = s2)
  | JInteger n1, Some (JInteger n2) => n1 =? n2
  | JReal x1, Some (JReal x2) => double_eq x1 x2
  | JTrue, Some JTrue | JFalse, Some JFalse | JNull, Some JNull => true
  | _, _ => false
  end.

(** ** Copies *)

(** [json_object_foreach] with [json_object_set_nocheck]; a value of [None] is
    NULL, which is not set. *)
Definition set_all (object : json_t) (l : list (string * option json_t)) : json_t :=
  foldl (λ object kv, json_object_set_new_nocheck object (fst kv) (snd kv)) object l.

Definition append_all (array : json_t) (l : list (option json_t)) : json_t := foldl json_array_append_new array l.

Definition json_copy (json : json_t) : option json_t :=
  match json with
  | JObject h => Some (set_all json_object ((λ kv, (fst kv, Some (snd kv))) <$> ht_list h))
  | JArray l => Some (append_all (JArray []) (Some <$> l))
  | JString s => json_string_nocheck (Some s)
  | JInteger n => Some (JInteger n)
  | JReal x => json_real x
  | _ => Some json
  end.

Fixpoint json_deep_copy (json : json_t) : option json_t :=
  match json with
  | JObject (mkTable _ l) => Some (set_all json_object (map (λ '(key, value), (key, json_deep_copy value)) l))
  | JArray l => Some (append_all (JArray []) (map json_deep_copy l))
  | JString s => json_string_nocheck (Some s)
  | JInteger n => Some (JInteger n)
  | JReal x => json_real x
  | JTrue => Some JTrue
  | JFalse => Some JFalse
  | JNull => Some JNull
  end.

(** ** Updates *)

(** The flag is [false] for the return value -1. *)
Definition update_with (f : json_t → string → json_t → json_t) (object other : json_t) : json_t * bool :=
  if negb (json_is_object object) || negb (json_is_object other) then (object, false)
  else (foldl (λ object kv, f object (fst kv) (snd kv)) object (json_object_iter other), true).

Definition json_object_update : json_t → json_t → json_t * bool :=
  update_with (λ object key value, json_object_set_new_nocheck object key (Some value)).

Definition json_object_update_existing : json_t → json_t → json_t * bool :=
  update_with (λ object key value,
    match json_object_get (Some object) key with
    | Some _ => json_object_set_new_nocheck object key (Some value)
    | None => object
    end).

Definition json_object_update_missing : json_t → json_t → json_t * bool :=
  update_with (λ object key value,
    match json_object_get (Some object) key with
    | Some _ => object
    | None => json_object_set_new_nocheck object key (Some value)
    end).

Definition json_object_del (json : json_t) (key : string) : json_t * bool :=
  match json with
  | JObject h => match hashtable_del h key with Some h => (JObject h, true) | None => (json, false) end
  | _ => (json, false)
  end.

Definition json_object_clear (json : json_t) : json_t * bool :=
  match json with JObject h => (JObject (hashtable_clear h), true) | _ => (json, false) end.

Example value_examples :
  let a := JObject (mkTable 0 [("x", JInteger 1); ("y", JArray [JReal 0; JNull])]) in
  let b := JObject (mkTable 0 [("y", JArray [JReal (2 ^ 63); JNull]); ("x", JInteger 1)]) in
  json_equal a (Some b) = true ∧ json_equal b (Some a) = true ∧ json_equal a (Some (JObject (mkTable 0 [("x", JInteger 1)]))) = false ∧
  match json_deep_copy a with Some c => json_equal a (Some c) | None => false end = true ∧
  json_equal (JReal 0x7ff8000000000000) (Some (JReal 0x7ff8000000000000)) = false.
Proof. vm_compute. done. Qed.

(** ** What equality means *)

Inductive alike : json_t → json_t → Prop :=
| alike_object h1 h2 : (∀ k, option_Forall2 alike (ht_map h1 !! k) (ht_map h2 !! k)) → alike (JObject h1) (JObject h2)
| alike_array l1 l2 : Forall2 alike l1 l2 → alike (JArray l1) (JArray l2)
| alike_string s : alike (JString s) (JString s)
| alike_integer n : alike (JInteger n) (JInteger n)
| alike_real x y : double_eq x y = true → alike (JReal x) (JReal y)
| alike_true : alike JTrue JTrue
| alike_false : alike JFalse JFalse
| alike_null : alike JNull JNull.

(** Every object has each key once, every real is a number. *)
Fixpoint wf_json (json : json_t) : bool :=
  match json with
  | JObject (mkTable _ l) => bool_decide (NoDup l.*1) && forallb (λ '(_, value), wf_json value) l
  | JArray l => forallb wf_json l
  | JReal x => is_finite binary64 x
  | _ => true
  end.

Lemma wf_object n l : wf_json (JObject (mkTable n l)) = true ↔ NoDup l.*1 ∧ Forall (λ kv, wf_json (snd kv) = true) l.
Proof.
  cbn [wf_json]. rewrite andb_true_iff, bool_decide_eq_true, forallb_forall, Forall_forall. setoid_rewrite <- list_elem_of_In.
  split; (intros [Hn Hl]; split; [done|]); [|by intros [k v] Hin; apply (Hl (k, v))]. intros [k v] Hin. by apply (Hl (k, v)).
Qed.

Lemma wf_array l : wf_json (JArray l) = true ↔ Forall (λ v, wf_json v = true) l.
Proof. cbn [wf_json]. rewrite forallb_forall, Forall_forall. by setoid_rewrite <- list_elem_of_In. Qed.

(** The loop over an array. *)
Fixpoint elems_equal (l : list json_t) (l2 : list json_t) (i : nat) : bool :=
  match l with
  | [] => true
  | value1 :: l => json_equal value1 (l2 !! i) && elems_equal l l2 (S i)
  end.

Lemma equal_array l1 l2 : json_equal (JArray l1) (Some (JArray l2)) = (zlen l1 =? zlen l2) && elems_equal l1 l2 0.
Proof. cbn [json_equal]. f_equal. generalize 0%nat. induction l1 as [|v l1 IH]; intros i; [done|]. cbn. by rewrite IH. Qed.

Definition equal_ok (v : json_t) : Prop := ∀ w, wf_json v = true → wf_json w = true → json_equal v (Some w) = true ↔ alike v w.

Lemma elems_equal_spec l2 : Forall (λ v, wf_json v = true) l2 → ∀ l1 i, Forall equal_ok l1 → Forall (λ v, wf_json v = true) l1 →
  length l1 = length (drop i l2) → elems_equal l1 l2 i = true ↔ Forall2 alike l1 (drop i l2).
Proof.
  intros H2. induction l1 as [|v l1 IH]; intros i Ho Hw Hl; cbn [elems_equal].
  { destruct (drop i l2) eqn:?; [|done]. split; [intros _; constructor|done]. }
  apply Forall_cons in Ho as [Hv Ho]. apply Forall_cons in Hw as [Hwv Hw].
  destruct (l2 !! i) as [w|] eqn:Ew.
  2: { apply lookup_ge_None in Ew. rewrite length_drop in Hl. simpl in Hl. lia. }
  rewrite (drop_S l2 w i Ew) in Hl |- *. rewrite andb_true_iff, Forall2_cons, (IH (S i)) by (done || simpl in Hl; lia).
  rewrite (Hv w); [done|done|]. rewrite Forall_forall in H2. apply H2. by eapply list_elem_of_lookup_2.
Qed.

(** Two tables of the same size agree when the second has every key of the first. *)
Lemma same_size_agree (m1 m2 : gmap string json_t) (P : json_t → json_t → Prop) : size m1 = size m2 →
  (∀ k v, m1 !! k = Some v → ∃ w, m2 !! k = Some w ∧ P v w) → ∀ k, option_Forall2 P (m1 !! k) (m2 !! k).
Proof.
  intros Hs Hp. assert (dom m1 = dom m2) as Hd.
  { apply set_eq. assert (dom m1 ⊆ dom m2) as Hsub by (intros k [v Hv]%elem_of_dom; destruct (Hp k v Hv) as (w & Hw & _); by eapply elem_of_dom_2).
    intros k. split; [apply Hsub|]. intros Hk. destruct (decide (k ∈ dom m1)) as [|Hn]; [done|]. exfalso.
    assert (dom m1 ⊂ dom m2) as Hlt%subset_size by set_solver. rewrite !size_dom in Hlt. lia. }
  intros k. destruct (m1 !! k) as [v|] eqn:E1.
  - destruct (Hp k v E1) as (w & -> & Hw). by constructor.
  - assert (m2 !! k = None) as ->; [|constructor]. apply not_elem_of_dom. rewrite <- Hd. by apply not_elem_of_dom.
Qed.

Lemma option_Forall2_size (m1 m2 : gmap string json_t) (P : json_t → json_t → Prop) :
  (∀ k, option_Forall2 P (m1 !! k) (m2 !! k)) → size m1 = size m2.
Proof.
  intros Hp. rewrite <- !size_dom. f_equal. apply set_eq. intros k. rewrite !elem_of_dom.
  destruct (Hp k); split; intros [? ?]; (done || by eexists).
Qed.

Lemma equal_object n1 l1 h2 : NoDup l1.*1 → ht_wf h2 → Forall (λ kv, equal_ok (snd kv)) l1 →
  Forall (λ kv, wf_json (snd kv) = true) l1 → Forall (λ kv, wf_json (snd kv) = true) (ht_list h2) →
  json_equal (JObject (mkTable n1 l1)) (Some (JObject h2)) = true ↔ alike (JObject (mkTable n1 l1)) (JObject h2).
Proof.
  intros Hn1 Hn2 Ho Hw1 Hw2. cbn [json_equal]. rewrite andb_true_iff, Z.eqb_eq, forallb_forall. setoid_rewrite <- list_elem_of_In.
  rewrite Forall_forall in Ho, Hw1, Hw2. set (h1 := mkTable n1 l1).
  assert (size (ht_map h1) = length l1) as S1 by (by apply map_size_list_to_map). assert (size (ht_map h2) = length (ht_list h2)) as S2 by (by apply map_size_list_to_map).
  assert (∀ k v w, (k, v) ∈ l1 → ht_map h2 !! k = Some w → json_equal v (Some w) = true ↔ alike v w) as Hvw.
  { intros k v w Hin Hw. apply (Ho (k, v) Hin); [by apply (Hw1 (k, v))|]. apply (Hw2 (k, w)). by apply elem_of_list_to_map_2. }
  split.
  - intros [Hz Hl]. constructor. apply same_size_agree; [unfold zlen in Hz; lia|]. intros k v Hv.
    assert ((k, v) ∈ l1) as Hin by (by apply elem_of_list_to_map_2). specialize (Hl (k, v) Hin). cbn in Hl. rewrite get_map in Hl.
    destruct (ht_map h2 !! k) as [w|] eqn:Ew; [|by destruct v as [[]| | | | | | |]]. exists w. split; [done|]. by apply (Hvw k v w Hin).
  - inversion 1 as [? ? Hal| | | | | | |]; subst. pose proof (option_Forall2_size _ _ _ Hal) as Hs. split; [unfold zlen; lia|].
    intros [k v] Hin. rewrite get_map. specialize (Hal k). rewrite (proj1 (elem_of_list_to_map l1 k v Hn1) Hin : ht_map h1 !! k = Some v) in Hal.
    specialize (Hvw k v). destruct (ht_map h2 !! k) as [w|]; [|by inversion Hal]. apply (Hvw w Hin eq_refl). by inversion Hal.
Qed.

Lemma equal_alike v w : wf_json v = true → wf_json w = true → json_equal v (Some w) = true ↔ alike v w.
Proof.
  revert w. fold (equal_ok v). induction v as [n l IH|l IH|s|n|d| | |] using json_value_ind; intros w Hv Hw.
  - apply wf_object in Hv as [Hn Hl]. destruct w as [[n2 l2]|l2|s2|n2|d2| | |]; try (split; [done|by inversion 1]).
    apply wf_object in Hw as [Hn2 Hl2]. by apply equal_object.
  - apply wf_array in Hv. destruct w as [[n2 l2]|l2|s2|n2|d2| | |]; try (split; [done|by inversion 1]). apply wf_array in Hw.
    rewrite equal_array, andb_true_iff, Z.eqb_eq. split.
    + intros [Hz He]. constructor. apply (elems_equal_spec l2 Hw l 0) in He; [done..|]. unfold zlen in Hz. rewrite drop_0. lia.
    + inversion 1 as [|? ? Hf| | | | | |]; subst. apply Forall2_length in Hf as Hlen. split; [unfold zlen; lia|]. by apply (elems_equal_spec l2 Hw l 0).
  - destruct w; try (split; [done|by inversion 1]). cbn [json_equal]. rewrite bool_decide_eq_true. split; [intros ->; constructor|by inversion 1].
  - destruct w; try (split; [done|by inversion 1]). cbn [json_equal]. rewrite Z.eqb_eq. split; [intros ->; constructor|by inversion 1].
  - destruct w; try (split; [done|by inversion 1]). cbn [json_equal]. split; [by constructor|by inversion 1].
  - destruct w; split; try done; try (by inversion 1); intros _; constructor.
  - destruct w; split; try done; try (by inversion 1); intros _; constructor.
  - destruct w; split; try done; try (by inversion 1); intros _; constructor.
Qed.

(** [json_equal] decides equality of well-formed values: objects with
    alike values under the same keys whatever their order, arrays element by
    element, reals as numbers (so that 0.0 and -0.0 are equal). *)
Theorem json_equal_alike v w : wf_json v = true → wf_json w = true → json_equal v (Some w) = true ↔ alike v w.
Proof. apply equal_alike. Qed.

Lemma json_equal_alike_witness :
  let v := JObject (mkTable 0 [("a", JReal 0); ("b", JArray [JNull])]) in
  let w := JObject (mkTable 0 [("b", JArray [JNull]); ("a", JReal (2 ^ 63))]) in
  wf_json v = true ∧ wf_json w = true ∧ alike v w.
Proof.
  cbv zeta. split; [vm_compute; reflexivity|]. split; [vm_compute; reflexivity|].
  apply json_equal_alike; vm_compute; reflexivity.
Defined.

(** ** Setting many pairs *)

(** Pairs with values, as arguments of [set_all]. *)
Definition given (l : list (string * json_t)) : list (string * option json_t) := (λ kv, (fst kv, Some (snd kv))) <$> l.

Lemma set_all_ok l : ∀ h, ht_wf h → NoDup l.*1 → ∃ h', set_all (JObject h) (given l) = JObject h' ∧ ht_wf h' ∧
  ht_map h' = list_to_map l ∪ ht_map h ∧ ∀ P : string * json_t → Prop,
    Forall P (ht_list h) → Forall P l → Forall P (ht_list h').
Proof.
  induction l as [|[k v] l IH]; intros h Hw Hn.
  { exists h. split; [done|]. split; [done|]. split; [symmetry; apply (map_empty_union (ht_map h))|done]. }
  apply list.NoDup_cons in Hn as [Hk Hn]. destruct (set_map h k v Hw) as [Hw' Hm]. destruct (IH _ Hw' Hn) as (h' & E & Hwf & Hmap & Hall).
  exists h'. split; [exact E|]. split; [done|]. split.
  - rewrite Hmap, Hm. simpl. rewrite <- insert_union_l, <- insert_union_r; [done|]. by apply not_elem_of_list_to_map_1.
  - intros P Hh [Hv Hl]%Forall_cons. apply Hall; [|done]. by apply set_Forall.
Qed.

(** ** Deep copies *)

Definition copy_ok (v : json_t) : Prop := wf_json v = true → ∃ v', json_deep_copy v = Some v' ∧ wf_json v' = true ∧ alike v v'.

Lemma copies_ok l : Forall copy_ok l → Forall (λ v, wf_json v = true) l →
  ∃ l', map json_deep_copy l = Some <$> l' ∧ Forall (λ v, wf_json v = true) l' ∧ Forall2 alike l l'.
Proof.
  induction 1 as [|v l Hv Hl IH]; intros Hw.
  { exists []. split; [done|]. split; constructor. }
  apply Forall_cons in Hw as [Hwv Hw]. destruct (Hv Hwv) as (v' & Ev & Hwv' & Hal). destruct (IH Hw) as (l' & El & Hwl & Hf).
  exists (v' :: l'). cbn [map]. rewrite Ev, El. split; [done|]. split; by constructor.
Qed.

Lemma pair_copies_ok l : Forall (λ kv, copy_ok (snd kv)) l → Forall (λ kv, wf_json (snd kv) = true) l →
  ∃ l', map (λ '(key, value), (key, json_deep_copy value)) l = given l' ∧ l'.*1 = l.*1 ∧ Forall (λ kv, wf_json (snd kv) = true) l' ∧
    ∀ k, option_Forall2 alike ((list_to_map l : gmap string json_t) !! k) ((list_to_map l' : gmap string json_t) !! k).
Proof.
  induction 1 as [|[k v] l Hv Hl IH]; intros Hw.
  { exists []. split; [done|]. split; [done|]. split; [constructor|]. intros k. constructor. }
  apply Forall_cons in Hw as [Hwv Hw]. destruct (Hv Hwv) as (v' & Ev & Hwv' & Hal). destruct (IH Hw) as (l' & El & Hf & Hwl & Ha).
  exists ((k, v') :: l'). cbn [map snd] in *. rewrite Ev, El. split; [done|]. split; [cbn; f_equal; exact Hf|]. split; [by constructor|]. intros k'. simpl.
  destruct (decide (k' = k)) as [->|Hne]; [rewrite !lookup_insert_eq; by constructor|by rewrite !lookup_insert_ne].
Qed.

Lemma append_all_ok l : ∀ l0, append_all (JArray l0) (Some <$> l) = JArray (l0 ++ l).
Proof.
  induction l as [|v l IH]; intros l0; [by rewrite app_nil_r|]. cbn. unfold append_all in IH. rewrite IH. by rewrite <- app_assoc.
Qed.

Lemma double_eq_refl x : is_finite binary64 x = true → double_eq x x = true.
Proof. unfold is_finite, double_eq. destruct (decode_fp binary64 x); try done. by rewrite Z.eqb_refl. Qed.

(** The deep copy of a well-formed value is a well-formed value
    that [json_equal] finds equal to it. *)
Theorem json_deep_copy_equal v : wf_json v = true →
  ∃ v', json_deep_copy v = Some v' ∧ wf_json v' = true ∧ alike v v' ∧ json_equal v (Some v') = true.
Proof.
  intros Hv. cut (copy_ok v); [intros Hc; destruct (Hc Hv) as (v' & E & Hw & Ha); exists v'; by rewrite equal_alike|]. clear Hv.
  induction v as [n l IH|l IH|s|n|d| | |] using json_value_ind; intros Hv; cbn [json_deep_copy].
  - apply wf_object in Hv as [Hn Hl]. destruct (pair_copies_ok l IH Hl) as (l' & -> & Hf & Hwl & Ha). destruct (init_map (V := json_t)) as [Hw0 Hm0].
    destruct (set_all_ok l' hashtable_init Hw0) as (h' & E & Hwf & Hmap & Hall); [by rewrite Hf|]. change json_object with (JObject hashtable_init); rewrite E. eexists. split; [done|].
    destruct h' as [n' lh']. split; [apply wf_object; split; [done|]; by apply Hall; [constructor|]|]. constructor. intros k.
    rewrite Hmap, Hm0, (right_id_L ∅ (∪)). apply Ha.
  - apply wf_array in Hv. destruct (copies_ok l IH Hv) as (l' & -> & Hw & Ha). rewrite append_all_ok. eexists. split; [done|].
    split; [by apply wf_array|by constructor].
  - eexists. split; [done|]. split; [done|constructor].
  - eexists. split; [done|]. split; [done|constructor].
  - unfold json_real. cbn [wf_json] in Hv. rewrite Hv. eexists. split; [done|]. split; [done|]. constructor. by apply double_eq_refl.
  - eexists. split; [done|]. split; [done|constructor].
  - eexists. split; [done|]. split; [done|constructor].
  - eexists. split; [done|]. split; [done|constructor].
Qed.

Lemma json_deep_copy_equal_witness :
  let v := JObject (mkTable 0 [("a", JReal 0); ("b", JArray [JNull; JString "x"])]) in
  wf_json v = true ∧ ∃ v', json_deep_copy v = Some v' ∧ wf_json v' = true ∧ alike v v' ∧ json_equal v (Some v') = true.
Proof. split; [vm_compute; reflexivity|]. apply json_deep_copy_equal. vm_compute. reflexivity. Defined.

(** ** Updates *)

(** One step of an update, on the map of the object: the value stored under [key]. *)
Definition merges (f : json_t → string → json_t → json_t) (g : option json_t → json_t → option json_t) : Prop :=
  ∀ h key value, ht_wf h → ∃ h', f (JObject h) key value = JObject h' ∧ ht_wf h' ∧
    ∀ k, ht_map h' !! k = if bool_decide (k = key) then g (ht_map h !! key) value else ht_map h !! k.

Lemma update_ok f g h h2 : merges f g → ht_wf h → ht_wf h2 → ∃ h', update_with f (JObject h) (JObject h2) = (JObject h', true) ∧ ht_wf h' ∧
  ∀ k, ht_map h' !! k = match ht_map h2 !! k with Some v => g (ht_map h !! k) v | None => ht_map h !! k end.
Proof.
  intros Hf Hw Hw2. unfold update_with, ht_map at 2. cbn [json_is_object negb orb json_object_iter]. unfold ht_wf in Hw2. revert h Hw.
  induction (ht_list h2) as [|[key value] l IH]; intros h Hw; [by exists h|]. apply list.NoDup_cons in Hw2 as [Hk Hn].
  destruct (Hf h key value Hw) as (h1 & E1 & Hw1 & Hm1). destruct (IH Hn h1 Hw1) as (h' & E' & Hw' & Hm'). exists h'. cbn [foldl fst snd]. rewrite E1.
  split; [done|]. split; [done|]. intros k. rewrite Hm', !Hm1. simpl. case_bool_decide as E.
  - subst k. rewrite lookup_insert_eq. by rewrite (not_elem_of_list_to_map_1 l key Hk).
  - by rewrite lookup_insert_ne.
Qed.

Lemma merges_set : merges (λ object key value, json_object_set_new_nocheck object key (Some value)) (λ _, Some).
Proof.
  intros h key value Hw. destruct (set_map h key value Hw) as [Hw' Hm]. eexists. split; [done|]. split; [done|]. intros k. rewrite Hm.
  case_bool_decide; [subst; by rewrite lookup_insert_eq|by rewrite lookup_insert_ne].
Qed.

Lemma merges_keep f g (b : bool) : merges f g →
  merges (λ object key value, match json_object_get (Some object) key with
    | Some _ => if b then f object key value else object
    | None => if b then object else f object key value end)
   (λ o value, match o with Some w => if b then g o value else o | None => if b then o else g o value end).
Proof.
  intros Hf h key value Hw. cbn [json_object_get]. rewrite get_map. specialize (Hf h key value Hw).
  destruct (ht_map h !! key) as [w|] eqn:E; destruct b; try exact Hf; exists h; (split; [done|]); (split; [done|]); intros k; case_bool_decide; congruence.
Qed.

(** The three updates: every pair of the other object is taken; only
    the pairs whose key is already there are taken; only those whose key is not.
    Whatever the other object does not have is kept. *)
Theorem json_updates h h2 : ht_wf h → ht_wf h2 →
  (∃ h', json_object_update (JObject h) (JObject h2) = (JObject h', true) ∧ ht_wf h' ∧ ht_map h' = ht_map h2 ∪ ht_map h) ∧
  (∃ h', json_object_update_existing (JObject h) (JObject h2) = (JObject h', true) ∧ ht_wf h' ∧
     ht_map h' = filter (λ kv, is_Some (ht_map h !! fst kv)) (ht_map h2) ∪ ht_map h) ∧
  (∃ h', json_object_update_missing (JObject h) (JObject h2) = (JObject h', true) ∧ ht_wf h' ∧ ht_map h' = ht_map h ∪ ht_map h2).
Proof.
  intros Hw Hw2. split; [|split].
  - destruct (update_ok _ _ h h2 merges_set Hw Hw2) as (h' & E & Hw' & Hm). exists h'. split; [done|]. split; [done|]. apply map_eq. intros k.
    rewrite Hm, lookup_union. by destruct (ht_map h2 !! k), (ht_map h !! k).
  - destruct (update_ok _ _ h h2 (merges_keep _ _ true merges_set) Hw Hw2) as (h' & E & Hw' & Hm). exists h'. split; [done|]. split; [done|].
    apply map_eq. intros k. rewrite Hm, lookup_union, map_lookup_filter. destruct (ht_map h2 !! k), (ht_map h !! k) eqn:E1; simpl; try done.
    + by rewrite option_guard_True by (simpl; by rewrite E1).
    + rewrite option_guard_False; [done|]. simpl. rewrite E1. by intros [? ?].
  - destruct (update_ok _ _ h h2 (merges_keep _ _ false merges_set) Hw Hw2) as (h' & E & Hw' & Hm). exists h'. split; [done|]. split; [done|].
    apply map_eq. intros k. rewrite Hm, lookup_union. by destruct (ht_map h2 !! k), (ht_map h !! k).
Qed.

Lemma json_updates_witness :
  let h := mkTable 0 [("a", JTrue)] in let h2 := mkTable 0 [("a", JNull); ("b", JNull)] in
  ht_wf h ∧ ht_wf h2 ∧ ∃ h', json_object_update_missing (JObject h) (JObject h2) = (JObject h', true) ∧ ht_wf h' ∧ ht_map h' = ht_map h ∪ ht_map h2.
Proof.
  cbv zeta. assert (ht_wf (mkTable 0 [("a", JTrue)])) as H1 by (apply (bool_decide_unpack _); vm_compute; exact I).
  assert (ht_wf (mkTable 0 [("a", JNull); ("b", JNull)])) as H2 by (apply (bool_decide_unpack _); vm_compute; exact I).
  split; [exact H1|]. split; [exact H2|]. exact (proj2 (proj2 (json_updates _ _ H1 H2))).
Defined.
