(* ===== verification/JsonHeap.v ===== *)
(** * JSON values in memory ([src/deps/jansson/src/value.c], [jansson.h])

    The rest of the development reads a [json_t *] as the tree it points to. Here
    are the blocks themselves with their reference counts: creation, storing into
    objects and arrays, [json_incref], [json_decref] and the recursive deletion.
    A block is an entry of a finite map; the three simple values are static and
    immortal. The hash table of an object is that of [Jansson.v], the table of an
    array a list. Whether an allocation succeeds is an argument. *)

From S2P Require Import Prelude Float Utf8 Jansson.
Local Open Scope Z_scope.

(** ** Blocks *)

(** A [json_t *] that is not NULL. *)
Inductive ref := RTrue | RFalse | RNull | RBlock (p : positive).

#[global] Instance ref_eq_dec : EqDecision ref.
Proof. solve_decision. Defined.

Inductive body :=
| BObject (hashtable : hashtable_t ref)
| BArray (table : list ref)
| BString (value : string)
| BInteger (value : Z)
| BReal (value : Z).

(** Reference count and content of each block. *)
Abbreviation blocks_t := (gmap positive (Z * body)).

Record heap := mkJson { blocks : blocks_t; next_block : positive }.

Definition IMMORTAL : Z := 2 ^ 64 - 1.

Definition set_block (p : positive) (rc : Z) (b : body) (H : heap) : heap :=
  mkJson (<[p := (rc, b)]> (blocks H)) (next_block H).

Definition free_block (p : positive) (H : heap) : heap := mkJson (delete p (blocks H)) (next_block H).

(** [jsonp_malloc] and [json_init]. *)
Definition alloc_block (b : body) (H : heap) : heap * ref :=
  (mkJson (<[next_block H := (1, b)]> (blocks H)) (Pos.succ (next_block H)), RBlock (next_block H)).

Definition deref (p : positive) (H : heap) : exec (Z * body) :=
  match blocks H !! p with Some x => Val x | None => UB end.

(** ** Reference counts *)

Definition json_incref (r : ref) (H : heap) : exec heap :=
  match r with
  | RBlock p => '(rc, b) ← deref p H; Val (if rc =? IMMORTAL then H else set_block p (u64 (rc + 1)) b H)
  | _ => Val H
  end.

(** The deletion of a block, given [json_decref] for what it refers to. *)
Section Delete.
Context (decref : ref → heap → exec heap).

Fixpoint release (l : list ref) (H : heap) : exec heap :=
  match l with
  | [] => Val H
  | r :: l => H ← decref r H; release l H
  end.

(** [hashtable_close] releases the values in the order of the list. *)
Definition json_delete_object (p : positive) (h : hashtable_t ref) (H : heap) : exec heap :=
  H ← release (ht_list h).*2 H; Val (free_block p H).

Definition json_delete_array (p : positive) (table : list ref) (H : heap) : exec heap :=
  H ← release table H; Val (free_block p H).

(** The text of a string is part of its block. *)
Definition json_delete_string (p : positive) (H : heap) : heap := free_block p H.
Definition json_delete_integer (p : positive) (H : heap) : heap := free_block p H.
Definition json_delete_real (p : positive) (H : heap) : heap := free_block p H.

Definition json_delete (p : positive) (b : body) (H : heap) : exec heap :=
  match b with
  | BObject h => json_delete_object p h H
  | BArray table => json_delete_array p table H
  | BString _ => Val (json_delete_string p H)
  | BInteger _ => Val (json_delete_integer p H)
  | BReal _ => Val (json_delete_real p H)
  end.
End Delete.

Fixpoint decref (fuel : nat) (r : ref) (H : heap) : exec heap :=
  match fuel with
  | O => NoFuel
  | S fuel =>
      match r with
      | RBlock p =>
          '(rc, b) ← deref p H;
          if rc =? IMMORTAL then Val H
          else
            let rc := u64 (rc - 1) in
            let H := set_block p rc b H in
            if rc =? 0 then json_delete (decref fuel) p b H else Val H
      | _ => Val H
      end
  end.

(** A deletion is nested at most once per block. *)
Definition json_decref (r : ref) (H : heap) : exec heap := decref (S (size (blocks H))) r H.

(** ** Objects *)

(** NULL when memory is exhausted. *)
Definition create (b : body) (ok : bool) (H : heap) : heap * option ref :=
  if ok then let '(H, r) := alloc_block b H in (H, Some r) else (H, None).

Definition json_object (ok : bool) (H : heap) : heap * option ref := create (BObject hashtable_init) ok H.
Definition json_array (ok : bool) (H : heap) : heap * option ref := create (BArray []) ok H.
Definition json_string_nocheck (value : string) (ok : bool) (H : heap) : heap * option ref := create (BString value) ok H.
Definition json_string (value : string) (ok : bool) (H : heap) : heap * option ref :=
  if utf8_check_string value then json_string_nocheck value ok H else (H, None).
Definition json_integer (value : Z) (ok : bool) (H : heap) : heap * option ref := create (BInteger value) ok H.
Definition json_real (value : Z) (ok : bool) (H : heap) : heap * option ref :=
  if is_finite binary64 value then create (BReal value) ok H else (H, None).

(** The block behind a pointer: [None] for a simple value. *)
Definition look (r : ref) (H : heap) : exec (option (positive * Z * body)) :=
  match r with
  | RBlock p => '(rc, b) ← deref p H; Val (Some (p, rc, b))
  | _ => Val None
  end.

Definition refuse (value : ref) (H : heap) : exec (heap * bool) := H ← json_decref value H; Val (H, false).

Definition put_object (p : positive) (f : hashtable_t ref → hashtable_t ref) (H : heap) : exec heap :=
  '(rc, b) ← deref p H;
  match b with BObject h => Val (set_block p rc (BObject (f h)) H) | _ => UB end.

Definition put_array (p : positive) (f : list ref → list ref) (H : heap) : exec heap :=
  '(rc, b) ← deref p H;
  match b with BArray l => Val (set_block p rc (BArray (f l)) H) | _ => UB end.

(** [hashtable_set] is about to rehash. *)
Definition rehash_due (h : hashtable_t ref) : bool := num_buckets h <=? zlen (ht_list h).

(** The value of a key that is present is released before the new one is stored.
    When [ok] is [false] no allocation succeeds: the pair for a new key cannot be made.
    A rehash that finds no memory leaves the object without buckets
    ([HashRefine.v]), and the next call that looks at them is undefined: here this
    one is. *)
Definition json_object_set_new_nocheck (ok : bool) (json : ref) (key : string) (value : ref) (H : heap) :
    exec (heap * bool) :=
  o ← look json H;
  match o with
  | Some (p, _, BObject h) =>
      if bool_decide (json = value) then refuse value H
      else if negb ok && rehash_due h then UB
      else if negb ok && bool_decide (hashtable_get h key = None) then refuse value H
      else
        H ← match hashtable_get h key with Some old => json_decref old H | None => Val H end;
        H ← put_object p (λ h, hashtable_set h key value) H;
        Val (H, true)
  | _ => refuse value H
  end.

Definition json_object_set_new (ok : bool) (json : ref) (key : string) (value : ref) (H : heap) : exec (heap * bool) :=
  if negb (utf8_check_string key) then refuse value H else json_object_set_new_nocheck ok json key value H.

Definition json_object_set (ok : bool) (json : ref) (key : string) (value : ref) (H : heap) : exec (heap * bool) :=
  H ← json_incref value H; json_object_set_new ok json key value H.

Definition json_object_set_nocheck (ok : bool) (json : ref) (key : string) (value : ref) (H : heap) : exec (heap * bool) :=
  H ← json_incref value H; json_object_set_new_nocheck ok json key value H.

(** The pair is unlinked, then its value released. *)
Definition json_object_del (json : ref) (key : string) (H : heap) : exec (heap * bool) :=
  o ← look json H;
  match o with
  | Some (p, rc, BObject h) =>
      match hashtable_del h key, hashtable_get h key with
      | Some h', Some v => H ← json_decref v (set_block p rc (BObject h') H); Val (H, true)
      | _, _ => Val (H, false)
      end
  | _ => Val (H, false)
  end.

(** The values are released, then the list is emptied. *)
Definition json_object_clear (json : ref) (H : heap) : exec (heap * bool) :=
  o ← look json H;
  match o with
  | Some (p, rc, BObject h) =>
      H ← release json_decref (ht_list h).*2 H;
      H ← put_object p hashtable_clear H;
      Val (H, true)
  | _ => Val (H, false)
  end.

(** ** Arrays *)

Definition json_array_append_new (ok : bool) (json value : ref) (H : heap) : exec (heap * bool) :=
  o ← look json H;
  match o with
  | Some (p, rc, BArray l) =>
      if bool_decide (json = value) then refuse value H
      else if negb ok then refuse value H
      else Val (set_block p rc (BArray (l ++ [value])) H, true)
  | _ => refuse value H
  end.

Definition json_array_append (ok : bool) (json value : ref) (H : heap) : exec (heap * bool) :=
  H ← json_incref value H; json_array_append_new ok json value H.

(** The old element is released before the new one is stored. *)
Definition json_array_set_new (json : ref) (index : Z) (value : ref) (H : heap) : exec (heap * bool) :=
  o ← look json H;
  match o with
  | Some (p, rc, BArray l) =>
      if bool_decide (json = value) then refuse value H
      else if index >=? zlen l then refuse value H
      else match l !! Z.to_nat index with
        | Some old =>
            H ← json_decref old H;
            H ← put_array p (λ l, <[Z.to_nat index := value]> l) H;
            Val (H, true)
        | None => UB
        end
  | _ => refuse value H
  end.

Definition json_array_insert_new (ok : bool) (json : ref) (index : Z) (value : ref) (H : heap) : exec (heap * bool) :=
  o ← look json H;
  match o with
  | Some (p, rc, BArray l) =>
      if bool_decide (json = value) then refuse value H
      else if index >? zlen l then refuse value H
      else if negb ok then refuse value H
      else Val (set_block p rc (BArray (take (Z.to_nat index) l ++ value :: drop (Z.to_nat index) l)) H, true)
  | _ => refuse value H
  end.

Definition json_array_set (json : ref) (index : Z) (value : ref) (H : heap) : exec (heap * bool) :=
  H ← json_incref value H; json_array_set_new json index value H.

Definition json_array_insert (ok : bool) (json : ref) (index : Z) (value : ref) (H : heap) : exec (heap * bool) :=
  H ← json_incref value H; json_array_insert_new ok json index value H.

(** The element is released before the others are moved. *)
Definition json_array_remove (json : ref) (index : Z) (H : heap) : exec (heap * bool) :=
  o ← look json H;
  match o with
  | Some (p, rc, BArray l) =>
      if index >=? zlen l then Val (H, false)
      else match l !! Z.to_nat index with
        | Some old =>
            H ← json_decref old H;
            H ← put_array p (λ l, take (Z.to_nat index) l ++ drop (S (Z.to_nat index)) l) H;
            Val (H, true)
        | None => UB
        end
  | _ => Val (H, false)
  end.

Definition json_array_clear (json : ref) (H : heap) : exec (heap * bool) :=
  o ← look json H;
  match o with
  | Some (p, rc, BArray l) =>
      H ← release json_decref l H;
      H ← put_array p (λ _, []) H;
      Val (H, true)
  | _ => Val (H, false)
  end.

(** ** Strings and numbers *)

(** [ok]: the copy of the text can be allocated. *)
Definition json_string_set_nocheck (ok : bool) (json : ref) (value : string) (H : heap) : exec (heap * bool) :=
  o ← look json H;
  match o with
  | Some (p, rc, BString _) => if ok then Val (set_block p rc (BString value) H, true) else Val (H, false)
  | _ => Val (H, false)
  end.

Definition json_string_set (ok : bool) (json : ref) (value : string) (H : heap) : exec (heap * bool) :=
  if utf8_check_string value then json_string_set_nocheck ok json value H else Val (H, false).

Definition json_integer_set (json : ref) (value : Z) (H : heap) : exec (heap * bool) :=
  o ← look json H;
  match o with
  | Some (p, rc, BInteger _) => Val (set_block p rc (BInteger value) H, true)
  | _ => Val (H, false)
  end.

Definition json_real_set (json : ref) (value : Z) (H : heap) : exec (heap * bool) :=
  o ← look json H;
  match o with
  | Some (p, rc, BReal _) => if is_finite binary64 value then Val (set_block p rc (BReal value) H, true) else Val (H, false)
  | _ => Val (H, false)
  end.
