(* ===== verification/JsonCounts.v ===== *)
(** * Reference counts are right

    The invariant of the blocks of [JsonHeap.v]: the count of a block is the number
    of references to it, those its owners hold ([R]) and those inside other blocks.
    While an operation takes a value out of a block, the block still holds the
    reference in memory but no longer owns it: [ov] gives the references such
    blocks own. *)

From S2P Require Import Prelude Float Utf8 Jansson JsonHeap.
Local Open Scope Z_scope.

Definition children (b : body) : list ref :=
  match b with BObject h => (ht_list h).*2 | BArray l => l | _ => [] end.

(** ** Counting *)

Fixpoint cnt (p : positive) (l : list ref) : Z :=
  match l with
  | [] => 0
  | r :: l => (if bool_decide (r = RBlock p) then 1 else 0) + cnt p l
  end.

Lemma cnt_app p l l' : cnt p (l ++ l') = cnt p l + cnt p l'.
Proof. induction l as [|r l IH]; [done|]. cbn [app cnt]. lia. Qed.

Lemma cnt_nonneg p l : 0 ≤ cnt p l.
Proof. induction l as [|r l IH]; cbn [cnt]; [lia|]. case_bool_decide; lia. Qed.

Lemma cnt_le p l : cnt p l ≤ zlen l.
Proof. induction l as [|r l IH]; cbn [cnt]; [done|]. rewrite zlen_cons. case_bool_decide; lia. Qed.

Lemma cnt_elem p l : RBlock p ∈ l → 0 < cnt p l.
Proof.
  intros (l1 & l2 & ->)%list_elem_of_split. rewrite cnt_app. cbn [cnt]. rewrite bool_decide_true by done.
  pose proof (cnt_nonneg p l1). pose proof (cnt_nonneg p l2). lia.
Qed.

Lemma cnt_not_elem p l : RBlock p ∉ l → cnt p l = 0.
Proof.
  induction l as [|r l IH]; cbn [cnt]; [done|]. rewrite not_elem_of_cons. intros [H1 H2].
  rewrite bool_decide_false by done. rewrite IH by done. lia.
Qed.

#[export] Instance cnt_proper p : Proper ((≡ₚ) ==> (=)) (cnt p).
Proof. induction 1; cbn [cnt] in *; lia. Qed.

#[export] Instance zlen_proper {A} : Proper ((≡ₚ) ==> (=)) (@zlen A).
Proof. intros l l' Hp. unfold zlen. by rewrite Hp. Qed.

Lemma bind_ext {A B} (f g : A → list B) l : (∀ x, x ∈ l → f x = g x) → l ≫= f = l ≫= g.
Proof. induction l as [|x l IH]; intros Hf; [done|]. csimpl. rewrite Hf, IH; [done|..]; set_solver. Qed.

Section Edges.
Implicit Types (ov : gmap positive (list ref)) (m : blocks_t) (R l : list ref).

Definition kids ov (p : positive) (b : body) : list ref := default (children b) (ov !! p).

(** The references inside blocks. *)
Definition edges ov m : list ref := map_to_list m ≫= λ x, kids ov (fst x) (snd (snd x)).

Lemma edges_delete ov m p rc b : m !! p = Some (rc, b) → edges ov m ≡ₚ kids ov p b ++ edges ov (delete p m).
Proof. intros E. unfold edges. by rewrite <- (map_to_list_delete m p (rc, b)). Qed.

Lemma edges_insert ov m p rc b : m !! p = None → edges ov (<[p := (rc, b)]> m) ≡ₚ kids ov p b ++ edges ov m.
Proof. intros E. unfold edges. by rewrite (map_to_list_insert m p (rc, b)). Qed.

Lemma edges_set ov m p rc b : edges ov (<[p := (rc, b)]> m) ≡ₚ kids ov p b ++ edges ov (delete p m).
Proof. rewrite <- insert_delete_eq. apply edges_insert, lookup_delete_eq. Qed.

(** Only the count changes. *)
Lemma edges_count ov m p rc rc' b : m !! p = Some (rc, b) → edges ov (<[p := (rc', b)]> m) ≡ₚ edges ov m.
Proof. intros E. by rewrite edges_set, (edges_delete _ _ _ _ _ E). Qed.

Lemma edges_ov_ne ov m p l : m !! p = None → edges (<[p := l]> ov) m = edges ov m.
Proof.
  intros E. unfold edges. apply bind_ext. intros [q [rc b]] Hq.
  apply elem_of_map_to_list in Hq. unfold kids. cbn [fst snd]. rewrite lookup_insert_ne; [done|]. intros <-. congruence.
Qed.

Lemma edges_ov ov m p rc b l : m !! p = Some (rc, b) → edges (<[p := l]> ov) m ≡ₚ l ++ edges ov (delete p m).
Proof.
  intros E. rewrite (edges_delete _ _ _ _ _ E). rewrite edges_ov_ne by apply lookup_delete_eq.
  unfold kids. by rewrite lookup_insert_eq.
Qed.

(** ** The invariant *)

Record counted ov m R : Prop := {
  ct_alive : ∀ p, 0 < cnt p (R ++ edges ov m) → is_Some (m !! p);
  ct_count : ∀ p rc b, m !! p = Some (rc, b) → rc = cnt p (R ++ edges ov m);
  ct_pos : ∀ p rc b, m !! p = Some (rc, b) → p ∉ dom ov → 0 < rc;
  ct_len : zlen (R ++ edges ov m) < 2 ^ 63
}.

Lemma counted_perm ov m R R' : R ≡ₚ R' → counted ov m R → counted ov m R'.
Proof.
  intros Hp [H1 H2 H3 H4]. split; [..|done|].
  - intros p. rewrite <- Hp. apply H1.
  - intros p rc b E. rewrite <- Hp. by eapply H2.
  - by rewrite <- Hp.
Qed.

(** The blocks whose owned references are overridden are not deleted meanwhile: an
    owner holds them, or nobody can reach them. *)
Definition held ov m (R0 R : list ref) : Prop := ∀ p, p ∈ dom ov → RBlock p ∈ R ∨ cnt p (R0 ++ edges ov m) = 0.

(** What a release leaves. *)
Record released ov m m' R : Prop := {
  rl_counted : counted ov m' R;
  rl_body : ∀ p rc b, m' !! p = Some (rc, b) → ∃ rc0, m !! p = Some (rc0, b);
  rl_keep : ∀ p, p ∈ dom ov → p ∈ dom m → p ∈ dom m';
  rl_sub : ∃ gone, edges ov m ≡ₚ edges ov m' ++ gone
}.

Lemma rl_mono ov m m' R : released ov m m' R → ∀ p, cnt p (edges ov m') ≤ cnt p (edges ov m).
Proof. intros [_ _ _ [g E]] p. rewrite E, cnt_app. pose proof (cnt_nonneg p g). lia. Qed.

Lemma counted_deref ov H R p : counted ov (blocks H) R → RBlock p ∈ R →
  ∃ rc b, deref p H = Val (rc, b) ∧ blocks H !! p = Some (rc, b) ∧ rc = cnt p (R ++ edges ov (blocks H)) ∧ 0 < rc < IMMORTAL.
Proof.
  intros C Hin. assert (0 < cnt p (R ++ edges ov (blocks H))) as Hc by (apply cnt_elem, elem_of_app; by left).
  destruct (ct_alive _ _ _ C p Hc) as [[rc b] E]. exists rc, b. unfold deref. rewrite E. pose proof (ct_count _ _ _ C _ _ _ E) as ->.
  split; [done|]. split; [done|]. split; [done|]. pose proof (cnt_le p (R ++ edges ov (blocks H))). pose proof (ct_len _ _ _ C). unfold IMMORTAL. lia.
Qed.

(** Giving up one of several references. *)
Lemma counted_minus ov m R p rc b : counted ov m (RBlock p :: R) → m !! p = Some (rc, b) → 1 < rc →
  counted ov (<[p := (rc - 1, b)]> m) R.
Proof.
  intros C E Hrc. pose proof (edges_count ov m p rc (rc - 1) b E) as He. split.
  - intros q. rewrite He. intros Hq. destruct (decide (q = p)) as [->|Hne]; [by rewrite lookup_insert_eq|].
    rewrite lookup_insert_ne by done. apply (ct_alive _ _ _ C). cbn [app cnt]. case_bool_decide; lia.
  - intros q rc' b'. rewrite He. destruct (decide (q = p)) as [->|Hne].
    + rewrite lookup_insert_eq. intros [= <- <-]. rewrite (ct_count _ _ _ C _ _ _ E). cbn [app cnt]. rewrite bool_decide_true by done. lia.
    + rewrite lookup_insert_ne by done. intros E'. rewrite (ct_count _ _ _ C _ _ _ E'). cbn [app cnt]. rewrite bool_decide_false; [lia|congruence].
  - intros q rc' b' Hq Hd. destruct (decide (q = p)) as [->|Hne].
    + rewrite lookup_insert_eq in Hq. injection Hq as <- <-. lia.
    + rewrite lookup_insert_ne in Hq by done. by eapply (ct_pos _ _ _ C).
  - rewrite He. pose proof (ct_len _ _ _ C) as Hl. cbn [app] in Hl. rewrite zlen_cons in Hl. lia.
Qed.

(** Giving up the last one: the block is dying and its references are to be
    released. *)
Lemma counted_dying ov m R p b : counted ov m (RBlock p :: R) → m !! p = Some (1, b) → p ∉ dom ov →
  counted (<[p := []]> ov) (<[p := (0, b)]> m) (children b ++ R) ∧
  cnt p ((children b ++ R) ++ edges (<[p := []]> ov) (<[p := (0, b)]> m)) = 0.
Proof.
  intros C E Hp. set (m1 := <[p := (0, b)]> m).
  assert (edges (<[p := []]> ov) m1 ≡ₚ edges ov (delete p m)) as He.
  { rewrite (edges_ov ov m1 p 0 b) by apply lookup_insert_eq. unfold m1. rewrite delete_insert_eq. done. }
  assert (edges ov m ≡ₚ children b ++ edges ov (delete p m)) as He0.
  { rewrite (edges_delete _ _ _ _ _ E). unfold kids. apply not_elem_of_dom in Hp. by rewrite Hp. }
  assert ((children b ++ R) ++ edges (<[p := []]> ov) m1 ≡ₚ R ++ edges ov m) as Ht.
  { rewrite He, He0, (Permutation_app_comm (children b) R), <- app_assoc. done. }
  pose proof (ct_count _ _ _ C _ _ _ E) as Hc. cbn [app cnt] in Hc. rewrite bool_decide_true in Hc by done.
  split; [|rewrite Ht; lia]. split.
  - intros q. rewrite Ht. intros Hq. unfold m1. destruct (decide (q = p)) as [->|Hne]; [by rewrite lookup_insert_eq|].
    rewrite lookup_insert_ne by done. apply (ct_alive _ _ _ C). cbn [app cnt]. case_bool_decide; lia.
  - intros q rc' b'. rewrite Ht. unfold m1. destruct (decide (q = p)) as [->|Hne].
    + rewrite lookup_insert_eq. intros [= <- <-]. lia.
    + rewrite lookup_insert_ne by done. intros E'. rewrite (ct_count _ _ _ C _ _ _ E'). cbn [app cnt]. rewrite bool_decide_false; [lia|congruence].
  - intros q rc' b' Hq Hd. rewrite dom_insert_L in Hd. unfold m1 in Hq. rewrite lookup_insert_ne in Hq by set_solver. eapply (ct_pos _ _ _ C); set_solver.
  - rewrite Ht. pose proof (ct_len _ _ _ C) as Hl. cbn [app] in Hl. rewrite zlen_cons in Hl. lia.
Qed.

(** A dying block is freed. *)
Lemma counted_free ov m R p b : counted (<[p := []]> ov) m R → m !! p = Some (0, b) → p ∉ dom ov → counted ov (delete p m) R.
Proof.
  intros C E Hp. assert (edges (<[p := []]> ov) m ≡ₚ edges ov (delete p m)) as He by (by rewrite (edges_ov ov m p 0 b)).
  pose proof (ct_count _ _ _ C _ _ _ E) as Hc. split.
  - intros q. rewrite <- He. intros Hq. destruct (decide (q = p)) as [->|Hne]; [lia|]. rewrite lookup_delete_ne by done. by apply (ct_alive _ _ _ C).
  - intros q rc' b' [Hne E']%lookup_delete_Some. rewrite <- He. by apply (ct_count _ _ _ C _ _ b').
  - intros q rc' b' [Hne E']%lookup_delete_Some Hd. eapply (ct_pos _ _ _ C); [done|]. rewrite dom_insert_L. set_solver.
  - rewrite <- He. apply (ct_len _ _ _ C).
Qed.

(** ** Releasing *)

Lemma counted_drop ov m R r : (∀ p, r ≠ RBlock p) → counted ov m (r :: R) → counted ov m R.
Proof.
  intros Hr [H1 H2 H3 H4]. assert (∀ p, cnt p (R ++ edges ov m) = cnt p ((r :: R) ++ edges ov m)) as E.
  { intros p. cbn [app cnt]. rewrite bool_decide_false; [lia|apply Hr]. }
  split; [intros p; rewrite E; apply H1|intros p rc b; rewrite E; apply H2|done|]. cbn [app] in H4. rewrite zlen_cons in H4. lia.
Qed.

Lemma released_refl ov m R : counted ov m R → released ov m m R.
Proof. intros C. split; [done|eauto|done|]. exists []. by rewrite app_nil_r. Qed.

Lemma released_trans ov m1 m2 m3 R R' : released ov m1 m2 R → released ov m2 m3 R' → released ov m1 m3 R'.
Proof.
  intros [A1 A2 A3 [g A4]] [B1 B2 B3 [g' B4]]. split; [done|..].
  - intros p rc b (rc1 & E)%B2. by eapply A2.
  - intros p Hp Hm. apply B3; [done|]. by apply A3.
  - exists (g' ++ g). by rewrite A4, B4, app_assoc.
Qed.

Lemma released_dom ov m m' R : released ov m m' R → dom m' ⊆ dom m.
Proof.
  intros Hr p [[rc b] E]%elem_of_dom. destruct (rl_body _ _ _ _ Hr _ _ _ E) as [rc0 E0]. by eapply elem_of_dom_2.
Qed.

Lemma json_delete_children d p b H : json_delete d p b H = (H ← release d (children b) H; Val (free_block p H)).
Proof. by destruct b. Qed.

Definition safe_release (d : ref → heap → exec heap) (P : gmap positive (list ref) → blocks_t → Prop) : Prop := ∀ ov H r R,
  counted ov (blocks H) (r :: R) → held ov (blocks H) (r :: R) R → P ov (blocks H) →
  ∃ H', d r H = Val H' ∧ released ov (blocks H) (blocks H') R ∧ next_block H' = next_block H.

Lemma release_safe d P : safe_release d P → (∀ ov m m', P ov m → dom m' ⊆ dom m → P ov m') → ∀ l ov H R,
  counted ov (blocks H) (l ++ R) → held ov (blocks H) (l ++ R) R → P ov (blocks H) →
  ∃ H', release d l H = Val H' ∧ released ov (blocks H) (blocks H') R ∧ next_block H' = next_block H.
Proof.
  intros Hd HP. induction l as [|r l IH]; intros ov H R C Hh Hs.
  { exists H. split; [done|]. split; [by apply released_refl|done]. }
  cbn [release]. destruct (Hd ov H r (l ++ R) C) as (H1 & E1 & R1 & N1); [|done|].
  { intros p Hp. destruct (Hh p Hp) as [?|?]; [left; apply elem_of_app; by right|by right]. }
  rewrite E1, bind_Val. destruct (IH ov H1 R (rl_counted _ _ _ _ R1)) as (H2 & E2 & R2 & N2).
  - intros p Hp. destruct (Hh p Hp) as [?|E]; [by left|right]. pose proof (rl_mono _ _ _ _ R1 p) as Hm.
    rewrite cnt_app in *. cbn [app cnt] in E. pose proof (cnt_nonneg p (l ++ R)). pose proof (cnt_nonneg p (edges ov (blocks H1))).
    case_bool_decide; lia.
  - eapply HP; [done|]. by eapply released_dom.
  - exists H2. split; [done|]. split; [by eapply released_trans|]. by rewrite N2.
Qed.

(** A deletion is nested once per block that is not dying yet. *)
Definition deep_enough (fuel : nat) ov m : Prop := (size (dom m ∖ dom ov) < fuel)%nat.

Lemma deep_enough_mono fuel ov m m' : deep_enough fuel ov m → dom m' ⊆ dom m → deep_enough fuel ov m'.
Proof. intros Hs Hd. eapply Nat.le_lt_trans, Hs. apply subseteq_size. set_solver. Qed.

Lemma decref_safe fuel : safe_release (decref fuel) (deep_enough fuel).
Proof.
  induction fuel as [|fuel IH]; intros ov H r R C Hh Hs; [unfold deep_enough in Hs; lia|]. destruct r as [| | |p]; cbn [decref].
  1-3: exists H; split; [done|]; split; [|done]; apply released_refl; eapply counted_drop; [|exact C]; done.
  destruct (counted_deref ov H (RBlock p :: R) p C) as (rc & b & Ed & E & Hc & Hr); [constructor|].
  rewrite Ed, bind_Val. unfold IMMORTAL in *. destruct (rc =? 2 ^ 64 - 1) eqn:Ei; [blia|]. clear Ei.
  rewrite wrap_small by (unfold is_u; lia). destruct (rc - 1 =? 0) eqn:Ez.
  2: { eexists. split; [done|]. split; [|done]. cbn [set_block blocks]. split.
    - apply counted_minus; [done|done|blia].
    - intros q rc' b'. destruct (decide (q = p)) as [->|Hne]; [rewrite lookup_insert_eq; intros [= <- <-]; eauto|].
      rewrite lookup_insert_ne by done. eauto.
    - intros q _ Hq. rewrite dom_insert_L. set_solver.
    - exists []. by rewrite app_nil_r, (edges_count ov _ p rc (rc - 1) b E). }
  assert (rc = 1) as -> by blia. clear Ez. change (1 - 1) with 0.
  assert (p ∉ dom ov) as Hp.
  { intros Hp. cbn [app cnt] in Hc. rewrite bool_decide_true in Hc by done. destruct (Hh p Hp) as [Hin|E0].
    - apply cnt_elem in Hin. rewrite cnt_app in Hc. pose proof (cnt_nonneg p (edges ov (blocks H))). lia.
    - cbn [app cnt] in E0. rewrite bool_decide_true in E0 by done. lia. }
  destruct (counted_dying ov (blocks H) R p b C E Hp) as [C1 Z1]. set (H1 := set_block p 0 b H). set (ov1 := <[p := []]> ov) in *.
  change (<[p := (0, b)]> (blocks H)) with (blocks H1) in *. rewrite json_delete_children.
  assert (blocks H1 !! p = Some (0, b)) as E1 by apply lookup_insert_eq.
  assert (dom (blocks H1) = dom (blocks H)) as Hdom by (unfold H1; cbn [set_block blocks]; rewrite dom_insert_L; apply elem_of_dom_2 in E; set_solver).
  destruct (release_safe _ _ IH (deep_enough_mono fuel) (children b) ov1 H1 R C1) as (H2 & E2 & R2 & N2).
  - intros q Hq. unfold ov1 in Hq. rewrite dom_insert_L in Hq. destruct (decide (q = p)) as [->|Hne]; [by right|].
    destruct (Hh q ltac:(set_solver)) as [?|E0]; [by left|right]. cbn [app cnt] in E0. rewrite bool_decide_false in E0 by congruence.
    assert ((children b ++ R) ++ edges ov1 (blocks H1) ≡ₚ R ++ edges ov (blocks H)) as ->; [|lia].
    unfold ov1. rewrite (edges_ov _ _ _ _ _ _ E1). unfold H1. cbn [set_block blocks]. rewrite delete_insert_eq.
    rewrite (edges_delete _ _ _ _ _ E). unfold kids. apply not_elem_of_dom in Hp. rewrite Hp. cbn [app default from_option id].
    by rewrite (Permutation_app_comm (children b) R), <- app_assoc.
  - unfold deep_enough, ov1 in *. rewrite Hdom, dom_insert_L. assert (dom (blocks H) ∖ ({[p]} ∪ dom ov) ⊂ dom (blocks H) ∖ dom ov) as Hsub%subset_size; [|lia].
    apply elem_of_dom_2 in E. set_solver.
  - rewrite E2, bind_Val. eexists. split; [done|]. cbn [free_block blocks next_block]. split; [|done].
    assert (p ∈ dom (blocks H2)) as Hp2 by (apply (rl_keep _ _ _ _ R2); [unfold ov1; rewrite dom_insert_L; set_solver|by eapply elem_of_dom_2]).
    apply elem_of_dom in Hp2 as [[rc2 b2] Eb]. destruct (rl_body _ _ _ _ R2 _ _ _ Eb) as [rc0 Eb0]. rewrite E1 in Eb0. injection Eb0 as <- <-.
    pose proof (ct_count _ _ _ (rl_counted _ _ _ _ R2) _ _ _ Eb) as Hrc. pose proof (rl_mono _ _ _ _ R2 p) as Hm.
    assert (rc2 = 0) as ->. { rewrite !cnt_app in *. pose proof (cnt_nonneg p R). pose proof (cnt_nonneg p (children b)). pose proof (cnt_nonneg p (edges ov1 (blocks H2))). lia. }
    split.
    + eapply counted_free; [apply (rl_counted _ _ _ _ R2)|done|done].
    + intros q rc' b' [Hne Eq]%lookup_delete_Some. destruct (rl_body _ _ _ _ R2 _ _ _ Eq) as [rc1 Eq1]. exists rc1.
      unfold H1 in Eq1. cbn [set_block blocks] in Eq1. by rewrite lookup_insert_ne in Eq1.
    + intros q Hq Hm1. rewrite dom_delete_L. apply elem_of_difference. split; [|set_solver].
      apply (rl_keep _ _ _ _ R2); [unfold ov1; rewrite dom_insert_L; set_solver|by rewrite Hdom].
    + destruct (rl_sub _ _ _ _ R2) as [g Hg]. exists (g ++ kids ov p b). unfold ov1 in Hg.
      rewrite (edges_ov _ _ _ _ _ _ Eb), (edges_ov _ _ _ _ _ _ E1) in Hg. cbn [app] in Hg.
      unfold H1 in Hg. cbn [set_block blocks] in Hg. rewrite delete_insert_eq in Hg.
      by rewrite (edges_delete ov _ p 1 b E), Hg, Permutation_app_comm, app_assoc.
Qed.

Lemma json_decref_safe : safe_release json_decref (λ _ _, True).
Proof.
  intros ov H r R C Hh _. apply decref_safe; [done|done|]. unfold deep_enough. rewrite <- size_dom.
  apply Nat.lt_succ_r, subseteq_size. set_solver.
Qed.

Lemma release_all_safe l ov H R : counted ov (blocks H) (l ++ R) → held ov (blocks H) (l ++ R) R →
  ∃ H', release json_decref l H = Val H' ∧ released ov (blocks H) (blocks H') R ∧ next_block H' = next_block H.
Proof. intros C Hh. by apply (release_safe json_decref (λ _ _, True) json_decref_safe). Qed.

(** ** Changing the content of a block *)

(** A block whose owned references become [l] while [R1] takes the others over. *)
Lemma counted_freeze m R0 R1 p rc b l : counted ∅ m R0 → m !! p = Some (rc, b) → R1 ++ l ≡ₚ R0 ++ children b →
  counted {[p := l]} m R1.
Proof.
  intros C E Hp. assert (R1 ++ edges {[p := l]} m ≡ₚ R0 ++ edges ∅ m) as He.
  { change {[p := l]} with (<[p := l]> (∅ : gmap positive (list ref))). rewrite (edges_ov _ _ _ _ _ _ E), (edges_delete _ _ _ _ _ E), !app_assoc, Hp. done. }
  destruct C as [C1 C2 C3 C4]. split.
  - intros q. rewrite He. apply C1.
  - intros q rc' b'. rewrite He. apply C2.
  - intros q rc' b' Hq _. eapply C3; [done|set_solver].
  - by rewrite He.
Qed.

(** The new content of that block. *)
Lemma counted_thaw m R1 R2 p rc b b' l : counted {[p := l]} m R1 → m !! p = Some (rc, b) → RBlock p ∈ R1 →
  R2 ++ children b' ≡ₚ R1 ++ l → counted ∅ (<[p := (rc, b')]> m) R2.
Proof.
  intros C E Hin Hp. assert (R2 ++ edges ∅ (<[p := (rc, b')]> m) ≡ₚ R1 ++ edges {[p := l]} m) as He.
  { change {[p := l]} with (<[p := l]> (∅ : gmap positive (list ref))). rewrite (edges_ov _ _ _ _ _ _ E), edges_set, !app_assoc.
    unfold kids. rewrite lookup_empty. cbn [default from_option id]. by rewrite Hp. }
  destruct C as [C1 C2 C3 C4]. split.
  - intros q. rewrite He. intros Hq. destruct (decide (q = p)) as [->|Hne]; [by rewrite lookup_insert_eq|]. rewrite lookup_insert_ne by done. by apply C1.
  - intros q rc' b0. rewrite He. destruct (decide (q = p)) as [->|Hne]; [rewrite lookup_insert_eq; intros [= <- <-]; by eapply C2|].
    rewrite lookup_insert_ne by done. apply C2.
  - intros q rc' b0 Hq _. destruct (decide (q = p)) as [->|Hne].
    + rewrite lookup_insert_eq in Hq. injection Hq as <- <-. rewrite (C2 _ _ _ E). apply cnt_elem, elem_of_app. by left.
    + rewrite lookup_insert_ne in Hq by done. eapply C3; [done|]. rewrite dom_singleton_L. set_solver.
  - by rewrite He.
Qed.

Lemma counted_body m R0 R1 p rc b b' : counted ∅ m R0 → m !! p = Some (rc, b) → R1 ++ children b' ≡ₚ R0 ++ children b →
  counted ∅ (<[p := (rc, b')]> m) R1.
Proof.
  intros C E Hp. assert (R1 ++ edges ∅ (<[p := (rc, b')]> m) ≡ₚ R0 ++ edges ∅ m) as He.
  { rewrite edges_set, (edges_delete _ _ _ _ _ E), !app_assoc. unfold kids. rewrite !lookup_empty. cbn [default from_option id]. by rewrite Hp. }
  destruct C as [C1 C2 C3 C4]. split.
  - intros q. rewrite He. intros Hq. destruct (decide (q = p)) as [->|Hne]; [by rewrite lookup_insert_eq|]. rewrite lookup_insert_ne by done. by apply C1.
  - intros q rc' b0. rewrite He. destruct (decide (q = p)) as [->|Hne]; [rewrite lookup_insert_eq; intros [= <- <-]; by eapply C2|].
    rewrite lookup_insert_ne by done. apply C2.
  - intros q rc' b0 Hq Hd. destruct (decide (q = p)) as [->|Hne]; [rewrite lookup_insert_eq in Hq; injection Hq as <- <-; by eapply C3|].
    rewrite lookup_insert_ne in Hq by done. by eapply C3.
  - by rewrite He.
Qed.
End Edges.
