(* ===== verification/JsonMemory.v ===== *)
(** * Jansson's memory is safe to use

    A client of [JsonHeap.v] holds references: those a constructor or [json_incref]
    gave it, until it hands them over ([json_decref], the stealing [_new]
    functions). A program of calls that only hands over what it holds, and only
    works on containers that are alive, never touches a freed block, keeps every
    count exact, and leaves nothing behind when it holds nothing any more, unless
    it has tied values into a cycle. *)

From S2P Require Import Prelude Float Utf8 Jansson JsonHeap JsonCounts.
Local Open Scope Z_scope.

(** ** Calls *)

Inductive jcall :=
| CObject (ok : bool)
| CArray (ok : bool)
| CString (value : string) (ok : bool)
| CInteger (value : Z) (ok : bool)
| CReal (value : Z) (ok : bool)
| CIncref (json : ref)
| CDecref (json : ref)
| CSetNew (ok : bool) (json : ref) (key : string) (value : ref)
| CSet (ok : bool) (json : ref) (key : string) (value : ref)
| CDel (json : ref) (key : string)
| CClear (json : ref)
| CAppendNew (ok : bool) (json value : ref)
| CAppend (ok : bool) (json value : ref)
| CArraySetNew (json : ref) (index : Z) (value : ref)
| CInsertNew (ok : bool) (json : ref) (index : Z) (value : ref)
| CRemove (json : ref) (index : Z)
| CArrayClear (json : ref)
| CSetNocheck (ok : bool) (json : ref) (key : string) (value : ref)
| CArraySet (json : ref) (index : Z) (value : ref)
| CInsert (ok : bool) (json : ref) (index : Z) (value : ref)
| CStringSet (ok : bool) (json : ref) (value : string)
| CIntegerSet (json : ref) (value : Z)
| CRealSet (json : ref) (value : Z).

(** The references a call returns. *)
Definition made (x : heap * option ref) : exec (heap * list ref) := Val (fst x, option_list (snd x)).
Definition nothing (m : exec (heap * bool)) : exec (heap * list ref) := '(H, _) ← m; Val (H, []).

Definition jstep (c : jcall) (H : heap) : exec (heap * list ref) :=
  match c with
  | CObject ok => made (json_object ok H)
  | CArray ok => made (json_array ok H)
  | CString value ok => made (json_string value ok H)
  | CInteger value ok => made (json_integer value ok H)
  | CReal value ok => made (json_real value ok H)
  | CIncref r => H ← json_incref r H; Val (H, [r])
  | CDecref r => H ← json_decref r H; Val (H, [])
  | CSetNew ok json key value => nothing (json_object_set_new ok json key value H)
  | CSet ok json key value => nothing (json_object_set ok json key value H)
  | CDel json key => nothing (json_object_del json key H)
  | CClear json => nothing (json_object_clear json H)
  | CAppendNew ok json value => nothing (json_array_append_new ok json value H)
  | CAppend ok json value => nothing (json_array_append ok json value H)
  | CArraySetNew json index value => nothing (json_array_set_new json index value H)
  | CInsertNew ok json index value => nothing (json_array_insert_new ok json index value H)
  | CRemove json index => nothing (json_array_remove json index H)
  | CArrayClear json => nothing (json_array_clear json H)
  | CSetNocheck ok json key value => nothing (json_object_set_nocheck ok json key value H)
  | CArraySet json index value => nothing (json_array_set json index value H)
  | CInsert ok json index value => nothing (json_array_insert ok json index value H)
  | CStringSet ok json value => nothing (json_string_set ok json value H)
  | CIntegerSet json value => nothing (json_integer_set json value H)
  | CRealSet json value => nothing (json_real_set json value H)
  end.

(** The reference a call takes over. *)
Definition spent (c : jcall) : option ref :=
  match c with
  | CDecref r | CSetNew _ _ _ r | CAppendNew _ _ r | CArraySetNew _ _ r | CInsertNew _ _ _ r => Some r
  | _ => None
  end.

Definition alive (r : ref) (H : heap) : bool :=
  match r with RBlock p => bool_decide (is_Some (blocks H !! p)) | _ => true end.

(** The table of an object has no such key. *)
Definition absent (json : ref) (key : string) (H : heap) : bool :=
  match json with
  | RBlock p =>
      match blocks H !! p with
      | Some (_, BObject h) => bool_decide (hashtable_get h key = None)
      | _ => true
      end
  | _ => true
  end.

(** The object can take a pair without a rehash, or there is memory for one. *)
Definition room (ok : bool) (json : ref) (H : heap) : bool :=
  ok || match json with
        | RBlock p => match blocks H !! p with Some (_, BObject h) => negb (rehash_due h) | _ => true end
        | _ => true
        end.

(** What the caller must see to, when it keeps [R]: the container lives, and is its
    own where the call releases something that was stored in it; no rehash fails;
    an index is a [size_t]. *)
Definition allowed (c : jcall) (H : heap) (R : list ref) : bool :=
  match c with
  | CIncref r => alive r H
  | CSetNew ok json key _ => alive json H && (bool_decide (json ∈ R) || absent json key H) && room ok json H
  | CSet ok json key value | CSetNocheck ok json key value => alive value H && alive json H && (bool_decide (json ∈ R) || absent json key H) && room ok json H
  | CAppendNew _ json _ | CInsertNew _ json _ _ => alive json H
  | CAppend _ json value | CInsert _ json _ value => alive value H && alive json H
  | CArraySet json index value => alive value H && bool_decide (json ∈ R) && (0 <=? index)
  | CStringSet _ json _ | CIntegerSet json _ | CRealSet json _ => alive json H
  | CDel json _ | CClear json | CArrayClear json => bool_decide (json ∈ R)
  | CArraySetNew json index _ | CRemove json index => bool_decide (json ∈ R) && (0 <=? index)
  | _ => true
  end.

Fixpoint take_ref (r : ref) (R : list ref) : option (list ref) :=
  match R with
  | [] => None
  | x :: R => if bool_decide (x = r) then Some R else option_map (cons x) (take_ref r R)
  end.

Definition keep (c : jcall) (R : list ref) : option (list ref) :=
  match spent c with Some r => take_ref r R | None => Some R end.

(** [None] when the program breaks the rules. *)
Fixpoint jrun (cs : list jcall) (H : heap) (R : list ref) : exec (option (heap * list ref)) :=
  match cs with
  | [] => Val (Some (H, R))
  | c :: cs =>
      match keep c R with
      | Some R =>
          if allowed c H R then '(H, g) ← jstep c H; jrun cs H (g ++ R)
          else Val None
      | None => Val None
      end
  end.

Definition no_blocks : heap := mkJson ∅ 1.

(** [{"sys": {"type": "c"}}] as the handshake builds it, with [sys] filled after it
    was handed over; two arrays that contain each other are never freed. *)
Example jrun_examples :
  let body := RBlock 1 in
  let sys := RBlock 2 in
  let type := RBlock 3 in
  jrun [CObject true; CObject true; CSet true body "sys" sys; CDecref sys; CString "c" true; CSet true sys "type" type;
        CDecref type; CDecref body] no_blocks [] = Val (Some (mkJson ∅ 4, [])) ∧
  (r ← jrun [CArray true; CArray true; CAppend true body sys; CAppend true sys body; CDecref body; CDecref sys] no_blocks [];
   Val (option_map (λ x, (size (blocks (fst x)), snd x)) r)) = Val (Some (2%nat, [])) ∧
  jrun [CObject true; CDecref body; CDecref body] no_blocks [] = Val None.
Proof. vm_compute. done. Qed.

(** ** The invariant *)

Definition wf_body (b : body) : Prop := match b with BObject h => ht_wf h | _ => True end.

Record good (n : Z) (H : heap) (R : list ref) : Prop := {
  gd_counted : counted ∅ (blocks H) R;
  gd_fresh : ∀ p, p ∈ dom (blocks H) → (p < next_block H)%positive;
  gd_wf : ∀ p rc b, blocks H !! p = Some (rc, b) → wf_body b;
  gd_weight : zlen (R ++ edges ∅ (blocks H)) ≤ n
}.

Lemma good_perm n H R R' : R ≡ₚ R' → good n H R → good n H R'.
Proof. intros Hp [H1 H2 H3 H4]. split; [by eapply counted_perm|done|done|by rewrite <- Hp]. Qed.

Lemma good_le n n' H R : n ≤ n' → good n H R → good n' H R.
Proof. intros Hn [H1 H2 H3 H4]. split; [done..|lia]. Qed.

Lemma held_none m R0 R : held ∅ m R0 R.
Proof. intros p Hp. set_solver. Qed.

Lemma decref_good n H r R : good n H (r :: R) → ∃ H', json_decref r H = Val H' ∧ good n H' R.
Proof.
  intros G. destruct (json_decref_safe ∅ H r R (gd_counted _ _ _ G) (held_none _ _ _) I) as (H' & E & Rl & Nx).
  exists H'. split; [done|]. split.
  - apply (rl_counted _ _ _ _ Rl).
  - intros p Hp. rewrite Nx. apply (gd_fresh _ _ _ G). by apply (released_dom _ _ _ _ Rl).
  - intros p rc b (rc0 & E0)%(rl_body _ _ _ _ Rl). by eapply (gd_wf _ _ _ G).
  - destruct (rl_sub _ _ _ _ Rl) as [g Hg]. pose proof (gd_weight _ _ _ G) as Hw. rewrite Hg in Hw. cbn [app] in Hw.
    rewrite zlen_cons, !zlen_app in *. pose proof (zlen_nonneg g). lia.
Qed.

(** A block gives up the references [rel], keeps [l] meanwhile, and gets the content
    [b']. *)
Lemma replace_good n H p rc b b' rel l R0 R1 R2 :
  good n H R0 → blocks H !! p = Some (rc, b) → RBlock p ∈ R1 → (rel ++ R1) ++ l ≡ₚ R0 ++ children b →
  R2 ++ children b' ≡ₚ R1 ++ l → wf_body b' →
  ∃ H1 rc', release json_decref rel H = Val H1 ∧ deref p H1 = Val (rc', b) ∧ good n (set_block p rc' b' H1) R2.
Proof.
  intros G E Hin Hp1 Hp2 Hw. pose proof (counted_freeze _ _ (rel ++ R1) p rc b l (gd_counted _ _ _ G) E Hp1) as C.
  destruct (release_all_safe rel {[p := l]} H R1 C) as (H1 & Er & Rl & Nx).
  { intros q Hq. rewrite dom_singleton_L in Hq. assert (q = p) as -> by set_solver. by left. }
  assert (p ∈ dom (blocks H1)) as Hp by (apply (rl_keep _ _ _ _ Rl); [rewrite dom_singleton_L; set_solver|by eapply elem_of_dom_2]).
  apply elem_of_dom in Hp as [[rc' b1] E1]. destruct (rl_body _ _ _ _ Rl _ _ _ E1) as [rc0 E0]. rewrite E in E0. injection E0 as <- <-.
  exists H1, rc'. split; [done|]. split; [unfold deref; by rewrite E1|].
  assert (counted ∅ (<[p := (rc', b')]> (blocks H1)) R2) as C2 by (eapply counted_thaw; [apply (rl_counted _ _ _ _ Rl)|done|done|done]).
  split; [done|..].
  - intros q Hq. cbn [set_block blocks next_block] in *. rewrite Nx. apply (gd_fresh _ _ _ G). rewrite dom_insert_L in Hq.
    pose proof (released_dom _ _ _ _ Rl). apply elem_of_dom_2 in E. set_solver.
  - intros q rcq bq Eq. cbn [set_block blocks] in Eq. destruct (decide (q = p)) as [->|Hne].
    + rewrite lookup_insert_eq in Eq. by injection Eq as <- <-.
    + rewrite lookup_insert_ne in Eq by done. destruct (rl_body _ _ _ _ Rl _ _ _ Eq) as [rq Eq']. by eapply (gd_wf _ _ _ G).
  - cbn [set_block blocks]. destruct (rl_sub _ _ _ _ Rl) as [g Hg]. pose proof (gd_weight _ _ _ G) as Hwt.
    assert (R2 ++ edges ∅ (<[p := (rc', b')]> (blocks H1)) ≡ₚ R1 ++ edges {[p := l]} (blocks H1)) as He.
    { change {[p := l]} with (<[p := l]> (∅ : gmap positive (list ref))). rewrite (edges_ov _ _ _ _ _ _ E1), edges_set, !app_assoc.
      unfold kids. rewrite lookup_empty. cbn [default from_option id]. by rewrite Hp2. }
    assert (rel ++ R1 ++ edges {[p := l]} (blocks H) ≡ₚ R0 ++ edges ∅ (blocks H)) as He0.
    { change {[p := l]} with (<[p := l]> (∅ : gmap positive (list ref))). rewrite (edges_ov _ _ _ _ _ _ E), (edges_delete ∅ _ _ _ _ E), !app_assoc.
      unfold kids. rewrite lookup_empty. cbn [default from_option id]. by rewrite Hp1. }
    rewrite He. rewrite <- He0, Hg in Hwt. rewrite !zlen_app in *. pose proof (zlen_nonneg g). pose proof (zlen_nonneg rel). lia.
Qed.

(** Only the content changes. *)
Lemma store_good n H p rc b b' R0 R1 :
  good n H R0 → blocks H !! p = Some (rc, b) → R1 ++ children b' ≡ₚ R0 ++ children b → wf_body b' →
  good n (set_block p rc b' H) R1.
Proof.
  intros G E Hp Hw. split; cbn [set_block blocks next_block].
  - by eapply counted_body; [apply (gd_counted _ _ _ G)|..].
  - intros q Hq. apply (gd_fresh _ _ _ G). rewrite dom_insert_L in Hq. apply elem_of_dom_2 in E. set_solver.
  - intros q rcq bq Eq. destruct (decide (q = p)) as [->|Hne].
    + rewrite lookup_insert_eq in Eq. by injection Eq as <- <-.
    + rewrite lookup_insert_ne in Eq by done. by eapply (gd_wf _ _ _ G).
  - pose proof (gd_weight _ _ _ G) as Hwt. assert (R1 ++ edges ∅ (<[p := (rc, b')]> (blocks H)) ≡ₚ R0 ++ edges ∅ (blocks H)) as ->; [|done].
    rewrite edges_set, (edges_delete _ _ _ _ _ E), !app_assoc. unfold kids. rewrite !lookup_empty. cbn [default from_option id]. by rewrite Hp.
Qed.

Lemma create_good n H R b ok : good n H R → n + 1 < 2 ^ 63 → children b = [] → wf_body b →
  good (n + 1) (fst (create b ok H)) (option_list (snd (create b ok H)) ++ R).
Proof.
  intros G Hn Hc Hw. destruct ok; cbn [create alloc_block fst snd]; [|eapply good_le, G; lia].
  change (option_list (Some ?r) ++ R) with (r :: R).
  set (p := next_block H). assert (blocks H !! p = None) as Hf.
  { apply not_elem_of_dom. intros Hp%(gd_fresh _ _ _ G). unfold p in Hp. lia. }
  assert (edges ∅ (<[p := (1, b)]> (blocks H)) ≡ₚ edges ∅ (blocks H)) as He.
  { rewrite edges_insert by done. unfold kids. rewrite lookup_empty. cbn [default from_option id]. by rewrite Hc. }
  assert (cnt p (R ++ edges ∅ (blocks H)) = 0) as H0.
  { pose proof (cnt_nonneg p (R ++ edges ∅ (blocks H))). destruct (decide (0 < cnt p (R ++ edges ∅ (blocks H)))) as [Hlt|]; [|lia].
    apply (ct_alive _ _ _ (gd_counted _ _ _ G)) in Hlt as [? ?]. congruence. }
  pose proof (gd_weight _ _ _ G) as Hwt. split; cbn [blocks next_block].
  - split.
    + intros q. rewrite He. cbn [app cnt]. destruct (decide (q = p)) as [->|Hne]; [by rewrite lookup_insert_eq|].
      rewrite bool_decide_false by congruence. rewrite lookup_insert_ne by done. apply (ct_alive _ _ _ (gd_counted _ _ _ G)).
    + intros q rc b' . rewrite He. cbn [app cnt]. destruct (decide (q = p)) as [->|Hne].
      * rewrite lookup_insert_eq. intros [= <- <-]. rewrite bool_decide_true by done. lia.
      * rewrite lookup_insert_ne by done. rewrite bool_decide_false by congruence. intros E. by apply (ct_count _ _ _ (gd_counted _ _ _ G)) in E.
    + intros q rc b' E Hd. destruct (decide (q = p)) as [->|Hne]; [rewrite lookup_insert_eq in E; injection E as <- <-; lia|].
      rewrite lookup_insert_ne in E by done. by eapply (ct_pos _ _ _ (gd_counted _ _ _ G)).
    + rewrite He. cbn [app]. rewrite zlen_cons. lia.
  - intros q Hq. rewrite dom_insert_L in Hq. apply elem_of_union in Hq as [->%elem_of_singleton|Hq%(gd_fresh _ _ _ G)]; unfold p; lia.
  - intros q rc b' E. destruct (decide (q = p)) as [->|Hne]; [rewrite lookup_insert_eq in E; by injection E as <- <-|].
    rewrite lookup_insert_ne in E by done. by eapply (gd_wf _ _ _ G).
  - rewrite He. cbn [app]. rewrite zlen_cons. lia.
Qed.

Lemma incref_good n H R r : good n H R → n + 1 < 2 ^ 63 → alive r H = true →
  ∃ H', json_incref r H = Val H' ∧ good (n + 1) H' (r :: R) ∧
    (∀ p rc b, blocks H !! p = Some (rc, b) → ∃ rc', blocks H' !! p = Some (rc', b)).
Proof.
  intros G Hn Ha. pose proof (gd_weight _ _ _ G) as Hwt. destruct r as [| | |p]; cbn [json_incref].
  1-3: exists H; split; [done|]; split; [|eauto]; split; [|apply (gd_fresh _ _ _ G)|apply (gd_wf _ _ _ G)|cbn [app]; rewrite zlen_cons; lia];
    destruct (gd_counted _ _ _ G) as [C1 C2 C3 C4]; split; [exact C1|exact C2|exact C3|cbn [app]; rewrite zlen_cons; lia].
  cbn [alive] in Ha. apply bool_decide_eq_true in Ha as [[rc b] E]. unfold deref. rewrite E, bind_Val.
  pose proof (ct_count _ _ _ (gd_counted _ _ _ G) _ _ _ E) as Hc. pose proof (cnt_le p (R ++ edges ∅ (blocks H))) as Hle.
  pose proof (cnt_nonneg p (R ++ edges ∅ (blocks H))) as Hnn.
  unfold IMMORTAL. destruct (rc =? 2 ^ 64 - 1) eqn:Ei; [blia|]. clear Ei. rewrite wrap_small by (unfold is_u; lia).
  eexists. split; [done|]. pose proof (edges_count ∅ (blocks H) p rc (rc + 1) b E) as He.
  assert (∀ q rcq bq, <[p := (rc + 1, b)]> (blocks H) !! q = Some (rcq, bq) →
    ∃ rc0, blocks H !! q = Some (rc0, bq) ∧ rcq = rc0 + (if bool_decide (RBlock p = RBlock q) then 1 else 0)) as Hl.
  { intros q rcq bq. destruct (decide (q = p)) as [->|Hne].
    - rewrite lookup_insert_eq, bool_decide_true by done. intros [= <- <-]. eauto.
    - rewrite lookup_insert_ne, bool_decide_false by congruence. intros Eq. exists rcq. split; [done|lia]. }
  split; [split; cbn [set_block blocks next_block]|]; [split|..].
  - intros q. rewrite He. cbn [app cnt]. destruct (decide (q = p)) as [->|Hne]; [by rewrite lookup_insert_eq|].
    rewrite bool_decide_false, lookup_insert_ne by congruence. apply (ct_alive _ _ _ (gd_counted _ _ _ G)).
  - intros q rcq bq (rc0 & E0 & ->)%Hl. rewrite He, (ct_count _ _ _ (gd_counted _ _ _ G) _ _ _ E0). cbn [app cnt]. lia.
  - intros q rcq bq (rc0 & E0 & ->)%Hl Hd. pose proof (ct_pos _ _ _ (gd_counted _ _ _ G) _ _ _ E0 Hd). case_bool_decide; lia.
  - rewrite He. cbn [app]. rewrite zlen_cons. lia.
  - intros q Hq. apply (gd_fresh _ _ _ G). rewrite dom_insert_L in Hq. apply elem_of_dom_2 in E. set_solver.
  - intros q rcq bq (rc0 & E0 & _)%Hl. by eapply (gd_wf _ _ _ G).
  - rewrite He. cbn [app]. rewrite zlen_cons. lia.
  - intros q rcq bq Eq. cbn [set_block blocks]. destruct (decide (q = p)) as [->|Hne].
    + rewrite lookup_insert_eq. rewrite E in Eq. injection Eq as <- <-. eauto.
    + rewrite lookup_insert_ne by done. eauto.
Qed.

(** ** The operations *)

Section Operations.
Context (n : Z).
Implicit Types (H : heap) (R : list ref) (json value : ref).

Definition fine (m : exec (heap * bool)) R : Prop := ∃ H ok, m = Val (H, ok) ∧ good n H R.

Lemma refuse_good H R value : good n H (value :: R) → fine (refuse value H) R.
Proof. intros (H' & E & G)%decref_good. exists H', false. unfold refuse. by rewrite E. Qed.

Lemma release_one d r H : release d [r] H = d r H.
Proof. cbn [release]. by destruct (d r H). Qed.

Lemma look_alive json H : alive json H = true →
  look json H = Val None ∨ ∃ p rc b, json = RBlock p ∧ blocks H !! p = Some (rc, b) ∧ look json H = Val (Some (p, rc, b)).
Proof.
  destruct json as [| | |p]; [by left..|]. cbn [alive look]. intros [[rc b] E]%bool_decide_eq_true. right. exists p, rc, b.
  unfold deref. by rewrite E.
Qed.

Lemma owned_alive H R json : good n H R → json ∈ R → alive json H = true.
Proof.
  intros G Hin. destruct json as [| | |p]; [done..|]. apply bool_decide_eq_true.
  apply (ct_alive _ _ _ (gd_counted _ _ _ G)), cnt_elem, elem_of_app. by left.
Qed.

Lemma put_object_deref p f H rc h : deref p H = Val (rc, BObject h) → put_object p f H = Val (set_block p rc (BObject (f h)) H).
Proof. intros E. unfold put_object. by rewrite E. Qed.

Lemma put_array_deref p f H rc l : deref p H = Val (rc, BArray l) → put_array p f H = Val (set_block p rc (BArray (f l)) H).
Proof. intros E. unfold put_array. by rewrite E. Qed.

Lemma get_rest (h : hashtable_t ref) key old : hashtable_get h key = Some old → ∃ rest, (ht_list h).*2 ≡ₚ old :: rest.
Proof.
  rewrite get_map. intros E%elem_of_list_to_map_2. apply list_elem_of_split in E as (l1 & l2 & ->).
  exists (l1.*2 ++ l2.*2). rewrite fmap_app, fmap_cons. cbn [snd]. symmetry. apply Permutation_middle.
Qed.

Lemma set_nocheck_good ok json key value H R : good n H (value :: R) → alive json H = true →
  bool_decide (json ∈ R) || absent json key H = true → room ok json H = true → fine (json_object_set_new_nocheck ok json key value H) R.
Proof.
  intros G Ha Hk Hroom. unfold json_object_set_new_nocheck.
  destruct (look_alive json H Ha) as [->|(p & rc & b & -> & E & ->)]; rewrite bind_Val; [by apply refuse_good|].
  destruct b as [h|l|s|z|d]; try by apply refuse_good. destruct (bool_decide (RBlock p = value)); [by apply refuse_good|].
  replace (negb ok && rehash_due h) with false
    by (unfold room in Hroom; rewrite E in Hroom; by destruct ok, (rehash_due h)).
  destruct (negb ok && _); [by apply refuse_good|]. pose proof (gd_wf _ _ _ G _ _ _ E) as Hw. cbn [wf_body] in Hw.
  pose proof (set_values h key value Hw) as Hv. destruct (set_map h key value Hw) as [Hw' _].
  destruct (hashtable_get h key) as [old|] eqn:Eg; cbn [from_option app] in Hv.
  - apply orb_true_iff in Hk as [Hin%bool_decide_eq_true|Hab].
    2: { cbn [absent] in Hab. rewrite E in Hab. apply bool_decide_eq_true in Hab. congruence. }
    destruct (get_rest _ _ _ Eg) as [rest Hr]. rewrite Hr, perm_swap in Hv. apply Permutation_cons_inv in Hv.
    destruct (replace_good n H p rc (BObject h) (BObject (hashtable_set h key value)) [old] rest (value :: R) (value :: R) R G E)
      as (H1 & rc' & E1 & Ed & G1).
    + by constructor.
    + cbn [children app]. rewrite Hr. apply (Permutation_middle (value :: R)).
    + cbn [children app]. rewrite Hv. symmetry. apply Permutation_middle.
    + done.
    + rewrite release_one in E1. rewrite E1, bind_Val, (put_object_deref _ _ _ _ _ Ed), bind_Val. by eexists _, _.
  - rewrite bind_Val. assert (deref p H = Val (rc, BObject h)) as Ed by (unfold deref; by rewrite E).
    rewrite (put_object_deref _ _ _ _ _ Ed), bind_Val. eexists _, _. split; [done|].
    eapply (store_good n H p rc (BObject h)); [exact G|done| |done]. cbn [children]. rewrite Hv, <- Permutation_middle. done.
Qed.

Lemma set_new_good ok json key value H R : good n H (value :: R) → alive json H = true →
  bool_decide (json ∈ R) || absent json key H = true → room ok json H = true → fine (json_object_set_new ok json key value H) R.
Proof.
  intros G Ha Hk Hroom. unfold json_object_set_new. destruct (negb _); [by apply refuse_good|by apply set_nocheck_good].
Qed.

Lemma del_good json key H R : good n H R → json ∈ R → fine (json_object_del json key H) R.
Proof.
  intros G Hin. unfold json_object_del. pose proof (owned_alive _ _ _ G Hin) as Ha.
  destruct (look_alive json H Ha) as [->|(p & rc & b & -> & E & ->)]; rewrite bind_Val; [by eexists _, _|].
  destruct b as [h|l|s|z|d]; try by eexists _, _. pose proof (gd_wf _ _ _ G _ _ _ E) as Hw. cbn [wf_body] in Hw.
  pose proof (del_ok h key Hw) as Hd. destruct (hashtable_del h key) as [h'|], (hashtable_get h key) as [v|]; try done; [|by eexists _, _].
  destruct Hd as [Hw' Hp]. apply (fmap_Permutation snd) in Hp. cbn [fmap list_fmap snd] in Hp.
  destruct (decref_good n (set_block p rc (BObject h') H) v R) as (H1 & E1 & G1).
  - eapply (store_good n H p rc (BObject h)); [exact G|done| |done]. cbn [children]. rewrite <- Hp. cbn [app]. symmetry. rewrite <- Permutation_middle. done.
  - rewrite E1, bind_Val. by eexists _, _.
Qed.

Lemma clear_good json H R : good n H R → json ∈ R → fine (json_object_clear json H) R.
Proof.
  intros G Hin. unfold json_object_clear. pose proof (owned_alive _ _ _ G Hin) as Ha.
  destruct (look_alive json H Ha) as [->|(p & rc & b & -> & E & ->)]; rewrite bind_Val; [by eexists _, _|].
  destruct b as [h|l|s|z|d]; try by eexists _, _.
  destruct (replace_good n H p rc (BObject h) (BObject (hashtable_clear h)) (ht_list h).*2 [] R R R G E Hin) as (H1 & rc' & E1 & Ed & G1).
  - cbn [children]. rewrite app_nil_r. apply Permutation_app_comm.
  - done.
  - apply NoDup_nil_2.
  - rewrite E1, bind_Val, (put_object_deref _ _ _ _ _ Ed), bind_Val. by eexists _, _.
Qed.

Lemma append_good ok json value H R : good n H (value :: R) → alive json H = true → fine (json_array_append_new ok json value H) R.
Proof.
  intros G Ha. unfold json_array_append_new.
  destruct (look_alive json H Ha) as [->|(p & rc & b & -> & E & ->)]; rewrite bind_Val; [by apply refuse_good|].
  destruct b as [h|l|s|z|d]; try by apply refuse_good. destruct (bool_decide (RBlock p = value)); [by apply refuse_good|].
  destruct ok; cbn [negb]; [|by apply refuse_good]. eexists _, _. split; [done|].
  eapply (store_good n H p rc (BArray l)); [exact G|done| |done]. cbn [children app]. rewrite app_assoc. symmetry. apply Permutation_cons_append.
Qed.

Lemma insert_good ok json index value H R : good n H (value :: R) → alive json H = true →
  fine (json_array_insert_new ok json index value H) R.
Proof.
  intros G Ha. unfold json_array_insert_new.
  destruct (look_alive json H Ha) as [->|(p & rc & b & -> & E & ->)]; rewrite bind_Val; [by apply refuse_good|].
  destruct b as [h|l|s|z|d]; try by apply refuse_good. destruct (bool_decide (RBlock p = value)); [by apply refuse_good|].
  destruct (index >? zlen l); [by apply refuse_good|]. destruct ok; cbn [negb]; [|by apply refuse_good]. eexists _, _. split; [done|].
  eapply (store_good n H p rc (BArray l)); [exact G|done| |done]. cbn [children app].
  rewrite <- Permutation_middle, take_drop, <- Permutation_middle. done.
Qed.

Lemma array_set_good json index value H R : good n H (value :: R) → json ∈ R → 0 ≤ index →
  fine (json_array_set_new json index value H) R.
Proof.
  intros G Hin Hi. unfold json_array_set_new. assert (alive json H = true) as Ha by (eapply owned_alive; [exact G|by constructor]).
  destruct (look_alive json H Ha) as [->|(p & rc & b & -> & E & ->)]; rewrite bind_Val; [by apply refuse_good|].
  destruct b as [h|l|s|z|d]; try by apply refuse_good. destruct (bool_decide (RBlock p = value)); [by apply refuse_good|].
  destruct (index >=? zlen l) eqn:El; [by apply refuse_good|]. destruct (l !! Z.to_nat index) as [old|] eqn:Eo.
  2: { apply lookup_ge_None in Eo. unfold zlen in El. blia. }
  apply list_elem_of_split_length in Eo as Hs. destruct Hs as (l1 & l2 & -> & Hl1).
  destruct (replace_good n H p rc (BArray (l1 ++ old :: l2)) (BArray (<[Z.to_nat index := value]> (l1 ++ old :: l2))) [old] (l1 ++ l2) (value :: R) (value :: R) R G E)
    as (H1 & rc' & E1 & Ed & G1).
  - by constructor.
  - cbn [children app]. rewrite <- !Permutation_middle. apply perm_swap.
  - cbn [children app]. replace (Z.to_nat index) with (length l1 + 0)%nat by lia. rewrite insert_app_r. cbn. rewrite <- !Permutation_middle. done.
  - done.
  - rewrite release_one in E1. rewrite E1, bind_Val, (put_array_deref _ _ _ _ _ Ed), bind_Val. by eexists _, _.
Qed.

Lemma remove_good json index H R : good n H R → json ∈ R → 0 ≤ index → fine (json_array_remove json index H) R.
Proof.
  intros G Hin Hi. unfold json_array_remove. pose proof (owned_alive _ _ _ G Hin) as Ha.
  destruct (look_alive json H Ha) as [->|(p & rc & b & -> & E & ->)]; rewrite bind_Val; [by eexists _, _|].
  destruct b as [h|l|s|z|d]; try by eexists _, _. destruct (index >=? zlen l) eqn:El; [by eexists _, _|].
  destruct (l !! Z.to_nat index) as [old|] eqn:Eo. 2: { apply lookup_ge_None in Eo. unfold zlen in El. blia. }
  set (l' := take (Z.to_nat index) l ++ drop (S (Z.to_nat index)) l).
  assert (l ≡ₚ old :: l') as Hp. { rewrite <- (take_drop_middle l (Z.to_nat index) old) at 1 by done. symmetry. apply Permutation_middle. }
  destruct (replace_good n H p rc (BArray l) (BArray l') [old] l' R R R G E Hin) as (H1 & rc' & E1 & Ed & G1).
  - cbn [children app]. rewrite Hp. apply Permutation_middle.
  - done.
  - done.
  - rewrite release_one in E1. rewrite E1, bind_Val, (put_array_deref _ _ _ _ _ Ed), bind_Val. by eexists _, _.
Qed.

Lemma simple_set_good (m : exec (heap * bool)) json H R (f : body → option body) : good n H R → alive json H = true →
  (∀ b b', f b = Some b' → children b = [] ∧ children b' = [] ∧ wf_body b') →
  m = (o ← look json H; match o with Some (p, rc, b) => match f b with Some b' => Val (set_block p rc b' H, true) | None => Val (H, false) end
         | None => Val (H, false) end) → fine m R.
Proof.
  intros G Ha Hf ->. destruct (look_alive json H Ha) as [->|(p & rc & b & -> & E & ->)]; rewrite bind_Val; [by eexists _, _|].
  destruct (f b) as [b'|] eqn:Ef; [|by eexists _, _]. destruct (Hf _ _ Ef) as (E1 & E2 & Hw). eexists _, _. split; [done|].
  eapply (store_good n H p rc b); [exact G|done|by rewrite E1, E2|done].
Qed.

Lemma string_set_good ok json (value : string) H R : good n H R → alive json H = true → fine (json_string_set ok json value H) R.
Proof.
  intros G Ha. unfold json_string_set. destruct (utf8_check_string value); [|by eexists _, _].
  apply (simple_set_good _ json H R (λ b, match b with BString _ => if ok then Some (BString value) else None | _ => None end)); [done|done|..].
  - intros [] b'; try done. destruct ok; [|done]. by intros [= <-].
  - unfold json_string_set_nocheck. destruct (look json H) as [[[[p rc] []]|]| |]; try done. by destruct ok.
Qed.

Lemma integer_set_good json (value : Z) H R : good n H R → alive json H = true → fine (json_integer_set json value H) R.
Proof.
  intros G Ha. apply (simple_set_good _ json H R (λ b, match b with BInteger _ => Some (BInteger value) | _ => None end)); [done|done|..].
  - intros [] b'; try done. by intros [= <-].
  - unfold json_integer_set. by destruct (look json H) as [[[[p rc] []]|]| |].
Qed.

Lemma real_set_good json (value : Z) H R : good n H R → alive json H = true → fine (json_real_set json value H) R.
Proof.
  intros G Ha.
  apply (simple_set_good _ json H R (λ b, match b with BReal _ => if is_finite binary64 value then Some (BReal value) else None | _ => None end)); [done|done|..].
  - intros [] b'; try done. destruct (is_finite _ _); [|done]. by intros [= <-].
  - unfold json_real_set. destruct (look json H) as [[[[p rc] []]|]| |]; try done. by destruct (is_finite _ _).
Qed.

Lemma array_clear_good json H R : good n H R → json ∈ R → fine (json_array_clear json H) R.
Proof.
  intros G Hin. unfold json_array_clear. pose proof (owned_alive _ _ _ G Hin) as Ha.
  destruct (look_alive json H Ha) as [->|(p & rc & b & -> & E & ->)]; rewrite bind_Val; [by eexists _, _|].
  destruct b as [h|l|s|z|d]; try by eexists _, _.
  destruct (replace_good n H p rc (BArray l) (BArray []) l [] R R R G E Hin) as (H1 & rc' & E1 & Ed & G1).
  - cbn [children]. rewrite app_nil_r. apply Permutation_app_comm.
  - done.
  - done.
  - rewrite E1, bind_Val, (put_array_deref _ _ _ _ _ Ed), bind_Val. by eexists _, _.
Qed.
End Operations.

(** ** Programs *)

Lemma take_ref_perm r R R' : take_ref r R = Some R' → R ≡ₚ r :: R'.
Proof.
  revert R'. induction R as [|x R IH]; intros R'; cbn [take_ref]; [done|]. case_bool_decide as E; [by intros [= <-]; subst|].
  destruct (take_ref r R) as [R1|]; [|done]. intros [= <-]. rewrite (IH R1 eq_refl). apply perm_swap.
Qed.

Lemma fine_nothing n m R : fine n m R → ∃ H g, nothing m = Val (H, g) ∧ good (n + 1) H (g ++ R).
Proof. intros (H & ok & -> & G). exists H, []. split; [done|]. eapply good_le, G. lia. Qed.

(** Taking another reference to a value before it is stored. *)
Lemma incref_then n H R value json :
  good n H R → n + 1 < 2 ^ 63 → alive value H = true → alive json H = true →
  ∃ H', json_incref value H = Val H' ∧ good (n + 1) H' (value :: R) ∧ alive json H' = true ∧
    (∀ key, absent json key H = true → absent json key H' = true) ∧ ∀ ok, room ok json H = true → room ok json H' = true.
Proof.
  intros G Hn Hv Hj. destruct (incref_good n H R value G Hn Hv) as (H' & E & G' & Hb). exists H'. split; [done|]. split; [done|].
  destruct json as [| | |p]; [done..|]. cbn [alive absent] in *. unfold room. apply bool_decide_eq_true in Hj as [[rc b] Ej].
  destruct (Hb _ _ _ Ej) as [rc' Ej']. rewrite Ej, Ej'. split; [|done]. apply bool_decide_eq_true. by eexists.
Qed.

Lemma step_good n c H R0 R : good n H R0 → n + 1 < 2 ^ 63 → keep c R0 = Some R → allowed c H R = true →
  ∃ H' g, jstep c H = Val (H', g) ∧ good (n + 1) H' (g ++ R).
Proof.
  intros G Hn Hk Ha.
  assert (good n H (option_list (spent c) ++ R)) as G0.
  { unfold keep in Hk. destruct (spent c) as [r|]; [|by injection Hk as <-]. eapply good_perm, G. by apply take_ref_perm. }
  clear G Hk. destruct c; cbn [spent option_list app allowed jstep] in *.
  - unfold made, json_object. eexists _, _. split; [done|]. apply create_good; [done|done|done|apply NoDup_nil_2].
  - unfold made, json_array. eexists _, _. split; [done|]. by apply create_good.
  - unfold made, json_string, json_string_nocheck. eexists _, _. split; [done|]. destruct (utf8_check_string value); [by apply create_good|eapply good_le, G0; lia].
  - unfold made, json_integer. eexists _, _. split; [done|]. by apply create_good.
  - unfold made, json_real. eexists _, _. split; [done|]. destruct (is_finite binary64 value); [by apply create_good|eapply good_le, G0; lia].
  - destruct (incref_good n H R json G0 Hn Ha) as (H' & E & G' & _). rewrite E, bind_Val. by eexists _, _.
  - destruct (decref_good n H json R G0) as (H' & E & G'). rewrite E, bind_Val. eexists _, _. split; [done|]. eapply good_le, G'. lia.
  - apply andb_true_iff in Ha as [[Ha1 Ha2]%andb_true_iff Ha3]. apply fine_nothing. by apply set_new_good.
  - apply andb_true_iff in Ha as [[[Hv Hj]%andb_true_iff Hk]%andb_true_iff Hroom]. destruct (incref_then n H R value json G0 Hn Hv Hj) as (H' & E & G' & Hj' & Hab & Hrm).
    unfold json_object_set. rewrite E, bind_Val.
    destruct (set_new_good (n + 1) ok json key value H' R G' Hj') as (H2 & b & E2 & G2).
    { apply orb_true_iff in Hk as [->|Hk]; [done|]. rewrite Hab by done. apply orb_true_r. }
    { by apply Hrm. }
    unfold nothing. rewrite E2, bind_Val. by eexists _, _.
  - apply bool_decide_eq_true in Ha. apply fine_nothing. by apply del_good.
  - apply bool_decide_eq_true in Ha. apply fine_nothing. by apply clear_good.
  - apply fine_nothing. by apply append_good.
  - apply andb_true_iff in Ha as [Hv Hj]. destruct (incref_then n H R value json G0 Hn Hv Hj) as (H' & E & G' & Hj' & _).
    unfold json_array_append. rewrite E, bind_Val. destruct (append_good (n + 1) ok json value H' R G' Hj') as (H2 & b & E2 & G2).
    unfold nothing. rewrite E2, bind_Val. by eexists _, _.
  - apply andb_true_iff in Ha as [Hin%bool_decide_eq_true Hi]. apply fine_nothing. apply array_set_good; [done|done|blia].
  - apply fine_nothing. by apply insert_good.
  - apply andb_true_iff in Ha as [Hin%bool_decide_eq_true Hi]. apply fine_nothing. apply remove_good; [done|done|blia].
  - apply bool_decide_eq_true in Ha. apply fine_nothing. by apply array_clear_good.
  - apply andb_true_iff in Ha as [[[Hv Hj]%andb_true_iff Hk]%andb_true_iff Hroom]. destruct (incref_then n H R value json G0 Hn Hv Hj) as (H' & E & G' & Hj' & Hab & Hrm).
    unfold json_object_set_nocheck. rewrite E, bind_Val.
    destruct (set_nocheck_good (n + 1) ok json key value H' R G' Hj') as (H2 & b & E2 & G2).
    { apply orb_true_iff in Hk as [->|Hk]; [done|]. rewrite Hab by done. apply orb_true_r. }
    { by apply Hrm. }
    unfold nothing. rewrite E2, bind_Val. by eexists _, _.
  - apply andb_true_iff in Ha as [[Hv Hin%bool_decide_eq_true]%andb_true_iff Hi]. destruct (incref_good n H R value G0 Hn Hv) as (H' & E & G' & _).
    unfold json_array_set. rewrite E, bind_Val. destruct (array_set_good (n + 1) json index value H' R G' Hin ltac:(blia)) as (H2 & b & E2 & G2).
    unfold nothing. rewrite E2, bind_Val. by eexists _, _.
  - apply andb_true_iff in Ha as [Hv Hj]. destruct (incref_then n H R value json G0 Hn Hv Hj) as (H' & E & G' & Hj' & _).
    unfold json_array_insert. rewrite E, bind_Val. destruct (insert_good (n + 1) ok json index value H' R G' Hj') as (H2 & b & E2 & G2).
    unfold nothing. rewrite E2, bind_Val. by eexists _, _.
  - apply fine_nothing. by apply string_set_good.
  - apply fine_nothing. by apply integer_set_good.
  - apply fine_nothing. by apply real_set_good.
Qed.

Lemma run_good cs : ∀ n H R, good n H R → n + zlen cs < 2 ^ 63 →
  ∃ o, jrun cs H R = Val o ∧ ∀ H' R', o = Some (H', R') → good (n + zlen cs) H' R'.
Proof.
  induction cs as [|c cs IH]; intros n H R G Hn; cbn [jrun].
  { eexists. split; [done|]. intros H' R' [= <- <-]. eapply good_le, G. zl. }
  rewrite zlen_cons in *. pose proof (zlen_nonneg cs). destruct (keep c R) as [R1|] eqn:Ek; [|by eexists].
  destruct (allowed c H R1) eqn:Ea; [|by eexists].
  destruct (step_good n c H R R1 G ltac:(lia) Ek Ea) as (H1 & g & E1 & G1). rewrite E1, bind_Val.
  destruct (IH (n + 1) H1 (g ++ R1) G1 ltac:(lia)) as (o & Eo & Ho). exists o. split; [done|]. intros H' R' E. replace (n + (1 + zlen cs)) with (n + 1 + zlen cs) by lia. by apply Ho.
Qed.

(** No value contains itself. *)
Definition acyclic (H : heap) : Prop :=
  ∃ rank : positive → nat, ∀ p rc b q, blocks H !! p = Some (rc, b) → RBlock q ∈ children b → (rank q < rank p)%nat.

Lemma no_owner_no_block n H : good n H [] → acyclic H → blocks H = ∅.
Proof.
  intros G [rank Hr]. destruct (decide (dom (blocks H) = ∅)) as [E|Hne]; [by apply dom_empty_inv_L|]. exfalso.
  assert (Transitive (λ x y : positive, rank y ≤ rank x)%nat) by (intros x y z; lia).
  assert (∀ x y, Decision ((λ x y : positive, rank y ≤ rank x)%nat x y)) by (intros x y; solve_decision).
  destruct (minimal_exists_elem_of_L (λ x y, rank y ≤ rank x)%nat (dom (blocks H)) Hne) as (p & Hp & Hmin).
  apply elem_of_dom in Hp as [[rc b] E]. pose proof (ct_pos _ _ _ (gd_counted _ _ _ G) _ _ _ E ltac:(set_solver)) as Hpos.
  rewrite (ct_count _ _ _ (gd_counted _ _ _ G) _ _ _ E) in Hpos. cbn [app] in Hpos.
  destruct (decide (RBlock p ∈ edges ∅ (blocks H))) as [Hin|Hn]; [|rewrite (cnt_not_elem _ _ Hn) in Hpos; lia].
  unfold edges in Hin. apply list_elem_of_bind in Hin as ([q [rcq bq]] & Hin & Hq%elem_of_map_to_list). cbn [fst snd] in Hin.
  unfold kids in Hin. rewrite lookup_empty in Hin. specialize (Hr _ _ _ _ Hq Hin).
  assert (rank q ≤ rank p)%nat; [|lia]. apply (Hmin q); [by eapply elem_of_dom_2|cbv beta; lia].
Qed.

(** The references to a block: those the program holds and those inside blocks. *)
Definition references (H : heap) (R : list ref) (p : positive) : Z := cnt p (R ++ edges ∅ (blocks H)).

(** C33 (safety). A program of fewer than 2^62 calls that hands over only references
    it holds and works on live containers runs without touching a freed block,
    whichever allocations fail, those of a rehash excepted: a deletion never frees a block twice, after every
    program the count of a block is the number of references to it, and when the
    program holds no reference any more no block is left, unless values contain
    themselves. *)
Theorem json_memory_safe cs : zlen cs < 2 ^ 62 →
  ∃ o, jrun cs no_blocks [] = Val o ∧
    ∀ H R, o = Some (H, R) →
      (∀ p rc b, blocks H !! p = Some (rc, b) → rc = references H R p ∧ 0 < rc) ∧
      (R = [] → acyclic H → blocks H = ∅).
Proof.
  intros Hcs. assert (good 0 no_blocks []) as G0.
  { split; [split|..]; cbn [no_blocks blocks]; [done|done|done|done|set_solver|done|done]. }
  destruct (run_good cs 0 no_blocks [] G0 ltac:(lia)) as (o & E & Ho). exists o. split; [done|]. intros H R ->.
  specialize (Ho H R eq_refl). split.
  - intros p rc b Eb. split; [by apply (ct_count _ _ _ (gd_counted _ _ _ Ho) _ _ _ Eb)|]. eapply (ct_pos _ _ _ (gd_counted _ _ _ Ho)); [done|set_solver].
  - intros ->. by eapply no_owner_no_block.
Qed.

Lemma json_memory_safe_witness :
  let cs := [CObject true; CArray true; CString "x" true; CAppend true (RBlock 2) (RBlock 3); CDecref (RBlock 3);
             CSetNew true (RBlock 1) "a" (RBlock 2); CDecref (RBlock 1)] in
  ∃ H, jrun cs no_blocks [] = Val (Some (H, [])) ∧ blocks H = ∅.
Proof.
  intros cs. destruct (json_memory_safe cs ltac:(vm_compute; reflexivity)) as (o & E & Ho).
  assert (jrun cs no_blocks [] = Val (Some (mkJson ∅ 4, []))) as E' by (vm_compute; reflexivity).
  rewrite E' in E. injection E as <-. exists (mkJson ∅ 4). split; [done|].
  apply (Ho _ _ eq_refl); [done|]. exists (λ _, 0%nat). intros p rc b q Eb. cbn [blocks] in Eb. rewrite lookup_empty in Eb. done.
Defined.
