(* ===== verification/JsonDump.v ===== *)
(** * Printing JSON ([src/deps/jansson/src/dump.c])

    [do_dump] hands the text of a value piece by piece to a callback; [json_dumps]
    collects it in a string buffer. The callback is the class [Sink], with the laws
    [SinkOk] that the string buffer satisfies. [json_text] is the reference: the
    text as a function of the value. Values are trees, so the test for circular
    references ([visited]) never fires and is left out; so is the branch of
    [do_dump] that sorts the keys of objects, which no caller in the library asks
    for: the theorems take flags without the two bits of it ([unsorted]). A pointer into a C
    string is the list of the bytes from it up to the terminator. *)

From S2P Require Import Prelude Float Utf8 StrBuffer RealText Jansson.
Local Open Scope Z_scope.

Definition JSON_INDENT (flags : Z) : Z := Z.land flags 0x1F.
Definition JSON_COMPACT : Z := 0x20.
Definition JSON_ENSURE_ASCII : Z := 0x40.
Definition JSON_SORT_KEYS : Z := 0x80.
Definition JSON_PRESERVE_ORDER : Z := 0x100.
Definition JSON_ENCODE_ANY : Z := 0x200.
Definition JSON_ESCAPE_SLASH : Z := 0x400.
Definition MAX_REAL_STR_LENGTH : Z := 100.

(** [flags & bit]. *)
Definition has (flags bit : Z) : bool := negb (Z.land flags bit =? 0).

(** The flags the model covers: the keys of objects are not sorted. *)
Definition unsorted (flags : Z) : bool := negb (has flags JSON_SORT_KEYS) && negb (has flags JSON_PRESERVE_ORDER).

(** The callback: whether it returned 0, and its data. *)
Class Sink (D : Type) := dump : bytes → D → exec (bool * D).

(** The next step unless the last one failed. *)
Definition dthen {D} (r : exec (bool * D)) (k : D → exec (bool * D)) : exec (bool * D) :=
  '(ok, d) ← r; if ok : bool then k d else Val (false, d).
Notation "r 'then_' k" := (dthen r k) (at level 61, left associativity).

Definition SPACE : Z := 32.

Section Dump.
Context {D : Type} `{!Sink D}.
Context (flags : Z).
Implicit Types d : D.

Fixpoint dump_spaces (n : nat) (ws_count : Z) d : exec (bool * D) :=
  match n with
  | O => Val (true, d)
  | S n => dump (replicate (Z.to_nat ws_count) SPACE) d then_ dump_spaces n ws_count
  end.

Definition dump_indent (depth : Z) (space : bool) d : exec (bool * D) :=
  if JSON_INDENT flags >? 0 then
    dump (bytes_of "
") d then_ dump_spaces (Z.to_nat depth) (JSON_INDENT flags)
  else if space && negb (has flags JSON_COMPACT) then dump [SPACE] d
  else Val (true, d).

(** ** Strings *)

Definition must_escape (codepoint : Z) : bool :=
  (codepoint =? 92) || (codepoint =? 34) || (codepoint <? 0x20) ||
  (has flags JSON_ESCAPE_SLASH && (codepoint =? 47)) || (has flags JSON_ENSURE_ASCII && (codepoint >? 0x7F)).

(** The inner loop: over the characters that are printed as they are. *)
Fixpoint dump_scan (fuel : nat) (pos end_ : bytes) (codepoint : Z) : exec (option (bytes * bytes * Z)) :=
  match fuel with
  | O => NoFuel
  | S fuel =>
      match end_ with
      | [] => Val (Some (pos, end_, codepoint))
      | _ =>
          match utf8_iterate pos with
          | None => Val None
          | Some (end_, cp) =>
              let codepoint := default codepoint cp in
              if must_escape codepoint then Val (Some (pos, end_, codepoint))
              else dump_scan fuel end_ end_ codepoint
          end
      end
  end.

(** [%04x] of a number below 65536. *)
Definition hex_digit (d : Z) : Z := if d <? 10 then 48 + d else 87 + d.
Definition sprintf_04x (n : Z) : bytes :=
  [hex_digit (n / 4096 mod 16); hex_digit (n / 256 mod 16); hex_digit (n / 16 mod 16); hex_digit (n mod 16)].

Definition BACKSLASH : Z := 92.

Definition escape_text (codepoint : Z) : bytes :=
  if codepoint =? 92 then [BACKSLASH; 92]
  else if codepoint =? 34 then [BACKSLASH; 34]
  else if codepoint =? 8 then [BACKSLASH; 98]
  else if codepoint =? 12 then [BACKSLASH; 102]
  else if codepoint =? 10 then [BACKSLASH; 110]
  else if codepoint =? 13 then [BACKSLASH; 114]
  else if codepoint =? 9 then [BACKSLASH; 116]
  else if codepoint =? 47 then [BACKSLASH; 47]
  else if codepoint <? 0x10000 then BACKSLASH :: 117 :: sprintf_04x codepoint
  else
    let codepoint := codepoint - 0x10000 in
    let first := Z.lor 0xD800 (Z.shiftr (Z.land codepoint 0xffc00) 10) in
    let last := Z.lor 0xDC00 (Z.land codepoint 0x003ff) in
    BACKSLASH :: 117 :: sprintf_04x first ++ BACKSLASH :: 117 :: sprintf_04x last.

Fixpoint dump_runs (fuel : nat) (str : bytes) (codepoint : Z) d : exec (bool * D) :=
  match fuel with
  | O => NoFuel
  | S fuel =>
      r ← dump_scan (S (length str)) str str codepoint;
      match r with
      | None => Val (false, d)
      | Some (pos, end_, codepoint) =>
          (if bool_decide (length pos = length str) then Val (true, d)
           else dump (take (length str - length pos) str) d) then_ λ d,
          if bool_decide (length end_ = length pos) then Val (true, d)
          else dump (escape_text codepoint) d then_ dump_runs fuel end_ codepoint
      end
  end.

Definition QUOTE : Z := 34.

Definition dump_string (str : string) d : exec (bool * D) :=
  dump [QUOTE] d then_ dump_runs (S (length (bytes_of str))) (bytes_of str) 0 then_ dump [QUOTE].

(** ** Values *)

Definition sprintf_lld (n : Z) : bytes := minus (n <? 0) ++ bytes_of (sprintf_u (Z.abs n)).

(** Between the elements of an array or an object, or after the last one. *)
Definition dump_next (more : bool) (depth : Z) d : exec (bool * D) :=
  if more then dump (bytes_of ",") d then_ dump_indent (depth + 1) true
  else dump_indent depth false d.

Definition separator : bytes := bytes_of (if has flags JSON_COMPACT then ":" else ": ").

(** The loops of [do_dump] over elements and pairs, with [do_dump] for the values.
    The result of printing a key is not looked at. *)
Section Loops.
Context (do_dump : json_t → Z → D → exec (bool * D)).

Fixpoint dump_elems (n depth i : Z) (l : list json_t) d : exec (bool * D) :=
  match l with
  | [] => Val (true, d)
  | v :: l =>
      if i <? n then do_dump v (depth + 1) d then_ dump_next (i <? n - 1) depth then_ dump_elems n depth (i + 1) l
      else Val (true, d)
  end.

Fixpoint dump_pairs (depth : Z) (l : list (string * json_t)) d : exec (bool * D) :=
  match l with
  | [] => Val (true, d)
  | (key, value) :: next =>
      '(_, d) ← dump_string key d;
      dump separator d then_ do_dump value (depth + 1) then_ dump_next (negb (bool_decide (next = []))) depth then_
        dump_pairs depth next
  end.
End Loops.

Fixpoint do_dump (json : json_t) (depth : Z) d {struct json} : exec (bool * D) :=
  match json with
  | JNull => dump (bytes_of "null") d
  | JTrue => dump (bytes_of "true") d
  | JFalse => dump (bytes_of "false") d
  | JInteger n => dump (sprintf_lld n) d
  | JReal x =>
      match jsonp_dtostr MAX_REAL_STR_LENGTH x with
      | None => Val (false, d)
      | Some buffer => dump buffer d
      end
  | JString s => dump_string s d
  | JArray l =>
      let n := s32 (zlen l) in
      dump (bytes_of "[") d then_ λ d,
      if n =? 0 then dump (bytes_of "]") d
      else dump_indent (depth + 1) false d then_ dump_elems do_dump n depth 0 l then_ dump (bytes_of "]")
  | JObject (mkTable _ l) =>
      dump (bytes_of "{") d then_ λ d,
      if bool_decide (l = []) then dump (bytes_of "}") d
      else dump_indent (depth + 1) false d then_ dump_pairs do_dump depth l then_ dump (bytes_of "}")
  end.

(** A NULL value is not printed, and dereferenced when any value may be. *)
Definition json_dump_callback (json : option json_t) d : exec (bool * D) :=
  if negb (has flags JSON_ENCODE_ANY) then
    match json with
    | Some v => if negb (json_is_array v) && negb (json_is_object v) then Val (false, d) else do_dump v 0 d
    | None => Val (false, d)
    end
  else match json with Some v => do_dump v 0 d | None => UB end.
End Dump.

(** ** Printing into a string *)

Section Dumps.
Context (malloc : Z → bool).

Definition dump_to_strbuffer : Sink strbuffer_t := λ buffer sb, strbuffer_append_bytes malloc sb buffer.

Definition json_dumps (json : option json_t) (flags : Z) : exec (option bytes) :=
  init ← strbuffer_init malloc;
  match init with
  | None => Val None
  | Some strbuff =>
      '(ok, strbuff) ← json_dump_callback (Sink0 := dump_to_strbuffer) flags json strbuff;
      if negb ok then Val None
      else
        let result := strbuffer_value strbuff in
        if malloc (zlen result + 1) then Val (Some result) else Val None
  end.
End Dumps.

(** ** The text of a value *)

(** The characters of a text. *)
Fixpoint utf8_chars (skip : nat) (s : bytes) : list (bytes * Z) :=
  match s with
  | [] => []
  | _ :: rest =>
      match skip with
      | S skip => utf8_chars skip rest
      | O =>
          match utf8_iterate s with
          | Some (t, Some cp) => (take (length s - length t) s, cp) :: utf8_chars (length s - length t - 1) rest
          | _ => []
          end
      end
  end.

Section Text.
Context (flags : Z).

Definition escape_char (c : bytes * Z) : bytes := if must_escape flags (snd c) then escape_text (snd c) else fst c.

Definition escape (s : bytes) : bytes := concat (map escape_char (utf8_chars 0 s)).

Definition string_text (s : string) : bytes := QUOTE :: escape (bytes_of s) ++ [QUOTE].

Definition indent_text (depth : Z) (space : bool) : bytes :=
  if JSON_INDENT flags >? 0 then
    bytes_of "
" ++ concat (replicate (Z.to_nat depth) (replicate (Z.to_nat (JSON_INDENT flags)) SPACE))
  else if space && negb (has flags JSON_COMPACT) then [SPACE] else [].

(** The elements with the separators between them. *)
Definition items_text (depth : Z) (items : list bytes) : bytes :=
  match items with
  | [] => []
  | i :: items =>
      indent_text (depth + 1) false ++ i ++ concat (map (λ i, bytes_of "," ++ indent_text (depth + 1) true ++ i) items) ++
      indent_text depth false
  end.

Fixpoint json_text (depth : Z) (json : json_t) {struct json} : bytes :=
  match json with
  | JNull => bytes_of "null"
  | JTrue => bytes_of "true"
  | JFalse => bytes_of "false"
  | JInteger n => sprintf_lld n
  | JReal x => default [] (jsonp_dtostr MAX_REAL_STR_LENGTH x)
  | JString s => string_text s
  | JArray l => bytes_of "[" ++ items_text depth (map (json_text (depth + 1)) l) ++ bytes_of "]"
  | JObject (mkTable _ l) =>
      bytes_of "{" ++
      items_text depth (map (λ '(k, v), string_text k ++ separator flags ++ json_text (depth + 1) v) l) ++ bytes_of "}"
  end.
End Text.

(** What can be printed: C strings of valid UTF-8, finite reals, arrays whose
    length is an [int]. *)
Definition text_ok (s : string) : bool := utf8_check_string s && forallb (λ b, negb (b =? 0)) (bytes_of s).

Fixpoint printable (json : json_t) : bool :=
  match json with
  | JString s => text_ok s
  | JReal x => match jsonp_dtostr MAX_REAL_STR_LENGTH x with Some _ => true | None => false end
  | JArray l => (zlen l <=? INT_MAX) && forallb printable l
  | JObject (mkTable _ l) => forallb (λ '(k, v), text_ok k && printable v) l
  | _ => true
  end.

(** {"a":[1,2.5,"é"],"b":{}} in three styles. *)
Example dump_examples :
  let v := JObject (mkTable 0 [("a", JArray [JInteger 1; JReal 0x4004000000000000; JString "é"]); ("b", json_object)]) in
  let q := string_of [34] in
  json_dumps (λ _, true) (Some v) JSON_COMPACT =
    Val (Some (bytes_of ("{" +:+ q +:+ "a" +:+ q +:+ ":[1,2.5," +:+ q +:+ "é" +:+ q +:+ "]," +:+ q +:+ "b" +:+ q +:+ ":{}}"))) ∧
  json_dumps (λ _, true) (Some v) (Z.lor JSON_COMPACT JSON_ENSURE_ASCII) =
    Val (Some (bytes_of ("{" +:+ q +:+ "a" +:+ q +:+ ":[1,2.5," +:+ q +:+ "\u00e9" +:+ q +:+ "]," +:+ q +:+ "b" +:+ q +:+ ":{}}"))) ∧
  json_dumps (λ _, true) (Some v) 0 = Val (Some (json_text 0 0 v)) ∧
  json_dumps (λ _, true) (Some v) 2 = Val (Some (json_text 2 0 v)) ∧
  json_dumps (λ _, true) (Some JNull) 0 = Val None.
Proof. vm_compute. done. Qed.

(** ** The printer writes the text *)

(** A sink that collects what it is given, up to [B] bytes. *)
Class SinkOk (D : Type) `{Sink D} (B : Z) (R : D → bytes → Prop) : Prop :=
  dump_ok d t bs : R d t → zlen (t ++ bs) ≤ B → ∃ d', dump bs d = Val (true, d') ∧ R d' (t ++ bs).

Lemma strbuffer_sink_ok malloc B : malloc_succeeds malloc → 0 ≤ B < 2 ^ 61 →
  @SinkOk strbuffer_t (dump_to_strbuffer malloc) B (sb_rep B).
Proof. intros Hm HB sb t bs R Ht. by apply append_rep. Qed.

Lemma chars_cons c cp s : is_char c cp → utf8_chars 0 (c ++ s) = (c, cp) :: utf8_chars 0 s.
Proof.
  intros Hc. pose proof (char_length c cp Hc) as Hl. destruct c as [|u l]; [rewrite zlen_nil in Hl; lia|]. cbn [app utf8_chars].
  change (u :: l ++ s) with ((u :: l) ++ s). rewrite (iterate_char _ cp s Hc).
  replace (length ((u :: l) ++ s) - length s)%nat with (length (u :: l)) by (rewrite length_app; lia).
  rewrite take_app_length. f_equal. simpl length. rewrite Nat.sub_succ, Nat.sub_0_r. clear.
  induction l as [|x l IH]; [done|exact IH].
Qed.

Lemma escape_cons flags c cp s : is_char c cp → escape flags (c ++ s) = escape_char flags (c, cp) ++ escape flags s.
Proof. intros Hc. unfold escape. by rewrite (chars_cons c cp s Hc). Qed.

(** The inner loop stops at the end or at a character to escape. *)
Lemma scan_spec flags s : Forall is_byte s → valid s → ∀ fuel cp, (length s < fuel)%nat →
  (∃ cp', dump_scan flags fuel s s cp = Val (Some ([], [], cp')) ∧ escape flags s = s) ∨
  (∃ a c cp' t, s = a ++ c ++ t ∧ is_char c cp' ∧ valid t ∧ escape flags s = a ++ escape_text cp' ++ escape flags t ∧
     dump_scan flags fuel s s cp = Val (Some (c ++ t, t, cp'))).
Proof.
  revert s. apply (valid_ind (λ s, ∀ fuel cp, (length s < fuel)%nat → _ ∨ _)).
  { intros fuel cp Hf. left. destruct fuel; [simpl in Hf; lia|]. by exists cp. }
  intros c cp' t Hc Ht IH fuel cp Hf. destruct fuel as [|fuel]; [lia|]. pose proof (char_length c cp' Hc) as Hl.
  rewrite (escape_cons flags c cp' t Hc). unfold escape_char. cbn [snd fst dump_scan].
  rewrite (iterate_char c cp' t Hc). cbn [default from_option id].
  assert (∀ A (x y : A), match c ++ t with [] => x | _ => y end = y) as E
    by (destruct c; [rewrite zlen_nil in Hl; lia|done]). rewrite E. destruct (must_escape flags cp') eqn:Em.
  - right. by exists [], c, cp', t.
  - rewrite length_app in Hf. unfold zlen in Hl.
    destruct (IH fuel cp' ltac:(lia)) as [(x & -> & Ee)|(a & c2 & cp2 & t2 & -> & Hc2 & Ht2 & Ee & ->)].
    + left. exists x. by rewrite Ee.
    + right. exists (c ++ a), c2, cp2, t2. rewrite Ee, <- !app_assoc. done.
Qed.

Section Writes.
Context {D : Type} `{!Sink D} (B : Z) (R : D → bytes → Prop) `{!SinkOk D B R}.
Context (flags : Z).

(** [m] writes [bs]: after [t] the sink holds [t ++ bs], if there is room. *)
Definition writes (m : D → exec (bool * D)) (bs : bytes) : Prop :=
  ∀ d t, R d t → zlen (t ++ bs) ≤ B → ∃ d', m d = Val (true, d') ∧ R d' (t ++ bs).

Lemma writes_dump bs : writes (dump bs) bs.
Proof. intros d t. apply dump_ok. Qed.

Lemma writes_nothing : writes (λ d, Val (true, d)) [].
Proof. intros d t Hd _. exists d. by rewrite app_nil_r. Qed.

Lemma writes_then m k a b : writes m a → writes k b → writes (λ d, m d then_ k) (a ++ b).
Proof.
  intros Hm Hk d t Hd Hb. rewrite app_assoc in Hb |- *. destruct (Hm d t Hd) as (d1 & -> & H1).
  { rewrite zlen_app in Hb. pose proof (zlen_nonneg b). lia. }
  unfold dthen. rewrite bind_Val. by apply Hk.
Qed.

(** The same when the result of the first step is not looked at. *)
Lemma writes_ignoring m k a b : writes m a → writes k b → writes (λ d, '(_, d) ← m d; k d) (a ++ b).
Proof.
  intros Hm Hk d t Hd Hb. rewrite app_assoc in Hb |- *. destruct (Hm d t Hd) as (d1 & -> & H1).
  { rewrite zlen_app in Hb. pose proof (zlen_nonneg b). lia. }
  rewrite bind_Val. by apply Hk.
Qed.

Lemma writes_eq m k a b : (∀ d, m d = k d) → a = b → writes k b → writes m a.
Proof. intros E -> H d t Hd Hb. rewrite E. by apply H. Qed.

Lemma writes_spaces ws n : writes (dump_spaces n ws) (concat (replicate n (replicate (Z.to_nat ws) SPACE))).
Proof.
  induction n as [|n IH]; [apply writes_nothing|]. cbn [replicate concat].
  by eapply writes_eq; [intros d; reflexivity|reflexivity|apply writes_then; [apply writes_dump|]].
Qed.

Lemma writes_indent depth space : writes (dump_indent flags depth space) (indent_text flags depth space).
Proof.
  unfold dump_indent, indent_text. destruct (_ >? 0).
  - apply writes_then; [apply writes_dump|apply writes_spaces].
  - destruct (_ && _); [apply writes_dump|apply writes_nothing].
Qed.

Lemma writes_runs n : ∀ s cp, Forall is_byte s → valid s → (length s < n)%nat →
  writes (dump_runs flags n s cp) (escape flags s).
Proof.
  induction n as [|n IH]; intros s cp Hb Hv Hl; [lia|]. cbn [dump_runs].
  destruct (scan_spec flags s Hb Hv (S (length s)) cp ltac:(lia))
    as [(cp' & Es & Ee)|(a & c & cp' & t & -> & Hc & Ht & Ee & Es)]; rewrite Ee.
  - eapply writes_eq; [intros d; by rewrite Es, bind_Val|symmetry; apply app_nil_r|].
    apply writes_then; [|apply writes_nothing]. rewrite Nat.sub_0_r, take_ge by done.
    case_bool_decide as E; [|apply writes_dump]. destruct s; [apply writes_nothing|done].
  - eapply writes_eq; [intros d; by rewrite Es, bind_Val|reflexivity|].
    pose proof (char_length c cp' Hc) as Hcl. apply writes_then.
    + replace (length (a ++ c ++ t) - length (c ++ t))%nat with (length a) by (rewrite length_app; lia).
      rewrite take_app_length. case_bool_decide as E; [|apply writes_dump].
      assert (a = []) as -> by (destruct a; [done|rewrite !length_app in E; simpl in E; lia]). apply writes_nothing.
    + rewrite bool_decide_false by (rewrite length_app; unfold zlen in Hcl; lia).
      apply writes_then; [apply writes_dump|]. apply IH; [|done|].
      * by apply Forall_app in Hb as [_ [_ Hb]%Forall_app].
      * rewrite !length_app in Hl. unfold zlen in Hcl. lia.
Qed.

Lemma writes_string s : text_ok s = true → writes (dump_string flags s) (string_text flags s).
Proof.
  unfold text_ok, utf8_check_string. intros [Hv _]%andb_true_iff. unfold dump_string, string_text.
  change (QUOTE :: escape flags (bytes_of s) ++ [QUOTE]) with ([QUOTE] ++ escape flags (bytes_of s) ++ [QUOTE]).
  rewrite app_assoc. apply (writes_then (λ d, dump [QUOTE] d then_ _)); [|apply writes_dump].
  apply writes_then; [apply writes_dump|]. apply writes_runs; [apply bytes_of_byte|done|lia].
Qed.

Lemma writes_next more depth :
  writes (dump_next flags more depth)
    (if more : bool then bytes_of "," ++ indent_text flags (depth + 1) true else indent_text flags depth false).
Proof.
  unfold dump_next. destruct more; [|apply writes_indent].
  apply writes_then; [apply writes_dump|apply writes_indent].
Qed.

(** The elements from one on, each followed by what separates it from the next
    or by the last indentation. *)
Fixpoint rest_text (depth : Z) (items : list bytes) : bytes :=
  match items with
  | [] => []
  | i :: items =>
      i ++ (if negb (bool_decide (items = [])) then bytes_of "," ++ indent_text flags (depth + 1) true
            else indent_text flags depth false) ++ rest_text depth items
  end.

Lemma items_rest depth items : items ≠ [] →
  items_text flags depth items = indent_text flags (depth + 1) false ++ rest_text depth items.
Proof.
  destruct items as [|i items]; [done|]. intros _. cbn [items_text]. f_equal. revert i.
  induction items as [|j items IH]; intros i; [cbn; by rewrite app_nil_r|].
  cbn [map concat]. cbn [rest_text]. rewrite bool_decide_false by done. cbn [negb]. rewrite <- !app_assoc. do 3 f_equal.
  specialize (IH j). cbn [rest_text] in IH. exact IH.
Qed.

Lemma writes_elems n depth l :
  Forall (λ v, writes (do_dump flags v (depth + 1)) (json_text flags (depth + 1) v)) l →
  ∀ i, i + zlen l = n → 0 ≤ i →
  writes (dump_elems flags (do_dump flags) n depth i l) (rest_text depth (map (json_text flags (depth + 1)) l)).
Proof.
  induction 1 as [|v l Hv _ IH]; intros i Hi H0; [apply writes_nothing|]. rewrite zlen_cons in Hi.
  pose proof (zlen_nonneg l). cbn [dump_elems map rest_text]. rewrite (proj2 (Z.ltb_lt i n)) by lia. rewrite app_assoc.
  apply (writes_then (λ d, dthen _ _)); [|apply IH; lia]. apply writes_then; [done|].
  replace (negb _) with (i <? n - 1); [apply writes_next|].
  destruct l as [|w l]; [rewrite zlen_nil in Hi; apply Z.ltb_ge; lia|]. rewrite zlen_cons in *. pose proof (zlen_nonneg l).
  apply Z.ltb_lt. lia.
Qed.

Lemma writes_pairs depth l :
  Forall (λ kv, text_ok kv.1 = true ∧ writes (do_dump flags kv.2 (depth + 1)) (json_text flags (depth + 1) kv.2)) l →
  writes (dump_pairs flags (do_dump flags) depth l)
    (rest_text depth (map (λ '(k, v), string_text flags k ++ separator flags ++ json_text flags (depth + 1) v) l)).
Proof.
  induction 1 as [|[k v] l [Hk Hv] _ IH]; [apply writes_nothing|]. cbn [dump_pairs map rest_text].
  replace (bool_decide (map _ l = [])) with (bool_decide (l = [])) by (by destruct l).
  rewrite <- !app_assoc. apply writes_ignoring; [by apply writes_string|].
  rewrite !(app_assoc (separator flags)). rewrite app_assoc.
  apply (writes_then (λ d, dthen _ _)); [|done]. apply (writes_then (λ d, dthen _ _)); [|apply writes_next].
  apply writes_then; [apply writes_dump|done].
Qed.

Lemma writes_value v : printable v = true → ∀ depth, writes (do_dump flags v depth) (json_text flags depth v).
Proof.
  induction v as [n l IH|l IH|s|n|x| | |] using json_value_ind; intros Hp depth; cbn [do_dump json_text].
  - apply writes_then; [apply writes_dump|]. case_bool_decide as E; [subst l; apply writes_dump|].
    rewrite items_rest by (by destruct l). apply (writes_then (λ d, dthen _ _)); [|apply writes_dump].
    apply writes_then; [apply writes_indent|]. apply writes_pairs. cbn [printable] in Hp. rewrite forallb_forall in Hp.
    rewrite Forall_forall in IH |- *. intros [k v] Hin. pose proof (Hp _ (proj1 (list_elem_of_In _ _) Hin)) as H.
    apply andb_true_iff in H as [Hk Hv]. split; [done|]. by apply (IH (k, v)).
  - cbn [printable] in Hp. apply andb_true_iff in Hp as [Hn Hp]. apply Z.leb_le in Hn. pose proof (zlen_nonneg l).
    unfold INT_MAX in Hn. rewrite swrap_small by (unfold is_s; lia).
    apply writes_then; [apply writes_dump|]. destruct (Z.eqb_spec (zlen l) 0) as [E|E].
    { assert (l = []) as -> by (destruct l; [done|rewrite zlen_cons in E; pose proof (zlen_nonneg l); lia]). apply writes_dump. }
    rewrite items_rest by (by destruct l). apply (writes_then (λ d, dthen _ _)); [|apply writes_dump].
    apply writes_then; [apply writes_indent|]. apply writes_elems; [|lia..]. rewrite forallb_forall in Hp.
    rewrite Forall_forall in IH |- *. intros v Hin. apply IH; [done|]. by apply Hp, list_elem_of_In.
  - by apply writes_string.
  - apply writes_dump.
  - cbn [printable] in Hp. destruct (jsonp_dtostr _ x); [apply writes_dump|done].
  - apply writes_dump.
  - apply writes_dump.
  - apply writes_dump.
Qed.
End Writes.

(** ** The text is valid UTF-8 without NUL *)

Definition clean (bs : bytes) : Prop := Forall (λ b, 0 < b < 256) bs ∧ valid bs.

Lemma clean_bytes bs : clean bs → Forall is_byte bs.
Proof. intros [H _]. eapply Forall_impl; [exact H|]. unfold is_u. simpl. lia. Qed.

Lemma clean_app a b : clean a → clean b → clean (a ++ b).
Proof.
  intros Ha Hb. split; [apply Forall_app; split; [apply Ha|apply Hb]|].
  apply valid_app; [by apply clean_bytes|apply Ha|apply Hb].
Qed.

Lemma clean_ascii bs : Forall ascii bs → clean bs.
Proof.
  intros H. split; [|apply valid_ascii]; (eapply Forall_impl; [exact H|]); unfold ascii; simpl; lia.
Qed.

Lemma clean_concat l : Forall clean l → clean (concat l).
Proof. induction 1 as [|b l Hb _ IH]; [by apply clean_ascii|]. by apply clean_app. Qed.

Lemma clean_string (s : string) : text_ok s = true → clean (bytes_of s).
Proof.
  unfold text_ok. intros [Hv Hn]%andb_true_iff. split; [|done]. pose proof (bytes_of_byte s) as Hb.
  rewrite forallb_forall in Hn. rewrite Forall_forall in Hb |- *. intros b Hin.
  specialize (Hb b Hin). apply list_elem_of_In, Hn in Hin. unfold is_u in Hb. blia.
Qed.

Lemma hex_ascii n : Forall ascii (sprintf_04x n).
Proof.
  assert (∀ d, ascii (hex_digit (d mod 16))) as H.
  { intros d. pose proof (Z.mod_pos_bound d 16 ltac:(lia)). unfold hex_digit, ascii. destruct (Z.ltb_spec (d mod 16) 10); lia. }
  repeat constructor; apply H.
Qed.

Lemma escape_text_ascii cp : Forall ascii (escape_text cp).
Proof.
  unfold escape_text. repeat (case_match; [by repeat constructor|]).
  case_match; [do 2 (constructor; [done|]); apply hex_ascii|].
  do 2 (constructor; [done|]). apply Forall_app. split; [apply hex_ascii|]. do 2 (constructor; [done|]). apply hex_ascii.
Qed.

Lemma escape_clean flags s : clean s → clean (escape flags s).
Proof.
  intros Hs. pose proof (clean_bytes s Hs) as Hb. destruct Hs as [Hn Hv]. revert s Hb Hv Hn.
  apply (valid_ind (λ s, Forall (λ b, 0 < b < 256) s → clean (escape flags s))); [intros _; by apply clean_ascii|].
  intros c cp t Hc Ht IH [Hnc Hnt]%Forall_app. rewrite (escape_cons flags c cp t Hc). apply clean_app; [|by apply IH].
  unfold escape_char. cbn [fst snd]. destruct (must_escape flags cp); [apply clean_ascii, escape_text_ascii|].
  split; [done|]. rewrite <- (app_nil_r c). by eapply valid_char.
Qed.

Lemma string_text_clean flags s : text_ok s = true → clean (string_text flags s).
Proof.
  intros Hs. unfold string_text. apply (clean_app [_]); [by apply clean_ascii; repeat constructor|].
  apply clean_app; [by apply escape_clean, clean_string|by apply clean_ascii; repeat constructor].
Qed.

Lemma indent_clean flags depth space : clean (indent_text flags depth space).
Proof.
  apply clean_ascii. unfold indent_text. destruct (_ >? 0); [|destruct (_ && _); repeat constructor].
  apply Forall_app. split; [repeat constructor|]. apply Forall_concat, Forall_replicate, Forall_replicate. done.
Qed.

Lemma items_clean flags depth items : Forall clean items → clean (items_text flags depth items).
Proof.
  destruct 1 as [|i items Hi Hs]; [by apply clean_ascii|]. cbn [items_text].
  apply clean_app; [apply indent_clean|]. apply clean_app; [done|]. apply clean_app; [|apply indent_clean].
  apply clean_concat, Forall_map. eapply Forall_impl; [exact Hs|]. intros b Hb. simpl.
  apply (clean_app (bytes_of ",")); [by apply clean_ascii; repeat constructor|]. apply clean_app; [apply indent_clean|done].
Qed.

Lemma lld_ascii n : Forall ascii (sprintf_lld n).
Proof.
  unfold sprintf_lld. apply Forall_app. split; [apply minus_ascii|].
  destruct (sprintf_u_digits (Z.abs n) ltac:(lia)) as (ds & -> & Hd & _). by apply chars_ascii.
Qed.

Lemma json_text_clean flags v : printable v = true → ∀ depth, clean (json_text flags depth v).
Proof.
  induction v as [n l IH|l IH|s|n|x| | |] using json_value_ind; intros Hp depth; cbn [json_text].
  - apply (clean_app (bytes_of "{")); [by apply clean_ascii; repeat constructor|].
    apply clean_app; [|by apply clean_ascii; repeat constructor]. apply items_clean, Forall_map.
    cbn [printable] in Hp. rewrite forallb_forall in Hp. rewrite Forall_forall in IH |- *. intros [k v] Hin.
    pose proof (Hp _ (proj1 (list_elem_of_In _ _) Hin)) as H. apply andb_true_iff in H as [Hk Hv]. cbv beta iota.
    apply clean_app; [by apply string_text_clean|]. apply clean_app; [|by apply (IH (k, v))].
    apply clean_ascii. unfold separator. destruct (has _ _); repeat constructor.
  - apply (clean_app (bytes_of "[")); [by apply clean_ascii; repeat constructor|].
    apply clean_app; [|by apply clean_ascii; repeat constructor]. apply items_clean, Forall_map.
    cbn [printable] in Hp. apply andb_true_iff in Hp as [_ Hp]. rewrite forallb_forall in Hp.
    rewrite Forall_forall in IH |- *. intros v Hin. apply (IH v Hin). by apply Hp, list_elem_of_In.
  - by apply string_text_clean.
  - apply clean_ascii, lld_ascii.
  - cbn [printable] in Hp. destruct (jsonp_dtostr _ x) eqn:E; [|done]. by eapply clean_ascii, dtostr_ascii.
  - by apply clean_ascii; repeat constructor.
  - by apply clean_ascii; repeat constructor.
  - by apply clean_ascii; repeat constructor.
Qed.

(** [json_dumps] of every printable array or object, or of any printable value with
    JSON_ENCODE_ANY. *)
Lemma dumps_text (malloc : Z → bool) (flags : Z) (v : json_t) :
  malloc_succeeds malloc → printable v = true →
  json_is_array v || json_is_object v || has flags JSON_ENCODE_ANY = true →
  zlen (json_text flags 0 v) < 2 ^ 61 →
  json_dumps malloc (Some v) flags = Val (Some (json_text flags 0 v)).
Proof.
  intros Hm Hp Ht Hl. pose proof (zlen_nonneg (json_text flags 0 v)). set (B := zlen (json_text flags 0 v)) in *.
  unfold json_dumps. destruct (init_rep malloc Hm B ltac:(lia)) as (sb & -> & R). rewrite bind_Val.
  pose proof (strbuffer_sink_ok malloc B Hm ltac:(lia)) as HS.
  destruct (writes_value (Sink0 := dump_to_strbuffer malloc) B (sb_rep B) flags v Hp 0 sb [] R) as (sb' & E & R'); [done|].
  assert (json_dump_callback (Sink0 := dump_to_strbuffer malloc) flags (Some v) sb = Val (true, sb')) as ->.
  { unfold json_dump_callback. destruct (has flags JSON_ENCODE_ANY); [done|]. by destruct v. }
  rewrite bind_Val. cbn [negb app] in *. pose proof (json_text_clean flags v Hp 0) as [Hc _].
  rewrite (value_rep B sb' (json_text flags 0 v) R') by (eapply Forall_impl; [exact Hc|]; simpl; lia).
  by rewrite Hm by (fold B; lia).
Qed.

(** C31 (equivalence). [json_dumps] computes the reference text: for every printable
    array or object, or any printable value with JSON_ENCODE_ANY, with every
    indentation, style and choice of escapes, growing its buffer as often as needed,
    it returns exactly [json_text], when allocation succeeds. *)
Theorem json_dumps_text (malloc : Z → bool) (flags : Z) (v : json_t) :
  malloc_succeeds malloc → unsorted flags = true → printable v = true →
  json_is_array v || json_is_object v || has flags JSON_ENCODE_ANY = true →
  zlen (json_text flags 0 v) < 2 ^ 61 →
  json_dumps malloc (Some v) flags = Val (Some (json_text flags 0 v)).
Proof. intros Hm _. by apply dumps_text. Qed.

Lemma json_dumps_text_witness :
  ∃ v, printable v = true ∧ json_dumps (λ _, true) (Some v) JSON_COMPACT = Val (Some (json_text JSON_COMPACT 0 v)).
Proof.
  exists (JArray [JString "a"; JReal 0x3fb999999999999a; JObject (mkTable 0 [("k", JNull)])]). split; [done|].
  by apply (json_dumps_text (λ _, true)).
Defined.
