(* ===== verification/JsonLoad.v ===== *)
(** * Reading JSON ([src/deps/jansson/src/load.c])

    The lexical analyser, which reads its input a UTF-8 sequence at a time with one
    character of look-ahead and keeps the text of the current token in a string
    buffer, and the recursive-descent parser on top of it. A character is an [int]
    read through a signed [char]: bytes from 0x80 on are negative. A failed
    assertion is undefined behaviour. The loops are bounded by the input left.
    Lines, columns and positions, which only error messages use, and the messages
    themselves are left out; so is the release of token strings. *)

From S2P Require Import Prelude Float Utf8 StrBuffer RealText Jansson.
Local Open Scope Z_scope.

Definition STREAM_STATE_OK : Z := 0.
Definition STREAM_STATE_EOF : Z := -1.
Definition STREAM_STATE_ERROR : Z := -2.

Definition TOKEN_INVALID : Z := -1.
Definition TOKEN_EOF : Z := 0.
Definition TOKEN_STRING : Z := 256.
Definition TOKEN_INTEGER : Z := 257.
Definition TOKEN_REAL : Z := 258.
Definition TOKEN_TRUE : Z := 259.
Definition TOKEN_FALSE : Z := 260.
Definition TOKEN_NULL : Z := 261.

Definition JSON_REJECT_DUPLICATES : Z := 0x1.
Definition JSON_DISABLE_EOF_CHECK : Z := 0x2.
Definition JSON_DECODE_ANY : Z := 0x4.

Definition l_isupper (c : Z) : bool := (65 <=? c) && (c <=? 90).
Definition l_islower (c : Z) : bool := (97 <=? c) && (c <=? 122).
Definition l_isalpha (c : Z) : bool := l_isupper c || l_islower c.
Definition l_isxdigit (c : Z) : bool :=
  l_isdigit c || ((65 <=? c) && (c <=? 70)) || ((97 <=? c) && (c <=? 102)).

(** ** The input stream *)

(** The input is the bytes the source has left. *)
Record stream_t := mkStream { st_data : bytes; st_buffer : bytes; st_pos : Z; st_state : Z }.

Definition EOF : Z := -1.

(** The next byte as an unsigned [char], or EOF. *)
Definition buffer_get (data : bytes) : bytes * Z :=
  match data with c :: data => (data, c) | [] => ([], EOF) end.

Definition stream_init (data : bytes) : stream_t := mkStream data (zeros 5) 0 STREAM_STATE_OK.

(** [for(i = 1; i < count; i++) buffer[i] = get(data)]; EOF becomes 0xFF. *)
Fixpoint stream_fill (n : nat) (i : Z) (data buffer : bytes) : exec (bytes * bytes) :=
  match n with
  | O => Val (data, buffer)
  | S n =>
      let '(data, c) := buffer_get data in
      buffer ← memcpy_to buffer i [u8 c];
      stream_fill n (i + 1) data buffer
  end.

(** The next UTF-8 sequence into the buffer; [None] for the end of the input,
    [Some None] for bytes that are not UTF-8. *)
Definition stream_refill (s : stream_t) : exec (bytes * option (option bytes)) :=
  let '(data, c) := buffer_get (st_data s) in
  if c =? EOF then Val (data, None)
  else
    buffer ← memcpy_to (st_buffer s) 0 [u8 c];
    if (0x80 <=? c) && (c <=? 0xFF) then
      let count := utf8_check_first c in
      if count =? 0 then Val (data, Some None)
      else
        _ ← require (2 <=? count);
        '(data, buffer) ← stream_fill (Z.to_nat (count - 1)) 1 data buffer;
        match utf8_check_full buffer count with
        | None => Val (data, Some None)
        | Some _ => buffer ← memcpy_to buffer count [0]; Val (data, Some (Some buffer))
        end
    else buffer ← memcpy_to buffer 1 [0]; Val (data, Some (Some buffer)).

Definition stream_get (s : stream_t) : exec (stream_t * Z) :=
  if negb (st_state s =? STREAM_STATE_OK) then Val (s, st_state s)
  else
    b ← rd (st_buffer s) (st_pos s);
    if b =? 0 then
      '(data, r) ← stream_refill s;
      match r with
      | None => Val (mkStream data (st_buffer s) (st_pos s) STREAM_STATE_EOF, STREAM_STATE_EOF)
      | Some None => Val (mkStream data (st_buffer s) 0 STREAM_STATE_ERROR, STREAM_STATE_ERROR)
      | Some (Some buffer) => c ← rd buffer 0; Val (mkStream data buffer 1 STREAM_STATE_OK, s8 c)
      end
    else Val (mkStream (st_data s) (st_buffer s) (st_pos s + 1) STREAM_STATE_OK, s8 b).

Definition is_end (c : Z) : bool := (c =? STREAM_STATE_EOF) || (c =? STREAM_STATE_ERROR).

Definition stream_unget (s : stream_t) (c : Z) : exec stream_t :=
  if is_end c then Val s
  else
    _ ← require (0 <? st_pos s);
    b ← rd (st_buffer s) (st_pos s - 1);
    _ ← require (s8 b =? c);
    Val (mkStream (st_data s) (st_buffer s) (st_pos s - 1) (st_state s)).

(** ** The lexer *)

(** The union [value]; the token says which part holds. *)
Inductive lex_value := LvString (string : option bytes) | LvInteger (integer : Z) | LvReal (real : Z).

Record lex_t := mkLex { lx_stream : stream_t; lx_saved : strbuffer_t; lx_token : Z; lx_value : lex_value }.

(** Lexer and parser as state-passing programs. *)
Definition lexer (A : Type) : Type := lex_t → exec (lex_t * A).

#[export] Instance lexer_ret : MRet lexer := λ A a lx, Val (lx, a).
#[export] Instance lexer_bind : MBind lexer := λ A B f m lx, '(lx, a) ← m lx; f a lx.

Definition lx_gets {A} (f : lex_t → A) : lexer A := λ lx, Val (lx, f lx).
Definition lx_modify (f : lex_t → lex_t) : lexer unit := λ lx, Val (f lx, tt).
Definition lx_lift {A} (e : exec A) : lexer A := λ lx, a ← e; Val (lx, a).

Definition set_stream (s : stream_t) (lx : lex_t) : lex_t := mkLex s (lx_saved lx) (lx_token lx) (lx_value lx).
Definition set_saved (b : strbuffer_t) (lx : lex_t) : lex_t := mkLex (lx_stream lx) b (lx_token lx) (lx_value lx).
Definition set_token (t : Z) (lx : lex_t) : lex_t := mkLex (lx_stream lx) (lx_saved lx) t (lx_value lx).
Definition set_value (v : lex_value) (lx : lex_t) : lex_t := mkLex (lx_stream lx) (lx_saved lx) (lx_token lx) v.

(** A bound on the characters that can still be read. *)
Definition lx_left (lx : lex_t) : nat := (length (st_data (lx_stream lx)) + 8)%nat.

Section Lexer.
Context (malloc : Z → bool).

Definition lex_get : lexer Z := λ lx, '(s, c) ← stream_get (lx_stream lx); Val (set_stream s lx, c).

(** A byte that cannot be appended is lost. *)
Definition lex_save (c : Z) : lexer unit :=
  λ lx, '(_, b) ← strbuffer_append_byte malloc (lx_saved lx) (u8 c); Val (set_saved b lx, tt).

Definition lex_get_save : lexer Z :=
  c ← lex_get;
  (if is_end c then mret tt else lex_save c);;
  mret c.

Definition lex_unget (c : Z) : lexer unit := λ lx, s ← stream_unget (lx_stream lx) c; Val (set_stream s lx, tt).

Definition lex_unget_unsave (c : Z) : lexer unit :=
  if is_end c then mret tt
  else
    lex_unget c;;
    d ← (λ lx, '(d, b) ← strbuffer_pop (lx_saved lx); Val (set_saved b lx, d)) : lexer Z;
    lx_lift (require (c =? s8 d)).

Fixpoint lex_save_cached_loop (fuel : nat) : lexer unit :=
  match fuel with
  | O => λ _, NoFuel
  | S fuel =>
      s ← lx_gets lx_stream;
      b ← lx_lift (rd (st_buffer s) (st_pos s));
      if b =? 0 then mret tt
      else
        lex_save b;;
        lx_modify (set_stream (mkStream (st_data s) (st_buffer s) (st_pos s + 1) (st_state s)));;
        lex_save_cached_loop fuel
  end.

(** The buffer has five bytes. *)
Definition lex_save_cached : lexer unit := lex_save_cached_loop 6.

(** *** Strings *)

(** A pointer into the saved text is the list of the bytes from it up to the
    terminator. *)
Definition hex_value (c : Z) : exec Z :=
  if l_isdigit c then Val (c - 48)
  else if l_islower c then Val (c - 97 + 10)
  else if l_isupper c then Val (c - 65 + 10)
  else UB.

Fixpoint hex_run (n : nat) (value : Z) (str : bytes) : exec Z :=
  match n, str with
  | O, _ => Val value
  | S n, c :: str => d ← hex_value c; hex_run n (Z.shiftl value 4 + d) str
  | S _, [] => UB
  end.

Definition decode_unicode_escape (str : bytes) : exec Z :=
  match str with
  | c :: digits => _ ← require (c =? 117); hex_run 4 0 digits
  | [] => UB
  end.

(** [for(i = 0; i < 4; i++)]: the character after the digits, or [None]. *)
Fixpoint scan_hex (n : nat) (c : Z) : lexer (option Z) :=
  match n with
  | O => mret (Some c)
  | S n => if negb (l_isxdigit c) then mret None else c ← lex_get_save; scan_hex n c
  end.

Definition is_short_escape (c : Z) : bool :=
  (c =? 34) || (c =? 92) || (c =? 47) || (c =? 98) || (c =? 102) || (c =? 110) || (c =? 114) || (c =? 116).

(** The first loop, up to the closing quote; [false] for [goto out]. *)
Fixpoint scan_string_loop (fuel : nat) (c : Z) : lexer bool :=
  match fuel with
  | O => λ _, NoFuel
  | S fuel =>
      if c =? 34 then mret true
      else if is_end c then mret false
      else if (0 <=? c) && (c <=? 0x1F) then lex_unget_unsave c;; mret false
      else if c =? 92 then
        c ← lex_get_save;
        if c =? 117 then
          c ← lex_get_save;
          r ← scan_hex 4 c;
          match r with
          | None => mret false
          | Some c => scan_string_loop fuel c
          end
        else if is_short_escape c then c ← lex_get_save; scan_string_loop fuel c
        else mret false
      else c ← lex_get_save; scan_string_loop fuel c
  end.

Definition short_escape (c : Z) : exec Z :=
  if (c =? 34) || (c =? 92) || (c =? 47) then Val c
  else if c =? 98 then Val 8
  else if c =? 102 then Val 12
  else if c =? 110 then Val 10
  else if c =? 114 then Val 13
  else if c =? 116 then Val 9
  else UB.

(** The code point of the escape whose u [p] points to, and the pointer after it;
    [None] for [goto out]. *)
Definition unicode_escape (p : bytes) : exec (option (Z * bytes)) :=
  value ← decode_unicode_escape p;
  let p := drop 5 p in
  if (0xD800 <=? value) && (value <=? 0xDBFF) then
    match p with
    | a :: ((b :: _) as p') =>
        if (a =? 92) && (b =? 117) then
          value2 ← decode_unicode_escape p';
          if (0xDC00 <=? value2) && (value2 <=? 0xDFFF)
          then Val (Some (Z.shiftl (value - 0xD800) 10 + (value2 - 0xDC00) + 0x10000, drop 5 p'))
          else Val None
        else Val None
    | _ => Val None
    end
  else if (0xDC00 <=? value) && (value <=? 0xDFFF) then Val None
  else if value =? 0 then Val None
  else Val (Some (value, p)).

(** The second loop, from the saved text into a block of [cap] bytes. *)
Fixpoint decode_string_loop (fuel : nat) (cap : Z) (p t : bytes) : exec (option bytes) :=
  match fuel with
  | O => NoFuel
  | S fuel =>
      match p with
      | [] => UB
      | c :: p' =>
          if c =? 34 then _ ← require (zlen t <? cap); Val (Some t)
          else if c =? 92 then
            match p' with
            | [] => UB
            | e :: p'' =>
                if e =? 117 then
                  r ← unicode_escape p';
                  match r with
                  | None => Val None
                  | Some (value, p) =>
                      match utf8_encode value with
                      | None => UB
                      | Some buffer =>
                          _ ← require (zlen t + zlen buffer <=? cap);
                          decode_string_loop fuel cap p (t ++ buffer)
                      end
                  end
                else
                  b ← short_escape e;
                  _ ← require (zlen t <? cap);
                  decode_string_loop fuel cap p'' (t ++ [b])
            end
          else _ ← require (zlen t <? cap); decode_string_loop fuel cap p' (t ++ [c])
      end
  end.

Definition lex_scan_string : lexer unit :=
  lx_modify (set_value (LvString None));;
  lx_modify (set_token TOKEN_INVALID);;
  c ← lex_get_save;
  left ← lx_gets lx_left;
  ok ← scan_string_loop left c;
  if negb ok then mret tt
  else
    saved ← lx_gets lx_saved;
    if negb (malloc (sb_length saved + 1)) then mret tt
    else
      let p := drop 1 (strbuffer_value saved) in
      r ← lx_lift (decode_string_loop (S (length p)) (sb_length saved + 1) p []);
      match r with
      | None => mret tt
      | Some t => lx_modify (set_value (LvString (Some t)));; lx_modify (set_token TOKEN_STRING)
      end.

(** *** Numbers *)

(** [strtoll] of a text that starts with an optional minus sign and a digit: the
    value, whether [errno] is [ERANGE], and [*end]. *)
Definition strtoll (s : bytes) : Z * bool * bytes :=
  let '(neg, s) := match s with c :: s' => if c =? chr_minus then (true, s') else (false, s) | [] => (false, s) end in
  let '(ds, s) := span_digits s in
  let v := if neg : bool then - digits_val ds else digits_val ds in
  if v >? 2 ^ 63 - 1 then (2 ^ 63 - 1, true, s)
  else if v <? - 2 ^ 63 then (- 2 ^ 63, true, s)
  else (v, false, s).

(** [while(l_isdigit(c)) c = lex_get_save(lex)]. *)
Fixpoint scan_digits (fuel : nat) (c : Z) : lexer Z :=
  match fuel with
  | O => λ _, NoFuel
  | S fuel => if l_isdigit c then c ← lex_get_save; scan_digits fuel c else mret c
  end.

Definition scan_more_digits : lexer Z := c ← lex_get_save; left ← lx_gets lx_left; scan_digits left c.

(** The integer part: the character after it, or [None] for [goto out]. *)
Definition scan_int_part (c : Z) : lexer (option Z) :=
  if c =? 48 then
    c ← lex_get_save;
    if l_isdigit c then lex_unget_unsave c;; mret None else mret (Some c)
  else if l_isdigit c then c ← scan_more_digits; mret (Some c)
  else lex_unget_unsave c;; mret None.

Definition scan_integer (c : Z) : lexer bool :=
  lex_unget_unsave c;;
  saved ← lx_gets lx_saved;
  let '(value, erange, end_) := strtoll (strbuffer_value saved) in
  if erange : bool then mret false
  else
    lx_lift (require (bool_decide (end_ = []) && (sb_length saved =? zlen (strbuffer_value saved))));;
    lx_modify (set_token TOKEN_INTEGER);;
    lx_modify (set_value (LvInteger value));;
    mret true.

(** The fraction after a point; the point is saved, the character after it only
    when it is a digit. *)
Definition scan_fraction (c : Z) : lexer (option Z) :=
  if c =? 46 then
    c ← lex_get;
    if negb (l_isdigit c) then lex_unget c;; mret None
    else lex_save c;; c ← scan_more_digits; mret (Some c)
  else mret (Some c).

Definition scan_exponent (c : Z) : lexer (option Z) :=
  if (c =? 69) || (c =? 101) then
    c ← lex_get_save;
    c ← (if (c =? 43) || (c =? 45) then lex_get_save else mret c);
    if negb (l_isdigit c) then lex_unget_unsave c;; mret None
    else c ← scan_more_digits; mret (Some c)
  else mret (Some c).

Definition scan_real (c : Z) : lexer bool :=
  lex_unget_unsave c;;
  saved ← lx_gets lx_saved;
  lx_lift (require (sb_length saved =? zlen (strbuffer_value saved)));;
  r ← lx_lift (jsonp_strtod (strbuffer_value saved));
  match r with
  | None => mret false
  | Some value =>
      lx_modify (set_token TOKEN_REAL);;
      lx_modify (set_value (LvReal value));;
      mret true
  end.

(** [true] for the return value 0. *)
Definition lex_scan_number (c : Z) : lexer bool :=
  lx_modify (set_token TOKEN_INVALID);;
  c ← (if c =? 45 then lex_get_save else mret c);
  r ← scan_int_part c;
  match r with
  | None => mret false
  | Some c =>
      if negb (c =? 46) && negb (c =? 69) && negb (c =? 101) then scan_integer c
      else
        r ← scan_fraction c;
        match r with
        | None => mret false
        | Some c =>
            r ← scan_exponent c;
            match r with
            | None => mret false
            | Some c => scan_real c
            end
        end
  end.

(** *** Tokens *)

Fixpoint skip_space (fuel : nat) (c : Z) : lexer Z :=
  match fuel with
  | O => λ _, NoFuel
  | S fuel =>
      if (c =? 32) || (c =? 9) || (c =? 10) || (c =? 13) then c ← lex_get; skip_space fuel c else mret c
  end.

Fixpoint scan_alpha (fuel : nat) (c : Z) : lexer Z :=
  match fuel with
  | O => λ _, NoFuel
  | S fuel => if l_isalpha c then c ← lex_get_save; scan_alpha fuel c else mret c
  end.

Definition is_punctuation (c : Z) : bool :=
  (c =? 123) || (c =? 125) || (c =? 91) || (c =? 93) || (c =? 58) || (c =? 44).

Definition lex_clear : lexer unit := λ lx, b ← strbuffer_clear (lx_saved lx); Val (set_saved b lx, tt).

Definition keyword_token (text : bytes) : Z :=
  if bool_decide (text = bytes_of "true") then TOKEN_TRUE
  else if bool_decide (text = bytes_of "false") then TOKEN_FALSE
  else if bool_decide (text = bytes_of "null") then TOKEN_NULL
  else TOKEN_INVALID.

(** The token that starts with [c], which has been saved. *)
Definition lex_scan_rest (c : Z) : lexer unit :=
  if is_punctuation c then lx_modify (set_token c)
  else if c =? 34 then lex_scan_string
  else if l_isdigit c || (c =? 45) then _ ← lex_scan_number c; mret tt
  else if l_isalpha c then
    c ← lex_get_save;
    left ← lx_gets lx_left;
    c ← scan_alpha left c;
    lex_unget_unsave c;;
    saved ← lx_gets lx_saved;
    lx_modify (set_token (keyword_token (strbuffer_value saved)))
  else
    lex_save_cached;;
    lx_modify (set_token TOKEN_INVALID).

(** The end of the input or text that is not UTF-8 gives a token at once. *)
Definition lex_scan_token (c : Z) : lexer unit :=
  if c =? STREAM_STATE_EOF then lx_modify (set_token TOKEN_EOF)
  else if c =? STREAM_STATE_ERROR then lx_modify (set_token TOKEN_INVALID)
  else lex_save c;; lex_scan_rest c.

Definition lex_scan : lexer unit :=
  lex_clear;;
  c ← lex_get;
  left ← lx_gets lx_left;
  c ← skip_space left c;
  lex_scan_token c.

Definition lex_steal_string : lexer (option bytes) :=
  tok ← lx_gets lx_token;
  v ← lx_gets lx_value;
  if tok =? TOKEN_STRING then
    match v with
    | LvString s => lx_modify (set_value (LvString None));; mret s
    | _ => lx_lift UB
    end
  else mret None.

(** ** The parser *)

Section Parser.
Context (flags : Z).

Section Step.
Context (parse_value : lexer (option json_t)).

(** [while(1)]. *)
Fixpoint object_loop (fuel : nat) (object : json_t) : lexer (option json_t) :=
  match fuel with
  | O => λ _, NoFuel
  | S fuel =>
      tok ← lx_gets lx_token;
      if negb (tok =? TOKEN_STRING) then mret None
      else
        k ← lex_steal_string;
        match k with
        | None => mret None
        | Some k =>
            let key := string_of k in
            if negb (Z.land flags JSON_REJECT_DUPLICATES =? 0) && bool_decide (is_Some (json_object_get (Some object) key))
            then mret None
            else
              lex_scan;;
              tok ← lx_gets lx_token;
              if negb (tok =? 58) then mret None
              else
                lex_scan;;
                v ← parse_value;
                match v with
                | None => mret None
                | Some v =>
                    let object := json_object_set_new_nocheck object key (Some v) in
                    lex_scan;;
                    tok ← lx_gets lx_token;
                    if negb (tok =? 44) then
                      if negb (tok =? 125) then mret None else mret (Some object)
                    else lex_scan;; object_loop fuel object
                end
        end
  end.

Definition parse_object (fuel : nat) : lexer (option json_t) :=
  lex_scan;;
  tok ← lx_gets lx_token;
  if tok =? 125 then mret (Some json_object) else object_loop fuel json_object.

(** [while(lex->token)]. *)
Fixpoint array_loop (fuel : nat) (array : json_t) : lexer (option json_t) :=
  match fuel with
  | O => λ _, NoFuel
  | S fuel =>
      tok ← lx_gets lx_token;
      if tok =? 0 then mret None
      else
        elem ← parse_value;
        match elem with
        | None => mret None
        | Some elem =>
            let array := json_array_append_new array (Some elem) in
            lex_scan;;
            tok ← lx_gets lx_token;
            if negb (tok =? 44) then
              if negb (tok =? 93) then mret None else mret (Some array)
            else lex_scan;; array_loop fuel array
        end
  end.

Definition parse_array (fuel : nat) : lexer (option json_t) :=
  lex_scan;;
  tok ← lx_gets lx_token;
  if tok =? 93 then mret (Some (JArray [])) else array_loop fuel (JArray []).
End Step.

Fixpoint parse_value (fuel : nat) : lexer (option json_t) :=
  match fuel with
  | O => λ _, NoFuel
  | S fuel =>
      tok ← lx_gets lx_token;
      v ← lx_gets lx_value;
      if tok =? TOKEN_STRING then
        match v with LvString s => mret (json_string_nocheck (option_map string_of s)) | _ => lx_lift UB end
      else if tok =? TOKEN_INTEGER then match v with LvInteger n => mret (Some (JInteger n)) | _ => lx_lift UB end
      else if tok =? TOKEN_REAL then match v with LvReal x => mret (json_real x) | _ => lx_lift UB end
      else if tok =? TOKEN_TRUE then mret (Some JTrue)
      else if tok =? TOKEN_FALSE then mret (Some JFalse)
      else if tok =? TOKEN_NULL then mret (Some JNull)
      else if tok =? 123 then parse_object (parse_value fuel) fuel
      else if tok =? 91 then parse_array (parse_value fuel) fuel
      else mret None
  end.

Definition parse_json (fuel : nat) : lexer (option json_t) :=
  lex_scan;;
  tok ← lx_gets lx_token;
  if (Z.land flags JSON_DECODE_ANY =? 0) && negb (tok =? 91) && negb (tok =? 123) then mret None
  else
    result ← parse_value fuel;
    match result with
    | None => mret None
    | Some result =>
        if Z.land flags JSON_DISABLE_EOF_CHECK =? 0 then
          lex_scan;;
          tok ← lx_gets lx_token;
          if negb (tok =? TOKEN_EOF) then mret None else mret (Some result)
        else mret (Some result)
    end.
End Parser.

Definition lex_init (data : bytes) : exec (option lex_t) :=
  b ← strbuffer_init malloc;
  Val (option_map (λ b, mkLex (stream_init data) b TOKEN_INVALID (LvString None)) b).

(** [json_loadb] of a buffer that is not NULL; [None] is NULL. *)
Definition json_loadb (buffer : bytes) (flags : Z) : exec (option json_t) :=
  lex ← lex_init buffer;
  match lex with
  | None => Val None
  | Some lex => '(_, result) ← parse_json flags (length buffer + 2) lex; Val result
  end.

(** [read path] is the content of a file, [None] when it cannot be opened. *)
Definition json_load_file (read : string → option bytes) (path : string) (flags : Z) : exec (option json_t) :=
  match read path with
  | None => Val None
  | Some input => json_loadb input flags
  end.
End Lexer.

Example load_examples :
  let q := string_of [34] in
  let load s := json_loadb (λ _, true) (bytes_of s) 0 in
  load (" { " +:+ q +:+ "a\u00e9" +:+ q +:+ " : [1, -2.5e0, true, null] } ") =
    Val (Some (JObject (mkTable 0 [("aé", JArray [JInteger 1; JReal 0xc004000000000000; JTrue; JNull])]))) ∧
  load ("[" +:+ q +:+ "\ud83d\ude00\n" +:+ q +:+ "]") = Val (Some (JArray [JString (string_of [0xF0; 0x9F; 0x98; 0x80; 10])])) ∧
  load "[1, 2" = Val None ∧ load "[01]" = Val None ∧ load "1" = Val None ∧ load "" = Val None ∧
  load "[9223372036854775807, -9223372036854775808]" = Val (Some (JArray [JInteger (2 ^ 63 - 1); JInteger (- 2 ^ 63)])) ∧
  load "[9223372036854775808]" = Val None ∧
  json_loadb (λ _, true) [91; 255; 93] 0 = Val None ∧ json_loadb (λ _, true) [91; 0xC3] 0 = Val None.
Proof. vm_compute. done. Qed.
