(* ===== verification/JsonLex.v ===== *)
(** * The lexer, character by character

    [stream_at s pre suf data]: the stream has delivered [pre] of the current UTF-8
    sequence and will deliver its rest [suf], then the sequences of [data]. [lx_at]
    adds the text saved so far, the token and its value. The lemmas say what
    getting, saving and ungetting a character do, for any input. *)

From S2P Require Import Prelude Float Utf8 StrBuffer RealText Jansson JsonLoad.
Local Open Scope Z_scope.

(** ** Bytes of characters *)

Lemma char_bytes c cp : is_char c cp → Forall (λ b, 0 ≤ b < 0xF5) c ∧ (cp ≠ 0 → Forall (λ b, 0 < b) c).
Proof.
  intros [[-> Hcp]|(u & l & -> & Hf & Hl & Hc)]; [split; [|intros]; (constructor; [lia|constructor])|].
  apply check_full_inv in Hc; [|done]. pose proof (check_first_cases u) as Hu. rewrite Hf in Hu.
  destruct l as [|v [|w [|x [|]]]]; try done; unfold zlen in Hu; simpl length in Hu.
  all: split; [|intros _]; repeat (constructor; [lia|]); constructor.
Qed.

(** A character of more than one byte has none below 0x80. *)
Lemma char_high c cp : is_char c cp → 2 ≤ zlen c → Forall (λ b, 0x80 ≤ b) c.
Proof.
  intros [[-> Hcp]|(u & l & -> & Hf & Hl & Hc)] H2; [done|].
  apply check_full_inv in Hc; [|done]. pose proof (check_first_cases u) as Hu. rewrite Hf in Hu.
  destruct l as [|v [|w [|x [|]]]]; try done; unfold zlen in Hu; simpl length in Hu.
  all: repeat (constructor; [lia|]); constructor.
Qed.

Lemma char_zero c cp : is_char c cp → cp = 0 ↔ c = [0].
Proof.
  intros Hc. split.
  - intros ->. destruct Hc as [[-> _]|(u & l & -> & Hf & Hl & Hc)]; [done|]. apply check_full_inv in Hc; [|done].
    destruct l as [|v [|w [|x [|]]]]; try done; lia.
  - intros ->. destruct Hc as [[[= ->] _]|(u & l & E & Hf & Hl & _)]; [done|]. rewrite E in Hl. apply (f_equal length) in E.
    unfold zlen in Hl. simpl in *. lia.
Qed.

(** ** The stream *)

Record stream_at (s : stream_t) (pre suf data : bytes) : Prop := {
  sa_state : st_state s = STREAM_STATE_OK;
  sa_data : st_data s = data;
  sa_buffer : ∃ junk, st_buffer s = pre ++ suf ++ 0 :: junk ∧ length (st_buffer s) = 5%nat;
  sa_pos : st_pos s = zlen pre;
  sa_suf : Forall (λ b, 0 < b < 0xF5) suf;
  sa_pre : Forall (λ b, 0 ≤ b < 0xF5) pre
}.

Lemma stream_init_at data : stream_at (stream_init data) [] [] data.
Proof. split; try done. by exists [0; 0; 0; 0]. Qed.

Lemma get_buffered s pre b suf data : stream_at s pre (b :: suf) data →
  ∃ s', stream_get s = Val (s', s8 b) ∧ stream_at s' (pre ++ [b]) suf data.
Proof.
  intros [H1 H2 (junk & H3 & H3') H4 H5 H6]. unfold stream_get. rewrite H1. cbn [negb Z.eqb STREAM_STATE_OK].
  rewrite H3. cbn [app]. rewrite rd_middle by done. rewrite bind_Val. apply Forall_cons in H5 as [Hb H5].
  rewrite (proj2 (Z.eqb_neq b 0)) by lia. eexists. split; [done|]. split; cbn; try done.
  - exists junk. rewrite <- app_assoc. rewrite H3 in H3'. by split.
  - rewrite zlen_app. change (zlen [b]) with 1. lia.
  - apply Forall_app. split; [done|]. constructor; [lia|constructor].
Qed.

Lemma get_eof s pre : stream_at s pre [] [] →
  ∃ s', stream_get s = Val (s', STREAM_STATE_EOF) ∧ st_state s' = STREAM_STATE_EOF.
Proof.
  intros [H1 H2 (junk & H3 & H3') H4 H5 H6]. unfold stream_get. rewrite H1. cbn [negb Z.eqb STREAM_STATE_OK].
  rewrite H3. cbn [app]. rewrite rd_middle by done. rewrite bind_Val. cbn [Z.eqb]. unfold stream_refill. rewrite H2. by eexists.
Qed.

Lemma fill_spec n : ∀ i data buffer, 1 ≤ i → i + Z.of_nat n ≤ zlen buffer → Forall is_byte data →
  ∃ read data', stream_fill n i data buffer =
      Val (data', take (Z.to_nat i) buffer ++ read ++ drop (Z.to_nat i + n) buffer) ∧
    length read = n ∧ Forall is_byte read ∧
    (∃ k, read = take n data ++ replicate k 255 ∧ data' = drop n data).
Proof.
  induction n as [|n IH]; intros i data buffer Hi Hn Hd; cbn [stream_fill].
  { exists [], data. rewrite Nat.add_0_r. cbn [app]. rewrite take_drop. split; [done|]. split; [done|]. split; [done|]. by exists 0%nat. }
  set (c := snd (buffer_get data)). set (data1 := fst (buffer_get data)).
  assert (buffer_get data = (data1, c)) as -> by (by destruct data).
  assert (is_byte (u8 c)) as Hc by (by apply wrap_range).
  assert (Forall is_byte data1) as Hd1 by (destruct data; [done|]; by apply Forall_cons in Hd as [_ ?]).
  rewrite memcpy_to_eq by (change (zlen [u8 c]) with 1; lia). rewrite bind_Val. cbn [length].
  set (buffer1 := take (Z.to_nat i) buffer ++ [u8 c] ++ drop (Z.to_nat i + 1) buffer).
  assert (length (take (Z.to_nat i) buffer) = Z.to_nat i) as Ht by (rewrite length_take; unfold zlen in Hn; lia).
  assert (zlen buffer1 = zlen buffer) as Hb1.
  { unfold buffer1, zlen in *. rewrite !length_app, Ht, length_drop. simpl. lia. }
  destruct (IH (i + 1) data1 buffer1) as (read & data' & -> & Hl & Hr & k & Er & Ed); [lia..|done|].
  exists (u8 c :: read), data'. split; [|split; [simpl; lia|split; [by constructor|]]].
  - f_equal. f_equal. replace (Z.to_nat (i + 1)) with (Z.to_nat i + 1)%nat by lia. unfold buffer1.
    rewrite (take_app_ge (take (Z.to_nat i) buffer)) by lia. rewrite Ht.
    replace (Z.to_nat i + 1 - Z.to_nat i)%nat with 1%nat by lia. cbn [app take]. rewrite take_0, <- app_assoc. cbn [app]. do 3 f_equal.
    rewrite (drop_app_ge (take (Z.to_nat i) buffer)) by lia. rewrite Ht.
    replace (Z.to_nat i + 1 + n - Z.to_nat i)%nat with (S n) by lia. cbn [app drop]. rewrite drop_drop. f_equal. lia.
  - destruct data as [|x data].
    + exists (S k). rewrite take_nil in *. rewrite Er. split; [done|].
      rewrite Ed. unfold data1. cbn [buffer_get fst]. by rewrite !drop_nil.
    + apply Forall_cons in Hd as [Hx _]. exists k. cbn [take drop app]. unfold c. cbn [buffer_get snd].
      rewrite u8_byte, Er by done. done.
Qed.

(** The next sequence of the source: a character, or an error. *)
Lemma get_data s pre b data : stream_at s pre [] (b :: data) → Forall is_byte (b :: data) →
  (∃ l rest cp s', data = l ++ rest ∧ is_char (b :: l) cp ∧ stream_get s = Val (s', s8 b) ∧ stream_at s' [b] l rest) ∨
  (∃ s', stream_get s = Val (s', STREAM_STATE_ERROR) ∧ st_state s' = STREAM_STATE_ERROR ∧
     ∀ l rest cp, data = l ++ rest → ¬ is_char (b :: l) cp).
Proof.
  intros [H1 H2 (junk & H3 & H3') H4 H5 H6] Hd. pose proof Hd as [Hb Hd']%Forall_cons. unfold is_u in Hb.
  assert (∃ x0 x1 x2 x3 x4, st_buffer s = [x0; x1; x2; x3; x4]) as (x0 & x1 & x2 & x3 & x4 & Ebuf).
  { clear -H3'. destruct (st_buffer s) as [|x0 [|x1 [|x2 [|x3 [|x4 [|]]]]]]; simpl in H3'; try lia. by eexists _, _, _, _, _. }
  assert (rd (st_buffer s) (st_pos s) = Val 0) as Hrd by (rewrite H3; cbn [app]; by apply rd_middle).
  assert (Forall (λ b, 0 ≤ b < 0xF5) [b] → ∀ l rest buf, stream_at (mkStream rest buf 1 STREAM_STATE_OK) [b] l rest ↔
    ((∃ junk, buf = b :: l ++ 0 :: junk ∧ length buf = 5%nat) ∧ Forall (λ b, 0 < b < 0xF5) l)) as Hat.
  { intros Hb' l rest buf. split.
    - intros [_ _ (j & E & El) _ Hs _]. split; [exists j; split; [exact E|exact El]|exact Hs].
    - intros [(j & E & El) Hs]. split; try done. exists j. split; [exact E|exact El]. }
  unfold stream_get. rewrite H1. cbn [negb Z.eqb STREAM_STATE_OK]. rewrite Hrd, bind_Val. cbn [Z.eqb].
  unfold stream_refill. rewrite H2. cbn [buffer_get]. unfold EOF. rewrite (proj2 (Z.eqb_neq b (-1))) by lia.
  rewrite Ebuf, memcpy_to_head, bind_Val, u8_byte by (unfold is_u; lia).
  destruct ((0x80 <=? b) && (b <=? 0xFF)) eqn:Ehigh.
  - set (count := utf8_check_first b). pose proof (check_first_cases b) as Hcases. fold count in Hcases.
    assert (∀ l rest cp, data = l ++ rest → is_char (b :: l) cp → zlen (b :: l) = count ∧ 2 ≤ count ∧
      utf8_check_full (b :: data) count = Some cp) as Hchar.
    { intros l rest cp -> [[[= <- ->] Hcp]|(u & l' & [= <- <-] & Hf & Hl & Hc)]; [blia|]. fold count in Hf. rewrite <- Hf in Hl, Hc.
      split; [done|]. split; [done|]. change (b :: l ++ rest) with ((b :: l) ++ rest).
      rewrite check_full_app; [done..|]. rewrite Hf. unfold zlen. lia. }
    destruct (Z.eqb_spec count 0) as [E0|E0].
    { right. eexists. split; [done|]. split; [done|]. intros l rest cp Ed Hc. destruct (Hchar l rest cp Ed Hc). lia. }
    assert (2 ≤ count ≤ 4) as Hcount by blia. rewrite require_true, bind_Val by blia.
    destruct (fill_spec (Z.to_nat (count - 1)) 1 data [b; x1; x2; x3; x4]) as (read & data' & -> & Hl & Hr & k & Er & Ed');
      [lia|unfold zlen; simpl length; lia|done|].
    rewrite bind_Val. change (take (Z.to_nat 1) [b; x1; x2; x3; x4]) with [b]. cbn [app].
    change (b :: read ++ drop (Z.to_nat 1 + Z.to_nat (count - 1)) [b; x1; x2; x3; x4])
      with ((b :: read) ++ drop (Z.to_nat 1 + Z.to_nat (count - 1)) [b; x1; x2; x3; x4]).
    rewrite check_full_app by (done || simpl; lia).
    assert (zlen (b :: read) = count) as Hz by (unfold zlen; simpl; lia).
    destruct (utf8_check_full (b :: read) count) as [cp|] eqn:Ec.
    + assert (is_char (b :: read) cp) as Hc by (right; exists b, read; rewrite Hz; split; [done|]; split; [done|]; split; [lia|done]).
      pose proof (char_high _ _ Hc ltac:(lia)) as Hhigh. destruct (char_bytes _ _ Hc) as [Hlow _].
      assert (k = 0%nat) as ->.
      { destruct k; [done|]. exfalso. rewrite Er in Hlow. apply Forall_cons in Hlow as [_ Hlow].
        apply Forall_app in Hlow as [_ Hlow]. apply Forall_cons in Hlow as [Hx _]; lia. }
      rewrite app_nil_r in Er. left. exists read, data', cp.
      assert (∃ y ys, drop (Z.to_nat 1 + Z.to_nat (count - 1)) [b; x1; x2; x3; x4] = y :: ys ∧ (length ys = 3 - length read)%nat)
        as (y & ys & Ey & Hy).
      { clear -Hcount Hl. rewrite Hl. clear Hl. clearbody count.
        assert (count = 2 ∨ count = 3 ∨ count = 4) as [->|[-> | ->]] by lia; eexists _, _; split; reflexivity. }
      rewrite Ey. change (y :: ys) with ([y] ++ ys). rewrite memcpy_to_middle by done.
      rewrite bind_Val, bind_Val. cbn [app]. eexists. split; [rewrite Er, Ed'; by rewrite take_drop|]. split; [done|].
      split; [done|]. apply Forall_cons in Hlow as [Hlb Hlow].
      apply Hat; [by constructor; [|constructor]|].
      split; [exists ys; split; [done|]; simpl; rewrite length_app; simpl; lia|].
      apply Forall_cons in Hhigh as [_ Hhigh].
      rewrite Forall_forall in Hlow, Hhigh |- *. intros z Hz'. specialize (Hlow z Hz'). specialize (Hhigh z Hz'). simpl in *. lia.
    + right. eexists. split; [done|]. split; [done|]. intros l rest cp Ed Hc.
      destruct (Hchar l rest cp Ed Hc) as (Hz' & _ & Hcf). rewrite Ed in Hcf, Er.
      assert (read = l) as ->.
      { rewrite Er. rewrite take_app_length' by (unfold zlen in Hz'; simpl in Hz'; lia).
        destruct k; [by rewrite app_nil_r|]. exfalso. rewrite Er, length_app, length_take, length_app, length_replicate in Hl.
        unfold zlen in Hz'. simpl in Hz'. lia. }
      change (b :: l ++ rest) with ((b :: l) ++ rest) in Hcf. rewrite check_full_app in Hcf by (done || unfold zlen in Hz'; lia).
      congruence.
  - assert (b < 0x80) as Hlow by blia. left. exists [], data, b. rewrite memcpy_to_eq by (unfold zlen; simpl; lia).
    rewrite bind_Val, bind_Val. cbn [app take drop Z.to_nat]. eexists. split; [done|]. split; [left; split; [done|lia]|]. split; [done|].
    apply Hat; [constructor; [lia|constructor]|]. split; [by eexists|constructor].
Qed.

(** A byte is delivered from the buffer, or from the next sequence. *)
Inductive next : bytes * bytes * bytes → Z → bytes * bytes * bytes → Prop :=
| next_buffered pre b suf data : next (pre, b :: suf, data) b (pre ++ [b], suf, data)
| next_char pre b l rest cp : is_char (b :: l) cp → next (pre, [], b :: l ++ rest) b ([b], l, rest).

Lemma next_length pre suf data b pre' suf' data' : next (pre, suf, data) b (pre', suf', data') →
  zlen suf + zlen data = zlen suf' + zlen data' + 1.
Proof. inversion 1; subst; autorewrite with zlen; lia. Qed.

Lemma next_pre x b pre suf data : next x b (pre, suf, data) → ∃ p, pre = p ++ [b].
Proof. inversion 1; subst; [by eexists|by exists []]. Qed.

Lemma s8_low b : 0 ≤ b < 128 → s8 b = b.
Proof. intros. apply swrap_small; [lia|]. unfold is_s. lia. Qed.

(** Tests of a character against ASCII characters. *)
Lemma s8_eqb b k : 0 ≤ b < 256 → 0 ≤ k < 128 → (s8 b =? k) = (b =? k).
Proof.
  intros Hb Hk. destruct (Z.ltb_spec b 128); [by rewrite s8_low by lia|]. rewrite s8_high by lia.
  destruct (Z.eqb_spec (b - 256) k), (Z.eqb_spec b k); lia.
Qed.

Lemma s8_range_test b lo hi : 0 ≤ b < 256 → 0 ≤ lo → hi < 128 → (lo <=? s8 b) && (s8 b <=? hi) = (lo <=? b) && (b <=? hi).
Proof.
  intros Hb Hlo Hhi. destruct (Z.ltb_spec b 128); [by rewrite s8_low by lia|]. rewrite s8_high by lia.
  rewrite (proj2 (Z.leb_gt lo (b - 256))), (proj2 (Z.leb_gt b hi)), andb_false_r by lia. done.
Qed.

Lemma s8_isdigit b : 0 ≤ b < 256 → l_isdigit (s8 b) = l_isdigit b.
Proof. intros. by apply s8_range_test. Qed.

Lemma s8_isalpha b : 0 ≤ b < 256 → l_isalpha (s8 b) = l_isalpha b.
Proof. intros. unfold l_isalpha, l_isupper, l_islower. by rewrite !s8_range_test. Qed.

Lemma s8_isxdigit b : 0 ≤ b < 256 → l_isxdigit (s8 b) = l_isxdigit b.
Proof. intros. unfold l_isxdigit. by rewrite s8_isdigit, !s8_range_test. Qed.

Lemma s8_not_end b : 0 ≤ b < 0xF5 → is_end (s8 b) = false.
Proof.
  intros Hb. unfold is_end, STREAM_STATE_EOF, STREAM_STATE_ERROR.
  destruct (Z.ltb_spec b 128); [rewrite s8_low by lia|rewrite s8_high by lia]; rewrite !(proj2 (Z.eqb_neq _ _)) by lia; done.
Qed.

(** Nothing is left, or what is left does not start with a character. *)
Definition stuck (suf data : bytes) (c : Z) : Prop :=
  suf = [] ∧ ((data = [] ∧ c = STREAM_STATE_EOF) ∨
              (c = STREAM_STATE_ERROR ∧ data ≠ [] ∧ ∀ l rest cp, data = l ++ rest → ¬ is_char l cp)).

Lemma stream_get_cases s pre suf data : stream_at s pre suf data → Forall is_byte data →
  (∃ b pre' suf' data' s', next (pre, suf, data) b (pre', suf', data') ∧ stream_get s = Val (s', s8 b) ∧
     stream_at s' pre' suf' data') ∨
  (∃ c s', stream_get s = Val (s', c) ∧ is_end c = true ∧ st_state s' = c ∧ stuck suf data c).
Proof.
  intros Hs Hd. destruct suf as [|b suf]; [destruct data as [|b data]|].
  - right. destruct (get_eof s pre Hs) as (s' & E & Hs'). exists STREAM_STATE_EOF, s'.
    do 3 (split; [done|]). split; [done|]. by left.
  - destruct (get_data s pre b data Hs Hd) as [(l & rest & cp & s' & -> & Hc & E & Hs')|(s' & E & Hs' & Hno)].
    + left. exists b, [b], l, rest, s'. split; [by econstructor|done].
    + right. exists STREAM_STATE_ERROR, s'. do 3 (split; [done|]). split; [done|]. right. do 2 (split; [done|]).
      intros [|x l] rest cp Ed Hc; [by apply char_length in Hc as []|]. injection Ed as -> ->. by apply (Hno l rest cp).
  - left. destruct (get_buffered s pre b suf data Hs) as (s' & E & Hs'). exists b, (pre ++ [b]), suf, data, s'.
    split; [constructor|done].
Qed.

(** Ungetting the last byte; a NUL is lost. *)
Lemma stream_unget_at s pre b suf data : stream_at s (pre ++ [b]) suf data →
  ∃ s', stream_unget s (s8 b) = Val s' ∧ stream_at s' pre (if b =? 0 then [] else b :: suf) data.
Proof.
  intros [H1 H2 (junk & H3 & H3') H4 H5 H6]. apply Forall_app in H6 as [H6 [Hb _]%Forall_cons].
  unfold stream_unget. rewrite s8_not_end by done. rewrite H4, zlen_app. change (zlen [b]) with 1.
  pose proof (zlen_nonneg pre). rewrite require_true, bind_Val by (apply Z.ltb_lt; lia).
  replace (zlen pre + 1 - 1) with (zlen pre) by lia. rewrite H3, <- app_assoc. cbn [app]. rewrite rd_middle by done.
  rewrite bind_Val, Z.eqb_refl. eexists. split; [done|]. rewrite <- app_assoc in H3. cbn [app] in H3. rewrite H3 in H3'.
  destruct (Z.eqb_spec b 0) as [->|Hb0]; split; cbn; try done.
  - by eexists.
  - exists junk. by split.
  - constructor; [lia|done].
Qed.

(** ** The lexer *)

Record lx_at (B : Z) (lx : lex_t) (pre suf data text : bytes) (tok : Z) (val : lex_value) : Prop := {
  la_stream : stream_at (lx_stream lx) pre suf data;
  la_bytes : Forall is_byte data;
  la_saved : sb_rep B (lx_saved lx) text;
  la_room : zlen text + zlen suf + zlen data ≤ B;
  la_token : lx_token lx = tok;
  la_value : lx_value lx = val
}.

(** The stream has ended with [c], the end of the input or an error. *)
Record lx_end (B : Z) (lx : lex_t) (c : Z) (text : bytes) (tok : Z) (val : lex_value) : Prop := {
  le_state : st_state (lx_stream lx) = c;
  le_end : is_end c = true;
  le_saved : sb_rep B (lx_saved lx) text;
  le_room : zlen text ≤ B;
  le_token : lx_token lx = tok;
  le_value : lx_value lx = val
}.

Lemma lexer_bind_Val {A C} (m : lexer A) (f : A → lexer C) lx lx' a : m lx = Val (lx', a) → (m ≫= f) lx = f a lx'.
Proof. intros E. unfold mbind, lexer_bind. by rewrite E. Qed.

Section Ops.
Context (malloc : Z → bool) (Hmalloc : malloc_succeeds malloc).
Context (B : Z) (HB : 0 ≤ B < 2 ^ 61).

Lemma lex_get_at lx pre suf data text tok val : lx_at B lx pre suf data text tok val →
  (∃ b pre' suf' data' lx', next (pre, suf, data) b (pre', suf', data') ∧ lex_get lx = Val (lx', s8 b) ∧
     lx_at B lx' pre' suf' data' text tok val) ∨
  (∃ c lx', lex_get lx = Val (lx', c) ∧ lx_end B lx' c text tok val ∧ stuck suf data c).
Proof.
  intros [H1 H2 H3 H4 H5 H6]. unfold lex_get.
  destruct (stream_get_cases _ _ _ _ H1 H2) as [(b & pre' & suf' & data' & s' & Hn & -> & Hs')|(c & s' & -> & Hc & Hs' & Hst)];
    rewrite bind_Val.
  - left. exists b, pre', suf', data'. eexists. split; [done|]. split; [done|]. pose proof (next_length _ _ _ _ _ _ _ Hn).
    split; cbn; try done; [|lia]. inversion Hn; subst; [done|].
    rewrite app_comm_cons in H2. by apply Forall_app in H2 as [_ ?].
  - right. eexists _, _. split; [done|]. pose proof (zlen_nonneg suf). pose proof (zlen_nonneg data).
    split; [split; cbn; done || lia|done].
Qed.

Lemma lex_get_end lx c text tok val : lx_end B lx c text tok val → lex_get lx = Val (lx, c).
Proof.
  intros [H1 H2 _ _ _ _]. unfold lex_get, stream_get. rewrite H1. destruct (Z.eqb_spec c STREAM_STATE_OK) as [->|]; [done|].
  cbn. by destruct lx.
Qed.

Lemma lex_save_at lx pre suf data text tok val b : lx_at B lx pre suf data text tok val → 0 ≤ b < 256 →
  zlen text + zlen suf + zlen data + 1 ≤ B →
  ∃ lx', lex_save malloc (s8 b) lx = Val (lx', tt) ∧ lx_at B lx' pre suf data (text ++ [b]) tok val.
Proof.
  intros [H1 H2 H3 H4 H5 H6] Hb Hroom. unfold lex_save, strbuffer_append_byte.
  assert (u8 (s8 b) = b) as -> by (rewrite <- (u8_byte b) at 2 by (unfold is_u; lia); rewrite <- !land_s8_255;
    f_equal; unfold swrap; rewrite Z.sub_add, Zmod_mod; done).
  pose proof (zlen_nonneg suf). pose proof (zlen_nonneg data).
  destruct (append_rep malloc Hmalloc B HB (lx_saved lx) text [b] H3) as (sb & -> & R).
  { rewrite zlen_app. change (zlen [b]) with 1. lia. }
  rewrite bind_Val. eexists. split; [done|]. split; cbn; try done. rewrite zlen_app. change (zlen [b]) with 1. lia.
Qed.

Lemma lex_get_save_at lx pre suf data text tok val : lx_at B lx pre suf data text tok val →
  (∃ b pre' suf' data' lx', next (pre, suf, data) b (pre', suf', data') ∧ 0 ≤ b < 0xF5 ∧
     lex_get_save malloc lx = Val (lx', s8 b) ∧ lx_at B lx' pre' suf' data' (text ++ [b]) tok val) ∨
  (∃ c lx', lex_get_save malloc lx = Val (lx', c) ∧ lx_end B lx' c text tok val ∧ stuck suf data c).
Proof.
  intros H. pose proof (la_room _ _ _ _ _ _ _ _ H) as Hroom. unfold lex_get_save.
  destruct (lex_get_at _ _ _ _ _ _ _ H) as [(b & pre' & suf' & data' & lx' & Hn & E & H')|(c & lx' & E & H' & Hst)];
    rewrite (lexer_bind_Val _ _ _ _ _ E).
  - left. destruct (next_pre _ _ _ _ _ Hn) as [p Ep]. pose proof (sa_pre _ _ _ _ (la_stream _ _ _ _ _ _ _ _ H')) as Hp.
    rewrite Ep in Hp. apply Forall_app in Hp as [_ [Hb _]%Forall_cons]. rewrite s8_not_end by done.
    pose proof (next_length _ _ _ _ _ _ _ Hn).
    destruct (lex_save_at lx' pre' suf' data' text tok val b H' ltac:(lia) ltac:(lia)) as (lx2 & E2 & H2).
    exists b, pre', suf', data', lx2. split; [done|]. split; [done|]. by rewrite (lexer_bind_Val _ _ _ _ _ E2).
  - right. exists c, lx'. rewrite (le_end _ _ _ _ _ _ H'). done.
Qed.

Lemma lex_get_save_end lx c text tok val : lx_end B lx c text tok val → lex_get_save malloc lx = Val (lx, c).
Proof.
  intros H. unfold lex_get_save. rewrite (lexer_bind_Val _ _ _ _ _ (lex_get_end _ _ _ _ _ H)).
  by rewrite (le_end _ _ _ _ _ _ H).
Qed.

Lemma lex_unget_at lx pre b suf data text tok val :
  lx_at B lx (pre ++ [b]) suf data text tok val → zlen text + zlen suf + zlen data + 1 ≤ B →
  ∃ lx', lex_unget (s8 b) lx = Val (lx', tt) ∧ lx_at B lx' pre (if b =? 0 then [] else b :: suf) data text tok val.
Proof.
  intros [H1 H2 H3 H4 H5 H6] Hroom. unfold lex_unget. destruct (stream_unget_at _ _ _ _ _ H1) as (s' & -> & Hs').
  rewrite bind_Val. eexists. split; [done|]. split; cbn; try done. pose proof (zlen_nonneg suf).
  destruct (b =? 0); [rewrite zlen_nil|rewrite zlen_cons]; lia.
Qed.

Lemma lex_unget_unsave_at lx pre b suf data text tok val : lx_at B lx (pre ++ [b]) suf data (text ++ [b]) tok val →
  ∃ lx', lex_unget_unsave (s8 b) lx = Val (lx', tt) ∧ lx_at B lx' pre (if b =? 0 then [] else b :: suf) data text tok val.
Proof.
  intros H. pose proof (sa_pre _ _ _ _ (la_stream _ _ _ _ _ _ _ _ H)) as Hb. apply Forall_app in Hb as [_ [Hb _]%Forall_cons].
  unfold lex_unget_unsave. rewrite s8_not_end by done. destruct H as [H1 H2 H3 H4 H5 H6].
  rewrite zlen_app in H4. change (zlen [b]) with 1 in H4.
  unfold lex_unget at 1. destruct (stream_unget_at _ _ _ _ _ H1) as (s' & Es & Hs').
  erewrite lexer_bind_Val; [|by rewrite Es, bind_Val].
  destruct (pop_rep B (lx_saved lx) text b H3) as (sb & Ep & R).
  erewrite lexer_bind_Val; [|cbn; by rewrite Ep, bind_Val].
  unfold lx_lift. rewrite Z.eqb_refl. cbn. eexists. split; [done|]. split; cbn; try done. pose proof (zlen_nonneg suf).
  destruct (b =? 0); [rewrite zlen_nil|rewrite zlen_cons]; lia.
Qed.

Lemma lex_unget_unsave_end c lx : is_end c = true → lex_unget_unsave c lx = Val (lx, tt).
Proof. intros E. unfold lex_unget_unsave. by rewrite E. Qed.

Lemma lex_clear_at lx pre suf data text tok val : lx_at B lx pre suf data text tok val →
  ∃ lx', lex_clear lx = Val (lx', tt) ∧ lx_at B lx' pre suf data [] tok val.
Proof.
  intros [H1 H2 H3 H4 H5 H6]. unfold lex_clear. destruct (clear_rep B _ _ H3) as (sb & -> & R). rewrite bind_Val.
  eexists. split; [done|]. split; cbn; try done. pose proof (zlen_nonneg text). rewrite zlen_nil. lia.
Qed.

Lemma lex_clear_end lx c text tok val : lx_end B lx c text tok val →
  ∃ lx', lex_clear lx = Val (lx', tt) ∧ lx_end B lx' c [] tok val.
Proof.
  intros [H1 H2 H3 H4 H5 H6]. unfold lex_clear. destruct (clear_rep B _ _ H3) as (sb & -> & R). rewrite bind_Val.
  eexists. split; [done|]. split; cbn; try done. rewrite zlen_nil. lia.
Qed.
End Ops.
