(* ===== verification/JsonRead.v ===== *)
(** * Reading well-formed text

    What the lexer does on text that is valid UTF-8 without NUL. [resting lx u]: the
    lexer will read [u]; [peek lx u text c]: it has read and saved the first
    character [c] of [u] after [text]. Each kind of token in front of any text that
    cannot continue it is recognised, with its value. *)

From S2P Require Import Prelude Float Utf8 StrBuffer RealText Jansson JsonDump JsonLoad JsonLex.
Local Open Scope Z_scope.

Section Read.
Context (malloc : Z → bool) (Hmalloc : malloc_succeeds malloc).
Context (B : Z) (HB : 0 ≤ B < 2 ^ 61).

(** The unread text [u], valid from the next sequence on. *)
Definition reading (lx : lex_t) (pre u text : bytes) (tok : Z) (val : lex_value) : Prop :=
  ∃ suf data, lx_at B lx pre suf data text tok val ∧ u = suf ++ data ∧ valid data ∧ Forall (λ b, 0 < b) data.

Definition resting (lx : lex_t) (u text : bytes) (tok : Z) (val : lex_value) : Prop :=
  (∃ pre, reading lx pre u text tok val) ∨ (u = [] ∧ lx_end B lx STREAM_STATE_EOF text tok val).

(** The first character of [u] has been read, and saved or not. *)
Definition peek (lx : lex_t) (u text : bytes) (tok : Z) (val : lex_value) (c : Z) : Prop :=
  match u with
  | [] => c = STREAM_STATE_EOF ∧ lx_end B lx STREAM_STATE_EOF text tok val
  | b :: u => 0 < b < 0xF5 ∧ c = s8 b ∧ ∃ pre, reading lx (pre ++ [b]) u (text ++ [b]) tok val
  end.

Definition peek0 (lx : lex_t) (u text : bytes) (tok : Z) (val : lex_value) (c : Z) : Prop :=
  match u with
  | [] => c = STREAM_STATE_EOF ∧ lx_end B lx STREAM_STATE_EOF text tok val
  | b :: u => 0 < b < 0xF5 ∧ c = s8 b ∧ zlen text + zlen (b :: u) ≤ B ∧ ∃ pre, reading lx (pre ++ [b]) u text tok val
  end.

(** One step of the source. *)
Lemma reading_next pre suf data b pre' suf' data' :
  next (pre, suf, data) b (pre', suf', data') → Forall (λ b, 0 < b < 0xF5) suf → valid data → Forall (λ b, 0 < b) data →
  suf ++ data = b :: suf' ++ data' ∧ valid data' ∧ Forall (λ b, 0 < b) data' ∧ 0 < b < 0xF5.
Proof.
  intros Hn Hs Hv Hp. inversion Hn; subst.
  - apply Forall_cons in Hs as [Hb _]. done.
  - change (b :: suf' ++ data') with ((b :: suf') ++ data') in *. split; [done|]. split; [by eapply valid_tail|].
    apply Forall_app in Hp as [Hp Hp']. split; [done|]. apply Forall_cons in Hp as [Hb _].
    match goal with H : is_char _ _ |- _ => apply char_bytes in H as [[Hb' _]%Forall_cons _] end. lia.
Qed.

Lemma not_stuck suf data c : stuck suf data c → valid data → Forall is_byte data →
  suf ++ data = [] ∧ c = STREAM_STATE_EOF.
Proof.
  intros [-> [[-> ->]|(-> & Hne & Hno)]] Hv Hb; [done|].
  destruct (valid_inv data Hb Hv) as [->|(ch & cp & t & -> & Hc & _)]; [done|]. by destruct (Hno ch t cp).
Qed.

(** ** Characters *)

Lemma get_resting lx u text tok val : resting lx u text tok val → zlen text + zlen u ≤ B →
  ∃ lx' c, lex_get lx = Val (lx', c) ∧ peek0 lx' u text tok val c.
Proof.
  intros [(pre & suf & data & H & -> & Hv & Hp)|[-> H]] Hroom; [|exists lx, STREAM_STATE_EOF; split; [by eapply lex_get_end|done]].
  destruct (lex_get_at B _ _ _ _ _ _ _ H) as [(b & pre' & suf' & data' & lx' & Hn & E & H')|(c & lx' & E & H' & Hst)].
  - exists lx', (s8 b). split; [done|].
    destruct (reading_next _ _ _ _ _ _ _ Hn (sa_suf _ _ _ _ (la_stream _ _ _ _ _ _ _ _ H)) Hv Hp) as (Eu & Hv' & Hp' & Hb).
    rewrite Eu in Hroom |- *. cbn [peek0]. split; [done|]. split; [done|]. split; [done|].
    destruct (next_pre _ _ _ _ _ Hn) as [p ->]. exists p, suf', data'. done.
  - destruct (not_stuck _ _ _ Hst Hv (la_bytes _ _ _ _ _ _ _ _ H)) as [-> ->]. by exists lx', STREAM_STATE_EOF.
Qed.

Lemma get_save_resting lx u text tok val : resting lx u text tok val →
  ∃ lx' c, lex_get_save malloc lx = Val (lx', c) ∧ peek lx' u text tok val c.
Proof.
  intros [(pre & suf & data & H & -> & Hv & Hp)|[-> H]];
    [|exists lx, STREAM_STATE_EOF; split; [by eapply lex_get_save_end|done]].
  destruct (lex_get_save_at malloc Hmalloc B HB _ _ _ _ _ _ _ H)
    as [(b & pre' & suf' & data' & lx' & Hn & Hb & E & H')|(c & lx' & E & H' & Hst)].
  - exists lx', (s8 b). split; [done|].
    destruct (reading_next _ _ _ _ _ _ _ Hn (sa_suf _ _ _ _ (la_stream _ _ _ _ _ _ _ _ H)) Hv Hp) as (Eu & Hv' & Hp' & Hb').
    rewrite Eu. cbn [peek]. split; [done|]. split; [done|].
    destruct (next_pre _ _ _ _ _ Hn) as [p ->]. exists p, suf', data'. done.
  - destruct (not_stuck _ _ _ Hst Hv (la_bytes _ _ _ _ _ _ _ _ H)) as [-> ->]. by exists lx', STREAM_STATE_EOF.
Qed.

(** Having read a character, the rest is to be read. *)
Lemma peek_rest lx b u text tok val c : peek lx (b :: u) text tok val c → c = s8 b ∧ resting lx u (text ++ [b]) tok val.
Proof. intros (_ & -> & pre & H). split; [done|]. left. by eexists. Qed.

Lemma save_peek lx b u text tok val c : peek0 lx (b :: u) text tok val c →
  ∃ lx', lex_save malloc c lx = Val (lx', tt) ∧ peek lx' (b :: u) text tok val c.
Proof.
  intros (Hb & -> & Hroom & pre & suf & data & H & -> & Hv & Hp). rewrite zlen_cons, zlen_app in Hroom.
  destruct (lex_save_at malloc Hmalloc B HB _ _ _ _ _ _ _ b H ltac:(lia) ltac:(lia)) as (lx' & E & H').
  exists lx'. split; [done|]. split; [done|]. split; [done|]. exists pre, suf, data. done.
Qed.

(** Putting the character back. *)
Lemma unget_unsave_peek lx u text tok val c : peek lx u text tok val c →
  ∃ lx', lex_unget_unsave c lx = Val (lx', tt) ∧ resting lx' u text tok val.
Proof.
  destruct u as [|b u]; [intros [-> H]; exists lx; split; [by apply lex_unget_unsave_end|by right]|].
  intros (Hb & -> & pre & suf & data & H & -> & Hv & Hp).
  destruct (lex_unget_unsave_at B _ _ _ _ _ _ _ _ H) as (lx' & E & H'). exists lx'. split; [done|]. left. exists pre.
  rewrite (proj2 (Z.eqb_neq b 0)) in H' by lia. by exists (b :: suf), data.
Qed.

(** The bound of the loops is enough. *)
Lemma peek_left lx u text tok val c : peek lx u text tok val c → (length u < lx_left lx)%nat.
Proof.
  unfold lx_left. destruct u as [|b u]; [simpl; lia|]. intros (_ & _ & pre & suf & data & H & -> & _).
  destruct H as [[_ -> (junk & E & El) _ _ _] _ _ _ _ _]. rewrite E in El. rewrite !length_app in El. simpl in *.
  rewrite length_app. lia.
Qed.

Lemma peek0_left lx u text tok val c : peek0 lx u text tok val c → (length u < lx_left lx)%nat.
Proof.
  unfold lx_left. destruct u as [|b u]; [simpl; lia|]. intros (_ & _ & _ & pre & suf & data & H & -> & _).
  destruct H as [[_ -> (junk & E & El) _ _ _] _ _ _ _ _]. rewrite E in El. rewrite !length_app in El. simpl in *.
  rewrite length_app. lia.
Qed.

Lemma peek_room lx u text tok val c : peek lx u text tok val c → zlen text + zlen u ≤ B.
Proof.
  destruct u as [|b u]; [intros [_ []]; rewrite zlen_nil; lia|]. intros (_ & _ & pre & suf & data & H & -> & _).
  pose proof (la_room _ _ _ _ _ _ _ _ H) as Hr. revert Hr. autorewrite with zlen. lia.
Qed.

(** ** Tokens: bookkeeping *)

Lemma resting_token lx u text tok val t : resting lx u text tok val → resting (set_token t lx) u text t val.
Proof.
  intros [(pre & suf & data & [] & Hu)|[-> []]]; [left; exists pre, suf, data; split; [by split|done]|right; split; [done|by split]].
Qed.

Lemma resting_value lx u text tok val v : resting lx u text tok val → resting (set_value v lx) u text tok v.
Proof.
  intros [(pre & suf & data & [] & Hu)|[-> []]]; [left; exists pre, suf, data; split; [by split|done]|right; split; [done|by split]].
Qed.

Lemma peek_token lx u text tok val c t : peek lx u text tok val c → peek (set_token t lx) u text t val c.
Proof.
  destruct u as [|b u]; [intros [-> []]; split; [done|by split]|].
  intros (Hb & -> & pre & suf & data & [] & Hu). split; [done|]. split; [done|]. exists pre, suf, data. split; [by split|done].
Qed.

Lemma peek_value lx u text tok val c v : peek lx u text tok val c → peek (set_value v lx) u text tok v c.
Proof.
  destruct u as [|b u]; [intros [-> []]; split; [done|by split]|].
  intros (Hb & -> & pre & suf & data & [] & Hu). split; [done|]. split; [done|]. exists pre, suf, data. split; [by split|done].
Qed.

Lemma resting_saved lx u text tok val : resting lx u text tok val → Forall ascii text →
  strbuffer_value (lx_saved lx) = text ∧ sb_length (lx_saved lx) = zlen text.
Proof.
  intros H Ha. assert (sb_rep B (lx_saved lx) text) as R by (by destruct H as [(pre & suf & data & [] & _)|[_ []]]).
  split; [|apply R]. apply (value_rep B); [done|]. eapply Forall_impl; [exact Ha|]. unfold ascii. simpl. lia.
Qed.

Lemma resting_room lx u text tok val : resting lx u text tok val → zlen text + zlen u ≤ B.
Proof.
  intros [(pre & suf & data & [_ _ _ H _ _] & -> & _)|[-> []]]; [rewrite zlen_app; lia|rewrite zlen_nil; lia].
Qed.

Lemma resting_tok lx u text tok val : resting lx u text tok val → lx_token lx = tok ∧ lx_value lx = val.
Proof. by intros [(pre & suf & data & [] & _)|[_ []]]. Qed.

(** ** Numbers *)

Lemma digit_char d : is_digit d → 0 < chr_0 + d < 0xF5 ∧ l_isdigit (s8 (chr_0 + d)) = true.
Proof.
  intros Hd. assert (0 ≤ chr_0 + d < 128) by (unfold is_digit, chr_0 in *; lia).
  split; [unfold is_digit, chr_0 in *; lia|]. rewrite s8_low by lia. by apply isdigit_char.
Qed.

(** What can follow the digits of a number. *)
Lemma peek_no_digit lx u text tok val c : peek lx u text tok val c → no_digit u → l_isdigit c = false.
Proof. destruct u as [|b u]; [by intros [-> _]|]. intros (Hb & -> & _) H. rewrite s8_isdigit by lia. done. Qed.

Lemma scan_digits_text ds : Forall is_digit ds → ∀ fuel lx r text tok val c,
  no_digit r → peek lx (chars ds ++ r) text tok val c → (length ds < fuel)%nat →
  ∃ lx' c', scan_digits malloc fuel c lx = Val (lx', c') ∧ peek lx' r (text ++ chars ds) tok val c'.
Proof.
  induction 1 as [|d ds Hd _ IH]; intros fuel lx r text tok val c Hr Hp Hf; (destruct fuel as [|fuel]; [simpl in Hf; lia|]);
    cbn [scan_digits].
  - rewrite (peek_no_digit _ _ _ _ _ _ Hp Hr). exists lx, c. rewrite app_nil_r. done.
  - cbn [chars map app] in Hp. destruct (peek_rest _ _ _ _ _ _ _ Hp) as [-> Hp']. destruct (digit_char d Hd) as [_ ->].
    destruct (get_save_resting _ _ _ _ _ Hp') as (lx1 & c1 & E1 & H1). rewrite (lexer_bind_Val _ _ _ _ _ E1).
    destruct (IH fuel lx1 r _ tok val c1 Hr H1) as (lx2 & c2 & E2 & H2); [simpl in Hf; lia|].
    exists lx2, c2. rewrite <- app_assoc in H2. done.
Qed.

Lemma scan_more_digits_text ds lx r text tok val : Forall is_digit ds → no_digit r → resting lx (chars ds ++ r) text tok val →
  ∃ lx' c', scan_more_digits malloc lx = Val (lx', c') ∧ peek lx' r (text ++ chars ds) tok val c'.
Proof.
  intros Hd Hr H. unfold scan_more_digits. destruct (get_save_resting _ _ _ _ _ H) as (lx1 & c1 & E1 & H1).
  rewrite (lexer_bind_Val _ _ _ _ _ E1). rewrite (lexer_bind_Val (lx_gets lx_left) _ lx1 lx1 (lx_left lx1)) by done.
  apply scan_digits_text; [done..|]. pose proof (peek_left _ _ _ _ _ _ H1) as Hl. rewrite length_app in Hl.
  unfold chars in Hl. rewrite length_map in Hl. lia.
Qed.

Lemma scan_int_text ip lx r text tok val c : ip = [0] ∨ (∃ d ds, ip = d :: ds ∧ d ≠ 0) → Forall is_digit ip → no_digit r →
  peek lx (chars ip ++ r) text tok val c →
  ∃ lx' c', scan_int_part malloc c lx = Val (lx', Some c') ∧ peek lx' r (text ++ chars ip) tok val c'.
Proof.
  intros Hi Hd Hr Hp. unfold scan_int_part. destruct Hi as [->|(d & ds & -> & Hd0)].
  - destruct (peek_rest _ _ _ _ _ _ _ Hp) as [-> Hp']. change (s8 (chr_0 + 0) =? 48) with true.
    destruct (get_save_resting _ _ _ _ _ Hp') as (lx1 & c1 & E1 & H1). rewrite (lexer_bind_Val _ _ _ _ _ E1).
    rewrite (peek_no_digit _ _ _ _ _ _ H1 Hr). exists lx1, c1. done.
  - destruct (peek_rest _ _ _ _ _ _ _ Hp) as [-> Hp']. apply Forall_cons in Hd as [Hd Hds].
    destruct (digit_char d Hd) as [Hb ->].
    rewrite s8_eqb, (proj2 (Z.eqb_neq (chr_0 + d) 48)) by (unfold chr_0 in *; lia).
    destruct (scan_more_digits_text ds lx r _ tok val Hds Hr Hp') as (lx1 & c1 & E1 & H1).
    rewrite (lexer_bind_Val _ _ _ _ _ E1). exists lx1, c1. rewrite <- app_assoc in H1. done.
Qed.

Lemma scan_minus neg ip lx r text tok val c : ip ≠ [] → Forall is_digit ip →
  peek lx (minus neg ++ chars ip ++ r) text tok val c →
  ∃ lx' c', (if c =? 45 then lex_get_save malloc else mret c) lx = Val (lx', c') ∧
    peek lx' (chars ip ++ r) (text ++ minus neg) tok val c'.
Proof.
  intros Hn Hd Hp. destruct neg; cbn [minus app] in *.
  - destruct (peek_rest _ _ _ _ _ _ _ Hp) as [-> Hp']. change (s8 chr_minus =? 45) with true. by apply get_save_resting.
  - destruct ip as [|d ip]; [done|]. destruct (peek_rest _ _ _ _ _ _ _ Hp) as [-> _]. apply Forall_cons in Hd as [Hd _].
    rewrite s8_eqb, (proj2 (Z.eqb_neq _ 45)) by (unfold is_digit, chr_0 in *; lia). rewrite app_nil_r. by eexists _, _.
Qed.

(** What can follow a number: no digit, no point, no exponent. *)
Definition ends_number (u : bytes) : Prop :=
  match u with [] => True | c :: _ => l_isdigit c = false ∧ c ≠ 46 ∧ c ≠ 69 ∧ c ≠ 101 end.

Lemma ends_no_digit u : ends_number u → no_digit u.
Proof. destruct u; [done|]. by intros []. Qed.

Lemma peek_ends lx u text tok val c : peek lx u text tok val c → ends_number u →
  (c =? 46) = false ∧ (c =? 69) = false ∧ (c =? 101) = false.
Proof.
  destruct u as [|b u]; [by intros [-> _]|]. intros (Hb & -> & _) (_ & H1 & H2 & H3).
  rewrite !s8_eqb by lia. rewrite !(proj2 (Z.eqb_neq _ _)) by done. done.
Qed.

Lemma strtoll_text n : - 2 ^ 63 ≤ n < 2 ^ 63 → strtoll (sprintf_lld n) = (n, false, []).
Proof.
  intros Hn. unfold sprintf_lld. destruct (sprintf_u_digits (Z.abs n) ltac:(lia)) as (ds & -> & Hd & Hv & Hi).
  assert (ds ≠ []) as Hne by (by destruct Hi as [->|(? & ? & -> & _)]).
  destruct (chars_no_sign ds Hd Hne) as (c & t & Ec & E1 & _).
  pose proof (span_chars ds [] Hd I) as Hs. rewrite app_nil_r in Hs. unfold strtoll.
  destruct (Z.ltb_spec n 0) as [Hneg|Hpos]; cbn [minus app].
  - change (chr_minus =? chr_minus) with true. cbv beta iota. rewrite Hs, Hv.
    destruct (_ >? _) eqn:?; [blia|]. destruct (_ <? _) eqn:?; [blia|]. do 2 f_equal. lia.
  - rewrite Ec, E1, <- Ec. cbv beta iota. rewrite Hs, Hv.
    destruct (_ >? _) eqn:?; [blia|]. destruct (_ <? _) eqn:?; [blia|]. do 2 f_equal. lia.
Qed.

Lemma scan_integer_text n lx r tok val c : - 2 ^ 63 ≤ n < 2 ^ 63 → peek lx r (sprintf_lld n) tok val c →
  ∃ lx', scan_integer c lx = Val (lx', true) ∧ resting lx' r (sprintf_lld n) TOKEN_INTEGER (LvInteger n).
Proof.
  intros Hn Hp. unfold scan_integer. destruct (unget_unsave_peek _ _ _ _ _ _ Hp) as (lx1 & E1 & H1).
  rewrite (lexer_bind_Val _ _ _ _ _ E1). rewrite (lexer_bind_Val (lx_gets lx_saved) _ lx1 lx1 (lx_saved lx1)) by done.
  destruct (resting_saved _ _ _ _ _ H1 (lld_ascii n)) as [-> ->]. rewrite strtoll_text by done.
  rewrite bool_decide_true, Z.eqb_refl by done. eexists. split; [done|].
  by eapply resting_value, resting_token.
Qed.

(** An integer, followed by what ends a number. *)
Lemma lex_integer n lx r tok val c : - 2 ^ 63 ≤ n < 2 ^ 63 → ends_number r → peek lx (sprintf_lld n ++ r) [] tok val c →
  ∃ lx', lex_scan_number malloc c lx = Val (lx', true) ∧ resting lx' r (sprintf_lld n) TOKEN_INTEGER (LvInteger n).
Proof.
  intros Hn Hr Hp. unfold lex_scan_number. erewrite lexer_bind_Val by done.
  apply (peek_token _ _ _ _ _ _ TOKEN_INVALID) in Hp.
  destruct (sprintf_u_digits (Z.abs n) ltac:(lia)) as (ds & Es & Hd & _ & Hi).
  assert (sprintf_lld n = minus (n <? 0) ++ chars ds) as El by (unfold sprintf_lld; by rewrite Es).
  assert (ds ≠ []) as Hne by (by destruct Hi as [->|(? & ? & -> & _)]).
  rewrite El, <- app_assoc in Hp. destruct (scan_minus _ _ _ _ _ _ _ _ Hne Hd Hp) as (lx1 & c1 & E1 & H1).
  rewrite (lexer_bind_Val _ _ _ _ _ E1).
  destruct (scan_int_text ds lx1 r _ _ _ c1 Hi Hd (ends_no_digit _ Hr) H1) as (lx2 & c2 & E2 & H2).
  rewrite (lexer_bind_Val _ _ _ _ _ E2). destruct (peek_ends _ _ _ _ _ _ H2 Hr) as (-> & -> & ->). cbn [negb andb].
  cbn [app] in H2. rewrite <- El in H2. by eapply scan_integer_text.
Qed.

(** *** Reals *)

Lemma exponent_ends ex r : ends_number r →
  match exponent ex ++ r with [] => True | c :: _ => l_isdigit c = false ∧ c ≠ 46 end.
Proof. destruct ex as [[neg ds]|]; [done|]. cbn [exponent app]. destruct r; [done|]. by intros (? & ? & _). Qed.

Lemma scan_fraction_text fp ex lx r text tok val c : Forall is_digit fp → ends_number r →
  peek lx (fraction fp ++ exponent ex ++ r) text tok val c →
  ∃ lx' c', scan_fraction malloc c lx = Val (lx', Some c') ∧ peek lx' (exponent ex ++ r) (text ++ fraction fp) tok val c'.
Proof.
  intros Hd Hr Hp. pose proof (exponent_ends ex r Hr) as He. unfold scan_fraction, fraction in *. case_bool_decide as E.
  - cbn [app] in *. rewrite app_nil_r. destruct (exponent ex ++ r) as [|b u]; [destruct Hp as [-> Hp]; by eexists _, _|].
    pose proof Hp as (Hb & -> & _). rewrite s8_eqb, (proj2 (Z.eqb_neq b 46)) by (done || lia). by eexists _, _.
  - destruct fp as [|d fp]; [done|]. cbn [chars map app] in Hp. pose proof (peek_room _ _ _ _ _ _ Hp) as Hroom.
    destruct (peek_rest _ _ _ _ _ _ _ Hp) as [-> Hp']. change (s8 chr_dot =? 46) with true. apply Forall_cons in Hd as [Hd Hds].
    destruct (get_resting _ _ _ _ _ Hp') as (lx1 & c1 & E1 & H1).
    { revert Hroom. autorewrite with zlen. lia. }
    rewrite (lexer_bind_Val _ _ _ _ _ E1). destruct (save_peek _ _ _ _ _ _ _ H1) as (lx2 & E2 & H2).
    destruct H1 as (_ & -> & _). destruct (digit_char d Hd) as [_ ->]. cbn [negb].
    rewrite (lexer_bind_Val _ _ _ _ _ E2). destruct (peek_rest _ _ _ _ _ _ _ H2) as [_ H2'].
    destruct (scan_more_digits_text fp lx2 (exponent ex ++ r) ((text ++ [chr_dot]) ++ [chr_0 + d]) tok val Hds) as (lx3 & c3 & E3 & H3); [|done|].
    { destruct (exponent ex ++ r); [done|]. apply He. }
    rewrite (lexer_bind_Val _ _ _ _ _ E3). exists lx3, c3. split; [done|]. rewrite <- !app_assoc in H3. done.
Qed.

Lemma scan_exponent_text ex lx r text tok val c :
  match ex with None => True | Some (_, ds) => ds ≠ [] ∧ Forall is_digit ds end → ends_number r →
  peek lx (exponent ex ++ r) text tok val c →
  ∃ lx' c', scan_exponent malloc c lx = Val (lx', Some c') ∧ peek lx' r (text ++ exponent ex) tok val c'.
Proof.
  intros Hx Hr Hp. unfold scan_exponent. destruct ex as [[neg ds]|]; cbn [exponent app] in *.
  - destruct Hx as [Hne Hd]. destruct (peek_rest _ _ _ _ _ _ _ Hp) as [-> Hp']. change ((s8 chr_e =? 69) || (s8 chr_e =? 101)) with true.
    rewrite <- app_assoc in Hp'. destruct (get_save_resting _ _ _ _ _ Hp') as (lx1 & c1 & E1 & H1).
    rewrite (lexer_bind_Val _ _ _ _ _ E1).
    assert (∃ lx2 c2, (if (c1 =? 43) || (c1 =? 45) then lex_get_save malloc else mret c1) lx1 = Val (lx2, c2) ∧
      peek lx2 (chars ds ++ r) (text ++ [chr_e] ++ minus neg) tok val c2) as (lx2 & c2 & E2 & H2).
    { destruct (scan_minus neg ds lx1 r _ tok val c1 Hne Hd H1) as (lx2 & c2 & E2 & H2). exists lx2, c2.
      rewrite <- app_assoc in H2. split; [|done].
      assert ((c1 =? 43) = false) as ->; [|done]. destruct neg; cbn [minus app] in H1.
      - by destruct H1 as (_ & -> & _).
      - destruct ds as [|d ds]; [done|]. destruct H1 as (_ & -> & _). apply Forall_cons in Hd as [Hd _].
        rewrite s8_eqb by (unfold is_digit, chr_0 in *; lia). apply Z.eqb_neq. unfold is_digit, chr_0 in *; lia. }
    rewrite (lexer_bind_Val _ _ _ _ _ E2). destruct ds as [|d ds]; [done|]. apply Forall_cons in Hd as [Hd Hds].
    destruct (peek_rest _ _ _ _ _ _ _ H2) as [-> H2']. destruct (digit_char d Hd) as [_ ->]. cbn [negb].
    destruct (scan_more_digits_text ds lx2 r _ tok val Hds (ends_no_digit _ Hr) H2') as (lx3 & c3 & E3 & H3).
    rewrite (lexer_bind_Val _ _ _ _ _ E3). exists lx3, c3. split; [done|]. rewrite <- !app_assoc in H3. done.
  - destruct (peek_ends _ _ _ _ _ _ Hp Hr) as (_ & -> & ->). rewrite app_nil_r. by eexists _, _.
Qed.

Lemma num_text_ascii neg ip fp ex : num_ok ip fp ex → Forall ascii (num_text neg ip fp ex).
Proof.
  intros [_ [Hi Hf]%Forall_app _ Hx]. unfold num_text. apply Forall_app. split; [apply minus_ascii|].
  apply Forall_app. split; [by apply chars_ascii|]. apply Forall_app. split; [by apply fraction_ascii|].
  destruct ex as [[xneg ds]|]; [|constructor]. destruct Hx as [_ Hd]. cbn [exponent]. constructor; [done|].
  apply Forall_app. split; [apply minus_ascii|by apply chars_ascii].
Qed.

(** The mark of a real after its integer part. *)
Lemma real_mark fp ex r lx text tok val c : fp ≠ [] ∨ ex ≠ None → peek lx (fraction fp ++ exponent ex ++ r) text tok val c →
  negb (c =? 46) && negb (c =? 69) && negb (c =? 101) = false ∧ no_digit (fraction fp ++ exponent ex ++ r).
Proof.
  intros Hm Hp. unfold fraction in *. case_bool_decide as E.
  - destruct Hm as [?|Hx]; [done|]. destruct ex as [[xneg ds]|]; [|done]. cbn [app exponent] in *. by destruct Hp as (_ & -> & _).
  - cbn [app] in *. by destruct Hp as (_ & -> & _).
Qed.

(** A real, followed by what ends a number. *)
Lemma lex_real neg ip fp ex d lx r tok val c : num_ok ip fp ex → jsonp_strtod (num_text neg ip fp ex) = Val (Some d) →
  ends_number r → peek lx (num_text neg ip fp ex ++ r) [] tok val c →
  ∃ lx', lex_scan_number malloc c lx = Val (lx', true) ∧ resting lx' r (num_text neg ip fp ex) TOKEN_REAL (LvReal d).
Proof.
  intros Ho Hs Hr Hp. pose proof (num_text_ascii neg _ _ _ Ho) as Ha. destruct Ho as [Hi [Hdi Hdf]%Forall_app Hm Hx].
  unfold lex_scan_number. erewrite lexer_bind_Val by done. apply (peek_token _ _ _ _ _ _ TOKEN_INVALID) in Hp.
  assert (ip ≠ []) as Hne by (by destruct Hi as [->|(? & ? & -> & _)]).
  unfold num_text in Hp. rewrite <- !app_assoc in Hp.
  destruct (scan_minus _ _ _ _ _ _ _ _ Hne Hdi Hp) as (lx1 & c1 & E1 & H1). rewrite (lexer_bind_Val _ _ _ _ _ E1).
  assert (no_digit (fraction fp ++ exponent ex ++ r)) as Hnd.
  { unfold fraction. case_bool_decide; [|done]. destruct ex as [[]|]; [done|]. by destruct Hm. }
  destruct (scan_int_text ip lx1 _ _ _ _ c1 Hi Hdi Hnd H1) as (lx2 & c2 & E2 & H2). rewrite (lexer_bind_Val _ _ _ _ _ E2).
  destruct (real_mark fp ex r lx2 _ _ _ c2 Hm H2) as [-> _].
  destruct (scan_fraction_text fp ex lx2 r _ _ _ c2 Hdf Hr H2) as (lx3 & c3 & E3 & H3). rewrite (lexer_bind_Val _ _ _ _ _ E3).
  destruct (scan_exponent_text ex lx3 r _ _ _ c3 Hx Hr H3) as (lx4 & c4 & E4 & H4). rewrite (lexer_bind_Val _ _ _ _ _ E4).
  cbn [app] in H4. rewrite <- !app_assoc in H4. fold (num_text neg ip fp ex) in H4.
  unfold scan_real. destruct (unget_unsave_peek _ _ _ _ _ _ H4) as (lx5 & E5 & H5). rewrite (lexer_bind_Val _ _ _ _ _ E5).
  rewrite (lexer_bind_Val (lx_gets lx_saved) _ lx5 lx5 (lx_saved lx5)) by done.
  destruct (resting_saved _ _ _ _ _ H5 Ha) as [-> ->]. rewrite Z.eqb_refl.
  rewrite (lexer_bind_Val _ _ lx5 lx5 tt) by done.
  rewrite (lexer_bind_Val _ _ lx5 lx5 (Some d)) by (unfold lx_lift; by rewrite Hs).
  eexists. split; [done|]. by eapply resting_value, resting_token.
Qed.

(** ** Strings *)

(** The first loop passes over bytes that are neither a quote nor a backslash nor
    a control character. *)
Lemma scan_plain bs : Forall (λ b, 0x20 ≤ b < 0xF5 ∧ b ≠ 34 ∧ b ≠ 92) bs → ∀ fuel lx u text tok val c,
  peek lx (bs ++ u) text tok val c →
  ∃ lx' c', scan_string_loop malloc (length bs + fuel) c lx = scan_string_loop malloc fuel c' lx' ∧
    peek lx' u (text ++ bs) tok val c'.
Proof.
  induction 1 as [|b bs (Hb & H1 & H2) _ IH]; intros fuel lx u text tok val c Hp; [exists lx, c; rewrite app_nil_r; done|].
  cbn [app] in Hp. destruct (peek_rest _ _ _ _ _ _ _ Hp) as [-> Hp']. cbn [length Nat.add scan_string_loop].
  rewrite !s8_eqb, s8_not_end, s8_range_test by lia. rewrite (proj2 (Z.eqb_neq b 34)), (proj2 (Z.eqb_neq b 92)) by done.
  rewrite (proj2 (Z.leb_gt b 0x1F)), andb_false_r by lia.
  destruct (get_save_resting _ _ _ _ _ Hp') as (lx1 & c1 & E1 & P1). rewrite (lexer_bind_Val _ _ _ _ _ E1).
  destruct (IH fuel lx1 u _ tok val c1 P1) as (lx2 & c2 & E2 & P2). exists lx2, c2. rewrite <- app_assoc in P2. done.
Qed.

Lemma scan_short e fuel lx u text tok val c : is_short_escape e = true → 0 < e < 0x80 →
  peek lx (92 :: e :: u) text tok val c →
  ∃ lx' c', scan_string_loop malloc (S fuel) c lx = scan_string_loop malloc fuel c' lx' ∧ peek lx' u (text ++ [92; e]) tok val c'.
Proof.
  intros He Hb Hp. destruct (peek_rest _ _ _ _ _ _ _ Hp) as [-> Hp']. cbn [scan_string_loop].
  change (s8 92) with 92. cbn [Z.eqb Pos.eqb is_end orb STREAM_STATE_EOF STREAM_STATE_ERROR Z.leb Z.compare Pos.compare Pos.compare_cont andb].
  destruct (get_save_resting _ _ _ _ _ Hp') as (lx1 & c1 & E1 & P1). rewrite (lexer_bind_Val _ _ _ _ _ E1).
  destruct (peek_rest _ _ _ _ _ _ _ P1) as [-> P1']. rewrite s8_low by lia. rewrite He.
  assert ((e =? 117) = false) as ->.
  { apply Z.eqb_neq. intros ->. done. }
  destruct (get_save_resting _ _ _ _ _ P1') as (lx2 & c2 & E2 & P2). rewrite (lexer_bind_Val _ _ _ _ _ E2).
  exists lx2, c2. rewrite <- app_assoc in P2. done.
Qed.

Lemma scan_hex_text hs : Forall (λ h, 0 < h < 0x80 ∧ l_isxdigit h = true) hs → ∀ lx u text tok val c,
  peek lx (hs ++ u) text tok val c →
  ∃ lx' c', scan_hex malloc (length hs) c lx = Val (lx', Some c') ∧ peek lx' u (text ++ hs) tok val c'.
Proof.
  induction 1 as [|h hs [Hb Hh] _ IH]; intros lx u text tok val c Hp; [exists lx, c; rewrite app_nil_r; done|].
  cbn [app] in Hp. destruct (peek_rest _ _ _ _ _ _ _ Hp) as [-> Hp']. cbn [length scan_hex].
  rewrite s8_isxdigit, Hh by lia. cbn [negb].
  destruct (get_save_resting _ _ _ _ _ Hp') as (lx1 & c1 & E1 & P1). rewrite (lexer_bind_Val _ _ _ _ _ E1).
  destruct (IH lx1 u _ tok val c1 P1) as (lx2 & c2 & E2 & P2). exists lx2, c2. rewrite <- app_assoc in P2. done.
Qed.

Lemma scan_unicode hs fuel lx u text tok val c : length hs = 4%nat → Forall (λ h, 0 < h < 0x80 ∧ l_isxdigit h = true) hs →
  peek lx (92 :: 117 :: hs ++ u) text tok val c →
  ∃ lx' c', scan_string_loop malloc (S fuel) c lx = scan_string_loop malloc fuel c' lx' ∧
    peek lx' u (text ++ 92 :: 117 :: hs) tok val c'.
Proof.
  intros Hl Hh Hp. destruct (peek_rest _ _ _ _ _ _ _ Hp) as [-> Hp']. cbn [scan_string_loop].
  change (s8 92) with 92. cbn [Z.eqb Pos.eqb is_end orb STREAM_STATE_EOF STREAM_STATE_ERROR Z.leb Z.compare Pos.compare Pos.compare_cont andb].
  destruct (get_save_resting _ _ _ _ _ Hp') as (lx1 & c1 & E1 & P1). rewrite (lexer_bind_Val _ _ _ _ _ E1).
  destruct (peek_rest _ _ _ _ _ _ _ P1) as [-> P1']. change (s8 117 =? 117) with true.
  destruct (get_save_resting _ _ _ _ _ P1') as (lx2 & c2 & E2 & P2). rewrite (lexer_bind_Val _ _ _ _ _ E2).
  destruct (scan_hex_text hs Hh _ _ _ _ _ _ P2) as (lx3 & c3 & E3 & P3). rewrite Hl in E3. rewrite (lexer_bind_Val _ _ _ _ _ E3).
  exists lx3, c3. rewrite <- !app_assoc in P3. done.
Qed.

(** *** The escapes of the printer *)

Lemma hex_digit_ok d : 0 ≤ d < 16 → 0 < hex_digit d < 0x80 ∧ l_isxdigit (hex_digit d) = true ∧ hex_value (hex_digit d) = Val d.
Proof.
  intros Hd. assert (d ∈ [0; 1; 2; 3; 4; 5; 6; 7; 8; 9; 10; 11; 12; 13; 14; 15]) as Hin.
  { apply list_elem_of_lookup. exists (Z.to_nat d). assert (∃ n, d = Z.of_nat n ∧ (n < 16)%nat) as (n & -> & Hn) by (exists (Z.to_nat d); lia).
    rewrite Nat2Z.id. do 16 (destruct n as [|n]; [done|]). lia. }
  repeat (apply elem_of_cons in Hin as [->|Hin]; [done|]). by apply elem_of_nil in Hin.
Qed.

Lemma hex4_ok n : length (sprintf_04x n) = 4%nat ∧ Forall (λ h, 0 < h < 0x80 ∧ l_isxdigit h = true) (sprintf_04x n).
Proof.
  split; [done|]. assert (∀ d, 0 < hex_digit (d mod 16) < 0x80 ∧ l_isxdigit (hex_digit (d mod 16)) = true) as H.
  { intros d. destruct (hex_digit_ok (d mod 16)) as (? & ? & _); [apply Z.mod_pos_bound; lia|done]. }
  repeat (constructor; [apply H|]). constructor.
Qed.

Lemma decode_hex4 n u : 0 ≤ n < 0x10000 → decode_unicode_escape (117 :: sprintf_04x n ++ u) = Val n.
Proof.
  intros Hn. unfold decode_unicode_escape. change (117 =? 117) with true. cbn [require]. rewrite bind_Val.
  unfold sprintf_04x. cbn [app hex_run].
  assert (∀ d, hex_value (hex_digit (d mod 16)) = Val (d mod 16)) as H.
  { intros d. destruct (hex_digit_ok (d mod 16)) as (_ & _ & ->); [apply Z.mod_pos_bound; lia|done]. }
  rewrite !H, !bind_Val. f_equal. rewrite !Z.shiftl_mul_pow2 by lia. change (2 ^ 4) with 16. Z.div_mod_to_equations. lia.
Qed.

Lemma unicode_bmp cp u : 0 < cp < 0x10000 → ¬ (0xD800 ≤ cp ≤ 0xDFFF) →
  unicode_escape (117 :: sprintf_04x cp ++ u) = Val (Some (cp, u)).
Proof.
  intros Hcp Hs. unfold unicode_escape. rewrite decode_hex4, bind_Val by lia. change (drop 5 (117 :: sprintf_04x cp ++ u)) with (drop 0 u).
  rewrite drop_0. destruct ((0xD800 <=? cp) && _) eqn:?; [blia|]. destruct ((0xDC00 <=? cp) && _) eqn:?; [blia|].
  by rewrite (proj2 (Z.eqb_neq cp 0)) by lia.
Qed.

Lemma surrogates cp : 0x10000 ≤ cp ≤ 0x10FFFF → let c := cp - 0x10000 in
  Z.lor 0xD800 (Z.shiftr (Z.land c 0xffc00) 10) = 0xD800 + c / 1024 ∧ Z.lor 0xDC00 (Z.land c 0x003ff) = 0xDC00 + c mod 1024 ∧
  0 ≤ c / 1024 < 1024 ∧ 0 ≤ c mod 1024 < 1024.
Proof.
  intros Hcp c. assert (0 ≤ c < 1024 * 1024) by (unfold c; lia).
  rewrite (bit_field c 10 10 0xffc00), (low_bits c 10 0x003ff) by done. change (2 ^ 10) with 1024.
  rewrite (Z.mod_small (c / 1024)) by (Z.div_mod_to_equations; lia).
  assert (0 ≤ c / 1024 < 1024 ∧ 0 ≤ c mod 1024 < 1024) as [H1 H2] by (Z.div_mod_to_equations; lia).
  change 0xD800 with (54 * 2 ^ 10). change 0xDC00 with (55 * 2 ^ 10). rewrite !lor_low_high by (done || unfold is_u; lia). done.
Qed.

Lemma unicode_pair cp u : 0x10000 ≤ cp ≤ 0x10FFFF →
  let c := cp - 0x10000 in
  unicode_escape (117 :: sprintf_04x (0xD800 + c / 1024) ++ 92 :: 117 :: sprintf_04x (0xDC00 + c mod 1024) ++ u) = Val (Some (cp, u)).
Proof.
  intros Hcp c. destruct (surrogates cp Hcp) as (_ & _ & H1 & H2). fold c in H1, H2.
  unfold unicode_escape. rewrite decode_hex4, bind_Val by lia.
  change (drop 5 (117 :: sprintf_04x (0xD800 + c / 1024) ++ 92 :: 117 :: sprintf_04x (0xDC00 + c mod 1024) ++ u))
    with (92 :: 117 :: sprintf_04x (0xDC00 + c mod 1024) ++ u).
  destruct ((0xD800 <=? 0xD800 + _) && _) eqn:?; [|blia]. change ((92 =? 92) && (117 =? 117)) with true. cbn iota.
  rewrite decode_hex4, bind_Val by lia. destruct ((0xDC00 <=? _) && _) eqn:?; [|blia].
  change (drop 5 (117 :: sprintf_04x (0xDC00 + c mod 1024) ++ u)) with (drop 0 u). rewrite drop_0.
  do 3 f_equal. rewrite Z.shiftl_mul_pow2 by lia. unfold c in *. Z.div_mod_to_equations. lia.
Qed.

(** The three forms of an escape. *)
Lemma escape_text_cases cp : 0 < cp ≤ 0x10FFFF →
  (∃ e, escape_text cp = [92; e] ∧ is_short_escape e = true ∧ 0 < e < 0x80 ∧ short_escape e = Val cp ∧ cp < 0x80) ∨
  (cp < 0x10000 ∧ escape_text cp = 92 :: 117 :: sprintf_04x cp) ∨
  (0x10000 ≤ cp ∧ let c := cp - 0x10000 in
   escape_text cp = 92 :: 117 :: sprintf_04x (0xD800 + c / 1024) ++ 92 :: 117 :: sprintf_04x (0xDC00 + c mod 1024)).
Proof.
  intros Hcp. unfold escape_text.
  do 8 (match goal with |- context [if cp =? ?k then _ else _] => destruct (Z.eqb_spec cp k) as [->|?] end;
    [left; eexists; done|]).
  right. destruct (Z.ltb_spec cp 0x10000); [by left|right]. split; [lia|].
  destruct (surrogates cp ltac:(lia)) as (-> & -> & _). done.
Qed.

Lemma decode_escape cp c fuel cap u t : is_char c cp → 0 < cp → zlen t + zlen (escape_text cp) ≤ cap →
  decode_string_loop (S fuel) cap (escape_text cp ++ u) t = decode_string_loop fuel cap u (t ++ c).
Proof.
  intros Hc Hcp Hcap. pose proof (encode_char c cp Hc) as He. pose proof (char_length c cp Hc) as Hl.
  assert (cp ≤ 0x10FFFF ∧ ¬ (0xD800 ≤ cp ≤ 0xDFFF)) as [Hmax Hsur].
  { destruct Hc as [[-> ?]|(x & l & -> & Hf & _ & Hfull)]; [lia|]. by apply check_full_parts in Hfull as (_ & ? & ? & _). }
  destruct (escape_text_cases cp ltac:(lia)) as [(e & Et & Hs & Hb & Hv & Hlow)|[[Hlt Et]|[Hge Et]]]; rewrite Et in Hcap |- *;
    cbn [app decode_string_loop]; change (92 =? 34) with false; change (92 =? 92) with true; cbn iota.
  - assert ((e =? 117) = false) as -> by (apply Z.eqb_neq; by intros ->). rewrite Hv, bind_Val.
    change (zlen [92; e]) with 2 in Hcap. rewrite require_true, bind_Val by (apply Z.ltb_lt; lia).
    unfold utf8_encode in He. rewrite (proj2 (Z.ltb_ge cp 0)), (proj2 (Z.ltb_lt cp 0x80)) in He by lia. injection He as <-. done.
  - change (117 =? 117) with true. cbn iota. rewrite unicode_bmp by lia. rewrite bind_Val, He.
    rewrite require_true, bind_Val; [done|]. apply Z.leb_le. unfold zlen at 2 in Hcap. simpl in Hcap. lia.
  - change (117 =? 117) with true. cbn iota. rewrite <- app_assoc. cbn [app]. rewrite unicode_pair by lia. rewrite bind_Val, He.
    rewrite require_true, bind_Val; [done|]. apply Z.leb_le. unfold zlen at 2 in Hcap. simpl in Hcap. lia.
Qed.

Lemma decode_plain bs : Forall (λ b, b ≠ 34 ∧ b ≠ 92) bs → ∀ fuel cap u t, zlen t + zlen bs ≤ cap →
  decode_string_loop (length bs + fuel) cap (bs ++ u) t = decode_string_loop fuel cap u (t ++ bs).
Proof.
  induction 1 as [|b bs [H1 H2] _ IH]; intros fuel cap u t Hcap; [by rewrite app_nil_r|].
  rewrite zlen_cons in Hcap. pose proof (zlen_nonneg bs). cbn [length Nat.add app decode_string_loop].
  rewrite (proj2 (Z.eqb_neq b 34)), (proj2 (Z.eqb_neq b 92)) by done. rewrite require_true, bind_Val by (apply Z.ltb_lt; lia).
  rewrite IH, <- app_assoc; [done|]. rewrite zlen_app. change (zlen [b]) with 1. lia.
Qed.

(** A character that need not be escaped is plain. *)
Lemma plain_char flags c cp : is_char c cp → 0 < cp → must_escape flags cp = false →
  Forall (λ b, 0x20 ≤ b < 0xF5 ∧ b ≠ 34 ∧ b ≠ 92) c.
Proof.
  intros Hc Hcp Hm. unfold must_escape in Hm. destruct (char_bytes c cp Hc) as [Hb _].
  destruct (Z.leb_spec 2 (zlen c)) as [Hz|Hz].
  - pose proof (char_high c cp Hc Hz) as Hh. rewrite Forall_forall in Hb, Hh |- *. intros b Hin.
    specialize (Hb b Hin). specialize (Hh b Hin). simpl in *. lia.
  - destruct Hc as [[-> Hr]|(x & l & -> & _ & Hl & _)]; [|lia]. constructor; [blia|constructor].
Qed.

Lemma char_positive c cp : is_char c cp → Forall (λ b, 0 < b < 256) c → 0 < cp.
Proof.
  intros [[-> Hcp]|(x & l & -> & Hf & _ & Hfull)] Hn; [apply Forall_cons in Hn as [? _]; lia|].
  apply check_full_inv in Hfull; [|done]. destruct l as [|v [|w [|y [|]]]]; try done; lia.
Qed.

(** Decoding what the printer escaped. *)
Lemma decode_escaped flags s : clean s → ∀ fuel cap junk t,
  (length (escape flags s) < fuel)%nat → zlen t + zlen (escape flags s) < cap →
  decode_string_loop fuel cap (escape flags s ++ 34 :: junk) t = Val (Some (t ++ s)).
Proof.
  intros Hs. pose proof (clean_bytes s Hs) as Hb. destruct Hs as [Hn Hv]. revert s Hb Hv Hn.
  apply (valid_ind (λ s, Forall (λ b, 0 < b < 256) s → ∀ fuel cap junk t, _ → _ → _ = _)).
  { intros _ fuel cap junk t Hf Hcap. change (escape flags []) with (@nil Z) in *. destruct fuel; [simpl in Hf; lia|].
    cbn [app decode_string_loop]. change (34 =? 34) with true. rewrite zlen_nil in Hcap.
    rewrite require_true, bind_Val by (apply Z.ltb_lt; lia). by rewrite app_nil_r. }
  intros c cp t' Hc Ht IH [Hnc Hnt]%Forall_app fuel cap junk t Hf Hcap. rewrite (escape_cons flags c cp t' Hc) in *.
  pose proof (char_positive c cp Hc Hnc) as Hcp. unfold escape_char in *. cbn [fst snd] in *.
  rewrite length_app in Hf. rewrite zlen_app in Hcap. rewrite <- app_assoc.
  assert (zlen c ≤ 4) as Hc4 by (by apply char_length in Hc as []).
  destruct (must_escape flags cp) eqn:Em.
  - assert (zlen c ≤ zlen (escape_text cp)) as Hle.
    { assert (cp ≤ 0x10FFFF) as Hmax.
      { destruct Hc as [[-> ?]|(x & l & -> & Hfi & _ & Hfull)]; [lia|]. by apply check_full_parts in Hfull as (_ & ? & _). }
      destruct (escape_text_cases cp ltac:(lia)) as [(e & -> & _ & _ & _ & Hlow)|[[_ ->]|[_ ->]]].
      - pose proof (encode_char c cp Hc) as He. unfold utf8_encode in He.
        rewrite (proj2 (Z.ltb_ge cp 0)), (proj2 (Z.ltb_lt cp 0x80)) in He by lia. by injection He as <-.
      - unfold zlen at 2. simpl. lia.
      - unfold zlen at 2. simpl. lia. }
    assert (1 ≤ zlen (escape_text cp)) by (apply char_length in Hc as []; lia).
    destruct fuel as [|fuel]; [lia|]. pose proof (zlen_nonneg (escape flags t')).
    rewrite (decode_escape cp c) by (done || lia).
    rewrite IH, <- app_assoc; [done|done|unfold zlen in *; lia|rewrite zlen_app; lia].
  - assert (∃ f, fuel = (length c + f)%nat) as [f ->] by (exists (fuel - length c)%nat; lia).
    pose proof (zlen_nonneg (escape flags t')). rewrite decode_plain; [|eapply Forall_impl; [by eapply plain_char|]; simpl; tauto|lia].
    rewrite IH, <- app_assoc; [done|done|lia|rewrite zlen_app; lia].
Qed.

(** The scanner passes over it, up to the quote. *)
Lemma scan_escaped flags s : clean s → ∀ fuel lx u text tok val c,
  (length (escape flags s) < fuel)%nat → peek lx (escape flags s ++ 34 :: u) text tok val c →
  ∃ lx', scan_string_loop malloc fuel c lx = Val (lx', true) ∧ resting lx' u (text ++ escape flags s ++ [34]) tok val.
Proof.
  intros Hs. pose proof (clean_bytes s Hs) as Hb. destruct Hs as [Hn Hv]. revert s Hb Hv Hn.
  apply (valid_ind (λ s, Forall (λ b, 0 < b < 256) s → ∀ fuel lx u text tok val c, _ → _ → ∃ lx', _ ∧ _)).
  { intros _ fuel lx u text tok val c Hf Hp. change (escape flags []) with (@nil Z) in *. destruct fuel; [simpl in Hf; lia|].
    destruct (peek_rest _ _ _ _ _ _ _ Hp) as [-> Hp']. exists lx. done. }
  intros c cp t' Hc Ht IH [Hnc Hnt]%Forall_app fuel lx u text tok val ch Hf Hp. rewrite (escape_cons flags c cp t' Hc) in *.
  pose proof (char_positive c cp Hc Hnc) as Hcp. unfold escape_char in *. cbn [fst snd] in *.
  rewrite length_app in Hf. rewrite <- app_assoc in Hp. pose proof (char_length c cp Hc) as Hcl. unfold zlen in Hcl.
  assert (∀ f lx1 c1 e, e = (if must_escape flags cp then escape_text cp else c) → (length (escape flags t') < f)%nat →
    scan_string_loop malloc fuel ch lx = scan_string_loop malloc f c1 lx1 →
    peek lx1 (escape flags t' ++ 34 :: u) (text ++ e) tok val c1 →
    ∃ lx', scan_string_loop malloc fuel ch lx = Val (lx', true) ∧
      resting lx' u (text ++ ((if must_escape flags cp then escape_text cp else c) ++ escape flags t') ++ [34]) tok val) as Hfin.
  { intros f lx1 c1 e <- Hf1 -> P1. destruct (IH Hnt f lx1 u _ tok val c1 Hf1 P1) as (lx2 & E2 & R2). exists lx2.
    rewrite <- !app_assoc in R2. rewrite <- app_assoc. done. }
  destruct (must_escape flags cp) eqn:Em.
  - assert (cp ≤ 0x10FFFF) as Hmax.
    { destruct Hc as [[-> ?]|(x & l & -> & Hfi & _ & Hfull)]; [lia|]. by apply check_full_parts in Hfull as (_ & ? & _). }
    destruct (escape_text_cases cp ltac:(lia)) as [(e & Et & He & Hb & _)|[[_ Et]|[_ Et]]].
    + rewrite Et in *. destruct fuel as [|f]; [simpl in Hf; lia|].
      destruct (scan_short e f _ _ _ _ _ _ He Hb Hp) as (lx1 & c1 & E1 & P1). apply (Hfin f lx1 c1 [92; e]); [done|simpl in Hf; lia|done|done].
    + rewrite Et in *. destruct (hex4_ok cp) as [Hl4 Hh4]. destruct fuel as [|f]; [simpl in Hf; lia|].
      destruct (scan_unicode _ f _ _ _ _ _ _ Hl4 Hh4 Hp) as (lx1 & c1 & E1 & P1).
      apply (Hfin f lx1 c1 (92 :: 117 :: sprintf_04x cp)); [done|simpl in Hf; lia|done|done].
    + cbv zeta in Et. set (a := 0xD800 + _) in Et. set (b := 0xDC00 + _) in Et. rewrite Et in *.
      destruct (hex4_ok a) as [Hla Hha]. destruct (hex4_ok b) as [Hlb Hhb]. destruct fuel as [|[|f]]; [simpl in Hf; lia..|].
      cbn [app] in Hp. rewrite <- app_assoc in Hp. cbn [app] in Hp.
      destruct (scan_unicode _ (S f) _ _ _ _ _ _ Hla Hha Hp) as (lx1 & c1 & E1 & P1).
      destruct (scan_unicode _ f _ _ _ _ _ _ Hlb Hhb P1) as (lx2 & c2 & E2 & P2). rewrite E2 in E1.
      rewrite <- app_assoc in P2. apply (Hfin f lx2 c2 (92 :: 117 :: sprintf_04x a ++ 92 :: 117 :: sprintf_04x b)); [done|simpl in Hf; lia|done|done].
  - assert (∃ f, fuel = (length c + f)%nat) as [f ->] by (exists (fuel - length c)%nat; lia).
    destruct (scan_plain c (plain_char flags c cp Hc Hcp Em) f _ _ _ _ _ _ Hp) as (lx1 & c1 & E1 & P1).
    apply (Hfin f lx1 c1 c); [done|lia|done|done].
Qed.
End Read.
