(* ===== verification/JsonTokens.v ===== *)
(** * Tokens

    What [lex_scan] makes of white space followed by a token, in front of any text
    that cannot continue the token: its kind, its value, and the lexer at rest
    behind it. *)

From S2P Require Import Prelude Float Utf8 StrBuffer RealText Jansson JsonDump JsonLoad JsonLex JsonRead.
Local Open Scope Z_scope.

Definition is_space (c : Z) : bool := (c =? 32) || (c =? 9) || (c =? 10) || (c =? 13).

(** What can follow a value: nothing, white space, a comma, a closing bracket. *)
Definition follows (r : bytes) : Prop :=
  match r with [] => True | c :: _ => is_space c || (c =? 44) || (c =? 93) || (c =? 125) = true end.

Lemma follows_number r : follows r → ends_number r.
Proof. destruct r as [|c r]; [done|]. unfold follows, is_space, ends_number, l_isdigit. intros. split; blia. Qed.

Lemma follows_alpha r : follows r → match r with [] => True | c :: _ => l_isalpha c = false end.
Proof. destruct r as [|c r]; [done|]. unfold follows, is_space, l_isalpha, l_isupper, l_islower. intros. blia. Qed.

Section Tokens.
Context (malloc : Z → bool) (Hmalloc : malloc_succeeds malloc).
Context (B : Z) (HB : 0 ≤ B < 2 ^ 61).

Abbreviation resting := (resting B).
Abbreviation peek := (peek B).
Abbreviation peek0 := (peek0 B).

(** ** White space *)

Lemma peek0_rest lx b u text tok val c : peek0 lx (b :: u) text tok val c → c = s8 b ∧ resting lx u text tok val.
Proof. intros (_ & -> & _ & pre & H). split; [done|]. left. by eexists. Qed.

Lemma peek0_room lx u text tok val c : peek0 lx u text tok val c → zlen text + zlen u ≤ B.
Proof. destruct u as [|b u]; [intros [_ []]; rewrite zlen_nil; lia|]. by intros (_ & _ & ? & _). Qed.

Lemma skip_spaces ws : Forall (λ b, is_space b = true) ws → ∀ fuel lx b u tok val c,
  is_space b = false → peek0 lx (ws ++ b :: u) [] tok val c → (length ws < fuel)%nat →
  ∃ lx' c', skip_space fuel c lx = Val (lx', c') ∧ peek0 lx' (b :: u) [] tok val c'.
Proof.
  induction 1 as [|w ws Hw _ IH]; intros fuel lx b u tok val c Hb Hp Hf; (destruct fuel as [|fuel]; [simpl in Hf; lia|]);
    cbn [skip_space app] in *.
  - exists lx, c. destruct (peek0_rest _ _ _ _ _ _ _ Hp) as [-> _]. destruct Hp as (Hr & Hp).
    rewrite !s8_eqb by lia. unfold is_space in Hb. rewrite Hb. done.
  - pose proof (peek0_room _ _ _ _ _ _ Hp) as Hroom. destruct (peek0_rest _ _ _ _ _ _ _ Hp) as [-> Hp'].
    destruct Hp as (Hr & _). rewrite !s8_eqb by lia. unfold is_space in Hw. rewrite Hw.
    destruct (get_resting B _ _ _ _ _ Hp') as (lx1 & c1 & E1 & P1); [rewrite zlen_cons in Hroom; lia|].
    rewrite (lexer_bind_Val _ _ _ _ _ E1). apply (IH fuel lx1 b u tok val c1 Hb P1). simpl in Hf. lia.
Qed.

Lemma skip_spaces_end ws : Forall (λ b, is_space b = true) ws → ∀ fuel lx tok val c,
  peek0 lx ws [] tok val c → (length ws < fuel)%nat →
  ∃ lx', skip_space fuel c lx = Val (lx', STREAM_STATE_EOF) ∧ resting lx' [] [] tok val.
Proof.
  induction 1 as [|w ws Hw _ IH]; intros fuel lx tok val c Hp Hf; (destruct fuel as [|fuel]; [simpl in Hf; lia|]);
    cbn [skip_space] in *.
  - exists lx. destruct Hp as [-> Hp]. split; [done|]. by right.
  - pose proof (peek0_room _ _ _ _ _ _ Hp) as Hroom. destruct (peek0_rest _ _ _ _ _ _ _ Hp) as [-> Hp'].
    destruct Hp as (Hr & _). rewrite !s8_eqb by lia. unfold is_space in Hw. rewrite Hw.
    destruct (get_resting B _ _ _ _ _ Hp') as (lx1 & c1 & E1 & P1); [rewrite zlen_cons in Hroom; lia|].
    rewrite (lexer_bind_Val _ _ _ _ _ E1). apply (IH fuel lx1 tok val c1 P1). simpl in Hf. lia.
Qed.

Lemma clear_resting lx u text tok val : resting lx u text tok val →
  ∃ lx', lex_clear lx = Val (lx', tt) ∧ resting lx' u [] tok val.
Proof.
  intros [(pre & suf & data & H & Hu)|[-> H]].
  - destruct (lex_clear_at B _ _ _ _ _ _ _ H) as (lx' & E & H'). exists lx'. split; [done|]. left. by exists pre, suf, data.
  - destruct (lex_clear_end B HB _ _ _ _ _ H) as (lx' & E & H'). exists lx'. split; [done|]. by right.
Qed.

(** The lexer finds the start of the next token. *)
Lemma scan_start ws lx b u text tok val : Forall (λ b, is_space b = true) ws → is_space b = false →
  resting lx (ws ++ b :: u) text tok val →
  ∃ lx' c, lex_scan malloc lx = lex_scan_token malloc c lx' ∧ peek0 lx' (b :: u) [] tok val c.
Proof.
  intros Hw Hb Hr. unfold lex_scan. pose proof (resting_room B _ _ _ _ _ Hr) as Hroom. pose proof (zlen_nonneg text).
  destruct (clear_resting _ _ _ _ _ Hr) as (lx1 & E1 & R1). rewrite (lexer_bind_Val _ _ _ _ _ E1).
  destruct (get_resting B _ _ _ _ _ R1) as (lx2 & c2 & E2 & P2); [rewrite zlen_nil; lia|]. rewrite (lexer_bind_Val _ _ _ _ _ E2).
  rewrite (lexer_bind_Val (lx_gets lx_left) _ lx2 lx2 (lx_left lx2)) by done.
  destruct (skip_spaces ws Hw (lx_left lx2) lx2 b u tok val c2 Hb P2) as (lx3 & c3 & E3 & P3).
  { pose proof (peek0_left B _ _ _ _ _ _ P2) as Hl. rewrite length_app in Hl. lia. }
  rewrite (lexer_bind_Val _ _ _ _ _ E3). by exists lx3, c3.
Qed.

(** ** The end of the text *)

Lemma token_end ws lx text tok val : Forall (λ b, is_space b = true) ws → resting lx ws text tok val →
  ∃ lx' , lex_scan malloc lx = Val (lx', tt) ∧ lx_token lx' = TOKEN_EOF.
Proof.
  intros Hw Hr. unfold lex_scan. pose proof (resting_room B _ _ _ _ _ Hr) as Hroom. pose proof (zlen_nonneg text).
  destruct (clear_resting _ _ _ _ _ Hr) as (lx1 & E1 & R1). rewrite (lexer_bind_Val _ _ _ _ _ E1).
  destruct (get_resting B _ _ _ _ _ R1) as (lx2 & c2 & E2 & P2); [rewrite zlen_nil; lia|]. rewrite (lexer_bind_Val _ _ _ _ _ E2).
  rewrite (lexer_bind_Val (lx_gets lx_left) _ lx2 lx2 (lx_left lx2)) by done.
  destruct (skip_spaces_end ws Hw (lx_left lx2) lx2 tok val c2 P2 (peek0_left B _ _ _ _ _ _ P2)) as (lx3 & E3 & P3).
  rewrite (lexer_bind_Val _ _ _ _ _ E3). by eexists.
Qed.

(** ** Tokens *)

(** [t] in front of [r] is the token [tok], with a value that satisfies [P]. *)
Definition scans (t r : bytes) (tok : Z) (P : lex_value → Prop) : Prop :=
  ∀ lx ws text tok0 val0, Forall (λ b, is_space b = true) ws → resting lx (ws ++ t ++ r) text tok0 val0 →
  ∃ lx' text' val, lex_scan malloc lx = Val (lx', tt) ∧ resting lx' r text' tok val ∧ P val.

Definition any : lex_value → Prop := λ _, True.

(** From the first character of the token, saved. *)
Lemma scans_intro b t r tok P : is_space b = false →
  (∀ lx tok0 val0, peek lx (b :: t ++ r) [] tok0 val0 (s8 b) →
     ∃ lx' text' val, lex_scan_rest malloc (s8 b) lx = Val (lx', tt) ∧ resting lx' r text' tok val ∧ P val) →
  scans (b :: t) r tok P.
Proof.
  intros Hb H lx ws text tok0 val0 Hw Hr. cbn [app] in Hr. destruct (scan_start ws lx b _ _ _ _ Hw Hb Hr) as (lx1 & c & -> & P1).
  destruct (save_peek malloc Hmalloc B HB _ _ _ _ _ _ _ P1) as (lx2 & E2 & P2). unfold lex_scan_token.
  destruct P1 as (Hb' & -> & _). pose proof (s8_not_end b ltac:(lia)) as He. unfold is_end in He.
  apply orb_false_iff in He as [-> ->]. rewrite (lexer_bind_Val _ _ _ _ _ E2). by eapply H.
Qed.

Lemma scans_punctuation b r : is_punctuation b = true → scans [b] r b any.
Proof.
  intros Hb. assert (b = 123 ∨ b = 125 ∨ b = 91 ∨ b = 93 ∨ b = 58 ∨ b = 44) as Hc by (unfold is_punctuation in Hb; blia).
  apply scans_intro; [by destruct Hc as [->|[->|[->|[->|[-> | ->]]]]]|]. intros lx tok0 val0 Hp.
  destruct (peek_rest B _ _ _ _ _ _ _ Hp) as [_ Hp']. unfold lex_scan_rest. rewrite s8_low, Hb by lia.
  eexists _, _, _. split; [done|]. split; [by eapply resting_token|done].
Qed.

(** *** Keywords *)

Lemma scan_alpha_text w : Forall (λ b, 0 < b < 0x80 ∧ l_isalpha b = true) w → ∀ fuel lx r text tok val c,
  match r with [] => True | c :: _ => l_isalpha c = false end → peek lx (w ++ r) text tok val c → (length w < fuel)%nat →
  ∃ lx' c', scan_alpha malloc fuel c lx = Val (lx', c') ∧ peek lx' r (text ++ w) tok val c'.
Proof.
  induction 1 as [|b w [Hb Ha] _ IH]; intros fuel lx r text tok val c Hr Hp Hf; (destruct fuel as [|fuel]; [simpl in Hf; lia|]);
    cbn [scan_alpha app] in *.
  - rewrite app_nil_r. exists lx, c. destruct r as [|x r]; [destruct Hp as [-> Hp]; done|].
    pose proof Hp as (Hx & -> & _). rewrite s8_isalpha, Hr by lia. done.
  - destruct (peek_rest B _ _ _ _ _ _ _ Hp) as [-> Hp']. rewrite s8_isalpha, Ha by lia.
    destruct (get_save_resting malloc Hmalloc B HB _ _ _ _ _ Hp') as (lx1 & c1 & E1 & P1). rewrite (lexer_bind_Val _ _ _ _ _ E1).
    destruct (IH fuel lx1 r _ tok val c1 Hr P1) as (lx2 & c2 & E2 & P2); [simpl in Hf; lia|].
    exists lx2, c2. rewrite <- app_assoc in P2. done.
Qed.

Lemma scans_keyword b w r : Forall (λ b, 0 < b < 0x80 ∧ l_isalpha b = true) (b :: w) → follows r →
  scans (b :: w) r (keyword_token (b :: w)) any.
Proof.
  intros Hbw Hr. pose proof Hbw as [[Hb Ha] Hw]%Forall_cons.
  assert (is_space b = false ∧ is_punctuation b = false ∧ (b =? 34) = false ∧ l_isdigit b || (b =? 45) = false) as (Hs & Hp1 & Hq & Hd).
  { unfold is_space, is_punctuation, l_isdigit, l_isalpha, l_isupper, l_islower in *. repeat split; blia. }
  apply scans_intro; [done|]. intros lx tok0 val0 Hp. unfold lex_scan_rest. rewrite s8_low, Hp1, Hq, Hd, Ha by lia.
  destruct (peek_rest B _ _ _ _ _ _ _ Hp) as [_ Hp'].
  destruct (get_save_resting malloc Hmalloc B HB _ _ _ _ _ Hp') as (lx1 & c1 & E1 & P1). rewrite (lexer_bind_Val _ _ _ _ _ E1).
  rewrite (lexer_bind_Val (lx_gets lx_left) _ lx1 lx1 (lx_left lx1)) by done.
  destruct (scan_alpha_text w Hw (lx_left lx1) lx1 r _ _ _ c1 (follows_alpha _ Hr) P1) as (lx2 & c2 & E2 & P2).
  { pose proof (peek_left B _ _ _ _ _ _ P1) as Hl. rewrite length_app in Hl. lia. }
  rewrite (lexer_bind_Val _ _ _ _ _ E2). destruct (unget_unsave_peek B _ _ _ _ _ _ P2) as (lx3 & E3 & R3).
  rewrite (lexer_bind_Val _ _ _ _ _ E3). rewrite (lexer_bind_Val (lx_gets lx_saved) _ lx3 lx3 (lx_saved lx3)) by done.
  cbn [app] in R3. destruct (resting_saved B _ _ _ _ _ R3) as [-> _].
  { eapply Forall_impl; [exact Hbw|]. unfold ascii. simpl. lia. }
  eexists _, _, _. split; [done|]. split; [by eapply resting_token|done].
Qed.

(** *** Numbers *)

Lemma number_start b : (b = chr_minus ∨ ∃ d, b = chr_0 + d ∧ is_digit d) →
  is_space b = false ∧ s8 b = b ∧ is_punctuation b = false ∧ (b =? 34) = false ∧ l_isdigit b || (b =? 45) = true.
Proof.
  clear. intros [->|(d & -> & Hd)]; [done|]. unfold is_space, is_punctuation, l_isdigit, is_digit, chr_0 in *.
  rewrite s8_low by lia. repeat split; blia.
Qed.

Lemma scans_number neg ip t r tok v : ip ≠ [] → Forall is_digit ip →
  (∀ lx tok0 val0 c, peek lx ((minus neg ++ chars ip ++ t) ++ r) [] tok0 val0 c →
     ∃ lx' text, lex_scan_number malloc c lx = Val (lx', true) ∧ resting lx' r text tok v) →
  scans (minus neg ++ chars ip ++ t) r tok (eq v).
Proof.
  intros Hne Hd H. assert (∃ b t', minus neg ++ chars ip ++ t = b :: t' ∧ (b = chr_minus ∨ ∃ d, b = chr_0 + d ∧ is_digit d))
    as (b & t' & E & Hb).
  { destruct neg; [by eexists _, _; split; [|left]|]. destruct ip as [|d ip]; [done|]. apply Forall_cons in Hd as [Hd _].
    eexists _, _. split; [done|]. right. by exists d. }
  rewrite E in *. destruct (number_start b Hb) as (H1 & H2 & H3 & H4 & H5). apply scans_intro; [done|]. intros lx tok0 val0 Hp.
  unfold lex_scan_rest. rewrite H2, H3, H4, H5 in *. destruct (H lx tok0 val0 b Hp) as (lx' & text & E' & R).
  rewrite (lexer_bind_Val _ _ _ _ _ E'). by exists lx', text, v.
Qed.

Lemma scans_integer n r : - 2 ^ 63 ≤ n < 2 ^ 63 → follows r → scans (sprintf_lld n) r TOKEN_INTEGER (eq (LvInteger n)).
Proof.
  intros Hn Hr. destruct (sprintf_u_digits (Z.abs n) ltac:(lia)) as (ds & Es & Hd & _ & Hi).
  assert (sprintf_lld n = minus (n <? 0) ++ chars ds ++ []) as El by (unfold sprintf_lld; by rewrite Es, app_nil_r).
  assert (ds ≠ []) as Hne by (by destruct Hi as [->|(? & ? & -> & _)]).
  rewrite El. apply scans_number; [done..|]. rewrite <- El. intros lx tok0 val0 c Hp.
  destruct (lex_integer malloc Hmalloc B HB n lx r tok0 val0 c Hn (follows_number _ Hr) Hp) as (lx' & E & R). by eexists _, _.
Qed.

Lemma scans_real neg ip fp ex d r : num_ok ip fp ex → jsonp_strtod (num_text neg ip fp ex) = Val (Some d) → follows r →
  scans (num_text neg ip fp ex) r TOKEN_REAL (eq (LvReal d)).
Proof.
  intros Ho Hs Hr. pose proof Ho as [Hi [Hdi _]%Forall_app _ _]. unfold num_text.
  assert (ip ≠ []) as Hne by (by destruct Hi as [->|(? & ? & -> & _)]).
  apply scans_number; [done..|]. fold (num_text neg ip fp ex). intros lx tok0 val0 c Hp.
  destruct (lex_real malloc Hmalloc B HB neg ip fp ex d lx r tok0 val0 c Ho Hs (follows_number _ Hr) Hp) as (lx' & E & R).
  by eexists _, _.
Qed.

(** *** Strings *)

Lemma scans_string flags s r : text_ok s = true →
  scans (string_text flags s) r TOKEN_STRING (eq (LvString (Some (bytes_of s)))).
Proof.
  intros Hs. pose proof (clean_string s Hs) as Hc. pose proof (escape_clean flags _ Hc) as [Hn _].
  apply scans_intro; [done|]. intros lx tok0 val0 Hp. rewrite <- app_assoc in Hp. cbn [app] in Hp.
  change (lex_scan_rest malloc (s8 QUOTE) lx) with (lex_scan_string malloc lx). unfold lex_scan_string.
  do 2 erewrite lexer_bind_Val by done.
  apply (peek_value B _ _ _ _ _ _ (LvString None)), (peek_token B _ _ _ _ _ _ TOKEN_INVALID) in Hp.
  destruct (peek_rest B _ _ _ _ _ _ _ Hp) as [_ Hp'].
  destruct (get_save_resting malloc Hmalloc B HB _ _ _ _ _ Hp') as (lx1 & c1 & E1 & P1). rewrite (lexer_bind_Val _ _ _ _ _ E1).
  rewrite (lexer_bind_Val (lx_gets lx_left) _ lx1 lx1 (lx_left lx1)) by done.
  destruct (scan_escaped malloc Hmalloc B HB flags (bytes_of s) Hc (lx_left lx1) lx1 r [QUOTE] TOKEN_INVALID (LvString None) c1) as (lx2 & E2 & R2); [|done|].
  { pose proof (peek_left B _ _ _ _ _ _ P1) as Hl. rewrite length_app in Hl. lia. }
  rewrite (lexer_bind_Val _ _ _ _ _ E2). cbn [negb].
  rewrite (lexer_bind_Val (lx_gets lx_saved) _ lx2 lx2 (lx_saved lx2)) by done.
  pose proof (resting_room B _ _ _ _ _ R2) as Hroom. cbn [app] in *. set (saved := QUOTE :: escape flags (bytes_of s) ++ [34]) in *.
  assert (sb_rep B (lx_saved lx2) saved) as R by (by destruct R2 as [(pre & suf & data & [] & _)|[_ []]]).
  rewrite (value_rep B _ _ R), (sb_len _ _ _ R).
  2: { constructor; [done|]. apply Forall_app. split; [|by repeat constructor]. eapply Forall_impl; [exact Hn|]. simpl. lia. }
  pose proof (zlen_nonneg r). pose proof (zlen_nonneg saved). rewrite Hmalloc by lia. cbn [negb].
  change (drop 1 saved) with (escape flags (bytes_of s) ++ 34 :: []).
  unfold lx_lift. erewrite lexer_bind_Val.
  2: { rewrite (decode_escaped B HB flags (bytes_of s) Hc); [done|rewrite length_app; simpl; lia|].
       unfold saved. autorewrite with zlen. change (zlen [34]) with 1. lia. }
  cbn [app]. eexists _, _, _. split; [done|]. split; [by eapply resting_token, resting_value|done].
Qed.
End Tokens.
