(* ===== verification/JsonRoundtrip.v ===== *)
(** * Reading what was printed

    [readable] says when a value can be read back from its text: strings and keys
    are C strings of valid UTF-8, integers fit 64 bits, reals are zero or normal
    doubles, the keys of an object differ. [json_roundtrip] composes [json_dumps]
    with [json_loadb]; [same] is equality up to the order of the pairs of an
    object. *)

From S2P Require Import Prelude Float Utf8 StrBuffer RealText Jansson JsonDump JsonLoad JsonLex JsonRead JsonTokens.
Local Open Scope Z_scope.

Fixpoint readable (json : json_t) : bool :=
  match json with
  | JString s => text_ok s
  | JInteger n => (- 2 ^ 63 <=? n) && (n <? 2 ^ 63)
  | JReal x => (0 <=? x) && (x <? 2 ^ 64) && normal_real x
  | JArray l => (zlen l <=? INT_MAX) && forallb readable l
  | JObject (mkTable _ l) => bool_decide (NoDup l.*1) && forallb (λ '(k, v), text_ok k && readable v) l
  | _ => true
  end.

Lemma readable_pairs n l : readable (JObject (mkTable n l)) = true →
  NoDup l.*1 ∧ Forall (λ kv, text_ok kv.1 = true ∧ readable kv.2 = true) l.
Proof.
  cbn [readable]. intros [Hn Hl]%andb_true_iff. apply bool_decide_eq_true in Hn. split; [done|].
  rewrite forallb_forall in Hl. apply Forall_forall. intros [k v] Hin. apply list_elem_of_In, Hl in Hin.
  by apply andb_true_iff in Hin.
Qed.

Lemma readable_elems l : readable (JArray l) = true → zlen l ≤ INT_MAX ∧ Forall (λ v, readable v = true) l.
Proof.
  cbn [readable]. intros [Hn Hl]%andb_true_iff. apply Z.leb_le in Hn. split; [done|].
  rewrite forallb_forall in Hl. apply Forall_forall. intros v Hin. by apply Hl, list_elem_of_In.
Qed.

Lemma readable_printable v : readable v = true → printable v = true.
Proof.
  induction v as [n l IH|l IH|s|n|x| | |] using json_value_ind; intros Hr; try done.
  - apply readable_pairs in Hr as [_ Hl]. cbn [printable]. apply forallb_forall. intros [k v] Hin%list_elem_of_In.
    rewrite Forall_forall in Hl, IH. destruct (Hl _ Hin) as [Hk Hv]. apply andb_true_iff. split; [done|]. by apply (IH _ Hin).
  - apply readable_elems in Hr as [Hn Hl]. cbn [printable]. apply andb_true_iff. split; [by apply Z.leb_le|].
    apply forallb_forall. intros v Hin%list_elem_of_In. rewrite Forall_forall in Hl, IH. by apply IH, Hl.
  - cbn [readable printable] in *. apply andb_true_iff in Hr as [Hx Hn].
    destruct (real_text x ltac:(unfold is_u; blia) Hn) as (neg & ip & fp & ex & E & _).
    unfold MAX_REAL_STR_LENGTH. by rewrite E.
Qed.

Section Roundtrip.
Context (malloc : Z → bool) (Hmalloc : malloc_succeeds malloc).
Context (B : Z) (HB : 0 ≤ B < 2 ^ 61).
Context (flags rflags : Z).

Abbreviation scan := (lex_scan malloc).
Abbreviation spaces ws := (Forall (λ b, is_space b = true) ws).

(** The lexer rests in front of [u]. *)
Definition rests (lx : lex_t) (u : bytes) : Prop := ∃ text tok val, resting B lx u text tok val.

(** What [scans] says, for a resting lexer. *)
Lemma rests_scan t r tok P lx ws : scans malloc B t r tok P → spaces ws → rests lx (ws ++ t ++ r) →
  ∃ lx', scan lx = Val (lx', tt) ∧ lx_token lx' = tok ∧ P (lx_value lx') ∧ rests lx' r.
Proof.
  intros Hs Hw (text & tok0 & val0 & Hr). destruct (Hs lx ws text tok0 val0 Hw Hr) as (lx' & text' & val & E & R & HP).
  destruct (resting_tok B _ _ _ _ _ R) as [Ht Hv]. exists lx'. rewrite Hv. do 3 (split; [done|]). by exists text', tok, val.
Qed.

Lemma rests_punctuation b r lx ws : is_punctuation b = true → spaces ws → rests lx (ws ++ b :: r) →
  ∃ lx', scan lx = Val (lx', tt) ∧ lx_token lx' = b ∧ rests lx' r.
Proof.
  intros Hb Hw Hr. destruct (rests_scan [b] r b any lx ws) as (lx' & E & Ht & _ & R); [by apply scans_punctuation|done..|].
  by exists lx'.
Qed.

Lemma indent_spaces depth space : spaces (indent_text flags depth space).
Proof.
  unfold indent_text. destruct (_ >? 0); [|destruct (_ && _); repeat constructor].
  apply Forall_app. split; [by repeat constructor|]. by apply Forall_concat, Forall_replicate, Forall_replicate.
Qed.

Lemma follows_spaces ws b u : spaces ws → (b =? 44) || (b =? 93) || (b =? 125) = true → follows (ws ++ b :: u).
Proof.
  intros [|w ws' Hw _] Hb; cbn [app follows]; [|by rewrite Hw].
  rewrite <- !orb_assoc. rewrite <- orb_assoc in Hb. rewrite Hb. apply orb_true_r.
Qed.

(** [v] is read back from its text. The parser is entered after [lex_scan]. *)
Definition loads (v : json_t) (depth : Z) : Prop := ∀ r lx ws fuel,
  spaces ws → rests lx (ws ++ json_text flags depth v ++ r) → (length (json_text flags depth v) < fuel)%nat → follows r →
  ∃ lx1 lx2 v', scan lx = Val (lx1, tt) ∧ (lx_token lx1 ∉ [TOKEN_EOF; 93; 125]) ∧
    parse_value malloc rflags fuel lx1 = Val (lx2, Some v') ∧ same v v' ∧ rests lx2 r.

(** The token before the loop, then the loop. *)
Lemma array_loop_loads depth fuel l : Forall (λ v, loads v (depth + 1)) l →
  Forall (λ v, (length (json_text flags (depth + 1) v) < fuel)%nat) l → ∀ n lx ws r acc,
  l ≠ [] → (length l ≤ n)%nat → spaces ws →
  rests lx (ws ++ rest_text flags depth (map (json_text flags (depth + 1)) l) ++ 93 :: r) →
  ∃ lx1 lx2 l', scan lx = Val (lx1, tt) ∧ (lx_token lx1 ∉ [TOKEN_EOF; 93; 125]) ∧
    array_loop malloc (parse_value malloc rflags fuel) n (JArray acc) lx1 = Val (lx2, Some (JArray (acc ++ l'))) ∧
    Forall2 same l l' ∧ rests lx2 r.
Proof.
  induction 1 as [|v l Hv _ IH]; intros Hf n lx ws r acc Hne Hn Hw Hr; [done|]. apply Forall_cons in Hf as [Hfv Hf].
  cbn [map rest_text] in Hr. rewrite <- !app_assoc in Hr. destruct n as [|n]; [simpl in Hn; lia|].
  destruct (Hv _ lx ws fuel Hw Hr Hfv) as (lx1 & lx2 & v' & E1 & T1 & E2 & Sv & R2).
  { destruct l as [|w l]; cbn [map]; [|done]. cbn [rest_text]. by apply follows_spaces; [apply indent_spaces|]. }
  exists lx1. cbn [array_loop]. rewrite (lexer_bind_Val (lx_gets lx_token) _ lx1 lx1 (lx_token lx1)) by done.
  assert ((lx_token lx1 =? 0) = false) as -> by (apply Z.eqb_neq; intros E; apply T1; rewrite E; by left).
  rewrite (lexer_bind_Val _ _ _ _ _ E2). cbn [json_array_append_new].
  destruct l as [|w l]; cbn [map] in R2.
  - cbn [rest_text app] in R2. rewrite bool_decide_true in R2 by done. cbn [negb] in R2.
    destruct (rests_punctuation 93 r lx2 _ eq_refl (indent_spaces _ _) R2) as (lx3 & E3 & T3 & R3).
    exists lx3, [v']. do 2 (split; [done|]). rewrite (lexer_bind_Val _ _ _ _ _ E3).
    rewrite (lexer_bind_Val (lx_gets lx_token) _ lx3 lx3 93) by (unfold lx_gets; by rewrite T3).
    split; [done|]. split; [by constructor|done].
  - rewrite bool_decide_false in R2 by done. cbn [negb] in R2. rewrite <- !app_assoc in R2.
    destruct (rests_punctuation 44 _ lx2 [] eq_refl (Forall_nil_2 _) R2) as (lx3 & E3 & T3 & R3).
    rewrite (lexer_bind_Val _ _ _ _ _ E3).
    rewrite (lexer_bind_Val (lx_gets lx_token) _ lx3 lx3 44) by (unfold lx_gets; by rewrite T3).
    destruct (IH Hf n lx3 _ r (acc ++ [v']) ltac:(done) ltac:(simpl in *; lia) (indent_spaces (depth + 1) true) R3)
      as (lx4 & lx5 & l' & E4 & _ & E5 & Sl & R5).
    exists lx5, (v' :: l'). do 2 (split; [done|]). change (negb (44 =? 44)) with false. cbn iota.
    rewrite (lexer_bind_Val _ _ _ _ _ E4), E5, <- app_assoc. split; [done|]. split; [by constructor|done].
Qed.

(** The same for the pairs of an object. *)
Definition pair_text (depth : Z) (kv : string * json_t) : bytes :=
  let '(k, v) := kv in string_text flags k ++ separator flags ++ json_text flags (depth + 1) v.

Lemma separator_spaces : ∃ ws, separator flags = 58 :: ws ∧ spaces ws.
Proof. unfold separator. destruct (has _ _); eexists; (split; [reflexivity|]); by repeat constructor. Qed.

Lemma steal_string lx k : lx_token lx = TOKEN_STRING → lx_value lx = LvString (Some k) →
  lex_steal_string lx = Val (set_value (LvString None) lx, Some k).
Proof.
  intros Ht Hv. unfold lex_steal_string. do 2 erewrite lexer_bind_Val by done. rewrite Ht, Hv. done.
Qed.

Lemma rests_value lx u v : rests lx u → rests (set_value v lx) u.
Proof. intros (text & tok & val & R). exists text, tok, v. by eapply resting_value. Qed.

Lemma object_loop_loads depth fuel l :
  Forall (λ kv, text_ok kv.1 = true ∧ loads kv.2 (depth + 1)) l →
  Forall (λ kv, (length (json_text flags (depth + 1) kv.2) < fuel)%nat) l → NoDup l.*1 → ∀ n lx ws r m h,
  l ≠ [] → (length l ≤ n)%nat → spaces ws → holds m (JObject h) → Forall (λ k, m !! k = None) l.*1 →
  rests lx (ws ++ rest_text flags depth (map (pair_text depth) l) ++ 125 :: r) →
  ∃ lx1 lx2 h', scan lx = Val (lx1, tt) ∧ (lx_token lx1 ∉ [TOKEN_EOF; 93; 125]) ∧
    object_loop malloc rflags (parse_value malloc rflags fuel) n (JObject h) lx1 = Val (lx2, Some (JObject h')) ∧
    holds (list_to_map l ∪ m) (JObject h') ∧ rests lx2 r.
Proof.
  induction 1 as [|[k v] l [Hk Hv] _ IH]; intros Hf Hnd n lx ws r m h Hne Hn Hw Hh Hfresh Hr; [done|].
  apply Forall_cons in Hf as [Hfv Hf]. apply Forall_cons in Hfresh as [Hkd Hfresh]. csimpl in Hnd.
  apply list.NoDup_cons in Hnd as [Hkl Hnd]. destruct separator_spaces as (sp & Esp & Hsp).
  cbn [map rest_text pair_text fst snd] in *. rewrite Esp in Hr. rewrite <- !app_assoc in Hr. cbn [app] in Hr.
  destruct n as [|n]; [simpl in Hn; lia|].
  destruct (rests_scan _ _ _ _ lx ws (scans_string malloc Hmalloc B HB flags k _ Hk) Hw Hr) as (lx1 & E1 & T1 & V1 & R1).
  exists lx1. cbn [object_loop]. rewrite (lexer_bind_Val (lx_gets lx_token) _ lx1 lx1 TOKEN_STRING) by (unfold lx_gets; by rewrite T1).
  rewrite Z.eqb_refl. cbn [negb]. rewrite (lexer_bind_Val _ _ _ _ _ (steal_string lx1 _ T1 (eq_sym V1))).
  rewrite string_of_bytes_of. apply (rests_value _ _ (LvString None)) in R1.
  assert (bool_decide (is_Some (json_object_get (Some (JObject h)) k)) = false) as ->.
  { apply bool_decide_eq_false. destruct Hh as (h0 & [= <-] & _ & Hs). specialize (Hs k). rewrite Hkd in Hs.
    cbn [json_object_get]. rewrite get_map. by inversion Hs; intros []. }
  rewrite andb_false_r.
  destruct (rests_punctuation 58 _ _ [] eq_refl (Forall_nil_2 _) R1) as (lx2 & E2 & T2 & R2). rewrite (lexer_bind_Val _ _ _ _ _ E2).
  rewrite (lexer_bind_Val (lx_gets lx_token) _ lx2 lx2 58) by (unfold lx_gets; by rewrite T2).
  change (negb (58 =? 58)) with false. cbn iota.
  destruct (Hv _ lx2 sp fuel Hsp R2 Hfv) as (lx3 & lx4 & v' & E3 & T3 & E4 & Sv & R4).
  { destruct l as [|w l]; cbn [map]; [|done]. cbn [rest_text]. by apply follows_spaces; [apply indent_spaces|]. }
  rewrite (lexer_bind_Val _ _ _ _ _ E3), (lexer_bind_Val _ _ _ _ _ E4).
  pose proof (holds_set_nocheck m h k v v' Hh Sv) as Hh'. cbn [json_object_set_new_nocheck] in *.
  assert (lx_token lx1 ∉ [TOKEN_EOF; 93; 125]) as Htok by (rewrite T1; set_solver).
  destruct l as [|w l]; cbn [map] in R4.
  - cbn [rest_text app] in R4. rewrite bool_decide_true in R4 by done. cbn [negb] in R4.
    destruct (rests_punctuation 125 r lx4 _ eq_refl (indent_spaces _ _) R4) as (lx5 & E5 & T5 & R5).
    eexists lx5, _. do 2 (split; [done|]). rewrite (lexer_bind_Val _ _ _ _ _ E5).
    rewrite (lexer_bind_Val (lx_gets lx_token) _ lx5 lx5 125) by (unfold lx_gets; by rewrite T5).
    split; [done|]. split; [|done]. cbn [list_to_map foldr]. rewrite <- insert_union_l, (left_id_L ∅ (∪)). done.
  - rewrite bool_decide_false in R4 by done. cbn [negb] in R4. rewrite <- !app_assoc in R4.
    destruct (rests_punctuation 44 _ lx4 [] eq_refl (Forall_nil_2 _) R4) as (lx5 & E5 & T5 & R5).
    rewrite (lexer_bind_Val _ _ _ _ _ E5).
    rewrite (lexer_bind_Val (lx_gets lx_token) _ lx5 lx5 44) by (unfold lx_gets; by rewrite T5).
    destruct (IH Hf Hnd n lx5 _ r (<[k := v]> m) (hashtable_set h k v') ltac:(done) ltac:(simpl in *; lia)
      (indent_spaces (depth + 1) true) Hh') as (lx6 & lx7 & h' & E6 & _ & E7 & Sl & R7); [|done|].
    { rewrite Forall_forall in Hfresh |- *. intros k' Hk'. rewrite lookup_insert_ne; [by apply Hfresh|]. by intros <-. }
    exists lx7, h'. do 2 (split; [done|]). change (negb (44 =? 44)) with false. cbn iota.
    rewrite (lexer_bind_Val _ _ _ _ _ E6), E7. split; [done|]. split; [|done].
    change (list_to_map ((k, v) :: w :: l)) with (<[k := v]> (list_to_map (w :: l) : gmap string json_t)).
    rewrite <- insert_union_l, insert_union_r; [done|]. by apply not_elem_of_list_to_map.
Qed.
(** The text is longer than its elements, and at least as long as their number. *)
Lemma rest_text_length depth items :
  Forall (λ i, (length i ≤ length (rest_text flags depth items))%nat) items ∧
  (length items ≤ S (length (rest_text flags depth items)))%nat.
Proof.
  induction items as [|i items [IH1 IH2]]; [split; [constructor|simpl; lia]|]. cbn [rest_text]. split.
  - constructor; [rewrite length_app; lia|]. eapply Forall_impl; [exact IH1|]. intros j Hj. simpl in Hj. rewrite !length_app. lia.
  - destruct items as [|j items]; [simpl; lia|]. rewrite bool_decide_false by done. cbn [negb].
    rewrite !length_app. simpl in *. lia.
Qed.

Lemma items_lengths depth items fuel : items ≠ [] → (length (items_text flags depth items) + 2 ≤ fuel)%nat →
  Forall (λ i, (length i < fuel)%nat) items ∧ (length items ≤ fuel)%nat.
Proof.
  intros Hne Hf. rewrite items_rest in Hf by done. rewrite length_app in Hf.
  destruct (rest_text_length depth items) as [H1 H2]. split; [|lia]. eapply Forall_impl; [exact H1|]. simpl. lia.
Qed.

(** A token that is a value by itself. *)
Lemma loads_token t tok P v r lx ws fuel : scans malloc B t r tok P → tok ∉ [TOKEN_EOF; 93; 125] →
  (∀ lx, lx_token lx = tok → P (lx_value lx) → parse_value malloc rflags (S fuel) lx = Val (lx, Some v)) →
  spaces ws → rests lx (ws ++ t ++ r) →
  ∃ lx1 lx2 v', scan lx = Val (lx1, tt) ∧ (lx_token lx1 ∉ [TOKEN_EOF; 93; 125]) ∧
    parse_value malloc rflags (S fuel) lx1 = Val (lx2, Some v') ∧ same v v' ∧ rests lx2 r.
Proof.
  intros Hs Ht Hp Hw Hr. destruct (rests_scan t r tok P lx ws Hs Hw Hr) as (lx1 & E1 & T1 & V1 & R1).
  exists lx1, lx1, v. rewrite T1. do 2 (split; [done|]). split; [by apply Hp|]. split; [constructor|done].
Qed.

Lemma loads_array l : Forall (λ v, ∀ depth, loads v depth) l → ∀ depth, loads (JArray l) depth.
Proof.
  intros Hl depth r lx ws fuel Hw Hr Hf _. cbn [json_text] in *. rewrite <- !app_assoc in Hr. cbn [app] in Hr.
  destruct fuel as [|fuel]; [lia|]. rewrite !length_app in Hf. simpl in Hf.
  destruct (rests_punctuation 91 _ lx ws eq_refl Hw Hr) as (lx1 & E1 & T1 & R1). exists lx1.
  assert (lx_token lx1 ∉ [TOKEN_EOF; 93; 125]) as Htok by (rewrite T1; set_solver).
  cbn [parse_value]. do 2 erewrite lexer_bind_Val by done. rewrite T1 in Htok |- *. cbn [Z.eqb Pos.eqb TOKEN_STRING TOKEN_INTEGER TOKEN_REAL TOKEN_TRUE TOKEN_FALSE TOKEN_NULL].
  unfold parse_array. destruct l as [|v l].
  - cbn [map items_text app] in R1. destruct (rests_punctuation 93 r lx1 [] eq_refl (Forall_nil_2 _) R1) as (lx2 & E2 & T2 & R2).
    exists lx2, (JArray []). do 2 (split; [done|]). rewrite (lexer_bind_Val _ _ _ _ _ E2).
    rewrite (lexer_bind_Val (lx_gets lx_token) _ lx2 lx2 93) by (unfold lx_gets; by rewrite T2). split; [done|]. split; [apply same_other|done].
  - set (l0 := v :: l) in *. assert (map (json_text flags (depth + 1)) l0 ≠ []) as Hne by done.
    destruct (items_lengths depth _ fuel Hne) as [H1 H2]; [lia|]. rewrite items_rest, <- app_assoc in R1 by done.
    destruct (array_loop_loads depth fuel l0) with (n := fuel) (lx := lx1) (ws := indent_text flags (depth + 1) false) (r := r) (acc := @nil json_t)
      as (lx2 & lx3 & l' & E2 & T2 & E3 & S3 & R3).
    + eapply Forall_impl; [exact Hl|]. auto.
    + by apply Forall_map in H1.
    + done.
    + by rewrite length_map in H2.
    + apply indent_spaces.
    + done.
    + exists lx3, (JArray l'). do 2 (split; [done|]). rewrite (lexer_bind_Val _ _ _ _ _ E2).
      erewrite lexer_bind_Val by done.
      assert ((lx_token lx2 =? 93) = false) as -> by (apply Z.eqb_neq; intros E; apply T2; rewrite E; set_solver).
      split; [exact E3|]. split; [by constructor|done].
Qed.

Lemma loads_object n l : NoDup l.*1 → Forall (λ kv, text_ok kv.1 = true ∧ ∀ depth, loads kv.2 depth) l →
  ∀ depth, loads (JObject (mkTable n l)) depth.
Proof.
  intros Hnd Hl depth r lx ws fuel Hw Hr Hf _. cbn [json_text] in *. rewrite <- !app_assoc in Hr. cbn [app] in Hr.
  destruct fuel as [|fuel]; [lia|]. rewrite !length_app in Hf. simpl in Hf.
  destruct (rests_punctuation 123 _ lx ws eq_refl Hw Hr) as (lx1 & E1 & T1 & R1). exists lx1.
  assert (lx_token lx1 ∉ [TOKEN_EOF; 93; 125]) as Htok by (rewrite T1; set_solver).
  cbn [parse_value]. do 2 erewrite lexer_bind_Val by done. rewrite T1 in Htok |- *. cbn [Z.eqb Pos.eqb TOKEN_STRING TOKEN_INTEGER TOKEN_REAL TOKEN_TRUE TOKEN_FALSE TOKEN_NULL].
  unfold parse_object. destruct l as [|kv l].
  - cbn [map items_text app] in R1. destruct (rests_punctuation 125 r lx1 [] eq_refl (Forall_nil_2 _) R1) as (lx2 & E2 & T2 & R2).
    exists lx2, json_object. do 2 (split; [done|]). rewrite (lexer_bind_Val _ _ _ _ _ E2).
    rewrite (lexer_bind_Val (lx_gets lx_token) _ lx2 lx2 125) by (unfold lx_gets; by rewrite T2). split; [done|].
    split; [|done]. constructor. intros k. constructor.
  - set (l0 := kv :: l) in *. assert (map (pair_text depth) l0 ≠ []) as Hne by done.
    change (map _ l0) with (map (pair_text depth) l0) in Hf, R1.
    destruct (items_lengths depth _ fuel Hne) as [H1 H2]; [lia|]. rewrite items_rest, <- app_assoc in R1 by done.
    destruct (object_loop_loads depth fuel l0) with (n := fuel) (lx := lx1) (ws := indent_text flags (depth + 1) false) (r := r)
      (m := ∅ : gmap string json_t) (h := hashtable_init (V := json_t)) as (lx2 & lx3 & h' & E2 & T2 & E3 & S3 & R3).
    + eapply Forall_impl; [exact Hl|]. intros kv' [? ?]. auto.
    + apply Forall_map in H1. eapply Forall_impl; [exact H1|]. intros [k v]. unfold pair_text. cbn [compose snd]. rewrite !length_app. lia.
    + done.
    + done.
    + by rewrite length_map in H2.
    + apply indent_spaces.
    + exists hashtable_init. destruct (init_map (V := json_t)) as [Hw0 Hm0]. split; [done|]. split; [done|]. intros k.
      rewrite Hm0, lookup_empty. constructor.
    + apply Forall_forall. intros k _. apply lookup_empty.
    + done.
    + exists lx3, (JObject h'). do 2 (split; [done|]). rewrite (lexer_bind_Val _ _ _ _ _ E2).
      erewrite lexer_bind_Val by done.
      assert ((lx_token lx2 =? 125) = false) as -> by (apply Z.eqb_neq; intros E; apply T2; rewrite E; set_solver).
      split; [exact E3|]. split; [|done]. destruct S3 as (h0 & [= <-] & _ & S3). rewrite (right_id_L ∅ (∪)) in S3.
      by constructor.
Qed.

Lemma loads_keyword b w tok v : Forall (λ b, 0 < b < 0x80 ∧ l_isalpha b = true) (b :: w) → keyword_token (b :: w) = tok →
  tok ∉ [TOKEN_EOF; 93; 125] →
  (∀ lx fuel, lx_token lx = tok → parse_value malloc rflags (S fuel) lx = Val (lx, Some v)) → ∀ depth,
  json_text flags depth v = b :: w → loads v depth.
Proof.
  intros Hw Ht Hn Hp depth E r lx ws fuel Hws Hrs Hf Hfo. rewrite E in *. destruct fuel as [|fuel]; [lia|].
  eapply loads_token; [by apply (scans_keyword malloc Hmalloc B HB b w r Hw)|by rewrite Ht| |done|done].
  intros lx1 T1 _. apply Hp. by rewrite T1.
Qed.

Lemma parse_keyword tok v lx fuel : (tok, v) ∈ [(TOKEN_TRUE, JTrue); (TOKEN_FALSE, JFalse); (TOKEN_NULL, JNull)] →
  lx_token lx = tok → parse_value malloc rflags (S fuel) lx = Val (lx, Some v).
Proof.
  intros Hin T. cbn [parse_value]. do 2 erewrite lexer_bind_Val by done. rewrite T. clear T.
  repeat (apply elem_of_cons in Hin as [[= -> ->]|Hin]; [done|]). by apply elem_of_nil in Hin.
Qed.

Lemma loads_value v : readable v = true → ∀ depth, loads v depth.
Proof.
  induction v as [n l IH|l IH|s|n|x| | |] using json_value_ind; intros Hr depth.
  - apply readable_pairs in Hr as [Hnd Hl]. apply loads_object; [done|]. rewrite Forall_forall in IH, Hl |- *.
    intros kv Hin. destruct (Hl _ Hin) as [Hk Hv]. split; [done|]. by apply IH.
  - apply readable_elems in Hr as [_ Hl]. apply loads_array. rewrite Forall_forall in IH, Hl |- *. intros v Hin. by apply IH, Hl.
  - intros r lx ws fuel Hw Hrs Hf Hfo. destruct fuel as [|fuel]; [lia|].
    eapply loads_token; [by apply scans_string|set_solver| |done|done]. intros lx1 T1 V1. cbn [parse_value].
    do 2 erewrite lexer_bind_Val by done. rewrite T1, <- V1. cbn. by rewrite string_of_bytes_of.
  - intros r lx ws fuel Hw Hrs Hf Hfo. destruct fuel as [|fuel]; [lia|]. cbn [readable] in Hr.
    assert (- 2 ^ 63 ≤ n < 2 ^ 63) by blia. eapply loads_token; [by apply scans_integer|set_solver| |done|done]. intros lx1 T1 V1. cbn [parse_value].
    do 2 erewrite lexer_bind_Val by done. by rewrite T1, <- V1.
  - intros r lx ws fuel Hw Hrs Hf Hfo. destruct fuel as [|fuel]; [lia|]. cbn [readable] in Hr. apply andb_true_iff in Hr as [Hx Hn].
    destruct (real_text x ltac:(unfold is_u; blia) Hn) as (neg & ip & fp & ex & E & Ho & Es). cbn [json_text] in *.
    unfold MAX_REAL_STR_LENGTH in *. rewrite E in *. cbn [default from_option id] in *.
    eapply loads_token; [by eapply scans_real|set_solver| |done|done]. intros lx1 T1 V1. cbn [parse_value].
    do 2 erewrite lexer_bind_Val by done. rewrite T1, <- V1. cbn [Z.eqb Pos.eqb TOKEN_STRING TOKEN_INTEGER TOKEN_REAL]. unfold json_real.
    assert (is_finite binary64 x = true) as -> by (unfold is_finite; unfold normal_real in Hn; by destruct (decode_fp binary64 x)). done.
  - apply (loads_keyword 116 [114; 117; 101] TOKEN_TRUE);
      [by repeat constructor|done|set_solver|intros; apply (parse_keyword TOKEN_TRUE); [set_solver|done]|done].
  - apply (loads_keyword 102 [97; 108; 115; 101] TOKEN_FALSE);
      [by repeat constructor|done|set_solver|intros; apply (parse_keyword TOKEN_FALSE); [set_solver|done]|done].
  - apply (loads_keyword 110 [117; 108; 108] TOKEN_NULL);
      [by repeat constructor|done|set_solver|intros; apply (parse_keyword TOKEN_NULL); [set_solver|done]|done].
Qed.
End Roundtrip.

(** The lexer of a new text rests in front of it. *)
Lemma init_rests malloc bs : malloc_succeeds malloc → clean bs → zlen bs < 2 ^ 61 →
  ∃ lx, lex_init malloc bs = Val (Some lx) ∧ rests (zlen bs) lx bs.
Proof.
  intros Hm [Hn Hv] Hl. pose proof (zlen_nonneg bs). destruct (init_rep malloc Hm (zlen bs) ltac:(lia)) as (sb & Ei & R).
  unfold lex_init. rewrite Ei, bind_Val. eexists. split; [done|]. eexists [], _, _. left. exists [], [], bs. split; [|split; [done|]].
  - split; [apply stream_init_at|by apply clean_bytes|done| |done|done]. change (zlen (@nil Z)) with 0. lia.
  - split; [done|]. eapply Forall_impl; [exact Hn|]. simpl. lia.
Qed.

(** The text of a readable value is loaded into that value. *)
Lemma load_text malloc flags rflags v : malloc_succeeds malloc → readable v = true →
  json_is_array v || json_is_object v || has rflags JSON_DECODE_ANY = true → zlen (json_text flags 0 v) < 2 ^ 61 →
  ∃ v', json_loadb malloc (json_text flags 0 v) rflags = Val (Some v') ∧ same v v'.
Proof.
  intros Hm Hr Ht Hl. set (text := json_text flags 0 v) in *. pose proof (zlen_nonneg text).
  destruct (init_rests malloc text Hm) as (lx & E0 & R0); [apply json_text_clean; by apply readable_printable|done|].
  unfold json_loadb. rewrite E0, bind_Val. unfold parse_json.
  destruct (loads_value malloc Hm (zlen text) ltac:(lia) flags rflags v Hr 0 [] lx [] (length text + 2)%nat)
    as (lx1 & lx2 & v' & E1 & T1 & E2 & Sv & R2); [constructor|by rewrite app_nil_r|fold text; lia|done|].
  rewrite (lexer_bind_Val _ _ _ _ _ E1). erewrite lexer_bind_Val by done.
  destruct ((Z.land rflags JSON_DECODE_ANY =? 0) && _ && _) eqn:Eg.
  { exfalso. apply andb_true_iff in Eg as [Eg E91]. apply andb_true_iff in Eg as [Eg E123].
    unfold has in Ht. rewrite Eg in Ht. cbn [negb] in Ht. rewrite orb_false_r in Ht.
    assert (lx_token lx1 = 91 ∨ lx_token lx1 = 123) as H91; [|blia].
    destruct v as [[n l]|l| | | | | |]; try done; cbn [json_text] in text.
    - destruct (rests_punctuation malloc Hm (zlen text) ltac:(lia) 123 (tail text) lx [] eq_refl (Forall_nil_2 _))
        as (lx' & E' & T' & _); [done|]. rewrite E1 in E'. injection E' as ->. by right.
    - destruct (rests_punctuation malloc Hm (zlen text) ltac:(lia) 91 (tail text) lx [] eq_refl (Forall_nil_2 _))
        as (lx' & E' & T' & _); [done|]. rewrite E1 in E'. injection E' as ->. by left. }
  rewrite (lexer_bind_Val _ _ _ _ _ E2). exists v'. split; [|done].
  destruct (Z.land rflags JSON_DISABLE_EOF_CHECK =? 0); [|done]. destruct R2 as (t2 & tok2 & val2 & R2).
  destruct (token_end malloc (zlen text) ltac:(lia) [] lx2 t2 tok2 val2 (Forall_nil_2 _) R2) as (lx3 & E3 & T3).
  rewrite (lexer_bind_Val _ _ _ _ _ E3). erewrite lexer_bind_Val by done. rewrite T3. done.
Qed.

(** C29 (roundtrip). Printing and reading: the text that [json_dumps] makes of an array
    or object whose strings are C strings of valid UTF-8, whose integers fit 64 bits,
    whose reals are zero or normal doubles and whose keys differ is loaded by
    [json_loadb] into the same value, up to the order of the pairs of an object,
    whatever the indentation and the escapes, and whatever the flags of
    the reader; reals are recovered to the bit from their seventeen digits. The keys are
    printed as they are stored (neither sorted nor in order of insertion), arrays have at
    most 2^31 - 1 elements, the text is below 2^61 bytes and memory suffices. *)
Theorem json_roundtrip (malloc : Z → bool) (flags rflags : Z) (v : json_t) :
  malloc_succeeds malloc → unsorted flags = true → readable v = true → json_is_array v || json_is_object v = true →
  zlen (json_text flags 0 v) < 2 ^ 61 →
  ∃ text v', json_dumps malloc (Some v) flags = Val (Some text) ∧
    json_loadb malloc text rflags = Val (Some v') ∧ same v v'.
Proof.
  intros Hm Hu Hr Ht Hl. destruct (load_text malloc flags rflags v Hm Hr) as (v' & E & Sv); [by rewrite Ht|done|].
  exists (json_text flags 0 v), v'. split; [|done].
  apply dumps_text; [done|by apply readable_printable|by rewrite Ht|done].
Qed.

Lemma json_roundtrip_witness :
  ∃ v text v', readable v = true ∧ json_dumps (λ _, true) (Some v) 2 = Val (Some text) ∧
    json_loadb (λ _, true) text 0 = Val (Some v') ∧ same v v'.
Proof.
  exists (JArray [JString "é"; JReal 0x3fb999999999999a; JObject (mkTable 0 [("k", JNull); ("l", JInteger (-5))])]).
  destruct (json_roundtrip (λ _, true) 2 0
    (JArray [JString "é"; JReal 0x3fb999999999999a; JObject (mkTable 0 [("k", JNull); ("l", JInteger (-5))])]))
    as (text & v' & H); [done|done|by vm_compute|done|by vm_compute|].
  exists text, v'. split; [by vm_compute|done].
Defined.
