(* ===== verification/JsonSafe.v ===== *)
(** * Reading any bytes

    [json_loadb] on arbitrary input, when allocation succeeds: no assertion fails,
    nothing is read or written out of bounds, it ends, and what it returns is well
    formed. [open lx text n]: the lexer has saved [text] of the current token and
    has at most [n] bytes left to read; [got lx c text n]: it has just read and saved
    [c] after [text]; [idle lx n]: it stands between two tokens. This file holds the
    characters and the strings, [JsonTotal.v] the other tokens and the parser. *)

From S2P Require Import Prelude Float Utf8 StrBuffer RealText Jansson JsonDump JsonLoad JsonLex JsonRead JsonTokens.
Local Open Scope Z_scope.

(** ** Cutting valid text *)

Lemma valid_cancel a s : Forall is_byte a → valid a → valid (a ++ s) → valid s.
Proof.
  intros Hb Hv. revert a Hb Hv. apply (valid_ind (λ a, valid (a ++ s) → valid s)); [done|].
  intros c cp t Hc _ IH H. rewrite <- app_assoc in H. by eapply IH, valid_tail.
Qed.

(** In front of an ASCII character. *)
Lemma valid_before b s : 0 ≤ b < 0x80 → ∀ n a, (length a < n)%nat → Forall is_byte (a ++ b :: s) → valid (a ++ b :: s) → valid a.
Proof.
  intros Hb. induction n as [|n IH]; intros a Hn Ha Hv; [lia|]. destruct (valid_inv _ Ha Hv) as [E|(c & cp & t & E & Hc & Ht)].
  { by destruct a. }
  destruct a as [|x a]; [done|]. pose proof (char_length c cp Hc) as Hl.
  destruct (decide (length c ≤ length (x :: a))%nat) as [Hle|Hgt].
  - assert (∃ a', x :: a = c ++ a') as [a' Ea].
    { apply (f_equal (take (length c))) in E as E'. rewrite take_app_length in E'.
      rewrite take_app_le in E' by done. exists (drop (length c) (x :: a)). by rewrite <- E' at 1; rewrite take_drop. }
    rewrite Ea in E, Ha |- *. rewrite <- app_assoc in E, Ha. apply app_inv_head in E.
    eapply valid_char; [exact Hc|]. apply (IH a').
    + apply (f_equal length) in Ea. rewrite length_app in Ea. unfold zlen in Hl. simpl in *. lia.
    + by apply Forall_app in Ha as [_ ?].
    + by rewrite E.
  - exfalso. assert (b ∈ c) as Hin.
    { apply list_elem_of_lookup. exists (length (x :: a)). rewrite <- (lookup_app_l c t) by lia. rewrite <- E.
      by rewrite list_lookup_middle. }
    assert (2 ≤ zlen c) as H2 by (unfold zlen; simpl in Hgt; lia).
    pose proof (char_high c cp Hc H2) as Hh. rewrite Forall_forall in Hh. specialize (Hh b Hin). simpl in Hh. lia.
Qed.

(** ** The state of the lexer *)

Section Safe.
Context (malloc : Z → bool) (Hmalloc : malloc_succeeds malloc).
Context (B : Z) (HB : 0 ≤ B < 2 ^ 61).

Definition ended (lx : lex_t) (text : bytes) (tok : Z) : Prop := valid text ∧ ∃ c val, lx_end B lx c text tok val.

Definition open (lx : lex_t) (text : bytes) (n : nat) (tok : Z) : Prop :=
  (∃ pre suf data val, lx_at B lx pre suf data text tok val ∧ valid (text ++ suf) ∧ (length suf + length data ≤ n)%nat) ∨
  ended lx text tok.

Definition got (lx : lex_t) (c : Z) (text : bytes) (n : nat) (tok : Z) : Prop :=
  (∃ b, c = s8 b ∧ 0 ≤ b < 0xF5 ∧ ∃ pre suf data val, lx_at B lx (pre ++ [b]) suf data (text ++ [b]) tok val ∧
     valid (text ++ b :: suf) ∧ (length suf + length data < n)%nat) ∨
  (is_end c = true ∧ ended lx text tok).

Definition idle (lx : lex_t) (n : nat) : Prop :=
  (∃ pre suf data text tok val, lx_at B lx pre suf data text tok val ∧ valid suf ∧ (length suf + length data ≤ n)%nat) ∨
  (∃ text tok, ended lx text tok).

Lemma next_valid text pre suf data b pre' suf' data' : next (pre, suf, data) b (pre', suf', data') →
  Forall is_byte (text ++ suf) → valid (text ++ suf) →
  valid (text ++ b :: suf') ∧ (length suf' + length data' < length suf + length data)%nat.
Proof.
  intros Hn Hb Hv. pose proof (next_length _ _ _ _ _ _ _ Hn) as Hl. unfold zlen in Hl. split; [|lia].
  inversion Hn; subst; [done|]. rewrite app_nil_r in Hv, Hb. apply valid_app; [done..|].
  rewrite <- (app_nil_r (b :: suf')). by eapply valid_char.
Qed.

Lemma suf_bytes s pre suf data : stream_at s pre suf data → Forall is_byte suf.
Proof. intros []. eapply Forall_impl; [done|]. unfold is_u. simpl. lia. Qed.

Lemma open_get lx text n tok : Forall is_byte text → open lx text n tok →
  ∃ lx' c, lex_get_save malloc lx = Val (lx', c) ∧ got lx' c text n tok.
Proof.
  intros Ht [(pre & suf & data & val & H & Hv & Hn)|(Hv & c & val & H)].
  - destruct (lex_get_save_at malloc Hmalloc B HB _ _ _ _ _ _ _ H)
      as [(b & pre' & suf' & data' & lx' & Hx & Hb & E & H')|(c & lx' & E & H' & [-> _])].
    + exists lx', (s8 b). split; [done|]. left. exists b. do 2 (split; [done|]). destruct (next_pre _ _ _ _ _ Hx) as [p ->].
      destruct (next_valid text _ _ _ _ _ _ _ Hx) as [Hv' Hl]; [|done|].
      { apply Forall_app. split; [done|]. eapply suf_bytes, la_stream, H. }
      exists p, suf', data', val. split; [done|]. split; [done|lia].
    + exists lx', c. rewrite app_nil_r in Hv. split; [done|]. right. split; [by eapply le_end|]. split; [done|]. by eexists _, _.
  - exists lx, c. split; [by eapply lex_get_save_end|]. right. split; [by eapply le_end|]. split; [done|]. by eexists _, _.
Qed.

(** What was read, unless it is the end. *)
Lemma got_open lx c text n tok : got lx c text n tok → is_end c = false →
  ∃ b, c = s8 b ∧ 0 ≤ b < 0xF5 ∧ (0 < n)%nat ∧ open lx (text ++ [b]) (pred n) tok.
Proof.
  intros [(b & -> & Hb & pre & suf & data & val & H & Hv & Hn)|[E _]] He; [|congruence]. exists b. do 2 (split; [done|]).
  split; [lia|]. left. exists (pre ++ [b]), suf, data, val. rewrite <- app_assoc. split; [done|]. split; [done|lia].
Qed.

Lemma got_not_end lx c text n tok : got lx c text n tok → 0 ≤ c → is_end c = false.
Proof. intros _ Hc. unfold is_end, STREAM_STATE_EOF, STREAM_STATE_ERROR. blia. Qed.

Lemma lx_at_bytes lx pre suf data text tok val : lx_at B lx pre suf data text tok val → Forall is_byte suf.
Proof. intros H. eapply suf_bytes, la_stream, H. Qed.

Lemma got_unget lx c text n tok : Forall is_byte text → got lx c text n tok →
  ∃ lx', lex_unget_unsave c lx = Val (lx', tt) ∧ open lx' text n tok.
Proof.
  intros Ht [(b & -> & Hb & pre & suf & data & val & H & Hv & Hn)|[E H]]; [|exists lx; split; [by apply lex_unget_unsave_end|by right]].
  destruct (lex_unget_unsave_at B _ _ _ _ _ _ _ _ H) as (lx' & E & H'). exists lx'. split; [done|]. left.
  eexists _, _, _, _. split; [exact H'|]. destruct (Z.eqb_spec b 0) as [->|Hb0]; [|split; [done|simpl; lia]]. split; [|simpl; lia].
  rewrite app_nil_r. eapply (valid_before 0 suf ltac:(lia) (S (length text))); [lia| |done]. apply Forall_app. split; [done|].
  constructor; [done|by eapply lx_at_bytes].
Qed.

(** The loops have enough fuel. *)
Lemma got_left lx c text n tok : got lx c text n tok → ∃ k, got lx c text k tok ∧ (k < lx_left lx)%nat ∧ (k ≤ n)%nat.
Proof.
  unfold lx_left. intros [(b & -> & Hb & pre & suf & data & val & H & Hv & Hn)|[E H]]; [|exists 0%nat; split; [by right|lia]].
  exists (S (length suf + length data)). split; [left; exists b; do 2 (split; [done|]); exists pre, suf, data, val; split; [done|]; split; [done|lia]|].
  destruct H as [[_ -> (junk & E & El) _ _ _] _ _ _ _ _]. rewrite E in El. rewrite !length_app in El. simpl in *. lia.
Qed.

Lemma open_token lx text n tok t : open lx text n tok → open (set_token t lx) text n t.
Proof.
  intros [(pre & suf & data & val & [] & H)|(? & c & val & [])]; [left|right].
  - exists pre, suf, data, val. split; [by split|done].
  - split; [done|]. exists c, val. by split.
Qed.

Lemma open_value lx text n tok v : open lx text n tok → open (set_value v lx) text n tok.
Proof.
  intros [(pre & suf & data & val & [] & H)|(? & c & val & [])]; [left|right].
  - exists pre, suf, data, v. split; [by split|done].
  - split; [done|]. exists c, v. by split.
Qed.

Lemma got_token lx c text n tok t : got lx c text n tok → got (set_token t lx) c text n t.
Proof.
  intros [(b & -> & Hb & pre & suf & data & val & [] & H)|(E & ? & c' & val & [])]; [left|right].
  - exists b. do 2 (split; [done|]). exists pre, suf, data, val. split; [by split|done].
  - split; [done|]. split; [done|]. exists c', val. by split.
Qed.

Lemma open_tok lx text n tok : open lx text n tok → lx_token lx = tok.
Proof. by intros [(pre & suf & data & val & [] & H)|(? & c & val & [])]. Qed.

Lemma got_tok lx c text n tok : got lx c text n tok → lx_token lx = tok.
Proof. by intros [(b & _ & _ & pre & suf & data & val & [] & H)|(_ & _ & c' & val & [])]. Qed.

Lemma open_saved lx text n tok : open lx text n tok → sb_rep B (lx_saved lx) text.
Proof. by intros [(pre & suf & data & val & [] & H)|(? & c & val & [])]. Qed.

Lemma open_idle lx text n tok : Forall is_byte text → valid text → open lx text n tok → idle lx n.
Proof.
  intros Ht Hv [(pre & suf & data & val & H & Hs & Hn)|H]; [left|right; by eexists _, _].
  exists pre, suf, data, text, tok, val. split; [done|]. split; [by eapply valid_cancel|done].
Qed.
(** ** Strings *)

Definition xdigit (h : Z) : Prop := 0 < h < 0x80 ∧ l_isxdigit h = true.

(** What the first loop accepts between the quotes. *)
Inductive str_bytes : bytes → Prop :=
| str_nil : str_bytes []
| str_plain b s : 0x20 ≤ b < 0xF5 → b ≠ 34 → b ≠ 92 → str_bytes s → str_bytes (b :: s)
| str_short e s : is_short_escape e = true → str_bytes s → str_bytes (92 :: e :: s)
| str_unicode hs s : length hs = 4%nat → Forall xdigit hs → str_bytes s → str_bytes (92 :: 117 :: hs ++ s).

Lemma str_app a b : str_bytes a → str_bytes b → str_bytes (a ++ b).
Proof.
  intros Ha Hb. induction Ha; cbn [app]; [done|by constructor|by constructor|]. rewrite <- app_assoc. by constructor.
Qed.

Lemma short_range e : is_short_escape e = true → 0x20 ≤ e < 0x80 ∧ e ≠ 117.
Proof. unfold is_short_escape. intros. blia. Qed.

Lemma str_pos s : str_bytes s → Forall (λ b, 0 < b < 256) s.
Proof.
  induction 1 as [|b s Hb _ _ _ IH|e s He _ IH|hs s _ Hh _ IH]; [constructor|constructor; [lia|done]|..].
  - apply short_range in He. constructor; [lia|]. constructor; [lia|done].
  - do 2 (constructor; [lia|]). apply Forall_app. split; [|done]. eapply Forall_impl; [exact Hh|]. unfold xdigit. simpl. lia.
Qed.

Lemma pos_bytes s : Forall (λ b, 0 < b < 256) s → Forall is_byte s.
Proof. intros H. eapply Forall_impl; [exact H|]. unfold is_u. simpl. lia. Qed.

Lemma got_ascii lx c text n tok : got lx c text n tok → 0 ≤ c →
  (0 < n)%nat ∧ 0 ≤ c < 0x80 ∧ open lx (text ++ [c]) (pred n) tok.
Proof.
  intros H Hc. destruct (got_open _ _ _ _ _ H (got_not_end _ _ _ _ _ H Hc)) as (b & -> & Hb & Hn & Ho).
  destruct (Z.ltb_spec b 128) as [Hl|Hl]; [rewrite s8_low in * by lia; split; [lia|done]|rewrite s8_high in Hc by lia; lia].
Qed.

Lemma got_mono lx c text n m tok : got lx c text n tok → (n ≤ m)%nat → got lx c text m tok.
Proof.
  intros [(b & -> & Hb & pre & suf & data & val & H & Hv & Hn)|H] Hm; [left|by right]. exists b. do 2 (split; [done|]).
  exists pre, suf, data, val. split; [done|]. split; [done|lia].
Qed.

Lemma open_mono lx text n m tok : open lx text n tok → (n ≤ m)%nat → open lx text m tok.
Proof.
  intros [(pre & suf & data & val & H & Hv & Hn)|H] Hm; [left|by right]. exists pre, suf, data, val. split; [done|]. split; [done|lia].
Qed.

Lemma scan_hex_safe k : ∀ lx c text n tok, Forall is_byte text → got lx c text n tok →
  ∃ lx' r, scan_hex malloc k c lx = Val (lx', r) ∧ lx_token lx' = tok ∧
    ∀ c', r = Some c' → ∃ hs, length hs = k ∧ Forall xdigit hs ∧ got lx' c' (text ++ hs) n tok.
Proof.
  induction k as [|k IH]; intros lx c text n tok Ht H; cbn [scan_hex].
  { exists lx, (Some c). split; [done|]. split; [by eapply got_tok|]. intros c' [= <-]. exists []. by rewrite app_nil_r. }
  destruct (l_isxdigit c) eqn:Ex; cbn [negb]; [|exists lx, None; split; [done|]; split; [by eapply got_tok|done]].
  assert (0 < c) as Hc by (unfold l_isxdigit, l_isdigit in Ex; blia).
  destruct (got_ascii _ _ _ _ _ H ltac:(lia)) as (Hn & Hr & Ho).
  assert (Forall is_byte (text ++ [c])) as Ht' by (apply Forall_app; split; [done|]; constructor; [unfold is_u; lia|constructor]).
  destruct (open_get _ _ _ _ Ht' Ho) as (lx1 & c1 & E1 & G1). rewrite (lexer_bind_Val _ _ _ _ _ E1).
  destruct (IH lx1 c1 (text ++ [c]) (pred n) tok Ht' G1) as (lx2 & r & E2 & T2 & Hs). exists lx2, r. do 2 (split; [done|]).
  intros c' Hr'. destruct (Hs c' Hr') as (hs & Hl & Hh & G2). exists (c :: hs). split; [simpl; lia|].
  split; [constructor; [split; [lia|done]|done]|]. rewrite <- app_assoc in G2. eapply got_mono; [exact G2|lia].
Qed.

Lemma quote_bytes body : str_bytes body → Forall is_byte (34 :: body).
Proof. intros H. constructor; [done|]. by apply pos_bytes, str_pos. Qed.

Lemma scan_string_safe fuel : ∀ lx c body n tok, str_bytes body → got lx c (34 :: body) n tok → (n < fuel)%nat →
  ∃ lx' r, scan_string_loop malloc fuel c lx = Val (lx', r) ∧ lx_token lx' = tok ∧
    (r = true → ∃ body', str_bytes body' ∧ open lx' (34 :: body' ++ [34]) n tok).
Proof.
  induction fuel as [|fuel IH]; intros lx c body n tok Hbody H Hf; [lia|]. cbn [scan_string_loop].
  pose proof (quote_bytes _ Hbody) as Hbs.
  assert (∀ lx1 e, str_bytes e → (0 < n)%nat → open lx1 (34 :: body ++ e) (pred n) tok → ∃ lx' r,
    (c ← lex_get_save malloc; scan_string_loop malloc fuel c) lx1 = Val (lx', r) ∧ lx_token lx' = tok ∧
    (r = true → ∃ body', str_bytes body' ∧ open lx' (34 :: body' ++ [34]) n tok)) as Hnext.
  { intros lx1 e He Hn Ho. pose proof (str_app _ _ Hbody He) as Hbe.
    destruct (open_get _ _ _ _ (quote_bytes _ Hbe) Ho) as (lx2 & c2 & E2 & G2). rewrite (lexer_bind_Val _ _ _ _ _ E2).
    destruct (IH lx2 c2 _ (pred n) tok Hbe G2 ltac:(lia)) as (lx' & r & E & T & Hr). exists lx', r. do 2 (split; [done|]).
    intros Hrt. destruct (Hr Hrt) as (body' & ? & ?). exists body'. split; [done|]. eapply open_mono; [done|lia]. }
  destruct (Z.eqb_spec c 34) as [->|Hc34].
  { destruct (got_ascii _ _ _ _ _ H ltac:(lia)) as (Hn & _ & Ho). exists lx, true. split; [done|]. split; [by eapply open_tok|].
    intros _. exists body. split; [done|]. eapply open_mono; [exact Ho|lia]. }
  destruct (is_end c) eqn:Ee; [exists lx, false; split; [done|]; split; [by eapply got_tok|done]|].
  destruct ((0 <=? c) && (c <=? 0x1F)) eqn:Ectl.
  { destruct (got_unget _ _ _ _ _ Hbs H) as (lx' & E & Ho). rewrite (lexer_bind_Val _ _ _ _ _ E). exists lx', false. split; [done|].
    split; [by eapply open_tok|done]. }
  destruct (Z.eqb_spec c 92) as [->|Hc92].
  - destruct (got_ascii _ _ _ _ _ H ltac:(lia)) as (Hn & _ & Ho).
    assert (Forall is_byte ((34 :: body) ++ [92])) as Hbs' by (apply Forall_app; split; [done|by repeat constructor]).
    destruct (open_get _ _ _ _ Hbs' Ho) as (lx1 & c1 & E1 & G1). rewrite (lexer_bind_Val _ _ _ _ _ E1).
    destruct (Z.eqb_spec c1 117) as [->|Hc117].
    + destruct (got_ascii _ _ _ _ _ G1 ltac:(lia)) as (Hn1 & _ & Ho1).
      assert (Forall is_byte (((34 :: body) ++ [92]) ++ [117])) as Hbs1 by (apply Forall_app; split; [done|by repeat constructor]).
      destruct (open_get _ _ _ _ Hbs1 Ho1) as (lx2 & c2 & E2 & G2). rewrite (lexer_bind_Val _ _ _ _ _ E2).
      destruct (scan_hex_safe 4 _ _ _ _ _ Hbs1 G2) as (lx3 & r & E3 & T3 & Hr). rewrite (lexer_bind_Val _ _ _ _ _ E3).
      destruct r as [c3|]; [|exists lx3, false; done]. destruct (Hr c3 eq_refl) as (hs & Hl & Hh & G3).
      rewrite <- !app_assoc in G3. cbn [app] in G3.
      assert (str_bytes (body ++ 92 :: 117 :: hs)) as Hb'.
      { apply str_app; [done|]. rewrite <- (app_nil_r hs). by constructor; [..|constructor]. }
      destruct (IH lx3 c3 _ _ tok Hb' G3 ltac:(lia)) as (lx' & r & E & T & Hr'). exists lx', r. do 2 (split; [done|]).
      intros Hrt. destruct (Hr' Hrt) as (body' & ? & ?). exists body'. split; [done|]. eapply open_mono; [done|lia].
    + destruct (is_short_escape c1) eqn:Es; [|exists lx1, false; split; [done|]; split; [by eapply got_tok|done]].
      pose proof (short_range _ Es). destruct (got_ascii _ _ _ _ _ G1 ltac:(lia)) as (Hn1 & _ & Ho1).
      rewrite <- !app_assoc in Ho1. cbn [app] in Ho1. apply (Hnext lx1 [92; c1]); [by constructor; [|constructor]|lia|].
      eapply open_mono; [exact Ho1|lia].
  - destruct (got_open _ _ _ _ _ H Ee) as (b & -> & Hb & Hn & Ho). apply (Hnext lx [b]); [|done|exact Ho].
    rewrite s8_range_test in Ectl by lia. constructor; [| | |constructor]; [blia|by intros ->..].
Qed.
(** *** The second loop *)

Lemma hex_value_safe h : xdigit h → ∃ d, hex_value h = Val d ∧ 0 ≤ d < 16.
Proof.
  intros [_ H]. unfold hex_value, l_isxdigit, l_islower, l_isupper, l_isdigit in *.
  destruct ((48 <=? h) && _) eqn:?; [eexists; split; [done|blia]|]. destruct ((97 <=? h) && (h <=? 122)) eqn:?; [eexists; split; [done|blia]|].
  destruct ((65 <=? h) && (h <=? 90)) eqn:?; [eexists; split; [done|blia]|blia].
Qed.

Lemma hex_run_safe hs s : Forall xdigit hs → ∀ v, 0 ≤ v →
  ∃ v', hex_run (length hs) v (hs ++ s) = Val v' ∧ 0 ≤ v' < (v + 1) * 16 ^ Z.of_nat (length hs).
Proof.
  induction 1 as [|h hs Hh _ IH]; intros v Hv; [exists v; split; [done|simpl; lia]|]. cbn [length app hex_run].
  destruct (hex_value_safe h Hh) as (d & -> & Hd). rewrite bind_Val. rewrite Z.shiftl_mul_pow2 by lia. change (2 ^ 4) with 16.
  destruct (IH (v * 16 + d) ltac:(lia)) as (v' & -> & Hv'). exists v'. split; [done|].
  rewrite Nat2Z.inj_succ, Z.pow_succ_r by lia. pose proof (Z.pow_pos_nonneg 16 (Z.of_nat (length hs)) ltac:(lia) ltac:(lia)). nia.
Qed.

Lemma decode_escape_safe hs s : length hs = 4%nat → Forall xdigit hs →
  ∃ v, decode_unicode_escape (117 :: hs ++ s) = Val v ∧ 0 ≤ v < 0x10000.
Proof.
  intros Hl Hh. destruct (hex_run_safe hs s Hh 0 ltac:(lia)) as (v & E & Hv). rewrite Hl in *. exists v. split; [exact E|].
  change (16 ^ Z.of_nat 4) with 0x10000 in Hv. lia.
Qed.

Lemma drop_escape hs (s : bytes) : length hs = 4%nat → drop 5 (117 :: hs ++ s) = s.
Proof. intros Hl. cbn [drop]. by rewrite drop_app_length'. Qed.

Lemma unicode_safe hs rest : length hs = 4%nat → Forall xdigit hs → str_bytes rest →
  ∃ r, unicode_escape (117 :: hs ++ rest ++ [34]) = Val r ∧
    ∀ cp p, r = Some (cp, p) → 0 < cp ≤ 0x10FFFF ∧ ¬ (0xD800 ≤ cp ≤ 0xDFFF) ∧
      ∃ rest', p = rest' ++ [34] ∧ str_bytes rest' ∧ (rest' = rest ∨ ∃ hs', length hs' = 4%nat ∧ Forall xdigit hs' ∧ rest = 92 :: 117 :: hs' ++ rest').
Proof.
  intros Hl Hh Hr. unfold unicode_escape. destruct (decode_escape_safe hs (rest ++ [34]) Hl Hh) as (v & -> & Hv). rewrite bind_Val.
  rewrite drop_escape by done. destruct ((0xD800 <=? v) && (v <=? 0xDBFF)) eqn:E1.
  - destruct Hr as [|b s Hb H1 H2 Hs|e s He Hs|hs' s Hl' Hh' Hs]; cbn [app].
    + by exists None.
    + rewrite (proj2 (Z.eqb_neq b 92)) by done. exists None. by destruct (s ++ [34]).
    + apply short_range in He as [_ He]. rewrite (proj2 (Z.eqb_neq e 117)), andb_false_r by done. by exists None.
    + change ((92 =? 92) && (117 =? 117)) with true. cbn iota. rewrite <- app_assoc.
      destruct (decode_escape_safe hs' (s ++ [34]) Hl' Hh') as (v2 & -> & Hv2). rewrite bind_Val.
      destruct ((0xDC00 <=? v2) && (v2 <=? 0xDFFF)) eqn:E2; [|by exists None]. rewrite drop_escape by done. eexists. split; [done|].
      intros cp p [= <- <-]. rewrite Z.shiftl_mul_pow2 by lia. split; [blia|]. split; [blia|].
      exists s. split; [done|]. split; [done|]. right. by exists hs'.
  - destruct ((0xDC00 <=? v) && (v <=? 0xDFFF)) eqn:E2; [by exists None|]. destruct (Z.eqb_spec v 0); [by exists None|].
    eexists. split; [done|]. intros cp p [= <- <-]. split; [lia|]. split; [blia|]. exists rest. split; [done|]. split; [done|by left].
Qed.

Lemma xdigits_ascii hs : Forall xdigit hs → Forall (λ b, 0 ≤ b < 0x80) hs.
Proof. intros H. eapply Forall_impl; [exact H|]. unfold xdigit. simpl. lia. Qed.

(** Escapes are ASCII: the rest of a valid text is valid. *)
Lemma valid_ascii_tail a s : Forall (λ b, 0 ≤ b < 0x80) a → valid (a ++ s) → valid s.
Proof.
  intros Ha. apply valid_cancel; [|apply valid_ascii; exact Ha]. eapply Forall_impl; [exact Ha|]. unfold is_u. simpl. lia.
Qed.

Lemma short_escape_safe e : is_short_escape e = true → ∃ b, short_escape e = Val b ∧ 0 < b < 0x80.
Proof.
  unfold is_short_escape, short_escape. intros H.
  destruct ((e =? 34) || (e =? 92) || (e =? 47)) eqn:?; [exists e; split; [done|blia]|].
  repeat (match goal with |- context [if ?x then _ else _] => destruct x eqn:? end; [by eexists|]). blia.
Qed.

(** The characters before an escape. *)
Lemma str_high c : Forall (λ b, 0x80 ≤ b) c → ∀ t, str_bytes (c ++ t) → str_bytes t ∧ Forall (λ b, b ≠ 34 ∧ b ≠ 92) c.
Proof.
  induction 1 as [|b c Hb _ IH]; intros t Ht; [done|]. cbn [app] in Ht. inversion Ht; subst; [|lia..].
  destruct (IH t) as [? ?]; [done|]. split; [done|]. by constructor.
Qed.

Lemma clean_snoc t c cp : clean t → is_char c cp → 0 < cp → clean (t ++ c).
Proof.
  intros Ht Hc Hp. apply clean_app; [done|]. split.
  - destruct (char_bytes c cp Hc) as [H1 H2]. specialize (H2 ltac:(lia)). rewrite Forall_forall in H1, H2 |- *.
    intros b Hb. specialize (H1 b Hb). specialize (H2 b Hb). simpl in *. lia.
  - rewrite <- (app_nil_r c). by eapply valid_char.
Qed.

Lemma decode_safe n : ∀ body fuel cap t, (length body < n)%nat → str_bytes body → valid body → clean t →
  (length body < fuel)%nat → zlen t + zlen body < cap →
  ∃ r, decode_string_loop fuel cap (body ++ [34]) t = Val r ∧ ∀ t', r = Some t' → clean t'.
Proof.
  induction n as [|n IH]; intros body fuel cap t Hn Hs Hv Ht Hf Hcap; [lia|].
  pose proof (str_pos _ Hs) as Hpos. pose proof (pos_bytes _ Hpos) as Hb.
  destruct (valid_inv _ Hb Hv) as [->|(c & cp & t' & -> & Hc & Ht')].
  { destruct fuel; [simpl in Hf; lia|]. cbn [app decode_string_loop]. change (34 =? 34) with true. rewrite zlen_nil in Hcap.
    rewrite require_true, bind_Val by (apply Z.ltb_lt; lia). exists (Some t). split; [done|]. by intros t' [= <-]. }
  pose proof (char_length c cp Hc) as Hcl. apply Forall_app in Hpos as [Hpc _]. pose proof (char_positive c cp Hc Hpc) as Hcp.
  rewrite length_app in Hn, Hf. rewrite zlen_app in Hcap.
  assert (Forall (λ b, b ≠ 34 ∧ b ≠ 92) c → str_bytes t' →
    ∃ r, decode_string_loop fuel cap ((c ++ t') ++ [34]) t = Val r ∧ ∀ t', r = Some t' → clean t') as Hplain.
  { intros Hp Hst. assert (∃ f, fuel = (length c + f)%nat) as [f ->] by (exists (fuel - length c)%nat; lia).
    pose proof (zlen_nonneg t'). rewrite <- app_assoc, decode_plain by (done || lia).
    unfold zlen in Hcl. apply IH; [lia|done|done|by eapply clean_snoc|lia|rewrite zlen_app; lia]. }
  destruct (Z.leb_spec 2 (zlen c)) as [H2|H2].
  { destruct (str_high c (char_high c cp Hc H2) t' Hs) as [? ?]. by apply Hplain. }
  destruct Hc as [[-> Hr]|(x & l & -> & _ & ? & _)]; [|lia]. cbn [app length] in *. destruct fuel as [|fuel]; [lia|].
  inversion Hs as [|? ? ? ? ? Hs'|e s He Hs'|hs s Hl Hh Hs']; subst.
  - apply Hplain; [|done]. by constructor.
  - destruct (short_range _ He) as [Her He117]. change (zlen [92]) with 1 in Hcap. rewrite zlen_cons in Hcap. simpl in Hn, Hf.
    cbn [app decode_string_loop]. change (92 =? 34) with false. change (92 =? 92) with true. cbn iota.
    rewrite (proj2 (Z.eqb_neq e 117)) by done. destruct (short_escape_safe e He) as (b & -> & Hbr). rewrite bind_Val.
    pose proof (zlen_nonneg s). rewrite require_true, bind_Val by (apply Z.ltb_lt; lia).
    apply IH; [lia|done| |by apply (clean_snoc _ _ b); [|left; split; [done|lia]|lia]|lia|rewrite zlen_app; change (zlen [b]) with 1; lia].
    apply (valid_ascii_tail [e]); [constructor; [lia|constructor]|done].
  - rewrite !zlen_cons, zlen_app in Hcap. simpl in Hn, Hf. rewrite length_app in Hn, Hf.
    assert (zlen hs = 4) as Hz by (unfold zlen; lia). change (zlen (@nil Z)) with 0 in Hcap.
    cbn [app decode_string_loop]. change (92 =? 34) with false. change (92 =? 92) with true. change (117 =? 117) with true. cbn iota.
    rewrite <- app_assoc. destruct (unicode_safe hs s Hl Hh Hs') as (r & -> & Hr'). rewrite bind_Val.
    destruct r as [[v p]|]; [|by exists None]. destruct (Hr' v p eq_refl) as (Hvr & Hvs & rest & -> & Hrest & Hcase).
    destruct (char_of_encode v ltac:(lia) Hvs) as (ch & -> & Hch & _). pose proof (char_length ch v Hch).
    assert (valid s) as Hvs' by (apply (valid_ascii_tail (117 :: hs)); [constructor; [lia|by apply xdigits_ascii]|done]).
    assert (valid rest ∧ (length rest ≤ length s)%nat) as [Hvr' Hlr].
    { destruct Hcase as [->|(hs' & Hl' & Hh' & ->)]; [done|]. split; [|simpl; rewrite length_app; lia].
      apply (valid_ascii_tail (92 :: 117 :: hs')); [do 2 (constructor; [lia|]); by apply xdigits_ascii|done]. }
    pose proof (zlen_nonneg s). rewrite require_true, bind_Val by (apply Z.leb_le; lia).
    apply IH; [lia|done|done|by apply (clean_snoc _ _ v); [|done|lia]|lia|]. rewrite zlen_app. unfold zlen in *. lia.
Qed.

(** A string token. *)
Lemma scan_string_token lx n tok : open lx [34] n tok →
  ∃ lx', lex_scan_string malloc lx = Val (lx', tt) ∧
    (lx_token lx' = TOKEN_INVALID ∨
     lx_token lx' = TOKEN_STRING ∧ idle lx' n ∧ ∃ s, lx_value lx' = LvString (Some s) ∧ clean s).
Proof.
  intros H. unfold lex_scan_string. do 2 erewrite lexer_bind_Val by done.
  apply (open_value _ _ _ _ (LvString None)), (open_token _ _ _ _ TOKEN_INVALID) in H.
  destruct (open_get _ _ _ _ (quote_bytes _ str_nil) H) as (lx1 & c1 & E1 & G1). rewrite (lexer_bind_Val _ _ _ _ _ E1).
  erewrite lexer_bind_Val by done. destruct (got_left _ _ _ _ _ G1) as (k & Gk & Hk & Hkn).
  destruct (scan_string_safe (lx_left lx1) lx1 c1 [] k _ str_nil Gk Hk) as (lx2 & r & E2 & T2 & Hr).
  rewrite (lexer_bind_Val _ _ _ _ _ E2). destruct r; cbn [negb]; [|by exists lx2; split; [|left]].
  destruct (Hr eq_refl) as (body & Hbody & Ho). erewrite lexer_bind_Val by done.
  pose proof (open_saved _ _ _ _ Ho) as R. pose proof (str_pos _ Hbody) as Hpos.
  assert (Forall (λ b, 0 < b < 256) (34 :: body ++ [34])) as Hq by (constructor; [lia|]; apply Forall_app; split; [done|by repeat constructor]).
  rewrite (value_rep B _ _ R), (sb_len _ _ _ R) by (eapply Forall_impl; [exact Hq|]; simpl; lia).
  assert (zlen (34 :: body ++ [34]) ≤ B) as Hroom.
  { destruct Ho as [(pre & suf & data & val & [_ _ _ Hro _ _] & _)|(_ & c & val & [])]; [|done].
    pose proof (zlen_nonneg suf). pose proof (zlen_nonneg data). lia. }
  pose proof (zlen_nonneg (34 :: body ++ [34])). rewrite Hmalloc by lia. cbn [negb].
  assert (valid body) as Hvb.
  { destruct Ho as [(pre & suf & data & val & Hat & Hv & _)|Hend].
    - cbn [app] in Hv. rewrite <- app_assoc in Hv. cbn [app] in Hv. change (34 :: body ++ 34 :: suf) with ([34] ++ body ++ 34 :: suf) in Hv.
      apply (valid_ascii_tail [34]) in Hv; [|by repeat constructor].
      eapply (valid_before 34 suf ltac:(lia) (S (length body))); [lia| |exact Hv]. apply Forall_app. split; [by apply pos_bytes|].
      constructor; [done|by eapply lx_at_bytes].
    - destruct Hend as [Hv _]. apply (valid_ascii_tail [34]) in Hv; [|by repeat constructor].
      eapply (valid_before 34 [] ltac:(lia) (S (length body))); [lia| |exact Hv]. apply Forall_app. split; [by apply pos_bytes|by repeat constructor]. }
  change (drop 1 (34 :: body ++ [34])) with (body ++ [34]). rewrite zlen_cons, zlen_app. change (zlen [34]) with 1.
  destruct (decode_safe (S (length body)) body (S (length (body ++ [34]))) (1 + (zlen body + 1) + 1) []) as (r & Ed & Hc);
    [lia|done|done|by apply clean_ascii|rewrite length_app; lia|rewrite zlen_nil; lia|].
  unfold lx_lift. erewrite lexer_bind_Val by (rewrite Ed; done). destruct r as [t|]; [|by exists lx2; split; [|left]].
  eexists. split; [done|]. right. split; [done|]. split; [|by exists t; split; [|apply Hc]].
  eapply (open_idle _ (34 :: body ++ [34]) n); [by apply pos_bytes| |by eapply open_token, open_value, open_mono].
  apply (valid_app [34]); [by repeat constructor|by apply valid_ascii; repeat constructor|].
  apply valid_app; [by apply pos_bytes|done|by apply valid_ascii; repeat constructor].
Qed.
End Safe.
