(* ===== verification/JsonTotal.v ===== *)
(** * Loading any bytes

    The numbers, the other tokens and the parser on arbitrary input, continuing
    [JsonSafe.v], and the theorem: [json_loadb] returns on every input, and what it
    returns is [loaded]: strings and keys are C strings of valid UTF-8, integers fit
    64 bits, reals are finite, keys differ, arrays are as long as the input at
    most. *)

From S2P Require Import Prelude Float Utf8 StrBuffer RealText Jansson JsonDump JsonLoad JsonLex JsonRead JsonTokens JsonRoundtrip JsonSafe.
Local Open Scope Z_scope.

(** ** [strtod] on the texts that the lexer accepts *)

(** An exponent as it may be written: the mark, the sign, the digits. *)
Definition any_exponent (x : bytes) : Prop :=
  x = [] ∨ ∃ m sgn ds, x = m :: sgn ++ chars ds ∧ (m = 69 ∨ m = 101) ∧ (sgn = [] ∨ sgn = [43] ∨ sgn = [45]) ∧
    ds ≠ [] ∧ Forall is_digit ds.

Lemma any_exponent_read x : any_exponent x → ∃ e, strtod_exponent x = (e, []).
Proof.
  intros [->|(m & sgn & ds & -> & Hm & Hs & Hn & Hd)]; [by eexists|]. cbn [strtod_exponent].
  assert ((m =? chr_e) || (m =? chr_E) = true) as -> by (destruct Hm as [-> | ->]; done).
  pose proof (span_chars ds [] Hd I) as Hsp. rewrite app_nil_r in Hsp.
  destruct (chars_no_sign ds Hd Hn) as (c & s & Ec & E1 & E2).
  destruct Hs as [->|[-> | ->]]; cbn [app].
  - rewrite Ec in Hsp |- *. rewrite E1, E2, Hsp. destruct ds; [done|by eexists].
  - change (43 =? chr_minus) with false. change (43 =? chr_plus) with true. cbn iota beta. rewrite Hsp. destruct ds; [done|by eexists].
  - change (45 =? chr_minus) with true. cbn iota beta. rewrite Hsp. destruct ds; [done|by eexists].
Qed.

Lemma any_exponent_start x : any_exponent x → match x with [] => True | c :: _ => l_isdigit c = false ∧ c ≠ chr_dot end.
Proof. intros [->|(m & sgn & ds & -> & [-> | ->] & _)]; done. Qed.

Lemma round_fp_range n d : 0 ≤ n → 0 < d → 0 ≤ (round_fp n d).1 ≤ inf_bits binary64.
Proof.
  intros Hn Hd. unfold round_fp. destruct (Z.eqb_spec n 0); [by vm_compute|]. cbv zeta. cbn [fst].
  set (E := Z.max _ (emin binary64)).
  assert (0 ≤ round_div (n * 2 ^ Z.max 0 (- E)) (d * 2 ^ Z.max 0 E)) as Hr.
  { pose proof (Z.pow_pos_nonneg 2 (Z.max 0 (- E)) ltac:(lia) ltac:(lia)).
    pose proof (Z.pow_pos_nonneg 2 (Z.max 0 E) ltac:(lia) ltac:(lia)).
    assert (0 < d * 2 ^ Z.max 0 E) as Hb by nia. pose proof (round_div_err (n * 2 ^ Z.max 0 (- E)) _ Hb) as He.
    assert (0 ≤ n * 2 ^ Z.max 0 (- E)) by nia. revert He Hb. generalize (d * 2 ^ Z.max 0 E). intros b He Hb. nia. }
  assert (0 ≤ (E - emin binary64) * 2 ^ mw binary64) by (apply Z.mul_nonneg_nonneg; [unfold E; lia|by vm_compute]).
  assert (0 ≤ inf_bits binary64) by (by vm_compute). lia.
Qed.

(** The whole text is read, and the value is the pattern of a double. *)
Lemma strtod_any neg ip fp x : ip ≠ [] → Forall is_digit ip → Forall is_digit fp → any_exponent x →
  ∃ r, jsonp_strtod (minus neg ++ chars ip ++ fraction fp ++ x) = Val r ∧ ∀ v, r = Some v → is_u 64 v.
Proof.
  intros Hn Hi Hf Hx. destruct (any_exponent_read x Hx) as (e & Ee). pose proof (any_exponent_start x Hx) as Hxs.
  set (text := minus neg ++ _). assert (∃ v er, strtod text = (v, er, []) ∧ is_u 64 v) as (v & er & E & Hv).
  { unfold strtod, text. destruct (chars_no_sign ip Hi Hn) as (c & s & Ec & E1 & _).
    assert (∀ A (f : bool * bytes → A), f (match minus neg ++ chars ip ++ fraction fp ++ x with
      | c :: s' => if c =? chr_minus then (true, s') else (false, minus neg ++ chars ip ++ fraction fp ++ x)
      | [] => (false, minus neg ++ chars ip ++ fraction fp ++ x) end) = f (neg, chars ip ++ fraction fp ++ x)) as Em.
    { intros A f. f_equal. destruct neg; cbn [minus app]; [done|]. rewrite Ec. cbn [app]. by rewrite E1. }
    erewrite (Em _ (λ '(neg, s), _)). cbv beta iota.
    assert (no_digit (fraction fp ++ x)) as Hnd.
    { unfold fraction. case_bool_decide; [|done]. cbn [app]. destruct x; [done|]. apply Hxs. }
    rewrite span_chars by done.
    assert (strtod_fraction (fraction fp ++ x) = (fp, x)) as ->.
    { unfold fraction. case_bool_decide as Ef.
      - subst fp. cbn [app]. destruct x as [|b x]; [done|]. cbn [strtod_fraction]. destruct Hxs as [_ Hb].
        by rewrite (proj2 (Z.eqb_neq b chr_dot)).
      - cbn [app strtod_fraction]. rewrite Z.eqb_refl. apply span_chars; [done|]. destruct x; [done|]. apply Hxs. }
    rewrite Ee. pose proof (digits_val_nonneg (ip ++ fp)) as Hd. specialize (Hd (proj2 (Forall_app _ _ _) (conj Hi Hf))).
    pose proof (Z.pow_pos_nonneg 10 (Z.max 0 (e - zlen fp)) ltac:(lia) ltac:(lia)).
    pose proof (Z.pow_pos_nonneg 10 (Z.max 0 (- (e - zlen fp))) ltac:(lia) ltac:(lia)) as H2.
    pose proof (round_fp_range (digits_val (ip ++ fp) * 10 ^ Z.max 0 (e - zlen fp)) _ ltac:(nia) H2) as Hr.
    destruct (round_fp _ _) as [mag er]. eexists _, er. split; [done|]. cbn [fst] in Hr.
    change (inf_bits binary64) with (2047 * 2 ^ 52) in Hr. unfold is_u. destruct neg; unfold sign_bit;
      change (2 ^ (mw binary64 + ew binary64)) with (2 ^ 63); lia. }
  unfold jsonp_strtod. rewrite E. rewrite bool_decide_true by done. cbn [require]. rewrite bind_Val.
  destruct (er && _); [by exists None|]. exists (Some v). split; [done|]. by intros v' [= <-].
Qed.

Lemma strtoll_range s : let '(v, erange, _) := strtoll s in erange = false → - 2 ^ 63 ≤ v < 2 ^ 63.
Proof.
  unfold strtoll. destruct (match s with [] => _ | _ => _ end) as [neg s']. destruct (span_digits s') as [ds r].
  destruct (_ >? _) eqn:?; [done|]. destruct (_ <? _) eqn:?; [done|]. intros _. blia.
Qed.

Lemma strtoll_end neg ds : Forall is_digit ds → ds ≠ [] → ∃ v er, strtoll (minus neg ++ chars ds) = (v, er, []).
Proof.
  intros Hd Hn. unfold strtoll. pose proof (span_chars ds [] Hd I) as Hs. rewrite app_nil_r in Hs.
  destruct (chars_no_sign ds Hd Hn) as (c & s & Ec & E1 & _). destruct neg; cbn [minus app].
  - change (chr_minus =? chr_minus) with true. cbv beta iota. rewrite Hs. repeat case_match; by eexists _, _.
  - rewrite Ec in *. rewrite E1. rewrite Hs. repeat case_match; by eexists _, _.
Qed.

(** ** Numbers *)

Section Total.
Context (malloc : Z → bool) (Hmalloc : malloc_succeeds malloc).
Context (B : Z) (HB : 0 ≤ B < 2 ^ 61).

Abbreviation open := (open B).
Abbreviation got := (got B).
Abbreviation idle := (idle B).

Lemma ascii_is_byte s : Forall ascii s → Forall is_byte s.
Proof. intros H. eapply Forall_impl; [exact H|]. unfold ascii, is_u. simpl. lia. Qed.

Lemma ascii_valid s : Forall ascii s → valid s.
Proof. intros H. apply valid_ascii. eapply Forall_impl; [exact H|]. unfold ascii. simpl. lia. Qed.

Lemma ascii_one c : 0 < c < 0x80 → Forall ascii [c].
Proof. intros H. constructor; [unfold ascii; lia|constructor]. Qed.

(** Reading on after an ASCII character. *)
Lemma got_next lx c text n tok : Forall ascii text → 0 < c → got lx c text n tok →
  ∃ lx' c', lex_get_save malloc lx = Val (lx', c') ∧ got lx' c' (text ++ [c]) (pred n) tok ∧ Forall ascii (text ++ [c]).
Proof.
  intros Ht Hc H. destruct (got_ascii B _ _ _ _ _ H ltac:(lia)) as (Hn & Hr & Ho).
  assert (Forall ascii (text ++ [c])) as Ha by (apply Forall_app; split; [done|apply ascii_one; lia]).
  destruct (open_get malloc Hmalloc B HB _ _ _ _ (ascii_is_byte _ Ha) Ho) as (lx' & c' & E & G). by exists lx', c'.
Qed.

Lemma digit_of c : l_isdigit c = true → ∃ d, c = chr_0 + d ∧ is_digit d ∧ 0 < c.
Proof. unfold l_isdigit. intros H. exists (c - 48). unfold chr_0, is_digit. split; [lia|]. split; blia. Qed.

Lemma scan_digits_safe fuel : ∀ lx c text n tok, Forall ascii text → got lx c text n tok → (n < fuel)%nat →
  ∃ lx' c' ds, scan_digits malloc fuel c lx = Val (lx', c') ∧ Forall is_digit ds ∧ got lx' c' (text ++ chars ds) n tok.
Proof.
  induction fuel as [|fuel IH]; intros lx c text n tok Ht H Hf; [lia|]. cbn [scan_digits]. destruct (l_isdigit c) eqn:Ed.
  - destruct (digit_of c Ed) as (d & -> & Hd & Hc). destruct (got_ascii B _ _ _ _ _ H ltac:(lia)) as (Hn & Hr & Ho).
    assert (Forall ascii (text ++ [chr_0 + d])) as Ha by (apply Forall_app; split; [done|apply ascii_one; lia]).
    destruct (open_get malloc Hmalloc B HB _ _ _ _ (ascii_is_byte _ Ha) Ho) as (lx1 & c1 & E1 & G1). rewrite (lexer_bind_Val _ _ _ _ _ E1).
    destruct (IH lx1 c1 _ (pred n) tok Ha G1 ltac:(lia)) as (lx2 & c2 & ds & E2 & Hds & G2).
    exists lx2, c2, (d :: ds). split; [done|]. split; [by constructor|]. rewrite <- app_assoc in G2. eapply got_mono; [exact G2|lia].
  - exists lx, c, []. rewrite app_nil_r. done.
Qed.

Lemma scan_more_safe lx c text n tok : Forall ascii text → 0 < c → got lx c text n tok →
  ∃ lx' c' ds, scan_more_digits malloc lx = Val (lx', c') ∧ Forall is_digit ds ∧ got lx' c' ((text ++ [c]) ++ chars ds) (pred n) tok.
Proof.
  intros Ht Hc H. unfold scan_more_digits. destruct (got_next _ _ _ _ _ Ht Hc H) as (lx1 & c1 & E1 & G1 & Ha).
  rewrite (lexer_bind_Val _ _ _ _ _ E1). erewrite lexer_bind_Val by done. destruct (got_left B _ _ _ _ _ G1) as (k & Gk & Hk & Hkn).
  destruct (scan_digits_safe (lx_left lx1) lx1 c1 _ k tok Ha Gk Hk) as (lx2 & c2 & ds & E2 & Hds & G2).
  exists lx2, c2, ds. split; [done|]. split; [done|]. by eapply got_mono.
Qed.

Lemma scan_int_safe lx c text n tok : Forall ascii text → got lx c text n tok →
  ∃ lx' r, scan_int_part malloc c lx = Val (lx', r) ∧ lx_token lx' = tok ∧
    ∀ c', r = Some c' → ∃ ip, ip ≠ [] ∧ Forall is_digit ip ∧ got lx' c' (text ++ chars ip) (pred n) tok.
Proof.
  intros Ht H. unfold scan_int_part. destruct (Z.eqb_spec c 48) as [->|Hc].
  - destruct (got_next _ _ _ _ _ Ht (eq_refl : 0 < 48) H) as (lx1 & c1 & E1 & G1 & Ha). rewrite (lexer_bind_Val _ _ _ _ _ E1).
    destruct (l_isdigit c1).
    + destruct (got_unget B _ _ _ _ _ (ascii_is_byte _ Ha) G1) as (lx2 & E2 & O2). rewrite (lexer_bind_Val _ _ _ _ _ E2).
      exists lx2, None. split; [done|]. split; [by eapply open_tok|done].
    + exists lx1, (Some c1). split; [done|]. split; [by eapply got_tok|]. intros c' [= <-]. exists [0].
      split; [done|]. split; [by repeat constructor|done].
  - destruct (l_isdigit c) eqn:Ed.
    + destruct (digit_of c Ed) as (d & -> & Hd & Hc0). destruct (scan_more_safe _ _ _ _ _ Ht Hc0 H) as (lx1 & c1 & ds & E1 & Hds & G1).
      rewrite (lexer_bind_Val _ _ _ _ _ E1). exists lx1, (Some c1). split; [done|]. split; [by eapply got_tok|].
      intros c' [= <-]. exists (d :: ds). split; [done|]. split; [by constructor|]. by rewrite <- app_assoc in G1.
    + destruct (got_unget B _ _ _ _ _ (ascii_is_byte _ Ht) H) as (lx2 & E2 & O2). rewrite (lexer_bind_Val _ _ _ _ _ E2).
      exists lx2, None. split; [done|]. split; [by eapply open_tok|done].
Qed.

Lemma saved_ascii lx text n tok : Forall ascii text → open lx text n tok →
  strbuffer_value (lx_saved lx) = text ∧ sb_length (lx_saved lx) = zlen text.
Proof.
  intros Ha H. pose proof (open_saved B _ _ _ _ H) as R. split; [|apply R]. apply (value_rep B); [done|].
  eapply Forall_impl; [exact Ha|]. unfold ascii. simpl. lia.
Qed.

(** What the parser may rely on: the value belongs to the token. *)
Record val_ok (lx : lex_t) : Prop := {
  vo_string : lx_token lx = TOKEN_STRING → ∃ s, lx_value lx = LvString (Some s) ∧ clean s;
  vo_integer : lx_token lx = TOKEN_INTEGER → ∃ n, lx_value lx = LvInteger n ∧ - 2 ^ 63 ≤ n < 2 ^ 63;
  vo_real : lx_token lx = TOKEN_REAL → ∃ x, lx_value lx = LvReal x ∧ is_u 64 x
}.

(** After [lex_scan]: no more text, no token, or a token with at most [n] bytes left. *)
Definition scanned (lx : lex_t) (n : nat) : Prop :=
  lx_token lx = TOKEN_INVALID ∨ lx_token lx = TOKEN_EOF ∨ (idle lx n ∧ val_ok lx).

Lemma scan_integer_safe neg ip lx c n : ip ≠ [] → Forall is_digit ip → got lx c (minus neg ++ chars ip) n TOKEN_INVALID →
  ∃ lx' r, scan_integer c lx = Val (lx', r) ∧ scanned lx' n.
Proof.
  intros Hn Hd H. assert (Forall ascii (minus neg ++ chars ip)) as Ha
    by (apply Forall_app; split; [apply minus_ascii|by apply chars_ascii]).
  unfold scan_integer. destruct (got_unget B _ _ _ _ _ (ascii_is_byte _ Ha) H) as (lx1 & E1 & O1). rewrite (lexer_bind_Val _ _ _ _ _ E1).
  erewrite lexer_bind_Val by done. destruct (saved_ascii _ _ _ _ Ha O1) as [-> ->].
  destruct (strtoll_end neg ip Hd Hn) as (v & er & Es). pose proof (strtoll_range (minus neg ++ chars ip)) as Hr. rewrite Es in *.
  destruct er; [exists lx1, false; split; [done|]; left; by eapply open_tok|].
  rewrite bool_decide_true, Z.eqb_refl by done. erewrite lexer_bind_Val by done. do 2 erewrite lexer_bind_Val by done.
  eexists _, true. split; [done|]. right. right. split.
  - eapply open_idle; [exact (ascii_is_byte _ Ha)|exact (ascii_valid _ Ha)|by eapply open_value, open_token].
  - split; [done| |done]. intros _. exists v. split; [done|]. by apply Hr.
Qed.
(** A character that is read but not saved. *)
Definition got0 (lx : lex_t) (c : Z) (text : bytes) (n : nat) (tok : Z) : Prop :=
  (∃ b, c = s8 b ∧ 0 ≤ b < 0xF5 ∧ ∃ pre suf data val, lx_at B lx (pre ++ [b]) suf data text tok val ∧
     valid (text ++ b :: suf) ∧ (length suf + length data < n)%nat ∧ zlen text + zlen suf + zlen data + 1 ≤ B) ∨
  (is_end c = true ∧ ended B lx text tok).

Lemma open_get0 lx text n tok : Forall is_byte text → open lx text n tok →
  ∃ lx' c, lex_get lx = Val (lx', c) ∧ got0 lx' c text n tok.
Proof.
  intros Ht [(pre & suf & data & val & H & Hv & Hn)|(Hv & c & val & H)].
  - pose proof (la_room _ _ _ _ _ _ _ _ H) as Hroom. pose proof (lx_at_bytes B _ _ _ _ _ _ _ H) as Hsuf.
    destruct (lex_get_at B _ _ _ _ _ _ _ H) as [(b & pre' & suf' & data' & lx' & Hx & E & H')|(c & lx' & E & H' & [-> _])].
    + exists lx', (s8 b). split; [done|]. left. exists b. split; [done|]. destruct (next_pre _ _ _ _ _ Hx) as [p Ep].
      pose proof (sa_pre _ _ _ _ (la_stream _ _ _ _ _ _ _ _ H')) as Hp. rewrite Ep in Hp, H'. apply Forall_app in Hp as [_ [Hb _]%Forall_cons].
      split; [done|]. destruct (next_valid text _ _ _ _ _ _ _ Hx) as [Hv' Hl]; [by apply Forall_app|done|].
      pose proof (next_length _ _ _ _ _ _ _ Hx). exists p, suf', data', val. split; [done|]. split; [done|]. lia.
    + exists lx', c. rewrite app_nil_r in Hv. split; [done|]. right. split; [by eapply le_end|]. split; [done|]. by eexists _, _.
  - exists lx, c. split; [by eapply lex_get_end|]. right. split; [by eapply le_end|]. split; [done|]. by eexists _, _.
Qed.

(** Saving it. *)
Lemma got0_save lx c text n tok : got0 lx c text n tok → is_end c = false →
  ∃ lx', lex_save malloc c lx = Val (lx', tt) ∧ got lx' c text n tok.
Proof.
  intros [(b & -> & Hb & pre & suf & data & val & H & Hv & Hn & Hroom)|[E _]] He; [|congruence].
  destruct (lex_save_at malloc Hmalloc B HB _ _ _ _ _ _ _ b H ltac:(lia) ltac:(lia)) as (lx' & E & H'). exists lx'. split; [done|].
  left. exists b. do 2 (split; [done|]). by exists pre, suf, data, val.
Qed.

Lemma got0_unget lx c text n tok : got0 lx c text n tok → ∃ lx', lex_unget c lx = Val (lx', tt) ∧ lx_token lx' = tok.
Proof.
  intros [(b & -> & Hb & pre & suf & data & val & H & Hv & Hn & Hroom)|[E (_ & c' & val & H)]].
  - destruct (lex_unget_at B _ _ _ _ _ _ _ _ H ltac:(lia)) as (lx' & E & H'). exists lx'. split; [done|]. apply H'.
  - exists lx. unfold lex_unget, stream_unget. rewrite E. split; [by destruct lx|apply H].
Qed.

(** A space is skipped. *)
Lemma got0_space lx c n tok : got0 lx c [] n tok → 0 < c < 0x80 → (0 < n)%nat ∧ open lx [] (pred n) tok.
Proof.
  intros [(b & -> & Hb & pre & suf & data & val & H & Hv & Hn & Hroom)|[E _]] Hc.
  - assert (b < 128) by (destruct (Z.ltb_spec b 128); [done|rewrite s8_high in Hc by lia; lia]).
    split; [lia|]. left. exists (pre ++ [b]), suf, data, val. split; [done|]. split; [|lia]. cbn [app] in *.
    apply (valid_ascii_tail [b]); [constructor; [lia|constructor]|done].
  - unfold is_end, STREAM_STATE_EOF, STREAM_STATE_ERROR in E. blia.
Qed.

Lemma scan_fraction_safe lx c text n tok : Forall ascii text → got lx c text n tok →
  ∃ lx' r, scan_fraction malloc c lx = Val (lx', r) ∧ lx_token lx' = tok ∧
    ∀ c', r = Some c' → ∃ fp, Forall is_digit fp ∧ Forall ascii (text ++ fraction fp) ∧ got lx' c' (text ++ fraction fp) n tok.
Proof.
  intros Ht H. unfold scan_fraction. destruct (Z.eqb_spec c 46) as [->|Hc].
  - destruct (got_ascii B _ _ _ _ _ H ltac:(lia)) as (Hn & _ & Ho).
    assert (Forall ascii (text ++ [46])) as Ha by (apply Forall_app; split; [done|by apply ascii_one]).
    destruct (open_get0 _ _ _ _ (ascii_is_byte _ Ha) Ho) as (lx1 & c1 & E1 & G1). rewrite (lexer_bind_Val _ _ _ _ _ E1).
    destruct (l_isdigit c1) eqn:Ed; cbn [negb].
    + destruct (digit_of c1 Ed) as (d & -> & Hd & Hc0).
      destruct (got0_save _ _ _ _ _ G1) as (lx2 & E2 & G2); [unfold is_end, STREAM_STATE_EOF, STREAM_STATE_ERROR; blia|].
      rewrite (lexer_bind_Val _ _ _ _ _ E2). destruct (scan_more_safe _ _ _ _ _ Ha Hc0 G2) as (lx3 & c3 & ds & E3 & Hds & G3).
      rewrite (lexer_bind_Val _ _ _ _ _ E3). exists lx3, (Some c3). split; [done|]. split; [by eapply got_tok|].
      intros c' [= <-]. exists (d :: ds). assert (Forall is_digit (d :: ds)) as Hdd by (by constructor). split; [done|].
      split; [apply Forall_app; split; [done|by apply fraction_ascii]|]. unfold fraction. rewrite bool_decide_false by done.
      rewrite <- !app_assoc in G3. eapply got_mono; [exact G3|lia].
    + destruct (got0_unget _ _ _ _ _ G1) as (lx2 & E2 & T2). rewrite (lexer_bind_Val _ _ _ _ _ E2). by exists lx2, None.
  - exists lx, (Some c). split; [done|]. split; [by eapply got_tok|]. intros c' [= <-]. exists []. rewrite app_nil_r. done.
Qed.

Lemma any_exponent_ascii x : any_exponent x → Forall ascii x.
Proof.
  intros [->|(m & sgn & ds & -> & Hm & Hs & _ & Hd)]; [done|].
  constructor; [unfold ascii; lia|]. apply Forall_app. split; [|by apply chars_ascii].
  destruct Hs as [->|[-> | ->]]; [constructor|by apply ascii_one..].
Qed.

Lemma scan_exponent_safe lx c text n tok : Forall ascii text → got lx c text n tok →
  ∃ lx' r, scan_exponent malloc c lx = Val (lx', r) ∧ lx_token lx' = tok ∧
    ∀ c', r = Some c' → ∃ x, any_exponent x ∧ got lx' c' (text ++ x) n tok.
Proof.
  intros Ht H. unfold scan_exponent. destruct ((c =? 69) || (c =? 101)) eqn:Ec.
  - assert (c = 69 ∨ c = 101) as Hm by blia. destruct (got_next _ c _ _ _ Ht ltac:(lia) H) as (lx1 & c1 & E1 & G1 & Ha).
    rewrite (lexer_bind_Val _ _ _ _ _ E1).
    assert (∃ lx2 c2 sgn, (if (c1 =? 43) || (c1 =? 45) then lex_get_save malloc else mret c1) lx1 = Val (lx2, c2) ∧
      (sgn = [] ∨ sgn = [43] ∨ sgn = [45]) ∧ got lx2 c2 (text ++ [c] ++ sgn) n tok) as (lx2 & c2 & sgn & E2 & Hsg & G2).
    { destruct ((c1 =? 43) || (c1 =? 45)) eqn:Es.
      - destruct (got_next _ c1 _ _ _ Ha ltac:(blia) G1) as (lx2 & c2 & E2 & G2 & _). exists lx2, c2, [c1].
        split; [done|]. split; [right; assert (c1 = 43 ∨ c1 = 45) as [-> | ->] by blia; auto|]. rewrite <- app_assoc in G2. eapply got_mono; [exact G2|lia].
      - exists lx1, c1, []. split; [done|]. split; [by left|]. eapply got_mono; [exact G1|lia]. }
    assert (Forall ascii (text ++ [c] ++ sgn)) as Ha2.
    { apply Forall_app. split; [done|]. apply Forall_app. split; [apply ascii_one; lia|].
      destruct Hsg as [->|[-> | ->]]; [constructor|by apply ascii_one..]. }
    rewrite (lexer_bind_Val _ _ _ _ _ E2). destruct (l_isdigit c2) eqn:Ed; cbn [negb].
    + destruct (digit_of c2 Ed) as (d & -> & Hd & Hc0). destruct (scan_more_safe _ _ _ _ _ Ha2 Hc0 G2) as (lx3 & c3 & ds & E3 & Hds & G3).
      rewrite (lexer_bind_Val _ _ _ _ _ E3). exists lx3, (Some c3). split; [done|]. split; [by eapply got_tok|].
      intros c' [= <-]. exists (c :: sgn ++ chars (d :: ds)). split.
      * right. exists c, sgn, (d :: ds). do 3 (split; [done|]). split; [done|by constructor].
      * rewrite <- !app_assoc in G3. eapply got_mono; [exact G3|lia].
    + destruct (got_unget B _ _ _ _ _ (ascii_is_byte _ Ha2) G2) as (lx3 & E3 & O3). rewrite (lexer_bind_Val _ _ _ _ _ E3).
      exists lx3, None. split; [done|]. split; [by eapply open_tok|done].
  - exists lx, (Some c). split; [done|]. split; [by eapply got_tok|]. intros c' [= <-]. exists []. rewrite app_nil_r. split; [by left|done].
Qed.

Lemma scan_real_safe neg ip fp x lx c n : ip ≠ [] → Forall is_digit ip → Forall is_digit fp → any_exponent x →
  got lx c (minus neg ++ chars ip ++ fraction fp ++ x) n TOKEN_INVALID →
  ∃ lx' r, scan_real c lx = Val (lx', r) ∧ scanned lx' n.
Proof.
  intros Hn Hd Hf Hx H. assert (Forall ascii (minus neg ++ chars ip ++ fraction fp ++ x)) as Ha.
  { repeat (apply Forall_app; split); [apply minus_ascii|by apply chars_ascii|by apply fraction_ascii|by apply any_exponent_ascii]. }
  unfold scan_real. destruct (got_unget B _ _ _ _ _ (ascii_is_byte _ Ha) H) as (lx1 & E1 & O1). rewrite (lexer_bind_Val _ _ _ _ _ E1).
  erewrite lexer_bind_Val by done. destruct (saved_ascii _ _ _ _ Ha O1) as [-> ->]. rewrite Z.eqb_refl.
  erewrite lexer_bind_Val by done. destruct (strtod_any neg ip fp x Hn Hd Hf Hx) as (r & Er & Hr).
  unfold lx_lift. erewrite lexer_bind_Val by (rewrite Er; done).
  destruct r as [v|]; [|exists lx1, false; split; [done|]; left; by eapply open_tok].
  do 2 erewrite lexer_bind_Val by done. eexists _, true. split; [done|]. right. right. split.
  - eapply open_idle; [exact (ascii_is_byte _ Ha)|exact (ascii_valid _ Ha)|by eapply open_value, open_token].
  - split; [done|done|]. intros _. exists v. split; [done|]. by apply Hr.
Qed.

Lemma scan_number_safe lx c n tok : got lx c [] n tok → ∃ lx' r, lex_scan_number malloc c lx = Val (lx', r) ∧ scanned lx' (pred n).
Proof.
  intros H. unfold lex_scan_number. erewrite lexer_bind_Val by done. apply (got_token B _ _ _ _ _ TOKEN_INVALID) in H.
  assert (∃ lx1 c1 neg, (if c =? 45 then lex_get_save malloc else mret c) (set_token TOKEN_INVALID lx) = Val (lx1, c1) ∧
    got lx1 c1 (minus neg) n TOKEN_INVALID) as (lx1 & c1 & neg & E1 & G1).
  { destruct (Z.eqb_spec c 45) as [->|]; [|by exists (set_token TOKEN_INVALID lx), c, false].
    destruct (got_next _ _ _ _ _ (Forall_nil_2 _) (eq_refl : 0 < 45) H) as (lx1 & c1 & E1 & G1 & _). exists lx1, c1, true. split; [done|]. eapply got_mono; [exact G1|lia]. }
  rewrite (lexer_bind_Val _ _ _ _ _ E1). destruct (scan_int_safe _ _ _ _ _ (minus_ascii neg) G1) as (lx2 & r & E2 & T2 & H2).
  rewrite (lexer_bind_Val _ _ _ _ _ E2). destruct r as [c2|]; [|exists lx2, false; split; [done|by left]].
  destruct (H2 c2 eq_refl) as (ip & Hn & Hd & G2). destruct (_ && _ && _); [by eapply scan_integer_safe|].
  assert (Forall ascii (minus neg ++ chars ip)) as Ha by (apply Forall_app; split; [apply minus_ascii|by apply chars_ascii]).
  destruct (scan_fraction_safe _ _ _ _ _ Ha G2) as (lx3 & r & E3 & T3 & H3). rewrite (lexer_bind_Val _ _ _ _ _ E3).
  destruct r as [c3|]; [|exists lx3, false; split; [done|by left]]. destruct (H3 c3 eq_refl) as (fp & Hf & Ha3 & G3).
  destruct (scan_exponent_safe _ _ _ _ _ Ha3 G3) as (lx4 & r & E4 & T4 & H4). rewrite (lexer_bind_Val _ _ _ _ _ E4).
  destruct r as [c4|]; [|exists lx4, false; split; [done|by left]]. destruct (H4 c4 eq_refl) as (x & Hx & G4).
  rewrite <- !app_assoc in G4. by eapply scan_real_safe.
Qed.
(** ** Tokens *)

Lemma scan_alpha_safe fuel : ∀ lx c text n tok, Forall ascii text → got lx c text n tok → (n < fuel)%nat →
  ∃ lx' c' w, scan_alpha malloc fuel c lx = Val (lx', c') ∧ Forall ascii (text ++ w) ∧ got lx' c' (text ++ w) n tok.
Proof.
  induction fuel as [|fuel IH]; intros lx c text n tok Ht H Hf; [lia|]. cbn [scan_alpha]. destruct (l_isalpha c) eqn:Ea.
  - assert (0 < c) as Hc by (unfold l_isalpha, l_isupper, l_islower in Ea; blia).
    destruct (got_ascii B _ _ _ _ _ H ltac:(lia)) as (Hn & Hr & Ho).
    assert (Forall ascii (text ++ [c])) as Ha by (apply Forall_app; split; [done|apply ascii_one; lia]).
    destruct (open_get malloc Hmalloc B HB _ _ _ _ (ascii_is_byte _ Ha) Ho) as (lx1 & c1 & E1 & G1). rewrite (lexer_bind_Val _ _ _ _ _ E1).
    destruct (IH lx1 c1 _ (pred n) tok Ha G1 ltac:(lia)) as (lx2 & c2 & w & E2 & Hw & G2).
    exists lx2, c2, (c :: w). rewrite <- app_assoc in G2, Hw. split; [done|]. split; [done|]. eapply got_mono; [exact G2|lia].
  - exists lx, c, []. rewrite app_nil_r. done.
Qed.

Lemma set_token_scanned lx text n m tok t : Forall ascii text → open lx text n tok → (n ≤ m)%nat →
  t ∉ [TOKEN_STRING; TOKEN_INTEGER; TOKEN_REAL] → scanned (set_token t lx) m.
Proof.
  intros Ha Ho Hm Ht. right. right. split.
  - eapply open_idle; [exact (ascii_is_byte _ Ha)|exact (ascii_valid _ Ha)|]. eapply open_token, open_mono; [exact Ho|done].
  - split; cbn [set_token lx_token]; intros ->; exfalso; apply Ht; set_solver.
Qed.

(** The rest of a sequence that starts no token is saved with it. *)
Lemma save_cached_safe fuel : ∀ lx pre suf data text tok val, lx_at B lx pre suf data text tok val → (length suf < fuel)%nat →
  ∃ lx', lex_save_cached_loop malloc fuel lx = Val (lx', tt).
Proof.
  induction fuel as [|fuel IH]; intros lx pre suf data text tok val H Hf; [lia|]. cbn [lex_save_cached_loop].
  erewrite lexer_bind_Val by done. pose proof H as [[H1 H2 (junk & H3 & H3') H4 H5 H6] Hb Hs Hroom Ht Hv].
  destruct suf as [|b suf].
  - erewrite lexer_bind_Val; [|unfold lx_lift; rewrite H3; cbn [app]; by rewrite rd_middle]. change (0 =? 0) with true. by eexists.
  - apply Forall_cons in H5 as [Hbr H5].
    erewrite lexer_bind_Val; [|unfold lx_lift; rewrite H3; cbn [app]; by rewrite rd_middle].
    rewrite (proj2 (Z.eqb_neq b 0)) by lia.
    assert (lex_save malloc b = lex_save malloc (s8 b)) as ->.
    { unfold lex_save. assert (u8 (s8 b) = u8 b) as -> by (rewrite <- !land_s8_255; f_equal; unfold swrap; rewrite Z.sub_add, Zmod_mod; done). done. }
    set (lx1 := set_stream (mkStream (st_data (lx_stream lx)) (st_buffer (lx_stream lx)) (st_pos (lx_stream lx) + 1) (st_state (lx_stream lx))) lx).
    assert (lx_at B lx1 (pre ++ [b]) suf data text tok val) as Hat1.
    { rewrite zlen_cons in Hroom. split; cbn; try done; [|lia]. split; cbn; try done.
      - exists junk. rewrite <- app_assoc. done.
      - rewrite zlen_app. change (zlen [b]) with 1. lia.
      - apply Forall_app. split; [done|]. constructor; [lia|constructor]. }
    rewrite zlen_cons in Hroom. pose proof (zlen_nonneg suf). pose proof (zlen_nonneg data).
    destruct (lex_save_at malloc Hmalloc B HB lx1 _ _ _ _ _ _ b Hat1 ltac:(lia) ltac:(lia)) as (lx2 & E2 & Hat2).
    (* saving does not touch the stream *)
    assert (∃ lx1', lex_save malloc (s8 b) lx = Val (lx1', tt) ∧
      set_stream (lx_stream lx1) lx1' = lx2) as (lx1' & E1 & Elx).
    { unfold lex_save in *. cbn [lx1 set_stream lx_saved] in E2. destruct (strbuffer_append_byte malloc (lx_saved lx) _) as [[? sb]| |]; try done.
      cbn in E2. injection E2 as <-. by eexists. }
    rewrite (lexer_bind_Val _ _ _ _ _ E1). erewrite lexer_bind_Val by done.
    change (mkStream _ _ _ _) with (lx_stream lx1). rewrite Elx. eapply IH; [exact Hat2|simpl in Hf; lia].
Qed.

Lemma scan_rest_safe lx c n tok : got lx c [] n tok → is_end c = false →
  ∃ lx' , lex_scan_rest malloc c lx = Val (lx', tt) ∧ (∃ m, scanned lx' m ∧ (m < n)%nat).
Proof.
  intros H He. destruct (got_open B _ _ _ _ _ H He) as (b & Eb & Hb & Hn & Ho). unfold lex_scan_rest.
  assert (∀ lx' m, scanned lx' m → (m ≤ pred n)%nat → ∃ m, scanned lx' m ∧ (m < n)%nat) as Hm by (intros lx' m ? ?; exists m; split; [done|lia]).
  destruct (is_punctuation c) eqn:Ep.
  { assert (0 < c < 0x80) as Hc by (unfold is_punctuation in Ep; blia).
    destruct (got_ascii B _ _ _ _ _ H ltac:(lia)) as (_ & _ & Ho'). eexists. split; [done|]. eapply Hm; [|done].
    eapply (set_token_scanned _ [c]); [by apply ascii_one|exact Ho'|done|]. unfold is_punctuation in Ep. rewrite !not_elem_of_cons.
    unfold TOKEN_STRING, TOKEN_INTEGER, TOKEN_REAL. repeat split; [blia..|apply not_elem_of_nil]. }
  destruct (Z.eqb_spec c 34) as [->|].
  { destruct (got_ascii B _ _ _ _ _ H ltac:(lia)) as (_ & _ & Ho').
    destruct (scan_string_token malloc Hmalloc B HB _ _ _ Ho') as (lx' & E & Hs). exists lx'. split; [done|]. eapply Hm; [|done].
    destruct Hs as [Hs|(Ht & Hi & s & Hv & Hc)]; [by left|]. right. right. split; [done|].
    split; rewrite Ht; try done. intros _. by exists s. }
  destruct (l_isdigit c || (c =? 45)) eqn:Ed.
  { destruct (scan_number_safe _ _ _ _ H) as (lx' & r & E & Hs). rewrite (lexer_bind_Val _ _ _ _ _ E). exists lx'. split; [done|]. by eapply Hm. }
  destruct (l_isalpha c) eqn:Ea.
  { assert (0 < c) as Hc by (unfold l_isalpha, l_isupper, l_islower in Ea; blia).
    destruct (got_ascii B _ _ _ _ _ H ltac:(lia)) as (_ & Hr & Ho').
    destruct (open_get malloc Hmalloc B HB _ _ _ _ (ascii_is_byte _ (ascii_one c ltac:(lia))) Ho') as (lx1 & c1 & E1 & G1).
    rewrite (lexer_bind_Val _ _ _ _ _ E1). erewrite lexer_bind_Val by done.
    destruct (got_left B _ _ _ _ _ G1) as (k & Gk & Hk & Hkn).
    destruct (scan_alpha_safe (lx_left lx1) lx1 c1 _ k tok (ascii_one c ltac:(lia)) Gk Hk) as (lx2 & c2 & w & E2 & Hw & G2).
    rewrite (lexer_bind_Val _ _ _ _ _ E2). destruct (got_unget B _ _ _ _ _ (ascii_is_byte _ Hw) G2) as (lx3 & E3 & O3).
    rewrite (lexer_bind_Val _ _ _ _ _ E3). erewrite lexer_bind_Val by done. eexists. split; [done|].
    eapply Hm; [|done]. eapply set_token_scanned; [exact Hw|exact O3|done|]. unfold keyword_token.
    repeat case_bool_decide; set_solver. }
  destruct H as [(b' & -> & Hb' & pre & suf & data & val & H & _)|[? _]]; [|congruence].
  destruct (save_cached_safe 6 _ _ _ _ _ _ _ H) as (lx1 & E1).
  { destruct H as [[_ _ (junk & E & El) _ _ _] _ _ _ _ _]. rewrite E in El. rewrite !length_app in El. simpl in El. lia. }
  rewrite (lexer_bind_Val _ _ _ _ _ E1). eexists. split; [done|]. eapply (Hm _ 0%nat); [by left|lia].
Qed.
Lemma skip_space_safe fuel : ∀ lx c n tok, got0 lx c [] n tok → (n < fuel)%nat →
  ∃ lx' c', skip_space fuel c lx = Val (lx', c') ∧ got0 lx' c' [] n tok.
Proof.
  induction fuel as [|fuel IH]; intros lx c n tok H Hf; [lia|]. cbn [skip_space]. destruct (_ || _ || _ || _) eqn:Es; [|by exists lx, c].
  destruct (got0_space _ _ _ _ H ltac:(blia)) as [Hn Ho].
  destruct (open_get0 _ _ _ _ (Forall_nil_2 _) Ho) as (lx1 & c1 & E1 & G1). rewrite (lexer_bind_Val _ _ _ _ _ E1).
  destruct (IH lx1 c1 (pred n) tok G1 ltac:(lia)) as (lx2 & c2 & E2 & G2). exists lx2, c2. split; [done|].
  destruct G2 as [(b & -> & Hb & pre & suf & data & val & ? & ? & ? & ?)|G2]; [left|by right].
  exists b. do 2 (split; [done|]). exists pre, suf, data, val. do 2 (split; [done|]). split; [lia|done].
Qed.

Lemma got0_left lx c text n tok : got0 lx c text n tok → ∃ k, got0 lx c text k tok ∧ (k < lx_left lx)%nat ∧ (k ≤ n)%nat.
Proof.
  unfold lx_left. intros [(b & -> & Hb & pre & suf & data & val & H & Hv & Hn & Hr)|[E H]]; [|exists 0%nat; split; [by right|lia]].
  exists (S (length suf + length data)). split; [left; exists b; do 2 (split; [done|]); exists pre, suf, data, val; do 2 (split; [done|]); split; [lia|done]|].
  destruct H as [[_ -> (junk & E & El) _ _ _] _ _ _ _ _]. rewrite E in El. rewrite !length_app in El. simpl in *. lia.
Qed.

(** [lex_scan] between two tokens: it returns, and a token takes at least a byte. *)
Lemma lex_scan_safe lx n : idle lx n →
  ∃ lx' m, lex_scan malloc lx = Val (lx', tt) ∧ scanned lx' m ∧ (m < n ∨ lx_token lx' = TOKEN_INVALID ∨ lx_token lx' = TOKEN_EOF)%nat.
Proof.
  intros H. unfold lex_scan.
  assert (∃ lx1 tok, lex_clear lx = Val (lx1, tt) ∧ open lx1 [] n tok) as (lx1 & tok & E1 & O1).
  { destruct H as [(pre & suf & data & text & tok & val & H & Hv & Hn)|(text & tok & _ & c & val & H)].
    - destruct (lex_clear_at B _ _ _ _ _ _ _ H) as (lx' & E & H'). exists lx', tok. split; [done|]. left. by exists pre, suf, data, val.
    - destruct (lex_clear_end B HB _ _ _ _ _ H) as (lx' & E & H'). exists lx', tok. split; [done|]. right. split; [done|]. by exists c, val. }
  rewrite (lexer_bind_Val _ _ _ _ _ E1). destruct (open_get0 _ _ _ _ (Forall_nil_2 _) O1) as (lx2 & c2 & E2 & G2).
  rewrite (lexer_bind_Val _ _ _ _ _ E2). erewrite lexer_bind_Val by done. destruct (got0_left _ _ _ _ _ G2) as (k & Gk & Hk & Hkn).
  destruct (skip_space_safe _ _ _ _ _ Gk Hk) as (lx3 & c3 & E3 & G3). rewrite (lexer_bind_Val _ _ _ _ _ E3).
  unfold lex_scan_token. destruct (c3 =? STREAM_STATE_EOF) eqn:Eeof.
  { eexists _, 0%nat. split; [done|]. split; [by right; left|by right; right]. }
  destruct (c3 =? STREAM_STATE_ERROR) eqn:Eerr; [eexists _, 0%nat; split; [done|]; split; [by left|by right; left]|].
  assert (is_end c3 = false) as He by (unfold is_end; by rewrite Eeof, Eerr).
  destruct (got0_save _ _ _ _ _ G3 He) as (lx4 & E4 & G4). rewrite (lexer_bind_Val _ _ _ _ _ E4).
  destruct (scan_rest_safe _ _ _ _ G4 He) as (lx5 & E5 & m & H5 & Hm). exists lx5, m. split; [done|]. split; [done|]. left. lia.
Qed.

(** ** The parser *)

(** A token that the parser knows. *)
Lemma scanned_token lx n t : scanned lx n → lx_token lx = t → t ≠ TOKEN_INVALID → t ≠ TOKEN_EOF → idle lx n ∧ val_ok lx.
Proof. intros [E|[E|H]] Ht H1 H2; [congruence..|done]. Qed.

(** The next token, if there is one, takes at least a byte. *)
Lemma expect lx n : idle lx n → ∃ lx' m, lex_scan malloc lx = Val (lx', tt) ∧ scanned lx' m ∧ (m ≤ n)%nat ∧
  (lx_token lx' ≠ TOKEN_INVALID → lx_token lx' ≠ TOKEN_EOF → idle lx' m ∧ (m < n)%nat).
Proof.
  intros H. destruct (lex_scan_safe lx n H) as (lx' & m & E & Hs & Hm).
  destruct (decide (lx_token lx' = TOKEN_INVALID)) as [Ei|Ei]; [exists lx', 0%nat; split; [done|]; split; [by left|]; split; [lia|done]|].
  destruct (decide (lx_token lx' = TOKEN_EOF)) as [Ee|Ee]; [exists lx', 0%nat; split; [done|]; split; [by right; left|]; split; [lia|done]|].
  destruct Hm as [Hm|[?|?]]; [|done..]. exists lx', m. split; [done|]. split; [done|]. split; [lia|]. intros _ _.
  by destruct (scanned_token lx' m _ Hs eq_refl Ei Ee).
Qed.
End Total.

(** What the reader returns. *)
Fixpoint loaded (json : json_t) : bool :=
  match json with
  | JString s => text_ok s
  | JInteger n => (- 2 ^ 63 <=? n) && (n <? 2 ^ 63)
  | JReal x => (0 <=? x) && (x <? 2 ^ 64) && is_finite binary64 x
  | JArray l => (zlen l <=? INT_MAX) && forallb loaded l
  | JObject (mkTable _ l) => bool_decide (NoDup l.*1) && forallb (λ '(k, v), text_ok k && loaded v) l
  | _ => true
  end.

Definition loaded_pair (kv : string * json_t) : Prop := text_ok kv.1 = true ∧ loaded kv.2 = true.

Lemma loaded_object n l : loaded (JObject (mkTable n l)) = true ↔ NoDup l.*1 ∧ Forall loaded_pair l.
Proof.
  cbn [loaded]. rewrite andb_true_iff, bool_decide_eq_true, forallb_forall, Forall_forall.
  setoid_rewrite <- list_elem_of_In. split; (intros [Hn Hl]; split; [done|]).
  - intros [k v] Hin%Hl. by apply andb_true_iff in Hin.
  - intros [k v] Hin%Hl. by apply andb_true_iff.
Qed.

Lemma loaded_array l : loaded (JArray l) = true ↔ zlen l ≤ INT_MAX ∧ Forall (λ v, loaded v = true) l.
Proof.
  cbn [loaded]. rewrite andb_true_iff, Z.leb_le, forallb_forall, Forall_forall. by setoid_rewrite <- list_elem_of_In.
Qed.

Lemma clean_text_ok s : clean s → text_ok (string_of s) = true.
Proof.
  intros Hc. pose proof (clean_bytes s Hc) as Hb. destruct Hc as [Hp Hv]. unfold text_ok, utf8_check_string.
  rewrite bytes_of_string_of by done. apply andb_true_iff. split; [exact Hv|]. apply forallb_forall. intros b Hin%list_elem_of_In.
  rewrite Forall_forall in Hp. specialize (Hp b Hin). simpl in Hp. blia.
Qed.

(** Setting a pair keeps an object loaded. *)
Lemma loaded_set h k v : loaded (JObject h) = true → text_ok k = true → loaded v = true →
  loaded (JObject (hashtable_set h k v)) = true.
Proof.
  destruct h as [n l]. rewrite loaded_object. intros [Hn Hl] Hk Hv.
  destruct (set_map (mkTable n l) k v Hn) as [Hw _].
  pose proof (set_Forall loaded_pair (mkTable n l) k v Hl (conj Hk Hv)) as Hf.
  destruct (hashtable_set (mkTable n l) k v) as [n' l']. by apply loaded_object.
Qed.

Lemma loaded_printable v : loaded v = true → printable v = true.
Proof.
  induction v as [n l IH|l IH|s|n|x| | |] using json_value_ind; intros Hr; try done.
  - apply loaded_object in Hr as [_ Hl]. cbn [printable]. apply forallb_forall. intros [k v] Hin%list_elem_of_In.
    rewrite Forall_forall in Hl, IH. destruct (Hl _ Hin) as [Hk Hv]. apply andb_true_iff. split; [done|]. by apply (IH _ Hin).
  - apply loaded_array in Hr as [Hn Hl]. cbn [printable]. apply andb_true_iff. split; [by apply Z.leb_le|].
    apply forallb_forall. intros v Hin%list_elem_of_In. rewrite Forall_forall in Hl, IH. by apply IH, Hl.
  - cbn [loaded printable] in *. apply andb_true_iff in Hr as [Hx Hf].
    destruct (dtostr_finite x ltac:(unfold is_u; blia) Hf) as (t & E). unfold MAX_REAL_STR_LENGTH. by rewrite E.
Qed.

Section Parse.
Context (malloc : Z → bool) (Hmalloc : malloc_succeeds malloc).
Context (B : Z) (HB : 0 ≤ B < 2 ^ 61).
Context (flags : Z) (N : nat) (HN : Z.of_nat N ≤ INT_MAX).

Abbreviation scanned := (scanned B).
Abbreviation idle := (idle B).

(** [r], with what is left to read, is a result the parser may return. *)
Definition result_ok (lx : lex_t) (n : nat) (r : option json_t) : Prop := ∀ v, r = Some v → loaded v = true ∧ idle lx n.

Lemma result_none lx n : result_ok lx n None.
Proof. by intros v. Qed.

Lemma idle_mono lx n m : idle lx n → (n ≤ m)%nat → idle lx m.
Proof.
  intros [(pre & suf & data & text & tok & val & H & Hv & Hn)|H] Hm; [left|by right].
  exists pre, suf, data, text, tok, val. split; [done|]. split; [done|lia].
Qed.

(** The depth that is left is enough for what is left to read. *)
Definition enough (lx : lex_t) (n fuel : nat) : Prop :=
  (0 < fuel)%nat ∧ (lx_token lx ≠ TOKEN_INVALID → lx_token lx ≠ TOKEN_EOF → (S n < fuel)%nat).

Section Step.
Context (pv : lexer (option json_t)) (bound : nat).
Context (Hpv : ∀ lx n, scanned lx n → enough lx n bound → (n ≤ N)%nat → ∃ lx' r, pv lx = Val (lx', r) ∧ result_ok lx' n r).

Lemma array_safe fuel : ∀ lx n acc, scanned lx n → (n < fuel)%nat → (n ≤ bound)%nat → enough lx n bound → (length acc + n ≤ N)%nat →
  Forall (λ v, loaded v = true) acc →
  ∃ lx' r, array_loop malloc pv fuel (JArray acc) lx = Val (lx', r) ∧ result_ok lx' n r.
Proof.
  induction fuel as [|fuel IH]; intros lx n acc Hs Hf Hb He Hlen Hacc; [lia|]. cbn [array_loop]. erewrite lexer_bind_Val by done.
  destruct (lx_token lx =? 0); [exists lx, None; split; [done|apply result_none]|].
  destruct (Hpv lx n Hs He ltac:(lia)) as (lx1 & r & E1 & Hr). rewrite (lexer_bind_Val _ _ _ _ _ E1).
  destruct r as [v|]; [|exists lx1, None; split; [done|apply result_none]]. destruct (Hr v eq_refl) as [Hv Hi].
  cbn [json_array_append_new]. assert (Forall (λ v, loaded v = true) (acc ++ [v])) as Hacc' by (apply Forall_app; split; [done|by constructor]).
  destruct (expect malloc Hmalloc B HB lx1 n Hi) as (lx2 & m & E2 & _ & _ & Hm). rewrite (lexer_bind_Val _ _ _ _ _ E2).
  erewrite lexer_bind_Val by done. destruct (Z.eqb_spec (lx_token lx2) 44) as [T|T]; cbn [negb].
  - destruct (Hm ltac:(rewrite T; done) ltac:(rewrite T; done)) as (Hi2 & Hlt).
    destruct (expect malloc Hmalloc B HB lx2 m Hi2) as (lx3 & k & E3 & Hs3 & Hk & Hk'). rewrite (lexer_bind_Val _ _ _ _ _ E3).
    destruct (IH lx3 k (acc ++ [v]) Hs3) as (lx' & r & E & Hr'); 
      [lia|lia|split; [lia|]; intros H1 H2; destruct (Hk' H1 H2); lia|rewrite length_app; simpl; lia|done|].
    exists lx', r. split; [done|]. intros w Hw. destruct (Hr' w Hw) as [? ?]. split; [done|]. eapply idle_mono; [done|lia].
  - destruct (Z.eqb_spec (lx_token lx2) 93) as [T2|T2]; cbn [negb]; [|exists lx2, None; split; [done|apply result_none]].
    destruct (Hm ltac:(rewrite T2; done) ltac:(rewrite T2; done)) as (Hi2 & Hlt).
    eexists lx2, _. split; [done|]. intros w [= <-]. split; [|eapply idle_mono; [done|lia]]. apply loaded_array. split; [|done].
    unfold zlen. rewrite length_app. simpl. lia.
Qed.

Lemma idle_value lx n v : idle lx n → idle (set_value v lx) n.
Proof.
  intros [(pre & suf & data & text & tok & val & [] & H)|(text & tok & Hv & c & val & [])]; [left|right].
  - exists pre, suf, data, text, tok, v. split; [by split|done].
  - exists text, tok. split; [done|]. exists c, v. by split.
Qed.

Lemma object_safe fuel : ∀ lx n h, scanned lx n → (n < fuel)%nat → (n ≤ bound)%nat → (n ≤ N)%nat → loaded (JObject h) = true →
  ∃ lx' r, object_loop malloc flags pv fuel (JObject h) lx = Val (lx', r) ∧ result_ok lx' n r.
Proof.
  induction fuel as [|fuel IH]; intros lx n h Hs Hf Hb Hlen Hh; [lia|]. cbn [object_loop]. erewrite lexer_bind_Val by done.
  destruct (Z.eqb_spec (lx_token lx) TOKEN_STRING) as [T|T]; cbn [negb]; [|exists lx, None; split; [done|apply result_none]].
  destruct (scanned_token B _ _ _ Hs T) as [Hi Hvo]; [done..|]. destruct (vo_string _ Hvo T) as (k & Ev & Hk).
  rewrite (lexer_bind_Val _ _ _ _ _ (steal_string lx k T Ev)). apply (idle_value _ _ (LvString None)) in Hi.
  destruct (_ && _); [eexists _, None; split; [done|apply result_none]|].
  destruct (expect malloc Hmalloc B HB _ n Hi) as (lx1 & n1 & E1 & _ & _ & H1). rewrite (lexer_bind_Val _ _ _ _ _ E1).
  erewrite lexer_bind_Val by done.
  destruct (Z.eqb_spec (lx_token lx1) 58) as [T1|T1]; cbn [negb]; [|exists lx1, None; split; [done|apply result_none]].
  destruct (H1 ltac:(rewrite T1; done) ltac:(rewrite T1; done)) as [Hi1 Hn1].
  destruct (expect malloc Hmalloc B HB lx1 n1 Hi1) as (lx2 & n2 & E2 & Hs2 & Hn2 & H2). rewrite (lexer_bind_Val _ _ _ _ _ E2).
  destruct (Hpv lx2 n2 Hs2) as (lx3 & r & E3 & Hr); [split; [lia|]; intros Ha Hb'; destruct (H2 Ha Hb'); lia|lia|]. rewrite (lexer_bind_Val _ _ _ _ _ E3).
  destruct r as [v|]; [|exists lx3, None; split; [done|apply result_none]]. destruct (Hr v eq_refl) as [Hv Hi3].
  cbn [json_object_set_new_nocheck]. pose proof (loaded_set h _ v Hh (clean_text_ok k Hk) Hv) as Hh'.
  destruct (expect malloc Hmalloc B HB lx3 n2 Hi3) as (lx4 & n4 & E4 & _ & _ & H4). rewrite (lexer_bind_Val _ _ _ _ _ E4).
  erewrite lexer_bind_Val by done. destruct (Z.eqb_spec (lx_token lx4) 44) as [T4|T4]; cbn [negb].
  - destruct (H4 ltac:(rewrite T4; done) ltac:(rewrite T4; done)) as [Hi4 Hn4].
    destruct (expect malloc Hmalloc B HB lx4 n4 Hi4) as (lx5 & n5 & E5 & Hs5 & Hn5 & _). rewrite (lexer_bind_Val _ _ _ _ _ E5).
    destruct (IH lx5 n5 _ Hs5 ltac:(lia) ltac:(lia) ltac:(lia) Hh') as (lx' & r & E & Hr').
    exists lx', r. split; [done|]. intros w Hw. destruct (Hr' w Hw) as [? ?]. split; [done|]. eapply idle_mono; [done|lia].
  - destruct (Z.eqb_spec (lx_token lx4) 125) as [T5|T5]; cbn [negb]; [|exists lx4, None; split; [done|apply result_none]].
    destruct (H4 ltac:(rewrite T5; done) ltac:(rewrite T5; done)) as [Hi4 Hn4].
    eexists lx4, _. split; [done|]. intros w [= <-]. split; [done|]. eapply idle_mono; [done|lia].
Qed.
End Step.

Lemma parse_safe fuel : ∀ lx n, scanned lx n → enough lx n fuel → (n ≤ N)%nat →
  ∃ lx' r, parse_value malloc flags fuel lx = Val (lx', r) ∧ result_ok lx' n r.
Proof.
  induction fuel as [|fuel IH]; intros lx n Hs Hf HnN; [by destruct Hf; lia|]. cbn [parse_value]. do 2 erewrite lexer_bind_Val by done.
  assert (∀ t, lx_token lx = t → t ≠ TOKEN_INVALID → t ≠ TOKEN_EOF → idle lx n ∧ val_ok lx) as Htok by (intros t; by eapply scanned_token).
  destruct (Z.eqb_spec (lx_token lx) TOKEN_STRING) as [T|_].
  { destruct (Htok _ T) as [Hi Hvo]; [done..|]. destruct (vo_string _ Hvo T) as (s & -> & Hc). eexists _, _. split; [done|].
    intros v [= <-]. split; [by apply clean_text_ok|done]. }
  destruct (Z.eqb_spec (lx_token lx) TOKEN_INTEGER) as [T|_].
  { destruct (Htok _ T) as [Hi Hvo]; [done..|]. destruct (vo_integer _ Hvo T) as (i & -> & Hr). eexists _, _. split; [done|].
    intros v [= <-]. split; [cbn [loaded]; blia|done]. }
  destruct (Z.eqb_spec (lx_token lx) TOKEN_REAL) as [T|_].
  { destruct (Htok _ T) as [Hi Hvo]; [done..|]. destruct (vo_real _ Hvo T) as (x & -> & Hr). eexists _, _. split; [done|].
    unfold json_real. destruct (is_finite binary64 x) eqn:Ef; [|apply result_none]. intros v [= <-]. split; [|done].
    cbn [loaded]. rewrite Ef. unfold is_u in Hr. blia. }
  destruct (Z.eqb_spec (lx_token lx) TOKEN_TRUE) as [T|_].
  { destruct (Htok _ T) as [Hi _]; [done..|]. eexists _, _. split; [done|]. by intros v [= <-]. }
  destruct (Z.eqb_spec (lx_token lx) TOKEN_FALSE) as [T|_].
  { destruct (Htok _ T) as [Hi _]; [done..|]. eexists _, _. split; [done|]. by intros v [= <-]. }
  destruct (Z.eqb_spec (lx_token lx) TOKEN_NULL) as [T|_].
  { destruct (Htok _ T) as [Hi _]; [done..|]. eexists _, _. split; [done|]. by intros v [= <-]. }
  destruct (Z.eqb_spec (lx_token lx) 123) as [T|_].
  { destruct (Htok _ T) as [Hi _]; [done..|]. destruct Hf as [_ Hf]. specialize (Hf ltac:(rewrite T; done) ltac:(rewrite T; done)).
    unfold parse_object. destruct (expect malloc Hmalloc B HB lx n Hi) as (lx1 & m & E1 & Hs1 & Hmn & Hm). rewrite (lexer_bind_Val _ _ _ _ _ E1).
    erewrite lexer_bind_Val by done. destruct (Z.eqb_spec (lx_token lx1) 125) as [T1|_].
    - destruct (Hm ltac:(rewrite T1; done) ltac:(rewrite T1; done)) as [Hi1 Hn1]. eexists _, _. split; [done|]. intros v [= <-].
      split; [done|]. eapply idle_mono; [done|lia].
    - destruct (object_safe _ fuel IH fuel lx1 m hashtable_init Hs1) as (lx' & r & E & Hr); [lia|lia|lia|done|].
      exists lx', r. split; [exact E|]. intros w Hw. destruct (Hr w Hw) as [? ?]. split; [done|]. by eapply idle_mono. }
  destruct (Z.eqb_spec (lx_token lx) 91) as [T|_].
  { destruct (Htok _ T) as [Hi _]; [done..|]. destruct Hf as [_ Hf]. specialize (Hf ltac:(rewrite T; done) ltac:(rewrite T; done)).
    unfold parse_array. destruct (expect malloc Hmalloc B HB lx n Hi) as (lx1 & m & E1 & Hs1 & Hmn & Hm). rewrite (lexer_bind_Val _ _ _ _ _ E1).
    erewrite lexer_bind_Val by done. destruct (Z.eqb_spec (lx_token lx1) 93) as [T1|_].
    - destruct (Hm ltac:(rewrite T1; done) ltac:(rewrite T1; done)) as [Hi1 Hn1]. eexists _, _. split; [done|]. intros v [= <-].
      split; [done|]. eapply idle_mono; [done|lia].
    - destruct (array_safe _ fuel IH fuel lx1 m [] Hs1) as (lx' & r & E & Hr);
        [lia|lia|split; [lia|]; intros H1 H2; destruct (Hm H1 H2); lia|simpl; lia|constructor|].
      exists lx', r. split; [exact E|]. intros w Hw. destruct (Hr w Hw) as [? ?]. split; [done|]. by eapply idle_mono. }
  eexists _, None. split; [done|apply result_none].
Qed.
End Parse.

Lemma load_any malloc buffer flags : malloc_succeeds malloc → Forall is_byte buffer → zlen buffer ≤ INT_MAX →
  ∃ r, json_loadb malloc buffer flags = Val r ∧ ∀ v, r = Some v → loaded v = true.
Proof.
  intros Hm Hb Hl. set (B := zlen buffer). pose proof (zlen_nonneg buffer). assert (0 ≤ B < 2 ^ 61) as HB by (unfold B, INT_MAX in *; lia).
  unfold json_loadb, lex_init. destruct (init_rep malloc Hm B HB) as (sb & -> & R). rewrite bind_Val. cbn [option_map]. rewrite bind_Val.
  set (lx := mkLex _ _ _ _). set (N := length buffer).
  assert (idle B lx N) as Hi.
  { left. eexists [], [], buffer, [], _, _. split; [|split; [done|simpl; lia]].
    split; [apply stream_init_at|done|done| |done|done]. change (zlen (@nil Z)) with 0. unfold B. lia. }
  unfold parse_json. destruct (expect malloc Hm B HB lx N Hi) as (lx1 & n & E1 & Hs & Hn & Hlt). rewrite (lexer_bind_Val _ _ _ _ _ E1).
  erewrite lexer_bind_Val by done. destruct (_ && _ && _); [by exists None|].
  destruct (parse_safe malloc Hm B HB flags N ltac:(unfold N, zlen in *; lia) (N + 2) lx1 n Hs) as (lx2 & r & E2 & Hr);
    [split; [lia|]; intros H1 H2; destruct (Hlt H1 H2); lia|done|].
  rewrite (lexer_bind_Val _ _ _ _ _ E2). destruct r as [v|]; [|by exists None]. destruct (Hr v eq_refl) as [Hv Hi2].
  destruct (Z.land flags JSON_DISABLE_EOF_CHECK =? 0).
  - destruct (expect malloc Hm B HB lx2 n Hi2) as (lx3 & m & E3 & _). rewrite (lexer_bind_Val _ _ _ _ _ E3).
    erewrite lexer_bind_Val by done. destruct (negb _); [by exists None|]. exists (Some v). split; [done|]. by intros w [= <-].
  - exists (Some v). split; [done|]. by intros w [= <-].
Qed.

(** C30 (type). Loading any bytes: whatever up to INT_MAX bytes and whatever flags
    [json_loadb] is given, it returns without a failed assertion, an access out of
    bounds or an endless loop when allocation succeeds, and a value it returns is
    well formed: its strings and keys are valid UTF-8 without NUL (escapes decoded,
    surrogate pairs joined), its integers fit 64 bits, its reals are finite and its
    keys differ. So [json_dumps] prints it again. *)
Theorem json_loadb_total (malloc : Z → bool) (buffer : bytes) (flags : Z) :
  malloc_succeeds malloc → Forall is_byte buffer → zlen buffer ≤ INT_MAX →
  json_loadb malloc buffer flags = Val None ∨
  ∃ v, json_loadb malloc buffer flags = Val (Some v) ∧ loaded v = true ∧
    (zlen (json_text JSON_ENCODE_ANY 0 v) < 2 ^ 61 →
     json_dumps malloc (Some v) JSON_ENCODE_ANY = Val (Some (json_text JSON_ENCODE_ANY 0 v))).
Proof.
  intros Hm Hb Hl. destruct (load_any malloc buffer flags Hm Hb Hl) as (r & -> & Hr). destruct r as [v|]; [right|by left].
  exists v. split; [done|]. split; [by apply Hr|]. intros Hz.
  apply dumps_text; [done|by apply loaded_printable, Hr|by rewrite orb_true_r|done].
Qed.

Lemma json_loadb_total_witness :
  let buffer := [91; 34; 92; 117; 48; 48; 101; 57; 34; 44; 49; 69; 43; 50; 93] in
  json_loadb (λ _, true) buffer 0 = Val None ∨
  ∃ v, json_loadb (λ _, true) buffer 0 = Val (Some v) ∧ loaded v = true ∧
    (zlen (json_text JSON_ENCODE_ANY 0 v) < 2 ^ 61 →
     json_dumps (λ _, true) (Some v) JSON_ENCODE_ANY = Val (Some (json_text JSON_ENCODE_ANY 0 v))).
Proof.
  apply (json_loadb_total (λ _, true) [91; 34; 92; 117; 48; 48; 101; 57; 34; 44; 49; 69; 43; 50; 93] 0);
    [done|repeat (constructor; [done|]); constructor|done].
Defined.

(** Text the reader accepts although the grammar of JSON does not: a NUL after a
    number or a literal is lost when it is put back. And a subnormal real that
    [json_dumps] prints is rejected. *)
Example load_oddities :
  json_loadb (λ _, true) [91; 49; 0; 93] 0 = Val (Some (JArray [JInteger 1])) ∧
  json_loadb (λ _, true) [91; 0; 93] 0 = Val None ∧
  json_dumps (λ _, true) (Some (JArray [JReal 1])) 0 = Val (Some (bytes_of "[4.9406564584124654e-324]")) ∧
  json_loadb (λ _, true) (bytes_of "[4.9406564584124654e-324]") 0 = Val None.
Proof. vm_compute. done. Qed.
