(* ===== verification/PbWire.v ===== *)
(** * Protobuf wire format ([src/src/pb-util.c], the field encoders of
    [src/src/pb-encode.c], the field decoders of [src/src/pb-decode.c])

    An output stream writes through [state] into [mem], the block it points
    into; a stream whose [callback] is NULL only counts. An input stream reads
    from a block given as an argument. A return value 0 is [false] or [None];
    the stream is returned in either case, since the callers look at it.
    [errmsg] is never read and is left out. *)

From S2P Require Import Prelude Float Jansson.
Local Open Scope Z_scope.

(** ** Types ([pb-util.c]) *)

Definition PB_uInt32 : Z := 1.
Definition PB_int32 : Z := 2.
Definition PB_sInt32 : Z := 3.
Definition PB_float : Z := 4.
Definition PB_double : Z := 5.
Definition PB_string : Z := 6.

(** [strcmp] of a NULL pointer is undefined. *)
Definition pb__get_type (type : option string) : exec Z :=
  match type with
  | None => UB
  | Some t => Val (
      if bool_decide (t = "uInt32") then PB_uInt32
      else if bool_decide (t = "int32") then PB_int32
      else if bool_decide (t = "sInt32") then PB_sInt32
      else if bool_decide (t = "float") then PB_float
      else if bool_decide (t = "double") then PB_double
      else if bool_decide (t = "string") then PB_string
      else 0)
  end.

Definition pb__get_constant_type (type : option string) : exec Z :=
  match type with
  | None => UB
  | Some t => Val (
      if bool_decide (t = "uInt32") || bool_decide (t = "sInt32") || bool_decide (t = "int32") then 0
      else if bool_decide (t = "double") then 1
      else if bool_decide (t = "string") then 2
      else if bool_decide (t = "float") then 5
      else 2)
  end.

(** ** Output streams *)

Record pb_ostream_t := mkO {
  callback : bool;
  state : Z;
  max_size : Z;
  bytes_written : Z;
  mem : bytes
}.

Definition pb_ostream_from_buffer (buf : bytes) (bufsize : Z) : pb_ostream_t :=
  mkO true 0 bufsize 0 buf.

Definition buf_write (s : pb_ostream_t) (buf : bytes) (count : Z) : exec (bool * pb_ostream_t) :=
  src ← memcpy_from buf 0 count;
  m ← memcpy_to (mem s) (state s) src;
  Val (true, mkO (callback s) (state s + count) (max_size s) (bytes_written s) m).

Definition pb_write (s : pb_ostream_t) (buf : bytes) (count : Z) : exec (bool * pb_ostream_t) :=
  let count_it (s : pb_ostream_t) : pb_ostream_t :=
    mkO (callback s) (state s) (max_size s) (u64 (bytes_written s + count)) (mem s) in
  if callback s then
    if u64 (bytes_written s + count) >? max_size s then Val (false, s)
    else
      '(ok, s) ← buf_write s buf count;
      if negb ok then Val (false, s) else Val (true, count_it s)
  else Val (true, count_it s).

(** [while (value)]; [buffer] has 10 bytes. *)
Fixpoint varint_loop (fuel : nat) (value i : Z) (buffer : bytes) : exec (Z * bytes) :=
  match fuel with
  | O => NoFuel
  | S fuel =>
      if value =? 0 then Val (i, buffer)
      else
        buffer ← memcpy_to buffer i [u8 (Z.lor (Z.land value 0x7F) 0x80)];
        varint_loop fuel (Z.shiftr value 7) (i + 1) buffer
  end.

Definition pb_encode_varint (s : pb_ostream_t) (value : Z) : exec (bool * pb_ostream_t) :=
  if value =? 0 then pb_write s [0] 1
  else
    '(i, buffer) ← varint_loop 11 value 0 (zeros 10);
    b ← rd buffer (i - 1);
    buffer ← memcpy_to buffer (i - 1) [Z.land b 0x7F];
    pb_write s buffer i.

(** [value << 1] of a negative number is taken as the compilers do. *)
Definition pb_encode_svarint (s : pb_ostream_t) (value : Z) : exec (bool * pb_ostream_t) :=
  let zigzagged :=
    if value <? 0 then u64 (Z.lnot (s64 (Z.shiftl value 1)))
    else u64 (s64 (Z.shiftl value 1)) in
  pb_encode_varint s zigzagged.

(** The bytes of an [n]-byte little-endian variable. *)
Fixpoint le_bytes (n : nat) (v : Z) : bytes :=
  match n with
  | O => []
  | S n => v mod 256 :: le_bytes n (v / 256)
  end.

Definition pb_encode_fixed32 (s : pb_ostream_t) (value : Z) : exec (bool * pb_ostream_t) :=
  pb_write s (le_bytes 4 value) 4.

Definition pb_encode_fixed64 (s : pb_ostream_t) (value : Z) : exec (bool * pb_ostream_t) :=
  pb_write s (le_bytes 8 value) 8.

Definition pb_encode_tag (s : pb_ostream_t) (wiretype field_number : Z) : exec (bool * pb_ostream_t) :=
  let tag := Z.lor wiretype (u32 (Z.shiftl field_number 3)) in
  pb_encode_varint s tag.

Definition pb_encode_tag_for_field (s : pb_ostream_t) (field : option json_t)
  : exec (bool * pb_ostream_t) :=
  let type := json_object_get field "type" in
  let tag := json_object_get field "tag" in
  wiretype ← pb__get_constant_type (json_string_value type);
  field_number ← int_of_double 0 (2 ^ 32 - 1) (json_number_value tag);
  pb_encode_tag s wiretype field_number.

Definition pb_encode_string (s : pb_ostream_t) (buffer : bytes) (size : Z)
  : exec (bool * pb_ostream_t) :=
  '(ok, s) ← pb_encode_varint s size;
  if negb ok then Val (false, s) else pb_write s buffer size.

(** ** Input streams *)

Record pb_istream_t := mkI { istate : Z; bytes_left : Z }.

Definition pb_istream_from_buffer (bufsize : Z) : pb_istream_t := mkI 0 bufsize.

Section Read.
Context (buf : bytes).

Definition buf_read (s : pb_istream_t) (count : Z) : exec (bytes * pb_istream_t) :=
  bs ← memcpy_from buf (istate s) count;
  Val (bs, mkI (istate s + count) (bytes_left s)).

Definition pb_read (s : pb_istream_t) (count : Z) : exec (option bytes * pb_istream_t) :=
  if bytes_left s <? count then Val (None, s)
  else
    '(bs, s) ← buf_read s count;
    Val (Some bs, mkI (istate s) (bytes_left s - count)).

(** [while (bitpos < 64 && pb_read(stream, &byte, 1))]: ten rounds at most. *)
Fixpoint varint_read (fuel : nat) (bitpos dest : Z) (s : pb_istream_t)
  : exec (option Z * pb_istream_t) :=
  match fuel with
  | O => NoFuel
  | S fuel =>
      if negb (bitpos <? 64) then Val (None, s)
      else
        '(r, s) ← pb_read s 1;
        match r with
        | None => Val (None, s)
        | Some bs =>
            byte ← rd bs 0;
            let dest := Z.lor dest (u64 (Z.shiftl (Z.land byte 0x7F) bitpos)) in
            if Z.land byte 0x80 =? 0 then Val (Some dest, s)
            else varint_read fuel (bitpos + 7) dest s
        end
  end.

Definition pb_decode_varint (s : pb_istream_t) : exec (option Z * pb_istream_t) :=
  varint_read 11 0 0 s.

Definition pb_decode_varint32 (s : pb_istream_t) : exec (option Z * pb_istream_t) :=
  '(r, s) ← pb_decode_varint s;
  Val (option_map u32 r, s).

Definition pb_decode_svarint (s : pb_istream_t) : exec (option Z * pb_istream_t) :=
  '(r, s) ← pb_decode_varint s;
  match r with
  | None => Val (None, s)
  | Some value =>
      let dest :=
        if negb (Z.land value 1 =? 0) then s64 (u64 (Z.lnot (Z.shiftr value 1)))
        else s64 (Z.shiftr value 1) in
      Val (Some dest, s)
  end.

(** The value of a little-endian variable. *)
Fixpoint le_value (bs : bytes) : Z :=
  match bs with
  | [] => 0
  | b :: bs => b + 256 * le_value bs
  end.

Definition pb_decode_fixed32 (s : pb_istream_t) : exec (option Z * pb_istream_t) :=
  '(r, s) ← pb_read s 4;
  Val (option_map le_value r, s).

Definition pb_decode_fixed64 (s : pb_istream_t) : exec (option Z * pb_istream_t) :=
  '(r, s) ← pb_read s 8;
  Val (option_map le_value r, s).

Definition pb_decode_strlen (s : pb_istream_t) : exec (option Z * pb_istream_t) :=
  pb_decode_varint32 s.

(** [dest] has [cap] bytes; the terminator is written at [dest + size] also
    when the read fails. *)
Definition pb_decode_string (cap : Z) (s : pb_istream_t) (size : Z)
  : exec (option bytes * pb_istream_t) :=
  '(r, s) ← pb_read s size;
  _ ← require (match r with Some bs => zlen bs <=? cap | None => true end);
  _ ← require (size <? cap);
  Val (r, s).

(** What [pb_decode_tag] reports: a tag, the end of the message, an error. *)
Inductive tag_result := Tag (wire_type tag : Z) | TagEof | TagError.

Definition pb_decode_tag (s : pb_istream_t) : exec (tag_result * pb_istream_t) :=
  '(r, s) ← pb_decode_varint32 s;
  match r with
  | None => Val (if bytes_left s =? 0 then TagEof else TagError, s)
  | Some temp =>
      if temp =? 0 then Val (TagEof, s)
      else Val (Tag (Z.land temp 7) (Z.shiftr temp 3), s)
  end.

(** The substream, if the length can be read and fits. *)
Definition pb_make_string_substream (s : pb_istream_t) : exec (option pb_istream_t * pb_istream_t) :=
  '(r, s) ← pb_decode_varint32 s;
  match r with
  | None => Val (None, s)
  | Some size =>
      if bytes_left s <? size then Val (None, s)
      else Val (Some (mkI (istate s) size), mkI (istate s) (bytes_left s - size))
  end.

Definition pb_close_string_substream (s substream : pb_istream_t) : pb_istream_t :=
  mkI (istate substream) (bytes_left s).
End Read.

(** ** The bytes of each field *)

(** Base-128 digits, low first, the high bit set on all but the last. *)
Fixpoint varint_bytes (n : nat) (v : Z) : bytes :=
  match n with
  | O => []
  | S n => if v <? 128 then [v] else v mod 128 + 128 :: varint_bytes n (v / 128)
  end.

Definition varint (v : Z) : bytes := varint_bytes 10 v.

Definition zigzag (v : Z) : Z := if v <? 0 then - 2 * v - 1 else 2 * v.

(** [v] has at most [n] digits. *)
Definition digits_ok (n : nat) (v : Z) : Prop := 0 ≤ v < 128 ^ Z.of_nat n.

Lemma digits_ok_S n v : digits_ok (S n) v → 0 ≤ v / 128 ∧ digits_ok n (v / 128).
Proof.
  unfold digits_ok. intros [H1 H2]. rewrite Nat2Z.inj_succ, Z.pow_succ_r in H2 by lia.
  assert (0 ≤ v / 128) by (apply Z.div_pos; lia).
  split; [done|]. split; [done|]. apply Z.div_lt_upper_bound; lia.
Qed.

Lemma u64_digits v : is_u 64 v → digits_ok 10 v.
Proof. unfold is_u, digits_ok. change (128 ^ Z.of_nat 10) with (2 ^ 70). intros. int_solve. Qed.

Lemma varint_len n v : (length (varint_bytes n v) ≤ n)%nat.
Proof. revert v. induction n as [|n IH]; intros v; simpl; [lia|]. case_match; simpl; [lia|]. specialize (IH (v / 128)). lia. Qed.

Lemma varint_zlen v : zlen (varint v) ≤ 10.
Proof. unfold zlen, varint. pose proof (varint_len 10 v). lia. Qed.

Lemma varint_pos v : 0 < zlen (varint v).
Proof. unfold varint, zlen. cbn [varint_bytes]. case_match; simpl; lia. Qed.

Lemma varint_is_bytes n v : 0 ≤ v → Forall is_byte (varint_bytes n v).
Proof.
  revert v. induction n as [|n IH]; intros v Hv; simpl; [constructor|].
  destruct (Z.ltb_spec v 128).
  - constructor; [int_solve|constructor].
  - constructor; [|apply IH, Z.div_pos; lia]. pose proof (Z.mod_pos_bound v 128). int_solve.
Qed.

(** What [while (value)] leaves in the buffer: every digit has its high bit. *)
Fixpoint high_digits (n : nat) (v : Z) : bytes :=
  match n with
  | O => []
  | S n => if v =? 0 then [] else v mod 128 + 128 :: high_digits n (v / 128)
  end.

Lemma land_128 b : 0 ≤ b < 256 → Z.land b 0x80 = if b <? 128 then 0 else 128.
Proof.
  intros Hb. apply Z.bits_inj'. intros i Hi. rewrite Z.land_spec.
  change 0x80 with (2 ^ 7). rewrite Z.pow2_bits_eqb by lia.
  destruct (Z.eqb_spec 7 i) as [<-|Hne].
  - rewrite andb_true_r. apply Z.b2z_inj. rewrite Z.testbit_spec' by lia. change (2 ^ 7) with 128.
    destruct (Z.ltb_spec b 128); [by rewrite Z.div_small by lia|].
    replace (b / 128) with 1; [done|]. apply Z.div_unique with (b - 128); lia.
  - rewrite andb_false_r. destruct (_ <? _); [by rewrite Z.bits_0|].
    change 128 with (2 ^ 7). by rewrite Z.pow2_bits_false by lia.
Qed.

Lemma lor_128 d : 0 ≤ d < 128 → Z.lor d 0x80 = d + 128.
Proof.
  intros Hd. rewrite Z.lor_comm. etransitivity; [apply (lor_low_high 7 1 d); [lia|done]|lia].
Qed.

Lemma high_digit v : 0 ≤ v → u8 (Z.lor (Z.land v 0x7F) 0x80) = v mod 128 + 128.
Proof.
  intros Hv. pose proof (Z.mod_pos_bound v 128). rewrite land_127, lor_128 by lia.
  apply wrap_small. int_solve.
Qed.

Lemma varint_loop_eq n : ∀ fuel v pre,
  digits_ok n v → (n < fuel)%nat → (length pre + n ≤ 10)%nat →
  varint_loop fuel v (zlen pre) (pre ++ zeros (10 - zlen pre)) =
    Val (zlen pre + zlen (high_digits n v),
         pre ++ high_digits n v ++ zeros (10 - zlen pre - zlen (high_digits n v))).
Proof.
  induction n as [|n IH]; intros [|fuel] v pre Hd Hf Hl; [lia| |lia|]; cbn [varint_loop high_digits].
  - unfold digits_ok in Hd. replace v with 0 by lia. simpl. by rewrite zlen_nil, !Z.add_0_r, Z.sub_0_r.
  - destruct (Z.eqb_spec v 0) as [->|Hv]; [by rewrite zlen_nil, !Z.add_0_r, Z.sub_0_r|].
    pose proof (digits_ok_S n v Hd) as [Hv' Hd']. destruct Hd as [Hv0 _].
    assert (zlen pre = Z.of_nat (length pre)) as Hpre by done.
    replace (zeros (10 - zlen pre)) with ([0] ++ zeros (9 - zlen pre))
      by (unfold zeros; replace (Z.to_nat (10 - zlen pre)) with (S (Z.to_nat (9 - zlen pre))) by lia; done).
    rewrite memcpy_to_middle by done. rewrite bind_Val, high_digit, Z.shiftr_div_pow2 by lia.
    change (2 ^ 7) with 128. set (d := v mod 128 + 128).
    specialize (IH fuel (v / 128) (pre ++ [d]) Hd'). rewrite zlen_app in IH.
    change (zlen [d]) with 1 in IH. rewrite length_app in IH. simpl in IH.
    replace (9 - zlen pre) with (10 - (zlen pre + 1)) by lia.
    rewrite app_assoc, IH by lia. rewrite zlen_cons, <- app_assoc. cbn [app].
    f_equal. f_equal; [lia|]. do 4 f_equal. lia.
Qed.

Lemma high_digits_last n : ∀ v, digits_ok n v → 0 < v →
  ∃ l b, high_digits n v = l ++ [b + 128] ∧ varint_bytes n v = l ++ [b] ∧ 0 ≤ b < 128.
Proof.
  induction n as [|n IH]; intros v Hd Hv; [unfold digits_ok in Hd; simpl in Hd; lia|].
  pose proof (digits_ok_S n v Hd) as [Hv' Hd']. cbn [high_digits varint_bytes].
  rewrite (proj2 (Z.eqb_neq v 0)) by lia. destruct (Z.ltb_spec v 128) as [Hs|Hs].
  - exists [], v. rewrite Z.mod_small, (Z.div_small v 128) by lia.
    split; [by destruct n|]. split; [done|lia].
  - destruct (IH (v / 128) Hd') as (l & b & E1 & E2 & Hb).
    { apply Z.div_str_pos. lia. }
    exists (v mod 128 + 128 :: l), b. by rewrite E1, E2.
Qed.

(** ** Encoders emit bytes *)

Definition push (s : pb_ostream_t) (bs : bytes) : pb_ostream_t :=
  if callback s then
    mkO true (state s + zlen bs) (max_size s) (bytes_written s + zlen bs)
      (take (Z.to_nat (state s)) (mem s) ++ bs
         ++ drop (Z.to_nat (state s) + length bs)%nat (mem s))
  else mkO false (state s) (max_size s) (bytes_written s + zlen bs) (mem s).

(** A stream whose room lies in its block. *)
Record owf (s : pb_ostream_t) : Prop := {
  owf_written : 0 ≤ bytes_written s;
  owf_max : max_size s < 2 ^ 63;
  owf_room : callback s = true →
    0 ≤ state s ∧ bytes_written s ≤ max_size s ∧
    state s + (max_size s - bytes_written s) ≤ zlen (mem s)
}.

Definition fits (s : pb_ostream_t) (bs : bytes) : bool :=
  negb (callback s) || (bytes_written s + zlen bs <=? max_size s).

(** [E] appends [bs], or returns 0 when there is no room for them. *)
Definition emits (E : pb_ostream_t → exec (bool * pb_ostream_t)) (bs : bytes) : Prop :=
  ∀ s, owf s → bytes_written s + zlen bs < 2 ^ 63 →
    if fits s bs then E s = Val (true, push s bs)
    else ∃ s', E s = Val (false, s').

Lemma push_owf s bs :
  owf s → fits s bs = true → owf (push s bs).
Proof.
  intros [H1 H2 H3] Hf. unfold fits in Hf. unfold push. pose proof (zlen_nonneg bs).
  destruct (callback s) eqn:Ec.
  - destruct H3 as (Hs & Hb & Hr); [done|]. simpl in Hf. b2p.
    split; cbn [bytes_written max_size callback state mem]; [lia|lia|intros _].
    rewrite !zlen_app, zlen_take, zlen_drop. unfold zlen in *. lia.
  - split; cbn [bytes_written max_size callback state mem]; [lia|lia|done].
Qed.

Lemma push_nil s : push s [] = s.
Proof.
  unfold push. rewrite zlen_nil, !Z.add_0_r. simpl. rewrite Nat.add_0_r, take_drop.
  by destruct s as [[] ????].
Qed.

Lemma push_app s b1 b2 :
  owf s → fits s b1 = true → push (push s b1) b2 = push s (b1 ++ b2).
Proof.
  intros [H1 H2 H3] Hf. unfold fits in Hf. unfold push. destruct (callback s) eqn:Ec.
  - destruct H3 as (Hs & Hb & Hr); [done|]. simpl in Hf. b2p. cbn [callback state max_size bytes_written mem].
    rewrite zlen_app. f_equal; [lia|lia|].
    assert (length (take (Z.to_nat (state s)) (mem s)) = Z.to_nat (state s)) as Ht
      by (rewrite length_take; unfold zlen in *; lia).
    set (T := take (Z.to_nat (state s)) (mem s)) in *.
    replace (Z.to_nat (state s + zlen b1)) with (length (T ++ b1))
      by (rewrite length_app; unfold zlen in *; lia).
    rewrite (app_assoc T b1 (drop _ _)), take_app_length, <- drop_drop, drop_app_length, drop_drop.
    rewrite <- !app_assoc. do 4 f_equal. rewrite length_app. lia.
  - cbn [callback state max_size bytes_written mem]. rewrite zlen_app. f_equal. lia.
Qed.

Lemma emits_nil : emits (λ s, Val (true, s)) [].
Proof.
  intros s [H1 H2 H3] Hb. rewrite push_nil. unfold fits. rewrite zlen_nil, Z.add_0_r.
  destruct (callback s); [|done]. simpl. destruct (Z.leb_spec (bytes_written s) (max_size s)); [done|].
  destruct H3 as (_ & ? & _); [done|lia].
Qed.

(** [if (!E1) return 0; E2]. *)
Lemma emits_seq E1 E2 b1 b2 :
  emits E1 b1 → emits E2 b2 →
  emits (λ s, '(ok, s) ← E1 s; if negb ok then Val (false, s) else E2 s) (b1 ++ b2).
Proof.
  intros HE1 HE2 s Hs Hb. rewrite zlen_app in Hb. pose proof (zlen_nonneg b1). pose proof (zlen_nonneg b2).
  specialize (HE1 s Hs ltac:(lia)). destruct (fits s b1) eqn:F1.
  - rewrite HE1, bind_Val. cbn [negb]. specialize (HE2 (push s b1) (push_owf s b1 Hs F1)).
    rewrite push_app in HE2 by done.
    assert (fits (push s b1) b2 = fits s (b1 ++ b2)) as Ef.
    { unfold fits, push. destruct (callback s); simpl; [|done]. rewrite zlen_app. f_equal. lia. }
    rewrite Ef in HE2. apply HE2. unfold push. destruct (callback s); simpl; lia.
  - destruct HE1 as [s' ->]. rewrite bind_Val. cbn [negb].
    assert (fits s (b1 ++ b2) = false) as ->; [|by eexists].
    unfold fits in *. destruct (callback s); [|done]. simpl in *. apply Z.leb_gt. rewrite zlen_app. blia.
Qed.

Lemma emits_ext E E' bs : (∀ s, E s = E' s) → emits E bs → emits E' bs.
Proof. intros HE H s. rewrite <- HE. apply H. Qed.

Lemma pb_write_emits buf bs n : n = zlen bs → (∃ post, buf = bs ++ post) →
  emits (λ s, pb_write s buf n) bs.
Proof.
  intros -> [post ->] s [H1 H2 H3] Hb. pose proof (zlen_nonneg bs).
  unfold pb_write, fits, push. rewrite (wrap_small 64) by int_solve.
  destruct (callback s) eqn:Ec; cbn [negb orb].
  - destruct H3 as (Hs & Hw & Hr); [done|]. rewrite Z.gtb_ltb, Z.ltb_antisym.
    destruct (Z.leb_spec (bytes_written s + zlen bs) (max_size s)); cbn [negb]; [|by eexists].
    unfold buf_write. rewrite (memcpy_from_middle [] bs post), bind_Val by done.
    rewrite memcpy_to_eq, bind_Val by lia. rewrite bind_Val. cbn [negb].
    cbn [callback state max_size bytes_written mem]. rewrite Ec, wrap_small by int_solve. done.
  - done.
Qed.

Lemma varint_emits v : is_u 64 v → emits (λ s, pb_encode_varint s v) (varint v).
Proof.
  intros Hv. unfold pb_encode_varint. destruct (Z.eqb_spec v 0) as [->|Hv0].
  - apply (pb_write_emits [0] [0] 1); [done|by exists []].
  - destruct (high_digits_last 10 v (u64_digits v Hv)) as (l & b & E1 & E2 & Hb); [int_solve|].
    eapply emits_ext; [|apply (pb_write_emits (varint v ++ zeros (10 - zlen (varint v))) (varint v) _ eq_refl);
      by eexists]. intros s.
    pose proof (varint_loop_eq 10 11 v [] (u64_digits v Hv)) as HL.
    change (zlen []) with 0 in HL. cbn [app length] in HL. rewrite Z.sub_0_r, Z.add_0_l in HL.
    rewrite HL, bind_Val by lia. cbv beta iota.
    assert (zlen (high_digits 10 v) = zlen (varint v)) as Hz
      by (unfold varint; rewrite E1, E2, !zlen_app; done).
    rewrite Hz. set (Z0 := zeros (10 - zlen (varint v))).
    assert (zlen (varint v) - 1 = zlen l) as Hl by (unfold varint; rewrite E2, zlen_app; zl).
    rewrite Hl, E1, <- app_assoc. 
    rewrite (rd_middle l Z0 (b + 128) (zlen l) eq_refl : rd (l ++ [b + 128] ++ Z0) (zlen l) = _), bind_Val.
    rewrite (memcpy_to_middle l [b + 128] Z0), bind_Val by done.
    rewrite land_127. replace ((b + 128) mod 128) with b
      by (rewrite <- (Z.mul_1_l 128) at 1; rewrite Z_mod_plus_full, Z.mod_small; lia).
    f_equal. unfold varint. by rewrite E2, <- app_assoc.
Qed.

Lemma zigzag_u64 v : is_s 64 v → is_u 64 (zigzag v).
Proof. unfold zigzag. destruct (Z.ltb_spec v 0); int_solve. Qed.

Lemma svarint_emits v : is_s 64 v → emits (λ s, pb_encode_svarint s v) (varint (zigzag v)).
Proof.
  intros Hv. unfold pb_encode_svarint.
  replace (if v <? 0 then u64 (Z.lnot (s64 (Z.shiftl v 1))) else u64 (s64 (Z.shiftl v 1)))
    with (zigzag v); [by apply varint_emits, zigzag_u64|].
  unfold zigzag. rewrite Z.shiftl_mul_pow2 by lia. change (2 ^ 1) with 2. unfold swrap, wrap, Z.lnot.
  change (2 ^ (64 - 1)) with (2 ^ 63). unfold is_s in Hv. change (2 ^ (64 - 1)) with (2 ^ 63) in Hv.
  destruct (Z.ltb_spec v 0).
  - destruct (Z.ltb_spec (v * 2) (- 2 ^ 63)).
    + replace (v * 2 + 2 ^ 63) with (v * 2 + 2 ^ 63 + 2 ^ 64 + (-1) * 2 ^ 64) by lia.
      rewrite Z_mod_plus_full, (Z.mod_small (v * 2 + _ + _)) by lia.
      replace (Z.pred (- (v * 2 + 2 ^ 63 + 2 ^ 64 - 2 ^ 63))) with (-2 * v - 1 + (-1) * 2 ^ 64) by lia.
      rewrite Z_mod_plus_full, Z.mod_small; lia.
    + rewrite (Z.mod_small (v * 2 + 2 ^ 63)) by lia. rewrite Z.mod_small; lia.
  - destruct (Z.ltb_spec (v * 2) (2 ^ 63)).
    + rewrite (Z.mod_small (v * 2 + 2 ^ 63)) by lia. rewrite Z.mod_small; lia.
    + replace (v * 2 + 2 ^ 63) with (v * 2 - 2 ^ 63 + 1 * 2 ^ 64) by lia.
      rewrite Z_mod_plus_full, (Z.mod_small (v * 2 - 2 ^ 63)) by lia.
      replace (v * 2 - 2 ^ 63 - 2 ^ 63) with (2 * v + (-1) * 2 ^ 64) by lia.
      rewrite Z_mod_plus_full, Z.mod_small; lia.
Qed.

Lemma le_bytes_len n v : length (le_bytes n v) = n.
Proof. revert v. induction n; simpl; auto. Qed.

Lemma le_bytes_byte n v : Forall is_byte (le_bytes n v).
Proof. revert v. induction n as [|n IH]; intros v; constructor; [|done]. pose proof (Z.mod_pos_bound v 256). int_solve. Qed.

Lemma le_value_bytes n v : 0 ≤ v < 256 ^ Z.of_nat n → le_value (le_bytes n v) = v.
Proof.
  revert v. induction n as [|n IH]; intros v Hv; cbn [le_bytes le_value]; [change (256 ^ Z.of_nat 0) with 1 in Hv; lia|].
  rewrite Nat2Z.inj_succ, Z.pow_succ_r in Hv by lia. rewrite IH.
  - pose proof (Z.div_mod v 256). lia.
  - split; [apply Z.div_pos; lia|apply Z.div_lt_upper_bound; lia].
Qed.

Lemma le_value_range n bs : length bs = n → Forall is_byte bs → 0 ≤ le_value bs < 256 ^ Z.of_nat n.
Proof.
  intros <- Hb. induction Hb as [|b bs Hb Hbs IH]; [done|]. cbn [le_value length].
  rewrite Nat2Z.inj_succ, Z.pow_succ_r by lia. int_solve.
Qed.

Lemma fixed32_emits v : emits (λ s, pb_encode_fixed32 s v) (le_bytes 4 v).
Proof. apply pb_write_emits; [unfold zlen; by rewrite le_bytes_len|exists []; by rewrite app_nil_r]. Qed.

Lemma fixed64_emits v : emits (λ s, pb_encode_fixed64 s v) (le_bytes 8 v).
Proof. apply pb_write_emits; [unfold zlen; by rewrite le_bytes_len|exists []; by rewrite app_nil_r]. Qed.

Lemma string_emits bs buf n :
  n = zlen bs → n < 2 ^ 63 → (∃ post, buf = bs ++ post) →
  emits (λ s, pb_encode_string s buf n) (varint n ++ bs).
Proof.
  intros -> Hn Hp. apply (emits_seq (λ s, pb_encode_varint s (zlen bs)) (λ s, pb_write s buf (zlen bs))).
  - apply varint_emits. pose proof (zlen_nonneg bs). int_solve.
  - by apply pb_write_emits.
Qed.

(** ** Decoders read them back *)

(** [D] takes [bs] off the stream and returns [r]. *)
Definition reads {A} (D : bytes → pb_istream_t → exec (option A * pb_istream_t)) (bs : bytes) (r : A) : Prop :=
  ∀ pre post left, zlen bs ≤ left →
    D (pre ++ bs ++ post) (mkI (zlen pre) left) =
      Val (Some r, mkI (zlen pre + zlen bs) (left - zlen bs)).

Lemma pb_read_reads n bs : n = zlen bs → reads (λ buf s, pb_read buf s n) bs bs.
Proof.
  intros -> pre post left Hl. unfold pb_read, buf_read. cbn [bytes_left istate].
  rewrite (proj2 (Z.ltb_ge left (zlen bs))) by lia.
  rewrite memcpy_from_middle by done. rewrite !bind_Val. done.
Qed.

Lemma reads_bind {A B} (D : bytes → pb_istream_t → exec (option A * pb_istream_t)) bs (r : A) (f : A → B) :
  reads D bs r → reads (λ buf s, '(r, s) ← D buf s; Val (option_map f r, s)) bs (f r).
Proof. intros H pre post left Hl. by rewrite (H pre post left Hl), bind_Val. Qed.

(** One digit at bit position [7 k] of an accumulator with [7 k] bits. *)
Lemma add_digit d dest bitpos :
  0 ≤ bitpos → 0 ≤ dest < 2 ^ bitpos → 0 ≤ d → d * 2 ^ bitpos < 2 ^ 64 →
  Z.lor dest (u64 (Z.shiftl d bitpos)) = dest + d * 2 ^ bitpos.
Proof.
  intros Hp Hd H0 Hlt. rewrite Z.shiftl_mul_pow2, wrap_small by (try split; lia).
  rewrite Z.lor_comm, lor_low_high by (done || lia). lia.
Qed.

Lemma varint_read_reads n : ∀ fuel v bitpos dest,
  digits_ok n v → (n < fuel)%nat → 0 ≤ bitpos → bitpos + 7 * Z.of_nat n ≤ 70 →
  0 ≤ dest < 2 ^ bitpos → dest + v * 2 ^ bitpos < 2 ^ 64 → (n ≠ 0)%nat →
  reads (λ buf s, varint_read buf fuel bitpos dest s) (varint_bytes n v) (dest + v * 2 ^ bitpos).
Proof.
  induction n as [|n IH]; intros [|fuel] v bitpos dest Hd Hf Hp Hp' Hdest Hv Hn pre post left Hl;
    [lia..|]. cbn [varint_read]. rewrite (proj2 (Z.ltb_lt bitpos 64)) by lia. cbn [negb].
  pose proof (digits_ok_S n v Hd) as [Hv' Hd']. destruct Hd as [Hv0 _].
  assert (0 < 2 ^ bitpos) by (apply Z.pow_pos_nonneg; lia).
  cbn [varint_bytes] in *. destruct (Z.ltb_spec v 128) as [Hs|Hs].
  - rewrite (pb_read_reads 1 [v] eq_refl pre post left Hl), bind_Val. cbv beta iota.
    change (rd [v] 0) with (Val v). rewrite bind_Val, land_127, Z.mod_small, land_128 by lia.
    rewrite (proj2 (Z.ltb_lt v 128)) by lia. cbn [Z.eqb].
    rewrite add_digit by lia. done.
  - set (d := v mod 128). pose proof (Z.mod_pos_bound v 128) as Hdb. fold d in Hdb.
    pose proof (Z.div_mod v 128 ltac:(lia)) as Hdm. fold d in Hdm.
    rewrite zlen_cons in *. pose proof (zlen_nonneg (varint_bytes n (v / 128))).
    change ((d + 128 :: varint_bytes n (v / 128)) ++ post)
      with ([d + 128] ++ varint_bytes n (v / 128) ++ post).
    rewrite (pb_read_reads 1 [d + 128] eq_refl pre _ left) by (change (zlen [d + 128]) with 1; lia).
    rewrite bind_Val. cbv beta iota. change (zlen [d + 128]) with 1.
    change (rd [d + 128] 0) with (Val (d + 128)). rewrite bind_Val, land_127, land_128 by lia.
    replace ((d + 128) mod 128) with d
      by (rewrite <- (Z.mul_1_l 128) at 1; rewrite Z_mod_plus_full, Z.mod_small; lia).
    rewrite (proj2 (Z.ltb_ge (d + 128) 128)) by lia. cbn [Z.eqb].
    assert (1 ≤ v / 128) by (apply Z.div_le_lower_bound; lia).
    assert (2 ^ (bitpos + 7) = 2 ^ bitpos * 128) as Epow by (by rewrite Z.pow_add_r by lia).
    rewrite add_digit by nia.
    destruct n as [|n']; [unfold digits_ok in Hd'; change (128 ^ Z.of_nat 0) with 1 in Hd'; lia|].
    specialize (IH fuel (v / 128) (bitpos + 7) (dest + d * 2 ^ bitpos) Hd' ltac:(lia) ltac:(lia) ltac:(lia)).
    replace (pre ++ [d + 128] ++ varint_bytes (S n') (v / 128) ++ post)
      with ((pre ++ [d + 128]) ++ varint_bytes (S n') (v / 128) ++ post) by (by rewrite <- app_assoc).
    replace (zlen pre + 1) with (zlen (pre ++ [d + 128])) by (by rewrite zlen_app).
    rewrite IH; [|rewrite Epow; nia|rewrite Epow; nia|done|lia].
    f_equal. f_equal; [f_equal; rewrite Epow; nia|]. rewrite zlen_app. change (zlen [d + 128]) with 1.
    f_equal; lia.
Qed.

Lemma varint_reads v : is_u 64 v → reads pb_decode_varint (varint v) v.
Proof.
  intros Hv. unfold is_u in Hv.
  pose proof (varint_read_reads 10 11 v 0 0 (u64_digits v Hv) ltac:(lia) ltac:(lia) ltac:(lia)
    ltac:(lia) ltac:(rewrite Z.pow_0_r; lia) ltac:(lia)) as H.
  by replace (0 + v * 2 ^ 0) with v in H by (rewrite Z.pow_0_r; lia).
Qed.

Lemma varint32_reads v : is_u 32 v → reads pb_decode_varint32 (varint v) v.
Proof.
  intros Hv pre post left Hl. rewrite <- (wrap_small 32 v) at 2 by done.
  apply (reads_bind pb_decode_varint (varint v) v u32); [|done]. apply varint_reads. int_solve.
Qed.

Lemma svarint_reads v : is_s 64 v → reads pb_decode_svarint (varint (zigzag v)) v.
Proof.
  intros Hv pre post left Hl. unfold pb_decode_svarint.
  rewrite (varint_reads _ (zigzag_u64 v Hv)), bind_Val by done. cbv beta iota.
  do 3 f_equal. change 1 with (Z.ones 1) at 1. rewrite Z.land_ones by lia. change (2 ^ 1) with 2.
  rewrite Z.shiftr_div_pow2 by lia. change (2 ^ 1) with 2. unfold zigzag.
  destruct (Z.ltb_spec v 0).
  - replace (-2 * v - 1) with (1 + (- v - 1) * 2) by lia. rewrite Z_mod_plus_full, Z.div_add by lia.
    change (1 mod 2) with 1. change (1 / 2) with 0. cbn [Z.eqb negb]. unfold Z.lnot.
    replace (Z.pred (- (0 + (- v - 1)))) with v by lia.
    unfold swrap, wrap. rewrite <- Zplus_mod_idemp_l, Zmod_mod, Zplus_mod_idemp_l.
    apply (swrap_small 64); [lia|done].
  - replace (2 * v) with (0 + v * 2) by lia. rewrite Z_mod_plus_full, Z.div_add by lia.
    change (0 mod 2) with 0. change (0 / 2) with 0. cbn [Z.eqb negb]. apply swrap_small; [lia|done].
Qed.

Lemma fixed32_reads v : is_u 32 v → reads pb_decode_fixed32 (le_bytes 4 v) v.
Proof.
  intros Hv pre post left Hl. rewrite <- (le_value_bytes 4 v) at 2 by (change (256 ^ Z.of_nat 4) with (2 ^ 32); done).
  by apply (reads_bind (λ buf s, pb_read buf s 4) _ (le_bytes 4 v) le_value); [apply pb_read_reads|].
Qed.

Lemma fixed64_reads v : is_u 64 v → reads pb_decode_fixed64 (le_bytes 8 v) v.
Proof.
  intros Hv pre post left Hl. rewrite <- (le_value_bytes 8 v) at 2 by (change (256 ^ Z.of_nat 8) with (2 ^ 64); done).
  by apply (reads_bind (λ buf s, pb_read buf s 8) _ (le_bytes 8 v) le_value); [apply pb_read_reads|].
Qed.

(** A string of [size] bytes into a block of [size + 1]. *)
Lemma string_reads cap n bs :
  n = zlen bs → n < cap → reads (λ buf s, pb_decode_string buf cap s n) bs bs.
Proof.
  intros -> Hc pre post left Hl. unfold pb_decode_string.
  rewrite (pb_read_reads _ bs eq_refl pre post left Hl), bind_Val. cbv beta iota.
  rewrite !require_true, !bind_Val by lia. done.
Qed.

(** The tag word of a field with a number below [2^29]. *)
Definition tag_word (wiretype number : Z) : Z := Z.lor wiretype (u32 (Z.shiftl number 3)).

Lemma tag_word_eq wt n : 0 ≤ wt < 8 → 0 ≤ n < 2 ^ 29 → tag_word wt n = n * 8 + wt ∧ is_u 32 (tag_word wt n).
Proof.
  intros Hw Hn. unfold tag_word. rewrite Z.shiftl_mul_pow2 by lia. change (2 ^ 3) with 8.
  rewrite wrap_small by (unfold is_u; lia).
  assert (Z.lor wt (n * 8) = n * 8 + wt) as ->
    by (rewrite Z.lor_comm; apply (lor_low_high 3 n wt); [lia|done]).
  unfold is_u. lia.
Qed.

Lemma tag_reads wt n pre post left :
  0 ≤ wt < 8 → 0 < n < 2 ^ 29 → zlen (varint (tag_word wt n)) ≤ left →
  pb_decode_tag (pre ++ varint (tag_word wt n) ++ post) (mkI (zlen pre) left) =
    Val (Tag wt n, mkI (zlen pre + zlen (varint (tag_word wt n)))
                     (left - zlen (varint (tag_word wt n)))).
Proof.
  intros Hw Hn Hl. destruct (tag_word_eq wt n Hw ltac:(lia)) as [E Hu]. unfold pb_decode_tag.
  rewrite (varint32_reads _ Hu), bind_Val by done. cbv beta iota.
  rewrite (proj2 (Z.eqb_neq _ _)) by lia. rewrite E.
  change 7 with (Z.ones 3). rewrite Z.land_ones, Z.shiftr_div_pow2 by lia. change (2 ^ 3) with 8.
  rewrite (Z.add_comm (n * 8)), Z_mod_plus_full, Z.div_add, Z.mod_small, Z.div_small by lia. done.
Qed.

Lemma tag_emits wt n : 0 ≤ wt < 8 → 0 ≤ n < 2 ^ 29 → emits (λ s, pb_encode_tag s wt n) (varint (tag_word wt n)).
Proof. intros Hw Hn. apply varint_emits. destruct (tag_word_eq wt n Hw Hn) as [_ Hu]. int_solve. Qed.

(** ** Decoders stay inside their block *)

(** The bytes left end at most at [L]. *)
Definition iwf (L : Z) (s : pb_istream_t) : Prop :=
  0 ≤ istate s ∧ 0 ≤ bytes_left s ∧ istate s + bytes_left s ≤ L.

(** [D] returns, leaves a stream inside the block, and a success consumes. *)
Definition advances {A} (L : Z) (D : pb_istream_t → exec (option A * pb_istream_t)) : Prop :=
  ∀ s, iwf L s → ∃ r s', D s = Val (r, s') ∧ iwf L s' ∧ bytes_left s' ≤ bytes_left s ∧
    (is_Some r → bytes_left s' < bytes_left s).

Section Safe.
Context (buf : bytes) (L : Z) (HL : L ≤ zlen buf).

Lemma pb_read_safe n s :
  iwf L s → 0 ≤ n →
  (bytes_left s < n ∧ pb_read buf s n = Val (None, s)) ∨
  (∃ bs, pb_read buf s n = Val (Some bs, mkI (istate s + n) (bytes_left s - n)) ∧ zlen bs = n ∧
     iwf L (mkI (istate s + n) (bytes_left s - n))).
Proof.
  intros (H1 & H2 & H3) Hn. unfold pb_read. destruct (Z.ltb_spec (bytes_left s) n); [by left|right].
  unfold buf_read. rewrite memcpy_from_eq by lia. rewrite !bind_Val. eexists. split; [done|].
  split; [rewrite zlen_take, zlen_drop; lia|]. unfold iwf. cbn [istate bytes_left]. lia.
Qed.

Lemma pb_read_advances n : 0 < n → advances L (λ s, pb_read buf s n).
Proof.
  intros Hn s Hs. destruct (pb_read_safe n s Hs ltac:(lia)) as [[_ ->]|(bs & -> & _ & Hw)].
  - eexists _, _. split; [done|]. split; [done|]. split; [lia|by intros [? ?]].
  - eexists _, _. split; [done|]. split; [done|]. cbn [bytes_left]. split; lia.
Qed.

Lemma advances_map {A B} (D : pb_istream_t → exec (option A * pb_istream_t)) (f : A → B) :
  advances L D → advances L (λ s, '(r, s) ← D s; Val (option_map f r, s)).
Proof.
  intros HD s Hs. destruct (HD s Hs) as (r & s' & -> & Hw & Hle & Hlt).
  eexists _, _. split; [done|]. split; [done|]. split; [done|].
  intros [x Hx]. apply Hlt. destruct r; [by eexists|done].
Qed.

Lemma varint_read_advances fuel : ∀ bitpos dest,
  0 ≤ bitpos → 64 ≤ bitpos + 7 * (Z.of_nat fuel - 1) → (0 < fuel)%nat →
  advances L (varint_read buf fuel bitpos dest).
Proof.
  induction fuel as [|fuel IH]; intros bitpos dest Hp Hf Hf0 s Hs; [lia|]. cbn [varint_read].
  destruct (Z.ltb_spec bitpos 64); cbn [negb].
  2: { eexists _, _. split; [done|]. split; [done|]. split; [lia|by intros [? ?]]. }
  destruct (pb_read_safe 1 s Hs ltac:(lia)) as [[_ ->]|(bs & -> & Hl & Hw)]; rewrite bind_Val; cbv beta iota.
  - eexists _, _. split; [done|]. split; [done|]. split; [lia|by intros [? ?]].
  - destruct bs as [|b [|b' bs]]; [done| |rewrite !zlen_cons in Hl; pose proof (zlen_nonneg bs); lia].
    change (rd [b] 0) with (Val b). rewrite bind_Val. case_match.
    + eexists _, _. split; [done|]. split; [done|]. cbn [bytes_left]. split; lia.
    + edestruct (IH (bitpos + 7) (Z.lor dest (u64 (Z.shiftl (Z.land b 127) bitpos)))
        ltac:(lia) ltac:(lia) ltac:(lia) _ Hw) as (r & s' & -> & Hw' & Hle & Hlt).
      eexists _, _. split; [done|]. split; [done|]. cbn [bytes_left] in *. split; lia.
Qed.

Lemma varint_advances : advances L (pb_decode_varint buf).
Proof. apply varint_read_advances; lia. Qed.

Lemma varint32_advances : advances L (pb_decode_varint32 buf).
Proof. apply (advances_map (pb_decode_varint buf) u32), varint_advances. Qed.

Lemma svarint_advances : advances L (pb_decode_svarint buf).
Proof.
  intros s Hs. unfold pb_decode_svarint.
  destruct (varint_advances s Hs) as ([v|] & s' & -> & Hw & Hle & Hlt); rewrite bind_Val; cbv beta iota.
  all: eexists _, _; split; [done|]; split; [done|]; split; [done|].
  - intros _. by apply Hlt.
  - by intros [? ?].
Qed.

Lemma fixed32_advances : advances L (pb_decode_fixed32 buf).
Proof. apply (advances_map (λ s, pb_read buf s 4) le_value), pb_read_advances. lia. Qed.

Lemma fixed64_advances : advances L (pb_decode_fixed64 buf).
Proof. apply (advances_map (λ s, pb_read buf s 8) le_value), pb_read_advances. lia. Qed.

Lemma varint32_u32 s r s' : pb_decode_varint32 buf s = Val (Some r, s') → is_u 32 r.
Proof.
  unfold pb_decode_varint32. intros H. exec_inv. destruct a as [[v|] s1]; simplify_eq/=.
  apply wrap_range. lia.
Qed.

Lemma string_safe cap n s :
  iwf L s → 0 ≤ n < cap →
  ∃ r s', pb_decode_string buf cap s n = Val (r, s') ∧ iwf L s' ∧ bytes_left s' ≤ bytes_left s.
Proof.
  intros Hs Hn. unfold pb_decode_string.
  destruct (pb_read_safe n s Hs ltac:(lia)) as [[_ ->]|(bs & -> & Hl & Hw)]; rewrite bind_Val; cbv beta iota;
    rewrite !require_true by lia; rewrite !bind_Val.
  - eexists _, _. split; [done|]. split; [done|lia].
  - eexists _, _. split; [done|]. split; [done|]. cbn [bytes_left]. lia.
Qed.

Lemma tag_safe s :
  iwf L s → ∃ r s', pb_decode_tag buf s = Val (r, s') ∧ iwf L s' ∧
    bytes_left s' ≤ bytes_left s ∧ match r with Tag _ _ => bytes_left s' < bytes_left s | _ => True end.
Proof.
  intros Hs. unfold pb_decode_tag.
  destruct (varint32_advances s Hs) as ([v|] & s' & -> & Hw & Hle & Hlt); rewrite bind_Val; cbv beta iota.
  - case_match; eexists _, _; (split; [done|]); (split; [done|]); (split; [done|]); [done|].
    apply Hlt. by eexists.
  - eexists _, _. split; [done|]. split; [done|]. split; [done|]. by destruct (bytes_left s' =? 0).
Qed.

Lemma substream_safe s :
  iwf L s → ∃ r s', pb_make_string_substream buf s = Val (r, s') ∧ iwf L s' ∧
    bytes_left s' ≤ bytes_left s ∧
    match r with
    | Some sub => iwf (istate sub + bytes_left sub) sub ∧
                  istate sub + bytes_left sub + bytes_left s' ≤ L ∧
                  bytes_left sub + bytes_left s' < bytes_left s
    | None => True
    end.
Proof.
  intros Hs. unfold pb_make_string_substream.
  destruct (varint32_advances s Hs) as ([v|] & s' & E & Hw & Hle & Hlt); rewrite E, bind_Val; cbv beta iota.
  - apply varint32_u32 in E as Hv. unfold is_u in Hv. specialize (Hlt ltac:(by eexists)).
    unfold iwf in *. destruct (Z.ltb_spec (bytes_left s') v).
    + eexists _, _. split; [done|]. split; [done|]. split; [done|done].
    + eexists _, _. split; [done|]. cbn [istate bytes_left]. lia.
  - eexists _, _. split; [done|]. done.
Qed.
End Safe.

(** ** Round trips through a buffer *)

Lemma from_buffer_owf buf : zlen buf < 2 ^ 63 → owf (pb_ostream_from_buffer buf (zlen buf)).
Proof. intros. split; cbn; [lia|done|]. intros _. pose proof (zlen_nonneg buf). cbn. lia. Qed.

Lemma buffer_roundtrip {A} E (D : bytes → pb_istream_t → exec (option A * pb_istream_t)) bs r buf :
  emits E bs → reads D bs r → zlen bs ≤ zlen buf → zlen buf < 2 ^ 63 →
  ∃ s, E (pb_ostream_from_buffer buf (zlen buf)) = Val (true, s) ∧ bytes_written s = zlen bs ∧
    D (mem s) (pb_istream_from_buffer (bytes_written s)) = Val (Some r, mkI (zlen bs) 0).
Proof.
  intros HE HD Hl Hb. specialize (HE _ (from_buffer_owf buf Hb)). cbn [bytes_written pb_ostream_from_buffer] in HE.
  specialize (HE ltac:(lia)). unfold fits in HE. cbn [callback negb orb bytes_written max_size pb_ostream_from_buffer] in HE.
  rewrite (proj2 (Z.leb_le _ _)) in HE by lia. eexists. split; [exact HE|].
  split; [done|]. unfold push. cbn [callback mem bytes_written pb_ostream_from_buffer state app Z.to_nat take Nat.add].
  unfold pb_istream_from_buffer. rewrite Z.add_0_l, take_0.
  pose proof (HD [] (drop (length bs) buf) (zlen bs) ltac:(lia)) as H.
  change (zlen (@nil Z)) with 0 in H. rewrite Z.sub_diag, Z.add_0_l in H. exact H.
Qed.

(** Every 64-bit value survives [pb_encode_varint] followed by
    [pb_decode_varint], in one to ten bytes, all of which are consumed. *)
Theorem varint_roundtrip (buf : bytes) (v : Z) :
  is_u 64 v → 10 ≤ zlen buf < 2 ^ 63 →
  ∃ s, pb_encode_varint (pb_ostream_from_buffer buf (zlen buf)) v = Val (true, s) ∧
    1 ≤ bytes_written s ≤ 10 ∧
    pb_decode_varint (mem s) (pb_istream_from_buffer (bytes_written s)) =
      Val (Some v, mkI (bytes_written s) 0).
Proof.
  intros Hv Hb. pose proof (varint_zlen v). pose proof (varint_pos v).
  destruct (buffer_roundtrip _ _ _ _ buf (varint_emits v Hv) (varint_reads v Hv)) as (s & E1 & Hw & E2); [lia..|].
  exists s. rewrite Hw in *. split; [exact E1|]. split; [lia|exact E2].
Qed.

Lemma varint_roundtrip_witness :
  ∃ s, pb_encode_varint (pb_ostream_from_buffer (zeros 16) 16) (2 ^ 64 - 1) = Val (true, s) ∧
    1 ≤ bytes_written s ≤ 10 ∧
    pb_decode_varint (mem s) (pb_istream_from_buffer (bytes_written s)) =
      Val (Some (2 ^ 64 - 1), mkI (bytes_written s) 0).
Proof. apply (varint_roundtrip (zeros 16) (2 ^ 64 - 1)); by vm_compute. Defined.

(** Every signed 64-bit value survives [pb_encode_svarint]
    followed by [pb_decode_svarint]; small magnitudes of either sign are short:
    a value in [-64, 64) takes one byte. *)
Theorem svarint_roundtrip (buf : bytes) (v : Z) :
  is_s 64 v → 10 ≤ zlen buf < 2 ^ 63 →
  ∃ s, pb_encode_svarint (pb_ostream_from_buffer buf (zlen buf)) v = Val (true, s) ∧
    (-64 ≤ v < 64 → bytes_written s = 1) ∧
    pb_decode_svarint (mem s) (pb_istream_from_buffer (bytes_written s)) =
      Val (Some v, mkI (bytes_written s) 0).
Proof.
  intros Hv Hb. pose proof (varint_zlen (zigzag v)).
  destruct (buffer_roundtrip _ _ _ _ buf (svarint_emits v Hv) (svarint_reads v Hv)) as (s & E1 & Hw & E2); [lia..|].
  exists s. rewrite Hw in *. split; [exact E1|]. split; [|exact E2].
  intros Hs. unfold varint. cbn [varint_bytes]. rewrite (proj2 (Z.ltb_lt _ _)); [done|].
  unfold zigzag. destruct (Z.ltb_spec v 0); lia.
Qed.

Lemma svarint_roundtrip_witness :
  ∃ s, pb_encode_svarint (pb_ostream_from_buffer (zeros 16) 16) (- 2 ^ 63) = Val (true, s) ∧
    (-64 ≤ - 2 ^ 63 < 64 → bytes_written s = 1) ∧
    pb_decode_svarint (mem s) (pb_istream_from_buffer (bytes_written s)) =
      Val (Some (- 2 ^ 63), mkI (bytes_written s) 0).
Proof. apply (svarint_roundtrip (zeros 16) (- 2 ^ 63)); by vm_compute. Defined.
