(* ===== verification/PbEncode.v ===== *)
(** * The protobuf encoder ([src/src/pb-encode.c])

    [pb_encode] walks a JSON message and writes the fields its schema names. A
    submessage is encoded twice: once on a stream without callback, which only
    counts, to get the length prefix, and once into a substream of exactly that
    size. [wire] is the reference: the bytes as a function of the message,
    without streams; [encode_wire] says the two agree. The depth of the message
    bounds the recursion. *)

From S2P Require Import Prelude Float Jansson PbWire.
Local Open Scope Z_scope.

(** [sub_msg]: [protos.__messages.type], else the root message
    ["message " type] of [gprotos]. *)
Definition find_sub_msg (gprotos : option json_t) (messages : json_t) (type : string) : option json_t :=
  match json_object_get (Some messages) type with
  | Some sub => Some sub
  | None => json_object_get gprotos ("message " +:+ type)
  end.

Section Step.
(** The recursive calls, and the schema of the root messages. *)
Context (pb_encode : option json_t → json_t → pb_ostream_t → exec (bool * pb_ostream_t)).
Context (gprotos : option json_t).

Definition pb_encode_submessage (protos : option json_t) (value : json_t) (s : pb_ostream_t)
  : exec (bool * pb_ostream_t) :=
  '(ok, substream) ← pb_encode protos value (mkO false 0 0 0 []);
  if negb ok then Val (false, s)
  else
    let size := bytes_written substream in
    '(ok, s) ← pb_encode_varint s size;
    if negb ok then Val (false, s)
    else if negb (callback s) then pb_write s [] size
    else if u64 (bytes_written s + size) >? max_size s then Val (false, s)
    else
      '(status, substream) ← pb_encode protos value (mkO (callback s) (state s) size 0 (mem s));
      let s := mkO (callback s) (state substream) (max_size s)
                 (u64 (bytes_written s + bytes_written substream)) (mem substream) in
      if negb (bytes_written substream =? size) then Val (false, s)
      else Val (status, s).

(** [value] is never NULL here but may be of any type. *)
Definition pb_encode_proto (protos proto : option json_t) (value : json_t) (s : pb_ostream_t)
  : exec (bool * pb_ostream_t) :=
  let type := json_string_value (json_object_get proto "type") in
  let messages := json_object_get protos "__messages" in
  t ← pb__get_type type;
  if t =? PB_uInt32 then
    int_val ← int_of_double (- 2 ^ 63) (2 ^ 63 - 1) (json_number_value (Some value));
    pb_encode_varint s (u64 int_val)
  else if (t =? PB_int32) || (t =? PB_sInt32) then
    int_val ← int_of_double (- 2 ^ 63) (2 ^ 63 - 1) (json_number_value (Some value));
    pb_encode_svarint s int_val
  else if t =? PB_float then
    pb_encode_fixed32 s (float_of_double (json_number_value (Some value)))
  else if t =? PB_double then
    pb_encode_fixed64 s (json_number_value (Some value))
  else if t =? PB_string then
    match json_string_value (Some value) with
    | None => UB
    | Some str => pb_encode_string s (bytes_of str ++ [0]) (u64 (s32 (strlen str)))
    end
  else
    match messages, type with
    | Some messages, Some type =>
        match find_sub_msg gprotos messages type with
        | Some sub_msg => pb_encode_submessage (Some sub_msg) value s
        | None => Val (false, s)
        end
    | _, _ => Val (true, s)
    end.

(** The two loops of [pb_encode_array], over the elements left. *)
Fixpoint encode_packed (protos proto : option json_t) (l : list json_t) (s : pb_ostream_t)
  : exec (bool * pb_ostream_t) :=
  match l with
  | [] => Val (true, s)
  | v :: l =>
      '(ok, s) ← pb_encode_proto protos proto v s;
      if negb ok then Val (false, s) else encode_packed protos proto l s
  end.

Fixpoint encode_tagged (protos proto : option json_t) (l : list json_t) (s : pb_ostream_t)
  : exec (bool * pb_ostream_t) :=
  match l with
  | [] => Val (true, s)
  | v :: l =>
      '(ok, s) ← pb_encode_tag_for_field s proto;
      if negb ok then Val (false, s)
      else
        '(ok, s) ← pb_encode_proto protos proto v s;
        if negb ok then Val (false, s) else encode_tagged protos proto l s
  end.

Definition array_elements (array : json_t) : list json_t :=
  match array with JArray l => l | _ => [] end.

Definition pb_encode_array (protos proto : option json_t) (array : json_t) (s : pb_ostream_t)
  : exec (bool * pb_ostream_t) :=
  let type := json_string_value (json_object_get proto "type") in
  let len := json_array_size array in
  t ← pb__get_type type;
  if negb (t =? 0) && negb (t =? PB_string) then
    '(ok, s) ← pb_encode_tag_for_field s proto;
    if negb ok then Val (false, s)
    else
      '(ok, s) ← pb_encode_varint s len;
      if negb ok then Val (false, s)
      else encode_packed protos proto (array_elements array) s
  else encode_tagged protos proto (array_elements array) s.

(** One round of [while (iter)]. *)
Definition encode_field (protos : option json_t) (key : string) (value : json_t) (s : pb_ostream_t)
  : exec (bool * pb_ostream_t) :=
  match json_object_get protos key with
  | None => Val (false, s)
  | Some proto =>
      match json_string_value (json_object_get (Some proto) "option") with
      | None => UB
      | Some option_text =>
          if bool_decide (option_text = "required") || bool_decide (option_text = "optional") then
            '(ok, s) ← pb_encode_tag_for_field s (Some proto);
            if negb ok then Val (false, s)
            else pb_encode_proto protos (Some proto) value s
          else if bool_decide (option_text = "repeated") then
            if json_is_array value then pb_encode_array protos (Some proto) value s
            else Val (true, s)
          else Val (true, s)
      end
  end.

Fixpoint encode_fields (protos : option json_t) (iter : list (string * json_t)) (s : pb_ostream_t)
  : exec (bool * pb_ostream_t) :=
  match iter with
  | [] => Val (true, s)
  | (key, value) :: iter =>
      '(ok, s) ← encode_field protos key value s;
      if negb ok then Val (false, s) else encode_fields protos iter s
  end.
End Step.

Fixpoint pb_encode (fuel : nat) (gprotos protos : option json_t) (msg : json_t) (s : pb_ostream_t)
  : exec (bool * pb_ostream_t) :=
  match fuel with
  | O => NoFuel
  | S fuel => encode_fields (pb_encode fuel gprotos) gprotos protos (json_object_iter msg) s
  end.

(** [*written] and the buffer on success, [None] for the return value 0. *)
Definition pc_pb_encode (fuel : nat) (buf : bytes) (len : Z) (gprotos protos : option json_t)
  (msg : json_t) : exec (option (Z * bytes)) :=
  '(ok, s) ← pb_encode fuel gprotos protos msg (pb_ostream_from_buffer buf len);
  if negb ok then Val None else Val (Some (bytes_written s, mem s)).

(** ** The reference: bytes without streams *)

Definition to_option {A} (c : exec A) : option A := match c with Val a => Some a | _ => None end.

Lemma to_option_Some {A} (c : exec A) a : to_option c = Some a → c = Val a.
Proof. destruct c; simpl; congruence. Qed.

(** A field: its schema, decoded from JSON. *)
Record field_desc := mkField { f_type : string; f_wire : Z; f_number : Z; f_kind : Z }.

Definition field_of (proto : option json_t) : option field_desc :=
  type ← json_string_value (json_object_get proto "type");
  number ← to_option (int_of_double 0 (2 ^ 29 - 1) (json_number_value (json_object_get proto "tag")));
  wt ← to_option (pb__get_constant_type (Some type));
  kind ← to_option (pb__get_type (Some type));
  Some (mkField type wt number kind).

Definition wire_tag (f : field_desc) : bytes := varint (tag_word (f_wire f) (f_number f)).

Definition length_prefixed (bs : bytes) : bytes := varint (zlen bs) ++ bs.

Section WireStep.
Context (wire : option json_t → json_t → option bytes).
Context (gprotos : option json_t).

Definition wire_value (protos : option json_t) (f : field_desc) (value : json_t) : option bytes :=
  let int_val := to_option (int_of_double (- 2 ^ 63) (2 ^ 63 - 1) (json_number_value (Some value))) in
  if f_kind f =? PB_uInt32 then n ← int_val; Some (varint (u64 n))
  else if (f_kind f =? PB_int32) || (f_kind f =? PB_sInt32) then n ← int_val; Some (varint (zigzag n))
  else if f_kind f =? PB_float then Some (le_bytes 4 (float_of_double (json_number_value (Some value))))
  else if f_kind f =? PB_double then Some (le_bytes 8 (json_number_value (Some value)))
  else if f_kind f =? PB_string then
    str ← json_string_value (Some value);
    if strlen str <=? INT_MAX then Some (length_prefixed (bytes_of str)) else None
  else
    messages ← json_object_get protos "__messages";
    sub ← find_sub_msg gprotos messages (f_type f);
    length_prefixed <$> wire (Some sub) value.

Fixpoint concat_opt {A} (f : A → option bytes) (l : list A) : option bytes :=
  match l with
  | [] => Some []
  | x :: l => b ← f x; bs ← concat_opt f l; Some (b ++ bs)
  end.

Definition wire_array (protos : option json_t) (f : field_desc) (l : list json_t) : option bytes :=
  if negb (f_kind f =? 0) && negb (f_kind f =? PB_string) then
    if zlen l <? 2 ^ 31 then
      body ← concat_opt (wire_value protos f) l;
      Some (wire_tag f ++ varint (zlen l) ++ body)
    else None
  else concat_opt (λ v, app (wire_tag f) <$> wire_value protos f v) l.

Definition wire_field (protos : option json_t) (kv : string * json_t) : option bytes :=
  proto ← json_object_get protos (fst kv);
  option_text ← json_string_value (json_object_get (Some proto) "option");
  f ← field_of (Some proto);
  if bool_decide (option_text = "required") || bool_decide (option_text = "optional") then
    app (wire_tag f) <$> wire_value protos f (snd kv)
  else if bool_decide (option_text = "repeated") then
    match snd kv with JArray l => wire_array protos f l | _ => Some [] end
  else Some [].
End WireStep.

Fixpoint wire (fuel : nat) (gprotos protos : option json_t) (msg : json_t) : option bytes :=
  match fuel with
  | O => None
  | S fuel =>
      bs ← concat_opt (wire_field (wire fuel gprotos) gprotos protos) (json_object_iter msg);
      if zlen bs <? 2 ^ 62 then Some bs else None
  end.

(** ** The encoder emits the reference *)

(** Inverts the binds of a hypothesis [_ = Some _]. *)
Ltac opt_inv :=
  repeat match goal with
  | H : Some _ = Some _ |- _ => injection H as H; subst
  | H : None = Some _ |- _ => discriminate H
  | H : (_ ≫= _) = Some _ |- _ => apply bind_Some in H as (? & ? & H)
  | H : (_ <$> _) = Some _ |- _ => apply fmap_Some in H as (? & ? & H); try subst
  end.

Lemma int_of_double_bounds lo hi d n : int_of_double lo hi d = Val n → lo ≤ n ≤ hi.
Proof.
  unfold int_of_double. destruct (decode_fp binary64 d) as [neg m e|?|]; try done.
  destruct (_ && _) eqn:E; [|done]. intros [= <-]. blia.
Qed.

Lemma int_of_double_widen lo hi lo' hi' d n :
  int_of_double lo hi d = Val n → lo' ≤ lo → hi ≤ hi' → int_of_double lo' hi' d = Val n.
Proof.
  unfold int_of_double. destruct (decode_fp binary64 d) as [neg m e|?|]; try done.
  destruct (_ && _) eqn:E; [|done]. intros [= <-] ??.
  rewrite (proj2 (andb_true_iff _ _)); [done|]. rewrite !Z.leb_le. blia.
Qed.

(** What a decoded field says about the JSON it comes from. *)
Lemma field_of_Some proto f :
  field_of proto = Some f →
  json_string_value (json_object_get proto "type") = Some (f_type f) ∧
  int_of_double 0 (2 ^ 29 - 1) (json_number_value (json_object_get proto "tag")) = Val (f_number f) ∧
  pb__get_constant_type (Some (f_type f)) = Val (f_wire f) ∧
  pb__get_type (Some (f_type f)) = Val (f_kind f).
Proof.
  unfold field_of. intros H. opt_inv. apply to_option_Some in H1, H2, H3. done.
Qed.

Lemma field_wire_range proto f : field_of proto = Some f → 0 ≤ f_wire f < 8 ∧ 0 ≤ f_number f < 2 ^ 29.
Proof.
  intros (_ & Hn & Hw & _)%field_of_Some. apply int_of_double_bounds in Hn. split; [|lia].
  unfold pb__get_constant_type in Hw. injection Hw as <-. repeat case_match; lia.
Qed.

Lemma tag_field_emits proto f :
  field_of proto = Some f → emits (λ s, pb_encode_tag_for_field s proto) (wire_tag f).
Proof.
  intros Hf. pose proof (field_wire_range _ _ Hf) as [Hw Hn].
  apply field_of_Some in Hf as (Ht & Hd & Hc & _).
  eapply emits_ext; [|apply (tag_emits (f_wire f) (f_number f)); done].
  intros s. unfold pb_encode_tag_for_field. rewrite Ht, Hc, bind_Val.
  by rewrite (int_of_double_widen _ _ _ _ _ _ Hd), bind_Val by lia.
Qed.

Section Emits.
Context (enc : option json_t → json_t → pb_ostream_t → exec (bool * pb_ostream_t)).
Context (ref : option json_t → json_t → option bytes).
Context (gprotos : option json_t).

(** What the recursion promises about submessages. *)
Definition agrees : Prop :=
  ∀ protos v bs, ref protos v = Some bs → zlen bs < 2 ^ 62 ∧ emits (enc protos v) bs.

Hypothesis Hrec : agrees.

(** The counting pass and the writing pass of a submessage agree. *)
Lemma submessage_emits protos v bs :
  ref protos v = Some bs → emits (pb_encode_submessage enc protos v) (length_prefixed bs).
Proof.
  intros Hv. destruct (Hrec protos v bs Hv) as [Hz He]. pose proof (zlen_nonneg bs).
  pose proof (varint_zlen (zlen bs)).
  assert (is_u 64 (zlen bs)) as Hu by int_solve.
  intros s Hs Hb. unfold length_prefixed in *. rewrite zlen_app in Hb.
  assert (owf (mkO false 0 0 0 [])) as Hnull by (split; cbn; [lia|lia|done]).
  assert (enc protos v (mkO false 0 0 0 []) = Val (true, mkO false 0 0 (zlen bs) [])) as Hc
    by (apply (He _ Hnull); cbn; lia).
  unfold pb_encode_submessage. rewrite Hc, bind_Val. cbn [negb].
  cbn [bytes_written].
  pose proof (varint_emits (zlen bs) Hu s Hs ltac:(lia)) as Hvi.
  destruct (fits s (varint (zlen bs))) eqn:Ef.
  2: { destruct Hvi as [s' ->]. rewrite bind_Val. cbn [negb].
       replace (fits s (varint (zlen bs) ++ bs)) with false; [by eexists|].
       unfold fits in *. destruct (callback s); [|done]. simpl in *. b2p. rewrite zlen_app.
       symmetry. apply Z.leb_gt. lia. }
  rewrite Hvi, bind_Val. cbn [negb]. set (s1 := push s (varint (zlen bs))).
  assert (owf s1) as Hs1 by (by apply push_owf).
  assert (callback s1 = callback s ∧ max_size s1 = max_size s ∧
    bytes_written s1 = bytes_written s + zlen (varint (zlen bs))) as (Ec & Em & Ew)
    by (unfold s1, push; by destruct (callback s)).
  assert (fits s1 bs = fits s (varint (zlen bs) ++ bs)) as Ef1
    by (unfold fits; rewrite Ec, Em, Ew, zlen_app, Z.add_assoc; done).
  rewrite <- push_app by done. fold s1. rewrite <- Ef1.
  assert (0 ≤ bytes_written s1) by apply Hs1.
  unfold fits. destruct (callback s1) eqn:Ec1; cbn [negb orb].
  - rewrite wrap_small by int_solve. rewrite Z.gtb_ltb, Z.ltb_antisym.
    destruct (Z.leb_spec (bytes_written s1 + zlen bs) (max_size s1)); cbn [negb]; [|by eexists].
    destruct (owf_room _ Hs1 Ec1) as (Hst & Hwr & Hrm).
    assert (owf (mkO true (state s1) (zlen bs) 0 (mem s1))) as Hsub
      by (split; cbn; [lia|lia|intros _; cbn; lia]).
    pose proof (He _ Hsub) as Hw. cbn [bytes_written] in Hw. specialize (Hw ltac:(lia)).
    unfold fits in Hw. cbn [negb orb callback bytes_written max_size] in Hw.
    rewrite (proj2 (Z.leb_le _ _)) in Hw by lia.
    rewrite Hw, bind_Val. unfold push. rewrite Ec1. cbn [callback bytes_written state mem].
    rewrite Z.add_0_l, Z.eqb_refl. cbn [negb]. by rewrite wrap_small by int_solve.
  - unfold pb_write. rewrite Ec1. unfold push. rewrite Ec1.
    rewrite wrap_small by int_solve. done.
Qed.

Lemma value_emits protos proto f v bs :
  field_of proto = Some f → wire_value ref gprotos protos f v = Some bs →
  emits (pb_encode_proto enc gprotos protos proto v) bs.
Proof.
  intros (Ht & _ & _ & Hk)%field_of_Some Hv. unfold wire_value in Hv.
  assert (∀ E, emits E bs → (∀ s, pb_encode_proto enc gprotos protos proto v s = E s) →
    emits (pb_encode_proto enc gprotos protos proto v) bs) as Hx
    by (intros E HE Heq; eapply emits_ext; [|exact HE]; intros s; by rewrite Heq).
  assert (∀ s, pb_encode_proto enc gprotos protos proto v s =
    (t ← Val (f_kind f); _)) as Hu by (intros s; unfold pb_encode_proto; rewrite Ht, Hk; reflexivity).
  destruct (f_kind f =? PB_uInt32) eqn:E1.
  { opt_inv. apply to_option_Some in H. eapply Hx; [apply (varint_emits (u64 x)), wrap_range; lia|].
    intros s. by rewrite Hu, bind_Val, E1, H, bind_Val. }
  destruct ((f_kind f =? PB_int32) || (f_kind f =? PB_sInt32)) eqn:E2.
  { opt_inv. apply to_option_Some in H. eapply Hx; [apply (svarint_emits x)|].
    - apply int_of_double_bounds in H. int_solve.
    - intros s. by rewrite Hu, bind_Val, E1, E2, H, bind_Val. }
  destruct (f_kind f =? PB_float) eqn:E3.
  { opt_inv. eapply Hx; [apply fixed32_emits|]. intros s. by rewrite Hu, bind_Val, E1, E2, E3. }
  destruct (f_kind f =? PB_double) eqn:E4.
  { opt_inv. eapply Hx; [apply fixed64_emits|]. intros s. by rewrite Hu, bind_Val, E1, E2, E3, E4. }
  destruct (f_kind f =? PB_string) eqn:E5.
  { opt_inv. destruct (Z.leb_spec (strlen x) INT_MAX); [|done]. injection Hv as <-.
    pose proof (zlen_nonneg (bytes_of x)). fold (strlen x) in *. unfold INT_MAX in *.
    eapply Hx; [apply (string_emits (bytes_of x) (bytes_of x ++ [0]) (strlen x)); [done|lia|by eexists]|].
    intros s. rewrite Hu, bind_Val, E1, E2, E3, E4, E5, H.
    by rewrite swrap_small, wrap_small by int_solve. }
  opt_inv. eapply Hx; [by apply submessage_emits|].
  intros s. rewrite Hu, bind_Val, E1, E2, E3, E4, E5, H. by rewrite H0.
Qed.

Lemma packed_emits protos proto f l bs :
  field_of proto = Some f → concat_opt (wire_value ref gprotos protos f) l = Some bs →
  emits (encode_packed enc gprotos protos proto l) bs.
Proof.
  intros Hf. revert bs. induction l as [|v l IH]; intros bs Hb; cbn [concat_opt encode_packed] in *; opt_inv.
  - apply emits_nil.
  - apply emits_seq; [by eapply value_emits|by apply IH].
Qed.

Lemma tagged_emits protos proto f l bs :
  field_of proto = Some f →
  concat_opt (λ v, app (wire_tag f) <$> wire_value ref gprotos protos f v) l = Some bs →
  emits (encode_tagged enc gprotos protos proto l) bs.
Proof.
  intros Hf. revert bs. induction l as [|v l IH]; intros bs Hb; cbn [concat_opt encode_tagged] in *; opt_inv.
  - apply emits_nil.
  - rewrite <- app_assoc. apply emits_seq; [by apply tag_field_emits|].
    apply emits_seq; [by eapply value_emits|by apply IH].
Qed.

Lemma array_emits protos proto f l bs :
  field_of proto = Some f → wire_array ref gprotos protos f l = Some bs →
  emits (pb_encode_array enc gprotos protos proto (JArray l)) bs.
Proof.
  intros Hf Hw. pose proof Hf as (Ht & _ & _ & Hk)%field_of_Some. unfold wire_array in Hw.
  eapply (emits_ext (λ s, if negb (f_kind f =? 0) && negb (f_kind f =? PB_string) then _ else _));
    [intros s; unfold pb_encode_array; rewrite Ht, Hk, bind_Val; reflexivity|].
  destruct (negb (f_kind f =? 0) && negb (f_kind f =? PB_string)).
  - destruct (Z.ltb_spec (zlen l) (2 ^ 31)); [|done]. opt_inv.
    apply emits_seq; [by apply tag_field_emits|].
    apply emits_seq; [apply varint_emits; pose proof (zlen_nonneg l); int_solve|].
    by eapply packed_emits.
  - by eapply tagged_emits.
Qed.

Lemma field_emits protos kv bs :
  wire_field ref gprotos protos kv = Some bs →
  emits (encode_field enc gprotos protos (fst kv) (snd kv)) bs.
Proof.
  unfold wire_field, encode_field. intros H. opt_inv. rewrite H0, H1.
  destruct (_ || _).
  - opt_inv. apply emits_seq; [by apply tag_field_emits|by eapply value_emits].
  - case_bool_decide; [|opt_inv; apply emits_nil].
    destruct (snd kv); cbn [json_is_array]; opt_inv; try apply emits_nil. by eapply array_emits.
Qed.

Lemma fields_emits protos kvs bs :
  concat_opt (wire_field ref gprotos protos) kvs = Some bs →
  emits (encode_fields enc gprotos protos kvs) bs.
Proof.
  revert bs. induction kvs as [|kv kvs IH]; intros bs H; cbn [concat_opt encode_fields] in *; opt_inv.
  - apply emits_nil.
  - destruct kv as [k v]. apply emits_seq; [by apply (field_emits protos (k, v))|by apply IH].
Qed.
End Emits.

Lemma wire_emits fuel gprotos : agrees (pb_encode fuel gprotos) (wire fuel gprotos).
Proof.
  induction fuel as [|fuel IH]; intros protos v bs H; [done|]. cbn [wire] in H. opt_inv.
  destruct (Z.ltb_spec (zlen x) (2 ^ 62)); [|done]. opt_inv. split; [done|].
  by eapply fields_emits.
Qed.

Lemma encode_wire_eq (fuel : nat) (buf : bytes) (gprotos protos : option json_t) (msg : json_t) (bs : bytes) :
  wire fuel gprotos protos msg = Some bs → zlen buf < 2 ^ 63 →
  pc_pb_encode fuel buf (zlen buf) gprotos protos msg =
    if zlen bs <=? zlen buf then Val (Some (zlen bs, bs ++ drop (length bs) buf)) else Val None.
Proof.
  intros Hw Hb. destruct (wire_emits fuel gprotos protos msg bs Hw) as [Hz He].
  specialize (He _ (from_buffer_owf buf Hb)). unfold pc_pb_encode, fits, push in *.
  cbn [callback bytes_written max_size state mem pb_ostream_from_buffer negb orb Z.add] in He.
  specialize (He ltac:(lia)). rewrite Z.add_0_l in He. revert He. destruct (zlen bs <=? zlen buf).
  - intros He. rewrite He, bind_Val. cbn [negb bytes_written mem]. by rewrite ?Z.add_0_l, take_0.
  - intros [s' ->]. done.
Qed.

(** C28 (equivalence). [pc_pb_encode] writes exactly the reference bytes at the
    start of the buffer and nothing else, and reports their number; when they
    do not fit it returns 0. It never writes outside the buffer, and the
    counting pass over a submessage finds the size of the writing pass. *)
Theorem pb_encode_wire (fuel : nat) (buf : bytes) (gprotos protos : option json_t) (msg : json_t) (bs : bytes) :
  wire fuel gprotos protos msg = Some bs → zlen buf < 2 ^ 63 →
  pc_pb_encode fuel buf (zlen buf) gprotos protos msg =
    if zlen bs <=? zlen buf then Val (Some (zlen bs, bs ++ drop (length bs) buf)) else Val None.
Proof. apply encode_wire_eq. Qed.

(** An object of [kvs], built by [json_object_set_new]. *)
Definition obj (kvs : list (string * json_t)) : json_t :=
  foldl (λ o kv, json_object_set_new o (fst kv) (Some (snd kv))) json_object kvs.

Definition field_json (option_text type : string) (tag : Z) : json_t :=
  obj [("option", JString option_text); ("type", JString type); ("tag", JInteger tag)].

(** A schema with a nested message, its tags, and a message for it. *)
Definition ex_item : json_t :=
  obj [("name", field_json "required" "string" 1); ("count", field_json "optional" "sInt32" 2);
       ("__tags", obj [("1", JString "name"); ("2", JString "count")])].

Definition ex_protos : json_t :=
  obj [("id", field_json "required" "uInt32" 1); ("xs", field_json "repeated" "int32" 2);
       ("w", field_json "optional" "double" 3); ("items", field_json "repeated" "item" 4);
       ("__messages", obj [("item", ex_item)]);
       ("__tags", obj [("1", JString "id"); ("2", JString "xs"); ("3", JString "w"); ("4", JString "items")])].

Definition ex_msg : json_t :=
  obj [("id", JInteger 300); ("xs", JArray [JInteger (-1); JInteger 5]);
       ("w", JReal 0x3ff0000000000000);
       ("items", JArray [obj [("name", JString "sword"); ("count", JInteger (-2))];
                         obj [("name", JString "x")]])].

Definition ex_wire : bytes := default [] (wire 3 None (Some ex_protos) ex_msg).

Lemma pb_encode_wire_witness :
  zlen ex_wire = 32 ∧
  pc_pb_encode 3 (zeros 64) 64 None (Some ex_protos) ex_msg =
    Val (Some (32, ex_wire ++ drop (length ex_wire) (zeros 64))) ∧
  pc_pb_encode 3 (zeros 31) 31 None (Some ex_protos) ex_msg = Val None.
Proof.
  split; [by vm_compute|]. split.
  - apply (pb_encode_wire 3 (zeros 64) None (Some ex_protos) ex_msg ex_wire); by vm_compute.
  - apply (pb_encode_wire 3 (zeros 31) None (Some ex_protos) ex_msg ex_wire); by vm_compute.
Defined.
