(* ===== verification/PbDecode.v ===== *)
(** * The protobuf decoder ([src/src/pb-decode.c])

    [pb_decode] reads fields until its stream is empty and stores them in a
    JSON object; the schema gives the name and the type of each tag. A
    submessage is read from a substream of the announced length. The loops
    consume at least a byte a round, so the bytes left bound the recursion.
    A return value 0 is [None]: the callers then drop the object. [malloc n]
    says whether an allocation of [n] bytes returns a block. *)

From S2P Require Import Prelude Float Jansson PbWire PbEncode.
Local Open Scope Z_scope.

(** [json_is_object(result) ? json_object_set_new : json_array_append_new];
    a NULL [key] is refused by [json_object_set_new]. *)
Definition store (result : json_t) (key : option string) (value : option json_t) : json_t :=
  if json_is_object result then
    match key with Some k => json_object_set_new result k value | None => result end
  else json_array_append_new result value.

Section Step.
Context (malloc : Z → bool) (buf : bytes).
(** The recursive call, and the schema of the root messages. *)
Context (pb_decode : option json_t → json_t → pb_istream_t → exec (option json_t * pb_istream_t)).
Context (gprotos : option json_t).

Definition pb_decode_submessage (protos : option json_t) (dest : json_t) (s : pb_istream_t)
  : exec (option json_t * pb_istream_t) :=
  '(r, s) ← pb_make_string_substream buf s;
  match r with
  | None => Val (None, s)
  | Some substream =>
      '(status, substream) ← pb_decode protos dest substream;
      Val (status, pb_close_string_substream s substream)
  end.

(** A field value [D], stored as [f] of it. *)
Definition decode_scalar (D : pb_istream_t → exec (option Z * pb_istream_t)) (f : Z → option json_t)
  (key : option string) (result : json_t) (s : pb_istream_t) : exec (option json_t * pb_istream_t) :=
  '(r, s) ← D s;
  match r with
  | None => Val (None, s)
  | Some v => Val (Some (store result key (f v)), s)
  end.

(** [malloc(str_len + 1)] is computed in 32 bits. *)
Definition decode_string_field (key : option string) (result : json_t) (s : pb_istream_t)
  : exec (option json_t * pb_istream_t) :=
  '(r, s) ← pb_decode_strlen buf s;
  match r with
  | None => Val (None, s)
  | Some str_len =>
      let cap := u32 (str_len + 1) in
      if negb (malloc cap) then Val (None, s)
      else
        '(r, s) ← pb_decode_string buf cap s str_len;
        match r with
        | None => Val (None, s)
        | Some bs => Val (Some (store result key (json_string (string_of (until_nul bs)))), s)
        end
  end.

Definition pb_decode_proto (proto protos : option json_t) (key : option string) (result : json_t)
  (s : pb_istream_t) : exec (option json_t * pb_istream_t) :=
  let type_text := json_string_value (json_object_get proto "type") in
  let messages := json_object_get protos "__messages" in
  t ← pb__get_type type_text;
  if t =? PB_uInt32 then
    decode_scalar (pb_decode_varint buf) (λ v, Some (JInteger (s64 v))) key result s
  else if (t =? PB_int32) || (t =? PB_sInt32) then
    decode_scalar (pb_decode_svarint buf) (λ v, Some (JInteger v)) key result s
  else if t =? PB_float then
    decode_scalar (pb_decode_fixed32 buf) (λ v, json_real (double_of_float v)) key result s
  else if t =? PB_double then
    decode_scalar (pb_decode_fixed64 buf) json_real key result s
  else if t =? PB_string then decode_string_field key result s
  else
    match messages, type_text with
    | Some messages, Some type_text =>
        match find_sub_msg gprotos messages type_text with
        | None => Val (None, s)
        | Some sub_msg =>
            match key with
            | None => pb_decode_submessage (Some sub_msg) result s
            | Some k =>
                '(r, s) ← pb_decode_submessage (Some sub_msg) json_object s;
                match r with
                | None => Val (None, s)
                | Some sub_value => Val (Some (json_object_set_new result k (Some sub_value)), s)
                end
            end
        end
    | _, _ => Val (Some result, s)
    end.

(** [for (i = 0; i < size; i++)]: [i] is an [int], [size] a [uint32_t]. *)
Fixpoint decode_packed (fuel : nat) (proto protos : option json_t) (key : string) (i size : Z)
  (array : json_t) (s : pb_istream_t) : exec (option json_t * pb_istream_t) :=
  match fuel with
  | O => NoFuel
  | S fuel =>
      if negb (u32 i <? size) then Val (Some array, s)
      else
        '(r, s) ← pb_decode_proto proto protos (Some key) array s;
        match r with
        | None => Val (None, s)
        | Some array =>
            _ ← require (i <? INT_MAX);
            decode_packed fuel proto protos key (i + 1) size array s
        end
  end.

Definition pb_decode_array (fuel : nat) (proto protos : option json_t) (key : string)
  (result : json_t) (s : pb_istream_t) : exec (option json_t * pb_istream_t) :=
  let type_text := json_string_value (json_object_get proto "type") in
  let array := default (JArray []) (json_object_get (Some result) key) in
  let finish (array : json_t) : json_t := json_object_set_new result key (Some array) in
  t ← pb__get_type type_text;
  if negb (t =? 0) && negb (t =? PB_string) then
    '(r, s) ← pb_decode_varint32 buf s;
    match r with
    | None => Val (None, s)
    | Some size =>
        '(r, s) ← decode_packed fuel proto protos key 0 size array s;
        match r with
        | None => Val (None, s)
        | Some array => Val (Some (finish array), s)
        end
    end
  else if negb (t =? 0) && (t =? PB_string) then
    '(r, s) ← pb_decode_proto proto protos (Some key) array s;
    match r with
    | None => Val (None, s)
    | Some array => Val (Some (finish array), s)
    end
  else
    '(r, s) ← pb_decode_proto proto protos None json_object s;
    match r with
    | None => Val (None, s)
    | Some value => Val (Some (finish (json_array_append_new array (Some value))), s)
    end.

(** What a round of [while (stream->bytes_left)] ends with: a [break], a
    [return 0], or the object and the stream of the next round. *)
Inductive round := Break | Return0 | Next (result : json_t).

Definition decode_round (fuel : nat) (protos : option json_t) (result : json_t) (s : pb_istream_t)
  : exec (round * pb_istream_t) :=
  '(r, s) ← pb_decode_tag buf s;
  match r with
  | TagEof => Val (Break, s)
  | TagError => Val (Return0, s)
  | Tag _ tag =>
      match json_object_get protos "__tags" with
      | None => Val (Return0, s)
      | Some tags =>
          match json_object_get (Some tags) (sprintf_u tag) with
          | None => Val (Return0, s)
          | Some _tag =>
              match json_string_value (Some _tag) with
              | None => UB
              | Some name =>
                  match json_object_get protos name with
                  | None => Val (Return0, s)
                  | Some proto =>
                      match json_string_value (json_object_get (Some proto) "option") with
                      | None => UB
                      | Some option_text =>
                          let stored (c : exec (option json_t * pb_istream_t)) :=
                            '(r, s) ← c;
                            Val (match r with Some result => Next result | None => Return0 end, s) in
                          if bool_decide (option_text = "optional")
                             || bool_decide (option_text = "required") then
                            stored (pb_decode_proto (Some proto) protos (Some name) result s)
                          else if bool_decide (option_text = "repeated") then
                            stored (pb_decode_array fuel (Some proto) protos name result s)
                          else Val (Next result, s)
                      end
                  end
              end
          end
      end
  end.
End Step.

Fixpoint pb_decode (malloc : Z → bool) (buf : bytes) (fuel : nat) (gprotos protos : option json_t)
  (result : json_t) (s : pb_istream_t) : exec (option json_t * pb_istream_t) :=
  match fuel with
  | O => NoFuel
  | S fuel =>
      if bytes_left s =? 0 then Val (Some result, s)
      else
        '(r, s) ← decode_round malloc buf (pb_decode malloc buf fuel gprotos) gprotos fuel protos result s;
        match r with
        | Break => Val (Some result, s)
        | Return0 => Val (None, s)
        | Next result => pb_decode malloc buf fuel gprotos protos result s
        end
  end.

Definition pc_pb_decode (malloc : Z → bool) (fuel : nat) (buf : bytes) (len : Z)
  (gprotos protos : option json_t) (result : json_t) : exec (option json_t) :=
  '(r, _) ← pb_decode malloc buf fuel gprotos protos result (pb_istream_from_buffer len);
  Val r.

(** ** Safety *)

Section Schema.
Context (gprotos : option json_t).

(** What the schema [p] of a message says about the field [name]: nothing the
    decoder dereferences is missing, and its message type is in [S]. *)
Definition field_safe (S : option json_t → Prop) (p : option json_t) (name : string) : Prop :=
  match json_object_get p name with
  | None => True
  | Some proto =>
      match json_string_value (json_object_get (Some proto) "option"),
            json_string_value (json_object_get (Some proto) "type") with
      | Some _, Some type =>
          match json_object_get p "__messages" with
          | None => True
          | Some messages =>
              match find_sub_msg gprotos messages type with
              | Some sub => pb__get_type (Some type) = Val 0 → S (Some sub)
              | None => True
              end
          end
      | _, _ => False
      end
  end.

Definition message_safe (S : option json_t → Prop) (p : option json_t) : Prop :=
  match json_object_get p "__tags" with
  | None => True
  | Some tags =>
      Forall (λ kv, match json_string_value (Some kv.2) with
                    | Some name => field_safe S p name
                    | None => False
                    end) (json_object_iter tags)
  end.

(** Every message type reachable from [p] is safe. *)
Definition schema_safe (p : option json_t) : Prop :=
  ∃ S, (∀ q, S q → message_safe S q) ∧ S p.
End Schema.

Lemma get_iter (j : json_t) k v : json_object_get (Some j) k = Some v → (k, v) ∈ json_object_iter j.
Proof.
  destruct j as [h| | | | | | |]; try done. cbn [json_object_get json_object_iter]. rewrite get_map.
  unfold ht_map. apply elem_of_list_to_map_2.
Qed.

Section Safe.
Context (malloc : Z → bool) (Hmalloc : malloc 0 = false).
Context (buf : bytes) (Hbuf : zlen buf ≤ INT_MAX).
Context (gprotos : option json_t) (S : option json_t → Prop).
Context (HS : ∀ q, S q → message_safe gprotos S q).

(** [c] returns, with the stream inside [L] and no more bytes left than [n]. *)
Definition returns {A} (L n : Z) (c : exec (option A * pb_istream_t)) : Prop :=
  ∃ r s, c = Val (r, s) ∧ iwf L s ∧ bytes_left s ≤ n.

(** The recursive call on streams of less than [n] bytes. *)
Definition rec_ok (dec : option json_t → json_t → pb_istream_t → exec (option json_t * pb_istream_t))
  (n : Z) : Prop :=
  ∀ L p result s, L ≤ zlen buf → S p → iwf L s → bytes_left s < n →
    returns L (bytes_left s) (dec p result s).

Section Fuel.
Context (dec : option json_t → json_t → pb_istream_t → exec (option json_t * pb_istream_t)) (n : Z).
Context (Hrec : rec_ok dec n).
Context (L : Z) (HL : L ≤ zlen buf).

Lemma submessage_returns p dest s :
  S p → iwf L s → bytes_left s ≤ n → returns L (bytes_left s) (pb_decode_submessage buf dec p dest s).
Proof.
  intros Hp Hs Hn. unfold pb_decode_submessage.
  destruct (substream_safe buf L HL s Hs) as ([sub|] & s1 & -> & Hw1 & Hle & Hsub); rewrite bind_Val; cbv beta iota.
  - destruct Hsub as (Hws & Hb & Hlt). pose proof Hw1 as (H1 & H2 & H3).
    destruct (Hrec (istate sub + bytes_left sub) p dest sub) as (r & sub' & -> & (Hw' & Hw'' & Hw3) & _); [lia|done|done|lia|].
    rewrite bind_Val. eexists _, _. split; [done|]. unfold pb_close_string_substream, iwf.
    cbn [istate bytes_left]. lia.
  - by exists None, s1.
Qed.

Lemma scalar_returns D f key result s :
  advances L D → iwf L s →
  ∃ r s', decode_scalar D f key result s = Val (r, s') ∧ iwf L s' ∧ bytes_left s' ≤ bytes_left s ∧
    (is_Some r → bytes_left s' < bytes_left s).
Proof.
  intros HD Hs. unfold decode_scalar.
  destruct (HD s Hs) as ([v|] & s' & -> & Hw & Hle & Hlt); rewrite bind_Val; cbv beta iota; eexists _, _;
    (split; [done|]); (split; [done|]); (split; [done|]).
  - intros _. by apply Hlt.
  - by intros [? ?].
Qed.

Lemma string_field_returns key result s :
  iwf L s →
  ∃ r s', decode_string_field malloc buf key result s = Val (r, s') ∧ iwf L s' ∧
    bytes_left s' ≤ bytes_left s ∧ (is_Some r → bytes_left s' < bytes_left s).
Proof.
  intros Hs. unfold decode_string_field, pb_decode_strlen.
  destruct (varint32_advances buf L HL s Hs) as ([v|] & s1 & E & Hw & Hle & Hlt); rewrite E, bind_Val; cbv beta iota.
  2: { eexists _, _. split; [done|]. split; [done|]. split; [done|by intros [? ?]]. }
  apply varint32_u32 in E. specialize (Hlt ltac:(by eexists)). unfold is_u in E.
  destruct (malloc (u32 (v + 1))) eqn:Em; cbn [negb].
  2: { eexists _, _. split; [done|]. split; [done|]. split; [done|by intros [? ?]]. }
  assert (v ≠ 2 ^ 32 - 1) as Hv by (intros ->; change (u32 (2 ^ 32 - 1 + 1)) with 0 in Em; congruence).
  destruct (string_safe buf L HL (u32 (v + 1)) v s1 Hw) as ([bs|] & s2 & -> & Hw2 & Hle2);
    [rewrite wrap_small by (unfold is_u; lia); lia|..]; rewrite bind_Val; cbv beta iota;
    eexists _, _; (split; [done|]); (split; [done|]); (split; [lia|]).
  - intros _. lia.
  - by intros [? ?].
Qed.

(** The value of a field whose schema is safe; a scalar consumes a byte. *)
Lemma proto_returns p proto name key result s :
  json_object_get p name = Some proto → field_safe gprotos S p name → S p → iwf L s → bytes_left s ≤ n →
  ∃ r s', pb_decode_proto malloc buf dec gprotos (Some proto) p key result s = Val (r, s') ∧ iwf L s' ∧
    bytes_left s' ≤ bytes_left s ∧
    (is_Some r → pb__get_type (json_string_value (json_object_get (Some proto) "type")) ≠ Val 0 →
     bytes_left s' < bytes_left s).
Proof.
  intros Hp Hf HSp Hs Hn. unfold field_safe in Hf. rewrite Hp in Hf. unfold pb_decode_proto.
  destruct (json_string_value (json_object_get (Some proto) "option")); [|done].
  destruct (json_string_value (json_object_get (Some proto) "type")) as [type|] eqn:Et; [|done].
  assert (∀ c : exec (option json_t * pb_istream_t), (∃ r s', c = Val (r, s') ∧ iwf L s' ∧ bytes_left s' ≤ bytes_left s ∧
     (is_Some r → bytes_left s' < bytes_left s)) →
    ∃ r s', c = Val (r, s') ∧ iwf L s' ∧ bytes_left s' ≤ bytes_left s ∧
     (is_Some r → pb__get_type (Some type) ≠ Val 0 → bytes_left s' < bytes_left s)) as Hsc
    by (intros c (r & s' & H1 & H2 & H3 & H4); exists r, s'; auto).
  destruct (pb__get_type (Some type)) as [t| |] eqn:Ek; [|done..]. rewrite bind_Val.
  destruct (t =? PB_uInt32) eqn:E1; [by apply Hsc, scalar_returns; [apply varint_advances|]|].
  destruct ((t =? PB_int32) || (t =? PB_sInt32)) eqn:E2; [by apply Hsc, scalar_returns; [apply svarint_advances|]|].
  destruct (t =? PB_float) eqn:E3; [by apply Hsc, scalar_returns; [apply fixed32_advances|]|].
  destruct (t =? PB_double) eqn:E4; [by apply Hsc, scalar_returns; [apply fixed64_advances|]|].
  destruct (t =? PB_string) eqn:E5; [by apply Hsc, string_field_returns|].
  assert (t = 0) as ->.
  { unfold pb__get_type in Ek. injection Ek as <-. unfold PB_uInt32, PB_int32, PB_sInt32, PB_float, PB_double, PB_string in *.
    repeat case_bool_decide; done. }
  destruct (json_object_get p "__messages") as [messages|].
  2: { eexists _, _. split; [done|]. split; [done|]. split; [lia|done]. }
  destruct (find_sub_msg gprotos messages type) as [sub|].
  2: { eexists _, _. split; [done|]. split; [done|]. split; [lia|done]. }
  specialize (Hf eq_refl). destruct key as [k|].
  - destruct (submessage_returns (Some sub) json_object s Hf Hs Hn) as ([v|] & s1 & -> & Hw & Hle);
      rewrite bind_Val; cbv beta iota; eexists _, _; (split; [done|]); (split; [done|]); (split; [done|done]).
  - destruct (submessage_returns (Some sub) result s Hf Hs Hn) as (r & s1 & -> & Hw & Hle).
    eexists _, _. split; [done|]. split; [done|]. done.
Qed.

Lemma packed_returns p proto name fuel : ∀ i size array s,
  json_object_get p name = Some proto → field_safe gprotos S p name → S p → iwf L s → bytes_left s ≤ n →
  pb__get_type (json_string_value (json_object_get (Some proto) "type")) ≠ Val 0 →
  0 ≤ i → i + bytes_left s ≤ INT_MAX → bytes_left s < Z.of_nat fuel →
  returns L (bytes_left s) (decode_packed malloc buf dec gprotos fuel (Some proto) p name i size array s).
Proof.
  induction fuel as [|fuel IH]; intros i size array s Hp Hf HSp Hs Hn Hk Hi Hi' Hfu.
  { destruct Hs as (_ & ? & _). lia. }
  cbn [decode_packed]. destruct (negb _).
  { eexists _, _. split; [done|]. split; [done|lia]. }
  destruct (proto_returns p proto name (Some name) array s Hp Hf HSp Hs Hn) as ([a|] & s1 & -> & Hw & Hle & Hlt);
    rewrite bind_Val; cbv beta iota.
  2: { eexists _, _. done. }
  specialize (Hlt ltac:(by eexists) Hk). pose proof Hw as (_ & Hb & _).
  rewrite require_true, bind_Val by (apply Z.ltb_lt; lia).
  destruct (IH (i + 1) size a s1) as (r & s2 & -> & Hw2 & Hle2); try done; [lia..|].
  eexists _, _. split; [done|]. split; [done|lia].
Qed.

Lemma array_returns p proto name fuel result s :
  json_object_get p name = Some proto → field_safe gprotos S p name → S p → iwf L s → bytes_left s ≤ n →
  bytes_left s < Z.of_nat fuel →
  returns L (bytes_left s) (pb_decode_array malloc buf dec gprotos fuel (Some proto) p name result s).
Proof.
  intros Hp Hf HSp Hs Hn Hfu. unfold pb_decode_array.
  pose proof (proto_returns p proto name) as HP. pose proof (packed_returns p proto name fuel) as HA.
  destruct (pb__get_type (json_string_value (json_object_get (Some proto) "type"))) as [t| |] eqn:Ek.
  2, 3: exfalso; unfold field_safe in Hf; rewrite Hp in Hf;
    destruct (json_string_value (json_object_get (Some proto) "option"));
    destruct (json_string_value (json_object_get (Some proto) "type")); done.
  rewrite bind_Val. destruct (negb (t =? 0) && negb (t =? PB_string)) eqn:E1.
  - destruct (varint32_advances buf L HL s Hs) as ([size|] & s1 & -> & Hw & Hle & Hlt); rewrite bind_Val; cbv beta iota.
    2: { eexists _, _. done. }
    specialize (Hlt ltac:(by eexists)). pose proof Hw as (? & ? & ?).
    destruct (HA 0 size (default (JArray []) (json_object_get (Some result) name)) s1 Hp Hf HSp Hw)
      as ([a|] & s2 & -> & Hw2 & Hle2); [lia|b2p; congruence|lia|lia|lia|..]; rewrite bind_Val; cbv beta iota;
      (eexists _, _; split; [done|]; split; [done|lia]).
  - destruct (negb (t =? 0) && (t =? PB_string)).
    + destruct (HP (Some name) (default (JArray []) (json_object_get (Some result) name)) s Hp Hf HSp Hs Hn)
        as ([a|] & s2 & -> & Hw2 & Hle2 & _); rewrite bind_Val; cbv beta iota; by eexists _, _.
    + destruct (HP None json_object s Hp Hf HSp Hs Hn)
        as ([a|] & s2 & -> & Hw2 & Hle2 & _); rewrite bind_Val; cbv beta iota; by eexists _, _.
Qed.

Lemma round_returns p fuel result s :
  S p → iwf L s → bytes_left s ≤ n → bytes_left s < Z.of_nat fuel + 1 →
  ∃ r s', decode_round malloc buf dec gprotos fuel p result s = Val (r, s') ∧ iwf L s' ∧
    bytes_left s' ≤ bytes_left s ∧ match r with Next _ => bytes_left s' < bytes_left s | _ => True end.
Proof.
  intros HSp Hs Hn Hfu. unfold decode_round.
  destruct (tag_safe buf L HL s Hs) as (r & s1 & -> & Hw & Hle & Hlt). rewrite bind_Val. cbv beta iota.
  destruct r as [wt tag| |]; [|by eexists _, _..].
  pose proof (HS p HSp) as Hm. unfold message_safe in Hm.
  destruct (json_object_get p "__tags") as [tags|]; [|by eexists _, _].
  destruct (json_object_get (Some tags) (sprintf_u tag)) as [j|] eqn:Ej; [|by eexists _, _].
  apply get_iter in Ej. rewrite Forall_forall in Hm. specialize (Hm _ Ej). cbn [snd] in Hm.
  destruct (json_string_value (Some j)) as [name|]; [|done].
  destruct (json_object_get p name) as [proto|] eqn:Ep; [|by eexists _, _].
  destruct (json_string_value (json_object_get (Some proto) "option")) as [opt|] eqn:Eo.
  2: { unfold field_safe in Hm. by rewrite Ep, Eo in Hm. }
  destruct (_ || _); [|destruct (bool_decide _); [|by eexists _, _]].
  - destruct (proto_returns p proto name (Some name) result s1 Ep Hm HSp Hw) as (r & s2 & -> & Hw2 & Hle2 & _); [lia|].
    rewrite bind_Val. eexists _, _. split; [done|]. split; [done|]. split; [lia|]. destruct r; [lia|done].
  - destruct (array_returns p proto name fuel result s1 Ep Hm HSp Hw) as (r & s2 & -> & Hw2 & Hle2); [lia|lia|].
    rewrite bind_Val. eexists _, _. split; [done|]. split; [done|]. split; [lia|]. destruct r; [lia|done].
Qed.
End Fuel.

Lemma decode_returns fuel : rec_ok (pb_decode malloc buf fuel gprotos) (Z.of_nat fuel).
Proof.
  induction fuel as [|fuel IH]; intros L p result s HL HSp Hs Hn.
  { destruct Hs as (_ & ? & _). lia. }
  cbn [pb_decode]. destruct (bytes_left s =? 0).
  { eexists _, _. split; [done|]. split; [done|lia]. }
  destruct (round_returns (pb_decode malloc buf fuel gprotos) (Z.of_nat fuel) IH L HL p fuel result s HSp Hs)
    as (r & s1 & -> & Hw & Hle & Hlt); [lia|lia|]. rewrite bind_Val. cbv beta iota.
  destruct r as [| |result']; [by eexists _, _..|].
  destruct (IH L p result' s1 HL HSp Hw) as (r & s2 & -> & Hw2 & Hle2); [lia|].
  eexists _, _. split; [done|]. split; [done|lia].
Qed.
End Safe.


(** [message_safe], field by field. *)
Lemma message_safe_fields gprotos S p tags names :
  json_object_get p "__tags" = Some tags → (json_object_iter tags).*2 = map JString names →
  Forall (field_safe gprotos S p) names → message_safe gprotos S p.
Proof.
  intros Ht Hn Hf. unfold message_safe. rewrite Ht.
  set (Q := λ j, match json_string_value (Some j) with
    | Some name => field_safe gprotos S p name | None => False end).
  assert (Forall Q (json_object_iter tags).*2) as HQ.
  { rewrite Hn. clear -Hf. induction Hf; constructor; done. }
  clear -HQ. induction (json_object_iter tags) as [|kv l IH]; constructor.
  - by apply Forall_cons_1 in HQ as [? _].
  - apply Forall_cons_1 in HQ as [_ ?]. by apply IH.
Qed.

Lemma ex_item_safe S : message_safe None S (Some ex_item).
Proof.
  apply (message_safe_fields _ _ _ (obj [("1", JString "name"); ("2", JString "count")]) ["name"; "count"]);
    [by vm_compute..|].
  repeat (apply Forall_cons_2; [by vm_compute|]). apply Forall_nil_2.
Qed.

Lemma ex_protos_safe (S : option json_t → Prop) : S (Some ex_item) → message_safe None S (Some ex_protos).
Proof.
  intros HS. vm_compute in HS.
  apply (message_safe_fields _ _ _
    (obj [("1", JString "id"); ("2", JString "xs"); ("3", JString "w"); ("4", JString "items")])
    ["id"; "xs"; "w"; "items"]); [by vm_compute..|].
  repeat (apply Forall_cons_2; [vm_compute; by intros|]). apply Forall_nil_2.
Qed.


(** Where [malloc(0)] returns a block, a string field that
    announces a length of 0xffffffff is a write out of bounds: the block is
    allocated for [str_len + 1 = 0] bytes and the terminator is stored at
    [str_len], although the read of the string has failed. *)
Theorem pb_decode_string_overflow (malloc : Z → bool) (fuel : nat) (rest : bytes)
  (gprotos protos : option json_t) (tags proto result : json_t) (name option_text : string) (f : field_desc) :
  malloc 0 = true →
  json_object_get protos "__tags" = Some tags →
  json_object_get (Some tags) (sprintf_u (f_number f)) = Some (JString name) →
  json_object_get protos name = Some proto →
  json_string_value (json_object_get (Some proto) "option") = Some option_text →
  option_text = "optional" ∨ option_text = "required" →
  field_of (Some proto) = Some f → f_kind f = PB_string → 0 < f_number f →
  zlen rest < 2 ^ 32 - 1 →
  let buf := wire_tag f ++ varint 0xffffffff ++ rest in
  pc_pb_decode malloc (S fuel) buf (zlen buf) gprotos protos result = UB.
Proof.
  intros Hm Ht Hn Hp Ho Ho' Hf Hk Hpos Hr buf.
  destruct (field_wire_range _ _ Hf) as [Hw Hnum]. pose proof Hf as (Hty & _ & _ & Hgt)%field_of_Some.
  pose proof (varint_pos (tag_word (f_wire f) (f_number f))) as Hvp. fold (wire_tag f) in Hvp.
  pose proof (zlen_nonneg rest). pose proof (varint_pos 0xffffffff).
  assert (zlen buf = zlen (wire_tag f) + (zlen (varint 0xffffffff) + zlen rest)) as Hz
    by (unfold buf; by rewrite !zlen_app).
  unfold pc_pb_decode. cbn [pb_decode pb_istream_from_buffer bytes_left].
  rewrite (proj2 (Z.eqb_neq _ _)) by lia. unfold decode_round.
  pose proof (tag_reads (f_wire f) (f_number f) [] (varint 0xffffffff ++ rest) (zlen buf) Hw) as Htag.
  fold (wire_tag f) in Htag. cbn [app] in Htag. change (zlen (@nil Z)) with 0 in Htag.
  unfold pb_istream_from_buffer. fold buf in Htag.
  rewrite Htag by lia. rewrite !bind_Val. cbv beta iota. rewrite Ht, Hn. cbn [json_string_value].
  rewrite Hp, Ho.
  replace (bool_decide (option_text = "optional") || bool_decide (option_text = "required")) with true
    by (symmetry; apply orb_true_iff; rewrite !bool_decide_eq_true; done).
  unfold pb_decode_proto. rewrite Hty, Hgt, bind_Val, Hk. cbn [PB_string PB_uInt32 PB_int32 PB_sInt32 PB_float PB_double Z.eqb orb Pos.eqb].
  unfold decode_string_field, pb_decode_strlen.
  pose proof (varint32_reads 0xffffffff ltac:(by vm_compute) (wire_tag f) rest (zlen buf - zlen (wire_tag f)) ltac:(lia)) as Hv.
  fold buf in Hv. rewrite Z.add_0_l, Hv, bind_Val. cbv beta iota. cbn [pb_decode_string].
  change (u32 (0xffffffff + 1)) with 0. rewrite Hm. cbn [negb]. unfold pb_decode_string, pb_read.
  cbn [bytes_left].
  rewrite (proj2 (Z.ltb_lt (zlen buf - zlen (wire_tag f) - zlen (varint 0xffffffff)) 0xffffffff)) by lia.
  by rewrite !bind_Val.
Qed.

Lemma pb_decode_string_overflow_witness :
  pc_pb_decode (λ _, true) 9 (10 :: varint 0xffffffff ++ [97; 98]) 8 None (Some ex_item) json_object = UB.
Proof.
  apply (pb_decode_string_overflow (λ _, true) 8 [97; 98] None (Some ex_item)
    (obj [("1", JString "name"); ("2", JString "count")]) (field_json "required" "string" 1)
    json_object "name" "required" (mkField "string" 2 1 PB_string));
    try (by vm_compute). by right.
Defined.
