(* ===== verification/PbRoundtrip.v ===== *)
(** * Decoding what was encoded

    [well_typed] says when a JSON message fits its schema in a way that the
    wire format can carry: exact integers, floats that are floats, valid UTF-8,
    no empty array of strings or messages, tags that lead back to the field.
    [pb_message_roundtrip] composes the
    encoder of [PbEncode.v] with the decoder of [PbDecode.v]. *)

From S2P Require Import Prelude Float Utf8 Jansson PbWire PbEncode PbDecode.
Local Open Scope Z_scope.

(** ** Well-typed messages *)

Section TypedStep.
Context (typed : option json_t → json_t → bool).
Context (gprotos : option json_t).

(** A value of a scalar type that the wire format carries exactly. *)
Definition scalar_ok (kind : Z) (v : json_t) : bool :=
  match v with
  | JInteger n =>
      if kind =? PB_uInt32 then (0 <=? n) && (n <=? 2 ^ 53)
      else if (kind =? PB_int32) || (kind =? PB_sInt32) then (- 2 ^ 53 <=? n) && (n <=? 2 ^ 53)
      else false
  | JReal d =>
      if kind =? PB_float then
        let x := float_of_double d in
        (0 <=? x) && (x <? 2 ^ 32) && is_finite binary32 x && (double_of_float x =? d)
      else if kind =? PB_double then (0 <=? d) && (d <? 2 ^ 64) && is_finite binary64 d
      else false
  | JString s =>
      (kind =? PB_string) && utf8_check_string s && forallb (λ b, negb (b =? 0)) (bytes_of s)
  | _ => false
  end.

Definition value_ok (protos : option json_t) (f : field_desc) (v : json_t) : bool :=
  if f_kind f =? 0 then
    match json_object_get protos "__messages" with
    | Some messages =>
        match find_sub_msg gprotos messages (f_type f) with
        | Some sub => typed (Some sub) v
        | None => false
        end
    | None => false
    end
  else scalar_ok (f_kind f) v.

(** The tag of the field leads the decoder back to its name. *)
Definition tag_ok (protos : option json_t) (key : string) (f : field_desc) : bool :=
  (0 <? f_number f) && utf8_check_string key &&
  match json_object_get protos "__tags" with
  | Some tags =>
      match json_string_value (json_object_get (Some tags) (sprintf_u (f_number f))) with
      | Some name => bool_decide (name = key)
      | None => false
      end
  | None => false
  end.

Definition field_ok (protos : option json_t) (kv : string * json_t) : bool :=
  match json_object_get protos (fst kv) with
  | None => false
  | Some proto =>
      match json_string_value (json_object_get (Some proto) "option"), field_of (Some proto) with
      | Some option_text, Some f =>
          tag_ok protos (fst kv) f &&
          if bool_decide (option_text = "required") || bool_decide (option_text = "optional") then
            value_ok protos f (snd kv)
          else if bool_decide (option_text = "repeated") then
            match snd kv with
            | JArray l =>
                forallb (value_ok protos f) l &&
                ((negb (f_kind f =? 0) && negb (f_kind f =? PB_string)) || (0 <? zlen l))
            | _ => false
            end
          else false
      | _, _ => false
      end
  end.
End TypedStep.

Fixpoint well_typed (fuel : nat) (gprotos protos : option json_t) (msg : json_t) : bool :=
  match fuel with
  | O => false
  | S fuel =>
      match msg with
      | JObject h =>
          bool_decide (NoDup (ht_list h).*1) &&
          forallb (field_ok (well_typed fuel gprotos) gprotos protos) (ht_list h)
      | _ => false
      end
  end.

(** ** Scalars *)

Lemma until_nul_id bs : forallb (λ b, negb (b =? 0)) bs = true → until_nul bs = bs.
Proof.
  induction bs as [|b bs IH]; [done|]. cbn [forallb until_nul]. intros H. apply andb_true_iff in H as [H1 H2].
  apply negb_true_iff in H1. rewrite H1, IH; done.
Qed.

Section Decode.
Context (malloc : Z → bool) (Hmalloc : ∀ n, 0 < n < 2 ^ 63 → malloc n = true).
Context (gprotos : option json_t).

Abbreviation dec buf fuel := (pb_decode malloc buf fuel gprotos).

Lemma kind_range proto f : field_of proto = Some f → 0 ≤ f_kind f ≤ 6.
Proof.
  intros (_ & _ & _ & Hk)%field_of_Some. unfold pb__get_type in Hk. injection Hk as <-.
  unfold PB_uInt32, PB_int32, PB_sInt32, PB_float, PB_double, PB_string. repeat case_bool_decide; lia.
Qed.

Lemma decode_scalar_reads D f key result bs r pre post left :
  reads D bs r → zlen bs ≤ left →
  decode_scalar (D (pre ++ bs ++ post)) f key result (mkI (zlen pre) left) =
    Val (Some (store result key (f r)), mkI (zlen pre + zlen bs) (left - zlen bs)).
Proof. intros HD Hl. unfold decode_scalar. by rewrite (HD pre post left Hl), bind_Val. Qed.

Lemma string_field_reads s key result pre post left :
  strlen s ≤ INT_MAX → utf8_check_string s = true → forallb (λ b, negb (b =? 0)) (bytes_of s) = true →
  let bs := length_prefixed (bytes_of s) in
  zlen bs ≤ left →
  decode_string_field malloc (pre ++ bs ++ post) key result (mkI (zlen pre) left) =
    Val (Some (store result key (Some (JString s))), mkI (zlen pre + zlen bs) (left - zlen bs)).
Proof.
  intros Hlen Hu Hnul bs Hl. unfold bs, length_prefixed in *. rewrite zlen_app in *.
  fold (strlen s) in *. unfold INT_MAX in Hlen. pose proof (zlen_nonneg (bytes_of s)) as H0. fold (strlen s) in H0.
  pose proof (varint_pos (strlen s)). unfold decode_string_field, pb_decode_strlen. rewrite <- app_assoc.
  rewrite (varint32_reads (strlen s) ltac:(unfold is_u; lia)), bind_Val by lia. cbv beta iota.
  rewrite wrap_small by (unfold is_u; lia). rewrite Hmalloc by lia. cbn [negb].
  rewrite app_assoc. rewrite <- (zlen_app pre).
  rewrite (string_reads (strlen s + 1) (strlen s) (bytes_of s) eq_refl ltac:(lia)), bind_Val
    by (fold (strlen s); lia). cbv beta iota.
  rewrite until_nul_id, string_of_bytes_of by done. unfold json_string. rewrite Hu.
  fold (strlen s). rewrite zlen_app. do 3 f_equal; lia.
Qed.

(** A scalar comes back unchanged, whatever it is stored into. *)
Lemma scalar_reads protos proto f v bs ref D buf key result pre post left :
  field_of proto = Some f → f_kind f ≠ 0 → scalar_ok (f_kind f) v = true →
  wire_value ref gprotos protos f v = Some bs → zlen bs ≤ left → buf = pre ++ bs ++ post →
  pb_decode_proto malloc buf D gprotos proto protos key result (mkI (zlen pre) left) =
    Val (Some (store result key (Some v)), mkI (zlen pre + zlen bs) (left - zlen bs)).
Proof.
  intros Hf Hk0 Hok Hw Hl ->. pose proof (kind_range _ _ Hf) as Hkr.
  apply field_of_Some in Hf as (Ht & _ & _ & Hk). unfold pb_decode_proto. rewrite Ht, Hk, bind_Val.
  unfold wire_value in Hw.
  assert (f_kind f = 1 ∨ f_kind f = 2 ∨ f_kind f = 3 ∨ f_kind f = 4 ∨ f_kind f = 5 ∨ f_kind f = 6) as HK by lia.
  assert (∀ n, json_number_value (Some (JInteger n)) = double_of_int n) as Hnum by done.
  destruct HK as [E|[E|[E|[E|[E|E]]]]]; rewrite E in *; destruct v as [| |str|n|d| | |]; try done;
    cbn [Z.eqb Pos.eqb orb andb PB_uInt32 PB_int32 PB_sInt32 PB_float PB_double PB_string scalar_ok] in *;
    cbv beta iota zeta in *.
  - b2p. rewrite Hnum, int_double_int in Hw by lia. cbn in Hw. injection Hw as <-.
    rewrite wrap_small in * by (unfold is_u; lia).
    rewrite (decode_scalar_reads pb_decode_varint _ _ _ _ n) by (try apply varint_reads; unfold is_u; lia).
    by rewrite swrap_small by (unfold is_s; lia).
  - b2p. rewrite Hnum, int_double_int in Hw by lia. cbn in Hw. injection Hw as <-.
    by rewrite (decode_scalar_reads pb_decode_svarint _ _ _ _ n) by (try apply svarint_reads; unfold is_s; lia).
  - b2p. rewrite Hnum, int_double_int in Hw by lia. cbn in Hw. injection Hw as <-.
    by rewrite (decode_scalar_reads pb_decode_svarint _ _ _ _ n) by (try apply svarint_reads; unfold is_s; lia).
  - b2p. injection Hw as <-. cbn [json_number_value] in *.
    rewrite (decode_scalar_reads pb_decode_fixed32 _ _ _ _ (float_of_double d))
      by (try apply fixed32_reads; unfold is_u; lia).
    destruct (float_double_float (float_of_double d)) as [_ Hfin]; [by split; lia|done|].
    unfold json_real. rewrite Hfin. by replace (double_of_float (float_of_double d)) with d by done.
  - b2p. injection Hw as <-. cbn [json_number_value] in *.
    rewrite (decode_scalar_reads pb_decode_fixed64 _ _ _ _ d) by (try apply fixed64_reads; unfold is_u; lia).
    unfold json_real. by destruct (is_finite binary64 d).
  - b2p. cbn [json_string_value mbind option_bind] in Hw.
    destruct (Z.leb_spec (strlen str) INT_MAX); [|done]. injection Hw as <-. by apply string_field_reads.
Qed.

Lemma scalar_pos protos f v bs ref :
  0 < f_kind f ≤ 6 → wire_value ref gprotos protos f v = Some bs → 0 < zlen bs.
Proof.
  intros Hk Hw. unfold wire_value in Hw.
  assert (f_kind f = 1 ∨ f_kind f = 2 ∨ f_kind f = 3 ∨ f_kind f = 4 ∨ f_kind f = 5 ∨ f_kind f = 6) as HK by lia.
  destruct HK as [E|[E|[E|[E|[E|E]]]]]; rewrite E in *;
    cbn [Z.eqb Pos.eqb orb PB_uInt32 PB_int32 PB_sInt32 PB_float PB_double PB_string] in Hw;
    opt_inv; try apply varint_pos; try done.
  destruct (_ <=? _); [|done]. opt_inv. unfold length_prefixed. rewrite zlen_app.
  pose proof (varint_pos (zlen (bytes_of x))). pose proof (zlen_nonneg (bytes_of x)). lia.
Qed.
(** ** Rounds of the decoding loop *)

(** From the object [r0], the decoder reads [bs] and goes on with an object in [Q]. *)
Definition runs (p : option json_t) (bs : bytes) (r0 : json_t) (Q : json_t → Prop) : Prop :=
  ∀ pre post left fuel, zlen bs ≤ left → left < 2 ^ 31 → left < Z.of_nat fuel →
    ∃ r1 fuel', Q r1 ∧ left - zlen bs < Z.of_nat fuel' ∧
      dec (pre ++ bs ++ post) fuel p r0 (mkI (zlen pre) left) =
      dec (pre ++ bs ++ post) fuel' p r1 (mkI (zlen pre + zlen bs) (left - zlen bs)).

Lemma runs_nil p r (Q : json_t → Prop) : Q r → runs p [] r Q.
Proof.
  intros HQ pre post left fuel Hl H31 Hf. exists r, fuel. change (zlen (@nil Z)) with 0.
  by rewrite Z.add_0_r, Z.sub_0_r.
Qed.

Lemma runs_app p b1 b2 r0 (Q1 Q2 : json_t → Prop) :
  runs p b1 r0 Q1 → (∀ r, Q1 r → runs p b2 r Q2) → runs p (b1 ++ b2) r0 Q2.
Proof.
  intros H1 H2 pre post left fuel Hl H31 Hf. rewrite zlen_app in *.
  pose proof (zlen_nonneg b1). pose proof (zlen_nonneg b2).
  destruct (H1 pre (b2 ++ post) left fuel) as (r1 & f1 & HQ1 & Hf1 & E1); [lia..|].
  destruct (H2 r1 HQ1 (pre ++ b1) post (left - zlen b1) f1) as (r2 & f2 & HQ2 & Hf2 & E2); [lia..|].
  exists r2, f2. split; [done|]. split; [lia|].
  rewrite zlen_app in E2. rewrite <- !app_assoc in *. rewrite E1, E2. do 2 f_equal; lia.
Qed.

(** One round that stores its field. *)
Lemma runs_round p bs r0 (Q : json_t → Prop) :
  0 < zlen bs →
  (∀ pre post left fuel, zlen bs ≤ left → left < 2 ^ 31 → left ≤ Z.of_nat fuel →
    let buf := pre ++ bs ++ post in
    ∃ r1, Q r1 ∧ decode_round malloc buf (dec buf fuel) gprotos fuel p r0 (mkI (zlen pre) left) =
      Val (Next r1, mkI (zlen pre + zlen bs) (left - zlen bs))) →
  runs p bs r0 Q.
Proof.
  intros Hpos HR pre post left [|fuel] Hl H31 Hf; [lia|].
  destruct (HR pre post left fuel Hl H31 ltac:(lia)) as (r1 & HQ & E). exists r1, fuel.
  split; [done|]. split; [lia|]. cbn [pb_decode bytes_left].
  rewrite (proj2 (Z.eqb_neq _ _)) by lia. by rewrite E, bind_Val.
Qed.

Definition stored (c : exec (option json_t * pb_istream_t)) : exec (round * pb_istream_t) :=
  '(r, s) ← c; Val (match r with Some result => Next result | None => Return0 end, s).

(** The tag of a field leads to the decoder of its value. *)
Lemma round_field p key proto f opt D fuel r0 pre rest left :
  json_object_get p key = Some proto → field_of (Some proto) = Some f → tag_ok p key f = true →
  json_string_value (json_object_get (Some proto) "option") = Some opt → zlen (wire_tag f) ≤ left →
  let buf := pre ++ wire_tag f ++ rest in
  let s := mkI (zlen (pre ++ wire_tag f)) (left - zlen (wire_tag f)) in
  decode_round malloc buf D gprotos fuel p r0 (mkI (zlen pre) left) =
    if bool_decide (opt = "required") || bool_decide (opt = "optional") then
      stored (pb_decode_proto malloc buf D gprotos (Some proto) p (Some key) r0 s)
    else if bool_decide (opt = "repeated") then
      stored (pb_decode_array malloc buf D gprotos fuel (Some proto) p key r0 s)
    else Val (Next r0, s).
Proof.
  intros Hp Hf Ht Ho Hl buf s. destruct (field_wire_range _ _ Hf) as [Hw Hn]. unfold tag_ok in Ht.
  destruct (0 <? f_number f) eqn:En; [|done]. destruct (utf8_check_string key); [|done]. cbn [andb] in Ht.
  destruct (json_object_get p "__tags") as [tags|] eqn:Etags; [|done].
  destruct (json_object_get (Some tags) (sprintf_u (f_number f))) as [j|] eqn:Ej; [|done].
  destruct (json_string_value (Some j)) as [name|] eqn:Ename; [|done].
  apply bool_decide_eq_true_1 in Ht as ->. unfold decode_round, buf.
  pose proof (tag_reads (f_wire f) (f_number f) pre rest left Hw ltac:(blia) Hl) as Htag.
  fold (wire_tag f) in Htag. rewrite Htag, bind_Val. cbv beta iota.
  rewrite Etags, Ej, Ename, Hp, Ho. rewrite (orb_comm (bool_decide (opt = "optional"))).
  unfold s. rewrite zlen_app. done.
Qed.

(** ** Objects under construction *)

(** [done] with the elements of the array [k] read so far. *)
Definition with_array (k : string) (l : list json_t) (done : gmap string json_t) : gmap string json_t :=
  match l with [] => done | _ => <[k := JArray l]> done end.

Lemma array_so_far done h k l :
  done !! k = None → holds (with_array k l done) (JObject h) →
  ∃ l', default (JArray []) (json_object_get (Some (JObject h)) k) = JArray l' ∧ Forall2 same l l'.
Proof.
  intros Hk (h' & [= <-] & Hw & Hs). specialize (Hs k). cbn [json_object_get]. rewrite get_map.
  destruct l as [|v l]; cbn [with_array] in Hs.
  - rewrite Hk in Hs. inversion Hs. exists []. done.
  - rewrite lookup_insert_eq in Hs. inversion Hs as [? v' Hv E1 E2|]. subst. cbn [default from_option].
    inversion Hv; subst; [by eexists|]. eexists. split; [done|]. apply same_list.
Qed.

Lemma array_add done h k l v l' v' :
  holds (with_array k l done) (JObject h) → utf8_check_string k = true → Forall2 same l l' → same v v' →
  holds (with_array k (l ++ [v]) done) (json_object_set_new (JObject h) k (Some (JArray (l' ++ [v'])))).
Proof.
  intros Hh Hu Hl Hv.
  assert (holds (<[k := JArray (l ++ [v])]> (with_array k l done))
    (json_object_set_new (JObject h) k (Some (JArray (l' ++ [v']))))) as H.
  { apply holds_set; [done| |done]. constructor. apply Forall2_app; [done|by repeat constructor]. }
  destruct l as [|x l]; cbn [with_array app] in *; [done|]. by rewrite insert_insert_eq in H.
Qed.

(** ** Fields *)

Section Rec.
Context (ref : option json_t → json_t → option bytes) (typed : option json_t → json_t → bool).
Context (Hrec : ∀ p v bs, ref p v = Some bs → typed p v = true →
  ∀ pre post fuel, zlen bs < 2 ^ 31 → zlen bs < Z.of_nat fuel →
  ∃ r, dec (pre ++ bs ++ post) fuel p json_object (mkI (zlen pre) (zlen bs)) =
         Val (Some r, mkI (zlen pre + zlen bs) 0) ∧ same v r).

Lemma submessage_reads p v bs pre post left fuel :
  ref p v = Some bs → typed p v = true →
  let lp := length_prefixed bs in
  zlen lp ≤ left → left < 2 ^ 31 → left ≤ Z.of_nat fuel →
  let buf := pre ++ lp ++ post in
  ∃ r, pb_decode_submessage buf (dec buf fuel) p json_object (mkI (zlen pre) left) =
         Val (Some r, mkI (zlen pre + zlen lp) (left - zlen lp)) ∧ same v r.
Proof.
  intros Hv Ht lp Hl H31 Hf buf. unfold buf, lp, length_prefixed in *. rewrite zlen_app in *.
  pose proof (zlen_nonneg bs). pose proof (varint_pos (zlen bs)).
  destruct (Hrec p v bs Hv Ht (pre ++ varint (zlen bs)) post fuel) as (r & E & Hs); [lia..|].
  exists r. split; [|done]. rewrite <- !app_assoc in *.
  unfold pb_decode_submessage, pb_make_string_substream.
  rewrite (varint32_reads (zlen bs) ltac:(unfold is_u; lia)), !bind_Val by lia. cbv beta iota.
  cbn [bytes_left istate]. rewrite (proj2 (Z.ltb_ge _ _)), bind_Val by lia.
  rewrite zlen_app in E. rewrite E, bind_Val. unfold pb_close_string_substream.
  cbn [bytes_left istate]. do 3 f_equal; lia.
Qed.

(** The value of a required or optional field. *)
Lemma value_reads p proto f key v bs h pre post left fuel :
  field_of (Some proto) = Some f → value_ok typed gprotos p f v = true →
  wire_value ref gprotos p f v = Some bs →
  zlen bs ≤ left → left < 2 ^ 31 → left ≤ Z.of_nat fuel →
  let buf := pre ++ bs ++ post in
  ∃ v', same v v' ∧
    pb_decode_proto malloc buf (dec buf fuel) gprotos (Some proto) p (Some key) (JObject h) (mkI (zlen pre) left) =
      Val (Some (json_object_set_new (JObject h) key (Some v')), mkI (zlen pre + zlen bs) (left - zlen bs)).
Proof.
  intros Hf Hok Hw Hl H31 Hfu buf. unfold value_ok in Hok. destruct (Z.eqb_spec (f_kind f) 0) as [E|E].
  - pose proof Hf as (Ht & _ & _ & Hk)%field_of_Some. unfold wire_value in Hw. rewrite E in Hw, Hk.
    cbn [Z.eqb orb PB_uInt32 PB_int32 PB_sInt32 PB_float PB_double PB_string] in Hw. opt_inv.
    rewrite H, H0 in Hok.
    destruct (submessage_reads (Some x0) v x1 pre post left fuel H1 Hok Hl H31 Hfu) as (r & Er & Hs).
    exists r. split; [done|]. unfold pb_decode_proto. rewrite Ht, Hk, bind_Val.
    cbn [Z.eqb orb PB_uInt32 PB_int32 PB_sInt32 PB_float PB_double PB_string]. rewrite H, H0.
    unfold buf. by rewrite Er, bind_Val.
  - exists v. split; [constructor|].
    change (json_object_set_new (JObject h) key (Some v)) with (store (JObject h) (Some key) (Some v)).
    by eapply scalar_reads.
Qed.

Lemma value_ok_kind p f v : value_ok typed gprotos p f v = true → f_kind f ≠ 0 → scalar_ok (f_kind f) v = true.
Proof. unfold value_ok. by destruct (Z.eqb_spec (f_kind f) 0). Qed.

(** The elements of a packed array. *)
Lemma packed_reads p proto f key l : ∀ bs i acc pre post left fuel D buf,
  field_of (Some proto) = Some f → f_kind f ≠ 0 → forallb (value_ok typed gprotos p f) l = true →
  concat_opt (wire_value ref gprotos p f) l = Some bs → 0 ≤ i →
  zlen bs ≤ left → left < 2 ^ 31 → zlen bs < Z.of_nat fuel → i + zlen l < 2 ^ 31 → buf = pre ++ bs ++ post →
  decode_packed malloc buf D gprotos fuel (Some proto) p key i (i + zlen l) (JArray acc) (mkI (zlen pre) left) =
    Val (Some (JArray (acc ++ l)), mkI (zlen pre + zlen bs) (left - zlen bs)).
Proof.
  induction l as [|v l IH]; intros bs i acc pre post left fuel D buf Hf Hk Hok Hw Hi Hl H31 Hfu Hsz ->.
  - cbn [concat_opt] in Hw. injection Hw as <-. change (zlen (@nil Z)) with 0 in *.
    change (zlen (@nil json_t)) with 0 in *. destruct fuel; [lia|]. cbn [decode_packed].
    rewrite wrap_small by (unfold is_u; lia). rewrite (proj2 (Z.ltb_ge _ _)) by lia. cbn [negb].
    by rewrite app_nil_r, Z.add_0_r, Z.sub_0_r.
  - cbn [concat_opt forallb] in *. opt_inv. apply andb_true_iff in Hok as [Hv Hok].
    rewrite zlen_cons, zlen_app in *. pose proof (kind_range _ _ Hf) as Hkr.
    pose proof (scalar_pos p f v x ref ltac:(lia) H) as Hpos. pose proof (zlen_nonneg x0).
    pose proof (zlen_nonneg l). destruct fuel as [|fuel]; [lia|]. cbn [decode_packed].
    rewrite wrap_small by (unfold is_u; lia). rewrite (proj2 (Z.ltb_lt _ _)) by lia. cbn [negb].
    rewrite <- app_assoc.
    rewrite (scalar_reads p (Some proto) f v x ref D (pre ++ x ++ x0 ++ post) (Some key) (JArray acc) pre (x0 ++ post) left)
      by (done || lia || by apply value_ok_kind with p).
    rewrite bind_Val. cbv beta iota. rewrite require_true, bind_Val by (apply Z.ltb_lt; unfold INT_MAX; lia).
    cbn [store json_is_object json_array_append_new].
    rewrite app_assoc, <- (zlen_app pre). replace (i + (1 + zlen l)) with ((i + 1) + zlen l) by lia.
    rewrite (IH x0 (i + 1) (acc ++ [v]) (pre ++ x) post (left - zlen x)) by (done || lia).
    rewrite <- (app_assoc acc), zlen_app. do 3 f_equal; lia.
Qed.

(** Where a field sits in its schema. *)
Record field_at (p : option json_t) (key : string) (opt : string) (proto : json_t) (f : field_desc) : Prop := {
  fa_get : json_object_get p key = Some proto;
  fa_field : field_of (Some proto) = Some f;
  fa_tag : tag_ok p key f = true;
  fa_opt : json_string_value (json_object_get (Some proto) "option") = Some opt
}.

Lemma tag_ok_utf8 p key f : tag_ok p key f = true → utf8_check_string key = true.
Proof. unfold tag_ok. intros H. b2p. done. Qed.

Lemma wire_tag_pos f : 0 < zlen (wire_tag f).
Proof. apply varint_pos. Qed.

Lemma singular_runs p key opt proto f v bs r done :
  field_at p key opt proto f → bool_decide (opt = "required") || bool_decide (opt = "optional") = true →
  value_ok typed gprotos p f v = true → wire_value ref gprotos p f v = Some bs → holds done r →
  runs p (wire_tag f ++ bs) r (holds (<[key := v]> done)).
Proof.
  intros [Hp Hf Ht Ho] Hopt Hok Hw Hh. pose proof (wire_tag_pos f). pose proof (zlen_nonneg bs).
  apply runs_round; [rewrite zlen_app; lia|]. intros pre post left fuel Hl H31 Hfu buf.
  rewrite zlen_app in *. pose proof Hh as (h & -> & _).
  destruct (value_reads p proto f key v bs h (pre ++ wire_tag f) post (left - zlen (wire_tag f)) fuel Hf Hok Hw)
    as (v' & Hs & E); [lia..|].
  eexists. split; [by apply (holds_set done h key v v'); [|done|by eapply tag_ok_utf8]|].
  pose proof (round_field p key proto f opt (dec buf fuel) fuel (JObject h) pre (bs ++ post) left Hp Hf Ht Ho ltac:(lia)) as R.
  cbv zeta in R. rewrite app_assoc in R. unfold buf in *. rewrite <- !app_assoc in *. rewrite R, Hopt.
  rewrite E. unfold stored. rewrite bind_Val, zlen_app. do 2 f_equal; f_equal; lia.
Qed.

(** An element of an array of strings or messages. *)
Lemma element_runs p key opt proto f v bs r done l :
  field_at p key opt proto f → bool_decide (opt = "required") || bool_decide (opt = "optional") = false →
  opt = "repeated" → f_kind f = 0 ∨ f_kind f = PB_string →
  value_ok typed gprotos p f v = true → wire_value ref gprotos p f v = Some bs →
  done !! key = None → holds (with_array key l done) r →
  runs p (wire_tag f ++ bs) r (holds (with_array key (l ++ [v]) done)).
Proof.
  intros [Hp Hf Ht Ho] Hopt -> Hkind Hok Hw Hk Hh. pose proof (wire_tag_pos f). pose proof (zlen_nonneg bs).
  apply runs_round; [rewrite zlen_app; lia|]. intros pre post left fuel Hl H31 Hfu buf.
  rewrite zlen_app in *. pose proof Hh as (h & -> & _).
  destruct (array_so_far done h key l Hk Hh) as (l' & Earr & Hl').
  pose proof (round_field p key proto f "repeated" (dec buf fuel) fuel (JObject h) pre (bs ++ post) left Hp Hf Ht Ho ltac:(lia)) as R.
  cbv zeta in R. rewrite app_assoc in R. unfold buf in *. rewrite <- !app_assoc in *. rewrite R, Hopt.
  rewrite bool_decide_true by done. clear R. pose proof Hf as (Hty & _ & _ & Hgt)%field_of_Some.
  unfold pb_decode_array. rewrite Hty, Hgt, bind_Val, Earr.
  set (s := mkI _ _). destruct Hkind as [E|E].
  - rewrite E. cbn [Z.eqb negb andb].
    unfold value_ok in Hok. rewrite E in Hok. unfold wire_value in Hw. rewrite E in Hw, Hgt.
    cbn [Z.eqb orb PB_uInt32 PB_int32 PB_sInt32 PB_float PB_double PB_string] in Hw, Hok. opt_inv.
    rewrite H1, H2 in Hok. rename x1 into ms.
    destruct (submessage_reads (Some x0) v ms (pre ++ wire_tag f) post (left - zlen (wire_tag f)) fuel H3 Hok)
      as (v' & Ev & Hs); [lia..|]. rewrite <- !app_assoc in Ev. fold s in Ev.
    unfold pb_decode_proto. rewrite Hty, Hgt, bind_Val.
    cbn [Z.eqb orb PB_uInt32 PB_int32 PB_sInt32 PB_float PB_double PB_string]. rewrite H1, H2, Ev, bind_Val.
    cbv beta iota. cbn [json_array_append_new]. unfold stored. rewrite bind_Val.
    eexists. split; [by apply array_add; [|by eapply tag_ok_utf8| |]|].
    unfold s. rewrite zlen_app. do 2 f_equal; f_equal; lia.
  - rewrite E. cbn [Z.eqb Pos.eqb PB_string negb andb].
    rewrite (scalar_reads p (Some proto) f v bs ref _ _ (Some key) (JArray l') (pre ++ wire_tag f) post
      (left - zlen (wire_tag f)) Hf); [|by rewrite E| |done|lia|by rewrite <- !app_assoc].
    2: { apply value_ok_kind with p; [done|by rewrite E]. }
    rewrite bind_Val. cbv beta iota. cbn [store json_is_object json_array_append_new]. unfold stored. rewrite bind_Val.
    eexists. split; [by apply array_add; [|by eapply tag_ok_utf8| |constructor]|].
    rewrite zlen_app. do 2 f_equal; f_equal; lia.
Qed.

Lemma elements_runs p key opt proto f todo : ∀ bs r done l,
  field_at p key opt proto f → bool_decide (opt = "required") || bool_decide (opt = "optional") = false →
  opt = "repeated" → f_kind f = 0 ∨ f_kind f = PB_string →
  forallb (value_ok typed gprotos p f) todo = true →
  concat_opt (λ v, app (wire_tag f) <$> wire_value ref gprotos p f v) todo = Some bs →
  done !! key = None → holds (with_array key l done) r →
  runs p bs r (holds (with_array key (l ++ todo) done)).
Proof.
  induction todo as [|v todo IH]; intros bs r done l Hfa Hopt Hrep Hkind Hok Hw Hk Hh;
    cbn [concat_opt forallb] in *; opt_inv.
  - rewrite app_nil_r. by apply runs_nil.
  - apply andb_true_iff in Hok as [Hv Hok]. eapply runs_app; [by eapply element_runs|].
    intros r1 Hr1. replace (l ++ v :: todo) with ((l ++ [v]) ++ todo) by (by rewrite <- app_assoc).
    by apply IH.
Qed.

Lemma packed_runs p key opt proto f l bs r done :
  field_at p key opt proto f → bool_decide (opt = "required") || bool_decide (opt = "optional") = false →
  opt = "repeated" → f_kind f ≠ 0 → f_kind f ≠ PB_string → zlen l < 2 ^ 31 →
  forallb (value_ok typed gprotos p f) l = true →
  concat_opt (wire_value ref gprotos p f) l = Some bs → done !! key = None → holds done r →
  runs p (wire_tag f ++ varint (zlen l) ++ bs) r (holds (<[key := JArray l]> done)).
Proof.
  intros [Hp Hf Ht Ho] Hopt -> Hk0 Hk6 Hz Hok Hw Hk Hh. pose proof (wire_tag_pos f). pose proof (zlen_nonneg bs).
  pose proof (varint_pos (zlen l)). pose proof (zlen_nonneg l).
  apply runs_round; [rewrite !zlen_app; lia|]. intros pre post left fuel Hl H31 Hfu buf.
  rewrite !zlen_app in *. pose proof Hh as (h & -> & _).
  destruct (array_so_far done h key [] Hk Hh) as (l' & Earr & Hl'). inversion Hl'. subst l'.
  pose proof (round_field p key proto f "repeated" (dec buf fuel) fuel (JObject h) pre (varint (zlen l) ++ bs ++ post) left Hp Hf Ht Ho ltac:(lia)) as R.
  cbv zeta in R. unfold buf in *. rewrite <- !app_assoc in *. rewrite R, Hopt.
  rewrite bool_decide_true by done. clear R. pose proof Hf as (Hty & _ & _ & Hgt)%field_of_Some.
  unfold pb_decode_array. rewrite Hty, Hgt, bind_Val, Earr.
  rewrite (proj2 (Z.eqb_neq _ _) Hk0), (proj2 (Z.eqb_neq _ _) Hk6). cbn [negb andb].
  rewrite (app_assoc pre (wire_tag f)).
  rewrite (varint32_reads (zlen l) ltac:(unfold is_u; lia)), bind_Val by lia. cbv beta iota.
  rewrite (app_assoc (pre ++ wire_tag f)), <- zlen_app.
  rewrite (packed_reads p proto f key l bs 0 [] ((pre ++ wire_tag f) ++ varint (zlen l)) post
    (left - zlen (wire_tag f) - zlen (varint (zlen l))) fuel) by (done || lia).
  rewrite bind_Val. cbv beta iota. cbn [app]. unfold stored. rewrite bind_Val.
  eexists. split; [by apply holds_set; [|constructor; apply same_list|by eapply tag_ok_utf8]|].
  rewrite !zlen_app. do 2 f_equal; f_equal; lia.
Qed.

Lemma field_runs p key v bs r done :
  field_ok typed gprotos p (key, v) = true → wire_field ref gprotos p (key, v) = Some bs →
  done !! key = None → holds done r → runs p bs r (holds (<[key := v]> done)).
Proof.
  unfold field_ok, wire_field. cbn [fst snd]. intros Hok Hw Hk Hh.
  destruct (json_object_get p key) as [proto|] eqn:Ep; [|done].
  destruct (json_string_value (json_object_get (Some proto) "option")) as [opt|] eqn:Eo; [|done].
  destruct (field_of (Some proto)) as [f|] eqn:Ef; [|done]. cbn [mbind option_bind] in Hw.
  rewrite Eo in Hw. cbn [mbind option_bind] in Hw. rewrite Ef in Hw. cbn [mbind option_bind] in Hw.
  apply andb_true_iff in Hok as [Ht Hok].
  assert (field_at p key opt proto f) as Hfa by done.
  destruct (bool_decide (opt = "required") || bool_decide (opt = "optional")) eqn:Eopt.
  { opt_inv. by eapply singular_runs. }
  case_bool_decide as Er; [|done]. destruct v as [|l| | | | | |]; try done.
  apply andb_true_iff in Hok as [Hok Hne]. unfold wire_array in Hw.
  destruct (negb (f_kind f =? 0) && negb (f_kind f =? PB_string)) eqn:Ek.
  - destruct (Z.ltb_spec (zlen l) (2 ^ 31)); [|done]. opt_inv. clear Hne. b2p. by eapply packed_runs.
  - cbn [orb] in Hne. pose proof (elements_runs p key opt proto f l bs r done []) as HE. cbn [app] in HE.
    destruct l as [|v l]; [done|]. apply HE; try done. b2p; auto.
Qed.

Lemma fields_runs p kvs : ∀ bs r done,
  forallb (field_ok typed gprotos p) kvs = true → concat_opt (wire_field ref gprotos p) kvs = Some bs →
  NoDup kvs.*1 → (∀ k, k ∈ kvs.*1 → done !! k = None) → holds done r →
  runs p bs r (holds (list_to_map kvs ∪ done)).
Proof.
  induction kvs as [|[k v] kvs IH]; intros bs r done Hok Hw Hnd Hdis Hh; cbn [forallb concat_opt] in *; opt_inv.
  - apply runs_nil. simpl. by rewrite (left_id_L ∅ (∪)).
  - apply andb_true_iff in Hok as [Hkv Hok]. rewrite fmap_cons in Hnd, Hdis. cbn [fst] in Hnd, Hdis.
    apply NoDup_cons_1_1 in Hnd as Hk. apply NoDup_cons_1_2 in Hnd.
    eapply runs_app; [apply (field_runs p k v x r done Hkv H); [apply Hdis; set_solver|done]|].
    intros r1 Hr1. replace (list_to_map ((k, v) :: kvs) ∪ done) with (list_to_map kvs ∪ <[k := v]> done).
    + apply IH; try done. intros k' Hk'. rewrite lookup_insert_ne by set_solver. apply Hdis. set_solver.
    + cbn [list_to_map foldr fst snd]. rewrite <- insert_union_l, insert_union_r; [done|]. by apply not_elem_of_list_to_map.
Qed.
End Rec.

Lemma decode_wire fuel : ∀ p v bs,
  wire fuel gprotos p v = Some bs → well_typed fuel gprotos p v = true →
  ∀ pre post dfuel, zlen bs < 2 ^ 31 → zlen bs < Z.of_nat dfuel →
  ∃ r, dec (pre ++ bs ++ post) dfuel p json_object (mkI (zlen pre) (zlen bs)) =
         Val (Some r, mkI (zlen pre + zlen bs) 0) ∧ same v r.
Proof.
  induction fuel as [|fuel IH]; intros p v bs Hw Ht pre post dfuel H31 Hd; [done|].
  cbn [wire well_typed] in *. destruct v as [h| | | | | | |]; try done. opt_inv.
  destruct (Z.ltb_spec (zlen x) (2 ^ 62)); [|done]. opt_inv. cbn [json_object_iter] in H.
  apply andb_true_iff in Ht as [Hnd Hok]. apply bool_decide_eq_true_1 in Hnd.
  destruct (fields_runs (wire fuel gprotos) (well_typed fuel gprotos) IH p (ht_list h) bs json_object ∅ Hok H Hnd)
    with (pre := pre) (post := post) (left := zlen bs) (fuel := dfuel) as (r & f' & Hr & Hf' & E); try done.
  - eexists. split; [done|]. destruct (init_map (V := json_t)) as [Hi ->]. split; [done|].
    intros k. rewrite !lookup_empty. constructor.
  - rewrite Z.sub_diag in *. destruct f' as [|f']; [lia|]. cbn [pb_decode bytes_left] in E.
    exists r. split; [exact E|]. rewrite (right_id_L ∅ (∪)) in Hr. destruct Hr as (h' & -> & _ & Hs).
    by constructor.
Qed.
End Decode.

(** C8 (roundtrip). A well-typed message that [pc_pb_encode] writes into a
    buffer is decoded by [pc_pb_decode] into the same JSON value, up to the order
    of the pairs of its objects: nested messages, packed arrays, arrays of
    strings and of messages included. *)
Theorem pb_message_roundtrip (malloc : Z → bool) (fuel : nat) (buf bs : bytes)
  (gprotos protos : option json_t) (msg : json_t) :
  (∀ n, 0 < n < 2 ^ 63 → malloc n = true) →
  wire fuel gprotos protos msg = Some bs → well_typed fuel gprotos protos msg = true →
  zlen bs ≤ zlen buf → zlen buf < 2 ^ 31 →
  ∃ mem r, pc_pb_encode fuel buf (zlen buf) gprotos protos msg = Val (Some (zlen bs, mem)) ∧
    pc_pb_decode malloc (S (length bs)) mem (zlen bs) gprotos protos json_object = Val (Some r) ∧
    same msg r.
Proof.
  intros Hm Hw Ht Hl Hb. rewrite (encode_wire_eq _ _ _ _ _ _ Hw) by lia.
  rewrite (proj2 (Z.leb_le _ _) Hl).
  destruct (decode_wire malloc Hm gprotos fuel protos msg bs Hw Ht [] (drop (length bs) buf) (S (length bs)))
    as (r & E & Hs); [lia|unfold zlen; lia|].
  eexists _, r. split; [done|]. split; [|done]. unfold pc_pb_decode, pb_istream_from_buffer.
  cbn [app] in E. change (zlen (@nil Z)) with 0 in E. by rewrite E.
Qed.

Lemma pb_message_roundtrip_witness :
  ∃ mem r, pc_pb_encode 3 (zeros 64) 64 None (Some ex_protos) ex_msg = Val (Some (32, mem)) ∧
    pc_pb_decode (λ _, true) 33 mem 32 None (Some ex_protos) json_object = Val (Some r) ∧ same ex_msg r.
Proof.
  assert (wire 3 None (Some ex_protos) ex_msg = Some ex_wire) as Hw by (by vm_compute).
  assert (zlen ex_wire = 32) as Hz by (by vm_compute).
  destruct (pb_message_roundtrip (λ _, true) 3 (zeros 64) ex_wire None (Some ex_protos) ex_msg)
    as (mem & r & E1 & E2 & Hs); [done|exact Hw|by vm_compute|by rewrite Hz|done|].
  rewrite Hz in E1, E2. exists mem, r. split; [exact E1|]. split; [exact E2|exact Hs].
Defined.
