(* ===== verification/Listeners.v ===== *)
(** * Event listeners ([src/src/client.c], [src/src/listener.c])

    The client keeps, per event name, a queue of listeners: the map
    [client->listeners] holds the queue heads, the listeners are blocks with a
    callback and a queue node. The model keeps the map (any implementation of
    [StringMap]), the links of heads and nodes, and the callback field of every
    live listener block. The refinement theorem shows that adding, removing and
    emitting behave as on a finite map from event names to lists of callbacks,
    and that closing the client frees every block.

    [pc_emit_event] calls the callbacks with [listener_mutex] held, and the mutex
    is not recursive, so no callback of a run that returns changes the registry:
    the calls made are the result of the operation. Mutex calls have no other
    effect here, every operation being one critical section. *)

From S2P Require Import Prelude NgxQueue QueueFamily PcMap StringMap.
Local Open Scope Z_scope.

Section Listeners.
Context {M : Type → Type} `{SM : StringMap M} {CB : Type} `{EqDecision CB}.

(** A head block is named by the [Z] of [Bucket], a listener block by the
    [positive] of [PairNode]. [l_cbs] is the field [cb] ([None] is NULL). *)
Record registry := mkReg {
  l_map : M Z;
  l_links : qheap addr;
  l_cbs : gmap positive (option CB);
  next_head : Z;
  next_listener : positive
}.

Definition with_links (r : registry) (h : qheap addr) : registry :=
  mkReg (l_map r) h (l_cbs r) (next_head r) (next_listener r).

Definition with_cb (r : registry) (n : positive) (c : option CB) : registry :=
  mkReg (l_map r) (l_links r) (<[n := c]> (l_cbs r)) (next_head r) (next_listener r).

Definition with_map (r : registry) (m : M Z) : registry :=
  mkReg m (l_links r) (l_cbs r) (next_head r) (next_listener r).

(** ** Listener blocks *)

Definition pc_listener_init (n : positive) (r : registry) : exec (registry * Z) :=
  let r := with_cb r n None in
  h ← ngx_queue_init (PairNode n) (l_links r);
  Val (with_links r h, 0).

Definition pc_listener_new (malloc_ok : bool) (r : registry) : exec (registry * option positive) :=
  if negb malloc_ok then Val (r, None)
  else
    let n := next_listener r in
    let r := mkReg (l_map r) (q_alloc (PairNode n) (l_links r)) (l_cbs r) (next_head r)
               (Pos.succ n) in
    '(r, e) ← pc_listener_init n r;
    if negb (e =? 0) then
      Val (mkReg (l_map r) (q_free (PairNode n) (l_links r)) (delete n (l_cbs r)) (next_head r)
             (next_listener r), None)
    else Val (r, Some n).

Definition pc_listener_destroy (n : positive) (r : registry) : exec registry :=
  h ← ngx_queue_remove (PairNode n) (l_links r);
  _ ← require (bool_decide (is_Some (l_cbs r !! n)));
  Val (mkReg (l_map r) (q_free (PairNode n) h) (delete n (l_cbs r)) (next_head r)
         (next_listener r)).

(** [ngx_queue_data] of a node: the block around it. *)
Definition listener_of (a : addr) : exec positive :=
  match a with PairNode n => Val n | Bucket _ => UB end.

Definition listener_cb (r : registry) (n : positive) : exec (option CB) :=
  match l_cbs r !! n with Some c => Val c | None => UB end.

Definition free_head (h : Z) (r : registry) : exec registry :=
  _ ← require (bool_decide (Bucket h ∈ dom (q_prev (l_links r))));
  Val (with_links r (q_free (Bucket h) (l_links r))).

(** The bound of the traversals: one more than there are listeners. *)
Definition listener_fuel (r : registry) : nat := S (size (l_cbs r)).

(** ** The operations *)

Definition pc_add_listener (closed malloc_listener malloc_head : bool) (event : string)
    (event_cb : CB) (r : registry) : exec (registry * Z) :=
  if closed then Val (r, -1)
  else
    '(r, l) ← pc_listener_new malloc_listener r;
    match l with
    | None => Val (r, -1)
    | Some listener =>
        let r := with_cb r listener (Some event_cb) in
        head ← sm_get (l_map r) event;
        match head with
        | Some head =>
            h ← ngx_queue_insert_tail (Bucket head) (PairNode listener) (l_links r);
            Val (with_links r h, 0)
        | None =>
            if negb malloc_head then r ← pc_listener_destroy listener r; Val (r, -1)
            else
              let head := next_head r in
              h ← ngx_queue_init (Bucket head) (q_alloc (Bucket head) (l_links r));
              '(m, _) ← sm_set (l_map r) event head;
              h ← ngx_queue_insert_tail (Bucket head) (PairNode listener) h;
              Val (mkReg m h (l_cbs r) (head + 1) (next_listener r), 0)
        end
    end.

Definition remove_body (cb : CB) (item : addr) (r : registry) : exec (registry * bool) :=
  listener ← listener_of item;
  c ← listener_cb r listener;
  if bool_decide (c = Some cb) then
    h ← ngx_queue_remove item (l_links r);
    r ← pc_listener_destroy listener (with_links r h);
    Val (r, true)
  else Val (r, false).

Definition pc_remove_listener (event : string) (cb : CB) (r : registry) : exec registry :=
  head ← sm_get (l_map r) event;
  match head with
  | None => Val r
  | Some head =>
      r ← ngx_queue_foreach l_links (listener_fuel r) (Bucket head) (remove_body cb) r;
      e ← ngx_queue_empty (Bucket head) (l_links r);
      if e : bool then
        '(m, _) ← sm_del (l_map r) event;
        free_head head (with_map r m)
      else Val r
  end.

(** The body of the loop of [pc_emit_event], with the calls made so far; calling
    a null callback is undefined. *)
Definition emit_body (item : addr) (s : registry * list CB) : exec (registry * list CB * bool) :=
  let '(r, calls) := s in
  listener ← listener_of item;
  c ← listener_cb r listener;
  match c with
  | Some c => Val (r, calls ++ [c], false)
  | None => UB
  end.

Definition pc_emit_event (event : string) (r : registry) : exec (list CB) :=
  head ← sm_get (l_map r) event;
  match head with
  | None => Val []
  | Some head =>
      '(_, calls) ← ngx_queue_foreach (λ s, l_links (fst s)) (listener_fuel r) (Bucket head)
                      emit_body (r, []);
      Val calls
  end.

(** ** Release *)

(** The loop [while (!ngx_queue_empty(head))]. *)
Fixpoint release_loop (fuel : nat) (head : Z) (r : registry) : exec registry :=
  match fuel with
  | O => NoFuel
  | S fuel =>
      e ← ngx_queue_empty (Bucket head) (l_links r);
      if e : bool then Val r
      else
        q ← ngx_queue_head (Bucket head) (l_links r);
        h ← ngx_queue_remove q (l_links r);
        h ← ngx_queue_init q h;
        l ← listener_of q;
        r ← pc_listener_destroy l (with_links r h);
        release_loop fuel head r
  end.

(** The value of a pair is never null here: only heads are stored. *)
Definition pc__release_listeners (head : Z) (r : registry) : exec registry :=
  r ← release_loop (listener_fuel r) head r;
  free_head head r.

Fixpoint release_pairs (rel : list (string * Z)) (r : registry) : exec registry :=
  match rel with
  | [] => Val r
  | (_, head) :: rel => r ← pc__release_listeners head r; release_pairs rel r
  end.

(** [pc_map_destroy(client->listeners)] with the release callback above: the
    callback does not touch the map, so its calls can follow the map's own work. *)
Definition destroy_listeners (r : registry) : exec registry :=
  rel ← sm_destroy (l_map r);
  release_pairs rel r.

Definition listeners_new : exec registry :=
  m ← (sm_new Z : exec (M Z));
  Val (mkReg m (mkHeap ∅ ∅) ∅ 0 1).

(** ** Representation *)

Lemma Forall2_impl_in {A B} (P Q : A → B → Prop) l k :
  (∀ a b, a ∈ l → P a b → Q a b) → Forall2 P l k → Forall2 Q l k.
Proof.
  intros Hi. induction 1 as [|a b l k Hab _ IH]; constructor.
  - apply Hi; [set_solver|done].
  - apply IH. intros x y Hx. apply Hi. set_solver.
Qed.

Definition live (heads : gmap string Z) (h : Z) : Prop := ∃ e, heads !! e = Some h.

(** The links and blocks of [r] hold, for the heads [heads] of the events, the
    nodes [bk], whose callbacks are [G]; every allocated address is one of
    theirs. *)
Record links_rep (r : registry) (heads : gmap string Z) (bk : Z → list positive)
    (G : gmap string (list CB)) : Prop := {
  lr_inj e e' h : heads !! e = Some h → heads !! e' = Some h → e = e';
  lr_head h : live heads h → h < next_head r;
  lr_queue h : live heads h → is_queue (l_links r) (Bucket h) (PairNode <$> bk h);
  lr_disj i j x : live heads i → live heads j → x ∈ bk i → x ∈ bk j → i = j;
  lr_cbs e h : heads !! e = Some h →
    ∃ cs, G !! e = Some cs ∧ Forall2 (λ n c, l_cbs r !! n = Some (Some c)) (bk h) cs;
  lr_none e : heads !! e = None → G !! e = None;
  lr_own n : is_Some (l_cbs r !! n) → ∃ h, live heads h ∧ n ∈ bk h;
  lr_next n : is_Some (l_cbs r !! n) → (n < next_listener r)%positive;
  lr_dom : dom (q_next (l_links r)) = dom (q_prev (l_links r));
  lr_alloc a : a ∈ dom (q_prev (l_links r)) →
    match a with Bucket h => live heads h | PairNode n => is_Some (l_cbs r !! n) end
}.

(** The registry of [G]: an event without listeners has no queue. *)
Definition reg_rep `{!StringMapOk M} (r : registry) (G : gmap string (list CB)) : Prop :=
  (∃ heads bk, sm_rep (l_map r) heads ∧ links_rep r heads bk G) ∧
  map_Forall (λ _ cs, cs ≠ []) G.

Lemma lr_node r heads bk G h n :
  links_rep r heads bk G → live heads h → n ∈ bk h → is_Some (l_cbs r !! n).
Proof.
  intros R [e He] Hn. destruct (lr_cbs _ _ _ _ R e h He) as (cs & _ & Hc).
  apply list_elem_of_lookup in Hn as [i Hi].
  destruct (Forall2_lookup_l _ _ _ _ _ Hc Hi) as (c & _ & ->). by eexists.
Qed.

Lemma lr_nodup r heads bk G h : links_rep r heads bk G → live heads h → NoDup (bk h).
Proof.
  intros R Hl. destruct (lr_queue _ _ _ _ R h Hl) as [Hd _].
  by apply NoDup_cons_1_2, NoDup_fmap_1 in Hd.
Qed.

Lemma lr_fuel r heads bk G h :
  links_rep r heads bk G → live heads h → (length (bk h) < listener_fuel r)%nat.
Proof.
  intros R Hl. unfold listener_fuel.
  rewrite <- size_dom, <- (size_list_to_set (C := gset positive) (bk h)) by (by eapply lr_nodup).
  apply Nat.lt_succ_r, subseteq_size. intros n Hn%elem_of_list_to_set.
  by eapply elem_of_dom, lr_node.
Qed.

Lemma lr_fresh_node r heads bk G h :
  links_rep r heads bk G → live heads h → next_listener r ∉ bk h.
Proof.
  intros R Hl Hn. pose proof (lr_next _ _ _ _ R _ (lr_node _ _ _ _ _ _ R Hl Hn)). lia.
Qed.

(** Unlinking, destroying one listener of an event. *)
Lemma unlink_listener r heads bk G e h xs n ys cs c ds :
  links_rep r heads bk G → heads !! e = Some h → bk h = xs ++ n :: ys →
  G !! e = Some (cs ++ c :: ds) → length xs = length cs →
  ∃ H1, ngx_queue_remove (PairNode n) (l_links r) = Val H1 ∧
    ngx_queue_remove (PairNode n) H1 = Val H1 ∧
    PairNode n ∈ dom (q_prev H1) ∧ PairNode n ∈ dom (q_next H1) ∧
    links_rep (mkReg (l_map r) (q_free (PairNode n) H1) (delete n (l_cbs r)) (next_head r)
                 (next_listener r)) heads (bk_set bk h (xs ++ ys)) (<[e := cs ++ ds]> G).
Proof.
  intros R He Ebk HG Hlen. assert (live heads h) as Hl by (by exists e).
  destruct (unlink_free (l_links r) bk (live heads) h xs n ys)
    as (H1 & E1 & E2 & HQ & Hd1 & Hd2); [apply R|apply R|done|done|].
  exists H1. split; [done|]. split; [done|].
  pose proof (lr_queue _ _ _ _ R h Hl) as Hq. rewrite Ebk, fmap_app, fmap_cons in Hq.
  apply is_queue_dom in Hq as [Hp Hn]. rewrite Hd1, Hd2. split; [done|]. split; [done|].
  assert (∀ i x, live heads i → x ∈ bk_set bk h (xs ++ ys) i → x ∈ bk i) as Hsub.
  { intros i x _. unfold bk_set. case_decide; [subst i; rewrite Ebk|]; set_solver. }
  assert (∀ i x, live heads i → x ∈ bk_set bk h (xs ++ ys) i → x ≠ n) as Hne.
  { intros i x Hi. apply (bk_set_in bk h xs n ys); [by eapply lr_nodup|done|].
    destruct (decide (i = h)); [by left|right]. intros Hx. assert (i = h) as ->; [|done].
    apply (lr_disj _ _ _ _ R i h n); [done..|]. rewrite Ebk. set_solver. }
  split; cbn [l_links l_cbs next_head next_listener].
  - apply R.
  - apply R.
  - done.
  - intros i j x Hi Hj H1x H2x. apply (lr_disj _ _ _ _ R i j x); eauto.
  - intros e' h' He'. destruct (decide (h' = h)) as [->|Hh].
    + assert (e' = e) as -> by (by apply (lr_inj _ _ _ _ R e' e h)). rewrite lookup_insert_eq.
      eexists; split; [done|]. destruct (lr_cbs _ _ _ _ R e h He) as (cs' & HG' & Hc).
      rewrite HG in HG'. injection HG' as <-. rewrite Ebk in Hc.
      apply Forall2_app_inv in Hc as [Hc1 Hc2]; [|done]. apply Forall2_cons_1 in Hc2 as [_ Hc2].
      unfold bk_set. rewrite decide_True by done.
      assert (∀ l k, (∀ x, x ∈ l → x ≠ n) → Forall2 (λ n c, l_cbs r !! n = Some (Some c)) l k →
        Forall2 (λ m c, delete n (l_cbs r) !! m = Some (Some c)) l k) as Hw.
      { intros l k Hx Hf. eapply Forall2_impl_in, Hf. intros a b Ha Hab. rewrite lookup_delete_ne; [done|].
        by apply not_eq_sym, Hx. }
      apply Forall2_app; apply Hw; try done; intros x Hx; apply (Hne h x Hl); unfold bk_set;
        rewrite decide_True by done; set_solver.
    + assert (live heads h') as Hl' by (by exists e').
      assert (e ≠ e') by congruence. rewrite lookup_insert_ne by done.
      destruct (lr_cbs _ _ _ _ R e' h' He') as (cs' & HG' & Hc). exists cs'. split; [done|].
      specialize (Hne h'). unfold bk_set in Hne |- *. rewrite decide_False in Hne |- * by done.
      eapply Forall2_impl_in, Hc. intros a b Ha Hab.
      rewrite lookup_delete_ne; [done|]. by apply not_eq_sym, Hne.
  - intros e' He'. rewrite lookup_insert_ne by congruence. by apply R.
  - intros x. rewrite lookup_delete_is_Some. intros [Hx Hs].
    destruct (lr_own _ _ _ _ R x Hs) as (i & Hi & Hin). exists i. split; [done|].
    unfold bk_set. case_decide; [|done]. subst i. rewrite Ebk in Hin. set_solver.
  - intros x. rewrite lookup_delete_is_Some. intros [_ Hs]. by apply R.
  - simpl. rewrite !dom_delete_L, Hd1, Hd2. by rewrite (lr_dom _ _ _ _ R).
  - intros a. simpl. rewrite dom_delete_L, Hd1, elem_of_difference, not_elem_of_singleton.
    intros [Ha Hna]. pose proof (lr_alloc _ _ _ _ R a Ha) as Hx. destruct a; [done|].
    rewrite lookup_delete_is_Some. split; [congruence|done].
Qed.

(** Freeing the head of an event whose queue is empty. *)
Lemma drop_head r heads bk G e h :
  links_rep r heads bk G → heads !! e = Some h → bk h = [] →
  free_head h r = Val (with_links r (q_free (Bucket h) (l_links r))) ∧
  links_rep (with_links r (q_free (Bucket h) (l_links r))) (delete e heads) bk (delete e G).
Proof.
  intros R He Eb. assert (live heads h) as Hl by (by exists e). split.
  { unfold free_head. rewrite bool_decide_true; [done|].
    destruct (lr_queue _ _ _ _ R h Hl) as [_ Hc]. rewrite Eb in Hc. destruct Hc as (_ & Hp & _).
    by apply elem_of_dom_2 in Hp. }
  assert (∀ i, live (delete e heads) i → live heads i ∧ i ≠ h) as Hlive.
  { intros i [e' [Hne He']%lookup_delete_Some]. split; [by exists e'|]. intros ->.
    apply Hne. by apply (lr_inj _ _ _ _ R _ _ h). }
  split; cbn [l_links l_cbs next_head next_listener with_links].
  - intros ? ? i [_ H1]%lookup_delete_Some [_ H2]%lookup_delete_Some. by apply (lr_inj _ _ _ _ R _ _ i).
  - intros i [Hi _]%Hlive. by apply R.
  - intros i [Hi Hne]%Hlive. apply q_free_queue; [by apply R|]. rewrite elem_of_cons.
    intros [[= <-]|(x & ? & _)%list_elem_of_fmap]; done.
  - intros i j x [Hi _]%Hlive [Hj _]%Hlive. by apply R.
  - intros e' i [Hne He']%lookup_delete_Some. rewrite lookup_delete_ne by done. by apply R.
  - intros e'. destruct (decide (e = e')) as [<-|Hne]; [by rewrite !lookup_delete_eq|].
    rewrite !lookup_delete_ne by done. apply R.
  - intros n Hn. destruct (lr_own _ _ _ _ R n Hn) as (i & [e' He'] & Hin). exists i.
    split; [|done]. exists e'. rewrite lookup_delete_ne; [done|]. intros <-.
    rewrite He in He'. injection He' as <-. rewrite Eb in Hin. by apply not_elem_of_nil in Hin.
  - apply R.
  - simpl. rewrite !dom_delete_L. by rewrite (lr_dom _ _ _ _ R).
  - intros a. simpl. rewrite dom_delete_L, elem_of_difference, not_elem_of_singleton.
    intros [Ha Hna]. pose proof (lr_alloc _ _ _ _ R a Ha) as Hx. destruct a as [i|]; [|done].
    destruct Hx as [e' He']. exists e'. rewrite lookup_delete_ne; [done|]. intros <-. congruence.
Qed.

(** ** The abstract registry *)

(** Without the first occurrence of [cb]. *)
Fixpoint remove_first (cb : CB) (cs : list CB) : list CB :=
  match cs with
  | [] => []
  | c :: cs => if bool_decide (c = cb) then cs else c :: remove_first cb cs
  end.

(** An event without listeners is not kept. *)
Definition spec_put (event : string) (cs : list CB) (G : gmap string (list CB)) :
    gmap string (list CB) :=
  match cs with
  | [] => delete event G
  | _ :: _ => <[event := cs]> G
  end.

Definition spec_remove (event : string) (cb : CB) (G : gmap string (list CB)) :
    gmap string (list CB) :=
  spec_put event (remove_first cb (default [] (G !! event))) G.

Definition spec_add (event : string) (cb : CB) (G : gmap string (list CB)) :
    gmap string (list CB) :=
  <[event := default [] (G !! event) ++ [cb]]> G.

Context `{!StringMapOk M}.

Lemma new_rep : ∃ r, listeners_new = Val r ∧ reg_rep r ∅.
Proof.
  destruct (sm_new_ok Z) as (m & E & R). unfold listeners_new. rewrite E. eexists. split; [done|].
  split; [|by apply map_Forall_empty]. exists ∅, (λ _, []). split; [done|].
  split; cbn [l_links l_cbs]; try done.
  - by intros h [e ?].
  - by intros h [e ?].
  - by intros i j x [e ?].
  - intros n. rewrite lookup_empty. by intros [].
  - intros n. rewrite lookup_empty. by intros [].
Qed.

Lemma emit_eq r G event : reg_rep r G → pc_emit_event event r = Val (default [] (G !! event)).
Proof.
  intros [(heads & bk & Hm & R) _]. unfold pc_emit_event. rewrite (sm_get_ok _ _ _ _ Hm), bind_Val.
  destruct (heads !! event) as [h|] eqn:He; [|by rewrite (lr_none _ _ _ _ R event He)].
  assert (live heads h) as Hl by (by exists event).
  rewrite (foreach_iter (λ s, fst s = r) _ _ _ (PairNode <$> bk h)).
  - destruct (lr_cbs _ _ _ _ R event h He) as (cs & -> & Hc).
    assert (∀ acc, iter_list (PairNode <$> bk h) emit_body (r, acc) = Val (r, acc ++ cs)) as ->; [|done].
    induction Hc as [|n c ns cs Hn _ IH]; intros acc; simpl; [by rewrite app_nil_r|].
    unfold listener_cb. rewrite Hn. simpl. by rewrite IH, <- app_assoc.
  - by apply R.
  - rewrite length_fmap. by eapply lr_fuel.
  - done.
  - intros x [r' acc] s' _ Hr E. simpl in Hr. subst r'. unfold emit_body in E.
    destruct (listener_of x) as [n| |]; try done. simpl in E.
    destruct (listener_cb r n) as [[c|]| |]; try done. by injection E as <-.
Qed.

(** The loop of [pc_remove_listener] stops at the first listener with the
    callback, or goes through the queue. *)
Lemma remove_iter r ns cs cb :
  Forall2 (λ n c, l_cbs r !! n = Some (Some c)) ns cs →
  ((cb ∉ cs) ∧ iter_list (PairNode <$> ns) (remove_body cb) r = Val r) ∨
  ∃ xs n ys cs1 cs2, ns = xs ++ n :: ys ∧ cs = cs1 ++ cb :: cs2 ∧ length xs = length cs1 ∧
    (cb ∉ cs1) ∧
    iter_list (PairNode <$> ns) (remove_body cb) r =
      ('(r, _) ← (h ← ngx_queue_remove (PairNode n) (l_links r);
                  r ← pc_listener_destroy n (with_links r h); Val (r, true)); Val r).
Proof.
  induction 1 as [|n c ns cs Hn _ IH]; [left; split; [set_solver|done]|].
  assert (remove_body cb (PairNode n) r =
    if bool_decide (Some c = Some cb) then
      h ← ngx_queue_remove (PairNode n) (l_links r);
      r ← pc_listener_destroy n (with_links r h); Val (r, true)
    else Val (r, false)) as Eb.
  { unfold remove_body, listener_cb. simpl. by rewrite Hn. }
  cbn [fmap list_fmap iter_list]. rewrite Eb. destruct (decide (c = cb)) as [->|Hc].
  - right. exists [], n, ns, [], cs. rewrite bool_decide_true by done.
    repeat split; [set_solver|]. destruct (ngx_queue_remove _ _) as [h| |]; [|done..].
    rewrite !bind_Val. by destruct (pc_listener_destroy _ _).
  - rewrite bool_decide_false by congruence. rewrite bind_Val.
    destruct IH as [[Hni E]|(xs & m & ys & cs1 & cs2 & -> & -> & Hlen & Hni & E)].
    + left. split; [set_solver|done].
    + right. exists (n :: xs), m, ys, (c :: cs1), cs2. simpl. repeat split; [lia|set_solver|done].
Qed.

Lemma remove_first_not cb cs : (cb ∉ cs) → remove_first cb cs = cs.
Proof.
  induction cs as [|c cs IH]; [done|]. rewrite not_elem_of_cons. intros [Hc Hn]. simpl.
  rewrite bool_decide_false by done. by rewrite IH.
Qed.

Lemma remove_first_split cb cs ds : (cb ∉ cs) → remove_first cb (cs ++ cb :: ds) = cs ++ ds.
Proof.
  induction cs as [|c cs IH]; intros Hn; simpl; [by rewrite bool_decide_true|].
  apply not_elem_of_cons in Hn as [Hc Hn]. rewrite bool_decide_false by done. by rewrite IH.
Qed.

(** The end of [pc_remove_listener], after the loop. *)
Lemma remove_tail r heads bk G event h cs :
  sm_rep (l_map r) heads → links_rep r heads bk (<[event := cs]> G) → heads !! event = Some h →
  map_Forall (λ _ cs, cs ≠ []) (delete event G) →
  ∃ r', (e ← ngx_queue_empty (Bucket h) (l_links r);
         if e : bool then '(m, _) ← sm_del (l_map r) event; free_head h (with_map r m)
         else Val r) = Val r' ∧
    reg_rep r' (spec_put event cs G).
Proof.
  intros Hm R He Hne. assert (live heads h) as Hl by (by exists event).
  rewrite (ngx_queue_empty_spec _ _ (PairNode <$> bk h)), bind_Val by (by apply R).
  destruct (lr_cbs _ _ _ _ R event h He) as (cs' & HG & Hc). rewrite lookup_insert_eq in HG.
  injection HG as <-. destruct (bk h) as [|n ns] eqn:Eb.
  - apply Forall2_nil_inv_l in Hc as ->. simpl.
    destruct (sm_del_ok _ _ _ event Hm) as (m & -> & Hm'). rewrite bind_Val.
    destruct (drop_head (with_map r m) heads bk (<[event := []]> G) event h) as [-> R'];
      [by destruct R|done|done|]. eexists. split; [done|].
    rewrite delete_insert_eq in R'. split; [|done]. by exists (delete event heads), bk.
  - inversion Hc as [|? c ? cs' _ _ E1 E2]. subst. simpl. exists r. split; [done|]. split.
    + by exists heads, bk.
    + intros e' cs0. destruct (decide (event = e')) as [<-|Hn];
        [rewrite lookup_insert_eq; by intros [= <-]|]. rewrite lookup_insert_ne by done. intros HG.
      apply (Hne e'). by rewrite lookup_delete_ne.
Qed.

Lemma remove_eq r G event cb :
  reg_rep r G → ∃ r', pc_remove_listener event cb r = Val r' ∧ reg_rep r' (spec_remove event cb G).
Proof.
  intros [(heads & bk & Hm & R) Hne]. unfold pc_remove_listener, spec_remove.
  rewrite (sm_get_ok _ _ _ _ Hm), bind_Val.
  destruct (heads !! event) as [h|] eqn:He.
  2: { rewrite (lr_none _ _ _ _ R event He). simpl. rewrite delete_id by (by apply R).
       exists r. split; [done|]. split; [|done]. by exists heads, bk. }
  assert (live heads h) as Hl by (by exists event).
  destruct (lr_cbs _ _ _ _ R event h He) as (cs & HG & Hc). rewrite HG. change (default [] (Some cs)) with cs.
  assert (map_Forall (λ _ cs, cs ≠ []) (delete event G)) as Hne' by (by apply map_Forall_delete).
  rewrite (foreach_iter (λ s, s = r) _ _ _ (PairNode <$> bk h));
    [|by apply R|rewrite length_fmap; by eapply lr_fuel|done|].
  2: { intros x ? s' _ -> E. unfold remove_body in E.
       destruct (listener_of x) as [n| |]; try done. simpl in E.
       destruct (listener_cb r n) as [c| |]; try done. simpl in E.
       case_bool_decide; [|by injection E as <-].
       destruct (ngx_queue_remove x (l_links r)) as [h1| |]; try done. simpl in E.
       destruct (pc_listener_destroy n (with_links r h1)); try done. }
  destruct (remove_iter r (bk h) cs cb Hc) as
    [[Hni ->]|(xs & n & ys & cs1 & cs2 & Eb & -> & Hlen & Hni & ->)].
  - rewrite bind_Val, remove_first_not by done.
    apply (remove_tail r heads bk G event h cs); [done| |done..].
    by rewrite insert_id.
  - rewrite remove_first_split by done.
    destruct (unlink_listener r heads bk G event h xs n ys cs1 cb cs2)
      as (H1 & E1 & E2 & _ & _ & R'); [done..|].
    rewrite E1, bind_Val. unfold pc_listener_destroy. cbn [l_links l_cbs with_links].
    rewrite E2, bind_Val, bool_decide_true; [cbn [require mbind exec_bind]|].
    2: { eapply lr_node; [exact R|exact Hl|]. rewrite Eb. set_solver. }
    by apply (remove_tail _ heads (bk_set bk h (xs ++ ys)) G event h (cs1 ++ cs2)).
Qed.

(** *** Adding *)

Lemma lr_fresh_addr r heads bk G :
  links_rep r heads bk G → q_prev (l_links r) !! PairNode (next_listener r) = None ∧
    q_next (l_links r) !! PairNode (next_listener r) = None ∧ l_cbs r !! next_listener r = None.
Proof.
  intros R. assert (¬ is_Some (l_cbs r !! next_listener r)) as Hn.
  { intros Hs%(lr_next _ _ _ _ R). lia. }
  rewrite <- !not_elem_of_dom, (lr_dom _ _ _ _ R). repeat split.
  - by intros Ha%(lr_alloc _ _ _ _ R).
  - by intros Ha%(lr_alloc _ _ _ _ R).
  - by rewrite elem_of_dom.
Qed.

Lemma lr_fresh_head r heads bk G :
  links_rep r heads bk G → ¬ live heads (next_head r) ∧
    q_prev (l_links r) !! Bucket (next_head r) = None ∧
    q_next (l_links r) !! Bucket (next_head r) = None.
Proof.
  intros R. assert (¬ live heads (next_head r)) as Hn.
  { intros Hs%(lr_head _ _ _ _ R). lia. }
  rewrite <- !not_elem_of_dom, (lr_dom _ _ _ _ R). repeat split; [done|..].
  - by intros Ha%(lr_alloc _ _ _ _ R).
  - by intros Ha%(lr_alloc _ _ _ _ R).
Qed.

Lemma q_alloc_queue (L : qheap addr) h xs x :
  is_queue L h xs → x ∉ h :: xs → is_queue (q_alloc x L) h xs.
Proof.
  intros Hq Hx. eapply is_queue_frame, Hq; intros y Hy; simpl;
    (rewrite lookup_insert_ne; [done|]); by intros <-.
Qed.

(** A queue head for an event that had none. *)
Lemma add_head r heads bk G event m :
  links_rep r heads bk G → heads !! event = None →
  links_rep (mkReg m (q_alloc (Bucket (next_head r)) (l_links r)) (l_cbs r) (next_head r + 1)
               (next_listener r))
    (<[event := next_head r]> heads) (bk_set bk (next_head r) []) (<[event := []]> G).
Proof.
  intros R He. destruct (lr_fresh_head _ _ _ _ R) as (Hh & _).
  assert (∀ i, live (<[event := next_head r]> heads) i → i = next_head r ∨ live heads i) as Hlive.
  { intros i [e' Hi]. destruct (decide (event = e')) as [<-|Hne].
    - rewrite lookup_insert_eq in Hi. injection Hi as <-. by left.
    - rewrite lookup_insert_ne in Hi by done. right. by exists e'. }
  assert (∀ i, live heads i → live (<[event := next_head r]> heads) i) as Hlive'.
  { intros i [e' Hi]. exists e'. rewrite lookup_insert_ne; [done|congruence]. }
  assert (∀ i, live heads i → bk_set bk (next_head r) [] i = bk i) as Hbk.
  { intros i Hi. unfold bk_set. by rewrite decide_False by (by intros ->). }
  assert (bk_set bk (next_head r) [] (next_head r) = []) as Hbk0.
  { unfold bk_set. by rewrite decide_True. }
  split; cbn [l_links l_cbs next_head next_listener].
  - intros e1 e2 i. destruct (decide (event = e1)) as [<-|H1], (decide (event = e2)) as [<-|H2];
      rewrite ?lookup_insert_eq, ?lookup_insert_ne by done; [done| | |apply R].
    + intros [= <-] Hi. destruct Hh. by exists e2.
    + intros Hi [= <-]. destruct Hh. by exists e1.
  - intros i [->|Hi%(lr_head _ _ _ _ R)]%Hlive; lia.
  - intros i [->|Hi]%Hlive; [rewrite Hbk0; apply is_queue_alloc|]. rewrite Hbk by done.
    apply q_alloc_queue; [by apply R|]. rewrite elem_of_cons.
    intros [[= <-]|(x & ? & _)%list_elem_of_fmap]; done.
  - intros i j x [->|Hi]%Hlive [->|Hj]%Hlive; rewrite ?Hbk0, ?Hbk by done; try done;
      [intros []%not_elem_of_nil|intros _ []%not_elem_of_nil|by apply R].
  - intros e' i. destruct (decide (event = e')) as [<-|Hne].
    + rewrite !lookup_insert_eq. intros [= <-]. exists []. rewrite Hbk0. by split.
    + rewrite !lookup_insert_ne by done. intros Hi. rewrite Hbk by (by exists e'). by apply R.
  - intros e'. destruct (decide (event = e')) as [<-|Hne]; [by rewrite lookup_insert_eq|].
    rewrite !lookup_insert_ne by done. apply R.
  - intros n Hn. destruct (lr_own _ _ _ _ R n Hn) as (i & Hi & Hin). exists i.
    rewrite Hbk by done. auto.
  - apply R.
  - simpl. rewrite !dom_insert_L. by rewrite (lr_dom _ _ _ _ R).
  - intros a. simpl. rewrite dom_insert_L, elem_of_union, elem_of_singleton. intros [->|Ha].
    + exists event. by rewrite lookup_insert_eq.
    + pose proof (lr_alloc _ _ _ _ R a Ha). destruct a; auto.
Qed.

(** A new listener at the end of the queue of an event. *)
Lemma add_node r heads bk G event h cs cb :
  links_rep r heads bk G → heads !! event = Some h → G !! event = Some cs →
  ∃ H', ngx_queue_insert_tail (Bucket h) (PairNode (next_listener r))
          (q_alloc (PairNode (next_listener r)) (l_links r)) = Val H' ∧
    links_rep (mkReg (l_map r) H' (<[next_listener r := Some cb]> (l_cbs r)) (next_head r)
                 (Pos.succ (next_listener r)))
      heads (add_to bk h (next_listener r)) (<[event := cs ++ [cb]]> G).
Proof.
  intros R He HG. set (n := next_listener r). assert (live heads h) as Hl by (by exists event).
  destruct (insert_new (q_alloc (PairNode n) (l_links r)) bk (live heads) h n)
    as (H' & E & HQ & _ & Hd1 & Hd2).
  - intros i Hi. apply q_alloc_queue; [by apply R|]. rewrite elem_of_cons.
    intros [?|(x & [= <-] & Hx)%list_elem_of_fmap]; [done|]. by eapply lr_fresh_node.
  - done.
  - intros i Hi. by eapply lr_fresh_node.
  - intros i x Hi. by intros; apply (lr_disj _ _ _ _ R i h x).
  - simpl. rewrite dom_insert_L. set_solver.
  - simpl. rewrite dom_insert_L. set_solver.
  - exists H'. split; [done|].
    assert (∀ i x, live heads i → x ∈ bk i → x ≠ n) as Hne.
    { intros i x Hi Hx ->. by eapply lr_fresh_node. }
    assert (∀ i k, live heads i → Forall2 (λ n c, l_cbs r !! n = Some (Some c)) (bk i) k →
      Forall2 (λ m c, <[n := Some cb]> (l_cbs r) !! m = Some (Some c)) (bk i) k) as Hw.
    { intros i k Hi Hf. eapply Forall2_impl_in, Hf. intros a b Ha Hab.
      rewrite lookup_insert_ne; [done|]. by apply not_eq_sym, (Hne i). }
    split; cbn [l_links l_cbs next_head next_listener].
    + apply R.
    + apply R.
    + done.
    + intros i j x Hi Hj [H1|[-> ->]]%add_to_in [H2|[-> ?]]%add_to_in; [by apply (lr_disj _ _ _ _ R i j x)|..|done].
      * by destruct (Hne i x).
      * by destruct (Hne j n).
    + intros e' i He'. unfold add_to. case_decide as Ei.
      * subst i. assert (e' = event) as -> by (by apply (lr_inj _ _ _ _ R _ _ h)).
        rewrite lookup_insert_eq. eexists. split; [done|].
        destruct (lr_cbs _ _ _ _ R event h He) as (cs' & HG' & Hc). rewrite HG in HG'.
        injection HG' as <-. apply Forall2_app; [by apply Hw|]. constructor; [|done].
        by rewrite lookup_insert_eq.
      * assert (event ≠ e') by congruence. rewrite lookup_insert_ne by done.
        destruct (lr_cbs _ _ _ _ R e' i He') as (cs' & HG' & Hc). exists cs'. split; [done|].
        apply Hw; [by exists e'|done].
    + intros e' He'. rewrite lookup_insert_ne by congruence. by apply R.
    + intros x. destruct (decide (n = x)) as [<-|Hx].
      * intros _. exists h. split; [done|]. apply add_to_in. by right.
      * rewrite lookup_insert_ne by done. intros (i & Hi & Hin)%(lr_own _ _ _ _ R). exists i.
        split; [done|]. apply add_to_in. by left.
    + intros x. destruct (decide (n = x)) as [<-|Hx]; [intros _; unfold n; lia|].
      rewrite lookup_insert_ne by done. intros Hs%(lr_next _ _ _ _ R). lia.
    + rewrite Hd1, Hd2. simpl. rewrite !dom_insert_L. by rewrite (lr_dom _ _ _ _ R).
    + intros a. rewrite Hd1. simpl. rewrite dom_insert_L, elem_of_union, elem_of_singleton.
      intros [->|Ha]; [by rewrite lookup_insert_eq|].
      pose proof (lr_alloc _ _ _ _ R a Ha) as Hx. destruct a as [|x]; [done|].
      destruct (decide (n = x)) as [<-|Hnx]; [by rewrite lookup_insert_eq|].
      by rewrite lookup_insert_ne.
Qed.

(** The registry after [pc_listener_new] and the store of the callback. *)
Lemma listener_new_eq r cb :
  ∃ r1, pc_listener_new true r = Val (r1, Some (next_listener r)) ∧
    with_cb r1 (next_listener r) (Some cb) =
      mkReg (l_map r) (q_alloc (PairNode (next_listener r)) (l_links r))
        (<[next_listener r := Some cb]> (l_cbs r)) (next_head r) (Pos.succ (next_listener r)).
Proof.
  unfold pc_listener_new, pc_listener_init. cbn [negb with_cb l_links].
  rewrite ngx_queue_init_spec by (simpl; rewrite dom_insert_L; set_solver). rewrite !bind_Val.
  cbn. eexists. split; [done|]. unfold with_cb, q_alloc. cbn. by rewrite !insert_insert_eq.
Qed.

(** When a registration is refused. *)
Definition add_refused (closed malloc_listener malloc_head : bool) (event : string)
    (G : gmap string (list CB)) : bool :=
  closed || negb malloc_listener || (negb malloc_head && bool_decide (G !! event = None)).

Lemma skip_block r heads bk G :
  links_rep r heads bk G →
  links_rep (mkReg (l_map r) (l_links r) (l_cbs r) (next_head r) (Pos.succ (next_listener r)))
    heads bk G.
Proof.
  intros R. destruct R as [? ? ? ? ? ? ? Hn ? ?]. split; try done.
  intros n Hs%Hn. simpl. lia.
Qed.

Lemma add_eq r G closed ml mh event cb :
  reg_rep r G →
  ∃ r', pc_add_listener closed ml mh event cb r =
          Val (r', if add_refused closed ml mh event G then -1 else 0) ∧
    reg_rep r' (if add_refused closed ml mh event G then G else spec_add event cb G).
Proof.
  intros [(heads & bk & Hm & R) Hne]. unfold pc_add_listener, add_refused.
  destruct closed; cbn [orb negb]; [exists r; split; [done|]; split; [by exists heads, bk|done]|].
  destruct ml; cbn [negb orb].
  2: { exists r. split; [done|]. split; [by exists heads, bk|done]. }
  destruct (listener_new_eq r cb) as (r1 & -> & Er1). rewrite bind_Val, Er1.
  cbn [l_map l_links l_cbs next_head next_listener]. rewrite (sm_get_ok _ _ _ _ Hm), bind_Val.
  assert (∀ cs, map_Forall (λ _ cs, cs ≠ []) (<[event := cs ++ [cb]]> G)) as Hne'.
  { intros cs. by apply map_Forall_insert_2; [destruct cs|]. }
  destruct (heads !! event) as [h|] eqn:He.
  - destruct (lr_cbs _ _ _ _ R event h He) as (cs & HG & _). unfold spec_add. rewrite HG.
    rewrite (bool_decide_false (Some cs = None)), andb_false_r by done.
    destruct (add_node r heads bk G event h cs cb) as (H' & -> & R'); [done..|].
    eexists. split; [done|]. split; [by eexists heads, _|apply Hne'].
  - rewrite (lr_none _ _ _ _ R event He). unfold spec_add. rewrite (lr_none _ _ _ _ R event He).
    rewrite bool_decide_true, andb_true_r by done.
    destruct (lr_fresh_addr _ _ _ _ R) as (Fp & Fn & Fc). destruct mh; cbn [negb].
    + rewrite ngx_queue_init_spec by (simpl; rewrite dom_insert_L; set_solver). rewrite bind_Val.
      destruct (sm_set_ok _ _ _ event (next_head r) Hm He) as (m & -> & Hm'). rewrite bind_Val.
      pose proof (add_head r heads bk G event m R He) as Rh.
      eapply (add_node _ _ _ _ event (next_head r) [] cb) in Rh as (H' & EH & R');
        [|by rewrite lookup_insert_eq..].
      unfold q_alloc in EH |- *.
      cbn [l_map l_links l_cbs next_head next_listener q_prev q_next] in EH, R' |- *.
      rewrite !insert_insert_eq, (insert_insert_ne _ (Bucket _)), (insert_insert_ne (q_next _) (Bucket _))
        by done.
      rewrite EH, bind_Val. rewrite insert_insert_eq in R'. eexists. split; [done|].
      split; [by eexists _, _|apply (Hne' [])].
    + unfold pc_listener_destroy. cbn [l_map l_links l_cbs next_head next_listener].
      rewrite remove_self by (simpl; by rewrite lookup_insert_eq). rewrite bind_Val, bool_decide_true
        by (by rewrite lookup_insert_eq). cbn [require mbind exec_bind].
      unfold q_free, q_alloc. cbn [q_prev q_next].
      rewrite !delete_insert_id by done. eexists. split; [done|]. split; [|done].
      exists heads, bk. split; [done|]. apply skip_block in R. by destruct (l_links r).
Qed.

(** *** Release *)

(** The loop of [pc__release_listeners] frees the listeners of one event. *)
Lemma release_loop_eq heads event h : heads !! event = Some h →
  ∀ cs r bk G fuel, links_rep r heads bk G → G !! event = Some cs → (length cs < fuel)%nat →
  ∃ r' bk', release_loop fuel h r = Val r' ∧ bk' h = [] ∧ links_rep r' heads bk' (<[event := []]> G).
Proof.
  intros He. assert (live heads h) as Hl by (by exists event).
  induction cs as [|c cs IH]; intros r bk G fuel R HG Hf; (destruct fuel as [|fuel]; [simpl in Hf; lia|]);
    cbn [release_loop];
    rewrite (ngx_queue_empty_spec _ _ (PairNode <$> bk h)), bind_Val by (by apply R);
    destruct (lr_cbs _ _ _ _ R event h He) as (cs' & HG' & Hc); rewrite HG in HG'; injection HG' as <-.
  - apply Forall2_nil_inv_r in Hc. rewrite Hc. exists r, bk. split; [done|]. split; [done|].
    by rewrite insert_id.
  - inversion Hc as [|n ? ns ? Hn _ E1 E2]. subst.
    rewrite bool_decide_false by done.
    rewrite (ngx_queue_head_spec _ _ (PairNode <$> bk h)) by (by apply R). rewrite <- E1, bind_Val.
    cbn [fmap list_fmap head default from_option id].
    destruct (unlink_listener r heads bk G event h [] n ns [] c cs)
      as (H1 & -> & _ & D1 & D2 & R'); [done..|]. rewrite bind_Val, ngx_queue_init_spec, bind_Val by done.
    cbn [listener_of]. rewrite bind_Val. unfold pc_listener_destroy.
    cbn [l_links l_cbs l_map next_head next_listener with_links].
    rewrite remove_self by (simpl; by rewrite lookup_insert_eq). rewrite bind_Val, bool_decide_true by (by rewrite Hn).
    cbn [require mbind exec_bind]. unfold q_free at 1. cbn [q_prev q_next].
    rewrite !delete_insert_eq. change (mkHeap _ _) with (q_free (PairNode n) H1).
    destruct (IH _ _ _ fuel R') as (r' & bk' & E & Hb & R''); [by rewrite lookup_insert_eq|simpl in Hf; lia|].
    exists r', bk'. split; [done|]. split; [done|]. by rewrite insert_insert_eq in R''.
Qed.

Lemma release_eq r heads bk G event h :
  links_rep r heads bk G → heads !! event = Some h →
  ∃ r' bk', pc__release_listeners h r = Val r' ∧
    links_rep r' (delete event heads) bk' (delete event G).
Proof.
  intros R He. unfold pc__release_listeners.
  destruct (lr_cbs _ _ _ _ R event h He) as (cs & HG & Hc).
  destruct (release_loop_eq heads event h He cs r bk G (listener_fuel r)) as (r' & bk' & -> & Hb & R');
    [done..| |].
  { rewrite <- (Forall2_length _ _ _ Hc). eapply lr_fuel; [done|]. by exists event. }
  rewrite bind_Val. destruct (drop_head r' heads bk' _ event h R' He Hb) as [-> R''].
  rewrite delete_insert_eq in R''. eexists _, bk'. by split.
Qed.

Lemma release_pairs_eq rel : ∀ r heads bk G,
  links_rep r heads bk G → rel ≡ₚ map_to_list heads →
  ∃ r' bk', release_pairs rel r = Val r' ∧ links_rep r' ∅ bk' ∅.
Proof.
  induction rel as [|[e h] rel IH]; intros r heads bk G R Hp.
  - symmetry in Hp. apply Permutation_nil_r, map_to_list_empty_iff in Hp. subst heads.
    exists r, bk. split; [done|]. assert (G = ∅) as ->; [|done].
    apply map_empty. intros e. by apply R.
  - assert (heads !! e = Some h) as He.
    { apply elem_of_map_to_list. rewrite <- Hp. set_solver. }
    cbn [release_pairs]. destruct (release_eq r heads bk G e h R He) as (r1 & bk1 & -> & R1).
    rewrite bind_Val. apply (IH r1 _ bk1 _ R1).
    rewrite <- (map_to_list_delete _ _ _ He) in Hp. by apply Permutation_cons_inv in Hp.
Qed.

Lemma destroy_eq r G :
  reg_rep r G → ∃ r', destroy_listeners r = Val r' ∧ l_cbs r' = ∅ ∧
    q_prev (l_links r') = ∅ ∧ q_next (l_links r') = ∅.
Proof.
  intros [(heads & bk & Hm & R) _]. unfold destroy_listeners.
  destruct (sm_destroy_ok _ _ _ Hm) as (rel & -> & Hp). rewrite bind_Val.
  destruct (release_pairs_eq rel r heads bk G R Hp) as (r' & bk' & -> & R'). exists r'. split; [done|].
  assert (l_cbs r' = ∅) as Hc.
  { apply map_empty. intros n. destruct (l_cbs r' !! n) eqn:E; [|done].
    destruct (lr_own _ _ _ _ R' n) as (h & [e He] & _); [by rewrite E|done]. }
  assert (dom (q_prev (l_links r')) = ∅) as Hd.
  { apply set_eq. intros a. split; [|set_solver]. intros Ha%(lr_alloc _ _ _ _ R').
    destruct a; [by destruct Ha|]. rewrite Hc, lookup_empty in Ha. by destruct Ha. }
  split; [done|]. split; apply dom_empty_iff_L; [done|]. by rewrite (lr_dom _ _ _ _ R').
Qed.

(** ** Sequences of calls *)

Inductive lcall :=
  | LAdd (closed malloc_listener malloc_head : bool) (event : string) (cb : CB)
  | LRemove (event : string) (cb : CB)
  | LEmit (event : string).

(** What a call returns or does: a status, nothing, or calls of callbacks. *)
Inductive lresult := RStatus (status : Z) | RVoid | RCalls (calls : list CB).

Definition run_call (c : lcall) (r : registry) : exec (registry * lresult) :=
  match c with
  | LAdd closed ml mh event cb =>
      '(r, s) ← pc_add_listener closed ml mh event cb r; Val (r, RStatus s)
  | LRemove event cb => r ← pc_remove_listener event cb r; Val (r, RVoid)
  | LEmit event => cs ← pc_emit_event event r; Val (r, RCalls cs)
  end.

Fixpoint run_calls (cs : list lcall) (r : registry) : exec (registry * list lresult) :=
  match cs with
  | [] => Val (r, [])
  | c :: cs => '(r, o) ← run_call c r; '(r, os) ← run_calls cs r; Val (r, o :: os)
  end.

Definition spec_call (c : lcall) (G : gmap string (list CB)) : gmap string (list CB) * lresult :=
  match c with
  | LAdd closed ml mh event cb =>
      if add_refused closed ml mh event G then (G, RStatus (-1))
      else (spec_add event cb G, RStatus 0)
  | LRemove event cb => (spec_remove event cb G, RVoid)
  | LEmit event => (G, RCalls (default [] (G !! event)))
  end.

Fixpoint spec_calls (cs : list lcall) (G : gmap string (list CB)) :
    gmap string (list CB) * list lresult :=
  match cs with
  | [] => (G, [])
  | c :: cs =>
      let '(G, o) := spec_call c G in
      let '(G, os) := spec_calls cs G in (G, o :: os)
  end.

Lemma run_call_eq c r G :
  reg_rep r G →
  ∃ r', run_call c r = Val (r', snd (spec_call c G)) ∧ reg_rep r' (fst (spec_call c G)).
Proof.
  intros R. destruct c as [cl ml mh e cb|e cb|e]; cbn [run_call spec_call].
  - destruct (add_eq r G cl ml mh e cb R) as (r' & -> & R'). rewrite bind_Val. exists r'.
    by destruct (add_refused cl ml mh e G).
  - destruct (remove_eq r G e cb R) as (r' & -> & R'). by exists r'.
  - rewrite (emit_eq r G e R). by exists r.
Qed.

Lemma run_calls_eq cs : ∀ r G, reg_rep r G →
  ∃ r', run_calls cs r = Val (r', snd (spec_calls cs G)) ∧ reg_rep r' (fst (spec_calls cs G)).
Proof.
  induction cs as [|c cs IH]; intros r G R; [by exists r|]. cbn [run_calls spec_calls].
  destruct (run_call_eq c r G R) as (r1 & -> & R1). rewrite bind_Val.
  destruct (spec_call c G) as [G1 o]. cbn [fst snd] in *.
  destruct (IH r1 G1 R1) as (r' & -> & R'). rewrite bind_Val. exists r'.
  by destruct (spec_calls cs G1).
Qed.

End Listeners.
Arguments registry M CB : clear implicits.
Arguments lcall CB : clear implicits.
Arguments lresult CB : clear implicits.

(** C36 (refinement). Whatever listeners are added, removed and emitted to from
    an empty registry on the hash map of [map.c], failed registrations included,
    every call returns and does what it does on a finite map from event names to
    lists of callbacks: a listener is appended to its event's list, removal takes
    the first occurrence and forgets an event with no listener left, emission
    calls the listeners of the event in the order of registration. *)
Theorem listeners_refine (CB : Type) (ED : EqDecision CB) (cs : list (lcall CB)) :
  ∃ r r' : registry pc_map_t CB,
    listeners_new = Val r ∧ run_calls cs r = Val (r', snd (spec_calls cs ∅)) ∧
    ∀ event, pc_emit_event event r' = Val (default [] (fst (spec_calls cs ∅) !! event)).
Proof.
  destruct (new_rep (M := pc_map_t) (CB := CB)) as (r & E & R).
  destruct (run_calls_eq cs r ∅ R) as (r' & Er & R'). exists r, r'. split; [exact E|].
  split; [exact Er|]. intros event. by apply emit_eq.
Qed.

(** After any such sequence, releasing the listeners of a closed
    client frees every listener block and every queue head, none of them twice:
    no block is left and no freed one is touched. *)
Theorem listeners_released (CB : Type) (ED : EqDecision CB) (cs : list (lcall CB)) :
  ∃ (r r' r'' : registry pc_map_t CB) (results : list (lresult CB)),
    listeners_new = Val r ∧ run_calls cs r = Val (r', results) ∧
    destroy_listeners r' = Val r'' ∧ l_cbs r'' = ∅ ∧
    q_prev (l_links r'') = ∅ ∧ q_next (l_links r'') = ∅.
Proof.
  destruct (new_rep (M := pc_map_t) (CB := CB)) as (r & E & R).
  destruct (run_calls_eq cs r ∅ R) as (r' & Er & R').
  destruct (destroy_eq r' _ R') as (r'' & Ed & H1 & H2 & H3).
  exists r, r', r'', (snd (spec_calls cs ∅)).
  exact (conj E (conj Er (conj Ed (conj H1 (conj H2 H3))))).
Qed.

(** The operations on a concrete run: two listeners of one event, the second
    registered twice. *)
Example ex_listeners :
  (r ← (listeners_new : exec (registry pc_map_t Z));
   '(_, os) ← run_calls [LAdd false true true "chat" 1; LAdd false true true "chat" 2;
                         LAdd false true false "quit" 3; LAdd false true true "chat" 2;
                         LEmit "chat"; LRemove "chat" 2; LEmit "chat"; LRemove "quit" 3;
                         LAdd true true true "chat" 4; LEmit "quit"] r;
   Val os) =
  Val [RStatus 0; RStatus 0; RStatus (-1); RStatus 0; RCalls [1; 2; 2]; RVoid; RCalls [1; 2]; RVoid;
       RStatus (-1); RCalls []].
Proof. vm_compute. reflexivity. Qed.
