(* ===== verification/Backoff.v ===== *)
(** * Reconnection delays ([src/src/client.c])

    [pc_client_new_with_reconnect] derives from its two delays after how many
    attempts the delay stops growing; [pc__client_reconnect] computes the delay
    of an attempt. The natural logarithm is libm's: what the code uses of it,
    [(int)log(1.0 * delay_max / delay)], is a parameter, of which [ln_floor]
    states that it does not exceed the logarithm. *)

From S2P Require Import Prelude.
Local Open Scope Z_scope.

(** Signed 32-bit arithmetic: overflow is undefined. *)
Definition chk32 (z : Z) : exec Z :=
  if bool_decide (- 2 ^ 31 ≤ z < 2 ^ 31) then Val z else UB.

Lemma chk32_ok z : - 2 ^ 31 ≤ z < 2 ^ 31 → chk32 z = Val z.
Proof. intros Hz. unfold chk32. by rewrite bool_decide_true. Qed.

(** [a << n] on a signed [int]. *)
Definition shl32 (a n : Z) : exec Z :=
  if bool_decide (0 ≤ n < 32 ∧ 0 ≤ a) then chk32 (Z.shiftl a n) else UB.

(** The reconnection fields of the client. *)
Record reconnect_conf := mkConf {
  reconnect_delay : Z;
  reconnect_delay_max : Z;
  enable_exp_backoff : bool;
  max_reconnects_incr : Z
}.

(** [(int)(k / log(2.0) + 1)], with log 2 = 0.69314718056; for the [k] that a
    quotient of two [int]s gives, no [k / log 2] is close enough to an integer
    for the rounding to matter. *)
Definition exp_steps (k : Z) : Z := Z.quot (k * 10 ^ 11 + 69314718056) 69314718056.

Section Conf.
(** [(int)log(1.0 * delay_max / delay)]. *)
Variable log_int : Z → Z → Z.

(** The configuration part of [pc_client_new_with_reconnect]; [None] for the
    rejected arguments. *)
Definition pc_client_new_with_reconnect (delay delay_max exp_backoff : Z) :
    exec (option reconnect_conf) :=
  if (delay <=? 0) || (delay_max <=? 0) then Val None
  else
    let exp := negb (exp_backoff =? 0) in
    incr ← (if negb exp then chk32 (Z.quot delay_max delay + 1)
            else chk32 (exp_steps (log_int delay_max delay)));
    Val (Some (mkConf delay delay_max exp incr)).
End Conf.

(** The delay before jitter, for the number [reconnects] of attempts. *)
Definition backoff_base (c : reconnect_conf) (reconnects : Z) : exec Z :=
  delay ← (if reconnects >=? max_reconnects_incr c then Val (reconnect_delay_max c)
           else if enable_exp_backoff c then shl32 (reconnect_delay c) reconnects
           else chk32 (reconnect_delay c * reconnects));
  Val (if delay >? reconnect_delay_max c then reconnect_delay_max c else delay).

(** The delay of an attempt in milliseconds; [rand] is what [rand()] returns. *)
Definition backoff_ms (c : reconnect_conf) (reconnects rand : Z) : exec Z :=
  delay ← backoff_base c reconnects;
  _ ← require (negb (delay =? 0));
  delay ← chk32 (Z.rem rand delay + delay);
  chk32 (delay * 1000).

(** ** The delays of the documentation *)

(** [pomelo.h]: with delay 2 and maximum 10 the attempts wait 2, 4, 6, 8, 10, 10, ...
    seconds, and with exponential backoff and maximum 30 they wait 2, 4, 8, 16, 30, 30, ... *)
Definition documented_delay (delay delay_max exp_backoff n : Z) : Z :=
  Z.min delay_max (if exp_backoff =? 0 then delay * n else delay * 2 ^ (n - 1)).

Example documented_delays :
  map (documented_delay 2 10 0) [1; 2; 3; 4; 5; 6; 7] = [2; 4; 6; 8; 10; 10; 10] ∧
  map (documented_delay 2 30 1) [1; 2; 3; 4; 5; 6] = [2; 4; 8; 16; 30; 30].
Proof. done. Qed.

Definition conf_of (log_int : Z → Z → Z) (delay delay_max exp_backoff : Z) (c : reconnect_conf) : Prop :=
  pc_client_new_with_reconnect log_int delay delay_max exp_backoff = Val (Some c).

(** [k] does not exceed the natural logarithm of [delay_max / delay]; 2.71828 is
    below e. *)
Definition ln_floor (log_int : Z → Z → Z) : Prop :=
  ∀ delay_max delay, 0 < delay_max → 0 < delay →
    (delay_max < delay → log_int delay_max delay ≤ 0) ∧
    (delay ≤ delay_max → 0 ≤ log_int delay_max delay ∧
       271828 ^ log_int delay_max delay * delay ≤ 100000 ^ log_int delay_max delay * delay_max).

(** Doubling stops before the maximum is passed, for the logarithms of
    quotients of [int]s. *)
Lemma exp_steps_pow k :
  0 ≤ k ≤ 21 → 0 < exp_steps k < 32 ∧ 2 ^ (exp_steps k - 1) * 100000 ^ k ≤ 271828 ^ k.
Proof.
  intros Hk. assert (Forall (λ k, 0 < exp_steps k < 32 ∧ 2 ^ (exp_steps k - 1) * 100000 ^ k ≤ 271828 ^ k)
                       (seqZ 0 22)) as Ha.
  { apply Forall_forall. intros x Hx.
    assert (forallb (λ k, (0 <? exp_steps k) && (exp_steps k <? 32) &&
              (2 ^ (exp_steps k - 1) * 100000 ^ k <=? 271828 ^ k)) (seqZ 0 22) = true) as Hb
      by (vm_compute; reflexivity).
    rewrite forallb_forall in Hb. specialize (Hb x (proj1 (list_elem_of_In _ _) Hx)). lia. }
  rewrite Forall_forall in Ha. apply Ha, elem_of_seqZ. lia.
Qed.

Lemma ln_small k r : 0 ≤ k → 0 < r < 2 ^ 31 → 271828 ^ k ≤ 100000 ^ k * r → k ≤ 21.
Proof.
  intros Hk Hr Hle. destruct (decide (k ≤ 21)) as [|Hgt]; [done|exfalso].
  replace k with (22 + (k - 22)) in Hle by lia. rewrite !Z.pow_add_r in Hle by lia.
  assert (0 < 100000 ^ (k - 22) ≤ 271828 ^ (k - 22)) as [Hp Hq].
  { split; [apply Z.pow_pos_nonneg; lia|apply Z.pow_le_mono_l; lia]. }
  assert (100000 ^ 22 * 2 ^ 31 < 271828 ^ 22) as Hc by (vm_compute; reflexivity).
  change (2 ^ 31) with 2147483648 in *.
  set (a := 271828 ^ 22) in *. set (b := 100000 ^ 22) in *.
  set (x := 271828 ^ (k - 22)) in *. set (y := 100000 ^ (k - 22)) in *.
  assert (0 < b) by (unfold b; lia). nia.
Qed.

Lemma conf_inv log_int delay delay_max exp c :
  conf_of log_int delay delay_max exp c →
  0 < delay ∧ 0 < delay_max ∧ reconnect_delay c = delay ∧ reconnect_delay_max c = delay_max ∧
  enable_exp_backoff c = negb (exp =? 0) ∧
  max_reconnects_incr c =
    if negb (exp =? 0) then exp_steps (log_int delay_max delay) else Z.quot delay_max delay + 1.
Proof.
  intros Hc. unfold conf_of, pc_client_new_with_reconnect in Hc.
  destruct ((delay <=? 0) || (delay_max <=? 0)) eqn:Hd; [done|].
  apply bind_Val_inv in Hc as (i & Ei & [= <-]). simpl.
  repeat (split; [lia || done|]). unfold chk32 in Ei.
  destruct (exp =? 0); cbn [negb] in *; case_bool_decide; [by injection Ei as <-|done|by injection Ei as <-|done].
Qed.

(** What the configuration guarantees to the shift. *)
Lemma exp_conf_fits log_int delay delay_max exp c n :
  ln_floor log_int → conf_of log_int delay delay_max exp c → enable_exp_backoff c = true →
  delay_max < 2 ^ 31 → 0 < n < max_reconnects_incr c → n < 32 ∧ delay * 2 ^ n ≤ delay_max.
Proof.
  intros Hln Hc He Hm Hn. apply conf_inv in Hc as (Hd & Hdm & _ & _ & He' & Hi).
  rewrite <- He', He in Hi. rewrite Hi in Hn. destruct (Hln delay_max delay) as [Hlt Hle]; [lia..|].
  destruct (decide (delay ≤ delay_max)) as [Hdd|Hgt].
  - destruct (Hle Hdd) as [Hk Hle']. set (k := log_int delay_max delay) in *.
    assert (k ≤ 21) as Hk21.
    { apply (ln_small k delay_max); [done|lia|].
      assert (0 < 271828 ^ k) by (apply Z.pow_pos_nonneg; lia). nia. }
    destruct (exp_steps_pow k) as [Hs Hpow]; [lia|]. split; [lia|].
    assert (2 ^ n ≤ 2 ^ (exp_steps k - 1)) by (apply Z.pow_le_mono_r; lia).
    assert (0 < 100000 ^ k) by (apply Z.pow_pos_nonneg; lia). nia.
  - exfalso. assert (exp_steps (log_int delay_max delay) ≤ 1) as Hs; [|lia].
    unfold exp_steps. etrans; [apply (Z.quot_le_mono _ 69314718056); [lia|]|by vm_compute].
    specialize (Hlt ltac:(lia)). lia.
Qed.

(** Without overflow the delay before jitter is at least the documented one and at most
    the maximum; without exponential backoff it is the documented one. *)
Lemma backoff_base_ok log_int delay delay_max exp c n :
  ln_floor log_int → conf_of log_int delay delay_max exp c → delay_max < 2 ^ 31 → 0 < n →
  ∃ d, backoff_base c n = Val d ∧ 1 ≤ documented_delay delay delay_max exp n ≤ d ∧ d ≤ delay_max ∧
    (exp = 0 → d = documented_delay delay delay_max exp n).
Proof.
  intros Hln Hc Hm Hn. pose proof (conf_inv _ _ _ _ _ Hc) as (Hd & Hdm & E1 & E2 & E3 & E4).
  unfold backoff_base, documented_delay. rewrite E1, E2. assert (0 < 2 ^ (n - 1)) by (apply Z.pow_pos_nonneg; lia).
  destruct (n >=? max_reconnects_incr c) eqn:Hge.
  { rewrite bind_Val. exists delay_max. split; [f_equal; by destruct (delay_max >? delay_max)|]. split; [destruct (exp =? 0); nia|]. split; [lia|].
    intros ->. cbn in E4 |- *. rewrite Z.min_l; [done|]. rewrite E4, Z.quot_div_nonneg in Hge by lia.
    pose proof (Z.mul_succ_div_gt delay_max delay). nia. }
  destruct (exp =? 0) eqn:He; cbn [negb] in E3, E4; rewrite E3.
  - assert (delay * n ≤ delay_max) as Hle.
    { rewrite E4 in Hge. rewrite Z.quot_div_nonneg in Hge by lia.
      assert (n ≤ delay_max / delay) by lia.
      assert (delay * (delay_max / delay) ≤ delay_max) by (apply Z.mul_div_le; lia). nia. }
    rewrite Z.min_r by done. rewrite chk32_ok by nia. rewrite bind_Val. exists (delay * n). split; [f_equal; destruct (_ >? _) eqn:?; lia|nia].
  - destruct (exp_conf_fits log_int delay delay_max exp c n) as [H32 Hfit]; [done..|lia|].
    assert (2 ^ n = 2 * 2 ^ (n - 1)) as Ep by (rewrite <- Z.pow_succ_r by lia; f_equal; lia).
    unfold shl32. rewrite bool_decide_true by lia. rewrite Z.shiftl_mul_pow2 by lia.
    rewrite chk32_ok by nia. rewrite bind_Val. exists (delay * 2 ^ n). split; [f_equal; destruct (_ >? _) eqn:?; lia|]. split; [nia|]. split; [done|].
    intros ->. done.
Qed.

(** The delay of an attempt with jitter. *)
Lemma backoff_ms_ok (log_int : Z → Z → Z) (delay delay_max exp : Z) (c : reconnect_conf) (n rand : Z) :
  ln_floor log_int → conf_of log_int delay delay_max exp c → delay_max < 1073742 → 0 < n → 0 ≤ rand →
  ∃ d ms, backoff_base c n = Val d ∧ backoff_ms c n rand = Val ms ∧ 1000 * d ≤ ms < 2000 * d ∧
    1 ≤ documented_delay delay delay_max exp n ≤ d ∧ d ≤ delay_max ∧
    (exp = 0 → d = documented_delay delay delay_max exp n).
Proof.
  intros Hln Hc Hm Hn Hr.
  destruct (backoff_base_ok log_int delay delay_max exp c n) as (d & E & H1 & H2 & H3); [done..|lia|lia|].
  unfold backoff_ms. rewrite E, bind_Val. rewrite require_true by lia. rewrite bind_Val.
  pose proof (Z.rem_bound_pos rand d Hr) as Hrem. rewrite chk32_ok, bind_Val, chk32_ok by lia.
  eexists _, _. split; [done|]. split; [done|]. split; [lia|done].
Qed.

(** C38 (bounds). For the delays the constructor accepts, with a maximum below 1073742
    seconds (more than twelve days): on every
    attempt the scheduled delay is computed without signed overflow, over-wide
    shift or division by zero. Before the jitter it is, without exponential backoff, exactly
    the delay that [pomelo.h] documents; with exponential backoff it is not below the
    documented one ([documented_backoff] shows where it is above) and not above the
    maximum. The jitter adds less than as much again. *)
Theorem backoff_in_bounds (log_int : Z → Z → Z) (delay delay_max exp : Z) (c : reconnect_conf)
    (n rand : Z) :
  ln_floor log_int → conf_of log_int delay delay_max exp c → delay_max < 1073742 → 0 < n → 0 ≤ rand →
  ∃ d ms, backoff_base c n = Val d ∧ backoff_ms c n rand = Val ms ∧ 1000 * d ≤ ms < 2000 * d ∧
    1 ≤ documented_delay delay delay_max exp n ≤ d ∧ d ≤ delay_max ∧
    (exp = 0 → d = documented_delay delay delay_max exp n).
Proof. apply backoff_ms_ok. Qed.

(** An implementation of the parameter, exact on the arguments of the examples. *)
Fixpoint ln_search (fuel : nat) (k delay_max delay : Z) : Z :=
  match fuel with
  | O => k
  | S fuel =>
      if 271829 ^ (k + 1) * delay <=? 100000 ^ (k + 1) * delay_max
      then ln_search fuel (k + 1) delay_max delay else k
  end.

Definition ex_log (delay_max delay : Z) : Z :=
  if delay_max <? delay then -1 else ln_search 22 0 delay_max delay.

Lemma ln_search_ok fuel : ∀ k delay_max delay, 0 < delay ≤ delay_max → 0 ≤ k →
  271828 ^ k * delay ≤ 100000 ^ k * delay_max →
  0 ≤ ln_search fuel k delay_max delay ∧
  271828 ^ ln_search fuel k delay_max delay * delay ≤
    100000 ^ ln_search fuel k delay_max delay * delay_max.
Proof.
  induction fuel as [|fuel IH]; intros k dm d Hd Hk Hle; [done|]. cbn [ln_search].
  destruct (_ <=? _) eqn:E; [|done]. apply IH; [done|lia|]. apply Z.leb_le in E.
  assert (271828 ^ (k + 1) ≤ 271829 ^ (k + 1)) by (apply Z.pow_le_mono_l; lia). nia.
Qed.

Lemma ex_log_floor : ln_floor ex_log.
Proof.
  intros dm d Hdm Hd. unfold ex_log. split; [intros; case_match; lia|]. intros Hle.
  rewrite (proj2 (Z.ltb_ge dm d)) by lia. apply ln_search_ok; [lia..|]. rewrite !Z.pow_0_r. lia.
Qed.

Definition ex_conf : reconnect_conf := mkConf 2 30 true 3.

Lemma backoff_in_bounds_witness :
  (∃ d ms, backoff_base ex_conf 2 = Val d ∧ backoff_ms ex_conf 2 1000003 = Val ms ∧ 1000 * d ≤ ms < 2000 * d ∧ 4 ≤ d ≤ 30) ∧
  (∃ ms, backoff_base (mkConf 2 10 false 6) 3 = Val 6 ∧ backoff_ms (mkConf 2 10 false 6) 3 77 = Val ms ∧ 6000 ≤ ms < 12000).
Proof.
  split.
  - destruct (backoff_in_bounds ex_log 2 30 1 ex_conf 2 1000003 ex_log_floor) as (d & ms & E1 & E2 & H1 & H2 & H3 & _); [vm_compute; reflexivity|lia..|].
    change (documented_delay 2 30 1 2) with 4 in H2. exists d, ms. split; [exact E1|]. split; [exact E2|]. lia.
  - destruct (backoff_in_bounds ex_log 2 10 0 (mkConf 2 10 false 6) 3 77 ex_log_floor) as (d & ms & E1 & E2 & H1 & _ & _ & H4); [vm_compute; reflexivity|lia..|].
    specialize (H4 eq_refl). change (documented_delay 2 10 0 3) with 6 in H4. rewrite H4 in E1, H1. exists ms. split; [exact E1|]. split; [exact E2|]. lia.
Defined.

(** The documented example of exponential backoff, delay 2 and
    maximum 30, should wait 2, 4, 8, 16, 30, 30 seconds; the code's delays before
    jitter are 4, 8, 30, 30, 30, 30, whatever implementation of the logarithm
    yields 2 for log 15, and the jitter then exceeds the documented maximum. *)
Theorem documented_backoff (log_int : Z → Z → Z) (c : reconnect_conf) :
  log_int 30 2 = 2 → conf_of log_int 2 30 1 c →
  map (backoff_base c) [1; 2; 3; 4; 5; 6] = map Val [4; 8; 30; 30; 30; 30] ∧
  backoff_ms c 3 29 = Val 59000.
Proof.
  intros Hl Hc. unfold conf_of, pc_client_new_with_reconnect in Hc. rewrite Hl in Hc.
  vm_compute in Hc. injection Hc as <-. split; vm_compute; reflexivity.
Qed.

Lemma documented_backoff_witness :
  map (backoff_base ex_conf) [1; 2; 3; 4; 5; 6] = map Val [4; 8; 30; 30; 30; 30] ∧
  backoff_ms ex_conf 3 29 = Val 59000.
Proof. apply (documented_backoff ex_log); vm_compute; reflexivity. Defined.
