(* ===== verification/Uv.v ===== *)
(** * What the client uses of the event loop ([src/deps/uv])

    Timers are modelled from libuv's own [timer.c]: a timer has a callback or
    none, is active with a timeout or not, and keeps its repeat interval. The
    rest of the loop is the environment: which callbacks it owes the client
    (outstanding connect and write requests, asynchronous wake-ups, handles being
    closed) is recorded, and any of them may run next. *)

From S2P Require Import Prelude.
Local Open Scope Z_scope.

(** ** Timers *)

(** [timer_cb ≠ NULL], the timeout in milliseconds while the timer is active,
    and the repeat interval. *)
Record uv_timer_t := mkTimer {
  timer_has_cb : bool;
  timer_due : option Z;
  timer_repeat : Z
}.

#[export] Instance uv_timer_eq_dec : EqDecision uv_timer_t.
Proof. solve_decision. Defined.

Definition uv_timer_init : uv_timer_t := mkTimer false None 0.

Definition uv_timer_stop (t : uv_timer_t) : uv_timer_t :=
  match timer_due t with
  | None => t
  | Some _ => mkTimer (timer_has_cb t) None (timer_repeat t)
  end.

Definition uv_timer_start (timeout repeat : Z) (t : uv_timer_t) : uv_timer_t :=
  mkTimer true (Some (u64 timeout)) (u64 repeat).

(** The error code of [uv_timer_again] is never looked at. *)
Definition uv_timer_again (t : uv_timer_t) : uv_timer_t :=
  if negb (timer_has_cb t) then t
  else if negb (timer_repeat t =? 0) then
    uv_timer_start (timer_repeat t) (timer_repeat t) (uv_timer_stop t)
  else t.

Definition uv_timer_set_repeat (repeat : Z) (t : uv_timer_t) : uv_timer_t :=
  mkTimer (timer_has_cb t) (timer_due t) (u64 repeat).

(** [uv__run_timers] on an expired timer, before its callback. *)
Definition uv__run_timer (t : uv_timer_t) : uv_timer_t := uv_timer_again (uv_timer_stop t).

Definition timer_active (t : uv_timer_t) : bool :=
  match timer_due t with Some _ => true | None => false end.

Lemma stop_inactive t : timer_active (uv_timer_stop t) = false.
Proof. destruct t as [? [|] ?]; done. Qed.

Lemma stop_repeat t : timer_repeat (uv_timer_stop t) = timer_repeat t.
Proof. destruct t as [? [|] ?]; done. Qed.

Lemma stop_has_cb t : timer_has_cb (uv_timer_stop t) = timer_has_cb t.
Proof. destruct t as [? [|] ?]; done. Qed.

(** ** Handles and requests *)

Inductive timer_id := HeartbeatTimer | TimeoutTimer | HandshakeTimer | ReconnectTimer.

(** A handle the client can close: the socket of a transport, a timer, the
    wake-up of [pc_client_disconnect], the wake-up of a tcp request. *)
Inductive uv_handle :=
  | HSocket (transport : positive)
  | HTimer (t : timer_id)
  | HCloseAsync
  | HAsync (a : positive).

#[export] Instance timer_id_eq_dec : EqDecision timer_id.
Proof. solve_decision. Defined.

#[export] Instance uv_handle_eq_dec : EqDecision uv_handle.
Proof. solve_decision. Defined.

(** An outstanding request with the callback it was given and what its [data]
    holds: the transport and connect request of [uv_tcp_connect]; for
    [uv_write], the transport of a package the library sends itself, or the
    request or notify being sent. *)
Inductive uv_req :=
  | UvConnect (transport conn : positive)
  | UvHandshakeReq (transport : positive)
  | UvHandshakeAck (transport : positive)
  | UvHeartbeat (transport : positive)
  | UvRequest (req : positive)
  | UvNotify (req : positive).

#[export] Instance uv_req_eq_dec : EqDecision uv_req.
Proof. solve_decision. Defined.
