(* ===== verification/UvStream.v ===== *)
(** * TCP streams of the event loop ([src/deps/uv/src/unix/stream.c], [tcp.c],
    [core.c])

    What is between the client's [uv_tcp_connect], [uv_write], [uv_read_start] and
    [uv_close] and the system calls of the kernel: one TCP handle with its watcher,
    its queue of write requests and the callbacks it owes. The queues are lists
    ([NgxQueue.v] has the pointers). The kernel's answers are lists in the world;
    when they run out a read or write would block. The user is a function from
    what happened so far to the calls made in a callback. A call that breaks a
    documented rule ends the run with [None]; a failed assertion is undefined. *)

From S2P Require Import Prelude.
Local Open Scope Z_scope.

(** ** The handle *)

(** A write request: the buffers from [write_index] on, each from [base] on. *)
Record uv_write_t := mkWrite {
  wr_id : Z;
  wr_bufs : list bytes;
  wr_freed : bool;
  wr_error : Z
}.

(** [uv__io_t]: the descriptor, [pevents], and membership of [pending_queue]. *)
Record uv__io_t := mkIo { io_fd : Z; io_in : bool; io_out : bool; io_pending : bool }.

(** The bits of [flags]; [UV_STREAM_BLOCKING] is only set for pipes and
    terminals. *)
Record uv_flags := mkFlags {
  UV_CLOSING : bool;
  UV_CLOSED : bool;
  UV_STREAM_READING : bool;
  UV_STREAM_SHUTTING : bool;
  UV_STREAM_SHUT : bool;
  UV_STREAM_WRITABLE : bool;
  UV__HANDLE_ACTIVE : bool
}.

(** [read_cb] is set together with [alloc_cb]; [active_reqs] counts the requests of
    this handle in the loop's list; [close_pending] is membership of
    [closing_handles]. *)
Record uv_stream_t := mkStream {
  flags : uv_flags;
  io_watcher : uv__io_t;
  read_cb : bool;
  connect_req : option Z;
  shutdown_req : option Z;
  delayed_error : Z;
  write_queue : list uv_write_t;
  write_completed_queue : list uv_write_t;
  write_queue_size : Z;
  active_reqs : Z;
  close_pending : bool
}.

(** ** The world *)

Inductive write_answer := Accepts (n : nat) | WAgain | WIntr | WError (e : positive).
Inductive read_answer := Data (b : Z) (bs : bytes) | Eof | RAgain | RIntr | RError (e : positive).

Inductive uv_call :=
| UConnect (req : Z)
| UWrite (req : Z) (bufs : list bytes)
| UReadStart
| UReadStop
| UShutdown (req : Z)
| UClose.

(** What happens, as the user and the peer see it: calls that return with or
    without an error, bytes the kernel takes, callbacks with their error. *)
Inductive uv_log :=
| LCall (c : uv_call) (ok : bool)
| LWrote (bs : bytes)
| LConnectCb (req error : Z)
| LWriteCb (req error : Z)
| LShutdownCb (req error : Z)
| LAlloc (len : Z)
| LReadCb (nread : Z) (data : bytes)
| LCloseCb.

(** [k_misc] answers [socket], [connect], [getsockopt] and [shutdown]; 0 when it is
    empty. *)
Record uv_world := mkUv {
  stream : uv_stream_t;
  k_write : list write_answer;
  k_read : list read_answer;
  k_misc : list Z;
  log : list uv_log
}.

(** ** Programs *)

Definition uv (A : Type) : Type := uv_world → exec (option (uv_world * A)).

#[global] Instance uv_ret : MRet uv := λ _ a w, Val (Some (w, a)).
#[global] Instance uv_bind : MBind uv := λ _ _ f m w,
  r ← m w;
  match r with Some (w, a) => f a w | None => Val None end.

Definition rule (b : bool) : uv unit := λ w, if b then Val (Some (w, tt)) else Val None.
Definition assert (b : bool) : uv unit := λ w, if b then Val (Some (w, tt)) else UB.
Definition get {A} (f : uv_stream_t → A) : uv A := λ w, Val (Some (w, f (stream w))).
Definition put (f : uv_stream_t → uv_stream_t) : uv unit := λ w,
  Val (Some (mkUv (f (stream w)) (k_write w) (k_read w) (k_misc w) (log w), tt)).
Definition note (e : uv_log) : uv unit := λ w,
  Val (Some (mkUv (stream w) (k_write w) (k_read w) (k_misc w) (log w ++ [e]), tt)).
Definition get_log : uv (list uv_log) := λ w, Val (Some (w, log w)).
Definition on_if (b : bool) (m : uv unit) : uv unit := if b then m else mret tt.

Definition set_flags (f : uv_flags → uv_flags) (s : uv_stream_t) : uv_stream_t :=
  mkStream (f (flags s)) (io_watcher s) (read_cb s) (connect_req s) (shutdown_req s) (delayed_error s) (write_queue s)
    (write_completed_queue s) (write_queue_size s) (active_reqs s) (close_pending s).
Definition set_io (f : uv__io_t → uv__io_t) (s : uv_stream_t) : uv_stream_t :=
  mkStream (flags s) (f (io_watcher s)) (read_cb s) (connect_req s) (shutdown_req s) (delayed_error s) (write_queue s)
    (write_completed_queue s) (write_queue_size s) (active_reqs s) (close_pending s).
Definition set_read_cb (b : bool) (s : uv_stream_t) : uv_stream_t :=
  mkStream (flags s) (io_watcher s) b (connect_req s) (shutdown_req s) (delayed_error s) (write_queue s)
    (write_completed_queue s) (write_queue_size s) (active_reqs s) (close_pending s).
Definition set_connect_req (r : option Z) (s : uv_stream_t) : uv_stream_t :=
  mkStream (flags s) (io_watcher s) (read_cb s) r (shutdown_req s) (delayed_error s) (write_queue s)
    (write_completed_queue s) (write_queue_size s) (active_reqs s) (close_pending s).
Definition set_shutdown_req (r : option Z) (s : uv_stream_t) : uv_stream_t :=
  mkStream (flags s) (io_watcher s) (read_cb s) (connect_req s) r (delayed_error s) (write_queue s)
    (write_completed_queue s) (write_queue_size s) (active_reqs s) (close_pending s).
Definition set_delayed_error (e : Z) (s : uv_stream_t) : uv_stream_t :=
  mkStream (flags s) (io_watcher s) (read_cb s) (connect_req s) (shutdown_req s) e (write_queue s)
    (write_completed_queue s) (write_queue_size s) (active_reqs s) (close_pending s).
Definition set_queues (q c : list uv_write_t) (s : uv_stream_t) : uv_stream_t :=
  mkStream (flags s) (io_watcher s) (read_cb s) (connect_req s) (shutdown_req s) (delayed_error s) q c
    (write_queue_size s) (active_reqs s) (close_pending s).
Definition set_queue_size (n : Z) (s : uv_stream_t) : uv_stream_t :=
  mkStream (flags s) (io_watcher s) (read_cb s) (connect_req s) (shutdown_req s) (delayed_error s) (write_queue s)
    (write_completed_queue s) n (active_reqs s) (close_pending s).
Definition set_active_reqs (n : Z) (s : uv_stream_t) : uv_stream_t :=
  mkStream (flags s) (io_watcher s) (read_cb s) (connect_req s) (shutdown_req s) (delayed_error s) (write_queue s)
    (write_completed_queue s) (write_queue_size s) n (close_pending s).
Definition set_close_pending (b : bool) (s : uv_stream_t) : uv_stream_t :=
  mkStream (flags s) (io_watcher s) (read_cb s) (connect_req s) (shutdown_req s) (delayed_error s) (write_queue s)
    (write_completed_queue s) (write_queue_size s) (active_reqs s) b.

Definition set_closing (f : uv_flags) : uv_flags :=
  mkFlags true (UV_CLOSED f) (UV_STREAM_READING f) (UV_STREAM_SHUTTING f) (UV_STREAM_SHUT f) (UV_STREAM_WRITABLE f) (UV__HANDLE_ACTIVE f).
Definition set_closed (f : uv_flags) : uv_flags :=
  mkFlags (UV_CLOSING f) true (UV_STREAM_READING f) (UV_STREAM_SHUTTING f) (UV_STREAM_SHUT f) (UV_STREAM_WRITABLE f) (UV__HANDLE_ACTIVE f).
Definition set_reading (b : bool) (f : uv_flags) : uv_flags :=
  mkFlags (UV_CLOSING f) (UV_CLOSED f) b (UV_STREAM_SHUTTING f) (UV_STREAM_SHUT f) (UV_STREAM_WRITABLE f) (UV__HANDLE_ACTIVE f).
Definition set_shutting (b : bool) (f : uv_flags) : uv_flags :=
  mkFlags (UV_CLOSING f) (UV_CLOSED f) (UV_STREAM_READING f) b (UV_STREAM_SHUT f) (UV_STREAM_WRITABLE f) (UV__HANDLE_ACTIVE f).
Definition set_shut (f : uv_flags) : uv_flags :=
  mkFlags (UV_CLOSING f) (UV_CLOSED f) (UV_STREAM_READING f) (UV_STREAM_SHUTTING f) true (UV_STREAM_WRITABLE f) (UV__HANDLE_ACTIVE f).
Definition set_writable (f : uv_flags) : uv_flags :=
  mkFlags (UV_CLOSING f) (UV_CLOSED f) (UV_STREAM_READING f) (UV_STREAM_SHUTTING f) (UV_STREAM_SHUT f) true (UV__HANDLE_ACTIVE f).
Definition set_active (b : bool) (f : uv_flags) : uv_flags :=
  mkFlags (UV_CLOSING f) (UV_CLOSED f) (UV_STREAM_READING f) (UV_STREAM_SHUTTING f) (UV_STREAM_SHUT f) (UV_STREAM_WRITABLE f) b.

(** ** System calls *)

Definition EINTR : Z := 4.
Definition EINPROGRESS : Z := 115.
Definition ECONNREFUSED : Z := 111.
Definition ECANCELED : Z := 125.
Definition IOV_MAX : nat := 1024.

Definition ask : uv Z := λ w,
  match k_misc w with
  | [] => Val (Some (w, 0))
  | z :: l => Val (Some (mkUv (stream w) (k_write w) (k_read w) l (log w), z))
  end.

(** The calls that are repeated while they are interrupted. *)
Fixpoint after_intr (l : list write_answer) : list write_answer :=
  match l with WIntr :: l => after_intr l | _ => l end.
Fixpoint after_rintr (l : list read_answer) : list read_answer :=
  match l with RIntr :: l => after_rintr l | _ => l end.

(** [write] or [writev]: the number of bytes taken, or the error; [None] is
    EAGAIN. *)
Definition sys_write (bufs : list bytes) : uv (option (Z + Z)) := λ w,
  let put_answers l e := mkUv (stream w) l (k_read w) (k_misc w) (log w ++ e) in
  match after_intr (k_write w) with
  | Accepts n :: l =>
      let taken := take n (concat (take IOV_MAX bufs)) in
      Val (Some (put_answers l [LWrote taken], Some (inl (zlen taken))))
  | WError e :: l => Val (Some (put_answers l [], Some (inr (Zpos e))))
  | WAgain :: l => Val (Some (put_answers l [], None))
  | l => Val (Some (put_answers l [], None))
  end.

(** [read] into a buffer of [len] bytes; what does not fit is left. *)
Definition sys_read (len : Z) : uv read_answer := λ w,
  let put_answers l := mkUv (stream w) (k_write w) l (k_misc w) (log w) in
  match after_rintr (k_read w) with
  | Data b bs :: l =>
      let rest := drop (Z.to_nat len) (b :: bs) in
      Val (Some (put_answers (match rest with [] => l | b :: bs => Data b bs :: l end),
                 match take (Z.to_nat len) (b :: bs) with [] => RAgain | b :: bs => Data b bs end))
  | Eof :: l => Val (Some (put_answers (Eof :: l), Eof))
  | RError e :: l => Val (Some (put_answers l, RError e))
  | RAgain :: l => Val (Some (put_answers l, RAgain))
  | l => Val (Some (put_answers l, RAgain))
  end.

(** ** Watchers, handles and requests *)

Definition io_fd_of (s : uv_stream_t) : Z := io_fd (io_watcher s).

Definition uv__io_start_in : uv unit :=
  fd ← get io_fd_of;
  _ ← assert (0 <=? fd);
  put (set_io (λ w, mkIo (io_fd w) true (io_out w) (io_pending w))).

Definition uv__io_start_out : uv unit :=
  fd ← get io_fd_of;
  _ ← assert (0 <=? fd);
  put (set_io (λ w, mkIo (io_fd w) (io_in w) true (io_pending w))).

Definition uv__io_stop (pin pout : bool) : uv unit :=
  fd ← get io_fd_of;
  if fd =? -1 then mret tt
  else
    _ ← assert (0 <=? fd);
    put (set_io (λ w, mkIo (io_fd w) (io_in w && negb pin) (io_out w && negb pout) (io_pending w))).

Definition uv__io_feed : uv unit := put (set_io (λ w, mkIo (io_fd w) (io_in w) (io_out w) true)).

Definition uv__io_close : uv unit :=
  _ ← uv__io_stop true true;
  put (set_io (λ w, mkIo (io_fd w) (io_in w) (io_out w) false)).

Definition uv__handle_start : uv unit := put (set_flags (set_active true)).
Definition uv__handle_stop : uv unit := put (set_flags (set_active false)).

Definition uv__req_register : uv unit := put (λ s, set_active_reqs (active_reqs s + 1) s).
Definition uv__req_unregister : uv unit :=
  n ← get active_reqs;
  _ ← assert (0 <? n);
  put (set_active_reqs (n - 1)).

(** ** Writing *)

Definition uv__buf_count (bufs : list bytes) : Z := zlen (concat bufs).

Definition uv__write_req_size (req : uv_write_t) : uv Z :=
  _ ← assert (negb (wr_freed req));
  let size := uv__buf_count (wr_bufs req) in
  n ← get write_queue_size;
  _ ← assert (size <=? n);
  mret size.

(** The request is the head of [write_queue]. *)
Definition uv__write_req_finish (req : uv_write_t) : uv unit :=
  let req := if wr_error req =? 0 then mkWrite (wr_id req) (wr_bufs req) true 0 else req in
  _ ← put (λ s, set_queues (tail (write_queue s)) (write_completed_queue s ++ [req]) s);
  uv__io_feed.

(** The loop [while (n >= 0)] over the buffers: those that are left. *)
Fixpoint write_advance (bufs : list bytes) (n : Z) : uv (list bytes) :=
  match bufs with
  | [] => assert false ;; mret []
  | buf :: rest =>
      let len := zlen buf in
      if n <? len then
        _ ← put (λ s, set_queue_size (u64 (write_queue_size s - n)) s);
        mret (drop (Z.to_nat n) buf :: rest)
      else
        q ← get write_queue_size;
        _ ← assert (len <=? q);
        _ ← put (set_queue_size (q - len));
        match rest with
        | [] => _ ← assert (n - len =? 0); mret []
        | _ => write_advance rest (n - len)
        end
  end.

Definition uv__write : uv unit :=
  fd ← get io_fd_of;
  _ ← assert (0 <=? fd);
  q ← get write_queue;
  match q with
  | [] => mret tt
  | req :: rest =>
      n ← sys_write (wr_bufs req);
      match n with
      | Some (inr e) =>
          _ ← uv__write_req_finish (mkWrite (wr_id req) (wr_bufs req) (wr_freed req) e);
          _ ← uv__io_stop false true;
          pin ← get (λ s, io_in (io_watcher s));
          on_if (negb pin) uv__handle_stop
      | None => uv__io_start_out
      | Some (inl n) =>
          bufs ← write_advance (wr_bufs req) n;
          match bufs with
          | [] => uv__write_req_finish (mkWrite (wr_id req) [] (wr_freed req) (wr_error req))
          | _ =>
              _ ← put (λ s, set_queues (mkWrite (wr_id req) bufs (wr_freed req) (wr_error req) :: rest) (write_completed_queue s) s);
              uv__io_start_out
          end
      end
  end.

(** ** Calls *)

Fixpoint ask_connect (l : list Z) : list Z * Z :=
  match l with
  | [] => ([], 0)
  | z :: l => if z =? EINTR then ask_connect l else (l, z)
  end.

(** [connect], repeated while interrupted: 0 or the error. *)
Definition sys_connect : uv Z := λ w,
  let '(l, z) := ask_connect (k_misc w) in
  Val (Some (mkUv (stream w) (k_write w) (k_read w) l (log w), z)).

(** [false] is -1. *)
Definition maybe_new_socket : uv bool :=
  fd ← get io_fd_of;
  if negb (fd =? -1) then mret true
  else
    sockfd ← ask;
    if sockfd <? 0 then mret false
    else
      _ ← put (set_flags set_writable);
      _ ← put (set_io (λ w, mkIo sockfd (io_in w) (io_out w) (io_pending w)));
      mret true.

Definition uv__connect (req : Z) : uv bool :=
  c ← get connect_req;
  match c with
  | Some _ => mret false
  | None =>
      ok ← maybe_new_socket;
      if negb ok then mret false
      else
        _ ← put (set_delayed_error 0);
        r ← sys_connect;
        if negb (r =? 0) && negb (r =? EINPROGRESS) && negb (r =? ECONNREFUSED) then mret false
        else
          _ ← on_if (r =? ECONNREFUSED) (put (set_delayed_error r));
          _ ← uv__req_register;
          _ ← put (set_connect_req (Some req));
          _ ← uv__io_start_out;
          _ ← on_if (r =? ECONNREFUSED) uv__io_feed;
          mret true
  end.

Definition in_use (req : Z) (s : uv_stream_t) : bool :=
  existsb (λ r, wr_id r =? req) (write_queue s ++ write_completed_queue s).

(** A request is not reused before its callback, has a buffer, and the buffers fit
    the address space. *)
Definition uv_write (req : Z) (bufs : list bytes) : uv bool :=
  _ ← rule (negb (bool_decide (bufs = [])));
  fd ← get io_fd_of;
  if fd <? 0 then mret false
  else
    used ← get (in_use req);
    n ← get write_queue_size;
    _ ← rule (negb used && (n + uv__buf_count bufs <? 2 ^ 63));
    let empty_queue := n =? 0 in
    _ ← uv__req_register;
    _ ← put (set_queue_size (n + uv__buf_count bufs));
    _ ← put (λ s, set_queues (write_queue s ++ [mkWrite req bufs false 0]) (write_completed_queue s) s);
    c ← get connect_req;
    _ ← match c with
        | Some _ => mret tt
        | None => if empty_queue then uv__write else uv__io_start_out
        end;
    mret true.

Definition uv_read_start : uv bool :=
  f ← get flags;
  if UV_CLOSING f then mret false
  else
    fd ← get io_fd_of;
    _ ← rule (0 <=? fd);
    _ ← put (set_flags (set_reading true));
    _ ← put (set_read_cb true);
    _ ← uv__io_start_in;
    _ ← uv__handle_start;
    mret true.

Definition uv_read_stop : uv bool :=
  _ ← put (set_flags (set_reading false));
  _ ← uv__io_stop true false;
  pout ← get (λ s, io_out (io_watcher s));
  _ ← on_if (negb pout) uv__handle_stop;
  _ ← put (set_read_cb false);
  mret true.

Definition uv_shutdown (req : Z) : uv bool :=
  fd ← get io_fd_of;
  _ ← rule (0 <=? fd);
  f ← get flags;
  if negb (UV_STREAM_WRITABLE f) || UV_STREAM_SHUT f || UV_STREAM_SHUTTING f || UV_CLOSED f || UV_CLOSING f then mret false
  else
    _ ← uv__req_register;
    _ ← put (set_shutdown_req (Some req));
    _ ← put (set_flags (set_shutting true));
    _ ← uv__io_start_out;
    mret true.

Definition uv__stream_close : uv unit :=
  _ ← uv__io_close;
  _ ← uv_read_stop;
  _ ← uv__handle_stop;
  _ ← put (set_io (λ w, mkIo (-1) (io_in w) (io_out w) (io_pending w)));
  io ← get io_watcher;
  assert (negb (io_in io) && negb (io_out io)).

Definition uv__make_close_pending : uv unit :=
  f ← get flags;
  _ ← assert (UV_CLOSING f);
  _ ← assert (negb (UV_CLOSED f));
  put (set_close_pending true).

Definition uv_close : uv bool :=
  f ← get flags;
  _ ← rule (negb (UV_CLOSING f) && negb (UV_CLOSED f));
  _ ← put (set_flags set_closing);
  _ ← uv__stream_close;
  _ ← uv__make_close_pending;
  mret true.

(** A handle that is being closed is not connected again. *)
Definition do_call (c : uv_call) : uv unit :=
  ok ← match c with
       | UConnect req => f ← get flags; _ ← rule (negb (UV_CLOSING f)); uv__connect req
       | UWrite req bufs => uv_write req bufs
       | UReadStart => uv_read_start
       | UReadStop => uv_read_stop
       | UShutdown req => uv_shutdown req
       | UClose => uv_close
       end;
  note (LCall c ok).

Fixpoint do_calls (cs : list uv_call) : uv unit :=
  match cs with
  | [] => mret tt
  | c :: cs => _ ← do_call c; do_calls cs
  end.

(** ** Callbacks *)

Section User.
Context (user : list uv_log → list uv_call).
Context (alloc_cb : list uv_log → Z).

Definition callback (e : uv_log) : uv unit :=
  _ ← note e;
  l ← get_log;
  do_calls (user l).

(** The loop over [write_completed_queue], in [uv__write_callbacks] and in
    [uv__stream_destroy]. *)
Fixpoint complete_loop (fuel : nat) : uv unit :=
  match fuel with
  | O => λ _, NoFuel
  | S fuel =>
      l ← get write_completed_queue;
      match l with
      | [] => mret tt
      | req :: rest =>
          _ ← put (λ s, set_queues (write_queue s) rest s);
          _ ← uv__req_unregister;
          _ ← on_if (negb (wr_freed req))
                (size ← uv__write_req_size req;
                 put (λ s, set_queue_size (write_queue_size s - size) s));
          _ ← callback (LWriteCb (wr_id req) (wr_error req));
          complete_loop fuel
      end
  end.

(** Each round takes a completed request away, and only a write the kernel answers
    adds one. *)
Definition complete_all : uv unit := λ w,
  complete_loop (S (length (write_completed_queue (stream w)) + length (k_write w))) w.

Definition uv__drain : uv unit :=
  q ← get write_queue;
  _ ← assert (bool_decide (q = []));
  _ ← uv__io_stop false true;
  f ← get flags;
  on_if (UV_STREAM_SHUTTING f && negb (UV_CLOSING f) && negb (UV_STREAM_SHUT f))
    (r ← get shutdown_req;
     match r with
     | None => assert false
     | Some req =>
         _ ← put (set_shutdown_req None);
         _ ← put (set_flags (set_shutting false));
         _ ← uv__req_unregister;
         status ← ask;
         _ ← on_if (status =? 0) (put (set_flags set_shut));
         callback (LShutdownCb req status)
     end).

Definition uv__write_callbacks : uv unit :=
  _ ← complete_all;
  c ← get write_completed_queue;
  _ ← assert (bool_decide (c = []));
  q ← get write_queue;
  on_if (bool_decide (q = [])) uv__drain.

(** A buffer the user gives must have room. After an error the user stops
    reading. *)
Fixpoint read_loop (count : nat) : uv unit :=
  match count with
  | O => mret tt
  | S count =>
      s ← get (λ s, s);
      if negb (read_cb s && UV_STREAM_READING (flags s)) then mret tt
      else
        l ← get_log;
        let len := alloc_cb l in
        _ ← note (LAlloc len);
        _ ← rule (0 <? len);
        fd ← get io_fd_of;
        _ ← assert (0 <=? fd);
        nread ← sys_read len;
        match nread with
        | RAgain | RIntr =>
            _ ← on_if (UV_STREAM_READING (flags s)) uv__io_start_in;
            callback (LReadCb 0 [])
        | RError e =>
            _ ← callback (LReadCb (-1) []);
            pin ← get (λ s, io_in (io_watcher s));
            rule (negb pin)
        | Eof =>
            _ ← uv__io_stop true false;
            pout ← get (λ s, io_out (io_watcher s));
            _ ← on_if (negb pout) uv__handle_stop;
            callback (LReadCb (-1) [])
        | Data b bs =>
            let n := zlen (b :: bs) in
            _ ← callback (LReadCb n (b :: bs));
            if n <? len then mret tt else read_loop count
        end
  end.

Definition uv__read : uv unit := read_loop 32.

Definition uv__stream_connect : uv unit :=
  c ← get connect_req;
  match c with
  | None => assert false
  | Some req =>
      d ← get delayed_error;
      error ← (if negb (d =? 0) then _ ← put (set_delayed_error 0); mret d
               else fd ← get io_fd_of; _ ← assert (0 <=? fd); ask);
      if error =? EINPROGRESS then mret tt
      else
        _ ← put (set_connect_req None);
        _ ← uv__req_unregister;
        _ ← uv__io_stop false true;
        callback (LConnectCb req error)
  end.

Definition uv__stream_io (pin pout perr : bool) : uv unit :=
  f ← get flags;
  _ ← assert (negb (UV_CLOSING f));
  c ← get connect_req;
  match c with
  | Some _ => uv__stream_connect
  | None =>
      _ ← on_if (pin || perr) (fd ← get io_fd_of; _ ← assert (0 <=? fd); uv__read);
      fd ← get io_fd_of;
      if (pin || perr) && (fd =? -1) then mret tt
      else
        on_if (pout || perr)
          (_ ← assert (0 <=? fd);
           _ ← uv__write;
           uv__write_callbacks)
  end.

(** ** Closing *)

Fixpoint cancel_loop (fuel : nat) : uv unit :=
  match fuel with
  | O => λ _, NoFuel
  | S fuel =>
      q ← get write_queue;
      match q with
      | [] => mret tt
      | req :: rest =>
          _ ← put (λ s, set_queues rest (write_completed_queue s) s);
          _ ← uv__req_unregister;
          _ ← callback (LWriteCb (wr_id req) ECANCELED);
          cancel_loop fuel
      end
  end.

Definition cancel_all : uv unit := λ w, cancel_loop (S (length (write_queue (stream w)))) w.

Definition uv__stream_destroy : uv unit :=
  io ← get io_watcher;
  _ ← assert (negb (io_in io) && negb (io_out io));
  f ← get flags;
  _ ← assert (UV_CLOSED f);
  c ← get connect_req;
  _ ← match c with
      | Some req =>
          _ ← uv__req_unregister;
          _ ← callback (LConnectCb req ECANCELED);
          put (set_connect_req None)
      | None => mret tt
      end;
  _ ← cancel_all;
  _ ← complete_all;
  r ← get shutdown_req;
  match r with
  | Some req =>
      _ ← uv__req_unregister;
      _ ← callback (LShutdownCb req ECANCELED);
      put (set_shutdown_req None)
  | None => mret tt
  end.

Definition uv__finish_close : uv unit :=
  f ← get flags;
  _ ← assert (UV_CLOSING f);
  _ ← assert (negb (UV_CLOSED f));
  _ ← put (set_flags set_closed);
  _ ← uv__stream_destroy;
  callback LCloseCb.

(** ** The loop *)

Inductive uv_event :=
| EvCall (c : uv_call)
| EvIo (pin pout perr : bool)
| EvPending
| EvClosing.

(** An event the loop has no reason for does not happen: [uv__io_poll] reports
    descriptors that are watched, [uv__run_pending] takes watchers that were fed,
    [uv__run_closing_handles] the handles being closed. *)
Definition deliver_uv (e : uv_event) : uv unit :=
  s ← get (λ s, s);
  let io := io_watcher s in
  match e with
  | EvCall c => do_call c
  | EvIo pin pout perr =>
      on_if ((io_in io || io_out io) && (negb pin || io_in io) && (negb pout || io_out io)) (uv__stream_io pin pout perr)
  | EvPending =>
      on_if (io_pending io)
        (_ ← put (set_io (λ w, mkIo (io_fd w) (io_in w) (io_out w) false));
         uv__stream_io false true false)
  | EvClosing => on_if (close_pending s) (_ ← put (set_close_pending false); uv__finish_close)
  end.

Fixpoint run_uv (es : list uv_event) : uv unit :=
  match es with
  | [] => mret tt
  | e :: es => _ ← deliver_uv e; run_uv es
  end.
End User.

(** [uv_tcp_init]. *)
Definition uv_tcp_init : uv_stream_t :=
  mkStream (mkFlags false false false false false false false) (mkIo (-1) false false false) false None None 0 [] [] 0 0 false.

Definition new_uv (kw : list write_answer) (kr : list read_answer) (km : list Z) : uv_world := mkUv uv_tcp_init kw kr km [].

(** Connect, write two requests of which the first goes out in two pieces, read an
    answer, close. *)
Example stream_example :
  let user l :=
    match last l with
    | Some (LConnectCb _ 0) => [UReadStart; UWrite 1 [[1; 2]; [3]]; UWrite 2 [[4]]]
    | Some (LReadCb (-1) _) => [UClose]
    | _ => []
    end in
  match run_uv user (λ _, 65536) [EvCall (UConnect 0); EvIo false true false; EvIo false true false; EvPending; EvIo true false false; EvPending; EvClosing]
          (new_uv [Accepts 2; Accepts 9; WIntr; Accepts 9] [Data 7 []; Eof] [5; EINPROGRESS]) with
  | Val (Some (w, _)) => log w
  | _ => []
  end =
  [LCall (UConnect 0) true; LConnectCb 0 0; LCall UReadStart true; LWrote [1; 2]; LCall (UWrite 1 [[1; 2]; [3]]) true;
   LCall (UWrite 2 [[4]]) true; LWrote [3]; LWriteCb 1 0; LWrote [4]; LWriteCb 2 0; LAlloc 65536; LReadCb 1 [7]].
Proof. vm_compute. reflexivity. Qed.
