(* ===== verification/UvStreamInv.v ===== *)
(** * What a TCP stream promises

    Invariants of [UvStream.v] that hold whatever the kernel answers and whatever
    the user does in callbacks, as long as it keeps to the documented rules: no
    assertion of libuv fails, no write request is called back twice, in order until
    the handle is closed, and the bytes on the wire are the bytes of the requests in
    order. *)

From S2P Require Import Prelude UvStream.
Local Open Scope Z_scope.

(** ** Triples *)

(** From [P], [m] returns or the user has broken a rule, never undefined
    behaviour; if it returns, [Q]. *)
Definition triple {A} (P : uv_world → Prop) (m : uv A) (Q : A → uv_world → Prop) : Prop :=
  ∀ w, P w → ∃ o, m w = Val o ∧ match o with Some (w', a) => Q a w' | None => True end.

Lemma triple_ret {A} (a : A) (P : uv_world → Prop) (Q : A → uv_world → Prop) : (∀ w, P w → Q a w) → triple P (mret a) Q.
Proof. intros H w Hw. eexists. split; [done|]. by apply H. Qed.

Lemma triple_bind {A B} P (m : uv A) R (f : A → uv B) Q :
  triple P m R → (∀ a, triple (R a) (f a) Q) → triple P (m ≫= f) Q.
Proof.
  intros Hm Hf w Hw. destruct (Hm w Hw) as (o & E & Ho). unfold mbind, uv_bind. rewrite E, bind_Val.
  destruct o as [[w' a]|]; [|by eexists]. by apply Hf.
Qed.

Lemma triple_conseq {A} (P P' : uv_world → Prop) (m : uv A) (Q Q' : A → uv_world → Prop) :
  triple P' m Q' → (∀ w, P w → P' w) → (∀ a w, Q' a w → Q a w) → triple P m Q.
Proof. intros Hm HP HQ w Hw. destruct (Hm w (HP w Hw)) as (o & E & Ho). exists o. split; [done|]. destruct o as [[w' a]|]; [by apply HQ|done]. Qed.

Lemma triple_get {A} (f : uv_stream_t → A) (P : uv_world → Prop) : triple P (get f) (λ a w, P w ∧ a = f (stream w)).
Proof. intros w Hw. eexists. by split. Qed.

Lemma triple_log (P : uv_world → Prop) : triple P get_log (λ l w, P w ∧ l = log w).
Proof. intros w Hw. eexists. by split. Qed.

Lemma triple_rule b (P : uv_world → Prop) : triple P (rule b) (λ _ w, P w ∧ b = true).
Proof. intros w Hw. unfold rule. destruct b; by eexists. Qed.

Lemma triple_assert b (P : uv_world → Prop) : (∀ w, P w → b = true) → triple P (assert b) (λ _ w, P w ∧ b = true).
Proof. intros Hb w Hw. unfold assert. rewrite (Hb w Hw). by eexists. Qed.

Lemma triple_if (b : bool) (m : uv unit) P Q :
  (b = true → triple P m (λ _, Q)) → (b = false → ∀ w, P w → Q w) → triple P (on_if b m) (λ _, Q).
Proof. intros H1 H2. unfold on_if. destruct b; [by apply H1|]. apply triple_ret. by apply H2. Qed.

(** Running straight-line code on a given world. *)
Lemma uv_bind_Some {A B} (m : uv A) (f : A → uv B) w w' a : m w = Val (Some (w', a)) → (m ≫= f) w = f a w'.
Proof. unfold mbind, uv_bind. by intros ->. Qed.

(** ** What the log says *)

Definition submitted (l : list uv_log) : list (Z * bytes) :=
  omap (λ e, match e with LCall (UWrite req bufs) true => Some (req, concat bufs) | _ => None end) l.

Definition called (l : list uv_log) : list (Z * Z) :=
  omap (λ e, match e with LWriteCb req error => Some (req, error) | _ => None end) l.

Definition wrote (l : list uv_log) : bytes :=
  concat (omap (λ e, match e with LWrote bs => Some bs | _ => None end) l).

Lemma submitted_app l1 l2 : submitted (l1 ++ l2) = submitted l1 ++ submitted l2.
Proof. apply omap_app. Qed.
Lemma called_app l1 l2 : called (l1 ++ l2) = called l1 ++ called l2.
Proof. apply omap_app. Qed.
Lemma wrote_app l1 l2 : wrote (l1 ++ l2) = wrote l1 ++ wrote l2.
Proof. unfold wrote. by rewrite omap_app, concat_app. Qed.

(** Every connection was established, or failed, with no write outstanding. *)
Definition idle_connects (l : list uv_log) : Prop :=
  ∀ l1 req error l2, l = l1 ++ LConnectCb req error :: l2 → length (submitted l1) = length (called l1).

Lemma idle_app l1 l2 : idle_connects (l1 ++ l2) → idle_connects l1.
Proof. intros H a req e b ->. apply (H a req e (b ++ l2)). by rewrite <- app_assoc. Qed.

(** ** The invariant *)

(** A finished request: what it was to send, what it sent, how it ended. *)
Record fin := mkFin { f_id : Z; f_data : bytes; f_part : bytes; f_err : Z }.

Definition fin_ok (f : fin) : Prop := f_part f `prefix_of` f_data f ∧ (f_err f = 0 → f_part f = f_data f).

(** The requests in the queue, of which the first has sent [P]. *)
Definition waiting (r : uv_write_t) : Z * bytes := (wr_id r, concat (wr_bufs r)).
Definition outstanding (P : bytes) (q : list uv_write_t) : list (Z * bytes) :=
  match q with [] => [] | r :: q => (wr_id r, P ++ concat (wr_bufs r)) :: map waiting q end.

Definition result (r : uv_write_t) : Z * Z := (wr_id r, wr_error r).

Record linked (sub : list (Z * bytes)) (s : uv_stream_t) (l : list uv_log) (H : list fin) (P : bytes) : Prop := {
  ln_sub : sub = map (λ f, (f_id f, f_data f)) H ++ outstanding P (write_queue s);
  ln_wrote : wrote l = concat (map f_part H) ++ P;
  ln_none : write_queue s = [] → P = [];
  ln_fin : Forall fin_ok H;
  ln_called : called l ++ map result (write_completed_queue s) ≡ₚ map (λ f, (f_id f, f_err f)) H;
  ln_order : UV_CLOSED (flags s) = false → called l ++ map result (write_completed_queue s) = map (λ f, (f_id f, f_err f)) H
}.

Definition size_of (q : list uv_write_t) : Z := zlen (concat (map (λ r, concat (wr_bufs r)) q)).
Definition failed (c : list uv_write_t) : list uv_write_t := filter (λ r, wr_freed r = false) c.
Definition count {A} (o : option A) : Z := match o with Some _ => 1 | None => 0 end.

Definition queued (r : uv_write_t) : Prop := wr_freed r = false ∧ wr_error r = 0 ∧ wr_bufs r ≠ [].
Definition ended (r : uv_write_t) : Prop := wr_freed r = (wr_error r =? 0).

(** The handle, but for the link to the log; [ex] requests are registered besides
    those the handle has. *)
Record core (ex : Z) (s : uv_stream_t) : Prop := {
  c_fd : -1 ≤ io_fd_of s;
  c_quiet : io_fd_of s = -1 → io_in (io_watcher s) = false ∧ io_out (io_watcher s) = false ∧ io_pending (io_watcher s) = false ∧
    UV_STREAM_READING (flags s) = false;
  c_closing : UV_CLOSING (flags s) = true → io_fd_of s = -1;
  c_closed : UV_CLOSED (flags s) = true → UV_CLOSING (flags s) = true;
  c_pending : close_pending s = true → UV_CLOSING (flags s) = true ∧ UV_CLOSED (flags s) = false;
  c_fresh : io_fd_of s = -1 → UV_CLOSING (flags s) = false → write_queue s = [];
  c_shutreq : shutdown_req s ≠ None → UV_STREAM_SHUTTING (flags s) = true;
  c_shutting : UV_STREAM_SHUTTING (flags s) = true → UV_CLOSING (flags s) = false → shutdown_req s ≠ None;
  c_reqs : active_reqs s = ex + zlen (write_queue s) + zlen (write_completed_queue s) + count (connect_req s) + count (shutdown_req s);
  c_queue : Forall queued (write_queue s);
  c_done : Forall ended (write_completed_queue s);
  c_size : size_of (write_queue s) + size_of (failed (write_completed_queue s)) ≤ write_queue_size s < 2 ^ 63;
  c_exact : UV_CLOSED (flags s) = false → write_queue_size s = size_of (write_queue s) + size_of (failed (write_completed_queue s));
  c_will : UV_CLOSING (flags s) = true → UV_CLOSED (flags s) = false → close_pending s = true
}.

(** [sub] are the requests accepted so far. *)
Definition inv (ex : Z) (sub : list (Z * bytes)) (w : uv_world) : Prop :=
  core ex (stream w) ∧ ∃ H P, linked sub (stream w) (log w) H P.

(** The loop has a reason to come back to the queue. *)
Definition watched (w : uv_world) : Prop :=
  idle_connects (log w) → write_queue (stream w) ≠ [] → 0 ≤ io_fd_of (stream w) → connect_req (stream w) = None →
  io_out (io_watcher (stream w)) = true ∨ io_pending (io_watcher (stream w)) = true.

Arguments failed : simpl never.
Arguments size_of : simpl never.

Lemma size_cons r q : size_of (r :: q) = zlen (concat (wr_bufs r)) + size_of q.
Proof. unfold size_of. cbn [map concat]. apply zlen_app. Qed.

Lemma size_app q1 q2 : size_of (q1 ++ q2) = size_of q1 + size_of q2.
Proof. unfold size_of. rewrite map_app, concat_app. apply zlen_app. Qed.

Lemma size_nonneg q : 0 ≤ size_of q.
Proof. apply zlen_nonneg. Qed.

(** ** One write *)

Lemma after_intr_length l : (length (after_intr l) ≤ length l)%nat.
Proof. induction l as [|[] l IH]; simpl; lia. Qed.

(** The world with other answers and a longer log. *)
Definition moved (s : uv_stream_t) (kw : list write_answer) (e : list uv_log) (w : uv_world) : uv_world :=
  mkUv s kw (k_read w) (k_misc w) (log w ++ e).

Lemma sys_write_cases bufs w : ∃ kw e r, sys_write bufs w = Val (Some (moved (stream w) kw e w, r)) ∧
  match r with
  | Some (inl n) => ∃ taken more, concat bufs = taken ++ more ∧ e = [LWrote taken] ∧ n = zlen taken ∧ (length kw < length (k_write w))%nat
  | Some (inr x) => 0 < x ∧ e = [] ∧ (length kw < length (k_write w))%nat
  | None => e = [] ∧ (length kw ≤ length (k_write w))%nat
  end.
Proof.
  unfold sys_write. pose proof (after_intr_length (k_write w)) as Hl. destruct (after_intr (k_write w)) as [|[n| | |x] l]; cbn [length] in Hl.
  - eexists _, _, _. split; [done|]. done.
  - eexists _, _, _. split; [done|]. exists (take n (concat (take IOV_MAX bufs))), (drop n (concat (take IOV_MAX bufs)) ++ concat (drop IOV_MAX bufs)).
    split; [|split; [done|split; [done|lia]]]. rewrite app_assoc, take_drop, <- concat_app, take_drop. done.
  - eexists _, _, _. split; [done|]. split; [done|lia].
  - exists (WIntr :: l), [], None. split; [done|]. split; [done|]. simpl. lia.
  - eexists _, _, _. split; [done|]. split; [lia|]. split; [done|lia].
Qed.

(** The buffers that are left are the bytes that are left. *)
Lemma write_advance_ok bufs : bufs ≠ [] → ∀ taken more w, concat bufs = taken ++ more → zlen (concat bufs) ≤ write_queue_size (stream w) < 2 ^ 63 →
  ∃ rest, write_advance bufs (zlen taken) w =
      Val (Some (mkUv (set_queue_size (write_queue_size (stream w) - zlen taken) (stream w)) (k_write w) (k_read w) (k_misc w) (log w), rest)) ∧
    concat rest = more.
Proof.
  induction bufs as [|buf bufs IH]; [done|]. intros _ taken more w Hc Hq. cbn [concat] in Hc. cbn [concat] in Hq. rewrite zlen_app in Hq.
  pose proof (zlen_nonneg buf). pose proof (zlen_nonneg (concat bufs)). pose proof (zlen_nonneg taken). cbn [write_advance].
  destruct (zlen taken <? zlen buf) eqn:E.
  - erewrite uv_bind_Some; [|done]. exists (drop (Z.to_nat (zlen taken)) buf :: bufs). split.
    + unfold mret, uv_ret. do 3 f_equal. rewrite wrap_small by (unfold is_u; blia). done.
    + cbn [concat]. unfold zlen in *. rewrite Nat2Z.id. rewrite <- (drop_app_le buf (concat bufs)) by blia. rewrite Hc. by rewrite drop_app_length.
  - erewrite uv_bind_Some; [|done]. erewrite uv_bind_Some; [|unfold assert; rewrite (proj2 (Z.leb_le _ _)) by lia; done]. erewrite uv_bind_Some; [|done].
    assert (∃ t', taken = buf ++ t') as [t' ->].
    { exists (drop (length buf) taken). assert (buf = take (length buf) taken) as Eb; [|rewrite Eb at 1; by rewrite take_drop].
      assert (take (length buf) (buf ++ concat bufs) = take (length buf) (taken ++ more)) as E2 by (by rewrite Hc).
      rewrite take_app_length, take_app_le in E2 by (unfold zlen in *; blia). done. }
    rewrite <- app_assoc in Hc. apply app_inv_head in Hc. rewrite zlen_app in *. destruct bufs as [|b2 bufs].
    + cbn [concat] in Hc. symmetry in Hc. apply app_eq_nil in Hc as [-> ->]. erewrite uv_bind_Some; [|unfold assert; rewrite zlen_nil, (proj2 (Z.eqb_eq _ _)) by lia; done].
      exists []. split; [|done]. unfold mret, uv_ret. do 3 f_equal. rewrite zlen_nil, Z.add_0_r. done.
    + replace (zlen buf + zlen t' - zlen buf) with (zlen t') by lia.
      edestruct (IH ltac:(done) t' more) as (rest & -> & Hr); [done| |exists rest; split; [|done]].
      * cbn [stream write_queue_size set_queue_size]. lia.
      * do 3 f_equal. cbn [stream write_queue_size set_queue_size]. rewrite Z.sub_add_distr. done.
Qed.

(** ** The link to the log *)

Section Link.
Context (sub : list (Z * bytes)) (s s' : uv_stream_t) (l l' : list uv_log).
Context (Hclosed : UV_CLOSED (flags s') = UV_CLOSED (flags s)).

Lemma link_same H P : write_queue s' = write_queue s → write_completed_queue s' = write_completed_queue s →
  wrote l' = wrote l → called l' = called l → linked sub s l H P → linked sub s' l' H P.
Proof. intros E1 E2 E3 E4 [L1 L2 L3 L4 L5 L6]. split; rewrite ?E1, ?E2, ?E3, ?E4, ?Hclosed; done. Qed.

(** The first request sends [taken]. *)
Lemma link_wrote r r' q taken H P : write_queue s = r :: q → write_queue s' = r' :: q → write_completed_queue s' = write_completed_queue s →
  wr_id r' = wr_id r → concat (wr_bufs r) = taken ++ concat (wr_bufs r') → wrote l' = wrote l ++ taken → called l' = called l →
  linked sub s l H P → linked sub s' l' H (P ++ taken).
Proof.
  intros E1 E2 E3 Ei Eb E4 E5 [L1 L2 L3 L4 L5 L6]. split; rewrite ?E2, ?E3, ?E4, ?E5, ?Hclosed; try done.
  - rewrite L1, E1. cbn [outstanding]. by rewrite Ei, Eb, app_assoc.
  - by rewrite L2, app_assoc.
Qed.

(** The first request ends, after sending [taken]. *)
Lemma link_finish r r' q taken more H P : write_queue s = r :: q → write_queue s' = q →
  write_completed_queue s' = write_completed_queue s ++ [r'] → wr_id r' = wr_id r → concat (wr_bufs r) = taken ++ more →
  (wr_error r' = 0 → more = []) → wrote l' = wrote l ++ taken → called l' = called l →
  linked sub s l H P → linked sub s' l' (H ++ [mkFin (wr_id r) (P ++ concat (wr_bufs r)) (P ++ taken) (wr_error r')]) [].
Proof.
  intros E1 E2 E3 Ei Eb Ee E4 E5 [L1 L2 L3 L4 L5 L6]. split; rewrite ?E2, ?E3, ?E4, ?E5, ?Hclosed; rewrite ?map_app; cbn [map].
  - rewrite L1, E1. cbn [outstanding f_id f_data]. rewrite <- app_assoc. destruct q; done.
  - rewrite L2, concat_app, app_nil_r. cbn [concat f_part]. by rewrite app_nil_r, app_assoc.
  - done.
  - apply Forall_app. split; [done|]. constructor; [|constructor]. split; cbn [f_part f_data f_err].
    + rewrite Eb, app_assoc. by apply prefix_app_r.
    + intros E. rewrite Eb, (Ee E). by rewrite app_nil_r.
  - rewrite app_assoc, L5. cbn [result f_id f_err]. unfold result. by rewrite Ei.
  - intros Hc. rewrite app_assoc, (L6 Hc). unfold result. by rewrite Ei.
Qed.

(** The first completed request is called back. *)
Lemma link_called r c H P : write_queue s' = write_queue s → write_completed_queue s = r :: c → write_completed_queue s' = c →
  wrote l' = wrote l → called l' = called l ++ [result r] → linked sub s l H P → linked sub s' l' H P.
Proof.
  intros E1 E2 E3 E4 E5 [L1 L2 L3 L4 L5 L6]. rewrite E2 in L5, L6. split; rewrite ?E1, ?E3, ?E4, ?E5, ?Hclosed; rewrite <- ?app_assoc; done.
Qed.

(** The first request is cancelled. *)
Lemma link_cancel r q H P : write_queue s = r :: q → write_queue s' = q → write_completed_queue s' = write_completed_queue s →
  UV_CLOSED (flags s) = true → wrote l' = wrote l → called l' = called l ++ [(wr_id r, ECANCELED)] → linked sub s l H P →
  linked sub s' l' (H ++ [mkFin (wr_id r) (P ++ concat (wr_bufs r)) P ECANCELED]) [].
Proof.
  intros E1 E2 E3 Hc E4 E5 [L1 L2 L3 L4 L5 L6]. split; rewrite ?E2, ?E3, ?E4, ?E5, ?Hclosed; rewrite ?map_app; cbn [map].
  - rewrite L1, E1. cbn [outstanding f_id f_data]. rewrite <- app_assoc. destruct q; done.
  - rewrite L2, concat_app, app_nil_r. cbn [concat f_part]. by rewrite app_nil_r.
  - done.
  - apply Forall_app. split; [done|]. constructor; [|constructor]. split; cbn [f_part f_data f_err]; [by apply prefix_app_r|done].
  - rewrite <- app_assoc. cbn [app f_id f_err]. rewrite <- Permutation_cons_append, <- Permutation_middle. by rewrite L5.
  - by rewrite Hc.
Qed.
End Link.

(** A request is accepted. *)
Lemma link_submit sub s s' l r H P : UV_CLOSED (flags s') = UV_CLOSED (flags s) → write_queue s' = write_queue s ++ [r] →
  write_completed_queue s' = write_completed_queue s →
  linked sub s l H P → linked (sub ++ [waiting r]) s' l H P.
Proof.
  intros Hc E1 E2 [L1 L2 L3 L4 L5 L6]. split; rewrite ?E1, ?E2, ?Hc; try done.
  - rewrite L1, <- app_assoc. f_equal. destruct (write_queue s) as [|r0 q]; cbn [outstanding app map].
    + rewrite (L3 eq_refl). done.
    + by rewrite map_app.
  - intros Hn. by destruct (write_queue s).
Qed.

(** ** [uv__write] *)

Definition budget (w : uv_world) : nat := length (write_completed_queue (stream w)) + length (k_write w).

(** What the parts of a call start from: the requests accepted before it, and how
    many requests can still complete. *)
Definition at_hand (ex : Z) (sub sub0 : list (Z * bytes)) (n : nat) (w : uv_world) : Prop :=
  inv ex sub w ∧ submitted (log w) = sub0 ∧ (budget w ≤ n)%nat.

Lemma failed_one r : failed [r] = if wr_freed r then [] else [r].
Proof. unfold failed. rewrite filter_cons. case_decide as E; [by rewrite E|]. by destruct (wr_freed r). Qed.

Lemma failed_app c1 c2 : failed (c1 ++ c2) = failed c1 ++ failed c2.
Proof. apply filter_app. Qed.

(** The flags the invariant reads of an open handle. *)
Definition like (f' f : uv_flags) : Prop :=
  UV_CLOSING f' = UV_CLOSING f ∧ UV_CLOSED f' = UV_CLOSED f ∧ UV_STREAM_SHUTTING f' = UV_STREAM_SHUTTING f.

(** The first request of the queue ends: [n] bytes of it are no longer counted. *)
Lemma core_finish ex s s' r r' q n : core ex s → 0 ≤ io_fd_of s → write_queue s = r :: q → ended r' →
  like (flags s') (flags s) → io_fd_of s' = io_fd_of s → connect_req s' = connect_req s → shutdown_req s' = shutdown_req s →
  active_reqs s' = active_reqs s → close_pending s' = close_pending s →
  write_queue s' = q → write_completed_queue s' = write_completed_queue s ++ [r'] →
  write_queue_size s' = write_queue_size s - n → size_of (failed [r']) = zlen (concat (wr_bufs r)) - n → 0 ≤ n → core ex s'.
Proof.
  intros C Hfd Eq Hr (Ef1 & Ef2 & Ef3) Ei Ec Es Ea Ep Eq' Ec' Esz Hn Hn0. destruct C as [C1 C2 C3 C4 C5 Cf Cr C6 C7 C8 C9 C10 C11 C12].
  rewrite Eq in *. rewrite size_cons in *. split; rewrite ?Ef1, ?Ef2, ?Ef3, ?Ei, ?Ec, ?Es, ?Ea, ?Ep, ?Eq', ?Ec', ?Esz; rewrite ?failed_app, ?size_app, ?zlen_app, ?zlen_cons, ?zlen_nil in *; try done; try lia.
  - by apply Forall_cons in C8 as [_ ?].
  - apply Forall_app. by repeat constructor.
  - intros Hc. specialize (C11 Hc). lia.
Qed.

(** The first request of the queue sends [n] bytes. *)
Lemma core_wrote ex s s' r r' q n : core ex s → 0 ≤ io_fd_of s → write_queue s = r :: q → queued r' →
  like (flags s') (flags s) → io_fd_of s' = io_fd_of s → connect_req s' = connect_req s → shutdown_req s' = shutdown_req s →
  active_reqs s' = active_reqs s → close_pending s' = close_pending s →
  write_queue s' = r' :: q → write_completed_queue s' = write_completed_queue s →
  write_queue_size s' = write_queue_size s - n → zlen (concat (wr_bufs r')) = zlen (concat (wr_bufs r)) - n → 0 ≤ n → core ex s'.
Proof.
  intros C Hfd Eq Hr (Ef1 & Ef2 & Ef3) Ei Ec Es Ea Ep Eq' Ec' Esz Hn Hn0. destruct C as [C1 C2 C3 C4 C5 Cf Cr C6 C7 C8 C9 C10 C11 C12].
  rewrite Eq in *. rewrite size_cons in *. split; rewrite ?Ef1, ?Ef2, ?Ef3, ?Ei, ?Ec, ?Es, ?Ea, ?Ep, ?Eq', ?Ec', ?Esz; rewrite ?size_cons, ?zlen_cons in *; try done; try lia.
  - apply Forall_cons in C8 as [_ ?]. by constructor.
  - intros Hc. specialize (C11 Hc). lia.
Qed.

(** Only the watcher changes. *)
Lemma core_io ex s s' : core ex s → 0 ≤ io_fd_of s → io_fd_of s' = io_fd_of s → like (flags s') (flags s) →
  connect_req s' = connect_req s → shutdown_req s' = shutdown_req s → active_reqs s' = active_reqs s → close_pending s' = close_pending s →
  write_queue s' = write_queue s → write_completed_queue s' = write_completed_queue s → write_queue_size s' = write_queue_size s → core ex s'.
Proof.
  intros C Hfd Ei (Ef1 & Ef2 & Ef3) Ec Es Ea Ep Eq' Ec' Esz. destruct C as [C1 C2 C3 C4 C5 Cf Cr C6 C7 C8 C9 C10 C11 C12].
  split; rewrite ?Ef1, ?Ef2, ?Ef3, ?Ei, ?Ec, ?Es, ?Ea, ?Ep, ?Eq', ?Ec', ?Esz; try done; lia.
Qed.

Lemma at_hand_intro ex sub sub0 n w : core ex (stream w) → (∃ H P, linked sub (stream w) (log w) H P) → submitted (log w) = sub0 →
  (budget w ≤ n)%nat → at_hand ex sub sub0 n w.
Proof. by intros. Qed.

Lemma wrote_snoc l bs : wrote (l ++ [LWrote bs]) = wrote l ++ bs.
Proof. rewrite wrote_app. unfold wrote at 2. cbn. by rewrite app_nil_r. Qed.

Lemma called_snoc l bs : called (l ++ [LWrote bs]) = called l.
Proof. rewrite called_app. cbn. by rewrite app_nil_r. Qed.

Lemma submitted_snoc l bs : submitted (l ++ [LWrote bs]) = submitted l.
Proof. rewrite submitted_app. cbn. by rewrite app_nil_r. Qed.

Lemma io_start_out_run w : 0 ≤ io_fd_of (stream w) → uv__io_start_out w =
  Val (Some (mkUv (set_io (λ i, mkIo (io_fd i) (io_in i) true (io_pending i)) (stream w)) (k_write w) (k_read w) (k_misc w) (log w), tt)).
Proof. intros Hfd. unfold uv__io_start_out. erewrite uv_bind_Some; [|done]. erewrite uv_bind_Some; [|unfold assert; rewrite (proj2 (Z.leb_le _ _)) by done; done]. done. Qed.

Lemma io_stop_run pin pout w : 0 ≤ io_fd_of (stream w) → uv__io_stop pin pout w =
  Val (Some (mkUv (set_io (λ i, mkIo (io_fd i) (io_in i && negb pin) (io_out i && negb pout) (io_pending i)) (stream w)) (k_write w) (k_read w) (k_misc w) (log w), tt)).
Proof.
  intros Hfd. unfold uv__io_stop. erewrite uv_bind_Some; [|done]. rewrite (proj2 (Z.eqb_neq _ _)) by lia.
  erewrite uv_bind_Some; [|unfold assert; rewrite (proj2 (Z.leb_le _ _)) by done; done]. done.
Qed.

Lemma write_ok ex sub sub0 n :
  triple (λ w, at_hand ex sub sub0 n w ∧ 0 ≤ io_fd_of (stream w)) uv__write (λ _ w, at_hand ex sub sub0 n w ∧ watched w).
Proof.
  intros w [[[C (H & P & L)] [Hs Hb]] Hfd]. unfold uv__write. erewrite uv_bind_Some; [|done].
  erewrite uv_bind_Some; [|unfold assert; rewrite (proj2 (Z.leb_le _ _)) by done; done]. erewrite uv_bind_Some; [|done].
  destruct (write_queue (stream w)) as [|req rest] eqn:Eq.
  { eexists. split; [done|]. split; [split; [split; [done|by eauto]|done]|]. intros _ Hn. done. }
  destruct (sys_write_cases (wr_bufs req) w) as (kw & e & r & E & Hr). rewrite (uv_bind_Some _ _ _ _ _ E). clear E.
  pose proof (c_queue _ _ C) as Hq. rewrite Eq in Hq. apply Forall_cons in Hq as [(Hf & He & Hne) Hq].
  destruct r as [[k|x]|].
  - destruct Hr as (taken & more & Hc & -> & -> & Hk). pose proof (c_size _ _ C) as Hsz. rewrite Eq, size_cons in Hsz.
    pose proof (size_nonneg rest). pose proof (size_nonneg (failed (write_completed_queue (stream w)))).
    destruct (write_advance_ok (wr_bufs req) Hne taken more (moved (stream w) kw [LWrote taken] w)) as (bufs & E & Hm); [done|cbn [moved stream]; lia|].
    rewrite (uv_bind_Some _ _ _ _ _ E). clear E. subst more. assert (zlen (concat (wr_bufs req)) = zlen taken + zlen (concat bufs)) as Hz by (by rewrite Hc, zlen_app).
    pose proof (zlen_nonneg taken). destruct bufs as [|b bufs].
    + eexists. split; [done|]. cbn [moved stream log k_write]. split; [apply at_hand_intro|]; cbn [stream log moved].
      * eapply (core_finish ex (stream w) _ req _ rest (zlen taken)); [done|done|done| |done..| |done|done| |done]; cbn; rewrite ?Eq; [by rewrite He|done|].
        rewrite failed_one, He. cbn. change (size_of []) with 0. cbn [concat] in Hz. rewrite zlen_nil in Hz. lia.
      * eexists _, _. eapply (link_finish sub (stream w) _ (log w)); [done|exact Eq| |done| |exact Hc|done|apply wrote_snoc|apply called_snoc|exact L]; cbn; rewrite ?Eq; [done|].
        by rewrite He.
      * by rewrite submitted_snoc.
      * unfold budget in *. cbn. rewrite length_app. cbn. lia.
      * intros _ _ _ _. by right.
    + erewrite uv_bind_Some; [|done]. rewrite io_start_out_run by done. eexists. split; [done|]. split; [apply at_hand_intro|]; cbn [stream log moved].
      * eapply (core_wrote ex (stream w) _ req _ rest (zlen taken)); [done|done|done| |done..| |done]; [done|]. cbn [wr_bufs]. lia.
      * eexists _, _. eapply (link_wrote sub (stream w) _ (log w)); [done|exact Eq|done|done|done|exact Hc|apply wrote_snoc|apply called_snoc|exact L].
      * by rewrite submitted_snoc.
      * unfold budget in *. cbn. lia.
      * intros _ _ _ _. by left.
  - destruct Hr as (Hx & -> & Hk). erewrite uv_bind_Some.
    2: { unfold uv__write_req_finish. cbn [wr_error]. rewrite (proj2 (Z.eqb_neq x 0)) by lia. erewrite uv_bind_Some; [|done]. done. }
    erewrite uv_bind_Some; [|by rewrite io_stop_run]. erewrite uv_bind_Some; [|done].
    assert (∀ m, ∃ f, like f (flags (stream m)) ∧ on_if (negb (io_in (io_watcher (stream m)))) uv__handle_stop m =
      Val (Some (mkUv (set_flags (λ _, f) (stream m)) (k_write m) (k_read m) (k_misc m) (log m), tt))) as Hstop.
    { intros m. destruct (io_in _); [exists (flags (stream m))|eexists]; (split; [|done || by destruct m as [[] ? ? ? ?]]); by repeat split. }
    match goal with |- ∃ o, on_if (negb ?b) uv__handle_stop ?m = _ ∧ _ => destruct (Hstop m) as (f & Hl & Ef); change b with (io_in (io_watcher (stream m))) in *; rewrite Ef end.
    eexists. split; [done|]. cbn [moved stream log k_write]. split; [apply at_hand_intro|]; cbn [stream log moved].
    + eapply (core_finish ex (stream w) _ req _ rest 0); [done|done|done| |exact Hl|done..| |done|cbn; lia| |done]; cbn; rewrite ?Eq; [|done|].
      * unfold ended. cbn. rewrite Hf. symmetry. by apply Z.eqb_neq, Z.neq_sym, Z.lt_neq.
      * rewrite failed_one. cbn. rewrite Hf, size_cons. change (size_of []) with 0. cbn. lia.
    + eexists _, _. eapply (link_finish sub (stream w) _ (log w)) with (taken := []) (more := concat (wr_bufs req)); [apply Hl|exact Eq| |done|done|done| | | |exact L]; cbn; rewrite ?Eq, ?app_nil_r; [done| |done|done].
      lia.
    + by rewrite app_nil_r.
    + unfold budget in *. cbn. rewrite length_app. cbn. lia.
    + intros _ _ _ _. by right.
  - destruct Hr as (-> & Hk). rewrite io_start_out_run by done. eexists. split; [done|]. split; [apply at_hand_intro|]; cbn [stream log moved].
    + eapply (core_io ex (stream w)); done.
    + eexists _, _. eapply (link_same sub (stream w) _ (log w)); [done..| | |exact L]; by rewrite app_nil_r.
    + by rewrite app_nil_r.
    + unfold budget in *. cbn. lia.
    + intros _ _ _ _. by left.
Qed.

(** ** Calls *)

Lemma assert_run b w : b = true → assert b w = Val (Some (w, tt)).
Proof. by intros ->. Qed.

Ltac go := erewrite uv_bind_Some; [|done].
Ltac go_assert := erewrite uv_bind_Some; [|apply assert_run].

(** The watcher is stopped or the user reads less. *)
Lemma core_calm ex s s' : core ex s → io_fd_of s' = io_fd_of s → like (flags s') (flags s) →
  (UV_STREAM_READING (flags s') = true → UV_STREAM_READING (flags s) = true) →
  (io_in (io_watcher s') = true → io_in (io_watcher s) = true) → (io_out (io_watcher s') = true → io_out (io_watcher s) = true) →
  (io_pending (io_watcher s') = true → io_pending (io_watcher s) = true) →
  connect_req s' = connect_req s → shutdown_req s' = shutdown_req s → active_reqs s' = active_reqs s → close_pending s' = close_pending s →
  write_queue s' = write_queue s → write_completed_queue s' = write_completed_queue s → write_queue_size s' = write_queue_size s → core ex s'.
Proof.
  intros C Ei (Ef1 & Ef2 & Ef3) Hr Hin Hout Hp Ec Es Ea Ep Eq' Ec' Esz. destruct C as [C1 C2 C3 C4 C5 Cf Cr C6 C7 C8 C9 C10 C11 C12].
  split; rewrite ?Ef1, ?Ef2, ?Ef3, ?Ei, ?Ec, ?Es, ?Ea, ?Ep, ?Eq', ?Ec', ?Esz; try done.
  intros Hfd. destruct (C2 Hfd) as (Q1 & Q2 & Q3 & Q4). rewrite <- not_true_iff_false, <- (not_true_iff_false (io_out _)), <- (not_true_iff_false (io_pending _)), <- (not_true_iff_false (UV_STREAM_READING _)).
  repeat split; intros X; [apply Hin in X|apply Hout in X|apply Hp in X|apply Hr in X]; congruence.
Qed.

Definition ready (ex : Z) (n : nat) (w : uv_world) : Prop :=
  inv ex (submitted (log w)) w ∧ watched w ∧ (budget w ≤ n)%nat.

Definition extra (c : uv_call) (ok : bool) : list (Z * bytes) :=
  match c with UWrite req bufs => if ok then [(req, concat bufs)] else [] | _ => [] end.

(** The state in which a call returns. *)
Definition returns (ex : Z) (n : nat) (c : uv_call) (ok : bool) (w : uv_world) : Prop :=
  inv ex (submitted (log w) ++ extra c ok) w ∧ watched w ∧ (budget w ≤ n)%nat.

Lemma watched_log w kr km e : watched w → watched (mkUv (stream w) (k_write w) kr km (log w ++ e)).
Proof. intros H Hi. apply H. by eapply idle_app. Qed.

Lemma note_returns ex n c ok : triple (returns ex n c ok) (note (LCall c ok)) (λ _, ready ex n).
Proof.
  intros w ((C & H & P & L) & Hw & Hb). eexists. split; [done|]. split; [|split; [by apply watched_log|done]].
  split; [done|]. exists H, P. cbn [stream log].
  assert (submitted (log w ++ [LCall c ok]) = submitted (log w) ++ extra c ok) as ->
    by (rewrite submitted_app; f_equal; destruct c, ok; done).
  eapply link_same, L; [done|done|done| |].
  - rewrite wrote_app. by destruct c, ok; cbn; rewrite app_nil_r.
  - rewrite called_app. by destruct c, ok; cbn; rewrite app_nil_r.
Qed.

(** A call that leaves the queues alone. *)
Lemma returns_quiet ex n c ok w s km : extra c ok = [] → ready ex n w → core ex s → UV_CLOSED (flags s) = UV_CLOSED (flags (stream w)) →
  write_queue s = write_queue (stream w) → write_completed_queue s = write_completed_queue (stream w) →
  watched (mkUv s (k_write w) (k_read w) km (log w)) →
  returns ex n c ok (mkUv s (k_write w) (k_read w) km (log w)).
Proof.
  intros He ((C & H & P & L) & Hw & Hb) C' Ecl Eq Ec Hw'. split; [|split; [done|unfold budget in *; cbn; by rewrite Ec]].
  split; [done|]. exists H, P. cbn [stream log]. rewrite He, app_nil_r. by eapply link_same, L.
Qed.

(** A call that changes nothing. *)
Lemma returns_same ex n c ok w : extra c ok = [] → ready ex n w → returns ex n c ok w.
Proof. intros He (I & R). split; [|done]. by rewrite He, app_nil_r. Qed.

(** There is nothing to stop without a descriptor. *)
Definition stoppable (s : uv_stream_t) : Prop :=
  -1 ≤ io_fd_of s ∧ (io_fd_of s = -1 → io_in (io_watcher s) = false ∧ io_out (io_watcher s) = false).

Lemma core_stoppable ex s : core ex s → stoppable s.
Proof. intros C. split; [apply C|]. intros E. by destruct (c_quiet _ _ C E) as (? & ? & _). Qed.

Lemma io_stop_any pin pout w : stoppable (stream w) →
  ∃ i, uv__io_stop pin pout w = Val (Some (mkUv (set_io (λ _, i) (stream w)) (k_write w) (k_read w) (k_misc w) (log w), tt)) ∧
    io_fd i = io_fd (io_watcher (stream w)) ∧ io_in i = io_in (io_watcher (stream w)) && negb pin ∧
    io_out i = io_out (io_watcher (stream w)) && negb pout ∧ io_pending i = io_pending (io_watcher (stream w)).
Proof.
  intros [C1 C2]. destruct (decide (io_fd_of (stream w) = -1)) as [E|E].
  - exists (io_watcher (stream w)). destruct (C2 E) as (-> & ->). split; [|done].
    unfold uv__io_stop. go. rewrite E. by destruct w as [[] ? ? ? ?].
  - rewrite io_stop_run by lia. by eexists.
Qed.

Lemma handle_stop_run (b : bool) w : ∃ f, on_if b uv__handle_stop w =
    Val (Some (mkUv (set_flags (λ _, f) (stream w)) (k_write w) (k_read w) (k_misc w) (log w), tt)) ∧
  like f (flags (stream w)) ∧ UV_STREAM_READING f = UV_STREAM_READING (flags (stream w)).
Proof. destruct b; [eexists|exists (flags (stream w))]; (split; [done || by destruct w as [[] ? ? ? ?]|by repeat split]). Qed.

(** All but the watcher and the flags that say what is watched. *)
Definition kept (s' s : uv_stream_t) : Prop :=
  like (flags s') (flags s) ∧ connect_req s' = connect_req s ∧ shutdown_req s' = shutdown_req s ∧ active_reqs s' = active_reqs s ∧
  close_pending s' = close_pending s ∧ write_queue s' = write_queue s ∧ write_completed_queue s' = write_completed_queue s ∧
  write_queue_size s' = write_queue_size s.

Lemma read_stop_run w : stoppable (stream w) →
  ∃ s, uv_read_stop w = Val (Some (mkUv s (k_write w) (k_read w) (k_misc w) (log w), true)) ∧ kept s (stream w) ∧
    UV_STREAM_READING (flags s) = false ∧ io_fd_of s = io_fd_of (stream w) ∧ io_in (io_watcher s) = false ∧
    io_out (io_watcher s) = io_out (io_watcher (stream w)) ∧ io_pending (io_watcher s) = io_pending (io_watcher (stream w)).
Proof.
  intros C. unfold uv_read_stop. go.
  match goal with |- context [(_ ≫= _) ?m] => set (w1 := m) end.
  destruct (io_stop_any true false w1 C) as (i & Ei & I1 & I2 & I3 & I4). rewrite (uv_bind_Some _ _ _ _ _ Ei). go.
  match goal with |- context [on_if ?b uv__handle_stop ≫= _] => match goal with |- context [(on_if b uv__handle_stop ≫= _) ?m] => destruct (handle_stop_run b m) as (f & Ef & F1 & F2) end end.
  rewrite (uv_bind_Some _ _ _ _ _ Ef). go. eexists. split; [done|]. split; [done|]. cbn in *. unfold io_fd_of. cbn.
  rewrite I1, I2, I3, I4, F2, andb_false_r, andb_true_r. done.
Qed.

Lemma read_stop_ok ex n : triple (ready ex n) uv_read_stop (returns ex n UReadStop).
Proof.
  intros w Hr. pose proof Hr as ((C & _) & Hw & _).
  destruct (read_stop_run w (core_stoppable _ _ C)) as (s & E & K & F2 & F3 & F4 & F5 & F6). rewrite E. eexists. split; [done|].
  destruct K as (K1 & K2 & K3 & K4 & K5 & K6 & K7 & K8). apply returns_quiet; [done|done| |apply K1|done|done|].
  - eapply core_calm; [exact C|try done..]; congruence.
  - intros Hi. cbn. rewrite F3, F5, F6, K2, K6. by apply Hw.
Qed.

Lemma stream_close_run w : stoppable (stream w) →
  ∃ s, uv__stream_close w = Val (Some (mkUv s (k_write w) (k_read w) (k_misc w) (log w), tt)) ∧ kept s (stream w) ∧
    UV_STREAM_READING (flags s) = false ∧ io_watcher s = mkIo (-1) false false false.
Proof.
  intros C. unfold uv__stream_close, uv__io_close.
  destruct (io_stop_any true true w C) as (i & Ei & I1 & I2 & I3 & I4). rewrite andb_false_r in I2, I3.
  erewrite uv_bind_Some; [|rewrite (uv_bind_Some _ _ _ _ _ Ei); done].
  match goal with |- context [(uv_read_stop ≫= _) ?m] => destruct (read_stop_run m) as (s & E & K & F2 & F3 & F4 & F5 & F6) end.
  { split; [|done]. unfold io_fd_of. cbn. rewrite I1. apply C. }
  rewrite (uv_bind_Some _ _ _ _ _ E). go. go. go. cbn in F5, F6. eexists. split; [apply assert_run|]; cbn; rewrite ?F4, ?F5, ?F6, ?I3; done.
Qed.

Lemma read_start_ok ex n : triple (ready ex n) uv_read_start (returns ex n UReadStart).
Proof.
  intros w Hr. pose proof Hr as ((C & _) & Hw & _). unfold uv_read_start. go. destruct (UV_CLOSING (flags (stream w))) eqn:Ec.
  { eexists. split; [done|]. by apply returns_same. }
  go. unfold rule at 1. destruct (0 <=? io_fd_of (stream w)) eqn:Ef; [|by eexists].
  erewrite uv_bind_Some; [|done]. go. go. unfold uv__io_start_in. erewrite uv_bind_Some.
  2: { go. go_assert; [|cbn; exact Ef]. done. }
  go. eexists. split; [done|]. apply (returns_quiet ex n UReadStart true w); [done|done| |done|done|done|exact Hw].
  eapply (core_io ex (stream w)); try done. blia.
Qed.

Lemma shutdown_ok ex n req : triple (ready ex n) (uv_shutdown req) (returns ex n (UShutdown req)).
Proof.
  intros w Hr. pose proof Hr as ((C & _) & Hw & _). unfold uv_shutdown. go. unfold rule at 1.
  destruct (0 <=? io_fd_of (stream w)) eqn:Ef; [|by eexists]. go. go.
  destruct (_ || _) eqn:Eg.
  { eexists. split; [done|]. by apply returns_same. }
  rewrite !orb_false_iff in Eg. destruct Eg as ((((_ & _) & Es) & _) & Ec).
  go. go. go. unfold uv__io_start_out. erewrite uv_bind_Some.
  2: { go. go_assert; [|cbn; exact Ef]. done. }
  eexists. split; [done|]. apply (returns_quiet ex n (UShutdown req) true w); [done|done| |done|done|done|].
  - assert (shutdown_req (stream w) = None) as En.
    { destruct (shutdown_req (stream w)) eqn:E; [|done]. exfalso. assert (shutdown_req (stream w) ≠ None) as X by (by rewrite E). apply (c_shutreq _ _ C) in X. congruence. }
    destruct C as [C1 C2 C3 C4 C5 Cf Cr C6 C7 C8 C9 C10 C11 C12]. rewrite En in C7. unfold io_fd_of in *. cbn [count] in C7. split; unfold io_fd_of in *; cbn; try done; try lia; intros E; blia.
  - intros _ _ _ _. by left.
Qed.

Lemma close_ok ex n : triple (ready ex n) uv_close (returns ex n UClose).
Proof.
  intros w Hr. pose proof Hr as ((C & _) & Hw & _). unfold uv_close. go. unfold rule at 1.
  destruct (_ && _) eqn:Eg; [|by eexists]. apply andb_true_iff in Eg as [Eg1%negb_true_iff Eg2%negb_true_iff]. go. go.
  match goal with |- context [(_ ≫= _) ?m] => destruct (stream_close_run m) as (s & E & K & F1 & F2) end; [exact (core_stoppable ex _ C)|].
  rewrite (uv_bind_Some _ _ _ _ _ E). destruct K as ((L1 & L2 & L3) & K2 & K3 & K4 & K5 & K6 & K7 & K8). cbn in L1, L2, L3, K2, K3, K4, K5, K6, K7, K8.
  unfold uv__make_close_pending. erewrite uv_bind_Some.
  2: { go. go_assert; [|exact L1]. go_assert; [|cbn; by rewrite L2, Eg2]. done. }
  eexists. split; [done|]. apply (returns_quiet ex n UClose true w); [done|done| |done|done|done|].
  - destruct C as [C1 C2 C3 C4 C5 Cf Cr C6 C7 C8 C9 C10 C11 C12]. unfold io_fd_of.
    split; unfold io_fd_of in *; cbn; rewrite ?F2, ?K2, ?K3, ?K4, ?K5, ?K6, ?K7, ?K8, ?L1, ?L2, ?L3; try done; cbn; try lia.
  - intros _ _. cbn. unfold io_fd_of. cbn. rewrite F2. cbn. lia.
Qed.

(** A fresh handle gets a socket, before anything was written to it. *)
Lemma new_socket_ok ex n :
  triple (λ w, ready ex n w ∧ UV_CLOSING (flags (stream w)) = false ∧ connect_req (stream w) = None) maybe_new_socket
    (λ ok w, ready ex n w ∧ UV_CLOSING (flags (stream w)) = false ∧ connect_req (stream w) = None ∧ (ok = true → 0 ≤ io_fd_of (stream w))).
Proof.
  intros w (Hr & Hc & Hn). pose proof Hr as ((C & _) & Hw & _). pose proof (c_fd _ _ C) as Hf. unfold maybe_new_socket. go.
  destruct (io_fd_of (stream w) =? -1) eqn:E; cbn [negb].
  2: { eexists. split; [done|]. split; [done|]. split; [done|]. split; [done|]. blia. }
  assert (∃ km z, ask w = Val (Some (mkUv (stream w) (k_write w) (k_read w) km (log w), z))) as (km & z & Ez).
  { unfold ask. destruct w as [? ? ? []]; by eexists _, _. }
  rewrite (uv_bind_Some _ _ _ _ _ Ez). destruct (z <? 0) eqn:Ez0; [by eexists|]. go. go.
  eexists. split; [done|]. cbn [stream flags set_io set_flags connect_req]. split; [|split; [done|split; [done|]]].
  2: { intros _. unfold io_fd_of. cbn. blia. }
  apply Z.eqb_eq in E. assert (write_queue (stream w) = []) as Eq by (by apply (c_fresh _ _ C)).
  destruct Hr as ((_ & H & P & L) & _ & Hb). split; [|split; [|done]].
  - split; [|exists H, P; by eapply link_same, L]. destruct C as [C1 C2 C3 C4 C5 Cf Cr C6 C7 C8 C9 C10 C11 C12].
    split; unfold io_fd_of in *; cbn in *; try done; try blia; intros; blia || congruence.
  - intros _ Hq. done.
Qed.

Lemma connect_ok ex n req :
  triple (λ w, ready ex n w ∧ UV_CLOSING (flags (stream w)) = false) (uv__connect req) (returns ex n (UConnect req)).
Proof.
  intros w (Hr & Hc). unfold uv__connect. go. destruct (connect_req (stream w)) eqn:En.
  { eexists. split; [done|]. by apply returns_same. }
  destruct (new_socket_ok ex n w) as (o & E & Ho); [done|]. unfold mbind at 1, uv_bind at 1. rewrite E, bind_Val. clear E.
  destruct o as [[w1 ok]|]; [|by eexists]. clear Hr Hc En. destruct Ho as (Hr & Hc & En & Hok).
  destruct ok; [|eexists; split; [done|]; by apply returns_same]. specialize (Hok eq_refl). cbn [negb].
  pose proof Hr as ((C & _) & Hw & _). unfold sys_connect.
  go. destruct (ask_connect (k_misc w1)) as [km r] eqn:Ek. erewrite uv_bind_Some; [|cbn; rewrite Ek; done].
  assert (∀ i e, io_fd i = io_fd_of (stream w1) → ∀ a r, a = active_reqs (stream w1) + count r →
    core ex (mkStream (flags (stream w1)) i (read_cb (stream w1)) r (shutdown_req (stream w1)) e (write_queue (stream w1)) (write_completed_queue (stream w1)) (write_queue_size (stream w1)) a (close_pending (stream w1)))) as HC.
  { intros i e Ei a c ->. destruct C as [C1 C2 C3 C4 C5 Cf Cr C6 C7 C8 C9 C10 C11 C12]. rewrite En in C7. cbn [count] in C7.
    split; unfold io_fd_of in *; cbn in *; rewrite ?Ei; try done; try lia. }
  destruct (_ && _ && _).
  { eexists. split; [done|]. apply returns_quiet; [done|done| |done..|]; [apply HC; [done|rewrite En; cbn; lia]|exact Hw]. }
  unfold uv__io_start_out. destruct (r =? ECONNREFUSED); cbn [on_if].
  all: go; go; go; (erewrite uv_bind_Some; [|go; go_assert; [done|by apply Z.leb_le]]); go; eexists; (split; [done|]).
  all: apply (returns_quiet ex n (UConnect req) true w1); [done|done| |done..|intros _ _ _; done].
  all: apply HC; done.
Qed.

(** A request is added to the queue. *)
Lemma core_submit ex s s' r : core ex s → 0 ≤ io_fd_of s → queued r →
  io_fd_of s' = io_fd_of s → like (flags s') (flags s) → connect_req s' = connect_req s → shutdown_req s' = shutdown_req s →
  active_reqs s' = active_reqs s + 1 → close_pending s' = close_pending s →
  write_queue s' = write_queue s ++ [r] → write_completed_queue s' = write_completed_queue s →
  write_queue_size s' = write_queue_size s + zlen (concat (wr_bufs r)) → write_queue_size s' < 2 ^ 63 → core ex s'.
Proof.
  intros C Hfd Hr Ei (Ef1 & Ef2 & Ef3) Ec Es Ea Ep Eq' Ec' Esz Hn. destruct C as [C1 C2 C3 C4 C5 Cf Cr C6 C7 C8 C9 C10 C11 C12].
  assert (size_of [r] = zlen (concat (wr_bufs r))) as E1 by (rewrite size_cons; change (size_of []) with 0; lia).
  split; rewrite ?Ef1, ?Ef2, ?Ef3, ?Ei, ?Ec, ?Es, ?Ea, ?Ep, ?Eq', ?Ec', ?Esz; rewrite ?size_app, ?zlen_app, ?zlen_cons, ?zlen_nil, ?E1; try done; try lia.
  - apply Forall_app. split; [done|]. by constructor.
  - intros Hc. specialize (C11 Hc). lia.
Qed.

Lemma write_call_ok ex n req bufs : triple (ready ex n) (uv_write req bufs) (returns ex n (UWrite req bufs)).
Proof.
  intros w Hr. unfold uv_write. unfold rule at 1. destruct (bool_decide (bufs = [])) eqn:Eb; [by eexists|]. apply bool_decide_eq_false in Eb.
  go. go. destruct (io_fd_of (stream w) <? 0) eqn:Efd; [eexists; split; [done|by apply returns_same]|]. apply Z.ltb_ge in Efd.
  go. go. unfold rule. destruct (_ && (_ <? _)) eqn:Eg; [|by eexists]. apply andb_true_iff in Eg as [_ Eg%Z.ltb_lt]. go. go. go. go. go.
  destruct Hr as ((C & H & P & L) & Hw & Hb).
  match goal with |- context [(_ ≫= _) ?m] => set (w1 := m) end.
  assert (at_hand ex (submitted (log w) ++ [(req, concat bufs)]) (submitted (log w)) n w1) as A.
  { apply at_hand_intro; [|exists H, P|done|exact Hb].
    - apply (core_submit ex (stream w) _ (mkWrite req bufs false 0)); done.
    - by eapply (link_submit _ (stream w) _ _ (mkWrite req bufs false 0)). }
  assert (∀ w2, at_hand ex (submitted (log w) ++ [(req, concat bufs)]) (submitted (log w)) n w2 → watched w2 → returns ex n (UWrite req bufs) true w2) as Hret.
  { intros w2 (I & Hs & Hb2) Hw2. split; [by rewrite Hs|done]. }
  destruct (connect_req _) eqn:Ec.
  { go. eexists. split; [done|]. apply Hret; [done|]. intros _ _ _ E. cbn in Ec, E. congruence. }
  destruct (_ =? 0).
  - destruct (write_ok ex (submitted (log w) ++ [(req, concat bufs)]) (submitted (log w)) n w1) as (o & E & Ho); [done|].
    unfold mbind, uv_bind. rewrite E, bind_Val. destruct o as [[w2 []]|]; [|by eexists]. eexists. split; [done|]. apply Hret; apply Ho.
  - erewrite uv_bind_Some; [|by apply io_start_out_run]. eexists. split; [done|]. apply Hret.
    + destruct A as ((CA & HA & PA & LA) & A2 & A3). apply at_hand_intro; [|exists HA, PA|done|exact A3]; [by eapply (core_io ex (stream w1))|by eapply link_same, LA].
    + intros _ _ _ _. by left.
Qed.

Lemma do_call_ok ex n c : triple (ready ex n) (do_call c) (λ _, ready ex n).
Proof.
  apply triple_bind with (R := returns ex n c); [|intros ok; apply note_returns].
  destruct c; [|apply write_call_ok|apply read_start_ok|apply read_stop_ok|apply shutdown_ok|apply close_ok].
  apply triple_bind with (R := λ f w, ready ex n w ∧ f = flags (stream w)); [apply triple_get|]. intros f.
  apply triple_bind with (R := λ _ w, ready ex n w ∧ UV_CLOSING (flags (stream w)) = false); [|intros _; apply connect_ok].
  eapply triple_conseq; [apply triple_rule|intros w Hw; exact Hw|]. by intros _ w ((Hw & ->) & Hc%negb_true_iff).
Qed.

Lemma do_calls_ok ex n cs : triple (ready ex n) (do_calls cs) (λ _, ready ex n).
Proof.
  induction cs as [|c cs IH]; [by apply triple_ret|]. eapply triple_bind; [apply do_call_ok|]. intros []. apply IH.
Qed.
