(* ===== verification/UvStreamRun.v ===== *)
(** * Runs of a TCP stream

    The callbacks and the events of [UvStream.v] on top of the calls of
    [UvStreamInv.v], and the theorems about whole runs. *)

From S2P Require Import Prelude UvStream UvStreamInv.
Local Open Scope Z_scope.

(** ** Calls on a handle that is closed *)

Lemma kept_refl s : kept s s.
Proof. by repeat split. Qed.

(** The callbacks of requests and of the close. *)
Definition callbacks (l : list uv_log) : list uv_log :=
  omap (λ e, match e with LConnectCb _ _ | LWriteCb _ _ | LShutdownCb _ _ | LCloseCb => Some e | _ => None end) l.

Lemma callbacks_app l1 l2 : callbacks (l1 ++ l2) = callbacks l1 ++ callbacks l2.
Proof. apply omap_app. Qed.

(** What a closed handle keeps, whatever is called on it. *)
Definition unmoved (w' w : uv_world) : Prop := kept (stream w') (stream w) ∧ callbacks (log w') = callbacks (log w).

Definition stable (K : uv_world → Prop) : Prop :=
  ∀ w w', K w → (UV_CLOSED (flags (stream w)) = true → unmoved w' w) → K w'.

Lemma unmoved_call w kw kr km c ok s : kept s (stream w) → unmoved (mkUv s kw kr km (log w ++ [LCall c ok])) w.
Proof. intros Hk. split; [done|]. cbn. by rewrite callbacks_app, app_nil_r. Qed.

Lemma uv_bind_None {A B} (m : uv A) (f : A → uv B) w : m w = Val None → (m ≫= f) w = Val None.
Proof. unfold mbind, uv_bind. by intros ->. Qed.

Lemma closing_call ex c w : core ex (stream w) → UV_CLOSING (flags (stream w)) = true →
  ∃ o, do_call c w = Val o ∧ match o with Some (w', _) => unmoved w' w | None => True end.
Proof.
  intros C Hc. pose proof (c_closing _ _ C Hc) as Hfd. unfold do_call. destruct c.
  - exists None. split; [|done]. apply uv_bind_None. go. rewrite Hc. done.
  - unfold uv_write. destruct (bool_decide (bufs = [])) eqn:Eb.
    + exists None. split; [|done]. apply uv_bind_None. done.
    + eexists (Some (mkUv (stream w) _ _ _ (log w ++ [LCall _ _]), _)). split; [|apply unmoved_call, kept_refl]. erewrite uv_bind_Some; [done|]. go. go. by rewrite Hfd.
  - eexists (Some (mkUv (stream w) _ _ _ (log w ++ [LCall _ _]), _)). split; [|apply unmoved_call, kept_refl]. erewrite uv_bind_Some; [done|]. unfold uv_read_start. go. by rewrite Hc.
  - destruct (read_stop_run w (core_stoppable _ _ C)) as (s & E & K & _). eexists. split; [by rewrite (uv_bind_Some _ _ _ _ _ E)|exact (unmoved_call w _ _ _ _ _ s K)].
  - exists None. split; [|done]. apply uv_bind_None. unfold uv_shutdown. go. by rewrite Hfd.
  - exists None. split; [|done]. apply uv_bind_None. unfold uv_close. go. by rewrite Hc.
Qed.

Lemma do_call_stable K ex n c : stable K →
  triple (λ w, ready ex n w ∧ K w) (do_call c) (λ _ w, ready ex n w ∧ K w).
Proof.
  intros HK w [Hr Hk]. destruct (do_call_ok ex n c w Hr) as (o & E & Ho). exists o. split; [done|]. destruct o as [[w' []]|]; [|done].
  split; [done|]. eapply HK; [exact Hk|]. intros Hc. destruct Hr as ((C & _) & _).
  destruct (closing_call ex c w C) as (o & E' & Ho'); [by apply (c_closed _ _ C)|]. rewrite E in E'. by injection E' as <-.
Qed.

Lemma do_calls_stable K ex n cs : stable K →
  triple (λ w, ready ex n w ∧ K w) (do_calls cs) (λ _ w, ready ex n w ∧ K w).
Proof.
  intros HK. induction cs as [|c cs IH]; [by apply triple_ret|]. eapply triple_bind; [by apply do_call_stable|]. intros []. apply IH.
Qed.

Definition noted (e : uv_log) (w : uv_world) : uv_world := mkUv (stream w) (k_write w) (k_read w) (k_misc w) (log w ++ [e]).

Section User.
Context (user : list uv_log → list uv_call).
Context (alloc_cb : list uv_log → Z).

Lemma callback_stable K ex n e : stable K →
  triple (λ w, ready ex n (noted e w) ∧ K (noted e w)) (callback user e) (λ _ w, ready ex n w ∧ K w).
Proof.
  intros HK w [Hr Hk]. unfold callback. go. go. by apply (do_calls_stable K ex n).
Qed.

Lemma callback_ok ex n e : triple (λ w, ready ex n (noted e w)) (callback user e) (λ _, ready ex n).
Proof.
  eapply triple_conseq; [apply (callback_stable (λ _, True))|..]; [done| |].
  - intros w Hw. exact (conj Hw I).
  - by intros [] w [Hw _].
Qed.

(** ** Completed requests *)

Lemma ready_weaken ex n n' w : (n ≤ n')%nat → ready ex n w → ready ex n' w.
Proof. intros Hn (I & W & B). split; [done|]. split; [done|]. lia. Qed.

(** A completed request leaves the queue and the count of requests. *)
Lemma core_pop ex s s' r c : core ex s → write_completed_queue s = r :: c → flags s' = flags s → io_watcher s' = io_watcher s →
  connect_req s' = connect_req s → shutdown_req s' = shutdown_req s → close_pending s' = close_pending s →
  write_queue s' = write_queue s → write_completed_queue s' = c → active_reqs s' = active_reqs s - 1 →
  write_queue_size s' = write_queue_size s - size_of (failed [r]) → core ex s'.
Proof.
  intros C Eq Ef Ei Ec Es Ep Eq' Ec' Ea Esz. destruct C as [C1 C2 C3 C4 C5 Cf Cr C6 C7 C8 C9 C10 C11 C12]. rewrite Eq in *.
  change (r :: c) with ([r] ++ c) in *. rewrite failed_app, size_app, zlen_app, zlen_cons, zlen_nil in *. unfold io_fd_of in *. pose proof (size_nonneg (failed [r])).
  split; unfold io_fd_of; rewrite ?Ef, ?Ei, ?Ec, ?Es, ?Ea, ?Ep, ?Eq', ?Ec', ?Esz; try done; try lia.
  - by apply Forall_app in C9 as [_ ?].
  - intros Hc. specialize (C11 Hc). lia.
Qed.

Lemma unregister_run w : 0 < active_reqs (stream w) → uv__req_unregister w =
  Val (Some (mkUv (set_active_reqs (active_reqs (stream w) - 1) (stream w)) (k_write w) (k_read w) (k_misc w) (log w), tt)).
Proof. intros H. unfold uv__req_unregister. go. go_assert; [done|by apply Z.ltb_lt]. Qed.

Lemma count_nonneg {A} (o : option A) : 0 ≤ count o.
Proof. by destruct o. Qed.

Lemma idle_snoc l e : idle_connects (l ++ [e]) → idle_connects l.
Proof. apply idle_app. Qed.

Lemma on_size_run req w : write_queue_size (stream w) < 2 ^ 63 → size_of (failed [req]) ≤ write_queue_size (stream w) →
  on_if (negb (wr_freed req)) (size ← uv__write_req_size req; put (λ s, set_queue_size (write_queue_size s - size) s)) w =
  Val (Some (mkUv (set_queue_size (write_queue_size (stream w) - size_of (failed [req])) (stream w)) (k_write w) (k_read w) (k_misc w) (log w), tt)).
Proof.
  intros H1 H2. rewrite failed_one in *. unfold uv__write_req_size. destruct (wr_freed req) eqn:Ef; cbn [negb on_if].
  - change (size_of []) with 0. rewrite Z.sub_0_r. by destruct w as [[] ? ? ? ?].
  - rewrite size_cons in *. change (size_of []) with 0 in *. rewrite Z.add_0_r in *. erewrite uv_bind_Some; [done|].
    go_assert; [|done]. go. go_assert; [done|]. by apply Z.leb_le.
Qed.

(** The next completed request is taken off and called back. *)
Lemma complete_step_ok n w req rest : ready 0 (S n) w → write_completed_queue (stream w) = req :: rest →
  ∃ s, (∀ k : uv unit,
       (_ ← put (λ s, set_queues (write_queue s) rest s);
        _ ← uv__req_unregister;
        _ ← on_if (negb (wr_freed req)) (size ← uv__write_req_size req; put (λ s, set_queue_size (write_queue_size s - size) s));
        k) w = k (mkUv s (k_write w) (k_read w) (k_misc w) (log w))) ∧
    ready 0 n (noted (LWriteCb (wr_id req) (wr_error req)) (mkUv s (k_write w) (k_read w) (k_misc w) (log w))) ∧
    flags s = flags (stream w) ∧ write_queue s = write_queue (stream w) ∧ connect_req s = connect_req (stream w) ∧
    shutdown_req s = shutdown_req (stream w) ∧ write_completed_queue s = rest.
Proof.
  intros ((C & H & P & L) & Hw & Hb) Eq. pose proof (c_reqs _ _ C) as Ha. pose proof (c_size _ _ C) as Hs.
  rewrite Eq in Ha, Hs. change (req :: rest) with ([req] ++ rest) in Hs. rewrite failed_app, size_app in Hs. rewrite zlen_cons in Ha.
  pose proof (zlen_nonneg (write_queue (stream w))). pose proof (zlen_nonneg rest). pose proof (size_nonneg (write_queue (stream w))). pose proof (size_nonneg (failed rest)).
  pose proof (count_nonneg (connect_req (stream w))). pose proof (count_nonneg (shutdown_req (stream w))).
  eexists. split; [|split].
  - intros k. go. erewrite uv_bind_Some; [|apply unregister_run; cbn; lia]. erewrite uv_bind_Some; [|apply on_size_run; cbn; lia]. done.
  - split; [split|split]; cbn.
    + apply (core_pop 0 (stream w) _ req rest); done.
    + exists H, P. rewrite submitted_app, app_nil_r.
      eapply (link_called _ (stream w) _ (log w)); [done|done|exact Eq|done| | |exact L]; [by rewrite wrote_app, app_nil_r|by rewrite called_app].
    + intros Hi. apply Hw. exact (idle_app _ _ Hi).
    + unfold budget in *. rewrite Eq in Hb. cbn in *. lia.
  - done.
Qed.

Lemma complete_loop_ok n :
  triple (ready 0 n) (complete_loop user (S n)) (λ _ w, ready 0 n w ∧ write_completed_queue (stream w) = []).
Proof.
  induction n as [|n IH]; intros w Hr; cbn [complete_loop]; go; destruct (write_completed_queue (stream w)) as [|req rest] eqn:Eq.
  1,3: by eexists.
  { exfalso. destruct Hr as (_ & _ & Hb). unfold budget in Hb. rewrite Eq in Hb. cbn in Hb. lia. }
  destruct (complete_step_ok n w req rest Hr Eq) as (s & E & Hr' & _). rewrite E.
  eapply (triple_bind (λ w, ready 0 n (noted (LWriteCb (wr_id req) (wr_error req)) w))); [by apply callback_ok| |done].
  intros []. eapply triple_conseq; [apply IH|done|]. intros [] w' (Hw & Hc). split; [|done]. eapply ready_weaken, Hw. lia.
Qed.

Lemma complete_all_ok n :
  triple (ready 0 n) (complete_all user) (λ _ w, ready 0 n w ∧ write_completed_queue (stream w) = []).
Proof.
  intros w Hr. unfold complete_all. destruct (complete_loop_ok (budget w) w) as (o & E & Ho).
  - destruct Hr as (I & W & B). done.
  - exists o. split; [exact E|]. destruct o as [[w' []]|]; [|done]. destruct Ho as (Hr' & Ho). split; [|done]. eapply ready_weaken, Hr'. apply Hr.
Qed.

(** ** The other callbacks *)

(** What has nothing to do with write requests. *)
Definition unrelated (es : list uv_log) : Prop := submitted es = [] ∧ called es = [] ∧ wrote es = [].

Lemma ready_log ex ex' n w s kr km es : unrelated es → ready ex n w → core ex' s → UV_CLOSED (flags s) = UV_CLOSED (flags (stream w)) →
  write_queue s = write_queue (stream w) → write_completed_queue s = write_completed_queue (stream w) →
  watched (mkUv s (k_write w) kr km (log w ++ es)) → ready ex' n (mkUv s (k_write w) kr km (log w ++ es)).
Proof.
  intros (U1 & U2 & U3) ((C & H & P & L) & Hw & Hb) C' Ecl Eq Ec Hw'. split; [|split; [done|unfold budget in *; cbn; by rewrite Ec]].
  split; [done|]. exists H, P. cbn [stream log]. rewrite submitted_app, U1, app_nil_r.
  eapply link_same, L; [done..| |]; [by rewrite wrote_app, U3, app_nil_r|by rewrite called_app, U2, app_nil_r].
Qed.

Lemma ready_quiet ex ex' n w s kr km : ready ex n w → core ex' s → UV_CLOSED (flags s) = UV_CLOSED (flags (stream w)) →
  write_queue s = write_queue (stream w) → write_completed_queue s = write_completed_queue (stream w) →
  watched (mkUv s (k_write w) kr km (log w)) → ready ex' n (mkUv s (k_write w) kr km (log w)).
Proof. intros. rewrite <- (app_nil_r (log w)) in *. eapply ready_log; try done. Qed.

Lemma ask_run w : ∃ km z, ask w = Val (Some (mkUv (stream w) (k_write w) (k_read w) km (log w), z)).
Proof. unfold ask. destruct w as [? ? ? []]; by eexists _, _. Qed.

(** The shutdown request is called back. *)
Lemma core_shut ex s s' req : core ex s → shutdown_req s = Some req → UV_CLOSING (flags s) = false →
  UV_CLOSING (flags s') = UV_CLOSING (flags s) → UV_CLOSED (flags s') = UV_CLOSED (flags s) →
  UV_STREAM_READING (flags s') = UV_STREAM_READING (flags s) → UV_STREAM_SHUTTING (flags s') = false →
  io_watcher s' = io_watcher s → connect_req s' = connect_req s → shutdown_req s' = None → active_reqs s' = active_reqs s - 1 →
  close_pending s' = close_pending s → write_queue s' = write_queue s → write_completed_queue s' = write_completed_queue s →
  write_queue_size s' = write_queue_size s → core ex s'.
Proof.
  intros C Er Hc Ef1 Ef2 Ef3 Ef4 Ei Ec Es Ea Ep Eq' Ec' Esz. destruct C as [C1 C2 C3 C4 C5 Cf Cr C6 C7 C8 C9 C10 C11 C12]. rewrite Er in *. cbn [count] in C7.
  split; unfold io_fd_of in *; rewrite ?Ef1, ?Ef2, ?Ef3, ?Ef4, ?Ei, ?Ec, ?Es, ?Ea, ?Ep, ?Eq', ?Ec', ?Esz; try done. cbn [count]. lia.
Qed.

Lemma drain_ok n : triple (λ w, ready 0 n w ∧ write_queue (stream w) = []) (uv__drain user) (λ _, ready 0 n).
Proof.
  intros w (Hr & Hq). pose proof Hr as ((C & _) & Hw & _). unfold uv__drain. go. go_assert; [|by apply bool_decide_eq_true].
  destruct (io_stop_any false true w (core_stoppable _ _ C)) as (i & Ei & I1 & I2 & I3 & I4). rewrite (uv_bind_Some _ _ _ _ _ Ei).
  match goal with |- context [(_ ≫= _) ?m] => set (w1 := m) end. rewrite andb_true_r in I2.
  assert (ready 0 n w1) as Hr1.
  { apply (ready_quiet 0 0 n w); [done| |done..|by intros _ ?]. eapply core_calm; [exact C|done..| | | |done|done|done|done|done|done|done]; cbn; rewrite ?I2, ?I3, ?I4; [done| |done].
    by intros [? _]%andb_true_iff. }
  assert (write_queue (stream w1) = []) as Hq1 by done. clearbody w1. pose proof Hr1 as ((C1 & _) & _). go.
  destruct (_ && _ && _) eqn:Eg; cbn [on_if]; [|by eexists]. rewrite !andb_true_iff, !negb_true_iff in Eg. destruct Eg as [[Es Ec] _].
  go. destruct (shutdown_req (stream w1)) as [req|] eqn:Er; [|by destruct (c_shutting _ _ C1 Es Ec)].
  assert (0 < active_reqs (stream w1)) as Ha.
  { rewrite (c_reqs _ _ C1), Er, Hq1. pose proof (zlen_nonneg (write_completed_queue (stream w1))). pose proof (count_nonneg (connect_req (stream w1))). pose proof (zlen_nonneg (@nil uv_write_t)). cbn [count]. lia. }
  go. go. erewrite uv_bind_Some; [|apply unregister_run; exact Ha].
  match goal with |- context [(ask ≫= _) ?m] => destruct (ask_run m) as (km & z & Ez) end. rewrite (uv_bind_Some _ _ _ _ _ Ez).
  destruct (z =? 0); cbn [on_if]; go; apply (callback_ok 0 n); (apply (ready_log 0 0 n w1); [done|done| |done..|by intros _ ?]);
    eapply (core_shut 0 (stream w1)); done.
Qed.

Lemma write_callbacks_ok n : triple (ready 0 n) (uv__write_callbacks user) (λ _, ready 0 n).
Proof.
  unfold uv__write_callbacks. apply triple_bind with (R := λ _ w, ready 0 n w ∧ write_completed_queue (stream w) = []); [|intros []].
  { apply complete_all_ok. }
  intros w (Hw & Hc). go. go_assert; [|by apply bool_decide_eq_true]. go. destruct (bool_decide _) eqn:Eq; [|by eexists].
  apply bool_decide_eq_true in Eq. by apply drain_ok.
Qed.

(** ** Reading *)

Lemma sys_read_run len w : ∃ kr r, sys_read len w = Val (Some (mkUv (stream w) (k_write w) kr (k_misc w) (log w), r)).
Proof.
  unfold sys_read. destruct (after_rintr (k_read w)) as [|[b bs| | | |e] l]; by eexists _, _.
Qed.

Lemma ready_noted n w e kr km : unrelated [e] → ready 0 n w → ready 0 n (mkUv (stream w) (k_write w) kr km (log w ++ [e])).
Proof. intros He Hr. eapply ready_log; [done|done|apply Hr|done..|apply watched_log, Hr]. Qed.

Lemma io_start_in_run w : 0 ≤ io_fd_of (stream w) → uv__io_start_in w =
  Val (Some (mkUv (set_io (λ i, mkIo (io_fd i) true (io_out i) (io_pending i)) (stream w)) (k_write w) (k_read w) (k_misc w) (log w), tt)).
Proof. intros Hfd. unfold uv__io_start_in. go. go_assert; [done|by apply Z.leb_le]. Qed.

(** What was read is handed over; [e] says what. *)
Lemma read_callback n w s kr km e : unrelated [e] → ready 0 n w → core 0 s → UV_CLOSED (flags s) = UV_CLOSED (flags (stream w)) →
  write_queue s = write_queue (stream w) → write_completed_queue s = write_completed_queue (stream w) → connect_req s = connect_req (stream w) →
  io_fd_of s = io_fd_of (stream w) → io_out (io_watcher s) = io_out (io_watcher (stream w)) → io_pending (io_watcher s) = io_pending (io_watcher (stream w)) →
  ready 0 n (noted e (mkUv s (k_write w) kr km (log w))).
Proof.
  intros He Hr C E1 E2 E3 E4 E5 E6 E7. apply (ready_log 0 0 n w s kr km [e]); [done..|]. destruct Hr as (_ & Hw & _).
  intros Hi. cbn. rewrite E2, E4, E5, E6, E7. apply Hw. exact (idle_app _ _ Hi).
Qed.

Lemma read_loop_ok count n : triple (ready 0 n) (read_loop user alloc_cb count) (λ _, ready 0 n).
Proof.
  induction count as [|count IH]; [by apply triple_ret|]. intros w Hr. cbn [read_loop]. go.
  destruct (read_cb _ && _) eqn:Eg; cbn [negb]; [|by eexists]. apply andb_true_iff in Eg as [_ Eg].
  go. go. destruct (0 <? alloc_cb (log w)); [|exists None; split; [|done]; apply uv_bind_None; done].
  erewrite uv_bind_Some; [|done]. go.
  assert (ready 0 n (noted (LAlloc (alloc_cb (log w))) w)) as Hr1 by (by apply ready_noted).
  pose proof Hr as ((C & _) & _). assert (0 ≤ io_fd_of (stream w)) as Hfd.
  { pose proof (c_fd _ _ C). destruct (decide (io_fd_of (stream w) = -1)) as [E|]; [|lia]. destruct (c_quiet _ _ C E) as (_ & _ & _ & Q). congruence. }
  go_assert; [|by apply Z.leb_le]. unfold noted in Hr1.
  match goal with |- context [(sys_read ?l ≫= _) ?m] => set (w1 := m) in *; destruct (sys_read_run l w1) as (kr & r & E) end.
  rewrite (uv_bind_Some _ _ _ _ _ E). clear E. assert (core 0 (stream w1)) as C1 by done. destruct r as [b bs| | | |e].
  - eapply (triple_bind (λ v, ready 0 n (noted (LReadCb (zlen (b :: bs)) (b :: bs)) v))); [apply callback_ok| |by apply (read_callback n w1)].
    intros []. destruct (_ <? _); [by apply triple_ret|apply IH].
  - set (w2 := mkUv _ _ _ _ _). destruct (io_stop_any true false w2 (core_stoppable _ _ C1)) as (i & Ei & I1 & I2 & I3 & I4). rewrite (uv_bind_Some _ _ _ _ _ Ei). go.
    match goal with |- context [on_if ?b uv__handle_stop ≫= _] => match goal with |- context [(on_if b uv__handle_stop ≫= _) ?m] => destruct (handle_stop_run b m) as (f & Ef & F1 & F2) end end.
    rewrite (uv_bind_Some _ _ _ _ _ Ef). rewrite andb_true_r in I3. apply (callback_ok 0 n), (read_callback n w1); try done; [|apply F1].
    eapply core_calm; [exact C1|done|exact F1|cbn; by rewrite F2|..]; cbn; rewrite ?I2, ?I3, ?I4; try done. by intros [? _]%andb_true_iff.
  - rewrite Eg. cbn [on_if]. erewrite uv_bind_Some; [|by apply io_start_in_run]. apply (callback_ok 0 n), (read_callback n w1); try done. by eapply (core_io 0 (stream w1)).
  - rewrite Eg. cbn [on_if]. erewrite uv_bind_Some; [|by apply io_start_in_run]. apply (callback_ok 0 n), (read_callback n w1); try done. by eapply (core_io 0 (stream w1)).
  - eapply (triple_bind (λ v, ready 0 n (noted (LReadCb (-1) []) v))); [apply callback_ok| |by apply (read_callback n w1)].
    intros []. intros v Hv. go. unfold rule. destruct (negb _); by eexists.
Qed.

(** ** Connecting *)

(** With no write outstanding the queue is empty. *)
Lemma idle_queue w H P : linked (submitted (log w)) (stream w) (log w) H P → length (submitted (log w)) = length (called (log w)) → write_queue (stream w) = [].
Proof.
  intros [L1 _ _ _ L5 _] E. apply (f_equal length) in L1. apply Permutation_length in L5. rewrite !length_app, !length_map in *.
  destruct (write_queue (stream w)); [done|]. cbn in L1. lia.
Qed.

(** A connection attempt has ended. *)
Lemma core_connected ex s s' req : core ex s → connect_req s = Some req → 0 ≤ io_fd_of s → io_fd_of s' = io_fd_of s → flags s' = flags s →
  connect_req s' = None → shutdown_req s' = shutdown_req s → active_reqs s' = active_reqs s - 1 → close_pending s' = close_pending s →
  write_queue s' = write_queue s → write_completed_queue s' = write_completed_queue s → write_queue_size s' = write_queue_size s → core ex s'.
Proof.
  intros C Er Hfd Ei Ef Ec Es Ea Ep Eq' Ec' Esz. destruct C as [C1 C2 C3 C4 C5 Cf Cr C6 C7 C8 C9 C10 C11 C12]. rewrite Er in *. cbn [count] in C7.
  split; rewrite ?Ef, ?Ei, ?Ec, ?Es, ?Ea, ?Ep, ?Eq', ?Ec', ?Esz; try done; cbn [count]; lia.
Qed.

Lemma stream_connect_ok n :
  triple (λ w, ready 0 n w ∧ connect_req (stream w) ≠ None ∧ 0 ≤ io_fd_of (stream w)) (uv__stream_connect user) (λ _, ready 0 n).
Proof.
  intros w (Hr & Hc & Hfd). unfold uv__stream_connect. go. destruct (connect_req (stream w)) as [req|] eqn:Ec; [|done]. go.
  assert (∃ d km error, (if negb (delayed_error (stream w) =? 0) then _ ← put (set_delayed_error 0); mret (delayed_error (stream w))
      else fd ← get io_fd_of; _ ← assert (0 <=? fd); ask) w =
    Val (Some (mkUv (set_delayed_error d (stream w)) (k_write w) (k_read w) km (log w), error))) as (d & km & error & E).
  { destruct (delayed_error (stream w) =? 0) eqn:Ed; cbn [negb].
    - destruct (ask_run w) as (km & z & Ez). exists 0, km, z. go. go_assert; [|by apply Z.leb_le]. rewrite Ez. apply Z.eqb_eq in Ed.
      destruct w as [[]]. cbn in *. by subst.
    - by eexists _, _, _. }
  rewrite (uv_bind_Some _ _ _ _ _ E). clear E. pose proof Hr as ((C & H & P & L) & Hw & _).
  destruct (error =? EINPROGRESS).
  { eexists. split; [done|]. apply (ready_quiet 0 0 n w); [done| |done..|done]. by eapply (core_io 0 (stream w)). }
  assert (0 < active_reqs (stream w)) as Ha.
  { rewrite (c_reqs _ _ C), Ec. pose proof (zlen_nonneg (write_queue (stream w))). pose proof (zlen_nonneg (write_completed_queue (stream w))).
    pose proof (count_nonneg (shutdown_req (stream w))). cbn [count]. lia. }
  go. erewrite uv_bind_Some; [|apply unregister_run; exact Ha]. erewrite uv_bind_Some; [|apply io_stop_run; exact Hfd].
  apply (callback_ok 0 n), (ready_log 0 0 n w); [done|done| |done..|].
  - by eapply (core_connected 0 (stream w)).
  - intros Hi Hq. exfalso. apply Hq, (idle_queue w H P L). by apply (Hi _ req error []).
Qed.
(** ** Input and output *)

(** [ready], but for a reason to come back. *)
Definition loose (n : nat) (w : uv_world) : Prop := inv 0 (submitted (log w)) w ∧ (budget w ≤ n)%nat.

Lemma ready_loose n w : ready 0 n w ↔ loose n w ∧ watched w.
Proof. unfold ready, loose. tauto. Qed.

Lemma loose_write n : triple (λ w, loose n w ∧ 0 ≤ io_fd_of (stream w)) uv__write (λ _, ready 0 n).
Proof.
  intros w ((I & Hb) & Hfd). destruct (write_ok 0 (submitted (log w)) (submitted (log w)) n w) as (o & E & Ho); [done|].
  exists o. split; [done|]. destruct o as [[w' []]|]; [|done]. destruct Ho as ((I' & Es & Hb') & Hw'). split; [by rewrite Es|done].
Qed.

Lemma loose_out n w : loose n w → 0 ≤ io_fd_of (stream w) →
  ∃ o, (_ ← assert (0 <=? io_fd_of (stream w)); _ ← uv__write; uv__write_callbacks user) w = Val o ∧
    match o with Some (w', _) => ready 0 n w' | None => True end.
Proof.
  intros Hl Hfd. go_assert; [|by apply Z.leb_le]. eapply triple_bind; [apply (loose_write n)| |done]. intros []. apply write_callbacks_ok.
Qed.

Lemma stream_io_ok n pin pout perr :
  triple (λ w, loose n w ∧ UV_CLOSING (flags (stream w)) = false ∧ 0 ≤ io_fd_of (stream w) ∧ (watched w ∨ pin || perr = false ∧ pout = true))
    (uv__stream_io user alloc_cb pin pout perr) (λ _, ready 0 n).
Proof.
  intros w (Hl & Hc & Hfd & Hwhy). unfold uv__stream_io. go. go_assert; [|by rewrite Hc]. go.
  destruct (connect_req (stream w)) as [req|] eqn:Ec.
  { apply (stream_connect_ok n). rewrite Ec. split; [|done]. apply ready_loose. split; [done|]. intros _ _ _. congruence. }
  destruct (pin || perr) eqn:Ep; cbn [on_if andb].
  - destruct Hwhy as [Hw|[? _]]; [|done]. eapply (triple_bind (λ w, ready 0 n w ∧ 0 ≤ io_fd_of (stream w)) _ (λ _, ready 0 n)); [| |by rewrite ready_loose].
    + intros v (Hv & Hf). go. go_assert; [|by apply Z.leb_le]. by apply read_loop_ok.
    + intros [] v Hv. go. destruct (_ =? _) eqn:Eg; [by eexists|]. pose proof Hv as ((C & _) & _). pose proof (c_fd _ _ C).
      destruct (pout || perr); cbn [on_if]; [|by eexists]. apply loose_out; [by apply ready_loose|blia].
  - go. go. destruct Hwhy as [Hw|[_ ->]]; [|by apply loose_out]. destruct (pout || perr); cbn [on_if]; [by apply loose_out|]. eexists. split; [done|]. by apply ready_loose.
Qed.

(** ** Closing *)

(** A closed handle with its requests, and the callbacks so far. *)
Definition fixed (q d : list uv_write_t) (c r : option Z) (X : list uv_log) (w : uv_world) : Prop :=
  UV_CLOSED (flags (stream w)) = true ∧ write_queue (stream w) = q ∧ write_completed_queue (stream w) = d ∧
  connect_req (stream w) = c ∧ shutdown_req (stream w) = r ∧ callbacks (log w) = X.

Lemma fixed_stable q d c r X : stable (fixed q d c r X).
Proof. intros w w' (E1 & E2 & E3 & E4 & E5 & E6) Hk. destruct (Hk E1) as (((_ & L & _) & K2 & K3 & _ & _ & K6 & K7 & _) & K). repeat split; congruence. Qed.

Lemma fixed_callback q d c r X e w : callbacks [e] = [e] → fixed q d c r X w → fixed q d c r (X ++ [e]) (noted e w).
Proof. intros He (E1 & E2 & E3 & E4 & E5 & E6). repeat split; try done. cbn [noted log]. by rewrite callbacks_app, E6, He. Qed.

(** The callbacks a closed handle owes. *)
Definition cancelled (r : uv_write_t) : uv_log := LWriteCb (wr_id r) ECANCELED.
Definition completed (r : uv_write_t) : uv_log := LWriteCb (wr_id r) (wr_error r).

Lemma watched_closed ex w : core ex (stream w) → UV_CLOSED (flags (stream w)) = true → watched w.
Proof. intros C Hc _ _ Hfd. apply (c_closed _ _ C), (c_closing _ _ C) in Hc. lia. Qed.

(** The first request of a closed handle is cancelled: its bytes stay counted. *)
Lemma core_cancel ex s s' r q : core ex s → UV_CLOSED (flags s) = true → write_queue s = r :: q → flags s' = flags s → io_watcher s' = io_watcher s →
  connect_req s' = connect_req s → shutdown_req s' = shutdown_req s → active_reqs s' = active_reqs s - 1 → close_pending s' = close_pending s →
  write_queue s' = q → write_completed_queue s' = write_completed_queue s → write_queue_size s' = write_queue_size s → core ex s'.
Proof.
  intros C Hc Eq Ef Ei Ec Es Ea Ep Eq' Ec' Esz. destruct C as [C1 C2 C3 C4 C5 Cf Cr C6 C7 C8 C9 C10 C11 C12]. rewrite Eq in *. rewrite size_cons, zlen_cons in *.
  pose proof (zlen_nonneg (concat (wr_bufs r))).
  split; unfold io_fd_of in *; rewrite ?Ef, ?Ei, ?Ec, ?Es, ?Ea, ?Ep, ?Eq', ?Ec', ?Esz; try done; try lia.
  - intros _ Hc'. apply C4 in Hc. congruence.
  - by apply Forall_cons in C8 as [_ ?].
  - congruence.
Qed.

Lemma cancel_loop_ok q d r n X :
  triple (λ w, ready 0 n w ∧ fixed q d None r X w) (cancel_loop user (S (length q))) (λ _ w, ready 0 n w ∧ fixed [] d None r (X ++ map cancelled q) w).
Proof.
  revert X. induction q as [|req q IH]; intros X w (Hr & F); pose proof F as (F1 & F2 & F3 & F4 & F5 & F6); cbn [cancel_loop length]; go; rewrite F2.
  { cbn [map]. rewrite app_nil_r. by eexists. }
  pose proof Hr as ((C & H & P & L) & Hw & Hb). pose proof (c_reqs _ _ C) as Ha. rewrite F2, zlen_cons in Ha.
  pose proof (zlen_nonneg q). pose proof (zlen_nonneg (write_completed_queue (stream w))).
  pose proof (count_nonneg (connect_req (stream w))). pose proof (count_nonneg (shutdown_req (stream w))).
  go. erewrite uv_bind_Some; [|apply unregister_run; cbn; lia].
  eapply (triple_bind (λ v, ready 0 n (noted (cancelled req) v) ∧ fixed q d None r (X ++ [cancelled req]) (noted (cancelled req) v))).
  { apply callback_stable, fixed_stable. }
  { intros []. eapply triple_conseq; [apply (IH (X ++ [cancelled req]))|done|]. intros [] v (Hv & Fv). by rewrite <- app_assoc in Fv. }
  split; [|by apply fixed_callback]. assert (∀ s, core 0 s → UV_CLOSED (flags s) = true → ∀ kw kr km l, watched (mkUv s kw kr km l)) as HW by (intros; by eapply watched_closed).
  match goal with |- ready _ _ (noted _ (mkUv ?s' _ _ _ _)) => assert (core 0 s') as C' by (by eapply (core_cancel 0 (stream w))) end.
  split; [split; [exact C'|]|split; [by apply (HW _ C')|exact Hb]].
  cbn [noted stream log]. rewrite submitted_app, app_nil_r. eexists _, _.
  eapply (link_cancel _ (stream w) _ (log w)); [done|exact F2|done|done|done| | |exact L]; [by rewrite wrote_app, app_nil_r|by rewrite called_app].
Qed.

Lemma cancel_all_ok q d r n X :
  triple (λ w, ready 0 n w ∧ fixed q d None r X w) (cancel_all user) (λ _ w, ready 0 n w ∧ fixed [] d None r (X ++ map cancelled q) w).
Proof. intros w (Hr & F). unfold cancel_all. pose proof F as (_ & -> & _). by apply cancel_loop_ok. Qed.

(** No write of a closed handle joins the completed ones. *)
Lemma complete_closed_ok d r n X : ∀ fuel, (length d < fuel)%nat →
  triple (λ w, ready 0 n w ∧ fixed [] d None r X w) (complete_loop user fuel) (λ _ w, ready 0 n w ∧ fixed [] [] None r (X ++ map completed d) w).
Proof.
  revert n X. induction d as [|req d IH]; intros n X [|fuel] Hf; [cbn in Hf; lia| |cbn in Hf; lia|]; intros w (Hr & F); pose proof F as (F1 & F2 & F3 & F4 & F5 & F6); cbn [complete_loop]; go; rewrite F3.
  { cbn [map]. rewrite app_nil_r. by eexists. }
  assert (∃ m, n = S m) as (m & ->) by (destruct Hr as (_ & _ & Hb); unfold budget in Hb; rewrite F3 in Hb; cbn in Hb; destruct n as [|m]; [lia|by exists m]).
  destruct (complete_step_ok m w req d Hr F3) as (s & E & Hr' & E1 & E2 & E3 & E4 & E5). rewrite E.
  eapply (triple_bind (λ v, ready 0 m (noted (completed req) v) ∧ fixed [] d None r (X ++ [completed req]) (noted (completed req) v))).
  { apply callback_stable, fixed_stable. }
  { intros []. eapply triple_conseq; [apply (IH m (X ++ [completed req])); cbn in Hf; lia|done|]. intros [] v (Hv & Fv). rewrite <- app_assoc in Fv. split; [|done]. eapply ready_weaken, Hv. lia. }
  split; [done|]. apply fixed_callback; [done|]. repeat split; try exact F6; cbn; congruence.
Qed.

(** A request of a closed handle other than a write is called back: while the
    callback runs the request is no longer counted. *)
Lemma core_less ex ex' s s' : core ex s → flags s' = flags s → io_watcher s' = io_watcher s → close_pending s' = close_pending s →
  write_queue s' = write_queue s → write_completed_queue s' = write_completed_queue s → write_queue_size s' = write_queue_size s →
  UV_CLOSED (flags s) = true → (shutdown_req s' ≠ None → shutdown_req s ≠ None) →
  active_reqs s' - ex' - count (connect_req s') - count (shutdown_req s') = active_reqs s - ex - count (connect_req s) - count (shutdown_req s) →
  core ex' s'.
Proof.
  intros C Ef Ei Ep Eq Ec Esz Hc Hs Ha. pose proof (c_reqs _ _ C) as HR. destruct C as [C1 C2 C3 C4 C5 Cf Cr C6 C7 C8 C9 C10 C11 C12].
  split; unfold io_fd_of in *; rewrite ?Ef, ?Ei, ?Ep, ?Eq, ?Ec, ?Esz; try done; [by intros ?%Hs%Cr| |lia].
  intros _ Hc'. apply C4 in Hc. congruence.
Qed.

Lemma ready_less ex ex' n w s es : unrelated es → ready ex n w → core ex' s → UV_CLOSED (flags (stream w)) = true → flags s = flags (stream w) →
  write_queue s = write_queue (stream w) → write_completed_queue s = write_completed_queue (stream w) →
  ready ex' n (mkUv s (k_write w) (k_read w) (k_misc w) (log w ++ es)).
Proof. intros He Hr C Hc Ef E1 E2. eapply ready_log; [done|done|done|by rewrite Ef|done..|]. eapply watched_closed; [exact C|]. cbn. congruence. Qed.

(** The request is called back and dropped. *)
Lemma drop_req n q d (c r c' r' : option Z) X e (clear : uv_stream_t → uv_stream_t) :
  unrelated [e] → callbacks [e] = [e] → count c' + count r' = count c + count r - 1 → (r' ≠ None → r ≠ None) →
  (∀ s, connect_req s = c → shutdown_req s = r → connect_req (clear s) = c' ∧ shutdown_req (clear s) = r') →
  (∀ s, flags (clear s) = flags s ∧ io_watcher (clear s) = io_watcher s ∧ close_pending (clear s) = close_pending s ∧
     write_queue (clear s) = write_queue s ∧ write_completed_queue (clear s) = write_completed_queue s ∧
     write_queue_size (clear s) = write_queue_size s ∧ active_reqs (clear s) = active_reqs s) →
  triple (λ w, ready 0 n w ∧ fixed q d c r X w) (_ ← uv__req_unregister; _ ← callback user e; put clear)
    (λ _ w, ready 0 n w ∧ fixed q d c' r' (X ++ [e]) w).
Proof.
  intros He Hce Hn Hsh Hf Hcl w (Hr & F). pose proof Hr as ((C & _) & _). pose proof (c_reqs _ _ C) as Ha.
  pose proof (zlen_nonneg (write_queue (stream w))). pose proof (zlen_nonneg (write_completed_queue (stream w))). pose proof (count_nonneg c'). pose proof (count_nonneg r').
  pose proof F as (F1 & F2 & F3 & F4 & F5 & F6). rewrite F4, F5 in Ha. erewrite uv_bind_Some; [|apply unregister_run; lia].
  eapply (triple_bind (λ v, ready (-1) n (noted e v) ∧ fixed q d c r (X ++ [e]) (noted e v))); [apply callback_stable, fixed_stable| |].
  - intros [] v (Hv & G). eexists. split; [done|]. pose proof G as (G1 & G2 & G3 & G4 & G5 & G6). destruct (Hf _ G4 G5) as (M3 & M4). destruct (Hcl (stream v)) as (L1 & L2 & L3 & L4 & L5 & L6 & L7).
    split; [|repeat split; try exact G6; cbn; congruence]. rewrite <- (app_nil_r (log v)). pose proof Hv as ((Cv & _) & _).
    apply (ready_less (-1)); try done. apply (core_less (-1) _ (stream v)); try done; [rewrite M4, G5; apply Hsh|]. rewrite M3, M4, L7, G4, G5. lia.
  - split; [|by apply fixed_callback]. apply (ready_less 0 (-1) n w _ [e]); try done. apply (core_less 0 _ (stream w)); try done. cbn. lia.
Qed.

(** All requests are called back. *)
Definition gone (s : uv_stream_t) : Prop :=
  UV_CLOSED (flags s) = true ∧ write_queue s = [] ∧ write_completed_queue s = [] ∧ connect_req s = None ∧ shutdown_req s = None.

Lemma gone_stable : stable (λ w, gone (stream w)).
Proof. intros w w' (E1 & E2 & E3 & E4 & E5) Hk. destruct (Hk E1) as (((_ & L & _) & K2 & K3 & _ & _ & K6 & K7 & _) & K). repeat split; congruence. Qed.

Lemma fixed_gone X w : fixed [] [] None None X w → gone (stream w).
Proof. intros (? & ? & ? & ? & ? & _). by repeat split. Qed.

(** The callbacks of [uv__stream_destroy], in their order. *)
Definition owed (q d : list uv_write_t) (c r : option Z) : list uv_log :=
  match c with Some req => [LConnectCb req ECANCELED] | None => [] end ++ map cancelled q ++ map completed d ++
  match r with Some req => [LShutdownCb req ECANCELED] | None => [] end.

Lemma stream_destroy_ok n q d c r X :
  triple (λ w, ready 0 n w ∧ fixed q d c r X w) (uv__stream_destroy user) (λ _ w, ready 0 n w ∧ fixed [] [] None None (X ++ owed q d c r) w).
Proof.
  intros w (Hr & F). pose proof Hr as ((C & _) & _). unfold uv__stream_destroy, owed. pose proof F as (F1 & F2 & F3 & F4 & F5 & F6).
  destruct (c_quiet _ _ C (c_closing _ _ C (c_closed _ _ C F1))) as (Q1 & Q2 & _).
  go. go_assert; [|by rewrite Q1, Q2]. go. go_assert; [|done]. go. rewrite F4. set (X1 := X ++ match c with Some req => [LConnectCb req ECANCELED] | None => [] end).
  eapply (triple_bind (λ v, ready 0 n v ∧ fixed q d c r X v) _ (λ _ v, ready 0 n v ∧ fixed q d None r X1 v)); [| |done].
  { unfold X1. destruct c as [req|]; [|rewrite app_nil_r; by apply triple_ret]. apply drop_req; try done. cbn [count]; lia. }
  intros []. eapply triple_bind; [apply cancel_all_ok|]. intros [].
  eapply (triple_bind _ _ (λ _ v, ready 0 n v ∧ fixed [] [] None r ((X1 ++ map cancelled q) ++ map completed d) v)).
  { intros v (Hv & G). unfold complete_all. pose proof G as (_ & _ & E & _). rewrite E. apply complete_closed_ok; [lia|done]. }
  intros [] v (Hv & G). go. pose proof G as (_ & _ & _ & _ & E & _). rewrite E. clear E.
  assert (∀ l, X ++ match c with Some req => [LConnectCb req ECANCELED] | None => [] end ++ map cancelled q ++ map completed d ++ l =
    ((X1 ++ map cancelled q) ++ map completed d) ++ l) as EX by (intros l; unfold X1; by rewrite <- !app_assoc).
  rewrite EX. destruct r as [req|]; [|rewrite app_nil_r; by eexists].
  by apply (drop_req n [] [] None (Some req) None None).
Qed.

(** The loop comes to a handle that is being closed. *)
Lemma finish_close_ok n w : ready 0 n w → close_pending (stream w) = true →
  ∃ o, (_ ← put (set_close_pending false); uv__finish_close user) w = Val o ∧
    match o with
    | Some (w', _) => ready 0 n w' ∧ gone (stream w') ∧ callbacks (log w') = callbacks (log w) ++
        owed (write_queue (stream w)) (write_completed_queue (stream w)) (connect_req (stream w)) (shutdown_req (stream w)) ++ [LCloseCb]
    | None => True
    end.
Proof.
  intros Hr Hp. destruct Hr as ((C & H & P & L) & Hw & Hb). destruct (c_pending _ _ C Hp) as (Hc & Hcl).
  unfold uv__finish_close. go. go. go_assert; [|done]. go_assert; [|by cbn; rewrite Hcl]. go. set (s := stream w) in *.
  eapply (triple_bind (λ v, ready 0 n v ∧ fixed (write_queue s) (write_completed_queue s) (connect_req s) (shutdown_req s) (callbacks (log w)) v) _ _ _
    (λ _ v, ready 0 n v ∧ gone (stream v) ∧ callbacks (log v) = callbacks (log w) ++ owed (write_queue s) (write_completed_queue s) (connect_req s) (shutdown_req s) ++ [LCloseCb])); [apply stream_destroy_ok| |].
  - intros [] v (Hv & G). rewrite app_assoc. destruct (callback_stable (fixed [] [] None None ((callbacks (log w) ++ owed (write_queue s) (write_completed_queue s) (connect_req s) (shutdown_req s)) ++ [LCloseCb])) 0 n LCloseCb) with (w := v) as (o & Eo & Ho).
    + apply fixed_stable.
    + split; [by apply ready_noted|by apply fixed_callback].
    + exists o. split; [done|]. destruct o as [[w' []]|]; [|done]. destruct Ho as (Hr' & F). split; [done|]. split; [by eapply fixed_gone|]. by destruct F as (_ & _ & _ & _ & _ & F).
  - split; [|done]. assert (core 0 (set_flags set_closed (set_close_pending false (stream w)))) as C'.
    { destruct C as [C1 C2 C3 C4 C5 Cf Cr C6 C7 C8 C9 C10 C11 C12]. split; unfold io_fd_of in *; cbn; try done; congruence. }
    split; [split; [exact C'|]|split; [by eapply watched_closed|done]]. exists H, P. destruct L. by split.
Qed.
End User.

(** ** Only [uv__finish_close] marks the handle closed *)

Class KeepsClosed {A} (m : uv A) : Prop :=
  keeps_closed : ∀ w w' a, m w = Val (Some (w', a)) → UV_CLOSED (flags (stream w')) = UV_CLOSED (flags (stream w)).

#[export] Instance kc_bind {A B} (m : uv A) (f : A → uv B) : KeepsClosed m → (∀ a, KeepsClosed (f a)) → KeepsClosed (m ≫= f).
Proof.
  intros Hm Hf w w' b. unfold mbind, uv_bind. destruct (m w) as [[[w1 a]|]| |] eqn:E; try done. rewrite bind_Val. intros E'.
  by rewrite (Hf a _ _ _ E'), (Hm _ _ _ E).
Qed.

(** Code that does not touch the flags at all. *)
Lemma kc_flags {A} (m : uv A) : (∀ w w' a, m w = Val (Some (w', a)) → flags (stream w') = flags (stream w)) → KeepsClosed m.
Proof. intros H w w' a E. by rewrite (H _ _ _ E). Qed.

#[export] Instance kc_ret {A} (a : A) : KeepsClosed (mret a).
Proof. apply kc_flags. by intros w w' b [= <- <-]. Qed.
#[export] Instance kc_get {A} (f : uv_stream_t → A) : KeepsClosed (get f).
Proof. apply kc_flags. by intros w w' b [= <- <-]. Qed.
#[export] Instance kc_log : KeepsClosed get_log.
Proof. apply kc_flags. by intros w w' b [= <- <-]. Qed.
#[export] Instance kc_note e : KeepsClosed (note e).
Proof. apply kc_flags. by intros w w' b [= <- <-]. Qed.
#[export] Instance kc_rule b : KeepsClosed (rule b).
Proof. apply kc_flags. unfold rule. destruct b; [|done]. by intros w w' b [= <- <-]. Qed.
#[export] Instance kc_assert b : KeepsClosed (assert b).
Proof. apply kc_flags. unfold assert. destruct b; [|done]. by intros w w' b [= <- <-]. Qed.
#[export] Instance kc_if b m : KeepsClosed m → KeepsClosed (on_if b m).
Proof. intros Hm. destruct b; [done|apply kc_ret]. Qed.
#[export] Instance kc_ask : KeepsClosed ask.
Proof. apply kc_flags. intros w w' a. destruct (ask_run w) as (km & z & ->). by intros [= <- <-]. Qed.
#[export] Instance kc_sys_write bufs : KeepsClosed (sys_write bufs).
Proof. apply kc_flags. intros w w' a. destruct (sys_write_cases bufs w) as (kw & e & r & -> & _). by intros [= <- <-]. Qed.
#[export] Instance kc_sys_read len : KeepsClosed (sys_read len).
Proof. apply kc_flags. intros w w' a. destruct (sys_read_run len w) as (kr & r & ->). by intros [= <- <-]. Qed.
#[export] Instance kc_sys_connect : KeepsClosed sys_connect.
Proof. apply kc_flags. intros w w' a. unfold sys_connect. destruct (ask_connect _). by intros [= <- <-]. Qed.
Lemma kc_put f : (∀ s, UV_CLOSED (flags (f s)) = UV_CLOSED (flags s)) → KeepsClosed (put f).
Proof. intros Hf w w' a [= <- _]. apply Hf. Qed.
#[export] Hint Extern 0 (KeepsClosed (put _)) => apply kc_put; reflexivity : typeclass_instances.

(** By cases over the program. *)
Ltac keeps := repeat first [apply kc_bind; [|intros ?] | apply kc_if | apply _ | case_match].

#[export] Instance kc_start_in : KeepsClosed uv__io_start_in.
Proof. unfold uv__io_start_in. keeps. Qed.
#[export] Instance kc_start_out : KeepsClosed uv__io_start_out.
Proof. unfold uv__io_start_out. keeps. Qed.
#[export] Instance kc_stop pin pout : KeepsClosed (uv__io_stop pin pout).
Proof. unfold uv__io_stop. keeps. Qed.
#[export] Instance kc_feed : KeepsClosed uv__io_feed.
Proof. unfold uv__io_feed. keeps. Qed.
#[export] Instance kc_handle_start : KeepsClosed uv__handle_start.
Proof. unfold uv__handle_start. keeps. Qed.
#[export] Instance kc_handle_stop : KeepsClosed uv__handle_stop.
Proof. unfold uv__handle_stop. keeps. Qed.
#[export] Instance kc_register : KeepsClosed uv__req_register.
Proof. unfold uv__req_register. keeps. Qed.
#[export] Instance kc_unregister : KeepsClosed uv__req_unregister.
Proof. unfold uv__req_unregister. keeps. Qed.
#[export] Instance kc_write_size req : KeepsClosed (uv__write_req_size req).
Proof. unfold uv__write_req_size. keeps. Qed.
#[export] Instance kc_write_finish req : KeepsClosed (uv__write_req_finish req).
Proof. unfold uv__write_req_finish. keeps. Qed.
#[export] Instance kc_advance bufs n : KeepsClosed (write_advance bufs n).
Proof. revert n. induction bufs as [|b bufs IH]; intros n; cbn [write_advance]; keeps. Qed.
#[export] Instance kc_write : KeepsClosed uv__write.
Proof. unfold uv__write. keeps. Qed.
#[export] Instance kc_read_stop : KeepsClosed uv_read_stop.
Proof. unfold uv_read_stop. keeps. Qed.
#[export] Instance kc_do_call c : KeepsClosed (do_call c).
Proof.
  unfold do_call, uv__connect, maybe_new_socket, uv_write, uv_read_start, uv_shutdown, uv_close, uv__stream_close, uv__io_close, uv__make_close_pending. keeps.
Qed.
#[export] Instance kc_do_calls cs : KeepsClosed (do_calls cs).
Proof. induction cs as [|c cs IH]; cbn [do_calls]; keeps. Qed.

Section Events.
Context (user : list uv_log → list uv_call).
Context (alloc_cb : list uv_log → Z).

#[local] Instance kc_callback e : KeepsClosed (callback user e).
Proof. unfold callback. keeps. Qed.
#[local] Instance kc_complete fuel : KeepsClosed (complete_loop user fuel).
Proof. induction fuel as [|fuel IH]; cbn [complete_loop]; [by intros w w' a|]. keeps. Qed.
#[local] Instance kc_read count : KeepsClosed (read_loop user alloc_cb count).
Proof. induction count as [|count IH]; cbn [read_loop]; keeps. Qed.
#[local] Instance kc_complete_all : KeepsClosed (complete_all user).
Proof. intros w w' a. apply kc_complete. Qed.
#[local] Instance kc_stream_io pin pout perr : KeepsClosed (uv__stream_io user alloc_cb pin pout perr).
Proof. unfold uv__stream_io, uv__stream_connect, uv__read, uv__write_callbacks, uv__drain. keeps. Qed.

(** ** Between events *)

Definition settled (s : uv_stream_t) : Prop := UV_CLOSED (flags s) = true → gone s.

Definition good (n : nat) (w : uv_world) : Prop := ready 0 n w ∧ settled (stream w).

Lemma open_good n (m : uv unit) (P : uv_world → Prop) : KeepsClosed m → triple P m (λ _, ready 0 n) →
  triple (λ w, P w ∧ UV_CLOSED (flags (stream w)) = false) m (λ _, good n).
Proof.
  intros Hk Ht w (Hp & Hc). destruct (Ht w Hp) as (o & E & Ho). exists o. split; [done|]. destruct o as [[w' []]|]; [|done].
  split; [done|]. intros Hc'. rewrite (Hk _ _ _ E) in Hc'. congruence.
Qed.

Lemma call_good n c : triple (good n) (do_call c) (λ _, good n).
Proof.
  intros w (Hr & Hs). destruct (UV_CLOSED (flags (stream w))) eqn:Ec.
  - destruct (do_call_stable (λ w, gone (stream w)) 0 n c gone_stable w) as (o & E & Ho); [by split; [|apply Hs]|].
    exists o. split; [done|]. destruct o as [[w' []]|]; [|done]. destruct Ho as (Hr' & Hg). split; [done|]. by intros _.
  - apply (open_good n (do_call c) (ready 0 n)); [apply _|apply do_call_ok|done].
Qed.

Lemma io_good n pin pout perr :
  triple (λ w, loose n w ∧ 0 ≤ io_fd_of (stream w) ∧ (watched w ∨ pin || perr = false ∧ pout = true)) (uv__stream_io user alloc_cb pin pout perr) (λ _, good n).
Proof.
  intros w (Hl & Hfd & Hwhy). pose proof Hl as ((C & _) & _). assert (UV_CLOSING (flags (stream w)) = false) as Hc.
  { destruct (UV_CLOSING _) eqn:E; [|done]. apply (c_closing _ _ C) in E. lia. }
  eapply open_good; [apply _|apply stream_io_ok|]. split; [done|].
  destruct (UV_CLOSED (flags (stream w))) eqn:E; [|done]. apply (c_closed _ _ C) in E. congruence.
Qed.

Lemma active_fd ex s : core ex s → io_in (io_watcher s) = true ∨ io_out (io_watcher s) = true ∨ io_pending (io_watcher s) = true → 0 ≤ io_fd_of s.
Proof.
  intros C Ha. pose proof (c_fd _ _ C). destruct (decide (io_fd_of s = -1)) as [Ef|]; [|lia]. destruct (c_quiet _ _ C Ef) as (E1 & E2 & E3 & _).
  destruct Ha as [?|[?|?]]; congruence.
Qed.

Lemma deliver_ok n e : triple (good n) (deliver_uv user alloc_cb e) (λ _, good n).
Proof.
  intros w Hg. pose proof Hg as (Hr & Hs). pose proof Hr as ((C & H & P & L) & Hw & Hb). unfold deliver_uv. go. destruct e as [c|pin pout perr| |].
  - by apply call_good.
  - destruct (_ && _ && _) eqn:E; cbn [on_if]; [|by eexists]. apply io_good. split; [by apply ready_loose|]. split; [|by left].
    rewrite !andb_true_iff, orb_true_iff in E. apply (active_fd 0); [done|]. tauto.
  - destruct (io_pending _) eqn:E; cbn [on_if]; [|by eexists]. go. apply io_good.
    assert (0 ≤ io_fd_of (stream w)) as Hf by (apply (active_fd 0); tauto).
    split; [|split; [exact Hf|by right]]. split; [|exact Hb]. split; [by eapply (core_io 0 (stream w))|exists H, P; by eapply link_same, L].
  - destruct (close_pending _) eqn:E; cbn [on_if]; [|by eexists]. destruct (finish_close_ok user n w Hr E) as (o & Eo & Ho).
    exists o. split; [done|]. destruct o as [[w' []]|]; [|done]. destruct Ho as (Hr' & Hg' & _). split; [done|]. by intros _.
Qed.

Lemma run_ok n es : triple (good n) (run_uv user alloc_cb es) (λ _, good n).
Proof. induction es as [|e es IH]; [by apply triple_ret|]. eapply triple_bind; [apply deliver_ok|]. intros []. apply IH. Qed.

Lemma new_good kw kr km : good (length kw) (new_uv kw kr km).
Proof.
  split; [|done]. split; [|split; [by intros _ ?|done]]. split; [split; done|]. exists [], []. split; done.
Qed.
End Events.
