(* ===== verification/UvStreamSpec.v ===== *)
(** * The contract of a TCP stream

    Theorems about whole runs of [UvStream.v], for every kernel and every user that
    keeps to the documented rules. The invariants are in [UvStreamInv.v] and
    [UvStreamRun.v]. *)

From S2P Require Import Prelude UvStream UvStreamInv UvStreamRun.
Local Open Scope Z_scope.

Section Contract.
Context (user : list uv_log → list uv_call) (alloc_cb : list uv_log → Z).
Context (kw : list write_answer) (kr : list read_answer) (km : list Z).

Lemma stream_run_good es w : run_uv user alloc_cb es (new_uv kw kr km) = Val (Some (w, tt)) → good (length kw) w.
Proof.
  intros E. destruct (run_ok user alloc_cb (length kw) es (new_uv kw kr km) (new_good kw kr km)) as (o & E' & Ho).
  rewrite E in E'. by injection E' as <-.
Qed.

(** C15 (safety). Whatever the kernel answers, whatever the user calls from its
    callbacks and whatever events the loop delivers, no assertion of the stream code
    fails and every loop in it ends: the run returns, unless the user has broken a
    documented rule (a request in use again, a handle closed twice, a read without
    room, a call on a handle that was never opened). *)
Theorem stream_assertions_hold es : ∃ o, run_uv user alloc_cb es (new_uv kw kr km) = Val o.
Proof.
  destruct (run_ok user alloc_cb (length kw) es (new_uv kw kr km) (new_good kw kr km)) as (o & E & _). by exists o.
Qed.

(** What the peer and the user see of the writes: [H] are the requests that ended
    and [rest] those that have not, in the order they were submitted; [P] is sent of
    the first of the rest. *)
Definition sends_in_order (closed : bool) (l : list uv_log) : Prop := ∃ H rest P,
  submitted l = map (λ f, (f_id f, f_data f)) H ++ rest ∧
  wrote l = concat (map f_part H) ++ P ∧
  P `prefix_of` match rest with [] => [] | (_, data) :: _ => data end ∧
  Forall fin_ok H ∧
  called l ⊆+ map (λ f, (f_id f, f_err f)) H ∧
  (closed = false → called l `prefix_of` map (λ f, (f_id f, f_err f)) H).

(** C13 (functional). The bytes on the wire are, request by request in the order of
    submission, a prefix of the bytes of each: all of them where the request ends
    without an error, and nothing of a request before the one in front has ended. No
    request is called back twice or with another's result, and until the handle is
    closed the callbacks come in the order of submission. *)
Theorem stream_sends_in_order es w : run_uv user alloc_cb es (new_uv kw kr km) = Val (Some (w, tt)) →
  sends_in_order (UV_CLOSED (flags (stream w))) (log w).
Proof.
  intros E. destruct (stream_run_good es w E) as (((_ & H & P & [L1 L2 L3 L4 L5 L6]) & _) & _).
  exists H, (outstanding P (write_queue (stream w))), P. split; [done|]. split; [done|]. split; [|split; [done|split]].
  - destruct (write_queue (stream w)) as [|r q]; [by rewrite L3|]. cbn. by apply prefix_app_r.
  - rewrite <- L5. apply submseteq_inserts_r. done.
  - intros Hc. rewrite <- (L6 Hc). by apply prefix_app_r.
Qed.

Lemma close_run w : stoppable (stream w) → UV_CLOSING (flags (stream w)) = false → UV_CLOSED (flags (stream w)) = false →
  ∃ w', do_call UClose w = Val (Some (w', tt)) ∧ close_pending (stream w') = true ∧
    (write_queue (stream w') = write_queue (stream w) ∧ write_completed_queue (stream w') = write_completed_queue (stream w) ∧
     connect_req (stream w') = connect_req (stream w) ∧ shutdown_req (stream w') = shutdown_req (stream w)) ∧
    callbacks (log w') = callbacks (log w).
Proof.
  intros Hs Hc Hcl. destruct (stream_close_run (mkUv (set_flags set_closing (stream w)) (k_write w) (k_read w) (k_misc w) (log w)) Hs)
    as (s & E & ((L1 & L2 & L3) & K2 & K3 & _ & _ & K6 & K7 & _) & _).
  unfold do_call, uv_close. eexists. split; [|shelve]. erewrite uv_bind_Some.
  2: { go. unfold rule. rewrite Hc, Hcl. erewrite uv_bind_Some; [|done]. go. rewrite (uv_bind_Some _ _ _ _ _ E). unfold uv__make_close_pending.
    erewrite uv_bind_Some; [done|]. go. go_assert; [|done]. go_assert; [|cbn; rewrite L2; cbn; by rewrite Hcl]. done. }
  done.
  Unshelve. split; [done|]. split; [done|]. cbn. by rewrite callbacks_app, app_nil_r.
Qed.

Lemma gone_all w n : ready 0 n w → gone (stream w) → active_reqs (stream w) = 0 ∧ map fst (called (log w)) ≡ₚ map fst (submitted (log w)).
Proof.
  intros ((C & H & P & [L1 L2 L3 L4 L5 L6]) & _) (Hc & E1 & E4 & E2 & E3). rewrite (c_reqs _ _ C), L1, E1, E2, E3, E4 in *. split; [done|].
  cbn [map] in L5. rewrite app_nil_r in L5. rewrite L5. cbn [outstanding]. by rewrite app_nil_r, !map_map.
Qed.

(** C16 (liveness). When a handle is closed and the loop comes to its closing handles,
    exactly these callbacks of requests are made, in this order: the connection that is
    being established, with ECANCELED; every write that is in the queue, with ECANCELED;
    every write that is completed and not called back, with its own result; the shutdown
    that is waiting, with ECANCELED; the callback of the close. Then the handle is closed
    and has no request left, and over its life every write that was accepted has been called
    back once. This is so whatever the user calls from these callbacks, within the
    documented rules. *)
Theorem close_calls_all_back es w : run_uv user alloc_cb es (new_uv kw kr km) = Val (Some (w, tt)) →
  UV_CLOSING (flags (stream w)) = false →
  ∃ o, run_uv user alloc_cb [EvCall UClose; EvClosing] w = Val o ∧
    match o with
    | Some (w', _) =>
        callbacks (log w') = callbacks (log w) ++
          match connect_req (stream w) with Some req => [LConnectCb req ECANCELED] | None => [] end ++
          map (λ r, LWriteCb (wr_id r) ECANCELED) (write_queue (stream w)) ++
          map (λ r, LWriteCb (wr_id r) (wr_error r)) (write_completed_queue (stream w)) ++
          match shutdown_req (stream w) with Some req => [LShutdownCb req ECANCELED] | None => [] end ++ [LCloseCb] ∧
        UV_CLOSED (flags (stream w')) = true ∧ active_reqs (stream w') = 0 ∧ connect_req (stream w') = None ∧
        shutdown_req (stream w') = None ∧ map fst (called (log w')) ≡ₚ map fst (submitted (log w'))
    | None => True
    end.
Proof.
  intros E Hc. pose proof (stream_run_good es w E) as Hg. cbn [run_uv].
  destruct Hg as (Hr & Hs). pose proof Hr as ((C & _) & _).
  destruct (close_run w (core_stoppable _ _ C) Hc) as (w' & Ew & Hp & (K & EL)).
  { destruct (UV_CLOSED _) eqn:Ec; [|done]. apply (c_closed _ _ C) in Ec. congruence. }
  destruct (do_call_ok 0 (length kw) UClose w Hr) as (o & Eo & Ho). rewrite Ew in Eo. injection Eo as <-.
  rewrite (uv_bind_Some _ _ _ _ _ Ew). destruct (finish_close_ok user (length kw) w' Ho Hp) as (o & Eo & Hfin).
  exists o. split.
  - unfold deliver_uv. unfold mbind at 1, uv_bind at 1. go. rewrite Hp. cbn [on_if]. rewrite Eo, bind_Val. by destruct o as [[? []]|].
  - destruct o as [[w2 []]|]; [|done]. destruct Hfin as (Hr2 & Hg2 & Hcb). destruct (gone_all w2 _ Hr2 Hg2). destruct Hg2 as (? & ? & ? & ? & ?).
    split; [|done]. rewrite Hcb, EL. destruct K as (-> & -> & -> & ->). unfold owed, cancelled, completed. by rewrite <- !app_assoc.
Qed.


(** [write_queue_size] never wraps and, until the handle is closed, is
    the number of bytes not yet taken by the kernel of the requests that are queued
    or failed and not called back; [active_reqs] is the number of requests the
    handle owes a callback. *)
Theorem queue_size_exact es w : run_uv user alloc_cb es (new_uv kw kr km) = Val (Some (w, tt)) →
  0 ≤ write_queue_size (stream w) < 2 ^ 63 ∧
  active_reqs (stream w) = zlen (write_queue (stream w)) + zlen (write_completed_queue (stream w)) + count (connect_req (stream w)) + count (shutdown_req (stream w)) ∧
  (UV_CLOSED (flags (stream w)) = false →
     write_queue_size (stream w) = size_of (write_queue (stream w)) + size_of (failed (write_completed_queue (stream w)))).
Proof.
  intros E. destruct (stream_run_good es w E) as (((C & _) & Hw & _) & Hs). destruct C as [C1 C2 C3 C4 C5 Cf Cr C6 C7 C8 C9 C10 C11 C12].
  pose proof (size_nonneg (write_queue (stream w))). pose proof (size_nonneg (failed (write_completed_queue (stream w)))). split; [lia|]. split; [lia|done].
Qed.
End Contract.


(** ** Witnesses *)

(** Two requests; the first goes out in two pieces and the second fails. *)
Definition demo_user (l : list uv_log) : list uv_call :=
  match last l with
  | Some (LConnectCb _ 0) => [UReadStart; UWrite 1 [[1; 2]; [3]]; UWrite 2 [[4]]]
  | _ => []
  end.

Definition demo_run (es : list uv_event) : exec (option (uv_world * unit)) :=
  run_uv demo_user (λ _, 65536) es (new_uv [Accepts 2; Accepts 1; WError 32] [Data 7 []] [5; EINPROGRESS]).

Definition demo_world (es : list uv_event) : uv_world :=
  match demo_run es with Val (Some (w, _)) => w | _ => new_uv [] [] [] end.

Definition demo_events : list uv_event := [EvCall (UConnect 0); EvIo false true false; EvIo false true false].
Definition demo_mid : uv_world := Eval vm_compute in demo_world demo_events.
Definition demo_end : uv_world := Eval vm_compute in demo_world (demo_events ++ [EvPending; EvPending]).

Example demo_log : wrote (log demo_end) = [1; 2; 3] ∧ called (log demo_end) = [(1, 0); (2, 32)].
Proof. done. Qed.

Lemma stream_sends_in_order_witness : sends_in_order false (log demo_end).
Proof.
  exact (stream_sends_in_order demo_user (λ _, 65536) [Accepts 2; Accepts 1; WError 32] [Data 7 []] [5; EINPROGRESS] (demo_events ++ [EvPending; EvPending]) demo_end eq_refl).
Defined.

(** The first write is half out, the second queued, and a shutdown waits; and a
    connection that is being established. *)
Definition demo_shut : uv_world := Eval vm_compute in demo_world [EvCall (UConnect 0); EvIo false true false; EvCall (UShutdown 9)].
Definition demo_connecting : uv_world := Eval vm_compute in demo_world [EvCall (UConnect 0)].

Lemma close_calls_all_back_witness :
  (∃ w' a, run_uv demo_user (λ _, 65536) [EvCall UClose; EvClosing] demo_shut = Val (Some (w', a)) ∧
    callbacks (log w') = [LConnectCb 0 0; LWriteCb 1 ECANCELED; LWriteCb 2 ECANCELED; LShutdownCb 9 ECANCELED; LCloseCb]) ∧
  (∃ w' a, run_uv demo_user (λ _, 65536) [EvCall UClose; EvClosing] demo_connecting = Val (Some (w', a)) ∧
    callbacks (log w') = [LConnectCb 0 ECANCELED; LCloseCb]).
Proof.
  split.
  - destruct (close_calls_all_back demo_user (λ _, 65536) [Accepts 2; Accepts 1; WError 32] [Data 7 []] [5; EINPROGRESS]
      [EvCall (UConnect 0); EvIo false true false; EvCall (UShutdown 9)] demo_shut eq_refl eq_refl) as (o & E & H).
    destruct o as [[w' a]|]; [|vm_compute in E; discriminate E]. exists w', a. split; [exact E|]. exact (proj1 H).
  - destruct (close_calls_all_back demo_user (λ _, 65536) [Accepts 2; Accepts 1; WError 32] [Data 7 []] [5; EINPROGRESS]
      [EvCall (UConnect 0)] demo_connecting eq_refl eq_refl) as (o & E & H).
    destruct o as [[w' a]|]; [|vm_compute in E; discriminate E]. exists w', a. split; [exact E|]. exact (proj1 H).
Defined.

Lemma demo_idle : idle_connects (log demo_mid).
Proof.
  intros l1 req e l2 E. unfold demo_mid in E. cbn [log] in E. destruct l1 as [|e1 [|e2 [|e3 [|e4 [|e5 [|e6 [|e7 [|e8 [|e9 l1]]]]]]]]]; simplify_eq/=; done.
Qed.


Lemma queue_size_exact_witness : 0 ≤ write_queue_size (stream demo_end) < 2 ^ 63.
Proof.
  exact (proj1 (queue_size_exact demo_user (λ _, 65536) [Accepts 2; Accepts 1; WError 32] [Data 7 []] [5; EINPROGRESS] (demo_events ++ [EvPending; EvPending]) demo_end eq_refl)).
Defined.

