(* ===== verification/UvAsync.v ===== *)
(** * Wake-ups from other threads ([src/deps/uv/src/unix/async.c])

    [pc_request], [pc_notify] and [pc_client_stop] run in the application's threads
    and wake the loop with [uv_async_send]. Here the memory accesses of any number of
    senders and of the loop are interleaved one by one: the flag [pending] of each
    handle, the counter of the eventfd and the walk of [uv__async_event] over
    [async_handles]. On x86 the exchange is one access. *)

From S2P Require Import Prelude NgxQueue.
Local Open Scope Z_scope.

(** ** The state *)

(** A sender in [uv_async_send], before the cheap read of [pending], before the
    exchange, or before the write to the eventfd. *)
Inductive send_pc := SRead (h : Z) | SXchg (h : Z) | SWrite (h : Z).

(** The loop: in [uv__io_poll], in [uv__async_io] before the read, in
    [uv__async_event] before it looks at the first of [rest], before it clears the
    flag of [h], and in the callback of [h]; [linked] when [h] was not closed in its
    callback, else its stale [next] leads to [rest]. *)
Inductive loop_pc :=
| LPoll
| LRead
| LVisit (rest : list Z)
| LClear (h : Z) (rest : list Z)
| LCall (h : Z) (rest : list Z) (linked : bool).

(** What counts: a send has set the flag or found it set, a callback has begun. *)
Inductive async_log := Sent (h : Z) | Called (h : Z) | Inited (h : Z).

Record async_state := mkAsync {
  async_handles : list Z;
  pending : gset Z;
  counter : Z;
  senders : gmap Z send_pc;
  loop : loop_pc;
  alog : list async_log
}.

Definition set_loop (l : loop_pc) (s : async_state) : async_state :=
  mkAsync (async_handles s) (pending s) (counter s) (senders s) l (alog s).
Definition set_sender (t : Z) (p : option send_pc) (s : async_state) : async_state :=
  mkAsync (async_handles s) (pending s) (counter s) (partial_alter (λ _, p) t (senders s)) (loop s) (alog s).
Definition set_pending (p : gset Z) (s : async_state) : async_state :=
  mkAsync (async_handles s) p (counter s) (senders s) (loop s) (alog s).
Definition set_counter (n : Z) (s : async_state) : async_state :=
  mkAsync (async_handles s) (pending s) n (senders s) (loop s) (alog s).
Definition set_handles (l : list Z) (s : async_state) : async_state :=
  mkAsync l (pending s) (counter s) (senders s) (loop s) (alog s).
Definition anote (e : async_log) (s : async_state) : async_state :=
  mkAsync (async_handles s) (pending s) (counter s) (senders s) (loop s) (alog s ++ [e]).

(** ** Steps *)

(** The eventfd counts up to [2 ^ 64 - 2]; then a write would block. *)
Definition EVENTFD_MAX : Z := 2 ^ 64 - 2.

Definition uv__async_send (s : async_state) : async_state :=
  if counter s <? EVENTFD_MAX then set_counter (counter s + 1) s else s.

Definition sender_step (t : Z) (p : send_pc) (s : async_state) : async_state :=
  match p with
  | SRead h => if decide (h ∈ pending s) then set_sender t None (anote (Sent h) s) else set_sender t (Some (SXchg h)) s
  | SXchg h =>
      let was := bool_decide (h ∈ pending s) in
      let s := anote (Sent h) (set_pending ({[ h ]} ∪ pending s) s) in
      if was then set_sender t None s else set_sender t (Some (SWrite h)) s
  | SWrite h => set_sender t None (uv__async_send s)
  end.

(** [None]: the loop waits. The read of [uv__async_io] must give a whole counter,
    and there is none to read while it is 0. *)
Definition loop_step (s : async_state) : exec (option async_state) :=
  match loop s with
  | LPoll => Val (if 0 <? counter s then Some (set_loop LRead s) else None)
  | LRead => if 0 <? counter s then Val (Some (set_loop (LVisit (async_handles s)) (set_counter 0 s))) else UB
  | LVisit [] => Val (Some (set_loop LPoll s))
  | LVisit (h :: rest) => Val (Some (set_loop (if decide (h ∈ pending s) then LClear h rest else LVisit rest) s))
  | LClear h rest => Val (Some (anote (Called h) (set_loop (LCall h rest true) (set_pending (pending s ∖ {[ h ]}) s))))
  | LCall h rest _ => Val (Some (set_loop (LVisit rest) s))
  end.

(** [uv_async_init], in the loop's thread; the walk reaches the new handle unless the
    last handle was closed in its callback. *)
Definition uv_async_init (h : Z) (s : async_state) : async_state :=
  let s := anote (Inited h) (set_pending (pending s ∖ {[ h ]}) (set_handles (async_handles s ++ [h]) s)) in
  match loop s with
  | LCall c rest linked => set_loop (LCall c (if linked || negb (bool_decide (rest = [])) then rest ++ [h] else []) linked) s
  | _ => s
  end.

Definition uv__async_close (h : Z) (s : async_state) : async_state :=
  let s := set_handles (filter (λ x, x ≠ h) (async_handles s)) s in
  match loop s with
  | LCall c rest linked => set_loop (LCall c rest false) s
  | _ => s
  end.

Inductive async_act :=
| ASend (t h : Z)
| AStep (t : Z)
| ALoop
| AInit (h : Z)
| AClose (h : Z).

Definition uses (h : Z) (p : send_pc) : bool := match p with SRead x | SXchg x | SWrite x => x =? h end.

(** The rules: a thread makes one call at a time and only on a handle that was not
    closed; handles are initialised and closed in the loop's thread, between walks or
    from a callback, which closes no other handle than its own. *)
Definition in_callback (h : option Z) (s : async_state) : bool :=
  match loop s with
  | LPoll => true
  | LCall c _ linked => match h with None => true | Some h => (h =? c) && linked end
  | _ => false
  end.

Definition allowed (a : async_act) (s : async_state) : bool :=
  match a with
  | ASend t h => bool_decide (senders s !! t = None) && bool_decide (h ∈ async_handles s)
  | AStep _ | ALoop => true
  | AInit h => in_callback None s && negb (bool_decide (h ∈ async_handles s))
  | AClose h => in_callback (Some h) s && bool_decide (h ∈ async_handles s) && bool_decide (map_Forall (λ _ p, uses h p = false) (senders s))
  end.

(** What does not happen leaves the state alone. *)
Definition async_step (a : async_act) (s : async_state) : exec async_state :=
  if negb (allowed a s) then Val s
  else
    match a with
    | ASend t h => Val (set_sender t (Some (SRead h)) s)
    | AStep t => Val (match senders s !! t with Some p => sender_step t p s | None => s end)
    | ALoop => o ← loop_step s; Val (match o with Some s => s | None => s end)
    | AInit h => Val (uv_async_init h s)
    | AClose h => Val (uv__async_close h s)
    end.

Fixpoint async_run (l : list async_act) (s : async_state) : exec async_state :=
  match l with
  | [] => Val s
  | a :: l => s ← async_step a s; async_run l s
  end.

Definition new_async : async_state := mkAsync [] ∅ 0 ∅ LPoll [].

(** Two senders, one of which finds the flag set; one callback. *)
Example async_example :
  match async_run [AInit 1; AInit 2; ASend 7 2; ASend 8 2; AStep 7; AStep 8; AStep 7; AStep 8; AStep 7; ALoop; ALoop; ALoop; ALoop; ALoop] new_async with
  | Val s => alog s
  | _ => []
  end = [Inited 1; Inited 2; Sent 2; Sent 2; Called 2].
Proof. vm_compute. reflexivity. Qed.

(** ** The invariant *)

(** The handles the walk still comes to. *)
Definition ahead (s : async_state) : list Z :=
  match loop s with LVisit rest => rest | LClear h rest => h :: rest | LCall _ rest _ => rest | _ => [] end.

(** A send since the handle was initialised or called. *)
Definition owed_step (h : Z) (b : bool) (e : async_log) : bool :=
  match e with Sent x => (x =? h) || b | Called x | Inited x => negb (x =? h) && b end.
Definition owed (h : Z) (l : list async_log) : bool := fold_left (owed_step h) l false.

Lemma owed_snoc h l e : owed h (l ++ [e]) = owed_step h (owed h l) e.
Proof. apply fold_left_app. Qed.

#[export] Instance async_log_eq_dec : EqDecision async_log.
Proof. solve_decision. Defined.

Definition sends (h : Z) (l : list async_log) : nat := length (filter (λ e, e = Sent h) l).
Definition calls (h : Z) (l : list async_log) : nat := length (filter (λ e, e = Called h) l).

Lemma sends_snoc h l e : sends h (l ++ [e]) = (sends h l + if decide (e = Sent h) then 1 else 0)%nat.
Proof. unfold sends. rewrite filter_app, length_app, filter_cons. case_decide; done. Qed.
Lemma calls_snoc h l e : calls h (l ++ [e]) = (calls h l + if decide (e = Called h) then 1 else 0)%nat.
Proof. unfold calls. rewrite filter_app, length_app, filter_cons. case_decide; done. Qed.

(** The loop has a reason to come to the handle: the eventfd can be read, or a sender
    is about to write to it, or the walk has not passed it. *)
Definition woken (s : async_state) (h : Z) : Prop :=
  0 < counter s ∨ (∃ t x, senders s !! t = Some (SWrite x)) ∨ h ∈ ahead s.
Arguments woken : simpl never.
Arguments owed : simpl never.
Arguments sends : simpl never.
Arguments calls : simpl never.

Record ainv (s : async_state) : Prop := {
  a_counter : 0 ≤ counter s ≤ EVENTFD_MAX;
  a_read : loop s = LRead → 0 < counter s;
  a_clear : ∀ h rest, loop s = LClear h rest → h ∈ pending s;
  a_wake : ∀ h, h ∈ async_handles s → h ∈ pending s → woken s h;
  a_owed : ∀ h, owed h (alog s) = true → h ∈ pending s;
  a_calls : ∀ h, (calls h (alog s) + (if decide (h ∈ pending s) then 1 else 0) ≤ sends h (alog s))%nat
}.

Lemma woken_other t p o s s' h : senders s !! t = Some p → (∀ x, p ≠ SWrite x) → counter s' = counter s → ahead s' = ahead s →
  senders s' = partial_alter (λ _, o) t (senders s) → woken s h → woken s' h.
Proof.
  intros Ht Hp E1 E2 E3 [?|[(t' & y & Ht')|?]]; unfold woken; rewrite E1, E2, E3; [by left| |by right; right].
  right. left. exists t', y. rewrite lookup_partial_alter_ne; [done|]. intros ->. rewrite Ht in Ht'. by destruct (Hp y); injection Ht'.
Qed.

Lemma sender_inv t p s : ainv s → senders s !! t = Some p → ainv (sender_step t p s).
Proof.
  intros [I1 I2 I3 I4 I5 I6] Ht. destruct p as [h|h|h]; cbn [sender_step].
  - case_decide as Hp; split; cbn; try done.
    + intros x Hx Hpx. by eapply (woken_other t (SRead h) None s); [| | | | |apply I4].
    + intros x. rewrite owed_snoc. cbn. rewrite orb_true_iff, Z.eqb_eq. intros [<-|?]; auto.
    + intros x. rewrite calls_snoc, sends_snoc. specialize (I6 x). repeat case_decide; simplify_eq; lia.
    + intros x Hx Hpx. by eapply (woken_other t (SRead h) (Some (SXchg h)) s); [| | | | |apply I4].
  - case_bool_decide as Hp.
    + assert ({[h]} ∪ pending s = pending s) as E by set_solver. rewrite E. split; cbn; try done.
      * intros x Hx Hpx. by eapply (woken_other t (SXchg h) None s); [| | | | |apply I4].
      * intros x. rewrite owed_snoc. cbn. rewrite orb_true_iff, Z.eqb_eq. intros [<-|?]; auto.
      * intros x. rewrite calls_snoc, sends_snoc. specialize (I6 x). repeat case_decide; simplify_eq; lia.
    + split; cbn; try done.
      * intros x rest Hl. specialize (I3 x rest Hl). set_solver.
      * intros x _ _. right. left. exists t, h. cbn. by rewrite lookup_partial_alter_eq.
      * intros x. rewrite owed_snoc. cbn. rewrite orb_true_iff, Z.eqb_eq. intros [<-|?%I5]; set_solver.
      * intros x. rewrite calls_snoc, sends_snoc. specialize (I6 x). repeat case_decide; simplify_eq; try lia; set_solver.
  - unfold uv__async_send. destruct (counter s <? EVENTFD_MAX) eqn:E; split; cbn; try done; try blia.
    + intros x _ _. left. cbn. blia.
    + intros x _ _. left. cbn. unfold EVENTFD_MAX in *. blia.
Qed.

Lemma loop_inv s : ainv s → ∃ o, loop_step s = Val o ∧ match o with Some s' => ainv s' | None => loop s = LPoll ∧ counter s = 0 end.
Proof.
  intros I. pose proof I as [I1 I2 I3 I4 I5 I6]. unfold loop_step. destruct (loop s) as [| |[|h rest]|h rest|h rest b] eqn:El.
  - eexists. split; [done|]. destruct (0 <? counter s) eqn:Ec; [|split; [done|]; blia]. split; cbn; try done; [blia|].
    intros x Hx Hp. destruct (I4 x Hx Hp) as [?|[?|Ha]]; [by left|by right; left|]. unfold ahead in Ha. rewrite El in Ha. set_solver.
  - rewrite (proj2 (Z.ltb_lt _ _)) by auto. eexists. split; [done|]. split; cbn; try done. intros x Hx _. by right; right.
  - eexists. split; [done|]. split; cbn; try done.
    intros x Hx Hp. destruct (I4 x Hx Hp) as [?|[?|Ha]]; [by left|by right; left|]. unfold ahead in Ha. rewrite El in Ha. set_solver.
  - eexists. split; [done|]. case_decide as Hp; split; cbn; try done; [by intros x r [= <- <-]| |].
    all: intros x Hx Hpx; destruct (I4 x Hx Hpx) as [?|[?|Ha]]; [by left|by right; left|]; right; right; unfold ahead in *; rewrite El in Ha; cbn; try done.
    apply elem_of_cons in Ha as [->|?]; done.
  - eexists. split; [done|]. split; cbn; try done.
    + intros x Hx Hpx. destruct (I4 x Hx) as [?|[?|Ha]]; [set_solver|by left|by right; left|]. right. right. unfold ahead in *. rewrite El in Ha. cbn.
      apply elem_of_cons in Ha as [->|?]; [set_solver|done].
    + intros x. rewrite owed_snoc. cbn. rewrite andb_true_iff, negb_true_iff, Z.eqb_neq. intros [? ?%I5]. set_solver.
    + intros x. rewrite calls_snoc, sends_snoc. specialize (I6 x). specialize (I3 h rest eq_refl). repeat case_decide; simplify_eq; try lia; set_solver.
  - eexists. split; [done|]. split; cbn; try done.
    intros x Hx Hp. destruct (I4 x Hx Hp) as [?|[?|Ha]]; [by left|by right; left|]. right. right. unfold ahead in *. by rewrite El in Ha.
Qed.

Lemma init_inv h s : ainv s → allowed (AInit h) s = true → ainv (uv_async_init h s).
Proof.
  intros [I1 I2 I3 I4 I5 I6] Ha. unfold uv_async_init. cbn [loop anote set_pending set_handles].
  assert (∀ l, (∀ x r, l ≠ LClear x r) → (l = LRead → 0 < counter s) → (∀ x, x ∈ ahead s → x ∈ ahead (set_loop l s)) →
    ainv (mkAsync (async_handles s ++ [h]) (pending s ∖ {[h]}) (counter s) (senders s) l (alog s ++ [Inited h]))) as Hi.
  { intros l Hl1 Hl2 Hl3. split; cbn; try done.
    - intros x r E. by destruct (Hl1 x r).
    - intros x Hx Hp. destruct (I4 x) as [?|[?|?]]; [set_solver..|by left|by right; left|right; right; by apply Hl3].
    - intros x. rewrite owed_snoc. cbn. rewrite andb_true_iff, negb_true_iff, Z.eqb_neq. intros [? ?%I5]. set_solver.
    - intros x. rewrite calls_snoc, sends_snoc. specialize (I6 x). repeat case_decide; simplify_eq; try lia; set_solver. }
  cbn in Ha. apply andb_true_iff in Ha as [Ha _]. unfold in_callback in Ha.
  destruct (loop s) as [| | | |c rest b] eqn:El; try done.
  - unfold anote, set_pending, set_handles. cbn. rewrite El. apply Hi; try done. unfold ahead. by rewrite El.
  - apply Hi; try done. unfold ahead. rewrite El. cbn. intros x Hx. destruct b; cbn; [set_solver|]. case_bool_decide; subst; cbn; set_solver.
Qed.

Lemma close_inv h s : ainv s → allowed (AClose h) s = true → ainv (uv__async_close h s).
Proof.
  intros [I1 I2 I3 I4 I5 I6] Ha. unfold uv__async_close. cbn [loop set_handles]. cbn in Ha.
  assert (∀ l, (∀ x r, l ≠ LClear x r) → (l = LRead → 0 < counter s) → ahead (set_loop l s) = ahead s →
    ainv (mkAsync (filter (λ x, x ≠ h) (async_handles s)) (pending s) (counter s) (senders s) l (alog s))) as Hi.
  { intros l Hl1 Hl2 Hl3. split; cbn; try done.
    - intros x r E. by destruct (Hl1 x r).
    - intros x [_ Hx]%list_elem_of_filter Hp. destruct (I4 x Hx Hp) as [?|[?|?]]; [by left|by right; left|right; right; change (x ∈ ahead (set_loop l s)); by rewrite Hl3]. }
  unfold in_callback in Ha. destruct (loop s) as [| | | |c rest b] eqn:El; try done; (unfold set_handles; rewrite ?El; apply Hi; try done; unfold ahead; by rewrite El).
Qed.

Lemma async_step_inv a s : ainv s → ∃ s', async_step a s = Val s' ∧ ainv s'.
Proof.
  intros I. unfold async_step. destruct (allowed a s) eqn:Ea; cbn [negb]; [|by eexists]. destruct a as [t h|t| |h|h].
  - eexists. split; [done|]. cbn in Ea. apply andb_true_iff in Ea as [Ea%bool_decide_eq_true _]. destruct I as [I1 I2 I3 I4 I5 I6].
    split; cbn; try done. intros x Hx Hp. destruct (I4 x Hx Hp) as [?|[(t' & y & Ht')|?]]; [by left| |by right; right].
    right. left. exists t', y. cbn. rewrite lookup_partial_alter_ne; [done|]. intros ->. congruence.
  - eexists. split; [done|]. destruct (senders s !! t) as [p|] eqn:Et; [by apply sender_inv|done].
  - destruct (loop_inv s I) as (o & -> & Ho). cbn. eexists. split; [done|]. by destruct o.
  - eexists. split; [done|]. by apply init_inv.
  - eexists. split; [done|]. by apply close_inv.
Qed.

Lemma async_run_inv l s : ainv s → ∃ s', async_run l s = Val s' ∧ ainv s'.
Proof.
  revert s. induction l as [|a l IH]; intros s I; [by eexists|]. cbn [async_run]. destruct (async_step_inv a s I) as (s' & -> & I'). by apply IH.
Qed.

Lemma new_async_inv : ainv new_async.
Proof. split; cbn; try done. Qed.

(** ** No wake-up is lost *)

(** How far the loop is from the callback of [h]. *)
Definition loop_pos (s : async_state) : nat :=
  match loop s with
  | LPoll => 2
  | LRead => 1
  | LVisit rest => 3 * length rest + 3
  | LClear _ rest => 3 * length rest + 5
  | LCall _ rest _ => 3 * length rest + 4
  end.

Definition distance (h : Z) (s : async_state) : nat :=
  loop_pos s + if decide (h ∈ ahead s) then 0 else 3 * length (async_handles s) + 4.

Definition waits (h : Z) (s : async_state) : Prop :=
  ainv s ∧ senders s = ∅ ∧ h ∈ async_handles s ∧ h ∈ pending s.

Lemma loop_nearer h s : waits h s → ∃ s', async_step ALoop s = Val s' ∧
  ((alog s' = alog s ++ [Called h]) ∨
   ((∃ l, alog s' = alog s ++ l) ∧ waits h s' ∧ (distance h s' < distance h s)%nat)).
Proof.
  intros (I & Hs & Hh & Hp). destruct (async_step_inv ALoop s I) as (s' & E & I'). exists s'. split; [done|].
  pose proof (a_wake _ I h Hh Hp) as Hw. unfold async_step in E. cbn [allowed negb] in E. unfold loop_step in E.
  unfold waits, distance, loop_pos, woken, ahead in *. rewrite Hs in Hw. destruct (loop s) as [| |[|c rest]|c rest|c rest b] eqn:El.
  - destruct Hw as [Hc|[(t & x & Ht)|Ha]]; [|by rewrite lookup_empty in Ht|by apply not_elem_of_nil in Ha].
    rewrite (proj2 (Z.ltb_lt _ _) Hc) in E. injection E as <-. right. split; [by exists []; rewrite app_nil_r|]. split; [done|]. cbn. lia.
  - rewrite (proj2 (Z.ltb_lt _ _) (a_read _ I El)) in E. injection E as <-. right. split; [by exists []; rewrite app_nil_r|]. split; [done|]. cbn. rewrite decide_True by done. rewrite decide_False by apply not_elem_of_nil. lia.
  - injection E as <-. right. split; [by exists []; rewrite app_nil_r|]. split; [done|]. cbn. lia.
  - injection E as <-. right. split; [by exists []; rewrite app_nil_r|]. split; [done|]. cbn. destruct (decide (c ∈ pending s)); [lia|].
    assert (h ≠ c) as Hne by congruence. rewrite (decide_ext (h ∈ c :: rest) (h ∈ rest)) by (rewrite elem_of_cons; tauto). lia.
  - injection E as <-. destruct (decide (c = h)) as [->|Hne]; [by left|]. right. split; [by eexists|]. split; [split; [done|]; split; [done|]; split; [done|]; cbn; set_solver|].
    cbn. rewrite (decide_ext (h ∈ c :: rest) (h ∈ rest)) by (rewrite elem_of_cons; split; [intros [?|?]; [congruence|done]|tauto]). lia.
  - injection E as <-. right. split; [by exists []; rewrite app_nil_r|]. split; [done|]. cbn. lia.
Qed.

Lemma loop_reaches h n s : waits h s → (distance h s ≤ n)%nat →
  ∃ k l s', (k ≤ n)%nat ∧ async_run (replicate k ALoop) s = Val s' ∧ alog s' = alog s ++ l ∧ Called h ∈ l.
Proof.
  revert s. induction n as [|n IH]; intros s Hw Hn.
  { exfalso. unfold distance, loop_pos in Hn. destruct (loop s); lia. }
  destruct (loop_nearer h s Hw) as (s1 & E & [Hc|((l1 & El) & Hw1 & Hd)]).
  - exists 1%nat, [Called h], s1. cbn [replicate async_run]. rewrite E. split; [lia|]. split; [done|]. split; [done|]. set_solver.
  - destruct (IH s1 Hw1) as (k & l & s' & Hk & Er & El' & Hc); [lia|]. exists (S k), (l1 ++ l), s'. cbn [replicate async_run]. rewrite E.
    split; [lia|]. split; [done|]. rewrite El', El, app_assoc. split; [done|]. set_solver.
Qed.


(** In every interleaving the loop reads the eventfd only when there is a
    counter to read (the assertion of [uv__async_io] holds), the counter stays within
    its range, and there are never more callbacks than sends. *)
Theorem async_never_spurious l : ∃ s, async_run l new_async = Val s ∧ 0 ≤ counter s ≤ EVENTFD_MAX ∧
  ∀ h, (calls h (alog s) ≤ sends h (alog s))%nat.
Proof.
  destruct (async_run_inv l new_async new_async_inv) as (s & E & I). exists s. split; [done|]. split; [apply I|].
  intros h. pose proof (a_calls _ I h). lia.
Qed.

Definition async_demo : list async_act := [AInit 1; AInit 2; ASend 7 2; ASend 8 1; AStep 7; AStep 8; AStep 7; AStep 7; ALoop; ALoop; AStep 8; ALoop; AStep 8].

Definition async_demo_state : async_state :=
  Eval vm_compute in match async_run async_demo new_async with Val s => s | _ => new_async end.


(** ** The queue of handles is not for other threads *)

(** The memory accesses of the queue macros, one by one. *)
Definition queue_op : Type := qheap Z → exec (qheap Z).

Definition insert_tail_ops (h x : Z) : list queue_op :=
  [ (λ H, hp ← get_prev h H; set_prev x hp H);
    (λ H, xp ← get_prev x H; set_next xp x H);
    (λ H, set_next x h H);
    (λ H, set_prev h x H) ].

Definition remove_ops (x : Z) : list queue_op :=
  [ (λ H, xn ← get_next x H; xp ← get_prev x H; set_prev xn xp H);
    (λ H, xp ← get_prev x H; xn ← get_next x H; set_next xp xn H) ].

Fixpoint run_ops (l : list queue_op) (H : qheap Z) : exec (qheap Z) :=
  match l with
  | [] => Val H
  | f :: l => H ← f H; run_ops l H
  end.

Lemma insert_tail_ops_ok h x H : run_ops (insert_tail_ops h x) H = ngx_queue_insert_tail h x H.
Proof.
  unfold insert_tail_ops, ngx_queue_insert_tail. cbn [run_ops]. destruct (get_prev h H); cbn; [|done..]. destruct (set_prev x _ H) as [H1| |]; cbn; [|done..].
  destruct (get_prev x H1); cbn; [|done..]. destruct (set_next _ x H1) as [H2| |]; cbn; [|done..]. destruct (set_next x h H2) as [H3| |]; cbn; [|done..]. by destruct (set_prev h x H3).
Qed.

Lemma remove_ops_ok x H : run_ops (remove_ops x) H = ngx_queue_remove x H.
Proof.
  unfold remove_ops, ngx_queue_remove. cbn [run_ops]. destruct (get_next x H); cbn; [|done..]. destruct (get_prev x H); cbn; [|done..].
  destruct (set_prev _ _ H) as [H1| |]; cbn; [|done..]. destruct (get_prev x H1); cbn; [|done..]. destruct (get_next x H1); cbn; [|done..]. by destruct (set_next _ _ H1).
Qed.

(** [l] is [l1] and [l2] merged. *)
Inductive interleaved {A} : list A → list A → list A → Prop :=
| il_nil : interleaved [] [] []
| il_left a l1 l2 l : interleaved l1 l2 l → interleaved (a :: l1) l2 (a :: l)
| il_right a l1 l2 l : interleaved l1 l2 l → interleaved l1 (a :: l2) (a :: l).

(** A handle inserted behind a tail the head does not lead to. *)
Lemma insert_keeps_head (H H2 : qheap Z) h p z : q_next H !! h = Some h → q_prev H !! h = Some p → p ≠ h → z ≠ h →
  ngx_queue_insert_tail h z H = Val H2 → ngx_queue_head h H2 = Val h.
Proof.
  intros Hn Hp Hph Hzh. unfold ngx_queue_insert_tail, ngx_queue_head, get_prev, get_next, set_prev, set_next. rewrite Hp. cbn.
  destruct (q_prev H !! z) eqn:Ez; cbn; [|done]. rewrite lookup_insert_eq. cbn. destruct (q_next H !! p) eqn:Ep; cbn; [|done].
  destruct (<[p:=z]> (q_next H) !! z) eqn:En; cbn; [|done]. rewrite lookup_insert_ne, Hp by done. cbn. intros [= <-]. cbn.
  rewrite !lookup_insert_ne by done. by rewrite Hn.
Qed.

(** [pc__async_write] calls [uv_async_init] in the application's thread,
    while the loop's thread closes the handle of the previous request. When the two
    meet on [async_handles] the new handle can end up in no walk of the loop: the
    head's [next] skips it and its callback never runs; and every handle that is added
    later is lost with it, so no request is sent any more. *)
Theorem async_init_races_close H h x y : is_queue H h [x] → y ≠ h → y ≠ x → is_Some (q_prev H !! y) → is_Some (q_next H !! y) →
  ∃ ops H', interleaved (insert_tail_ops h y) (remove_ops x) ops ∧ run_ops ops H = Val H' ∧
    ngx_queue_head h H' = Val h ∧
    ∀ z H2, z ≠ h → ngx_queue_insert_tail h z H' = Val H2 → ngx_queue_head h H2 = Val h.
Proof.
  intros [Hnd Hch] Hyh Hyx [py Hpy] [ny Hny]. cbn in Hch. destruct Hch as (N1 & P1 & N2 & P2 & _).
  apply NoDup_cons in Hnd as [Hhx _]. assert (h ≠ x) as Hne by set_solver.
  set (i1 := nth 0 (insert_tail_ops h y) Val). set (i2 := nth 1 (insert_tail_ops h y) Val). set (i3 := nth 2 (insert_tail_ops h y) Val). set (i4 := nth 3 (insert_tail_ops h y) Val).
  set (r1 := nth 0 (remove_ops x) Val). set (r2 := nth 1 (remove_ops x) Val).
  exists [i1; r1; r2; i2; i3; i4]. eexists. split; [|split].
  - change (insert_tail_ops h y) with [i1; i2; i3; i4]. change (remove_ops x) with [r1; r2]. repeat constructor.
  - subst i1 i2 i3 i4 r1 r2. cbn [nth insert_tail_ops remove_ops run_ops]. unfold get_prev, get_next, set_prev, set_next.
    repeat (cbn [q_prev q_next]; first [rewrite lookup_insert_eq | rewrite lookup_insert_ne by done | rewrite Hpy | rewrite Hny | rewrite P1 | rewrite P2 | rewrite N1 | rewrite N2 | rewrite bind_Val]).
    done.
  - assert (∀ H' : qheap Z, q_next H' !! h = Some h → q_prev H' !! h = Some y → ngx_queue_head h H' = Val h ∧
      ∀ z H2, z ≠ h → ngx_queue_insert_tail h z H' = Val H2 → ngx_queue_head h H2 = Val h) as Hlost.
    { intros H' Hn Hp. split; [unfold ngx_queue_head, get_next; by rewrite Hn|]. intros z H2 Hz. by apply (insert_keeps_head H' H2 h y). }
    apply Hlost; cbn [q_prev q_next]; [|by rewrite lookup_insert_eq]. by rewrite !lookup_insert_ne, lookup_insert_eq by done.
Qed.

(** Handle 1 is being closed while handle 2 is added; 0 is the head. *)
Definition race_heap : qheap Z :=
  Eval vm_compute in
  match ngx_queue_insert_tail 0 1 (q_alloc 2 (q_alloc 1 (q_alloc 0 (mkHeap ∅ ∅)))) with Val H => H | _ => mkHeap ∅ ∅ end.

Lemma async_init_races_close_witness :
  ∃ ops H', interleaved (insert_tail_ops 0 2) (remove_ops 1) ops ∧ run_ops ops race_heap = Val H' ∧ ngx_queue_head 0 H' = Val 0.
Proof.
  destruct (async_init_races_close race_heap 0 1 2) as (ops & H' & ? & ? & ? & _).
  - split; [|done]. apply (bool_decide_unpack _). vm_compute. exact I.
  - done.
  - done.
  - by exists 2.
  - by exists 2.
  - by exists ops, H'.
Defined.
