(* ===== verification/UvTimers.v ===== *)
(** * The timers of the event loop ([src/deps/uv/src/unix/timer.c])

    [Uv.v] has one timer as its owner sees it. Here are all timers of a loop with the
    clock: the tree they are kept in, which [uv__run_timers] takes from in order, and
    the time the loop may sleep. The red-black tree of [tree.h] is its list of
    elements in order. *)

From Stdlib Require Import Sorting.Sorted.
From S2P Require Import Prelude Uv.
Local Open Scope Z_scope.

(** ** The state *)

(** [active] is [uv__is_active]. *)
Record timer := mkT {
  has_cb : bool;
  active : bool;
  timeout : Z;
  repeat : Z;
  start_id : Z
}.

Definition init_timer : timer := mkT false false 0 0 0.

(** The callbacks so far: the timer, its timeout and start id, and the clock. *)
Record fired := mkFired { f_timer : Z; f_timeout : Z; f_start : Z; f_time : Z }.

Record uv_loop := mkLoop {
  time : Z;
  timer_counter : Z;
  timers : gmap Z timer;
  timer_handles : list Z;
  tlog : list fired
}.

Definition tm (i : Z) (l : uv_loop) : timer := default init_timer (timers l !! i).

Definition set_timer (i : Z) (t : timer) (l : uv_loop) : uv_loop :=
  mkLoop (time l) (timer_counter l) (<[i := t]> (timers l)) (timer_handles l) (tlog l).
Definition set_tree (h : list Z) (l : uv_loop) : uv_loop := mkLoop (time l) (timer_counter l) (timers l) h (tlog l).
Definition set_time (n : Z) (l : uv_loop) : uv_loop := mkLoop n (timer_counter l) (timers l) (timer_handles l) (tlog l).

(** ** The tree *)

Definition uv__timer_cmp (a b : timer) : Z :=
  if timeout a <? timeout b then -1
  else if timeout b <? timeout a then 1
  else if start_id a <? start_id b then -1
  else if start_id b <? start_id a then 1
  else 0.

(** An element equal to one of the tree is not inserted. *)
Fixpoint rb_insert (key : Z → timer) (i : Z) (h : list Z) : list Z :=
  match h with
  | [] => [i]
  | j :: h =>
      let comp := uv__timer_cmp (key i) (key j) in
      if comp <? 0 then i :: j :: h
      else if 0 <? comp then j :: rb_insert key i h
      else j :: h
  end.

Definition rb_remove (i : Z) (h : list Z) : list Z := filter (λ j, j ≠ i) h.

Definition rb_min (h : list Z) : option Z := head h.

(** ** Operations *)

Definition timer_stop (i : Z) (l : uv_loop) : uv_loop :=
  let t := tm i l in
  if negb (active t) then l
  else set_timer i (mkT (has_cb t) false (timeout t) (repeat t) (start_id t)) (set_tree (rb_remove i (timer_handles l)) l).

(** [None]: 2^64 timers were started. *)
Definition timer_start (i after rep : Z) (l : uv_loop) : option uv_loop :=
  let l := if active (tm i l) then timer_stop i l else l in
  let clamped_timeout := u64 (time l + u64 after) in
  let clamped_timeout := if clamped_timeout <? u64 after then 2 ^ 64 - 1 else clamped_timeout in
  let t := mkT true true clamped_timeout (u64 rep) (timer_counter l) in
  if timer_counter l =? 2 ^ 64 - 1 then None
  else
    let timers' := <[i := t]> (timers l) in
    let key j := default init_timer (timers' !! j) in
    Some (mkLoop (time l) (timer_counter l + 1) timers' (rb_insert key i (timer_handles l)) (tlog l)).

Definition timer_again (i : Z) (l : uv_loop) : option uv_loop :=
  let t := tm i l in
  if negb (has_cb t) then Some l
  else if negb (repeat t =? 0) then timer_start i (repeat t) (repeat t) (timer_stop i l)
  else Some l.

Definition timer_set_repeat (i rep : Z) (l : uv_loop) : uv_loop :=
  let t := tm i l in set_timer i (mkT (has_cb t) (active t) (timeout t) (u64 rep) (start_id t)) l.

Definition uv__next_timeout (l : uv_loop) : Z :=
  match rb_min (timer_handles l) with
  | None => -1
  | Some i =>
      let t := tm i l in
      if timeout t <=? time l then 0
      else
        let diff := u64 (timeout t - time l) in
        if INT_MAX <? diff then INT_MAX else diff
  end.

(** ** The loop over the timers that are due *)

Inductive timer_call :=
| TStart (i after rep : Z)
| TStop (i : Z)
| TAgain (i : Z)
| TRepeat (i rep : Z).

Definition timer_do (c : timer_call) (l : uv_loop) : option uv_loop :=
  match c with
  | TStart i after rep => timer_start i after rep l
  | TStop i => Some (timer_stop i l)
  | TAgain i => timer_again i l
  | TRepeat i rep => Some (timer_set_repeat i rep l)
  end.

Fixpoint timer_dos (cs : list timer_call) (l : uv_loop) : option uv_loop :=
  match cs with
  | [] => Some l
  | c :: cs => l ← timer_do c l; timer_dos cs l
  end.

Definition fire (i : Z) (t : timer) (l : uv_loop) : uv_loop :=
  mkLoop (time l) (timer_counter l) (timers l) (timer_handles l) (tlog l ++ [mkFired i (timeout t) (start_id t) (time l)]).

(** The user answers a callback with calls. *)
Fixpoint uv__run_timers (user : list fired → list timer_call) (fuel : nat) (l : uv_loop) : exec (option uv_loop) :=
  match fuel with
  | O => NoFuel
  | S fuel =>
      match rb_min (timer_handles l) with
      | None => Val (Some l)
      | Some i =>
          let t := tm i l in
          if time l <? timeout t then Val (Some l)
          else
            match timer_again i (timer_stop i l) with
            | None => Val None
            | Some l =>
                if negb (has_cb (tm i l)) then UB
                else
                  let l := fire i t l in
                  match timer_dos (user (tlog l)) l with
                  | None => Val None
                  | Some l => uv__run_timers user fuel l
                  end
            end
      end
  end.

Definition new_loop (now : Z) : uv_loop := mkLoop now 0 ∅ [] [].

(** A repeating timer and two that are due together, in the order they were started. *)
Example timers_example :
  match timer_dos [TStart 1 20 0; TStart 2 10 10; TStart 3 20 0] (new_loop 100) with
  | Some l =>
      match uv__run_timers (λ _, []) 9 (set_time 125 l) with
      | Val (Some l) => (map f_timer (tlog l), timer_handles l, uv__next_timeout l)
      | _ => ([], [], 0)
      end
  | None => ([], [], 0)
  end = ([2; 1; 3], [2], 10).
Proof. vm_compute. reflexivity. Qed.

(** ** The order of the tree *)

Definition key_lt (a b : timer) : Prop :=
  timeout a < timeout b ∨ timeout a = timeout b ∧ start_id a < start_id b.

Lemma cmp_lt a b : (uv__timer_cmp a b <? 0) = true ↔ key_lt a b.
Proof. unfold uv__timer_cmp, key_lt. repeat case_match; blia. Qed.

Lemma cmp_gt a b : (0 <? uv__timer_cmp a b) = true ↔ key_lt b a.
Proof. unfold uv__timer_cmp, key_lt. repeat case_match; blia. Qed.

Lemma key_total a b : start_id a ≠ start_id b → key_lt a b ∨ key_lt b a.
Proof. unfold key_lt. lia. Qed.

Lemma key_trans a b c : key_lt a b → key_lt b c → key_lt a c.
Proof. unfold key_lt. lia. Qed.

Definition ordered (key : Z → timer) (h : list Z) : Prop := StronglySorted (λ i j, key_lt (key i) (key j)) h.

Lemma ordered_keys key key' h : (∀ i, i ∈ h → timeout (key' i) = timeout (key i) ∧ start_id (key' i) = start_id (key i)) → ordered key h → ordered key' h.
Proof.
  unfold ordered. intros E Hs. induction Hs as [|i h Hs IH Hf]; [constructor|]. constructor; [apply IH; set_solver|].
  rewrite Forall_forall in *. intros j Hj. destruct (E i), (E j); [set_solver..|]. specialize (Hf j Hj). unfold key_lt in *. lia.
Qed.

Lemma ordered_ext key key' h : (∀ i, i ∈ h → key' i = key i) → ordered key h → ordered key' h.
Proof. intros E. apply ordered_keys. intros i Hi. by rewrite E. Qed.

Lemma rb_insert_elem key i h j : (∀ x, x ∈ h → start_id (key x) ≠ start_id (key i)) → j ∈ rb_insert key i h ↔ j = i ∨ j ∈ h.
Proof.
  induction h as [|x h IH]; intros Hne; cbn; [set_solver|]. destruct (_ <? 0) eqn:E1; [set_solver|].
  destruct (0 <? _) eqn:E2; [rewrite elem_of_cons, IH by set_solver; set_solver|]. exfalso.
  destruct (key_total (key i) (key x)) as [H|H]; [intros E; by apply (Hne x); [set_solver|]|apply cmp_lt in H; congruence|apply cmp_gt in H; congruence].
Qed.

Lemma rb_insert_ordered key i h : (∀ x, x ∈ h → start_id (key x) ≠ start_id (key i)) → ordered key h → ordered key (rb_insert key i h).
Proof.
  unfold ordered. intros Hne Hs. induction Hs as [|x h Hs IH Hf]; cbn; [by repeat constructor|].
  destruct (_ <? 0) eqn:E1.
  - apply cmp_lt in E1. constructor; [by constructor|]. constructor; [done|]. eapply Forall_impl; [exact Hf|]. intros y Hy. by eapply key_trans.
  - destruct (0 <? _) eqn:E2; [|by constructor]. apply cmp_gt in E2. constructor; [apply IH; set_solver|].
    apply Forall_forall. intros y [->|Hy]%rb_insert_elem; [done| |set_solver]. rewrite Forall_forall in Hf. by apply Hf.
Qed.

Lemma rb_remove_ordered key i h : ordered key h → ordered key (rb_remove i h).
Proof.
  unfold ordered, rb_remove. intros Hs. induction Hs as [|x h Hs IH Hf]; [constructor|]. rewrite filter_cons. case_decide; [|done].
  constructor; [done|]. rewrite Forall_forall in *. intros y [_ Hy]%list_elem_of_filter. by apply Hf.
Qed.

(** ** The invariant *)

Record tinv (l : uv_loop) : Prop := {
  t_time : 0 ≤ time l < 2 ^ 64;
  t_counter : 0 ≤ timer_counter l < 2 ^ 64;
  t_ordered : ordered (λ i, tm i l) (timer_handles l);
  t_active : ∀ i, i ∈ timer_handles l ↔ active (tm i l) = true;
  t_ids : ∀ i, i ∈ timer_handles l → start_id (tm i l) < timer_counter l;
  t_cb : ∀ i, active (tm i l) = true → has_cb (tm i l) = true;
  t_range : ∀ i, 0 ≤ timeout (tm i l) < 2 ^ 64 ∧ 0 ≤ repeat (tm i l) < 2 ^ 64
}.

Lemma tm_set i t l j : tm j (set_timer i t l) = if decide (i = j) then t else tm j l.
Proof. unfold tm, set_timer. cbn. case_decide; [subst; by rewrite lookup_insert_eq|by rewrite lookup_insert_ne]. Qed.

Lemma stop_inv i l : tinv l → tinv (timer_stop i l).
Proof.
  intros [T1 T2 T3 T4 T5 T6 T7]. unfold timer_stop. destruct (active (tm i l)) eqn:Ea; cbn [negb]; [|by split].
  assert (∀ j, j ∈ rb_remove i (timer_handles l) → i ≠ j ∧ j ∈ timer_handles l) as Hr by (intros j [? ?]%list_elem_of_filter; by split).
  split; try done.
  - eapply ordered_ext; [|apply rb_remove_ordered, T3]. intros j Hj. rewrite tm_set, decide_False by (by apply Hr). done.
  - intros j. rewrite tm_set. case_decide as E; [subst; cbn|].
    + split; [|done]. by intros [? _]%Hr.
    + trans (j ∈ timer_handles l); [|apply T4]. split; [by intros [_ ?]%Hr|]. intros Hj. apply list_elem_of_filter. by split.
  - intros j Hj. rewrite tm_set, decide_False by (by apply Hr). apply T5. by apply Hr.
  - intros j. rewrite tm_set. case_decide; [done|]. apply T6.
  - intros j. rewrite tm_set. case_decide; [|apply T7]. apply T7.
Qed.

Lemma stop_tm i l j : tm j (timer_stop i l) = if decide (i = j) then mkT (has_cb (tm j l)) false (timeout (tm j l)) (repeat (tm j l)) (start_id (tm j l)) else tm j l.
Proof.
  unfold timer_stop. destruct (active (tm i l)) eqn:Ea; cbn [negb].
  - rewrite tm_set. case_decide; by subst.
  - case_decide; [|done]. subst. destruct (tm j l). cbn in *. by subst.
Qed.

Lemma stop_same i l : time (timer_stop i l) = time l ∧ timer_counter (timer_stop i l) = timer_counter l ∧ tlog (timer_stop i l) = tlog l.
Proof. unfold timer_stop. by destruct (negb _). Qed.

Lemma stop_elem i l j : tinv l → j ∈ timer_handles (timer_stop i l) ↔ j ≠ i ∧ j ∈ timer_handles l.
Proof.
  intros T. rewrite (t_active _ (stop_inv i l T)), stop_tm, (t_active _ T). case_decide; cbn; [naive_solver|]. split; [by split|by intros [_ ?]].
Qed.

(** The clock plus a delay, clamped. *)
Lemma clamped_range now after : 0 ≤ now < 2 ^ 64 → ∃ c,
  (if u64 (now + u64 after) <? u64 after then 2 ^ 64 - 1 else u64 (now + u64 after)) = c ∧ now ≤ c < 2 ^ 64 ∧
  (0 < u64 after → now < 2 ^ 64 - 1 → now < c) ∧ (now + u64 after < 2 ^ 64 → c = now + u64 after).
Proof.
  intros Hn. eexists. split; [done|]. pose proof (wrap_range 64 after ltac:(lia)) as Ha. set (a := u64 after) in *. unfold is_u in Ha.
  destruct (decide (now + a < 2 ^ 64)) as [Hs|Hs].
  - rewrite wrap_small by (unfold is_u; lia). destruct (_ <? _) eqn:E; blia.
  - assert (u64 (now + a) = now + a - 2 ^ 64) as -> by (unfold wrap; symmetry; apply (Z.mod_unique _ _ 1); lia). rewrite (proj2 (Z.ltb_lt _ _)) by lia. lia.
Qed.

(** What a start does. *)
Record started (i after rep : Z) (l l' : uv_loop) : Prop := {
  st_inv : tinv l';
  st_time : time l' = time l;
  st_log : tlog l' = tlog l;
  st_counter : timer_counter l' = timer_counter l + 1;
  st_other : ∀ j, j ≠ i → tm j l' = tm j l;
  st_self : ∃ c, tm i l' = mkT true true c (u64 rep) (timer_counter l) ∧ time l ≤ c ∧
    (0 < u64 after → time l < 2 ^ 64 - 1 → time l < c) ∧ (time l + u64 after < 2 ^ 64 → c = time l + u64 after)
}.

(** The timer is not in the tree. *)
Lemma insert_inv i t l : tinv l → i ∉ timer_handles l → has_cb t = true → active t = true → start_id t = timer_counter l →
  timer_counter l ≠ 2 ^ 64 - 1 → 0 ≤ timeout t < 2 ^ 64 → 0 ≤ repeat t < 2 ^ 64 →
  tinv (mkLoop (time l) (timer_counter l + 1) (<[i := t]> (timers l)) (rb_insert (λ j, default init_timer (<[i := t]> (timers l) !! j)) i (timer_handles l)) (tlog l)).
Proof.
  intros [T1 T2 T3 T4 T5 T6 T7] Hi Hcb Ha Hid Hc Ht Hr. set (key := λ j, default init_timer (<[i := t]> (timers l) !! j)).
  assert (key i = t) as Hki by (unfold key; by rewrite lookup_insert_eq).
  assert (∀ j, j ≠ i → key j = tm j l) as Hkj by (intros j Hj; unfold key; by rewrite lookup_insert_ne).
  assert (∀ j, j ∈ timer_handles l → j ≠ i) as Hne by (by intros j Hj ->).
  assert (∀ x, x ∈ timer_handles l → start_id (key x) ≠ start_id (key i)) as Hids.
  { intros x Hx. rewrite Hki, Hkj by auto. specialize (T5 x Hx). lia. }
  split; cbn.
  - done.
  - lia.
  - apply rb_insert_ordered; [done|]. eapply ordered_ext, T3. intros j Hj. apply Hkj. auto.
  - intros j. change (tm j _) with (key j). rewrite (rb_insert_elem key) by done. destruct (decide (j = i)) as [->|Hj]; [rewrite Hki; tauto|]. rewrite Hkj by done. rewrite T4. tauto.
  - intros j. change (tm j _) with (key j). intros [->|Hj]%(rb_insert_elem key); [rewrite Hki; lia|rewrite Hkj by auto; specialize (T5 j Hj); lia|done].
  - intros j. change (tm j _) with (key j). destruct (decide (j = i)) as [->|Hj]; [by rewrite Hki|]. rewrite Hkj by done. apply T6.
  - intros j. change (tm j _) with (key j). destruct (decide (j = i)) as [->|Hj]; [by rewrite Hki|]. rewrite Hkj by done. apply T7.
Qed.

Lemma timer_start_ok i after rep l l' : timer_start i after rep l = Some l' → tinv l → started i after rep l l'.
Proof.
  unfold timer_start. set (l1 := if active (tm i l) then timer_stop i l else l). intros E T.
  assert (tinv l1) as T1 by (unfold l1; destruct (active _); [by apply stop_inv|done]).
  assert (time l1 = time l ∧ timer_counter l1 = timer_counter l ∧ tlog l1 = tlog l) as (E1 & E2 & E3) by (unfold l1; destruct (active _); [apply stop_same|done]).
  assert (∀ j, j ≠ i → tm j l1 = tm j l) as Ho by (intros j Hj; unfold l1; destruct (active _); [by rewrite stop_tm, decide_False|done]).
  assert (i ∉ timer_handles l1) as Hi.
  { rewrite (t_active _ T1). unfold l1. destruct (active (tm i l)) eqn:Ea; [by rewrite stop_tm, decide_True|by rewrite Ea]. }
  destruct (timer_counter l1 =? 2 ^ 64 - 1) eqn:Ec; [done|]. injection E as <-.
  destruct (clamped_range (time l1) after (t_time _ T1)) as (c & Ecl & Hc1 & Hc2 & Hc3). rewrite Ecl. pose proof (t_time _ T1).
  assert (is_u 64 (u64 rep)) as Hr by (by apply wrap_range). split; cbn; try done; try lia.
  - apply insert_inv; try done; [blia|cbn; lia].
  - intros j Hj. unfold tm at 1. cbn. rewrite lookup_insert_ne by done. by apply Ho.
  - exists c. rewrite <- E1, <- E2. unfold tm. cbn. rewrite lookup_insert_eq. split; [done|]. split; [lia|done].
Qed.

Lemma again_ok i l l' : timer_again i l = Some l' → tinv l →
  l' = l ∧ (has_cb (tm i l) = false ∨ repeat (tm i l) = 0) ∨
  has_cb (tm i l) = true ∧ 0 < repeat (tm i l) ∧ started i (repeat (tm i l)) (repeat (tm i l)) (timer_stop i l) l'.
Proof.
  unfold timer_again. intros E T. destruct (has_cb (tm i l)) eqn:Eh; cbn [negb] in E; [|injection E as <-; by left; split; [|left]].
  destruct (repeat (tm i l) =? 0) eqn:Er; cbn [negb] in E; [injection E as <-; left; split; [done|right; blia]|].
  right. split; [done|]. pose proof (t_range _ T i). split; [blia|]. apply timer_start_ok; [done|by apply stop_inv].
Qed.

Lemma set_repeat_tm i rep l j : tinv l → ∃ r, tm j (timer_set_repeat i rep l) =
  mkT (has_cb (tm j l)) (active (tm j l)) (timeout (tm j l)) r (start_id (tm j l)) ∧ 0 ≤ r < 2 ^ 64.
Proof.
  intros T. unfold timer_set_repeat. rewrite tm_set. case_decide; subst; [exists (u64 rep)|exists (repeat (tm j l))].
  - split; [done|by apply (wrap_range 64)].
  - split; [by destruct (tm j l)|apply (t_range _ T)].
Qed.

Lemma set_repeat_inv i rep l : tinv l → tinv (timer_set_repeat i rep l).
Proof.
  intros T. pose proof (λ j, set_repeat_tm i rep l j T) as Hk. destruct T as [T1 T2 T3 T4 T5 T6 T7]. split; try done.
  - eapply ordered_keys, T3. intros j _. by destruct (Hk j) as (r & -> & _).
  - intros j. destruct (Hk j) as (r & -> & _). apply T4.
  - intros j. destruct (Hk j) as (r & -> & _). apply T5.
  - intros j. destruct (Hk j) as (r & -> & _). apply T6.
  - intros j. destruct (Hk j) as (r & -> & Hr). split; [apply T7|done].
Qed.

(** ** Runs *)

(** All timers of the tree are later than a timeout and start id that have been
    served. *)
Definition above (k : timer) (l : uv_loop) : Prop :=
  timeout k ≤ time l ∧ start_id k < timer_counter l ∧ ∀ j, j ∈ timer_handles l → key_lt k (tm j l).

(** What the calls of a callback keep. *)
Definition follows (l l' : uv_loop) : Prop :=
  time l' = time l ∧ tlog l' = tlog l ∧ (∀ k, above k l → above k l').

Lemma follows_trans l1 l2 l3 : follows l1 l2 → follows l2 l3 → follows l1 l3.
Proof. intros (E1 & E2 & H1) (E3 & E4 & H2). split; [congruence|]. split; [congruence|]. auto. Qed.

Lemma stop_follows i l : tinv l → follows l (timer_stop i l).
Proof.
  intros T. destruct (stop_same i l) as (E1 & E2 & E3). split; [done|]. split; [done|]. intros k (H1 & H2 & H3). unfold above. rewrite E1, E2.
  split; [done|]. split; [done|]. intros j [Hne Hj]%(stop_elem i l j T). rewrite stop_tm, decide_False by done. by apply H3.
Qed.

Lemma started_follows i after rep l l' : tinv l → started i after rep l l' → follows l l'.
Proof.
  intros T [S1 S2 S3 S4 S5 (c & S6 & S7 & _)]. split; [done|]. split; [done|]. intros k (H1 & H2 & H3). unfold above. rewrite S2, S4.
  split; [done|]. split; [lia|]. intros j Hj. destruct (decide (j = i)) as [->|Hne].
  - rewrite S6. unfold key_lt. cbn. lia.
  - rewrite S5 by done. apply H3. rewrite (t_active _ T), <- S5 by done. by apply (t_active _ S1).
Qed.

Lemma again_follows i l l' : timer_again i l = Some l' → tinv l → tinv l' ∧ follows l l'.
Proof.
  intros E T. destruct (again_ok i l l' E T) as [[-> _]|(_ & _ & S)]; [done|]. split; [apply S|].
  eapply follows_trans; [by apply (stop_follows i)|]. eapply started_follows, S. by apply stop_inv.
Qed.

Lemma do_follows c l l' : timer_do c l = Some l' → tinv l → tinv l' ∧ follows l l'.
Proof.
  destruct c as [i after rep|i|i|i rep]; cbn [timer_do]; intros E T.
  - pose proof (timer_start_ok _ _ _ _ _ E T) as S. split; [apply S|by eapply started_follows].
  - injection E as <-. split; [by apply stop_inv|by apply stop_follows].
  - by apply (again_follows i).
  - injection E as <-. split; [by apply set_repeat_inv|]. split; [done|]. split; [done|]. intros k (H1 & H2 & H3). split; [done|]. split; [done|].
    intros j Hj. destruct (set_repeat_tm i rep l j T) as (r & -> & _). by apply H3.
Qed.

Lemma dos_follows cs l l' : timer_dos cs l = Some l' → tinv l → tinv l' ∧ follows l l'.
Proof.
  revert l. induction cs as [|c cs IH]; cbn [timer_dos]; intros l E T; [by injection E as <-|].
  destruct (timer_do c l) as [l1|] eqn:E1; [|done]. destruct (do_follows _ _ _ E1 T) as [T1 F1]. destruct (IH l1 E T1) as [T2 F2].
  split; [done|by eapply follows_trans].
Qed.

(** One round: the first timer is due, is stopped, starts again if it repeats, and is
    called. *)
Lemma round_ok i h l l1 : tinv l → timer_handles l = i :: h → timeout (tm i l) ≤ time l → timer_again i (timer_stop i l) = Some l1 →
  has_cb (tm i l1) = true ∧ tinv l1 ∧ time l1 = time l ∧ tlog l1 = tlog l ∧ above (tm i l) l1.
Proof.
  intros T Eh Hd E. pose proof (stop_inv i l T) as Ts. destruct (stop_same i l) as (E1 & E2 & E3).
  assert (i ∈ timer_handles l) as Hi by (rewrite Eh; set_solver). pose proof (t_cb _ T i (proj1 (t_active _ T i) Hi)) as Hcb.
  destruct (again_follows _ _ _ E Ts) as (T1 & F1 & F2 & F3). split; [|split; [done|split; [congruence|split; [congruence|]]]].
  - destruct (again_ok _ _ _ E Ts) as [[-> _]|(_ & _ & [_ _ _ _ _ (c & -> & _)])]; [|done]. by rewrite stop_tm, decide_True.
  - apply F3. unfold above. rewrite E1, E2. split; [done|]. split; [by apply (t_ids _ T)|]. intros j [Hne Hj]%(stop_elem i l j T).
    rewrite stop_tm, decide_False by done. pose proof (t_ordered _ T) as Ho. unfold ordered in Ho. rewrite Eh in Ho, Hj.
    apply StronglySorted_inv in Ho as [_ Hf]. rewrite Forall_forall in Hf. apply Hf. set_solver.
Qed.

(** The two loops have timer [j] started by the same call. *)
Definition same_start (j : Z) (l l' : uv_loop) : Prop :=
  active (tm j l') = active (tm j l) ∧ timeout (tm j l') = timeout (tm j l) ∧ start_id (tm j l') = start_id (tm j l).

(** The timers that are active were started before, or now. *)
Definition grows (l l' : uv_loop) : Prop :=
  timer_counter l ≤ timer_counter l' ∧
  ∀ j, active (tm j l') = true → same_start j l l' ∨ timer_counter l ≤ start_id (tm j l').

Lemma same_start_trans j l1 l2 l3 : same_start j l1 l2 → same_start j l2 l3 → same_start j l1 l3.
Proof. intros (? & ? & ?) (? & ? & ?). repeat split; congruence. Qed.

Lemma grows_trans l1 l2 l3 : grows l1 l2 → grows l2 l3 → grows l1 l3.
Proof.
  intros (C1 & H1) (C2 & H2). split; [lia|]. intros j Hj. destruct (H2 j Hj) as [S2|S2]; [|right; lia].
  pose proof S2 as (A & _ & E). destruct (H1 j ltac:(congruence)) as [S1|S1]; [left; by eapply same_start_trans|right; lia].
Qed.

Lemma stop_grows i l : grows l (timer_stop i l).
Proof.
  destruct (stop_same i l) as (_ & E & _). split; [lia|]. intros j. rewrite stop_tm. case_decide as Ej; [done|]. intros _. left.
  unfold same_start. by rewrite stop_tm, decide_False.
Qed.

Lemma started_grows i after rep l l' : started i after rep l l' → grows l l'.
Proof.
  intros [_ _ _ S4 S5 (c & S6 & _)]. split; [lia|]. intros j _. destruct (decide (j = i)) as [->|Hne]; [right; rewrite S6; cbn; lia|].
  left. unfold same_start. by rewrite S5.
Qed.

Lemma again_grows i l l' : timer_again i l = Some l' → tinv l → grows l l' ∧ ∀ j, j ≠ i → same_start j l l'.
Proof.
  intros E T. destruct (again_ok i l l' E T) as [[-> _]|(_ & _ & S)]; [by split; [split; [|left]|]|]. split.
  - eapply grows_trans; [apply (stop_grows i)|by eapply started_grows].
  - intros j Hj. unfold same_start. by rewrite (st_other _ _ _ _ _ S), stop_tm, decide_False.
Qed.

(** The call starts or stops the timer. *)
Definition touches (i : Z) (c : timer_call) : Prop :=
  match c with TStart j _ _ | TStop j | TAgain j => j = i | TRepeat _ _ => False end.

#[export] Instance touches_dec i c : Decision (touches i c).
Proof. destruct c; cbn; apply _. Defined.

Lemma do_grows c l l' : timer_do c l = Some l' → tinv l → grows l l' ∧ ∀ j, ¬ touches j c → same_start j l l'.
Proof.
  destruct c as [i after rep|i|i|i rep]; cbn [timer_do touches]; intros E T.
  - pose proof (timer_start_ok _ _ _ _ _ E T) as S. split; [by eapply started_grows|]. intros j Hj. unfold same_start. by rewrite (st_other _ _ _ _ _ S).
  - injection E as <-. split; [apply stop_grows|]. intros j Hj. unfold same_start. by rewrite stop_tm, decide_False.
  - destruct (again_grows i l l' E T) as (H1 & H2). split; [done|]. intros j Hj. by apply H2.
  - injection E as <-. assert (∀ j, same_start j l (timer_set_repeat i rep l)) as H.
    { intros j. unfold same_start. by destruct (set_repeat_tm i rep l j T) as (r & -> & _). }
    split; [split; [done|]|]; by auto.
Qed.

Lemma dos_grows cs l l' : timer_dos cs l = Some l' → tinv l → grows l l' ∧ ∀ j, Forall (λ c, ¬ touches j c) cs → same_start j l l'.
Proof.
  revert l. induction cs as [|c cs IH]; cbn [timer_dos]; intros l E T; [injection E as <-; by split; [split; [|left]|]|].
  destruct (timer_do c l) as [l1|] eqn:E1; [|done]. destruct (do_follows _ _ _ E1 T) as [T1 _].
  destruct (do_grows _ _ _ E1 T) as (G1 & H1). destruct (IH l1 E T1) as (G2 & H2). split; [by eapply grows_trans|].
  intros j [Hc Hcs]%Forall_cons. eapply same_start_trans; eauto.
Qed.

Definition fkey (f : fired) : timer := mkT true true (f_timeout f) 0 (f_start f).

(** The callback of timer [i], for the start it has in [l]. *)
Definition call_of (i : Z) (l : uv_loop) : fired := mkFired i (timeout (tm i l)) (start_id (tm i l)) (time l).

(** A callback among [fs] starts or stops timer [i]; the callbacks before were [log]. *)
Definition touched (user : list fired → list timer_call) (i : Z) (log fs : list fired) : Prop :=
  ∃ fs1 f fs2 c, fs = fs1 ++ f :: fs2 ∧ c ∈ user (log ++ fs1 ++ [f]) ∧ touches i c.

Definition is_due (l : uv_loop) (i : Z) : Prop := i ∈ timer_handles l ∧ timeout (tm i l) ≤ time l.

(** Between events all timers are in order, in the future, and served in order. *)
Record served (user : list fired → list timer_call) (l : uv_loop) (fs : list fired) (l' : uv_loop) : Prop := {
  sv_inv : tinv l';
  sv_time : time l' = time l;
  sv_log : tlog l' = tlog l ++ fs;
  sv_sorted : StronglySorted (λ a b, key_lt (fkey a) (fkey b)) fs;
  sv_due : Forall (λ f, f_timeout f ≤ f_time f ∧ f_time f = time l) fs;
  sv_above : ∀ k, above k l → Forall (λ f, key_lt k (fkey f)) fs;
  sv_left : ∀ i, active (tm i l') = true → time l < timeout (tm i l');
  sv_all : ∀ i, is_due l i → call_of i l ∈ fs ∨ touched user i (tlog l) fs;
  sv_from : Forall (λ f, (active (tm (f_timer f) l) = true ∧ f = call_of (f_timer f) l) ∨ timer_counter l ≤ f_start f) fs
}.

Lemma fire_inv i t l : tinv l → tinv (fire i t l).
Proof. intros [T1 T2 T3 T4 T5 T6 T7]. by split. Qed.

(** The tree is empty, or its first timer is in the future. *)
Lemma served_none user l : tinv l → (∀ i, i ∈ timer_handles l → time l < timeout (tm i l)) → served user l [] l.
Proof.
  intros T H. split; try done; [by rewrite app_nil_r|constructor| |].
  - intros i Hi%(t_active _ T). by apply H.
  - intros i [Hi Hd]. specialize (H i Hi). lia.
Qed.

(** One callback, then the others. *)
Lemma served_cons user i h l l1 l2 fs l' : tinv l → timer_handles l = i :: h → timeout (tm i l) ≤ time l →
  timer_again i (timer_stop i l) = Some l1 →
  timer_dos (user (tlog l ++ [call_of i l])) (fire i (tm i l) l1) = Some l2 → served user l2 fs l' →
  served user l (call_of i l :: fs) l'.
Proof.
  intros T Eh Hd E1 E2 [S1 S2 S3 S4 S5 S6 S7 S8 S9]. destruct (round_ok i h l l1 T Eh Hd E1) as (Hcb & T1 & F1 & F2 & F3).
  pose proof (fire_inv i (tm i l) l1 T1) as T1'. destruct (dos_follows _ _ _ E2 T1') as (T2 & G1 & G2 & G3). cbn in G1, G2.
  destruct (again_grows _ _ _ E1 (stop_inv i l T)) as (R1 & R2). destruct (dos_grows _ _ _ E2 T1') as (R3 & R4).
  assert (grows l l2) as R by (eapply grows_trans; [apply (stop_grows i)|eapply grows_trans; [exact R1|exact R3]]).
  assert (tlog l2 = tlog l ++ [call_of i l]) as EL by (rewrite G2, F2; unfold call_of; by rewrite F1).
  assert (∀ j, same_start j l l2 → call_of j l2 = call_of j l) as HC.
  { intros j (_ & C2 & C3). unfold call_of. rewrite C2, C3. f_equal. congruence. }
  split; try done.
  - congruence.
  - rewrite S3, EL, <- app_assoc. done.
  - constructor; [done|]. apply (S6 (tm i l)). by apply G3.
  - constructor; [done|]. eapply Forall_impl; [exact S5|]. cbn. intros f [? ?]. split; congruence.
  - intros k Hk. destruct Hk as (K1 & K2 & K3). assert (key_lt k (tm i l)) as Hlt by (apply K3; rewrite Eh; set_solver). constructor; [done|].
    assert (Forall (λ f, key_lt (tm i l) (fkey f)) fs) as Hf by (apply (S6 (tm i l)); by apply G3).
    eapply Forall_impl; [exact Hf|]. cbn. intros f Hlf. by eapply key_trans.
  - intros j Hj. specialize (S7 j Hj). lia.
  - intros j [Hj Hjd]. destruct (decide (j = i)) as [->|Hne]; [left; set_solver|].
    destruct (decide (Exists (touches j) (user (tlog l ++ [call_of i l])))) as [Ht|Ht].
    + right. apply Exists_exists in Ht as (c & Hc & Ht). by exists [], (call_of i l), fs, c.
    + apply not_Exists_Forall in Ht; [|apply _]. assert (same_start j l l2) as Hs.
      { eapply same_start_trans; [|by apply R4]. eapply (same_start_trans _ _ (timer_stop i l)); [|by apply R2].
        unfold same_start. by rewrite stop_tm, decide_False. }
      assert (is_due l2 j) as Hj2.
      { pose proof Hs as (A & B & _). split; [|rewrite B; lia]. apply (t_active _ T2). rewrite A. by apply (t_active _ T). }
      destruct (S8 j Hj2) as [Hin|(fs1 & f & fs2 & c & -> & Hc & Htc)]; [left; rewrite HC in Hin by done; set_solver|].
      right. exists (call_of i l :: fs1), f, fs2, c. split; [done|]. split; [|done]. rewrite EL, <- app_assoc in Hc. done.
  - constructor; [left; split; [apply (t_active _ T); rewrite Eh; set_solver|done]|]. eapply Forall_impl; [exact S9|]. cbn. intros f [[Ha Ef]|Hf].
    + destruct R as (_ & R). destruct (R _ Ha) as [Hs|Hn]; [left|right].
      * pose proof Hs as (A & _). split; [congruence|]. rewrite Ef at 1. by apply HC.
      * rewrite Ef. done.
    + right. destruct R as (R & _). lia.
Qed.

Lemma first_later i h l : tinv l → timer_handles l = i :: h → time l < timeout (tm i l) → ∀ j, j ∈ timer_handles l → time l < timeout (tm j l).
Proof.
  intros T Eh Ht j. pose proof (t_ordered _ T) as Ho. unfold ordered in Ho. rewrite Eh in Ho |- *.
  apply StronglySorted_inv in Ho as [_ Hf]. rewrite Forall_forall in Hf. intros [->|Hj]%elem_of_cons; [done|]. specialize (Hf j Hj). unfold key_lt in Hf. lia.
Qed.

Lemma run_served user fuel l o : tinv l → uv__run_timers user fuel l = Val o →
  match o with Some l' => ∃ fs, served user l fs l' | None => True end.
Proof.
  revert l. induction fuel as [|fuel IH]; intros l T; cbn [uv__run_timers]; [done|].
  destruct (timer_handles l) as [|i h] eqn:Eh; cbn [rb_min head].
  { intros [= <-]. exists []. apply served_none; [done|]. rewrite Eh. by intros i ?%not_elem_of_nil. }
  destruct (time l <? timeout (tm i l)) eqn:Et.
  { intros [= <-]. exists []. apply served_none; [done|]. eapply first_later; [done..|blia]. }
  destruct (timer_again i (timer_stop i l)) as [l1|] eqn:E1; [|by intros [= <-]].
  destruct (round_ok i h l l1 T Eh ltac:(blia) E1) as (Hcb & T1 & F1 & F2 & F3). rewrite Hcb. cbn [negb].
  destruct (timer_dos _ _) as [l2|] eqn:E2; [|by intros [= <-]]. destruct (dos_follows _ _ _ E2 (fire_inv i (tm i l) l1 T1)) as (T2 & _).
  intros E. specialize (IH l2 T2 E). destruct o as [l'|]; [|done]. destruct IH as (fs & S). exists (call_of i l :: fs).
  eapply served_cons; [done|done|blia|done| |done]. cbn in E2. unfold call_of. by rewrite F1, F2 in E2.
Qed.

(** ** Termination *)

Definition dues (l : uv_loop) : list Z := filter (λ i, timeout (tm i l) ≤ time l) (timer_handles l).

(** The callback does not start a timer for now. *)
Definition starts_later (c : timer_call) : Prop := match c with TStart _ after _ => u64 after ≠ 0 | _ => True end.

Lemma dues_elem l i : i ∈ dues l ↔ is_due l i.
Proof. unfold dues, is_due. rewrite list_elem_of_filter. tauto. Qed.

Lemma dues_NoDup l : tinv l → NoDup (dues l).
Proof.
  intros T. apply NoDup_filter. pose proof (t_ordered _ T) as Ho. unfold ordered in Ho. induction Ho as [|i h Ho IH Hf]; [constructor|].
  constructor; [|done]. intros Hi. rewrite Forall_forall in Hf. specialize (Hf i Hi). unfold key_lt in Hf. lia.
Qed.

(** Nothing new is due. *)
Definition calms (l l' : uv_loop) : Prop := time l' = time l ∧ ∀ j, is_due l' j → is_due l j.

Lemma calms_trans l1 l2 l3 : calms l1 l2 → calms l2 l3 → calms l1 l3.
Proof. intros (E1 & H1) (E2 & H2). split; [congruence|auto]. Qed.

Lemma stop_calms i l : tinv l → calms l (timer_stop i l) ∧ ¬ is_due (timer_stop i l) i.
Proof.
  intros T. destruct (stop_same i l) as (E1 & _). split; [split; [done|]|].
  - intros j [[Hne Hj]%(stop_elem i l j T) Ht]. rewrite stop_tm, decide_False, E1 in Ht by done. done.
  - intros [[? _]%(stop_elem i l i T) _]. done.
Qed.

Lemma started_calms i after rep l l' : tinv l → time l < 2 ^ 64 - 1 → 0 < u64 after → started i after rep l l' → calms l l' ∧ ¬ is_due l' i.
Proof.
  intros T Ht Ha [S1 S2 S3 S4 S5 (c & S6 & S7 & S8 & _)]. assert (¬ is_due l' i) as Hi by (intros [_ Hd]; rewrite S6, S2 in Hd; cbn in Hd; specialize (S8 Ha Ht); lia).
  split; [|done]. split; [done|]. intros j Hj. destruct (decide (j = i)) as [->|Hne]; [done|]. destruct Hj as [Hj Hd].
  rewrite S5, S2 in Hd by done. split; [|done]. rewrite (t_active _ T), <- S5 by done. by apply (t_active _ S1).
Qed.

Lemma again_calms i l l' : timer_again i l = Some l' → tinv l → time l < 2 ^ 64 - 1 → calms l l' ∧ (¬ is_due l i → ¬ is_due l' i).
Proof.
  intros E T Ht. destruct (again_ok _ _ _ E T) as [[-> _]|(_ & Hr & S)]; [done|]. destruct (stop_calms i l T) as (C1 & C2). destruct (stop_same i l) as (E1 & _).
  pose proof (t_range _ T i) as [_ Hrr]. destruct (started_calms i (repeat (tm i l)) (repeat (tm i l)) (timer_stop i l) l' (stop_inv i l T) ltac:(lia) ltac:(rewrite wrap_small by (unfold is_u; lia); lia) S) as (C3 & C4).
  split; [by eapply calms_trans|done].
Qed.

Lemma dos_calms cs l l' : Forall starts_later cs → timer_dos cs l = Some l' → tinv l → time l < 2 ^ 64 - 1 → calms l l'.
Proof.
  intros Hc. revert l. induction Hc as [|c cs Hc Hcs IH]; cbn [timer_dos]; intros l E T Ht; [by injection E as <-|].
  destruct (timer_do c l) as [l1|] eqn:E1; [|done]. destruct (do_follows _ _ _ E1 T) as (T1 & F1 & _).
  eapply calms_trans; [|apply (IH l1); [done|done|lia]]. destruct c as [i after rep|i|i|i rep]; cbn [timer_do starts_later] in *.
  - pose proof (wrap_range 64 after ltac:(lia)) as [? _]. eapply (started_calms i after rep); [done|done|lia|by apply timer_start_ok].
  - injection E1 as <-. by apply stop_calms.
  - by eapply again_calms.
  - injection E1 as <-. split; [done|]. intros j [Hj Hd]. destruct (set_repeat_tm i rep l j T) as (r & Er & _). rewrite Er in Hd. by split.
Qed.

Lemma run_ends user fuel l : (∀ log, (length (tlog l) < length log)%nat → Forall starts_later (user log)) → tinv l → time l < 2 ^ 64 - 1 → (length (dues l) < fuel)%nat →
  ∃ o, uv__run_timers user fuel l = Val o.
Proof.
  revert l. induction fuel as [|fuel IH]; intros l Hu T Ht Hf; [lia|]. cbn [uv__run_timers].
  destruct (timer_handles l) as [|i h] eqn:Eh; cbn [rb_min head]; [by eexists|]. destruct (time l <? timeout (tm i l)) eqn:Et; [by eexists|].
  destruct (timer_again i (timer_stop i l)) as [l1|] eqn:E1; [|by eexists].
  destruct (round_ok i h l l1 T Eh ltac:(blia) E1) as (Hcb & T1 & F1 & F2 & F3). rewrite Hcb. cbn [negb].
  destruct (timer_dos _ _) as [l2|] eqn:E2; [|by eexists]. destruct (dos_follows _ _ _ E2 (fire_inv i (tm i l) l1 T1)) as (T2 & G1 & G2 & _). cbn in G1, G2.
  assert (length (tlog l2) = S (length (tlog l))) as EL by (rewrite G2, F2, length_app; cbn; lia).
  apply IH; [intros log Hlog; apply Hu; lia|done|lia|]. destruct (stop_calms i l T) as (C1 & C2). destruct (stop_same i l) as (Es & _).
  destruct (again_calms _ _ _ E1 (stop_inv i l T) ltac:(lia)) as (C3 & C4). specialize (C4 C2).
  pose proof (dos_calms _ _ _ (Hu (tlog (fire i (tm i l) l1)) ltac:(cbn; rewrite F2, length_app; cbn; lia)) E2 (fire_inv i (tm i l) l1 T1) ltac:(cbn; lia)) as (_ & C5).
  assert (length (i :: dues l2) ≤ length (dues l))%nat as Hl; [|cbn in Hl; lia]. apply submseteq_length, NoDup_submseteq.
  - constructor; [|by apply dues_NoDup]. intros Hi%dues_elem%C5. by apply C4.
  - intros j [->|Hj]%elem_of_cons; apply dues_elem; [split; [rewrite Eh; set_solver|blia]|].
    apply dues_elem, C5 in Hj. by apply C1, C3.
Qed.

(** A result does not depend on the fuel. *)
Lemma run_more user fuel fuel' l o : uv__run_timers user fuel l = Val o → (fuel ≤ fuel')%nat → uv__run_timers user fuel' l = Val o.
Proof.
  revert fuel' l. induction fuel as [|fuel IH]; intros fuel' l; cbn [uv__run_timers]; [done|]. destruct fuel' as [|fuel']; [lia|]. cbn [uv__run_timers].
  destruct (rb_min _) as [i|]; [|done]. destruct (_ <? _); [done|]. destruct (timer_again _ _) as [l1|]; [|done]. destruct (negb _); [done|].
  destruct (timer_dos _ _) as [l2|]; [|done]. intros E Hf. apply IH; [done|lia].
Qed.

(** From the [n]-th callback on no callback starts a timer for now. *)
Definition settles (user : list fired → list timer_call) (n : nat) : Prop :=
  ∀ log, (n < length log)%nat → Forall starts_later (user log).

Lemma run_settles user n l : settles user n → tinv l → time l < 2 ^ 64 - 1 → ∃ fuel o, uv__run_timers user fuel l = Val o.
Proof.
  intros Hu. remember (n - length (tlog l))%nat as k eqn:Ek. revert l Ek. induction k as [|k IH]; intros l Ek T Ht.
  { destruct (run_ends user (S (length (dues l))) l) as (o & E); [intros log Hlog; apply Hu; lia|done|done|lia|]. by exists (S (length (dues l))), o. }
  destruct (timer_handles l) as [|i h] eqn:Eh; [exists 1%nat; cbn; rewrite Eh; by eexists|].
  destruct (time l <? timeout (tm i l)) eqn:Et; [exists 1%nat; cbn; rewrite Eh; cbn; rewrite Et; by eexists|].
  destruct (timer_again i (timer_stop i l)) as [l1|] eqn:E1; [|exists 1%nat; cbn; rewrite Eh; cbn; rewrite Et, E1; by eexists].
  destruct (round_ok i h l l1 T Eh ltac:(blia) E1) as (Hcb & T1 & F1 & F2 & F3).
  destruct (timer_dos (user (tlog (fire i (tm i l) l1))) (fire i (tm i l) l1)) as [l2|] eqn:E2.
  - destruct (dos_follows _ _ _ E2 (fire_inv i (tm i l) l1 T1)) as (T2 & G1 & G2 & _). cbn in G1, G2.
    destruct (IH l2) as (fuel & o & E); [rewrite G2, F2, length_app; cbn; lia|done|lia|].
    exists (S fuel), o. cbn [uv__run_timers]. rewrite Eh. cbn [rb_min head]. rewrite Et, E1, Hcb. cbn [negb]. by rewrite E2.
  - exists 1%nat, None. cbn [uv__run_timers]. rewrite Eh. cbn [rb_min head]. rewrite Et, E1, Hcb. cbn [negb]. by rewrite E2.
Qed.

(** ** The loop's turns *)

(** Calls from outside callbacks, and turns of the loop at a new time, which are over
    within [fuel] rounds. *)
Inductive loop_event := Calls (cs : list timer_call) | Turn (fuel : nat) (now : Z).

Definition turn (user : list fired → list timer_call) (fuel : nat) (now : Z) (l : uv_loop) : exec (option uv_loop) :=
  uv__run_timers user fuel (set_time (u64 now) l).

Fixpoint turns (user : list fired → list timer_call) (es : list loop_event) (l : uv_loop) : exec (option uv_loop) :=
  match es with
  | [] => Val (Some l)
  | e :: es =>
      o ← match e with Calls cs => Val (timer_dos cs l) | Turn fuel now => turn user fuel now l end;
      match o with Some l => turns user es l | None => Val None end
  end.

Lemma set_time_inv now l : tinv l → tinv (set_time (u64 now) l).
Proof. intros [T1 T2 T3 T4 T5 T6 T7]. split; try done. by apply (wrap_range 64). Qed.

Lemma new_loop_inv now : tinv (new_loop (u64 now)).
Proof.
  assert (∀ i, tm i (new_loop (u64 now)) = init_timer) as E by done.
  split.
  - by apply (wrap_range 64).
  - done.
  - apply SSorted_nil.
  - intros i. rewrite E. cbn. split; [|done]. by intros ?%not_elem_of_nil.
  - by intros i ?%not_elem_of_nil.
  - intros i. by rewrite E.
  - intros i. rewrite E. cbn. lia.
Qed.

Lemma turns_inv user es l l' : tinv l → turns user es l = Val (Some l') → tinv l'.
Proof.
  revert l. induction es as [|e es IH]; intros l T; cbn [turns]; [by intros [= <-]|]. destruct e as [cs|fuel now].
  - destruct (timer_dos cs l) as [l1|] eqn:E; cbn; [|done]. apply IH. by eapply dos_follows.
  - destruct (turn user fuel now l) as [[l1|]| |] eqn:E; cbn; try done. apply IH.
    destruct (run_served _ _ _ _ (set_time_inv now l T) E) as (fs & S). apply S.
Qed.

(** C17 (functional). A turn of the loop ends and calls the timers that are due. The
    callbacks may start, stop and restart any timers, with timeout 0 only during
    finitely many of them ([zero_timer_starves] is the other case), and fewer than
    2^64 timers are started. Then, whatever has happened on the loop before, the turn
    comes to one end for every sufficient number of rounds. Every timer that is due when
    it starts is called for that start, unless a callback of the turn stops or restarts
    it first. A callback is made for a start that was due at the beginning, or for one made
    during the turn; the callbacks come in the order of their timeouts, for equal timeouts
    in the order of their starts, and never twice for one start. When the turn is over no
    timer that is left is due. *)
Theorem timers_fire_in_order user n es start now l : settles user n → turns user es (new_loop (u64 start)) = Val (Some l) →
  u64 now < 2 ^ 64 - 1 → (∀ fuel, turn user fuel now l ≠ Val None) →
  ∃ rounds l' fs, (∀ fuel, (rounds ≤ fuel)%nat → turn user fuel now l = Val (Some l')) ∧ tlog l' = tlog l ++ fs ∧
    (∀ i, active (tm i l) = true → timeout (tm i l) ≤ u64 now →
      mkFired i (timeout (tm i l)) (start_id (tm i l)) (u64 now) ∈ fs ∨ touched user i (tlog l) fs) ∧
    (∀ f, f ∈ fs → f_timeout f ≤ u64 now ∧ f_time f = u64 now ∧
      (active (tm (f_timer f) l) = true ∧ f_timeout f = timeout (tm (f_timer f) l) ∧ f_start f = start_id (tm (f_timer f) l) ∨
       timer_counter l ≤ f_start f)) ∧
    StronglySorted (λ a b, f_timeout a < f_timeout b ∨ f_timeout a = f_timeout b ∧ f_start a < f_start b) fs ∧
    ∀ i, active (tm i l') = true → u64 now < timeout (tm i l').
Proof.
  intros Hu E Hn Hc. pose proof (turns_inv _ _ _ _ (new_loop_inv start) E) as T. pose proof (set_time_inv now l T) as T0.
  destruct (run_settles user n _ Hu T0 Hn) as (rounds & o & Er). destruct o as [l'|]; [|by apply Hc in Er].
  destruct (run_served _ _ _ _ T0 Er) as (fs & [S1 S2 S3 S4 S5 S6 S7 S8 S9]). exists rounds, l', fs. split; [intros fuel Hf; by eapply run_more|].
  split; [done|]. split; [|split; [|split; [exact S4|exact S7]]].
  - intros i Hi Hd. apply (S8 i). split; [by apply (t_active _ T)|done].
  - intros f Hf. rewrite Forall_forall in S5, S9. destruct (S5 f Hf) as (D1 & D2). cbn in D2. split; [lia|]. split; [done|].
    destruct (S9 f Hf) as [[Ha Ef]|Hs]; [left|right; exact Hs]. split; [exact Ha|]. rewrite Ef. done.
Qed.

(** When no callback starts a timer with timeout 0, one round for every timer and one
    more are enough. *)
Theorem turn_ends user es start now l : (∀ log, Forall starts_later (user log)) → turns user es (new_loop (u64 start)) = Val (Some l) →
  u64 now < 2 ^ 64 - 1 → ∃ o, turn user (S (length (timer_handles l))) now l = Val o.
Proof.
  intros Hu E Hn. pose proof (turns_inv _ _ _ _ (new_loop_inv start) E) as T. apply run_ends; [auto|by apply set_time_inv|done|].
  cbn. apply Nat.lt_succ_r. apply length_filter.
Qed.

(** Only timer 1 is there, and it is due. *)
Definition alone (l : uv_loop) : Prop :=
  timer_handles l = [1] ∧ has_cb (tm 1 l) = true ∧ active (tm 1 l) = true ∧ timeout (tm 1 l) = time l ∧ repeat (tm 1 l) = 0.

Lemma start_alone l : 0 ≤ time l < 2 ^ 64 → 0 ≤ timer_counter l < 2 ^ 64 - 1 → active (tm 1 l) = false → timer_handles l = [] →
  ∃ l', timer_start 1 0 0 l = Some l' ∧ alone l' ∧ time l' = time l ∧ timer_counter l' = timer_counter l + 1.
Proof.
  intros Ht Hc Ha Hh. unfold timer_start. rewrite Ha. rewrite (proj2 (Z.eqb_neq _ _)) by lia. eexists. split; [done|]. change (u64 0) with 0. rewrite Z.add_0_r.
  rewrite (wrap_small 64 (time l)) by (unfold is_u; lia). rewrite (proj2 (Z.ltb_ge _ _)) by lia. rewrite Hh. split; [|done]. unfold alone, tm. cbn. by rewrite lookup_insert_eq.
Qed.

Lemma starve n l : 0 ≤ time l < 2 ^ 64 → 0 ≤ timer_counter l → timer_counter l + Z.of_nat n < 2 ^ 64 → alone l →
  uv__run_timers (λ _, [TStart 1 0 0]) n l = NoFuel.
Proof.
  revert l. induction n as [|n IH]; intros l Ht Hc Hn (A1 & A2 & A3 & A4 & A5); cbn [uv__run_timers]; [done|]. rewrite A1. cbn [rb_min head].
  rewrite A4, Z.ltb_irrefl. unfold timer_again. rewrite !stop_tm, !decide_True by done. cbn [has_cb repeat negb]. rewrite A2, A5. cbn [negb Z.eqb].
  rewrite stop_tm, decide_True by done. cbn [has_cb]. rewrite A2. cbn [negb]. set (l1 := fire _ _ _). destruct (stop_same 1 l) as (E1 & E2 & _).
  assert (time l1 = time l) as F1 by done. assert (timer_counter l1 = timer_counter l) as F2 by done. cbn [timer_dos timer_do].
  destruct (start_alone l1) as (l2 & -> & Al & G1 & G2); [lia|lia| | |].
  - change (tm 1 l1) with (tm 1 (timer_stop 1 l)). by rewrite stop_tm, decide_True.
  - change (timer_handles l1) with (timer_handles (timer_stop 1 l)). unfold timer_stop. rewrite A3. cbn. by rewrite A1.
  - cbn. apply IH; [lia|lia|lia|done].
Qed.

(** A timer that starts itself again with timeout 0 keeps the loop in
    its turn: no other timer is called and no input is read. *)
Theorem zero_timer_starves now n : Z.of_nat n < 2 ^ 64 - 2 →
  ∃ l, timer_start 1 0 0 (new_loop (u64 now)) = Some l ∧ uv__run_timers (λ _, [TStart 1 0 0]) n l = NoFuel.
Proof.
  intros Hn. pose proof (wrap_range 64 now ltac:(lia)) as Hw. unfold is_u in Hw. destruct (start_alone (new_loop (u64 now))) as (l & E & A & E1 & E2); [cbn; lia|cbn; lia|done|done|].
  exists l. split; [done|]. cbn in E1, E2. apply starve; [lia|lia|lia|done].
Qed.

(** The time [uv__io_poll] may sleep is -1, for ever, when no timer is
    started, and otherwise fits an [int], never passes the first timeout, and unless
    it was cut to [INT_MAX] ends exactly when the first timer is due. *)
Theorem next_timeout_exact user es start l : turns user es (new_loop (u64 start)) = Val (Some l) →
  let d := uv__next_timeout l in
  (d = -1 ∧ ∀ i, active (tm i l) = false) ∨
  0 ≤ d ≤ INT_MAX ∧ (∀ i, active (tm i l) = true → d = 0 ∨ time l + d ≤ timeout (tm i l)) ∧
    (d < INT_MAX → ∃ i, active (tm i l) = true ∧ timeout (tm i l) ≤ time l + d).
Proof.
  intros E. pose proof (turns_inv _ _ _ _ (new_loop_inv start) E) as T. cbn. unfold uv__next_timeout.
  destruct (timer_handles l) as [|i h] eqn:Eh; cbn [rb_min head].
  { left. split; [done|]. intros i. apply not_true_iff_false. rewrite <- (t_active _ T), Eh. apply not_elem_of_nil. }
  right. pose proof (t_time _ T). pose proof (t_range _ T i) as [Hr _]. assert (active (tm i l) = true) as Ha by (apply (t_active _ T); rewrite Eh; set_solver).
  assert (∀ j, active (tm j l) = true → timeout (tm i l) ≤ timeout (tm j l)) as Hmin.
  { intros j Hj%(t_active _ T). pose proof (t_ordered _ T) as Ho. unfold ordered in Ho. rewrite Eh in Ho, Hj. apply StronglySorted_inv in Ho as [_ Hf].
    rewrite Forall_forall in Hf. apply elem_of_cons in Hj as [->|Hj]; [lia|]. specialize (Hf j Hj). unfold key_lt in Hf. lia. }
  destruct (timeout (tm i l) <=? time l) eqn:Et.
  { split; [unfold INT_MAX; lia|]. split; [by left|]. intros _. exists i. split; [done|blia]. }
  rewrite wrap_small by (unfold is_u; blia). destruct (INT_MAX <? _) eqn:Ed.
  - split; [unfold INT_MAX; lia|]. split; [|blia]. intros j Hj. right. specialize (Hmin j Hj). blia.
  - split; [blia|]. split; [intros j Hj; right; specialize (Hmin j Hj); blia|]. intros _. exists i. split; [done|blia].
Qed.

(** ** The timer its owner sees *)

(** [Uv.v] keeps of a timer its callback, its repeat and, while it is active, the
    timeout it was started with at time [since]: the timer is in the tree, to be called
    when that time is over. *)
Definition seen (since i : Z) (l : uv_loop) (u : uv_timer_t) : Prop :=
  has_cb (tm i l) = timer_has_cb u ∧ repeat (tm i l) = timer_repeat u ∧
  match timer_due u with
  | None => active (tm i l) = false ∧ i ∉ timer_handles l
  | Some ms => active (tm i l) = true ∧ i ∈ timer_handles l ∧ timeout (tm i l) = Z.min (since + ms) (2 ^ 64 - 1)
  end.

(** An operation on timer [i], refused only when the start ids run out, ends with it seen
    as [u] and the clock, the callbacks and the other timers as they were. *)
Definition leaves (since i : Z) (l : uv_loop) (u : uv_timer_t) (o : option uv_loop) : Prop :=
  match o with
  | None => timer_counter l = 2 ^ 64 - 1
  | Some l' => seen since i l' u ∧ time l' = time l ∧ tlog l' = tlog l ∧
      ∀ j, j ≠ i → tm j l' = tm j l ∧ (j ∈ timer_handles l' ↔ j ∈ timer_handles l)
  end.

Lemma others_kept i l l' : tinv l → tinv l' → (∀ j, j ≠ i → tm j l' = tm j l) →
  ∀ j, j ≠ i → tm j l' = tm j l ∧ (j ∈ timer_handles l' ↔ j ∈ timer_handles l).
Proof. intros T T' H j Hj. split; [by apply H|]. rewrite (t_active _ T), (t_active _ T'). by rewrite H. Qed.

Lemma leaves_trans s s' i l l1 u u1 o : tinv l → tinv l1 → leaves s i l u (Some l1) → timer_counter l1 = timer_counter l →
  leaves s' i l1 u1 o → leaves s' i l u1 o.
Proof.
  intros T T1 (_ & E1 & E2 & H) Ec. destruct o as [l'|]; cbn; [|congruence]. intros (S & F1 & F2 & H'). split; [done|]. split; [congruence|].
  split; [congruence|]. intros j Hj. destruct (H j Hj) as [<- Hi]. rewrite <- Hi. by apply H'.
Qed.

Lemma stop_leaves s i l u : tinv l → seen s i l u → leaves s i l (uv_timer_stop u) (Some (timer_stop i l)).
Proof.
  intros T (S1 & S2 & S3). pose proof (stop_inv i l T) as T'. destruct (stop_same i l) as (E1 & _ & E2).
  split; [|split; [done|split; [done|]]]; [|apply others_kept; [done|done|intros j Hj; by rewrite stop_tm, decide_False]].
  unfold seen. rewrite stop_has_cb, stop_repeat, stop_tm, decide_True by done. cbn. split; [done|]. split; [done|].
  pose proof (stop_inactive u) as Hu. unfold timer_active in Hu. destruct (timer_due (uv_timer_stop u)); [done|]. split; [done|].
  rewrite (stop_elem i l i T). tauto.
Qed.

Lemma clamped_min now after : 0 ≤ now < 2 ^ 64 →
  (if u64 (now + u64 after) <? u64 after then 2 ^ 64 - 1 else u64 (now + u64 after)) = Z.min (now + u64 after) (2 ^ 64 - 1).
Proof.
  intros Hn. pose proof (wrap_range 64 after ltac:(lia)) as Ha. set (a := u64 after) in *. unfold is_u in Ha.
  destruct (decide (now + a < 2 ^ 64)) as [Hs|Hs].
  - rewrite wrap_small by (unfold is_u; lia). destruct (_ <? _) eqn:E; blia.
  - assert (u64 (now + a) = now + a - 2 ^ 64) as -> by (unfold wrap; symmetry; apply (Z.mod_unique _ _ 1); lia). rewrite (proj2 (Z.ltb_lt _ _)) by lia. lia.
Qed.

(** The key a start stores. *)
Lemma start_timeout i after rep l l' : timer_start i after rep l = Some l' → 0 ≤ time l < 2 ^ 64 →
  timeout (tm i l') = Z.min (time l + u64 after) (2 ^ 64 - 1).
Proof.
  unfold timer_start. intros E Ht. destruct (stop_same i l) as (E1 & _). assert (time (if active (tm i l) then timer_stop i l else l) = time l) as Et by (by destruct (active _)).
  rewrite !Et, clamped_min in E by done. destruct (_ =? _); [done|]. injection E as <-. unfold tm. cbn. by rewrite lookup_insert_eq.
Qed.

Lemma start_refused i after rep l : timer_start i after rep l = None → timer_counter l = 2 ^ 64 - 1.
Proof.
  unfold timer_start. destruct (stop_same i l) as (_ & E2 & _). assert (timer_counter (if active (tm i l) then timer_stop i l else l) = timer_counter l) as -> by (by destruct (active _)).
  destruct (_ =? _) eqn:E; [intros _; blia|done].
Qed.

Lemma start_leaves i after rep l u : tinv l → leaves (time l) i l (uv_timer_start after rep u) (timer_start i after rep l).
Proof.
  intros T. destruct (timer_start i after rep l) as [l'|] eqn:E; cbn [leaves]; [|by eapply start_refused].
  pose proof (start_timeout _ _ _ _ _ E (t_time _ T)) as Hto. destruct (timer_start_ok _ _ _ _ _ E T) as [T' S2 S3 _ So (c & Sc & _)].
  split; [|split; [done|split; [done|by apply others_kept]]]. unfold seen. cbn [uv_timer_start timer_has_cb timer_repeat timer_due].
  rewrite (t_active _ T'), Hto, Sc. done.
Qed.

(** [uv_timer_again] starts the timer now, or leaves it. *)
Definition again_since (since now : Z) (u : uv_timer_t) : Z :=
  if timer_has_cb u && negb (timer_repeat u =? 0) then now else since.

Lemma again_leaves s i l u : tinv l → seen s i l u → leaves (again_since s (time l) u) i l (uv_timer_again u) (timer_again i l).
Proof.
  intros T Hs. pose proof Hs as (S1 & S2 & _). unfold timer_again, uv_timer_again, again_since. rewrite <- S1, <- S2.
  destruct (has_cb (tm i l)); cbn [negb andb]; [|by split]. destruct (repeat (tm i l) =? 0); cbn [negb]; [by split|].
  destruct (stop_same i l) as (E1 & E2 & _). eapply leaves_trans; [done|by apply stop_inv|by apply stop_leaves|done|].
  rewrite <- E1. apply start_leaves. by apply stop_inv.
Qed.

(** C18 (refinement). The timers of [Uv.v], which the client is verified against, are
    what the loop does. A timer that is seen in the loop as a timer of [Uv.v] has its
    callback and repeat, and is in the tree exactly while that one is active, with the
    time of its start plus the timeout as its key (at most 2^64 - 1). Starting, stopping,
    restarting it or setting its repeat, and what the loop does before it calls it, each
    take it to what the same operation of [Uv.v] gives, the start counted from the clock of
    the loop, change nothing else of the loop's timers and clock, and are refused only when
    2^64 - 1 timers have been started. A new timer is seen as [uv_timer_init]. *)
Theorem timer_refines user es start l i u since : turns user es (new_loop (u64 start)) = Val (Some l) → seen since i l u →
  (∀ after rep, leaves (time l) i l (uv_timer_start after rep u) (timer_start i after rep l)) ∧
  leaves since i l (uv_timer_stop u) (Some (timer_stop i l)) ∧
  leaves (again_since since (time l) u) i l (uv_timer_again u) (timer_again i l) ∧
  (∀ rep, leaves since i l (uv_timer_set_repeat rep u) (Some (timer_set_repeat i rep l))) ∧
  leaves (again_since since (time l) u) i l (uv__run_timer u) (timer_again i (timer_stop i l)) ∧
  seen since i (new_loop (u64 start)) uv_timer_init.
Proof.
  intros E Hs. pose proof (turns_inv _ _ _ _ (new_loop_inv start) E) as T. split; [|split; [|split; [|split; [|split]]]].
  - intros after rep. by apply start_leaves.
  - by apply stop_leaves.
  - by apply again_leaves.
  - intros rep. destruct Hs as (S1 & S2 & S3). unfold timer_set_repeat. cbn. split; [|split; [done|split; [done|]]].
    + unfold seen. cbn. by rewrite tm_set, decide_True.
    + intros j Hj. by rewrite tm_set, decide_False.
  - pose proof (stop_leaves since i l u T Hs) as Hl. destruct (stop_same i l) as (E1 & E2 & _). eapply leaves_trans; [done|by apply stop_inv|exact Hl|done|].
    destruct Hl as [Hs1 _]. pose proof (again_leaves since i _ _ (stop_inv i l T) Hs1) as H. unfold again_since in *. rewrite stop_has_cb, stop_repeat, E1 in H. exact H.
  - repeat split. apply not_elem_of_nil.
Qed.

(** ** Witnesses *)

(** Timer 1 starts itself again and stops timer 3; the third callback starts timer 4 for
    now. *)
Definition demo_timers : list loop_event := [Calls [TStart 1 20 0; TStart 2 10 10; TStart 3 20 0]; Turn 4 105].
Definition demo_restart (log : list fired) : list timer_call :=
  match last log with
  | Some f => if f_timer f =? 1 then [TStart 1 5 0; TStop 3] ++ (if (length log <=? 2)%nat then [TStart 4 0 0] else []) else []
  | None => []
  end.
Definition demo_loop : uv_loop :=
  Eval vm_compute in match turns demo_restart demo_timers (new_loop 100) with Val (Some l) => l | _ => new_loop 0 end.
Definition demo_later : uv_loop :=
  Eval vm_compute in match turn demo_restart 9 125 demo_loop with Val (Some l) => l | _ => new_loop 0 end.

Example demo_fired : map f_timer (tlog demo_later) = [2; 1; 4] ∧ uv__next_timeout demo_later = 5.
Proof. done. Qed.

Lemma demo_settles : settles demo_restart 2.
Proof.
  intros log Hl. unfold demo_restart. destruct (last log) as [f|]; [|constructor]. destruct (_ =? _); [|constructor].
  rewrite (proj2 (Nat.leb_gt _ _)) by lia. by repeat constructor.
Qed.

Lemma demo_counts fuel : turn demo_restart fuel 125 demo_loop ≠ Val None.
Proof.
  intros E. assert (turn demo_restart 9 125 demo_loop = Val (Some demo_later)) as E9 by done.
  apply (run_more _ _ (max fuel 9)) in E; [|lia]. apply (run_more _ _ (max fuel 9)) in E9; [|lia]. congruence.
Qed.

Lemma timers_fire_in_order_witness : ∃ l', turn demo_restart 9 125 demo_loop = Val (Some l') ∧
  (mkFired 2 110 1 125 ∈ tlog l') ∧ (mkFired 3 120 2 125 ∈ tlog l' ∨ touched demo_restart 3 [] (tlog l')).
Proof.
  destruct (timers_fire_in_order demo_restart 2 demo_timers 100 125 demo_loop demo_settles eq_refl eq_refl demo_counts)
    as (rounds & l' & fs & E & Ef & Hall & _). exists demo_later.
  assert (Val (Some l') = Val (Some demo_later)) as [= ->].
  { rewrite <- (E (max rounds 9)) by lia. apply (run_more _ 9); [done|lia]. }
  split; [done|]. cbn in Ef. rewrite <- Ef in Hall. split; [cbn; set_solver|]. apply (Hall 3); vm_compute; congruence.
Defined.

Example demo_ends : ∃ o, turn (λ _, []) 4 125 demo_loop = Val o.
Proof. exact (turn_ends (λ _, []) [Calls [TStart 1 20 0; TStart 2 10 10; TStart 3 20 0]; Turn 4 105] 100 125 demo_loop (λ _, List.Forall_nil _) eq_refl eq_refl). Qed.

Example demo_starves : ∃ l, timer_start 1 0 0 (new_loop 7) = Some l ∧ uv__run_timers (λ _, [TStart 1 0 0]) 50 l = NoFuel.
Proof. exact (zero_timer_starves 7 50 eq_refl). Qed.

Lemma next_timeout_exact_witness : uv__next_timeout demo_loop = 5 ∧ ∀ i, active (tm i demo_loop) = true → 5 = 0 ∨ time demo_loop + 5 ≤ timeout (tm i demo_loop).
Proof.
  split; [done|]. destruct (next_timeout_exact demo_restart demo_timers 100 demo_loop eq_refl) as [[E _]|(_ & H & _)]; [discriminate E|exact H].
Defined.

Lemma timer_refines_witness : seen 100 2 demo_loop (mkTimer true (Some 10) 10) ∧
  leaves 105 2 demo_loop (uv__run_timer (mkTimer true (Some 10) 10)) (timer_again 2 (timer_stop 2 demo_loop)).
Proof.
  assert (seen 100 2 demo_loop (mkTimer true (Some 10) 10)) as H by (repeat split; cbn; set_solver).
  split; [exact H|]. apply (timer_refines demo_restart demo_timers 100 demo_loop 2 (mkTimer true (Some 10) 10) 100 eq_refl H).
Defined.
