(* ===== verification/UvPoll.v ===== *)
(** * Watchers and polling ([src/deps/uv/src/unix/core.c], [linux-core.c])

    How the loop keeps the kernel's set of descriptors in step with the watchers of
    its handles, and which events it passes on. Each watcher of [UvStream.v] and
    [UvAsync.v] is one of the watchers here. The kernel's side of [epoll] is a map
    from descriptors to the events asked for; what it refuses and reports are arguments.
    A failed assertion and [abort] are undefined. *)

From S2P Require Import Prelude.
Local Open Scope Z_scope.

Definition UV__POLLIN : Z := 1.
Definition UV__POLLOUT : Z := 4.
Definition UV__POLLERR : Z := 8.
Definition UV__POLLHUP : Z := 16.

(** ** The state *)

Record uv__io := mkW { w_fd : Z; w_events : Z; w_pevents : Z }.

Inductive poll_log :=
| PInited (w : Z)
| PWait (now timeout : Z)
| PCallback (w events pevents : Z).

(** [batch] are the events of the last [epoll_wait] that the loop has not come to; a
    descriptor of -1 marks an event as stale. *)
Record poll_loop := mkPoll {
  ios : gmap Z uv__io;
  watchers : gmap Z Z;
  nwatchers : Z;
  nfds : Z;
  watcher_queue : list Z;
  epoll : gmap Z Z;
  batch : list (Z * Z);
  plog : list poll_log
}.

Definition set_w (w : Z) (io : uv__io) (s : poll_loop) : poll_loop :=
  mkPoll (<[w := io]> (ios s)) (watchers s) (nwatchers s) (nfds s) (watcher_queue s) (epoll s) (batch s) (plog s).
Definition set_watchers (m : gmap Z Z) (n : Z) (s : poll_loop) : poll_loop :=
  mkPoll (ios s) m (nwatchers s) n (watcher_queue s) (epoll s) (batch s) (plog s).
Definition set_nwatchers (n : Z) (s : poll_loop) : poll_loop :=
  mkPoll (ios s) (watchers s) n (nfds s) (watcher_queue s) (epoll s) (batch s) (plog s).
Definition set_queue (q : list Z) (s : poll_loop) : poll_loop :=
  mkPoll (ios s) (watchers s) (nwatchers s) (nfds s) q (epoll s) (batch s) (plog s).
Definition set_epoll (m : gmap Z Z) (s : poll_loop) : poll_loop :=
  mkPoll (ios s) (watchers s) (nwatchers s) (nfds s) (watcher_queue s) m (batch s) (plog s).
Definition set_batch (b : list (Z * Z)) (s : poll_loop) : poll_loop :=
  mkPoll (ios s) (watchers s) (nwatchers s) (nfds s) (watcher_queue s) (epoll s) b (plog s).
Definition pnote (e : poll_log) (s : poll_loop) : poll_loop :=
  mkPoll (ios s) (watchers s) (nwatchers s) (nfds s) (watcher_queue s) (epoll s) (batch s) (plog s ++ [e]).

Definition closed_io : uv__io := mkW (-1) 0 0.
Definition get_w (w : Z) (s : poll_loop) : uv__io := default closed_io (ios s !! w).

(** ** The table of watchers *)

Definition next_power_of_two (val : Z) : Z :=
  let val := u32 (val - 1) in
  let val := Z.lor val (Z.shiftr val 1) in
  let val := Z.lor val (Z.shiftr val 2) in
  let val := Z.lor val (Z.shiftr val 4) in
  let val := Z.lor val (Z.shiftr val 8) in
  let val := Z.lor val (Z.shiftr val 16) in
  u32 (val + 1).

Definition maybe_resize (len : Z) (s : poll_loop) : poll_loop :=
  if len <=? nwatchers s then s else set_nwatchers (u32 (next_power_of_two (u32 (len + 2)) - 2)) s.

(** ** Operations on watchers *)

Definition uv__io_init (w fd : Z) (s : poll_loop) : exec poll_loop :=
  _ ← require (-1 <=? fd);
  Val (pnote (PInited w) (set_w w (mkW fd 0 0) s)).

Definition uv__io_start (w events : Z) (s : poll_loop) : exec poll_loop :=
  let io := get_w w s in
  _ ← require (0 <=? w_fd io);
  _ ← require (w_fd io <? INT_MAX);
  let io := mkW (w_fd io) (w_events io) (Z.lor (w_pevents io) events) in
  let s := maybe_resize (w_fd io + 1) (set_w w io s) in
  if w_events io =? w_pevents io then
    Val (if (w_events io =? 0) && bool_decide (w ∈ watcher_queue s) then set_queue (filter (λ x, x ≠ w) (watcher_queue s)) s else s)
  else
    let s := if decide (w ∈ watcher_queue s) then s else set_queue (watcher_queue s ++ [w]) s in
    match watchers s !! w_fd io with
    | None => Val (set_watchers (<[w_fd io := w]> (watchers s)) (nfds s + 1) s)
    | Some _ => Val s
    end.

Definition uv__io_stop (w events : Z) (s : poll_loop) : exec poll_loop :=
  let io := get_w w s in
  if w_fd io =? -1 then Val s
  else
    _ ← require (0 <=? w_fd io);
    if nwatchers s <=? w_fd io then Val s
    else
      let io := mkW (w_fd io) (w_events io) (Z.ldiff (w_pevents io) events) in
      let s := set_w w io s in
      if w_pevents io =? 0 then
        let s := set_queue (filter (λ x, x ≠ w) (watcher_queue s)) s in
        match watchers s !! w_fd io with
        | None => Val s
        | Some x =>
            _ ← require (x =? w);
            _ ← require (0 <? nfds s);
            Val (set_w w (mkW (w_fd io) 0 0) (set_watchers (delete (w_fd io) (watchers s)) (nfds s - 1) s))
        end
      else Val (if decide (w ∈ watcher_queue s) then s else set_queue (watcher_queue s ++ [w]) s).

(** Stale events are marked, and the kernel forgets the descriptor. *)
Definition uv__platform_invalidate_fd (fd : Z) (s : poll_loop) : exec poll_loop :=
  _ ← require (negb (nwatchers s =? 0));
  let s := set_batch (map (λ e, if e.1 =? fd then (-1, e.2) else e) (batch s)) s in
  Val (set_epoll (delete fd (epoll s)) s).

Definition uv__io_close (w : Z) (s : poll_loop) : exec poll_loop :=
  s ← uv__io_stop w (Z.lor UV__POLLIN UV__POLLOUT) s;
  uv__platform_invalidate_fd (w_fd (get_w w s)) s.

(** ** Polling *)

Definition EINTR : Z := 4.
Definition EEXIST : Z := 17.
Definition ENOENT : Z := 2.

Inductive epoll_op := UV__EPOLL_CTL_ADD | UV__EPOLL_CTL_MOD.

(** [epoll_ctl]: the error, and the kernel's table. [refused] gives the error with which
    the kernel refuses a descriptor for reasons of its own (no memory, no permission, too
    many watches), 0 for none. *)
Definition uv__epoll_ctl (refused : Z → Z) (op : epoll_op) (fd events : Z) (m : gmap Z Z) : Z * gmap Z Z :=
  if negb (refused fd =? 0) then (refused fd, m)
  else
    match op, m !! fd with
    | UV__EPOLL_CTL_ADD, None | UV__EPOLL_CTL_MOD, Some _ => (0, <[fd := events]> m)
    | UV__EPOLL_CTL_ADD, Some _ => (EEXIST, m)
    | UV__EPOLL_CTL_MOD, None => (ENOENT, m)
    end.

(** One watcher of the queue: what the kernel has then. *)
Definition epoll_sync_one (refused : Z → Z) (io : uv__io) (m : gmap Z Z) : exec (gmap Z Z) :=
  let op := if w_events io =? 0 then UV__EPOLL_CTL_ADD else UV__EPOLL_CTL_MOD in
  let '(errno, m) := uv__epoll_ctl refused op (w_fd io) (w_pevents io) m in
  if errno =? 0 then Val m
  else
    _ ← require (errno =? EEXIST);
    _ ← require (match op with UV__EPOLL_CTL_ADD => true | UV__EPOLL_CTL_MOD => false end);
    let '(errno, m) := uv__epoll_ctl refused UV__EPOLL_CTL_MOD (w_fd io) (w_pevents io) m in
    _ ← require (errno =? 0);
    Val m.

Fixpoint epoll_sync (refused : Z → Z) (q : list Z) (s : poll_loop) : exec poll_loop :=
  match q with
  | [] => Val s
  | w :: q =>
      let s := set_queue q s in
      let io := get_w w s in
      _ ← require (negb (w_pevents io =? 0));
      _ ← require (0 <=? w_fd io);
      _ ← require (w_fd io <? nwatchers s);
      m ← epoll_sync_one refused io (epoll s);
      epoll_sync refused q (set_w w (mkW (w_fd io) (w_pevents io) (w_pevents io)) (set_epoll m s))
  end.

(** With a kernel that refuses nothing. *)
Definition uv__epoll_sync : list Z → poll_loop → exec poll_loop := epoll_sync (λ _, 0).

(** The calls a callback makes. *)
Inductive io_call :=
| PInit (w fd : Z)
| PStart (w events : Z)
| PStop (w events : Z)
| PClose (w : Z).

Definition events_ok (events : Z) : bool := (events =? 1) || (events =? 4) || (events =? 5).

(** The rules: a watcher is initialised once closed, with a descriptor no other has;
    a closed watcher gives up its descriptor. *)
Definition io_allowed (c : io_call) (s : poll_loop) : bool :=
  match c with
  | PInit w fd => (w_fd (get_w w s) =? -1) && (0 <=? fd) && (fd <? 2 ^ 30) && bool_decide (map_Forall (λ _ io, w_fd io ≠ fd) (ios s))
  | PStart w events => events_ok events && (0 <=? w_fd (get_w w s))
  | PStop w events => events_ok events
  | PClose w => 0 <=? w_fd (get_w w s)
  end.

Definition io_do (c : io_call) (s : poll_loop) : exec poll_loop :=
  if negb (io_allowed c s) then Val s
  else
    match c with
    | PInit w fd => uv__io_init w fd s
    | PStart w events => uv__io_start w events s
    | PStop w events => uv__io_stop w events s
    | PClose w => s ← uv__io_close w s; Val (set_w w closed_io s)
    end.

Fixpoint io_dos (cs : list io_call) (s : poll_loop) : exec poll_loop :=
  match cs with
  | [] => Val s
  | c :: cs => s ← io_do c s; io_dos cs s
  end.

Section User.
Context (user : list poll_log → list io_call).

Definition io_callback (w events : Z) (s : poll_loop) : exec poll_loop :=
  let s := pnote (PCallback w events (w_pevents (get_w w s))) s in io_dos (user (plog s)) s.

(** One event of the batch; whether it was passed on. *)
Definition io_event (fd events : Z) (s : poll_loop) : exec (poll_loop * bool) :=
  if fd =? -1 then Val (s, false)
  else
    _ ← require (0 <=? fd);
    _ ← require (fd <? nwatchers s);
    match watchers s !! fd with
    | None => Val (set_epoll (delete fd (epoll s)) s, false)
    | Some w =>
        let pevents := w_pevents (get_w w s) in
        let ev := Z.land events (Z.lor pevents (Z.lor UV__POLLERR UV__POLLHUP)) in
        let ev := if (ev =? UV__POLLERR) || (ev =? UV__POLLHUP) then Z.lor ev (Z.land pevents (Z.lor UV__POLLIN UV__POLLOUT)) else ev in
        if negb (ev =? 0) then s ← io_callback w ev s; Val (s, true) else Val (s, false)
    end.

(** [n] is the length of [batch], which calls do not change. *)
Fixpoint io_events (n : nat) (nevents : Z) (s : poll_loop) : exec (poll_loop * Z) :=
  match n with
  | O => Val (s, nevents)
  | S n =>
      match batch s with
      | [] => Val (s, nevents)
      | (fd, ev) :: b =>
          '(s, called) ← io_event fd ev (set_batch b s);
          io_events n (if called : bool then nevents + 1 else nevents) s
      end
  end.

(** What [epoll_wait] returns, for the kernel's table and the timeout it is called with. *)
Inductive wait_answer := KError (errno : Z) | KEvents (evs : list (Z * Z)).
Definition kernel_answer : Type := gmap Z Z → Z → wait_answer.

(** The kernel reports descriptors of its table, at most [ARRAY_SIZE(events)]. *)
Definition reported (evs : list (Z * Z)) (s : poll_loop) : list (Z * Z) :=
  take 1024 (filter (λ e, is_Some (epoll s !! e.1)) evs).

(** The loop [for (;;)], with the clock at each answer; without further answers the
    kernel does not return. *)
Fixpoint io_wait (answers : list (Z * kernel_answer)) (count now base timeout : Z) (s : poll_loop) : exec (poll_loop * Z) :=
  match answers with
  | [] => Val (s, now)
  | (t, a) :: answers =>
      let s := pnote (PWait now timeout) s in
      let update_timeout s :=
        _ ← require (0 <? timeout);
        let diff := u64 (t - base) in
        if timeout <=? diff then Val (s, t) else io_wait answers count t base (timeout - diff) s in
      match a (epoll s) timeout with
      | KError errno =>
          _ ← require (errno =? EINTR);
          if timeout =? -1 then io_wait answers count t base timeout s
          else if timeout =? 0 then Val (s, t)
          else update_timeout s
      | KEvents evs =>
          let evs := reported evs s in
          if zlen evs =? 0 then
            _ ← require (negb (timeout =? -1));
            Val (s, t)
          else
            _ ← require (negb (nwatchers s =? 0));
            '(s, nevents) ← io_events (length evs) 0 (set_batch evs s);
            let s := set_batch [] s in
            if negb (nevents =? 0) then
              if (zlen evs =? 1024) && negb (count - 1 =? 0) then io_wait answers (count - 1) t base 0 s
              else Val (s, t)
            else if timeout =? 0 then Val (s, t)
            else if timeout =? -1 then io_wait answers count t base timeout s
            else update_timeout s
      end
  end.

Definition uv__io_poll (refused : Z → Z) (answers : list (Z * kernel_answer)) (now timeout : Z) (s : poll_loop) : exec (poll_loop * Z) :=
  if nfds s =? 0 then _ ← require (bool_decide (watcher_queue s = [])); Val (s, now)
  else
    s ← epoll_sync refused (watcher_queue s) s;
    _ ← require (-1 <=? timeout);
    io_wait answers 48 now now timeout s.
End User.

(** What the manual pages promise of the kernel. [epoll_wait] fails only when it is
    interrupted, and without a limit of time it returns only with an event of the table;
    [epoll_ctl] refuses nothing for reasons of its own. *)
Definition lawful (a : kernel_answer) : Prop := ∀ m timeout,
  match a m timeout with
  | KError errno => errno = EINTR
  | KEvents evs => timeout = -1 → ∃ e, e ∈ evs ∧ is_Some (m !! e.1)
  end.

(** After [uv__loop_init]: the watcher of the thread pool's wake-up is there. *)
Definition empty_poll : poll_loop := mkPoll ∅ ∅ 0 0 [] ∅ [] [].
Definition new_poll (fd0 : Z) : exec poll_loop :=
  s ← uv__io_init 0 fd0 empty_poll; uv__io_start 0 UV__POLLIN s.

(** ** The size of the table *)

(** The bits at most [k - 1] below a bit of [n]. *)
Lemma smear_bits n x k i : 0 ≤ i → 0 < k → (∀ j, 0 ≤ j → Z.testbit x j = true ↔ ∃ d, 0 ≤ d < k ∧ Z.testbit n (j + d) = true) →
  Z.testbit (Z.lor x (Z.shiftr x k)) i = true ↔ ∃ d, 0 ≤ d < 2 * k ∧ Z.testbit n (i + d) = true.
Proof.
  intros Hi Hk Hx. rewrite Z.lor_spec, Z.shiftr_spec, orb_true_iff, Hx, Hx by lia. split.
  - intros [(d & Hd & E)|(d & Hd & E)]; [exists d|exists (k + d)]; (split; [lia|]); [done|]. by rewrite Z.add_assoc.
  - intros (d & Hd & E). destruct (decide (d < k)); [left; exists d; split; [lia|done]|right; exists (d - k); split; [lia|]]. by replace (i + k + (d - k)) with (i + d) by lia.
Qed.

(** The least power of two that is not less, for every length the table can have. *)
Lemma next_power_of_two_least v : 2 <= v <= 2 ^ 31 → next_power_of_two v = 2 ^ Z.log2_up v.
Proof.
  intros Hv. unfold next_power_of_two. rewrite (wrap_small 32 (v - 1)) by (unfold is_u; lia). set (n := v - 1).
  set (v1 := Z.lor n (Z.shiftr n 1)). set (v2 := Z.lor v1 (Z.shiftr v1 2)). set (v3 := Z.lor v2 (Z.shiftr v2 4)). set (v4 := Z.lor v3 (Z.shiftr v3 8)). set (v5 := Z.lor v4 (Z.shiftr v4 16)).
  assert (∀ i, 0 ≤ i → Z.testbit v5 i = true ↔ ∃ d, 0 ≤ d < 32 ∧ Z.testbit n (i + d) = true) as H5.
  { intros i Hi. apply (smear_bits n v4 16); [done|lia|]. clear i Hi. intros i Hi. apply (smear_bits n v3 8); [done|lia|]. clear i Hi.
    intros i Hi. apply (smear_bits n v2 4); [done|lia|]. clear i Hi. intros i Hi. apply (smear_bits n v1 2); [done|lia|]. clear i Hi.
    intros i Hi. apply (smear_bits n n 1); [done|lia|]. clear i Hi. intros i Hi. split; [exists 0; by rewrite Z.add_0_r|]. intros (d & Hd & E). by replace d with 0 in E by lia; rewrite Z.add_0_r in E. }
  assert (0 < n < 2 ^ 31) as Hn by lia. assert (0 ≤ Z.log2 n < 31) as Hl by (split; [apply Z.log2_nonneg|apply Z.log2_lt_pow2; lia]).
  assert (v5 = Z.ones (Z.log2 n + 1)) as ->.
  { apply Z.bits_inj'. intros i Hi. rewrite Z.testbit_ones_nonneg by lia. apply eq_true_iff_eq. rewrite H5, Z.ltb_lt by done. split.
    - intros (d & Hd & E). destruct (decide (i < Z.log2 n + 1)); [done|]. rewrite Z.bits_above_log2 in E by lia. done.
    - intros Hlt. exists (Z.log2 n - i). split; [lia|]. replace (i + (Z.log2 n - i)) with (Z.log2 n) by lia. apply Z.bit_log2. lia. }
  rewrite Z.ones_equiv. assert (2 ^ (Z.log2 n + 1) ≤ 2 ^ 31) by (apply Z.pow_le_mono_r; lia). pose proof (Z.pow_pos_nonneg 2 (Z.log2 n + 1)).
  rewrite wrap_small by (unfold is_u; lia). rewrite Z.log2_up_eqn by lia. replace (Z.pred v) with n by lia. replace (Z.succ (Z.log2 n)) with (Z.log2 n + 1) by lia. lia.
Qed.

Lemma resize_ok len s : 0 < len ≤ 2 ^ 30 → 0 ≤ nwatchers s < 2 ^ 31 →
  len ≤ nwatchers (maybe_resize len s) < 2 ^ 31 ∧ nwatchers s ≤ nwatchers (maybe_resize len s) ∧
  maybe_resize len s = set_nwatchers (nwatchers (maybe_resize len s)) s.
Proof.
  intros Hl Hn. unfold maybe_resize. destruct (len <=? nwatchers s) eqn:E; [destruct s; cbn in *; split; [blia|done]|].
  rewrite (wrap_small 32 (len + 2)) by (unfold is_u; lia). rewrite next_power_of_two_least by lia. cbn.
  pose proof (Z.log2_log2_up_spec (len + 2)) as Hs. pose proof (Z.log2_up_spec (len + 2) ltac:(lia)) as [_ Hup].
  assert (Z.log2_up (len + 2) ≤ 31) as Hle by (apply Z.log2_up_le_pow2; lia). assert (2 ^ Z.log2_up (len + 2) ≤ 2 ^ 31) by (apply Z.pow_le_mono_r; lia).
  rewrite wrap_small by (unfold is_u; lia). split; [lia|split; [blia|done]].
Qed.

(** ** The invariant *)

(** The watchers initialised since the last wait. *)
Definition inited_step (acc : gset Z) (e : poll_log) : gset Z :=
  match e with PInited w => {[ w ]} ∪ acc | PWait _ _ => ∅ | PCallback _ _ _ => acc end.
Definition inited (l : list poll_log) : gset Z := fold_left inited_step l ∅.
Arguments inited : simpl never.

Lemma inited_snoc l e : inited (l ++ [e]) = inited_step (inited l) e.
Proof. apply fold_left_app. Qed.

(** Every callback was for events the watcher had asked for, or an error, and for a
    watcher that was there when the kernel was asked. *)
Definition callback_ok (l : list poll_log) (w events pevents : Z) : Prop :=
  (w ∉ inited l) ∧ events ≠ 0 ∧ pevents ≠ 0 ∧ Z.land events (Z.lor pevents (Z.lor UV__POLLERR UV__POLLHUP)) = events.
Definition log_ok (l : list poll_log) : Prop :=
  ∀ l1 w events pevents l2, l = l1 ++ PCallback w events pevents :: l2 → callback_ok l1 w events pevents.

Lemma log_ok_snoc l e : log_ok l → (∀ w events pevents, e = PCallback w events pevents → callback_ok l w events pevents) → log_ok (l ++ [e]).
Proof.
  intros Hl He l1 w ev pev l2 E. destruct l2 as [|x l2] using rev_ind.
  - apply app_inj_tail in E as [-> ->]. by apply He.
  - rewrite app_comm_cons, app_assoc in E. apply app_inj_tail in E as [-> _]. by eapply Hl.
Qed.

Record pinv (s : poll_loop) : Prop := {
  p_reg : ∀ fd w, watchers s !! fd = Some w → w_fd (get_w w s) = fd ∧ w_pevents (get_w w s) ≠ 0;
  p_on : ∀ w, w_pevents (get_w w s) ≠ 0 → watchers s !! w_fd (get_w w s) = Some w ∧ 0 ≤ w_fd (get_w w s) < nwatchers s;
  p_queue : ∀ w, w ∈ watcher_queue s → w_pevents (get_w w s) ≠ 0;
  p_sync : ∀ w, w_pevents (get_w w s) ≠ 0 → w_events (get_w w s) ≠ w_pevents (get_w w s) → w ∈ watcher_queue s;
  p_off : ∀ w, w_pevents (get_w w s) = 0 → w_events (get_w w s) = 0;
  p_kernel : ∀ w, w_events (get_w w s) ≠ 0 → epoll s !! w_fd (get_w w s) = Some (w_events (get_w w s));
  p_owner : ∀ w x, 0 ≤ w_fd (get_w w s) → w_fd (get_w x s) = w_fd (get_w w s) → x = w;
  p_fd : ∀ w, -1 ≤ w_fd (get_w w s) < 2 ^ 30;
  p_bits : ∀ w, Z.ldiff (w_pevents (get_w w s)) 5 = 0;
  p_nfds : nfds s = Z.of_nat (size (watchers s));
  p_epoll : ∀ fd, is_Some (epoll s !! fd) → 0 ≤ fd < nwatchers s ∧ ∃ w, w_fd (get_w w s) = fd;
  p_batch : ∀ fd ev, (fd, ev) ∈ batch s → fd = -1 ∨ (0 ≤ fd < nwatchers s ∧ ∃ w, w_fd (get_w w s) = fd ∧ w ∉ inited (plog s));
  p_nw : 0 ≤ nwatchers s < 2 ^ 31;
  p_log : log_ok (plog s)
}.

Lemma get_set w io s x : get_w x (set_w w io s) = if decide (w = x) then io else get_w x s.
Proof. unfold get_w, set_w. cbn. case_decide; [subst; by rewrite lookup_insert_eq|by rewrite lookup_insert_ne]. Qed.

(** Watcher [w] becomes [io]; only its old and new descriptors are concerned. *)
Section Update.
Context (w : Z) (io : uv__io) (s s' : poll_loop).
Context (P : pinv s).
Context (Hget : ∀ x, get_w x s' = if decide (w = x) then io else get_w x s).

Definition concerned (fd : Z) : Prop := fd = w_fd io ∨ fd = w_fd (get_w w s).

Context (Hown : ∀ x, x ≠ w → 0 ≤ w_fd io → w_fd (get_w x s) ≠ w_fd io).
Context (Hmaps : ∀ fd, ¬ concerned fd → watchers s' !! fd = watchers s !! fd ∧ epoll s' !! fd = epoll s !! fd).
Context (Hqueue : ∀ x, x ≠ w → x ∈ watcher_queue s' ↔ x ∈ watcher_queue s).
Context (Hnw : nwatchers s ≤ nwatchers s' < 2 ^ 31).

Lemma others_free x : x ≠ w → 0 ≤ w_fd (get_w x s) → ¬ concerned (w_fd (get_w x s)).
Proof.
  intros Hne Hx [E|E]; [by apply (Hown x Hne); [lia|]|]. apply Hne. apply (p_owner _ P); [lia|done].
Qed.

Lemma pinv_update :
  (∀ fd x, concerned fd → watchers s' !! fd = Some x → x = w ∧ fd = w_fd io ∧ w_pevents io ≠ 0) →
  (w_pevents io ≠ 0 → watchers s' !! w_fd io = Some w ∧ 0 ≤ w_fd io < nwatchers s') →
  (w ∈ watcher_queue s' → w_pevents io ≠ 0) →
  (w_pevents io ≠ 0 → w_events io ≠ w_pevents io → w ∈ watcher_queue s') →
  (w_pevents io = 0 → w_events io = 0) →
  (w_events io ≠ 0 → epoll s' !! w_fd io = Some (w_events io)) →
  -1 ≤ w_fd io < 2 ^ 30 → Z.ldiff (w_pevents io) 5 = 0 → nfds s' = Z.of_nat (size (watchers s')) →
  (∀ fd, concerned fd → is_Some (epoll s' !! fd) → fd = w_fd io ∧ 0 ≤ fd < nwatchers s') →
  (∀ fd ev, (fd, ev) ∈ batch s' → fd = -1 ∨ ∃ ev', (fd, ev') ∈ batch s ∧ (fd = w_fd (get_w w s) → fd = w_fd io)) →
  log_ok (plog s') → (∀ x, x ∉ inited (plog s) → (x = w → 0 ≤ w_fd (get_w w s)) → x ∉ inited (plog s')) → pinv s'.
Proof.
  intros L1 L2 L3 L4 L5 L6 L8 L9 L10 L11 L12 L13 L14. destruct P as [P1 P2 P3 P4 P5 P6 P7 P8 P9 P10 P11 P12 P13 P14].
  assert (∀ x, x ≠ w → get_w x s' = get_w x s) as Gx by (intros x Hne; rewrite Hget, decide_False; done).
  assert (get_w w s' = io) as Gw by (by rewrite Hget, decide_True).
  assert (∀ fd, Decision (concerned fd)) as Dc by (intros fd; unfold concerned; apply _).
  split.
  - intros fd x E. destruct (Dc fd) as [Hc|Hc]; [destruct (L1 fd x Hc E) as (-> & -> & ?); by rewrite Gw|].
    rewrite (proj1 (Hmaps fd Hc)) in E. destruct (P1 fd x E) as [E1 E2]. rewrite Gx; [done|]. intros ->. apply Hc. by right.
  - intros x. destruct (decide (x = w)) as [->|Hne]; [rewrite Gw; done|]. rewrite Gx by done. intros Hp. destruct (P2 x Hp) as [E1 E2].
    rewrite (proj1 (Hmaps _ (others_free x Hne ltac:(lia)))). split; [done|lia].
  - intros x. destruct (decide (x = w)) as [->|Hne]; [rewrite Gw; done|]. rewrite Gx, Hqueue by done. apply P3.
  - intros x. destruct (decide (x = w)) as [->|Hne]; [rewrite Gw; done|]. rewrite Gx, Hqueue by done. apply P4.
  - intros x. destruct (decide (x = w)) as [->|Hne]; [rewrite Gw; done|]. rewrite Gx by done. apply P5.
  - intros x. destruct (decide (x = w)) as [->|Hne]; [rewrite Gw; done|]. rewrite Gx by done. intros He.
    assert (w_pevents (get_w x s) ≠ 0) as Hp by (intros E; apply He; by apply P5). destruct (P2 x Hp) as [_ E2].
    rewrite (proj2 (Hmaps _ (others_free x Hne ltac:(lia)))). by apply P6.
  - intros x y. rewrite !Hget. repeat case_decide; subst; try done.
    + intros Hx Hy. by destruct (Hown y); [|done|].
    + intros Hx Hy. by destruct (Hown x); [|lia|].
    + apply P7.
  - intros x. rewrite Hget. case_decide; [done|apply P8].
  - intros x. rewrite Hget. case_decide; [done|apply P9].
  - done.
  - intros fd Hs. destruct (Dc fd) as [Hc|Hc]; [destruct (L11 fd Hc Hs) as (-> & ?); split; [done|]; exists w; by rewrite Gw|].
    rewrite (proj2 (Hmaps fd Hc)) in Hs. destruct (P11 fd Hs) as (? & x & Ex). split; [lia|]. exists x. rewrite Gx; [done|]. intros ->. apply Hc. by right.
  - intros fd ev Hb. destruct (L12 fd ev Hb) as [->|(ev' & Hb' & Hfd)]; [by left|]. destruct (P12 fd ev' Hb') as [->|(Hr & x & Ex & Hx)]; [by left|]. right. split; [lia|].
    exists x. split; [|apply L14; [done|]; intros ->; lia]. rewrite Hget. case_decide as E; [|done]. subst x. symmetry. by apply Hfd.
  - lia.
  - done.
Qed.
End Update.

(** A watcher's descriptor is in the table for the watcher only. *)
Lemma reg_self w x s : pinv s → 0 ≤ w_fd (get_w w s) → watchers s !! w_fd (get_w w s) = Some x → x = w ∧ w_pevents (get_w w s) ≠ 0.
Proof.
  intros P Hfd E. destruct (p_reg _ P _ _ E) as [E1 E2]. assert (x = w) as -> by (by apply (p_owner _ P)). done.
Qed.

Lemma init_ok w fd s : pinv s → io_allowed (PInit w fd) s = true → ∃ s', uv__io_init w fd s = Val s' ∧ pinv s' ∧ nwatchers s ≤ nwatchers s'.
Proof.
  intros P Ha. cbn in Ha. rewrite !andb_true_iff, bool_decide_eq_true in Ha. destruct Ha as (((Hw & Hfd) & Hmax) & Hnew).
  unfold uv__io_init, require. rewrite (proj2 (Z.leb_le _ _)) by blia. cbn. eexists. split; [done|]. split; [|cbn; lia].
  assert (∀ x, w_fd (get_w x s) ≠ fd) as Hfree.
  { intros x. unfold get_w. destruct (ios s !! x) as [io|] eqn:E; cbn; [exact (Hnew x io E)|blia]. }
  assert (∀ f x, watchers s !! f = Some x → f ≠ fd ∧ f ≠ -1) as Hr.
  { intros f x E. destruct (p_reg _ P f x E) as [E1 E2]. destruct (p_on _ P x E2) as [_ ?]. rewrite <- E1. split; [apply Hfree|lia]. }
  assert (∀ f, is_Some (epoll s !! f) → f ≠ fd ∧ f ≠ -1) as He.
  { intros f Hs. destruct (p_epoll _ P f Hs) as (? & x & <-). split; [apply Hfree|lia]. }
  apply (pinv_update w (mkW fd 0 0) s); try done.
  - intros x. apply get_set.
  - pose proof (p_nw _ P). cbn. lia.
  - cbn. intros f x Hc E. destruct (Hr f x E) as [? ?]. unfold concerned in Hc. cbn in Hc. blia.
  - cbn. intros Hq%(p_queue _ P). destruct (p_on _ P w Hq). blia.
  - cbn. blia.
  - apply (p_nfds _ P).
  - cbn. intros f Hc Hs. destruct (He f Hs) as [? ?]. unfold concerned in Hc. cbn in Hc. blia.
  - cbn. intros f ev Hb. destruct (p_batch _ P f ev Hb) as [->|(? & _)]; [by left|]. right. exists ev. split; [done|]. blia.
  - cbn. apply log_ok_snoc; [apply P|done].
  - cbn. intros x Hx Hxw. rewrite inited_snoc. cbn. assert (x ≠ w) by (intros ->; specialize (Hxw eq_refl); blia). set_solver.
Qed.

Lemma events_bits ev : events_ok ev = true → ev ≠ 0 ∧ Z.ldiff ev 5 = 0.
Proof. unfold events_ok. rewrite !orb_true_iff, !Z.eqb_eq. intros [[->| ->]| ->]; done. Qed.

Lemma lor_bits p ev : events_ok ev = true → Z.ldiff p 5 = 0 → Z.lor p ev ≠ 0 ∧ Z.ldiff (Z.lor p ev) 5 = 0.
Proof.
  intros He Hp. destruct (events_bits ev He) as [H1 H2]. split; [intros [_ ?]%Z.lor_eq_0_iff; done|].
  rewrite Z.ldiff_land, Z.land_lor_distr_l, <- !Z.ldiff_land, Hp, H2. done.
Qed.

Lemma ldiff_bits p ev : Z.ldiff p 5 = 0 → Z.ldiff (Z.ldiff p ev) 5 = 0.
Proof. intros Hp. rewrite Z.ldiff_ldiff_l, Z.lor_comm, <- Z.ldiff_ldiff_l, Hp. done. Qed.

Lemma queue_add w x (q : list Z) : x ≠ w → x ∈ (if decide (w ∈ q) then q else q ++ [w]) ↔ x ∈ q.
Proof. intros Hne. case_decide; set_solver. Qed.

Lemma queue_added w (q : list Z) : w ∈ (if decide (w ∈ q) then q else q ++ [w]).
Proof. case_decide; set_solver. Qed.

(** Watcher [w] asks for [p] and is in the queue and in the table. *)
Lemma pinv_ask w p s m n nf q : pinv s → 0 ≤ w_fd (get_w w s) < n → p ≠ 0 → Z.ldiff p 5 = 0 → nwatchers s ≤ n < 2 ^ 31 →
  m = <[w_fd (get_w w s) := w]> (watchers s) → nf = Z.of_nat (size m) →
  (∀ x, x ≠ w → x ∈ q ↔ x ∈ watcher_queue s) → w ∈ q ∨ w_events (get_w w s) = p →
  pinv (mkPoll (<[w := mkW (w_fd (get_w w s)) (w_events (get_w w s)) p]> (ios s)) m n nf q (epoll s) (batch s) (plog s)).
Proof.
  intros P Hfd Hp Hb Hn -> -> Hq Hw. pose proof (p_fd _ P w) as Hf.
  apply (pinv_update w (mkW (w_fd (get_w w s)) (w_events (get_w w s)) p) s); cbn [w_fd w_events w_pevents watchers epoll watcher_queue nwatchers nfds batch plog]; try done.
  - intros x. unfold get_w. cbn. case_decide; [subst; by rewrite lookup_insert_eq|by rewrite lookup_insert_ne].
  - intros x Hne Hx E. apply Hne. by apply (p_owner _ P).
  - intros fd Hc. rewrite lookup_insert_ne; [done|]. intros E. apply Hc. by left.
  - intros fd x [->| ->] E; cbn in E; rewrite lookup_insert_eq in E; injection E as <-; done.
  - by rewrite lookup_insert_eq.
  - intros _ Hne. by destruct Hw.
  - apply (p_kernel _ P).
  - intros fd [->| ->] Hs; cbn in *; (split; [done|lia]).
  - intros fd ev Hb'. destruct (p_batch _ P fd ev Hb') as [->|_]; [by left|]. right. by exists ev.
  - apply (p_log _ P).
Qed.

Lemma io_start_ok w ev s : pinv s → events_ok ev = true → 0 ≤ w_fd (get_w w s) →
  ∃ s', uv__io_start w ev s = Val s' ∧ pinv s' ∧ nwatchers s ≤ nwatchers s' ∧ 0 < nwatchers s'.
Proof.
  intros P Hev Hfd. pose proof (p_fd _ P w) as Hf. pose proof (p_nw _ P) as Hn. destruct (lor_bits _ _ Hev (p_bits _ P w)) as [Hp Hb].
  unfold uv__io_start, require. rewrite (proj2 (Z.leb_le _ _)) by lia. rewrite bind_Val. rewrite (proj2 (Z.ltb_lt _ _)) by (unfold INT_MAX; lia). rewrite bind_Val.
  cbn [w_fd w_events w_pevents]. set (io := mkW (w_fd (get_w w s)) (w_events (get_w w s)) (Z.lor (w_pevents (get_w w s)) ev)).
  destruct (resize_ok (w_fd (get_w w s) + 1) (set_w w io s)) as (Hn1 & Hn2 & ->); [lia|cbn; lia|]. set (n := nwatchers (maybe_resize (w_fd (get_w w s) + 1) (set_w w io s))) in *. cbn in Hn2.
  destruct (w_events (get_w w s) =? _) eqn:Ee.
  - apply Z.eqb_eq in Ee. rewrite (proj2 (Z.eqb_neq _ _)) by congruence. cbn [andb]. eexists. split; [done|]. split; [|cbn; lia].
    assert (w_pevents (get_w w s) ≠ 0) as Hp0. { intros E. apply Hp. rewrite <- Ee. by apply (p_off _ P). }
    destruct (p_on _ P w Hp0) as [Hr _]. apply (pinv_ask w (Z.lor (w_pevents (get_w w s)) ev) s (watchers s) n (nfds s) (watcher_queue s)); try done; try lia; [by rewrite insert_id|apply (p_nfds _ P)|by right..].
  - set (q := if decide (w ∈ watcher_queue s) then watcher_queue s else watcher_queue s ++ [w]).
    assert (∀ m nf, m = <[w_fd (get_w w s) := w]> (watchers s) → nf = Z.of_nat (size m) → pinv (mkPoll (<[w := io]> (ios s)) m n nf q (epoll s) (batch s) (plog s))) as Hask.
    { intros m nf Em En. apply (pinv_ask w (Z.lor (w_pevents (get_w w s)) ev) s m n nf q); try done; try lia; [intros x Hx; by apply queue_add|left; apply queue_added]. }
    assert ((if decide (w ∈ watcher_queue (set_nwatchers n (set_w w io s))) then set_nwatchers n (set_w w io s)
      else set_queue (watcher_queue (set_nwatchers n (set_w w io s)) ++ [w]) (set_nwatchers n (set_w w io s))) =
      mkPoll (<[w := io]> (ios s)) (watchers s) n (nfds s) q (epoll s) (batch s) (plog s)) as ->.
    { unfold q. cbn. case_decide; done. }
    cbn [watchers]. destruct (watchers s !! w_fd (get_w w s)) as [x|] eqn:Ex.
    + destruct (reg_self w x s P Hfd Ex) as [-> _]. eexists. split; [done|]. split; [|cbn; lia]. apply Hask; [by rewrite insert_id|apply (p_nfds _ P)].
    + eexists. split; [done|]. split; [|cbn; lia]. apply Hask; [done|]. cbn. rewrite map_size_insert_None by done. rewrite (p_nfds _ P). lia.
Qed.

(** Watcher [w] asks for nothing and is in neither the queue nor the table. *)
Lemma pinv_quit w s m nf q : pinv s → 0 ≤ w_fd (get_w w s) → m = delete (w_fd (get_w w s)) (watchers s) → nf = Z.of_nat (size m) →
  q = filter (λ x, x ≠ w) (watcher_queue s) →
  pinv (mkPoll (<[w := mkW (w_fd (get_w w s)) 0 0]> (ios s)) m (nwatchers s) nf q (epoll s) (batch s) (plog s)).
Proof.
  intros P Hfd -> -> ->. pose proof (p_fd _ P w) as Hf. pose proof (p_nw _ P) as Hn.
  apply (pinv_update w (mkW (w_fd (get_w w s)) 0 0) s); cbn [w_fd w_events w_pevents watchers epoll watcher_queue nwatchers nfds batch plog]; try done.
  - intros x. unfold get_w. cbn. case_decide; [subst; by rewrite lookup_insert_eq|by rewrite lookup_insert_ne].
  - intros x Hne Hx E. apply Hne. by apply (p_owner _ P).
  - intros fd Hc. rewrite lookup_delete_ne; [done|]. intros E. apply Hc. by left.
  - intros x Hne. rewrite list_elem_of_filter. tauto.
  - lia.
  - intros fd x [->| ->] E; cbn in E; by rewrite lookup_delete_eq in E.
  - intros [? _]%list_elem_of_filter. done.
  - intros fd [->| ->] Hs; cbn in *; (split; [done|]); by apply (p_epoll _ P).
  - intros fd ev Hb'. destruct (p_batch _ P fd ev Hb') as [->|_]; [by left|]. right. by exists ev.
  - apply (p_log _ P).
Qed.

Lemma get_mk w io m a b c d e f g : get_w w (mkPoll (<[w := io]> m) a b c d e f g) = io.
Proof. unfold get_w. cbn. by rewrite lookup_insert_eq. Qed.

Lemma stop_ok w ev s : pinv s → events_ok ev = true →
  ∃ s', uv__io_stop w ev s = Val s' ∧ pinv s' ∧ nwatchers s' = nwatchers s ∧ w_fd (get_w w s') = w_fd (get_w w s) ∧
    (ev = 5 → w_pevents (get_w w s') = 0).
Proof.
  intros P Hev. pose proof (p_fd _ P w) as Hf. pose proof (p_nw _ P) as Hn. unfold uv__io_stop. destruct (w_fd (get_w w s) =? -1) eqn:E1.
  { eexists. split; [done|]. split; [done|]. split; [done|]. split; [done|]. intros _. destruct (decide (w_pevents (get_w w s) = 0)) as [|Hp]; [done|]. destruct (p_on _ P w Hp). blia. }
  unfold require. rewrite (proj2 (Z.leb_le 0 (w_fd (get_w w s)))) by blia. rewrite bind_Val. destruct (nwatchers s <=? w_fd (get_w w s)) eqn:E2.
  { eexists. split; [done|]. split; [done|]. split; [done|]. split; [done|]. intros _. destruct (decide (w_pevents (get_w w s) = 0)) as [|Hp]; [done|]. destruct (p_on _ P w Hp). blia. }
  cbn [w_fd w_events w_pevents]. destruct (Z.ldiff (w_pevents (get_w w s)) ev =? 0) eqn:Ep.
  - cbn [set_queue set_w watchers nfds watcher_queue]. destruct (watchers s !! w_fd (get_w w s)) as [x|] eqn:Ex.
    + destruct (reg_self w x s P ltac:(blia) Ex) as [-> Hp0]. rewrite Z.eqb_refl, bind_Val.
      assert (0 < nfds s) as Hnf. { rewrite (p_nfds _ P). pose proof (map_size_ne_0_lookup_2 (watchers s) _ ltac:(by eexists)). lia. }
      rewrite (proj2 (Z.ltb_lt _ _)) by done. rewrite bind_Val. eexists. split; [done|]. split.
      * unfold set_w, set_watchers. cbn. rewrite insert_insert_eq. apply pinv_quit; [done|blia|done| |done].
        rewrite (p_nfds _ P), map_size_delete_Some by (by eexists). pose proof (map_size_ne_0_lookup_2 (watchers s) _ ltac:(by eexists)). lia.
      * split; [done|]. rewrite get_set, decide_True by done. done.
    + assert (w_pevents (get_w w s) = 0) as Hp0 by (destruct (decide (w_pevents (get_w w s) = 0)) as [|Hp]; [done|]; destruct (p_on _ P w Hp); congruence).
      eexists. split; [done|]. split.
      * rewrite (p_off _ P w Hp0), Hp0. cbn. apply (pinv_quit w s (watchers s) (nfds s) (filter (λ x, x ≠ w) (watcher_queue s))); [done|blia|by rewrite delete_id|apply (p_nfds _ P)|done].
      * split; [done|]. unfold set_queue, set_w. cbn [ios]. rewrite !get_mk. split; [done|]. intros _. by apply Z.eqb_eq.
  - assert (w_pevents (get_w w s) ≠ 0) as Hp0 by (intros E; rewrite E in Ep; done). destruct (p_on _ P w Hp0) as [Hr _].
    set (p := Z.ldiff (w_pevents (get_w w s)) ev) in *. set (q := if decide (w ∈ watcher_queue s) then watcher_queue s else watcher_queue s ++ [w]).
    exists (mkPoll (<[w := mkW (w_fd (get_w w s)) (w_events (get_w w s)) p]> (ios s)) (watchers s) (nwatchers s) (nfds s) q (epoll s) (batch s) (plog s)).
    split; [f_equal; unfold q, set_w; cbn; case_decide; done|]. split; [|split; [done|]].
    + apply pinv_ask; try done; try blia; [apply ldiff_bits, (p_bits _ P)| |apply (p_nfds _ P)|intros x Hx; by apply queue_add|left; apply queue_added].
      by rewrite insert_id.
    + rewrite !get_mk. split; [done|]. intros ->. exfalso. unfold p in Ep. rewrite (p_bits _ P w) in Ep. done.
Qed.

Lemma io_close_ok w s : pinv s → 0 < nwatchers s → 0 ≤ w_fd (get_w w s) →
  ∃ s', uv__io_close w s = Val s' ∧ pinv (set_w w closed_io s') ∧ nwatchers s' = nwatchers s.
Proof.
  intros P Hn Hfd. unfold uv__io_close. destruct (stop_ok w 5 s P eq_refl) as (s1 & E & P1 & N1 & F1 & O1). change (Z.lor UV__POLLIN UV__POLLOUT) with 5. rewrite E, bind_Val.
  specialize (O1 eq_refl). unfold uv__platform_invalidate_fd, require. rewrite (proj2 (Z.eqb_neq (nwatchers s1) 0)) by lia. cbn [negb]. rewrite bind_Val. rewrite F1.
  eexists. split; [done|]. split; [|done]. pose proof (p_nw _ P1). assert (∀ x, watchers s1 !! w_fd (get_w w s) ≠ Some x) as Hnr.
  { intros x Ex. rewrite <- F1 in Ex. destruct (reg_self w x s1 P1 ltac:(lia) Ex). done. }
  apply (pinv_update w closed_io s1); cbn [w_fd w_events w_pevents watchers epoll watcher_queue nwatchers nfds batch plog set_w set_epoll set_batch closed_io]; try done.
  - intros x. rewrite get_set. case_decide; done.
  - intros fd Hc. split; [done|]. rewrite lookup_delete_ne; [done|]. intros <-. apply Hc. right. done.
  - lia.
  - intros fd x [->| ->] Ex; cbn in Ex.
    + destruct (p_reg _ P1 _ _ Ex) as [E1 E2]. destruct (p_on _ P1 x E2). cbn in E1. lia.
    + rewrite F1 in Ex. by destruct (Hnr x).
  - intros Hq. by destruct (p_queue _ P1 w Hq).
  - apply (p_nfds _ P1).
  - intros fd [->| ->] Hs; cbn in Hs.
    + rewrite lookup_delete_ne in Hs by lia. destruct (p_epoll _ P1 _ Hs). cbn in *. lia.
    + rewrite F1, lookup_delete_eq in Hs. by destruct Hs.
  - intros fd ev' Hb. apply list_elem_of_fmap in Hb as ([f e] & Eq & Hb). cbn in Eq. destruct (f =? w_fd (get_w w s)) eqn:Ef; simplify_eq; [by left|].
    right. exists e. split; [done|]. rewrite F1. blia.
  - apply (p_log _ P1).
Qed.

(** ** Runs *)

Lemma sync_step w q s : pinv s → watcher_queue s = w :: q →
  let io := get_w w s in
  pinv (set_w w (mkW (w_fd io) (w_pevents io) (w_pevents io)) (set_epoll (<[w_fd io := w_pevents io]> (epoll s)) (set_queue q s))).
Proof.
  intros P Eq io. pose proof (p_nw _ P) as Hn. assert (w_pevents (get_w w s) ≠ 0) as Hp by (apply (p_queue _ P); rewrite Eq; set_solver).
  destruct (p_on _ P w Hp) as [Hr Hfd]. pose proof (p_fd _ P w) as Hf.
  apply (pinv_update w (mkW (w_fd io) (w_pevents io) (w_pevents io)) s); cbn [w_fd w_events w_pevents watchers epoll watcher_queue nwatchers nfds batch plog set_w set_epoll set_queue]; try done.
  - intros x. rewrite get_set. case_decide; done.
  - intros x Hne Hx E. apply Hne. by apply (p_owner _ P).
  - intros fd Hc. split; [done|]. rewrite lookup_insert_ne; [done|]. intros E. apply Hc. by left.
  - intros x Hne. rewrite Eq. set_solver.
  - lia.
  - intros fd x [->| ->] E; cbn in E; fold io in E; change (watchers s !! w_fd (get_w w s) = Some x) in E; rewrite Hr in E; injection E as <-; done.
  - intros _. by rewrite lookup_insert_eq.
  - apply (p_bits _ P).
  - apply (p_nfds _ P).
  - intros fd [->| ->] _; cbn; (split; [done|]; subst io; lia).
  - intros fd ev Hb'. destruct (p_batch _ P fd ev Hb') as [->|_]; [by left|]. right. by exists ev.
  - apply (p_log _ P).
Qed.

(** What was asked for of each watcher. *)
Definition same_asked (s s' : poll_loop) : Prop :=
  ∀ w, w_fd (get_w w s') = w_fd (get_w w s) ∧ w_pevents (get_w w s') = w_pevents (get_w w s).

(** ** Outcomes *)

(** The run returns with [Q], or fails where [P] does not hold. *)
Definition ends {A} (P : Prop) (r : exec A) (Q : A → Prop) : Prop :=
  match r with Val a => Q a | UB => ¬ P | NoFuel => False end.

Lemma ends_bind {A B} (P : Prop) (m : exec A) (f : A → exec B) (Q1 : A → Prop) (Q : B → Prop) :
  ends P m Q1 → (∀ a, Q1 a → ends P (f a) Q) → ends P (a ← m; f a) Q.
Proof. destruct m; cbn; [auto|done..]. Qed.

Lemma ends_require {A} (P : Prop) b (k : exec A) (Q : A → Prop) : (P → b = true) → (b = true → ends P k Q) → ends P (_ ← require b; k) Q.
Proof. unfold require. destruct b; cbn; [auto|]. intros H _ HP. by apply H in HP. Qed.

Lemma ends_weaken {A} (P P' : Prop) (r : exec A) (Q : A → Prop) : (P' → P) → ends P r Q → ends P' r Q.
Proof. destruct r; cbn; tauto. Qed.

Lemma ends_Val {A} (P : Prop) (r : exec A) (Q : A → Prop) : ends P r Q → P → ∃ a, r = Val a ∧ Q a.
Proof. destruct r; cbn; [eauto|tauto..]. Qed.

Lemma sync_one_ok refused io m : (w_events io ≠ 0 → is_Some (m !! w_fd io)) →
  ends (∀ fd, refused fd = 0) (epoll_sync_one refused io m) (λ m', m' = <[w_fd io := w_pevents io]> m).
Proof.
  intros Hm. unfold epoll_sync_one, uv__epoll_ctl. destruct (refused (w_fd io) =? 0) eqn:Er; cbn [negb].
  - destruct (w_events io =? 0) eqn:Ee.
    + destruct (m !! w_fd io) eqn:Em; [|done]. cbn. by rewrite Em.
    + destruct (Hm ltac:(blia)) as (x & ->). done.
  - assert (¬ ∀ fd, refused fd = 0) as Hn by (intros H; rewrite H in Er; done). rewrite Er. unfold require.
    repeat (case_match; cbn; try done).
Qed.

Lemma sync_ends refused q s : pinv s → watcher_queue s = q → ends (∀ fd, refused fd = 0) (epoll_sync refused q s)
  (λ s', pinv s' ∧ watcher_queue s' = [] ∧ nwatchers s' = nwatchers s ∧ same_asked s s' ∧ plog s' = plog s ∧ batch s' = batch s).
Proof.
  revert s. induction q as [|w q IH]; intros s P Eq; cbn [epoll_sync]; [cbn [ends]; do 3 (split; [done|]); split; [by intros w|done]|].
  change (get_w w (set_queue q s)) with (get_w w s).
  assert (w_pevents (get_w w s) ≠ 0) as Hp by (apply (p_queue _ P); rewrite Eq; set_solver). destruct (p_on _ P w Hp) as [Hr Hfd].
  apply ends_require; [blia|intros _]. apply ends_require; [blia|intros _]. cbn [nwatchers set_queue]. apply ends_require; [blia|intros _].
  eapply ends_bind; [apply sync_one_ok|].
  { cbn. intros He. rewrite (p_kernel _ P w He). by eexists. }
  intros m ->. cbn [epoll set_queue]. pose proof (IH _ (sync_step w q s P Eq) eq_refl) as H. destruct (epoll_sync _ _ _) as [s'| |]; [|done..].
  destruct H as (P' & Q' & N' & A' & L'). split; [done|]. split; [done|]. split; [done|]. split; [|done]. intros x. destruct (A' x) as [A1 A2]. rewrite A1, A2, get_set. case_decide; [by subst|done].
Qed.

Lemma sync_ok q s : pinv s → watcher_queue s = q →
  ∃ s', uv__epoll_sync q s = Val s' ∧ pinv s' ∧ watcher_queue s' = [] ∧ nwatchers s' = nwatchers s ∧ same_asked s s' ∧ plog s' = plog s ∧ batch s' = batch s.
Proof. intros P Eq. by apply (ends_Val _ _ _ (sync_ends (λ _, 0) q s P Eq)). Qed.

Definition good_poll (s : poll_loop) : Prop := pinv s ∧ 0 < nwatchers s.

Lemma io_do_ok c s : good_poll s → ∃ s', io_do c s = Val s' ∧ good_poll s'.
Proof.
  intros [P Hn]. unfold io_do. destruct (io_allowed c s) eqn:Ea; cbn [negb]; [|by exists s]. destruct c as [w fd|w ev|w ev|w].
  - destruct (init_ok w fd s P Ea) as (s' & -> & P' & N'). exists s'. split; [done|]. split; [done|lia].
  - cbn in Ea. apply andb_true_iff in Ea as [E1 E2]. destruct (io_start_ok w ev s P E1 ltac:(blia)) as (s' & -> & P' & N' & N2). by exists s'.
  - destruct (stop_ok w ev s P Ea) as (s' & -> & P' & N' & _). exists s'. split; [done|]. split; [done|lia].
  - cbn in Ea. destruct (io_close_ok w s P Hn ltac:(blia)) as (s' & -> & P' & N'). rewrite bind_Val. eexists. split; [done|]. split; [done|]. cbn. lia.
Qed.

Lemma io_dos_ok cs s : good_poll s → ∃ s', io_dos cs s = Val s' ∧ good_poll s'.
Proof.
  revert s. induction cs as [|c cs IH]; intros s G; [by exists s|]. cbn [io_dos]. destruct (io_do_ok c s G) as (s1 & -> & G1). rewrite bind_Val. by apply IH.
Qed.

(** What changes only the log and the batch. *)
Lemma pinv_log s b l : pinv s → (∀ fd ev, (fd, ev) ∈ b → fd = -1 ∨ (0 ≤ fd < nwatchers s ∧ ∃ w, w_fd (get_w w s) = fd ∧ w ∉ inited l)) → log_ok l →
  pinv (mkPoll (ios s) (watchers s) (nwatchers s) (nfds s) (watcher_queue s) (epoll s) b l).
Proof. intros [P1 P2 P3 P4 P5 P6 P7 P8 P9 P10 P11 P12 P13 P14] Hb Hl. by split. Qed.

(** The events passed on are among those asked for, and errors. *)
Lemma passed_on ev p : let e := Z.land ev (Z.lor p (Z.lor UV__POLLERR UV__POLLHUP)) in
  let e' := if (e =? UV__POLLERR) || (e =? UV__POLLHUP) then Z.lor e (Z.land p (Z.lor UV__POLLIN UV__POLLOUT)) else e in
  Z.land e' (Z.lor p (Z.lor UV__POLLERR UV__POLLHUP)) = e'.
Proof.
  intros e e'. set (m := Z.lor p (Z.lor UV__POLLERR UV__POLLHUP)) in *. assert (Z.land e m = e) as He by (unfold e; by rewrite <- Z.land_assoc, Z.land_diag).
  unfold e'. destruct (_ || _); [|done]. rewrite Z.land_lor_distr_l, He. f_equal. rewrite <- Z.land_assoc, (Z.land_comm _ m), Z.land_assoc. f_equal.
  unfold m. apply Z.bits_inj'. intros i Hi. rewrite Z.land_spec, Z.lor_spec. by destruct (Z.testbit p i).
Qed.

(** The kernel forgets a descriptor that nobody watches. *)
Lemma pinv_disarm fd s : pinv s → watchers s !! fd = None → pinv (set_epoll (delete fd (epoll s)) s).
Proof.
  intros P Hn. destruct P as [P1 P2 P3 P4 P5 P6 P7 P8 P9 P10 P11 P12 P13 P14]. split; try done.
  - intros w Hw. cbn. rewrite lookup_delete_ne; [by apply P6|]. intros Ef. assert (w_pevents (get_w w s) ≠ 0) as Hp by (intros E; apply Hw; by apply P5).
    destruct (P2 w Hp) as [E _]. change (fd = w_fd (get_w w s)) in Ef. congruence.
  - intros f Hs. apply P11. cbn in Hs. destruct (decide (fd = f)) as [->|Hne]; [by rewrite lookup_delete_eq in Hs; destruct Hs|by rewrite lookup_delete_ne in Hs].
Qed.

Section Run.
Context (user : list poll_log → list io_call).

Lemma io_event_ok fd ev b s : good_poll s → batch s = (fd, ev) :: b →
  ∃ s' c, io_event user fd ev (set_batch b s) = Val (s', c) ∧ good_poll s'.
Proof.
  intros [P Hn] Eb. assert (pinv (set_batch b s)) as P0.
  { apply (pinv_log s); [done| |apply P]. intros f e He. apply (p_batch _ P f e). rewrite Eb. set_solver. }
  unfold io_event. destruct (fd =? -1) eqn:E1; [by eexists _, _|]. destruct (p_batch _ P fd ev) as [->|(Hfd & x & Hx & Hxi)]; [rewrite Eb; set_solver|done|].
  unfold require. rewrite (proj2 (Z.leb_le _ _)), bind_Val by lia. cbn [nwatchers set_batch]. rewrite (proj2 (Z.ltb_lt _ _)), bind_Val by lia. change (watchers (set_batch b s)) with (watchers s).
  destruct (watchers s !! fd) as [w|] eqn:Ew.
  - destruct (p_reg _ P fd w Ew) as [Hw Hp]. assert (w = x) as -> by (apply (p_owner _ P); lia).
    change (get_w x (set_batch b s)) with (get_w x s). cbv zeta.
    match goal with |- context [negb (?e =? 0)] => set (e' := e) end. destruct (e' =? 0) eqn:E0; cbn [negb]; [by eexists _, _|].
    unfold io_callback. destruct (io_dos_ok (user (plog s ++ [PCallback x e' (w_pevents (get_w x s))])) (pnote (PCallback x e' (w_pevents (get_w x s))) (set_batch b s))) as (s' & E & G).
    { split; [|done]. apply (pinv_log (set_batch b s)); [done| |].
      - intros f e He. rewrite inited_snoc. cbn [inited_step]. by apply (p_batch _ P0 f e).
      - apply log_ok_snoc; [apply P|]. intros ? ? ? [= <- <- <-]. split; [done|]. split; [blia|]. split; [done|]. apply passed_on. }
    eexists _, _. split; [|exact G]. cbn [plog pnote set_batch] in E. change (get_w x (set_batch b s)) with (get_w x s). cbn [plog pnote set_batch]. rewrite E. done.
  - eexists _, _. split; [done|]. split; [|done]. apply pinv_disarm; [done|]. done.
Qed.

Lemma io_events_ok n k s : good_poll s → ∃ s' k', io_events user n k s = Val (s', k') ∧ good_poll s'.
Proof.
  revert k s. induction n as [|n IH]; intros k s G; cbn [io_events]; [by eexists _, _|]. destruct (batch s) as [|[fd ev] b] eqn:Eb; [by eexists _, _|].
  destruct (io_event_ok fd ev b s G Eb) as (s' & c & -> & G'). cbn. by apply IH.
Qed.

Lemma wait_note_ok now timeout s : good_poll s → good_poll (pnote (PWait now timeout) s).
Proof.
  intros [P Hn]. split; [|done]. apply (pinv_log s); [done| |apply log_ok_snoc; [apply P|done]]. intros f e He.
  destruct (p_batch _ P f e He) as [->|(? & x & ? & ?)]; [by left|]. right. split; [done|]. exists x. split; [done|]. rewrite inited_snoc. cbn. set_solver.
Qed.

Lemma batch_ok evs s now timeout : good_poll (pnote (PWait now timeout) s) → good_poll (set_batch (reported evs s) (pnote (PWait now timeout) s)).
Proof.
  intros [P Hn]. split; [|done]. apply (pinv_log (pnote (PWait now timeout) s)); [done| |apply P]. intros f e (i & Hi & _)%elem_of_take; apply list_elem_of_lookup_2, list_elem_of_filter in Hi as [Hs _]. cbn in Hs.
  destruct (p_epoll _ P f Hs) as (? & x & ?). right. split; [done|]. exists x. split; [done|]. cbn. rewrite inited_snoc. cbn. set_solver.
Qed.

Lemma drop_batch_ok s : good_poll s → good_poll (set_batch [] s).
Proof. intros [P Hn]. split; [|done]. apply (pinv_log s); [done| |apply P]. intros f e He. by apply not_elem_of_nil in He. Qed.

Lemma reported_none evs s : zlen (reported evs s) = 0 → ¬ ∃ e, e ∈ evs ∧ is_Some (epoll s !! e.1).
Proof.
  intros E (e & He & Hs). assert (e ∈ filter (λ e, is_Some (epoll s !! e.1)) evs) as Hin by (by apply list_elem_of_filter).
  unfold reported in E. destruct (filter _ evs) as [|x l]; [by apply not_elem_of_nil in Hin|]. cbn in E. rewrite zlen_cons in E. pose proof (zlen_nonneg (take 1023 l)). lia.
Qed.

Lemma io_wait_ok answers count now base timeout s : good_poll s → -1 ≤ timeout →
  ends (Forall (λ p, lawful p.2) answers) (io_wait user answers count now base timeout s) (λ r, good_poll r.1).
Proof.
  revert count now timeout s. induction answers as [|[t a] answers IH]; intros count now timeout s G Ht; cbn [io_wait]; [done|].
  pose proof (wait_note_ok now timeout s G) as G1.
  assert (∀ count2 timeout2 s2, good_poll s2 → -1 ≤ timeout2 →
    ends (Forall (λ p, lawful p.2) ((t, a) :: answers)) (io_wait user answers count2 t base timeout2 s2) (λ r, good_poll r.1)) as Hgo.
  { intros c2 t2 s2 G2 H2. eapply ends_weaken; [|by apply IH]. by intros [_ ?]%Forall_cons. }
  assert (∀ s2, good_poll s2 → timeout ≠ -1 → timeout ≠ 0 → ends (Forall (λ p, lawful p.2) ((t, a) :: answers)) (_ ← require (0 <? timeout);
    if timeout <=? u64 (t - base) then Val (s2, t) else io_wait user answers count t base (timeout - u64 (t - base)) s2) (λ r, good_poll r.1)) as Hup.
  { intros s2 G2 H1 H2. apply ends_require; [blia|intros _]. destruct (_ <=? _) eqn:E; [done|]. apply Hgo; [done|blia]. }
  destruct (a (epoll (pnote (PWait now timeout) s)) timeout) as [errno|evs] eqn:Ea.
  - apply ends_require.
    { intros [Hl _]%Forall_cons. specialize (Hl (epoll (pnote (PWait now timeout) s)) timeout). cbn [snd] in Hl. rewrite Ea in Hl. by apply Z.eqb_eq. }
    intros _. destruct (timeout =? -1) eqn:E1; [by apply Hgo|]. destruct (timeout =? 0) eqn:E2; [done|]. apply Hup; [done|blia|blia].
  - destruct (zlen _ =? 0) eqn:Ez.
    { apply ends_require; [|done]. intros [Hl _]%Forall_cons. specialize (Hl (epoll (pnote (PWait now timeout) s)) timeout). cbn [snd] in Hl. rewrite Ea in Hl.
      destruct (timeout =? -1) eqn:E1; [|done]. exfalso. eapply reported_none, Hl; blia. }
    apply ends_require; [destruct G1; blia|intros _].
    destruct (io_events_ok (length (reported evs (pnote (PWait now timeout) s))) 0 _ (batch_ok evs s now timeout G1)) as (s2 & k & E & G2).
    change (reported evs (pnote (PWait now timeout) s)) with (reported evs s) in *. rewrite E. pose proof (drop_batch_ok s2 G2) as G3. cbn [mbind]. rewrite bind_Val.
    destruct (k =? 0); cbn [negb].
    + destruct (timeout =? 0) eqn:E2; [done|]. destruct (timeout =? -1) eqn:E1; [by apply Hgo|]. apply Hup; [done|blia|blia].
    + destruct (_ && _); [|done]. apply Hgo; [done|lia].
Qed.

Lemma poll_ok refused answers now timeout s : good_poll s → -1 ≤ timeout →
  ends ((∀ fd, refused fd = 0) ∧ Forall (λ p, lawful p.2) answers) (uv__io_poll user refused answers now timeout s) (λ r, good_poll r.1).
Proof.
  intros G Ht. pose proof G as [P Hn]. unfold uv__io_poll. destruct (nfds s =? 0) eqn:E.
  - assert (watcher_queue s = []) as Eq.
    { destruct (watcher_queue s) as [|w q] eqn:Eq; [done|]. exfalso. assert (w_pevents (get_w w s) ≠ 0) as Hp by (apply (p_queue _ P); rewrite Eq; set_solver).
      destruct (p_on _ P w Hp) as [Hr _]. pose proof (p_nfds _ P). pose proof (map_size_ne_0_lookup_2 (watchers s) _ ltac:(by eexists)). blia. }
    apply ends_require; [|done]. intros _. by apply bool_decide_eq_true_2.
  - eapply ends_bind; [eapply ends_weaken, (sync_ends refused (watcher_queue s) s P eq_refl); tauto|]. intros s1 (P1 & _ & N1 & _).
    apply ends_require; [blia|intros _]. eapply ends_weaken, io_wait_ok; [tauto| |done]. split; [done|lia].
Qed.

(** Calls from outside, and polls. *)
Inductive poll_event := PCalls (cs : list io_call) | PPoll (refused : Z → Z) (answers : list (Z * kernel_answer)) (now timeout : Z).

Fixpoint poll_run (es : list poll_event) (s : poll_loop) : exec poll_loop :=
  match es with
  | [] => Val s
  | PCalls cs :: es => s ← io_dos cs s; poll_run es s
  | PPoll refused answers now timeout :: es => '(s, _) ← uv__io_poll user refused answers now (Z.max (-1) timeout) s; poll_run es s
  end.

(** The kernel does what it promises in the poll. *)
Definition lawful_event (e : poll_event) : Prop :=
  match e with
  | PCalls _ => True
  | PPoll refused answers _ _ => (∀ fd, refused fd = 0) ∧ Forall (λ p, lawful p.2) answers
  end.

Lemma poll_run_ok es s : good_poll s → ends (Forall lawful_event es) (poll_run es s) good_poll.
Proof.
  revert s. induction es as [|[cs|refused answers now timeout] es IH]; intros s G; cbn [poll_run]; [done| |].
  - destruct (io_dos_ok cs s G) as (s1 & -> & G1). rewrite bind_Val. eapply ends_weaken, IH; [|done]. by intros [_ ?]%Forall_cons.
  - eapply ends_bind; [eapply ends_weaken, (poll_ok refused answers now (Z.max (-1) timeout) s G); [|lia]; by intros [? _]%Forall_cons|].
    intros [s1 t] G1. eapply ends_weaken, IH; [|done]. by intros [_ ?]%Forall_cons.
Qed.
End Run.

Lemma new_poll_ok fd0 : 0 ≤ fd0 < 2 ^ 30 → ∃ s, new_poll fd0 = Val s ∧ good_poll s.
Proof.
  intros Hfd. assert (pinv empty_poll) as P.
  { assert (∀ w, get_w w empty_poll = closed_io) as E by done. split.
    3: by intros w Hw%not_elem_of_nil.
    10: by intros fd [x Hx].
    10: by intros fd ev He%not_elem_of_nil.
    11: by intros [] w ev pev l2 El.
    all: done || (intros w; rewrite ?E; done) || (intros fd w; rewrite ?E; done). }
  unfold new_poll. destruct (init_ok 0 fd0 empty_poll P) as (s & E & P1 & N1).
  { cbn. rewrite (proj2 (Z.leb_le _ _)), (proj2 (Z.ltb_lt _ _)) by lia. done. }
  rewrite E, bind_Val. assert (w_fd (get_w 0 s) = fd0) as Hw.
  { unfold uv__io_init, require in E. rewrite (proj2 (Z.leb_le _ _)), bind_Val in E by lia. by injection E as <-. }
  destruct (io_start_ok 0 UV__POLLIN s P1 eq_refl) as (s' & -> & P2 & N2 & N3); [lia|]. exists s'. split; [done|]. by split.
Qed.

(** ** What polling promises *)



(** ** How long it waits *)

Definition waits (l : list poll_log) : list (Z * Z) := omap (λ e, match e with PWait n t => Some (n, t) | _ => None end) l.

Lemma waits_app l1 l2 : waits (l1 ++ l2) = waits l1 ++ waits l2.
Proof. apply omap_app. Qed.

Lemma maybe_resize_log len s : plog (maybe_resize len s) = plog s.
Proof. unfold maybe_resize. by case_match. Qed.

Lemma io_stop_log w ev s s' : uv__io_stop w ev s = Val s' → plog s' = plog s.
Proof. unfold uv__io_stop, require. intros E. repeat (case_match; cbn in E; try done; simplify_eq); done. Qed.

Lemma io_do_waits c s s' : io_do c s = Val s' → waits (plog s') = waits (plog s).
Proof.
  unfold io_do. destruct (negb _); [by intros [= <-]|]. destruct c as [w fd|w ev|w ev|w].
  - unfold uv__io_init, require. case_match; cbn; [|done]. intros [= <-]. cbn. by rewrite waits_app, app_nil_r.
  - unfold uv__io_start, require. intros E. assert (plog s' = plog s) as ->; [|done].
    repeat (case_match; cbn in E; try done; simplify_eq); cbn; by rewrite maybe_resize_log.
  - intros E. by rewrite (io_stop_log _ _ _ _ E).
  - unfold uv__io_close. destruct (uv__io_stop _ _ _) as [s1| |] eqn:E; cbn; [|done..]. unfold uv__platform_invalidate_fd, require. case_match; cbn; [|done]. intros [= <-]. cbn.
    by rewrite (io_stop_log _ _ _ _ E).
Qed.

Lemma io_dos_waits cs s s' : io_dos cs s = Val s' → waits (plog s') = waits (plog s).
Proof.
  revert s. induction cs as [|c cs IH]; intros s; cbn [io_dos]; [by intros [= <-]|]. destruct (io_do c s) as [s1| |] eqn:E; cbn; [|done..].
  intros E1. by rewrite (IH s1 E1), (io_do_waits _ _ _ E).
Qed.

Section Waiting.
Context (user : list poll_log → list io_call).

Lemma io_events_waits n k s s' k' : io_events user n k s = Val (s', k') → waits (plog s') = waits (plog s).
Proof.
  revert k s. induction n as [|n IH]; intros k s; cbn [io_events]; [by intros [= <- _]|]. destruct (batch s) as [|[fd ev] b]; [by intros [= <- _]|].
  destruct (io_event user fd ev (set_batch b s)) as [[s1 c]| |] eqn:E; cbn; [|done..]. intros E1. rewrite (IH _ _ E1). clear E1.
  unfold io_event, require in E. destruct (fd =? -1); [by simplify_eq|]. destruct (0 <=? fd); cbn in E; [|done]. destruct (fd <? _); cbn in E; [|done].
  destruct (watchers s !! fd) as [w|]; [|by simplify_eq]. destruct (negb _); [|by simplify_eq]. unfold io_callback in E. destruct (io_dos _ _) as [s2| |] eqn:E2; cbn in E; [|done..].
  simplify_eq. rewrite (io_dos_waits _ _ _ E2). cbn. by rewrite waits_app, app_nil_r.
Qed.

(** The clock does not go back. *)
Fixpoint forward (now : Z) (answers : list (Z * kernel_answer)) : Prop :=
  match answers with [] => True | (t, _) :: answers => now ≤ t < 2 ^ 64 ∧ forward t answers end.

Definition in_time (limit : Z) (p : Z * Z) : Prop := p.2 = -1 ∨ p.2 = 0 ∨ (0 < p.2 ∧ p.1 + p.2 ≤ limit).

Lemma io_wait_in_time answers count now base timeout T s s' t : forward now answers → 0 ≤ base ≤ now → in_time (base + T) (now, timeout) → timeout ≤ Z.max 0 T →
  io_wait user answers count now base timeout s = Val (s', t) →
  ∃ l, waits (plog s') = waits (plog s) ++ l ∧ Forall (in_time (base + T)) l.
Proof.
  revert count now timeout s. induction answers as [|[u a] answers IH]; intros count now timeout s Hf Hb Hin HT; cbn [io_wait].
  { intros [= <- _]. exists []. split; [by rewrite app_nil_r|constructor]. }
  destruct Hf as [Hu Hf].
  assert (∀ s2 count2 timeout2, waits (plog s2) = waits (plog s) ++ [(now, timeout)] → in_time (base + T) (u, timeout2) → timeout2 ≤ Z.max 0 T →
    io_wait user answers count2 u base timeout2 s2 = Val (s', t) → ∃ l, waits (plog s') = waits (plog s) ++ l ∧ Forall (in_time (base + T)) l) as Hgo.
  { intros s2 c2 t2 E2 Hin2 HT2 Ew. destruct (IH c2 u t2 s2 Hf ltac:(lia) Hin2 HT2 Ew) as (l & El & Hl). exists ((now, timeout) :: l). rewrite El, E2, <- app_assoc. split; [done|by constructor]. }
  assert (∀ s2, waits (plog s2) = waits (plog s) ++ [(now, timeout)] → s2 = s' → ∃ l, waits (plog s') = waits (plog s) ++ l ∧ Forall (in_time (base + T)) l) as Hend.
  { intros s2 E2 <-. exists [(now, timeout)]. split; [done|by constructor]. }
  assert (∀ s2, waits (plog s2) = waits (plog s) ++ [(now, timeout)] → timeout ≠ -1 → timeout ≠ 0 →
    (_ ← require (0 <? timeout); if timeout <=? u64 (u - base) then Val (s2, u) else io_wait user answers count u base (timeout - u64 (u - base)) s2) = Val (s', t) →
    ∃ l, waits (plog s') = waits (plog s) ++ l ∧ Forall (in_time (base + T)) l) as Hup.
  { intros s2 E2 H1 H2. assert (0 < timeout) as Hp by (unfold in_time in Hin; cbn in Hin; lia). unfold require. rewrite (proj2 (Z.ltb_lt _ _) Hp), bind_Val.
    rewrite wrap_small by (unfold is_u; lia). destruct (_ <=? _) eqn:E; [intros [= Es _]; by apply (Hend s2)|]. apply Hgo; [done| |lia]. right. right. cbn. blia. }
  assert (waits (plog (pnote (PWait now timeout) s)) = waits (plog s) ++ [(now, timeout)]) as En by (cbn; by rewrite waits_app).
  destruct (a _ timeout) as [errno|evs].
  - destruct (errno =? EINTR); [|done]. cbn [require]. rewrite bind_Val.
    destruct (timeout =? -1) eqn:E1; [apply Hgo; [done|left; cbn; blia|done]|]. destruct (timeout =? 0) eqn:E2; [intros [= Es _]; by apply (Hend (pnote (PWait now timeout) s))|]. apply Hup; [done|blia|blia].
  - destruct (zlen _ =? 0).
    { destruct (negb _); [|done]. cbn [require]. rewrite bind_Val. intros [= Es _]. by apply (Hend (pnote (PWait now timeout) s)). }
    destruct (negb (nwatchers _ =? 0)); [|done]. cbn [require]. rewrite bind_Val.
    destruct (io_events user _ 0 _) as [[s2 k]| |] eqn:E; [|done..]. cbn [mbind]. rewrite bind_Val.
    assert (waits (plog (set_batch [] s2)) = waits (plog s) ++ [(now, timeout)]) as E2
      by (change (waits (plog s2) = waits (plog s) ++ [(now, timeout)]); rewrite (io_events_waits _ _ _ _ _ E); exact En).
    destruct (negb (k =? 0)).
    + destruct (_ && _); [apply Hgo; [done|right; by left|]|intros [= Es _]; by apply (Hend (set_batch [] s2))]. lia.
    + destruct (timeout =? 0) eqn:E3; [intros [= Es _]; by apply (Hend (set_batch [] s2))|]. destruct (timeout =? -1) eqn:E4; [apply Hgo; [done|left; cbn; blia|done]|]. apply Hup; [done|blia|blia].
Qed.
End Waiting.

Lemma sync_log refused q s s' : epoll_sync refused q s = Val s' → plog s' = plog s.
Proof.
  revert s. induction q as [|w q IH]; intros s; cbn [epoll_sync]; [by intros [= <-]|].
  intros E. exec_inv. by rewrite (IH _ E).
Qed.

(** Interrupted, woken for nothing or given events nobody wants, the loop
    never asks the kernel to wait beyond the timeout it came with: every wait of a
    poll that starts at [now] is unlimited because the poll is, or does not wait, or
    ends by [now + timeout]. *)
Theorem poll_never_oversleeps user refused answers now timeout s s' t : 0 ≤ now → -1 ≤ timeout → forward now answers → waits (plog s) = [] →
  uv__io_poll user refused answers now timeout s = Val (s', t) → Forall (λ p, p.2 = -1 ∨ p.2 = 0 ∨ 0 < p.2 ∧ p.1 + p.2 ≤ now + timeout) (waits (plog s')).
Proof.
  intros Hn Ht Hf Hw. unfold uv__io_poll. destruct (nfds s =? 0).
  { destruct (require _); cbn; [|done..]. intros [= <- _]. rewrite Hw. constructor. }
  destruct (epoll_sync _ _ s) as [s1| |] eqn:E; cbn; [|done..]. destruct (require _); cbn; [|done..]. intros Ew.
  destruct (io_wait_in_time user answers 48 now now timeout timeout s1 s' t) as (l & El & Hl); [done|lia| |lia|done|].
  { unfold in_time. cbn. lia. }
  rewrite El, (sync_log _ _ _ _ E), Hw. exact Hl.
Qed.

(** ** Witnesses *)

(** A kernel that is interrupted, and one that reports what it can of [evs]. *)
Definition interrupted : kernel_answer := λ _ _, KError EINTR.
Definition told (evs : list (Z * Z)) : kernel_answer := λ m timeout,
  match filter (λ e, is_Some (m !! e.1)) evs with
  | [] => if timeout =? -1 then KError EINTR else KEvents []
  | evs => KEvents evs
  end.

Lemma interrupted_lawful : lawful interrupted.
Proof. done. Qed.

Lemma told_lawful evs : lawful (told evs).
Proof.
  intros m timeout. unfold told. destruct (filter _ evs) as [|e l] eqn:E.
  - destruct (timeout =? -1) eqn:Et; [done|]. intros ->. done.
  - intros _. exists e. split; [set_solver|]. assert (e ∈ filter (λ e, is_Some (m !! e.1)) evs) as [? _]%list_elem_of_filter by (rewrite E; set_solver). done.
Qed.

(** Watcher 1 on descriptor 7; its callback closes watcher 2 on descriptor 8, whose
    event is in the same batch, and opens watcher 3 on descriptor 8. *)
Definition poll_user (l : list poll_log) : list io_call :=
  match last l with
  | Some (PCallback 1 _ _) => [PClose 2; PInit 3 8; PStart 3 4]
  | _ => []
  end.

Definition poll_events : list poll_event :=
  [PCalls [PInit 1 7; PInit 2 8; PStart 1 1; PStart 2 5]; PPoll (λ _, 0) [(10, interrupted); (20, told [(7, 1); (8, 5)])] 0 50].

Definition poll_start : poll_loop := Eval vm_compute in match new_poll 5 with Val s => s | _ => empty_poll end.
Definition poll_end : poll_loop := Eval vm_compute in match poll_run poll_user poll_events poll_start with Val s => s | _ => empty_poll end.

Example poll_example : plog poll_end = [PInited 0; PInited 1; PInited 2; PWait 0 50; PWait 10 40; PCallback 1 1 1; PInited 3] ∧ watcher_queue poll_end = [3].
Proof. done. Qed.


(** A kernel that returns without an event and without a limit fails the assertion, and
    one that refuses a descriptor stops the program. *)
Example unlawful_kernel :
  poll_run poll_user [PPoll (λ _, 0) [(10, λ _ _, KEvents [])] 0 (-1)] poll_start = UB ∧
  poll_run poll_user [PPoll (λ _, 0) [(10, λ _ _, KError 9)] 0 50] poll_start = UB ∧
  poll_run poll_user [PPoll (λ fd, if fd =? 5 then 12 else 0) [] 0 50] poll_start = UB.
Proof. done. Qed.


Definition poll_slept : poll_loop :=
  Eval vm_compute in match uv__io_poll poll_user (λ _, 0) [(30, interrupted); (50, interrupted); (70, told [])] 0 100 poll_start with Val (s, _) => s | _ => empty_poll end.

Lemma poll_never_oversleeps_witness : Forall (λ p, p.2 = -1 ∨ p.2 = 0 ∨ 0 < p.2 ∧ p.1 + p.2 ≤ 0 + 100) (waits (plog poll_slept)).
Proof.
  apply (poll_never_oversleeps poll_user (λ _, 0) [(30, interrupted); (50, interrupted); (70, told [])] 0 100 poll_start poll_slept 70); [lia|lia|cbn; lia|reflexivity|reflexivity].
Defined.

(** The time that has passed is taken off again at every interruption, because [base]
    stays where it was: the third wait is for 20 milliseconds when 50 are left. *)
Example poll_returns_early : waits (plog poll_slept) = [(0, 100); (30, 70); (50, 20)].
Proof. done. Qed.
