(* ===== verification/UvInet.v ===== *)
(** * Internet addresses as text ([src/deps/uv/src/inet.c], [uv-common.c])

    [uv_inet_ntop] prints an IPv4 or IPv6 address and [uv_inet_pton] reads one. The
    buffers on the stack keep their sizes: a write that would not fit is undefined.
    A text is the list of its characters; one that is read ends at the first NUL or at
    the end of the list. *)

From S2P Require Import Prelude.
Local Open Scope Z_scope.

Inductive uv_err_code := UV_EAFNOSUPPORT | UV_ENOSPC | UV_EINVAL.

(** An error, or what the call stores. *)
Definition answer : Type := uv_err_code + bytes.

(** ** Printing *)

Definition dot : Z := 46.
Definition colon : Z := 58.

(** What [snprintf] prints with "%u.%u.%u.%u". *)
Definition dotted (a b c d : Z) : bytes :=
  bytes_of (sprintf_u a) ++ [dot] ++ bytes_of (sprintf_u b) ++ [dot] ++ bytes_of (sprintf_u c) ++ [dot] ++ bytes_of (sprintf_u d).

(** The size of "255.255.255.255" with its NUL. *)
Definition tmp4_size : Z := 16.

Definition inet_ntop4 (src : bytes) (size : Z) : exec answer :=
  a ← rd src 0; b ← rd src 1; c ← rd src 2; d ← rd src 3;
  let tmp := take (Z.to_nat (tmp4_size - 1)) (dotted a b c d) in
  let l := zlen (dotted a b c d) in
  if (l <=? 0) || (size <=? l) then Val (inl UV_ENOSPC) else Val (inr tmp).

(** [sprintf] with "%x" of a 32-bit number. *)
Definition hex_char (d : Z) : Z := if d <? 10 then 48 + d else 87 + d.
Fixpoint hex_digits (fuel : nat) (n : Z) : bytes :=
  match fuel with
  | O => []
  | S fuel => (if n <? 16 then [] else hex_digits fuel (Z.shiftr n 4)) ++ [hex_char (Z.land n 15)]
  end.
Definition sprintf_x (n : Z) : bytes := hex_digits 8 n.

(** The loop that makes the eight words. *)
Fixpoint make_words (idx : list nat) (src : bytes) (words : list Z) : exec (list Z) :=
  match idx with
  | [] => Val words
  | i :: idx =>
      b ← rd src (Z.of_nat i);
      make_words idx src (alter (λ w, Z.lor w (Z.shiftl b (Z.shiftl (1 - Z.of_nat i mod 2) 3))) (i / 2)%nat words)
  end.
Definition words_of (src : bytes) : exec (list Z) := make_words (seq 0 16) src (replicate 8 0).

(** The longest run of zero words; [base] is -1 when there is none. *)
Record zero_run := mkRun { base : Z; len : Z }.

Definition better (best cur : zero_run) : zero_run :=
  if (base best =? -1) || (len best <? len cur) then cur else best.

Fixpoint find_run (words : list Z) (i : Z) (best cur : zero_run) : zero_run :=
  match words with
  | [] => if negb (base cur =? -1) then better best cur else best
  | w :: words =>
      if w =? 0 then
        find_run words (i + 1) best (if base cur =? -1 then mkRun i 1 else mkRun (base cur) (len cur + 1))
      else if negb (base cur =? -1) then find_run words (i + 1) (better best cur) (mkRun (-1) (len cur))
      else find_run words (i + 1) best cur
  end.

Definition best_run (words : list Z) : zero_run :=
  let best := find_run words 0 (mkRun (-1) 0) (mkRun (-1) 0) in
  if negb (base best =? -1) && (len best <? 2) then mkRun (-1) (len best) else best.

(** The size of "ffff:ffff:ffff:ffff:ffff:ffff:255.255.255.255" with its NUL. *)
Definition tmp6_size : Z := 46.

Definition put (out s : bytes) : exec bytes :=
  _ ← require (zlen out + zlen s <=? tmp6_size); Val (out ++ s).

Definition embeds_ipv4 (words : list Z) (best : zero_run) (i : Z) : exec bool :=
  if (i =? 6) && (base best =? 0) then
    if len best =? 6 then Val true
    else if len best =? 7 then w ← rd words 7; Val (negb (w =? 1))
    else if len best =? 5 then w ← rd words 5; Val (w =? 0xffff)
    else Val false
  else Val false.

Fixpoint format6 (src : bytes) (words : list Z) (best : zero_run) (ws : list Z) (i : Z) (out : bytes) : exec answer :=
  match ws with
  | [] => Val (inr out)
  | w :: ws =>
      if negb (base best =? -1) && (base best <=? i) && (i <? base best + len best) then
        out ← (if i =? base best then put out [colon] else Val out);
        format6 src words best ws (i + 1) out
      else
        out ← (if negb (i =? 0) then put out [colon] else Val out);
        v4 ← embeds_ipv4 words best i;
        if v4 : bool then
          r ← inet_ntop4 (drop 12 src) (tmp6_size - zlen out);
          match r with
          | inl e => Val (inl e)
          | inr text => out ← put out text; Val (inr out)
          end
        else
          _ ← put out (sprintf_x w ++ [0]);
          format6 src words best ws (i + 1) (out ++ sprintf_x w)
  end.

Definition inet_ntop6 (src : bytes) (size : Z) : exec answer :=
  words ← words_of src;
  let best := best_run words in
  r ← format6 src words best words 0 [];
  match r with
  | inl e => Val (inl e)
  | inr out =>
      out ← (if negb (base best =? -1) && (base best + len best =? 8) then put out [colon] else Val out);
      tmp ← put out [0];
      if size <? zlen tmp then Val (inl UV_ENOSPC) else Val (inr out)
  end.

(** ** Reading *)

Fixpoint strchr_from (s : bytes) (c i : Z) : option Z :=
  match s with
  | [] => None
  | x :: s => if x =? c then Some i else strchr_from s c (i + 1)
  end.

(** The offset of [c], which is not NUL. *)
Definition strchr (s : bytes) (c : Z) : option Z := strchr_from s c 0.

Definition digits : bytes := map (λ d, 48 + d) (seqZ 0 10).
Definition xdigits_l : bytes := digits ++ map (λ d, 97 + d) (seqZ 0 6).
Definition xdigits_u : bytes := digits ++ map (λ d, 65 + d) (seqZ 0 6).

Fixpoint pton4_loop (src : bytes) (saw_digit : bool) (octets : Z) (tmp : bytes) (tp : Z) : exec (option (Z * bytes)) :=
  match src with
  | [] => Val (Some (octets, tmp))
  | ch :: src =>
      if ch =? 0 then Val (Some (octets, tmp))
      else
        match strchr digits ch with
        | Some d =>
            v ← rd tmp tp;
            let nw := u32 (v * 10 + d) in
            if saw_digit && (v =? 0) then Val None
            else if 255 <? nw then Val None
            else
              tmp ← memcpy_to tmp tp [nw];
              if negb saw_digit then if 4 <? octets + 1 then Val None else pton4_loop src true (octets + 1) tmp tp
              else pton4_loop src saw_digit octets tmp tp
        | None =>
            if (ch =? dot) && saw_digit then
              if octets =? 4 then Val None
              else tmp ← memcpy_to tmp (tp + 1) [0]; pton4_loop src false octets tmp (tp + 1)
            else Val None
        end
  end.

Section Reading.
(** The four bytes of [tmp] before the first is set. *)
Context (stack : bytes).

Definition inet_pton4 (src : bytes) : exec answer :=
  tmp ← memcpy_to stack 0 [0];
  r ← pton4_loop src false 0 tmp 0;
  match r with
  | None => Val (inl UV_EINVAL)
  | Some (octets, tmp) => if octets <? 4 then Val (inl UV_EINVAL) else Val (inr tmp)
  end.

Definition xdigit (ch : Z) : option Z :=
  match strchr xdigits_l ch with Some d => Some d | None => strchr xdigits_u ch end.

(** What the loop of [inet_pton6] leaves. *)
Record parsed6 := mkP6 { p_tmp : bytes; p_tp : Z; p_colonp : option Z; p_seen : Z; p_val : Z }.

Definition store_word (tmp : bytes) (tp val : Z) : exec bytes :=
  tmp ← memcpy_to tmp tp [u8 (Z.shiftr val 8)]; memcpy_to tmp (tp + 1) [u8 val].

Definition at_end (src : bytes) : bool := match src with [] => true | c :: _ => c =? 0 end.

Fixpoint pton6_loop (src curtok : bytes) (p : parsed6) : exec (option parsed6) :=
  match src with
  | [] => Val (Some p)
  | ch :: src =>
      if ch =? 0 then Val (Some p)
      else
        match xdigit ch with
        | Some d =>
            if 4 <? p_seen p + 1 then Val None
            else pton6_loop src curtok (mkP6 (p_tmp p) (p_tp p) (p_colonp p) (p_seen p + 1) (Z.lor (u32 (Z.shiftl (p_val p) 4)) d))
        | None =>
            if ch =? colon then
              if p_seen p =? 0 then
                match p_colonp p with
                | Some _ => Val None
                | None => pton6_loop src src (mkP6 (p_tmp p) (p_tp p) (Some (p_tp p)) (p_seen p) (p_val p))
                end
              else if at_end src then Val None
              else if 16 <? p_tp p + 2 then Val None
              else tmp ← store_word (p_tmp p) (p_tp p) (p_val p); pton6_loop src src (mkP6 tmp (p_tp p + 2) (p_colonp p) 0 0)
            else if (ch =? dot) && (p_tp p + 4 <=? 16) then
              r ← inet_pton4 curtok;
              match r with
              | inr quad => tmp ← memcpy_to (p_tmp p) (p_tp p) quad; Val (Some (mkP6 tmp (p_tp p + 4) (p_colonp p) 0 (p_val p)))
              | inl _ => Val None
              end
            else Val None
        end
  end.

(** The shift by hand, from [i] on; [k] rounds are left. *)
Fixpoint shift6 (k : nat) (i n colonp : Z) (tmp : bytes) : exec bytes :=
  match k with
  | O => Val tmp
  | S k =>
      b ← rd tmp (colonp + (n - i));
      tmp ← memcpy_to tmp (16 - i) [b];
      tmp ← memcpy_to tmp (colonp + (n - i)) [0];
      shift6 k (i + 1) n colonp tmp
  end.

Definition finish6 (p : parsed6) : exec answer :=
  if negb (p_seen p =? 0) && (16 <? p_tp p + 2) then Val (inl UV_EINVAL)
  else
    '(tmp, tp) ← (if negb (p_seen p =? 0) then tmp ← store_word (p_tmp p) (p_tp p) (p_val p); Val (tmp, p_tp p + 2) else Val (p_tmp p, p_tp p));
    match p_colonp p with
    | Some colonp =>
        if tp =? 16 then Val (inl UV_EINVAL)
        else tmp ← shift6 (Z.to_nat (tp - colonp)) 1 (tp - colonp) colonp tmp; Val (inr tmp)
    | None => if negb (tp =? 16) then Val (inl UV_EINVAL) else Val (inr tmp)
    end.

Definition start6 : parsed6 := mkP6 (zeros 16) 0 None 0 0.

Definition inet_pton6 (src : bytes) : exec answer :=
  let run src := r ← pton6_loop src src start6; match r with None => Val (inl UV_EINVAL) | Some p => finish6 p end in
  match src with
  | c :: rest =>
      if c =? colon then
        match rest with
        | c' :: _ => if negb (c' =? colon) then Val (inl UV_EINVAL) else run rest
        | [] => Val (inl UV_EINVAL)
        end
      else run src
  | [] => run src
  end.

(** ** The two calls *)

Definition AF_INET : Z := 2.
Definition AF_INET6 : Z := 10.

Definition uv_inet_ntop (af : Z) (src : bytes) (size : Z) : exec answer :=
  if af =? AF_INET then inet_ntop4 src size
  else if af =? AF_INET6 then inet_ntop6 src size
  else Val (inl UV_EAFNOSUPPORT).

Definition uv_inet_pton (af : Z) (src : bytes) : exec answer :=
  if af =? AF_INET then inet_pton4 src
  else if af =? AF_INET6 then inet_pton6 src
  else Val (inl UV_EAFNOSUPPORT).

(** ** Socket addresses *)

(** The fields that are not zero. *)
Record sockaddr_in6 := mkIn6 { sin6_family : Z; sin6_port : Z; sin6_addr : bytes }.

Definition htons (port : Z) : Z := Z.lor (Z.shiftl (Z.land (u16 port) 255) 8) (Z.shiftr (u16 port) 8).

(** The error of [uv_inet_pton] is not looked at. *)
Definition uv_ip6_addr (ip : bytes) (port : Z) : exec sockaddr_in6 :=
  r ← uv_inet_pton AF_INET6 ip;
  Val (mkIn6 AF_INET6 (htons port) (match r with inr addr => addr | inl _ => zeros 16 end)).

(** The text when 0 is returned. *)
Definition uv_ip4_name (src : bytes) (size : Z) : exec (option bytes) :=
  err ← uv_inet_ntop AF_INET src size;
  Val (match err with inr text => Some text | inl _ => None end).
Definition uv_ip6_name (src : sockaddr_in6) (size : Z) : exec (option bytes) :=
  err ← uv_inet_ntop AF_INET6 (sin6_addr src) size;
  Val (match err with inr text => Some text | inl _ => None end).
End Reading.

Definition garbage : bytes := [0xde; 0xad; 0xbe; 0xef].

Example inet_examples :
  uv_inet_ntop AF_INET [192; 168; 0; 1] 16 = Val (inr (bytes_of "192.168.0.1")) ∧
  uv_inet_ntop AF_INET6 [0; 0; 0; 0; 0; 0; 0; 0; 0; 0; 0xff; 0xff; 127; 0; 0; 1] 46 = Val (inr (bytes_of "::ffff:127.0.0.1")) ∧
  uv_inet_ntop AF_INET6 [0x20; 1; 0xd; 0xb8; 0; 0; 0; 0; 0; 1; 0; 0; 0; 0; 0; 0] 46 = Val (inr (bytes_of "2001:db8:0:0:1::")) ∧
  uv_inet_ntop AF_INET6 (zeros 15 ++ [2]) 46 = Val (inr (bytes_of "::2")) ∧
  uv_inet_ntop AF_INET6 (zeros 15 ++ [2]) 3 = Val (inl UV_ENOSPC) ∧
  uv_inet_pton garbage AF_INET6 (bytes_of "2001:DB8::1") = Val (inr [0x20; 1; 0xd; 0xb8; 0; 0; 0; 0; 0; 0; 0; 0; 0; 0; 0; 1]) ∧
  uv_inet_pton garbage AF_INET6 (bytes_of "::1.2.3.4") = Val (inr (zeros 12 ++ [1; 2; 3; 4])) ∧
  uv_inet_pton garbage AF_INET6 (bytes_of "1:2:3:4:5:6:7::8") = Val (inl UV_EINVAL) ∧
  uv_inet_pton garbage AF_INET (bytes_of "10.0.0.01") = Val (inl UV_EINVAL) ∧
  uv_inet_pton garbage 1 [] = Val (inl UV_EAFNOSUPPORT).
Proof. vm_compute. repeat split. Qed.

(** ** Digits *)

Lemma in_range a b c : a ≤ c < b → (a <=? c) && (c <? b) = true.
Proof. intros [? ?]. by rewrite (proj2 (Z.leb_le _ _)), (proj2 (Z.ltb_lt _ _)). Qed.

Lemma strchr_from_digits k n c i : strchr_from (map (λ d, k + d) (seqZ i n)) c i = if (k + i <=? c) && (c <? k + i + n) then Some (c - k) else None.
Proof.
  destruct (decide (0 ≤ n)) as [Hn|]; [|rewrite seqZ_nil by lia; cbn; destruct (_ && _) eqn:E; [blia|done]].
  revert i. pattern n. apply natlike_ind; [| |done].
  - intros i. rewrite seqZ_nil by lia. cbn. destruct (_ && _) eqn:E; [blia|done].
  - intros m Hm IH i. rewrite seqZ_cons by lia. replace (Z.pred (Z.succ m)) with m by lia. replace (Z.succ i) with (i + 1) by lia. cbn [map strchr_from].
    destruct (k + i =? c) eqn:E1; [|rewrite IH].
    + rewrite in_range by blia. f_equal. blia.
    + destruct ((k + (i + 1) <=? c) && _) eqn:E2, ((k + i <=? c) && _) eqn:E3; try done; blia.
Qed.

Lemma strchr_from_app s1 s2 c i : strchr_from (s1 ++ s2) c i = match strchr_from s1 c i with Some d => Some d | None => strchr_from s2 c (i + zlen s1) end.
Proof.
  revert i. induction s1 as [|x s1 IH]; intros i; cbn; [by rewrite Z.add_0_r|]. destruct (x =? c); [done|]. rewrite IH, zlen_cons. by rewrite Z.add_assoc.
Qed.

Lemma strchr_from_add s c i : strchr_from s c i = (λ d, i + d) <$> strchr s c.
Proof.
  unfold strchr. assert (∀ j k, strchr_from s c (j + k) = (λ d, j + d) <$> strchr_from s c k) as H.
  { induction s as [|x s IH]; intros j k; cbn; [done|]. destruct (x =? c); [done|]. rewrite <- Z.add_assoc. by rewrite IH. }
  rewrite <- H. by rewrite Z.add_0_r.
Qed.

Lemma strchr_digits c : strchr digits c = if (48 <=? c) && (c <? 58) then Some (c - 48) else None.
Proof. unfold strchr, digits. rewrite strchr_from_digits. done. Qed.

Lemma xdigit_spec c : xdigit c =
  if (48 <=? c) && (c <? 58) then Some (c - 48) else if (97 <=? c) && (c <? 103) then Some (c - 87) else if (65 <=? c) && (c <? 71) then Some (c - 55) else None.
Proof.
  unfold xdigit, xdigits_l, xdigits_u. unfold strchr at 1 2. rewrite !strchr_from_app. fold (strchr digits c). rewrite strchr_digits.
  destruct ((48 <=? c) && _); [done|]. change (zlen digits) with 10. rewrite !strchr_from_add. unfold strchr. rewrite !strchr_from_digits.
  replace (97 + 0 + 6) with 103 by lia. replace (65 + 0 + 6) with 71 by lia. rewrite !Z.add_0_r.
  destruct ((97 <=? c) && _); cbn; [f_equal; lia|]. destruct ((65 <=? c) && _); cbn; [f_equal; lia|done].
Qed.

Lemma xdigit_hex d : 0 ≤ d < 16 → xdigit (hex_char d) = Some d.
Proof.
  intros Hd. rewrite xdigit_spec. unfold hex_char. destruct (d <? 10) eqn:E.
  - rewrite in_range by blia. f_equal. lia.
  - destruct ((48 <=? 87 + d) && _) eqn:E1; [blia|]. rewrite in_range by blia. f_equal. lia.
Qed.

(** The decimal digits of an octet, from the front: those of the quotient by ten,
    then the remainder. *)
Definition otext (a : Z) : bytes := bytes_of (sprintf_u a).
Arguments otext : simpl never.

Lemma otext_step a : 0 ≤ a ≤ 255 → otext a = if a <? 10 then [48 + a] else otext (a / 10) ++ [48 + a mod 10].
Proof.
  intros Ha. assert (forallb (λ a, bool_decide (otext a = if a <? 10 then [48 + a] else otext (a / 10) ++ [48 + a mod 10])) (seqZ 0 256) = true) as H by (vm_compute; reflexivity).
  rewrite forallb_forall in H. specialize (H a). rewrite bool_decide_eq_true in H. apply H. apply list_elem_of_In, elem_of_seqZ. lia.
Qed.

Lemma otext_digit d : 0 ≤ d < 10 → otext d = [48 + d].
Proof. intros Hd. rewrite otext_step by lia. by destruct (d <? 10) eqn:E; [|blia]. Qed.

Lemma otext_snoc v d : 0 < v → 0 ≤ d < 10 → v * 10 + d ≤ 255 → otext (v * 10 + d) = otext v ++ [48 + d].
Proof.
  intros Hv Hd Hle. rewrite otext_step by lia. destruct (_ <? 10) eqn:E; [blia|].
  by rewrite Z.div_add_l, Z.div_small, Z.add_0_r, (Z.add_comm (v * 10)), Z_mod_plus_full, Z.mod_small by lia.
Qed.

(** Induction over the digits of an octet. *)
Lemma octet_ind (P : Z → Prop) : (∀ d, 0 ≤ d < 10 → P d) → (∀ v d, 0 < v → 0 ≤ d < 10 → v * 10 + d ≤ 255 → P v → P (v * 10 + d)) → ∀ a, 0 ≤ a ≤ 255 → P a.
Proof.
  intros H1 H2 a. induction a as [a IH] using (well_founded_induction (Z.lt_wf 0)). intros Ha. destruct (decide (a < 10)); [apply H1; lia|].
  pose proof (Z.div_mod a 10 ltac:(lia)). pose proof (Z.mod_pos_bound a 10 ltac:(lia)). replace a with (a / 10 * 10 + a mod 10) by lia.
  apply H2; [lia..|]. apply IH; lia.
Qed.

(** ** IPv4 *)

(** One character of an octet, in a buffer whose current byte is [v]. *)
Lemma pton4_digit src saw octets pre v post d : 0 ≤ d < 10 → is_byte v →
  pton4_loop ((48 + d) :: src) saw octets (pre ++ v :: post) (zlen pre) =
    if (saw && (v =? 0)) || (255 <? v * 10 + d) || (negb saw && (4 <? octets + 1)) then Val None
    else pton4_loop src true (if saw then octets else octets + 1) (pre ++ v * 10 + d :: post) (zlen pre).
Proof.
  intros Hd Hv. cbn [pton4_loop]. destruct (48 + d =? 0) eqn:E0; [blia|]. rewrite strchr_digits, in_range by lia.
  rewrite rd_middle by done. rewrite bind_Val. replace (48 + d - 48) with d by lia. rewrite (wrap_small 32) by int_solve.
  destruct (saw && (v =? 0)); [done|]. destruct (255 <? v * 10 + d); [done|]. cbn [orb].
  change (pre ++ v :: post) with (pre ++ [v] ++ post). rewrite memcpy_to_middle by done. rewrite bind_Val. cbn [app].
  destruct saw; [done|]. cbn. by destruct (4 <? octets + 1).
Qed.

Lemma pton4_octet a src octets pre post : 0 ≤ a ≤ 255 → octets < 4 →
  pton4_loop (otext a ++ src) false octets (pre ++ 0 :: post) (zlen pre) = pton4_loop src true (octets + 1) (pre ++ a :: post) (zlen pre).
Proof.
  intros Ha Ho. revert src. pattern a. apply octet_ind; [| |done]; clear a Ha.
  - intros d Hd src. rewrite otext_digit by done. cbn [app]. rewrite pton4_digit by (done || int_solve). cbn [andb negb orb].
    destruct (255 <? 0 * 10 + d) eqn:E1; [blia|]. destruct (4 <? octets + 1) eqn:E2; [blia|]. done.
  - intros v d Hv Hd Hle IH src. rewrite otext_snoc by done. rewrite <- app_assoc, IH. cbn [app]. rewrite pton4_digit by (done || int_solve).
    destruct (_ || _ || _) eqn:E; [|done]. cbn in E. blia.
Qed.

Lemma pton4_dot src octets pre v x post : octets ≠ 4 →
  pton4_loop (dot :: src) true octets (pre ++ v :: x :: post) (zlen pre) = pton4_loop src false octets ((pre ++ [v]) ++ 0 :: post) (zlen (pre ++ [v])).
Proof.
  intros Ho. cbn [pton4_loop]. rewrite strchr_digits. cbn. destruct (octets =? 4) eqn:E; [blia|].
  replace (pre ++ v :: x :: post) with ((pre ++ [v]) ++ [x] ++ post) by (by rewrite <- app_assoc). rewrite memcpy_to_middle; [|by rewrite zlen_app|done].
  by rewrite zlen_app.
Qed.

Definition quad_ok (quad : bytes) : Prop := length quad = 4%nat ∧ Forall is_byte quad.

(** What has been read when the octets [pre] are complete. *)
Definition done4 (pre : bytes) (saw : bool) (v : Z) : bytes := concat (map (λ a, otext a ++ [dot]) pre) ++ (if saw then otext v else []).

Definition text4 (quad : bytes) : bytes :=
  match quad with [a; b; c; d] => dotted a b c d | _ => [] end.

Lemma done4_text a b c d : done4 [a; b; c] true d = text4 [a; b; c; d].
Proof. unfold done4, text4, dotted, otext. cbn. by rewrite <- !app_assoc. Qed.

Lemma otext_pos a : 0 ≤ a ≤ 255 → 1 ≤ zlen (otext a) ≤ 3 ∧ Forall (λ c, 48 ≤ c < 58) (otext a).
Proof.
  intros Ha. assert (forallb (λ a, bool_decide (1 ≤ zlen (otext a) ≤ 3 ∧ Forall (λ c, 48 ≤ c < 58) (otext a))) (seqZ 0 256) = true) as H by (vm_compute; reflexivity).
  rewrite forallb_forall in H. specialize (H a). rewrite bool_decide_eq_true in H. apply H. apply list_elem_of_In, elem_of_seqZ. lia.
Qed.

Lemma quad_cases quad : quad_ok quad → ∃ a b c d, quad = [a; b; c; d] ∧ is_byte a ∧ is_byte b ∧ is_byte c ∧ is_byte d.
Proof.
  intros [Hl Hb]. destruct quad as [|a [|b [|c [|d [|]]]]]; try done. repeat (apply Forall_cons in Hb as [? Hb]). by exists a, b, c, d.
Qed.

Lemma text4_length quad : quad_ok quad → 7 ≤ zlen (text4 quad) ≤ 15.
Proof.
  intros (a & b & c & d & -> & Ha & Hb & Hc & Hd)%quad_cases. cbn [text4]. unfold dotted. fold (otext a) (otext b) (otext c) (otext d).
  autorewrite with zlen. pose proof (otext_pos a ltac:(int_solve)). pose proof (otext_pos b ltac:(int_solve)). pose proof (otext_pos c ltac:(int_solve)). pose proof (otext_pos d ltac:(int_solve)). lia.
Qed.

Lemma ntop4_text quad rest size : quad_ok quad → zlen (text4 quad) < size → inet_ntop4 (quad ++ rest) size = Val (inr (text4 quad)).
Proof.
  intros Hq Hs. pose proof (text4_length _ Hq) as Hl. apply quad_cases in Hq as (a & b & c & d & -> & _). cbn [text4] in *.
  change (inet_ntop4 _ size) with (if (zlen (dotted a b c d) <=? 0) || (size <=? zlen (dotted a b c d)) then Val (A := answer) (inl UV_ENOSPC) else Val (inr (take 15 (dotted a b c d)))).
  destruct (_ || _) eqn:E; [blia|]. rewrite take_ge; [done|]. unfold zlen in Hl. lia.
Qed.

(** Characters up to the end of the text. *)
Lemma pton4_nul rest saw octets tmp tp : pton4_loop (0 :: rest) saw octets tmp tp = Val (Some (octets, tmp)).
Proof. done. Qed.

(** Every canonical text is read, in whatever follows its NUL. *)
Lemma pton4_complete stack quad : length stack = 4%nat → quad_ok quad → inet_pton4 stack (text4 quad) = Val (inr quad).
Proof.
  intros Hs (a & b & c & d & -> & Ha & Hb & Hc & Hd)%quad_cases. destruct stack as [|x0 [|x1 [|x2 [|x3 [|]]]]]; try done.
  unfold inet_pton4. rewrite memcpy_to_head, bind_Val. cbn [text4]. unfold dotted. fold (otext a) (otext b) (otext c) (otext d). cbn [app].
  pose proof (λ src octets pre post o H, pton4_octet o src octets pre post (conj (proj1 H) (proj1 (Z.lt_succ_r o 255) (proj2 H)))) as Oct.
  rewrite (Oct _ 0 [] [x1; x2; x3] a Ha) by lia. rewrite (pton4_dot _ 1 [] a x1 [x2; x3]) by lia. cbn [app].
  rewrite (Oct _ 1 [a] [x2; x3] b Hb) by lia. rewrite (pton4_dot _ 2 [a] b x2 [x3]) by lia. cbn [app].
  rewrite (Oct _ 2 [a; b] [x3] c Hc) by lia. rewrite (pton4_dot _ 3 [a; b] c x3 []) by lia. cbn [app].
  rewrite <- (app_nil_r (otext d)). change [a; b; c; 0] with ([a; b; c] ++ [0]). rewrite (Oct [] 3 [a; b; c] [] d Hd) by lia. done.
Qed.

Lemma done4_digit pre saw v d rest : is_byte v → 0 ≤ d < 10 → v * 10 + d ≤ 255 → (saw = false → v = 0) → saw && (v =? 0) = false →
  done4 pre true (v * 10 + d) ++ rest = done4 pre saw v ++ (48 + d) :: rest.
Proof.
  intros Hv Hd Hle Hs Hz. unfold done4. rewrite <- !app_assoc. f_equal. destruct saw; cbn [app].
  - cbn in Hz. rewrite otext_snoc by (int_solve || blia). by rewrite <- app_assoc.
  - rewrite Hs by done. by rewrite otext_digit by done.
Qed.

Lemma pton4_sound src : ∀ (saw : bool) octets pre v post, Forall is_byte pre → is_byte v → length (pre ++ v :: post) = 4%nat →
  octets = zlen pre + (if saw then 1 else 0) → (saw = false → v = 0) →
  ∃ r, pton4_loop src saw octets (pre ++ v :: post) (zlen pre) = Val r ∧
    match r with
    | Some (o, tmp) => 4 ≤ o → quad_ok tmp ∧ text4 tmp = done4 pre saw v ++ until_nul src
    | None => True
    end.
Proof.
  assert (∀ (saw : bool) octets pre v post, Forall is_byte pre → is_byte v → length (pre ++ v :: post) = 4%nat → octets = zlen pre + (if saw then 1 else 0) →
    4 ≤ octets → quad_ok (pre ++ v :: post) ∧ text4 (pre ++ v :: post) = done4 pre saw v) as Hend.
  { intros saw octets pre v post Hp Hv Hl -> Ho. rewrite length_app in Hl. cbn in Hl. unfold zlen in Ho. assert (length pre = 3%nat ∧ saw = true ∧ post = []) as (Hp3 & -> & ->).
    { destruct saw; [|lia]. split; [lia|]. split; [done|]. destruct post; [done|cbn in Hl; lia]. }
    destruct pre as [|a [|b [|c [|]]]]; try done. split; [|symmetry; apply done4_text]. split; [done|]. apply Forall_app. by split; [|apply Forall_singleton]. }
  induction src as [|ch src IH]; intros saw octets pre v post Hp Hv Hl Ho Hs.
  { eexists. split; [done|]. cbn [until_nul]. rewrite app_nil_r. by apply Hend. }
  cbn [until_nul]. destruct (ch =? 0) eqn:E0.
  { eexists. cbn [pton4_loop]. rewrite E0. split; [done|]. rewrite app_nil_r. by apply Hend. }
  destruct ((48 <=? ch) && (ch <? 58)) eqn:Ed.
  - replace ch with (48 + (ch - 48)) by lia. assert (0 ≤ ch - 48 < 10) as Hd by blia. revert Hd. generalize (ch - 48). clear ch E0 Ed. intros d Hd. rewrite pton4_digit by done.
    destruct (saw && (v =? 0)) eqn:E1; [by eexists|]. destruct (255 <? v * 10 + d) eqn:E2; [by eexists|]. destruct (negb saw && (4 <? octets + 1)) eqn:E3; [by eexists|]. cbn [orb].
    destruct (IH true (if saw then octets else octets + 1) pre (v * 10 + d) post) as (r & Er & Hr); [done|int_solve || blia| |destruct saw; lia|done|].
    { rewrite length_app in *. cbn in *. lia. }
    exists r. split; [done|]. destruct r as [[o tmp]|]; [|done]. rewrite <- done4_digit; [done..|blia|done|done].
  - cbn [pton4_loop]. rewrite E0, strchr_digits, Ed. destruct ((ch =? dot) && saw) eqn:E1; [|by eexists]. apply andb_true_iff in E1 as [E1 ->]. apply Z.eqb_eq in E1 as ->.
    destruct (octets =? 4) eqn:E2; [by eexists|]. destruct post as [|x post]; [exfalso; rewrite length_app in Hl; cbn in Hl; unfold zlen in Ho; blia|].
    replace (pre ++ v :: x :: post) with ((pre ++ [v]) ++ [x] ++ post) by (by rewrite <- app_assoc). rewrite memcpy_to_middle; [|by rewrite zlen_app|done]. rewrite bind_Val.
    destruct (IH false octets (pre ++ [v]) 0 post) as (r & Er & Hr); [apply Forall_app; by split; [|apply Forall_singleton]|int_solve| |rewrite Ho, zlen_app; change (zlen [v]) with 1; by rewrite Z.add_0_r|done|].
    { rewrite length_app in *. cbn in *. rewrite length_app. cbn. lia. }
    rewrite zlen_app in Er. exists r. split; [done|]. destruct r as [[o tmp]|]; [|done]. intros H4. destruct (Hr H4) as [? ->]. split; [done|].
    unfold done4. rewrite map_app, concat_app, app_nil_r. cbn [map concat]. by rewrite app_nil_r, <- !app_assoc.
Qed.

Lemma until_nul_idem s : until_nul (until_nul s) = until_nul s.
Proof. induction s as [|c s IH]; cbn; [done|]. destruct (c =? 0) eqn:E; cbn; [done|]. by rewrite E, IH. Qed.

Lemma pton4_until src : ∀ saw octets tmp tp, pton4_loop (until_nul src) saw octets tmp tp = pton4_loop src saw octets tmp tp.
Proof.
  induction src as [|c src IH]; intros saw octets tmp tp; [done|]. cbn [until_nul]. destruct (c =? 0) eqn:E0; [cbn; by rewrite E0|]. cbn [pton4_loop]. rewrite E0.
  destruct (strchr digits c) as [d|].
  - destruct (rd tmp tp) as [v| |]; cbn; [|done..]. destruct (saw && _); [done|]. destruct (255 <? _); [done|]. destruct (memcpy_to tmp tp _) as [t| |]; cbn; [|done..].
    destruct (negb saw); [|apply IH]. destruct (4 <? _); [done|]. apply IH.
  - destruct (_ && saw); [|done]. destruct (octets =? 4); [done|]. destruct (memcpy_to _ _ _) as [t| |]; cbn; [|done..]. apply IH.
Qed.

Lemma inet_pton4_facts stack src : length stack = 4%nat → ∃ r, inet_pton4 stack src = Val r ∧ ∀ quad, r = inr quad → quad_ok quad ∧ until_nul src = text4 quad.
Proof.
  intros Hs. destruct stack as [|x0 [|x1 [|x2 [|x3 [|]]]]]; try done. unfold inet_pton4. rewrite memcpy_to_head, bind_Val.
  destruct (pton4_sound src false 0 [] 0 [x1; x2; x3]) as (r & Er & Hr); try done. change ([] ++ 0 :: [x1; x2; x3]) with [0; x1; x2; x3] in Er. change (zlen []) with 0 in Er. rewrite Er, bind_Val.
  destruct r as [[o tmp]|]; [|by eexists]. destruct (o <? 4) eqn:Eo; [by eexists|]. eexists. split; [done|]. intros quad [= <-]. destruct Hr as [? Ht]; [blia|]. by rewrite Ht.
Qed.

(** C27 (equivalence). [inet_pton4] returns on every text, never writes outside its buffer
    of four bytes, and accepts exactly the canonical dotted texts: four numbers of at
    most 255 without leading zeros, between dots; it stores their values. *)
Theorem inet_pton4_exact stack src : length stack = 4%nat →
  (∃ r, inet_pton4 stack src = Val r) ∧
  ∀ quad, inet_pton4 stack src = Val (inr quad) ↔ quad_ok quad ∧ until_nul src = text4 quad.
Proof.
  intros Hs. destruct (inet_pton4_facts stack src Hs) as (r & E & Hr). split; [by exists r|]. intros quad. rewrite E. split; [intros [= ->]; by apply Hr|]. intros [Hq Hu].
  rewrite <- E. rewrite <- (pton4_complete stack quad) by done. rewrite <- Hu. unfold inet_pton4. destruct (memcpy_to stack 0 [0]); cbn; [|done..]. by rewrite pton4_until.
Qed.

(** ** The run that is abbreviated *)

(** Which words are zero is all that matters. *)
Definition shape (words : list Z) : list Z := map (λ w, if w =? 0 then 0 else 1) words.

Lemma find_run_shape words : ∀ i best cur, find_run (shape words) i best cur = find_run words i best cur.
Proof. induction words as [|w words IH]; intros i best cur; [done|]. cbn [shape map find_run]. destruct (w =? 0); cbn; [apply IH|]. destruct (negb _); apply IH. Qed.

Fixpoint shapes (n : nat) : list (list Z) :=
  match n with
  | O => [[]]
  | S n => map (cons 0) (shapes n) ++ map (cons 1) (shapes n)
  end.

Lemma shape_in words : In (shape words) (shapes (length words)).
Proof.
  induction words as [|w words IH]; [by left|]. cbn [shapes length]. apply in_app_iff. cbn [shape map]. destruct (w =? 0); [left|right]; by apply in_map.
Qed.

(** Words [b], ..., [b + l - 1] are zero. *)
Definition zero_words (words : list Z) (b l : Z) : Prop :=
  0 ≤ b ∧ 0 ≤ l ∧ b + l ≤ zlen words ∧ take (Z.to_nat l) (drop (Z.to_nat b) words) = replicate (Z.to_nat l) 0.

#[export] Instance zero_words_dec words b l : Decision (zero_words words b l).
Proof. unfold zero_words. apply _. Defined.

Lemma zero_words_shape words b l : zero_words (shape words) b l ↔ zero_words words b l.
Proof.
  unfold zero_words, zlen, shape. rewrite length_map, skipn_map, firstn_map. do 3 (apply and_iff_compat_l). generalize (drop (Z.to_nat b) words). induction (Z.to_nat l) as [|n IH]; intros ws; [done|].
  destruct ws as [|w ws]; [done|]. cbn. destruct (w =? 0) eqn:E; b2p.
  - subst w. split; intros [= H]; f_equal; by apply IH.
  - by split; intros [= H].
Qed.

(** The chosen run: the first of the longest runs of at least two zero words, if there
    is one. *)
Definition chosen (words : list Z) (r : zero_run) : Prop :=
  (base r = -1 ∨ (2 ≤ len r ∧ zero_words words (base r) (len r))) ∧
  ∀ b l, 2 ≤ l → zero_words words b l → base r ≠ -1 ∧ (l < len r ∨ (l = len r ∧ base r ≤ b)).

Definition chosen_b (words : list Z) (r : zero_run) : bool :=
  bool_decide (base r = -1 ∨ (2 ≤ len r ∧ zero_words words (base r) (len r))) &&
  forallb (λ b, forallb (λ l, bool_decide (zero_words words b l → base r ≠ -1 ∧ (l < len r ∨ (l = len r ∧ base r ≤ b)))) (seqZ 2 7)) (seqZ 0 9).

Lemma chosen_shapes : forallb (λ s, chosen_b s (best_run s)) (shapes 8) = true.
Proof. vm_compute. reflexivity. Qed.

Lemma best_run_chosen words : length words = 8%nat → chosen words (best_run words).
Proof.
  intros Hl. pose proof chosen_shapes as H. rewrite forallb_forall in H. specialize (H (shape words)). rewrite <- Hl in H. specialize (H (shape_in words)).
  assert (best_run (shape words) = best_run words) as E by (unfold best_run; by rewrite find_run_shape). rewrite E in H.
  apply andb_true_iff in H as [H1 H2]. rewrite bool_decide_eq_true, zero_words_shape in H1. split; [done|]. intros b l Hl2 Hz.
  assert (0 ≤ b < 9 ∧ 2 ≤ l < 9) as [Hb Hl9] by (destruct Hz as (? & ? & Hz & _); unfold zlen in Hz; lia).
  rewrite forallb_forall in H2. specialize (H2 b ltac:(apply list_elem_of_In, elem_of_seqZ; lia)). cbn beta in H2. rewrite forallb_forall in H2. specialize (H2 l ltac:(apply list_elem_of_In, elem_of_seqZ; lia)).
  cbn beta in H2. rewrite bool_decide_eq_true, zero_words_shape in H2. by apply H2.
Qed.

(** ** Printing IPv6 *)

Definition wbytes (w : Z) : bytes := [w / 256; w mod 256].
Definition wordsb (words : list Z) : bytes := concat (map wbytes words).
Fixpoint pairs (src : bytes) : list Z := match src with a :: b :: src => a * 256 + b :: pairs src | _ => [] end.

Lemma wordsb_app l1 l2 : wordsb (l1 ++ l2) = wordsb l1 ++ wordsb l2.
Proof. unfold wordsb. by rewrite map_app, concat_app. Qed.

Lemma wordsb_length words : length (wordsb words) = (2 * length words)%nat.
Proof. induction words as [|w words IH]; [done|]. cbn. change (concat (map wbytes words)) with (wordsb words). lia. Qed.

Lemma wordsb_zeros k : wordsb (replicate k 0) = replicate (2 * k) 0.
Proof. induction k as [|k IH]; [done|]. replace (2 * S k)%nat with (S (S (2 * k))) by lia. cbn [replicate]. rewrite <- IH. done. Qed.

Lemma word_lor a b : is_byte a → is_byte b → Z.lor (Z.lor 0 (Z.shiftl a 8)) (Z.shiftl b 0) = a * 256 + b.
Proof.
  intros Ha Hb. rewrite Z.lor_0_l, Z.shiftl_mul_pow2, Z.shiftl_0_r by lia. change (a * 2 ^ 8) with (a * 2 ^ 8). by rewrite lor_low_high by (done || lia).
Qed.

Lemma words_of_src src : length src = 16%nat → Forall is_byte src →
  words_of src = Val (pairs src) ∧ length (pairs src) = 8%nat ∧ Forall (is_u 16) (pairs src) ∧ wordsb (pairs src) = src.
Proof.
  intros Hl Hb. destruct src as [|b0 [|b1 [|b2 [|b3 [|b4 [|b5 [|b6 [|b7 [|b8 [|b9 [|b10 [|b11 [|b12 [|b13 [|b14 [|b15 [|]]]]]]]]]]]]]]]]]; try done. repeat (apply Forall_cons in Hb as [? Hb]). split; [|split; [done|split]].
  - transitivity (Val [Z.lor (Z.lor 0 (Z.shiftl b0 8)) (Z.shiftl b1 0); Z.lor (Z.lor 0 (Z.shiftl b2 8)) (Z.shiftl b3 0); Z.lor (Z.lor 0 (Z.shiftl b4 8)) (Z.shiftl b5 0); Z.lor (Z.lor 0 (Z.shiftl b6 8)) (Z.shiftl b7 0); Z.lor (Z.lor 0 (Z.shiftl b8 8)) (Z.shiftl b9 0); Z.lor (Z.lor 0 (Z.shiftl b10 8)) (Z.shiftl b11 0); Z.lor (Z.lor 0 (Z.shiftl b12 8)) (Z.shiftl b13 0); Z.lor (Z.lor 0 (Z.shiftl b14 8)) (Z.shiftl b15 0)]); [reflexivity|]. by rewrite !word_lor.
  - repeat (constructor; [int_solve|]). constructor.
  - cbn -[Z.div Z.modulo]. rewrite !Z.div_add_l by lia. by rewrite !Z.div_small, !Z.add_0_r, !(Z.add_comm (_ * 256)), !Z_mod_plus_full, !Z.mod_small by int_solve.
Qed.

Lemma hex_digits_length f n k : 0 ≤ n < 16 ^ k → 1 ≤ k → (f ≠ 0)%nat → 1 ≤ zlen (hex_digits f n) ≤ k.
Proof.
  revert n k. induction f as [|f IH]; intros n k Hn Hk Hf; [done|]. cbn [hex_digits]. rewrite zlen_app. change (zlen [hex_char _]) with 1. destruct (n <? 16) eqn:E; [rewrite zlen_nil; lia|].
  destruct f as [|f]; [cbn [hex_digits]; rewrite zlen_nil; lia|]. assert (1 < k) as Hk2. { destruct (decide (k = 1)) as [->|]; [rewrite Z.pow_1_r in Hn; blia|lia]. }
  assert (0 ≤ Z.shiftr n 4 < 16 ^ (k - 1)) as Hs.
  { rewrite Z.shiftr_div_pow2 by lia. change (2 ^ 4) with 16. split; [apply Z.div_pos; lia|]. apply Z.div_lt_upper_bound; [lia|]. rewrite <- Z.pow_succ_r by lia. replace (Z.succ (k - 1)) with k by lia. apply Hn. }
  specialize (IH _ _ Hs ltac:(lia) ltac:(done)). lia.
Qed.

Lemma hex_length w : is_u 16 w → 1 ≤ zlen (sprintf_x w) ≤ 4.
Proof. intros Hw. apply hex_digits_length; [exact Hw|lia|done]. Qed.

Definition tail_text (ws : list Z) : bytes := concat (map (λ w, colon :: sprintf_x w) ws).
Definition hexes (ws : list Z) : bytes := match ws with [] => [] | w :: ws => sprintf_x w ++ tail_text ws end.
Arguments sprintf_x : simpl never.

Definition in_run (best : zero_run) (i : Z) : bool := negb (base best =? -1) && (base best <=? i) && (i <? base best + len best).

Lemma put_ok out s : zlen out + zlen s ≤ 46 → put out s = Val (out ++ s).
Proof. intros H. unfold put. by rewrite require_true by (apply Z.leb_le; exact H). Qed.

Section Format.
Context (src : bytes) (words : list Z) (best : zero_run).

Lemma format_skip ws : ∀ rest i out, (∀ j, i ≤ j < i + zlen ws → in_run best j = true ∧ j ≠ base best) →
  format6 src words best (ws ++ rest) i out = format6 src words best rest (i + zlen ws) out.
Proof.
  induction ws as [|w ws IH]; intros rest i out H; [by rewrite Z.add_0_r|]. pose proof (zlen_nonneg ws). rewrite zlen_cons in *. cbn [app format6]. destruct (H i) as [Hr Hb]; [lia|].
  unfold in_run in Hr. rewrite Hr. rewrite (proj2 (Z.eqb_neq i (base best))) by done. rewrite bind_Val, IH; [f_equal; lia|]. intros j Hj. apply H. lia.
Qed.

Lemma format_run ws rest out : 0 ≤ base best → zlen ws = len best → 1 ≤ len best → zlen out ≤ 45 →
  format6 src words best (ws ++ rest) (base best) out = format6 src words best rest (base best + len best) (out ++ [colon]).
Proof.
  intros Hb Hl H1 Ho. destruct ws as [|w ws]; [rewrite zlen_nil in Hl; lia|]. rewrite zlen_cons in Hl. cbn [app format6]. assert (∀ j, base best ≤ j < base best + len best → in_run best j = true) as Hin.
  { intros j Hj. unfold in_run. rewrite <- andb_assoc, in_range by lia. by destruct (base best =? -1) eqn:E; [blia|]. }
  pose proof (Hin (base best) ltac:(lia)) as Hr. unfold in_run in Hr. rewrite Hr, Z.eqb_refl, put_ok by (change (zlen [colon]) with 1; lia). rewrite bind_Val, format_skip; [f_equal; lia|].
  intros j Hj. split; [apply Hin; lia|lia].
Qed.

Lemma format_words ws : ∀ rest i out, Forall (is_u 16) ws → 0 ≤ i → i + zlen ws ≤ 8 → zlen out ≤ 5 * i →
  (∀ j, i ≤ j < i + zlen ws → in_run best j = false ∧ embeds_ipv4 words best j = Val false) →
  let text := if i =? 0 then hexes ws else tail_text ws in
  format6 src words best (ws ++ rest) i out = format6 src words best rest (i + zlen ws) (out ++ text) ∧ zlen (out ++ text) ≤ 5 * (i + zlen ws).
Proof.
  induction ws as [|w ws IH]; intros rest i out Hw Hi H8 Ho H; cbv zeta.
  { destruct (i =? 0); cbn [hexes tail_text map concat app]; rewrite app_nil_r, zlen_nil, Z.add_0_r; done. }
  apply Forall_cons in Hw as [Hw Hws]. pose proof (zlen_nonneg ws). pose proof (hex_length w Hw). rewrite zlen_cons in *. cbn [app format6]. destruct (H i) as [Hr He]; [lia|]. unfold in_run in Hr. rewrite Hr, He.
  assert (∀ j, i + 1 ≤ j < i + 1 + zlen ws → in_run best j = false ∧ embeds_ipv4 words best j = Val false) as H' by (intros j Hj; apply H; lia).
  replace (i + (1 + zlen ws)) with (i + 1 + zlen ws) by lia. destruct (i =? 0) eqn:Ei; cbn [negb].
  - rewrite !bind_Val, put_ok by (rewrite zlen_app; change (zlen [0]) with 1; blia). rewrite bind_Val. destruct (IH rest (i + 1) (out ++ sprintf_x w) Hws ltac:(lia) ltac:(lia)) as [-> Hlen]; [rewrite zlen_app; lia|done|].
    destruct (i + 1 =? 0) eqn:E1; [blia|]. rewrite <- app_assoc in *. done.
  - rewrite put_ok by (change (zlen [colon]) with 1; lia). rewrite !bind_Val, put_ok by (rewrite !zlen_app; change (zlen [colon]) with 1; change (zlen [0]) with 1; lia). rewrite bind_Val.
    destruct (IH rest (i + 1) ((out ++ [colon]) ++ sprintf_x w) Hws ltac:(lia) ltac:(lia)) as [-> Hlen]; [rewrite !zlen_app; change (zlen [colon]) with 1; lia|done|].
    destruct (i + 1 =? 0) eqn:E1; [blia|]. rewrite <- !app_assoc in *. done.
Qed.
End Format.

(** The texts of eight words: all of them when no two zeros follow each other, with the
    chosen run of zeros left out, or with the last two as an IPv4 address. *)
Inductive printed6 (words : list Z) : bytes → Prop :=
| P6Plain l : chosen words (mkRun (-1) l) → printed6 words (hexes words)
| P6Short L k R : words = L ++ replicate k 0 ++ R → (2 ≤ k)%nat → chosen words (mkRun (zlen L) (Z.of_nat k)) →
    printed6 words (hexes L ++ [colon; colon] ++ hexes R)
| P6Compat u v : words = replicate 6 0 ++ [u; v] → printed6 words ([colon; colon] ++ text4 (wordsb [u; v]))
| P6Mapped u v : words = replicate 5 0 ++ [0xffff; u; v] → printed6 words ([colon; colon] ++ sprintf_x 0xffff ++ [colon] ++ text4 (wordsb [u; v])).

Lemma rd_words words i w : words !! i = Some w → rd words (Z.of_nat i) = Val w.
Proof. intros H. unfold rd. destruct (Z.of_nat i <? 0) eqn:E; [blia|]. by rewrite Nat2Z.id, H. Qed.

(** When no IPv4 address is printed. *)
Definition embedding (words : list Z) (best : zero_run) : Prop := base best = 0 ∧ (len best = 6 ∨ (len best = 5 ∧ words !! 5%nat = Some 0xffff)).

#[export] Instance embedding_dec words best : Decision (embedding words best).
Proof. unfold embedding. apply _. Defined.

Lemma embeds_never words best j : length words = 8%nat → ¬ embedding words best → in_run best j = false → embeds_ipv4 words best j = Val false.
Proof.
  intros Hl He Hr. unfold embeds_ipv4. destruct (_ && _) eqn:E; [|done]. b2p. unfold embedding in He. unfold in_run in Hr. subst j.
  destruct (len best =? 6) eqn:E6; [exfalso; apply He; split; [done|left; blia]|]. destruct (len best =? 7) eqn:E7.
  { exfalso. rewrite H0 in Hr. cbn [Z.eqb negb andb] in Hr. blia. }
  destruct (len best =? 5) eqn:E5; [|done]. destruct (lookup_lt_is_Some_2 words 5) as [w Hw]; [lia|]. change (rd words 5) with (rd words (Z.of_nat 5)). rewrite (rd_words words 5 w Hw). cbn [mbind exec_bind]. f_equal. apply Z.eqb_neq. intros ->. apply He. split; [done|right; split; [blia|done]].
Qed.

Lemma quad_of u v : is_u 16 u → is_u 16 v → quad_ok (wordsb [u; v]).
Proof.
  intros Hu Hv. split; [done|]. pose proof (Z.mod_pos_bound u 256). pose proof (Z.mod_pos_bound v 256). assert (0 ≤ u / 256 < 256 ∧ 0 ≤ v / 256 < 256) as [? ?].
  { split; (split; [apply Z.div_pos; int_solve|apply Z.div_lt_upper_bound; int_solve]). }
  cbn -[Z.div Z.modulo]. repeat (constructor; [int_solve|]). constructor.
Qed.

Section Printed.
Context (src : bytes) (Hsrc : length src = 16%nat) (Hbytes : Forall is_byte src).
Let words := pairs src.
Let best := best_run words.

Lemma ntop6_finish size out : words_of src = Val words → format6 src words best words 0 [] = Val (inr out) → zlen out ≤ 44 →
  let text := if negb (base best =? -1) && (base best + len best =? 8) then out ++ [colon] else out in
  inet_ntop6 src size = Val (if size <? zlen text + 1 then inl UV_ENOSPC else inr text).
Proof.
  intros Hw Hf Ho. unfold inet_ntop6. rewrite Hw, bind_Val. fold best. rewrite Hf, bind_Val. cbv zeta. destruct (_ && _).
  - rewrite put_ok by (change (zlen [colon]) with 1; lia). rewrite bind_Val, put_ok by (rewrite zlen_app; change (zlen [colon]) with 1; change (zlen [0]) with 1; lia). rewrite bind_Val, (zlen_app _ [0]). change (zlen [0]) with 1. by destruct (_ <? _).
  - rewrite bind_Val, put_ok by (change (zlen [0]) with 1; lia). rewrite bind_Val, zlen_app. change (zlen [0]) with 1. by destruct (_ <? _).
Qed.

Lemma ntop6_plain size : base best = -1 →
  inet_ntop6 src size = Val (if size <? zlen (hexes words) + 1 then inl UV_ENOSPC else inr (hexes words)) ∧ zlen (hexes words) < 46.
Proof.
  intros Hb. destruct (words_of_src src Hsrc Hbytes) as (Hw & Hl & Hu & _). fold words in Hw, Hl, Hu. assert (zlen words = 8) as Hz by (unfold zlen; lia).
  destruct (format_words src words best words [] 0 [] Hu) as [Hf Hlen]; [lia|lia|rewrite zlen_nil; lia| |].
  { intros j _. assert (in_run best j = false) as Hr by (unfold in_run; rewrite Hb; done). split; [done|]. apply embeds_never; [done| |done]. intros [? _]. lia. }
  rewrite app_nil_r in Hf. cbn [Z.eqb app] in Hf, Hlen. rewrite Hz in Hlen. split; [|lia]. pose proof (ntop6_finish size (hexes words) Hw Hf ltac:(lia)) as E. cbv zeta in E. rewrite Hb in E. exact E.
Qed.

Lemma ntop6_short size L R : words = L ++ replicate (Z.to_nat (len best)) 0 ++ R → zlen L = base best → 2 ≤ len best → ¬ embedding words best →
  let text := hexes L ++ [colon; colon] ++ hexes R in
  inet_ntop6 src size = Val (if size <? zlen text + 1 then inl UV_ENOSPC else inr text) ∧ zlen text < 46.
Proof.
  intros E HL Hlen He. cbv zeta. destruct (words_of_src src Hsrc Hbytes) as (Hw & Hl & Hu & _). fold words in Hw, Hl, Hu. pose proof (zlen_nonneg L). pose proof (zlen_nonneg R).
  assert (zlen L + len best + zlen R = 8) as H8. { rewrite E, !length_app, length_replicate in Hl. unfold zlen in *. lia. }
  rewrite E, !Forall_app in Hu. destruct Hu as (HuL & _ & HuR). assert (∀ j, 0 ≤ j < base best ∨ base best + len best ≤ j → in_run best j = false) as Hout.
  { intros j Hj. unfold in_run. destruct (negb _ && _ && _) eqn:E1; [blia|done]. }
  destruct (format_words src words best L (replicate (Z.to_nat (len best)) 0 ++ R) 0 [] HuL) as [Hf1 Hl1]; [lia|lia|rewrite zlen_nil; lia| |].
  { intros j Hj. assert (in_run best j = false) as Hr by (apply Hout; lia). split; [done|]. by apply embeds_never. }
  cbn [Z.eqb app] in Hf1, Hl1. rewrite !Z.add_0_l, HL in *.
  assert (zlen (replicate (Z.to_nat (len best)) 0) = len best) as Hrep by (unfold zlen; rewrite length_replicate; lia).
  pose proof (format_run src words best (replicate (Z.to_nat (len best)) 0) R (hexes L) ltac:(lia) Hrep ltac:(lia) ltac:(lia)) as Hf2.
  destruct (format_words src words best R [] (base best + len best) (hexes L ++ [colon]) HuR) as [Hf3 Hl3]; [lia|lia|rewrite zlen_app; change (zlen [colon]) with 1; lia| |].
  { intros j Hj. assert (in_run best j = false) as Hr by (apply Hout; lia). split; [done|]. by apply embeds_never. }
  destruct (base best + len best =? 0) eqn:E0; [blia|]. rewrite app_nil_r in Hf3. assert (format6 src words best words 0 [] = Val (inr ((hexes L ++ [colon]) ++ tail_text R))) as Hf.
  { replace (format6 src words best words 0 []) with (format6 src words best (L ++ replicate (Z.to_nat (len best)) 0 ++ R) 0 []) by (by rewrite <- E). rewrite Hf1, Hf2. rewrite Hf3. done. }
  pose proof (ntop6_finish size _ Hw Hf ltac:(lia)) as Ef. cbv zeta in Ef. destruct (base best =? -1) eqn:E1; [blia|]. cbn [negb andb] in Ef.
  assert ((if base best + len best =? 8 then ((hexes L ++ [colon]) ++ tail_text R) ++ [colon] else (hexes L ++ [colon]) ++ tail_text R) = hexes L ++ [colon; colon] ++ hexes R) as Et.
  { destruct R as [|r R].
    - rewrite zlen_nil in *. destruct (_ =? 8) eqn:E8; [|blia]. cbn [tail_text map concat hexes]. by rewrite !app_nil_r, <- app_assoc.
    - rewrite zlen_cons in *. pose proof (zlen_nonneg R). destruct (_ =? 8) eqn:E8; [blia|]. rewrite <- app_assoc. done. }
  rewrite Et in Ef. split; [done|]. rewrite <- Et. destruct (_ =? 8); rewrite ?zlen_app in *; change (zlen [colon]) with 1 in *; lia.
Qed.
Lemma format_quad out w ws quad : in_run best 6 = false → embeds_ipv4 words best 6 = Val true → zlen out ≤ 20 → drop 12 src = quad → quad_ok quad →
  format6 src words best (w :: ws) 6 out = Val (inr (out ++ [colon] ++ text4 quad)).
Proof.
  intros Hr He Ho Hd Hq. cbn [format6]. unfold in_run in Hr. rewrite Hr, He. cbn [Z.eqb Pos.eqb negb]. rewrite put_ok by (change (zlen [colon]) with 1; lia). rewrite !bind_Val, Hd.
  pose proof (text4_length _ Hq) as H4. assert (zlen (out ++ [colon]) ≤ 21) as Ho' by (rewrite zlen_app; change (zlen [colon]) with 1; lia).
  rewrite <- (app_nil_r quad) at 1. rewrite ntop4_text by (done || unfold tmp6_size; lia). rewrite bind_Val, put_ok by lia. rewrite bind_Val. by rewrite <- app_assoc.
Qed.

Lemma ntop6_embedded : chosen words best → embedding words best →
  ∃ text, (∀ size, inet_ntop6 src size = Val (if size <? zlen text + 1 then inl UV_ENOSPC else inr text)) ∧ printed6 words text ∧ zlen text < 46.
Proof.
  intros [[Hb|[_ (_ & _ & _ & Hz)]] _] [H0 Hcase]; [lia|]. destruct (words_of_src src Hsrc Hbytes) as (Hw & Hl & Hu & Hs). fold words in Hw, Hl, Hu, Hs. rewrite H0 in Hz.
  assert (words = replicate (Z.to_nat (len best)) 0 ++ drop (Z.to_nat (len best)) words) as E. { rewrite <- Hz. symmetry. apply take_drop. }
  assert (∀ size out, format6 src words best words 0 [] = Val (inr out) → zlen out ≤ 44 → inet_ntop6 src size = Val (if size <? zlen out + 1 then inl UV_ENOSPC else inr out)) as Hfin.
  { intros size out Hf Ho. pose proof (ntop6_finish size out Hw Hf Ho) as Ef. cbv zeta in Ef. rewrite H0 in Ef. destruct (0 + len best =? 8) eqn:E8; [destruct Hcase as [?|[? _]]; blia|exact Ef]. }
  assert (∀ rest, words = replicate (Z.to_nat (len best)) 0 ++ rest → format6 src words best words 0 [] = format6 src words best rest (len best) [colon]) as Hrun.
  { intros rest Er. replace (format6 src words best words 0 []) with (format6 src words best (replicate (Z.to_nat (len best)) 0 ++ rest) (base best) []) by (by rewrite <- Er, H0). rewrite format_run; [by rewrite H0|lia|unfold zlen; rewrite length_replicate; destruct Hcase as [?|[? _]]; lia|destruct Hcase as [?|[? _]]; lia|rewrite zlen_nil; lia]. }
  assert (in_run best 6 = false) as Hr6 by (unfold in_run; rewrite H0; destruct (negb _ && _ && _) eqn:E1; [destruct Hcase as [?|[? _]]; blia|done]).
  destruct Hcase as [H6|[H5 Hf5]].
  - rewrite H6 in *. change (Z.to_nat 6) with 6%nat in *. destruct (drop 6 words) as [|u [|v [|]]] eqn:Er; try (exfalso; rewrite E in Hl; rewrite length_app, length_replicate in Hl; cbn in Hl; lia).
    rewrite E, Forall_app in Hu. destruct Hu as [_ Hu]. apply Forall_cons in Hu as [Hu Hv]. apply Forall_cons in Hv as [Hv _].
    assert (drop 12 src = wordsb [u; v]) as Hd by (rewrite <- Hs, E, wordsb_app, wordsb_zeros; done).
    exists ([colon; colon] ++ text4 (wordsb [u; v])). pose proof (text4_length _ (quad_of u v Hu Hv)) as H4.
    assert (zlen ([colon; colon] ++ text4 (wordsb [u; v])) = 2 + zlen (text4 (wordsb [u; v]))) as Hlen by (by rewrite zlen_app). split; [|split; [by apply P6Compat|lia]].
    intros size. apply Hfin; [|lia]. rewrite (Hrun [u; v]) by done. rewrite (format_quad [colon] u [v] (wordsb [u; v])); [done|done| |by vm_compute|done|by apply quad_of].
    unfold embeds_ipv4. by rewrite H0, H6.
  - rewrite H5 in *. change (Z.to_nat 5) with 5%nat in *. destruct (drop 5 words) as [|f [|u [|v [|]]]] eqn:Er; try (exfalso; rewrite E in Hl; rewrite length_app, length_replicate in Hl; cbn in Hl; lia).
    rewrite E in Hf5. cbn in Hf5. injection Hf5 as ->. rewrite E, Forall_app in Hu. destruct Hu as [_ Hu]. apply Forall_cons in Hu as [Hf Hu]. apply Forall_cons in Hu as [Hu Hv]. apply Forall_cons in Hv as [Hv _].
    assert (drop 12 src = wordsb [u; v]) as Hd by (rewrite <- Hs, E, wordsb_app, wordsb_zeros; done).
    exists ([colon; colon] ++ sprintf_x 0xffff ++ [colon] ++ text4 (wordsb [u; v])). pose proof (text4_length _ (quad_of u v Hu Hv)) as H4.
    assert (zlen ([colon; colon] ++ sprintf_x 0xffff ++ [colon] ++ text4 (wordsb [u; v])) = 7 + zlen (text4 (wordsb [u; v]))) as Hlen.
    { rewrite !zlen_app. change (zlen (sprintf_x 0xffff)) with 4. change (zlen [colon; colon]) with 2. change (zlen [colon]) with 1. lia. }
    split; [|split; [by apply P6Mapped|lia]]. intros size. apply Hfin; [|lia]. rewrite (Hrun [0xffff; u; v]) by done.
    destruct (format_words src words best [0xffff] [u; v] 5 [colon]) as [Hfw _]; [by apply Forall_singleton|lia|by vm_compute|by vm_compute| |].
    { change (zlen [0xffff]) with 1. intros j Hj. replace j with 5 by lia. unfold in_run, embeds_ipv4. by rewrite H0, H5. }
    cbn [app] in Hfw. rewrite Hfw. change (5 + zlen [0xffff]) with 6. rewrite (format_quad _ u [v] (wordsb [u; v])); [done|done| |by vm_compute|done|by apply quad_of].
    unfold embeds_ipv4. rewrite H0, H5. cbn. rewrite E. done.
Qed.

Lemma ntop6_printed : ∃ text, (∀ size, inet_ntop6 src size = Val (if size <? zlen text + 1 then inl UV_ENOSPC else inr text)) ∧ printed6 words text ∧ zlen text < 46.
Proof.
  destruct (words_of_src src Hsrc Hbytes) as (Hw & Hl & Hu & Hs). fold words in Hw, Hl, Hu, Hs. pose proof (best_run_chosen words Hl) as Hc. fold best in Hc.
  destruct (decide (embedding words best)) as [He|He]; [by apply ntop6_embedded|]. pose proof Hc as [[Hb|[H2 (Hb0 & _ & H8 & Hz)]] _].
  { exists (hexes words). split; [intros size; by apply ntop6_plain|]. split; [|by apply (ntop6_plain 0)]. apply (P6Plain words (len best)). rewrite <- Hb. by destruct best. }
  assert (words = take (Z.to_nat (base best)) words ++ replicate (Z.to_nat (len best)) 0 ++ drop (Z.to_nat (len best)) (drop (Z.to_nat (base best)) words)) as E.
  { rewrite <- Hz, take_drop, take_drop. done. }
  assert (zlen (take (Z.to_nat (base best)) words) = base best) as HL by (unfold zlen; rewrite length_take, Hl; unfold zlen in H8; lia).
  eexists. split; [intros size; by apply (ntop6_short size _ _ E)|]. split; [|by apply (ntop6_short 0 _ _ E)]. eapply P6Short; [exact E|lia|]. rewrite HL, Z2Nat.id by lia. by destruct best.
Qed.
End Printed.

(** ** Reading IPv6 *)

Lemma hex_char_spec d : 0 ≤ d < 16 → hex_char d ≠ 0 ∧ hex_char d ≠ colon ∧ hex_char d ≠ dot.
Proof. intros Hd. unfold hex_char, colon, dot. destruct (d <? 10) eqn:E; blia. Qed.

Lemma hex_first w : ∃ d rest, sprintf_x w = hex_char d :: rest ∧ 0 ≤ d < 16.
Proof.
  unfold sprintf_x. assert (∀ f n, (f ≠ 0)%nat → ∃ d rest, hex_digits f n = hex_char d :: rest ∧ 0 ≤ d < 16) as H; [|by apply H].
  induction f as [|f IH]; intros n Hf; [done|]. cbn [hex_digits]. assert (0 ≤ Z.land n 15 < 16) as Hd by (change 15 with (Z.ones 4); rewrite Z.land_ones by lia; apply Z.mod_pos_bound; lia).
  destruct (n <? 16); [by eexists _, []|]. destruct f as [|f]; [by eexists _, []|]. destruct (IH (Z.shiftr n 4)) as (d & rest & -> & ?); [done|]. by eexists _, _.
Qed.

Lemma hexes_first w ws : ∃ d rest, hexes (w :: ws) = hex_char d :: rest ∧ 0 ≤ d < 16.
Proof. destruct (hex_first w) as (d & rest & E & Hd). cbn [hexes]. rewrite E. by eexists _, _. Qed.

Section Parse.
Context (stack : bytes) (Hstack : length stack = 4%nat).
Local Abbreviation loop6 := (pton6_loop stack).

Lemma pton6_digit d rest cur tmp tp c seen val : 0 ≤ d < 16 → seen < 4 → 0 ≤ val < 2 ^ 12 →
  loop6 (hex_char d :: rest) cur (mkP6 tmp tp c seen val) = loop6 rest cur (mkP6 tmp tp c (seen + 1) (val * 16 + d)).
Proof.
  intros Hd Hs Hv. cbn [pton6_loop]. destruct (hex_char_spec d Hd) as (H0 & _). rewrite (proj2 (Z.eqb_neq _ _) H0), xdigit_hex by done. cbn [p_seen p_tmp p_tp p_colonp p_val].
  destruct (4 <? seen + 1) eqn:E; [blia|]. do 2 f_equal. rewrite Z.shiftl_mul_pow2 by lia. rewrite (wrap_small 32) by int_solve. by rewrite lor_low_high by (lia || int_solve).
Qed.

Lemma hex_run f : ∀ n rest cur tmp tp c, 0 ≤ n < 16 ^ Z.of_nat f → is_u 16 n → (f ≠ 0)%nat →
  loop6 (hex_digits f n ++ rest) cur (mkP6 tmp tp c 0 0) = loop6 rest cur (mkP6 tmp tp c (zlen (hex_digits f n)) n).
Proof.
  induction f as [|f IH]; intros n rest cur tmp tp c Hn Hu Hf; [done|]. assert (0 ≤ Z.land n 15 < 16 ∧ n = Z.shiftr n 4 * 16 + Z.land n 15) as [Hd En].
  { change 15 with (Z.ones 4). rewrite Z.land_ones, Z.shiftr_div_pow2 by lia. split; [apply Z.mod_pos_bound; lia|]. pose proof (Z.div_mod n (2 ^ 4) ltac:(lia)). lia. }
  cbn [hex_digits]. destruct (n <? 16) eqn:E.
  - cbn [app]. rewrite pton6_digit by lia. do 2 f_equal. replace (Z.shiftr n 4) with 0 in En; [lia|]. rewrite Z.shiftr_div_pow2 by lia. symmetry. apply Z.div_small. blia.
  - destruct f as [|f]; [rewrite Z.pow_1_r in Hn; blia|]. assert (0 ≤ Z.shiftr n 4 < 2 ^ 12) as Hs.
    { rewrite Z.shiftr_div_pow2 by lia. split; [apply Z.div_pos; lia|apply Z.div_lt_upper_bound; int_solve]. }
    assert (Z.shiftr n 4 < 16 ^ Z.of_nat (S f)) as Hp.
    { rewrite Z.shiftr_div_pow2 by lia. apply Z.div_lt_upper_bound; [lia|]. change (2 ^ 4) with 16. rewrite <- Z.pow_succ_r by lia. replace (Z.succ (Z.of_nat (S f))) with (Z.of_nat (S (S f))) by lia. apply Hn. }
    rewrite <- app_assoc, IH; [|lia|int_solve|done]. pose proof (hex_digits_length (S f) (Z.shiftr n 4) 3 ltac:(exact Hs) ltac:(lia) ltac:(done)).
    cbn [app]. rewrite pton6_digit by lia. do 2 f_equal; [by rewrite zlen_app|lia].
Qed.

(** Between two words, and behind a word that is not stored yet. *)
Definition fresh (pre : bytes) (c : option Z) : parsed6 := mkP6 (pre ++ zeros (16 - zlen pre)) (zlen pre) c 0 0.
Definition at_word (pre : bytes) (c : option Z) (seen w : Z) : parsed6 := mkP6 (pre ++ zeros (16 - zlen pre)) (zlen pre) c seen w.

Lemma store_word_ok pre w : is_u 16 w → zlen pre + 2 ≤ 16 →
  store_word (pre ++ zeros (16 - zlen pre)) (zlen pre) w = Val ((pre ++ wbytes w) ++ zeros (16 - zlen (pre ++ wbytes w))).
Proof.
  intros Hw Hp. unfold store_word. rewrite (zlen_app _ (wbytes w)). change (zlen (wbytes w)) with 2. replace (zeros (16 - zlen pre)) with ([0] ++ [0] ++ zeros (16 - (zlen pre + 2))).
  2: { unfold zeros. replace (Z.to_nat (16 - zlen pre)) with (S (S (Z.to_nat (16 - (zlen pre + 2))))) by lia. done. }
  rewrite memcpy_to_middle by done. rewrite bind_Val, app_assoc, memcpy_to_middle by (rewrite ?zlen_app; done). f_equal. rewrite <- !app_assoc. f_equal. unfold wbytes. cbn [app].
  rewrite Z.shiftr_div_pow2 by lia. rewrite (wrap_small 8 (w / 2 ^ 8)); [done|]. split; [apply Z.div_pos; int_solve|apply Z.div_lt_upper_bound; int_solve].
Qed.

Lemma pton6_word w rest cur pre c : is_u 16 w → ∃ seen, seen ≠ 0 ∧ loop6 (sprintf_x w ++ rest) cur (fresh pre c) = loop6 rest cur (at_word pre c seen w).
Proof.
  intros Hw. exists (zlen (sprintf_x w)). pose proof (hex_length w Hw). split; [lia|]. unfold sprintf_x, fresh. rewrite hex_run; [done| |done|done]. split; [apply Hw|]. etrans; [apply Hw|done].
Qed.

(** The colon behind a word. *)
Lemma pton6_colon ch rest cur pre c seen w : seen ≠ 0 → is_u 16 w → zlen pre + 2 ≤ 16 → ch ≠ 0 →
  loop6 (colon :: ch :: rest) cur (at_word pre c seen w) = loop6 (ch :: rest) (ch :: rest) (fresh (pre ++ wbytes w) c).
Proof.
  intros Hs Hw Hp Hc. unfold at_word. cbn [pton6_loop]. change (xdigit colon) with (@None Z). change (colon =? 0) with false. change (colon =? colon) with true. cbn [p_seen p_tmp p_tp p_colonp p_val at_end].
  rewrite (proj2 (Z.eqb_neq _ _) Hs), (proj2 (Z.eqb_neq _ _) Hc). destruct (16 <? zlen pre + 2) eqn:E; [blia|]. rewrite store_word_ok by done. rewrite bind_Val. unfold fresh. by rewrite zlen_app.
Qed.

(** The second colon of two. *)
Lemma pton6_colons rest cur pre : loop6 (colon :: rest) cur (fresh pre None) = loop6 rest rest (fresh pre (Some (zlen pre))).
Proof. done. Qed.

Lemma parse_tail ws : ∀ rest cur pre c seen w, seen ≠ 0 → is_u 16 w → Forall (is_u 16) ws → zlen pre + 2 + 2 * zlen ws ≤ 16 →
  ∃ pre' w' seen' cur', pre' ++ wbytes w' = pre ++ wordsb (w :: ws) ∧ is_u 16 w' ∧ seen' ≠ 0 ∧
    loop6 (tail_text ws ++ rest) cur (at_word pre c seen w) = loop6 rest cur' (at_word pre' c seen' w').
Proof.
  induction ws as [|x ws IH]; intros rest cur pre c seen w Hs Hw Hws Hp.
  { exists pre, w, seen, cur. done. }
  apply Forall_cons in Hws as [Hx Hws]. rewrite zlen_cons in Hp. pose proof (zlen_nonneg ws). change (tail_text (x :: ws)) with (colon :: sprintf_x x ++ tail_text ws). cbn [app]. destruct (hex_first x) as (d & r & Ex & Hd).
  rewrite <- app_assoc. rewrite Ex. cbn [app]. rewrite pton6_colon by (done || lia || by apply hex_char_spec). rewrite app_comm_cons, <- Ex.
  destruct (pton6_word x (tail_text ws ++ rest) (sprintf_x x ++ tail_text ws ++ rest) (pre ++ wbytes w) c Hx) as (seen1 & Hs1 & ->).
  destruct (IH rest (sprintf_x x ++ tail_text ws ++ rest) (pre ++ wbytes w) c seen1 x) as (pre' & w' & seen' & cur' & E' & Hw' & Hs' & El); [done..|rewrite zlen_app; change (zlen (wbytes w)) with 2; lia|].
  exists pre', w', seen', cur'. rewrite E'. split; [by rewrite <- app_assoc|done].
Qed.

Lemma parse_hexes w ws rest cur pre c : is_u 16 w → Forall (is_u 16) ws → zlen pre + 2 + 2 * zlen ws ≤ 16 →
  ∃ pre' w' seen' cur', pre' ++ wbytes w' = pre ++ wordsb (w :: ws) ∧ is_u 16 w' ∧ seen' ≠ 0 ∧
    loop6 (hexes (w :: ws) ++ rest) cur (fresh pre c) = loop6 rest cur' (at_word pre' c seen' w').
Proof.
  intros Hw Hws Hp. cbn [hexes]. rewrite <- app_assoc. destruct (pton6_word w (tail_text ws ++ rest) cur pre c Hw) as (seen & Hs & ->). by apply parse_tail.
Qed.

(** The shift moves what was read behind the double colon to the end. *)
Lemma shift6_ok A B k : ∀ B2 i n, zlen A + n + Z.of_nat k = 16 → (1 ≤ k)%nat → zlen B + (i - 1) = n → zlen B2 = i - 1 →
  shift6 (length B) i n (zlen A) (A ++ B ++ replicate k 0 ++ B2) = Val (A ++ replicate k 0 ++ B ++ B2).
Proof.
  induction B as [|b B IH] using rev_ind; intros B2 i n Hn Hk HB H2; [done|]. rewrite length_app, Nat.add_1_r. cbn [shift6]. rewrite zlen_app in HB. change (zlen [b]) with 1 in HB.
  destruct k as [|k]; [lia|]. rewrite <- (app_assoc B). rewrite (app_assoc A). cbn [app]. rewrite rd_middle by (rewrite zlen_app; lia). rewrite bind_Val.
  replace ((A ++ B) ++ b :: replicate (S k) 0 ++ B2) with (((A ++ B) ++ b :: replicate k 0) ++ [0] ++ B2).
  2: { by rewrite replicate_S_end, <- !app_assoc. }
  rewrite memcpy_to_middle by (done || (autorewrite with zlen; unfold zlen at 3; rewrite length_replicate; lia)). rewrite bind_Val.
  replace (((A ++ B) ++ b :: replicate k 0) ++ [b] ++ B2) with ((A ++ B) ++ [b] ++ replicate k 0 ++ b :: B2) by (by rewrite <- !app_assoc).
  rewrite memcpy_to_middle by (done || (rewrite zlen_app; lia)). rewrite bind_Val. change ([0] ++ replicate k 0 ++ b :: B2) with (replicate (S k) 0 ++ b :: B2). rewrite <- app_assoc.
  rewrite IH by (rewrite ?zlen_cons; lia). by rewrite <- !app_assoc.
Qed.

Lemma finish_shift A B val : zlen (A ++ B) < 16 →
  finish6 (mkP6 ((A ++ B) ++ zeros (16 - zlen (A ++ B))) (zlen (A ++ B)) (Some (zlen A)) 0 val) = Val (inr (A ++ zeros (16 - zlen (A ++ B)) ++ B)).
Proof.
  intros Hl. unfold finish6. cbn [p_seen p_tmp p_tp p_colonp p_val Z.eqb negb andb]. rewrite bind_Val. destruct (_ =? 16) eqn:E; [blia|]. rewrite zlen_app in *.
  replace (zlen A + zlen B - zlen A) with (zlen B) by lia. replace (Z.to_nat (zlen B)) with (length B) by (unfold zlen; lia). unfold zeros. rewrite <- app_assoc.
  pose proof (shift6_ok A B (Z.to_nat (16 - (zlen A + zlen B))) [] 1 (zlen B)) as F. rewrite !app_nil_r in F. rewrite F by (rewrite ?zlen_nil; lia). done.
Qed.

Lemma finish_word A B pre w seen : pre ++ wbytes w = A ++ B → zlen (A ++ B) < 16 → seen ≠ 0 → is_u 16 w →
  finish6 (at_word pre (Some (zlen A)) seen w) = Val (inr (A ++ zeros (16 - zlen (A ++ B)) ++ B)).
Proof.
  intros E Hl Hs Hw. rewrite <- (finish_shift A B 0) by done. rewrite <- E in *. rewrite zlen_app in Hl. change (zlen (wbytes w)) with 2 in Hl. unfold finish6, at_word. cbn [p_seen p_tmp p_tp p_colonp p_val].
  rewrite (proj2 (Z.eqb_neq _ _) Hs). destruct (16 <? zlen pre + 2) eqn:E2; [blia|]. cbn [negb andb Z.eqb]. rewrite store_word_ok by (done || lia). rewrite !bind_Val. by rewrite (zlen_app pre).
Qed.

Lemma after_colons R A cur : Forall (is_u 16) R → zlen A + 2 * zlen R < 16 →
  ∃ p, loop6 (hexes R) cur (fresh A (Some (zlen A))) = Val (Some p) ∧ finish6 p = Val (inr (A ++ zeros (16 - zlen (A ++ wordsb R)) ++ wordsb R)).
Proof.
  intros HR Hl. destruct R as [|r R].
  { exists (fresh A (Some (zlen A))). split; [done|]. unfold fresh. change (wordsb []) with (@nil Z). pose proof (finish_shift A [] 0) as F. rewrite (app_nil_r A) in *. rewrite (@zlen_nil Z) in Hl. apply F. lia. }
  apply Forall_cons in HR as [Hr HR]. rewrite zlen_cons in Hl. destruct (parse_hexes r R [] cur A (Some (zlen A)) Hr HR ltac:(lia)) as (pre' & w' & seen' & cur' & E' & Hw' & Hs' & El).
  rewrite app_nil_r in El. rewrite El. eexists. split; [done|]. apply finish_word; [done| |done|done]. unfold zlen in *. rewrite length_app, wordsb_length. cbn [length]. lia.
Qed.

Lemma pton6_decimal s : ∀ rest cur tmp tp c seen val, Forall (λ ch, 48 ≤ ch < 58) s → 0 ≤ seen → seen + zlen s ≤ 4 →
  ∃ val', loop6 (s ++ rest) cur (mkP6 tmp tp c seen val) = loop6 rest cur (mkP6 tmp tp c (seen + zlen s) val').
Proof.
  induction s as [|ch s IH]; intros rest cur tmp tp c seen val Hs H0 Hl; [exists val; by rewrite zlen_nil, Z.add_0_r|]. apply Forall_cons in Hs as [Hc Hs]. rewrite zlen_cons in Hl. pose proof (zlen_nonneg s). cbn [app pton6_loop].
  destruct (ch =? 0) eqn:E0; [blia|]. rewrite xdigit_spec, in_range by lia. cbn [p_seen p_tmp p_tp p_colonp p_val]. destruct (4 <? seen + 1) eqn:E4; [blia|].
  destruct (IH rest cur tmp tp c (seen + 1) (Z.lor (u32 (Z.shiftl val 4)) (ch - 48)) Hs ltac:(lia) ltac:(lia)) as (val' & ->). exists val'. by rewrite zlen_cons, Z.add_assoc.
Qed.

Lemma pton6_quad quad A c : quad_ok quad → zlen A + 4 ≤ 16 →
  ∃ val, loop6 (text4 quad) (text4 quad) (fresh A c) = Val (Some (mkP6 ((A ++ quad) ++ zeros (16 - zlen (A ++ quad))) (zlen (A ++ quad)) c 0 val)).
Proof.
  intros Hq Hl. pose proof (pton4_complete stack quad Hstack Hq) as H4. pose proof Hq as (a & b & cc & d & -> & Ha & _)%quad_cases. destruct (otext_pos a ltac:(int_solve)) as [Ho1 Ho2].
  change (text4 [a; b; cc; d]) with (otext a ++ dot :: otext b ++ dot :: otext cc ++ dot :: otext d) in *. set (rest := otext b ++ dot :: otext cc ++ dot :: otext d) in *. set (cur := otext a ++ dot :: rest) in *.
  unfold cur at 1. unfold fresh. destruct (pton6_decimal (otext a) (dot :: rest) cur (A ++ zeros (16 - zlen A)) (zlen A) c 0 0 Ho2 ltac:(lia) ltac:(lia)) as (val & ->). exists val.
  cbn [pton6_loop]. change (xdigit dot) with (@None Z). change (dot =? 0) with false. change (dot =? colon) with false. cbn [p_seen p_tmp p_tp p_colonp p_val]. change (dot =? dot) with true. destruct (zlen A + 4 <=? 16) eqn:E4; [|blia]. cbn [andb]. rewrite H4, bind_Val.
  rewrite zlen_app. change (zlen [a; b; cc; d]) with 4. replace (zeros (16 - zlen A)) with (zeros 4 ++ zeros (16 - (zlen A + 4))).
  2: { unfold zeros. rewrite <- replicate_add. f_equal. lia. }
  rewrite memcpy_to_middle by done. rewrite bind_Val. by rewrite <- app_assoc.
Qed.

Lemma pton6_printed words text : length words = 8%nat → Forall (is_u 16) words → printed6 words text → inet_pton6 stack text = Val (inr (wordsb words)).
Proof.
  intros Hl Hu Hp. assert (∀ w ws rest, ∃ c r, hexes (w :: ws) ++ rest = c :: r ∧ c ≠ colon) as Hfirst.
  { intros w ws rest. destruct (hexes_first w ws) as (d & r & -> & Hd). exists (hex_char d), (r ++ rest). split; [done|]. by apply hex_char_spec. }
  assert (∀ c r, c ≠ colon → inet_pton6 stack (c :: r) = (r' ← loop6 (c :: r) (c :: r) start6; match r' with None => Val (inl UV_EINVAL) | Some p => finish6 p end)) as Hplain.
  { intros c r Hc. unfold inet_pton6. by rewrite (proj2 (Z.eqb_neq _ _) Hc). }
  destruct Hp as [l _|L k R E Hk _|u v E|u v E].
  - destruct words as [|w ws]; [done|]. apply Forall_cons in Hu as [Hw Hws]. cbn [length] in Hl. destruct (parse_hexes w ws [] (hexes (w :: ws)) [] None Hw Hws) as (pre' & w' & seen' & cur' & E' & Hw' & Hs' & El); [unfold zlen; cbn; lia|].
    rewrite app_nil_r in El. destruct (Hfirst w ws []) as (c & r & Ec & Hc). rewrite app_nil_r in Ec. rewrite Ec, Hplain, <- Ec by done. change start6 with (fresh [] None). rewrite El. cbn [pton6_loop]. rewrite bind_Val.
    assert (zlen (pre' ++ wbytes w') = 16) as H16 by (rewrite E'; cbn [app]; unfold zlen; rewrite wordsb_length; cbn [length]; lia). rewrite zlen_app in H16. change (zlen (wbytes w')) with 2 in H16.
    unfold finish6, at_word. cbn [p_seen p_tmp p_tp p_colonp p_val]. rewrite (proj2 (Z.eqb_neq _ _) Hs'). destruct (16 <? zlen pre' + 2) eqn:E2; [blia|]. cbn [negb andb]. rewrite store_word_ok by (done || lia). rewrite !bind_Val.
    destruct (zlen pre' + 2 =? 16) eqn:E3; [|blia]. cbn [negb]. do 2 f_equal. rewrite zlen_app. change (zlen (wbytes w')) with 2. replace (16 - (zlen pre' + 2)) with 0 by lia. by rewrite app_nil_r.
  - rewrite E, !Forall_app in Hu. destruct Hu as (HL & _ & HR). rewrite E, !length_app, length_replicate in Hl.
    assert (∀ cur, ∃ p, loop6 (hexes R) cur (fresh (wordsb L) (Some (zlen (wordsb L)))) = Val (Some p) ∧ finish6 p = Val (inr (wordsb words))) as Hafter.
    { intros cur. destruct (after_colons R (wordsb L) cur HR) as (p & ? & Hf); [unfold zlen; rewrite wordsb_length; lia|]. exists p. split; [done|]. rewrite Hf. do 2 f_equal. rewrite E, !wordsb_app, wordsb_zeros. do 2 f_equal.
      unfold zeros, zlen. rewrite length_app, !wordsb_length. f_equal. lia. }
    destruct L as [|w ws].
    + destruct (Hafter (hexes R)) as (p & El & Hf). change (inet_pton6 stack _) with (r' ← loop6 (colon :: hexes R) (colon :: hexes R) (fresh [] None); match r' with None => Val (inl UV_EINVAL) | Some p => finish6 p end).
      rewrite pton6_colons. change (fresh (wordsb []) (Some (zlen (wordsb [])))) with (fresh [] (Some (@zlen Z []))) in El. by rewrite El, bind_Val.
    + apply Forall_cons in HL as [Hw Hws]. cbn [length] in Hl. destruct (parse_hexes w ws ([colon; colon] ++ hexes R) (hexes (w :: ws) ++ [colon; colon] ++ hexes R) [] None Hw Hws) as (pre' & w' & seen' & cur' & E' & Hw' & Hs' & El); [unfold zlen; cbn; lia|].
      destruct (Hfirst w ws ([colon; colon] ++ hexes R)) as (c & r & Ec & Hc). rewrite Ec, Hplain, <- Ec by done. change start6 with (fresh [] None). rewrite El. cbn [app] in E' |- *.
      assert (zlen (pre' ++ wbytes w') ≤ 12) as H12 by (rewrite E'; unfold zlen; rewrite wordsb_length; cbn [length]; lia). rewrite zlen_app in H12. change (zlen (wbytes w')) with 2 in H12.
      rewrite pton6_colon by (done || lia). rewrite E', pton6_colons. destruct (Hafter (hexes R)) as (p & -> & Hf). by rewrite bind_Val.
  - rewrite E, Forall_app in Hu. destruct Hu as [_ Hu]. apply Forall_cons in Hu as [Hu Hv]. apply Forall_cons in Hv as [Hv _].
    change (inet_pton6 stack _) with (r' ← loop6 (colon :: text4 (wordsb [u; v])) (colon :: text4 (wordsb [u; v])) (fresh [] None); match r' with None => Val (inl UV_EINVAL) | Some p => finish6 p end).
    rewrite pton6_colons. destruct (pton6_quad (wordsb [u; v]) [] (Some (@zlen Z [])) (quad_of u v Hu Hv)) as (val & ->); [by vm_compute|]. rewrite bind_Val, finish_shift by (by vm_compute).
    do 2 f_equal. rewrite E, wordsb_app, wordsb_zeros. done.
  - rewrite E, Forall_app in Hu. destruct Hu as [_ Hu]. apply Forall_cons in Hu as [_ Hu]. apply Forall_cons in Hu as [Hu Hv]. apply Forall_cons in Hv as [Hv _].
    set (quad := wordsb [u; v]). change (inet_pton6 stack _) with (r' ← loop6 (colon :: sprintf_x 0xffff ++ colon :: text4 quad) (colon :: sprintf_x 0xffff ++ colon :: text4 quad) (fresh [] None); match r' with None => Val (inl UV_EINVAL) | Some p => finish6 p end).
    rewrite pton6_colons. destruct (pton6_word 0xffff (colon :: text4 quad) (sprintf_x 0xffff ++ colon :: text4 quad) [] (Some (@zlen Z []))) as (seen & Hs & ->); [by vm_compute|].
    assert (∃ ch r, text4 quad = ch :: r ∧ ch ≠ 0) as (ch & r & Et & Hch).
    { pose proof (quad_of u v Hu Hv) as (a & b & cc & d & Eq & Ha & _)%quad_cases. fold quad in Eq. rewrite Eq. destruct (otext_pos a ltac:(int_solve)) as [H1 H2]. cbn [text4]. unfold dotted. fold (otext a).
      destruct (otext a) as [|ch r]; [rewrite zlen_nil in H1; lia|]. apply Forall_cons in H2 as [H2 _]. eexists _, _. split; [done|lia]. }
    rewrite Et, pton6_colon by (done || by vm_compute). rewrite <- Et. cbn [app]. destruct (pton6_quad quad (wbytes 0xffff) (Some (@zlen Z [])) (quad_of u v Hu Hv)) as (val & ->); [by vm_compute|].
    rewrite bind_Val. rewrite (finish_shift [] (wbytes 0xffff ++ quad)) by (by vm_compute). do 2 f_equal. rewrite E, wordsb_app, wordsb_zeros. done.
Qed.
End Parse.

(** C26 (roundtrip). An address of either family is printed whenever the buffer has room
    for the text, which is never longer than 45 characters, and otherwise UV_ENOSPC is
    returned; what is printed is the IPv6 notation with the first of the longest runs of
    zeros left out; and [uv_inet_pton] reads it back as the same address. *)
Theorem inet_roundtrip stack af src : length stack = 4%nat → Forall is_byte src →
  (af = AF_INET ∧ length src = 4%nat ∨ af = AF_INET6 ∧ length src = 16%nat) →
  ∃ text, zlen text < 46 ∧
    (∀ size, uv_inet_ntop af src size = Val (if size <? zlen text + 1 then inl UV_ENOSPC else inr text)) ∧
    (af = AF_INET6 → printed6 (pairs src) text) ∧
    uv_inet_pton stack af text = Val (inr src).
Proof.
  intros Hst Hb [[-> Hl]|[-> Hl]].
  - assert (quad_ok src) as Hq by done. pose proof (text4_length _ Hq). exists (text4 src). split; [lia|]. split; [|split; [done|by apply pton4_complete]].
    intros size. cbn [uv_inet_ntop]. change (uv_inet_ntop AF_INET src size) with (inet_ntop4 src size). destruct (size <? zlen (text4 src) + 1) eqn:E.
    + pose proof Hq as (a & b & c & d & -> & _)%quad_cases. cbn [text4] in *.
      change (inet_ntop4 _ size) with (if (zlen (dotted a b c d) <=? 0) || (size <=? zlen (dotted a b c d)) then Val (A := answer) (inl UV_ENOSPC) else Val (inr (take 15 (dotted a b c d)))).
      destruct (_ || _) eqn:E2; [done|blia].
    + pose proof (ntop4_text src [] size Hq) as F. rewrite app_nil_r in F. apply F. blia.
  - destruct (ntop6_printed src Hl Hb) as (text & Hn & Hp & H46). exists text. split; [done|]. split; [exact Hn|]. split; [done|]. destruct (words_of_src src Hl Hb) as (_ & Hl8 & Hu & Hs).
    change (uv_inet_pton stack AF_INET6 text) with (inet_pton6 stack text). rewrite (pton6_printed stack Hst (pairs src) text Hl8 Hu Hp). by rewrite Hs.
Qed.

Lemma inet_roundtrip_witness : ∃ text, uv_inet_pton garbage AF_INET6 text = Val (inr (zeros 10 ++ [255; 255; 10; 0; 0; 1])).
Proof.
  destruct (inet_roundtrip garbage AF_INET6 (zeros 10 ++ [255; 255; 10; 0; 0; 1])) as (text & _ & _ & _ & E).
  - done.
  - apply (bool_decide_unpack _). vm_compute. exact I.
  - by right.
  - by exists text.
Defined.

Lemma inet_pton4_exact_witness : inet_pton4 garbage (bytes_of "127.0.0.1" ++ [0; 7]) = Val (inr [127; 0; 0; 1]).
Proof.
  apply (inet_pton4_exact garbage (bytes_of "127.0.0.1" ++ [0; 7]) eq_refl). split; [|vm_compute; reflexivity].
  split; [done|]. apply (bool_decide_unpack _). vm_compute. exact I.
Defined.

(** ** Any text *)

Definition p6_ok (p : parsed6) : Prop :=
  length (p_tmp p) = 16%nat ∧ Forall is_byte (p_tmp p) ∧ 0 ≤ p_tp p ≤ 16 ∧ ∀ c, p_colonp p = Some c → 0 ≤ c ≤ p_tp p.

Lemma write_fits buf off src : 0 ≤ off → off + zlen src ≤ zlen buf → Forall is_byte src → Forall is_byte buf →
  ∃ buf', memcpy_to buf off src = Val buf' ∧ length buf' = length buf ∧ Forall is_byte buf'.
Proof.
  intros Ho Hl Hs Hb. rewrite memcpy_to_eq by done. eexists. split; [done|]. split.
  - rewrite !length_app, length_take, length_drop. unfold zlen in Hl. lia.
  - rewrite !Forall_app. split; [by apply Forall_take|]. split; [done|by apply Forall_drop].
Qed.

Lemma store_fits buf tp val : 0 ≤ tp → tp + 2 ≤ zlen buf → Forall is_byte buf → ∃ buf', store_word buf tp val = Val buf' ∧ length buf' = length buf ∧ Forall is_byte buf'.
Proof.
  intros H0 Hl Hb. unfold store_word. destruct (write_fits buf tp [u8 (Z.shiftr val 8)]) as (b1 & -> & L1 & B1); [done|change (zlen [u8 (Z.shiftr val 8)]) with 1; lia|apply Forall_singleton, wrap_range; lia|done|]. rewrite bind_Val.
  destruct (write_fits b1 (tp + 1) [u8 val]) as (b2 & -> & L2 & B2); [lia|change (zlen [u8 val]) with 1; unfold zlen in *; lia|apply Forall_singleton, wrap_range; lia|done|]. exists b2. split; [done|]. split; [lia|done].
Qed.

Lemma shift_ok k : ∀ i n c tmp, 1 ≤ i → i + Z.of_nat k = n + 1 → 0 ≤ c → c + n ≤ 16 → length tmp = 16%nat → Forall is_byte tmp →
  ∃ tmp', shift6 k i n c tmp = Val tmp' ∧ length tmp' = 16%nat ∧ Forall is_byte tmp'.
Proof.
  induction k as [|k IH]; intros i n c tmp Hi Hk Hc Hn Hl Hb; [by exists tmp|]. cbn [shift6]. destruct (lookup_lt_is_Some_2 tmp (Z.to_nat (c + (n - i)))) as [b Eb]; [lia|].
  pose proof (rd_words _ _ _ Eb) as Er. rewrite Z2Nat.id in Er by lia. rewrite Er, bind_Val. assert (is_byte b) as Hbb by (by eapply Forall_lookup_1).
  destruct (write_fits tmp (16 - i) [b]) as (t1 & -> & L1 & B1); [lia|change (zlen [b]) with 1; unfold zlen; lia|by apply Forall_singleton|done|]. rewrite bind_Val.
  destruct (write_fits t1 (c + (n - i)) [0]) as (t2 & -> & L2 & B2); [lia|change (zlen [0]) with 1; unfold zlen; lia|by apply Forall_singleton|done|]. rewrite bind_Val. apply IH; [lia..|done].
Qed.

Lemma pton6_loop_safe stack src : length stack = 4%nat → ∀ cur p, p6_ok p → ∃ r, pton6_loop stack src cur p = Val r ∧ match r with Some p => p6_ok p | None => True end.
Proof.
  intros Hst. induction src as [|ch src IH]; intros cur p Hp; [by eexists|]. pose proof Hp as (Hl & Hb & Ht & Hc). cbn [pton6_loop]. destruct (ch =? 0); [by eexists|]. destruct (xdigit ch) as [d|].
  { destruct (4 <? _); [by eexists|]. by apply IH. }
  destruct (ch =? colon).
  - destruct (p_seen p =? 0); [destruct (p_colonp p) as [c|]; [by eexists|]; apply IH; split; [done|]; split; [done|]; split; [done|]; intros c [= <-]; cbn; lia|].
    destruct (at_end src); [by eexists|]. destruct (16 <? p_tp p + 2) eqn:E; [by eexists|]. destruct (store_fits (p_tmp p) (p_tp p) (p_val p)) as (t & -> & L & B); [lia|unfold zlen; blia|done|]. rewrite bind_Val.
    apply IH. split; [cbn; lia|]. split; [done|]. split; [cbn; blia|]. cbn. intros c Ec. specialize (Hc c Ec). lia.
  - destruct ((ch =? dot) && (p_tp p + 4 <=? 16)) eqn:E; [|by eexists]. destruct (inet_pton4_facts stack cur Hst) as (r & Er & Hr). rewrite Er, bind_Val. destruct r as [e|quad]; [by eexists|].
    destruct (Hr quad eq_refl) as [[Q1 Q2] _]. destruct (write_fits (p_tmp p) (p_tp p) quad) as (t & -> & L & B); [lia|unfold zlen; rewrite Q1; blia|done|done|]. rewrite bind_Val. eexists. split; [done|]. split; [cbn; lia|]. split; [done|].
    split; [cbn; blia|]. cbn. intros c Ec. specialize (Hc c Ec). lia.
Qed.

Lemma finish6_safe p : p6_ok p → ∃ r, finish6 p = Val r ∧ ∀ bs, r = inr bs → length bs = 16%nat ∧ Forall is_byte bs.
Proof.
  intros (Hl & Hb & Ht & Hc). unfold finish6. destruct (negb (p_seen p =? 0) && (16 <? p_tp p + 2)) eqn:E; [by eexists|].
  assert (∃ t tp, (if negb (p_seen p =? 0) then tmp ← store_word (p_tmp p) (p_tp p) (p_val p); Val (tmp, p_tp p + 2) else Val (p_tmp p, p_tp p)) = Val (t, tp) ∧ length t = 16%nat ∧ Forall is_byte t ∧ p_tp p ≤ tp ≤ 16) as (t & tp & -> & Lt & Bt & Htp).
  { destruct (negb (p_seen p =? 0)) eqn:Es; [|exists (p_tmp p), (p_tp p); split; [done|]; split; [done|]; split; [done|lia]].
    destruct (store_fits (p_tmp p) (p_tp p) (p_val p)) as (t & -> & L & B); [lia|cbn in E; unfold zlen; blia|done|]. exists t, (p_tp p + 2). cbn in E. split; [done|]. split; [lia|]. split; [done|blia]. }
  rewrite bind_Val. destruct (p_colonp p) as [c|].
  - destruct (tp =? 16); [by eexists|]. specialize (Hc c eq_refl). destruct (shift_ok (Z.to_nat (tp - c)) 1 (tp - c) c t) as (t' & -> & L & B); [lia..|done|done|]. rewrite bind_Val. eexists. split; [done|]. by intros bs [= <-].
  - destruct (negb (tp =? 16)); eexists; (split; [done|]); [done|]. by intros bs [= <-].
Qed.

(** Whatever the text, [uv_inet_pton] returns without touching memory outside
    its buffers, and what it stores on success is an address of the family: 4 or 16
    bytes. *)
Theorem inet_pton_safe stack af src : length stack = 4%nat →
  ∃ r, uv_inet_pton stack af src = Val r ∧ ∀ bs, r = inr bs → Forall is_byte bs ∧ length bs = if af =? AF_INET then 4%nat else 16%nat.
Proof.
  intros Hst. unfold uv_inet_pton. destruct (af =? AF_INET).
  { destruct (inet_pton4_facts stack src Hst) as (r & E & Hr). exists r. split; [done|]. intros bs Ebs. by destruct (Hr bs Ebs) as [[? ?] _]. }
  destruct (af =? AF_INET6); [|by eexists]. assert (∀ s, ∃ r, (r ← pton6_loop stack s s start6; match r with None => Val (inl UV_EINVAL) | Some p => finish6 p end) = Val r ∧
    ∀ bs, r = inr bs → Forall is_byte bs ∧ length bs = 16%nat) as Hrun.
  { intros s. destruct (pton6_loop_safe stack s Hst s start6) as (r & -> & Hr); [split; [done|]; split; [|split; [cbn; lia|done]]; apply (bool_decide_unpack _); vm_compute; exact I|].
    rewrite bind_Val. destruct r as [p|]; [|by eexists]. destruct (finish6_safe p Hr) as (r & -> & H). exists r. split; [done|]. intros bs Ebs. by destruct (H bs Ebs). }
  unfold inet_pton6. destruct src as [|c rest]; [apply Hrun|]. destruct (c =? colon); [|apply Hrun]. destruct rest as [|c' rest]; [by eexists|]. destruct (negb (c' =? colon)); [by eexists|]. apply Hrun.
Qed.

Lemma inet_pton_safe_witness : ∃ r, uv_inet_pton garbage AF_INET6 (bytes_of "1:2:3:4:5:6:7:8:9.10.11.12") = Val r.
Proof. destruct (inet_pton_safe garbage AF_INET6 (bytes_of "1:2:3:4:5:6:7:8:9.10.11.12") eq_refl) as (r & E & _). by exists r. Defined.

(** Printing the address of a socket and making an address of the text gives the address
    back; a text that is no address gives the unspecified address, without an error. *)
Theorem ip6_name_addr stack a port : length stack = 4%nat → length (sin6_addr a) = 16%nat → Forall is_byte (sin6_addr a) →
  (∃ text, uv_ip6_name a 46 = Val (Some text) ∧ uv_ip6_addr stack text port = Val (mkIn6 AF_INET6 (htons port) (sin6_addr a))) ∧
  ∀ text, uv_inet_pton stack AF_INET6 text = Val (inl UV_EINVAL) → uv_ip6_addr stack text port = Val (mkIn6 AF_INET6 (htons port) (zeros 16)).
Proof.
  intros Hst Hl Hb. split; [|intros text E; unfold uv_ip6_addr; by rewrite E].
  destruct (ntop6_printed (sin6_addr a) Hl Hb) as (text & Hn & Hp & H46). exists text. destruct (words_of_src (sin6_addr a) Hl Hb) as (_ & Hl8 & Hu & Hs).
  unfold uv_ip6_name, uv_ip6_addr. change (uv_inet_ntop AF_INET6) with inet_ntop6. change (uv_inet_pton stack AF_INET6) with (inet_pton6 stack).
  rewrite Hn, (pton6_printed stack Hst (pairs (sin6_addr a)) text Hl8 Hu Hp), Hs. split; [|done]. cbn [mbind exec_bind]. by destruct (46 <? zlen text + 1) eqn:E; [blia|].
Qed.
