(* ===== verification/UvPool.v ===== *)
(** * The thread pool ([src/deps/uv/src/unix/threadpool.c])

    Work that would block the loop (files, name resolution, [uv_queue_work]) is done by
    a few threads: they take it from the queue [wq], put it on the queue of its loop when
    it is done and wake the loop, which calls back. What a thread does under a mutex is
    one step here, and steps of all threads are interleaved; the schedule also says which
    of the sleeping threads a signal wakes, and may wake them without one. The queues are
    lists; a node whose links lead to itself, which the code uses as a flag, is
    [w_self]. *)

From S2P Require Import Prelude.
Local Open Scope Z_scope.

(** ** The state *)

Inductive work_fn := Work | Cancelled | Null.
Record uv__work := mkJob { w_work : work_fn; w_self : bool }.

Inductive item := Job (w : Z) | Exit.

(** A worker before it locks the mutex, in [uv_cond_wait], calling [work], about to
    lock the loop's mutex, or gone. *)
Inductive worker_pc := WLook | WWait | WRun (w : Z) | WPost (w : Z) | WGone.

(** The loop's thread, at the beginning of [uv__work_done], and in its second loop. *)
Inductive loop_at := LIdle | LEnter | LWork.

Inductive pool_ev := Submitted (w : Z) | Ran (w : Z) | Called (w : Z) (cancelled : bool).

(** [jobs] are the requests that have not been called back; [cancelling] is a request
    between the two locked sections of [uv__work_cancel]. *)
Record pool := mkPool {
  wq : list item;
  workers : list worker_pc;
  jobs : gmap Z uv__work;
  loop_wq : list Z;
  wq_async : bool;
  loop_pc : loop_at;
  local_wq : list Z;
  cancelling : option Z;
  wlog : list pool_ev
}.

#[export] Instance work_fn_eq_dec : EqDecision work_fn.
Proof. solve_decision. Defined.
#[export] Instance item_eq_dec : EqDecision item.
Proof. solve_decision. Defined.
#[export] Instance worker_pc_eq_dec : EqDecision worker_pc.
Proof. solve_decision. Defined.
#[export] Instance loop_at_eq_dec : EqDecision loop_at.
Proof. solve_decision. Defined.

Definition set_wq (q : list item) (s : pool) : pool :=
  mkPool q (workers s) (jobs s) (loop_wq s) (wq_async s) (loop_pc s) (local_wq s) (cancelling s) (wlog s).
Definition set_workers (ws : list worker_pc) (s : pool) : pool :=
  mkPool (wq s) ws (jobs s) (loop_wq s) (wq_async s) (loop_pc s) (local_wq s) (cancelling s) (wlog s).
Definition set_jobs (m : gmap Z uv__work) (s : pool) : pool :=
  mkPool (wq s) (workers s) m (loop_wq s) (wq_async s) (loop_pc s) (local_wq s) (cancelling s) (wlog s).
Definition set_loop_wq (q : list Z) (s : pool) : pool :=
  mkPool (wq s) (workers s) (jobs s) q (wq_async s) (loop_pc s) (local_wq s) (cancelling s) (wlog s).
Definition set_wq_async (b : bool) (s : pool) : pool :=
  mkPool (wq s) (workers s) (jobs s) (loop_wq s) b (loop_pc s) (local_wq s) (cancelling s) (wlog s).
Definition set_loop_pc (p : loop_at) (s : pool) : pool :=
  mkPool (wq s) (workers s) (jobs s) (loop_wq s) (wq_async s) p (local_wq s) (cancelling s) (wlog s).
Definition set_local_wq (q : list Z) (s : pool) : pool :=
  mkPool (wq s) (workers s) (jobs s) (loop_wq s) (wq_async s) (loop_pc s) q (cancelling s) (wlog s).
Definition set_cancelling (c : option Z) (s : pool) : pool :=
  mkPool (wq s) (workers s) (jobs s) (loop_wq s) (wq_async s) (loop_pc s) (local_wq s) c (wlog s).
Definition wnote (e : pool_ev) (s : pool) : pool :=
  mkPool (wq s) (workers s) (jobs s) (loop_wq s) (wq_async s) (loop_pc s) (local_wq s) (cancelling s) (wlog s ++ [e]).

(** ** The code *)

Definition MAX_THREADPOOL_SIZE : Z := 128.

(** The number of threads, from the environment; [allocated] when the table of more than
    four was. *)
Definition init_once (val : option Z) (allocated : bool) : Z :=
  let nthreads := match val with Some v => u32 v | None => 4 end in
  let nthreads := if nthreads =? 0 then 1 else nthreads in
  let nthreads := if MAX_THREADPOOL_SIZE <? nthreads then MAX_THREADPOOL_SIZE else nthreads in
  if (4 <? nthreads) && negb allocated then 4 else nthreads.

(** [uv_cond_signal]: one of the threads that wait, the one asked for if it does. *)
Definition uv_cond_signal (pick : nat) (s : pool) : pool :=
  match workers s !! pick with
  | Some WWait => set_workers (<[pick := WLook]> (workers s)) s
  | _ =>
      match list_find (λ p, p = WWait) (workers s) with
      | Some (i, _) => set_workers (<[i := WLook]> (workers s)) s
      | None => s
      end
  end.

Definition post (q : item) (pick : nat) (s : pool) : pool := uv_cond_signal pick (set_wq (wq s ++ [q]) s).

(** The threads are joined when all have left. *)
Definition cleanup (pick : nat) (s : pool) : pool := post Exit pick s.

(** Putting a node on the loop's queue and waking the loop. *)
Definition give_back (w : Z) (work : work_fn) (s : pool) : pool :=
  set_wq_async true (set_loop_wq (loop_wq s ++ [w]) (set_jobs (<[w := mkJob work false]> (jobs s)) s)).

(** A worker that calls a null pointer or [uv__cancelled], which aborts, is undefined. *)
Definition worker (i pick : nat) (s : pool) : exec pool :=
  match workers s !! i with
  | Some WLook =>
      match wq s with
      | [] => Val (set_workers (<[i := WWait]> (workers s)) s)
      | Exit :: _ => Val (set_workers (<[i := WGone]> (workers (uv_cond_signal pick s))) s)
      | Job w :: q =>
          match jobs s !! w with
          | Some j => Val (set_workers (<[i := WRun w]> (workers s)) (set_wq q (set_jobs (<[w := mkJob (w_work j) true]> (jobs s)) s)))
          | None => UB
          end
      end
  | Some (WRun w) =>
      match jobs s !! w with
      | Some (mkJob Work _) => Val (set_workers (<[i := WPost w]> (workers s)) (wnote (Ran w) s))
      | _ => UB
      end
  | Some (WPost w) => Val (set_workers (<[i := WLook]> (workers s)) (give_back w Null s))
  | _ => Val s
  end.

Definition uv__work_submit (w : Z) (pick : nat) (s : pool) : pool :=
  post (Job w) pick (wnote (Submitted w) (set_jobs (<[w := mkJob Work false]> (jobs s)) s)).

(** A node that is in no queue has stale links. *)
Definition remove_node (w : Z) (s : pool) : exec pool :=
  if decide (Job w ∈ wq s) then Val (set_wq (filter (λ x, x ≠ Job w) (wq s)) s)
  else if decide (w ∈ loop_wq s) then Val (set_loop_wq (filter (λ x, x ≠ w) (loop_wq s)) s)
  else if decide (w ∈ local_wq s) then Val (set_local_wq (filter (λ x, x ≠ w) (local_wq s)) s)
  else UB.

(** Up to the second locked section. *)
Definition uv__work_cancel (w : Z) (s : pool) : exec pool :=
  match jobs s !! w with
  | None => UB
  | Some j =>
      let cancelled := negb (w_self j) && negb (bool_decide (w_work j = Null)) in
      if cancelled then s ← remove_node w s; Val (set_cancelling (Some w) s) else Val s
  end.

(** The loop's thread: the rest of a cancellation, or [uv__work_done] when its handle was
    sent to. A request is the user's again when it is called back. *)
Definition loop_step (s : pool) : exec pool :=
  match cancelling s with
  | Some w => Val (set_cancelling None (give_back w Cancelled s))
  | None =>
      match loop_pc s with
      | LIdle => Val (if wq_async s then set_loop_pc LEnter (set_wq_async false s) else s)
      | LEnter => Val (set_loop_pc LWork (set_local_wq (loop_wq s) (set_loop_wq [] s)))
      | LWork =>
          match local_wq s with
          | [] => Val (set_loop_pc LIdle s)
          | w :: q =>
              match jobs s !! w with
              | Some j => Val (wnote (Called w (bool_decide (w_work j = Cancelled))) (set_jobs (delete w (jobs s)) (set_local_wq q s)))
              | None => UB
              end
          end
      end
  end.

(** ** Runs *)

Inductive pool_act :=
| AWorker (i pick : nat)
| ASpurious (i : nat)
| ALoop
| ASubmit (w : Z) (pick : nat)
| ACancel (w : Z)
| AExit (pick : nat).

(** The loop's thread makes one call at a time; a request is submitted when it is not in
    use and cancelled while it is; [cleanup] posts the exit message once, after the last
    request. *)
Definition allowed (a : pool_act) (s : pool) : bool :=
  match a with
  | AWorker _ _ | ASpurious _ | ALoop => true
  | ASubmit w _ => bool_decide (jobs s !! w = None) && bool_decide (Exit ∉ wq s) && bool_decide (cancelling s = None)
  | ACancel w => bool_decide (is_Some (jobs s !! w)) && bool_decide (cancelling s = None)
  | AExit _ => bool_decide (Exit ∉ wq s) && bool_decide (cancelling s = None)
  end.

Definition pool_step (a : pool_act) (s : pool) : exec pool :=
  if negb (allowed a s) then Val s
  else
    match a with
    | AWorker i pick => worker i pick s
    | ASpurious i => Val (match workers s !! i with Some WWait => set_workers (<[i := WLook]> (workers s)) s | _ => s end)
    | ALoop => loop_step s
    | ASubmit w pick => Val (uv__work_submit w pick s)
    | ACancel w => uv__work_cancel w s
    | AExit pick => Val (cleanup pick s)
    end.

Fixpoint pool_run (l : list pool_act) (s : pool) : exec pool :=
  match l with
  | [] => Val s
  | a :: l => s ← pool_step a s; pool_run l s
  end.

(** After [init_once]. *)
Definition new_pool (nthreads : nat) : pool := mkPool [] (replicate nthreads WLook) ∅ [] false LIdle [] None [].

(** One request is done, the other cancelled while it waits. *)
Definition pool_demo : list pool_act :=
  [ASubmit 1 0; AWorker 0 0; ASubmit 2 0; ACancel 1; ACancel 2; AWorker 0 0; ALoop; AWorker 0 0; ALoop; ALoop; ALoop; ALoop; ALoop].

Example pool_example :
  match pool_run pool_demo (new_pool 1) with Val s => Some (wlog s, workers s, jobs s) | _ => None end =
  Some ([Submitted 1; Submitted 2; Ran 1; Called 2 true; Called 1 false], [WLook], ∅).
Proof. vm_compute. reflexivity. Qed.

(** ** The life of a request *)

(** What happened to a request, as its submitter sees it. *)
Inductive job_state := JIdle | JWaiting | JRan.

Definition job_step (w : Z) (st : job_state) (e : pool_ev) : option job_state :=
  match e with
  | Submitted x => if x =? w then match st with JIdle => Some JWaiting | _ => None end else Some st
  | Ran x => if x =? w then match st with JWaiting => Some JRan | _ => None end else Some st
  | Called x cancelled =>
      if x =? w then
        match st, cancelled with
        | JWaiting, true => Some JIdle
        | JRan, false => Some JIdle
        | _, _ => None
        end
      else Some st
  end.

Definition history (w : Z) (l : list pool_ev) : option job_state :=
  fold_left (λ o e, o ≫= λ st, job_step w st e) l (Some JIdle).

Arguments history : simpl never.

Lemma history_snoc w l e : history w (l ++ [e]) = history w l ≫= λ st, job_step w st e.
Proof. unfold history. by rewrite fold_left_app. Qed.

Definition ev_job (e : pool_ev) : Z := match e with Submitted x | Ran x | Called x _ => x end.

Lemma history_other w l e : ev_job e ≠ w → history w (l ++ [e]) = history w l.
Proof.
  intros Hw. rewrite history_snoc. destruct (history w l) as [st|]; [|done]. cbn. destruct e as [x|x|x c]; cbn in *; by rewrite (proj2 (Z.eqb_neq _ _) Hw).
Qed.

(** ** Where a request is *)

Inductive place := PQueue | PRun | PPost | PBack | PCancel.

Definition queued (x : item) : option (place * Z) := match x with Job w => Some (PQueue, w) | Exit => None end.
Definition busy (p : worker_pc) : option (place * Z) :=
  match p with WRun w => Some (PRun, w) | WPost w => Some (PPost, w) | _ => None end.

Definition places (s : pool) : list (place * Z) :=
  omap queued (wq s) ++ omap busy (workers s) ++ ((λ w, (PBack, w)) <$> loop_wq s) ++ ((λ w, (PBack, w)) <$> local_wq s) ++
  match cancelling s with Some w => [(PCancel, w)] | None => [] end.

(** What the node's fields and the history are in each place. *)
Definition good (p : place) (j : option uv__work) (h : option job_state) : Prop :=
  match p with
  | PQueue => j = Some (mkJob Work false) ∧ h = Some JWaiting
  | PRun => j = Some (mkJob Work true) ∧ h = Some JWaiting
  | PPost => j = Some (mkJob Work true) ∧ h = Some JRan
  | PBack => (j = Some (mkJob Null false) ∧ h = Some JRan) ∨ (j = Some (mkJob Cancelled false) ∧ h = Some JWaiting)
  | PCancel => is_Some j ∧ h = Some JWaiting
  end.

Record placed (s : pool) : Prop := {
  pl_once : NoDup (places s).*2;
  pl_good : ∀ p w, (p, w) ∈ places s → good p (jobs s !! w) (history w (wlog s));
  pl_idle : ∀ w, jobs s !! w = None → history w (wlog s) = Some JIdle;
  pl_all : ∀ w, is_Some (jobs s !! w) → w ∈ (places s).*2
}.

Lemma good_is p j h : good p j h → is_Some j.
Proof. destruct p; cbn; naive_solver. Qed.

(** One request changes its place, others stay. *)
Lemma placed_move s s' p p' w T : placed s → places s ≡ₚ (p, w) :: T → places s' ≡ₚ (p', w) :: T →
  (∀ x, x ≠ w → jobs s' !! x = jobs s !! x ∧ history x (wlog s') = history x (wlog s)) →
  good p' (jobs s' !! w) (history w (wlog s')) → placed s'.
Proof.
  intros [P1 P2 P3 P4] E E' Ho Hg. assert (NoDup (w :: T.*2)) as Hnd by (change (w :: T.*2) with (((p, w) :: T).*2); by rewrite <- E). apply NoDup_cons in Hnd as [HT Hnd]. split.
  - rewrite E'. cbn. by apply NoDup_cons.
  - intros q x. rewrite E'. intros [[= -> ->]|Hx]%elem_of_cons; [done|]. assert (x ≠ w) as Hxw by (intros ->; apply HT; by apply (list_elem_of_fmap_2 snd) in Hx).
    destruct (Ho x Hxw) as [-> ->]. apply P2. rewrite E. by right.
  - intros x Hx. destruct (decide (x = w)) as [->|Hxw]; [apply good_is in Hg; rewrite Hx in Hg; by destruct Hg|]. destruct (Ho x Hxw) as [Ej ->]. apply P3. by rewrite <- Ej.
  - intros x Hx. rewrite E'. cbn. destruct (decide (x = w)) as [->|Hxw]; [by left|]. destruct (Ho x Hxw) as [Ej _]. rewrite Ej in Hx. apply P4 in Hx. rewrite E in Hx. cbn in Hx. by apply elem_of_cons in Hx as [?|?]; [|right].
Qed.

Lemma placed_start s s' p w : placed s → jobs s !! w = None → places s' ≡ₚ (p, w) :: places s →
  (∀ x, x ≠ w → jobs s' !! x = jobs s !! x ∧ history x (wlog s') = history x (wlog s)) →
  good p (jobs s' !! w) (history w (wlog s')) → placed s'.
Proof.
  intros [P1 P2 P3 P4] Hw E' Ho Hg. assert (w ∉ (places s).*2) as HT.
  { intros ((q & x) & Ex & Hx)%list_elem_of_fmap. cbn in Ex. subst x. apply P2, good_is in Hx. rewrite Hw in Hx. by destruct Hx. }
  split.
  - rewrite E'. cbn. by apply NoDup_cons.
  - intros q x. rewrite E'. intros [[= -> ->]|Hx]%elem_of_cons; [done|]. assert (x ≠ w) as Hxw by (intros ->; apply HT; by apply (list_elem_of_fmap_2 snd) in Hx).
    destruct (Ho x Hxw) as [-> ->]. by apply P2.
  - intros x Hx. destruct (decide (x = w)) as [->|Hxw]; [apply good_is in Hg; rewrite Hx in Hg; by destruct Hg|]. destruct (Ho x Hxw) as [Ej ->]. apply P3. by rewrite <- Ej.
  - intros x Hx. rewrite E'. cbn. destruct (decide (x = w)) as [->|Hxw]; [by left|]. destruct (Ho x Hxw) as [Ej _]. rewrite Ej in Hx. right. by apply P4.
Qed.

Lemma placed_end s s' p w : placed s → places s ≡ₚ (p, w) :: places s' →
  (∀ x, x ≠ w → jobs s' !! x = jobs s !! x ∧ history x (wlog s') = history x (wlog s)) →
  jobs s' !! w = None → history w (wlog s') = Some JIdle → placed s'.
Proof.
  intros [P1 P2 P3 P4] E Ho Hj Hh. rewrite E in P1. cbn in P1. apply NoDup_cons in P1 as [HT Hnd]. split; [done| | |].
  - intros q x Hx. assert (x ≠ w) as Hxw by (intros ->; apply HT; by apply (list_elem_of_fmap_2 snd) in Hx). destruct (Ho x Hxw) as [-> ->]. apply P2. rewrite E. by right.
  - intros x Hx. destruct (decide (x = w)) as [->|Hxw]; [done|]. destruct (Ho x Hxw) as [Ej ->]. apply P3. by rewrite <- Ej.
  - intros x Hx. destruct (decide (x = w)) as [->|Hxw]; [rewrite Hj in Hx; by destruct Hx|]. destruct (Ho x Hxw) as [Ej _]. rewrite Ej in Hx. apply P4 in Hx. rewrite E in Hx. cbn in Hx. by apply elem_of_cons in Hx as [?|?].
Qed.

(** A step that moves no request. *)
Lemma placed_same s s' : placed s → places s' ≡ₚ places s → jobs s' = jobs s → wlog s' = wlog s → placed s'.
Proof.
  intros [P1 P2 P3 P4] E Ej El. split; rewrite ?Ej, ?El; [by rewrite E|intros p w; rewrite E; apply P2|done|intros w; rewrite E; apply P4].
Qed.

(** ** Workers *)

Definition tally (f : worker_pc → nat) (ws : list worker_pc) : nat := sum_list_with f ws.
Definition look (p : worker_pc) : nat := match p with WLook => 1 | _ => 0 end.
Definition looks (ws : list worker_pc) : nat := tally look ws.

Lemma tally_insert f ws i a b : ws !! i = Some a → (tally f (<[i := b]> ws) + f a = tally f ws + f b)%nat.
Proof.
  unfold tally. revert i. induction ws as [|x ws IH]; intros [|i] E; try done; cbn in *; [injection E as ->; lia|]. rewrite <- !Nat.add_assoc. f_equal. by apply IH.
Qed.

Lemma looks_insert ws i a b : ws !! i = Some a →
  (looks (<[i := b]> ws) + look a = looks ws + look b)%nat.
Proof. apply tally_insert. Qed.
Arguments looks : simpl never.
Arguments tally : simpl never.

Lemma busy_insert ws i a b : ws !! i = Some a →
  option_list (busy a) ++ omap busy (<[i := b]> ws) ≡ₚ option_list (busy b) ++ omap busy ws.
Proof.
  revert i. induction ws as [|x ws IH]; intros [|i] E; try done; cbn in E |- *.
  - injection E as ->. destruct (busy a), (busy b); cbn; try done. apply perm_swap.
  - specialize (IH i E). destruct (busy x) as [px|]; [|done]. rewrite <- !Permutation_middle. by rewrite IH.
Qed.

Lemma busy_same ws i a b : ws !! i = Some a → busy a = None → busy b = None → omap busy (<[i := b]> ws) ≡ₚ omap busy ws.
Proof. intros E Ha Hb. pose proof (busy_insert ws i a b E) as H. by rewrite Ha, Hb in H. Qed.

Lemma insert_in (ws : list worker_pc) i a b p : ws !! i = Some a → p ∈ <[i := b]> ws → p = b ∨ p ∈ ws.
Proof.
  intros E [j Hj]%list_elem_of_lookup. destruct (decide (i = j)) as [->|Hne].
  - rewrite list_lookup_insert_eq in Hj by (by eapply lookup_lt_Some). left. congruence.
  - rewrite list_lookup_insert_ne in Hj by done. right. by eapply list_elem_of_lookup_2.
Qed.

Lemma signal_cases pick s : (uv_cond_signal pick s = s ∧ WWait ∉ workers s) ∨
  ∃ i, workers s !! i = Some WWait ∧ uv_cond_signal pick s = set_workers (<[i := WLook]> (workers s)) s.
Proof.
  unfold uv_cond_signal. destruct (decide (workers s !! pick = Some WWait)) as [E|E]; [rewrite E; right; by exists pick|].
  assert (∀ A (x y : A), match workers s !! pick with Some WWait => x | _ => y end = y) as H by (intros; destruct (workers s !! pick) as [[]|]; done). rewrite H.
  destruct (list_find (λ p, p = WWait) (workers s)) as [[i p]|] eqn:Ef.
  - apply list_find_Some in Ef as (Ei & -> & _). right. by exists i.
  - apply list_find_None in Ef. left. split; [done|]. rewrite Forall_forall in Ef. intros Hin. by apply (Ef WWait).
Qed.

(** ** The invariant *)

Record pinv (s : pool) : Prop := {
  i_placed : placed s;
  i_local : local_wq s = [] ∨ loop_pc s = LWork;
  i_wake : loop_wq s ≠ [] → wq_async s = true ∨ loop_pc s = LEnter;
  i_awake : WWait ∈ workers s → (length (wq s) ≤ looks (workers s))%nat;
  i_exit : ∃ js (e : bool), wq s = (Job <$> js) ++ (if e then [Exit] else []);
  i_gone : WGone ∈ workers s → wq s = [Exit]
}.

(** What a signal does to the invariant's counts. *)
Lemma signal_awake pick s n : (WWait ∈ workers s → (n ≤ looks (workers s))%nat) →
  WWait ∈ workers (uv_cond_signal pick s) → (n + 1 ≤ looks (workers (uv_cond_signal pick s)))%nat.
Proof.
  intros H. destruct (signal_cases pick s) as [[-> Hn]|(i & Ei & ->)]; [done|]. intros _. cbn. specialize (H (list_elem_of_lookup_2 _ _ _ Ei)).
  pose proof (looks_insert _ _ _ WLook Ei) as Ht. cbn in Ht. lia.
Qed.

Lemma signal_frame pick s : let s' := uv_cond_signal pick s in
  wq s' = wq s ∧ jobs s' = jobs s ∧ loop_wq s' = loop_wq s ∧ wq_async s' = wq_async s ∧ loop_pc s' = loop_pc s ∧ local_wq s' = local_wq s ∧ cancelling s' = cancelling s ∧ wlog s' = wlog s ∧
  omap busy (workers s') ≡ₚ omap busy (workers s) ∧ (WGone ∈ workers s' → WGone ∈ workers s).
Proof.
  cbv zeta. destruct (signal_cases pick s) as [[-> Hn]|(i & Ei & ->)]; [by repeat split|]. cbn. repeat (split; [done|]). split; [by apply (busy_same _ _ WWait)|].
  intros [?|?]%(insert_in _ _ WWait); done.
Qed.

Lemma signal_places pick s : places (uv_cond_signal pick s) ≡ₚ places s.
Proof. unfold places. destruct (signal_frame pick s) as (-> & _ & -> & _ & _ & -> & -> & _ & -> & _). done. Qed.

Lemma history_note w e s : history w (wlog (wnote e s)) = history w (wlog s) ≫= λ st, job_step w st e.
Proof. apply history_snoc. Qed.

(** ** The workers' steps *)

Lemma worker_inv i pick s : pinv s → ∃ s', worker i pick s = Val s' ∧ pinv s'.
Proof.
  intros I. pose proof I as [Ip Il Iw Ia Ie Ig]. pose proof Ip as [P1 P2 P3 P4]. unfold worker. destruct (workers s !! i) as [[| |w|w|]|] eqn:Ei; try (by exists s).
  - destruct (wq s) as [|[w|] q] eqn:Eq.
    + eexists. split; [done|]. split; cbn; try done.
      * eapply placed_same; [done| |done|done]. unfold places. cbn. by rewrite (busy_same _ _ WLook).
      * rewrite Eq. cbn. lia.
      * by exists [], false.
      * intros [?|Hg]%(insert_in _ _ WLook); [done| |done]. specialize (Ig Hg). congruence.
    + assert ((PQueue, w) ∈ places s) as Hin by (unfold places; rewrite Eq; cbn; by left). destruct (P2 _ _ Hin) as [Hj Hh]. rewrite Hj. eexists. split; [done|]. split; cbn; try done.
      * eapply (placed_move s _ PQueue PRun w); [done| | | |].
        { unfold places. rewrite Eq. cbn. done. }
        { unfold places. cbn. pose proof (busy_insert _ _ _ (WRun w) Ei) as Hb. cbn in Hb. rewrite Hb. cbn. by rewrite <- Permutation_middle. }
        { intros x Hx. cbn. by rewrite lookup_insert_ne. }
        { cbn. by rewrite lookup_insert_eq. }
      * intros Hwait. apply (insert_in _ _ WLook) in Hwait as [?|Hwait]; [done| |done]. specialize (Ia Hwait). pose proof (looks_insert _ _ _ (WRun w) Ei) as Ht. cbn in *. lia.
      * destruct Ie as (js & e & Ee). destruct js as [|j js]; [by destruct e|]. injection Ee as _ ->. by exists js, e.
      * intros [?|Hg]%(insert_in _ _ WLook); [done| |done]. specialize (Ig Hg). congruence.
    + pose proof (signal_frame pick s) as (F1 & F2 & F3 & F4 & F5 & F6 & F7 & F8 & F9 & F10). assert (workers (uv_cond_signal pick s) !! i = Some WLook) as Ei'.
      { destruct (signal_cases pick s) as [[-> _]|(j & Ej & ->)]; [done|]. cbn. rewrite list_lookup_insert_ne; [done|]. intros ->. congruence. }
      eexists. split; [done|]. split; cbn; try done.
      * eapply placed_same; [done| |done|done]. unfold places. cbn. by rewrite (busy_same _ _ WLook), F9.
      * intros Hwait. apply (insert_in _ _ WLook) in Hwait as [?|Hwait]; [done| |done]. pose proof (signal_awake pick s _ Ia Hwait) as Hs. pose proof (looks_insert _ _ _ WGone Ei') as Ht. rewrite Eq. cbn in *. lia.
      * rewrite Eq. destruct Ie as (js & e & Ee). destruct js as [|j js]; [|done]. cbn in Ee. destruct e; [|done]. injection Ee as ->. by exists [], true.
      * intros _. rewrite Eq. destruct Ie as (js & e & Ee). destruct js as [|j js]; [|done]. cbn in Ee. destruct e; [|done]. by injection Ee as ->.
  - assert ((PRun, w) ∈ places s) as Hin. { unfold places. rewrite elem_of_app. right. rewrite elem_of_app. left. apply list_elem_of_omap. exists (WRun w). split; [by eapply list_elem_of_lookup_2|done]. }
    destruct (P2 _ _ Hin) as [Hj Hh]. rewrite Hj. eexists. split; [done|]. split; cbn; try done.
    + eapply (placed_move s _ PRun PPost w); [done| | | |].
      { pose proof (busy_insert _ _ _ WLook Ei) as Hb. cbn in Hb. unfold places. rewrite <- Hb. cbn. by rewrite <- Permutation_middle. }
      { pose proof (busy_insert _ _ _ (WPost w) Ei) as Hb. pose proof (busy_insert _ _ _ WLook Ei) as Hb2. cbn in Hb, Hb2. unfold places. cbn.
        assert (omap busy (<[i:=WPost w]> (workers s)) ≡ₚ (PPost, w) :: omap busy (<[i:=WLook]> (workers s))) as ->; [|cbn; by rewrite <- Permutation_middle].
        apply (Permutation_cons_inv (a := (PRun, w))). rewrite Hb, <- Hb2. apply perm_swap. }
      { intros x Hx. cbn. split; [done|]. by rewrite history_other. }
      { cbn. rewrite history_snoc, Hh. cbn. by rewrite Z.eqb_refl. }
    + intros Hwait. apply (insert_in _ _ (WRun w)) in Hwait as [?|Hwait]; [done| |done]. specialize (Ia Hwait). pose proof (looks_insert _ _ _ (WPost w) Ei) as Ht. cbn in *. lia.
    + intros [?|Hg]%(insert_in _ _ (WRun w)); [done| |done]. by apply Ig.
  - assert ((PPost, w) ∈ places s) as Hin. { unfold places. rewrite elem_of_app. right. rewrite elem_of_app. left. apply list_elem_of_omap. exists (WPost w). split; [by eapply list_elem_of_lookup_2|done]. }
    destruct (P2 _ _ Hin) as [Hj Hh]. eexists. split; [done|]. split; cbn; try done; [..|by left| |].
    + eapply (placed_move s _ PPost PBack w); [done| | | |].
      { pose proof (busy_insert _ _ _ WLook Ei) as Hb. cbn in Hb. unfold places. rewrite <- Hb. cbn. by rewrite <- Permutation_middle. }
      { unfold places. cbn. rewrite fmap_app. cbn. rewrite <- !app_assoc. cbn. by rewrite <- !Permutation_middle. }
      { intros x Hx. cbn. by rewrite lookup_insert_ne. }
      { cbn. rewrite lookup_insert_eq. by left. }
    + intros Hwait. apply (insert_in _ _ (WPost w)) in Hwait as [?|Hwait]; [done| |done]. specialize (Ia Hwait). pose proof (looks_insert _ _ _ WLook Ei) as Ht. cbn in *. lia.
    + intros [?|Hg]%(insert_in _ _ (WPost w)); [done| |done]. by apply Ig.
Qed.

(** ** The loop's steps *)

Lemma queued_filter w l : Job w ∈ l → NoDup (omap queued l).*2 → omap queued l ≡ₚ (PQueue, w) :: omap queued (filter (λ x, x ≠ Job w) l).
Proof.
  induction l as [|x l IH]; intros Hin Hnd; [by apply not_elem_of_nil in Hin|]. rewrite filter_cons. case_decide as Hx.
  - apply elem_of_cons in Hin as [Hin|Hin]; [by destruct Hx|]. destruct x as [v|]; cbn in *; [|by apply IH]. apply NoDup_cons in Hnd as [_ Hnd]. rewrite (IH Hin Hnd) at 1. apply perm_swap.
  - subst x. cbn in *. apply NoDup_cons in Hnd as [Hw _]. f_equiv. clear IH Hin. induction l as [|x l IH]; [done|]. rewrite filter_cons. case_decide as Hx.
    + destruct x as [v|]; cbn in *; [|by apply IH]. f_equiv. apply IH. intros H. apply Hw. by right.
    + exfalso. subst x. apply Hw. cbn. by left.
Qed.

Lemma back_filter (w : Z) l : w ∈ l → NoDup l → l ≡ₚ w :: filter (λ x, x ≠ w) l.
Proof.
  intros Hin Hnd. apply NoDup_Permutation; [done| |].
  - apply NoDup_cons. split; [rewrite list_elem_of_filter; naive_solver|by apply NoDup_filter].
  - intros x. rewrite elem_of_cons, list_elem_of_filter. destruct (decide (x = w)); naive_solver.
Qed.

Lemma back_nodup (l : list Z) : NoDup ((λ w, (PBack, w)) <$> l).*2 → NoDup l.
Proof. rewrite <- list_fmap_compose. unfold compose. cbn. by rewrite list_fmap_id. Qed.

Lemma pool_loop_inv s : pinv s → ∃ s', loop_step s = Val s' ∧ pinv s'.
Proof.
  intros I. pose proof I as [Ip Il Iw Ia Ie Ig]. pose proof Ip as [P1 P2 P3 P4]. unfold loop_step. destruct (cancelling s) as [w|] eqn:Ec.
  { eexists. split; [done|]. split; cbn; try done; [|by left]. assert ((PCancel, w) ∈ places s) as Hin by (unfold places; rewrite Ec; rewrite !elem_of_app; do 4 right; by left).
    destruct (P2 _ _ Hin) as [_ Hh]. eapply (placed_move s _ PCancel PBack w); [done| | | |].
    - unfold places. rewrite Ec, !app_assoc. by rewrite <- Permutation_cons_append.
    - unfold places. cbn. rewrite fmap_app. cbn. rewrite !app_nil_r, <- !app_assoc. cbn. by rewrite <- !Permutation_middle.
    - intros x Hx. cbn. by rewrite lookup_insert_ne.
    - cbn. rewrite lookup_insert_eq. by right. }
  destruct (loop_pc s) eqn:El.
  - destruct (wq_async s) eqn:Ea; (eexists; split; [done|]); [|done]. assert (local_wq s = []) as Hl by (by destruct Il). split; cbn; [by apply (placed_same s)|by left|intros _; by right|done|done|done].
  - assert (local_wq s = []) as Hl by (by destruct Il). eexists. split; [done|]. split; cbn; [|by right|done|done|done|done]. apply (placed_same s); [done| |done|done]. unfold places. cbn. by rewrite Hl.
  - destruct (local_wq s) as [|w q] eqn:Eq.
    + eexists. split; [done|]. split; cbn; [by apply (placed_same s)|by left|intros Hn; destruct (Iw Hn); [by left|done]|done|done|done].
    + assert ((PBack, w) ∈ places s) as Hin by (unfold places; rewrite Eq; rewrite !elem_of_app; do 3 right; left; by left). pose proof (P2 _ _ Hin) as Hg. destruct (good_is _ _ _ Hg) as [j Hj]. rewrite Hj.
      eexists. split; [done|]. split; cbn; [|by right|intros Hn; destruct (Iw Hn); [by left|done]|done|done|done].
      eapply (placed_end s _ PBack w); [done| | | |]; cbn.
      * unfold places. cbn. rewrite Eq, Ec. cbn. by rewrite <- !Permutation_middle.
      * intros x Hx. rewrite lookup_delete_ne by done. by rewrite history_other.
      * by rewrite lookup_delete_eq.
      * rewrite history_snoc. destruct Hg as [[Hj' ->]|[Hj' ->]]; rewrite Hj in Hj'; injection Hj' as ->; cbn; rewrite Z.eqb_refl; done.
Qed.

(** ** The calls *)

Lemma items_no_exit js (e : bool) q : q = (Job <$> js) ++ (if e then [Exit] else []) → Exit ∉ q → q = Job <$> js.
Proof. intros -> Hn. destruct e; [|by rewrite app_nil_r]. destruct Hn. apply elem_of_app. right. by left. Qed.

(** What [post] does, in a state that is good but for the request being posted. *)
Lemma post_inv q pick s : Exit ∉ wq s → placed (post q pick s) →
  (local_wq s = [] ∨ loop_pc s = LWork) → (loop_wq s ≠ [] → wq_async s = true ∨ loop_pc s = LEnter) →
  (WWait ∈ workers s → (length (wq s) ≤ looks (workers s))%nat) → (∃ js (e : bool), wq s = (Job <$> js) ++ (if e then [Exit] else [])) →
  (WGone ∈ workers s → wq s = [Exit]) → pinv (post q pick s).
Proof.
  intros Hn Hp Il Iw Ia (js & e & Ee) Ig. pose proof (items_no_exit js e _ Ee Hn) as Ej. pose proof (signal_frame pick (set_wq (wq s ++ [q]) s)) as (F1 & F2 & F3 & F4 & F5 & F6 & F7 & F8 & _ & F10). fold (post q pick s) in *. cbn in F1, F3, F4, F5, F6, F10.
  split; rewrite ?F1, ?F3, ?F4, ?F5, ?F6; [done..| | |].
  - rewrite length_app. apply (signal_awake pick (set_wq (wq s ++ [q]) s)). done.
  - destruct q as [w|]; [exists (js ++ [w]), false; rewrite fmap_app; cbn; by rewrite Ej, app_nil_r|exists js, true; by rewrite Ej].
  - intros Hg%F10. specialize (Ig Hg). rewrite Ig in Hn. destruct Hn. by left.
Qed.

Lemma submit_inv w pick s : pinv s → jobs s !! w = None → Exit ∉ wq s → pinv (uv__work_submit w pick s).
Proof.
  intros [Ip Il Iw Ia Ie Ig] Hw Hx. unfold uv__work_submit. apply post_inv; [done| |done..]. pose proof (signal_frame pick (set_wq (wq s ++ [Job w]) (wnote (Submitted w) (set_jobs (<[w:=mkJob Work false]> (jobs s)) s)))) as F.
  cbn in F. destruct F as (_ & F2 & _ & _ & _ & _ & _ & F8 & _). eapply (placed_start s _ PQueue w); [done|done| | |].
  - unfold post. rewrite signal_places. unfold places. cbn. rewrite omap_app. cbn. rewrite <- !app_assoc. cbn. by rewrite <- Permutation_middle.
  - intros x Hx'. unfold post. cbn. rewrite F2, F8. rewrite lookup_insert_ne by done. by rewrite history_other.
  - unfold post. cbn. rewrite F2, F8, lookup_insert_eq, history_snoc. rewrite (pl_idle _ Ip) by done. cbn. by rewrite Z.eqb_refl.
Qed.

Lemma exit_inv pick s : pinv s → Exit ∉ wq s → pinv (post Exit pick s).
Proof.
  intros [Ip Il Iw Ia Ie Ig] Hx. apply post_inv; [done| |done..]. pose proof (signal_frame pick (set_wq (wq s ++ [Exit]) s)) as (_ & F2 & _ & _ & _ & _ & _ & F8 & _).
  apply (placed_same s); [done| |exact F2|exact F8]. unfold post. rewrite signal_places. unfold places. cbn. rewrite omap_app. cbn. by rewrite app_nil_r.
Qed.

Lemma spurious_inv i s : pinv s → workers s !! i = Some WWait → pinv (set_workers (<[i := WLook]> (workers s)) s).
Proof.
  intros [Ip Il Iw Ia Ie Ig] Ei. split; cbn; [|done|done| |done|].
  - apply (placed_same s); [done| |done|done]. unfold places. cbn. by rewrite (busy_same _ _ WWait).
  - intros _. specialize (Ia (list_elem_of_lookup_2 _ _ _ Ei)). pose proof (looks_insert _ _ _ WLook Ei) as Ht. cbn in Ht. lia.
  - intros [?|Hg]%(insert_in _ _ WWait); [done| |done]. by apply Ig.
Qed.

Lemma job_filter (js : list Z) w : filter (λ x, x ≠ Job w) (Job <$> js) = Job <$> filter (λ x, x ≠ w) js.
Proof.
  induction js as [|j js IH]; [done|]. cbn [fmap list_fmap]. rewrite !filter_cons. destruct (decide (j = w)) as [->|Hne].
  - rewrite !decide_False by (by intros []). apply IH.
  - rewrite !decide_True by (done || congruence). cbn. by rewrite <- IH.
Qed.

Lemma cancel_inv w s : pinv s → is_Some (jobs s !! w) → cancelling s = None → ∃ s', uv__work_cancel w s = Val s' ∧ pinv s'.
Proof.
  intros I [j Hj] Hc. pose proof I as [Ip Il Iw Ia Ie Ig]. pose proof Ip as [P1 P2 P3 P4]. unfold uv__work_cancel. rewrite Hj. destruct (negb (w_self j) && _) eqn:Ec; [|by exists s].
  apply andb_true_iff in Ec as [Es%negb_true_iff En%negb_true_iff%bool_decide_eq_false]. pose proof P1 as Hnd. unfold places in Hnd. rewrite !fmap_app in Hnd. apply NoDup_app in Hnd as (N1 & _ & Hnd). apply NoDup_app in Hnd as (_ & _ & Hnd).
  apply NoDup_app in Hnd as (N2%back_nodup & _ & Hnd). apply NoDup_app in Hnd as (N3%back_nodup & _ & _).
  pose proof (P4 w (mk_is_Some _ _ Hj)) as ((p & x) & Ex & Hin)%list_elem_of_fmap. cbn in Ex. subst x. pose proof (P2 _ _ Hin) as Hg. rewrite Hj in Hg.
  assert (Job w ∈ wq s ∨ w ∈ loop_wq s ∨ w ∈ local_wq s) as Hplace.
  { unfold places in Hin. rewrite Hc, app_nil_r, !elem_of_app in Hin. destruct Hin as [Hq|[Hb|[Hb|Hb]]].
    - apply list_elem_of_omap in Hq as ([v|] & Hq & Ev); [|done]. cbn in Ev. simplify_eq. by left.
    - apply list_elem_of_omap in Hb as (pc & Hb & Ev). destruct pc; try done; cbn in Ev; simplify_eq; cbn in Hg; destruct Hg as [[= ->] _]; done.
    - apply list_elem_of_fmap in Hb as (v & Ev & Hb). simplify_eq. by right; left.
    - apply list_elem_of_fmap in Hb as (v & Ev & Hb). simplify_eq. by right; right. }
  assert (history w (wlog s) = Some JWaiting) as Hh.
  { destruct p; cbn in Hg; try (by destruct Hg as [_ ?]). - destruct Hg as [[= ->] _]. done. - destruct Hg as [[[= ->] _]|[_ ?]]; done. }
  assert (∀ s' p', placed s → jobs s' = jobs s → wlog s' = wlog s → places s ≡ₚ (p', w) :: places s' → cancelling s' = None → placed (set_cancelling (Some w) s')) as Hmove.
  { intros s' p' _ Ej El E Ec. eapply (placed_move s _ p' PCancel w); [done|exact E| | |].
    - unfold places. cbn. rewrite Ec. rewrite app_nil_r, !app_assoc. by rewrite <- Permutation_cons_append.
    - intros x _. cbn. by rewrite Ej, El.
    - cbn. rewrite Ej, El. split; [by exists j|done]. }
  unfold remove_node. destruct (decide (Job w ∈ wq s)) as [Hq|Hq]; [|destruct (decide (w ∈ loop_wq s)) as [Hb|Hb]; [|destruct (decide (w ∈ local_wq s)) as [Hl|Hl]]].
  - rewrite bind_Val. eexists. split; [done|]. split; cbn; [|done|done| | |].
    + apply (Hmove _ PQueue); [done..| |done]. unfold places. cbn. by rewrite (queued_filter w (wq s)) by done.
    + intros Hw. specialize (Ia Hw). pose proof (length_filter (λ x, x ≠ Job w) (wq s)). lia.
    + destruct Ie as (js & e & ->). exists (filter (λ x, x ≠ w) js), e. rewrite filter_app, job_filter. f_equal. by destruct e.
    + intros Hg'. specialize (Ig Hg'). rewrite Ig in Hq. apply list_elem_of_singleton in Hq. done.
  - rewrite bind_Val. eexists. split; [done|]. split; cbn; [|done| |done|done|done].
    + apply (Hmove _ PBack); [done..| |done]. unfold places. cbn. rewrite (back_filter w (loop_wq s)) at 1 by done. cbn. by rewrite <- !Permutation_middle.
    + intros _. apply Iw. intros E. rewrite E in Hb. by apply not_elem_of_nil in Hb.
  - rewrite bind_Val. eexists. split; [done|]. split; cbn; [| |done|done|done|done].
    + apply (Hmove _ PBack); [done..| |done]. unfold places. cbn. rewrite (back_filter w (local_wq s)) at 1 by done. cbn. by rewrite <- !Permutation_middle.
    + destruct Il as [E|?]; [rewrite E in Hl; by apply not_elem_of_nil in Hl|by right].
  - exfalso. naive_solver.
Qed.

Lemma pool_step_inv a s : pinv s → ∃ s', pool_step a s = Val s' ∧ pinv s'.
Proof.
  intros I. unfold pool_step. destruct (allowed a s) eqn:Ea; cbn [negb]; [|by exists s]. destruct a as [i pick|i| |w pick|w|pick]; cbn in Ea.
  - by apply worker_inv.
  - eexists. split; [done|]. destruct (workers s !! i) as [[]|] eqn:Ei; try done. by apply spurious_inv.
  - by apply pool_loop_inv.
  - apply andb_true_iff in Ea as [[H1%bool_decide_eq_true H2%bool_decide_eq_true]%andb_true_iff _]. eexists. split; [done|]. by apply submit_inv.
  - apply andb_true_iff in Ea as [H1%bool_decide_eq_true H2%bool_decide_eq_true]. by apply cancel_inv.
  - apply andb_true_iff in Ea as [H1%bool_decide_eq_true _]. eexists. split; [done|]. by apply exit_inv.
Qed.

Lemma new_pool_inv n : pinv (new_pool n).
Proof.
  assert (omap busy (replicate n WLook) = []) as E by (induction n; done).
  assert (places (new_pool n) = []) as Ep by (unfold places, new_pool; cbn [wq workers loop_wq local_wq cancelling]; by rewrite E). split; [|by left|done| |by exists [], false|].
  - split; rewrite ?Ep; [constructor|by intros p w ?%not_elem_of_nil|done|intros w [? Hw]; cbn in Hw; by rewrite lookup_empty in Hw].
  - intros _. cbn. lia.
  - cbn. intros Hg. apply elem_of_replicate in Hg as [? _]. done.
Qed.

Lemma pool_run_inv l : ∀ s, pinv s → ∃ s', pool_run l s = Val s' ∧ pinv s'.
Proof. induction l as [|a l IH]; intros s I; [by exists s|]. cbn [pool_run]. destruct (pool_step_inv a s I) as (s' & -> & I'). by apply IH. Qed.

(** ** What the pool promises *)

Lemma init_once_range val allocated : 1 ≤ init_once val allocated ≤ MAX_THREADPOOL_SIZE.
Proof.
  unfold init_once, MAX_THREADPOOL_SIZE. set (n := match val with Some v => u32 v | None => 4 end). assert (0 ≤ n) by (subst n; destruct val; [apply wrap_range; lia|lia]).
  destruct (n =? 0) eqn:E0; cbn -[Z.ltb Z.le]; [done|]. destruct (128 <? n) eqn:E1; destruct ((4 <? _) && _); blia.
Qed.


(** C24 (invariant). The pool conserves work: while a thread sleeps, there are at least as
    many threads awake and looking for work as there are requests in the queue. No signal
    is lost, and no request waits for a thread that sleeps. *)
Theorem pool_work_conserving n l s : pool_run l (new_pool n) = Val s → WWait ∈ workers s → (length (wq s) ≤ looks (workers s))%nat.
Proof. intros E. destruct (pool_run_inv l (new_pool n) (new_pool_inv n)) as (s' & E' & I). rewrite E in E'. injection E' as <-. apply I. Qed.

(** *** Progress *)

Definition weight (p : worker_pc) : nat := match p with WLook => 3 | WWait => 2 | WRun _ => 11 | WPost _ => 10 | WGone => 0 end.

(** The steps that are left to the pool and the loop. *)
Definition work_left (s : pool) : nat :=
  10 * length (wq s) + tally weight (workers s) + 3 * length (loop_wq s) + 2 * length (local_wq s) + (if wq_async s then 3 else 0) +
  match loop_pc s with LIdle => 0 | LEnter => 2 | LWork => 1 end + match cancelling s with Some _ => 7 | None => 0 end.

Definition own (a : pool_act) : bool := match a with AWorker _ _ | ALoop => true | _ => false end.

(** [k] steps of the pool and the loop, each of which changes something. *)
Inductive moves : nat → pool → pool → Prop :=
| moves_none s : moves 0 s s
| moves_step k a s s1 s2 : own a = true → pool_step a s = Val s1 → s1 ≠ s → moves k s1 s2 → moves (S k) s s2.

Lemma worker_left i pick s s' : worker i pick s = Val s' → s' ≠ s → (work_left s' < work_left s)%nat.
Proof.
  unfold worker, work_left. destruct (workers s !! i) as [[| |w|w|]|] eqn:Ei; try (intros [= <-]; by intros []).
  - destruct (wq s) as [|[w|] q] eqn:Eq.
    + intros [= <-] _. cbn. pose proof (tally_insert weight _ _ _ WWait Ei) as Ht. cbn [weight] in Ht. rewrite Eq. cbn. lia.
    + destruct (jobs s !! w); [|done]. intros [= <-] _. cbn. pose proof (tally_insert weight _ _ _ (WRun w) Ei) as Ht. cbn [weight] in Ht. lia.
    + intros [= <-] _. cbn. rewrite Eq. cbn [length]. destruct (signal_cases pick s) as [[-> _]|(j & Ej & ->)].
      * pose proof (tally_insert weight _ _ _ WGone Ei) as Ht. cbn [weight] in Ht. lia.
      * cbn. assert (<[j:=WLook]> (workers s) !! i = Some WLook) as Ei' by (rewrite list_lookup_insert_ne; [done|]; intros ->; congruence).
        pose proof (tally_insert weight _ _ _ WGone Ei') as Ht. pose proof (tally_insert weight _ _ _ WLook Ej) as Ht'. cbn [weight] in Ht, Ht'. lia.
  - destruct (jobs s !! w) as [[[] ?]|]; try done. intros [= <-] _. cbn. pose proof (tally_insert weight _ _ _ (WPost w) Ei) as Ht. cbn [weight] in Ht. lia.
  - intros [= <-] _. cbn. pose proof (tally_insert weight _ _ _ WLook Ei) as Ht. cbn [weight] in Ht. rewrite length_app. cbn. destruct (wq_async s); lia.
Qed.

Lemma loop_left s s' : loop_step s = Val s' → s' ≠ s → (work_left s' < work_left s)%nat.
Proof.
  unfold loop_step, work_left. destruct (cancelling s) as [w|] eqn:Ec; [intros [= <-] _; cbn; rewrite length_app; cbn; destruct (wq_async s); lia|].
  destruct (loop_pc s) eqn:El.
  - destruct (wq_async s) eqn:Ea; intros [= <-]; [intros _; cbn; rewrite Ec; lia|by intros []].
  - intros [= <-] _. cbn. rewrite Ec. lia.
  - destruct (local_wq s) as [|w q] eqn:Eq; [intros [= <-] _; cbn; rewrite Ec, Eq; cbn; lia|]. destruct (jobs s !! w); [|done]. intros [= <-] _. cbn. rewrite Ec, El. lia.
Qed.

Lemma moves_bounded k s s' : moves k s s' → (k + work_left s' ≤ work_left s)%nat.
Proof.
  induction 1 as [s|k a s s1 s2 Ho E Hn _ IH]; [lia|]. assert (work_left s1 < work_left s)%nat; [|lia]. destruct a as [i pick|i| |w pick|w|pick]; try done; cbn in E; [by eapply worker_left|by eapply loop_left].
Qed.

Lemma moves_inv k s s' : moves k s s' → pinv s → pinv s'.
Proof. induction 1 as [s|k a s s1 s2 Ho E Hn _ IH]; [done|]. intros I. destruct (pool_step_inv a s I) as (s3 & E3 & I3). rewrite E in E3. injection E3 as <-. by apply IH. Qed.

Lemma signal_length pick s : length (workers (uv_cond_signal pick s)) = length (workers s).
Proof. destruct (signal_cases pick s) as [[-> _]|(i & _ & ->)]; [done|]. cbn. apply length_insert. Qed.

Lemma step_length a s s' : pool_step a s = Val s' → length (workers s') = length (workers s).
Proof.
  unfold pool_step. destruct (allowed a s); cbn [negb]; [|by intros [= <-]]. destruct a as [i pick|i| |w pick|w|pick].
  - unfold worker. destruct (workers s !! i) as [[| |w|w|]|]; try (by intros [= <-]).
    + destruct (wq s) as [|[w|] q]; [|destruct (jobs s !! w)|]; intros [= <-]; cbn; rewrite ?length_insert; try done. apply signal_length.
    + destruct (jobs s !! w) as [[[] ?]|]; try done. intros [= <-]. cbn. apply length_insert.
    + intros [= <-]. cbn. apply length_insert.
  - intros [= <-]. destruct (workers s !! i) as [[]|]; cbn; rewrite ?length_insert; done.
  - unfold loop_step. destruct (cancelling s); [by intros [= <-]|]. destruct (loop_pc s); [intros [= <-]; by destruct (wq_async s)|by intros [= <-]|]. destruct (local_wq s) as [|w q]; [by intros [= <-]|]. destruct (jobs s !! w); [by intros [= <-]|done].
  - intros [= <-]. unfold uv__work_submit, post. by rewrite signal_length.
  - unfold uv__work_cancel. destruct (jobs s !! w); [|done]. destruct (_ && _); [|by intros [= <-]]. unfold remove_node. repeat (case_decide; [by intros [= <-]|]). done.
  - intros [= <-]. unfold cleanup, post. by rewrite signal_length.
Qed.

Lemma run_length l : ∀ s s', pool_run l s = Val s' → length (workers s') = length (workers s).
Proof.
  induction l as [|a l IH]; intros s s' E; [by injection E as <-|]. cbn [pool_run] in E. apply bind_Val_inv in E as (s1 & E1 & E2). rewrite (IH s1 s' E2). by eapply step_length.
Qed.

Lemma moves_length k s s' : moves k s s' → length (workers s') = length (workers s).
Proof. induction 1 as [s|k a s s1 s2 Ho E Hn _ IH]; [done|]. rewrite IH. by eapply step_length. Qed.

(** A pool in which nothing moves any more. *)
Definition stuck (s : pool) : Prop := ∀ a s', own a = true → pool_step a s = Val s' → s' = s.

Lemma stuck_workers s i p : pinv s → stuck s → workers s !! i = Some p → p = WWait ∨ p = WGone.
Proof.
  intros I Hst Ei. destruct (pool_step_inv (AWorker i 0) s I) as (s' & E & _). pose proof (Hst (AWorker i 0) _ eq_refl E) as ->. cbn in E. unfold worker in E. rewrite Ei in E.
  assert (∀ q (ws : list worker_pc), length ws = length (workers s) → q ≠ p → workers s = <[i:=q]> ws → False) as Hne.
  { intros q ws Hl Hq Ew. apply Hq. pose proof (lookup_lt_Some _ _ _ Ei) as Hi. rewrite Ew, list_lookup_insert_eq in Ei by lia. congruence. }
  destruct p as [| |w|w|]; try (by auto); exfalso.
  - destruct (wq s) as [|[w|] q]; [|destruct (jobs s !! w); [|done]|]; injection E as E; apply (f_equal workers) in E; symmetry in E; cbn in E; eapply Hne in E; done || apply signal_length.
  - destruct (jobs s !! w) as [[[] ?]|]; try done. injection E as E. apply (f_equal workers) in E. symmetry in E. by apply (Hne _ (workers s) eq_refl) in E.
  - injection E as E. apply (f_equal workers) in E. symmetry in E. by apply (Hne _ (workers s) eq_refl) in E.
Qed.

Lemma stuck_loop s : pinv s → stuck s → cancelling s = None ∧ loop_pc s = LIdle ∧ wq_async s = false.
Proof.
  intros I Hst. destruct (pool_step_inv ALoop s I) as (s' & E & _). pose proof (Hst ALoop _ eq_refl E) as ->. cbn in E. unfold loop_step in E. destruct (cancelling s) as [w|] eqn:Ec.
  { exfalso. injection E as E. assert (cancelling s = None) by (by rewrite <- E). congruence. }
  split; [done|]. destruct (loop_pc s) eqn:El.
  - split; [done|]. destruct (wq_async s) eqn:Ea; [|done]. injection E as E. assert (loop_pc s = LEnter) by (by rewrite <- E). congruence.
  - exfalso. injection E as E. assert (loop_pc s = LWork) by (by rewrite <- E). congruence.
  - exfalso. destruct (local_wq s) as [|w q] eqn:Eq; [injection E as E; assert (loop_pc s = LIdle) by (by rewrite <- E); congruence|]. destruct (jobs s !! w); [|done]. injection E as E.
    assert (local_wq s = q) as Eq' by (by rewrite <- E). rewrite Eq in Eq'. by apply (f_equal length) in Eq'; cbn in Eq'; lia.
Qed.

Lemma stuck_done s : pinv s → stuck s → workers s ≠ [] → jobs s = ∅.
Proof.
  intros I Hst Hn. pose proof I as [Ip Il Iw Ia Ie Ig]. destruct (stuck_loop s I Hst) as (Hc & Hl & Ha). pose proof (λ i p, stuck_workers s i p I Hst) as Hw.
  assert (Forall (λ p, p = WWait ∨ p = WGone) (workers s)) as Hall by (apply Forall_lookup; intros i p; apply Hw).
  assert (looks (workers s) = 0%nat ∧ omap busy (workers s) = []) as [H0 Hb].
  { clear -Hall. induction Hall as [|p ws Hp _ [IH1 IH2]]; [done|]. cbn. unfold looks, tally in *. cbn. rewrite IH1. destruct Hp as [->| ->]; done. }
  assert (loop_wq s = []) as Hlw by (destruct (loop_wq s) eqn:E; [done|]; destruct Iw; [done|congruence|congruence]). assert (local_wq s = []) as Hlo by (destruct Il; [done|congruence]).
  assert (omap queued (wq s) = []) as Hq.
  { destruct (workers s) as [|p ws] eqn:Ews; [done|]. apply Forall_cons in Hall as [[->| ->] _].
    - specialize (Ia (list_elem_of_here _ _)). rewrite H0 in Ia. destruct (wq s); [done|cbn in Ia; lia].
    - by rewrite (Ig (list_elem_of_here _ _)). }
  apply map_empty. intros w. destruct (jobs s !! w) eqn:Ej; [|done]. exfalso. pose proof (pl_all _ Ip w (mk_is_Some _ _ Ej)) as Hin. unfold places in Hin. rewrite Hq, Hb, Hlw, Hlo, Hc in Hin. by apply not_elem_of_nil in Hin.
Qed.

(** C23 (liveness). With at least one thread, from every state the pool can get into: the
    threads and the loop can make only a bounded number of steps without further calls of
    the user, and when they can make none, every request has been called back (also when
    the threads have left because of [cleanup]). *)
Theorem pool_drains n l s : (0 < n)%nat → pool_run l (new_pool n) = Val s →
  ∀ k s', moves k s s' → (k ≤ work_left s)%nat ∧ (stuck s' → jobs s' = ∅ ∧ ∀ w, history w (wlog s') = Some JIdle).
Proof.
  intros Hn E k s' Hm. destruct (pool_run_inv l (new_pool n) (new_pool_inv n)) as (s1 & E1 & I). rewrite E in E1. injection E1 as <-. split; [pose proof (moves_bounded _ _ _ Hm); lia|].
  intros Hst. pose proof (moves_inv _ _ _ Hm I) as I'. assert (workers s' ≠ []) as Hw.
  { intros Hw. pose proof (moves_length _ _ _ Hm) as H1. pose proof (run_length _ _ _ E) as H2. rewrite Hw in H1. cbn in H1, H2. rewrite length_replicate in H2. lia. }
  pose proof (stuck_done s' I' Hst Hw) as Hj. split; [done|]. intros w. apply (pl_idle _ (i_placed _ I')). by rewrite Hj, lookup_empty.
Qed.

(** Three threads go to sleep, two requests wake two of them. *)
Definition pool_asleep : list pool_act := [AWorker 0 0; AWorker 1 0; AWorker 2 0; ASubmit 1 0; ASubmit 2 0].
Definition pool_asleep_state : pool :=
  Eval vm_compute in match pool_run pool_asleep (new_pool 3) with Val s => s | _ => new_pool 0 end.

Lemma pool_work_conserving_witness : wq pool_asleep_state = [Job 1; Job 2] ∧ (2 ≤ looks (workers pool_asleep_state))%nat.
Proof.
  split; [reflexivity|]. apply (pool_work_conserving 3 pool_asleep pool_asleep_state eq_refl). apply (bool_decide_unpack _). vm_compute. exact I.
Defined.

(** The state the demonstration ends in, and one more step: the thread goes to sleep. *)
Definition pool_demo_state : pool :=
  Eval vm_compute in match pool_run pool_demo (new_pool 1) with Val s => s | _ => new_pool 0 end.

Lemma pool_drains_witness : ∃ s', moves 1 pool_demo_state s' ∧ stuck s' ∧ jobs s' = ∅.
Proof.
  assert (moves 1 pool_demo_state (set_workers [WWait] pool_demo_state)) as Hm.
  { apply (moves_step 0 (AWorker 0 0) _ (set_workers [WWait] pool_demo_state)); [reflexivity|reflexivity|discriminate|constructor]. }
  assert (stuck (set_workers [WWait] pool_demo_state)) as Hs.
  { intros [[|i] pick|i| |w pick|w|pick] s'; cbn; try discriminate; intros _ [= <-]; reflexivity. }
  exists (set_workers [WWait] pool_demo_state). split; [exact Hm|]. split; [exact Hs|].
  destruct (pool_drains 1 pool_demo pool_demo_state ltac:(lia) eq_refl 1 _ Hm) as [_ H]. by apply H.
Defined.
