(* ===== verification/UvLoop.v ===== *)
(** * The event loop itself ([src/deps/uv/src/unix/core.c], [loop.c], [loop-watcher.c],
    [uv-common.h])

    [uv_run], which the client's worker thread calls, and what decides when it returns:
    the flags of the handles, the count of those that keep the loop alive, the requests,
    and the list of handles that are being closed. Which callbacks the timers, the
    watchers and the requests make in an iteration, and what the user calls in them, is
    open here ([UvTimers.v], [UvPoll.v] and [UvStream.v] say more): the environment of an
    iteration is any sequence of calls. A call against the rules does not happen; callbacks
    are not NULL. *)

From S2P Require Import Prelude.
Local Open Scope Z_scope.

(** ** The state *)

(** [KWatcher] is an idle handle; timers, wake-ups and streams are [KOther]. *)
Inductive handle_kind := KWatcher | KOther.

Record handle := mkH {
  h_kind : handle_kind;
  UV_CLOSING : bool;
  UV_CLOSED : bool;
  UV__HANDLE_ACTIVE : bool;
  UV__HANDLE_REF : bool
}.

Inductive loop_log := LClose (h : Z) | LCloseCb (h : Z) | LPoll (timeout : Z).

Record uv_loop_t := mkL {
  handle_queue : gmap Z handle;
  active_handles : Z;
  active_reqs : list Z;
  idle_handles : list Z;
  closing_handles : list Z;
  stop_flag : bool;
  llog : list loop_log
}.

Definition set_handle (h : Z) (x : handle) (l : uv_loop_t) : uv_loop_t :=
  mkL (<[h := x]> (handle_queue l)) (active_handles l) (active_reqs l) (idle_handles l) (closing_handles l) (stop_flag l) (llog l).
Definition drop_handle (h : Z) (l : uv_loop_t) : uv_loop_t :=
  mkL (delete h (handle_queue l)) (active_handles l) (active_reqs l) (idle_handles l) (closing_handles l) (stop_flag l) (llog l).
Definition set_active_handles (n : Z) (l : uv_loop_t) : uv_loop_t :=
  mkL (handle_queue l) n (active_reqs l) (idle_handles l) (closing_handles l) (stop_flag l) (llog l).
Definition set_active_reqs (q : list Z) (l : uv_loop_t) : uv_loop_t :=
  mkL (handle_queue l) (active_handles l) q (idle_handles l) (closing_handles l) (stop_flag l) (llog l).
Definition set_idle_handles (q : list Z) (l : uv_loop_t) : uv_loop_t :=
  mkL (handle_queue l) (active_handles l) (active_reqs l) q (closing_handles l) (stop_flag l) (llog l).
Definition set_closing_handles (q : list Z) (l : uv_loop_t) : uv_loop_t :=
  mkL (handle_queue l) (active_handles l) (active_reqs l) (idle_handles l) q (stop_flag l) (llog l).
Definition set_stop_flag (b : bool) (l : uv_loop_t) : uv_loop_t :=
  mkL (handle_queue l) (active_handles l) (active_reqs l) (idle_handles l) (closing_handles l) b (llog l).
Definition lnote (e : loop_log) (l : uv_loop_t) : uv_loop_t :=
  mkL (handle_queue l) (active_handles l) (active_reqs l) (idle_handles l) (closing_handles l) (stop_flag l) (llog l ++ [e]).

(** ** Handles and requests *)

Definition get_handle (h : Z) (l : uv_loop_t) : exec handle :=
  match handle_queue l !! h with Some x => Val x | None => UB end.

Definition uv__active_handle_add (l : uv_loop_t) : uv_loop_t := set_active_handles (u32 (active_handles l + 1)) l.
Definition uv__active_handle_rm (l : uv_loop_t) : uv_loop_t := set_active_handles (u32 (active_handles l - 1)) l.

Definition uv__handle_init (h : Z) (k : handle_kind) (l : uv_loop_t) : uv_loop_t := set_handle h (mkH k false false false true) l.

(** [UV__HANDLE_CLOSING] is 0 on Unix. *)
Definition uv__handle_start (h : Z) (l : uv_loop_t) : exec uv_loop_t :=
  x ← get_handle h l;
  if UV__HANDLE_ACTIVE x then Val l
  else
    let l := set_handle h (mkH (h_kind x) (UV_CLOSING x) (UV_CLOSED x) true (UV__HANDLE_REF x)) l in
    Val (if UV__HANDLE_REF x then uv__active_handle_add l else l).

Definition uv__handle_stop (h : Z) (l : uv_loop_t) : exec uv_loop_t :=
  x ← get_handle h l;
  if negb (UV__HANDLE_ACTIVE x) then Val l
  else
    let l := set_handle h (mkH (h_kind x) (UV_CLOSING x) (UV_CLOSED x) false (UV__HANDLE_REF x)) l in
    Val (if UV__HANDLE_REF x then uv__active_handle_rm l else l).

Definition uv__handle_ref (h : Z) (l : uv_loop_t) : exec uv_loop_t :=
  x ← get_handle h l;
  if UV__HANDLE_REF x then Val l
  else
    let l := set_handle h (mkH (h_kind x) (UV_CLOSING x) (UV_CLOSED x) (UV__HANDLE_ACTIVE x) true) l in
    Val (if UV__HANDLE_ACTIVE x then uv__active_handle_add l else l).

Definition uv__handle_unref (h : Z) (l : uv_loop_t) : exec uv_loop_t :=
  x ← get_handle h l;
  if negb (UV__HANDLE_REF x) then Val l
  else
    let l := set_handle h (mkH (h_kind x) (UV_CLOSING x) (UV_CLOSED x) (UV__HANDLE_ACTIVE x) false) l in
    Val (if UV__HANDLE_ACTIVE x then uv__active_handle_rm l else l).

Definition uv__req_register (r : Z) (l : uv_loop_t) : uv_loop_t := set_active_reqs (active_reqs l ++ [r]) l.
Definition uv__req_unregister (r : Z) (l : uv_loop_t) : exec uv_loop_t :=
  _ ← require (negb (bool_decide (active_reqs l = [])));
  Val (set_active_reqs (filter (λ x, x ≠ r) (active_reqs l)) l).

(** ** Starting, stopping and closing *)

Definition uv_idle_start (h : Z) (l : uv_loop_t) : exec uv_loop_t :=
  x ← get_handle h l;
  if UV__HANDLE_ACTIVE x then Val l else uv__handle_start h (set_idle_handles (h :: idle_handles l) l).

Definition uv_idle_stop (h : Z) (l : uv_loop_t) : exec uv_loop_t :=
  x ← get_handle h l;
  if negb (UV__HANDLE_ACTIVE x) then Val l else uv__handle_stop h (set_idle_handles (filter (λ x, x ≠ h) (idle_handles l)) l).

(** What starts or stops a handle of the kind. *)
Definition start_handle (h : Z) (l : uv_loop_t) : exec uv_loop_t :=
  x ← get_handle h l; match h_kind x with KWatcher => uv_idle_start h l | KOther => uv__handle_start h l end.
Definition stop_handle (h : Z) (l : uv_loop_t) : exec uv_loop_t :=
  x ← get_handle h l; match h_kind x with KWatcher => uv_idle_stop h l | KOther => uv__handle_stop h l end.

Definition uv__make_close_pending (h : Z) (l : uv_loop_t) : exec uv_loop_t :=
  x ← get_handle h l;
  _ ← require (UV_CLOSING x);
  _ ← require (negb (UV_CLOSED x));
  Val (set_closing_handles (h :: closing_handles l) l).

Definition uv_close (h : Z) (l : uv_loop_t) : exec uv_loop_t :=
  x ← get_handle h l;
  _ ← require (negb (UV_CLOSING x || UV_CLOSED x));
  let l := set_handle h (mkH (h_kind x) true (UV_CLOSED x) (UV__HANDLE_ACTIVE x) (UV__HANDLE_REF x)) (lnote (LClose h) l) in
  l ← stop_handle h l;
  uv__make_close_pending h l.

(** ** Calls *)

Inductive loop_call :=
| CInit (h : Z) (k : handle_kind)
| CStart (h : Z)
| CStop (h : Z)
| CRef (h : Z)
| CUnref (h : Z)
| CClose (h : Z)
| CRegister (r : Z)
| CUnregister (r : Z)
| CStopLoop.

(** A handle is initialised when it is not in use, and not started, stopped or closed
    while it closes. *)
Definition call_allowed (c : loop_call) (l : uv_loop_t) : bool :=
  match c with
  | CInit h _ => bool_decide (handle_queue l !! h = None)
  | CStart h | CStop h | CClose h => match handle_queue l !! h with Some x => negb (UV_CLOSING x) | None => false end
  | CRef h | CUnref h => bool_decide (is_Some (handle_queue l !! h))
  | CRegister r => bool_decide (r ∉ active_reqs l)
  | CUnregister r => bool_decide (r ∈ active_reqs l)
  | CStopLoop => true
  end.

Definition do_call (c : loop_call) (l : uv_loop_t) : exec uv_loop_t :=
  if negb (call_allowed c l) then Val l
  else
    match c with
    | CInit h k => Val (uv__handle_init h k l)
    | CStart h => start_handle h l
    | CStop h => stop_handle h l
    | CRef h => uv__handle_ref h l
    | CUnref h => uv__handle_unref h l
    | CClose h => uv_close h l
    | CRegister r => Val (uv__req_register r l)
    | CUnregister r => uv__req_unregister r l
    | CStopLoop => Val (set_stop_flag true l)
    end.

Fixpoint do_calls (cs : list loop_call) (l : uv_loop_t) : exec uv_loop_t :=
  match cs with
  | [] => Val l
  | c :: cs => l ← do_call c l; do_calls cs l
  end.

(** ** Running *)

(** One iteration: the calls made by timers, idle and prepare handles and pending
    watchers, the timer the loop would wait for, the calls made while polling and by check
    handles, and, for each handle that is closed, those of [uv__stream_destroy] and of its
    close callback. *)
Record turn_env := mkEnv {
  e_before : list loop_call;
  e_next_timeout : Z;
  e_poll : list loop_call;
  e_check : list loop_call;
  e_destroy : Z → list loop_call;
  e_close_cb : Z → list loop_call
}.

Definition uv__has_active_handles (l : uv_loop_t) : bool := 0 <? active_handles l.
Definition uv__has_active_reqs (l : uv_loop_t) : bool := negb (bool_decide (active_reqs l = [])).

Definition uv_backend_timeout (next_timeout : Z) (l : uv_loop_t) : Z :=
  if stop_flag l then 0
  else if negb (uv__has_active_handles l) && negb (uv__has_active_reqs l) then 0
  else if negb (bool_decide (idle_handles l = [])) then 0
  else if negb (bool_decide (closing_handles l = [])) then 0
  else next_timeout.

Definition uv__loop_alive (l : uv_loop_t) : bool :=
  uv__has_active_handles l || uv__has_active_reqs l || negb (bool_decide (closing_handles l = [])).

(** The handle is the user's again when its close callback is called. *)
Definition uv__finish_close (e : turn_env) (h : Z) (l : uv_loop_t) : exec uv_loop_t :=
  x ← get_handle h l;
  _ ← require (UV_CLOSING x);
  _ ← require (negb (UV_CLOSED x));
  let l := set_handle h (mkH (h_kind x) (UV_CLOSING x) true (UV__HANDLE_ACTIVE x) (UV__HANDLE_REF x)) l in
  l ← do_calls (e_destroy e h) l;
  l ← uv__handle_unref h l;
  do_calls (e_close_cb e h) (lnote (LCloseCb h) (drop_handle h l)).

Fixpoint run_closing (e : turn_env) (p : list Z) (l : uv_loop_t) : exec uv_loop_t :=
  match p with
  | [] => Val l
  | h :: q => l ← uv__finish_close e h l; run_closing e q l
  end.

Definition uv__run_closing_handles (e : turn_env) (l : uv_loop_t) : exec uv_loop_t :=
  run_closing e (closing_handles l) (set_closing_handles [] l).

Inductive uv_run_mode := UV_RUN_DEFAULT | UV_RUN_ONCE | UV_RUN_NOWAIT.

(** An iteration, up to [uv__run_closing_handles]. *)
Definition phases (mode : uv_run_mode) (e : turn_env) (l : uv_loop_t) : exec uv_loop_t :=
  l ← do_calls (e_before e) l;
  let timeout := match mode with UV_RUN_NOWAIT => 0 | _ => uv_backend_timeout (e_next_timeout e) l end in
  l ← do_calls (e_poll e) (lnote (LPoll timeout) l);
  do_calls (e_check e) l.

Definition iterate (mode : uv_run_mode) (e : turn_env) (l : uv_loop_t) : exec uv_loop_t :=
  l ← phases mode e l; uv__run_closing_handles e l.

(** The loop, while there is a next iteration; [r] and whether it returned. *)
Fixpoint run_loop (mode : uv_run_mode) (es : list turn_env) (r : bool) (l : uv_loop_t) : exec (uv_loop_t * bool * bool) :=
  if r && negb (stop_flag l) then
    match es with
    | [] => Val (l, r, false)
    | e :: es =>
        l ← iterate mode e l;
        let r := uv__loop_alive l in
        match mode with
        | UV_RUN_DEFAULT => run_loop mode es r l
        | _ => Val (set_stop_flag false l, r, true)
        end
    end
  else Val (set_stop_flag false l, r, true).

Definition uv_run (mode : uv_run_mode) (es : list turn_env) (l : uv_loop_t) : exec (uv_loop_t * bool * bool) :=
  run_loop mode es (uv__loop_alive l) l.

(** After [uv__loop_init], without the loop's own two handles, which do not keep it
    alive. *)
Definition new_loop : uv_loop_t := mkL ∅ 0 [] [] [] false [].

(** A timer is started, closed in its callback, and the loop ends; the second poll does
    not wait, for the handle is closing. *)
Definition quiet_env (before poll : list loop_call) : turn_env := mkEnv before 100 poll [] (λ _, []) (λ _, []).

Example loop_example :
  match do_calls [CInit 1 KOther; CStart 1] new_loop with
  | Val l =>
      match uv_run UV_RUN_DEFAULT [quiet_env [] []; quiet_env [CClose 1] []; quiet_env [] []] l with
      | Val (l, r, returned) => Some (llog l, r, returned)
      | _ => None
      end
  | _ => None
  end = Some ([LPoll 100; LClose 1; LPoll 0; LCloseCb 1], false, true).
Proof. vm_compute. reflexivity. Qed.

(** ** The invariant *)

(** Whether a handle keeps the loop alive, and how many do. *)
Definition keeps (x : handle) : bool := UV__HANDLE_ACTIVE x && UV__HANDLE_REF x.
Definition b2n (b : bool) : nat := if b then 1 else 0.
Definition count (m : gmap Z handle) : nat := map_fold (λ _ x n, b2n (keeps x) + n)%nat 0%nat m.

Lemma count_new m h x : m !! h = None → count (<[h := x]> m) = (b2n (keeps x) + count m)%nat.
Proof. intros Hm. unfold count. rewrite map_fold_insert_L; [done|intros; lia|done]. Qed.

Lemma count_split m h x : m !! h = Some x → count m = (b2n (keeps x) + count (delete h m))%nat.
Proof. intros Hm. rewrite <- (insert_delete_id m h x) at 1 by done. apply count_new, lookup_delete_eq. Qed.

Lemma count_set m h x y : m !! h = Some x → (count (<[h := y]> m) + b2n (keeps x) = count m + b2n (keeps y))%nat.
Proof. intros Hm. rewrite <- insert_delete_eq, count_new, (count_split m h x) by (done || apply lookup_delete_eq). lia. Qed.

(** Calls of [uv_close] for a handle, and of its close callback. *)
Definition is_close (h : Z) (e : loop_log) : bool := match e with LClose x => x =? h | _ => false end.
Definition is_close_cb (h : Z) (e : loop_log) : bool := match e with LCloseCb x => x =? h | _ => false end.
Definition closes (h : Z) (l : list loop_log) : nat := sum_list_with (λ e, b2n (is_close h e)) l.
Definition close_cbs (h : Z) (l : list loop_log) : nat := sum_list_with (λ e, b2n (is_close_cb h e)) l.

Lemma closes_snoc h l e : closes h (l ++ [e]) = (closes h l + b2n (is_close h e))%nat.
Proof. unfold closes. rewrite sum_list_with_app. cbn. lia. Qed.
Lemma close_cbs_snoc h l e : close_cbs h (l ++ [e]) = (close_cbs h l + b2n (is_close_cb h e))%nat.
Proof. unfold close_cbs. rewrite sum_list_with_app. cbn. lia. Qed.
Arguments closes : simpl never.
Arguments close_cbs : simpl never.
Arguments count : simpl never.

(** Being closed, and not called back yet. *)
Definition closing_now (m : gmap Z handle) (h : Z) : bool := match m !! h with Some x => UV_CLOSING x | None => false end.
Definition close_due (m : gmap Z handle) (h : Z) : Prop := ∃ x, m !! h = Some x ∧ UV_CLOSING x = true ∧ UV_CLOSED x = false.

(** [q] is what is left of the list [uv__run_closing_handles] took, [cur] the handle that
    is being finished. *)
Record linv (q : list Z) (cur : option Z) (l : uv_loop_t) : Prop := {
  l_count : active_handles l = u32 (Z.of_nat (count (handle_queue l)));
  l_once : NoDup (closing_handles l ++ q);
  l_due : ∀ h, h ∈ closing_handles l ++ q ↔ close_due (handle_queue l) h;
  l_idle : ∀ h, h ∈ idle_handles l ↔ ∃ x, handle_queue l !! h = Some x ∧ h_kind x = KWatcher ∧ UV__HANDLE_ACTIVE x = true;
  l_quiet : ∀ h x, handle_queue l !! h = Some x → UV_CLOSING x = true → UV__HANDLE_ACTIVE x = false;
  l_closed : ∀ h x, handle_queue l !! h = Some x → UV_CLOSED x = true → cur = Some h;
  l_cur : ∀ h, cur = Some h → ∃ x, handle_queue l !! h = Some x ∧ UV_CLOSING x = true ∧ UV_CLOSED x = true;
  l_log : ∀ h, closes h (llog l) = (close_cbs h (llog l) + b2n (closing_now (handle_queue l) h))%nat
}.

Lemma u32_add a b : u32 (u32 a + b) = u32 (a + b).
Proof. unfold wrap. by rewrite Zplus_mod_idemp_l. Qed.
Lemma u32_sub a b : u32 (u32 a - b) = u32 (a - b).
Proof. unfold wrap. by rewrite Zminus_mod_idemp_l. Qed.

(** Changing the flags that count of one handle, and the count with them. *)
Lemma flags_inv q cur l h x y n idle : linv q cur l → handle_queue l !! h = Some x → UV_CLOSING y = UV_CLOSING x → UV_CLOSED y = UV_CLOSED x → h_kind y = h_kind x →
  (UV_CLOSING y = true → UV__HANDLE_ACTIVE y = false) → n = u32 (Z.of_nat (count (<[h := y]> (handle_queue l)))) →
  (∀ h', h' ∈ idle ↔ if decide (h' = h) then h_kind y = KWatcher ∧ UV__HANDLE_ACTIVE y = true else h' ∈ idle_handles l) →
  linv q cur (mkL (<[h := y]> (handle_queue l)) n (active_reqs l) idle (closing_handles l) (stop_flag l) (llog l)).
Proof.
  intros [I1 I2 I3 I4 I5 I6 I7 I8] Hx Ec Ed Ek Hq Hn Hi. split; cbn; [done|done| | | | | |].
  - intros h'. rewrite I3. unfold close_due. destruct (decide (h' = h)) as [->|Hne]; [rewrite lookup_insert_eq, Hx|by rewrite lookup_insert_ne]. split; intros (z & [= <-] & ? & ?); eexists; (split; [done|]); split; congruence.
  - intros h'. rewrite Hi. case_decide as Hd; [subst h'; rewrite lookup_insert_eq; naive_solver|]. rewrite lookup_insert_ne by done. apply I4.
  - intros h' z. destruct (decide (h' = h)) as [->|Hne]; [rewrite lookup_insert_eq; by intros [= <-]|rewrite lookup_insert_ne by done; apply I5].
  - intros h' z. destruct (decide (h' = h)) as [->|Hne]; [rewrite lookup_insert_eq; intros [= <-] ?; apply (I6 h x); congruence|rewrite lookup_insert_ne by done; apply I6].
  - intros h' E. destruct (I7 h' E) as (z & Hz & ? & ?). destruct (decide (h' = h)) as [->|Hne]; [exists y; rewrite lookup_insert_eq; split; [done|]; split; congruence|exists z; by rewrite lookup_insert_ne].
  - intros h'. rewrite I8. do 2 f_equal. unfold closing_now. destruct (decide (h' = h)) as [->|Hne]; [by rewrite lookup_insert_eq, Hx|by rewrite lookup_insert_ne].
Qed.

(** Fields the invariant does not mention. *)
Lemma linv_other q cur l reqs stop : linv q cur l → linv q cur (mkL (handle_queue l) (active_handles l) reqs (idle_handles l) (closing_handles l) stop (llog l)).
Proof. by intros [I1 I2 I3 I4 I5 I6 I7 I8]. Qed.

Lemma linv_poll q cur l t : linv q cur l → linv q cur (lnote (LPoll t) l).
Proof. intros [I1 I2 I3 I4 I5 I6 I7 I8]. split; cbn; try done. intros h. rewrite closes_snoc, close_cbs_snoc, I8. cbn. lia. Qed.

(** The count after one handle changed. *)
Lemma counted q cur l h x y : linv q cur l → handle_queue l !! h = Some x →
  u32 (Z.of_nat (count (<[h := y]> (handle_queue l)))) = u32 (active_handles l + (Z.of_nat (b2n (keeps y)) - Z.of_nat (b2n (keeps x)))).
Proof. intros I Hx. rewrite (l_count _ _ _ I), u32_add. f_equal. pose proof (count_set _ _ _ y Hx). lia. Qed.

(** ** Calls keep it *)

Section Calls.
Context (q : list Z) (cur : option Z).

Lemma init_handle_ok h k l : linv q cur l → handle_queue l !! h = None → linv q cur (uv__handle_init h k l).
Proof.
  intros [I1 I2 I3 I4 I5 I6 I7 I8] Hn. split; cbn; [|done| | | | | |].
  - by rewrite count_new.
  - intros h'. rewrite I3. unfold close_due. destruct (decide (h' = h)) as [->|Hne]; [rewrite lookup_insert_eq, Hn; naive_solver|by rewrite lookup_insert_ne].
  - intros h'. rewrite I4. destruct (decide (h' = h)) as [->|Hne]; [rewrite lookup_insert_eq, Hn; naive_solver|by rewrite lookup_insert_ne].
  - intros h' z. destruct (decide (h' = h)) as [->|Hne]; [rewrite lookup_insert_eq; by intros [= <-]|rewrite lookup_insert_ne by done; apply I5].
  - intros h' z. destruct (decide (h' = h)) as [->|Hne]; [rewrite lookup_insert_eq; by intros [= <-]|rewrite lookup_insert_ne by done; apply I6].
  - intros h' E. destruct (I7 h' E) as (z & Hz & ? & ?). exists z. rewrite lookup_insert_ne; [done|]. intros ->. congruence.
  - intros h'. rewrite I8. do 2 f_equal. unfold closing_now. destruct (decide (h' = h)) as [->|Hne]; [by rewrite lookup_insert_eq, Hn|by rewrite lookup_insert_ne].
Qed.

Lemma start_handle_ok h x l : linv q cur l → handle_queue l !! h = Some x → UV_CLOSING x = false → ∃ l', start_handle h l = Val l' ∧ linv q cur l'.
Proof.
  intros I Hx Hc. unfold start_handle, uv_idle_start, uv__handle_start, get_handle. cbn. rewrite Hx. cbn. destruct (UV__HANDLE_ACTIVE x) eqn:Ea; [exists l; by destruct (h_kind x)|].
  assert (h ∉ idle_handles l) as Hni by (rewrite (l_idle _ _ _ I), Hx; intros (z & [= <-] & _ & ?); congruence).
  set (y := mkH (h_kind x) (UV_CLOSING x) (UV_CLOSED x) true (UV__HANDLE_REF x)).
  assert (∀ idle, (∀ h', h' ∈ idle ↔ if decide (h' = h) then h_kind y = KWatcher ∧ UV__HANDLE_ACTIVE y = true else h' ∈ idle_handles l) →
    linv q cur (mkL (<[h:=y]> (handle_queue l)) (if UV__HANDLE_REF x then u32 (active_handles l + 1) else active_handles l) (active_reqs l) idle (closing_handles l) (stop_flag l) (llog l))) as H.
  { intros idle Hi. apply (flags_inv _ _ _ _ x); [done..|cbn; by rewrite Hc| |done]. rewrite (counted q cur l h x) by done. unfold keeps. cbn. rewrite Ea. cbn. destruct (UV__HANDLE_REF x); [done|]. rewrite Z.add_0_r, (l_count _ _ _ I). symmetry. apply wrap_small, wrap_range. lia. }
  destruct (h_kind x) eqn:Ek.
  - eexists. split; [done|]. refine (eq_ind _ (linv q cur) (H (h :: idle_handles l) _) _ _); [|by destruct (UV__HANDLE_REF x)].
    intros h'. rewrite elem_of_cons. case_decide; cbn; naive_solver.
  - eexists. split; [done|]. refine (eq_ind _ (linv q cur) (H (idle_handles l) _) _ _); [|by destruct (UV__HANDLE_REF x)]. intros h'. case_decide; cbn; naive_solver.
Qed.

(** Stopping: the handle is inactive and in no queue. *)
Lemma stop_handle_ok h x l : linv q cur l → handle_queue l !! h = Some x → ∃ n idle,
  let y := mkH (h_kind x) (UV_CLOSING x) (UV_CLOSED x) false (UV__HANDLE_REF x) in
  (∀ c log, stop_handle h (mkL (<[h := mkH (h_kind x) c (UV_CLOSED x) (UV__HANDLE_ACTIVE x) (UV__HANDLE_REF x)]> (handle_queue l)) (active_handles l) (active_reqs l) (idle_handles l) (closing_handles l) (stop_flag l) log) =
     Val (mkL (<[h := mkH (h_kind x) c (UV_CLOSED x) false (UV__HANDLE_REF x)]> (handle_queue l)) n (active_reqs l) idle (closing_handles l) (stop_flag l) log)) ∧
  linv q cur (mkL (<[h := y]> (handle_queue l)) n (active_reqs l) idle (closing_handles l) (stop_flag l) (llog l)).
Proof.
  intros I Hx. exists (if UV__HANDLE_ACTIVE x && UV__HANDLE_REF x then u32 (active_handles l - 1) else active_handles l).
  exists (if UV__HANDLE_ACTIVE x then match h_kind x with KWatcher => filter (λ z, z ≠ h) (idle_handles l) | KOther => idle_handles l end else idle_handles l). cbv zeta. split.
  - intros c log. unfold stop_handle, uv_idle_stop, uv__handle_stop, get_handle. cbn. rewrite lookup_insert_eq. cbn. rewrite ?lookup_insert_eq.
    destruct (h_kind x), (UV__HANDLE_ACTIVE x) eqn:Ea, (UV__HANDLE_REF x); cbn; rewrite ?lookup_insert_eq; cbn; unfold set_handle, uv__active_handle_rm, set_active_handles, set_idle_handles; cbn; rewrite ?insert_insert_eq; done.
  - apply (flags_inv _ _ _ _ x); [done..| |].
    + rewrite (counted q cur l h x) by done. unfold keeps. cbn. destruct (UV__HANDLE_ACTIVE x && UV__HANDLE_REF x); [done|]. rewrite Z.add_0_r, (l_count _ _ _ I). symmetry. apply wrap_small, wrap_range. lia.
    + intros h'. pose proof (l_idle _ _ _ I h') as Hi. case_decide as Hd; cbn.
      * subst h'. rewrite Hx in Hi. split; [|by intros [_ ?]]. intros Hin. exfalso. destruct (UV__HANDLE_ACTIVE x) eqn:Ea; [destruct (h_kind x) eqn:Ek; [by apply list_elem_of_filter in Hin as [? _]|]|].
        all: apply Hi in Hin as (z & [= <-] & ? & ?); congruence.
      * destruct (UV__HANDLE_ACTIVE x), (h_kind x); try done. rewrite list_elem_of_filter. tauto.
Qed.

Lemma ref_ok h x l : linv q cur l → handle_queue l !! h = Some x → ∃ l', uv__handle_ref h l = Val l' ∧ linv q cur l'.
Proof.
  intros I Hx. unfold uv__handle_ref, get_handle. rewrite Hx. cbn. destruct (UV__HANDLE_REF x) eqn:Er; [by exists l|]. eexists. split; [done|].
  set (y := mkH (h_kind x) (UV_CLOSING x) (UV_CLOSED x) (UV__HANDLE_ACTIVE x) true). refine (eq_ind _ (linv q cur) (flags_inv q cur l h x y (if UV__HANDLE_ACTIVE x then u32 (active_handles l + 1) else active_handles l) (idle_handles l) I Hx eq_refl eq_refl eq_refl _ _ _) _ _); [| | |by destruct (UV__HANDLE_ACTIVE x)].
  - cbn. by apply (l_quiet _ _ _ I h).
  - rewrite (counted q cur l h x) by done. unfold keeps. cbn. rewrite Er, andb_false_r, andb_true_r. destruct (UV__HANDLE_ACTIVE x); [done|]. cbn. rewrite Z.add_0_r, (l_count _ _ _ I). symmetry. apply wrap_small, wrap_range. lia.
  - intros h'. case_decide as Hd; cbn; [subst h'; rewrite (l_idle _ _ _ I), Hx|]; naive_solver.
Qed.

Lemma unref_ok h x l : linv q cur l → handle_queue l !! h = Some x →
  ∃ l' y, uv__handle_unref h l = Val l' ∧ linv q cur l' ∧ handle_queue l' !! h = Some y ∧ UV_CLOSING y = UV_CLOSING x ∧ UV_CLOSED y = UV_CLOSED x ∧ UV__HANDLE_REF y = false ∧
    (∀ h', h' ≠ h → handle_queue l' !! h' = handle_queue l !! h') ∧ closing_handles l' = closing_handles l ∧ llog l' = llog l ∧ active_reqs l' = active_reqs l ∧ stop_flag l' = stop_flag l.
Proof.
  intros I Hx. unfold uv__handle_unref, get_handle. rewrite Hx. cbn. destruct (UV__HANDLE_REF x) eqn:Er; [|by exists l, x]. cbn. set (y := mkH (h_kind x) (UV_CLOSING x) (UV_CLOSED x) (UV__HANDLE_ACTIVE x) false).
  eexists _, y. split; [done|]. split; [|destruct (UV__HANDLE_ACTIVE x); cbn; rewrite lookup_insert_eq; (repeat (split; [done|])); (split; [intros h' ?; by rewrite lookup_insert_ne|done])].
  refine (eq_ind _ (linv q cur) (flags_inv q cur l h x y (if UV__HANDLE_ACTIVE x then u32 (active_handles l - 1) else active_handles l) (idle_handles l) I Hx eq_refl eq_refl eq_refl _ _ _) _ _); [| | |by destruct (UV__HANDLE_ACTIVE x)].
  - cbn. by apply (l_quiet _ _ _ I h).
  - rewrite (counted q cur l h x) by done. unfold keeps. cbn. rewrite Er, andb_false_r, andb_true_r. destruct (UV__HANDLE_ACTIVE x); [done|]. cbn. rewrite Z.add_0_r, (l_count _ _ _ I). symmetry. apply wrap_small, wrap_range. lia.
  - intros h'. case_decide as Hd; cbn; [subst h'; rewrite (l_idle _ _ _ I), Hx|]; naive_solver.
Qed.

(** Marking an inactive handle as closing and putting it on the list. *)
Lemma mark_closing h x l : linv q cur l → handle_queue l !! h = Some x → UV_CLOSING x = false → UV__HANDLE_ACTIVE x = false →
  linv q cur (mkL (<[h := mkH (h_kind x) true (UV_CLOSED x) false (UV__HANDLE_REF x)]> (handle_queue l)) (active_handles l) (active_reqs l) (idle_handles l) (h :: closing_handles l) (stop_flag l) (llog l ++ [LClose h])).
Proof.
  intros [I1 I2 I3 I4 I5 I6 I7 I8] Hx Hc Ha. assert (UV_CLOSED x = false) as Hd.
  { destruct (UV_CLOSED x) eqn:E; [|done]. destruct (I7 h (I6 h x Hx E)) as (z & Hz & ? & _). rewrite Hx in Hz. injection Hz as <-. congruence. }
  assert (¬ close_due (handle_queue l) h) as Hnd by (intros (z & Hz & ? & _); rewrite Hx in Hz; injection Hz as <-; congruence). split; cbn.
  - rewrite I1. do 2 f_equal. pose proof (count_set _ _ _ (mkH (h_kind x) true (UV_CLOSED x) false (UV__HANDLE_REF x)) Hx) as Hs. unfold keeps in Hs. rewrite Ha in Hs. cbn in Hs. lia.
  - apply NoDup_cons. split; [|done]. by rewrite I3.
  - intros h'. rewrite elem_of_cons, I3. unfold close_due. destruct (decide (h' = h)) as [->|Hne].
    + rewrite lookup_insert_eq. split; [intros _; eexists; split; [done|]; by split|by left].
    + rewrite lookup_insert_ne by done. split; [by intros [?|?]|by right].
  - intros h'. rewrite I4. destruct (decide (h' = h)) as [->|Hne]; [|by rewrite lookup_insert_ne]. rewrite lookup_insert_eq, Hx. split; intros (z & [= <-] & ? & ?); [congruence|done].
  - intros h' z. destruct (decide (h' = h)) as [->|Hne]; [rewrite lookup_insert_eq; by intros [= <-]|rewrite lookup_insert_ne by done; apply I5].
  - intros h' z. destruct (decide (h' = h)) as [->|Hne]; [rewrite lookup_insert_eq; intros [= <-]; cbn; congruence|rewrite lookup_insert_ne by done; apply I6].
  - intros h' E. destruct (I7 h' E) as (z & Hz & ? & ?). exists z. rewrite lookup_insert_ne; [done|]. intros ->. congruence.
  - intros h'. rewrite closes_snoc, close_cbs_snoc, I8. unfold closing_now. cbn. destruct (decide (h' = h)) as [->|Hne].
    + rewrite Z.eqb_refl, lookup_insert_eq, Hx, Hc. cbn. lia.
    + rewrite lookup_insert_ne by done. rewrite (proj2 (Z.eqb_neq h h')) by done. cbn. lia.
Qed.

Lemma close_handle_ok h x l : linv q cur l → handle_queue l !! h = Some x → UV_CLOSING x = false → ∃ l', uv_close h l = Val l' ∧ linv q cur l'.
Proof.
  intros I Hx Hc. assert (UV_CLOSED x = false) as Hd.
  { destruct (UV_CLOSED x) eqn:E; [|done]. destruct (l_cur _ _ _ I h (l_closed _ _ _ I h x Hx E)) as (z & Hz & ? & _). rewrite Hx in Hz. injection Hz as <-. congruence. }
  destruct (stop_handle_ok h x l I Hx) as (n & idle & Hs & I'). unfold uv_close, get_handle. rewrite Hx, bind_Val, Hc, Hd. cbn [orb negb require]. rewrite bind_Val. unfold set_handle, lnote. cbn [handle_queue active_handles active_reqs idle_handles closing_handles stop_flag llog].
  specialize (Hs true (llog l ++ [LClose h])). rewrite Hd in Hs. rewrite Hs, bind_Val. unfold uv__make_close_pending, get_handle. cbn [handle_queue]. rewrite lookup_insert_eq, bind_Val. cbn [UV_CLOSING UV_CLOSED require negb]. rewrite !bind_Val. eexists. split; [done|].
  pose proof (mark_closing h _ _ I' (lookup_insert_eq _ _ _) Hc eq_refl) as M. cbn in M. rewrite insert_insert_eq, Hd in M. exact M.
Qed.

Lemma loop_call_ok c l : linv q cur l → ∃ l', do_call c l = Val l' ∧ linv q cur l'.
Proof.
  intros I. unfold do_call. destruct (call_allowed c l) eqn:Ea; cbn [negb]; [|by exists l]. destruct c as [h k|h|h|h|h|h|r|r|]; cbn in Ea.
  - apply bool_decide_eq_true in Ea. eexists. split; [done|]. by apply init_handle_ok.
  - destruct (handle_queue l !! h) as [x|] eqn:Hx; [|done]. apply negb_true_iff in Ea. by apply (start_handle_ok h x).
  - destruct (handle_queue l !! h) as [x|] eqn:Hx; [|done]. destruct (stop_handle_ok h x l I Hx) as (n & idle & Hs & I'). specialize (Hs (UV_CLOSING x) (llog l)).
    replace (<[h:=mkH (h_kind x) (UV_CLOSING x) (UV_CLOSED x) (UV__HANDLE_ACTIVE x) (UV__HANDLE_REF x)]> (handle_queue l)) with (handle_queue l) in Hs by (symmetry; apply insert_id; rewrite Hx; by destruct x).
    eexists. split; [|exact I']. rewrite <- Hs. by destruct l.
  - apply bool_decide_eq_true in Ea as [x Hx]. by apply (ref_ok h x).
  - apply bool_decide_eq_true in Ea as [x Hx]. destruct (unref_ok h x l I Hx) as (l' & y & E & I' & _). by exists l'.
  - destruct (handle_queue l !! h) as [x|] eqn:Hx; [|done]. apply negb_true_iff in Ea. by apply (close_handle_ok h x).
  - eexists. split; [done|]. by apply linv_other.
  - apply bool_decide_eq_true in Ea. unfold uv__req_unregister. rewrite require_true; [|apply negb_true_iff, bool_decide_eq_false; intros E; rewrite E in Ea; by apply not_elem_of_nil in Ea]. eexists. split; [done|]. by apply linv_other.
  - eexists. split; [done|]. by apply linv_other.
Qed.

Lemma loop_calls_ok cs : ∀ l, linv q cur l → ∃ l', do_calls cs l = Val l' ∧ linv q cur l'.
Proof. induction cs as [|c cs IH]; intros l I; [by exists l|]. cbn [do_calls]. destruct (loop_call_ok c l I) as (l' & -> & I'). by apply IH. Qed.
End Calls.

(** ** Closing *)

Lemma mark_closed q h x l : linv (h :: q) None l → handle_queue l !! h = Some x → UV_CLOSING x = true →
  linv q (Some h) (set_handle h (mkH (h_kind x) true true (UV__HANDLE_ACTIVE x) (UV__HANDLE_REF x)) l).
Proof.
  intros [I1 I2 I3 I4 I5 I6 I7 I8] Hx Hc. rewrite <- Permutation_middle in I2. apply NoDup_cons in I2 as [Hn I2]. split; cbn.
  - rewrite I1. do 2 f_equal. pose proof (count_set _ _ _ (mkH (h_kind x) true true (UV__HANDLE_ACTIVE x) (UV__HANDLE_REF x)) Hx) as Hs. unfold keeps in Hs. cbn in Hs. lia.
  - done.
  - intros h'. specialize (I3 h'). rewrite <- Permutation_middle, elem_of_cons in I3. unfold close_due in *. destruct (decide (h' = h)) as [->|Hne].
    + rewrite lookup_insert_eq. split; [done|]. by intros (z & [= <-] & _ & ?).
    + rewrite lookup_insert_ne by done. rewrite <- I3. split; [by right|by intros [?|?]].
  - intros h'. rewrite I4. destruct (decide (h' = h)) as [->|Hne]; [|by rewrite lookup_insert_ne]. rewrite lookup_insert_eq, Hx. split; intros (z & [= <-] & ? & ?); eexists; (split; [done|]); done.
  - intros h' z. destruct (decide (h' = h)) as [->|Hne]; [rewrite lookup_insert_eq; intros [= <-] _; exact (I5 h x Hx Hc)|rewrite lookup_insert_ne by done; apply I5].
  - intros h' z. destruct (decide (h' = h)) as [->|Hne]; [done|rewrite lookup_insert_ne by done; intros Hz Hd]. by specialize (I6 h' z Hz Hd).
  - intros h' [= <-]. rewrite lookup_insert_eq. by eexists.
  - intros h'. rewrite I8. do 2 f_equal. unfold closing_now. destruct (decide (h' = h)) as [->|Hne]; [by rewrite lookup_insert_eq, Hx|by rewrite lookup_insert_ne].
Qed.

Lemma drop_closed q h x l : linv q (Some h) l → handle_queue l !! h = Some x → UV_CLOSING x = true → UV_CLOSED x = true →
  linv q None (lnote (LCloseCb h) (drop_handle h l)).
Proof.
  intros [I1 I2 I3 I4 I5 I6 I7 I8] Hx Hc Hd. split; cbn; [|done| | | | |done|].
  - rewrite I1, (count_split _ h x Hx). unfold keeps. rewrite (I5 h x Hx Hc). done.
  - intros h'. rewrite I3. unfold close_due. destruct (decide (h' = h)) as [->|Hne]; [|by rewrite lookup_delete_ne]. rewrite lookup_delete_eq, Hx. split; [intros (z & [= <-] & _ & ?); congruence|by intros (z & ? & _)].
  - intros h'. rewrite I4. destruct (decide (h' = h)) as [->|Hne]; [|by rewrite lookup_delete_ne]. rewrite lookup_delete_eq, Hx. split; [intros (z & [= <-] & _ & Ha); rewrite (I5 h x Hx Hc) in Ha; done|by intros (z & ? & _)].
  - intros h' z. destruct (decide (h' = h)) as [->|Hne]; [by rewrite lookup_delete_eq|rewrite lookup_delete_ne by done; apply I5].
  - intros h' z. destruct (decide (h' = h)) as [->|Hne]; [by rewrite lookup_delete_eq|rewrite lookup_delete_ne by done]. intros Hz Hzd. specialize (I6 h' z Hz Hzd). by injection I6.
  - intros h'. rewrite closes_snoc, close_cbs_snoc, I8. unfold closing_now. cbn. destruct (decide (h' = h)) as [->|Hne].
    + rewrite Z.eqb_refl, lookup_delete_eq, Hx, Hc. cbn. lia.
    + rewrite lookup_delete_ne by done. rewrite (proj2 (Z.eqb_neq h h')) by done. cbn. lia.
Qed.

Lemma finish_handle_ok e q h l : linv (h :: q) None l → ∃ l', uv__finish_close e h l = Val l' ∧ linv q None l'.
Proof.
  intros I. destruct (proj1 (l_due _ _ _ I h)) as (x & Hx & Hc & Hd); [apply elem_of_app; right; by left|]. unfold uv__finish_close, get_handle. rewrite Hx, bind_Val, Hc, Hd. cbn [require negb]. rewrite !bind_Val.
  destruct (loop_calls_ok q (Some h) (e_destroy e h) _ (mark_closed q h x l I Hx Hc)) as (l1 & E1 & I1). rewrite E1, bind_Val. destruct (l_cur _ _ _ I1 h eq_refl) as (x1 & Hx1 & Hc1 & Hd1).
  destruct (unref_ok q (Some h) h x1 l1 I1 Hx1) as (l2 & y & E2 & I2 & Hy & Ey1 & Ey2 & _). rewrite E2, bind_Val. apply loop_calls_ok. apply (drop_closed q h y); [done|done|congruence|congruence].
Qed.

Lemma run_closing_ok e p : ∀ l, linv p None l → ∃ l', run_closing e p l = Val l' ∧ linv [] None l'.
Proof. induction p as [|h p IH]; intros l I; [by exists l|]. cbn [run_closing]. destruct (finish_handle_ok e p h l I) as (l' & -> & I'). by apply IH. Qed.

Lemma closing_ok e l : linv [] None l → ∃ l', uv__run_closing_handles e l = Val l' ∧ linv [] None l'.
Proof.
  intros [I1 I2 I3 I4 I5 I6 I7 I8]. apply run_closing_ok. rewrite app_nil_r in I2. split; cbn; try done. intros h. rewrite <- I3, app_nil_r. done.
Qed.

Lemma phases_ok mode e l : linv [] None l → ∃ l', phases mode e l = Val l' ∧ linv [] None l'.
Proof.
  intros I. unfold phases. destruct (loop_calls_ok [] None (e_before e) l I) as (l1 & -> & I1). rewrite bind_Val. set (t := match mode with UV_RUN_NOWAIT => 0 | _ => _ end).
  destruct (loop_calls_ok [] None (e_poll e) _ (linv_poll [] None l1 t I1)) as (l2 & -> & I2). rewrite bind_Val. by apply loop_calls_ok.
Qed.

Lemma iterate_ok mode e l : linv [] None l → ∃ l', iterate mode e l = Val l' ∧ linv [] None l'.
Proof. intros I. unfold iterate. destruct (phases_ok mode e l I) as (l1 & -> & I1). rewrite bind_Val. by apply closing_ok. Qed.

Lemma run_loop_ok mode es : ∀ r l, linv [] None l → ∃ l' r' b, run_loop mode es r l = Val (l', r', b) ∧ linv [] None l' ∧
  (r = uv__loop_alive l → b = true → mode = UV_RUN_DEFAULT → ∃ l0, l' = set_stop_flag false l0 ∧ r' = uv__loop_alive l0 ∧ (r' = false ∨ stop_flag l0 = true)).
Proof.
  induction es as [|e es IH]; intros r l I; cbn [run_loop]; destruct (r && negb (stop_flag l)) eqn:Er.
  - exists l, r, false. by split.
  - eexists _, r, true. split; [done|]. split; [by apply linv_other|]. intros -> _ _. exists l. split; [done|]. split; [done|]. destruct (uv__loop_alive l); [right; by destruct (stop_flag l)|by left].
  - destruct (iterate_ok mode e l I) as (l1 & -> & I1). rewrite bind_Val. destruct mode; [|eexists _, _, true; split; [done|]; split; [by apply linv_other|done]..].
    destruct (IH (uv__loop_alive l1) l1 I1) as (l' & r' & b & E & I' & Hr). exists l', r', b. split; [done|]. split; [done|]. intros _ Hb Hm. by apply Hr.
  - eexists _, r, true. split; [done|]. split; [by apply linv_other|]. intros -> _ _. exists l. split; [done|]. split; [done|]. destruct (uv__loop_alive l); [right; by destruct (stop_flag l)|by left].
Qed.

(** ** Using a loop *)

(** Calls made outside the loop, and runs of it. *)
Inductive loop_use := UCalls (cs : list loop_call) | URun (mode : uv_run_mode) (es : list turn_env).

Definition use_loop (u : loop_use) (l : uv_loop_t) : exec uv_loop_t :=
  match u with
  | UCalls cs => do_calls cs l
  | URun mode es => '(l, _, _) ← uv_run mode es l; Val l
  end.

Fixpoint use_all (us : list loop_use) (l : uv_loop_t) : exec uv_loop_t :=
  match us with
  | [] => Val l
  | u :: us => l ← use_loop u l; use_all us l
  end.

Lemma use_all_ok us : ∀ l, linv [] None l → ∃ l', use_all us l = Val l' ∧ linv [] None l'.
Proof.
  induction us as [|u us IH]; intros l I; [by exists l|]. cbn [use_all]. assert (∃ l', use_loop u l = Val l' ∧ linv [] None l') as (l' & -> & I'); [|by apply IH].
  destruct u as [cs|mode es]; cbn [use_loop]; [by apply loop_calls_ok|]. destruct (run_loop_ok mode es (uv__loop_alive l) l I) as (l' & r' & b & E & I' & _). unfold uv_run. rewrite E. by exists l'.
Qed.

Lemma new_loop_ok : linv [] None new_loop.
Proof.
  split; cbn; try done; [constructor|intros h; split; [by intros ?%not_elem_of_nil|by intros (x & Hx & _); rewrite lookup_empty in Hx]|intros h; split; [by intros ?%not_elem_of_nil|by intros (x & Hx & _); rewrite lookup_empty in Hx]].
Qed.

Lemma use_new us l : use_all us new_loop = Val l → linv [] None l.
Proof. intros E. destruct (use_all_ok us new_loop new_loop_ok) as (l' & E' & I). rewrite E in E'. by injection E' as <-. Qed.

Lemma count_le m : (count m ≤ size m)%nat.
Proof.
  induction m as [|h x m Hm IH] using map_ind; [done|]. rewrite count_new, map_size_insert_None by done. destruct (keeps x); cbn; lia.
Qed.

Lemma none_keeps q cur l : linv q cur l → Z.of_nat (size (handle_queue l)) < 2 ^ 32 → uv__has_active_handles l = false ↔ ∀ h x, handle_queue l !! h = Some x → keeps x = false.
Proof.
  intros I Hs. unfold uv__has_active_handles. rewrite (l_count _ _ _ I). pose proof (count_le (handle_queue l)). rewrite wrap_small by (unfold is_u; lia). rewrite Z.ltb_ge. split.
  - intros Hc h x Hx. rewrite (count_split _ h x Hx) in Hc. destruct (keeps x); [cbn in Hc; lia|done].
  - intros Hk. assert (count (handle_queue l) = 0%nat) as ->; [|lia]. clear -Hk. revert Hk. generalize (handle_queue l). intros m. induction m as [|h x m Hm IH] using map_ind; [done|]. intros Hk.
    rewrite count_new by done. rewrite (Hk h x) by apply lookup_insert_eq. cbn. apply IH. intros h' x' Hx'. apply (Hk h'). rewrite lookup_insert_ne; [done|]. intros ->. congruence.
Qed.

(** However the loop is used: every assertion on handles holds,
    [active_handles] counts exactly the active handles that are referenced, modulo its
    width, the list of closing handles has every handle that waits for its close callback
    once, and every [uv_close] has been answered by exactly one close callback or the
    handle is still closing. *)
Theorem loop_bookkeeping us : ∃ l, use_all us new_loop = Val l ∧
  active_handles l = u32 (Z.of_nat (count (handle_queue l))) ∧ NoDup (closing_handles l) ∧
  (∀ h, h ∈ closing_handles l ↔ close_due (handle_queue l) h) ∧
  ∀ h, closes h (llog l) = (close_cbs h (llog l) + b2n (closing_now (handle_queue l) h))%nat.
Proof.
  destruct (use_all_ok us new_loop new_loop_ok) as (l & E & [I1 I2 I3 I4 I5 I6 I7 I8]). exists l. split; [done|]. rewrite app_nil_r in I2. split; [done|]. split; [done|]. split; [|done]. intros h. rewrite <- I3. by rewrite app_nil_r.
Qed.

(** When [uv_run] with UV_RUN_DEFAULT returns 0, no handle or request keeps
    the loop alive and every handle that was closed has had its close callback; when it
    returns another value, [uv_stop] was called. The stop flag is reset in any case. *)
Theorem uv_run_result us l es l' r : use_all us new_loop = Val l → uv_run UV_RUN_DEFAULT es l = Val (l', r, true) → Z.of_nat (size (handle_queue l')) < 2 ^ 32 →
  stop_flag l' = false ∧
  if r then ∃ l0, stop_flag l0 = true ∧ l' = set_stop_flag false l0
  else (∀ h x, handle_queue l' !! h = Some x → keeps x = false) ∧ active_reqs l' = [] ∧ ∀ h, closes h (llog l') = close_cbs h (llog l').
Proof.
  intros Eu E Hs. pose proof (use_new us l Eu) as I. destruct (run_loop_ok UV_RUN_DEFAULT es (uv__loop_alive l) l I) as (l1 & r1 & b1 & E1 & I1 & Hr). unfold uv_run in E. rewrite E in E1. injection E1 as <- <- <-.
  destruct (Hr eq_refl eq_refl eq_refl) as (l0 & -> & -> & Hst). split; [done|]. destruct (uv__loop_alive l0) eqn:Ea; [exists l0; split; [by destruct Hst|done]|]. unfold uv__loop_alive in Ea. apply orb_false_iff in Ea as [Ea Ec]. apply orb_false_iff in Ea as [Ea Eq].
  split; [by apply (none_keeps [] None)|]. split; [unfold uv__has_active_reqs in Eq; by apply negb_false_iff, bool_decide_eq_true in Eq|]. intros h. rewrite (l_log _ _ _ I1). unfold closing_now. cbn.
  destruct (handle_queue l0 !! h) as [x|] eqn:Hx; [|cbn; lia]. destruct (UV_CLOSING x) eqn:Hc; [|cbn; lia]. exfalso. apply negb_false_iff, bool_decide_eq_true in Ec. destruct (UV_CLOSED x) eqn:Hd.
  - by specialize (l_closed _ _ _ I1 h x Hx Hd).
  - assert (h ∈ closing_handles l0 ++ []) as Hin by (apply (l_due _ _ _ I1); by exists x). rewrite Ec in Hin. by apply not_elem_of_nil in Hin.
Qed.

(** *** The end of a loop *)

Lemma quiet_closing e p : (∀ h, e_destroy e h = [] ∧ e_close_cb e h = []) → ∀ l, linv p None l →
  ∃ l', run_closing e p l = Val l' ∧ linv [] None l' ∧ closing_handles l' = closing_handles l ∧ active_reqs l' = active_reqs l ∧ stop_flag l' = stop_flag l ∧
    llog l' = llog l ++ map LCloseCb p ∧ ∀ h x, handle_queue l' !! h = Some x → handle_queue l !! h = Some x.
Proof.
  intros He. induction p as [|h p IH]; intros l I; [exists l; by rewrite app_nil_r|]. destruct (proj1 (l_due _ _ _ I h)) as (x & Hx & Hc & Hd); [apply elem_of_app; right; by left|]. destruct (He h) as [He1 He2].
  cbn [run_closing]. unfold uv__finish_close, get_handle. rewrite Hx, bind_Val, Hc, Hd, He1, He2. cbn [require negb do_calls]. rewrite !bind_Val.
  pose proof (mark_closed p h x l I Hx Hc) as I1. set (l1 := set_handle h _ l) in *. assert (handle_queue l1 !! h = Some (mkH (h_kind x) true true (UV__HANDLE_ACTIVE x) (UV__HANDLE_REF x))) as Hx1 by apply lookup_insert_eq.
  destruct (unref_ok p (Some h) h _ l1 I1 Hx1) as (l2 & y & E2 & I2 & Hy & Ey1 & Ey2 & _ & Ho & F1 & F2 & F3 & F4). rewrite E2, !bind_Val.
  destruct (IH _ (drop_closed p h y l2 I2 Hy ltac:(done) ltac:(done))) as (l' & E' & I' & G1 & G2 & G3 & G4 & G5). exists l'. split; [done|]. split; [done|]. cbn in G1, G2, G3, G4, G5. rewrite G1, G2, G3, G4, F1, F2, F3, F4. do 3 (split; [done|]). split; [cbn; by rewrite <- app_assoc|].
  intros h' z Hz. specialize (G5 h' z Hz). destruct (decide (h' = h)) as [->|Hne]; [by rewrite lookup_delete_eq in G5|]. rewrite lookup_delete_ne in G5 by done. rewrite Ho in G5 by done. cbn in G5. by rewrite lookup_insert_ne in G5.
Qed.


(** ** Witnesses *)

Definition demo_use : list loop_use := [UCalls [CInit 1 KOther; CStart 1; CInit 2 KOther; CStart 2; CUnref 2]].
Definition demo_loop : uv_loop_t := Eval vm_compute in match use_all demo_use new_loop with Val l => l | _ => new_loop end.
Definition demo_turns : list turn_env := [quiet_env [] []; quiet_env [] [CClose 1]; quiet_env [] []].
Definition demo_end : uv_loop_t := Eval vm_compute in match uv_run UV_RUN_DEFAULT demo_turns demo_loop with Val (l, _, _) => l | _ => new_loop end.

Lemma uv_run_result_witness : closes 1 (llog demo_end) = 1%nat ∧ closes 1 (llog demo_end) = close_cbs 1 (llog demo_end).
Proof.
  split; [reflexivity|]. destruct (uv_run_result demo_use demo_loop demo_turns demo_end false eq_refl eq_refl eq_refl) as (_ & _ & _ & H). apply H.
Defined.

Definition demo_last : uv_loop_t :=
  Eval vm_compute in match phases UV_RUN_DEFAULT (quiet_env [] [CClose 1; CClose 2]) demo_loop with Val l => l | _ => new_loop end.

