(* ===== verification/Protocol.v ===== *)
(** * Message bodies and routes ([src/src/protocol.c], [msg-json.c], [msg-pb.c],
    the dictionary of [pkg-handshake.c])

    The default codecs of a client: a body is protobuf when the schema of its
    route is known, JSON text otherwise; a route is a dictionary code when the
    dictionary has one. The dictionaries are those of the client; [malloc] says
    which allocations succeed. *)

From S2P Require Import Prelude Message Float Utf8 Jansson JsonDump JsonLoad JsonRoundtrip PbWire PbEncode PbDecode PbRoundtrip.
Local Open Scope Z_scope.

(** The fields of [pc_client_t] the codecs read. *)
Record codec_ctx := mkCtx {
  route_to_code : option json_t;
  code_to_route : option json_t;
  server_protos : option json_t;
  client_protos : option json_t
}.

Record pc_msg_t := mkMsg { msg_id : Z; route : option string; msg : option json_t }.

(** ** The route dictionary *)

(** [json_object_foreach(dict, key, value)] of the handshake response. *)
Definition setup_dict (dict : json_t) : json_t :=
  foldl (λ o kv,
      let code_str := sprintf_u (Z.land (s32 (json_integer_value (Some (snd kv)))) 0xff) in
      json_object_set_new o code_str (json_string (fst kv)))
    json_object (json_object_iter dict).

Definition pc__resolve_dictionary (c : codec_ctx) (code : Z) : option string :=
  json_string_value (json_object_get (code_to_route c) (sprintf_u (Z.land code 0xff))).

Section Codec.
Context (malloc : Z → bool).

(** [None] is [buf.len = -1]. *)
Definition pc__json_encode (msg : option json_t) : exec (option bytes) := json_dumps malloc msg JSON_COMPACT.

Definition pc__json_decode (data : bytes) (offset len : Z) : exec (option json_t) :=
  bs ← memcpy_from data offset (len - offset);
  json_loadb malloc bs 0.

Definition PC_PB_EVAL_FACTOR : Z := 2.

(** [None] is [buf.len = -1]; a failure before or in [pc_pb_encode] leaves the
    zero length the buffer was set to. *)
Definition pc__pb_encode (fuel : nat) (junk : Z) (msg gprotos pb_def : option json_t) : exec (option bytes) :=
  json_buf ← pc__json_encode msg;
  match json_buf with
  | None => Val (Some [])
  | Some json_buf =>
      let eval_size := u64 (zlen json_buf * PC_PB_EVAL_FACTOR) in
      if negb (malloc eval_size) then Val None
      else
        r ← pc_pb_encode fuel (malloc_block junk eval_size) eval_size gprotos pb_def (default JNull msg);
        match r with
        | None => Val (Some [])
        | Some (written, base) => bs ← memcpy_from base 0 written; Val (Some bs)
        end
  end.

Definition pc__pb_decode (fuel : nat) (data : bytes) (offset len : Z)
  (gprotos pb_def : option json_t) : exec (option json_t) :=
  pc_pb_decode malloc fuel (drop (Z.to_nat offset) data) len gprotos pb_def json_object.

(** ** Parsing *)

Definition sizeof_msg : Z := 24.

(** [lookup] is [pc_map_get(client->requests, id_str)], for its route. *)
Definition pc__default_msg_parse_cb (fuel : nat) (c : codec_ctx)
  (lookup : string → exec (option string)) (data : bytes) (len : Z) : exec (option pc_msg_t) :=
  r ← pc_msg_decode malloc data len;
  match r with
  | None => Val None
  | Some raw =>
      if negb (malloc sizeof_msg) then Val None
      else
        rt ← (if PC_MSG_HAS_ROUTE (raw_type raw) then
                let origin_route :=
                  if negb (compressRoute raw =? 0) then
                    match raw_route raw with
                    | RCode code => Val (pc__resolve_dictionary c code)
                    | _ => UB
                    end
                  else
                    match raw_route raw with
                    | RStr str => Val (Some (string_of (until_nul str)))
                    | RNull => UB
                    | RCode _ => UB
                    end in
                o ← origin_route;
                match o with
                | None => Val None
                | Some origin_route =>
                    if negb (malloc (strlen origin_route + 1)) then Val None
                    else Val (Some (Some origin_route, origin_route))
                end
              else
                req ← lookup (sprintf_u (raw_id raw));
                match req with
                | None => Val None
                | Some req_route => Val (Some (None, req_route))
                end);
        match rt with
        | None => Val None
        | Some (msg_route, route_str) =>
            let body := raw_body raw in
            if 0 <? zlen body then
              m ← match json_object_get (server_protos c) route_str with
                  | Some pb_def => pc__pb_decode fuel body 0 (zlen body) (server_protos c) (Some pb_def)
                  | None => pc__json_decode body 0 (zlen body)
                  end;
              match m with
              | None => Val None
              | Some m => Val (Some (mkMsg (raw_id raw) msg_route (Some m)))
              end
            else Val (Some (mkMsg (raw_id raw) msg_route None))
        end
  end.

(** ** Encoding *)

Definition pc__default_msg_encode_cb (fuel : nat) (malloc_msg : bool) (junk : Z) (c : codec_ctx)
  (reqId : Z) (route : string) (msg : option json_t) : exec (option bytes) :=
  let route_code :=
    match json_object_get (route_to_code c) route with
    | Some code => s32 (json_integer_value (Some code))
    | None => 0
    end in
  body ← match json_object_get (client_protos c) route with
         | Some pb_def => pc__pb_encode fuel junk msg (client_protos c) (Some pb_def)
         | None => pc__json_encode msg
         end;
  match body with
  | None => Val None
  | Some body_buf =>
      let type := if reqId =? 0 then PC_MSG_NOTIFY else PC_MSG_REQUEST in
      if route_code >? 0 then pc_msg_encode_code malloc_msg junk reqId type route_code body_buf
      else pc_msg_encode_route malloc_msg junk reqId type (bytes_of route) body_buf
  end.
End Codec.

(** ** The dictionary *)

(** The key of a code in [code_to_route]. *)
Definition code_key (v : json_t) : string := sprintf_u (Z.land (s32 (json_integer_value (Some v))) 0xff).

Lemma pretty_char_ascii x : 0 ≤ char_val (pretty_N_char x) < 128.
Proof. by destruct x as [|[[[[]|[]|]|[[]|[]|]|]|[[[]|[]|]|[[]|[]|]|]|]]. Qed.

(** Decimal numbers are ASCII. *)
Lemma sprintf_u_utf8 n : utf8_check_string (sprintf_u n) = true.
Proof.
  apply utf8_ascii. unfold sprintf_u, pretty, pretty_N. case_decide as E.
  { repeat constructor; done. }
  generalize (Z.to_N n) as x. intros x.
  assert (∀ s, Forall (λ b, 0 ≤ b < 128) (bytes_of s) →
    Forall (λ b, 0 ≤ b < 128) (bytes_of (pretty_N_go x s))) as H; [|apply H; constructor].
  induction (N.lt_wf_0 x) as [x _ IH]. intros s Hs.
  destruct (decide (x = 0%N)) as [->|Hx]; [by rewrite pretty_N_go_0|].
  rewrite pretty_N_go_step by lia. apply IH; [apply N.div_lt; lia|].
  constructor; [apply pretty_char_ascii|done].
Qed.

Lemma dict_step h r v :
  utf8_check_string r = true →
  json_object_set_new (JObject h) (code_key v) (json_string r) =
    JObject (hashtable_set h (code_key v) (JString r)).
Proof.
  intros Hr. unfold json_string, json_object_set_new. rewrite Hr. unfold code_key at 1.
  by rewrite sprintf_u_utf8.
Qed.

(** The object the loop builds, key by key. *)
Lemma setup_dict_fold kvs h k :
  ht_wf h → Forall (λ kv, utf8_check_string kv.1 = true) kvs →
  ∃ h', foldl (λ o kv, json_object_set_new o (code_key (snd kv)) (json_string (fst kv))) (JObject h) kvs
      = JObject h' ∧ ht_wf h' ∧
    (ht_map h' !! k = ht_map h !! k ∨ ∃ kv, kv ∈ kvs ∧ code_key kv.2 = k ∧ ht_map h' !! k = Some (JString kv.1)) ∧
    (∀ kv, kv ∈ kvs → code_key kv.2 = k → ∃ kv', kv' ∈ kvs ∧ code_key kv'.2 = k ∧ ht_map h' !! k = Some (JString kv'.1)).
Proof.
  revert h. induction kvs as [|[r v] kvs IH]; intros h Hw Hu.
  - exists h. split; [done|]. split; [done|]. split; [by left|]. by intros kv ?%not_elem_of_nil.
  - apply Forall_cons_1 in Hu as [Hr Hu]. cbn [foldl fst snd] in *. rewrite dict_step by done.
    destruct (set_map h (code_key v) (JString r) Hw) as [Hw1 Hm1].
    destruct (IH _ Hw1 Hu) as (h' & E & Hw' & Hk & Hin). exists h'. split; [done|]. split; [done|].
    rewrite Hm1 in Hk. split.
    + destruct Hk as [Hk|(kv & H1 & H2 & H3)].
      * destruct (decide (code_key v = k)) as [<-|Hne].
        -- right. exists (r, v). rewrite lookup_insert_eq in Hk. split; [set_solver|done].
        -- left. by rewrite lookup_insert_ne in Hk.
      * right. exists kv. split; [set_solver|done].
    + intros kv Hkv Hc. destruct (decide (Exists (λ kv, code_key kv.2 = k) kvs)) as [He|Hno]; rewrite Exists_exists in *.
      { destruct He as (kv' & H1 & H2). destruct (Hin kv' H1 H2) as (kv'' & ? & ? & ?). exists kv''. split; [set_solver|done]. }
      apply elem_of_cons in Hkv as [->|Hkv]; [|destruct Hno; eauto]. cbn [snd] in Hc.
      destruct Hk as [Hk|(kv' & H1 & H2 & _)]; [|destruct Hno; eauto].
      subst k. rewrite lookup_insert_eq in Hk. exists (r, v). split; [set_solver|done].
Qed.

(** [code_to_route] of a dictionary, at a code. *)
Lemma resolve_setup dict h c code :
  dict = JObject h → Forall (λ kv, utf8_check_string kv.1 = true) (ht_list h) →
  code_to_route c = Some (setup_dict dict) →
  (∃ kv, kv ∈ ht_list h ∧ code_key kv.2 = sprintf_u (Z.land code 0xff)) →
  ∃ kv, kv ∈ ht_list h ∧ code_key kv.2 = sprintf_u (Z.land code 0xff) ∧
    pc__resolve_dictionary c code = Some kv.1.
Proof.
  intros -> Hu Hc (kv & Hin & Hk). unfold pc__resolve_dictionary. rewrite Hc.
  destruct (setup_dict_fold (ht_list h) hashtable_init (sprintf_u (Z.land code 0xff)))
    as (h' & E & Hw & _ & Hex); [apply init_map|done|].
  destruct (Hex kv Hin Hk) as (kv' & Hin' & Hk' & Hl). exists kv'. split; [done|]. split; [done|].
  unfold setup_dict, json_object. cbn [json_object_iter].
  change (foldl _ (JObject hashtable_init) (ht_list h)) with
    (foldl (λ o kv, json_object_set_new o (code_key (snd kv)) (json_string (fst kv))) (JObject hashtable_init) (ht_list h)).
  rewrite E. cbn [json_object_get]. by rewrite get_map, Hl.
Qed.

Lemma code_key_inj v n :
  code_key v = sprintf_u (Z.land n 0xff) → Z.land (s32 (json_integer_value (Some v))) 0xff = Z.land n 0xff.
Proof.
  unfold code_key. apply sprintf_u_inj.
  all: change 0xff with (Z.ones 8); rewrite Z.land_ones by lia; apply Z.mod_pos_bound; lia.
Qed.

(** After the handshake has installed a dictionary whose codes
    differ modulo 256, the code of each of its routes is resolved to that
    route. *)
Theorem dictionary_resolves (c : codec_ctx) (h : hashtable_t json_t) (route : string) (v : json_t) (code : Z) :
  code_to_route c = Some (setup_dict (JObject h)) →
  Forall (λ kv, utf8_check_string kv.1 = true) (ht_list h) →
  (∀ kv kv', kv ∈ ht_list h → kv' ∈ ht_list h → code_key kv.2 = code_key kv'.2 → kv = kv') →
  (route, v) ∈ ht_list h → json_integer_value (Some v) = code → is_s 32 code →
  pc__resolve_dictionary c code = Some route.
Proof.
  intros Hc Hu Hinj Hin Hv Hs.
  assert (code_key v = sprintf_u (Z.land code 0xff)) as Hk
    by (unfold code_key; by rewrite Hv, swrap_small).
  destruct (resolve_setup (JObject h) h c code eq_refl Hu Hc) as (kv & Hin' & Hk' & ->).
  { by exists (route, v). }
  by rewrite (Hinj kv (route, v) Hin' Hin ltac:(cbn [snd]; congruence)).
Qed.

Definition ex_dict : hashtable_t json_t :=
  match obj [("chat.send", JInteger 1); ("connector.entry", JInteger 2)] with
  | JObject h => h
  | _ => hashtable_init
  end.

Lemma dictionary_resolves_witness :
  pc__resolve_dictionary (mkCtx None (Some (setup_dict (JObject ex_dict))) None None) 2 = Some "connector.entry".
Proof.
  assert (ht_list ex_dict = [("chat.send", JInteger 1); ("connector.entry", JInteger 2)]) as Hl by (by vm_compute).
  apply (dictionary_resolves (mkCtx None (Some (setup_dict (JObject ex_dict))) None None)
           ex_dict "connector.entry" (JInteger 2) 2 eq_refl); [rewrite Hl..|reflexivity|split; lia].
  - repeat (apply Forall_cons_2; [by vm_compute|]). apply Forall_nil_2.
  - intros kv kv' H1 H2 Hk.
    apply elem_of_cons in H1 as [->|H1%list_elem_of_singleton]; apply elem_of_cons in H2 as [->|H2%list_elem_of_singleton];
      subst; try reflexivity; vm_compute in Hk; discriminate Hk.
  - right. left.
Defined.

(** Route codes are masked to 8 bits on both sides of the
    dictionary, although the wire carries 16: two routes whose codes are equal
    modulo 256 cannot both be resolved. *)
Theorem dictionary_collides (c : codec_ctx) (route1 route2 : string) (code1 code2 : Z) :
  route1 ≠ route2 → code1 mod 256 = code2 mod 256 →
  pc__resolve_dictionary c code1 ≠ Some route1 ∨ pc__resolve_dictionary c code2 ≠ Some route2.
Proof.
  intros Hne Hm. unfold pc__resolve_dictionary. change 0xff with (Z.ones 8).
  rewrite !Z.land_ones by lia. change (2 ^ 8) with 256. rewrite Hm.
  destruct (decide (json_string_value (json_object_get (code_to_route c) (sprintf_u (code2 mod 256))) = Some route1)) as [E|E].
  - right. congruence.
  - by left.
Qed.

Lemma dictionary_collides_witness :
  let dict := obj [("a", JInteger 1); ("b", JInteger 257)] in
  let c := mkCtx (Some dict) (Some (setup_dict dict)) None None in
  pc__resolve_dictionary c 1 ≠ Some "a" ∨ pc__resolve_dictionary c 257 ≠ Some "b".
Proof. apply (dictionary_collides _ "a" "b" 1 257); done. Defined.

(** ** From one peer to the other *)

Section Peers.
Context (malloc : Z → bool) (Hmalloc : malloc_succeeds malloc).

(** The code [c] sends for a route, 0 for none. *)
Definition sent_code (c : codec_ctx) (route : string) : Z :=
  match json_object_get (route_to_code c) route with
  | Some code => s32 (json_integer_value (Some code))
  | None => 0
  end.

(** [d] reads the route [c] sends: by the dictionary, or as a short string. *)
Definition route_agrees (c d : codec_ctx) (route : string) : Prop :=
  if sent_code c route >? 0 then pc__resolve_dictionary d (u16 (sent_code c route)) = Some route
  else 0 < strlen route < 128 ∧ forallb (λ b, negb (b =? 0)) (bytes_of route) = true.

(** The JSON text of a body. *)
Definition body_text (m : json_t) : bytes := json_text JSON_COMPACT 0 m.

(** The body of [m] can be carried: it is well typed for the schema of its
    route and twice its JSON text is room enough for it, or the JSON text can be
    read back. *)
Definition body_agrees (fuel : nat) (c : codec_ctx) (route : string) (m : json_t) : Prop :=
  match json_object_get (client_protos c) route with
  | Some pb_def =>
      ∃ bs, wire fuel (client_protos c) (Some pb_def) m = Some bs ∧
        well_typed fuel (client_protos c) (Some pb_def) m = true ∧ 0 < zlen bs ≤ 2 * zlen (body_text m)
  | None => readable m = true
  end.

Lemma json_encode_text m : printable m = true → json_is_array m || json_is_object m = true → zlen (body_text m) < 2 ^ 29 →
  pc__json_encode malloc (Some m) = Val (Some (body_text m)).
Proof. intros Hp Ht Hl. apply dumps_text; [done|done|by rewrite Ht|fold (body_text m); lia]. Qed.

Lemma body_text_pos m : json_is_array m || json_is_object m = true → 0 < zlen (body_text m).
Proof.
  unfold body_text. destruct m as [[n l]|l| | | | | |]; try done; intros _; cbn [json_text]; rewrite zlen_app;
    match goal with |- 0 < zlen ?x + zlen ?y => pose proof (zlen_nonneg y); change (zlen x) with 1; lia end.
Qed.

Lemma zlen_malloc_block junk n : 0 ≤ n → zlen (malloc_block junk n) = n.
Proof. intros. unfold zlen, malloc_block. rewrite length_replicate. lia. Qed.

Lemma pb_encode_body fuel junk m gprotos pb_def bs :
  printable m = true → json_is_array m || json_is_object m = true → zlen (body_text m) < 2 ^ 29 →
  wire fuel gprotos pb_def m = Some bs → zlen bs ≤ 2 * zlen (body_text m) →
  pc__pb_encode malloc fuel junk (Some m) gprotos pb_def = Val (Some bs).
Proof.
  intros Hp Ht Hs Hw Hb. unfold pc__pb_encode. rewrite json_encode_text, bind_Val by done.
  pose proof (zlen_nonneg (body_text m)) as H0.
  unfold PC_PB_EVAL_FACTOR. rewrite wrap_small by (unfold is_u; lia). rewrite Hmalloc by lia. cbn [negb].
  pose proof (encode_wire_eq fuel (malloc_block junk (zlen (body_text m) * 2)) gprotos pb_def m bs Hw) as He.
  rewrite zlen_malloc_block in He by lia. cbn [default from_option]. change (id m) with m.
  rewrite He, (proj2 (Z.leb_le _ _)), bind_Val by lia.
  by rewrite (memcpy_from_middle [] bs _ 0 (zlen bs) eq_refl eq_refl : memcpy_from (bs ++ _) 0 (zlen bs) = _), bind_Val.
Qed.

(** The decoder of the body a peer sent. *)
Lemma body_roundtrip fuel dfuel junk c d route m :
  printable m = true → json_is_array m || json_is_object m = true → zlen (body_text m) < 2 ^ 29 →
  2 * zlen (body_text m) < Z.of_nat dfuel → server_protos d = client_protos c → body_agrees fuel c route m →
  ∃ body m', match json_object_get (client_protos c) route with
             | Some pb_def => pc__pb_encode malloc fuel junk (Some m) (client_protos c) (Some pb_def)
             | None => pc__json_encode malloc (Some m)
             end = Val (Some body) ∧ 0 < zlen body < 2 ^ 30 ∧ same m m' ∧
    match json_object_get (server_protos d) route with
    | Some pb_def => pc__pb_decode malloc dfuel body 0 (zlen body) (server_protos d) (Some pb_def)
    | None => pc__json_decode malloc body 0 (zlen body)
    end = Val (Some m').
Proof.
  intros Hpr Hty Hs Hf Hp Hb. unfold body_agrees in Hb. rewrite Hp.
  destruct (json_object_get (client_protos c) route) as [pb_def|].
  - destruct Hb as (bs & Hw & Ht & Hl1 & Hl2).
    destruct (decode_wire malloc ltac:(intros; apply Hmalloc; lia) (client_protos c) fuel (Some pb_def) m bs Hw Ht [] [] dfuel)
      as (r & E & Hr); [lia|lia|].
    exists bs, r. split; [by apply pb_encode_body|]. split; [lia|]. split; [done|].
    unfold pc__pb_decode, pc_pb_decode, pb_istream_from_buffer. rewrite drop_0.
    rewrite app_nil_r in E. cbn [app] in E. change (zlen (@nil Z)) with 0 in E. by rewrite E.
  - destruct (load_text malloc JSON_COMPACT 0 m Hmalloc Hb) as (m' & Hload & Hm'); [by rewrite Hty|fold (body_text m); lia|].
    exists (body_text m), m'. split; [by apply json_encode_text|]. pose proof (body_text_pos m Hty). split; [lia|]. split; [done|].
    unfold pc__json_decode. rewrite Z.sub_0_r.
    pose proof (memcpy_from_middle [] (body_text m) [] 0 (zlen (body_text m)) eq_refl eq_refl) as Hc.
    rewrite app_nil_r in Hc. cbn [app] in Hc. by rewrite Hc, bind_Val.
Qed.

(** What the parser makes of a decoded raw message with a route and a body. *)
Lemma parse_routed dfuel d lookup data raw route m' :
  pc_msg_decode malloc data (zlen data) = Val (Some raw) →
  PC_MSG_HAS_ROUTE (raw_type raw) = true → 0 < zlen (raw_body raw) → strlen route < 2 ^ 31 →
  match raw_route raw with
  | RCode code => compressRoute raw = 1 ∧ pc__resolve_dictionary d code = Some route
  | RStr str => compressRoute raw = 0 ∧ string_of (until_nul str) = route
  | RNull => False
  end →
  match json_object_get (server_protos d) route with
  | Some pb_def => pc__pb_decode malloc dfuel (raw_body raw) 0 (zlen (raw_body raw)) (server_protos d) (Some pb_def)
  | None => pc__json_decode malloc (raw_body raw) 0 (zlen (raw_body raw))
  end = Val (Some m') →
  pc__default_msg_parse_cb malloc dfuel d lookup data (zlen data) =
    Val (Some (mkMsg (raw_id raw) (Some route) (Some m'))).
Proof.
  intros Hdec Hrt Hb Hlen Hr Hm. unfold pc__default_msg_parse_cb. rewrite Hdec, bind_Val.
  rewrite Hmalloc by (unfold sizeof_msg; lia). cbn [negb]. rewrite Hrt.
  assert (0 ≤ strlen route) by apply zlen_nonneg.
  assert ((if negb (compressRoute raw =? 0)
     then match raw_route raw with RCode code => Val (pc__resolve_dictionary d code) | _ => UB end
     else match raw_route raw with RStr str => Val (Some (string_of (until_nul str))) | _ => UB end)
    = Val (Some route)) as ->.
  { destruct (raw_route raw); [done|destruct Hr as [-> ->]; done|destruct Hr as [-> <-]; done]. }
  cbv zeta. rewrite bind_Val, Hmalloc by lia. cbn [negb]. rewrite bind_Val. cbv beta iota.
  rewrite (proj2 (Z.ltb_lt _ _) Hb), Hm, bind_Val. done.
Qed.

Lemma peers_eq fuel dfuel junk c d lookup reqId route m :
  printable m = true → json_is_array m || json_is_object m = true → zlen (body_text m) < 2 ^ 29 →
  2 * zlen (body_text m) < Z.of_nat dfuel → server_protos d = client_protos c → body_agrees fuel c route m →
  route_agrees c d route → strlen route < 2 ^ 31 → 0 ≤ reqId < 2 ^ 31 →
  ∃ out m', pc__default_msg_encode_cb malloc fuel true junk c reqId route (Some m) = Val (Some out) ∧
    pc__default_msg_parse_cb malloc dfuel d lookup out (zlen out) = Val (Some (mkMsg reqId (Some route) (Some m'))) ∧ same m m'.
Proof.
  intros Hpr Hty Hs Hf Hp Hb Hr Hrl Hid.
  destruct (body_roundtrip fuel dfuel junk c d route m Hpr Hty Hs Hf Hp Hb) as (body & m' & Eb & Hbl & Hm & Ed).
  unfold pc__default_msg_encode_cb. rewrite Eb, bind_Val.
  fold (sent_code c route). set (type := if reqId =? 0 then PC_MSG_NOTIFY else PC_MSG_REQUEST) in *.
  assert (PC_MSG_VALIDATE type = true ∧ PC_MSG_HAS_ROUTE type = true ∧
    (if PC_MSG_HAS_ID type then reqId else 0) = reqId) as (Hv & Hrt & Hi)
    by (unfold type; destruct (Z.eqb_spec reqId 0); subst; done).
  unfold route_agrees in Hr. destruct (sent_code c route >? 0).
  - assert (∃ out, pc_msg_encode_code true junk reqId type (sent_code c route) body = Val (Some out)) as (out & He).
    { rewrite encode_code_eq; [by eexists|done|int_solve|lia]. }
    exists out, m'. split; [done|]. split; [|done].
    pose proof (code_roundtrip_eq malloc junk reqId type (sent_code c route) body out Hmalloc Hv Hrt Hid ltac:(lia) He) as Hdec.
    rewrite <- Hi. apply (parse_routed dfuel d lookup out _ route m' Hdec); cbn; try done; lia.
  - destruct Hr as [Hlen Hnul].
    assert (∃ out, pc_msg_encode_route true junk reqId type (bytes_of route) body = Val (Some out)) as (out & He).
    { rewrite encode_route_eq; [by eexists|done|int_solve|]. fold (strlen route). lia. }
    exists out, m'. split; [done|]. split; [|done].
    pose proof (route_roundtrip_eq malloc junk reqId type (bytes_of route) body out Hmalloc Hv Hrt Hid Hlen ltac:(lia) He) as Hdec.
    rewrite <- Hi. apply (parse_routed dfuel d lookup out _ route m' Hdec); cbn; try done; [lia|].
    split; [done|]. by rewrite until_nul_id, string_of_bytes_of.
Qed.
End Peers.

(** C7 (roundtrip). A request or notify whose message the format can carry is encoded, and
    what one peer encodes is parsed by the other to the same id, route and message, as
    protobuf or as JSON text, printed and read by the bundled JSON library. The conditions:
    memory suffices; the message is an array or object that can be printed, in less than
    2^29 bytes; the reader has the schemas of the writer; the message is well typed for the
    schema of its route, and its protobuf encoding is not empty and at most twice as long
    as its JSON text, or, without a schema, it can be read back from its text ([readable]);
    the route has a dictionary code that the reader's dictionary resolves to the same
    route, or is 1 to 127 bytes without a zero; the id is below 2^31. *)
Theorem peers_roundtrip (malloc : Z → bool) (fuel dfuel : nat) (junk : Z) (c d : codec_ctx)
  (lookup : string → exec (option string)) (reqId : Z) (route : string) (m : json_t) :
  malloc_succeeds malloc → printable m = true → json_is_array m || json_is_object m = true →
  zlen (body_text m) < 2 ^ 29 → 2 * zlen (body_text m) < Z.of_nat dfuel →
  server_protos d = client_protos c → body_agrees fuel c route m →
  route_agrees c d route → strlen route < 2 ^ 31 → 0 ≤ reqId < 2 ^ 31 →
  ∃ out m', pc__default_msg_encode_cb malloc fuel true junk c reqId route (Some m) = Val (Some out) ∧
    pc__default_msg_parse_cb malloc dfuel d lookup out (zlen out) = Val (Some (mkMsg reqId (Some route) (Some m'))) ∧ same m m'.
Proof. intros. by eapply peers_eq. Qed.

(** Two peers with a dictionary and a schema for the route "area.move". *)
Definition ex_ctx : codec_ctx :=
  let dict := obj [("area.move", JInteger 7)] in
  let protos := Some (obj [("area.move", ex_protos)]) in
  mkCtx (Some dict) (Some (setup_dict dict)) protos protos.

(** A message that [pc_pb_encode] refuses is sent all the same,
    with an empty body: [pc__pb_encode] returns the length 0, not -1. *)
Theorem pb_failure_sends_empty (malloc : Z → bool) (fuel : nat) (junk : Z)
  (c : codec_ctx) (reqId : Z) (route : string) (m : json_t) (pb_def : json_t) :
  malloc_succeeds malloc → printable m = true → json_is_array m || json_is_object m = true → zlen (body_text m) < 2 ^ 29 →
  json_object_get (client_protos c) route = Some pb_def →
  pc_pb_encode fuel (malloc_block junk (2 * zlen (body_text m))) (2 * zlen (body_text m)) (client_protos c) (Some pb_def) m = Val None →
  pc__default_msg_encode_cb malloc fuel true junk c reqId route (Some m) =
    let type := if reqId =? 0 then PC_MSG_NOTIFY else PC_MSG_REQUEST in
    if sent_code c route >? 0 then pc_msg_encode_code true junk reqId type (sent_code c route) []
    else pc_msg_encode_route true junk reqId type (bytes_of route) [].
Proof.
  intros Hm Hpr Hty Hs Hp He. unfold pc__default_msg_encode_cb, pc__pb_encode.
  rewrite Hp, json_encode_text, bind_Val by done. pose proof (zlen_nonneg (body_text m)).
  unfold PC_PB_EVAL_FACTOR. rewrite wrap_small by (unfold is_u; lia). rewrite Hm by lia. cbn [negb].
  rewrite Z.mul_comm. cbn [default from_option]. change (id m) with m. rewrite He, !bind_Val. done.
Qed.

(** A push whose route is the empty string is parsed through a
    NULL pointer: the decoder leaves [route_str] NULL and [strlen] reads it. *)
Theorem empty_route_push_crashes (malloc : Z → bool) (fuel : nat)
  (c : codec_ctx) (lookup : string → exec (option string)) (body : bytes) :
  malloc_succeeds malloc → zlen body < 2 ^ 62 →
  let data := [2 * PC_MSG_PUSH; 0] ++ body in
  pc__default_msg_parse_cb malloc fuel c lookup data (zlen data) = UB.
Proof.
  intros Hm Hl data.
  assert (raw_ok (mkRaw 0 PC_MSG_PUSH 0 RNull body)) as Hok.
  { split; try done; [by left|]. unfold msg_wire. cbn. rewrite !zlen_cons. lia. }
  pose proof (decode_wire_eq malloc _ Hm Hok) as Hdec.
  change (msg_wire (mkRaw 0 PC_MSG_PUSH 0 RNull body)) with data in Hdec.
  unfold pc__default_msg_parse_cb. rewrite Hdec, bind_Val.
  rewrite Hm by (unfold sizeof_msg; lia). done.
Qed.

(** The protobuf body of [PbEncode.v] under its dictionary code. *)
Lemma peers_roundtrip_witness :
  ∃ out m', pc__default_msg_encode_cb malloc_64 3 true 0 ex_ctx 5 "area.move" (Some ex_msg) = Val (Some out) ∧
    pc__default_msg_parse_cb malloc_64 500 ex_ctx (λ _, Val None) out (zlen out) =
      Val (Some (mkMsg 5 (Some "area.move") (Some m'))) ∧ same ex_msg m'.
Proof.
  apply (peers_roundtrip malloc_64 3 500 0 ex_ctx ex_ctx (λ _, Val None) 5 "area.move" ex_msg);
    [apply malloc_64_succeeds|by vm_compute|by vm_compute|by vm_compute|by vm_compute|reflexivity| | |by vm_compute|split; lia].
  - unfold body_agrees.
    assert (json_object_get (client_protos ex_ctx) "area.move" = Some ex_protos) as -> by (vm_compute; reflexivity).
    exists ex_wire. split; [vm_compute; reflexivity|]. split; [vm_compute; reflexivity|by vm_compute].
  - vm_compute. reflexivity.
Defined.

(** An unknown field makes [pc_pb_encode] return 0. *)
Lemma pb_failure_sends_empty_witness :
  pc__default_msg_encode_cb malloc_64 3 true 0 ex_ctx 5 "area.move"
    (Some (obj [("unknown", JInteger 1)])) = Val (Some [1; 5; 0; 7]).
Proof.
  rewrite (pb_failure_sends_empty malloc_64 3 0 ex_ctx 5 "area.move" (obj [("unknown", JInteger 1)]) ex_protos);
    [vm_compute; reflexivity|apply malloc_64_succeeds|vm_compute; reflexivity..].
Defined.

Lemma empty_route_push_crashes_witness :
  pc__default_msg_parse_cb malloc_64 10 ex_ctx (λ _, Val None) [6; 0; 123; 125] 4 = UB.
Proof. apply (empty_route_push_crashes malloc_64 10 ex_ctx (λ _, Val None) [123; 125]); [apply malloc_64_succeeds|done]. Defined.
