(* ===== verification/CodecMemory.v ===== *)
(** * Who owns the blocks of a message ([src/src/message.c], [protocol.c],
    [msg-json.c], [msg-pb.c], [jansson-memory.c])

    [Message.v] and [Protocol.v] read a buffer as its bytes. Here are the blocks:
    which function allocates each one, with which allocator, and who frees it, for
    the default callbacks that parse and encode a message and for the callbacks
    that dispose of their results. A block is an entry of a finite map with the
    allocator it came from; freeing a block that is not there, or with another
    allocator's function, is undefined. A JSON value is one block here
    ([JsonHeap.v] has its inside), and so is the text [json_dumps] returns; the values
    [pb_decode_proto] makes for sub-messages and does not release are counted
    ([pb_lost]). *)

From S2P Require Import Prelude Message Float Utf8 Jansson JsonDump JsonLoad PbWire PbEncode PbDecode Protocol.
Local Open Scope Z_scope.

(** ** Memory *)

(** [malloc] and [free], or a pair of functions of the user's. *)
Inductive allocator := Libc | User (n : nat).

#[global] Instance allocator_eq_dec : EqDecision allocator.
Proof. solve_decision. Defined.

(** The function pointers of [jansson-memory.c] and of Jansson's [memory.c]. *)
Record hooks := mkHooks { do_malloc : allocator; do_free : allocator }.

Record memory := mkMemory {
  live : gmap positive allocator;
  fresh : positive;
  pc_hooks : hooks;
  json_hooks : hooks
}.

Definition mem (A : Type) : Type := memory → exec (memory * A).

#[global] Instance mem_ret : MRet mem := λ _ a M, Val (M, a).
#[global] Instance mem_bind : MBind mem := λ _ _ f m M, '(M, a) ← m M; f a M.

Definition calc {A} (e : exec A) : mem A := λ M, a ← e; Val (M, a).

Definition take_block (a : allocator) (ok : bool) : mem (option positive) := λ M,
  if ok then Val (mkMemory (<[fresh M := a]> (live M)) (Pos.succ (fresh M)) (pc_hooks M) (json_hooks M), Some (fresh M))
  else Val (M, None).

Definition give_back (a : allocator) (p : positive) : mem unit := λ M,
  if bool_decide (live M !! p = Some a) then Val (mkMemory (delete p (live M)) (fresh M) (pc_hooks M) (json_hooks M), tt)
  else UB.

(** Freeing NULL does nothing. *)
Definition give_back_opt (a : allocator) (p : option positive) : mem unit :=
  match p with Some p => give_back a p | None => mret tt end.

Definition free : option positive → mem unit := give_back_opt Libc.

(** ** The hooks *)

Definition get_pc_hooks : mem hooks := λ M, Val (M, pc_hooks M).
Definition get_json_hooks : mem hooks := λ M, Val (M, json_hooks M).

Definition pc_jsonp_free (ptr : option positive) : mem unit := h ← get_pc_hooks; give_back_opt (do_free h) ptr.
Definition jsonp_free (ptr : option positive) : mem unit := h ← get_json_hooks; give_back_opt (do_free h) ptr.

Definition json_set_alloc_funcs (malloc_fn free_fn : allocator) : mem unit := λ M,
  Val (mkMemory (live M) (fresh M) (pc_hooks M) (mkHooks malloc_fn free_fn), tt).

Definition pc_json_set_alloc_funcs (malloc_fn free_fn : allocator) : mem unit := λ M,
  '(M, _) ← json_set_alloc_funcs malloc_fn free_fn M;
  Val (mkMemory (live M) (fresh M) (mkHooks malloc_fn free_fn) (json_hooks M), tt).

Section Codec.
Context (malloc_ok : Z → bool).

Definition malloc (size : Z) : mem (option positive) := take_block Libc (malloc_ok size).

(** [malloc(0)] is called here, and not by Jansson. *)
Definition pc_jsonp_malloc (size : Z) : mem (option positive) := h ← get_pc_hooks; take_block (do_malloc h) (malloc_ok size).
Definition jsonp_malloc (size : Z) : mem (option positive) :=
  h ← get_json_hooks; if size =? 0 then mret None else take_block (do_malloc h) (malloc_ok size).

(** The block of a JSON value or text that Jansson returns. *)
Definition json_block {A} (r : exec (option A)) : mem (option (positive * A)) :=
  o ← calc r;
  match o with
  | None => mret None
  | Some x =>
      h ← get_json_hooks;
      p ← take_block (do_malloc h) true;
      mret (option_map (λ p, (p, x)) p)
  end.

(** ** Raw messages *)

Record raw_block := mkRawBlock {
  rb_self : positive;
  rb_route : option positive;
  rb_body : option positive;
  rb_msg : pc__msg_raw_t
}.

(** The [error] label of [pc_msg_decode]; the body is allocated last. *)
Definition decode_error {A} (msg : positive) (route_str : option positive) : mem (option A) :=
  _ ← free (Some msg);
  _ ← free route_str;
  mret None.

(** The block of the route, and its value; no value is [goto error]. *)
Definition decode_route (data : bytes) (len offset compress : Z) : mem (option positive * option (msg_route * Z)) :=
  if negb (compress =? 0) then
    if u64 (offset + PC_MSG_ROUTE_CODE_BYTES) >? len then mret (None, None)
    else
      hi ← calc (rd data offset);
      lo ← calc (rd data (offset + 1));
      let code := u16 (Z.lor 0 (Z.shiftl (Z.land (s8 hi) 0xff) 8)) in
      mret (None, Some (RCode (u16 (Z.lor code (Z.land (s8 lo) 0xff))), offset + 2))
  else
    if u64 (offset + PC_MSG_ROUTE_LEN_BYTES) >? len then mret (None, None)
    else
      b ← calc (rd data offset);
      let offset := offset + 1 in
      let route_len := u64 (s8 b) in
      if negb (route_len =? 0) then
        route_str ← malloc (u64 (route_len + 1));
        match route_str with
        | None => mret (None, None)
        | Some p =>
            if u64 (offset + route_len) >? len then mret (Some p, None)
            else
              _ ← calc (require (route_len <? u64 (route_len + 1)));
              str ← calc (memcpy_from data offset route_len);
              mret (Some p, Some (RStr str, u64 (offset + route_len)))
        end
      else mret (None, Some (RNull, offset)).

(** A body that cannot be allocated is written through a null pointer. *)
Definition decode_body (data : bytes) (len offset : Z) : mem (option positive * bytes) :=
  let body_len := u64 (len - offset) in
  if negb (body_len =? 0) then
    body ← malloc body_len;
    match body with
    | None => calc UB
    | Some p => bs ← calc (memcpy_from data offset body_len); mret (Some p, bs)
    end
  else mret (None, []).

Definition pc_msg_decode (data : bytes) (len : Z) : mem (option raw_block) :=
  msg ← malloc sizeof_raw;
  match msg with
  | None => mret None
  | Some msg =>
      if u64 (0 + PC_MSG_FLAG_BYTES) >? len then decode_error msg None
      else
        b ← calc (rd data 0);
        let flag := u8 b in
        let offset := 1 in
        let type := Z.land (Z.shiftr flag 1) 0xff in
        if negb (PC_MSG_VALIDATE type) then decode_error msg None
        else
          let compress := Z.land flag 0x01 in
          if PC_MSG_HAS_ID type && (u64 (offset + 1) >? len) then decode_error msg None
          else
            '(id, offset) ← calc (if PC_MSG_HAS_ID type then msg_decode_id_loop 6 data 0 0 offset else Val (0, offset));
            '(route_str, r) ← (if PC_MSG_HAS_ROUTE type then decode_route data len offset compress
                               else mret (None, Some (RNull, offset)));
            match r with
            | None => decode_error msg route_str
            | Some (route, offset) =>
                '(body, bs) ← decode_body data len offset;
                mret (Some (mkRawBlock msg route_str body (mkRaw id type compress route bs)))
            end
  end.

Definition pc__raw_msg_destroy (msg : raw_block) : mem unit :=
  _ ← (if compressRoute (rb_msg msg) =? 0 then free (rb_route msg) else mret tt);
  _ ← (if 0 <? zlen (raw_body (rb_msg msg)) then free (rb_body msg) else mret tt);
  free (Some (rb_self msg)).

(** ** Messages *)

Record msg_block := mkMsgBlock {
  mb_self : positive;
  mb_id : Z;
  mb_route : option (positive * string);
  mb_msg : option (positive * json_t)
}.

(** [json_decref] of the only reference to a value. *)
Definition json_decref (json : positive) : mem unit := jsonp_free (Some json).

Definition pc_msg_destroy (msg : option msg_block) : mem unit :=
  match msg with
  | None => mret tt
  | Some msg =>
      _ ← free (option_map fst (mb_route msg));
      _ ← match mb_msg msg with Some (json, _) => json_decref json | None => mret tt end;
      free (Some (mb_self msg))
  end.

(** The [error] label of [pc__default_msg_parse_cb]. There is no route string
    before there is a message. *)
Definition parse_error (raw : option raw_block) (msg : option msg_block) : mem (option msg_block) :=
  _ ← match raw with Some raw => pc__raw_msg_destroy raw | None => mret tt end;
  _ ← pc_msg_destroy msg;
  mret None.

(** [msg->route], and the route to find the schema with; [None] is [goto error]. *)
Definition parse_route (c : codec_ctx) (lookup : string → exec (option string)) (raw : pc__msg_raw_t) :
    mem (option (option (positive * string) * string)) :=
  if PC_MSG_HAS_ROUTE (raw_type raw) then
    o ← calc (if negb (compressRoute raw =? 0) then
                match raw_route raw with RCode code => Val (pc__resolve_dictionary c code) | _ => UB end
              else
                match raw_route raw with RStr str => Val (Some (string_of (until_nul str))) | _ => UB end);
    match o with
    | None => mret None
    | Some origin_route =>
        p ← malloc (strlen origin_route + 1);
        match p with
        | None => mret None
        | Some p => mret (Some (Some (p, origin_route), origin_route))
        end
    end
  else
    req ← calc (lookup (sprintf_u (raw_id raw)));
    match req with
    | None => mret None
    | Some req_route => mret (Some (None, req_route))
    end.

(** ** What a failed protobuf decoding leaves behind *)

(** [pb_decode_proto] makes a value for a sub-message with a key, and returns without
    releasing it when the sub-message cannot be decoded; the values of arrays and the
    result are released by their owners. The functions follow the decoder of [PbDecode.v] to
    the failure and count the values that are lost on the way. *)
Section Lost.
Context (buf : bytes) (gprotos : option json_t).
Context (decode : option json_t → json_t → pb_istream_t → exec (option json_t * pb_istream_t)).
Context (lost : option json_t → json_t → pb_istream_t → nat).

Definition submessage_lost (protos : option json_t) (dest : json_t) (s : pb_istream_t) : nat :=
  match pb_make_string_substream buf s with Val (Some substream, _) => lost protos dest substream | _ => 0 end.

Definition proto_lost (proto protos : option json_t) (key : option string) (result : json_t) (s : pb_istream_t) : nat :=
  match json_object_get protos "__messages", json_string_value (json_object_get proto "type") with
  | Some messages, Some type_text =>
      match pb__get_type (Some type_text), find_sub_msg gprotos messages type_text with
      | Val t, Some sub_msg =>
          if negb (t =? 0) then 0
          else
            match key with
            | None => submessage_lost (Some sub_msg) result s
            | Some _ =>
                match pb_decode_submessage buf decode (Some sub_msg) json_object s with
                | Val (None, _) => S (submessage_lost (Some sub_msg) json_object s)
                | _ => 0
                end
            end
      | _, _ => 0
      end
  | _, _ => 0
  end.

Definition round_lost (protos : option json_t) (result : json_t) (s : pb_istream_t) : nat :=
  match pb_decode_tag buf s with
  | Val (Tag _ tag, s) =>
      match json_object_get protos "__tags" ≫= λ tags, json_object_get (Some tags) (sprintf_u tag) ≫= λ t, json_string_value (Some t) with
      | Some name =>
          let proto := json_object_get protos name in
          match json_string_value (json_object_get proto "option") with
          | Some option_text =>
              if bool_decide (option_text = "optional") || bool_decide (option_text = "required") then proto_lost proto protos (Some name) result s
              else if bool_decide (option_text = "repeated") then proto_lost proto protos None json_object s
              else 0
          | None => 0
          end
      | None => 0
      end
  | _ => 0
  end.
End Lost.

Fixpoint pb_lost (buf : bytes) (fuel : nat) (gprotos protos : option json_t) (result : json_t) (s : pb_istream_t) : nat :=
  match fuel with
  | O => 0
  | S fuel =>
      if bytes_left s =? 0 then 0
      else
        match decode_round malloc_ok buf (pb_decode malloc_ok buf fuel gprotos) gprotos fuel protos result s with
        | Val (Next result, s) => pb_lost buf fuel gprotos protos result s
        | Val (Return0, _) => round_lost buf gprotos (pb_decode malloc_ok buf fuel gprotos) (pb_lost buf fuel gprotos) protos result s
        | _ => 0
        end
  end.

Definition pb_body_lost (fuel : nat) (body : bytes) (gprotos pb_def : option json_t) : nat :=
  pb_lost body fuel gprotos pb_def json_object (pb_istream_from_buffer (zlen body)).

(** Values of Jansson's that nobody points to. *)
Fixpoint lose (n : nat) : mem unit :=
  match n with
  | O => mret tt
  | S n => h ← get_json_hooks; _ ← take_block (do_malloc h) true; lose n
  end.

Definition parse_body (fuel : nat) (c : codec_ctx) (route_str : string) (body : bytes) : mem (option (positive * json_t)) :=
  match json_object_get (server_protos c) route_str with
  | Some pb_def =>
      json ← json_block (pc__pb_decode malloc_ok fuel body 0 (zlen body) (server_protos c) (Some pb_def));
      match json with
      | Some json => mret (Some json)
      | None => _ ← lose (pb_body_lost fuel body (server_protos c) (Some pb_def)); mret None
      end
  | None => json_block (pc__json_decode malloc_ok body 0 (zlen body))
  end.

Definition pc__default_msg_parse_cb (fuel : nat) (c : codec_ctx) (lookup : string → exec (option string))
    (data : bytes) (len : Z) : mem (option msg_block) :=
  raw_msg ← pc_msg_decode data len;
  match raw_msg with
  | None => parse_error None None
  | Some raw =>
      m ← malloc sizeof_msg;
      match m with
      | None => parse_error (Some raw) None
      | Some self =>
          rt ← parse_route c lookup (rb_msg raw);
          match rt with
          | None => parse_error (Some raw) (Some (mkMsgBlock self (raw_id (rb_msg raw)) None None))
          | Some (route, route_str) =>
              let body := raw_body (rb_msg raw) in
              if 0 <? zlen body then
                json ← parse_body fuel c route_str body;
                match json with
                | None => parse_error (Some raw) (Some (mkMsgBlock self (raw_id (rb_msg raw)) route None))
                | Some json =>
                    _ ← pc__raw_msg_destroy raw;
                    mret (Some (mkMsgBlock self (raw_id (rb_msg raw)) route (Some json)))
                end
              else
                _ ← pc__raw_msg_destroy raw;
                mret (Some (mkMsgBlock self (raw_id (rb_msg raw)) route None))
          end
      end
  end.

Definition pc__default_msg_parse_done_cb (msg : option msg_block) : mem unit :=
  match msg with Some _ => pc_msg_destroy msg | None => mret tt end.

(** ** Buffers *)

(** A [pc_buf_t]: no bytes is the length -1. *)
Record buf_block := mkBuf { b_base : option positive; b_bytes : option bytes }.

Definition pc__json_encode (msg : option json_t) : mem buf_block :=
  res ← json_block (json_dumps malloc_ok msg JSON_COMPACT);
  match res with
  | None => mret (mkBuf None None)
  | Some (p, text) => mret (mkBuf (Some p) (Some text))
  end.

(** The [error] label of [pc__pb_encode]. *)
Definition pb_encode_error (buf json_buf : buf_block) : mem buf_block :=
  _ ← match b_bytes json_buf with None => pc_jsonp_free (b_base json_buf) | Some _ => mret tt end;
  match b_bytes buf with
  | None => _ ← free (b_base buf); mret (mkBuf None None)
  | Some _ => mret buf
  end.

Definition pc__pb_encode (fuel : nat) (junk : Z) (msg gprotos pb_def : option json_t) : mem buf_block :=
  json_buf ← pc__json_encode msg;
  match b_bytes json_buf with
  | None => pb_encode_error (mkBuf None (Some [])) json_buf
  | Some text =>
      let eval_size := u64 (zlen text * PC_PB_EVAL_FACTOR) in
      base ← malloc eval_size;
      match base with
      | None => pb_encode_error (mkBuf None None) json_buf
      | Some p =>
          r ← calc (pc_pb_encode fuel (malloc_block junk eval_size) eval_size gprotos pb_def (default JNull msg));
          match r with
          | None => pb_encode_error (mkBuf (Some p) (Some [])) json_buf
          | Some (written, base) =>
              bs ← calc (memcpy_from base 0 written);
              _ ← pc_jsonp_free (b_base json_buf);
              mret (mkBuf (Some p) (Some bs))
          end
      end
  end.

(** [pc_msg_encode_code] or [pc_msg_encode_route], with the block of its result. *)
Definition msg_block_of (r : exec (option bytes)) : mem buf_block :=
  o ← calc r;
  match o with
  | None => mret (mkBuf None None)
  | Some bs => p ← take_block Libc true; mret (mkBuf p (Some bs))
  end.

(** The [error] label of [pc__default_msg_encode_cb]. *)
Definition encode_error (msg_buf body_buf : buf_block) : mem buf_block :=
  _ ← match b_bytes msg_buf with Some _ => free (b_base msg_buf) | None => mret tt end;
  _ ← match b_bytes body_buf with Some _ => pc_jsonp_free (b_base body_buf) | None => mret tt end;
  mret (mkBuf None None).

Definition pc__default_msg_encode_cb (fuel : nat) (malloc_msg : bool) (junk : Z) (c : codec_ctx)
    (reqId : Z) (route : string) (msg : option json_t) : mem buf_block :=
  let route_code :=
    match json_object_get (route_to_code c) route with
    | Some code => s32 (json_integer_value (Some code))
    | None => 0
    end in
  body_buf ← match json_object_get (client_protos c) route with
             | Some pb_def => pc__pb_encode fuel junk msg (client_protos c) (Some pb_def)
             | None => pc__json_encode msg
             end;
  match b_bytes body_buf with
  | None => encode_error (mkBuf None None) body_buf
  | Some body =>
      let type := if reqId =? 0 then PC_MSG_NOTIFY else PC_MSG_REQUEST in
      msg_buf ← msg_block_of (if route_code >? 0 then pc_msg_encode_code malloc_msg junk reqId type route_code body
                              else pc_msg_encode_route malloc_msg junk reqId type (bytes_of route) body);
      match b_bytes msg_buf with
      | None => encode_error msg_buf body_buf
      | Some _ => _ ← pc_jsonp_free (b_base body_buf); mret msg_buf
      end
  end.

(** The length -1 is positive as a [size_t]: the base is null then. *)
Definition pc__default_msg_encode_done_cb (buf : buf_block) : mem unit :=
  match b_bytes buf with
  | Some bs => if 0 <? zlen bs then free (b_base buf) else mret tt
  | None => free (b_base buf)
  end.
End Codec.

(** ** Ownership *)

(** The memory [M0] with the blocks [ps] on top, and the same hooks. *)
Record owns (M0 : memory) (ps : list (positive * allocator)) (M : memory) : Prop := {
  ow_live : live M = list_to_map ps ∪ live M0;
  ow_nodup : NoDup ps.*1;
  ow_apart : ∀ p, p ∈ ps.*1 → live M0 !! p = None;
  ow_old : ∀ p, is_Some (live M0 !! p) → (p < fresh M)%positive;
  ow_new : ∀ p, p ∈ ps.*1 → (p < fresh M)%positive;
  ow_hooks : pc_hooks M = pc_hooks M0 ∧ json_hooks M = json_hooks M0
}.

Lemma owns_perm M0 ps ps' M : ps ≡ₚ ps' → owns M0 ps M → owns M0 ps' M.
Proof.
  intros Hp [H1 H2 H3 H4 H5 H6]. split; [|by rewrite <- Hp| | done| |done].
  - rewrite H1. f_equal. by apply list_to_map_proper.
  - intros p Hin. apply H3. by rewrite Hp.
  - intros p Hin. apply H5. by rewrite Hp.
Qed.

Lemma owns_nil M0 M : owns M0 [] M → live M = live M0.
Proof. intros [-> _ _ _ _ _]. apply (map_empty_union (live M0)). Qed.

Lemma take_owns a M0 ps M : owns M0 ps M →
  ∃ p M', take_block a true M = Val (M', Some p) ∧ owns M0 ((p, a) :: ps) M'.
Proof.
  intros O. eexists _, _. split; [done|]. pose proof O as [H1 H2 H3 H4 H5 H6].
  assert (live M0 !! fresh M = None) as Hn0.
  { destruct (live M0 !! fresh M) eqn:E; [|done]. assert (fresh M < fresh M)%positive by (apply H4; by eexists). lia. }
  assert (fresh M ∉ ps.*1) as Hn by (intros Hin; apply H5 in Hin; lia).
  split; cbn [live fresh pc_hooks json_hooks].
  - rewrite H1. simpl. by rewrite insert_union_l.
  - simpl. by apply list.NoDup_cons.
  - simpl. intros p [->|Hin]%elem_of_cons; [done|by apply H3].
  - intros p Hp. apply H4 in Hp. lia.
  - simpl. intros p [->|Hin]%elem_of_cons; [lia|]. apply H5 in Hin. lia.
  - done.
Qed.

Lemma give_back_owns a p M0 ps M : owns M0 ((p, a) :: ps) M →
  ∃ M', give_back a p M = Val (M', tt) ∧ owns M0 ps M'.
Proof.
  intros [H1 H2 H3 H4 H5 H6]. simpl in *. apply list.NoDup_cons in H2 as [Hn H2].
  assert (live M !! p = Some a) as E by (rewrite H1, <- insert_union_l; apply lookup_insert_eq).
  unfold give_back. rewrite bool_decide_true by done. eexists. split; [done|]. split; cbn [live fresh pc_hooks json_hooks].
  - rewrite H1, <- insert_union_l, delete_insert_id; [done|]. apply lookup_union_None. split; [by apply not_elem_of_list_to_map_1|].
    apply H3. by constructor.
  - done.
  - intros q Hq. apply H3. by constructor.
  - done.
  - intros q Hq. apply H5. by constructor.
  - done.
Qed.

(** ** Running *)

Lemma mem_bind_Val {A B} (m : mem A) (f : A → mem B) M M' a : m M = Val (M', a) → (m ≫= f) M = f a M'.
Proof. unfold mbind, mem_bind. by intros ->. Qed.

Lemma mem_ret_bind {A B} (a : A) (f : A → mem B) M : (mret a ≫= f) M = f a M.
Proof. done. Qed.

Lemma calc_bind {A B} (e : exec A) (f : A → mem B) M a : e = Val a → (calc e ≫= f) M = f a M.
Proof. by intros ->. Qed.

(** Blocks of [malloc]. *)
Definition opt_block (p : option positive) : list (positive * allocator) := (λ p, (p, Libc)) <$> option_list p.

Lemma free_owns p M0 ps M : owns M0 (opt_block p ++ ps) M → ∃ M', free p M = Val (M', tt) ∧ owns M0 ps M'.
Proof. destruct p as [p|]; [apply give_back_owns|]. intros O. by exists M. Qed.

Definition raw_blocks (rb : raw_block) : list (positive * allocator) :=
  opt_block (rb_route rb) ++ opt_block (rb_body rb) ++ opt_block (Some (rb_self rb)).

(** What [pc__raw_msg_destroy] looks at tells which blocks there are. *)
Definition raw_ok (rb : raw_block) : Prop :=
  (compressRoute (rb_msg rb) ≠ 0 → rb_route rb = None) ∧ (zlen (raw_body (rb_msg rb)) ≤ 0 → rb_body rb = None).

Lemma raw_destroy_owns rb M0 ps M : raw_ok rb → owns M0 (raw_blocks rb ++ ps) M →
  ∃ M', pc__raw_msg_destroy rb M = Val (M', tt) ∧ owns M0 ps M'.
Proof.
  intros [Hr Hb] O. unfold pc__raw_msg_destroy. unfold raw_blocks in O. rewrite <- !app_assoc in O.
  destruct (free_owns _ _ _ _ O) as (M1 & E1 & O1). destruct (free_owns _ _ _ _ O1) as (M2 & E2 & O2).
  destruct (free_owns _ _ _ _ O2) as (M3 & E3 & O3). exists M3. split; [|done].
  erewrite mem_bind_Val.
  2: { destruct (compressRoute (rb_msg rb) =? 0) eqn:E; [exact E1|]. rewrite Hr in E1 by blia. exact E1. }
  erewrite mem_bind_Val; [exact E3|]. destruct (0 <? _) eqn:E; [exact E2|]. rewrite Hb in E2 by blia. exact E2.
Qed.

Section Safe.
Context (malloc_ok : Z → bool).
Implicit Types (M : memory) (ps : list (positive * allocator)).

Lemma malloc_fails n M : malloc_ok n = false → malloc malloc_ok n M = Val (M, None).
Proof. unfold malloc, take_block. by intros ->. Qed.

Lemma malloc_owns n M0 ps M : malloc_ok n = true → owns M0 ps M →
  ∃ p M', malloc malloc_ok n M = Val (M', Some p) ∧ owns M0 (opt_block (Some p) ++ ps) M'.
Proof. intros Hn O. unfold malloc. rewrite Hn. by apply take_owns. Qed.

Lemma decode_error_owns {A} p route M0 ps M : owns M0 (opt_block route ++ opt_block (Some p) ++ ps) M →
  ∃ M', decode_error (A := A) p route M = Val (M', None) ∧ owns M0 ps M'.
Proof.
  intros O. assert (owns M0 (opt_block (Some p) ++ opt_block route ++ ps) M) as O'.
  { eapply owns_perm, O. rewrite !app_assoc. f_equiv. apply Permutation_app_comm. }
  destruct (free_owns _ _ _ _ O') as (M1 & E1 & O1). destruct (free_owns _ _ _ _ O1) as (M2 & E2 & O2).
  exists M2. split; [|done]. unfold decode_error. rewrite (mem_bind_Val _ _ _ _ _ E1), (mem_bind_Val _ _ _ _ _ E2). done.
Qed.

Lemma decode_route_owns data len offset compress r M0 ps M :
  msg_decode_route malloc_ok data len offset compress = Val r → owns M0 ps M →
  ∃ M' p, decode_route malloc_ok data len offset compress M = Val (M', (p, r)) ∧ owns M0 (opt_block p ++ ps) M' ∧
    (compress ≠ 0 → p = None).
Proof.
  unfold msg_decode_route, decode_route. intros E O. destruct (negb (compress =? 0)) eqn:Ec.
  - destruct (_ >? len); [injection E as <-; by exists M, None|].
    destruct (rd data offset) as [hi| |]; [|done..]. destruct (rd data (offset + 1)) as [lo| |]; [|done..].
    injection E as <-. by exists M, None.
  - assert (compress = 0) as -> by blia. destruct (_ >? len); [injection E as <-; by exists M, None|].
    destruct (rd data offset) as [b| |]; [|done..]. rewrite bind_Val in E. rewrite (calc_bind _ _ M b eq_refl). cbv zeta in *.
    destruct (negb (u64 (s8 b) =? 0)); [|injection E as <-; by exists M, None].
    destruct (malloc_ok (u64 (u64 (s8 b) + 1))) eqn:Em; cbn [negb] in E.
    2: { injection E as <-. exists M, None. split; [|done]. by rewrite (mem_bind_Val _ _ _ _ _ (malloc_fails _ M Em)). }
    destruct (malloc_owns _ _ _ _ Em O) as (p & M1 & E1 & O1). rewrite (mem_bind_Val _ _ _ _ _ E1). exists M1, (Some p).
    destruct (_ >? len); [by injection E as <-|]. destruct (require _) as [[]| |]; [|done..]. rewrite bind_Val in E.
    destruct (memcpy_from _ _ _) as [str| |]; [|done..]. by injection E as <-.
Qed.

Lemma decode_body_owns data len offset body M0 ps M :
  (if negb (u64 (len - offset) =? 0) then _ ← require (malloc_ok (u64 (len - offset))); memcpy_from data offset (u64 (len - offset))
   else Val []) = Val body → owns M0 ps M →
  ∃ M' p, decode_body malloc_ok data len offset M = Val (M', (p, body)) ∧ owns M0 (opt_block p ++ ps) M' ∧ (zlen body ≤ 0 → p = None).
Proof.
  unfold decode_body. intros E O. cbv zeta. destruct (negb (u64 (len - offset) =? 0)) eqn:El; [|injection E as <-; by exists M, None].
  destruct (malloc_ok (u64 (len - offset))) eqn:Em; [|done]. destruct (malloc_owns _ _ _ _ Em O) as (p & M1 & E1 & O1).
  rewrite (mem_bind_Val _ _ _ _ _ E1). cbn [require] in E. rewrite bind_Val in E. rewrite E. exists M1, (Some p). split; [done|]. split; [done|].
  intros Hz. exfalso. unfold memcpy_from in E. destruct (_ && _) eqn:Eb; [|done]. injection E as <-. pose proof (wrap_range 64 (len - offset)).
  rewrite !andb_true_iff in Eb. unfold zlen in *. rewrite length_take, length_drop in Hz. blia.
Qed.

Lemma decode_owns data len r M0 ps M : Message.pc_msg_decode malloc_ok data len = Val r → owns M0 ps M →
  ∃ M' rb, pc_msg_decode malloc_ok data len M = Val (M', rb) ∧ option_map rb_msg rb = r ∧
    match rb with Some rb => raw_ok rb ∧ owns M0 (raw_blocks rb ++ ps) M' | None => owns M0 ps M' end.
Proof.
  unfold Message.pc_msg_decode, pc_msg_decode. intros E O. destruct (malloc_ok sizeof_raw) eqn:Em; cbn [negb] in E.
  2: { injection E as <-. rewrite (mem_bind_Val _ _ _ _ _ (malloc_fails _ M Em)). by exists M, None. }
  destruct (malloc_owns _ _ _ _ Em O) as (self & M1 & E1 & O1). rewrite (mem_bind_Val _ _ _ _ _ E1).
  assert (∃ M', decode_error (A := raw_block) self None M1 = Val (M', None) ∧ owns M0 ps M') as (M2 & E2 & O2) by (by apply decode_error_owns).
  destruct (_ >? len); [injection E as <-; by exists M2, None|]. destruct (rd data 0) as [b| |]; [|done..]. rewrite bind_Val in E.
  rewrite (calc_bind _ _ M1 b eq_refl). cbv zeta in *. set (type := Z.land (Z.shiftr (u8 b) 1) 255) in *. set (compress := Z.land (u8 b) 1) in *.
  destruct (negb (PC_MSG_VALIDATE type)); [injection E as <-; by exists M2, None|].
  destruct (PC_MSG_HAS_ID type && _); [injection E as <-; by exists M2, None|].
  destruct (if PC_MSG_HAS_ID type then _ else _) as [[id offset]| |]; [|done..]. rewrite bind_Val in E. rewrite (calc_bind _ _ M1 (id, offset) eq_refl).
  destruct (if PC_MSG_HAS_ROUTE type then msg_decode_route _ _ _ _ _ else _) as [ro| |] eqn:Er; [|done..]. rewrite bind_Val in E.
  assert (∃ M' p, (if PC_MSG_HAS_ROUTE type then decode_route malloc_ok data len offset compress else mret (None, Some (RNull, offset))) M1
    = Val (M', (p, ro)) ∧ owns M0 (opt_block p ++ opt_block (Some self) ++ ps) M' ∧ (compress ≠ 0 → p = None)) as (M3 & p & E3 & O3 & Hc).
  { destruct (PC_MSG_HAS_ROUTE type); [by apply decode_route_owns|]. injection Er as <-. by exists M1, None. }
  rewrite (mem_bind_Val _ _ _ _ _ E3). destruct ro as [[route offset']|].
  2: { injection E as <-. destruct (decode_error_owns (A := raw_block) _ _ _ _ _ O3) as (M4 & E4 & O4). by exists M4, None. }
  destruct (if negb (u64 (len - offset') =? 0) then _ else _) as [body| |] eqn:Eb; [|done..]. rewrite bind_Val in E. injection E as <-.
  destruct (decode_body_owns _ _ _ _ _ _ _ Eb O3) as (M4 & q & E4 & O4 & Hb). rewrite (mem_bind_Val _ _ _ _ _ E4). eexists M4, (Some _).
  split; [done|]. split; [done|]. split; [by split|]. unfold raw_blocks. cbn [rb_route rb_body rb_self]. rewrite <- !app_assoc.
  eapply owns_perm, O4. rewrite !app_assoc. do 2 f_equiv. apply Permutation_app_comm.
Qed.

(** ** The blocks of a message *)

Definition json_of M : allocator := do_malloc (json_hooks M).

Lemma json_block_owns {A} (r : exec (option A)) o M0 ps M : r = Val o → owns M0 ps M →
  ∃ M' j, json_block r M = Val (M', j) ∧ option_map snd j = o ∧
    owns M0 (((λ j, (fst j, json_of M0)) <$> option_list j) ++ ps) M'.
Proof.
  intros -> O. unfold json_block. rewrite (calc_bind _ _ M o eq_refl). destruct o as [x|]; [|by exists M, None].
  destruct (take_owns (json_of M0) _ _ _ O) as (p & M1 & E1 & O1). exists M1, (Some (p, x)).
  unfold json_of in *. rewrite <- (proj2 (ow_hooks _ _ _ O)) in *.
  split; [|done]. unfold get_json_hooks at 1. unfold mbind at 1, mem_bind at 1. rewrite bind_Val. by rewrite (mem_bind_Val _ _ _ _ _ E1).
Qed.

Definition msg_blocks M0 (mb : msg_block) : list (positive * allocator) :=
  opt_block (option_map fst (mb_route mb)) ++ ((λ j, (fst j, json_of M0)) <$> option_list (mb_msg mb)) ++ opt_block (Some (mb_self mb)).

Definition msg_of (mb : msg_block) : pc_msg_t := mkMsg (mb_id mb) (option_map snd (mb_route mb)) (option_map snd (mb_msg mb)).

(** Jansson frees with the function that goes with its allocations. *)
Definition paired M0 : Prop := do_free (json_hooks M0) = do_malloc (json_hooks M0).

Lemma msg_destroy_owns mb M0 ps M : paired M0 → owns M0 (msg_blocks M0 mb ++ ps) M →
  ∃ M', pc_msg_destroy (Some mb) M = Val (M', tt) ∧ owns M0 ps M'.
Proof.
  intros Hp O. unfold msg_blocks in O. rewrite <- !app_assoc in O. cbn [pc_msg_destroy].
  destruct (free_owns _ _ _ _ O) as (M1 & E1 & O1). rewrite (mem_bind_Val _ _ _ _ _ E1).
  assert (∃ M2, match mb_msg mb with Some (json, _) => json_decref json | None => mret tt end M1 = Val (M2, tt) ∧ owns M0 (opt_block (Some (mb_self mb)) ++ ps) M2)
    as (M2 & E2 & O2).
  { destruct (mb_msg mb) as [[j x]|]; [|by exists M1]. cbn [option_list fmap list_fmap fst app] in O1.
    unfold json_decref, jsonp_free, get_json_hooks. unfold mbind, mem_bind. rewrite bind_Val, (proj2 (ow_hooks _ _ _ O1)), Hp. by apply give_back_owns. }
  rewrite (mem_bind_Val _ _ _ _ _ E2). by apply free_owns.
Qed.

Definition msg_opt_blocks M0 (mb : option msg_block) : list (positive * allocator) := from_option (msg_blocks M0) [] mb.

Lemma parse_error_owns raw mb M0 ps M : paired M0 → raw_ok raw → owns M0 (raw_blocks raw ++ msg_opt_blocks M0 mb ++ ps) M →
  ∃ M', parse_error (Some raw) mb M = Val (M', None) ∧ owns M0 ps M'.
Proof.
  intros Hp Hr O. destruct (raw_destroy_owns _ _ _ _ Hr O) as (M1 & E1 & O1). unfold parse_error. rewrite (mem_bind_Val _ _ _ _ _ E1).
  destruct mb as [mb|]; [|by exists M1]. destruct (msg_destroy_owns _ _ _ _ Hp O1) as (M2 & E2 & O2).
  exists M2. by rewrite (mem_bind_Val _ _ _ _ _ E2).
Qed.

(** The route part of [Protocol.pc__default_msg_parse_cb]. *)
Lemma parse_route_owns c lookup raw o M0 ps M :
  (if PC_MSG_HAS_ROUTE (raw_type raw) then
     let origin_route :=
       if negb (compressRoute raw =? 0) then
         match raw_route raw with RCode code => Val (pc__resolve_dictionary c code) | _ => UB end
       else
         match raw_route raw with RStr str => Val (Some (string_of (until_nul str))) | RNull => UB | RCode _ => UB end in
     o ← origin_route;
     match o with
     | None => Val None
     | Some origin_route => if negb (malloc_ok (strlen origin_route + 1)) then Val None else Val (Some (Some origin_route, origin_route))
     end
   else
     req ← lookup (sprintf_u (raw_id raw));
     match req with None => Val None | Some req_route => Val (Some (None, req_route)) end) = Val o → owns M0 ps M →
  ∃ M' rt, parse_route malloc_ok c lookup raw M = Val (M', rt) ∧
    option_map (λ x, (option_map snd (fst x), snd x)) rt = o ∧ owns M0 (opt_block (rt ≫= λ x, option_map fst (fst x)) ++ ps) M'.
Proof.
  unfold parse_route. intros E O. destruct (PC_MSG_HAS_ROUTE (raw_type raw)).
  - cbv zeta in E. set (x := if negb (compressRoute raw =? 0) then _ else _) in E.
    match goal with |- context [calc ?e] => change e with x end. destruct x as [[origin|]| |]; [| |done..].
    2: { injection E as <-. by exists M, None. }
    rewrite bind_Val in E. rewrite (calc_bind _ _ M _ eq_refl). destruct (malloc_ok (strlen origin + 1)) eqn:Em; cbn [negb] in E; injection E as <-.
    + destruct (malloc_owns _ _ _ _ Em O) as (p & M1 & E1 & O1). rewrite (mem_bind_Val _ _ _ _ _ E1). by exists M1, (Some (Some (p, origin), origin)).
    + rewrite (mem_bind_Val _ _ _ _ _ (malloc_fails _ M Em)). by exists M, None.
  - destruct (lookup _) as [[req|]| |]; [| |done..]; injection E as <-; [by exists M, (Some (None, req))|by exists M, None].
Qed.

Lemma lose_owns n M0 ps M : owns M0 ps M → ∃ M' leak, lose n M = Val (M', tt) ∧ length leak = n ∧ owns M0 (leak ++ ps) M'.
Proof.
  revert ps M. induction n as [|n IH]; intros ps M O; cbn [lose]; [by exists M, []|].
  unfold get_json_hooks at 1. unfold mbind at 1, mem_bind at 1. rewrite bind_Val.
  destruct (take_owns (do_malloc (json_hooks M)) _ _ _ O) as (p & M1 & E1 & O1). rewrite (mem_bind_Val _ _ _ _ _ E1).
  destruct (IH _ _ O1) as (M' & leak & E & El & O'). exists M', (leak ++ [(p, do_malloc (json_hooks M))]). split; [done|].
  split; [rewrite length_app; cbn; lia|]. by rewrite <- app_assoc.
Qed.

(** The message has a protobuf body that cannot be decoded. *)
Definition bad_pb_body (fuel : nat) (c : codec_ctx) (n : nat) : Prop := ∃ route pb_def body,
  json_object_get (server_protos c) route = Some pb_def ∧
  pc__pb_decode malloc_ok fuel body 0 (zlen body) (server_protos c) (Some pb_def) = Val None ∧
  n = pb_body_lost malloc_ok fuel body (server_protos c) (Some pb_def).

Lemma parse_body_owns fuel c route body o M0 ps M :
  match json_object_get (server_protos c) route with
  | Some pb_def => pc__pb_decode malloc_ok fuel body 0 (zlen body) (server_protos c) (Some pb_def)
  | None => pc__json_decode malloc_ok body 0 (zlen body)
  end = Val o → owns M0 ps M →
  ∃ M' j leak, parse_body malloc_ok fuel c route body M = Val (M', j) ∧ option_map snd j = o ∧
    (leak = [] ∨ o = None ∧ bad_pb_body fuel c (length leak)) ∧
    owns M0 (((λ j, (fst j, json_of M0)) <$> option_list j) ++ leak ++ ps) M'.
Proof.
  unfold parse_body. intros E O. destruct (json_object_get (server_protos c) route) as [pb_def|] eqn:Er.
  - destruct (json_block_owns _ _ _ _ _ E O) as (M1 & j & E1 & Hj & O1). rewrite (mem_bind_Val _ _ _ _ _ E1). destruct j as [j|]; subst o.
    + exists M1, (Some j), []. split; [done|]. split; [done|]. split; [by left|done].
    + destruct (lose_owns (pb_body_lost malloc_ok fuel body (server_protos c) (Some pb_def)) _ _ _ O1) as (M2 & leak & E2 & El & O2).
      rewrite (mem_bind_Val _ _ _ _ _ E2). exists M2, None, leak. split; [done|]. split; [done|]. split; [right; split; [done|]|done].
      by exists route, pb_def, body.
  - destruct (json_block_owns _ _ _ _ _ E O) as (M1 & j & E1 & Hj & O1). exists M1, j, []. split; [done|]. split; [done|]. split; [by left|done].
Qed.

Lemma parse_owns fuel c lookup data len r M0 ps M : paired M0 →
  Protocol.pc__default_msg_parse_cb malloc_ok fuel c lookup data len = Val r → owns M0 ps M →
  ∃ M' mb leak, pc__default_msg_parse_cb malloc_ok fuel c lookup data len M = Val (M', mb) ∧ option_map msg_of mb = r ∧
    (leak = [] ∨ r = None ∧ bad_pb_body fuel c (length leak)) ∧
    owns M0 (msg_opt_blocks M0 mb ++ leak ++ ps) M'.
Proof.
  unfold Protocol.pc__default_msg_parse_cb, pc__default_msg_parse_cb. intros Hp E O.
  destruct (Message.pc_msg_decode malloc_ok data len) as [raw| |] eqn:Ed; [|done..]. rewrite bind_Val in E.
  destruct (decode_owns _ _ _ _ _ _ Ed O) as (M1 & rb & E1 & Hrb & O1). rewrite (mem_bind_Val _ _ _ _ _ E1).
  destruct rb as [rb|]; subst raw; cbn [option_map] in E; [|injection E as <-; exists M1, None, []; by do 2 (split; [done|]); split; [left|]]. destruct O1 as [Hok O1].
  destruct (malloc_ok sizeof_msg) eqn:Em; cbn [negb] in E.
  2: { injection E as <-. rewrite (mem_bind_Val _ _ _ _ _ (malloc_fails _ M1 Em)).
       destruct (parse_error_owns rb None M0 ps M1 Hp Hok O1) as (M2 & E2 & O2). exists M2, None, []. by do 2 (split; [done|]); split; [left|]. }
  destruct (malloc_owns _ _ _ _ Em O1) as (self & M2 & E2 & O2). rewrite (mem_bind_Val _ _ _ _ _ E2).
  apply bind_Val_inv in E as (rt & Er & E). destruct (parse_route_owns c lookup (rb_msg rb) rt M0 _ M2 Er O2) as (M3 & rt' & E3 & Hrt & O3).
  rewrite (mem_bind_Val _ _ _ _ _ E3). clear Er. subst rt.
  assert (∀ (route : option (positive * string)) json M',
    owns M0 (((λ j, (fst j, json_of M0)) <$> option_list json) ++ opt_block (option_map fst route) ++ opt_block (Some self) ++ raw_blocks rb ++ ps) M' →
    owns M0 (raw_blocks rb ++ msg_blocks M0 (mkMsgBlock self (raw_id (rb_msg rb)) route json) ++ ps) M') as Harr.
  { intros route json M'. apply owns_perm. unfold msg_blocks. cbn [mb_route mb_msg mb_self]. solve_Permutation. }
  destruct rt' as [[route route_str]|]; cbn [option_map fst snd] in E.
  2: { injection E as <-. destruct (parse_error_owns rb (Some (mkMsgBlock self (raw_id (rb_msg rb)) None None)) M0 ps M3 Hp Hok) as (M4 & E4 & O4).
       { by apply (Harr None None). } exists M4, None, []. by do 2 (split; [done|]); split; [left|]. }
  cbn [mbind option_bind] in O3. destruct (0 <? zlen (raw_body (rb_msg rb))).
  - apply bind_Val_inv in E as (m & Ej & E). destruct (parse_body_owns _ _ _ _ _ _ _ _ Ej O3) as (M4 & j & leak & E4 & Hj & Hlk & O4).
    rewrite (mem_bind_Val _ _ _ _ _ E4). subst m. destruct j as [j|]; cbn [option_map] in E; injection E as <-.
    + destruct Hlk as [->|[? _]]; [|done]. apply (Harr route (Some j)) in O4. destruct (raw_destroy_owns _ _ _ _ Hok O4) as (M5 & E5 & O5). rewrite (mem_bind_Val _ _ _ _ _ E5).
      eexists M5, (Some _), []. by do 2 (split; [done|]); split; [left|].
    + destruct (parse_error_owns rb (Some (mkMsgBlock self (raw_id (rb_msg rb)) route None)) M0 (leak ++ ps) M4 Hp Hok) as (M5 & E5 & O5).
      { eapply owns_perm, O4. unfold msg_blocks. cbn [mb_route mb_msg mb_self option_list fmap list_fmap]. solve_Permutation. } exists M5, None, leak.
      do 2 (split; [done|]). split; [|done]. destruct Hlk as [->|[_ ?]]; [by left|by right].
  - injection E as <-. apply (Harr route None) in O3. destruct (raw_destroy_owns _ _ _ _ Hok O3) as (M5 & E5 & O5).
    rewrite (mem_bind_Val _ _ _ _ _ E5). eexists M5, (Some _), []. by do 2 (split; [done|]); split; [left|].
Qed.

(** ** The blocks of an encoded message *)

Lemma memcpy_to_zlen buf off src b : memcpy_to buf off src = Val b → zlen b = zlen buf ∧ zlen src ≤ zlen buf.
Proof.
  unfold memcpy_to. destruct (_ && _) eqn:E; [|done]. intros [= <-]. unfold zlen in *. rewrite !length_app, length_take, length_drop. blia.
Qed.

Lemma encode_id_loop_zlen fuel : ∀ id base offset r, msg_encode_id_loop fuel id base offset = Val r → zlen (fst r) = zlen base.
Proof.
  induction fuel as [|fuel IH]; intros id base offset r E; cbn [msg_encode_id_loop] in E; [done|].
  apply bind_Val_inv in E as (b & Eb & E). apply memcpy_to_zlen in Eb as [Eb _]. cbv zeta in E.
  destruct (negb (id / 128 =? 0)); [apply IH in E; congruence|]. by injection E as <-.
Qed.

Lemma encode_flag_zlen type compress base r : pc__msg_encode_flag type compress base 0 = Val r → zlen (fst r) = zlen base ∧ 0 < zlen base.
Proof.
  unfold pc__msg_encode_flag. intros E. apply bind_Val_inv in E as (b & Eb & E). injection E as <-.
  apply memcpy_to_zlen in Eb as [Eb H]. change (zlen [_]) with 1 in H. cbn [fst]. lia.
Qed.

Lemma encode_id_zlen (b : bool) id base offset r :
  (if b then pc__msg_encode_id id base offset else Val (base, offset)) = Val r → zlen (fst r) = zlen base.
Proof. destruct b; [apply encode_id_loop_zlen|by intros [= <-]]. Qed.

Lemma encoded_nonempty malloc_msg junk id type bs :
  (∀ route msg, pc_msg_encode_route malloc_msg junk id type route msg = Val (Some bs) → 0 < zlen bs) ∧
  (∀ code msg, pc_msg_encode_code malloc_msg junk id type code msg = Val (Some bs) → 0 < zlen bs).
Proof.
  split; intros x msg E.
  - unfold pc_msg_encode_route in E. apply bind_Val_inv in E as (n & _ & E). cbv zeta in E. destruct malloc_msg; [|done]. cbn [negb] in E.
    apply bind_Val_inv in E as ([b1 o1] & E1 & E). apply encode_flag_zlen in E1 as [E1 Hp]. apply bind_Val_inv in E as ([b2 o2] & E2 & E).
    apply encode_id_zlen in E2. apply bind_Val_inv in E as ([b3 o3] & E3 & E). apply bind_Val_inv in E as (b4 & E4 & E). injection E as <-.
    apply memcpy_to_zlen in E4 as [E4 _]. cbn [fst] in *. assert (zlen b3 = zlen b2); [|lia]. destruct (PC_MSG_HAS_ROUTE type); [|by injection E3 as <- <-].
    unfold pc__msg_encode_route in E3. apply bind_Val_inv in E3 as (b5 & [E5 _]%memcpy_to_zlen & E3). apply bind_Val_inv in E3 as (s & _ & E3).
    apply bind_Val_inv in E3 as (b6 & [E6 _]%memcpy_to_zlen & E3). injection E3 as <- <-. lia.
  - unfold pc_msg_encode_code in E. apply bind_Val_inv in E as (n & _ & E). cbv zeta in E. destruct malloc_msg; [|done]. cbn [negb] in E.
    apply bind_Val_inv in E as ([b1 o1] & E1 & E). apply encode_flag_zlen in E1 as [E1 Hp]. apply bind_Val_inv in E as ([b2 o2] & E2 & E).
    apply encode_id_zlen in E2. apply bind_Val_inv in E as ([b3 o3] & E3 & E). apply bind_Val_inv in E as (b4 & E4 & E). injection E as <-.
    apply memcpy_to_zlen in E4 as [E4 _]. cbn [fst] in *. assert (zlen b3 = zlen b2); [|lia]. destruct (PC_MSG_HAS_ROUTE type); [|by injection E3 as <- <-].
    apply bind_Val_inv in E3 as (b5 & [E5 _]%memcpy_to_zlen & E3).
    apply bind_Val_inv in E3 as (b6 & [E6 _]%memcpy_to_zlen & E3). injection E3 as <- <-. lia.
Qed.

(** A buffer with the allocator its block came from. *)
Definition buf_blocks (a : allocator) (b : buf_block) : list (positive * allocator) := (λ p, (p, a)) <$> option_list (b_base b).

(** The library frees with the function that goes with Jansson's allocations. *)
Definition synced M0 : Prop := do_free (pc_hooks M0) = do_malloc (json_hooks M0).

Lemma pc_jsonp_free_owns a b M0 ps M : do_free (pc_hooks M0) = a → owns M0 (buf_blocks a b ++ ps) M →
  ∃ M', pc_jsonp_free (b_base b) M = Val (M', tt) ∧ owns M0 ps M'.
Proof.
  intros <- O. unfold pc_jsonp_free, get_pc_hooks. unfold mbind, mem_bind. rewrite bind_Val, (proj1 (ow_hooks _ _ _ O)).
  unfold buf_blocks in O. destruct (b_base b) as [p|]; [|by exists M]. by apply give_back_owns.
Qed.

Lemma json_encode_owns msg o M0 ps M : json_dumps malloc_ok msg JSON_COMPACT = Val o → owns M0 ps M →
  ∃ M' b, pc__json_encode malloc_ok msg M = Val (M', b) ∧ b_bytes b = o ∧ (o = None → b_base b = None) ∧ owns M0 (buf_blocks (json_of M0) b ++ ps) M'.
Proof.
  intros E O. destruct (json_block_owns _ _ _ _ _ E O) as (M1 & j & E1 & Hj & O1). unfold pc__json_encode. rewrite (mem_bind_Val _ _ _ _ _ E1).
  destruct j as [[p text]|]; subst o; [by exists M1, (mkBuf (Some p) (Some text))|by exists M1, (mkBuf None None)].
Qed.

(** The protobuf encoder fails after the JSON text was made, which is then lost. *)
Definition text_lost (fuel : nat) (junk : Z) (msg gprotos pb_def : option json_t) : bool :=
  match json_dumps malloc_ok msg JSON_COMPACT with
  | Val (Some text) =>
      let eval_size := u64 (zlen text * PC_PB_EVAL_FACTOR) in
      negb (malloc_ok eval_size) ||
      match pc_pb_encode fuel (malloc_block junk eval_size) eval_size gprotos pb_def (default JNull msg) with Val None => true | _ => false end
  | _ => false
  end.

Lemma pb_encode_owns fuel junk msg gprotos pb_def o M0 ps M : synced M0 →
  Protocol.pc__pb_encode malloc_ok fuel junk msg gprotos pb_def = Val o → owns M0 ps M →
  ∃ M' b leak, pc__pb_encode malloc_ok fuel junk msg gprotos pb_def M = Val (M', b) ∧ b_bytes b = o ∧ (o = None → b_base b = None) ∧
    (∀ text, json_dumps malloc_ok msg JSON_COMPACT = Val (Some text) → malloc_ok (u64 (zlen text * PC_PB_EVAL_FACTOR)) = true →
       is_Some (b_base b) ∧ is_Some o) ∧
    length leak = (if text_lost fuel junk msg gprotos pb_def then 1 else 0)%nat ∧ owns M0 (buf_blocks Libc b ++ leak ++ ps) M'.
Proof.
  unfold Protocol.pc__pb_encode, Protocol.pc__json_encode, pc__pb_encode, text_lost. intros Hs E O.
  destruct (json_dumps malloc_ok msg JSON_COMPACT) as [t| |] eqn:Ej; [|done..]. rewrite bind_Val in E.
  destruct (json_encode_owns _ _ _ _ _ Ej O) as (M1 & jb & E1 & Hb & Hn & O1). rewrite (mem_bind_Val _ _ _ _ _ E1), Hb.
  destruct t as [text|]; cbv zeta in *.
  2: { injection E as <-. unfold pb_encode_error. rewrite Hb, Hn by done. unfold buf_blocks in O1. rewrite Hn in O1 by done.
       exists M1, (mkBuf None (Some [])), []. do 3 (split; [done|]). split; [|done]. by intros text [=]. }
  set (eval_size := u64 (zlen text * PC_PB_EVAL_FACTOR)) in *. destruct (malloc_ok eval_size) eqn:Em; cbn [negb orb] in *.
  2: { injection E as <-. rewrite (mem_bind_Val _ _ _ _ _ (malloc_fails _ M1 Em)). unfold pb_encode_error. rewrite Hb. cbn [b_bytes b_base].
       unfold buf_blocks in *. destruct (b_base jb) as [p|] eqn:Ep.
       - exists M1, (mkBuf None None), [(p, json_of M0)]. do 3 (split; [done|]). split; [|done]. intros text' [= <-]. unfold eval_size in Em. congruence.
       - exfalso. clear -E1 Ep Ej. unfold pc__json_encode, json_block in E1. rewrite Ej in E1. by injection E1 as <- <-. }
  destruct (malloc_owns _ _ _ _ Em O1) as (q & M2 & E2 & O2). rewrite (mem_bind_Val _ _ _ _ _ E2).
  destruct (pc_pb_encode _ _ _ _ _ _) as [[[written base]|]| |]; [| |done..]; rewrite bind_Val in E.
  - rewrite (calc_bind _ _ M2 _ eq_refl). destruct (memcpy_from base 0 written) as [bs| |] eqn:Ec; [|done..]. rewrite bind_Val in E. injection E as <-.
    rewrite (calc_bind _ _ M2 bs) by done. destruct (pc_jsonp_free_owns (json_of M0) jb M0 (opt_block (Some q) ++ ps) M2 Hs) as (M3 & E3 & O3).
    { eapply owns_perm, O2. solve_Permutation. }
    rewrite (mem_bind_Val _ _ _ _ _ E3). exists M3, (mkBuf (Some q) (Some bs)), []. do 3 (split; [done|]). split; [|done]. by intros text' _ _.
  - injection E as <-. rewrite (calc_bind _ _ M2 None) by done. unfold pb_encode_error. rewrite Hb. unfold buf_blocks in O2. destruct (b_base jb) as [p|] eqn:Ep.
    + exists M2, (mkBuf (Some q) (Some [])), [(p, json_of M0)]. do 3 (split; [done|]). split; [|done]. by intros text' _ _.
    + exfalso. clear -E1 Ep Ej. unfold pc__json_encode, json_block in E1. rewrite Ej in E1. by injection E1 as <- <-.
Qed.

(** [pc__default_msg_encode_cb] once the body is encoded, freed with [a]. *)
Lemma encode_rest_owns a r o body M0 ps M : do_free (pc_hooks M0) = a → r = Val o → (∀ bs, o = Some bs → 0 < zlen bs) →
  is_Some (b_bytes body) → owns M0 (buf_blocks a body ++ ps) M →
  ∃ M' b, (msg_buf ← msg_block_of r;
     match b_bytes msg_buf with
     | None => encode_error msg_buf body
     | Some _ => _ ← pc_jsonp_free (b_base body); mret msg_buf
     end) M = Val (M', b) ∧ b_bytes b = o ∧ (o = None → b_base b = None) ∧ (∀ bs, o = Some bs → 0 < zlen bs) ∧ owns M0 (opt_block (b_base b) ++ ps) M'.
Proof.
  intros Ha -> Ho [bb Hbb] O. unfold msg_block_of. destruct o as [bs|].
  - assert (owns M0 (buf_blocks a body ++ ps) M) as O' by done. destruct (take_owns Libc _ _ _ O) as (p & M1 & E1 & O1).
    destruct (pc_jsonp_free_owns a body M0 (opt_block (Some p) ++ ps) M1 Ha) as (M2 & E2 & O2).
    { eapply owns_perm, O1. solve_Permutation. }
    exists M2, (mkBuf (Some p) (Some bs)). split; [|done]. erewrite mem_bind_Val.
    2: { rewrite (calc_bind _ _ M _ eq_refl). rewrite (mem_bind_Val _ _ _ _ _ E1). done. }
    cbn [b_bytes]. by rewrite (mem_bind_Val _ _ _ _ _ E2).
  - destruct (pc_jsonp_free_owns a body M0 ps M Ha O) as (M2 & E2 & O2). exists M2, (mkBuf None None). split; [|done].
    erewrite mem_bind_Val; [|done]. cbn [b_bytes]. unfold encode_error. rewrite Hbb. cbn [b_bytes b_base]. rewrite mem_ret_bind. by rewrite (mem_bind_Val _ _ _ _ _ E2).
Qed.

Definition lost fuel junk (c : codec_ctx) route msg : bool :=
  match json_object_get (client_protos c) route with
  | Some pb_def => text_lost fuel junk msg (client_protos c) (Some pb_def)
  | None => false
  end.

Lemma encode_owns fuel malloc_msg junk c reqId route msg r M0 ps M : synced M0 →
  (is_Some (json_object_get (client_protos c) route) → do_free (pc_hooks M0) = Libc) →
  Protocol.pc__default_msg_encode_cb malloc_ok fuel malloc_msg junk c reqId route msg = Val r → owns M0 ps M →
  ∃ M' b leak, pc__default_msg_encode_cb malloc_ok fuel malloc_msg junk c reqId route msg M = Val (M', b) ∧ b_bytes b = r ∧
    (r = None → b_base b = None) ∧ (∀ bs, r = Some bs → 0 < zlen bs) ∧
    length leak = (if lost fuel junk c route msg then 1 else 0)%nat ∧ owns M0 (opt_block (b_base b) ++ leak ++ ps) M'.
Proof.
  unfold Protocol.pc__default_msg_encode_cb, pc__default_msg_encode_cb, lost. intros Hs Hl E O. cbv zeta in *.
  assert (∃ o M1 body leak, (match json_object_get (client_protos c) route with
      | Some pb_def => Protocol.pc__pb_encode malloc_ok fuel junk msg (client_protos c) (Some pb_def)
      | None => Protocol.pc__json_encode malloc_ok msg end) = Val o ∧
    (match json_object_get (client_protos c) route with
      | Some pb_def => pc__pb_encode malloc_ok fuel junk msg (client_protos c) (Some pb_def)
      | None => pc__json_encode malloc_ok msg end) M = Val (M1, body) ∧ b_bytes body = o ∧ (o = None → b_base body = None) ∧
    length leak = (if match json_object_get (client_protos c) route with Some pb_def => text_lost fuel junk msg (client_protos c) (Some pb_def) | None => false end then 1 else 0)%nat ∧
    owns M0 (buf_blocks (do_free (pc_hooks M0)) body ++ leak ++ ps) M1) as (o & M1 & body & leak & Eo & E1 & Hb & Hn & Hlk & O1).
  { apply bind_Val_inv in E as (o & Eo & _). exists o. destruct (json_object_get (client_protos c) route) as [pb_def|].
    - destruct (pb_encode_owns _ _ _ _ _ _ _ _ _ Hs Eo O) as (M1 & b & leak & H1 & H2 & H3 & _ & H4 & H5). rewrite Hl by done. by exists M1, b, leak.
    - destruct (json_encode_owns _ _ _ _ _ Eo O) as (M1 & b & H1 & H2 & H3 & H4). exists M1, b, []. rewrite Hs. done. }
  rewrite Eo, bind_Val in E. rewrite (mem_bind_Val _ _ _ _ _ E1), Hb. destruct o as [bb|].
  - match type of E with ?x = _ => set (x0 := x) in * end. destruct (encode_rest_owns _ x0 r body M0 (leak ++ ps) M1 eq_refl E) as (M2 & b & E2 & H1 & H2 & H3 & O2).
    + intros bs ->. subst x0. destruct (_ >? 0); [eapply (proj2 (encoded_nonempty _ _ _ _ _)), E|eapply (proj1 (encoded_nonempty _ _ _ _ _)), E].
    + by rewrite Hb.
    + done.
    + subst x0. exists M2, b, leak. done.
  - injection E as <-. unfold encode_error. rewrite Hb. unfold buf_blocks in O1. rewrite Hn in O1 by done. by exists M1, (mkBuf None None), leak.
Qed.

(** ** Nothing is lost, and nothing is freed twice *)

(** No block is newer than the next one. *)
Definition sound M : Prop := ∀ p, is_Some (live M !! p) → (p < fresh M)%positive.

Lemma sound_owns M : sound M → owns M [] M.
Proof. intros Hs. split; try done. - symmetry. apply (map_empty_union (live M)). - apply NoDup_nil_2. - by intros p ?%not_elem_of_nil. - by intros p ?%not_elem_of_nil. Qed.


(** Encoding a message and disposing of the bytes frees every block, as
    long as blocks of [malloc] may be given to the hooks, except that the JSON text
    made to estimate the size of a protobuf body is lost when the protobuf encoding
    fails. *)
Theorem encoded_messages_freed M fuel malloc_msg junk c reqId route msg r : sound M → synced M →
  (is_Some (json_object_get (client_protos c) route) → do_free (pc_hooks M) = Libc) →
  Protocol.pc__default_msg_encode_cb malloc_ok fuel malloc_msg junk c reqId route msg = Val r →
  ∃ M1 b M2, pc__default_msg_encode_cb malloc_ok fuel malloc_msg junk c reqId route msg M = Val (M1, b) ∧ b_bytes b = r ∧
    pc__default_msg_encode_done_cb b M1 = Val (M2, tt) ∧
    if lost fuel junk c route msg then ∃ p a, live M !! p = None ∧ live M2 = <[p := a]> (live M) else live M2 = live M.
Proof.
  intros Hs Hy Hl E. destruct (encode_owns _ _ _ _ _ _ _ _ _ _ _ Hy Hl E (sound_owns M Hs)) as (M1 & b & leak & E1 & Hb & Hn & Hz & Hlk & O1).
  rewrite app_nil_r in O1. destruct (free_owns _ _ _ _ O1) as (M2 & E2 & O2). exists M1, b, M2. split; [done|]. split; [done|]. split.
  - unfold pc__default_msg_encode_done_cb. rewrite Hb. destruct r as [bs|]; [|done]. assert ((0 <? zlen bs) = true) as ->; [|done]. specialize (Hz bs eq_refl). blia.
  - destruct (lost fuel junk c route msg).
    + destruct leak as [|[p a] [|]]; [done| |done]. exists p, a. split; [apply (ow_apart _ _ _ O2); by constructor|].
      rewrite (ow_live _ _ _ O2). simpl. rewrite <- insert_union_l. f_equal. apply (map_empty_union (live M)).
    + destruct leak; [|done]. by apply owns_nil.
Qed.

Lemma wrong_free q M0 ps M : owns M0 (opt_block (Some q) ++ ps) M → do_free (pc_hooks M0) ≠ Libc → pc_jsonp_free (Some q) M = UB.
Proof.
  intros O Hn. unfold pc_jsonp_free, get_pc_hooks. unfold mbind, mem_bind. rewrite bind_Val, (proj1 (ow_hooks _ _ _ O)).
  cbn [give_back_opt]. unfold give_back. rewrite bool_decide_false; [done|]. rewrite (ow_live _ _ _ O). simpl. rewrite <- insert_union_l, lookup_insert_eq. congruence.
Qed.

(** When the user has installed allocation functions, encoding a
    protobuf body gives a block of [malloc] to the user's free function. *)
Theorem protobuf_mixes_allocators M fuel malloc_msg junk c reqId route msg r pb_def text : sound M → synced M →
  do_free (pc_hooks M) ≠ Libc → json_object_get (client_protos c) route = Some pb_def →
  json_dumps malloc_ok msg JSON_COMPACT = Val (Some text) → malloc_ok (u64 (zlen text * PC_PB_EVAL_FACTOR)) = true →
  Protocol.pc__default_msg_encode_cb malloc_ok fuel malloc_msg junk c reqId route msg = Val r →
  pc__default_msg_encode_cb malloc_ok fuel malloc_msg junk c reqId route msg M = UB.
Proof.
  unfold Protocol.pc__default_msg_encode_cb, pc__default_msg_encode_cb. intros Hs Hy Hn Hd Hj Hm E. cbv zeta in *. rewrite Hd in E |- *.
  apply bind_Val_inv in E as (o & Eo & E). destruct (pb_encode_owns _ _ _ _ _ _ _ _ _ Hy Eo (sound_owns M Hs)) as (M1 & b & leak & E1 & Hb & _ & Hsome & _ & O1).
  destruct (Hsome text Hj Hm) as [[q Hq] [bb ->]]. rewrite (mem_bind_Val _ _ _ _ _ E1), Hb. unfold buf_blocks in O1. rewrite Hq in O1. cbn [option_list fmap list_fmap] in O1.
  destruct r as [bs|]; unfold msg_block_of.
  - erewrite mem_bind_Val. 2: { rewrite (calc_bind _ _ M1 _ E). erewrite mem_bind_Val; [|done]. done. }
    cbn [b_bytes]. unfold mbind, mem_bind. rewrite Hq, (wrong_free q M (leak ++ [] ++ [(fresh M1, Libc)])); [done| |done].
    destruct (take_owns Libc _ _ _ O1) as (p & M2 & E2 & O2). injection E2 as <- <-. eapply owns_perm, O2. solve_Permutation.
  - erewrite mem_bind_Val. 2: { rewrite (calc_bind _ _ M1 _ E). done. }
    cbn [b_bytes]. unfold encode_error. rewrite Hb. cbn [b_bytes]. rewrite mem_ret_bind. unfold mbind, mem_bind. by rewrite Hq, (wrong_free q M (leak ++ [])).
Qed.
End Safe.

(** ** Instances *)

(** No hooks installed, one block of somebody else's. *)
Definition ex_memory : memory := mkMemory {[1%positive := Libc]} 2 (mkHooks Libc Libc) (mkHooks Libc Libc).

Definition ex_hooked : memory :=
  match pc_json_set_alloc_funcs (User 0) (User 0) ex_memory with Val (M, _) => M | _ => ex_memory end.

Lemma ex_sound : sound ex_memory ∧ sound ex_hooked.
Proof.
  split; intros p [a E]; change (({[1%positive := Libc]} : gmap positive allocator) !! p = Some a) in E;
    apply lookup_singleton_Some in E as [<- _]; done.
Qed.


(** A push to "a" whose schema has a message in a message; the inner one is cut off. *)
Definition ex_field (option type : string) : json_t := obj [("option", JString option); ("type", JString type)].
Definition ex_nested : json_t :=
  obj [("__tags", obj [("1", JString "out")]); ("out", ex_field "optional" "Outer");
       ("__messages", obj [("Outer", obj [("__tags", obj [("1", JString "in")]); ("in", ex_field "optional" "Inner");
         ("__messages", obj [("Inner", obj [("__tags", obj [("1", JString "x")]); ("x", ex_field "optional" "string")])])])])].
Definition ex_lossy : codec_ctx := mkCtx None None (Some (obj [("a", ex_nested)])) None.

(** Two values are lost, one for each message. *)
Example parse_loses_values :
  match pc__default_msg_parse_cb malloc_64 500 ex_lossy (λ _, Val None) [6; 1; 97; 10; 4; 10; 2; 10; 5] 9 ex_memory with
  | Val (M1, None) => size (live M1) = (size (live ex_memory) + 2)%nat
  | _ => False
  end.
Proof. vm_compute. reflexivity. Qed.

(** The unknown field makes the protobuf encoder fail. *)
Lemma encoded_messages_freed_witness :
  ∃ M1 b M2, pc__default_msg_encode_cb malloc_64 3 true 0 ex_ctx 5 "area.move" (Some (obj [("unknown", JInteger 1)])) ex_memory = Val (M1, b) ∧
    b_bytes b = Some [1; 5; 0; 7] ∧ pc__default_msg_encode_done_cb b M1 = Val (M2, tt) ∧
    ∃ p a, live ex_memory !! p = None ∧ live M2 = <[p := a]> (live ex_memory).
Proof.
  destruct (encoded_messages_freed malloc_64 ex_memory 3 true 0 ex_ctx 5 "area.move" (Some (obj [("unknown", JInteger 1)])) (Some [1; 5; 0; 7]))
    as (M1 & b & M2 & E1 & Eb & E2 & Hl); [apply ex_sound|reflexivity|reflexivity|vm_compute; reflexivity|].
  exists M1, b, M2. split; [exact E1|]. split; [exact Eb|]. split; [exact E2|].
  assert (lost malloc_64 3 0 ex_ctx "area.move" (Some (obj [("unknown", JInteger 1)])) = true) as El by (vm_compute; reflexivity).
  rewrite El in Hl. exact Hl.
Defined.

Definition ex_text : bytes :=
  Eval vm_compute in match json_dumps malloc_64 (Some ex_msg) JSON_COMPACT with Val (Some text) => text | _ => [] end.

Definition ex_sent : option bytes :=
  Eval vm_compute in match Protocol.pc__default_msg_encode_cb malloc_64 3 true 0 ex_ctx 5 "area.move" (Some ex_msg) with Val r => r | _ => None end.

Lemma protobuf_mixes_allocators_witness :
  pc__default_msg_encode_cb malloc_64 3 true 0 ex_ctx 5 "area.move" (Some ex_msg) ex_hooked = UB.
Proof.
  apply (protobuf_mixes_allocators malloc_64 ex_hooked 3 true 0 ex_ctx 5 "area.move" (Some ex_msg) ex_sent ex_protos ex_text);
    [apply ex_sound|reflexivity|discriminate|vm_compute; reflexivity..].
Defined.
