(* ===== verification/ClientState.v ===== *)
(** * The state of a client ([src/include/pomelo.h])

    The structures of the client, its transports and its requests, the state the
    event loop and the user share with them, and the small monad the operations
    of [Client.v] are written in: state passing with undefined behaviour as an
    outcome, the answers of allocation and of libuv taken from a list. *)

From S2P Require Import Prelude Package StringMap Listeners Backoff Uv Float Jansson Protocol.
Local Open Scope Z_scope.

Inductive pc_client_state :=
  | PC_ST_INITED | PC_ST_CONNECTING | PC_ST_CONNECTED | PC_ST_WORKING
  | PC_ST_DISCONNECTING | PC_ST_CLOSED.

Inductive pc_transport_state :=
  | PC_TP_ST_INITED | PC_TP_ST_CONNECTING | PC_TP_ST_WORKING | PC_TP_ST_CLOSED.

Inductive pc_req_type := PC_CONNECT | PC_REQUEST | PC_NOTIFY.

#[export] Instance pc_client_state_eq_dec : EqDecision pc_client_state.
Proof. solve_decision. Defined.

#[export] Instance pc_transport_state_eq_dec : EqDecision pc_transport_state.
Proof. solve_decision. Defined.

#[export] Instance pc_req_type_eq_dec : EqDecision pc_req_type.
Proof. solve_decision. Defined.

(** An IPv4 address and a port. *)
Definition sockaddr_in : Type := Z * Z.

(** A transport block. Its client is the one client; its socket lives as long
    as it does, and reads once [uv_read_start] succeeded. *)
Record pc_transport_t := mkTransport { tp_state : pc_transport_state; tp_reading : bool }.

(** The connection callbacks: the library's own, or the user's. *)
Inductive pc_connect_cb := ConnectedCb | Connect3Cb | ReconnectedCb | UserConnectCb.

Record pc_connect_t := mkConn {
  cn_address : option sockaddr_in;
  cn_transport : option positive;
  cn_cb : pc_connect_cb
}.

(** A request or a notify; callbacks are the user's and not null. *)
Record pc_tcp_req_t := mkReq {
  rq_type : pc_req_type;
  rq_id : Z;
  rq_route : option string;
  rq_msg : option json_t;
  rq_transport : option positive
}.

(** The data of an event: NULL, the client, or a message. *)
Inductive ev_data := NoData | ClientData | MsgData (m : option json_t).

(** What can be observed of a run: calls of user callbacks, packages handed to
    libuv with the transport they go to, protocol files written, the broadcast
    that wakes [pc_client_connect], and requests and notifies for which
    [pc_request] or [pc_notify] has returned 0 to the user. *)
Inductive obs :=
  | ORequestCb (req : positive) (status : Z) (resp : option json_t)
  | ONotifyCb (req : positive) (status : Z)
  | OConnectCb (conn : positive) (status : Z)
  | OEvent (event : string) (cbs : list positive) (data : ev_data)
  | OHandshakeCb (user : option json_t)
  | OSend (transport : positive) (package : bytes)
  | ODump (path : string) (src : option json_t)
  | OProtoWrite (name : string) (src : option json_t)
  | OBroadcast
  | OAccepted (req : positive).

Section State.
Context {M : Type → Type}.

(** The structure [pc_client_s], less the loop, the mutexes and the message
    codecs; [c_timers] holds the four timers ([None] is NULL), [c_close_async]
    whether a wake-up is pending. *)
Record pc_client_t := mkClient {
  c_state : pc_client_state;
  c_transport : option positive;
  c_listeners : registry M positive;
  c_requests : M positive;
  c_parser : pc_pkg_parser_t;
  c_heartbeat : Z;
  c_timeout : Z;
  c_handshake_opts : option json_t;
  c_handshake_cb : bool;
  c_conn_req : option positive;
  c_ctx : codec_ctx;
  c_proto_ver : option json_t;
  c_read_dir : option string;
  c_write_dir : option string;
  c_proto_cb : bool;
  c_timers : timer_id → option uv_timer_t;
  c_close_async : option bool;
  c_enable_reconnect : bool;
  c_reconnects : Z;
  c_reconnecting : bool;
  c_conf : reconnect_conf;
  c_addr : option sockaddr_in;
  c_host : option string;
  c_port : Z
}.

(** *** Field updates *)

Definition set_c_state (v : pc_client_state) (r : pc_client_t) : pc_client_t :=
  mkClient v (c_transport r) (c_listeners r) (c_requests r) (c_parser r) (c_heartbeat r)
    (c_timeout r) (c_handshake_opts r) (c_handshake_cb r) (c_conn_req r) (c_ctx r)
    (c_proto_ver r) (c_read_dir r) (c_write_dir r) (c_proto_cb r) (c_timers r) (c_close_async r)
    (c_enable_reconnect r) (c_reconnects r) (c_reconnecting r) (c_conf r) (c_addr r) (c_host r)
    (c_port r).

Definition set_c_transport (v : option positive) (r : pc_client_t) : pc_client_t :=
  mkClient (c_state r) v (c_listeners r) (c_requests r) (c_parser r) (c_heartbeat r)
    (c_timeout r) (c_handshake_opts r) (c_handshake_cb r) (c_conn_req r) (c_ctx r)
    (c_proto_ver r) (c_read_dir r) (c_write_dir r) (c_proto_cb r) (c_timers r) (c_close_async r)
    (c_enable_reconnect r) (c_reconnects r) (c_reconnecting r) (c_conf r) (c_addr r) (c_host r)
    (c_port r).

Definition set_c_listeners (v : registry M positive) (r : pc_client_t) : pc_client_t :=
  mkClient (c_state r) (c_transport r) v (c_requests r) (c_parser r) (c_heartbeat r)
    (c_timeout r) (c_handshake_opts r) (c_handshake_cb r) (c_conn_req r) (c_ctx r)
    (c_proto_ver r) (c_read_dir r) (c_write_dir r) (c_proto_cb r) (c_timers r) (c_close_async r)
    (c_enable_reconnect r) (c_reconnects r) (c_reconnecting r) (c_conf r) (c_addr r) (c_host r)
    (c_port r).

Definition set_c_requests (v : M positive) (r : pc_client_t) : pc_client_t :=
  mkClient (c_state r) (c_transport r) (c_listeners r) v (c_parser r) (c_heartbeat r)
    (c_timeout r) (c_handshake_opts r) (c_handshake_cb r) (c_conn_req r) (c_ctx r)
    (c_proto_ver r) (c_read_dir r) (c_write_dir r) (c_proto_cb r) (c_timers r) (c_close_async r)
    (c_enable_reconnect r) (c_reconnects r) (c_reconnecting r) (c_conf r) (c_addr r) (c_host r)
    (c_port r).

Definition set_c_parser (v : pc_pkg_parser_t) (r : pc_client_t) : pc_client_t :=
  mkClient (c_state r) (c_transport r) (c_listeners r) (c_requests r) v (c_heartbeat r)
    (c_timeout r) (c_handshake_opts r) (c_handshake_cb r) (c_conn_req r) (c_ctx r)
    (c_proto_ver r) (c_read_dir r) (c_write_dir r) (c_proto_cb r) (c_timers r) (c_close_async r)
    (c_enable_reconnect r) (c_reconnects r) (c_reconnecting r) (c_conf r) (c_addr r) (c_host r)
    (c_port r).

Definition set_c_heartbeat (v : Z) (r : pc_client_t) : pc_client_t :=
  mkClient (c_state r) (c_transport r) (c_listeners r) (c_requests r) (c_parser r) v
    (c_timeout r) (c_handshake_opts r) (c_handshake_cb r) (c_conn_req r) (c_ctx r)
    (c_proto_ver r) (c_read_dir r) (c_write_dir r) (c_proto_cb r) (c_timers r) (c_close_async r)
    (c_enable_reconnect r) (c_reconnects r) (c_reconnecting r) (c_conf r) (c_addr r) (c_host r)
    (c_port r).

Definition set_c_timeout (v : Z) (r : pc_client_t) : pc_client_t :=
  mkClient (c_state r) (c_transport r) (c_listeners r) (c_requests r) (c_parser r)
    (c_heartbeat r) v (c_handshake_opts r) (c_handshake_cb r) (c_conn_req r) (c_ctx r)
    (c_proto_ver r) (c_read_dir r) (c_write_dir r) (c_proto_cb r) (c_timers r) (c_close_async r)
    (c_enable_reconnect r) (c_reconnects r) (c_reconnecting r) (c_conf r) (c_addr r) (c_host r)
    (c_port r).

Definition set_c_handshake_opts (v : option json_t) (r : pc_client_t) : pc_client_t :=
  mkClient (c_state r) (c_transport r) (c_listeners r) (c_requests r) (c_parser r)
    (c_heartbeat r) (c_timeout r) v (c_handshake_cb r) (c_conn_req r) (c_ctx r) (c_proto_ver r)
    (c_read_dir r) (c_write_dir r) (c_proto_cb r) (c_timers r) (c_close_async r)
    (c_enable_reconnect r) (c_reconnects r) (c_reconnecting r) (c_conf r) (c_addr r) (c_host r)
    (c_port r).

Definition set_c_conn_req (v : option positive) (r : pc_client_t) : pc_client_t :=
  mkClient (c_state r) (c_transport r) (c_listeners r) (c_requests r) (c_parser r)
    (c_heartbeat r) (c_timeout r) (c_handshake_opts r) (c_handshake_cb r) v (c_ctx r)
    (c_proto_ver r) (c_read_dir r) (c_write_dir r) (c_proto_cb r) (c_timers r) (c_close_async r)
    (c_enable_reconnect r) (c_reconnects r) (c_reconnecting r) (c_conf r) (c_addr r) (c_host r)
    (c_port r).

Definition set_c_ctx (v : codec_ctx) (r : pc_client_t) : pc_client_t :=
  mkClient (c_state r) (c_transport r) (c_listeners r) (c_requests r) (c_parser r)
    (c_heartbeat r) (c_timeout r) (c_handshake_opts r) (c_handshake_cb r) (c_conn_req r) v
    (c_proto_ver r) (c_read_dir r) (c_write_dir r) (c_proto_cb r) (c_timers r) (c_close_async r)
    (c_enable_reconnect r) (c_reconnects r) (c_reconnecting r) (c_conf r) (c_addr r) (c_host r)
    (c_port r).

Definition set_c_proto_ver (v : option json_t) (r : pc_client_t) : pc_client_t :=
  mkClient (c_state r) (c_transport r) (c_listeners r) (c_requests r) (c_parser r)
    (c_heartbeat r) (c_timeout r) (c_handshake_opts r) (c_handshake_cb r) (c_conn_req r)
    (c_ctx r) v (c_read_dir r) (c_write_dir r) (c_proto_cb r) (c_timers r) (c_close_async r)
    (c_enable_reconnect r) (c_reconnects r) (c_reconnecting r) (c_conf r) (c_addr r) (c_host r)
    (c_port r).

Definition set_c_read_dir (v : option string) (r : pc_client_t) : pc_client_t :=
  mkClient (c_state r) (c_transport r) (c_listeners r) (c_requests r) (c_parser r)
    (c_heartbeat r) (c_timeout r) (c_handshake_opts r) (c_handshake_cb r) (c_conn_req r)
    (c_ctx r) (c_proto_ver r) v (c_write_dir r) (c_proto_cb r) (c_timers r) (c_close_async r)
    (c_enable_reconnect r) (c_reconnects r) (c_reconnecting r) (c_conf r) (c_addr r) (c_host r)
    (c_port r).

Definition set_c_write_dir (v : option string) (r : pc_client_t) : pc_client_t :=
  mkClient (c_state r) (c_transport r) (c_listeners r) (c_requests r) (c_parser r)
    (c_heartbeat r) (c_timeout r) (c_handshake_opts r) (c_handshake_cb r) (c_conn_req r)
    (c_ctx r) (c_proto_ver r) (c_read_dir r) v (c_proto_cb r) (c_timers r) (c_close_async r)
    (c_enable_reconnect r) (c_reconnects r) (c_reconnecting r) (c_conf r) (c_addr r) (c_host r)
    (c_port r).

Definition set_c_proto_cb (v : bool) (r : pc_client_t) : pc_client_t :=
  mkClient (c_state r) (c_transport r) (c_listeners r) (c_requests r) (c_parser r)
    (c_heartbeat r) (c_timeout r) (c_handshake_opts r) (c_handshake_cb r) (c_conn_req r)
    (c_ctx r) (c_proto_ver r) (c_read_dir r) (c_write_dir r) v (c_timers r) (c_close_async r)
    (c_enable_reconnect r) (c_reconnects r) (c_reconnecting r) (c_conf r) (c_addr r) (c_host r)
    (c_port r).

Definition set_c_timers (v : timer_id → option uv_timer_t) (r : pc_client_t) : pc_client_t :=
  mkClient (c_state r) (c_transport r) (c_listeners r) (c_requests r) (c_parser r)
    (c_heartbeat r) (c_timeout r) (c_handshake_opts r) (c_handshake_cb r) (c_conn_req r)
    (c_ctx r) (c_proto_ver r) (c_read_dir r) (c_write_dir r) (c_proto_cb r) v (c_close_async r)
    (c_enable_reconnect r) (c_reconnects r) (c_reconnecting r) (c_conf r) (c_addr r) (c_host r)
    (c_port r).

Definition set_c_close_async (v : option bool) (r : pc_client_t) : pc_client_t :=
  mkClient (c_state r) (c_transport r) (c_listeners r) (c_requests r) (c_parser r)
    (c_heartbeat r) (c_timeout r) (c_handshake_opts r) (c_handshake_cb r) (c_conn_req r)
    (c_ctx r) (c_proto_ver r) (c_read_dir r) (c_write_dir r) (c_proto_cb r) (c_timers r) v
    (c_enable_reconnect r) (c_reconnects r) (c_reconnecting r) (c_conf r) (c_addr r) (c_host r)
    (c_port r).

Definition set_c_reconnects (v : Z) (r : pc_client_t) : pc_client_t :=
  mkClient (c_state r) (c_transport r) (c_listeners r) (c_requests r) (c_parser r)
    (c_heartbeat r) (c_timeout r) (c_handshake_opts r) (c_handshake_cb r) (c_conn_req r)
    (c_ctx r) (c_proto_ver r) (c_read_dir r) (c_write_dir r) (c_proto_cb r) (c_timers r)
    (c_close_async r) (c_enable_reconnect r) v (c_reconnecting r) (c_conf r) (c_addr r)
    (c_host r) (c_port r).

Definition set_c_reconnecting (v : bool) (r : pc_client_t) : pc_client_t :=
  mkClient (c_state r) (c_transport r) (c_listeners r) (c_requests r) (c_parser r)
    (c_heartbeat r) (c_timeout r) (c_handshake_opts r) (c_handshake_cb r) (c_conn_req r)
    (c_ctx r) (c_proto_ver r) (c_read_dir r) (c_write_dir r) (c_proto_cb r) (c_timers r)
    (c_close_async r) (c_enable_reconnect r) (c_reconnects r) v (c_conf r) (c_addr r) (c_host r)
    (c_port r).

Definition set_c_addr (v : option sockaddr_in) (r : pc_client_t) : pc_client_t :=
  mkClient (c_state r) (c_transport r) (c_listeners r) (c_requests r) (c_parser r)
    (c_heartbeat r) (c_timeout r) (c_handshake_opts r) (c_handshake_cb r) (c_conn_req r)
    (c_ctx r) (c_proto_ver r) (c_read_dir r) (c_write_dir r) (c_proto_cb r) (c_timers r)
    (c_close_async r) (c_enable_reconnect r) (c_reconnects r) (c_reconnecting r) (c_conf r) v
    (c_host r) (c_port r).

Definition set_c_host (v : option string) (r : pc_client_t) : pc_client_t :=
  mkClient (c_state r) (c_transport r) (c_listeners r) (c_requests r) (c_parser r)
    (c_heartbeat r) (c_timeout r) (c_handshake_opts r) (c_handshake_cb r) (c_conn_req r)
    (c_ctx r) (c_proto_ver r) (c_read_dir r) (c_write_dir r) (c_proto_cb r) (c_timers r)
    (c_close_async r) (c_enable_reconnect r) (c_reconnects r) (c_reconnecting r) (c_conf r)
    (c_addr r) v (c_port r).

Definition set_c_port (v : Z) (r : pc_client_t) : pc_client_t :=
  mkClient (c_state r) (c_transport r) (c_listeners r) (c_requests r) (c_parser r)
    (c_heartbeat r) (c_timeout r) (c_handshake_opts r) (c_handshake_cb r) (c_conn_req r)
    (c_ctx r) (c_proto_ver r) (c_read_dir r) (c_write_dir r) (c_proto_cb r) (c_timers r)
    (c_close_async r) (c_enable_reconnect r) (c_reconnects r) (c_reconnecting r) (c_conf r)
    (c_addr r) (c_host r) v.


(** ** The world of a client *)

Record world := mkWorld {
  w_client : pc_client_t;  (* the client *)
  w_transports : gmap positive pc_transport_t;  (* the live transport blocks *)
  w_conns : gmap positive pc_connect_t;  (* the live connect requests *)
  w_reqs : gmap positive pc_tcp_req_t;  (* the live requests and notifies *)
  w_pending : gmap positive (positive * uv_req);  (* outstanding requests of the loop, with the transport whose socket they use *)
  w_asyncs : gmap positive positive;  (* wake-ups sent for tcp requests *)
  w_closing : list uv_handle;  (* handles whose close callback is due *)
  w_closed : list uv_handle;  (* closed handles *)
  w_trace : list obs;  (* what the user and the server have seen, latest last *)
  w_oracle : list Z;  (* the answers of allocation and of the loop to come *)
  w_next : positive;  (* the next block *)
  w_req_id : Z;  (* pc__req_id *)
  w_now : Z;  (* time(NULL) *)
  w_last_update : Z  (* pc_last_update_time *)
}.

Definition set_w_client (v : pc_client_t) (r : world) : world :=
  mkWorld v (w_transports r) (w_conns r) (w_reqs r) (w_pending r) (w_asyncs r) (w_closing r)
    (w_closed r) (w_trace r) (w_oracle r) (w_next r) (w_req_id r) (w_now r) (w_last_update r).

Definition set_w_transports (v : gmap positive pc_transport_t) (r : world) : world :=
  mkWorld (w_client r) v (w_conns r) (w_reqs r) (w_pending r) (w_asyncs r) (w_closing r)
    (w_closed r) (w_trace r) (w_oracle r) (w_next r) (w_req_id r) (w_now r) (w_last_update r).

Definition set_w_conns (v : gmap positive pc_connect_t) (r : world) : world :=
  mkWorld (w_client r) (w_transports r) v (w_reqs r) (w_pending r) (w_asyncs r) (w_closing r)
    (w_closed r) (w_trace r) (w_oracle r) (w_next r) (w_req_id r) (w_now r) (w_last_update r).

Definition set_w_reqs (v : gmap positive pc_tcp_req_t) (r : world) : world :=
  mkWorld (w_client r) (w_transports r) (w_conns r) v (w_pending r) (w_asyncs r) (w_closing r)
    (w_closed r) (w_trace r) (w_oracle r) (w_next r) (w_req_id r) (w_now r) (w_last_update r).

Definition set_w_pending (v : gmap positive (positive * uv_req)) (r : world) : world :=
  mkWorld (w_client r) (w_transports r) (w_conns r) (w_reqs r) v (w_asyncs r) (w_closing r)
    (w_closed r) (w_trace r) (w_oracle r) (w_next r) (w_req_id r) (w_now r) (w_last_update r).

Definition set_w_asyncs (v : gmap positive positive) (r : world) : world :=
  mkWorld (w_client r) (w_transports r) (w_conns r) (w_reqs r) (w_pending r) v (w_closing r)
    (w_closed r) (w_trace r) (w_oracle r) (w_next r) (w_req_id r) (w_now r) (w_last_update r).

Definition set_w_closing (v : list uv_handle) (r : world) : world :=
  mkWorld (w_client r) (w_transports r) (w_conns r) (w_reqs r) (w_pending r) (w_asyncs r) v
    (w_closed r) (w_trace r) (w_oracle r) (w_next r) (w_req_id r) (w_now r) (w_last_update r).

Definition set_w_closed (v : list uv_handle) (r : world) : world :=
  mkWorld (w_client r) (w_transports r) (w_conns r) (w_reqs r) (w_pending r) (w_asyncs r)
    (w_closing r) v (w_trace r) (w_oracle r) (w_next r) (w_req_id r) (w_now r) (w_last_update r).

Definition set_w_trace (v : list obs) (r : world) : world :=
  mkWorld (w_client r) (w_transports r) (w_conns r) (w_reqs r) (w_pending r) (w_asyncs r)
    (w_closing r) (w_closed r) v (w_oracle r) (w_next r) (w_req_id r) (w_now r)
    (w_last_update r).

Definition set_w_oracle (v : list Z) (r : world) : world :=
  mkWorld (w_client r) (w_transports r) (w_conns r) (w_reqs r) (w_pending r) (w_asyncs r)
    (w_closing r) (w_closed r) (w_trace r) v (w_next r) (w_req_id r) (w_now r) (w_last_update r).

Definition set_w_next (v : positive) (r : world) : world :=
  mkWorld (w_client r) (w_transports r) (w_conns r) (w_reqs r) (w_pending r) (w_asyncs r)
    (w_closing r) (w_closed r) (w_trace r) (w_oracle r) v (w_req_id r) (w_now r)
    (w_last_update r).

Definition set_w_req_id (v : Z) (r : world) : world :=
  mkWorld (w_client r) (w_transports r) (w_conns r) (w_reqs r) (w_pending r) (w_asyncs r)
    (w_closing r) (w_closed r) (w_trace r) (w_oracle r) (w_next r) v (w_now r) (w_last_update r).

Definition set_w_last_update (v : Z) (r : world) : world :=
  mkWorld (w_client r) (w_transports r) (w_conns r) (w_reqs r) (w_pending r) (w_asyncs r)
    (w_closing r) (w_closed r) (w_trace r) (w_oracle r) (w_next r) (w_req_id r) (w_now r) v.

(** ** The monad *)

Definition prog (A : Type) : Type := world → exec (world * A).

#[global] Instance prog_ret : MRet prog := λ A a w, Val (w, a).

#[global] Instance prog_bind : MBind prog := λ A B f c w,
  match c w with Val (w, a) => f a w | UB => UB | NoFuel => NoFuel end.

Definition fail_ub {A} : prog A := λ _, UB.
Definition lift {A} (e : exec A) : prog A := λ w, a ← e; Val (w, a).
Definition gets {A} (f : world → A) : prog A := λ w, Val (w, f w).
Definition modify (f : world → world) : prog unit := λ w, Val (f w, tt).
Definition when (b : bool) (p : prog unit) : prog unit := if b then p else mret tt.

Definition the_client : prog pc_client_t := gets w_client.
Definition upd_client (f : pc_client_t → pc_client_t) : prog unit :=
  modify (λ w, set_w_client (f (w_client w)) w).

Definition observe (o : obs) : prog unit := modify (λ w, set_w_trace (w_trace w ++ [o]) w).

(** The next answer of the environment; 0 is success. *)
Definition ask : prog Z := λ w,
  match w_oracle w with
  | [] => Val (w, 0)
  | z :: o => Val (set_w_oracle o w, z)
  end.

Definition malloc_ok : prog bool := r ← ask; mret (r =? 0).

Definition new_block : prog positive := λ w, Val (set_w_next (Pos.succ (w_next w)) w, w_next w).

(** [pc_last_update_time = time(NULL)]. *)
Definition touch_time : prog unit := modify (λ w, set_w_last_update (w_now w) w).

(** Dereferences: a freed block is undefined behaviour. *)
Definition deref {A} (o : option A) : prog A :=
  match o with Some a => mret a | None => fail_ub end.

Definition get_transport (tp : positive) : prog pc_transport_t :=
  o ← gets (λ w, w_transports w !! tp); deref o.

Definition put_transport (tp : positive) (t : pc_transport_t) : prog unit :=
  modify (λ w, set_w_transports (<[tp := t]> (w_transports w)) w).

Definition get_conn (cn : positive) : prog pc_connect_t :=
  o ← gets (λ w, w_conns w !! cn); deref o.

Definition get_req (rq : positive) : prog pc_tcp_req_t :=
  o ← gets (λ w, w_reqs w !! rq); deref o.

Definition put_req (rq : positive) (r : pc_tcp_req_t) : prog unit :=
  modify (λ w, set_w_reqs (<[rq := r]> (w_reqs w)) w).

(** ** libuv, as the client calls it *)

(** [uv_close] asserts that the handle is not closing or closed. *)
Definition uv_close (h : uv_handle) : prog unit :=
  bad ← gets (λ w, bool_decide (h ∈ w_closing w ++ w_closed w));
  if bad : bool then fail_ub
  else modify (λ w, set_w_closing (w_closing w ++ [h]) w).

Definition set_timer (t : timer_id) (v : option uv_timer_t) : prog unit :=
  upd_client (λ c, set_c_timers (λ t', if decide (t' = t) then v else c_timers c t') c).

(** A timer function on a timer of the client: undefined on a null pointer and
    on a closed timer. *)
Definition on_timer (t : timer_id) (f : uv_timer_t → uv_timer_t) : prog unit :=
  c ← the_client;
  tm ← deref (c_timers c t);
  bad ← gets (λ w, bool_decide (HTimer t ∈ w_closing w ++ w_closed w));
  if bad : bool then fail_ub else set_timer t (Some (f tm)).

(** Register an outstanding request on the socket of [tp]. *)
Definition uv_submit (tp : positive) (r : uv_req) : prog unit :=
  n ← new_block;
  modify (λ w, set_w_pending (<[n := (tp, r)]> (w_pending w)) w).

(** [uv_write] of one buffer on the socket of [tp]; [None] is the invalid buffer
    of a failed [pc_pkg_encode]. The result is libuv's. *)
Definition uv_write (tp : positive) (buf : option bytes) (r : uv_req) : prog Z :=
  _ ← get_transport tp;
  bs ← deref buf;
  res ← ask;
  if negb (res =? 0) then mret (-1)
  else
    uv_submit tp r;;
    observe (OSend tp bs);;
    mret 0.

End State.
Arguments pc_client_t M : clear implicits.
Arguments world M : clear implicits.
Arguments prog M A : clear implicits.
