(* ===== verification/Client.v ===== *)
(** * The client ([client.c], [network.c], [transport.c], [pkg-handshake.c],
    [pkg-heartbeat.c], [protocol.c], [thread.c])

    Every function of the client that runs on the event loop, and the calls of
    its interface, as programs over the world of [ClientState.v]. User callbacks
    are observations: a user who calls the library from a callback is the call
    that comes next. The message codecs, which are function pointers of the
    client, and the functions outside the library (files, name resolution, the
    user's callbacks, which allocations of package bodies and of JSON texts
    succeed) are parameters. Output to stderr,
    socket options and the reference counts of JSON values are left out. *)

From S2P Require Import Prelude Package StringMap Listeners Backoff Uv Float Jansson JsonDump JsonLoad Protocol ClientState.
Local Open Scope Z_scope.

Definition PC_TYPE : string := "c".
Definition PC_VERSION : string := "0.3.4".
Definition PC_EVENT_DISCONNECT : string := "disconnect".
Definition PC_EVENT_TIMEOUT : string := "timeout".
Definition PC_EVENT_KICK : string := "onKick".
Definition PC_EVENT_RECONNECT : string := "reconnect".
Definition PC_PROTO_VERSION : string := "protoVersion".
Definition PC_PROTO_CLIENT : string := "clientProtos".
Definition PC_PROTO_SERVER : string := "serverProtos".
Definition PC_HANDSHAKE_OK : Z := 200.
Definition PC_HEARTBEAT_TIMEOUT_FACTOR : Z := 2.
Definition HANDSHAKE_TIMEOUT : Z := 10 * 1000.

(** The functions the client calls outside the library. *)
Record externals := mkExt {
  (** [client->parse_msg] and [client->encode_msg]; the second argument of the
      parser gives the route of a pending request. *)
  x_parse_msg : codec_ctx → (string → exec (option string)) → bytes → exec (option pc_msg_t);
  x_encode_msg : codec_ctx → Z → string → option json_t → exec (option bytes);
  (** The content of a file, if it can be opened. *)
  x_read_file : string → option bytes;
  (** What [proto_event_cb] stores for [PC_PROTO_OP_READ]. *)
  x_proto_read : string → option json_t;
  (** [client->handshake_cb]. *)
  x_handshake_cb : option json_t → Z;
  (** [getaddrinfo]: the address family (true for AF_INET) and the address. *)
  x_getaddrinfo : string → option (list (bool * Z));
  (** [malloc] of package bodies and in the JSON library. *)
  x_malloc : Z → bool
}.

Section Client.
Context {M : Type → Type} `{SM : StringMap M} (X : externals).
Local Abbreviation prog := (prog M).

(** ** Events and callbacks of the user *)

Definition emit_event (event : string) (data : ev_data) : prog unit :=
  c ← the_client;
  cbs ← lift (pc_emit_event event (c_listeners c));
  observe (OEvent event cbs data).

(** [req->cb(req, status, resp)]. *)
Definition call_request_cb (req : positive) (status : Z) (resp : option json_t) : prog unit :=
  _ ← get_req req;
  observe (ORequestCb req status resp).

Definition call_notify_cb (req : positive) (status : Z) : prog unit :=
  _ ← get_req req;
  observe (ONotifyCb req status).

(** The release callback of [client->requests]; only requests are stored, so the
    value is not null. *)
Definition pc__release_requests (req : positive) : prog unit := call_request_cb req (-1) None.

Fixpoint release_requests (rel : list (string * positive)) : prog unit :=
  match rel with
  | [] => mret tt
  | (_, req) :: rel => pc__release_requests req;; release_requests rel
  end.

(** The map operations on [client->requests]. *)
Definition requests_get (key : string) : prog (option positive) :=
  c ← the_client; lift (sm_get (c_requests c) key).

Definition requests_set (key : string) (req : positive) : prog unit :=
  c ← the_client;
  '(m, rel) ← lift (sm_set (c_requests c) key req);
  upd_client (set_c_requests m);;
  release_requests rel.

Definition requests_del (key : string) : prog unit :=
  c ← the_client;
  '(m, _) ← lift (sm_del (c_requests c) key);
  upd_client (set_c_requests m).

Definition requests_clear : prog unit :=
  c ← the_client;
  '(m, rel) ← lift (sm_clear (c_requests c));
  upd_client (set_c_requests m);;
  release_requests rel.

(** ** Transports ([transport.c]) *)

Definition pc__tcp_close_cb (tp : positive) : prog unit :=
  _ ← get_transport tp;
  modify (λ w, set_w_transports (delete tp (w_transports w)) w).

(** A failed allocation of the transport itself dereferences the null pointer. *)
Definition pc_transport_new : prog (option positive) :=
  ok ← malloc_ok;
  if negb ok then fail_ub
  else
    ok ← malloc_ok;
    if negb ok then mret None
    else
      e ← ask;
      if negb (e =? 0) then mret None
      else
        tp ← new_block;
        put_transport tp (mkTransport PC_TP_ST_INITED false);;
        mret (Some tp).

Definition pc_transport_destroy (tp : positive) : prog unit :=
  t ← get_transport tp;
  match tp_state t with
  | PC_TP_ST_CLOSED => mret tt
  | PC_TP_ST_INITED => modify (λ w, set_w_transports (delete tp (w_transports w)) w)
  | _ =>
      put_transport tp (mkTransport PC_TP_ST_CLOSED (tp_reading t));;
      uv_close (HSocket tp)
  end.

Definition pc_transport_start (tp : positive) : prog Z :=
  t ← get_transport tp;
  if decide (tp_state t = PC_TP_ST_CONNECTING) then
    put_transport tp (mkTransport PC_TP_ST_WORKING (tp_reading t));;
    mret 0
  else mret (-1).

(** ** Stopping and reconnecting ([client.c]) *)

(** [if(client->transport) { pc_transport_destroy(client->transport); client->transport = NULL; }] *)
Definition drop_transport : prog unit :=
  c ← the_client;
  match c_transport c with
  | Some tp => pc_transport_destroy tp;; upd_client (set_c_transport None)
  | None => mret tt
  end.

(** [if(timer != NULL) uv_timer_stop(stopped)]; the flag tells whether the first
    timer is there. *)
Definition stop_if (t stopped : timer_id) : prog bool :=
  c ← the_client;
  match c_timers c t with
  | Some _ => on_timer stopped uv_timer_stop;; mret true
  | None => mret false
  end.

Definition pc__client_reconnect_reset : prog unit :=
  drop_transport;;
  b ← stop_if HeartbeatTimer HeartbeatTimer;
  when b (upd_client (set_c_heartbeat 0));;
  b ← stop_if TimeoutTimer TimeoutTimer;
  when b (upd_client (set_c_timeout 0));;
  _ ← stop_if HandshakeTimer TimeoutTimer;
  requests_clear;;
  c ← the_client;
  p ← lift (pc_pkg_parser_reset (c_parser c));
  upd_client (set_c_parser p);;
  upd_client (set_c_handshake_opts None);;
  upd_client (set_c_ctx (mkCtx None None None None));;
  upd_client (set_c_state PC_ST_INITED).

Definition pc__client_reconnect : prog unit :=
  upd_client (set_c_reconnecting true);;
  pc__client_reconnect_reset;;
  c ← the_client;
  n ← lift (chk32 (c_reconnects c + 1));
  upd_client (set_c_reconnects n);;
  rand ← ask;
  ms ← lift (backoff_ms (c_conf c) n rand);
  on_timer ReconnectTimer (uv_timer_start ms 0).

(** [if(timer != NULL) { uv_close(timer); timer = NULL; ... }]; closing stops. *)
Definition close_timer (t : timer_id) (k : prog unit) : prog unit :=
  c ← the_client;
  match c_timers c t with
  | Some _ => uv_close (HTimer t);; set_timer t None;; k
  | None => mret tt
  end.

Definition pc_client_stop : prog unit :=
  c ← the_client;
  let state := c_state c in
  if c_enable_reconnect c && bool_decide (state ≠ PC_ST_DISCONNECTING) then
    if c_reconnecting c then mret tt else pc__client_reconnect
  else
    match state with
    | PC_ST_INITED => upd_client (set_c_state PC_ST_CLOSED)
    | PC_ST_CLOSED => mret tt
    | _ =>
        upd_client (set_c_state PC_ST_CLOSED);;
        drop_transport;;
        close_timer HeartbeatTimer (upd_client (set_c_heartbeat 0));;
        close_timer TimeoutTimer (upd_client (set_c_timeout 0));;
        close_timer HandshakeTimer (mret tt);;
        c ← the_client;
        match c_close_async c with
        | Some _ => uv_close HCloseAsync;; upd_client (set_c_close_async None)
        | None => mret tt
        end;;
        (* [uv_close] stops the timer, which is a field of the client *)
        when (c_enable_reconnect c)
          (on_timer ReconnectTimer uv_timer_stop;; uv_close (HTimer ReconnectTimer))
    end.

Definition pc_client_get_state : prog pc_client_state := c ← the_client; mret (c_state c).

Definition pc__close_async_cb : prog unit := pc_client_stop.

(** [uv_async_send(client->close_async)] is undefined on a null handle. *)
Definition pc_client_disconnect : prog unit :=
  upd_client (set_c_state PC_ST_DISCONNECTING);;
  c ← the_client;
  _ ← deref (c_close_async c);
  upd_client (set_c_close_async (Some true)).

(** ** Connection callbacks ([client.c], [thread.c]) *)

Definition pc_connect_req_destroy (cn : positive) : prog unit :=
  _ ← get_conn cn;
  modify (λ w, set_w_conns (delete cn (w_conns w)) w).

Definition pc__cond_broadcast : prog unit := observe OBroadcast.

Definition pc__client_connected_cb (cn : positive) (status : Z) : prog unit :=
  _ ← get_conn cn;
  if status =? -1 then pc_client_stop else pc__cond_broadcast.

Definition pc__client_connect3_cb (cn : positive) (status : Z) : prog unit :=
  _ ← get_conn cn;
  if status =? -1 then
    pc_client_stop;;
    pc_connect_req_destroy cn
  else
    emit_event PC_EVENT_RECONNECT ClientData;;
    pc_connect_req_destroy cn.

Definition pc__client_reconnected_cb (cn : positive) (status : Z) : prog unit :=
  _ ← get_conn cn;
  upd_client (set_c_reconnecting false);;
  on_timer ReconnectTimer uv_timer_stop;;
  if status =? 0 then
    upd_client (set_c_reconnects 0);;
    emit_event PC_EVENT_RECONNECT ClientData
  else pc_client_stop.

(** [conn_req->cb(conn_req, status)]. *)
Definition call_connect_cb (cn : positive) (status : Z) : prog unit :=
  c ← get_conn cn;
  match cn_cb c with
  | ConnectedCb => pc__client_connected_cb cn status
  | Connect3Cb => pc__client_connect3_cb cn status
  | ReconnectedCb => pc__client_reconnected_cb cn status
  | UserConnectCb => observe (OConnectCb cn status)
  end.

(** The last lines of the write callbacks of the handshake. *)
Definition finish_connect (status : Z) : prog unit :=
  c ← the_client;
  match c_conn_req c with
  | Some cn => upd_client (set_c_conn_req None);; call_connect_cb cn status
  | None => mret tt
  end.

(** ** Writing ([network.c]) *)

(** [None] is a null [data], the base of a package that could not be allocated:
    it is checked where [attach] is meant, whose failed allocation dereferences
    null. *)
Definition pc__binary_write (data : option bytes) (r : positive → uv_req) : prog Z :=
  c ← the_client;
  if bool_decide (c_state c ≠ PC_ST_CONNECTED) && bool_decide (c_state c ≠ PC_ST_WORKING) then mret (-1)
  else
    ok ← malloc_ok;
    if negb ok then mret (-1)
    else
      ok ← malloc_ok;
      match data with
      | None => mret (-1)
      | Some _ =>
          if negb ok then fail_ub
          else
            tp ← deref (c_transport c);
            res ← uv_write tp data (r tp);
            mret (if negb (res =? 0) then -1 else 0)
      end.

(** ** Heartbeats ([pkg-heartbeat.c]) *)

Definition pc__heartbeat : prog Z :=
  on_timer TimeoutTimer uv_timer_stop;;
  on_timer HeartbeatTimer uv_timer_again;;
  mret 0.

Definition pc__heartbeat_req : prog Z :=
  touch_time;;
  c ← the_client;
  if decide (c_state c ≠ PC_ST_WORKING) then mret (-1)
  else
    ok ← malloc_ok;
    buf ← lift (pc_pkg_encode ok PC_PKG_HEARBEAT [] 0);
    match buf with
    | None => mret (-1)
    | Some _ =>
        res ← pc__binary_write buf UvHeartbeat;
        mret (if negb (res =? 0) then -1 else 0)
    end.

Definition pc__heartbeat_cb (status : Z) : prog unit :=
  on_timer HeartbeatTimer uv_timer_stop;;
  if status =? -1 then pc_client_stop
  else
    r ← pc__heartbeat_req;
    if negb (r =? 0) then pc_client_stop
    else on_timer TimeoutTimer uv_timer_again.

Definition pc__timeout_cb (status : Z) : prog unit :=
  on_timer TimeoutTimer uv_timer_stop;;
  when (negb (status =? -1)) (emit_event PC_EVENT_TIMEOUT NoData);;
  pc_client_stop.

(** [data[0]] is the transport the package was written to, but the callback
    takes it for the client: an error uses a transport as a client. *)
Definition pc__heartbeat_req_cb (tp : positive) (status : Z) : prog unit :=
  touch_time;;
  if status =? -1 then fail_ub else mret tt.

(** ** Handshake ([pkg-handshake.c]) *)

Definition pc__handshake_timeout_cb : prog unit :=
  on_timer HandshakeTimer uv_timer_stop;;
  emit_event PC_EVENT_TIMEOUT NoData;;
  pc_client_stop.

Definition pc__load_file (name : string) : prog (option json_t) :=
  c ← the_client;
  if c_proto_cb c then mret (x_proto_read X name)
  else
    let path := match c_read_dir c with Some dir => dir +:+ "/" +:+ name | None => name end in
    lift (json_load_file (x_malloc X) (x_read_file X) path 0).

(** The path is built from the read directory. *)
Definition pc__dump_file (name : string) (src : option json_t) : prog unit :=
  c ← the_client;
  if c_proto_cb c then observe (OProtoWrite name src)
  else
    match c_write_dir c with
    | Some _ => dir ← deref (c_read_dir c); observe (ODump (dir +:+ "/" +:+ name) src)
    | None => observe (ODump name src)
    end.

(** The body is composed bottom-up; the code fills [sys] after storing it. The
    result of [pc_pkg_encode] is not checked: for a body of 16 MB its base is an
    uninitialised pointer. *)
Definition pc__handshake_req : prog Z :=
  c ← the_client;
  let sys := json_object_set_new json_object "type" (json_string PC_TYPE) in
  let sys := json_object_set_new sys "version" (json_string PC_VERSION) in
  sys ← match c_proto_ver c with
        | None =>
            proto ← pc__load_file PC_PROTO_VERSION;
            match proto with
            | Some _ =>
                let ver := json_object_get proto PC_PROTO_VERSION in
                upd_client (set_c_proto_ver ver);;
                mret (json_object_set_new sys PC_PROTO_VERSION ver)
            | None => mret sys
            end
        | Some ver => mret (json_object_set_new sys PC_PROTO_VERSION (Some ver))
        end;
  let body := json_object_set_new json_object "sys" (Some sys) in
  let body := match json_object_get (c_handshake_opts c) "user" with
              | Some user => json_object_set_new body "user" (Some user)
              | None => body
              end in
  data ← lift (json_dumps (x_malloc X) (Some body) JSON_COMPACT);
  match data with
  | None => mret (-1)
  | Some data =>
      _ ← lift (require (zlen data <? PC_PKG_MAX_BODY_BYTES));
      ok ← malloc_ok;
      buf ← lift (pc_pkg_encode ok PC_PKG_HANDSHAKE data (zlen data));
      r ← pc__binary_write buf UvHandshakeReq;
      if negb (r =? 0) then mret (-1)
      else
        on_timer HandshakeTimer (uv_timer_start HANDSHAKE_TIMEOUT 0);;
        mret 0
  end.

Definition pc__handshake_ack : prog Z :=
  ok ← malloc_ok;
  buf ← lift (pc_pkg_encode ok PC_PKG_HANDSHAKE_ACK [] 0);
  match buf with
  | None => mret (-1)
  | Some _ =>
      r ← pc__binary_write buf UvHandshakeAck;
      mret (if negb (r =? 0) then -1 else 0)
  end.

(** [hb * 1000] in 64 bits, stored in an [int]; the timeout in 32 bits. *)
Definition setup_heartbeat (sys : json_t) : prog unit :=
  let hb := json_integer_value (json_object_get (Some sys) "heartbeat") in
  if hb <=? 0 then
    upd_client (set_c_heartbeat (-1));;
    upd_client (set_c_timeout (-1))
  else
    _ ← lift (require (hb * 1000 <? 2 ^ 63));
    let heartbeat := s32 (hb * 1000) in
    upd_client (set_c_heartbeat heartbeat);;
    timeout ← lift (chk32 (heartbeat * PC_HEARTBEAT_TIMEOUT_FACTOR));
    upd_client (set_c_timeout timeout);;
    on_timer HeartbeatTimer (uv_timer_set_repeat heartbeat);;
    on_timer TimeoutTimer (uv_timer_set_repeat timeout).

Definition with_protos (server client : option json_t) (x : codec_ctx) : codec_ctx :=
  mkCtx (route_to_code x) (code_to_route x) server client.

Definition setup_protos (sys : json_t) : prog unit :=
  c ← the_client;
  match json_object_get (Some sys) "useProto" with
  | Some _ =>
      match json_object_get (Some sys) "protos" with
      | Some protos =>
          let server := json_object_get (Some protos) "server" in
          let client := json_object_get (Some protos) "client" in
          upd_client (set_c_ctx (with_protos server client (c_ctx c)));;
          let t := json_object_set_new json_object PC_PROTO_VERSION
                     (json_object_get (Some protos) "version") in
          pc__dump_file PC_PROTO_VERSION (Some t);;
          pc__dump_file PC_PROTO_SERVER server;;
          pc__dump_file PC_PROTO_CLIENT client
      | None =>
          server ← match server_protos (c_ctx c) with
                   | None => pc__load_file PC_PROTO_SERVER
                   | Some s => mret (Some s)
                   end;
          client ← match client_protos (c_ctx c) with
                   | None => pc__load_file PC_PROTO_CLIENT
                   | Some s => mret (Some s)
                   end;
          upd_client (set_c_ctx (with_protos server client (c_ctx c)))
      end
  | None =>
      upd_client (set_c_ctx (with_protos None None (c_ctx c)));;
      upd_client (set_c_proto_ver None)
  end.

Definition pc__handshake_resp (data : bytes) : prog Z :=
  res ← lift (json_loadb (x_malloc X) data 0);
  on_timer HandshakeTimer uv_timer_stop;;
  match res with
  | None => mret (-1)
  | Some res =>
      if negb (json_integer_value (json_object_get (Some res) "code") =? PC_HANDSHAKE_OK) then mret (-1)
      else
        match json_object_get (Some res) "sys" with
        | Some sys =>
            setup_heartbeat sys;;
            match json_object_get (Some sys) "dict" with
            | Some dict =>
                upd_client (λ c, set_c_ctx (mkCtx (Some dict) (Some (setup_dict dict))
                                    (server_protos (c_ctx c)) (client_protos (c_ctx c))) c)
            | None => mret tt
            end;;
            setup_protos sys
        | None => mret tt
        end;;
        let user := json_object_get (Some res) "user" in
        c ← the_client;
        status ← (if c_handshake_cb c then
                    observe (OHandshakeCb user);; mret (x_handshake_cb X user)
                  else mret 0);
        (if status =? 0 then _ ← pc__handshake_ack; mret tt else mret tt);;
        _ ← pc__heartbeat;
        mret 0
  end.

Definition pc__handshake_req_cb (tp : positive) (status : Z) : prog unit :=
  t ← get_transport tp;
  if decide (tp_state t ≠ PC_TP_ST_WORKING) then mret tt
  else if status =? -1 then pc_client_stop;; finish_connect status
  else mret tt.

Definition pc__handshake_ack_cb (tp : positive) (status : Z) : prog unit :=
  t ← get_transport tp;
  if decide (tp_state t ≠ PC_TP_ST_WORKING) then mret tt
  else
    (if status =? -1 then pc_client_stop else upd_client (set_c_state PC_ST_WORKING));;
    finish_connect status.

(** ** Packages ([protocol.c]) *)

Definition pc__process_response (m : pc_msg_t) : prog unit :=
  let req_id_str := sprintf_u (msg_id m) in
  req ← requests_get req_id_str;
  match req with
  | None => mret tt
  | Some req =>
      requests_del req_id_str;;
      call_request_cb req 0 (msg m)
  end.

(** The route of the pending request with the key, as [parse_msg] reads it
    through [client->requests]: undefined when the request is freed; a null route
    is undefined too where it is used. *)
Definition request_route (w : world M) (key : string) : exec (option string) :=
  o ← sm_get (c_requests (w_client w)) key;
  match o with
  | None => Val None
  | Some req =>
      match w_reqs w !! req with
      | Some r => match rq_route r with Some rt => Val (Some rt) | None => UB end
      | None => UB
      end
  end.

Definition pc__data (data : bytes) : prog Z :=
  c ← the_client;
  look ← gets request_route;
  m ← lift (x_parse_msg X (c_ctx c) look data);
  match m with
  | None => mret (-1)
  | Some m =>
      (if msg_id m >? 0 then pc__process_response m
       else rt ← deref (route m); emit_event rt (MsgData (msg m)));;
      mret 0
  end.

Definition pc__pkg_cb (type : Z) (data : bytes) : prog unit :=
  status ← (if type =? PC_PKG_HANDSHAKE then pc__handshake_resp data
            else if type =? PC_PKG_HEARBEAT then pc__heartbeat
            else if type =? PC_PKG_DATA then pc__data data
            else if type =? PC_PKG_KICK then emit_event PC_EVENT_KICK NoData;; mret 0
            else mret (-1));
  when (status =? -1) pc_client_stop.

(** The client as the owner of its package parser. *)
#[export] Instance client_host : ParserHost (world M) := {
  host_parser w := c_parser (w_client w);
  host_set_parser p w := set_w_client (set_c_parser p (w_client w)) w;
  host_malloc w n := x_malloc X n;
  host_cb ty body w := '(w, _) ← pc__pkg_cb ty body w; Val w
}.

(** ** Reading ([transport.c]) *)

Definition pc_client_on_tcp_read (data : bytes) : prog unit :=
  r ← (λ w, pc_pkg_parser_feed w data) : prog bool;
  when (negb r) pc_client_stop.

(** [None] for [nread == -1]. *)
Definition pc_tp_on_tcp_read (tp : positive) (nread : option bytes) : prog unit :=
  touch_time;;
  t ← get_transport tp;
  if decide (tp_state t ≠ PC_TP_ST_WORKING) then mret tt
  else
    match nread with
    | None =>
        upd_client (set_c_reconnecting false);;
        pc_client_stop
    | Some [] => mret tt
    | Some data => pc_client_on_tcp_read data
    end.

(** ** Connecting ([network.c]) *)

Definition pc_connect_req_new (address : option sockaddr_in) : prog (option positive) :=
  match address with
  | None => mret None
  | Some a =>
      ok ← malloc_ok;
      if negb ok then mret None
      else
        ok ← malloc_ok;
        if negb ok then mret None
        else
          cn ← new_block;
          modify (λ w, set_w_conns (<[cn := mkConn (Some a) None UserConnectCb]> (w_conns w)) w);;
          mret (Some cn)
  end.

(** A failure after the transport exists destroys it. *)
Definition pc_connect (cn : positive) (handshake_opts : option json_t) (cb : pc_connect_cb) : prog Z :=
  c ← the_client;
  if decide (c_state c ≠ PC_ST_INITED) then mret (-1)
  else
    r ← get_conn cn;
    match cn_address r with
    | None => mret (-1)
    | Some _ =>
        touch_time;;
        upd_client (set_c_state PC_ST_CONNECTING);;
        ok ← malloc_ok;
        if negb ok then mret (-1)
        else
          ok ← malloc_ok;
          if negb ok then mret (-1)
          else
            o ← pc_transport_new;
            match o with
            | None => mret (-1)
            | Some tp =>
                upd_client (set_c_handshake_opts handshake_opts);;
                upd_client (set_c_conn_req (Some cn));;
                modify (λ w, set_w_conns (<[cn := mkConn (cn_address r) (Some tp) cb]> (w_conns w)) w);;
                e ← ask;
                if negb (e =? 0) then
                  pc_transport_destroy tp;;
                  mret (-1)
                else
                  uv_submit tp (UvConnect tp cn);;
                  put_transport tp (mkTransport PC_TP_ST_CONNECTING false);;
                  mret 0
            end
    end.

Definition pc__on_tcp_connect (tp cn : positive) (status : Z) : prog unit :=
  _ ← get_transport tp;
  touch_time;;
  c ← the_client;
  let error := upd_client (set_c_conn_req None);; pc_client_stop;; call_connect_cb cn (-1) in
  if decide (c_state c ≠ PC_ST_CONNECTING) then
    upd_client (set_c_conn_req None);;
    call_connect_cb cn (-1)
  else if status =? -1 then
    pc_transport_destroy tp;;
    error
  else
    upd_client (set_c_transport (Some tp));;
    e ← ask;
    if negb (e =? 0) then error
    else
      t ← get_transport tp;
      put_transport tp (mkTransport (tp_state t) true);;
      upd_client (set_c_state PC_ST_CONNECTED);;
      _ ← pc_transport_start tp;
      r ← pc__handshake_req;
      if negb (r =? 0) then error else mret tt.

(** ** Requests and notifies ([network.c]) *)

Definition new_tcp_req (type : pc_req_type) : prog (option positive) :=
  ok ← malloc_ok;
  if negb ok then mret None
  else
    rq ← new_block;
    put_req rq (mkReq type 0 None None None);;
    mret (Some rq).

Definition pc_request_new : prog (option positive) := new_tcp_req PC_REQUEST.
Definition pc_notify_new : prog (option positive) := new_tcp_req PC_NOTIFY.

Definition destroy_tcp_req (rq : positive) : prog unit :=
  _ ← get_req rq;
  modify (λ w, set_w_reqs (delete rq (w_reqs w)) w).

Definition pc_request_destroy : positive → prog unit := destroy_tcp_req.
Definition pc_notify_destroy : positive → prog unit := destroy_tcp_req.

(** [async_inited] is read uninitialised when the copy of the route cannot be
    allocated; [IS_VALID_JSON] dereferences the message. *)
Definition pc__async_write (transport : option positive) (rq : positive) (route : option string)
    (msg : option json_t) : prog Z :=
  match transport with
  | None => mret (-1)
  | Some tp =>
      t ← get_transport tp;
      if decide (tp_state t ≠ PC_TP_ST_WORKING) then mret (-1)
      else
        match route with
        | None => mret (-1)
        | Some route =>
            r ← get_req rq;
            let set_route o := mkReq (rq_type r) (rq_id r) o msg (Some tp) in
            ok ← malloc_ok;
            if negb ok then fail_ub
            else
              put_req rq (set_route (Some route));;
              _ ← deref msg;
              ok ← malloc_ok;
              if negb ok then put_req rq (set_route None);; mret (-1)
              else
                e ← ask;
                if negb (e =? 0) then put_req rq (set_route None);; mret (-1)
                else
                  a ← new_block;
                  e ← ask;
                  if negb (e =? 0) then
                    put_req rq (set_route None);;
                    uv_close (HAsync a);;
                    mret (-1)
                  else
                    modify (λ w, set_w_asyncs (<[a := rq]> (w_asyncs w)) w);;
                    mret 0
        end
  end.

Definition pc_request (rq : positive) (route : option string) (msg : option json_t) : prog Z :=
  c ← the_client;
  if decide (c_state c ≠ PC_ST_WORKING) then mret (-1)
  else
    id ← gets (λ w, u32 (w_req_id w + 1));
    modify (set_w_req_id id);;
    r ← get_req rq;
    put_req rq (mkReq (rq_type r) id (rq_route r) (rq_msg r) (rq_transport r));;
    pc__async_write (c_transport c) rq route msg.

Definition pc_notify (rq : positive) (route : option string) (msg : option json_t) : prog Z :=
  c ← the_client;
  if decide (c_state c ≠ PC_ST_WORKING) then mret (-1)
  else
    _ ← get_req rq;
    pc__async_write (c_transport c) rq route msg.

(** The common part of [pc__request] and [pc__notify]: encode the message and the
    package and write it to the client's transport; the result is whether the
    write was accepted. The check of the package tests the message again, so a
    package that could not be encoded, with its length of -1, reaches [uv_write],
    which is taken to be undefined. *)
Definition send_data (r : pc_tcp_req_t) (id : Z) (rt : string) (u : uv_req) : prog bool :=
  c ← the_client;
  msg_buf ← lift (x_encode_msg X (c_ctx c) id rt (rq_msg r));
  match msg_buf with
  | None => mret false
  | Some msg_buf =>
      ok ← malloc_ok;
      pkg_buf ← lift (pc_pkg_encode ok PC_PKG_DATA msg_buf (zlen msg_buf));
      ok ← malloc_ok;
      if negb ok then mret false
      else
        ok ← malloc_ok;
        if negb ok then mret false
        else
          tp ← deref (c_transport c);
          res ← uv_write tp pkg_buf u;
          mret (negb (res =? -1))
  end.

Definition pc__request (rq : positive) (status : Z) : prog unit :=
  if status =? -1 then call_request_cb rq status None
  else
    r ← get_req rq;
    tp ← deref (rq_transport r);
    t ← get_transport tp;
    if decide (tp_state t ≠ PC_TP_ST_WORKING) then call_request_cb rq status None
    else
      touch_time;;
      rt ← deref (rq_route r);
      sent ← send_data r (rq_id r) rt (UvRequest rq);
      if negb sent then call_request_cb rq (-1) None
      else requests_set (sprintf_u (rq_id r)) rq.

Definition pc__notify (rq : positive) (status : Z) : prog unit :=
  if status =? -1 then call_notify_cb rq status
  else
    touch_time;;
    r ← get_req rq;
    tp ← deref (rq_transport r);
    t ← get_transport tp;
    if decide (tp_state t ≠ PC_TP_ST_WORKING) then call_notify_cb rq status
    else
      rt ← deref (rq_route r);
      sent ← send_data r 0 rt (UvNotify rq);
      when (negb sent) (call_notify_cb rq (-1)).

Definition pc__async_write_cb (a rq : positive) (status : Z) : prog unit :=
  uv_close (HAsync a);;
  r ← get_req rq;
  _ ← deref (rq_msg r);
  match rq_type r with
  | PC_NOTIFY => pc__notify rq status
  | PC_REQUEST => pc__request rq status
  | PC_CONNECT => modify (λ w, set_w_reqs (delete rq (w_reqs w)) w)
  end.

Definition pc__on_request (rq : positive) (status : Z) : prog unit :=
  r ← get_req rq;
  tp ← deref (rq_transport r);
  t ← get_transport tp;
  touch_time;;
  if decide (tp_state t ≠ PC_TP_ST_WORKING) then call_request_cb rq (-1) None
  else if status =? -1 then
    requests_del (sprintf_u (rq_id r));;
    call_request_cb rq status None
  else mret tt.

Definition pc__on_notify (rq : positive) (status : Z) : prog unit :=
  r ← get_req rq;
  tp ← deref (rq_transport r);
  t ← get_transport tp;
  touch_time;;
  if decide (tp_state t ≠ PC_TP_ST_WORKING) then call_notify_cb rq (-1)
  else call_notify_cb rq status.

(** ** Reconnecting and connecting ([client.c]) *)

(** The first IPv4 address of the answer, with the port. *)
Fixpoint first_inet (l : list (bool * Z)) (port : Z) : option sockaddr_in :=
  match l with
  | [] => None
  | (inet, a) :: l => if inet then Some (a, u16 port) else first_inet l port
  end.

Definition pc_client_dns_resolve (host : string) (port : Z) : option sockaddr_in :=
  match x_getaddrinfo X host with
  | None => None
  | Some l => first_inet l port
  end.

Definition pc__client_reconnect_timer_cb : prog unit :=
  c ← the_client;
  let fail := upd_client (set_c_reconnecting false);; pc_client_stop in
  resolved ← match c_host c with
             | Some h =>
                 match pc_client_dns_resolve h (c_port c) with
                 | Some a => upd_client (set_c_addr (Some a));; mret true
                 | None => mret false
                 end
             | None => mret true
             end;
  if negb resolved then fail
  else
    c ← the_client;
    o ← pc_connect_req_new (c_addr c);
    match o with
    | None => fail
    | Some cn =>
        r ← pc_connect cn None ReconnectedCb;
        if negb (r =? 0) then pc_connect_req_destroy cn;; fail
        else mret tt
    end.

(** [memcpy(&client->addr, addr, ...)] when reconnecting is enabled. *)
Definition remember_addr (addr : sockaddr_in) : prog unit :=
  c ← the_client;
  when (c_enable_reconnect c) (upd_client (set_c_addr (Some addr))).

(** [pc_client_connect] up to the creation of the worker: the caller then waits
    for the broadcast, destroys the request and reports whether the client is
    working ([pc_client_connect_wait]). *)
Definition pc_client_connect (addr : sockaddr_in) : prog (option positive) :=
  o ← pc_connect_req_new (Some addr);
  remember_addr addr;;
  match o with
  | None => mret None
  | Some cn =>
      r ← pc_connect cn None ConnectedCb;
      if negb (r =? 0) then pc_connect_req_destroy cn;; mret None
      else mret (Some cn)
  end.

Definition pc_client_connect_wait (cn : positive) : prog Z :=
  pc_connect_req_destroy cn;;
  c ← the_client;
  mret (if decide (c_state c ≠ PC_ST_WORKING) then -1 else 0).

Definition pc_client_connect2 (cn : positive) : prog Z :=
  c ← the_client;
  r ← get_conn cn;
  (if c_enable_reconnect c then a ← deref (cn_address r); upd_client (set_c_addr (Some a))
   else mret tt);;
  r ← pc_connect cn None UserConnectCb;
  mret (if negb (r =? 0) then -1 else 0).

Definition pc_client_connect3 (addr : sockaddr_in) : prog Z :=
  o ← pc_connect_req_new (Some addr);
  remember_addr addr;;
  match o with
  | None => mret (-1)
  | Some cn =>
      r ← pc_connect cn None Connect3Cb;
      if negb (r =? 0) then pc_connect_req_destroy cn;; mret (-1)
      else mret 0
  end.

Definition pc_client_connect4 (host : string) (port : Z) : prog Z :=
  match pc_client_dns_resolve host port with
  | None => mret (-1)
  | Some addr =>
      upd_client (set_c_host (Some host));;
      upd_client (set_c_port port);;
      pc_client_connect3 addr
  end.

(** The end of the worker thread, after the loop. *)
Definition pc__worker_exit : prog unit :=
  upd_client (set_c_state PC_ST_CLOSED);;
  emit_event PC_EVENT_DISCONNECT NoData;;
  pc__cond_broadcast.

(** [pc__client_clear]: the release of the maps, the JSON values and the host.
    The parser is closed and freed with its buffer. *)
Definition pc__client_clear : prog unit :=
  c ← the_client;
  r ← lift (destroy_listeners (c_listeners c));
  upd_client (set_c_listeners r);;
  rel ← lift (sm_destroy (c_requests c));
  release_requests rel;;
  c ← the_client;
  p ← lift (pc_pkg_parser_close (c_parser c));
  upd_client (set_c_parser p);;
  upd_client (set_c_handshake_opts None);;
  upd_client (set_c_ctx (mkCtx None None None None));;
  upd_client (set_c_proto_ver None);;
  upd_client (set_c_host None).

(** [pc_client_destroy] up to the join: the result tells whether the caller has
    to wait for the worker before [pc__client_clear] and the release of the
    client. *)
Definition pc_client_destroy : prog bool :=
  c ← the_client;
  match c_state c with
  | PC_ST_INITED | PC_ST_CLOSED => pc__client_clear;; mret false
  | _ => pc_client_disconnect;; mret true
  end.

Definition pc_proto_init (read write : option string) : prog unit :=
  upd_client (set_c_read_dir read);; upd_client (set_c_write_dir write).

Definition pc_proto_init2 (cb : bool) : prog unit := upd_client (set_c_proto_cb cb).

Definition pc_proto_copy (ver client server : option json_t) : prog unit :=
  upd_client (set_c_proto_ver ver);;
  upd_client (λ c, set_c_ctx (with_protos server client (c_ctx c)) c).

(** ** Creation *)

(** [pc_client_new] and [pc__client_init], and what [pc_client_new_with_reconnect]
    adds for [Some conf]; a failed allocation aborts the process. [handshake_cb]
    tells whether the user sets one. *)
Definition pc__client_init (reconnect : option reconnect_conf) (handshake_cb : bool) :
    exec (pc_client_t M) :=
  listeners ← listeners_new;
  requests ← (sm_new positive : exec (M positive));
  match pc_pkg_parser_new true with
  | None => UB
  | Some parser =>
      let timers t :=
        match t with
        | HeartbeatTimer | TimeoutTimer => Some (mkTimer true None 0)
        | HandshakeTimer => Some uv_timer_init
        | ReconnectTimer => match reconnect with Some _ => Some uv_timer_init | None => None end
        end in
      Val (mkClient PC_ST_INITED None listeners requests parser 0 0 None handshake_cb None
             (mkCtx None None None None) None None None false timers (Some false)
             (match reconnect with Some _ => true | None => false end) 0 false
             (default (mkConf 0 0 false 0) reconnect) None None (-1))
  end.

(** The world of a new client, with the answers the environment will give. *)
Definition new_world (reconnect : option reconnect_conf) (handshake_cb : bool) (oracle : list Z) :
    exec (world M) :=
  c ← pc__client_init reconnect handshake_cb;
  Val (mkWorld c ∅ ∅ ∅ ∅ ∅ [] [] [] oracle 1 0 0 0).

(** ** The event loop and the user *)

Inductive event :=
  (** A connect or write request of the loop completes. *)
  | LReq (n : positive) (status : Z)
  (** The wake-up of a tcp request. *)
  | LAsync (a : positive)
  (** The wake-up of [pc_client_disconnect]. *)
  | LCloseAsync
  (** Data, or an error for [None]. *)
  | LRead (tp : positive) (nread : option bytes)
  | LTimer (t : timer_id)
  (** A handle is closed. *)
  | LClosed (h : uv_handle)
  (** The loop has ended and the worker thread with it. *)
  | LWorkerExit
  (** Calls of the user. *)
  | UConnect (addr : sockaddr_in)
  | UConnectWait (cn : positive)
  | UConnectReqNew (addr : sockaddr_in)
  | UConnect2 (cn : positive)
  | UConnect3 (addr : sockaddr_in)
  | UConnect4 (host : string) (port : Z)
  | URequestNew
  | UNotifyNew
  | URequest (rq : positive) (route : option string) (msg : option json_t)
  | UNotify (rq : positive) (route : option string) (msg : option json_t)
  | UReqDestroy (rq : positive)
  | UDisconnect
  | UStop
  | UAddListener (event : string) (cb : positive)
  | URemoveListener (event : string) (cb : positive)
  | UEmit (event : string)
  | UProtoInit (read write : option string)
  | UProtoInit2 (cb : bool)
  (** Time passes. *)
  | UTime (now : Z).

(** What libuv guarantees of its callbacks: a request completes once, with 0 or
    -1; a socket is read only after [uv_read_start] and before it is closed; an
    inactive or closed timer does not fire; a socket is closed after its
    outstanding requests have completed. *)
Definition enabled (w : world M) (e : event) : bool :=
  match e with
  | LReq n status => bool_decide (is_Some (w_pending w !! n)) && ((status =? 0) || (status =? -1))
  | LAsync a => bool_decide (is_Some (w_asyncs w !! a)) && bool_decide (HAsync a ∉ w_closing w ++ w_closed w)
  | LCloseAsync => bool_decide (c_close_async (w_client w) = Some true)
  | LRead tp _ =>
      match w_transports w !! tp with
      | Some t => tp_reading t && bool_decide (HSocket tp ∉ w_closing w ++ w_closed w)
      | None => false
      end
  | LTimer t =>
      match c_timers (w_client w) t with
      | Some tm => timer_active tm && bool_decide (HTimer t ∉ w_closing w ++ w_closed w)
      | None => false
      end
  | LClosed h =>
      bool_decide (h ∈ w_closing w) &&
      match h with
      | HSocket tp => bool_decide (map_Forall (λ _ p, p.1 ≠ tp) (w_pending w))
      | _ => true
      end
  | _ => true
  end.

Definition deliver_req (r : uv_req) (status : Z) : prog unit :=
  match r with
  | UvConnect tp cn => pc__on_tcp_connect tp cn status
  | UvHandshakeReq tp => pc__handshake_req_cb tp status
  | UvHandshakeAck tp => pc__handshake_ack_cb tp status
  | UvHeartbeat tp => pc__heartbeat_req_cb tp status
  | UvRequest rq => pc__on_request rq status
  | UvNotify rq => pc__on_notify rq status
  end.

Definition deliver_timer (t : timer_id) : prog unit :=
  on_timer t uv__run_timer;;
  match t with
  | HeartbeatTimer => pc__heartbeat_cb 0
  | TimeoutTimer => pc__timeout_cb 0
  | HandshakeTimer => pc__handshake_timeout_cb
  | ReconnectTimer => pc__client_reconnect_timer_cb
  end.

Definition on_listeners {A} (f : registry M positive → exec (registry M positive * A)) : prog A :=
  c ← the_client;
  '(r, a) ← lift (f (c_listeners c));
  upd_client (set_c_listeners r);;
  mret a.

Definition skip {A} (p : prog A) : prog unit := _ ← p; mret tt.

Definition deliver (e : event) : prog unit :=
  match e with
  | LReq n status =>
      o ← gets (λ w, w_pending w !! n);
      p ← deref o;
      modify (λ w, set_w_pending (delete n (w_pending w)) w);;
      deliver_req p.2 status
  | LAsync a =>
      o ← gets (λ w, w_asyncs w !! a);
      rq ← deref o;
      modify (λ w, set_w_asyncs (delete a (w_asyncs w)) w);;
      pc__async_write_cb a rq 0
  | LCloseAsync => upd_client (set_c_close_async (Some false));; pc__close_async_cb
  | LRead tp nread => pc_tp_on_tcp_read tp nread
  | LTimer t => deliver_timer t
  | LClosed h =>
      modify (λ w, set_w_closing (filter (λ x, x ≠ h) (w_closing w)) w);;
      modify (λ w, set_w_closed (h :: w_closed w) w);;
      match h with HSocket tp => pc__tcp_close_cb tp | _ => mret tt end
  | LWorkerExit => pc__worker_exit
  | UConnect addr => skip (pc_client_connect addr)
  | UConnectWait cn => skip (pc_client_connect_wait cn)
  | UConnectReqNew addr => skip (pc_connect_req_new (Some addr))
  | UConnect2 cn => skip (pc_client_connect2 cn)
  | UConnect3 addr => skip (pc_client_connect3 addr)
  | UConnect4 host port => skip (pc_client_connect4 host port)
  | URequestNew => skip pc_request_new
  | UNotifyNew => skip pc_notify_new
  | URequest rq route msg => r ← pc_request rq route msg; when (r =? 0) (observe (OAccepted rq))
  | UNotify rq route msg => r ← pc_notify rq route msg; when (r =? 0) (observe (OAccepted rq))
  | UReqDestroy rq => destroy_tcp_req rq
  | UDisconnect => pc_client_disconnect
  | UStop => pc_client_stop
  | UAddListener event cb =>
      c ← the_client;
      skip (on_listeners (pc_add_listener (bool_decide (c_state c = PC_ST_CLOSED)) true true event cb))
  | URemoveListener event cb =>
      on_listeners (λ r, r ← pc_remove_listener event cb r; Val (r, tt))
  | UEmit event => emit_event event NoData
  | UProtoInit read write => pc_proto_init read write
  | UProtoInit2 cb => pc_proto_init2 cb
  | UTime now => modify (λ w, mkWorld (w_client w) (w_transports w) (w_conns w) (w_reqs w) (w_pending w)
                                (w_asyncs w) (w_closing w) (w_closed w) (w_trace w) (w_oracle w)
                                (w_next w) (w_req_id w) now (w_last_update w))
  end.

(** Runs of a client: any enabled event, one after the other. *)
Inductive reach (w0 : world M) : world M → Prop :=
  | reach_refl : reach w0 w0
  | reach_step w e w' : reach w0 w → enabled w e = true → deliver e w = Val (w', tt) → reach w0 w'.

(** The same, executable: [None] when an event is not enabled. *)
Fixpoint run (es : list event) (w : world M) : exec (option (world M)) :=
  match es with
  | [] => Val (Some w)
  | e :: es =>
      if enabled w e then '(w, _) ← deliver e w; run es w else Val None
  end.

Lemma run_reach w0 es : ∀ w w', reach w0 w → run es w = Val (Some w') → reach w0 w'.
Proof.
  induction es as [|e es IH]; intros w w' Hr E; cbn [run] in E; [by injection E as <-|].
  destruct (enabled w e) eqn:He; [|done]. destruct (deliver e w) as [[w1 []]| |] eqn:Ed; [|done..].
  eapply IH, E. by eapply reach_step.
Qed.

End Client.
