(* ===== verification/ClientLogic.v ===== *)
(** * Reasoning about client programs

    Partial-correctness triples for the programs of [ClientState.v], with their
    composition rules; [keeps R m] says that every run of [m] relates its initial
    and final world by the preorder [R] (what it leaves alone), under a condition
    [C] that [R] keeps. The tactic [keeps_auto] goes through a program: binds,
    conditionals, matches, and the hints of the database [keeps]. *)

From S2P Require Import Prelude Package ClientState Client StringMap.
Local Open Scope Z_scope.

Create HintDb keeps.

Section Logic.
Context {M : Type → Type}.
Implicit Types (w : world M) (P : world M → Prop) (R : world M → world M → Prop).

Definition hoare {A} P (m : prog M A) (Q : A → world M → Prop) : Prop :=
  ∀ w w' a, P w → m w = Val (w', a) → Q a w'.

Lemma hoare_bind {A B} P (m : prog M A) Q (f : A → prog M B) S :
  hoare P m Q → (∀ a, hoare (Q a) (f a) S) → hoare P (m ≫= f) S.
Proof.
  intros Hm Hf w w' b Hw E. unfold mbind, prog_bind in E.
  destruct (m w) as [[w1 a]| |] eqn:Em; [|done..]. eapply Hf, E. by eapply Hm.
Qed.

Lemma hoare_ret {A} P (a : A) (Q : A → world M → Prop) : (∀ w, P w → Q a w) → hoare P (mret a) Q.
Proof. intros Hq w w' b Hw [= <- <-]. by apply Hq. Qed.

Lemma hoare_cons {A} P P' (m : prog M A) (Q Q' : A → world M → Prop) :
  hoare P m Q → (∀ w, P' w → P w) → (∀ a w, Q a w → Q' a w) → hoare P' m Q'.
Proof. intros Hm HP HQ w w' a Hw E. eapply HQ, Hm, E. by apply HP. Qed.

(** Running a program that succeeds. *)
Lemma prog_bind_Val {A B} (m : prog M A) (f : A → prog M B) w w' a :
  m w = Val (w', a) → (m ≫= f) w = f a w'.
Proof. intros E. unfold mbind, prog_bind. by rewrite E. Qed.

(** ** Frames *)

Definition keeps R {A} (m : prog M A) : Prop := ∀ w w' a, m w = Val (w', a) → R w w'.

Section Keeps.
Context (R : world M → world M → Prop) `{!PreOrder R}.

Lemma keeps_ret {A} (a : A) : keeps R (mret a).
Proof. intros w w' b [= <- <-]. reflexivity. Qed.

Lemma keeps_bind {A B} (m : prog M A) (f : A → prog M B) :
  keeps R m → (∀ a, keeps R (f a)) → keeps R (m ≫= f).
Proof.
  intros Hm Hf w w' b E. unfold mbind, prog_bind in E.
  destruct (m w) as [[w1 a]| |] eqn:Em; [|done..]. etrans; [by eapply Hm|by eapply Hf].
Qed.

Lemma keeps_fail {A} : keeps R (fail_ub : prog M A).
Proof. done. Qed.

Lemma keeps_lift {A} (e : exec A) : keeps R (lift e).
Proof. intros w w' a E. unfold lift in E. destruct e; [|done..]. injection E as <- <-. reflexivity. Qed.

Lemma keeps_gets {A} (f : world M → A) : keeps R (gets f).
Proof. intros w w' a [= <- <-]. reflexivity. Qed.

Lemma keeps_client : keeps R the_client.
Proof. apply keeps_gets. Qed.

Lemma keeps_deref {A} (o : option A) : keeps R (deref o).
Proof. destruct o; [apply keeps_ret|apply keeps_fail]. Qed.

Lemma keeps_modify f : (∀ w, R w (f w)) → keeps R (modify f).
Proof. intros Hf w w' a [= <- <-]. apply Hf. Qed.

Lemma keeps_ask : (∀ w o, R w (set_w_oracle o w)) → keeps R ask.
Proof.
  intros Hf w w' a E. unfold ask in E. destruct (w_oracle w); injection E as <- <-; [reflexivity|apply Hf].
Qed.

Lemma keeps_new_block : (∀ w, R w (set_w_next (Pos.succ (w_next w)) w)) → keeps R new_block.
Proof. intros Hf w w' a [= <- <-]. apply Hf. Qed.

Lemma keeps_when b (m : prog M unit) : keeps R m → keeps R (when b m).
Proof. destruct b; [done|intros _; apply keeps_ret]. Qed.
End Keeps.

Lemma keeps_hoare {A} R P (m : prog M A) :
  keeps R m → (∀ w w', P w → R w w' → P w') → hoare P m (λ _, P).
Proof. intros Hk HP w w' a Hw E. eapply HP; [done|by eapply Hk]. Qed.

(** ** The parser in the client *)

(** Feeding the parser keeps what the package callback and an update of the
    parser keep. *)
Lemma feed_keeps (X : externals) `{SM : StringMap M} P :
  (∀ p w, P w → P (set_w_client (set_c_parser p (w_client w)) w)) →
  (∀ ty body, hoare P (pc__pkg_cb X ty body) (λ _, P)) →
  ∀ w data w' b, P w → (pc_pkg_parser_feed (PH := client_host X) w data) = Val (w', b) → P w'.
Proof.
  intros Hset Hcb w data w' b. unfold pc_pkg_parser_feed.
  assert (∀ p w, P w → P (host_set_parser (ParserHost := client_host X) p w)) as Hs by (by apply Hset).
  assert (∀ ty body w w1, P w → host_cb (ParserHost := client_host X) ty body w = Val w1 → P w1) as Hc.
  { intros ty body w0 w1 Hw E. cbn [host_cb client_host] in E.
    destruct (pc__pkg_cb X ty body w0) as [[w2 []]| |] eqn:Ecb; [|done..]. injection E as <-.
    by eapply (Hcb ty body w0 w2 tt). }
  assert (∀ w data off n w1 o, P w → pc__pkg_head (PH := client_host X) w data off n = Val (w1, o) → P w1) as Hh.
  { intros w0 d off n w1 o Hw E. unfold pc__pkg_head in E. cbv zeta in E. exec_inv.
    case_match; exec_inv; [case_match; simplify_eq; auto|]. auto. }
  assert (∀ w data off n w1 o, P w → pc__pkg_body (PH := client_host X) w data off n = Val (w1, o) → P w1) as Hb.
  { intros w0 d off n w1 o Hw E. unfold pc__pkg_body in E. cbv zeta in E. exec_inv.
    case_match; exec_inv; simplify_eq; eauto. }
  generalize (length data + 1)%nat as fuel, 0 as off. intros fuel. revert w.
  induction fuel as [|fuel IH]; intros w off Hw E; [done|]. cbn [feed_loop] in E.
  case_match; [|by injection E as <- <-].
  apply bind_Val_inv in E as ([w1 r] & E1 & E). assert (P w1) as H1.
  { destruct (decide (state (host_parser w) = PC_PKG_HEAD)); [eapply Hh, E1; exact Hw|by injection E1 as <- <-]. }
  destruct r as [off1|]; [|by injection E as <- <-].
  apply bind_Val_inv in E as ([w2 off2] & E2 & E). assert (P w2) as H2.
  { destruct (decide (state (host_parser w1) = PC_PKG_BODY)); [eapply Hb, E2; exact H1|by injection E2 as <- <-]. }
  case_match; [by eapply IH| by eapply IH|by injection E as <- <-].
Qed.

End Logic.

(** Walk through a program. *)
Ltac keeps_step :=
  match goal with
  | |- keeps _ (_ ≫= _) => refine (keeps_bind _ _ _ _ _); [|intros ?]
  | |- keeps _ (mret _) => refine (keeps_ret _ _)
  | |- keeps _ fail_ub => apply keeps_fail
  | |- keeps _ (lift _) => refine (keeps_lift _ _)
  | |- keeps _ (gets _) => refine (keeps_gets _ _)
  | |- keeps _ the_client => refine (keeps_client _)
  | |- keeps _ (deref _) => refine (keeps_deref _ _)
  | |- keeps _ (when _ _) => refine (keeps_when _ _ _ _)
  | |- keeps _ (match ?x with _ => _ end) => destruct x
  | |- keeps _ (let _ := _ in _) => cbv zeta
  | |- keeps _ _ => solve [eauto with keeps]
  | |- ∀ _ : _, _ => intros ?
  end.

Ltac keeps_auto := repeat keeps_step.

(** Unfold the handlers that neither stop the client nor touch the requests. *)
Ltac unfold_handlers :=
  unfold pc__handshake_resp, setup_protos, setup_heartbeat, pc__handshake_ack, pc__handshake_req,
    pc__dump_file, pc__load_file, pc__heartbeat_req, pc__heartbeat, pc__binary_write, pc__cond_broadcast,
    pc_connect_req_destroy, pc_connect_req_new, remember_addr, pc_transport_start, pc_transport_destroy,
    pc_transport_new, pc__tcp_close_cb, close_timer, stop_if, drop_transport, emit_event, uv_write, on_timer,
    set_timer, uv_close, get_conn, get_req, get_transport, put_transport, malloc_ok, touch_time.

(** [unfold_handlers] without the timer operations, with the handlers of
    requests. *)
Ltac unfold_calm :=
  unfold requests_get, requests_set, requests_del, requests_clear, call_request_cb, call_notify_cb,
    pc__handshake_ack, pc__handshake_req, pc__tcp_close_cb, close_timer, stop_if, drop_transport,
    setup_protos, setup_heartbeat, pc__dump_file, pc__load_file, pc__heartbeat_req, pc__binary_write,
    pc__cond_broadcast, pc_connect_req_destroy, pc_connect_req_new, remember_addr, pc_transport_start,
    pc_transport_destroy, pc_transport_new, emit_event, uv_write, uv_submit, uv_close, get_conn, get_req,
    put_req, get_transport, put_transport, malloc_ok, touch_time.
