(* ===== verification/ClientInv.v ===== *)
(** * The connection state of a client

    In every world a client can reach, whatever the user calls, the server sends
    and libuv reports, the client's state, its transport pointer and the states
    of the transports agree: a connected or working client has a working
    transport, no other transport is working, its transport pointer never
    dangles, and a socket is closed once. *)

From S2P Require Import Prelude Package StringMap Listeners Backoff Uv Float Jansson Protocol ClientState Client ClientLogic.
Local Open Scope Z_scope.

Section Inv.
Context {M : Type → Type} `{SM : StringMap M}.
Implicit Types (w : world M).

Abbreviation st w := (c_state (w_client w)).
Abbreviation ctp w := (c_transport (w_client w)).

Definition wf_next w : Prop := ∀ n, is_Some (w_pending w !! n) → (n < w_next w)%positive.

(** What most operations leave alone. *)
Definition frame w w' : Prop :=
  wf_next w → wf_next w' ∧ st w' = st w ∧ ctp w' = ctp w ∧ w_transports w' = w_transports w ∧
    (∀ tp, HSocket tp ∈ w_closing w' ↔ HSocket tp ∈ w_closing w) ∧
    (∀ n tp tp' cn, w_pending w' !! n = Some (tp', UvConnect tp cn) ↔
                    w_pending w !! n = Some (tp', UvConnect tp cn)) ∧
    w_closed w' = w_closed w ∧ (w_next w ≤ w_next w')%positive.

#[local] Instance frame_preorder : PreOrder frame.
Proof.
  split.
  - intros w Hw. repeat split; auto. lia.
  - intros w1 w2 w3 H12 H23 Hw. destruct (H12 Hw) as (Hw2 & ? & ? & ? & Hc & Hp & ? & ?).
    destruct (H23 Hw2) as (? & ? & ? & ? & Hc' & Hp' & ? & ?).
    split; [done|]. split; [congruence|]. split; [congruence|]. split; [congruence|].
    split; [intros; rewrite Hc'; apply Hc|]. split; [intros; rewrite Hp'; apply Hp|].
    split; [congruence|]. lia.
Qed.

(** An update of fields the frame does not mention. *)
Lemma frame_same w w' :
  st w' = st w → ctp w' = ctp w → w_transports w' = w_transports w → w_closing w' = w_closing w →
  w_pending w' = w_pending w → w_next w' = w_next w → w_closed w' = w_closed w → frame w w'.
Proof.
  intros E1 E2 E3 E4 E5 E6 E7 Hw. unfold wf_next in *. rewrite E4, E5, E6. repeat split; auto. lia.
Qed.

Lemma frame_modify f : (∀ w, frame w (f w)) → keeps (M := M) frame (modify f).
Proof. apply keeps_modify. Qed.

Lemma frame_upd f :
  (∀ c, c_state (f c) = c_state c ∧ c_transport (f c) = c_transport c) →
  keeps (M := M) frame (upd_client f).
Proof.
  intros Hf. apply keeps_modify. intros w. destruct (Hf (w_client w)). by apply frame_same.
Qed.

Lemma frame_ask : keeps (M := M) frame ask.
Proof. apply keeps_ask; [apply _|]. intros w o. by apply frame_same. Qed.

Lemma frame_new_block : keeps (M := M) frame new_block.
Proof.
  apply keeps_new_block. intros w Hw. unfold wf_next in *. simpl. repeat split; auto; [|lia].
  intros n Hn%Hw. lia.
Qed.

Lemma frame_observe o : keeps (M := M) frame (observe o).
Proof. apply keeps_modify. intros w. by apply frame_same. Qed.

Lemma frame_touch : keeps (M := M) frame touch_time.
Proof. apply keeps_modify. intros w. by apply frame_same. Qed.

Lemma frame_put_req rq r : keeps (M := M) frame (put_req rq r).
Proof. apply keeps_modify. intros w. by apply frame_same. Qed.

Hint Extern 1 (keeps frame (modify _)) => (apply keeps_modify; intros; by apply frame_same) : keeps.
Hint Extern 1 (keeps frame (upd_client _)) => (apply frame_upd; done) : keeps.
Hint Resolve frame_ask frame_new_block frame_observe frame_touch frame_put_req : keeps.

Lemma frame_malloc : keeps (M := M) frame malloc_ok.
Proof. unfold malloc_ok. keeps_auto.
Qed.
Hint Resolve frame_malloc : keeps.

Lemma frame_get_req rq : keeps (M := M) frame (get_req rq).
Proof. unfold get_req. keeps_auto. Qed.
Lemma frame_get_transport tp : keeps (M := M) frame (get_transport tp).
Proof. unfold get_transport. keeps_auto. Qed.
Lemma frame_get_conn cn : keeps (M := M) frame (get_conn cn).
Proof. unfold get_conn. keeps_auto. Qed.
Hint Resolve frame_get_req frame_get_transport frame_get_conn : keeps.

Lemma frame_set_timer t v : keeps (M := M) frame (set_timer t v).
Proof. unfold set_timer. keeps_auto. Qed.
Hint Resolve frame_set_timer : keeps.

Lemma frame_on_timer t f : keeps (M := M) frame (on_timer t f).
Proof. unfold on_timer. keeps_auto. Qed.
Hint Resolve frame_on_timer : keeps.

(** Closing a handle that is not a socket; writing. *)
Lemma frame_close h : (∀ tp, h ≠ HSocket tp) → keeps (M := M) frame (uv_close h).
Proof.
  intros Hh. unfold uv_close. keeps_auto. apply keeps_modify. intros w Hw. simpl.
  repeat split; auto; [|set_solver|lia]. rewrite elem_of_app, list_elem_of_singleton.
  intros [?|E]; [done|]. by destruct (Hh tp).
Qed.

Definition not_connect (r : uv_req) : Prop :=
  match r with UvConnect _ _ => False | _ => True end.

Lemma frame_submit tp r : not_connect r → keeps (M := M) frame (uv_submit tp r).
Proof.
  intros Hr w w' a E Hw. unfold uv_submit, mbind, prog_bind, new_block, modify in E. injection E as <- <-.
  unfold wf_next in *. cbn [w_client w_transports w_pending w_closing w_next set_w_pending set_w_next].
  assert (w_pending w !! w_next w = None) as Hn.
  { apply eq_None_not_Some. intros Hs%Hw. lia. }
  split.
  { intros n Hs. destruct (decide (n = w_next w)) as [->|Hne]; [lia|].
    rewrite lookup_insert_ne in Hs by done. apply Hw in Hs. lia. }
  repeat split; auto; [| |lia].
  - intros Hl. destruct (decide (n = w_next w)) as [->|Hne]; [|by rewrite lookup_insert_ne in Hl].
    rewrite lookup_insert_eq in Hl. injection Hl as -> ->. done.
  - intros Hl. rewrite lookup_insert_ne; [done|]. intros <-. by rewrite Hn in Hl.
Qed.

Lemma frame_write tp buf r : not_connect r → keeps (M := M) frame (uv_write tp buf r).
Proof. intros Hr. unfold uv_write. keeps_auto. by apply frame_submit. Qed.

Lemma frame_binary_write buf r : (∀ tp, not_connect (r tp)) → keeps (M := M) frame (pc__binary_write buf r).
Proof. intros Hr. unfold pc__binary_write. keeps_auto. by apply frame_write. Qed.

Hint Extern 1 (keeps frame (uv_close _)) => (apply frame_close; done) : keeps.
Hint Extern 1 (keeps frame (uv_write _ _ _)) => (apply frame_write; exact I) : keeps.
Hint Extern 1 (keeps frame (pc__binary_write _ _)) => (apply frame_binary_write; intros; exact I) : keeps.

Lemma frame_emit e d : keeps (M := M) frame (emit_event e d).
Proof. unfold emit_event. keeps_auto. Qed.
Lemma frame_request_cb rq s r : keeps (M := M) frame (call_request_cb rq s r).
Proof. unfold call_request_cb. keeps_auto. Qed.
Lemma frame_notify_cb rq s : keeps (M := M) frame (call_notify_cb rq s).
Proof. unfold call_notify_cb. keeps_auto. Qed.
Hint Resolve frame_emit frame_request_cb frame_notify_cb : keeps.

Lemma frame_release rel : keeps (M := M) frame (release_requests rel).
Proof. induction rel as [|[k rq] rel IH]; simpl; unfold pc__release_requests; keeps_auto. Qed.
Hint Resolve frame_release : keeps.

Lemma frame_req_get k : keeps (M := M) frame (requests_get k).
Proof. unfold requests_get. keeps_auto. Qed.
Lemma frame_req_set k rq : keeps (M := M) frame (requests_set k rq).
Proof. unfold requests_set. keeps_auto. Qed.
Lemma frame_req_del k : keeps (M := M) frame (requests_del k).
Proof. unfold requests_del. keeps_auto. Qed.
Lemma frame_req_clear : keeps (M := M) frame requests_clear.
Proof. unfold requests_clear. keeps_auto. Qed.
Hint Resolve frame_req_get frame_req_set frame_req_del frame_req_clear : keeps.

Lemma frame_stop_if t s : keeps (M := M) frame (stop_if t s).
Proof. unfold stop_if. keeps_auto. Qed.
Lemma frame_close_timer t k : keeps frame k → keeps (M := M) frame (close_timer t k).
Proof. intros Hk. unfold close_timer. keeps_auto. Qed.
Hint Resolve frame_stop_if : keeps.
Hint Extern 1 (keeps frame (close_timer _ _)) => (apply frame_close_timer; keeps_auto) : keeps.

Lemma frame_heartbeat : keeps (M := M) frame pc__heartbeat.
Proof. unfold pc__heartbeat. keeps_auto. Qed.
Lemma frame_heartbeat_req : keeps (M := M) frame pc__heartbeat_req.
Proof. unfold pc__heartbeat_req. keeps_auto. Qed.
Hint Resolve frame_heartbeat frame_heartbeat_req : keeps.

Section Externals.
Context (X : externals).

Lemma frame_load n : keeps (M := M) frame (pc__load_file X n).
Proof. unfold pc__load_file. keeps_auto. Qed.
Lemma frame_dump n s : keeps (M := M) frame (pc__dump_file n s).
Proof. unfold pc__dump_file. keeps_auto. Qed.
Hint Resolve frame_load frame_dump : keeps.

Lemma frame_handshake_req : keeps (M := M) frame (pc__handshake_req X).
Proof. unfold pc__handshake_req. keeps_auto. Qed.
Lemma frame_handshake_ack : keeps (M := M) frame pc__handshake_ack.
Proof. unfold pc__handshake_ack. keeps_auto. Qed.
Lemma frame_setup_heartbeat s : keeps (M := M) frame (setup_heartbeat s).
Proof. unfold setup_heartbeat. keeps_auto. Qed.
Lemma frame_setup_protos s : keeps (M := M) frame (setup_protos X s).
Proof. unfold setup_protos. keeps_auto. Qed.
Hint Resolve frame_handshake_req frame_handshake_ack frame_setup_heartbeat frame_setup_protos : keeps.

Lemma frame_handshake_resp d : keeps (M := M) frame (pc__handshake_resp X d).
Proof. unfold pc__handshake_resp. keeps_auto. Qed.
Lemma frame_process_response m : keeps (M := M) frame (pc__process_response m).
Proof. unfold pc__process_response. keeps_auto. Qed.
Hint Resolve frame_handshake_resp frame_process_response : keeps.

Lemma frame_data d : keeps (M := M) frame (pc__data X d).
Proof. unfold pc__data. keeps_auto. Qed.
Hint Resolve frame_data : keeps.

Lemma frame_async_write tp rq rt m : keeps (M := M) frame (pc__async_write tp rq rt m).
Proof. unfold pc__async_write. keeps_auto. Qed.
Hint Resolve frame_async_write : keeps.
Lemma frame_request rq rt m : keeps (M := M) frame (pc_request rq rt m).
Proof. unfold pc_request. keeps_auto. Qed.
Lemma frame_notify rq rt m : keeps (M := M) frame (pc_notify rq rt m).
Proof. unfold pc_notify. keeps_auto. Qed.
Lemma frame_send r id rt u : not_connect u → keeps (M := M) frame (send_data X r id rt u).
Proof. intros Hu. unfold send_data. keeps_auto. by apply frame_write. Qed.
Hint Resolve frame_request frame_notify : keeps.
Hint Extern 1 (keeps frame (send_data _ _ _ _ _)) => (apply frame_send; exact I) : keeps.

Lemma frame_async_cb a rq s : keeps (M := M) frame (pc__async_write_cb X a rq s).
Proof. unfold pc__async_write_cb, pc__notify, pc__request. keeps_auto. Qed.
Lemma frame_on_request rq s : keeps (M := M) frame (pc__on_request rq s).
Proof. unfold pc__on_request. keeps_auto. Qed.
Lemma frame_on_notify rq s : keeps (M := M) frame (pc__on_notify rq s).
Proof. unfold pc__on_notify. keeps_auto. Qed.
Hint Resolve frame_async_cb frame_on_request frame_on_notify : keeps.

(** ** The invariant *)

(** A pending connection on the transport [tp]. *)
Definition connecting_on w (n tp : positive) : Prop :=
  ∃ tp' cn, w_pending w !! n = Some (tp', UvConnect tp cn).

Record base w : Prop := {
  (** A working transport is the client's, and the client is past connecting. *)
  b_working tp t : w_transports w !! tp = Some t → tp_state t = PC_TP_ST_WORKING →
    ctp w = Some tp ∧ st w ≠ PC_ST_INITED ∧ st w ≠ PC_ST_CONNECTING;
  (** The client's transport is live and not closed. *)
  b_ctp tp : ctp w = Some tp → ∃ t, w_transports w !! tp = Some t ∧
    (tp_state t = PC_TP_ST_CONNECTING ∨ tp_state t = PC_TP_ST_WORKING);
  (** A pending connection is on a connecting transport that is not yet the
      client's, and it is the only one there. *)
  b_pend n tp : connecting_on w n tp → ctp w ≠ Some tp ∧
    ∃ t, w_transports w !! tp = Some t ∧ tp_state t = PC_TP_ST_CONNECTING;
  b_uniq n n' tp : connecting_on w n tp → connecting_on w n' tp → n = n';
  (** A closing socket belongs to a closed transport. *)
  b_sock tp : HSocket tp ∈ w_closing w → ∃ t, w_transports w !! tp = Some t ∧
    tp_state t = PC_TP_ST_CLOSED;
  b_next tp : is_Some (w_transports w !! tp) → (tp < w_next w)%positive;
  b_wf : wf_next w;
  (** The transport of a closed socket is freed, and its name is not reused. *)
  b_closed tp : HSocket tp ∈ w_closed w → w_transports w !! tp = None ∧ (tp < w_next w)%positive
}.

Definition inv w : Prop :=
  base w ∧
  (st w = PC_ST_CONNECTED ∨ st w = PC_ST_WORKING →
   ∃ tp t, ctp w = Some tp ∧ w_transports w !! tp = Some t ∧ tp_state t = PC_TP_ST_WORKING).

Lemma base_frame w w' : base w → frame w w' → base w'.
Proof.
  intros B F. destruct (F (b_wf _ B)) as (Hwf & Es & Ec & Et & Hc & Hp & Hcd & Hn).
  assert (∀ n tp, connecting_on w' n tp ↔ connecting_on w n tp) as Hco.
  { intros n tp. unfold connecting_on. by setoid_rewrite Hp. }
  split; rewrite ?Es, ?Ec, ?Et; try apply B.
  - intros n tp. rewrite Hco. apply B.
  - intros n n' tp. rewrite !Hco. apply B.
  - intros tp. rewrite Hc. apply B.
  - intros tp Hs%(b_next _ B). lia.
  - done.
  - intros tp. rewrite Hcd. intros Hx%(b_closed _ B). split; [apply Hx|lia].
Qed.

Lemma inv_frame w w' : inv w → frame w w' → inv w'.
Proof.
  intros [B Hc] F. split; [by eapply base_frame|].
  destruct (F (b_wf _ B)) as (_ & -> & -> & -> & _). done.
Qed.

(** What preserves the invariant, in the shape of a frame. *)
Definition keeps_inv w w' : Prop := inv w → inv w'.

#[local] Instance keeps_inv_preorder : PreOrder keeps_inv.
Proof. split; [by intros w Hw|]. intros w1 w2 w3 H12 H23 H1. by apply H23, H12. Qed.

Lemma frame_inv {A} (m : prog M A) : keeps frame m → keeps keeps_inv m.
Proof. intros Hm w w' a E Hi. eapply inv_frame; [done|by eapply Hm]. Qed.

Hint Extern 5 (keeps keeps_inv _) => (apply frame_inv; solve [keeps_auto]) : keeps.

(** ** Transports *)

Lemma get_transport_eq tp w t :
  w_transports w !! tp = Some t → get_transport tp w = Val (w, t).
Proof. intros Ht. unfold get_transport, mbind, prog_bind, gets. by rewrite Ht. Qed.

(** Closing an open transport. *)
Lemma destroy_open tp t w w' a :
  w_transports w !! tp = Some t →
  tp_state t = PC_TP_ST_CONNECTING ∨ tp_state t = PC_TP_ST_WORKING →
  pc_transport_destroy tp w = Val (w', a) →
  w' = set_w_closing (w_closing w ++ [HSocket tp])
         (set_w_transports (<[tp := mkTransport PC_TP_ST_CLOSED (tp_reading t)]> (w_transports w)) w).
Proof.
  intros Ht Hs E. unfold pc_transport_destroy, get_transport, mbind, prog_bind, gets in E.
  rewrite Ht in E. cbn in E. unfold uv_close, mbind, prog_bind, gets, put_transport, modify in E.
  destruct Hs as [Hs|Hs]; rewrite Hs in E; cbn in E; case_bool_decide; try done; by injection E as <- <-.
Qed.

(** The invariant after a transport has been closed and, if it was the
    client's, forgotten. *)
Lemma base_close w w' tp t r :
  base w → w_transports w !! tp = Some t → (∀ n, ¬ connecting_on w n tp) →
  w_transports w' = <[tp := mkTransport PC_TP_ST_CLOSED r]> (w_transports w) →
  w_closing w' = w_closing w ++ [HSocket tp] → w_pending w' = w_pending w → w_next w' = w_next w →
  w_closed w' = w_closed w → st w' = st w → (ctp w = Some tp ∧ ctp w' = None ∨ ctp w ≠ Some tp ∧ ctp w' = ctp w) → base w'.
Proof.
  intros B Ht Hnc Et Ec Ep En Ecd Es Hctp.
  assert (∀ n x, connecting_on w' n x ↔ connecting_on w n x) as Hco.
  { intros n x. unfold connecting_on. by rewrite Ep. }
  assert (∀ x, x ≠ tp → w_transports w' !! x = w_transports w !! x) as Hne.
  { intros x Hx. by rewrite Et, lookup_insert_ne. }
  split.
  - intros x tx Hx Hw. destruct (decide (x = tp)) as [->|Hxt].
    { rewrite Et, lookup_insert_eq in Hx. by injection Hx as <-. }
    rewrite Hne in Hx by done. destruct (b_working _ B x tx Hx Hw) as (Hc & H1 & H2). rewrite Es.
    split; [|done]. destruct Hctp as [[Hc' _]|[_ ->]]; [congruence|done].
  - intros x Hx. destruct Hctp as [[_ Hn]|[Hn Hc']]; [congruence|]. rewrite Hc' in Hx.
    rewrite Hne by congruence. by apply B.
  - intros n x Hx. rewrite Hco in Hx. destruct (b_pend _ B n x Hx) as (Hc & tx & Hx' & Hs).
    assert (x ≠ tp) as Hxt by (intros ->; by apply (Hnc n)). rewrite Hne by done.
    split; [|by exists tx]. destruct Hctp as [[_ ->]|[_ ->]]; done.
  - intros n n' x. rewrite !Hco. apply B.
  - intros x. rewrite Ec, elem_of_app, list_elem_of_singleton. intros [Hx|[= ->]].
    + destruct (decide (x = tp)) as [->|Hxt]; [rewrite Et, lookup_insert_eq; by eexists|].
      rewrite Hne by done. by apply B.
    + rewrite Et, lookup_insert_eq. by eexists.
  - intros x Hx. rewrite En. destruct (decide (x = tp)) as [->|Hxt];
      [apply B; by rewrite Ht|]. rewrite Hne in Hx by done. by apply B.
  - intros n. rewrite Ep, En. apply B.
  - intros x. rewrite Ecd, En. intros [Hx Hlt]%(b_closed _ B). rewrite Hne by congruence. done.
Qed.

Lemma drop_spec w w' a :
  base w → drop_transport w = Val (w', a) → base w' ∧ ctp w' = None ∧ st w' = st w.
Proof.
  intros B E. unfold drop_transport, the_client, mbind, prog_bind, gets in E.
  destruct (c_transport (w_client w)) as [tp|] eqn:Ec; [|by injection E as <- <-].
  destruct (b_ctp _ B tp Ec) as (t & Ht & Hs).
  destruct (pc_transport_destroy tp w) as [[w1 []]| |] eqn:Ed; [|done..].
  apply (destroy_open tp t) in Ed; [|done..]. subst w1. injection E as <- <-.
  split; [|done]. apply (base_close w _ tp t (tp_reading t)); try done.
  - intros n Hn. by destruct (b_pend _ B n tp Hn).
  - by left.
Qed.

(** ** Stopping *)

(** A client without a transport, in a state that needs none. *)
Lemma idle_inv w s :
  base w → ctp w = None → s ≠ PC_ST_CONNECTED → s ≠ PC_ST_WORKING →
  inv (set_w_client (set_c_state s (w_client w)) w).
Proof.
  intros B Hn H1 H2. split; [|simpl; tauto].
  assert (∀ tp t, w_transports w !! tp = Some t → tp_state t ≠ PC_TP_ST_WORKING) as Hw.
  { intros tp t Ht Hs. destruct (b_working _ B tp t Ht Hs). congruence. }
  destruct B as [? ? ? ? ? ? ? ?]. split; try done. simpl. intros tp t Ht Hs. by destruct (Hw tp t).
Qed.

Definition idle w : Prop := base w ∧ ctp w = None.
Definition keeps_idle w w' : Prop := idle w → idle w'.

#[local] Instance keeps_idle_preorder : PreOrder keeps_idle.
Proof. split; [by intros w Hw|]. intros w1 w2 w3 H12 H23 H1. by apply H23, H12. Qed.

Lemma frame_idle {A} (m : prog M A) : keeps frame m → keeps keeps_idle m.
Proof.
  intros Hm w w' a E [B Hc]. pose proof (Hm _ _ _ E) as F. split; [by eapply base_frame|].
  by destruct (F (b_wf _ B)) as (_ & _ & -> & _).
Qed.

Lemma hoare_idle {A} (m : prog M A) : keeps frame m → hoare idle m (λ _, idle).
Proof. intros Hm. eapply keeps_hoare; [by apply frame_idle|]. auto. Qed.

Lemma hoare_keeps_inv {A} (m : prog M A) : hoare inv m (λ _, inv) → keeps keeps_inv m.
Proof. intros Hm w w' a E Hi. by eapply Hm. Qed.

Lemma inv_reset : keeps (M := M) keeps_inv pc__client_reconnect_reset.
Proof.
  apply hoare_keeps_inv. unfold pc__client_reconnect_reset.
  eapply (hoare_bind _ _ (λ _, idle)).
  { intros w w' a [B _] E. by destruct (drop_spec w w' a B E) as (? & ? & _). }
  intros []. repeat (eapply hoare_bind; [apply hoare_idle; by keeps_auto|intros ?]).
  intros w w' [] [B Hc] [= <-]. by apply idle_inv.
Qed.
Hint Resolve inv_reset : keeps.

Lemma inv_reconnect : keeps (M := M) keeps_inv pc__client_reconnect.
Proof. unfold pc__client_reconnect. keeps_auto. Qed.
Hint Resolve inv_reconnect : keeps.

Lemma inv_stop : keeps (M := M) keeps_inv pc_client_stop.
Proof.
  unfold pc_client_stop. keeps_step; [keeps_auto|]. cbv zeta. keeps_step; [keeps_auto|].
  assert (∀ w, inv w → inv (set_w_client (set_c_state PC_ST_CLOSED (w_client w)) w)) as Hcl.
  { intros w [B _]. split; [|by intros []]. destruct B as [Hw ? ? ? ? ? ? ?]. split; try done.
    intros tp t Ht Hs. by destruct (Hw tp t Ht Hs). }
  assert (keeps (M := M) keeps_inv (upd_client (set_c_state PC_ST_CLOSED))) as Hup.
  { apply keeps_modify. intros w Hi. by apply Hcl. }
  assert (hoare (M := M) inv (upd_client (set_c_state PC_ST_CLOSED);; drop_transport) (λ _, inv)) as Hd.
  { intros w w' a0 Hi E. unfold upd_client, modify, mbind, prog_bind in E.
    set (w1 := set_w_client _ w) in E. destruct (Hcl w Hi) as [B1 _].
    destruct (drop_spec w1 w' a0 B1 E) as (B' & Hc & Hs). split; [done|].
    assert (st w1 = PC_ST_CLOSED) as Hs1 by done. rewrite Hs, Hs1. by intros []. }
  assert (∀ m : prog M unit, keeps keeps_inv m →
    keeps keeps_inv (upd_client (set_c_state PC_ST_CLOSED);; drop_transport;; m)) as Hall.
  { intros m Hm w w' a0 E Hi. unfold mbind, prog_bind in E. cbn [upd_client modify] in E.
    destruct (drop_transport _) as [[w1 []]| |] eqn:Ed; [|done..]. eapply Hm; [exact E|].
    by eapply (Hd w w1 tt). }
  destruct (c_state a); try (by keeps_auto); apply Hall; keeps_auto.
Qed.
Hint Resolve inv_stop : keeps.

Lemma inv_call_connect cn s : keeps (M := M) keeps_inv (call_connect_cb cn s).
Proof.
  unfold call_connect_cb, pc__client_connected_cb, pc__client_connect3_cb,
    pc__client_reconnected_cb, pc_connect_req_destroy, pc__cond_broadcast. keeps_auto.
Qed.
Hint Resolve inv_call_connect : keeps.

Lemma inv_finish s : keeps (M := M) keeps_inv (finish_connect s).
Proof. unfold finish_connect. keeps_auto. Qed.
Hint Resolve inv_finish : keeps.

(** ** Connecting *)

(** [tp] is a fresh transport. *)
Definition fresh_tp (tp : positive) w : Prop :=
  inv w ∧ w_transports w !! tp = Some (mkTransport PC_TP_ST_INITED false).

Lemma fresh_frame {A} tp (m : prog M A) : keeps frame m → hoare (fresh_tp tp) m (λ _, fresh_tp tp).
Proof.
  intros Hm w w' a [Hi Ht] E. pose proof (Hm _ _ _ E) as F. split; [by eapply inv_frame|].
  destruct Hi as [B _]. by destruct (F (b_wf _ B)) as (_ & _ & _ & -> & _).
Qed.

Lemma fresh_other w tp :
  fresh_tp tp w → ctp w ≠ Some tp ∧ (∀ n, ¬ connecting_on w n tp) ∧ HSocket tp ∉ w_closing w.
Proof.
  intros [[B _] Ht]. split; [|split].
  - intros Hc. destruct (b_ctp _ B tp Hc) as (t & Ht' & [Hs|Hs]); rewrite Ht in Ht'; by injection Ht' as <-.
  - intros n Hn. destruct (b_pend _ B n tp Hn) as (_ & t & Ht' & Hs). rewrite Ht in Ht'. by injection Ht' as <-.
  - intros Hc. destruct (b_sock _ B tp Hc) as (t & Ht' & Hs). rewrite Ht in Ht'. by injection Ht' as <-.
Qed.

Lemma inv_new_transport :
  hoare (M := M) inv pc_transport_new (λ o w, match o with Some tp => fresh_tp tp w | None => inv w end).
Proof.
  unfold pc_transport_new.
  assert (∀ A (m : prog M A), keeps frame m → hoare inv m (λ _, inv)) as Hf.
  { intros A m Hm. eapply keeps_hoare; [exact Hm|]. intros. by eapply inv_frame. }
  repeat (eapply hoare_bind; [apply Hf; by keeps_auto|intros ?; case_match; try (by apply hoare_ret)]);
    [by intros ? ?|].
  intros w w' o Hi E. unfold mbind, prog_bind, new_block, put_transport, modify, mret, prog_ret in E.
  injection E as <- <-. set (tp := w_next w). destruct Hi as [B Hc].
  assert (w_transports w !! tp = None) as Hn.
  { apply eq_None_not_Some. intros Hs%(b_next _ B). lia. }
  assert (∀ x t, w_transports w !! x = Some t → x ≠ tp) as Hne by (intros x t Hx ->; congruence).
  split; [|simpl; by rewrite lookup_insert_eq]. split; [split|]; simpl.
  - intros x t Hx Hs. destruct (decide (x = tp)) as [->|Hx'];
      [rewrite lookup_insert_eq in Hx; by injection Hx as <-|].
    rewrite lookup_insert_ne in Hx by done. by apply (b_working _ B x t).
  - intros x Hx. destruct (b_ctp _ B x Hx) as (t & Ht & Hs). exists t.
    rewrite lookup_insert_ne; [done|]. by apply not_eq_sym, (Hne x t).
  - intros n x Hx. destruct (b_pend _ B n x Hx) as (Hcx & t & Ht & Hs). split; [done|]. exists t.
    rewrite lookup_insert_ne; [done|]. by apply not_eq_sym, (Hne x t).
  - apply B.
  - intros x Hx. destruct (b_sock _ B x Hx) as (t & Ht & Hs). exists t.
    rewrite lookup_insert_ne; [done|]. by apply not_eq_sym, (Hne x t).
  - intros x Hx. destruct (decide (x = tp)) as [->|Hx']; [unfold tp; lia|].
    rewrite lookup_insert_ne in Hx by done. apply (b_next _ B) in Hx. unfold tp. lia.
  - intros n Hs%(b_wf _ B). simpl. lia.
  - intros x [Hx Hlt]%(b_closed _ B). rewrite lookup_insert_ne by (unfold tp; lia). split; [done|lia].
  - intros Hs. destruct (Hc Hs) as (x & t & Hcx & Ht & Hsx). exists x, t.
    rewrite lookup_insert_ne; [done|]. by apply not_eq_sym, (Hne x t).
Qed.

(** The last steps of [pc_connect]. *)
Lemma inv_connect_fail tp :
  hoare (M := M) (fresh_tp tp) (pc_transport_destroy tp) (λ _, inv).
Proof.
  intros w w' a Hf E. destruct (fresh_other w tp Hf) as (H1 & H2 & H3). destruct Hf as [[B Hc] Ht].
  unfold pc_transport_destroy, get_transport, mbind, prog_bind, gets in E. rewrite Ht in E.
  cbn in E. injection E as <- <-.
  assert (∀ x t, x ≠ tp → w_transports w !! x = Some t → delete tp (w_transports w) !! x = Some t) as Hd.
  { intros x t Hx Hl. by rewrite lookup_delete_ne. }
  split; [split|]; simpl.
  - intros x t [Hx Hl]%lookup_delete_Some Hs. by apply (b_working _ B x t).
  - intros x Hx. destruct (b_ctp _ B x Hx) as (t & Hl & Hs). exists t. split; [apply Hd; [congruence|done]|done].
  - intros n x Hx. destruct (b_pend _ B n x Hx) as (Hcx & t & Hl & Hs). split; [done|]. exists t.
    split; [apply Hd; [intros ->; by apply (H2 n)|done]|done].
  - apply B.
  - intros x Hx. destruct (b_sock _ B x Hx) as (t & Hl & Hs). exists t.
    split; [apply Hd; [congruence|done]|done].
  - intros x [Hx Hl]%lookup_delete_is_Some. by apply B.
  - apply B.
  - intros x [Hx Hlt]%(b_closed _ B). rewrite lookup_delete_ne by congruence. done.
  - intros Hs. destruct (Hc Hs) as (x & t & Hcx & Hl & Hw). exists x, t. split; [done|].
    split; [apply Hd; [congruence|done]|done].
Qed.

Lemma inv_connect_submit tp cn :
  hoare (M := M) (fresh_tp tp)
    (uv_submit tp (UvConnect tp cn);; put_transport tp (mkTransport PC_TP_ST_CONNECTING false);; mret 0)
    (λ _, inv).
Proof.
  intros w w' a Hf E. destruct (fresh_other w tp Hf) as (H1 & H2 & H3). destruct Hf as [[B Hc] Ht].
  unfold mbind, prog_bind, uv_submit, new_block, modify, put_transport, mret, prog_ret, mbind, prog_bind in E.
  injection E as <- <-. set (n := w_next w).
  assert (w_pending w !! n = None) as Hn.
  { apply eq_None_not_Some. intros Hs%(b_wf _ B). lia. }
  assert (∀ m x, (∃ tp' cn', <[n := (tp, UvConnect tp cn)]> (w_pending w) !! m = Some (tp', UvConnect x cn')) →
    (m = n ∧ x = tp) ∨ (m ≠ n ∧ connecting_on w m x)) as Hco.
  { intros m x (tp' & cn' & Hm). destruct (decide (m = n)) as [->|Hmn].
    - rewrite lookup_insert_eq in Hm. injection Hm as -> -> ->. by left.
    - rewrite lookup_insert_ne in Hm by done. right. split; [done|]. by exists tp', cn'. }
  assert (∀ x t, x ≠ tp → w_transports w !! x = Some t →
    <[tp := mkTransport PC_TP_ST_CONNECTING false]> (w_transports w) !! x = Some t) as Hd.
  { intros x t Hx Hl. by rewrite lookup_insert_ne. }
  split; [split|]; simpl.
  - intros x t Hl Hs. destruct (decide (x = tp)) as [->|Hx];
      [rewrite lookup_insert_eq in Hl; by injection Hl as <-|].
    rewrite lookup_insert_ne in Hl by done. by apply (b_working _ B x t).
  - intros x Hx. destruct (b_ctp _ B x Hx) as (t & Hl & Hs). exists t. split; [apply Hd; [congruence|done]|done].
  - intros m x [[-> ->]|[_ Hx]]%Hco.
    + split; [done|]. rewrite lookup_insert_eq. by eexists.
    + destruct (b_pend _ B m x Hx) as (Hcx & t & Hl & Hs). split; [done|]. exists t.
      split; [apply Hd; [intros ->; by apply (H2 m)|done]|done].
  - intros m m' x [[-> ->]|[Hm Hx]]%Hco [[-> E]|[Hm' Hx']]%Hco; try done.
    + by destruct (H2 m').
    + subst x. by destruct (H2 m).
    + by apply (b_uniq _ B m m' x).
  - intros x Hx. destruct (b_sock _ B x Hx) as (t & Hl & Hs). exists t.
    split; [apply Hd; [congruence|done]|done].
  - intros x Hx. destruct (decide (x = tp)) as [->|Hxt];
      [assert (tp < w_next w)%positive by (apply (b_next _ B); by rewrite Ht); lia|].
    rewrite lookup_insert_ne in Hx by done. apply (b_next _ B) in Hx. lia.
  - intros m Hm. simpl in *. destruct (decide (m = n)) as [->|Hmn]; [unfold n; lia|].
    rewrite lookup_insert_ne in Hm by done. apply (b_wf _ B) in Hm. lia.
  - intros x [Hx Hlt]%(b_closed _ B). rewrite lookup_insert_ne by congruence. split; [done|lia].
  - intros Hs. destruct (Hc Hs) as (x & t & Hcx & Hl & Hw). exists x, t. split; [done|].
    split; [apply Hd; [congruence|done]|done].
Qed.

(** Predicates a frame keeps. *)
Definition stable (P : world M → Prop) : Prop := ∀ w w', P w → frame w w' → P w'.

Lemma hoare_stable {A} P (m : prog M A) : stable P → keeps frame m → hoare P m (λ _, P).
Proof. intros HP Hm. by eapply keeps_hoare. Qed.

Lemma hoare_inv {A} P (m : prog M A) : keeps keeps_inv m → (∀ w, P w → inv w) → hoare P m (λ _, inv).
Proof. intros Hm HP w w' a Hw E. by eapply Hm, HP. Qed.

Lemma hoare_client {B} P (f : pc_client_t M → prog M B) Q :
  (∀ c, hoare (λ w, P w ∧ w_client w = c) (f c) Q) → hoare P (the_client ≫= f) Q.
Proof. intros Hf w w' b Hw E. by eapply (Hf (w_client w)). Qed.

Lemma stable_inv : stable inv.
Proof. intros w w'. apply inv_frame. Qed.

Lemma stable_fresh tp : stable (fresh_tp tp).
Proof.
  intros w w' [Hi Ht] F. split; [by eapply inv_frame|]. destruct Hi as [B _].
  by destruct (F (b_wf _ B)) as (_ & _ & _ & -> & _).
Qed.

Lemma stable_state s : stable (λ w, inv w ∧ st w = s).
Proof.
  intros w w' [Hi Hs] F. split; [by eapply inv_frame|]. destruct Hi as [B _].
  destruct (F (b_wf _ B)) as (_ & -> & _). done.
Qed.

Lemma inv_connect cn opts cb : keeps (M := M) keeps_inv (pc_connect cn opts cb).
Proof.
  apply hoare_keeps_inv. unfold pc_connect. apply hoare_client. intros c.
  destruct (decide (c_state c ≠ PC_ST_INITED)) as [|Hs]; [apply hoare_ret; tauto|].
  apply dec_stable in Hs.
  apply (hoare_cons (λ w, inv w ∧ st w = PC_ST_INITED) _ _ (λ _, inv)); [|intros w [? <-]; done|done].
  eapply hoare_bind; [apply hoare_stable; [apply stable_state|keeps_auto]|]. intros r.
  destruct (cn_address r); [|apply hoare_ret; tauto].
  eapply hoare_bind; [apply hoare_stable; [apply stable_state|keeps_auto]|]. intros [].
  apply (hoare_bind _ _ (λ _, inv)).
  { intros w w' [] [[B Hc] Hw] [= <-]. split; [|by intros []]. destruct B as [Hwk ? ? ? ? ? ?].
    split; try done. intros tp t Ht Hst. by destruct (Hwk tp t Ht Hst) as (_ & ? & _). }
  intros []. do 2 (eapply hoare_bind; [apply hoare_stable; [apply stable_inv|keeps_auto]|];
    intros b; destruct b; [|by apply hoare_ret]; cbn [negb]).
  eapply hoare_bind; [apply inv_new_transport|]. intros [tp|]; [|by apply hoare_ret].
  do 4 (eapply hoare_bind; [apply hoare_stable; [apply stable_fresh|by keeps_auto]|intros ?]).
  case_match; [|apply inv_connect_submit].
  eapply hoare_bind; [apply inv_connect_fail|]. intros []. by apply hoare_ret.
Qed.
Hint Resolve inv_connect : keeps.

(** [tp] is connecting and its pending connection has just been taken. *)
Definition connecting (tp : positive) w : Prop :=
  inv w ∧ ctp w ≠ Some tp ∧ (∀ n, ¬ connecting_on w n tp) ∧
  ∃ t, w_transports w !! tp = Some t ∧ tp_state t = PC_TP_ST_CONNECTING.

Lemma stable_connecting tp : stable (connecting tp).
Proof.
  intros w w' (Hi & Hc & Hn & Ht) F. split; [by eapply inv_frame|]. destruct Hi as [B _].
  destruct (F (b_wf _ B)) as (_ & _ & -> & -> & _ & Hp & _). split; [done|]. split; [|done].
  intros n (tp' & cn & Hx). apply (Hn n). exists tp', cn. by apply Hp.
Qed.

Lemma inv_destroy_connecting tp : hoare (M := M) (connecting tp) (pc_transport_destroy tp) (λ _, inv).
Proof.
  intros w w' a ([B Hc] & Hctp & Hn & t & Ht & Hs) E.
  apply (destroy_open tp t) in E; [|by auto..]. subst w'. split.
  - apply (base_close w _ tp t (tp_reading t)); try done. by right.
  - simpl. intros Hst. destruct (Hc Hst) as (x & tx & Hcx & Hx & Hw). exists x, tx.
    rewrite lookup_insert_ne by congruence. done.
Qed.

(** The client has taken the transport [tp], which does not work yet. *)
Definition taken (tp : positive) w : Prop :=
  inv w ∧ st w = PC_ST_CONNECTING ∧ ctp w = Some tp ∧
  ∃ t, w_transports w !! tp = Some t ∧ tp_state t = PC_TP_ST_CONNECTING.

Lemma stable_taken tp : stable (taken tp).
Proof.
  intros w w' (Hi & Hs & Hc & Ht) F. split; [by eapply inv_frame|]. destruct Hi as [B _].
  by destruct (F (b_wf _ B)) as (_ & -> & -> & -> & _).
Qed.

Lemma take_taken w tp :
  connecting tp w → st w = PC_ST_CONNECTING →
  taken tp (set_w_client (set_c_transport (Some tp) (w_client w)) w).
Proof.
  intros ([B Hc] & Hctp & Hn & t & Ht & Hs) Hst. split; [|by eauto].
  split; [split|]; simpl; try apply B.
  - intros x tx Hx Hw. by destruct (b_working _ B x tx Hx Hw) as (_ & _ & ?).
  - intros x [= <-]. exists t. auto.
  - intros n x Hx. assert (x ≠ tp) as Hxt by (intros ->; by apply (Hn n)).
    destruct (b_pend _ B n x Hx) as (_ & tx & Hl & Hsx). split; [congruence|]. by exists tx.
  - rewrite Hst. by intros [].
Qed.

(** The transport starts working. *)
Lemma start_inv w tp r :
  taken tp w →
  inv (set_w_client (set_c_state PC_ST_CONNECTED (w_client w))
        (set_w_transports (<[tp := mkTransport PC_TP_ST_WORKING r]> (w_transports w)) w)).
Proof.
  intros ([B Hc] & Hst & Hctp & t & Ht & Hts).
  assert (∀ x t, w_transports w !! x = Some t → tp_state t ≠ PC_TP_ST_WORKING) as Hnw.
  { intros x tx Hx Hw. by destruct (b_working _ B x tx Hx Hw) as (_ & _ & ?). }
  split; [split|]; simpl.
  - intros x tx Hx Hw. destruct (decide (x = tp)) as [->|Hxt]; [done|].
    rewrite lookup_insert_ne in Hx by done. by destruct (Hnw x tx).
  - intros x Hx. rewrite Hctp in Hx. injection Hx as <-. rewrite lookup_insert_eq. eauto.
  - intros n x Hx. destruct (b_pend _ B n x Hx) as (Hne & tx & Hl & Hs).
    split; [done|]. exists tx. rewrite lookup_insert_ne by congruence. done.
  - apply B.
  - intros x Hx. destruct (b_sock _ B x Hx) as (tx & Hl & Hs). exists tx.
    rewrite lookup_insert_ne; [done|]. intros <-. rewrite Ht in Hl. injection Hl as <-. congruence.
  - intros x Hx. destruct (decide (x = tp)) as [->|Hxt]; [apply B; by rewrite Ht|].
    rewrite lookup_insert_ne in Hx by done. by apply B.
  - apply B.
  - intros x [Hx Hlt]%(b_closed _ B). rewrite lookup_insert_ne by congruence. done.
  - intros _. exists tp, (mkTransport PC_TP_ST_WORKING r). by rewrite lookup_insert_eq.
Qed.

Lemma inv_on_tcp_connect tp cn s :
  hoare (M := M) (connecting tp) (pc__on_tcp_connect X tp cn s) (λ _, inv).
Proof.
  unfold pc__on_tcp_connect.
  do 2 (eapply hoare_bind; [apply hoare_stable; [apply stable_connecting|by keeps_auto]|intros ?]).
  apply hoare_client. intros c. cbv zeta.
  destruct (decide (c_state c ≠ PC_ST_CONNECTING)) as [|Hs].
  { apply hoare_inv; [by keeps_auto|]. intros w [Hco _]. apply Hco. }
  apply dec_stable in Hs. destruct (s =? -1).
  { apply (hoare_bind _ _ (λ _, inv)); [|intros []; apply hoare_inv; [by keeps_auto|done]].
    apply (hoare_cons (connecting tp) _ _ (λ _, inv)); [apply inv_destroy_connecting|by intros w [? _]|done]. }
  apply (hoare_bind _ _ (λ _, taken tp)).
  { intros w w' [] [Hco <-] [= <-]. by apply take_taken. }
  intros []. eapply hoare_bind; [apply hoare_stable; [apply stable_taken|by keeps_auto]|]. intros e.
  case_match.
  { apply hoare_inv; [by keeps_auto|]. intros w Ht. apply Ht. }
  intros w w' b Ht E. pose proof Ht as (_ & _ & _ & t & Hl & Hts).
  unfold mbind, prog_bind, get_transport, gets, put_transport, modify, pc_transport_start,
    upd_client, mbind, prog_bind in E. rewrite Hl in E. cbn in E.
  rewrite (get_transport_eq tp _ (mkTransport (tp_state t) true)) in E by (simpl; by rewrite lookup_insert_eq).
  cbn [tp_state tp_reading] in E. rewrite Hts, decide_True in E by done. unfold mret, prog_ret in E.
  cbn [set_w_transports set_w_client w_transports w_client] in E. cbn in E. rewrite insert_insert_eq in E.
  match type of E with (match ?p ?v with _ => _ end) = _ => assert (inv v) as Hv end.
  { exact (start_inv w tp true Ht). }
  match type of E with (match ?p ?v with _ => _ end) = _ => destruct (p v) as [[w2 r]| |] eqn:Eh end; [|done..].
  assert (inv w2) as Hw2.
  { eapply inv_frame; [exact Hv|]. eapply frame_handshake_req. exact Eh. }
  revert E. case_match; intros E; [|by injection E as <- <-].
  revert Hw2 E. generalize w2 w' b. clear.
  change (hoare (M := M) inv (upd_client (set_c_conn_req None);; pc_client_stop;; call_connect_cb cn (-1)) (λ _, inv)).
  apply hoare_inv; [by keeps_auto|done].
Qed.

(** ** The other handlers *)

Lemma inv_pkg_cb ty d : keeps (M := M) keeps_inv (pc__pkg_cb X ty d).
Proof. unfold pc__pkg_cb. keeps_auto. Qed.

Lemma inv_on_read tp d : keeps (M := M) keeps_inv (pc_tp_on_tcp_read X tp d).
Proof.
  assert (∀ data, keeps (M := M) keeps_inv (pc_client_on_tcp_read X data)) as Hr.
  { intros data. unfold pc_client_on_tcp_read. keeps_step; [|by keeps_auto].
    intros w w' b E Hi. eapply (feed_keeps X inv); [| |exact Hi|exact E].
    - intros p w1 Hi1. eapply inv_frame; [done|]. by apply frame_same.
    - intros ty body w1 w2 [] Hi1 E1. by eapply inv_pkg_cb. }
  unfold pc_tp_on_tcp_read. keeps_auto.
Qed.
Hint Resolve inv_on_read : keeps.

Lemma inv_req_cb tp s : keeps (M := M) keeps_inv (pc__handshake_req_cb tp s).
Proof. unfold pc__handshake_req_cb. keeps_auto. Qed.
Hint Resolve inv_req_cb : keeps.

Lemma inv_ack_cb tp s : keeps (M := M) keeps_inv (pc__handshake_ack_cb tp s).
Proof.
  intros w w' a E Hi. unfold pc__handshake_ack_cb, mbind at 1, prog_bind at 1 in E.
  unfold get_transport, mbind at 1, prog_bind at 1, gets in E.
  destruct (w_transports w !! tp) as [t|] eqn:Ht; [|done]. cbn [deref mret prog_ret] in E.
  unfold mret, prog_ret in E. destruct (decide (tp_state t ≠ PC_TP_ST_WORKING)) as [|Hs];
    [by injection E as <- <-|]. apply dec_stable in Hs. revert E. destruct (s =? -1).
  { intros E. eapply (keeps_bind keeps_inv); [apply inv_stop|intros; apply inv_finish|exact E|exact Hi]. }
  unfold mbind, prog_bind, upd_client, modify. intros E. eapply inv_finish; [exact E|].
  destruct Hi as [B Hc]. destruct (b_working _ B tp t Ht Hs) as (Hctp & _).
  split; [|intros _; by exists tp, t]. destruct B as [Hw ? ? ? ? ? ? ?]. split; try done.
  intros x tx Hx Hsx. simpl. by destruct (Hw x tx Hx Hsx).
Qed.
Hint Resolve inv_ack_cb : keeps.

Lemma inv_heartbeat_cb s : keeps (M := M) keeps_inv (pc__heartbeat_cb s).
Proof. unfold pc__heartbeat_cb. keeps_auto. Qed.
Lemma inv_timeout_cb s : keeps (M := M) keeps_inv (pc__timeout_cb s).
Proof. unfold pc__timeout_cb. keeps_auto. Qed.
Lemma inv_handshake_timeout : keeps (M := M) keeps_inv pc__handshake_timeout_cb.
Proof. unfold pc__handshake_timeout_cb. keeps_auto. Qed.
Hint Resolve inv_heartbeat_cb inv_timeout_cb inv_handshake_timeout : keeps.

Lemma frame_conn_new a : keeps (M := M) frame (pc_connect_req_new a).
Proof. unfold pc_connect_req_new. keeps_auto. Qed.
Lemma frame_conn_destroy cn : keeps (M := M) frame (pc_connect_req_destroy cn).
Proof. unfold pc_connect_req_destroy. keeps_auto. Qed.
Lemma frame_remember a : keeps (M := M) frame (remember_addr a).
Proof. unfold remember_addr. keeps_auto. Qed.
Hint Resolve frame_conn_new frame_conn_destroy frame_remember : keeps.

Lemma inv_reconnect_timer : keeps (M := M) keeps_inv (pc__client_reconnect_timer_cb X).
Proof. unfold pc__client_reconnect_timer_cb. keeps_auto. Qed.
Lemma inv_connect1 a : keeps (M := M) keeps_inv (pc_client_connect a).
Proof. unfold pc_client_connect. keeps_auto. Qed.
Lemma inv_connect2 cn : keeps (M := M) keeps_inv (pc_client_connect2 cn).
Proof. unfold pc_client_connect2. keeps_auto. Qed.
Lemma inv_connect3 a : keeps (M := M) keeps_inv (pc_client_connect3 a).
Proof. unfold pc_client_connect3. keeps_auto. Qed.
Hint Resolve inv_reconnect_timer inv_connect1 inv_connect2 inv_connect3 : keeps.
Lemma inv_connect4 h p : keeps (M := M) keeps_inv (pc_client_connect4 X h p).
Proof. unfold pc_client_connect4. keeps_auto. Qed.
Hint Resolve inv_connect4 : keeps.

(** A state that asks nothing of the transports, and allows a working one. *)
Lemma inv_quiet w s :
  inv w → s = PC_ST_DISCONNECTING ∨ s = PC_ST_CLOSED →
  inv (set_w_client (set_c_state s (w_client w)) w).
Proof.
  intros [B _] Hs. split; [|simpl; destruct Hs as [-> | ->]; by intros []].
  destruct B as [Hw ? ? ? ? ? ? ?]. split; try done. simpl. intros tp t Ht Hst.
  destruct (Hw tp t Ht Hst). destruct Hs as [-> | ->]; done.
Qed.

Lemma inv_set_quiet s :
  s = PC_ST_DISCONNECTING ∨ s = PC_ST_CLOSED → keeps (M := M) keeps_inv (upd_client (set_c_state s)).
Proof. intros Hs. apply keeps_modify. intros w Hi. by apply inv_quiet. Qed.

Lemma inv_disconnect : keeps (M := M) keeps_inv pc_client_disconnect.
Proof. unfold pc_client_disconnect. keeps_step; [apply inv_set_quiet; by left|]. keeps_auto. Qed.
Lemma inv_worker_exit : keeps (M := M) keeps_inv pc__worker_exit.
Proof.
  unfold pc__worker_exit, pc__cond_broadcast. keeps_step; [apply inv_set_quiet; by right|]. keeps_auto.
Qed.
Hint Resolve inv_disconnect inv_worker_exit : keeps.

Lemma inv_timer t : keeps (M := M) keeps_inv (deliver_timer X t).
Proof. unfold deliver_timer. keeps_auto. Qed.
Hint Resolve inv_timer : keeps.

(** A pending request is taken off. *)
Lemma inv_pop w n p :
  inv w → w_pending w !! n = Some p →
  inv (set_w_pending (delete n (w_pending w)) w) ∧
  (∀ tp cn, p.2 = UvConnect tp cn → connecting tp (set_w_pending (delete n (w_pending w)) w)).
Proof.
  intros [B Hc] Hp.
  assert (∀ m x, connecting_on (set_w_pending (delete n (w_pending w)) w) m x → m ≠ n ∧ connecting_on w m x) as Hco.
  { intros m x (tp' & cn & Hx). simpl in Hx. apply lookup_delete_Some in Hx as [Hm Hl].
    split; [done|]. by exists tp', cn. }
  assert (inv (set_w_pending (delete n (w_pending w)) w)) as Hi.
  { split; [|done]. split; simpl; try apply B.
    - intros m x [_ Hx]%Hco. by apply (b_pend _ B m x).
    - intros m m' x [_ Hx]%Hco [_ Hx']%Hco. by apply (b_uniq _ B m m' x).
    - intros m Hm. simpl in Hm. apply lookup_delete_is_Some in Hm as [_ Hm]. exact (b_wf _ B m Hm). }
  split; [done|]. intros tp cn Etp. assert (connecting_on w n tp) as Hn.
  { destruct p as [tp' r]. simpl in Etp. subst r. by exists tp', cn. }
  destruct (b_pend _ B n tp Hn) as (Hctp & Ht). split; [done|]. split; [done|]. split; [|done].
  intros m [Hm Hx]%Hco. by apply Hm, (b_uniq _ B m n tp).
Qed.

Lemma inv_closed w w' h :
  inv w → h ∈ w_closing w → deliver X (LClosed h) w = Val (w', tt) → inv w'.
Proof.
  intros [B Hc] Hh E. cbn [deliver] in E. unfold mbind, prog_bind, modify in E.
  set (cl := filter (λ x, x ≠ h) (w_closing w)) in *.
  assert (∀ x, x ∈ cl ↔ x ∈ w_closing w ∧ x ≠ h) as Hcl.
  { intros x. unfold cl. rewrite list_elem_of_filter. tauto. }
  assert ((∀ tp, h ≠ HSocket tp) → inv (set_w_closed (h :: w_closed w) (set_w_closing cl w))) as Hi.
  { intros Hns. split; [|done]. destruct B. split; try done; simpl.
    - intros tp [Hx _]%Hcl. auto.
    - intros tp [<-|Hx]%elem_of_cons; [by destruct (Hns tp)|auto]. }
  destruct h as [tp|t| |a]; [|by injection E as <-; apply Hi..]. clear Hi.
  destruct (b_sock _ B tp Hh) as (t & Ht & Hs).
  unfold pc__tcp_close_cb in E. unfold mbind, prog_bind in E.
  rewrite (get_transport_eq tp _ t) in E by done. unfold modify in E. injection E as <-.
  assert (ctp w ≠ Some tp) as Hne.
  { intros Hx. destruct (b_ctp _ B tp Hx) as (t' & Ht' & Hs'). rewrite Ht in Ht'. injection Ht' as <-.
    rewrite Hs in Hs'. by destruct Hs'. }
  split; [split|]; simpl.
  - intros x tx [_ Hx]%lookup_delete_Some Hw. by apply (b_working _ B x tx).
  - intros x Hx. destruct (b_ctp _ B x Hx) as (tx & Hl & Hsx). exists tx.
    rewrite lookup_delete_ne by congruence. done.
  - intros n x Hx. destruct (b_pend _ B n x Hx) as (Hcx & tx & Hl & Hsx). split; [done|]. exists tx.
    rewrite lookup_delete_ne; [done|]. intros <-. rewrite Ht in Hl. injection Hl as <-. congruence.
  - apply B.
  - intros x [Hx Hxt]%Hcl. destruct (b_sock _ B x Hx) as (tx & Hl & Hsx). exists tx.
    rewrite lookup_delete_ne by congruence. done.
  - intros x [_ Hx]%lookup_delete_is_Some. by apply B.
  - apply B.
  - intros x [[= ->]|Hx]%elem_of_cons.
    + rewrite lookup_delete_eq. split; [done|]. apply (b_next _ B). by rewrite Ht.
    + apply (b_closed _ B) in Hx as [Hx Hlt]. rewrite lookup_delete_ne by congruence. done.
  - intros Hst. destruct (Hc Hst) as (x & tx & Hcx & Hl & Hw). exists x, tx. split; [done|].
    rewrite lookup_delete_ne by congruence. done.
Qed.

Lemma frame_on_listeners {A} (f : registry M positive → exec (registry M positive * A)) :
  keeps (M := M) frame (on_listeners f).
Proof. unfold on_listeners. keeps_auto. Qed.
Hint Resolve frame_on_listeners : keeps.

(** Every event keeps the invariant. *)
Lemma inv_deliver e w w' :
  inv w → enabled w e = true → deliver X e w = Val (w', tt) → inv w'.
Proof.
  intros Hi He E. assert (keeps (M := M) keeps_inv (deliver X e) → inv w') as Hk.
  { intros Hk. by eapply Hk. }
  destruct e as [n s|a| | | |h| | | | | | | | | | | |rq| | | | | | | |];
    try (apply Hk; cbn [deliver]; unfold skip, pc_client_connect_wait, pc_request_new, pc_notify_new,
           new_tcp_req, destroy_tcp_req, pc__close_async_cb, pc_proto_init, pc_proto_init2; by keeps_auto).
  - cbn [deliver] in E. unfold mbind, prog_bind, gets in E.
    destruct (w_pending w !! n) as [p|] eqn:Hp; [|done]. cbn in E.
    destruct (inv_pop w n p Hi Hp) as [Hi' Hco]. unfold modify in E.
    destruct p as [tp' r]. cbn [snd] in *. destruct r as [tp cn| | | | |]; cbn [deliver_req] in E.
    + eapply (inv_on_tcp_connect tp cn s); [by eapply Hco|exact E].
    + by eapply inv_req_cb.
    + by eapply inv_ack_cb.
    + eapply inv_frame; [exact Hi'|].
      assert (keeps (M := M) frame (pc__heartbeat_req_cb transport s)) as Hh
        by (unfold pc__heartbeat_req_cb; keeps_auto). by eapply Hh.
    + eapply inv_frame; [exact Hi'|]. by eapply frame_on_request.
    + eapply inv_frame; [exact Hi'|]. by eapply frame_on_notify.
  - eapply inv_closed; [done| |exact E]. cbn [enabled] in He. apply andb_true_iff in He as [He _].
    by apply bool_decide_eq_true in He.
Qed.

Lemma inv_new reconnect hcb oracle w0 : new_world (M := M) reconnect hcb oracle = Val w0 → inv w0.
Proof.
  intros E. unfold new_world, pc__client_init in E. exec_inv. simplify_eq/=.
  split; [|simpl; by intros []]. split; simpl; try done.
  - intros n tp (tp' & cn & Hx). done.
  - intros n n' tp (tp' & cn & Hx). done.
  - intros tp Hx. by apply not_elem_of_nil in Hx.
  - intros tp [x Hx]. done.
  - intros n [x Hx]. done.
  - intros tp Hx. by apply not_elem_of_nil in Hx.
Qed.

Lemma reach_inv reconnect hcb oracle w0 w :
  new_world reconnect hcb oracle = Val w0 → reach X w0 w → inv w.
Proof.
  intros E. apply inv_new in E. induction 1 as [|w e w' _ IH He Ed]; [done|]. by eapply inv_deliver.
Qed.

End Externals.
End Inv.

(** C2 (invariant). In every world a client reaches, by any sequence of user calls
    and loop events with any outcome of allocation and libuv: if its state is
    connected or working then its transport is live and working; a working
    transport is the client's own, so there is at most one; the transport pointer
    never dangles and never names a transport whose socket is closing or closed; and the state is neither
    initial nor connecting while a transport works. *)
Theorem client_state_consistent (M : Type → Type) (SM : StringMap M) (X : externals)
    (reconnect : option reconnect_conf) (handshake_cb : bool) (oracle : list Z) (w0 w : world M) :
  new_world reconnect handshake_cb oracle = Val w0 → reach X w0 w →
  let c := w_client w in
  (c_state c = PC_ST_CONNECTED ∨ c_state c = PC_ST_WORKING →
   ∃ tp t, c_transport c = Some tp ∧ w_transports w !! tp = Some t ∧ tp_state t = PC_TP_ST_WORKING) ∧
  (∀ tp t, w_transports w !! tp = Some t → tp_state t = PC_TP_ST_WORKING →
   c_transport c = Some tp ∧ c_state c ≠ PC_ST_INITED ∧ c_state c ≠ PC_ST_CONNECTING) ∧
  (∀ tp, c_transport c = Some tp → ∃ t, w_transports w !! tp = Some t ∧
     tp_state t ≠ PC_TP_ST_CLOSED ∧ tp_state t ≠ PC_TP_ST_INITED ∧ HSocket tp ∉ w_closing w ++ w_closed w).
Proof.
  intros E Hr. destruct (reach_inv X _ _ _ _ _ E Hr) as [B Hc]. split; [done|]. split; [apply B|].
  intros tp Htp. destruct (b_ctp _ B tp Htp) as (t & Ht & Hs). exists t. split; [done|].
  split; [|split]; [destruct Hs; congruence..|]. intros [Hx|Hx]%elem_of_app;
    [|apply (b_closed _ B) in Hx as [Hx _]; congruence].
  destruct (b_sock _ B tp Hx) as (t' & Ht' & Hs'). rewrite Ht in Ht'. injection Ht' as <-.
  rewrite Hs' in Hs. by destruct Hs.
Qed.
