(* ===== verification/ClientRequests.v ===== *)
(** * Every request is answered once

    Where the accepted requests and notifies of a client are: queued for the
    loop, stored until the response arrives, being written, or called back. The
    theorem is a conservation law: each acceptance is in exactly one of these
    places, so no callback is lost and none is made twice. It holds as long as
    requests are submitted once, as their documentation asks, and the write of a
    request completes while its transport works; the runs of
    [ClientExamples.v] show what happens otherwise. *)

From S2P Require Import Prelude Package StringMap Listeners Backoff Uv Float Jansson Protocol ClientState Client ClientLogic ClientInv.
Local Open Scope Z_scope.

(** ** Counting *)

Definition one (x y : positive) : nat := if decide (x = y) then 1 else 0.

Definition cb_of (rq : positive) (o : obs) : nat :=
  match o with
  | ORequestCb x _ _ | ONotifyCb x _ => one x rq
  | _ => 0
  end.

Definition accept_of (rq : positive) (o : obs) : nat :=
  match o with OAccepted x => one x rq | _ => 0 end.

Definition write_of (rq : positive) (p : positive * uv_req) : nat :=
  match p.2 with UvNotify x => one x rq | _ => 0 end.

Definition total {K A} `{Countable K} (f : A → nat) (m : gmap K A) : nat :=
  sum_list_with (λ kv, f kv.2) (map_to_list m).

Lemma total_insert {K A} `{Countable K} (f : A → nat) (m : gmap K A) k v :
  m !! k = None → total f (<[k := v]> m) = (f v + total f m)%nat.
Proof. intros Hk. unfold total. by rewrite map_to_list_insert. Qed.

Lemma total_delete {K A} `{Countable K} (f : A → nat) (m : gmap K A) k v :
  m !! k = Some v → total f m = (f v + total f (delete k m))%nat.
Proof. intros Hk. unfold total. by rewrite <- (map_to_list_delete m k v Hk). Qed.

Lemma total_empty {K A} `{Countable K} (f : A → nat) : total f (∅ : gmap K A) = 0%nat.
Proof. unfold total. by rewrite map_to_list_empty. Qed.

Lemma one_same x : one x x = 1%nat.
Proof. unfold one. by rewrite decide_True. Qed.

Section Requests.
Context {M : Type → Type} `{SM : StringMap M} `{!StringMapOk M}.
Implicit Types (w : world M).

Definition accepted (rq : positive) w : nat := sum_list_with (accept_of rq) (w_trace w).
Definition called (rq : positive) w : nat := sum_list_with (cb_of rq) (w_trace w).
Definition queued (rq : positive) w : nat := total (λ x, one x rq) (w_asyncs w).
Definition stored (rq : positive) (G : gmap string positive) : nat := total (λ x, one x rq) G.
Definition writing (rq : positive) w : nat := total (write_of rq) (w_pending w).

(** ** What most operations leave alone *)

Definition qframe w w' : Prop :=
  wf_next w → wf_next w' ∧ c_requests (w_client w') = c_requests (w_client w) ∧
    w_asyncs w' = w_asyncs w ∧ w_reqs w' = w_reqs w ∧ w_req_id w' = w_req_id w ∧
    (∀ rq, accepted rq w' = accepted rq w ∧ called rq w' = called rq w ∧ writing rq w' = writing rq w) ∧
    (w_next w ≤ w_next w')%positive.

#[local] Instance qframe_preorder : PreOrder qframe.
Proof.
  split.
  - intros w Hw. repeat split; auto. lia.
  - intros w1 w2 w3 H12 H23 Hw. destruct (H12 Hw) as (Hw2 & ? & ? & ? & ? & Hc & ?).
    destruct (H23 Hw2) as (? & ? & ? & ? & ? & Hc' & ?).
    split; [done|]. do 4 (split; [congruence|]). split; [|lia].
    intros rq. destruct (Hc rq) as (<- & <- & <-). apply Hc'.
Qed.

Lemma qframe_same w w' :
  c_requests (w_client w') = c_requests (w_client w) → w_asyncs w' = w_asyncs w → w_reqs w' = w_reqs w →
  w_req_id w' = w_req_id w → w_trace w' = w_trace w → w_pending w' = w_pending w →
  w_next w' = w_next w → qframe w w'.
Proof.
  intros E1 E2 E3 E4 E5 E6 E7 Hw. unfold wf_next, accepted, called, writing in *.
  rewrite E5, E6, E7. repeat split; auto. lia.
Qed.

Lemma qframe_upd f :
  (∀ c, c_requests (f c) = c_requests c) → keeps (M := M) qframe (upd_client f).
Proof. intros Hf. apply keeps_modify. intros w. apply qframe_same; [apply Hf|done..]. Qed.

Lemma qframe_ask : keeps (M := M) qframe ask.
Proof. apply keeps_ask; [apply _|]. intros w o. by apply qframe_same. Qed.

Lemma qframe_new_block : keeps (M := M) qframe new_block.
Proof.
  apply keeps_new_block. intros w Hw. unfold wf_next in *. simpl. repeat split; auto; [|lia].
  intros n Hn%Hw. lia.
Qed.

Lemma qframe_observe o :
  (∀ rq, cb_of rq o = 0%nat) → (∀ rq, accept_of rq o = 0%nat) → keeps (M := M) qframe (observe o).
Proof.
  intros H1 H2. apply keeps_modify. intros w Hw. unfold accepted, called, writing. simpl.
  repeat split; auto; [| |lia]; rewrite sum_list_with_app; simpl; rewrite ?H1, ?H2; lia.
Qed.

Lemma qframe_submit tp r : (∀ rq, r ≠ UvNotify rq) → keeps (M := M) qframe (uv_submit tp r).
Proof.
  intros Hr w w' a E Hw. unfold uv_submit, mbind, prog_bind, new_block, modify in E. injection E as <- <-.
  assert (w_pending w !! w_next w = None) as Hn.
  { apply eq_None_not_Some. intros Hs%Hw. lia. }
  unfold wf_next, accepted, called, writing. simpl. split.
  { intros n Hs. destruct (decide (n = w_next w)) as [->|Hne]; [lia|].
    rewrite lookup_insert_ne in Hs by done. apply Hw in Hs. lia. }
  repeat split; auto; [|lia]. rewrite total_insert by done. unfold write_of at 1. simpl.
  destruct r; try done. by destruct (Hr req).
Qed.

Hint Extern 1 (keeps qframe (modify _)) => (apply keeps_modify; intros; by apply qframe_same) : keeps.
Hint Extern 1 (keeps qframe (upd_client _)) => (apply qframe_upd; done) : keeps.
Hint Extern 1 (keeps qframe (observe _)) => (apply qframe_observe; done) : keeps.
Hint Extern 1 (keeps qframe (uv_submit _ _)) => (apply qframe_submit; done) : keeps.
Hint Resolve qframe_ask qframe_new_block : keeps.

Ltac qframe_auto := unfold_handlers; keeps_auto.

(** ** The law *)

(** The requests of [w] are where [G] and the queues say, up to the debt [d]: the
    callbacks that are due but not yet made, less those accepted early. *)
Record qrep (d : positive → Z) w (G : gmap string positive) : Prop := {
  q_rep : sm_rep (c_requests (w_client w)) G;
  q_law rq : Z.of_nat (accepted rq w) =
    Z.of_nat (called rq w) + Z.of_nat (queued rq w) + Z.of_nat (stored rq G) + Z.of_nat (writing rq w) + d rq;
  q_wf : wf_next w;
  (** Ids of live requests are positive once given, and distinct. *)
  q_ids rq r : w_reqs w !! rq = Some r → rq_type r = PC_REQUEST → 0 ≤ rq_id r ≤ w_req_id w;
  q_dist rq rq' r r' : w_reqs w !! rq = Some r → rq_type r = PC_REQUEST → w_reqs w !! rq' = Some r' →
    rq_type r' = PC_REQUEST → rq_id r = rq_id r' → 0 < rq_id r → rq = rq';
  q_key k rq' : G !! k = Some rq' → ∃ id, 0 < id ≤ w_req_id w ∧ k = sprintf_u id ∧
    ∀ rq r, w_reqs w !! rq = Some r → rq_type r = PC_REQUEST → rq_id r = id → rq = rq';
  q_sent a rq r : w_asyncs w !! a = Some rq → w_reqs w !! rq = Some r → rq_type r = PC_REQUEST → 0 < rq_id r;
  q_once rq r : w_reqs w !! rq = Some r → rq_type r = PC_REQUEST → (accepted rq w ≤ 1)%nat;
  q_type rq r : w_reqs w !! rq = Some r → rq_type r ≠ PC_CONNECT;
  q_req_id : 0 ≤ w_req_id w < 2 ^ 32;
  q_next rq : is_Some (w_reqs w !! rq) → (rq < w_next w)%positive;
  q_anext a rq : w_asyncs w !! a = Some rq → (a < w_next w ∧ rq < w_next w)%positive;
  q_tnext rq : (0 < accepted rq w)%nat → (rq < w_next w)%positive
}.

Definition owe (rq : positive) (z : Z) : positive → Z := λ x, if decide (x = rq) then z else 0.
Definition qinv (d : positive → Z) w : Prop := ∃ G, qrep d w G.
Abbreviation settled := (qinv (λ _, 0)).

Lemma qrep_frame d w w' G : qrep d w G → qframe w w' → qrep d w' G.
Proof.
  intros [R L W ? ? K S O Y B N A T] F. destruct (F W) as (Hw & Er & Ea & Eq & Ei & Hc & Hn).
  assert (∀ rq, queued rq w' = queued rq w) as Hq by (intros; unfold queued; by rewrite Ea).
  split; rewrite ?Er, ?Ea, ?Eq, ?Ei; auto.
  - intros rq. destruct (Hc rq) as (-> & -> & ->). rewrite Hq. apply L.
  - intros rq r Hr Ht. destruct (Hc rq) as (-> & _). by eapply O.
  - intros rq Hs%N. lia.
  - intros a rq Hs%A. lia.
  - intros rq. destruct (Hc rq) as (-> & _). intros Hs%T. lia.
Qed.

Lemma qinv_frame d w w' : qinv d w → qframe w w' → qinv d w'.
Proof. intros [G R] F. exists G. by eapply qrep_frame. Qed.

Definition keeps_q w w' : Prop := settled w → settled w'.

#[local] Instance keeps_q_preorder : PreOrder keeps_q.
Proof. split; [by intros w Hw|]. intros w1 w2 w3 H12 H23 H1. by apply H23, H12. Qed.

Lemma qframe_q {A} (m : prog M A) : keeps qframe m → keeps keeps_q m.
Proof. intros Hm w w' a E Hi. eapply qinv_frame; [done|by eapply Hm]. Qed.

Hint Extern 5 (keeps keeps_q _) => (apply qframe_q; solve [qframe_auto]) : keeps.

Lemma hoare_q {A} (m : prog M A) : hoare settled m (λ _, settled) → keeps keeps_q m.
Proof. intros Hm w w' a E Hi. by eapply Hm. Qed.

Lemma hoare_qframe {A} d (m : prog M A) : keeps qframe m → hoare (qinv d) m (λ _, qinv d).
Proof. intros Hm. eapply keeps_hoare; [exact Hm|]. intros. by eapply qinv_frame. Qed.

(** ** Callbacks *)

(** Calling back settles the debt of one callback. *)
Lemma pay_trace d d' w G o :
  qrep d w G → (∀ rq, accept_of rq o = 0%nat) → (∀ rq, d rq = d' rq + Z.of_nat (cb_of rq o)) →
  qrep d' (set_w_trace (w_trace w ++ [o]) w) G.
Proof.
  intros [R L W ? ? K S O Y B N A T] Ha Hd.
  assert (∀ rq, accepted rq (set_w_trace (w_trace w ++ [o]) w) = accepted rq w) as Eacc.
  { intros rq. unfold accepted. simpl. rewrite sum_list_with_app. simpl. rewrite Ha. lia. }
  split; try done.
  - intros rq. rewrite Eacc, L, Hd. unfold called. simpl. rewrite sum_list_with_app. simpl.
    unfold queued, writing. simpl. lia.
  - intros rq r Hr Ht. rewrite Eacc. by eapply O.
  - intros rq. rewrite Eacc. apply T.
Qed.

Lemma pay_request rq s r : hoare (qinv (owe rq 1)) (call_request_cb (M := M) rq s r) (λ _, settled).
Proof.
  unfold call_request_cb. eapply hoare_bind; [apply hoare_qframe; qframe_auto|]. intros ?.
  intros w w' [] [G R] [= <-]. exists G. apply (pay_trace (owe rq 1)); [done|done|].
  intros x. unfold owe, cb_of, one. repeat case_decide; congruence || lia.
Qed.

Lemma pay_notify rq s : hoare (qinv (owe rq 1)) (call_notify_cb (M := M) rq s) (λ _, settled).
Proof.
  unfold call_notify_cb. eapply hoare_bind; [apply hoare_qframe; qframe_auto|]. intros ?.
  intros w w' [] [G R] [= <-]. exists G. apply (pay_trace (owe rq 1)); [done|done|].
  intros x. unfold owe, cb_of, one. repeat case_decide; congruence || lia.
Qed.

(** The release callback of every stored request. *)
Lemma release_effect rel : ∀ w w' (u : unit), release_requests (M := M) rel w = Val (w', u) →
  w' = set_w_trace (w_trace w ++ map (λ kv, ORequestCb kv.2 (-1) None) rel) w.
Proof.
  induction rel as [|[k rq] rel IH]; intros w w' u E.
  - injection E as <- <-. simpl. rewrite app_nil_r. by destruct w.
  - cbn [release_requests] in E. unfold pc__release_requests, call_request_cb, mbind, prog_bind in E.
    destruct (get_req rq w) as [[w1 r]| |] eqn:Eg; [|done..].
    assert (w1 = w) as ->.
    { unfold get_req, mbind, prog_bind, gets in Eg. destruct (w_reqs w !! rq); [by injection Eg as <- <-|done]. }
    unfold observe, modify in E. apply IH in E. subst w'. simpl. rewrite <- app_assoc. by destruct w.
Qed.

Lemma q_clear : keeps (M := M) keeps_q requests_clear.
Proof.
  intros w w' a E [G [R L W I D K S O Y B N A T]].
  unfold requests_clear, the_client, mbind, prog_bind, gets, lift in E.
  destruct (sm_clear_ok _ _ _ R) as (m & rel & Ec & Hp & R'). rewrite Ec in E. cbn in E.
  unfold upd_client, modify in E. apply release_effect in E. subst w'. cbn [w_trace set_w_client].
  exists ∅. set (w1 := set_w_trace _ _).
  assert (∀ rq, accepted rq w1 = accepted rq w) as Eacc.
  { intros rq. unfold accepted. simpl. rewrite sum_list_with_app. clear. induction rel; simpl; lia. }
  split; try done.
  - intros rq. rewrite Eacc, L. unfold called, queued, writing. simpl. rewrite sum_list_with_app.
    assert (stored rq ∅ = 0%nat) as -> by apply total_empty.
    assert (stored rq G = sum_list_with (cb_of rq) (map (λ kv, ORequestCb kv.2 (-1) None) rel)) as ->; [|lia].
    unfold stored, total. rewrite <- Hp. clear. induction rel as [|kv rel IH]; simpl; [done|]. by rewrite IH.
  - intros rq r Hr Ht. rewrite Eacc. by eapply O.
  - intros rq. rewrite Eacc. apply T.
Qed.
Hint Resolve q_clear : keeps.

(** Taking a stored request out. *)
Lemma q_del w G k rq w' (u : unit) :
  qrep (λ _, 0) w G → G !! k = Some rq → requests_del k w = Val (w', u) → qinv (owe rq 1) w'.
Proof.
  intros [R L W I D K S O Y B N A T] Hk E.
  unfold requests_del, the_client, mbind, prog_bind, gets, lift in E.
  destruct (sm_del_ok _ _ _ k R) as (m & Ec & R'). rewrite Ec in E. cbn in E.
  unfold upd_client, modify in E. injection E as <- <-. exists (delete k G). split; try done.
  - intros x. specialize (L x). change (accepted x _) with (accepted x w). rewrite L.
    unfold called, queued, writing, stored. simpl. rewrite (total_delete _ G k rq Hk).
    unfold owe, one. repeat case_decide; congruence || lia.
  - intros k' rq' [_ Hk']%lookup_delete_Some. by apply K.
Qed.

Lemma requests_get_eq d w G k : qrep d w G → requests_get k w = Val (w, G !! k).
Proof.
  intros R. unfold requests_get, the_client, mbind, prog_bind, gets, lift.
  by rewrite (sm_get_ok _ _ _ _ (q_rep _ _ _ R)).
Qed.

Lemma q_process_response m : keeps (M := M) keeps_q (pc__process_response m).
Proof.
  intros w w' a E [G R]. unfold pc__process_response, mbind, prog_bind in E. cbv zeta in E.
  rewrite (requests_get_eq _ _ _ _ R) in E.
  destruct (G !! sprintf_u (msg_id m)) as [rq|] eqn:Hk; [|injection E as <- <-; by exists G].
  destruct (requests_del _ w) as [[w1 []]| |] eqn:Ed; [|done..].
  eapply pay_request; [|exact E]. by eapply q_del.
Qed.
Hint Resolve q_process_response : keeps.

(** ** Handlers that keep the law *)

Lemma q_stop : keeps (M := M) keeps_q pc_client_stop.
Proof.
  unfold pc_client_stop, pc__client_reconnect, pc__client_reconnect_reset. unfold_handlers. keeps_auto.
Qed.
Hint Resolve q_stop : keeps.

Lemma q_connect_cb cn st : keeps (M := M) keeps_q (call_connect_cb cn st).
Proof.
  unfold call_connect_cb, pc__client_connected_cb, pc__client_connect3_cb, pc__client_reconnected_cb.
  unfold_handlers. keeps_auto.
Qed.
Hint Resolve q_connect_cb : keeps.

Lemma q_connect cn o cb : keeps (M := M) qframe (pc_connect cn o cb).
Proof. unfold pc_connect. unfold_handlers. keeps_auto. Qed.
Hint Resolve q_connect : keeps.

Section Externals.
Context (X : externals).

Lemma q_on_tcp_connect tp cn st : keeps (M := M) keeps_q (pc__on_tcp_connect X tp cn st).
Proof. unfold pc__on_tcp_connect. unfold_handlers. keeps_auto. Qed.

Lemma q_handshake_cbs tp st :
  keeps (M := M) keeps_q (pc__handshake_req_cb tp st) ∧ keeps (M := M) keeps_q (pc__handshake_ack_cb tp st).
Proof.
  split; unfold pc__handshake_req_cb, pc__handshake_ack_cb, finish_connect; unfold_handlers; keeps_auto.
Qed.

Lemma q_timer t : keeps (M := M) keeps_q (deliver_timer X t).
Proof.
  unfold deliver_timer, pc__heartbeat_cb, pc__timeout_cb, pc__handshake_timeout_cb,
    pc__client_reconnect_timer_cb. unfold_handlers. keeps_auto.
Qed.

Lemma q_pkg_cb ty d : keeps (M := M) keeps_q (pc__pkg_cb X ty d).
Proof. unfold pc__pkg_cb, pc__data. unfold_handlers. keeps_auto. Qed.

Lemma q_on_read tp d : keeps (M := M) keeps_q (pc_tp_on_tcp_read X tp d).
Proof.
  assert (∀ data, keeps (M := M) keeps_q (pc_client_on_tcp_read X data)) as Hr.
  { intros data. unfold pc_client_on_tcp_read. keeps_step; [|by keeps_auto].
    intros w w' b E Hi. eapply (feed_keeps X settled); [| |exact Hi|exact E].
    - intros p w1 Hi1. eapply qinv_frame; [done|]. by apply qframe_same.
    - intros ty body w1 w2 [] Hi1 E1. by eapply q_pkg_cb. }
  unfold pc_tp_on_tcp_read. unfold_handlers. keeps_auto.
Qed.

(** ** Submitting *)

(** The request or notify [rq] is live, of type [ty] and with id [id]; [n] of its
    submissions have been accepted. *)
Definition live_req (d : positive → Z) (rq : positive) (ty : pc_req_type) (id : Z) (n : nat) w : Prop :=
  qinv d w ∧ accepted rq w = n ∧ ∃ r, w_reqs w !! rq = Some r ∧ rq_type r = ty ∧ rq_id r = id.

Lemma live_frame {A} d rq ty id n (m : prog M A) :
  keeps qframe m → hoare (live_req d rq ty id n) m (λ _, live_req d rq ty id n).
Proof.
  intros Hm w w' a (Hi & Hn & Hr) E. pose proof (Hm _ _ _ E) as F. split; [by eapply qinv_frame|].
  destruct Hi as [G R]. destruct (F (q_wf _ _ _ R)) as (_ & _ & _ & -> & _ & Hc & _).
  by destruct (Hc rq) as (-> & _).
Qed.

(** Writing the fields of a request other than its type and id. *)
Lemma live_put d rq ty id n r' :
  rq_type r' = ty → rq_id r' = id →
  hoare (live_req d rq ty id n) (put_req (M := M) rq r') (λ _, live_req d rq ty id n).
Proof.
  intros Ht Hid w w' [] ([G [R L W I D K S O Y B N A T]] & Hn & r & Hr & Hrt & Hrid) [= <-].
  assert (∀ x rx, <[rq := r']> (w_reqs w) !! x = Some rx →
    ∃ ry, w_reqs w !! x = Some ry ∧ rq_type ry = rq_type rx ∧ rq_id ry = rq_id rx) as Hx.
  { intros x rx Hl. destruct (decide (x = rq)) as [->|Hne].
    - rewrite lookup_insert_eq in Hl. injection Hl as <-. exists r. split; [done|]. split; congruence.
    - rewrite lookup_insert_ne in Hl by done. by exists rx. }
  split; [|split; [done|]]; [|exists r'; simpl; by rewrite lookup_insert_eq].
  exists G. split; try done; simpl.
  - intros x rx (ry & Hy & Ety & Eid)%Hx Hrx. rewrite <- Eid. apply (I x ry); congruence.
  - intros x x' rx rx' (ry & Hy & Ety & Eid)%Hx H1 (ry' & Hy' & Ety' & Eid')%Hx H2 He Hp.
    apply (D x x' ry ry'); congruence.
  - intros k rq' Hk. destruct (K k rq' Hk) as (i & Hi & -> & Hu). exists i. split; [done|]. split; [done|].
    intros x rx (ry & Hy & Ety & Eid)%Hx H1 H2. apply (Hu x ry); congruence.
  - intros a x rx Ha (ry & Hy & Ety & Eid)%Hx H1. rewrite <- Eid. apply (S a x ry); congruence.
  - intros x rx (ry & Hy & Ety & Eid)%Hx H1. apply (O x ry); congruence.
  - intros x rx (ry & Hy & Ety & Eid)%Hx. rewrite <- Ety. by apply (Y x).
  - intros x Hs. apply N. destruct Hs as [rx (ry & Hy & _)%Hx]. by exists ry.
Qed.

(** A new wake-up handle. *)
Definition live_async (a : positive) d rq ty id n w : Prop :=
  live_req d rq ty id n w ∧ w_asyncs w !! a = None ∧ (a < w_next w)%positive.

Lemma live_new_block d rq ty id n :
  hoare (live_req d rq ty id n) (new_block (M := M)) (λ a, live_async a d rq ty id n).
Proof.
  intros w w' a Hl E. assert (keeps (M := M) qframe new_block) as Hk by (auto with keeps).
  split; [by eapply (live_frame d rq ty id n _ Hk)|]. injection E as <- <-. simpl.
  split; [|lia]. destruct Hl as [[G R] _]. destruct (w_asyncs w !! w_next w) as [x|] eqn:Ha; [|done].
  destruct (q_anext _ _ _ R _ _ Ha). lia.
Qed.

Lemma live_async_frame {A} a d rq ty id n (m : prog M A) :
  keeps qframe m → hoare (live_async a d rq ty id n) m (λ _, live_async a d rq ty id n).
Proof.
  intros Hm w w' b (Hl & Ha & Hn) E. split; [by eapply (live_frame _ _ _ _ _ _ Hm)|].
  destruct Hl as [[G R] _]. destruct (Hm _ _ _ E (q_wf _ _ _ R)) as (_ & _ & -> & _ & _ & _ & Hle).
  split; [done|lia].
Qed.

(** The wake-up is sent: the callback of [rq] is accounted for before its
    acceptance. *)
Lemma live_send a rq ty id n :
  (ty = PC_REQUEST → 0 < id) →
  hoare (live_async a (λ _, 0) rq ty id n)
    (modify (M := M) (λ w, set_w_asyncs (<[a := rq]> (w_asyncs w)) w))
    (λ _, live_req (owe rq (-1)) rq ty id n).
Proof.
  intros Hid w w' [] (([G [R L W I D K S O Y B N A T]] & Hn & r & Hr & Hrt & Hrid) & Ha & Hlt) [= <-].
  split; [|split; [done|]]; [|by exists r]. exists G. split; try done; simpl.
  - intros x. change (accepted x _) with (accepted x w). rewrite L. unfold called, queued, writing. simpl.
    rewrite total_insert by done. unfold owe, one. repeat case_decide; congruence || lia.
  - intros b x rx Hb Hx Ht. destruct (decide (b = a)) as [->|Hne].
    + rewrite lookup_insert_eq in Hb. injection Hb as <-. rewrite Hr in Hx. injection Hx as <-.
      rewrite Hrid. apply Hid. congruence.
    + rewrite lookup_insert_ne in Hb by done. by apply (S b x rx).
  - intros b x Hb. destruct (decide (b = a)) as [->|Hne].
    + rewrite lookup_insert_eq in Hb. injection Hb as <-. split; [done|]. apply N. by exists r.
    + rewrite lookup_insert_ne in Hb by done. by apply A.
Qed.

(** [pc__async_write] on a live request. *)
Lemma q_async_write tp rq rt m ty id n :
  (ty = PC_REQUEST → 0 < id) →
  hoare (live_req (λ _, 0) rq ty id n) (pc__async_write (M := M) tp rq rt m)
    (λ z, if z =? 0 then live_req (owe rq (-1)) rq ty id n else settled).
Proof.
  intros Hid. unfold pc__async_write.
  assert (∀ w, live_req (λ _, 0) rq ty id n w → settled w) as Hs by (by intros w [? _]).
  destruct tp as [tp|]; [|by apply hoare_ret].
  eapply hoare_bind; [apply live_frame; qframe_auto|]. intros t.
  case_match; [by apply hoare_ret|]. destruct rt as [rt|]; [|by apply hoare_ret].
  apply (hoare_bind _ _ (λ r w, live_req (λ _, 0) rq ty id n w ∧ rq_type r = ty ∧ rq_id r = id)).
  { intros w w' r Hl E. unfold get_req, mbind, prog_bind, gets in E. pose proof Hl as (_ & _ & r' & Hr & ? & ?).
    rewrite Hr in E. injection E as <- <-. done. }
  intros r. intros w w' z (Hl & Hrt & Hrid). revert Hl. generalize w w' z. clear w w' z.
  change (hoare (live_req (λ _, 0) rq ty id n)
    (let set_route o := mkReq (rq_type r) (rq_id r) o m (Some tp) in
     ok ← malloc_ok;
     if negb ok then fail_ub
     else put_req rq (set_route (Some rt));; _ ← deref m; ok ← malloc_ok;
       if negb ok then put_req rq (set_route None);; mret (-1)
       else e ← ask;
         if negb (e =? 0) then put_req rq (set_route None);; mret (-1)
         else a ← new_block; e ← ask;
           if negb (e =? 0) then put_req rq (set_route None);; uv_close (HAsync a);; mret (-1)
           else modify (λ w, set_w_asyncs (<[a := rq]> (w_asyncs w)) w);; mret 0)
    (λ z, if z =? 0 then live_req (owe rq (-1)) rq ty id n else settled)). cbv zeta.
  assert (∀ (rest : prog M Z), hoare (live_req (λ _, 0) rq ty id n) rest (λ z w, z = -1 ∧ settled w) →
    hoare (live_req (λ _, 0) rq ty id n) (put_req rq (mkReq (rq_type r) (rq_id r) None m (Some tp));; rest)
      (λ z, if z =? 0 then live_req (owe rq (-1)) rq ty id n else settled)) as Hfail.
  { intros rest Hrest. eapply hoare_bind; [by apply live_put|]. intros [].
    eapply hoare_cons; [exact Hrest|done|]. by intros ? w [-> ?]. }
  eapply hoare_bind; [apply live_frame; qframe_auto|]. intros []; cbn [negb]; [|by intros ? ? ? ? ?].
  eapply hoare_bind; [by apply live_put|]. intros [].
  do 2 (eapply hoare_bind; [apply live_frame; qframe_auto|intros ?]).
  case_match; [apply Hfail; apply hoare_ret; by auto|].
  eapply hoare_bind; [apply live_frame; qframe_auto|]. intros e.
  case_match; [apply Hfail; apply hoare_ret; by auto|].
  eapply hoare_bind; [apply live_new_block|]. intros a'.
  eapply hoare_bind; [apply live_async_frame; qframe_auto|]. intros e'. case_match.
  - apply (hoare_cons (live_req (λ _, 0) rq ty id n) _ _ (λ z, if z =? 0 then live_req (owe rq (-1)) rq ty id n else settled));
      [|by intros w [? _]|done]. apply Hfail.
    eapply hoare_bind; [apply live_frame; qframe_auto|]. intros []. apply hoare_ret. by auto.
  - eapply hoare_bind; [by apply live_send|]. intros []. by apply hoare_ret.
Qed.

(** The acceptance the user sees. *)
Lemma q_accept rq ty id n :
  (ty = PC_REQUEST → n = 0%nat) →
  hoare (live_req (owe rq (-1)) rq ty id n) (observe (M := M) (OAccepted rq)) (λ _, settled).
Proof.
  intros Hn w w' [] ([G [R L W I D K S O Y B N A T]] & Hacc & r & Hr & Hrt & Hrid) [= <-].
  assert (∀ x, accepted x (set_w_trace (w_trace w ++ [OAccepted rq]) w) = (accepted x w + one rq x)%nat) as Ea.
  { intros x. unfold accepted. simpl. rewrite sum_list_with_app. simpl. lia. }
  exists G. split; try done.
  - intros x. rewrite Ea, Nat2Z.inj_add, L. unfold called, queued, writing. simpl. rewrite sum_list_with_app. simpl.
    unfold owe, one. repeat case_decide; congruence || lia.
  - intros x rx Hx Hrx. rewrite Ea. simpl in Hx. specialize (O x rx Hx Hrx). unfold one. case_decide; [|lia].
    subst x. rewrite Hr in Hx. injection Hx as <-. rewrite Hacc, (Hn ltac:(congruence)). lia.
  - intros x. rewrite Ea. unfold one. case_decide as Ex; simpl; [|rewrite Nat.add_0_r; apply T].
    intros _. subst x. apply N. by exists r.
Qed.

(** [req->id = ++pc__req_id]. *)
Lemma q_new_id rq r id w G :
  qrep (λ _, 0) w G → w_reqs w !! rq = Some r → rq_type r = PC_REQUEST →
  id = w_req_id w + 1 → id < 2 ^ 32 →
  qrep (λ _, 0) (set_w_reqs (<[rq := mkReq (rq_type r) id (rq_route r) (rq_msg r) (rq_transport r)]> (w_reqs w))
                  (set_w_req_id id w)) G.
Proof.
  intros [R L W I D K S O Y B N A T] Hr Hrt -> Hlt. set (r' := mkReq _ _ _ _ _).
  assert (∀ x rx, <[rq := r']> (w_reqs w) !! x = Some rx →
    (x = rq ∧ rx = r') ∨ (x ≠ rq ∧ w_reqs w !! x = Some rx)) as Hx.
  { intros x rx Hl. destruct (decide (x = rq)) as [->|Hne].
    - rewrite lookup_insert_eq in Hl. injection Hl as <-. by left.
    - rewrite lookup_insert_ne in Hl by done. by right. }
  split; try done; simpl.
  - intros x rx [[-> ->]|[_ Hl]]%Hx Ht; [simpl; lia|]. specialize (I x rx Hl Ht). lia.
  - intros x x' rx rx' [[-> ->]|[Hn Hl]]%Hx H1 [[-> ->]|[Hn' Hl']]%Hx H2 He Hp; simpl in *; try done.
    + specialize (I x' rx' Hl' H2). lia.
    + specialize (I x rx Hl H1). lia.
    + by apply (D x x' rx rx').
  - intros k rq' Hk. destruct (K k rq' Hk) as (i & Hi & -> & Hu). exists i. split; [lia|]. split; [done|].
    intros x rx [[-> ->]|[Hn Hl]]%Hx H1 H2; [simpl in H2; lia|]. by apply (Hu x rx).
  - intros a x rx Ha [[-> ->]|[Hn Hl]]%Hx H1; [simpl; lia|]. by apply (S a x rx).
  - intros x rx [[-> ->]|[Hn Hl]]%Hx H1; [by apply (O rq r)|]. by apply (O x rx).
  - intros x rx [[-> ->]|[Hn Hl]]%Hx; [exact (Y rq r Hr)|]. by apply (Y x).
  - lia.
  - intros x [rx Hl]. apply N. destruct (Hx x rx Hl) as [[-> _]|[_ Hl']]; [by exists r|by exists rx].
Qed.

Lemma q_request rq rt m w w' u :
  settled w → accepted rq w = 0%nat → (∃ r, w_reqs w !! rq = Some r ∧ rq_type r = PC_REQUEST) →
  w_req_id w < 2 ^ 32 - 1 → deliver X (URequest rq rt m) w = Val (w', u) → settled w'.
Proof.
  intros [G R] Hacc (r & Hr & Hrt) Hid E. cbn [deliver] in E. unfold mbind at 1, prog_bind at 1 in E.
  destruct (pc_request rq rt m w) as [[w1 z]| |] eqn:Ep; [|done..].
  assert ((if z =? 0 then live_req (owe rq (-1)) rq PC_REQUEST (w_req_id w + 1) 0 else settled) w1) as Hp.
  { unfold pc_request, the_client, mbind, prog_bind, gets, modify, put_req, mret, prog_ret in Ep.
    destruct (decide (c_state (w_client w) ≠ PC_ST_WORKING)); [injection Ep as <- <-; by exists G|].
    pose proof (q_req_id _ _ _ R) as Hb.
    rewrite (wrap_small 32) in Ep by (unfold is_u; lia).
    unfold get_req, mbind, prog_bind, gets in Ep. cbn [set_w_req_id w_reqs] in Ep. rewrite Hr in Ep.
    cbn in Ep. unfold modify in Ep. refine (q_async_write _ _ _ _ PC_REQUEST (w_req_id w + 1) 0 _ _ _ _ _ Ep); [lia|].
    split; [exists G; by apply q_new_id; [..|lia]|]. split; [exact Hacc|]. simpl. rewrite lookup_insert_eq.
    by eexists. }
  destruct (z =? 0); cbn [when] in E.
  - eapply (q_accept rq PC_REQUEST _ 0); [done|exact Hp|exact E].
  - by injection E as <- <-.
Qed.

Lemma q_notify rq rt m w w' u :
  settled w → (∃ r, w_reqs w !! rq = Some r ∧ rq_type r = PC_NOTIFY) →
  deliver X (UNotify rq rt m) w = Val (w', u) → settled w'.
Proof.
  intros HQ (r & Hr & Hrt) E. cbn [deliver] in E. unfold mbind at 1, prog_bind at 1 in E.
  destruct (pc_notify rq rt m w) as [[w1 z]| |] eqn:Ep; [|done..].
  assert ((if z =? 0 then live_req (owe rq (-1)) rq PC_NOTIFY (rq_id r) (accepted rq w) else settled) w1) as Hp.
  { unfold pc_notify, the_client, mbind, prog_bind, gets, mret, prog_ret in Ep.
    destruct (decide (c_state (w_client w) ≠ PC_ST_WORKING)); [by injection Ep as <- <-|].
    unfold get_req, mbind, prog_bind, gets in Ep. rewrite Hr in Ep. cbn in Ep.
    refine (q_async_write _ _ _ _ PC_NOTIFY _ _ _ _ _ _ _ Ep); [done|]. split; [done|]. split; [done|].
    by exists r. }
  destruct (z =? 0); cbn [when] in E.
  - eapply (q_accept rq PC_NOTIFY (rq_id r) (accepted rq w)); [done|exact Hp|exact E].
  - by injection E as <- <-.
Qed.

(** ** Sending *)

(** The message of a request is handed to libuv. *)
Lemma frame_send_request r id rt rq : keeps (M := M) qframe (send_data X r id rt (UvRequest rq)).
Proof. unfold send_data. unfold_handlers. keeps_auto. Qed.

(** A notify is then being written. *)
Lemma q_send_notify r id rt rq :
  hoare (qinv (owe rq 1)) (send_data (M := M) X r id rt (UvNotify rq))
    (λ sent, if sent : bool then settled else qinv (owe rq 1)).
Proof.
  unfold send_data, uv_write.
  do 2 (eapply hoare_bind; [apply hoare_qframe; qframe_auto|intros ?]). case_match; [|by apply hoare_ret].
  do 3 (eapply hoare_bind; [apply hoare_qframe; qframe_auto|intros ?]). case_match; [by apply hoare_ret|].
  eapply hoare_bind; [apply hoare_qframe; qframe_auto|intros ?]. case_match; [by apply hoare_ret|].
  eapply hoare_bind; [apply hoare_qframe; qframe_auto|]. intros tp.
  apply (hoare_bind _ _ (λ z, if z =? -1 then qinv (owe rq 1) else settled));
    [|intros z; apply hoare_ret; intros w; by destruct (z =? -1)].
  do 3 (eapply hoare_bind; [apply hoare_qframe; qframe_auto|intros ?]). case_match; [by apply hoare_ret|].
  apply (hoare_bind _ _ (λ _, settled)).
  { intros w w' [] [G [R L W I D K S O Y B N A T]] E.
    unfold uv_submit, mbind, prog_bind, new_block, modify in E. injection E as <-.
    assert (w_pending w !! w_next w = None) as Hn.
    { apply eq_None_not_Some. intros Hs%W. lia. }
    exists G. split; try done; simpl.
    - intros x. change (accepted x _) with (accepted x w). rewrite L. unfold called, queued, writing. simpl.
      rewrite total_insert by done. unfold write_of at 2. simpl. unfold owe, one.
      repeat case_decide; congruence || lia.
    - intros n Hs. simpl in *. destruct (decide (n = w_next w)) as [->|Hne]; [lia|].
      rewrite lookup_insert_ne in Hs by done. apply W in Hs. lia.
    - intros x Hs%N. lia.
    - intros b x Hs%A. lia.
    - intros x Hs. apply T in Hs. lia. }
  intros []. eapply hoare_bind; [apply hoare_qframe; qframe_auto|]. intros []. by apply hoare_ret.
Qed.

(** A request is then stored under its id, which is free. *)
Lemma q_store rq r w w' (u : unit) :
  qinv (owe rq 1) w → w_reqs w !! rq = Some r → rq_type r = PC_REQUEST → 0 < rq_id r →
  requests_set (sprintf_u (rq_id r)) rq w = Val (w', u) → settled w'.
Proof.
  intros [G [R L W I D K S O Y B N A T]] Hr Hrt Hid E.
  assert (G !! sprintf_u (rq_id r) = None) as Hfree.
  { destruct (G !! sprintf_u (rq_id r)) as [rq'|] eqn:Hk; [exfalso|done].
    destruct (K _ _ Hk) as (i & Hi & Es & Hu). apply sprintf_u_inj in Es; [|lia..].
    assert (rq = rq') as <- by (by apply (Hu rq r)).
    specialize (L rq). specialize (O rq r Hr Hrt). unfold stored in L.
    rewrite (total_delete _ G _ _ Hk), one_same in L. unfold owe in L. rewrite decide_True in L by done. lia. }
  unfold requests_set, the_client, mbind, prog_bind, gets, lift in E.
  destruct (sm_set_ok _ _ _ _ rq R Hfree) as (m & Em & R'). rewrite Em in E. cbn in E.
  unfold upd_client, modify in E. cbn in E. injection E as <- <-.
  exists (<[sprintf_u (rq_id r) := rq]> G). split; try done; simpl.
  - intros x. change (accepted x _) with (accepted x w). rewrite L. unfold called, queued, writing, stored. simpl.
    rewrite total_insert by done. unfold owe, one. repeat case_decide; congruence || lia.
  - intros k x Hk. destruct (decide (k = sprintf_u (rq_id r))) as [->|Hne].
    + rewrite lookup_insert_eq in Hk. injection Hk as <-. exists (rq_id r).
      split; [specialize (I rq r Hr Hrt); lia|]. split; [done|].
      intros y ry Hy Hyt He. by apply (D y rq ry r); [..|congruence|lia].
    + rewrite lookup_insert_ne in Hk by done. by apply K.
Qed.

Definition held (rq : positive) (r : pc_tcp_req_t) w : Prop := qinv (owe rq 1) w ∧ w_reqs w !! rq = Some r.

Lemma held_frame {A} rq r (m : prog M A) : keeps qframe m → hoare (held rq r) m (λ _, held rq r).
Proof.
  intros Hm w w' a [Hi Hr] E. pose proof (Hm _ _ _ E) as F. split; [by eapply qinv_frame|].
  destruct Hi as [G R]. by destruct (F (q_wf _ _ _ R)) as (_ & _ & _ & -> & _).
Qed.

Lemma held_get {B} rq r (f : pc_tcp_req_t → prog M B) Q :
  hoare (held rq r) (f r) Q → hoare (held rq r) (get_req rq ≫= f) Q.
Proof.
  intros Hf w w' b Hw E. unfold get_req, mbind, prog_bind, gets in E. rewrite (proj2 Hw) in E. cbn in E.
  by eapply Hf.
Qed.

Lemma held_pay_request rq r st m :
  hoare (held rq r) (call_request_cb (M := M) rq st m) (λ _, settled).
Proof. eapply hoare_cons; [apply pay_request|by intros w [? _]|done]. Qed.

Lemma held_pay_notify rq r st : hoare (held rq r) (call_notify_cb (M := M) rq st) (λ _, settled).
Proof. eapply hoare_cons; [apply pay_notify|by intros w [? _]|done]. Qed.

Lemma q_request_cb rq r :
  rq_type r = PC_REQUEST → 0 < rq_id r → hoare (held rq r) (pc__request (M := M) X rq 0) (λ _, settled).
Proof.
  intros Ht Hid. unfold pc__request. cbn [Z.eqb]. apply held_get.
  do 2 (eapply hoare_bind; [apply held_frame; qframe_auto|intros ?]).
  case_match; [apply held_pay_request|].
  do 2 (eapply hoare_bind; [apply held_frame; qframe_auto|intros ?]).
  eapply hoare_bind; [apply held_frame, frame_send_request|]. intros sent.
  destruct sent; cbn [negb]; [|apply held_pay_request].
  intros w w' u [HQ Hr] E. by eapply q_store.
Qed.

Lemma q_notify_cb rq r : hoare (held rq r) (pc__notify (M := M) X rq 0) (λ _, settled).
Proof.
  unfold pc__notify. cbn [Z.eqb].
  eapply hoare_bind; [apply held_frame; qframe_auto|intros ?]. apply held_get.
  do 2 (eapply hoare_bind; [apply held_frame; qframe_auto|intros ?]).
  case_match; [apply held_pay_notify|].
  eapply hoare_bind; [apply held_frame; qframe_auto|]. intros rt.
  eapply hoare_bind;
    [eapply hoare_cons; [apply (q_send_notify r 0 rt rq)|by intros w [? _]|done]|].
  intros sent. destruct sent; cbn [negb when]; [by apply hoare_ret|apply pay_notify].
Qed.

(** The wake-up of a request or a notify. *)
Lemma q_async_cb a w w' u : settled w → deliver X (LAsync a) w = Val (w', u) → settled w'.
Proof.
  intros [G R] E. cbn [deliver] in E. unfold mbind, prog_bind, gets in E.
  destruct (w_asyncs w !! a) as [rq|] eqn:Ha; [|done]. cbn in E. unfold modify in E.
  set (w1 := set_w_asyncs (delete a (w_asyncs w)) w) in E.
  assert (qinv (owe rq 1) w1) as Hq.
  { destruct R as [R L W I D K S O Y B N A T]. exists G. split; try done; simpl.
    - intros x. change (accepted x _) with (accepted x w). rewrite L. unfold called, queued, writing. simpl.
      rewrite (total_delete _ _ a rq Ha). unfold owe, one. repeat case_decide; congruence || lia.
    - intros b x rx [_ Hb]%lookup_delete_Some. by apply (S b x rx).
    - intros b x [_ Hb]%lookup_delete_Some. by apply A. }
  unfold pc__async_write_cb, mbind at 1, prog_bind at 1 in E.
  destruct (uv_close (HAsync a) w1) as [[w2 []]| |] eqn:Ec; [|done..].
  assert (keeps (M := M) qframe (uv_close (HAsync a))) as Hk by qframe_auto.
  destruct (Hk _ _ _ Ec (q_wf _ _ _ R)) as (_ & _ & _ & Er & _).
  assert (qinv (owe rq 1) w2) as Hq2 by (by eapply qinv_frame, Hk).
  destruct (w_reqs w2 !! rq) as [r|] eqn:Hr;
    [|unfold get_req, mbind, prog_bind, gets in E; by rewrite Hr in E].
  assert (hoare (held rq r) (r ← get_req rq; _ ← deref (rq_msg r);
    match rq_type r with
    | PC_NOTIFY => pc__notify X rq 0
    | PC_REQUEST => pc__request X rq 0
    | PC_CONNECT => modify (λ w : world M, set_w_reqs (delete rq (w_reqs w)) w)
    end) (λ _, settled)) as Hh; [|by eapply Hh].
  apply held_get. eapply hoare_bind; [apply held_frame; qframe_auto|]. intros ?.
  rewrite Er in Hr. destruct (rq_type r) eqn:Ht.
  - by destruct (q_type _ _ _ R rq r Hr).
  - apply q_request_cb; [done|]. by apply (q_sent _ _ _ R a rq r).
  - apply q_notify_cb.
Qed.

(** ** Completed writes *)

(** The write of a notify: its callback is due. *)
Lemma q_on_notify n tp rq st w w' u :
  settled w → w_pending w !! n = Some (tp, UvNotify rq) →
  pc__on_notify rq st (set_w_pending (delete n (w_pending w)) w) = Val (w', u) → settled w'.
Proof.
  intros [G [R L W I D K S O Y B N A T]] Hp E. set (w1 := set_w_pending _ w) in E.
  assert (qinv (owe rq 1) w1) as Hq.
  { exists G. split; try done; simpl.
    - intros x. change (accepted x _) with (accepted x w). rewrite L. unfold called, queued, writing. simpl.
      rewrite (total_delete (write_of x) _ n _ Hp). unfold write_of at 1. simpl. unfold owe, one.
      repeat case_decide; congruence || lia.
    - intros m Hm. simpl in Hm. apply lookup_delete_is_Some in Hm as [_ Hm]. by apply W. }
  assert (hoare (qinv (owe rq 1)) (pc__on_notify (M := M) rq st) (λ _, settled)) as Hh; [|by eapply Hh].
  unfold pc__on_notify. do 4 (eapply hoare_bind; [apply hoare_qframe; qframe_auto|intros ?]).
  case_match; apply pay_notify.
Qed.

(** Other requests of the loop are not counted. *)
Lemma q_pop n p w :
  settled w → w_pending w !! n = Some p → (∀ rq, p.2 ≠ UvNotify rq) →
  settled (set_w_pending (delete n (w_pending w)) w).
Proof.
  intros [G [R L W I D K S O Y B N A T]] Hp Hne. exists G. split; try done; simpl.
  - intros x. change (accepted x _) with (accepted x w). rewrite L. unfold called, queued, writing. simpl.
    rewrite (total_delete (write_of x) _ n _ Hp). unfold write_of at 1.
    destruct p as [tp r]. simpl in *. destruct r; try lia. by destruct (Hne req).
  - intros m Hm. simpl in Hm. apply lookup_delete_is_Some in Hm as [_ Hm]. by apply W.
Qed.

(** The write of a request, with its transport working and, after an error,
    still waiting for its response. *)
Lemma q_on_request rq st w w' u :
  settled w →
  (∀ r tp t, w_reqs w !! rq = Some r → rq_transport r = Some tp → w_transports w !! tp = Some t →
     tp_state t = PC_TP_ST_WORKING ∧
     (st = -1 → sm_get (c_requests (w_client w)) (sprintf_u (rq_id r)) = Val (Some rq))) →
  pc__on_request rq st w = Val (w', u) → settled w'.
Proof.
  intros [G R] Hd E. unfold pc__on_request, get_req, mbind, prog_bind, gets in E.
  destruct (w_reqs w !! rq) as [r|] eqn:Hr; [|done]. cbn in E. unfold mret, prog_ret in E.
  destruct (rq_transport r) as [tp|] eqn:Htp; [|done]. cbn in E.
  unfold get_transport, mbind, prog_bind, gets in E.
  destruct (w_transports w !! tp) as [t|] eqn:Ht; [|done]. cbn in E.
  destruct (Hd r tp t eq_refl Htp Ht) as [Hs Hg]. unfold touch_time, modify in E.
  rewrite decide_False in E by (intros Hc; by apply Hc). set (w1 := set_w_last_update _ w) in E.
  assert (qrep (λ _, 0) w1 G) as R1 by (eapply qrep_frame; [exact R|by apply qframe_same]).
  revert E. destruct (st =? -1) eqn:Est; intros E; [|injection E as <- <-; by exists G].
  destruct (requests_del _ w1) as [[w2 []]| |] eqn:Edel; [|done..].
  eapply pay_request; [|exact E]. eapply q_del; [exact R1| |exact Edel].
  rewrite (sm_get_ok _ _ _ _ (q_rep _ _ _ R)) in Hg. specialize (Hg ltac:(lia)). by injection Hg.
Qed.

(** ** Creation and release *)

Lemma q_new_req ty : ty ≠ PC_CONNECT → keeps (M := M) keeps_q (skip (new_tcp_req ty)).
Proof.
  intros Hty. unfold skip, new_tcp_req. keeps_step; [|keeps_auto].
  keeps_step; [apply qframe_q; qframe_auto|]. keeps_step; [keeps_auto|].
  intros w w' o E [G [R L W I D K S O Y B N A T]].
  unfold mbind, prog_bind, new_block, put_req, modify, mret, prog_ret in E. injection E as <- <-.
  set (rq := w_next w). set (r' := mkReq _ _ _ _ _).
  assert (∀ x rx, <[rq := r']> (w_reqs w) !! x = Some rx →
    (x = rq ∧ rx = r') ∨ (x ≠ rq ∧ w_reqs w !! x = Some rx)) as Hx.
  { intros x rx Hl. destruct (decide (x = rq)) as [->|Hne].
    - rewrite lookup_insert_eq in Hl. injection Hl as <-. by left.
    - rewrite lookup_insert_ne in Hl by done. by right. }
  exists G. split; try done; simpl.
  - intros n Hs%W. simpl. lia.
  - intros x rx [[-> ->]|[_ Hl]]%Hx Ht; [simpl; lia|]. by apply (I x rx).
  - intros x x' rx rx' [[-> ->]|[Hn Hl]]%Hx H1 [[-> ->]|[Hn' Hl']]%Hx H2 He Hp; simpl in *; try lia.
    by apply (D x x' rx rx').
  - intros k rq' Hk. destruct (K k rq' Hk) as (i & Hi & -> & Hu). exists i. split; [lia|]. split; [done|].
    intros x rx [[-> ->]|[Hn Hl]]%Hx H1 H2; [simpl in H2; lia|]. by apply (Hu x rx).
  - intros b x rx Ha [[-> ->]|[Hn Hl]]%Hx H1; [|by apply (S b x rx)].
    destruct (A b rq Ha). unfold rq in *. lia.
  - intros x rx [[-> ->]|[Hn Hl]]%Hx H1; [|by apply (O x rx)].
    change (accepted rq _) with (accepted rq w). destruct (decide (0 < accepted rq w)%nat) as [Hc|]; [|lia].
    apply T in Hc. unfold rq in Hc. lia.
  - intros x rx [[-> ->]|[Hn Hl]]%Hx; [done|]. by apply (Y x).
  - intros x [rx Hl]. destruct (Hx x rx Hl) as [[-> _]|[_ Hl']]; [unfold rq; lia|].
    assert (x < w_next w)%positive by (apply N; by exists rx). lia.
  - intros b x Ha. destruct (A b x Ha). lia.
  - intros x Hs. apply T in Hs. lia.
Qed.

Lemma q_destroy rq : keeps (M := M) keeps_q (destroy_tcp_req rq).
Proof.
  unfold destroy_tcp_req. keeps_step; [apply qframe_q; qframe_auto|]. apply keeps_modify.
  intros w [G [R L W I D K S O Y B N A T]]. exists G. split; try done; simpl.
  - intros x r [_ Hx]%lookup_delete_Some. by apply (I x r).
  - intros x x' r r' [_ Hx]%lookup_delete_Some H1 [_ Hx']%lookup_delete_Some. by apply (D x x' r r').
  - intros k rq' Hk. destruct (K k rq' Hk) as (i & Hi & -> & Hu). exists i. split; [done|]. split; [done|].
    intros x rx [_ Hx]%lookup_delete_Some. by apply (Hu x rx).
  - intros b x r Ha [_ Hx]%lookup_delete_Some. by apply (S b x r).
  - intros x r [_ Hx]%lookup_delete_Some. by apply (O x r).
  - intros x r [_ Hx]%lookup_delete_Some. by apply (Y x r).
  - intros x [_ Hx]%lookup_delete_is_Some. by apply N.
Qed.

(** ** Runs *)

(** How requests are used: an accepted request is not submitted again, a request
    is not sent as a notify or the other way round, fewer than 2^32 ids are
    given; and the write of a request completes while its transport works, a
    failed one before its response has arrived. *)
Definition disciplined w (e : event) : Prop :=
  match e with
  | URequest rq _ _ =>
      (OAccepted rq ∉ w_trace w) ∧ (∃ r, w_reqs w !! rq = Some r ∧ rq_type r = PC_REQUEST) ∧
      w_req_id w < 2 ^ 32 - 1
  | UNotify rq _ _ => ∃ r, w_reqs w !! rq = Some r ∧ rq_type r = PC_NOTIFY
  | LReq n st =>
      ∀ tp' rq r tp t, w_pending w !! n = Some (tp', UvRequest rq) → w_reqs w !! rq = Some r →
        rq_transport r = Some tp → w_transports w !! tp = Some t →
        tp_state t = PC_TP_ST_WORKING ∧
        (st = -1 → sm_get (c_requests (w_client w)) (sprintf_u (rq_id r)) = Val (Some rq))
  | _ => True
  end.

Inductive reach_disciplined (w0 : world M) : world M → Prop :=
  | rd_refl : reach_disciplined w0 w0
  | rd_step w e w' : reach_disciplined w0 w → enabled w e = true → disciplined w e →
      deliver X e w = Val (w', tt) → reach_disciplined w0 w'.

Lemma accepted_zero rq w : OAccepted rq ∉ w_trace w → accepted rq w = 0%nat.
Proof.
  unfold accepted. generalize (w_trace w). intros l. induction l as [|o l IH]; [done|].
  rewrite not_elem_of_cons. intros [Ho Hl]. simpl. rewrite IH by done. unfold accept_of, one.
  destruct o; try done. case_decide; [congruence|done].
Qed.

Lemma q_deliver e w w' :
  settled w → disciplined w e → deliver X e w = Val (w', tt) → settled w'.
Proof.
  intros HQ Hd E. assert (keeps (M := M) keeps_q (deliver X e) → settled w') as Hk.
  { intros Hk. by eapply Hk. }
  destruct e as [n st|a| |tp d|t|h| | | | | | | | | |rq rt m|rq rt m|rq| | | | | | | |].
  all: try (apply Hk; cbn [deliver]; unfold skip, pc_client_connect_wait, pc_client_connect,
       pc_client_connect2, pc_client_connect4, pc_client_connect3, pc__worker_exit, pc_client_disconnect,
       pc__close_async_cb, pc_proto_init, pc_proto_init2, on_listeners; unfold_handlers; by keeps_auto).
  - cbn [deliver] in E. unfold mbind, prog_bind, gets in E.
    destruct (w_pending w !! n) as [[tp' r]|] eqn:Hp; [|done]. cbn in E. unfold modify in E.
    pose proof (λ H, q_pop n (tp', r) w HQ Hp H) as Hpop. cbn [snd] in Hpop.
    destruct r as [tp cn|tp|tp|tp|rq|rq]; cbn [deliver_req] in E;
      [| | | | |eapply q_on_notify; [exact HQ|exact Hp|exact E]]; specialize (Hpop ltac:(done)).
    + exact (q_on_tcp_connect tp cn st _ _ _ E Hpop).
    + exact (proj1 (q_handshake_cbs tp st) _ _ _ E Hpop).
    + exact (proj2 (q_handshake_cbs tp st) _ _ _ E Hpop).
    + eapply qinv_frame; [exact Hpop|].
      assert (keeps (M := M) qframe (pc__heartbeat_req_cb tp st)) as Hh
        by (unfold pc__heartbeat_req_cb; qframe_auto). by eapply Hh.
    + eapply q_on_request; [exact Hpop| |exact E]. intros r tp t. by apply (Hd tp' rq r tp t).
  - by eapply q_async_cb.
  - eapply q_on_read; [exact E|done].
  - eapply q_timer; [exact E|done].
  - apply Hk. by apply q_new_req.
  - apply Hk. by apply q_new_req.
  - destruct Hd as (Hna & Hr & Hid). eapply q_request; [exact HQ|by apply accepted_zero|exact Hr|exact Hid|exact E].
  - by eapply q_notify.
  - apply Hk. by apply q_destroy.
Qed.

Lemma settled_new reconnect hcb oracle w0 : new_world (M := M) reconnect hcb oracle = Val w0 → settled w0.
Proof.
  intros E. unfold new_world, pc__client_init in E. exec_inv. simplify_eq/=.
  match goal with H : sm_new positive = Val _ |- _ => rename H into Em end.
  destruct (sm_new_ok (M := M) positive) as (m & Em' & R). rewrite Em in Em'. injection Em' as <-.
  exists ∅. split; simpl; try done.
  - intros n [x Hx]. done.
  - intros rq [x Hx]. done.
  - intros rq Hs. unfold accepted in Hs. simpl in Hs. lia.
Qed.

Lemma reach_settled reconnect hcb oracle w0 w :
  new_world reconnect hcb oracle = Val w0 → reach_disciplined w0 w → settled w.
Proof.
  intros E. apply settled_new in E. induction 1 as [|w e w' _ IH He Hd Ed]; [done|]. by eapply q_deliver.
Qed.

(** The same condition, executable. *)
Definition disciplined_b w (e : event) : bool :=
  match e with
  | URequest rq _ _ =>
      forallb (λ o, bool_decide (accept_of rq o = 0%nat)) (w_trace w) && (w_req_id w <? 2 ^ 32 - 1) &&
      match w_reqs w !! rq with Some r => bool_decide (rq_type r = PC_REQUEST) | None => false end
  | UNotify rq _ _ =>
      match w_reqs w !! rq with Some r => bool_decide (rq_type r = PC_NOTIFY) | None => false end
  | LReq n st =>
      match w_pending w !! n with
      | Some (_, UvRequest rq) =>
          match w_reqs w !! rq with
          | Some r =>
              match rq_transport r ≫= (w_transports w !!.) with
              | Some t =>
                  bool_decide (tp_state t = PC_TP_ST_WORKING) &&
                  (negb (st =? -1) ||
                   match sm_get (c_requests (w_client w)) (sprintf_u (rq_id r)) with
                   | Val (Some rq') => bool_decide (rq' = rq)
                   | _ => false
                   end)
              | None => true
              end
          | None => true
          end
      | _ => true
      end
  | _ => true
  end.

Lemma disciplined_b_ok w e : disciplined_b w e = true → disciplined w e.
Proof.
  destruct e; simpl; try done.
  - intros H tp' rq r tp t Hp Hr Htp Ht. rewrite Hp, Hr, Htp in H. simpl in H. rewrite Ht in H.
    apply andb_true_iff in H as [H1 H2]. apply bool_decide_eq_true in H1. split; [done|]. intros ->.
    cbn in H2. destruct (sm_get _ _) as [[rq'|]| |]; try done. by apply bool_decide_eq_true in H2 as ->.
  - intros [[H1 H2]%andb_true_iff H3]%andb_true_iff. split; [|split; [|lia]].
    + intros Hin. rewrite forallb_forall in H1. apply list_elem_of_In, H1, bool_decide_eq_true in Hin.
      simpl in Hin. by rewrite one_same in Hin.
    + destruct (w_reqs w !! rq) as [r|]; [|done]. apply bool_decide_eq_true in H3. by exists r.
  - intros H. destruct (w_reqs w !! rq) as [r|]; [|done]. apply bool_decide_eq_true in H. by exists r.
Qed.

(** Runs in which every event is. *)
Fixpoint run_disciplined (es : list event) w : bool :=
  match es with
  | [] => true
  | e :: es =>
      disciplined_b w e && match deliver X e w with Val (w, _) => run_disciplined es w | _ => true end
  end.

Lemma run_reach_disciplined w0 es : ∀ w w',
  reach_disciplined w0 w → run_disciplined es w = true → run X es w = Val (Some w') →
  reach_disciplined w0 w'.
Proof.
  induction es as [|e es IH]; intros w w' Hr Hd E; cbn [run] in E; [by injection E as <-|].
  cbn [run_disciplined] in Hd. apply andb_true_iff in Hd as [Hd%disciplined_b_ok Hds].
  destruct (enabled w e) eqn:He; [|done]. destruct (deliver X e w) as [[w1 []]| |] eqn:Ed; [|done..].
  eapply IH; [|exact Hds|exact E]. by eapply rd_step.
Qed.

End Externals.
End Requests.

