(* ===== verification/ClientTimers.v ===== *)
(** * Heartbeat and timeout timers

    A client either waits to send the next heartbeat or waits for the answer to
    the last one: in every world it can reach, at most one of the two timers is
    running. *)

From S2P Require Import Prelude Package StringMap Listeners Backoff Uv Float Jansson Protocol ClientState Client ClientLogic.
Local Open Scope Z_scope.

Section Timers.
Context {M : Type → Type} `{SM : StringMap M}.
Implicit Types (w : world M).

Definition active w (t : timer_id) : bool :=
  match c_timers (w_client w) t with Some tm => timer_active tm | None => false end.

Definition beat (t : timer_id) : Prop := t = HeartbeatTimer ∨ t = TimeoutTimer.

(** Nothing is started. *)
Definition calm w w' : Prop := ∀ t, beat t → active w' t = true → active w t = true.

#[local] Instance calm_preorder : PreOrder calm.
Proof.
  split; [by intros w t Ht|]. intros w1 w2 w3 H12 H23 t Ht Ha. apply H12; [done|]. by apply H23.
Qed.

Lemma calm_same w w' : c_timers (w_client w') = c_timers (w_client w) → calm w w'.
Proof. intros E t _. unfold active. by rewrite E. Qed.

Lemma calm_ask : keeps (M := M) calm ask.
Proof. apply keeps_ask; [apply _|]. intros w o. by apply calm_same. Qed.

Lemma calm_new_block : keeps (M := M) calm new_block.
Proof. apply keeps_new_block. intros w. by apply calm_same. Qed.

Lemma on_timer_effect t f w w' (u : unit) :
  on_timer t f w = Val (w', u) →
  ∃ tm, c_timers (w_client w) t = Some tm ∧ active w' t = timer_active (f tm) ∧
    ∀ t', t' ≠ t → active w' t' = active w t'.
Proof.
  intros E. unfold on_timer, the_client, mbind, prog_bind, gets in E.
  destruct (c_timers (w_client w) t) as [tm|] eqn:Et; [|done]. cbn in E. case_bool_decide; [done|].
  unfold set_timer, upd_client, modify in E. injection E as <- <-. exists tm. split; [done|].
  unfold active. simpl. split; [by rewrite decide_True|]. intros t' Ht. by rewrite decide_False.
Qed.

Lemma calm_on_timer t f :
  (beat t → ∀ tm, timer_active (f tm) = true → timer_active tm = true) → keeps (M := M) calm (on_timer t f).
Proof.
  intros Hf w w' u E t' Hb Ha. apply on_timer_effect in E as (tm & Et & E1 & E2).
  destruct (decide (t' = t)) as [->|Hne]; [|by rewrite <- E2].
  unfold active. rewrite Et. apply Hf; [done|]. by rewrite <- E1.
Qed.

Lemma stop_calm tm : timer_active (uv_timer_stop tm) = true → timer_active tm = true.
Proof. by rewrite stop_inactive. Qed.

Lemma set_repeat_calm z tm : timer_active (uv_timer_set_repeat z tm) = true → timer_active tm = true.
Proof. done. Qed.

Lemma calm_clear t : keeps (M := M) calm (set_timer t None).
Proof.
  apply keeps_modify. intros w t' _. unfold active. simpl. by case_decide.
Qed.

Hint Extern 1 (keeps calm (modify _)) => (apply keeps_modify; intros; by apply calm_same) : keeps.
Hint Extern 1 (keeps calm (upd_client _)) => (apply keeps_modify; intros; by apply calm_same) : keeps.
Hint Extern 1 (keeps calm (observe _)) => (apply keeps_modify; intros; by apply calm_same) : keeps.
Hint Extern 1 (keeps calm (on_timer _ uv_timer_stop)) => (apply calm_on_timer; intros _; apply stop_calm) : keeps.
Hint Extern 1 (keeps calm (on_timer _ (uv_timer_set_repeat _))) =>
  (apply calm_on_timer; intros _; apply set_repeat_calm) : keeps.
Hint Extern 1 (keeps calm (on_timer HandshakeTimer _)) => (apply calm_on_timer; by intros []) : keeps.
Hint Extern 1 (keeps calm (on_timer ReconnectTimer _)) => (apply calm_on_timer; by intros []) : keeps.
Hint Resolve calm_ask calm_new_block calm_clear : keeps.

Lemma calm_release rel : keeps (M := M) calm (release_requests rel).
Proof.
  induction rel as [|[k rq] rel IH]; simpl; unfold pc__release_requests, call_request_cb, get_req; keeps_auto.
Qed.
Hint Resolve calm_release : keeps.

Lemma calm_stop : keeps (M := M) calm pc_client_stop.
Proof.
  unfold pc_client_stop, pc__client_reconnect, pc__client_reconnect_reset. unfold_calm. keeps_auto.
Qed.
Hint Resolve calm_stop : keeps.

(** ** The invariant *)

Definition exclusive w : Prop := active w HeartbeatTimer = true → active w TimeoutTimer = true → False.
Definition keeps_excl w w' : Prop := exclusive w → exclusive w'.

#[local] Instance keeps_excl_preorder : PreOrder keeps_excl.
Proof. split; [by intros w Hw|]. intros w1 w2 w3 H12 H23 H1. by apply H23, H12. Qed.

Lemma calm_excl {A} (m : prog M A) : keeps calm m → keeps keeps_excl m.
Proof.
  intros Hm w w' a E Hx H1 H2. pose proof (Hm _ _ _ E) as C.
  apply Hx; apply C; [by left|done|by right|done].
Qed.

Hint Extern 5 (keeps keeps_excl _) => (apply calm_excl; solve [unfold_calm; keeps_auto]) : keeps.

Lemma excl_heartbeat : keeps (M := M) keeps_excl pc__heartbeat.
Proof.
  intros w w' z E _. unfold pc__heartbeat, mbind, prog_bind in E.
  destruct (on_timer TimeoutTimer uv_timer_stop w) as [[w1 []]| |] eqn:E1; [|done..].
  destruct (on_timer HeartbeatTimer uv_timer_again w1) as [[w2 []]| |] eqn:E2; [|done..].
  injection E as <- <-. apply on_timer_effect in E1 as (tm & _ & E1 & _).
  apply on_timer_effect in E2 as (_ & _ & _ & E2). intros _.
  rewrite E2, E1, stop_inactive by done. done.
Qed.
Hint Resolve excl_heartbeat : keeps.

(** The heartbeat timer has fired and is stopped. *)
Definition quiet w : Prop := active w HeartbeatTimer = false.

Lemma quiet_excl w : quiet w → exclusive w.
Proof. unfold quiet, exclusive. congruence. Qed.

Lemma quiet_calm {A} (m : prog M A) : keeps calm m → hoare quiet m (λ _, quiet).
Proof.
  intros Hm w w' a Hq E. unfold quiet in *. destruct (active w' HeartbeatTimer) eqn:Ea; [|done].
  apply (Hm _ _ _ E) in Ea; [|by left]. congruence.
Qed.

Section Externals.
Context (X : externals).

Lemma excl_heartbeat_timer : keeps (M := M) keeps_excl (deliver_timer X HeartbeatTimer).
Proof.
  intros w w' u E _. unfold deliver_timer in E.
  assert (hoare (M := M) (λ _, True) (on_timer HeartbeatTimer uv__run_timer;; pc__heartbeat_cb 0)
            (λ _, exclusive)) as Hh; [|exact (Hh w w' u I E)].
  apply (hoare_bind _ _ (λ _ _, True)); [done|]. intros []. unfold pc__heartbeat_cb.
  apply (hoare_bind _ _ (λ _, quiet)).
  { intros w1 w2 [] _ E1. apply on_timer_effect in E1 as (tm & _ & E1 & _). unfold quiet.
    by rewrite E1, stop_inactive. }
  intros []. cbn [Z.eqb].
  eapply hoare_bind; [apply quiet_calm; unfold_calm; keeps_auto|]. intros r. case_match.
  - eapply hoare_cons; [apply quiet_calm, calm_stop|done|]. intros ? w1. apply quiet_excl.
  - intros w1 w2 [] Hq E1. apply on_timer_effect in E1 as (tm & _ & _ & E1). apply quiet_excl.
    unfold quiet. by rewrite E1.
Qed.

Lemma excl_timer t : keeps (M := M) keeps_excl (deliver_timer X t).
Proof.
  destruct t; [apply excl_heartbeat_timer| | |].
  - (* the timeout timer is stopped first *)
    intros w w' u E _. unfold deliver_timer, pc__timeout_cb in E.
    assert (hoare (M := M) (λ _, True) (on_timer TimeoutTimer uv__run_timer;; on_timer TimeoutTimer uv_timer_stop)
              (λ _ w, active w TimeoutTimer = false)) as Hh.
    { apply (hoare_bind _ _ (λ _ _, True)); [done|]. intros [] w1 w2 [] _ E1.
      apply on_timer_effect in E1 as (tm & _ & E1 & _). by rewrite E1, stop_inactive. }
    unfold mbind, prog_bind in E. unfold mbind, prog_bind in Hh.
    destruct (on_timer TimeoutTimer uv__run_timer w) as [[w1 []]| |] eqn:E1; [|done..].
    destruct (on_timer TimeoutTimer uv_timer_stop w1) as [[w2 []]| |] eqn:E2; [|done..].
    assert (active w2 TimeoutTimer = false) as Hoff by (apply (Hh w w2 tt I); by rewrite E1).
    assert (keeps (M := M) calm (when (negb (0 =? -1)) (emit_event PC_EVENT_TIMEOUT NoData);; pc_client_stop)) as Hk
      by (unfold_calm; keeps_auto).
    intros _ Hto. apply (Hk _ _ _ E) in Hto; [congruence|by right].
  - apply calm_excl. unfold deliver_timer, pc__handshake_timeout_cb. unfold_calm. keeps_auto.
  - apply calm_excl. unfold deliver_timer, pc__client_reconnect_timer_cb, pc_connect. unfold_calm. keeps_auto.
Qed.
Hint Resolve excl_timer : keeps.

Lemma excl_handshake_resp d : keeps (M := M) keeps_excl (pc__handshake_resp X d).
Proof. unfold pc__handshake_resp. keeps_auto. Qed.
Hint Resolve excl_handshake_resp : keeps.

Lemma excl_pkg_cb ty d : keeps (M := M) keeps_excl (pc__pkg_cb X ty d).
Proof. unfold pc__pkg_cb, pc__data, pc__process_response. keeps_auto. Qed.

Lemma excl_on_read tp d : keeps (M := M) keeps_excl (pc_tp_on_tcp_read X tp d).
Proof.
  assert (∀ data, keeps (M := M) keeps_excl (pc_client_on_tcp_read X data)) as Hr.
  { intros data. unfold pc_client_on_tcp_read. keeps_step; [|by keeps_auto].
    intros w w' b E Hi. eapply (feed_keeps X exclusive); [| |exact Hi|exact E].
    - by intros p w1 Hi1.
    - intros ty body w1 w2 [] Hi1 E1. by eapply excl_pkg_cb. }
  unfold pc_tp_on_tcp_read. keeps_auto.
Qed.
Hint Resolve excl_on_read : keeps.

Lemma excl_connect_cb cn st : keeps (M := M) calm (call_connect_cb cn st).
Proof.
  unfold call_connect_cb, pc__client_connected_cb, pc__client_connect3_cb, pc__client_reconnected_cb.
  unfold_calm. keeps_auto.
Qed.
Hint Resolve excl_connect_cb : keeps.

Lemma calm_deliver_req r st : keeps (M := M) calm (deliver_req X r st).
Proof.
  unfold deliver_req, pc__on_tcp_connect, pc__handshake_req_cb, pc__handshake_ack_cb, finish_connect,
    pc__heartbeat_req_cb, pc__on_request, pc__on_notify. unfold_calm. keeps_auto.
Qed.
Hint Resolve calm_deliver_req : keeps.

Lemma calm_connect cn o cb : keeps (M := M) calm (pc_connect cn o cb).
Proof. unfold pc_connect. unfold_calm. keeps_auto. Qed.
Hint Resolve calm_connect : keeps.

Lemma excl_deliver e : keeps (M := M) keeps_excl (deliver X e).
Proof.
  destruct e; cbn [deliver]; try (by auto with keeps); apply calm_excl;
    unfold skip, pc_client_connect_wait, pc_client_connect, pc_client_connect2, pc_client_connect4,
      pc_client_connect3, pc__worker_exit, pc_client_disconnect, pc__close_async_cb, pc_proto_init,
      pc_proto_init2, on_listeners, pc_request, pc_notify, pc__async_write, pc__async_write_cb, pc__request,
      pc__notify, send_data, pc_request_new, pc_notify_new, new_tcp_req, destroy_tcp_req;
    unfold_calm; by keeps_auto.
Qed.

End Externals.
End Timers.

(** C37 (invariant). In every world a client reaches, the heartbeat timer and the
    timeout timer do not run at the same time: it either waits to send a
    heartbeat or waits for the answer to one. *)
Theorem heartbeat_exclusive (M : Type → Type) (SM : StringMap M) (X : externals)
    (reconnect : option reconnect_conf) (handshake_cb : bool) (oracle : list Z) (w0 w : world M) :
  new_world reconnect handshake_cb oracle = Val w0 → reach X w0 w →
  active w HeartbeatTimer && active w TimeoutTimer = false.
Proof.
  intros E Hr. assert (exclusive w) as Hx.
  { assert (exclusive w0) as H0.
    { unfold new_world, pc__client_init in E. exec_inv. by simplify_eq/=. }
    clear E. induction Hr as [|w e w' _ IH He Ed]; [done|]. by eapply excl_deliver. }
  unfold exclusive in Hx. destruct (active w HeartbeatTimer), (active w TimeoutTimer); try done.
  by destruct Hx.
Qed.
