(* ===== verification/ClientStop.v ===== *)
(** * Stopping a client

    [pc_client_stop] closes the handles of the client one by one, and closing a
    handle twice is an assertion failure in libuv; it is reached from callbacks
    of the loop, from errors and from the user. In every world a client without
    reconnection can reach it succeeds, and a client stopped after it began to connect
    stays closed in every run that is defined. *)

From S2P Require Import Prelude Package StringMap Listeners Backoff Uv Float Jansson Protocol ClientState Client ClientLogic ClientInv.
Local Open Scope Z_scope.

Section Stop.
Context {M : Type → Type} `{SM : StringMap M}.
Implicit Types (w : world M).

Definition dead_handle w (h : uv_handle) : Prop := h ∈ w_closing w ++ w_closed w.

(** ** Handles the client still points to are open *)

Definition handles w : Prop :=
  (∀ t, t ≠ ReconnectTimer → is_Some (c_timers (w_client w) t) → ¬ dead_handle w (HTimer t)) ∧
  (is_Some (c_close_async (w_client w)) → ¬ dead_handle w HCloseAsync).

(** What a client keeps for life. *)
Definition same_conf w w' : Prop :=
  c_enable_reconnect (w_client w') = c_enable_reconnect (w_client w) ∧ c_conf (w_client w') = c_conf (w_client w) ∧
  (is_Some (c_timers (w_client w') ReconnectTimer) ↔ is_Some (c_timers (w_client w) ReconnectTimer)).

#[local] Instance same_conf_preorder : PreOrder same_conf.
Proof.
  split; [by split|]. intros w1 w2 w3 (E1 & E2 & E3) (F1 & F2 & F3).
  split; [congruence|]. split; [congruence|]. by rewrite F3.
Qed.

Definition keeps_handles w w' : Prop := same_conf w w' ∧ (handles w → handles w').

#[local] Instance keeps_handles_preorder : PreOrder keeps_handles.
Proof.
  split; [by split|]. intros w1 w2 w3 [E12 H12] [E23 H23]. split; [by etrans|]. auto.
Qed.

Lemma handles_weaken w w' :
  same_conf w w' →
  (∀ t, is_Some (c_timers (w_client w') t) → is_Some (c_timers (w_client w) t)) →
  (is_Some (c_close_async (w_client w')) → is_Some (c_close_async (w_client w))) →
  (∀ h, (∃ t, t ≠ ReconnectTimer ∧ h = HTimer t) ∨ h = HCloseAsync → dead_handle w' h → dead_handle w h) →
  keeps_handles w w'.
Proof.
  intros E Ht Ha Hd. split; [done|]. intros [H1 H2]. split.
  - intros t Hr Hs Hx. apply (H1 t); [done|by apply Ht|]. apply Hd; [left; by exists t|done].
  - intros Hs Hx. apply H2; [by apply Ha|]. apply Hd; [by right|done].
Qed.

Lemma handles_same w w' :
  c_enable_reconnect (w_client w') = c_enable_reconnect (w_client w) → c_conf (w_client w') = c_conf (w_client w) →
  c_timers (w_client w') = c_timers (w_client w) → c_close_async (w_client w') = c_close_async (w_client w) →
  w_closing w' = w_closing w → w_closed w' = w_closed w → keeps_handles w w'.
Proof.
  intros E E0 E1 E2 E3 E4. apply handles_weaken; [split; [done|by rewrite E1]|..]; unfold dead_handle; rewrite ?E1, ?E2, ?E3, ?E4; auto.
Qed.

Hint Extern 1 (keeps keeps_handles (modify _)) => (apply keeps_modify; intros; by apply handles_same) : keeps.
Hint Extern 1 (keeps keeps_handles (upd_client _)) => (apply keeps_modify; intros; by apply handles_same) : keeps.
Hint Extern 1 (keeps keeps_handles (observe _)) => (apply keeps_modify; intros; by apply handles_same) : keeps.

Lemma handles_ask : keeps (M := M) keeps_handles ask.
Proof. apply keeps_ask; [apply _|]. intros w o. by apply handles_same. Qed.

Lemma handles_new_block : keeps (M := M) keeps_handles new_block.
Proof. apply keeps_new_block. intros w. by apply handles_same. Qed.

Lemma handles_on_timer t f : keeps (M := M) keeps_handles (on_timer t f).
Proof.
  intros w w' [] E. unfold on_timer, the_client, mbind, prog_bind, gets in E.
  destruct (c_timers (w_client w) t) as [tm|] eqn:Et; [|done]. cbn in E. case_bool_decide; [done|].
  unfold set_timer, upd_client, modify in E. injection E as <-.
  assert (∀ t', is_Some (c_timers (w_client w) t') ↔ is_Some (if decide (t' = t) then Some (f tm) else c_timers (w_client w) t')) as Hs.
  { intros t'. case_decide as Ht; [|done]. subst t'. rewrite Et. split; by eexists. }
  apply handles_weaken; [split; [done|split; [done|simpl; by rewrite <- Hs]]|intros t'; simpl; apply Hs|done|done].
Qed.

(** Sockets, wake-ups and the reconnection timer can be closed freely. *)
Lemma handles_push h :
  (∀ t, h = HTimer t → t = ReconnectTimer) → h ≠ HCloseAsync →
  keeps (M := M) keeps_handles (modify (λ w, set_w_closing (w_closing w ++ [h]) w)).
Proof.
  intros H1 H2. apply keeps_modify. intros w. apply handles_weaken; simpl; try done.
  unfold dead_handle. simpl. intros h' Hh'. rewrite !elem_of_app, list_elem_of_singleton.
  intros [[?| ->]|?]; [by left| |by right]. destruct Hh' as [(t & Ht & ->)| ->]; [|done].
  by destruct Ht; apply H1.
Qed.

Lemma handles_close h :
  (∀ t, h = HTimer t → t = ReconnectTimer) → h ≠ HCloseAsync → keeps (M := M) keeps_handles (uv_close h).
Proof. intros H1 H2. unfold uv_close. keeps_auto. by apply handles_push. Qed.
Hint Extern 2 (keeps keeps_handles (modify _)) => (apply handles_push; [by intros ? [=]|done]) : keeps.
Hint Extern 1 (keeps keeps_handles (uv_close _)) => (apply handles_close; [by intros ? [=]|done]) : keeps.
Hint Resolve handles_ask handles_new_block handles_on_timer : keeps.

(** The other two kinds are closed and forgotten. *)
Lemma handles_forget w w' h :
  (∀ x, dead_handle w' x → dead_handle w x ∨ x = h) → same_conf w w' →
  (∀ t, is_Some (c_timers (w_client w') t) → is_Some (c_timers (w_client w) t) ∧ h ≠ HTimer t) →
  (is_Some (c_close_async (w_client w')) → is_Some (c_close_async (w_client w)) ∧ h ≠ HCloseAsync) →
  keeps_handles w w'.
Proof.
  intros Hd E Ht Ha. split; [done|]. intros [H1 H2]. split.
  - intros t Hr [Hs Hh]%Ht [Hx|Hx]%Hd; [by apply (H1 t)|congruence].
  - intros [Hs Hh]%Ha [Hx|Hx]%Hd; [by apply H2|congruence].
Qed.

Lemma closing_app w h x cl :
  dead_handle (set_w_client cl (set_w_closing (w_closing w ++ [h]) w)) x → dead_handle w x ∨ x = h.
Proof. unfold dead_handle. simpl. rewrite !elem_of_app, list_elem_of_singleton. tauto. Qed.

Lemma handles_close_timer t k :
  t ≠ ReconnectTimer → keeps keeps_handles k → keeps (M := M) keeps_handles (close_timer t k).
Proof.
  intros Hr Hk w w' a E. unfold close_timer, the_client, mbind, prog_bind, gets in E.
  destruct (c_timers (w_client w) t) as [tm|] eqn:Et; [|by injection E as <- <-].
  unfold uv_close, mbind, prog_bind, gets in E. case_bool_decide; [done|].
  unfold set_timer, upd_client, modify in E. etrans; [|by eapply Hk].
  apply (handles_forget _ _ (HTimer t)); [intros x; apply closing_app| | |done].
  { split; [done|]. split; [done|]. simpl. by rewrite decide_False. }
  intros t'. simpl. case_decide as Ht; [by intros []|]. intros Hs. split; [done|congruence].
Qed.
Hint Extern 1 (keeps keeps_handles (mret _)) => (refine (keeps_ret _ _)) : keeps.
Hint Extern 1 (keeps keeps_handles (close_timer _ _)) => (apply handles_close_timer; [done|]) : keeps.

Lemma handles_close_async :
  keeps (M := M) keeps_handles (uv_close HCloseAsync;; upd_client (set_c_close_async None)).
Proof.
  intros w w' [] E. unfold uv_close, mbind, prog_bind, gets in E. case_bool_decide; [done|].
  unfold upd_client, modify in E. injection E as <-.
  apply (handles_forget _ _ HCloseAsync); [intros x; apply closing_app|done|done|by intros []].
Qed.
Hint Resolve handles_close_async : keeps.

Lemma handles_release rel : keeps (M := M) keeps_handles (release_requests rel).
Proof.
  induction rel as [|[k rq] rel IH]; simpl; unfold pc__release_requests, call_request_cb, get_req; keeps_auto.
Qed.
Hint Resolve handles_release : keeps.

Lemma handles_stop : keeps (M := M) keeps_handles pc_client_stop.
Proof.
  unfold pc_client_stop, pc__client_reconnect, pc__client_reconnect_reset, stop_if, drop_transport,
    pc_transport_destroy, get_transport, put_transport, requests_clear.
  repeat first [exact handles_close_async|keeps_step].
Qed.
Hint Resolve handles_stop : keeps.

Lemma handles_disconnect : keeps (M := M) keeps_handles pc_client_disconnect.
Proof.
  intros w w' [] E. unfold pc_client_disconnect, the_client, upd_client, modify, gets, mbind, prog_bind in E.
  cbn in E. destruct (c_close_async (w_client w)) as [b|] eqn:Ea; [|done]. cbn in E. injection E as <-.
  apply handles_weaken; simpl; done || by rewrite Ea.
Qed.
Hint Resolve handles_disconnect : keeps.

Section Externals.
Context (X : externals).

Lemma handles_handshake_resp d : keeps (M := M) keeps_handles (pc__handshake_resp X d).
Proof. unfold pc__handshake_resp, pc__heartbeat. unfold_calm. keeps_auto. Qed.

Lemma handles_pkg_cb ty d : keeps (M := M) keeps_handles (pc__pkg_cb X ty d).
Proof.
  pose proof handles_handshake_resp. unfold pc__pkg_cb, pc__data, pc__process_response, pc__heartbeat.
  unfold_calm. keeps_auto.
Qed.

(** Feeding the parser, for a relation. *)
Lemma feed_keeps_rel R `{!PreOrder R} :
  (∀ p w, R w (set_w_client (set_c_parser p (w_client w)) w)) →
  (∀ ty body, keeps R (pc__pkg_cb X ty body)) →
  ∀ data, keeps (M := M) R (λ w, pc_pkg_parser_feed (PH := client_host X) w data).
Proof.
  intros Hset Hcb data w w' b E. eapply (feed_keeps X (R w)); [| |reflexivity|exact E].
  - intros p w1 H1. etrans; [exact H1|apply Hset].
  - intros ty body w1 w2 [] H1 E1. etrans; [exact H1|by eapply Hcb].
Qed.

Lemma handles_on_read tp d : keeps (M := M) keeps_handles (pc_tp_on_tcp_read X tp d).
Proof.
  assert (∀ data, keeps (M := M) keeps_handles (λ w, pc_pkg_parser_feed (PH := client_host X) w data)) as Hf.
  { apply feed_keeps_rel; [apply _|intros; by apply handles_same|apply handles_pkg_cb]. }
  unfold pc_tp_on_tcp_read, pc_client_on_tcp_read. unfold_calm. keeps_auto.
Qed.
Hint Resolve handles_on_read : keeps.

Lemma handles_connect_cb cn st : keeps (M := M) keeps_handles (call_connect_cb cn st).
Proof.
  unfold call_connect_cb, pc__client_connected_cb, pc__client_connect3_cb, pc__client_reconnected_cb.
  unfold_calm. keeps_auto.
Qed.
Hint Resolve handles_connect_cb : keeps.

Lemma handles_deliver_req r st : keeps (M := M) keeps_handles (deliver_req X r st).
Proof.
  unfold deliver_req, pc__on_tcp_connect, pc__handshake_req_cb, pc__handshake_ack_cb, finish_connect,
    pc__heartbeat_req_cb, pc__on_request, pc__on_notify. unfold_calm. keeps_auto.
Qed.
Hint Resolve handles_deliver_req : keeps.

Lemma handles_connect cn o cb : keeps (M := M) keeps_handles (pc_connect cn o cb).
Proof. unfold pc_connect. unfold_calm. keeps_auto. Qed.
Hint Resolve handles_connect : keeps.

Lemma handles_timer t : keeps (M := M) keeps_handles (deliver_timer X t).
Proof.
  unfold deliver_timer, pc__heartbeat_cb, pc__timeout_cb, pc__handshake_timeout_cb,
    pc__client_reconnect_timer_cb. unfold_calm. keeps_auto.
Qed.
Hint Resolve handles_timer : keeps.

Lemma handles_deliver e w w' :
  enabled w e = true → deliver X e w = Val (w', tt) → keeps_handles w w'.
Proof.
  intros He E. assert (keeps (M := M) keeps_handles (deliver X e) → keeps_handles w w') as Hk.
  { intros Hk. by eapply Hk. }
  destruct e;
    try (apply Hk; cbn [deliver]; unfold skip, pc_client_connect_wait, pc_client_connect, pc_client_connect2,
      pc_client_connect4, pc_client_connect3, pc__worker_exit, pc_proto_init, pc_proto_init2, on_listeners,
      pc_request, pc_notify, pc__async_write, pc__async_write_cb, pc__request, pc__notify, send_data,
      pc_request_new, pc_notify_new, new_tcp_req, destroy_tcp_req; unfold_calm; by keeps_auto).
  - (* the wake-up was pending, so the handle is there *)
    cbn [deliver enabled] in *. apply bool_decide_eq_true in He.
    unfold mbind, prog_bind, upd_client, modify, pc__close_async_cb in E. etrans; [|by eapply handles_stop].
    apply handles_weaken; simpl; done || by rewrite He.
  - (* a closing handle becomes a closed one *)
    cbn [deliver enabled] in *. apply andb_true_iff in He as [Hh _]. apply bool_decide_eq_true in Hh.
    unfold mbind at 1 2, prog_bind at 1 2, modify in E. etrans; [|].
    2: { assert (keeps (M := M) keeps_handles (match h with HSocket tp => pc__tcp_close_cb tp | _ => mret tt end)) as Hc
           by (unfold_calm; keeps_auto). by eapply Hc. }
    apply handles_weaken; simpl; try done. unfold dead_handle. simpl. intros x _.
    rewrite !elem_of_app, elem_of_cons, list_elem_of_filter. intros [[_ ?]|[->|?]]; auto.
Qed.

Lemma handles_new reconnect hcb oracle w0 :
  new_world (M := M) reconnect hcb oracle = Val w0 →
  handles w0 ∧ c_enable_reconnect (w_client w0) = match reconnect with Some _ => true | None => false end ∧
  c_conf (w_client w0) = default (mkConf 0 0 false 0) reconnect ∧
  (is_Some (c_timers (w_client w0) ReconnectTimer) ↔ is_Some reconnect).
Proof.
  intros E. unfold new_world, pc__client_init in E. exec_inv. simplify_eq/=.
  split; [|split; [done|split; [done|destruct reconnect; split; intros [? [=]]; by eexists]]]. split; intros; unfold dead_handle; simpl; apply not_elem_of_nil.
Qed.

Lemma reach_handles reconnect hcb oracle w0 w :
  new_world reconnect hcb oracle = Val w0 → reach X w0 w →
  handles w ∧ c_enable_reconnect (w_client w) = match reconnect with Some _ => true | None => false end ∧
  c_conf (w_client w) = default (mkConf 0 0 false 0) reconnect ∧
  (is_Some (c_timers (w_client w) ReconnectTimer) ↔ is_Some reconnect).
Proof.
  intros E%handles_new. induction 1 as [|w e w' _ (IH1 & IH2 & IH3 & IH4) He Ed]; [done|].
  destruct (handles_deliver e w w' He Ed) as [(E1 & E2 & E3) Hh].
  split; [auto|]. split; [congruence|]. split; [congruence|]. by rewrite E3.
Qed.
End Externals.

(** ** Stopping *)

(** What a stop closes, in the order of the code. *)
Definition open_handles w : list uv_handle :=
  let c := w_client w in
  match c_transport c with Some tp => [HSocket tp] | None => [] end ++
  omap (λ t, (λ _, HTimer t) <$> c_timers c t) [HeartbeatTimer; TimeoutTimer; HandshakeTimer] ++
  match c_close_async c with Some _ => [HCloseAsync] | None => [] end.

(** What it leaves: nothing the client points to, and the requests, the trace
    and the requests of the loop as they were. *)
Record stopped w w' : Prop := {
  s_state : c_state (w_client w') = PC_ST_CLOSED;
  s_transport : c_transport (w_client w') = None;
  s_timers t : t ≠ ReconnectTimer → c_timers (w_client w') t = None;
  s_async : c_close_async (w_client w') = None;
  s_closing : w_closing w' = w_closing w ++ open_handles w;
  s_socket tp : c_transport (w_client w) = Some tp →
    ∃ r, w_transports w' = <[tp := mkTransport PC_TP_ST_CLOSED r]> (w_transports w);
  s_requests : c_requests (w_client w') = c_requests (w_client w);
  s_rest : w_trace w' = w_trace w ∧ w_pending w' = w_pending w ∧ w_asyncs w' = w_asyncs w ∧ w_reqs w' = w_reqs w
}.

Lemma uv_close_eq h w :
  ¬ dead_handle w h → uv_close h w = Val (set_w_closing (w_closing w ++ [h]) w, tt).
Proof. intros Hh. unfold uv_close, mbind, prog_bind, gets. by rewrite bool_decide_false. Qed.

Lemma drop_eq w :
  base w → drop_transport w = Val
    (match c_transport (w_client w) with
     | Some tp =>
         match w_transports w !! tp with
         | Some t => set_w_client (set_c_transport None (w_client w)) (set_w_closing (w_closing w ++ [HSocket tp])
             (set_w_transports (<[tp := mkTransport PC_TP_ST_CLOSED (tp_reading t)]> (w_transports w)) w))
         | None => w
         end
     | None => w
     end, tt).
Proof.
  intros B. unfold drop_transport, the_client, mbind, prog_bind, gets.
  destruct (c_transport (w_client w)) as [tp|] eqn:Ec; [|done].
  destruct (b_ctp _ B tp Ec) as (t & Ht & Hs). rewrite Ht.
  unfold pc_transport_destroy, mbind at 1, prog_bind at 1. rewrite (get_transport_eq tp w t Ht).
  assert (¬ dead_handle w (HSocket tp)) as Hd.
  { intros [Hx|Hx]%elem_of_app; [|apply (b_closed _ B) in Hx as [Hx _]; congruence].
    destruct (b_sock _ B tp Hx) as (t' & Ht' & Hs'). rewrite Ht in Ht'. injection Ht' as <-.
    rewrite Hs' in Hs. by destruct Hs. }
  unfold mbind, prog_bind, put_transport, modify.
  destruct Hs as [-> | ->]; rewrite uv_close_eq by done; done.
Qed.

(** The rest of a world, which closing handles leaves alone. *)
Definition same_rest w w' : Prop :=
  c_state (w_client w') = c_state (w_client w) ∧ c_requests (w_client w') = c_requests (w_client w) ∧
  c_enable_reconnect (w_client w') = c_enable_reconnect (w_client w) ∧
  w_closed w' = w_closed w ∧ w_trace w' = w_trace w ∧ w_pending w' = w_pending w ∧
  w_asyncs w' = w_asyncs w ∧ w_reqs w' = w_reqs w.

#[local] Instance same_rest_preorder : PreOrder same_rest.
Proof. split; [by intros w; repeat split|]. intros w1 w2 w3 H12 H23. unfold same_rest in *. naive_solver congruence. Qed.

Lemma close_timer_eq t k w :
  (is_Some (c_timers (w_client w) t) → ¬ dead_handle w (HTimer t)) →
  close_timer t k w =
    match c_timers (w_client w) t with
    | Some _ =>
        k (set_w_client (set_c_timers (λ t', if decide (t' = t) then None else c_timers (w_client w) t') (w_client w))
             (set_w_closing (w_closing w ++ [HTimer t]) w))
    | None => Val (w, tt)
    end.
Proof.
  intros Hh. unfold close_timer, the_client, mbind, prog_bind, gets.
  destruct (c_timers (w_client w) t) as [tm|]; [|done]. rewrite uv_close_eq by (by apply Hh). done.
Qed.

(** One timer is closed and forgotten. *)
Lemma close_step t k f w :
  t ≠ ReconnectTimer → handles w →
  (∀ w, k w = Val (set_w_client (f (w_client w)) w, tt)) →
  (∀ c, c_state (f c) = c_state c ∧ c_requests (f c) = c_requests c ∧ c_transport (f c) = c_transport c ∧
        c_enable_reconnect (f c) = c_enable_reconnect c ∧ c_timers (f c) = c_timers c ∧
        c_conf (f c) = c_conf c ∧ c_close_async (f c) = c_close_async c) →
  ∃ w', close_timer t k w = Val (w', tt) ∧ handles w' ∧ same_rest w w' ∧
    c_transport (w_client w') = c_transport (w_client w) ∧ w_transports w' = w_transports w ∧
    c_close_async (w_client w') = c_close_async (w_client w) ∧
    w_closing w' = w_closing w ++ omap (λ t, (λ _, HTimer t) <$> c_timers (w_client w) t) [t] ∧
    c_timers (w_client w') t = None ∧
    ∀ t', t' ≠ t → c_timers (w_client w') t' = c_timers (w_client w) t'.
Proof.
  intros Ht Hh Hk Hf. assert (keeps (M := M) keeps_handles k) as Hkk.
  { intros w1 w2 [] E1. rewrite Hk in E1. injection E1 as <-. destruct (Hf (w_client w1)) as (_ & _ & _ & ? & ? & ? & ?).
    by apply handles_same. }
  assert (∃ w', close_timer t k w = Val (w', tt)) as [w' E].
  { rewrite close_timer_eq by (by apply Hh). destruct (c_timers (w_client w) t); [rewrite Hk|]; eauto. }
  exists w'. split; [done|]. split; [by apply (handles_close_timer t k Ht Hkk w w' tt)|].
  rewrite close_timer_eq in E by (by apply Hh). cbn [omap list_omap].
  destruct (c_timers (w_client w) t) as [tm|] eqn:Et; cbn [fmap option_fmap option_map].
  - rewrite Hk in E. injection E as <-. simpl. set (cl := set_c_timers _ _).
    destruct (Hf cl) as (E1 & E2 & E3 & E4 & E5 & _ & E6). unfold same_rest. simpl.
    rewrite E1, E2, E3, E4, E5, E6. split; [done|]. do 4 (split; [done|]). subst cl. simpl.
    split; [by rewrite decide_True|]. intros t' Hne. by rewrite decide_False.
  - injection E as <-. split; [reflexivity|]. rewrite app_nil_r. done.
Qed.

Lemma handles_drop : keeps (M := M) keeps_handles drop_transport.
Proof. unfold drop_transport, pc_transport_destroy, get_transport, put_transport. keeps_auto. Qed.

(** The transport is closed and forgotten. *)
Lemma drop_step w :
  base w → handles w →
  ∃ w', drop_transport w = Val (w', tt) ∧ handles w' ∧ same_rest w w' ∧
    c_transport (w_client w') = None ∧
    c_timers (w_client w') = c_timers (w_client w) ∧ c_close_async (w_client w') = c_close_async (w_client w) ∧
    w_closing w' = w_closing w ++ match c_transport (w_client w) with Some tp => [HSocket tp] | None => [] end ∧
    ∀ tp, c_transport (w_client w) = Some tp →
      ∃ r, w_transports w' = <[tp := mkTransport PC_TP_ST_CLOSED r]> (w_transports w).
Proof.
  intros B Hh. pose proof (drop_eq w B) as E. eexists. split; [exact E|].
  split; [by apply (handles_drop w _ tt E)|]. clear E.
  destruct (c_transport (w_client w)) as [tp|] eqn:Ec.
  - destruct (b_ctp _ B tp Ec) as (t & Ht & _). rewrite Ht. split; [done|]. do 4 (split; [done|]).
    intros tp' [= <-]. by eexists.
  - split; [reflexivity|]. rewrite app_nil_r. done.
Qed.

(** The wake-up is closed and forgotten. *)
Lemma async_step w :
  handles w →
  ∃ w', match c_close_async (w_client w) with
        | Some _ => uv_close HCloseAsync;; upd_client (set_c_close_async None)
        | None => mret tt
        end w = Val (w', tt) ∧ same_rest w w' ∧ c_close_async (w_client w') = None ∧
    c_timers (w_client w') = c_timers (w_client w) ∧ c_transport (w_client w') = c_transport (w_client w) ∧
    w_transports w' = w_transports w ∧
    w_closing w' = w_closing w ++ match c_close_async (w_client w) with Some _ => [HCloseAsync] | None => [] end.
Proof.
  intros [_ Hh]. destruct (c_close_async (w_client w)) as [b|] eqn:Ea.
  - rewrite (prog_bind_Val _ _ _ _ _ (uv_close_eq HCloseAsync w (Hh ltac:(by eexists)))).
    eexists. split; [done|]. done.
  - exists w. split; [done|]. split; [reflexivity|]. rewrite app_nil_r. done.
Qed.

(** The steps of a stop after the state is set. *)
Lemma close_all w :
  base w → handles w → c_enable_reconnect (w_client w) = false → c_state (w_client w) = PC_ST_CLOSED →
  ∃ w', (drop_transport;;
     close_timer HeartbeatTimer (upd_client (set_c_heartbeat 0));;
     close_timer TimeoutTimer (upd_client (set_c_timeout 0));;
     close_timer HandshakeTimer (mret tt);;
     c ← the_client;
     match c_close_async c with
     | Some _ => uv_close HCloseAsync;; upd_client (set_c_close_async None)
     | None => mret tt
     end;;
     when (c_enable_reconnect c)
       (on_timer ReconnectTimer uv_timer_stop;; uv_close (HTimer ReconnectTimer))) w = Val (w', tt) ∧
    stopped w w' ∧ c_enable_reconnect (w_client w') = false.
Proof.
  intros B Hh He Hs. destruct (drop_step w B Hh) as (w1 & E1 & Hh1 & R1 & Ht1 & Tm1 & A1 & C1 & S1).
  rewrite (prog_bind_Val _ _ _ _ _ E1).
  destruct (close_step HeartbeatTimer (upd_client (set_c_heartbeat 0)) (set_c_heartbeat 0) w1)
    as (w2 & E2 & Hh2 & R2 & Ht2 & Tp2 & A2 & C2 & N2 & Tm2); [done..|].
  rewrite (prog_bind_Val _ _ _ _ _ E2).
  destruct (close_step TimeoutTimer (upd_client (set_c_timeout 0)) (set_c_timeout 0) w2)
    as (w3 & E3 & Hh3 & R3 & Ht3 & Tp3 & A3 & C3 & N3 & Tm3); [done..|].
  rewrite (prog_bind_Val _ _ _ _ _ E3).
  destruct (close_step HandshakeTimer (mret tt : prog M unit) id w3)
    as (w4 & E4 & Hh4 & R4 & Ht4 & Tp4 & A4 & C4 & N4 & Tm4); [done|done|by intros []|done|].
  rewrite (prog_bind_Val _ _ _ _ _ E4).
  rewrite (prog_bind_Val the_client _ w4 w4 (w_client w4)) by done.
  assert (same_rest w w4) as R by (by etrans; [|etrans; [|etrans]]).
  destruct R as (Rs & Rq & Re & Rc & Rt & Rp & Ra & Rr). rewrite He in Re. rewrite Re.
  assert (c_close_async (w_client w4) = c_close_async (w_client w)) as EA by congruence.
  assert (w_closing w4 = w_closing w ++ match c_transport (w_client w) with Some tp => [HSocket tp] | None => [] end
    ++ omap (λ t, (λ _, HTimer t) <$> c_timers (w_client w) t) [HeartbeatTimer; TimeoutTimer; HandshakeTimer]) as EC.
  { rewrite C4, C3, C2, C1. cbn [omap list_omap]. rewrite Tm3, Tm2, Tm2, Tm1 by done.
    repeat (case_match; simplify_eq/=); rewrite <- ?app_assoc, ?app_nil_r; done. }
  destruct (async_step w4 Hh4) as (w5 & E5 & R5 & A5 & T5 & Tr5 & Tp5 & C5).
  rewrite (prog_bind_Val _ _ _ _ _ E5). exists w5. split; [done|].
  destruct R5 as (Rs' & Rq' & Re' & Rc' & Rt' & Rp' & Ra' & Rr'). split; [|congruence].
  split; try congruence.
  - intros t Ht. rewrite T5. destruct t; [| |done|done]; rewrite ?Tm4, ?Tm3, ?N3, ?N2 by done; done.
  - rewrite C5, EC, EA. unfold open_handles. by rewrite <- !app_assoc.
  - intros tp Htp. rewrite Tp5, Tp4, Tp3, Tp2. by apply S1.
  - repeat split; congruence.
Qed.

Lemma stop_spec w :
  inv w → handles w → c_enable_reconnect (w_client w) = false →
  c_state (w_client w) ≠ PC_ST_INITED → c_state (w_client w) ≠ PC_ST_CLOSED →
  ∃ w', pc_client_stop w = Val (w', tt) ∧ stopped w w' ∧ c_enable_reconnect (w_client w') = false.
Proof.
  intros [B _] Hh He Hs1 Hs2.
  set (w1 := set_w_client (set_c_state PC_ST_CLOSED (w_client w)) w).
  assert (base w1) as B1.
  { destruct B as [Hw ? ? ? ? ? ? ?]. split; try done. intros tp t Ht Hst. by destruct (Hw tp t Ht Hst). }
  destruct (close_all w1) as (w' & E & [] & He'); [done|done|done|done|].
  exists w'. split; [|by split].
  unfold pc_client_stop. rewrite (prog_bind_Val the_client _ w w (w_client w)) by done. rewrite He. cbn [andb].
  destruct (c_state (w_client w)); done.
Qed.

(** ** A stopped client stays stopped *)

Definition dead w : Prop :=
  c_state (w_client w) = PC_ST_CLOSED ∧ c_transport (w_client w) = None ∧
  c_close_async (w_client w) = None ∧ c_enable_reconnect (w_client w) = false.
Definition keeps_dead w w' : Prop := dead w → dead w'.

#[local] Instance keeps_dead_preorder : PreOrder keeps_dead.
Proof. split; [by intros w Hw|]. intros w1 w2 w3 H12 H23 H1. by apply H23, H12. Qed.

Lemma dead_ask : keeps (M := M) keeps_dead ask.
Proof. apply keeps_ask; [apply _|]. intros w o. exact id. Qed.
Lemma dead_new_block : keeps (M := M) keeps_dead new_block.
Proof. apply keeps_new_block. intros w. exact id. Qed.

Hint Extern 1 (keeps keeps_dead (modify _)) => (apply keeps_modify; intros ? ?; assumption) : keeps.
Hint Extern 1 (keeps keeps_dead (upd_client _)) => (apply keeps_modify; intros ? ?; assumption) : keeps.
Hint Extern 1 (keeps keeps_dead (observe _)) => (apply keeps_modify; intros ? ?; assumption) : keeps.
Hint Extern 1 (keeps keeps_dead (set_timer _ _)) => (apply keeps_modify; intros ? ?; assumption) : keeps.
Hint Resolve dead_ask dead_new_block : keeps.

Lemma dead_on_timer t f : keeps (M := M) keeps_dead (on_timer t f).
Proof. unfold on_timer. keeps_auto. Qed.
Hint Resolve dead_on_timer : keeps.

Lemma dead_release rel : keeps (M := M) keeps_dead (release_requests rel).
Proof.
  induction rel as [|[k rq] rel IH]; simpl; unfold pc__release_requests, call_request_cb, get_req; keeps_auto.
Qed.
Hint Resolve dead_release : keeps.

(** On a dead client these do nothing. *)
Lemma stop_dead w : dead w → pc_client_stop w = Val (w, tt).
Proof.
  intros (Hs & _ & _ & He). unfold pc_client_stop.
  rewrite (prog_bind_Val the_client _ w w (w_client w)) by done. by rewrite He, Hs.
Qed.

Lemma dead_stop : keeps (M := M) keeps_dead pc_client_stop.
Proof. intros w w' a E Hd. rewrite stop_dead in E by done. by injection E as <- <-. Qed.

Lemma dead_connect cn o cb : keeps (M := M) keeps_dead (pc_connect cn o cb).
Proof.
  intros w w' a E Hd. unfold pc_connect in E.
  rewrite (prog_bind_Val the_client _ w w (w_client w)) in E by done.
  destruct Hd as (Hs & Hd). rewrite Hs in E. rewrite decide_True in E by done. injection E as <- <-. by split.
Qed.

Lemma dead_disconnect : keeps (M := M) keeps_dead pc_client_disconnect.
Proof.
  intros w w' [] E (_ & _ & Ha & _).
  unfold pc_client_disconnect, the_client, upd_client, modify, gets, mbind, prog_bind in E. cbn in E.
  by rewrite Ha in E.
Qed.
Hint Resolve dead_stop dead_connect dead_disconnect : keeps.

Section Externals.
Context (X : externals).

Lemma dead_pkg_cb ty d : keeps (M := M) keeps_dead (pc__pkg_cb X ty d).
Proof.
  unfold pc__pkg_cb, pc__data, pc__process_response, pc__handshake_resp, pc__heartbeat.
  unfold_calm. keeps_auto.
Qed.

Lemma dead_on_read tp d : keeps (M := M) keeps_dead (pc_tp_on_tcp_read X tp d).
Proof.
  assert (∀ data, keeps (M := M) keeps_dead (λ w, pc_pkg_parser_feed (PH := client_host X) w data)) as Hf.
  { apply feed_keeps_rel; [apply _|intros p w Hd; exact Hd|apply dead_pkg_cb]. }
  unfold pc_tp_on_tcp_read, pc_client_on_tcp_read. unfold_calm. keeps_auto.
Qed.
Hint Resolve dead_on_read : keeps.

Lemma dead_connect_cb cn st : keeps (M := M) keeps_dead (call_connect_cb cn st).
Proof.
  unfold call_connect_cb, pc__client_connected_cb, pc__client_connect3_cb, pc__client_reconnected_cb.
  unfold_calm. keeps_auto.
Qed.
Hint Resolve dead_connect_cb : keeps.

Lemma dead_on_tcp_connect tp cn st : keeps (M := M) keeps_dead (pc__on_tcp_connect X tp cn st).
Proof.
  intros w w' a E Hd. unfold pc__on_tcp_connect in E.
  destruct (w_transports w !! tp) as [t|] eqn:Ht; cycle 1.
  { unfold mbind at 1, prog_bind at 1, get_transport, mbind, prog_bind, gets in E. by rewrite Ht in E. }
  rewrite (prog_bind_Val _ _ _ _ _ (get_transport_eq tp w t Ht)) in E.
  set (w2 := set_w_last_update (w_now w) w).
  rewrite (prog_bind_Val touch_time _ w w2 tt) in E by done.
  rewrite (prog_bind_Val the_client _ w2 w2 (w_client w2)) in E by done. cbv zeta in E.
  assert (dead w2) as Hd2 by exact Hd. pose proof Hd2 as (Hs & _). rewrite Hs, decide_True in E by done.
  assert (keeps (M := M) keeps_dead (upd_client (set_c_conn_req None);; call_connect_cb cn (-1))) as Hk
    by keeps_auto.
  exact (Hk w2 w' a E Hd2).
Qed.
Hint Resolve dead_on_tcp_connect : keeps.

(** No transport of a dead client works, so no acknowledgement revives it. *)
Lemma dead_ack_cb tp st w w' :
  inv w → dead w → pc__handshake_ack_cb tp st w = Val (w', tt) → dead w'.
Proof.
  intros [B _] Hd E. unfold pc__handshake_ack_cb, get_transport, mbind, prog_bind, gets in E.
  destruct (w_transports w !! tp) as [t|] eqn:Ht; [|done]. cbn in E.
  rewrite decide_True in E; [by injection E as <-|]. intros Hw.
  destruct (b_working _ B tp t Ht Hw) as [Hc _]. destruct Hd as (_ & Hn & _). congruence.
Qed.

Lemma dead_timer t : keeps (M := M) keeps_dead (deliver_timer X t).
Proof.
  unfold deliver_timer, pc__heartbeat_cb, pc__timeout_cb, pc__handshake_timeout_cb,
    pc__client_reconnect_timer_cb. unfold_calm. keeps_auto.
Qed.
Hint Resolve dead_timer : keeps.

Lemma dead_deliver e w w' :
  inv w → dead w → enabled w e = true → deliver X e w = Val (w', tt) → dead w'.
Proof.
  intros Hi Hd He E. assert (keeps (M := M) keeps_dead (deliver X e) → dead w') as Hk.
  { intros Hk. by eapply Hk. }
  destruct e as [n st|a| | | |h| | | | | | | | | | | |rq| | | | | | | |];
    try (apply Hk; cbn [deliver]; unfold skip, pc_client_connect_wait, pc_client_connect, pc_client_connect2,
      pc_client_connect4, pc_client_connect3, pc__worker_exit, pc_proto_init, pc_proto_init2, on_listeners,
      pc_request, pc_notify, pc__async_write, pc__async_write_cb, pc__request, pc__notify, send_data,
      pc_request_new, pc_notify_new, new_tcp_req, destroy_tcp_req; unfold_calm; by keeps_auto).
  - cbn [deliver] in E. unfold mbind, prog_bind, gets in E.
    destruct (w_pending w !! n) as [[tp' r]|] eqn:Hp; [|done]. cbn in E. unfold modify in E.
    destruct (inv_pop w n (tp', r) Hi Hp) as [Hi' _].
    assert (dead (set_w_pending (delete n (w_pending w)) w)) as Hd' by done.
    assert (keeps (M := M) keeps_dead (deliver_req X r st) → dead w') as Hr.
    { intros Hr. by eapply Hr. }
    destruct r; try (apply Hr; unfold deliver_req, pc__handshake_req_cb, finish_connect, pc__heartbeat_req_cb,
      pc__on_request, pc__on_notify; unfold_calm; by keeps_auto).
    by eapply dead_ack_cb.
  - (* no wake-up is pending *)
    cbn [enabled] in He. apply bool_decide_eq_true in He. destruct Hd as (_ & _ & Ha & _). congruence.
  - apply Hk. cbn [deliver]. unfold pc__worker_exit. keeps_step; [|unfold_calm; by keeps_auto].
    apply keeps_modify. intros w1 (_ & ? & ? & ?). by split.
Qed.

Lemma reach_dead w w' : inv w → dead w → reach X w w' → inv w' ∧ dead w'.
Proof.
  intros Hi Hd. induction 1 as [|w1 e w' _ [IH1 IH2] He Ed]; [done|].
  split; [by eapply inv_deliver|by eapply dead_deliver].
Qed.
End Externals.
End Stop.

(** A socket that is connecting is not the client's, and is not closed. *)
Lemma pending_open {M : Type → Type} (w : world M) n tp : inv w → connecting_on w n tp → HSocket tp ∉ w_closing w ++ open_handles w.
Proof.
  intros [B _] Hp. destruct (b_pend _ B n tp Hp) as (Hc & t & Ht & Hs). intros [Hx|Hx]%elem_of_app.
  - destruct (b_sock _ B tp Hx) as (t' & Ht' & Hs'). rewrite Ht in Ht'. injection Ht' as <-. congruence.
  - unfold open_handles in Hx. rewrite !elem_of_app in Hx. destruct Hx as [Hx|[Hx|Hx]].
    + destruct (c_transport (w_client w)) as [tp'|] eqn:E; [|by apply not_elem_of_nil in Hx]. apply list_elem_of_singleton in Hx as [= ->]. by apply Hc.
    + apply list_elem_of_omap in Hx as (t' & _ & Ht'). by destruct (c_timers _ t').
    + destruct (c_close_async _); [by apply list_elem_of_singleton in Hx|by apply not_elem_of_nil in Hx].
Qed.

(** C9 (functional). A client without reconnection can be stopped in every world
    it reaches: [pc_client_stop] returns without closing a handle twice, using a
    freed transport or a null timer, and leaves the client closed. What it closes depends
    on the state. From the initial state it closes no handle and only sets the state; from
    the closed state it does nothing; from any other state it closes exactly the handles
    the client points to (its socket, its timers, its wake-up), each once and in this
    order, forgets them all and leaves the stored requests to the destruction of
    the client. A socket whose connection is still being established is not among
    them and stays open. A second stop changes nothing. *)
Theorem stop_closes (M : Type → Type) (SM : StringMap M) (X : externals) (handshake_cb : bool)
    (oracle : list Z) (w0 w : world M) :
  new_world None handshake_cb oracle = Val w0 → reach X w0 w →
  ∃ w', pc_client_stop w = Val (w', tt) ∧ c_state (w_client w') = PC_ST_CLOSED ∧
    (c_state (w_client w) = PC_ST_INITED → w' = set_w_client (set_c_state PC_ST_CLOSED (w_client w)) w) ∧
    (c_state (w_client w) = PC_ST_CLOSED → w' = w) ∧
    (c_state (w_client w) ≠ PC_ST_INITED → c_state (w_client w) ≠ PC_ST_CLOSED → stopped w w') ∧
    (∀ n tp, connecting_on w n tp → HSocket tp ∉ w_closing w') ∧
    pc_client_stop w' = Val (w', tt).
Proof.
  intros E Hr. pose proof (reach_inv X _ _ _ _ _ E Hr) as Hi. apply (reach_handles X _ _ _ _ _ E) in Hr as (Hh & He & _).
  assert (∀ v, c_state (w_client v) = PC_ST_CLOSED → c_enable_reconnect (w_client v) = false →
    pc_client_stop v = Val (v, tt)) as Hs.
  { intros v Hv Hev. unfold pc_client_stop. rewrite (prog_bind_Val the_client _ v v (w_client v)) by done.
    by rewrite Hv, Hev. }
  assert (∀ n tp, connecting_on w n tp → HSocket tp ∉ w_closing w) as Hp
    by (intros n tp H%(pending_open w n tp Hi); rewrite elem_of_app in H; tauto).
  destruct (decide (c_state (w_client w) = PC_ST_CLOSED)) as [Hc|Hc]; [exists w; rewrite Hs by done; rewrite Hc; by do 4 (split; [done|])|].
  destruct (decide (c_state (w_client w) = PC_ST_INITED)) as [Hn|Hn].
  - exists (set_w_client (set_c_state PC_ST_CLOSED (w_client w)) w). split; [|rewrite Hs by done; by do 4 (split; [done|])].
    unfold pc_client_stop. rewrite (prog_bind_Val the_client _ w w (w_client w)) by done. by rewrite He, Hn.
  - destruct (stop_spec w Hi Hh He Hn Hc) as (w' & E' & S & He'). exists w'. split; [done|].
    pose proof (s_state _ _ S). rewrite Hs by done. do 4 (split; [done|]). split; [|done].
    intros n tp Htp. rewrite (s_closing _ _ S). by eapply pending_open.
Qed.

(** C10 (safety). A client without reconnection that has been stopped in a state other
    than the initial and the closed one stays closed, whatever the loop still delivers and
    the user still calls, in every run that is defined, [pc_client_disconnect] excepted:
    its state remains closed, it gets no transport, a request is refused without any effect and
    stopping it does nothing. [pc_client_disconnect] is undefined from then on: it
    signals the wake-up that the stop has set to null. *)
Theorem stopped_is_final (M : Type → Type) (SM : StringMap M) (X : externals) (handshake_cb : bool)
    (oracle : list Z) (w0 w w1 w' : world M) :
  new_world None handshake_cb oracle = Val w0 → reach X w0 w →
  c_state (w_client w) ≠ PC_ST_INITED → c_state (w_client w) ≠ PC_ST_CLOSED → pc_client_stop w = Val (w1, tt) →
  reach X w1 w' →
  c_state (w_client w') = PC_ST_CLOSED ∧ c_transport (w_client w') = None ∧
  (∀ rq route msg, pc_request rq route msg w' = Val (w', -1)) ∧ pc_client_stop w' = Val (w', tt) ∧
  pc_client_disconnect w' = UB.
Proof.
  intros E Hr Hn Hc Es Hr'. assert (reach X w0 w1) as Hr1 by (by eapply (reach_step _ _ w UStop)).
  assert (stopped w w1) as S.
  { pose proof (reach_inv X _ _ _ _ _ E Hr) as Hi. apply (reach_handles X _ _ _ _ _ E) in Hr as (Hh & He & _).
    destruct (stop_spec w Hi Hh He Hn Hc) as (w2 & E2 & S & _). rewrite Es in E2. by injection E2 as <-. }
  pose proof (reach_inv X _ _ _ _ _ E Hr1) as Hi. apply (reach_handles X _ _ _ _ _ E) in Hr1 as (_ & He & _).
  assert (dead w1) as Hd1 by (split; [apply S|split; [apply S|split; [apply S|done]]]).
  destruct (reach_dead X w1 w' Hi Hd1 Hr') as [_ Hd]. pose proof Hd as (Hs & Ht & Ha & _). do 2 (split; [done|]).
  split; [|split; [by apply stop_dead|]].
  - intros rq route msg. unfold pc_request. rewrite (prog_bind_Val the_client _ w' w' (w_client w')) by done. by rewrite Hs, decide_True.
  - unfold pc_client_disconnect, the_client, upd_client, modify, gets, mbind, prog_bind. cbn. by rewrite Ha.
Qed.

(** A client stopped in the initial state is not final: the wake-up is still there, and
    [pc_client_disconnect] takes the closed client to the state of a disconnection. *)
Theorem stopped_initial_revives (M : Type → Type) (SM : StringMap M) (handshake_cb : bool) (oracle : list Z) (w0 : world M) :
  new_world None handshake_cb oracle = Val w0 →
  ∃ w1 w2, pc_client_stop w0 = Val (w1, tt) ∧ c_state (w_client w1) = PC_ST_CLOSED ∧
    pc_client_disconnect w1 = Val (w2, tt) ∧ c_state (w_client w2) = PC_ST_DISCONNECTING.
Proof.
  intros E. assert (c_state (w_client w0) = PC_ST_INITED ∧ c_enable_reconnect (w_client w0) = false ∧ c_close_async (w_client w0) = Some false) as (Hs & He & Ha).
  { unfold new_world, pc__client_init in E. exec_inv. by simplify_eq/=. }
  exists (set_w_client (set_c_state PC_ST_CLOSED (w_client w0)) w0).
  unfold pc_client_stop, pc_client_disconnect, the_client, upd_client, modify, gets, mbind, prog_bind. cbn. rewrite Hs, He, Ha. by eexists.
Qed.
