(* ===== verification/ClientConnect.v ===== *)
(** * Connecting

    What happens when everything goes well, from the call of
    [pc_client_connect2] to a working client: the socket connects, the handshake
    request is written, the server's answer arrives in pieces of any size, the
    acknowledgement is written and the user is told. The steps are described for
    arbitrary worlds in which allocation and libuv succeed. *)

From S2P Require Import Prelude Package PackageStream StringMap Listeners Backoff Uv Float Jansson JsonDump JsonLoad Protocol ClientState Client ClientLogic ClientInv ClientStop.
Local Open Scope Z_scope.

Section Steps.
Context {M : Type → Type} `{SM : StringMap M}.
Implicit Types (w : world M).

(** ** Effects of single operations *)

(** A package is handed to libuv. *)
Definition sent (tp : positive) (bs : bytes) (r : uv_req) w : world M :=
  set_w_trace (w_trace w ++ [OSend tp bs])
    (set_w_pending (<[w_next w := (tp, r)]> (w_pending w)) (set_w_next (Pos.succ (w_next w)) w)).

Definition with_timer (t : timer_id) (tm : uv_timer_t) w : world M :=
  set_w_client (set_c_timers (λ t', if decide (t' = t) then Some tm else c_timers (w_client w) t') (w_client w)) w.

Definition on_client (f : pc_client_t M → pc_client_t M) w : world M := set_w_client (f (w_client w)) w.

Lemma upd_ok f w : upd_client f w = Val (on_client f w, tt).
Proof. done. Qed.

Lemma ask_ok w : w_oracle w = [] → ask w = Val (w, 0).
Proof. intros Ho. unfold ask. by rewrite Ho. Qed.

Lemma malloc_ok_ok w : w_oracle w = [] → malloc_ok w = Val (w, true).
Proof. intros Ho. unfold malloc_ok. by rewrite (prog_bind_Val _ _ _ _ _ (ask_ok w Ho)). Qed.

Lemma on_timer_ok t f tm w :
  c_timers (w_client w) t = Some tm → ¬ dead_handle w (HTimer t) →
  on_timer t f w = Val (with_timer t (f tm) w, tt).
Proof.
  intros Ht Hd. unfold on_timer, the_client, mbind, prog_bind, gets. rewrite Ht. cbn [deref].
  unfold mret, prog_ret. by rewrite bool_decide_false.
Qed.

Lemma uv_write_ok tp bs r w :
  w_oracle w = [] → is_Some (w_transports w !! tp) → uv_write tp (Some bs) r w = Val (sent tp bs r w, 0).
Proof.
  intros Ho [t Ht]. unfold uv_write. rewrite (prog_bind_Val _ _ _ _ _ (get_transport_eq tp w t Ht)).
  cbn [deref]. rewrite (prog_bind_Val (mret bs) _ w w bs) by done.
  by rewrite (prog_bind_Val _ _ _ _ _ (ask_ok w Ho)).
Qed.

Lemma binary_write_ok tp bs r w :
  w_oracle w = [] → c_transport (w_client w) = Some tp → is_Some (w_transports w !! tp) →
  c_state (w_client w) = PC_ST_CONNECTED ∨ c_state (w_client w) = PC_ST_WORKING →
  pc__binary_write (Some bs) r w = Val (sent tp bs (r tp) w, 0).
Proof.
  intros Ho Hc Ht Hs. unfold pc__binary_write.
  rewrite (prog_bind_Val the_client _ w w (w_client w)) by done.
  assert (bool_decide (c_state (w_client w) ≠ PC_ST_CONNECTED) &&
          bool_decide (c_state (w_client w) ≠ PC_ST_WORKING) = false) as ->.
  { by destruct Hs as [-> | ->]. }
  do 2 (rewrite (prog_bind_Val _ _ _ _ _ (malloc_ok_ok w Ho)); cbn [negb]). rewrite Hc. cbn [deref].
  rewrite (prog_bind_Val (mret tp) _ w w tp) by done.
  by rewrite (prog_bind_Val _ _ _ _ _ (uv_write_ok tp bs (r tp) w Ho Ht)).
Qed.

(** ** The answer to the handshake *)

Section Externals.
Context (X : externals).

(** The heartbeat part of an answer: [hb] seconds. *)
Lemma setup_heartbeat_ok sys hb hbt tot w :
  json_integer_value (json_object_get (Some sys) "heartbeat") = hb → 0 < hb ≤ 1073741 →
  c_timers (w_client w) HeartbeatTimer = Some hbt → c_timers (w_client w) TimeoutTimer = Some tot →
  ¬ dead_handle w (HTimer HeartbeatTimer) → ¬ dead_handle w (HTimer TimeoutTimer) →
  setup_heartbeat sys w = Val
    (with_timer TimeoutTimer (uv_timer_set_repeat (2000 * hb) tot)
      (with_timer HeartbeatTimer (uv_timer_set_repeat (1000 * hb) hbt)
        (on_client (set_c_timeout (2000 * hb)) (on_client (set_c_heartbeat (1000 * hb)) w))), tt).
Proof.
  intros Hhb Hr H1 H2 D1 D2. unfold setup_heartbeat. rewrite Hhb. cbv zeta.
  rewrite (proj2 (Z.leb_gt hb 0)) by lia.
  assert (require (hb * 1000 <? 2 ^ 63) = Val tt) as Hq by (apply require_true; lia).
  rewrite (prog_bind_Val (lift _) _ w w tt) by (unfold lift; by rewrite Hq).
  replace (s32 (hb * 1000)) with (1000 * hb) 
    by (rewrite swrap_small by (unfold is_s; change (2 ^ (32 - 1)) with 2147483648; lia); lia).
  rewrite (prog_bind_Val _ _ _ _ _ (upd_ok _ _)).
  replace (1000 * hb * PC_HEARTBEAT_TIMEOUT_FACTOR) with (2000 * hb) by (unfold PC_HEARTBEAT_TIMEOUT_FACTOR; lia).
  rewrite chk32_ok by lia. set (w1 := on_client _ w).
  rewrite (prog_bind_Val (lift _) _ w1 w1 (2000 * hb)) by done.
  rewrite (prog_bind_Val _ _ _ _ _ (upd_ok _ _)). set (w2 := on_client _ w1).
  rewrite (prog_bind_Val _ _ _ _ _ (on_timer_ok HeartbeatTimer _ hbt w2 H1 D1)).
  by rewrite (on_timer_ok TimeoutTimer _ tot).
Qed.

Lemma ack_ok tp w :
  w_oracle w = [] → c_transport (w_client w) = Some tp → is_Some (w_transports w !! tp) →
  c_state (w_client w) = PC_ST_CONNECTED ∨ c_state (w_client w) = PC_ST_WORKING →
  pc__handshake_ack w = Val (sent tp [2; 0; 0; 0] (UvHandshakeAck tp) w, 0).
Proof.
  intros Ho Hc Ht Hs. unfold pc__handshake_ack.
  rewrite (prog_bind_Val _ _ _ _ _ (malloc_ok_ok w Ho)).
  rewrite (prog_bind_Val (lift _) _ w w (Some [2; 0; 0; 0])) by done.
  by rewrite (prog_bind_Val _ _ _ _ _ (binary_write_ok tp _ UvHandshakeAck w Ho Hc Ht Hs)).
Qed.
(** The answers of a server the client accepts: code 200, a heartbeat interval
    of [hb] seconds, perhaps a route dictionary, no protobuf definitions. *)
Record accepts (res sys : json_t) (hb : Z) : Prop := {
  acc_code : json_integer_value (json_object_get (Some res) "code") = PC_HANDSHAKE_OK;
  acc_sys : json_object_get (Some res) "sys" = Some sys;
  acc_heartbeat : json_integer_value (json_object_get (Some sys) "heartbeat") = hb;
  acc_range : 0 < hb ≤ 1073741;
  acc_proto : json_object_get (Some sys) "useProto" = None
}.

(** A client that waits for it, on the transport [tp]. *)
Record waiting (tp : positive) (tm : timer_id → uv_timer_t) w : Prop := {
  wt_oracle : w_oracle w = [];
  wt_state : c_state (w_client w) = PC_ST_CONNECTED ∨ c_state (w_client w) = PC_ST_WORKING;
  wt_transport : c_transport (w_client w) = Some tp;
  wt_live : is_Some (w_transports w !! tp);
  wt_timers t : t ≠ ReconnectTimer → c_timers (w_client w) t = Some (tm t);
  wt_open t : t ≠ ReconnectTimer → ¬ dead_handle w (HTimer t)
}.

(** The world after an accepted answer. *)
Definition accepted_world (tp : positive) (tm : timer_id → uv_timer_t) (hb : Z) (dict user : option json_t) w :
    world M :=
  let w := with_timer HandshakeTimer (uv_timer_stop (tm HandshakeTimer)) w in
  let w := on_client (set_c_timeout (2000 * hb)) (on_client (set_c_heartbeat (1000 * hb)) w) in
  let w := with_timer HeartbeatTimer (uv_timer_set_repeat (1000 * hb) (tm HeartbeatTimer)) w in
  let w := with_timer TimeoutTimer (uv_timer_set_repeat (2000 * hb) (tm TimeoutTimer)) w in
  let w := match dict with
           | Some d => on_client (λ c, set_c_ctx (mkCtx (Some d) (Some (setup_dict d))
                         (server_protos (c_ctx c)) (client_protos (c_ctx c))) c) w
           | None => w
           end in
  let w := on_client (set_c_proto_ver None)
             (on_client (set_c_ctx (with_protos None None (c_ctx (w_client w)))) w) in
  let w := if c_handshake_cb (w_client w) then set_w_trace (w_trace w ++ [OHandshakeCb user]) w else w in
  let w := sent tp [2; 0; 0; 0] (UvHandshakeAck tp) w in
  let w := with_timer TimeoutTimer (uv_timer_stop (uv_timer_set_repeat (2000 * hb) (tm TimeoutTimer))) w in
  with_timer HeartbeatTimer (uv_timer_again (uv_timer_set_repeat (1000 * hb) (tm HeartbeatTimer))) w.

(** A timer of the client does not depend on what else is updated. *)
Ltac timer_ok Htm Hop t :=
  first [exact (Htm t ltac:(done)) | exact (Hop t ltac:(done))].

Lemma setup_sys_ok tp tm sys hb w :
  waiting tp tm w → json_integer_value (json_object_get (Some sys) "heartbeat") = hb → 0 < hb ≤ 1073741 →
  json_object_get (Some sys) "useProto" = None →
  let w1 := with_timer HandshakeTimer (uv_timer_stop (tm HandshakeTimer)) w in
  let w2 := on_client (set_c_timeout (2000 * hb)) (on_client (set_c_heartbeat (1000 * hb)) w1) in
  let w3 := with_timer TimeoutTimer (uv_timer_set_repeat (2000 * hb) (tm TimeoutTimer))
              (with_timer HeartbeatTimer (uv_timer_set_repeat (1000 * hb) (tm HeartbeatTimer)) w2) in
  let w4 := match json_object_get (Some sys) "dict" with
            | Some d => on_client (λ c, set_c_ctx (mkCtx (Some d) (Some (setup_dict d))
                          (server_protos (c_ctx c)) (client_protos (c_ctx c))) c) w3
            | None => w3
            end in
  (setup_heartbeat sys;;
   match json_object_get (Some sys) "dict" with
   | Some dict =>
       upd_client (λ c, set_c_ctx (mkCtx (Some dict) (Some (setup_dict dict))
                           (server_protos (c_ctx c)) (client_protos (c_ctx c))) c)
   | None => mret tt
   end;;
   setup_protos X sys) w1 =
  Val (on_client (set_c_proto_ver None) (on_client (set_c_ctx (with_protos None None (c_ctx (w_client w4)))) w4), tt).
Proof.
  intros [Ho Hs Hc Ht Htm Hop] Hhb Hr Hp w1 w2 w3 w4.
  rewrite (prog_bind_Val _ _ w1 w3 tt); cycle 1.
  { apply setup_heartbeat_ok; try done; timer_ok Htm Hop HeartbeatTimer || timer_ok Htm Hop TimeoutTimer. }
  rewrite (prog_bind_Val _ _ w3 w4 tt); cycle 1.
  { unfold w4. by destruct (json_object_get (Some sys) "dict"). }
  unfold setup_protos. rewrite (prog_bind_Val the_client _ w4 w4 (w_client w4)) by done. by rewrite Hp.
Qed.

Lemma handshake_resp_ok tp tm res sys hb data w :
  waiting tp tm w → json_loadb (x_malloc X) data 0 = Val (Some res) → accepts res sys hb →
  (c_handshake_cb (w_client w) = true → x_handshake_cb X (json_object_get (Some res) "user") = 0) →
  pc__handshake_resp X data w = Val
    (accepted_world tp tm hb (json_object_get (Some sys) "dict") (json_object_get (Some res) "user") w, 0).
Proof.
  intros Hw Hx [A1 A2 A3 A4 A5] Hcb. pose proof (setup_sys_ok tp tm sys hb w Hw A3 A4 A5) as Es.
  pose proof Hw as [Ho Hs Hc Ht Htm Hop]. unfold pc__handshake_resp.
  rewrite (prog_bind_Val (lift _) _ w w (Some res)) by (unfold lift; by rewrite Hx).
  rewrite (prog_bind_Val _ _ _ _ _ (on_timer_ok HandshakeTimer uv_timer_stop _ w (Htm HandshakeTimer ltac:(done)) (Hop HandshakeTimer ltac:(done)))).
  rewrite A1, Z.eqb_refl. cbn [negb]. rewrite A2. unfold accepted_world. cbv zeta in Es |- *.
  rewrite (prog_bind_Val _ _ _ _ _ Es). clear Es.
  match goal with |- context [(the_client ≫= _) ?v] => set (w5 := v) end.
  rewrite (prog_bind_Val the_client _ w5 w5 (w_client w5)) by done.
  set (w6 := if c_handshake_cb (w_client w5) then _ else w5).
  rewrite (prog_bind_Val _ _ w5 w6 0); cycle 1.
  { unfold w6. destruct (c_handshake_cb (w_client w5)) eqn:Ecb; [|done].
    rewrite <- Hcb; [done|]. revert Ecb. unfold w5. by destruct (json_object_get (Some sys) "dict"). }
  assert (waiting tp (λ t, match t with
      | HeartbeatTimer => uv_timer_set_repeat (1000 * hb) (tm HeartbeatTimer)
      | TimeoutTimer => uv_timer_set_repeat (2000 * hb) (tm TimeoutTimer)
      | _ => uv_timer_stop (tm HandshakeTimer) end) w6) as [Ho6 Hs6 Hc6 Ht6 Htm6 Hop6].
  { unfold w6, w5. destruct (json_object_get (Some sys) "dict"); destruct (c_handshake_cb _); split; simpl; try done;
      by intros []. }
  rewrite Z.eqb_refl. rewrite (prog_bind_Val _ _ w6 (sent tp [2; 0; 0; 0] (UvHandshakeAck tp) w6) tt); cycle 1.
  { by rewrite (prog_bind_Val _ _ _ _ _ (ack_ok tp w6 Ho6 Hc6 Ht6 Hs6)). }
  set (w7 := sent tp _ _ w6). unfold pc__heartbeat.
  rewrite (prog_bind_Val _ _ w7 (with_timer HeartbeatTimer (uv_timer_again (uv_timer_set_repeat (1000 * hb) (tm HeartbeatTimer)))
    (with_timer TimeoutTimer (uv_timer_stop (uv_timer_set_repeat (2000 * hb) (tm TimeoutTimer))) w7)) 0); [done|].
  rewrite (prog_bind_Val _ _ _ _ _ (on_timer_ok TimeoutTimer uv_timer_stop _ w7 (Htm6 TimeoutTimer ltac:(done)) (Hop6 TimeoutTimer ltac:(done)))).
  match goal with |- context [(on_timer HeartbeatTimer _ ≫= _) ?v] => set (w8 := v) end.
  by rewrite (prog_bind_Val _ _ _ _ _ (on_timer_ok HeartbeatTimer uv_timer_again _ w8 (Htm6 HeartbeatTimer ltac:(done)) (Hop6 HeartbeatTimer ltac:(done)))).
Qed.
(** What it changes, and what it leaves. *)
Lemma accepted_facts tp tm hb dict user w :
  let w' := accepted_world tp tm hb dict user w in
  c_parser (w_client w') = c_parser (w_client w) ∧ c_conn_req (w_client w') = c_conn_req (w_client w) ∧
  c_transport (w_client w') = c_transport (w_client w) ∧
  w_conns w' = w_conns w ∧ w_transports w' = w_transports w ∧
  w_pending w' = <[w_next w := (tp, UvHandshakeAck tp)]> (w_pending w) ∧
  w_trace w' = w_trace w ++ (if c_handshake_cb (w_client w) then [OHandshakeCb user] else []) ++ [OSend tp [2; 0; 0; 0]] ∧
  c_timers (w_client w') HeartbeatTimer = Some (uv_timer_again (uv_timer_set_repeat (1000 * hb) (tm HeartbeatTimer))) ∧
  c_timers (w_client w') TimeoutTimer = Some (uv_timer_stop (uv_timer_set_repeat (2000 * hb) (tm TimeoutTimer))) ∧
  (∀ d, dict = Some d → route_to_code (c_ctx (w_client w')) = Some d ∧
                        code_to_route (c_ctx (w_client w')) = Some (setup_dict d)).
Proof.
  unfold accepted_world. destruct dict as [d|]; cbv zeta; simpl; destruct (c_handshake_cb (w_client w)); simpl;
    rewrite <- ?app_assoc; do 9 (split; [done|]); intros d' [=]; by subst.
Qed.

(** ** Reading *)

Definition touched w : world M := set_w_last_update (w_now w) w.
Definition with_parser (p : pc_pkg_parser_t) w : world M := on_client (set_c_parser p) w.

(** The client reads from the transport [tp] and its parser can go on. *)
Record listening (tp : positive) w : Prop := {
  ls_transport : w_transports w !! tp = Some (mkTransport PC_TP_ST_WORKING true);
  ls_open : ¬ dead_handle w (HSocket tp);
  ls_parser : parser_wf (c_parser (w_client w));
  ls_state : state (c_parser (w_client w)) ≠ PC_PKG_CLOSED
}.

Lemma client_set_get w : host_set_parser (ParserHost := client_host X) (host_parser (ParserHost := client_host X) w) w = w.
Proof. by destruct w as [[]]. Qed.

Lemma read_eq tp data w w1 ok :
  w_transports w !! tp = Some (mkTransport PC_TP_ST_WORKING true) → data ≠ [] →
  pc_pkg_parser_feed (PH := client_host X) (touched w) data = Val (w1, ok) →
  pc_tp_on_tcp_read X tp (Some data) w = (when (negb ok) pc_client_stop) w1.
Proof.
  intros Ht Hd E. unfold pc_tp_on_tcp_read. rewrite (prog_bind_Val touch_time _ w (touched w) tt) by done.
  rewrite (prog_bind_Val _ _ _ _ _ (get_transport_eq tp (touched w) _ Ht)).
  rewrite decide_False by (intros Hx; by apply Hx). destruct data as [|b data]; [done|].
  unfold pc_client_on_tcp_read. by rewrite (prog_bind_Val _ _ _ _ _ E).
Qed.

Section Reading.
Context (Hmalloc : ∀ n, x_malloc X n = true).

Lemma read_prefix tp data w :
  listening tp w → zlen data < 2 ^ 64 → data ≠ [] → incomplete (pending (c_parser (w_client w)) ++ data) →
  ∃ p', pending p' = pending (c_parser (w_client w)) ++ data ∧
    pc_tp_on_tcp_read X tp (Some data) w = Val (with_parser p' (touched w), tt) ∧
    listening tp (with_parser p' (touched w)).
Proof.
  intros [Ht Ho Hp Hs] Hn Hd Hi.
  destruct (feed_prefix (PH := client_host X) ltac:(done) ltac:(done) client_set_get (touched w) data)
    as (p' & Hw & Hc & Hpe & E); [done..|].
  exists p'. split; [done|]. split; [|by split]. by rewrite (read_eq tp data w _ true Ht Hd E).
Qed.

Lemma read_package tp data ty body w :
  listening tp w → zlen data < 2 ^ 64 → data ≠ [] → zlen body < 2 ^ 24 →
  pending (c_parser (w_client w)) ++ data = wire ty body →
  ∃ p', ∀ w1, pc__pkg_cb X (u8 ty) body (with_parser p' (touched w)) = Val (w1, tt) →
    c_parser (w_client w1) = p' →
    ∃ q, parser_wf q ∧ state q ≠ PC_PKG_CLOSED ∧ pending q = [] ∧
      pc_tp_on_tcp_read X tp (Some data) w = Val (with_parser q w1, tt).
Proof.
  intros [Ht Ho Hp Hs] Hn Hd Hb Hw.
  destruct (feed_package (PH := client_host X) ltac:(done) ltac:(done) client_set_get (touched w) data ty body)
    as (p' & _ & _ & Hf); [done..|].
  exists p'. intros w1 Ecb Hp1. destruct (Hf w1) as (q & Hqw & Hqs & Hqp & E); [|done|].
  { cbn [host_cb client_host host_set_parser]. unfold with_parser, on_client in Ecb. by rewrite Ecb. }
  exists q. split; [done|]. split; [by rewrite Hqs|]. split; [done|]. by rewrite (read_eq tp data w _ true Ht Hd E).
Qed.

(** However the package is cut, it is handled once it is complete. *)
Lemma read_chunks tp ty body chunks w :
  listening tp w → Forall (λ c, c ≠ [] ∧ zlen c < 2 ^ 64) chunks → chunks ≠ [] → zlen body < 2 ^ 24 →
  pending (c_parser (w_client w)) ++ concat chunks = wire ty body →
  ∃ p', ∀ w1, pc__pkg_cb X (u8 ty) body (with_parser p' (touched w)) = Val (w1, tt) →
    c_parser (w_client w1) = p' →
    ∃ q, parser_wf q ∧ state q ≠ PC_PKG_CLOSED ∧ pending q = [] ∧
      run X (map (λ c, LRead tp (Some c)) chunks) w = Val (Some (with_parser q w1)).
Proof.
  intros Hl Hc Hne Hb. revert w Hl Hne. induction Hc as [|c chunks [Hc Hn] Hcs IH]; intros w Hl Hne Hw; [done|].
  assert (enabled w (LRead tp (Some c)) = true) as He.
  { cbn [enabled]. rewrite (ls_transport _ _ Hl). cbn [tp_reading andb]. apply bool_decide_eq_true, (ls_open _ _ Hl). }
  destruct (decide (chunks = [])) as [->|Hne'].
  - simpl in Hw. rewrite app_nil_r in Hw.
    destruct (read_package tp c ty body w Hl Hn Hc Hb Hw) as (p' & Hf). exists p'. intros w1 Ecb Hp1.
    destruct (Hf w1 Ecb Hp1) as (q & H1 & H2 & H3 & E). exists q. do 3 (split; [done|]).
    cbn [map run]. rewrite He. cbn [deliver]. by rewrite E.
  - cbn [concat] in Hw. destruct (read_prefix tp c w Hl Hn Hc) as (p1 & Hp1 & E & Hl1).
    { eapply (prefix_incomplete _ (concat chunks)); [exact Hb|by rewrite <- app_assoc|].
      destruct chunks as [|c' ?]; [done|]. apply Forall_cons_1 in Hcs as [[Hc' _] _]. by destruct c'. }
    destruct (IH _ Hl1 Hne') as (p' & Hf).
    { cbn [with_parser on_client w_client set_w_client c_parser set_c_parser]. by rewrite Hp1, <- app_assoc. }
    exists p'. intros w1 Ecb Hpp. destruct (Hf w1 Ecb Hpp) as (q & H1 & H2 & H3 & Er). exists q.
    do 3 (split; [done|]). cbn [map run]. rewrite He. cbn [deliver]. by rewrite E.
Qed.
End Reading.

(** ** The handshake request *)

(** What a client without stored protocol version sends. *)
Definition handshake_msg : json_t :=
  json_object_set_new json_object "sys"
    (Some (json_object_set_new (json_object_set_new json_object "type" (json_string PC_TYPE))
             "version" (json_string PC_VERSION))).

(** Its text, as the JSON library prints it. *)
Definition handshake_text : bytes := json_text JSON_COMPACT 0 handshake_msg.

Lemma handshake_dumps malloc : (∀ n, malloc n = true) → json_dumps malloc (Some handshake_msg) JSON_COMPACT = Val (Some handshake_text).
Proof. intros Hm. by apply dumps_text; [intros n _|vm_compute..]. Qed.

Lemma handshake_req_ok tp tm w :
  waiting tp tm w → c_proto_ver (w_client w) = None → c_proto_cb (w_client w) = false →
  c_read_dir (w_client w) = None → c_handshake_opts (w_client w) = None →
  x_read_file X PC_PROTO_VERSION = None → (∀ n, x_malloc X n = true) →
  pc__handshake_req X w = Val
    (with_timer HandshakeTimer (uv_timer_start HANDSHAKE_TIMEOUT 0 (tm HandshakeTimer))
       (sent tp (wire PC_PKG_HANDSHAKE handshake_text) (UvHandshakeReq tp) w), 0).
Proof.
  intros [Ho Hs Hc Ht Htm Hop] Hv Hcb Hrd Hop' Hlf Hm. unfold pc__handshake_req.
  rewrite (prog_bind_Val the_client _ w w (w_client w)) by done. cbv zeta. rewrite Hv.
  set (sys := json_object_set_new _ "version" _).
  rewrite (prog_bind_Val _ _ w w sys); cycle 1.
  { rewrite (prog_bind_Val _ _ w w None); [done|]. unfold pc__load_file.
    rewrite (prog_bind_Val the_client _ w w (w_client w)) by done. rewrite Hcb, Hrd. unfold lift, json_load_file. by rewrite Hlf. }
  rewrite Hop'. change (json_object_get None "user") with (@None json_t). cbv iota.
  change (json_object_set_new json_object "sys" (Some sys)) with handshake_msg.
  rewrite (prog_bind_Val (lift _) _ w w (Some handshake_text)) by (unfold lift; by rewrite handshake_dumps).
  rewrite (prog_bind_Val (lift _) _ w w tt); cycle 1.
  { done. }
  rewrite (prog_bind_Val _ _ _ _ _ (malloc_ok_ok w Ho)).
  rewrite (prog_bind_Val (lift _) _ w w (Some (wire PC_PKG_HANDSHAKE handshake_text))); cycle 1.
  { unfold lift. rewrite pkg_encode_eq by (done || apply zlen_nonneg). done. }
  rewrite (prog_bind_Val _ _ _ _ _ (binary_write_ok tp _ UvHandshakeReq w Ho Hc Ht Hs)). cbn [negb Z.eqb].
  match goal with |- context [(on_timer HandshakeTimer _ ≫= _) ?v] => set (w1 := v) end.
  by rewrite (prog_bind_Val _ _ _ _ _ (on_timer_ok HandshakeTimer _ _ w1 (Htm HandshakeTimer ltac:(done)) (Hop HandshakeTimer ltac:(done)))).
Qed.

(** The acknowledgement has been written: the user is told. *)
Lemma ack_cb_ok tp cn c t w :
  w_transports w !! tp = Some t → tp_state t = PC_TP_ST_WORKING → c_conn_req (w_client w) = Some cn →
  w_conns w !! cn = Some c → cn_cb c = UserConnectCb →
  pc__handshake_ack_cb tp 0 w = Val
    (set_w_trace (w_trace w ++ [OConnectCb cn 0])
       (on_client (set_c_conn_req None) (on_client (set_c_state PC_ST_WORKING) w)), tt).
Proof.
  intros Ht Hs Hc Hcn Hcb. unfold pc__handshake_ack_cb.
  rewrite (prog_bind_Val _ _ _ _ _ (get_transport_eq tp w t Ht)).
  rewrite decide_False by (intros Hy; by apply Hy). cbn [Z.eqb].
  rewrite (prog_bind_Val _ _ _ _ _ (upd_ok _ _)). unfold finish_connect. set (w1 := on_client _ w).
  rewrite (prog_bind_Val the_client _ w1 w1 (w_client w1)) by done.
  change (c_conn_req (w_client w1)) with (c_conn_req (w_client w)). rewrite Hc.
  rewrite (prog_bind_Val _ _ _ _ _ (upd_ok _ _)). set (w2 := on_client _ w1).
  unfold call_connect_cb. rewrite (prog_bind_Val _ _ w2 w2 c); [by rewrite Hcb|].
  unfold get_conn, gets, mbind, prog_bind. change (w_conns w2) with (w_conns w). by rewrite Hcn.
Qed.

(** The socket is connected. *)
Lemma on_tcp_connect_ok tp cn tm w :
  w_oracle w = [] → c_state (w_client w) = PC_ST_CONNECTING →
  w_transports w !! tp = Some (mkTransport PC_TP_ST_CONNECTING false) →
  (∀ t, t ≠ ReconnectTimer → c_timers (w_client w) t = Some (tm t)) →
  (∀ t, t ≠ ReconnectTimer → ¬ dead_handle w (HTimer t)) →
  c_proto_ver (w_client w) = None → c_proto_cb (w_client w) = false →
  c_read_dir (w_client w) = None → c_handshake_opts (w_client w) = None →
  x_read_file X PC_PROTO_VERSION = None → (∀ n, x_malloc X n = true) →
  let w1 := on_client (set_c_state PC_ST_CONNECTED)
              (set_w_transports (<[tp := mkTransport PC_TP_ST_WORKING true]> (w_transports w))
                (on_client (set_c_transport (Some tp)) (touched w))) in
  pc__on_tcp_connect X tp cn 0 w = Val
    (with_timer HandshakeTimer (uv_timer_start HANDSHAKE_TIMEOUT 0 (tm HandshakeTimer))
       (sent tp (wire PC_PKG_HANDSHAKE handshake_text) (UvHandshakeReq tp) w1), tt).
Proof.
  intros Ho Hs Ht Htm Hop Hv Hcb Hrd Hho Hlf Hm w1. unfold pc__on_tcp_connect.
  rewrite (prog_bind_Val _ _ _ _ _ (get_transport_eq tp w _ Ht)).
  rewrite (prog_bind_Val touch_time _ w (touched w) tt) by done.
  rewrite (prog_bind_Val the_client _ _ (touched w) (w_client w)) by done. cbv zeta.
  rewrite decide_False by (intros Hy; by apply Hy). cbn [Z.eqb].
  rewrite (prog_bind_Val _ _ _ _ _ (upd_ok _ _)). set (w2 := on_client _ (touched w)).
  rewrite (prog_bind_Val _ _ _ _ _ (ask_ok w2 Ho)). cbn [negb Z.eqb].
  rewrite (prog_bind_Val _ _ _ _ _ (get_transport_eq tp w2 _ Ht)).
  set (w3 := set_w_transports (<[tp := mkTransport PC_TP_ST_CONNECTING true]> (w_transports w2)) w2).
  rewrite (prog_bind_Val (put_transport tp _) _ w2 w3 tt) by done.
  rewrite (prog_bind_Val _ _ _ _ _ (upd_ok _ _)). set (w4 := on_client _ w3).
  rewrite (prog_bind_Val _ _ w4 w1 0); cycle 1.
  { unfold pc_transport_start.
    rewrite (prog_bind_Val _ _ _ _ _ (get_transport_eq tp w4 (mkTransport PC_TP_ST_CONNECTING true) (lookup_insert_eq _ _ _))).
    rewrite decide_True by done. unfold w1, w4, w3, put_transport, modify. simpl.
    unfold mbind, prog_bind, mret, prog_ret. do 3 f_equal. unfold on_client. simpl.
    by rewrite insert_insert_eq. }
  rewrite (prog_bind_Val _ _ _ _ _ (handshake_req_ok tp tm w1 ltac:(
    split; [done|by left|done|eexists; apply lookup_insert_eq|done|done]) Hv Hcb Hrd Hho Hlf Hm)). done.
Qed.
End Externals.
End Steps.

Lemma run_split {M} `{SM : StringMap M} X es1 es2 (w w1 : world M) :
  run X es1 w = Val (Some w1) → run X (es1 ++ es2) w = run X es2 w1.
Proof.
  revert w. induction es1 as [|e es1 IH]; intros w E; cbn [run app] in *; [by injection E as <-|].
  destruct (enabled w e); [|done]. destruct (deliver X e w) as [[w2 []]| |]; [|done..]. by apply IH.
Qed.

Lemma run_one {M} `{SM : StringMap M} X e (w w1 : world M) :
  enabled w e = true → deliver X e w = Val (w1, tt) → run X [e] w = Val (Some w1).
Proof. intros He E. cbn [run]. by rewrite He, E. Qed.

Lemma deliver_req_ok {M} `{SM : StringMap M} X n st tp r (w : world M) :
  w_pending w !! n = Some (tp, r) → st = 0 ∨ st = -1 →
  enabled w (LReq n st) = true ∧
  deliver X (LReq n st) w = deliver_req X r st (set_w_pending (delete n (w_pending w)) w).
Proof.
  intros Hp Hst. cbn [enabled deliver]. unfold gets, mbind, prog_bind. rewrite Hp. cbn [deref].
  split; [|done]. rewrite bool_decide_true by (by eexists). by destruct Hst as [-> | ->].
Qed.

(** The events of a connection that succeeds: the user creates a connect request
    (block 1) and connects (transport 2); connect, handshake and acknowledgement
    are the requests 3, 4 and 5 of the loop. *)
Definition connect_events (addr : sockaddr_in) : list event :=
  [UConnectReqNew addr; UConnect2 1; LReq 3 0; LReq 4 0].

Section Start.
Context {M : Type → Type} `{SM : StringMap M} (X : externals).
Context (addr : sockaddr_in) (hcb : bool).
Context (Hlf : x_read_file X PC_PROTO_VERSION = None) (Hm : ∀ n, x_malloc X n = true).

(** A client whose handshake request has been written. *)
Record connected (tm : timer_id → uv_timer_t) (w : world M) : Prop := {
  cd_waiting : waiting 2 tm w;
  cd_timers : tm HeartbeatTimer = mkTimer true None 0 ∧ tm TimeoutTimer = mkTimer true None 0;
  cd_listening : listening 2 w;
  cd_parser : pending (c_parser (w_client w)) = [];
  cd_conn : c_conn_req (w_client w) = Some 1%positive;
  cd_conns : w_conns w = {[1%positive := mkConn (Some addr) (Some 2%positive) UserConnectCb]};
  cd_cb : c_handshake_cb (w_client w) = hcb;
  cd_pending : w_pending w = ∅;
  cd_next : w_next w = 5%positive;
  cd_trace : w_trace w = [OSend 2 (wire PC_PKG_HANDSHAKE handshake_text)]
}.

(** A new client. *)
Definition start_world ls rs : world M :=
  mkWorld (mkClient PC_ST_INITED None ls rs fresh_parser 0 0 None hcb None
             (mkCtx None None None None) None None None false
             (λ t, match t with
                   | HeartbeatTimer | TimeoutTimer => Some (mkTimer true None 0)
                   | HandshakeTimer => Some uv_timer_init
                   | ReconnectTimer => None
                   end) (Some false) false 0 false (mkConf 0 0 false 0) None None (-1))
    ∅ ∅ ∅ ∅ ∅ [] [] [] [] 1 0 0 0.

Lemma new_start (w0 : world M) : new_world None hcb [] = Val w0 → ∃ ls rs, w0 = start_world ls rs.
Proof.
  intros E. unfold new_world, pc__client_init in E. exec_inv.
  rewrite parser_new_fresh in *. simplify_eq. eexists _, _. reflexivity.
Qed.

Definition start_timer (t : timer_id) : uv_timer_t :=
  match t with HeartbeatTimer | TimeoutTimer => mkTimer true None 0 | _ => uv_timer_init end.

(** The socket is connecting. *)
Record started (w : world M) : Prop := {
  st_oracle : w_oracle w = [];
  st_state : c_state (w_client w) = PC_ST_CONNECTING;
  st_transport : w_transports w !! 2%positive = Some (mkTransport PC_TP_ST_CONNECTING false);
  st_timers t : t ≠ ReconnectTimer → c_timers (w_client w) t = Some (start_timer t);
  st_handles : w_closing w ++ w_closed w = [];
  st_protos : c_proto_ver (w_client w) = None ∧ c_proto_cb (w_client w) = false ∧
    c_read_dir (w_client w) = None ∧ c_handshake_opts (w_client w) = None;
  st_parser : c_parser (w_client w) = fresh_parser;
  st_conn : c_conn_req (w_client w) = Some 1%positive;
  st_conns : w_conns w = {[1%positive := mkConn (Some addr) (Some 2%positive) UserConnectCb]};
  st_cb : c_handshake_cb (w_client w) = hcb;
  st_pending : w_pending w = {[3%positive := (2%positive, UvConnect 2 1)]};
  st_next : w_next w = 4%positive;
  st_trace : w_trace w = []
}.

Lemma connect_called ls rs :
  ∃ w, run X [UConnectReqNew addr; UConnect2 1] (start_world ls rs) = Val (Some w) ∧ started w.
Proof.
  eexists. split; [vm_compute; reflexivity|].
  split; try (vm_compute; reflexivity); [|vm_compute; repeat split]. by intros [].
Qed.

Lemma connect_start (w0 : world M) :
  new_world None hcb [] = Val w0 →
  ∃ tm w, run X (connect_events addr) w0 = Val (Some w) ∧ connected tm w.
Proof.
  intros (ls & rs & ->)%new_start. destruct (connect_called ls rs) as (w2 & E2 & S).
  change (connect_events addr) with ([UConnectReqNew addr; UConnect2 1] ++ [LReq 3 0] ++ [LReq 4 0]).
  rewrite (run_split _ _ _ _ _ E2). clear E2.
  destruct S as [Ho Hs Ht Htm Hh (Hv & Hpc & Hrd & Hho) Hp Hc Hcs Hcb Hpd Hnx Htr].
  assert (∀ h, ¬ dead_handle w2 h) as Hnd by (intros h; unfold dead_handle; rewrite Hh; apply not_elem_of_nil).
  destruct (deliver_req_ok X 3 0 2 (UvConnect 2 1) w2) as [He3 E3]; [by rewrite Hpd|by left|].
  cbn [deliver_req] in E3. rewrite Hpd, delete_singleton_eq in E3.
  rewrite (on_tcp_connect_ok X 2 1 start_timer) in E3;
    [|first [done|intros t _; apply (Hnd (HTimer t))]..].
  rewrite (run_split _ _ _ _ _ (run_one _ _ _ _ He3 E3)). clear He3 E3.
  match goal with |- context [run X _ ?v] => set (w3 := v) end.
  assert (w_pending w3 = {[4%positive := (2%positive, UvHandshakeReq 2)]}) as Hp3.
  { unfold w3. simpl. by rewrite Hnx. }
  destruct (deliver_req_ok X 4 0 2 (UvHandshakeReq 2) w3) as [He4 E4]; [by rewrite Hp3|by left|].
  cbn [deliver_req] in E4. rewrite Hp3, delete_singleton_eq in E4. set (w4 := set_w_pending ∅ w3) in E4.
  assert (pc__handshake_req_cb 2 0 w4 = Val (w4, tt)) as Ecb.
  { unfold pc__handshake_req_cb.
    rewrite (prog_bind_Val _ _ _ _ _ (get_transport_eq 2 w4 (mkTransport PC_TP_ST_WORKING true) (lookup_insert_eq _ _ _))).
    done. }
  rewrite Ecb in E4.
  exists (λ t, match t with HandshakeTimer => uv_timer_start HANDSHAKE_TIMEOUT 0 uv_timer_init | _ => start_timer t end), w4.
  split; [exact (run_one _ _ _ _ He4 E4)|].
  split; simpl; try done.
  - split; simpl; [done|by left|done|by rewrite lookup_insert_eq| |].
    + intros [] Hr; try done; simpl; by rewrite Htm.
    + intros t _. apply (Hnd (HTimer t)).
  - split; simpl; [by rewrite lookup_insert_eq|apply (Hnd (HSocket 2))|rewrite Hp; apply fresh_parser_wf|by rewrite Hp].
  - by rewrite Hp.
  - by rewrite Hnx.
  - by rewrite Htr.
Qed.
(** The answer of the server, read piece by piece. *)

Record answered (res sys : json_t) (hb : Z) (w : world M) : Prop := {
  an_transport : w_transports w !! 2%positive = Some (mkTransport PC_TP_ST_WORKING true);
  an_client : c_transport (w_client w) = Some 2%positive;
  an_conn : c_conn_req (w_client w) = Some 1%positive;
  an_conns : w_conns w = {[1%positive := mkConn (Some addr) (Some 2%positive) UserConnectCb]};
  an_pending : w_pending w = {[5%positive := (2%positive, UvHandshakeAck 2)]};
  an_trace : w_trace w = [OSend 2 (wire PC_PKG_HANDSHAKE handshake_text)] ++
    (if hcb then [OHandshakeCb (json_object_get (Some res) "user")] else []) ++ [OSend 2 [2; 0; 0; 0]];
  an_heartbeat : c_timers (w_client w) HeartbeatTimer = Some (mkTimer true (Some (1000 * hb)) (1000 * hb));
  an_timeout : c_timers (w_client w) TimeoutTimer = Some (mkTimer true None (2000 * hb));
  an_dict d : json_object_get (Some sys) "dict" = Some d →
    route_to_code (c_ctx (w_client w)) = Some d ∧ code_to_route (c_ctx (w_client w)) = Some (setup_dict d)
}.

(** The timers an accepted answer leaves. *)
Lemma start_timers hb :
  0 < hb ≤ 1073741 →
  uv_timer_again (uv_timer_set_repeat (1000 * hb) (mkTimer true None 0)) = mkTimer true (Some (1000 * hb)) (1000 * hb) ∧
  uv_timer_stop (uv_timer_set_repeat (2000 * hb) (mkTimer true None 0)) = mkTimer true None (2000 * hb).
Proof.
  intros Hr. assert (∀ k, 0 < k ≤ 2147482000 → u64 k = k) as Hu by (intros k Hk; apply wrap_small; int_solve).
  unfold uv_timer_again, uv_timer_set_repeat, uv_timer_stop. cbn. rewrite !Hu by lia.
  rewrite (proj2 (Z.eqb_neq (1000 * hb) 0)) by lia. cbn. unfold uv_timer_start. by rewrite !Hu by lia.
Qed.

Lemma handshake_read tm res sys hb body chunks w :
  connected tm w → json_loadb (x_malloc X) body 0 = Val (Some res) → accepts res sys hb → zlen body < 2 ^ 24 →
  (hcb = true → x_handshake_cb X (json_object_get (Some res) "user") = 0) →
  concat chunks = wire PC_PKG_HANDSHAKE body → Forall (λ c, c ≠ [] ∧ zlen c < 2 ^ 64) chunks →
  ∃ w', run X (map (λ c, LRead 2 (Some c)) chunks) w = Val (Some w') ∧ answered res sys hb w'.
Proof.
  intros [Hwt [T1 T2] Hls Hp Hcn Hcs Hhcb Hpd Hnx Htr] Hlb Ha Hb Hcb Hc Hch.
  assert (chunks ≠ []) as Hne by (intros ->; by destruct (wire_parts PC_PKG_HANDSHAKE body Hb) as ([] & ? & ? & _)).
  destruct (read_chunks X Hm 2 PC_PKG_HANDSHAKE body chunks w Hls Hch Hne Hb) as (p' & Hread).
  { by rewrite Hp. }
  assert (waiting 2 tm (with_parser p' (touched w))) as Hwr by (destruct Hwt; by split).
  pose proof (handshake_resp_ok X 2 tm res sys hb body _ Hwr Hlb Ha) as Er.
  pose proof (accepted_facts 2 tm hb (json_object_get (Some sys) "dict") (json_object_get (Some res) "user")
    (with_parser p' (touched w))) as F. cbv zeta in F. revert Er F.
  generalize (accepted_world 2 tm hb (json_object_get (Some sys) "dict") (json_object_get (Some res) "user")
    (with_parser p' (touched w))) as wa. intros wa Er (F1 & F2 & F3 & F4 & F5 & F6 & F7 & F8 & F9 & F10).
  destruct (Hread wa) as (q & _ & _ & _ & E2).
  { unfold pc__pkg_cb. change (u8 PC_PKG_HANDSHAKE =? PC_PKG_HANDSHAKE) with true. cbv iota.
    rewrite (prog_bind_Val _ _ _ _ _ (Er ltac:(rewrite <- Hhcb in Hcb; exact Hcb))). done. }
  { exact F1. }
  exists (with_parser q wa). split; [exact E2|]. simpl in F5, F2, F4, F3, F6, F7.
  destruct (start_timers hb (acc_range _ _ _ Ha)) as [S1 S2]. split; simpl.
  - rewrite F5. apply Hls.
  - rewrite F3. apply Hwt.
  - by rewrite F2.
  - by rewrite F4.
  - by rewrite F6, Hnx, Hpd.
  - by rewrite F7, Htr, Hhcb.
  - by rewrite F8, T1, S1.
  - by rewrite F9, T2, S2.
  - exact F10.
Qed.
End Start.

(** C4 (liveness). A client connects: when allocation and libuv succeed, the
    server's answer to the handshake, cut into any pieces, has code 200 and a
    heartbeat interval, and the user's handshake callback, if there is one,
    agrees, then the run of a new client sends exactly the handshake request and
    the acknowledgement, calls the user back with success, and ends in the
    working state with nothing pending, the heartbeat timer running with the
    server's interval, the timeout timer stopped with twice that interval, and
    the server's route dictionary installed. *)
Theorem client_connects (M : Type → Type) (SM : StringMap M) (X : externals) (hcb : bool) (w0 : world M)
    (addr : sockaddr_in) (res sys : json_t) (hb : Z) (body : bytes) (chunks : list bytes) :
  new_world None hcb [] = Val w0 → (∀ n, x_malloc X n = true) →
  x_read_file X PC_PROTO_VERSION = None →
  json_loadb (x_malloc X) body 0 = Val (Some res) → accepts res sys hb → zlen body < 2 ^ 24 →
  (hcb = true → x_handshake_cb X (json_object_get (Some res) "user") = 0) →
  concat chunks = wire PC_PKG_HANDSHAKE body → Forall (λ c, c ≠ [] ∧ zlen c < 2 ^ 64) chunks →
  ∃ w, run X (connect_events addr ++ map (λ c, LRead 2 (Some c)) chunks ++ [LReq 5 0]) w0 = Val (Some w) ∧
    c_state (w_client w) = PC_ST_WORKING ∧ c_transport (w_client w) = Some 2%positive ∧ w_pending w = ∅ ∧
    w_trace w = [OSend 2 (wire PC_PKG_HANDSHAKE handshake_text)] ++
      (if hcb then [OHandshakeCb (json_object_get (Some res) "user")] else []) ++
      [OSend 2 [2; 0; 0; 0]; OConnectCb 1 0] ∧
    c_timers (w_client w) HeartbeatTimer = Some (mkTimer true (Some (1000 * hb)) (1000 * hb)) ∧
    c_timers (w_client w) TimeoutTimer = Some (mkTimer true None (2000 * hb)) ∧
    (∀ d, json_object_get (Some sys) "dict" = Some d →
       route_to_code (c_ctx (w_client w)) = Some d ∧ code_to_route (c_ctx (w_client w)) = Some (setup_dict d)).
Proof.
  intros E Hm Hlf Hlb Ha Hb Hcb Hc Hch.
  destruct (connect_start X addr hcb Hlf Hm w0 E) as (tm & w1 & E1 & Hco). clear E.
  rewrite (run_split _ _ _ _ _ E1).
  destruct (handshake_read X addr hcb Hm tm res sys hb body chunks w1 Hco Hlb Ha Hb Hcb Hc Hch) as (w5 & E2 & A).
  rewrite (run_split _ _ _ _ _ E2). destruct A as [A1 A2 A3 A4 A5 A6 A7 A8 A9].
  destruct (deliver_req_ok X 5 0 2 (UvHandshakeAck 2) w5) as [He5 E5]; [by rewrite A5|by left|].
  cbn [deliver_req] in E5. rewrite A5, delete_singleton_eq in E5.
  rewrite (ack_cb_ok 2 1 (mkConn (Some addr) (Some 2%positive) UserConnectCb) _ (set_w_pending ∅ w5) A1 eq_refl A3) in E5;
    [|simpl; by rewrite A4|done].
  eexists. split; [exact (run_one _ _ _ _ He5 E5)|]. simpl. rewrite A6, <- !app_assoc. done.
Qed.
