(* ===== verification/ClientCall.v ===== *)
(** * A request and its response

    What happens to a request of a working client when everything goes well: it
    is queued, encoded and written, its id is remembered, and the response, cut
    into any pieces, is matched to it by its id and handed to its callback. *)

From S2P Require Import Prelude Package PackageStream StringMap Listeners Backoff Uv Float Jansson Protocol ClientState Client ClientLogic ClientInv ClientStop ClientConnect.
Local Open Scope Z_scope.

Section Call.
Context {M : Type → Type} `{SM : StringMap M} `{!StringMapOk M} (X : externals).
Implicit Types (w : world M).

(** A working client between two packages, in an environment that will not fail. *)
Record working (tp : positive) w : Prop := {
  wk_oracle : w_oracle w = [];
  wk_state : c_state (w_client w) = PC_ST_WORKING;
  wk_transport : c_transport (w_client w) = Some tp;
  wk_listening : listening tp w;
  wk_parser : pending (c_parser (w_client w)) = []
}.

Definition with_req (rq : positive) (r : pc_tcp_req_t) w : world M :=
  set_w_reqs (<[rq := r]> (w_reqs w)) w.

Lemma get_req_ok rq r w : w_reqs w !! rq = Some r → get_req rq w = Val (w, r).
Proof. intros Hr. unfold get_req, gets, mbind, prog_bind. by rewrite Hr. Qed.

(** ** The call *)

(** The request is given its id, the copy of the route and the message, and a
    wake-up is sent to the loop. *)
Definition submitted (rq tp : positive) (r : pc_tcp_req_t) (route : string) (msg : json_t) w : world M :=
  let id := u32 (w_req_id w + 1) in
  let w1 := with_req rq (mkReq (rq_type r) id (Some route) (Some msg) (Some tp)) (set_w_req_id id w) in
  set_w_asyncs (<[w_next w := rq]> (w_asyncs w)) (set_w_next (Pos.succ (w_next w)) w1).

Lemma request_ok tp rq r route msg w :
  working tp w → w_reqs w !! rq = Some r →
  pc_request rq (Some route) (Some msg) w = Val (submitted rq tp r route msg w, 0).
Proof.
  intros [Ho Hs Ht [Hl _ _ _] _] Hr. unfold pc_request.
  rewrite (prog_bind_Val the_client _ w w (w_client w)) by done.
  rewrite decide_False by (intros Hx; by apply Hx).
  rewrite (prog_bind_Val (gets _) _ w w (u32 (w_req_id w + 1))) by done.
  set (id := u32 (w_req_id w + 1)). rewrite (prog_bind_Val (modify _) _ w (set_w_req_id id w) tt) by done.
  rewrite (prog_bind_Val _ _ _ _ _ (get_req_ok rq r (set_w_req_id id w) Hr)).
  set (w1 := with_req rq (mkReq (rq_type r) id (rq_route r) (rq_msg r) (rq_transport r)) (set_w_req_id id w)).
  rewrite (prog_bind_Val (put_req _ _) _ (set_w_req_id id w) w1 tt) by done.
  rewrite Ht. unfold pc__async_write.
  rewrite (prog_bind_Val _ _ _ _ _ (get_transport_eq tp w1 _ Hl)). rewrite decide_False by (intros Hx; by apply Hx).
  rewrite (prog_bind_Val _ _ _ _ _ (get_req_ok rq _ w1 (lookup_insert_eq _ _ _))). cbn [rq_type rq_id].
  rewrite (prog_bind_Val _ _ _ _ _ (malloc_ok_ok w1 Ho)). cbn [negb].
  set (w2 := with_req rq (mkReq (rq_type r) id (Some route) (Some msg) (Some tp)) w1).
  rewrite (prog_bind_Val (put_req _ _) _ w1 w2 tt) by done. cbn [deref].
  rewrite (prog_bind_Val (mret msg) _ w2 w2 msg) by done.
  rewrite (prog_bind_Val _ _ _ _ _ (malloc_ok_ok w2 Ho)). cbn [negb].
  rewrite (prog_bind_Val _ _ _ _ _ (ask_ok w2 Ho)). cbn [negb Z.eqb].
  set (w3 := set_w_next (Pos.succ (w_next w2)) w2). rewrite (prog_bind_Val new_block _ w2 w3 (w_next w)) by done.
  rewrite (prog_bind_Val _ _ _ _ _ (ask_ok w3 Ho)). cbn [negb Z.eqb].
  unfold mbind, prog_bind, modify, mret, prog_ret. do 3 f_equal.
  unfold submitted, w3, w2, w1, with_req. simpl. by rewrite insert_insert_eq.
Qed.

(** ** On the loop *)

(** The wake-up is closed, the package written and the id remembered. *)
Definition posted (a rq tp : positive) (bs : bytes) (m : M positive) w : world M :=
  on_client (set_c_requests m)
    (sent tp (wire PC_PKG_DATA bs) (UvRequest rq) (touched (set_w_closing (w_closing w ++ [HAsync a]) w))).

Lemma requests_set_ok key rq G w :
  sm_rep (c_requests (w_client w)) G → G !! key = None →
  ∃ m, requests_set key rq w = Val (on_client (set_c_requests m) w, tt) ∧ sm_rep m (<[key := rq]> G).
Proof.
  intros Hr Hk. destruct (sm_set_ok _ _ G key rq Hr Hk) as (m & E & Hm). exists m. split; [|done].
  unfold requests_set. rewrite (prog_bind_Val the_client _ w w (w_client w)) by done.
  by rewrite (prog_bind_Val (lift _) _ w w (m, [])) by (unfold lift; by rewrite E).
Qed.

Lemma send_ok tp rq r rt id bs w :
  w_oracle w = [] → c_transport (w_client w) = Some tp → is_Some (w_transports w !! tp) →
  x_encode_msg X (c_ctx (w_client w)) id rt (rq_msg r) = Val (Some bs) → zlen bs < 2 ^ 24 →
  send_data X r id rt (UvRequest rq) w = Val (sent tp (wire PC_PKG_DATA bs) (UvRequest rq) w, true).
Proof.
  intros Ho Ht Hl He Hn. unfold send_data. pose proof (zlen_nonneg bs).
  rewrite (prog_bind_Val the_client _ w w (w_client w)) by done.
  rewrite (prog_bind_Val (lift _) _ w w (Some bs)) by (unfold lift; by rewrite He).
  rewrite (prog_bind_Val _ _ _ _ _ (malloc_ok_ok w Ho)).
  rewrite (prog_bind_Val (lift _) _ w w (Some (wire PC_PKG_DATA bs))); cycle 1.
  { unfold lift. rewrite pkg_encode_eq by lia. rewrite (proj2 (Z.ltb_lt _ _)) by lia. done. }
  do 2 (rewrite (prog_bind_Val _ _ _ _ _ (malloc_ok_ok w Ho)); cbn [negb]). rewrite Ht. cbn [deref].
  rewrite (prog_bind_Val (mret tp) _ w w tp) by done.
  by rewrite (prog_bind_Val _ _ _ _ _ (uv_write_ok tp _ (UvRequest rq) w Ho Hl)).
Qed.

Lemma async_ok a rq tp id rt msg bs G w :
  working tp w → ¬ dead_handle w (HAsync a) →
  w_reqs w !! rq = Some (mkReq PC_REQUEST id (Some rt) (Some msg) (Some tp)) →
  x_encode_msg X (c_ctx (w_client w)) id rt (Some msg) = Val (Some bs) → zlen bs < 2 ^ 24 →
  sm_rep (c_requests (w_client w)) G → G !! sprintf_u id = None →
  ∃ m, pc__async_write_cb X a rq 0 w = Val (posted a rq tp bs m w, tt) ∧ sm_rep m (<[sprintf_u id := rq]> G).
Proof.
  intros Hw Hd Hr He Hn HG Hk. unfold pc__async_write_cb.
  rewrite (prog_bind_Val _ _ _ _ _ (uv_close_eq (HAsync a) w Hd)). set (w1 := set_w_closing _ w).
  rewrite (prog_bind_Val _ _ _ _ _ (get_req_ok rq _ w1 Hr)). cbn [rq_msg deref].
  rewrite (prog_bind_Val (mret msg) _ w1 w1 msg) by done. cbn [rq_type]. unfold pc__request. cbn [Z.eqb].
  rewrite (prog_bind_Val _ _ _ _ _ (get_req_ok rq _ w1 Hr)). cbn [rq_transport deref rq_route rq_id].
  rewrite (prog_bind_Val (mret tp) _ w1 w1 tp) by done.
  rewrite (prog_bind_Val _ _ _ _ _ (get_transport_eq tp w1 _ (ls_transport _ _ (wk_listening _ _ Hw)))).
  rewrite decide_False by (intros Hx; by apply Hx).
  rewrite (prog_bind_Val touch_time _ w1 (touched w1) tt) by done.
  rewrite (prog_bind_Val (mret rt) _ (touched w1) (touched w1) rt) by done.
  set (r := mkReq _ _ _ _ _).
  rewrite (prog_bind_Val _ _ _ _ _ (send_ok tp rq r rt id bs (touched w1) (wk_oracle _ _ Hw) (wk_transport _ _ Hw)
    ltac:(eexists; apply (ls_transport _ _ (wk_listening _ _ Hw))) He Hn)). cbn [negb].
  destruct (requests_set_ok (sprintf_u id) rq G (sent tp (wire PC_PKG_DATA bs) (UvRequest rq) (touched w1)))
    as (m & E & Hm); [exact HG|exact Hk|]. exists m. by rewrite E.
Qed.

(** ** The response *)

(** The request is forgotten and called back. *)
Lemma response_ok rq r key id (resp : option json_t) rt G w :
  key = sprintf_u id → sm_rep (c_requests (w_client w)) G → G !! key = Some rq → w_reqs w !! rq = Some r →
  ∃ m, pc__process_response (mkMsg id rt resp) w =
      Val (set_w_trace (w_trace w ++ [ORequestCb rq 0 resp]) (on_client (set_c_requests m) w), tt) ∧
    sm_rep m (delete key G).
Proof.
  intros -> HG Hk Hr. destruct (sm_del_ok _ _ G (sprintf_u id) HG) as (m & E & Hm). exists m. split; [|done].
  unfold pc__process_response. cbn [msg_id msg].
  rewrite (prog_bind_Val (requests_get _) _ w w (Some rq)); cycle 1.
  { unfold requests_get. rewrite (prog_bind_Val the_client _ w w (w_client w)) by done.
    unfold lift. by rewrite (sm_get_ok _ _ G _ HG), Hk. }
  rewrite (prog_bind_Val (requests_del _) _ w (on_client (set_c_requests m) w) tt); cycle 1.
  { unfold requests_del. rewrite (prog_bind_Val the_client _ w w (w_client w)) by done.
    rewrite (prog_bind_Val (lift _) _ w w (m, G !! sprintf_u id)) by (unfold lift; by rewrite E). done. }
  unfold call_request_cb. by rewrite (prog_bind_Val _ _ _ _ _ (get_req_ok rq r (on_client (set_c_requests m) w) Hr)).
Qed.

(** A data package whose message answers the request. *)
Lemma data_ok rq r id rt (resp : option json_t) body G w :
  0 < id → sm_rep (c_requests (w_client w)) G → G !! sprintf_u id = Some rq →
  w_reqs w !! rq = Some r → rq_route r = Some rt →
  (∀ look, look (sprintf_u id) = Val (Some rt) →
     x_parse_msg X (c_ctx (w_client w)) look body = Val (Some (mkMsg id None resp))) →
  ∃ m, pc__pkg_cb X PC_PKG_DATA body w =
      Val (set_w_trace (w_trace w ++ [ORequestCb rq 0 resp]) (on_client (set_c_requests m) w), tt) ∧
    sm_rep m (delete (sprintf_u id) G).
Proof.
  intros Hid HG Hk Hr Hrt Hp.
  destruct (response_ok rq r (sprintf_u id) id resp None G w eq_refl HG Hk Hr) as (m & E & Hm).
  exists m. split; [|done]. unfold pc__pkg_cb.
  change (PC_PKG_DATA =? PC_PKG_HANDSHAKE) with false. change (PC_PKG_DATA =? PC_PKG_HEARBEAT) with false.
  change (PC_PKG_DATA =? PC_PKG_DATA) with true. cbv iota.
  rewrite (prog_bind_Val (pc__data X body) _ w
    (set_w_trace (w_trace w ++ [ORequestCb rq 0 resp]) (on_client (set_c_requests m) w)) 0); [done|].
  unfold pc__data. rewrite (prog_bind_Val the_client _ w w (w_client w)) by done.
  rewrite (prog_bind_Val (gets _) _ w w (request_route w)) by done.
  rewrite (prog_bind_Val (lift _) _ w w (Some (mkMsg id None resp))); cycle 1.
  { unfold lift. rewrite Hp; [done|]. unfold request_route. by rewrite (sm_get_ok _ _ G _ HG), bind_Val, Hk, Hr, Hrt. }
  cbn [msg_id]. rewrite (proj2 (Z.gtb_lt id 0)) by lia. by rewrite (prog_bind_Val _ _ _ _ _ E).
Qed.

(** ** The whole exchange *)

Lemma working_same tp w w' :
  working tp w → w_oracle w' = w_oracle w → c_state (w_client w') = c_state (w_client w) →
  c_transport (w_client w') = c_transport (w_client w) → w_transports w' = w_transports w →
  (dead_handle w' (HSocket tp) → dead_handle w (HSocket tp)) →
  parser_wf (c_parser (w_client w')) → state (c_parser (w_client w')) ≠ PC_PKG_CLOSED →
  pending (c_parser (w_client w')) = [] → working tp w'.
Proof.
  intros [Ho Hs Ht [L1 L2 L3 L4] Hp] E1 E2 E3 E5 Hd P1 P2 P3. split; [congruence..| |done].
  split; [congruence|auto|done|done].
Qed.

Lemma working_keep tp w w' :
  working tp w → w_oracle w' = w_oracle w → c_state (w_client w') = c_state (w_client w) →
  c_transport (w_client w') = c_transport (w_client w) → w_transports w' = w_transports w →
  (dead_handle w' (HSocket tp) → dead_handle w (HSocket tp)) →
  c_parser (w_client w') = c_parser (w_client w) → working tp w'.
Proof. intros Hw ? ? ? ? ? E. apply (working_same tp w); try done; rewrite E; apply Hw. Qed.

Lemma working_touched tp ps w : working tp w → working tp (touched (set_w_pending ps w)).
Proof. intros Hw. by apply (working_keep tp w). Qed.

(** The three events of a request that is written. *)
Lemma run_request tp rq r route msg w :
  working tp w → w_reqs w !! rq = Some r →
  run X [URequest rq (Some route) (Some msg)] w =
    Val (Some (set_w_trace (w_trace w ++ [OAccepted rq]) (submitted rq tp r route msg w))).
Proof.
  intros Hw Hr. apply run_one; [done|]. cbn [deliver].
  by rewrite (prog_bind_Val _ _ _ _ _ (request_ok tp rq r route msg w Hw Hr)).
Qed.

Lemma run_async a rq tp id rt msg bs G w :
  working tp w → w_asyncs w !! a = Some rq → ¬ dead_handle w (HAsync a) →
  w_reqs w !! rq = Some (mkReq PC_REQUEST id (Some rt) (Some msg) (Some tp)) →
  x_encode_msg X (c_ctx (w_client w)) id rt (Some msg) = Val (Some bs) → zlen bs < 2 ^ 24 →
  sm_rep (c_requests (w_client w)) G → G !! sprintf_u id = None →
  ∃ m, run X [LAsync a] w = Val (Some (posted a rq tp bs m (set_w_asyncs (delete a (w_asyncs w)) w))) ∧
    sm_rep m (<[sprintf_u id := rq]> G).
Proof.
  intros Hw Ha Hd Hr He Hn HG Hk. set (w1 := set_w_asyncs (delete a (w_asyncs w)) w).
  assert (working tp w1) as Hw1 by (by apply (working_keep tp w)).
  destruct (async_ok a rq tp id rt msg bs G w1) as (m & E & Hm);
    [done|exact Hd|exact Hr|exact He|done|exact HG|done|].
  exists m. split; [|done]. apply run_one.
  - cbn [enabled]. rewrite Ha, bool_decide_true by (by eexists). apply bool_decide_eq_true. exact Hd.
  - cbn [deliver]. rewrite (prog_bind_Val (gets _) _ w w (Some rq)) by (unfold gets; by rewrite Ha).
    cbn [deref]. rewrite (prog_bind_Val (mret rq) _ w w rq) by done.
    by rewrite (prog_bind_Val (modify _) _ w w1 tt) by done.
Qed.

Lemma run_written n rq r tp tp' w :
  working tp w → w_pending w !! n = Some (tp', UvRequest rq) →
  w_reqs w !! rq = Some r → rq_transport r = Some tp →
  run X [LReq n 0] w = Val (Some (touched (set_w_pending (delete n (w_pending w)) w))).
Proof.
  intros Hw Hp Hr Ht. destruct (deliver_req_ok X n 0 tp' (UvRequest rq) w Hp ltac:(by left)) as [He E].
  apply run_one; [done|]. rewrite E. cbn [deliver_req]. set (w1 := set_w_pending _ w). unfold pc__on_request.
  rewrite (prog_bind_Val _ _ _ _ _ (get_req_ok rq r w1 Hr)). rewrite Ht. cbn [deref].
  rewrite (prog_bind_Val (mret tp) _ w1 w1 tp) by done.
  rewrite (prog_bind_Val _ _ _ _ _ (get_transport_eq tp w1 _ (ls_transport _ _ (wk_listening _ _ Hw)))).
  rewrite (prog_bind_Val touch_time _ w1 (touched w1) tt) by done.
  by rewrite decide_False by (intros Hx; by apply Hx).
Qed.

(** The request up to the completion of its write. *)
Lemma request_written tp rq r route msg bs G w :
  working tp w → w_reqs w !! rq = Some r → rq_type r = PC_REQUEST → ¬ dead_handle w (HAsync (w_next w)) →
  let id := u32 (w_req_id w + 1) in
  sm_rep (c_requests (w_client w)) G → G !! sprintf_u id = None →
  x_encode_msg X (c_ctx (w_client w)) id route (Some msg) = Val (Some bs) → zlen bs < 2 ^ 24 →
  ∃ w', run X [URequest rq (Some route) (Some msg); LAsync (w_next w); LReq (Pos.succ (w_next w)) 0] w = Val (Some w') ∧
    working tp w' ∧ w_trace w' = w_trace w ++ [OAccepted rq; OSend tp (wire PC_PKG_DATA bs)] ∧
    sm_rep (c_requests (w_client w')) (<[sprintf_u id := rq]> G) ∧ c_ctx (w_client w') = c_ctx (w_client w) ∧
    w_reqs w' !! rq = Some (mkReq PC_REQUEST id (Some route) (Some msg) (Some tp)).
Proof.
  intros Hw Hr Hty Hd id HG Hk He Hn. set (a := w_next w).
  change [URequest rq (Some route) (Some msg); LAsync a; LReq (Pos.succ a) 0]
    with ([URequest rq (Some route) (Some msg)] ++ [LAsync a] ++ [LReq (Pos.succ a) 0]).
  rewrite (run_split _ _ _ _ _ (run_request tp rq r route msg w Hw Hr)).
  set (w1 := set_w_trace _ (submitted rq tp r route msg w)).
  assert (working tp w1) as Hw1 by (by apply (working_keep tp w)).
  assert (w_reqs w1 !! rq = Some (mkReq PC_REQUEST id (Some route) (Some msg) (Some tp))) as Hr1.
  { unfold w1, submitted, with_req. simpl. by rewrite lookup_insert_eq, Hty. }
  destruct (run_async a rq tp id route msg bs G w1) as (m & E2 & Hm);
    [done|apply lookup_insert_eq|exact Hd|done|exact He|done|exact HG|done|].
  rewrite (run_split _ _ _ _ _ E2). set (w2 := posted _ _ _ _ _ _).
  assert (working tp w2) as Hw2.
  { apply (working_keep tp w1); try done. unfold dead_handle, w2, posted. simpl.
    rewrite !elem_of_app, list_elem_of_singleton. intros [[?|[=]]|?]; auto. }
  rewrite (run_written (Pos.succ a) rq _ tp tp w2 Hw2 (lookup_insert_eq _ _ _) Hr1) by done.
  eexists. split; [reflexivity|]. split; [exact (working_touched tp _ w2 Hw2)|].
  split; [unfold w2, posted, w1; simpl; by rewrite <- app_assoc|]. done.
Qed.

(** The response, read piece by piece. *)
Lemma response_read tp rq r id rt (resp : option json_t) body chunks G w :
  (∀ n, x_malloc X n = true) → working tp w → 0 < id →
  sm_rep (c_requests (w_client w)) G → G !! sprintf_u id = Some rq →
  w_reqs w !! rq = Some r → rq_route r = Some rt →
  (∀ look, look (sprintf_u id) = Val (Some rt) →
     x_parse_msg X (c_ctx (w_client w)) look body = Val (Some (mkMsg id None resp))) →
  zlen body < 2 ^ 24 → concat chunks = wire PC_PKG_DATA body → Forall (λ c, c ≠ [] ∧ zlen c < 2 ^ 64) chunks →
  ∃ w', run X (map (λ c, LRead tp (Some c)) chunks) w = Val (Some w') ∧ working tp w' ∧
    w_trace w' = w_trace w ++ [ORequestCb rq 0 resp] ∧
    sm_rep (c_requests (w_client w')) (delete (sprintf_u id) G).
Proof.
  intros Hm Hw Hid HG Hk Hr Hrt Hp Hb Hc Hch.
  assert (chunks ≠ []) as Hne by (intros ->; by destruct (wire_parts PC_PKG_DATA body Hb) as ([] & ? & ? & _)).
  destruct (read_chunks X Hm tp PC_PKG_DATA body chunks w (wk_listening _ _ Hw) Hch Hne Hb) as (p' & Hread).
  { by rewrite (wk_parser _ _ Hw). }
  destruct (data_ok rq r id rt resp body G (with_parser p' (touched w))) as (m & E & Hm'); [done..|].
  destruct (Hread _ E) as (q & Q1 & Q2 & Q3 & Er); [done|]. eexists. split; [exact Er|].
  split; [by apply (working_same tp w)|]. done.
Qed.

End Call.

(** C5 (liveness). A request of a working client is answered: when allocation and
    libuv succeed, the codec encodes the request and parses the response, and the
    id is not in use, then submitting the request, the wake-up of the loop, the
    completion of the write and the response, cut into any pieces, send exactly
    the encoded request and call the request back exactly once with the parsed
    response; afterwards the id is free, the other pending requests are
    untouched, and the client works as before. *)
Theorem request_answered (M : Type → Type) (SM : StringMap M) (OK : StringMapOk M) (X : externals)
    (tp rq : positive) (r : pc_tcp_req_t) (route : string) (msg : json_t) (resp : option json_t)
    (bs body : bytes) (chunks : list bytes) (G : gmap string positive) (w : world M) (id : Z) :
  (∀ n, x_malloc X n = true) → working tp w → id = u32 (w_req_id w + 1) → 0 < id →
  w_reqs w !! rq = Some r → rq_type r = PC_REQUEST → ¬ dead_handle w (HAsync (w_next w)) →
  sm_rep (c_requests (w_client w)) G → G !! sprintf_u id = None →
  x_encode_msg X (c_ctx (w_client w)) id route (Some msg) = Val (Some bs) → zlen bs < 2 ^ 24 →
  (∀ look, look (sprintf_u id) = Val (Some route) →
     x_parse_msg X (c_ctx (w_client w)) look body = Val (Some (mkMsg id None resp))) →
  zlen body < 2 ^ 24 → concat chunks = wire PC_PKG_DATA body → Forall (λ c, c ≠ [] ∧ zlen c < 2 ^ 64) chunks →
  ∃ w', run X ([URequest rq (Some route) (Some msg); LAsync (w_next w); LReq (Pos.succ (w_next w)) 0] ++
               map (λ c, LRead tp (Some c)) chunks) w = Val (Some w') ∧
    w_trace w' = w_trace w ++ [OAccepted rq; OSend tp (wire PC_PKG_DATA bs); ORequestCb rq 0 resp] ∧
    sm_rep (c_requests (w_client w')) G ∧ working tp w'.
Proof.
  intros Hm Hw -> Hid Hr Hty Hd HG Hk He Hn Hp Hb Hc Hch.
  destruct (request_written X tp rq r route msg bs G w Hw Hr Hty Hd HG Hk He Hn)
    as (w1 & E1 & Hw1 & T1 & G1 & C1 & R1).
  rewrite (run_split _ _ _ _ _ E1).
  rewrite <- C1 in Hp.
  destruct (response_read X tp rq _ _ route resp body chunks _ w1 Hm Hw1 Hid G1 (lookup_insert_eq _ _ _) R1 eq_refl Hp
    Hb Hc Hch) as (w2 & E2 & Hw2 & T2 & G2).
  exists w2. split; [exact E2|]. rewrite T2, T1, <- app_assoc. split; [done|].
  rewrite delete_insert_id in G2 by done. done.
Qed.
