(* ===== verification/ClientReconnect.v ===== *)
(** * Reconnecting

    A client that reconnects does not close when it is stopped: it drops the
    connection, calls the stored requests back with an error, resets its parser
    and the state of the session, and starts the reconnection timer with the
    delay of the attempt. *)

From S2P Require Import Prelude Package StringMap Listeners Backoff Uv Float Jansson Protocol ClientState Client ClientLogic ClientInv ClientStop ClientConnect ClientCall.
Local Open Scope Z_scope.

Section Reconnect.
Context {M : Type → Type} `{SM : StringMap M} `{!StringMapOk M}.
Implicit Types (w : world M).

(** ** The stored requests *)

Definition gave_up (kv : string * positive) : obs := ORequestCb kv.2 (-1) None.

Lemma release_ok rel w :
  Forall (λ kv, is_Some (w_reqs w !! kv.2)) rel →
  release_requests rel w = Val (set_w_trace (w_trace w ++ map gave_up rel) w, tt).
Proof.
  revert w. induction rel as [|[k rq] rel IH]; intros w Hl; cbn [release_requests map].
  { rewrite app_nil_r. by destruct w. }
  apply Forall_cons_1 in Hl as [[r Hr] Hl]. unfold pc__release_requests, call_request_cb.
  rewrite (prog_bind_Val _ _ w (set_w_trace (w_trace w ++ [gave_up (k, rq)]) w) tt); cycle 1.
  { by rewrite (prog_bind_Val _ _ _ _ _ (get_req_ok rq r w Hr)). }
  rewrite IH by exact Hl. cbn [w_trace set_w_trace]. by rewrite <- app_assoc.
Qed.

Lemma requests_clear_ok G w :
  sm_rep (c_requests (w_client w)) G → (∀ k rq, G !! k = Some rq → is_Some (w_reqs w !! rq)) →
  ∃ m rel, requests_clear w =
      Val (set_w_trace (w_trace w ++ map gave_up rel) (on_client (set_c_requests m) w), tt) ∧
    rel ≡ₚ map_to_list G ∧ sm_rep m ∅.
Proof.
  intros HG Hl. destruct (sm_clear_ok _ _ G HG) as (m & rel & E & Hp & Hm). exists m, rel. split; [|done].
  unfold requests_clear. rewrite (prog_bind_Val the_client _ w w (w_client w)) by done.
  rewrite (prog_bind_Val (lift _) _ w w (m, rel)) by (unfold lift; by rewrite E).
  rewrite (prog_bind_Val _ _ _ _ _ (upd_ok _ _)). rewrite release_ok; [done|].
  rewrite Hp. apply Forall_forall. intros [k rq] Hx%elem_of_map_to_list. by apply (Hl k).
Qed.

(** ** The reset *)

(** The timers of the client are open. *)
Definition timers_open (tm : timer_id → uv_timer_t) w : Prop :=
  ∀ t, c_timers (w_client w) t = Some (tm t) ∧ ¬ dead_handle w (HTimer t).

Lemma stop_if_ok t s tm w :
  timers_open tm w → stop_if t s w = Val (with_timer s (uv_timer_stop (tm s)) w, true).
Proof.
  intros Ho. unfold stop_if. rewrite (prog_bind_Val the_client _ w w (w_client w)) by done.
  rewrite (proj1 (Ho t)). by rewrite (prog_bind_Val _ _ _ _ _ (on_timer_ok s _ (tm s) w (proj1 (Ho s)) (proj2 (Ho s)))).
Qed.

Lemma timers_open_stop s tm w :
  timers_open tm w →
  timers_open (λ t, if decide (t = s) then uv_timer_stop (tm s) else tm t) (with_timer s (uv_timer_stop (tm s)) w).
Proof. intros Ho t. split; [simpl; case_decide; [done|apply Ho]|apply Ho]. Qed.

Lemma timers_open_client f tm w :
  (∀ c, c_timers (f c) = c_timers c) → timers_open tm w → timers_open tm (on_client f w).
Proof. intros Hf Ho t. simpl. rewrite Hf. apply Ho. Qed.

(** The transport is dropped; the timers stay. *)
Lemma drop_ok tm w :
  base w → timers_open tm w →
  ∃ w', drop_transport w = Val (w', tt) ∧ timers_open tm w' ∧ c_transport (w_client w') = None ∧
    c_requests (w_client w') = c_requests (w_client w) ∧ c_parser (w_client w') = c_parser (w_client w) ∧
    c_conf (w_client w') = c_conf (w_client w) ∧ c_reconnects (w_client w') = c_reconnects (w_client w) ∧
    c_reconnecting (w_client w') = c_reconnecting (w_client w) ∧
    w_reqs w' = w_reqs w ∧ w_trace w' = w_trace w ∧ w_oracle w' = w_oracle w.
Proof.
  intros B Ho. eexists. split; [exact (drop_eq w B)|].
  destruct (c_transport (w_client w)) as [tp|] eqn:Ec; [|done].
  destruct (b_ctp _ B tp Ec) as (t & Ht & _). rewrite Ht. split; [|done].
  intros t'. split; [apply Ho|]. intros [[Hx|[=]%list_elem_of_singleton]%elem_of_app|Hx]%elem_of_app;
    apply (proj2 (Ho t')), elem_of_app; auto.
Qed.

(** What the reset leaves; [rel] are the requests called back. *)
Record was_reset (tm : timer_id → uv_timer_t) (G : gmap string positive) w w' : Prop := {
  rs_state : c_state (w_client w') = PC_ST_INITED;
  rs_transport : c_transport (w_client w') = None;
  rs_requests : sm_rep (c_requests (w_client w')) (∅ : gmap string positive);
  rs_trace : ∃ rel, rel ≡ₚ map_to_list G ∧ w_trace w' = w_trace w ++ map gave_up rel;
  rs_parser : pending (c_parser (w_client w')) = [];
  rs_heartbeat : c_heartbeat (w_client w') = 0 ∧ c_timeout (w_client w') = 0;
  rs_timers : timers_open (λ t, match t with
      | HeartbeatTimer | TimeoutTimer => uv_timer_stop (tm t)
      | _ => tm t
      end) w';
  rs_session : c_ctx (w_client w') = mkCtx None None None None ∧ c_handshake_opts (w_client w') = None;
  rs_rest : c_conf (w_client w') = c_conf (w_client w) ∧ c_reconnects (w_client w') = c_reconnects (w_client w) ∧
    c_reconnecting (w_client w') = c_reconnecting (w_client w) ∧ w_oracle w' = w_oracle w
}.

Lemma stop_stop tm : uv_timer_stop (uv_timer_stop tm) = uv_timer_stop tm.
Proof. by destruct tm as [? [] ?]. Qed.

Lemma reset_parser_ok p :
  pkg_buf p ≠ PFreed → ∃ q, pc_pkg_parser_reset p = Val q ∧ pending q = [].
Proof.
  intros Hp. unfold pc_pkg_parser_reset. destruct (state p) eqn:Hs.
  3: { exists p. split; [done|]. unfold pending. by rewrite Hs. }
  all: destruct (pkg_buf p); [..|done]; simpl; eexists; (split; [done|]); done.
Qed.

Lemma reset_ok tm G w :
  base w → timers_open tm w → sm_rep (c_requests (w_client w)) G →
  (∀ k rq, G !! k = Some rq → is_Some (w_reqs w !! rq)) → pkg_buf (c_parser (w_client w)) ≠ PFreed →
  ∃ w', pc__client_reconnect_reset w = Val (w', tt) ∧ was_reset tm G w w'.
Proof.
  intros B Ho HG Hl Hp. destruct (drop_ok tm w B Ho) as (w1 & E1 & Ho1 & Ht1 & R1 & P1 & C1 & N1 & B1 & Q1 & T1 & O1).
  unfold pc__client_reconnect_reset. rewrite (prog_bind_Val _ _ _ _ _ E1).
  rewrite (prog_bind_Val _ _ _ _ _ (stop_if_ok HeartbeatTimer HeartbeatTimer tm w1 Ho1)). cbn [when].
  apply (timers_open_stop HeartbeatTimer) in Ho1. apply (timers_open_client (set_c_heartbeat 0)) in Ho1; [|done].
  rewrite (prog_bind_Val _ _ _ _ _ (upd_ok _ _)). set (w2 := on_client (set_c_heartbeat 0) _) in *.
  rewrite (prog_bind_Val _ _ _ _ _ (stop_if_ok TimeoutTimer TimeoutTimer _ w2 Ho1)). cbn [when].
  apply (timers_open_stop TimeoutTimer) in Ho1. apply (timers_open_client (set_c_timeout 0)) in Ho1; [|done].
  rewrite (prog_bind_Val _ _ _ _ _ (upd_ok _ _)). set (w3 := on_client (set_c_timeout 0) _) in *.
  rewrite (prog_bind_Val _ _ _ _ _ (stop_if_ok HandshakeTimer TimeoutTimer _ w3 Ho1)).
  apply (timers_open_stop TimeoutTimer) in Ho1. set (w4 := with_timer TimeoutTimer _ w3) in *.
  destruct (requests_clear_ok G w4) as (m & rel & E5 & Hrel & Hm).
  { change (c_requests (w_client w4)) with (c_requests (w_client w1)). by rewrite R1. }
  { change (w_reqs w4) with (w_reqs w1). by rewrite Q1. }
  rewrite (prog_bind_Val _ _ _ _ _ E5). set (w5 := set_w_trace _ _).
  rewrite (prog_bind_Val the_client _ w5 w5 (w_client w5)) by done.
  destruct (reset_parser_ok (c_parser (w_client w5))) as (q & Eq & Hq).
  { change (c_parser (w_client w5)) with (c_parser (w_client w1)). by rewrite P1. }
  rewrite (prog_bind_Val (lift _) _ w5 w5 q) by (unfold lift; by rewrite Eq).
  do 3 rewrite (prog_bind_Val _ _ _ _ _ (upd_ok _ _)). rewrite upd_ok. eexists. split; [reflexivity|].
  split; simpl; try done.
  - exists rel. split; [done|]. by rewrite T1.
  - intros t. destruct (Ho1 t) as [Htm Hd]. split; [|exact Hd]. simpl in Htm |- *. rewrite Htm.
    destruct t; cbn; rewrite ?stop_stop; done.
Qed.

(** The next answer of the environment. *)
Lemma ask_some w : ∃ o, ask w = Val (set_w_oracle o w, default 0 (head (w_oracle w))).
Proof. unfold ask. destruct (w_oracle w) as [|z o] eqn:Eo; [exists []|by exists o]. destruct w. simpl in Eo. by subst. Qed.

End Reconnect.

(** C11 (functional). Stopping a client that reconnects, in any world it reaches
    before it is disconnected (its timers open, no attempt under way): the call
    returns, the client is back in its initial state without a transport, every
    stored request has been called back once with -1 and the table is empty, the
    parser waits for the head of a package, the session is forgotten, the
    heartbeat and timeout timers are stopped, and the reconnection timer is started to
    fire once, in a second or later ([Backoff.v] is about the length of the delay). The
    maximum delay is below 1073742 seconds, fewer than 2^31 - 1 attempts were made, the
    parser's buffer is not freed and the stored requests are alive. *)
Theorem stop_reconnects (M : Type → Type) (SM : StringMap M) (OK : StringMapOk M) (X : externals)
    (log_int : Z → Z → Z) (delay delay_max exp : Z) (conf : reconnect_conf) (hcb : bool) (oracle : list Z)
    (w0 w : world M) (tm : timer_id → uv_timer_t) (G : gmap string positive) :
  ln_floor log_int → conf_of log_int delay delay_max exp conf → delay_max < 1073742 →
  new_world (Some conf) hcb oracle = Val w0 → reach X w0 w →
  c_state (w_client w) ≠ PC_ST_DISCONNECTING → c_reconnecting (w_client w) = false → timers_open tm w →
  0 ≤ c_reconnects (w_client w) < 2 ^ 31 - 1 → pkg_buf (c_parser (w_client w)) ≠ PFreed →
  0 ≤ default 0 (head (w_oracle w)) →
  sm_rep (c_requests (w_client w)) G → (∀ k rq, G !! k = Some rq → is_Some (w_reqs w !! rq)) →
  let n := c_reconnects (w_client w) + 1 in
  ∃ w' ms, pc_client_stop w = Val (w', tt) ∧
    c_state (w_client w') = PC_ST_INITED ∧ c_transport (w_client w') = None ∧
    c_reconnecting (w_client w') = true ∧ c_reconnects (w_client w') = n ∧
    sm_rep (c_requests (w_client w')) (∅ : gmap string positive) ∧
    (∃ rel, rel ≡ₚ map_to_list G ∧ w_trace w' = w_trace w ++ map gave_up rel) ∧
    pending (c_parser (w_client w')) = [] ∧ c_ctx (w_client w') = mkCtx None None None None ∧
    c_timers (w_client w') HeartbeatTimer = Some (uv_timer_stop (tm HeartbeatTimer)) ∧
    c_timers (w_client w') TimeoutTimer = Some (uv_timer_stop (tm TimeoutTimer)) ∧
    c_timers (w_client w') ReconnectTimer = Some (mkTimer true (Some ms) 0) ∧ 1000 ≤ ms.
Proof.
  intros Hln Hconf Hmax E Hr Hs Hrc Ho Hn Hp Hrand HG Hl n.
  destruct (reach_inv X _ _ _ _ _ E Hr) as [B _].
  destruct (reach_handles X _ _ _ _ _ E Hr) as (_ & He & Hc & _). change (c_conf (w_client w) = conf) in Hc.
  set (w1 := on_client (set_c_reconnecting true) w).
  assert (base w1) as B1 by (destruct B; by split).
  destruct (reset_ok tm G w1 B1 Ho HG Hl Hp) as (w2 & E2 & [R1 R2 R3 R4 R5 R6 R7 R8 (R9 & R10 & R11 & R12)]).
  destruct (ask_some (on_client (set_c_reconnects n) w2)) as [o E3]. set (rand := default 0 _) in E3.
  assert (0 ≤ rand) as Hrd by (unfold rand; simpl; by rewrite R12).
  destruct (backoff_ms_ok log_int delay delay_max exp conf n rand) as (d & ms & _ & E4 & Hms & Hd & Hdm & _); [done..|lia|done|].
  set (w3 := set_w_oracle o _) in E3.
  assert (c_timers (w_client w3) ReconnectTimer = Some (tm ReconnectTimer) ∧ ¬ dead_handle w3 (HTimer ReconnectTimer))
    as [Ht3 Hd3] by apply (R7 ReconnectTimer).
  exists (with_timer ReconnectTimer (mkTimer true (Some ms) 0) w3), ms. split.
  { unfold pc_client_stop. rewrite (prog_bind_Val the_client _ w w (w_client w)) by done. cbv zeta.
    rewrite He, bool_decide_true by done. cbn [andb]. rewrite Hrc. unfold pc__client_reconnect.
    rewrite (prog_bind_Val _ _ _ _ _ (upd_ok _ _)). fold w1. rewrite (prog_bind_Val _ _ _ _ _ E2).
    rewrite (prog_bind_Val the_client _ w2 w2 (w_client w2)) by done.
    rewrite (prog_bind_Val (lift _) _ w2 w2 n); cycle 1.
    { unfold lift. rewrite R10. change (c_reconnects (w_client w1) + 1) with n. by rewrite chk32_ok by lia. }
    rewrite (prog_bind_Val _ _ _ _ _ (upd_ok _ _)). rewrite (prog_bind_Val _ _ _ _ _ E3).
    rewrite (prog_bind_Val (lift _) _ w3 w3 ms); cycle 1.
    { unfold lift. rewrite R9. change (c_conf (w_client w1)) with (c_conf (w_client w)). by rewrite Hc, E4. }
    rewrite (on_timer_ok ReconnectTimer _ _ w3 Ht3 Hd3). unfold uv_timer_start. rewrite !wrap_small by int_solve. done. }
  destruct R4 as (rel & Hrel & Htr). repeat split; simpl; try done; try lia.
  - by exists rel.
  - apply R8.
  - apply (R7 HeartbeatTimer).
  - apply (R7 TimeoutTimer).
Qed.
