(* ===== verification/ClientExamples.v ===== *)
(** * Runs of a client

    A concrete environment, with the default message codecs, the pointer-level
    map and a server that answers the handshake, and runs of the client in it:
    the scenarios that show the theorems of [ClientInv.v], [ClientRequests.v],
    [ClientTimers.v] and [ClientStop.v] at work, and those in which the code does not do what its
    documentation says. *)

From S2P Require Import Prelude Package PcMap StringMap Listeners Backoff Uv Float Jansson JsonDump JsonLoad Protocol ClientState Client ClientLogic ClientInv ClientRequests ClientTimers ClientStop PackageStream ClientConnect ClientCall ClientReconnect.
Local Open Scope Z_scope.

(** ** The environment *)

(** The answer of the server: code 200, a heartbeat every three seconds. *)
Definition ex_response : json_t :=
  json_object_set_new
    (json_object_set_new json_object "code" (Some (JInteger 200)))
    "sys" (Some (json_object_set_new json_object "heartbeat" (Some (JInteger 3)))).

(** Its text, {"code":200,"sys":{"heartbeat":3}}, in a package. *)
Definition ex_body : bytes := json_text JSON_COMPACT 0 ex_response.
Definition ex_answer : bytes := wire PC_PKG_HANDSHAKE ex_body.

Definition ex_ext : externals :=
  mkExt (λ c look data, pc__default_msg_parse_cb (λ _, true) 100 c look data (zlen data))
    (λ c id rt m, pc__default_msg_encode_cb (λ _, true) 100 true 0 c id rt m)
    (λ _, None) (λ _, None) (λ _, 0) (λ _, Some [(false, 0); (true, 1)]) (λ _, true).

(** A run of a new client in which everything the environment is asked for
    succeeds. *)
Definition ex_run (reconnect : option reconnect_conf) (es : list event) : exec (option (world pc_map_t)) :=
  w ← new_world reconnect false []; run ex_ext es w.

(** What holds of the end of a run. *)
Definition ends_in (r : exec (option (world pc_map_t))) (P : world pc_map_t → Prop) : Prop :=
  match r with Val (Some w) => P w | _ => False end.

Lemma ex_run_ends reconnect es (Q P : world pc_map_t → Prop) :
  ends_in (ex_run reconnect es) Q →
  (∀ w0 w, new_world reconnect false [] = Val w0 → run ex_ext es w0 = Val (Some w) → Q w → P w) →
  ends_in (ex_run reconnect es) P.
Proof.
  unfold ex_run. generalize (new_world (M := pc_map_t) reconnect false []) as n, (run ex_ext es) as r.
  intros n r He HP. destruct n as [w0| |]; [|destruct He..]. rewrite bind_Val in He |- *.
  unfold ends_in in *. destruct (r w0) as [[w|]| |] eqn:E; [|destruct He..].
  exact (HP w0 w eq_refl E He).
Qed.

Lemma run_app {M} `{SM : StringMap M} X es1 es2 (w w2 : world M) :
  run X (es1 ++ es2) w = Val (Some w2) → ∃ w1, run X es1 w = Val (Some w1) ∧ run X es2 w1 = Val (Some w2).
Proof.
  revert w. induction es1 as [|e es1 IH]; intros w E; [by exists w|]. cbn [run app] in *.
  destruct (enabled w e); [|done]. destruct (deliver X e w) as [[w1 []]| |]; [|done..]. by apply IH.
Qed.

(** Connecting: the socket connects, the handshake is written, answered and
    acknowledged. *)
Definition ex_handshake : list event :=
  [UConnect3 (1, 80); LReq 3 0; LReq 4 0; LRead 2 (Some ex_answer)].

Definition ex_connect : list event := ex_handshake ++ [LReq 5 0].

(** A request (block 6) to the route "a", handed to libuv (write 8). *)
Definition ex_request : list event :=
  ex_connect ++ [URequestNew; URequest 6 (Some "a") (Some json_object); LAsync 7].

(** Its write completes and the response arrives. *)
Definition ex_answered : list event :=
  ex_request ++ [LReq 8 0; LRead 2 (Some [4; 0; 0; 4; 4; 1; 123; 125])].

(** The trace of the whole exchange. *)
Example ex_answered_trace :
  ends_in (ex_run None ex_answered) (λ w, c_state (w_client w) = PC_ST_WORKING ∧ w_trace w =
    [OSend 2 (wire PC_PKG_HANDSHAKE handshake_text); OSend 2 [2; 0; 0; 0]; OEvent "reconnect" [] ClientData; OAccepted 6;
     OSend 2 [4; 0; 0; 6; 0; 1; 1; 97; 123; 125]; ORequestCb 6 0 (Some json_object)]).
Proof. vm_compute. done. Qed.

(** ** The theorems at these runs *)

Lemma client_state_consistent_witness :
  ends_in (ex_run None ex_answered) (λ w,
    ∀ tp, c_transport (w_client w) = Some tp → ∃ t, w_transports w !! tp = Some t ∧
      tp_state t ≠ PC_TP_ST_CLOSED ∧ tp_state t ≠ PC_TP_ST_INITED ∧ HSocket tp ∉ w_closing w ++ w_closed w).
Proof.
  apply (ex_run_ends _ _ (λ _, True)); [vm_compute; exact I|]. intros w0 w E Er _.
  apply (client_state_consistent pc_map_t _ ex_ext None false [] w0 w E).
  eapply run_reach; [apply reach_refl|exact Er].
Defined.

Lemma heartbeat_exclusive_witness :
  ends_in (ex_run None (ex_connect ++ [LTimer HeartbeatTimer]))
    (λ w, active w HeartbeatTimer && active w TimeoutTimer = false).
Proof.
  apply (ex_run_ends _ _ (λ _, True)); [vm_compute; exact I|]. intros w0 w E Er _.
  apply (heartbeat_exclusive pc_map_t _ ex_ext None false [] w0 w E).
  eapply run_reach; [apply reach_refl|exact Er].
Defined.

(** Whether a run is disciplined can be computed. *)
Definition ex_disciplined (reconnect : option reconnect_conf) (es : list event) : exec bool :=
  w ← new_world (M := pc_map_t) reconnect false []; Val (run_disciplined ex_ext es w).

Lemma ex_reach_disciplined reconnect es w0 w :
  ex_disciplined reconnect es = Val true → new_world reconnect false [] = Val w0 →
  run ex_ext es w0 = Val (Some w) → reach_disciplined ex_ext w0 w.
Proof.
  unfold ex_disciplined. generalize (new_world (M := pc_map_t) reconnect false []) as n. intros n Hd -> Er.
  rewrite bind_Val in Hd. injection Hd as Hd. eapply run_reach_disciplined; [apply rd_refl|exact Hd|exact Er].
Qed.


Lemma stop_closes_witness :
  ends_in (ex_run None ex_answered) (λ w, ∃ w', pc_client_stop w = Val (w', tt) ∧ stopped w w').
Proof.
  apply (ex_run_ends _ _ (λ w, c_state (w_client w) = PC_ST_WORKING)); [vm_compute; reflexivity|].
  intros w0 w E Er Hw.
  destruct (stop_closes pc_map_t _ ex_ext false [] w0 w E) as (w' & Es & _ & _ & _ & S & _);
    [eapply run_reach; [apply reach_refl|exact Er]|].
  exists w'. split; [exact Es|]. apply S; rewrite Hw; discriminate.
Defined.

(** The client is stopped, its socket is closed, and the user tries to connect. *)
Definition ex_stopped : list event := [LClosed (HSocket 2); UConnect3 (1, 80)].

Lemma ex_stop_stopped w0 w :
  new_world None false [] = Val w0 → reach ex_ext w0 w → c_state (w_client w) = PC_ST_WORKING →
  ∃ w1, pc_client_stop w = Val (w1, tt) ∧ stopped w w1.
Proof.
  intros E Hr Hw. pose proof (reach_inv ex_ext _ _ _ _ _ E Hr) as Hi.
  apply (reach_handles ex_ext _ _ _ _ _ E) in Hr as (Hh & He & _).
  destruct (stop_spec w Hi Hh He) as (w1 & E1 & S & _); [rewrite Hw; discriminate..|].
  exists w1. split; [exact E1|exact S].
Qed.

Lemma stopped_is_final_witness :
  ends_in (ex_run None (ex_answered ++ UStop :: ex_stopped)) (λ w,
    c_state (w_client w) = PC_ST_CLOSED ∧ pc_request 6 (Some "a") (Some json_object) w = Val (w, -1) ∧
    pc_client_disconnect w = UB).
Proof.
  apply (ex_run_ends _ _ (λ _, True)); [vm_compute; exact I|]. intros w0 w' E Er _.
  apply run_app in Er as (w & E1 & E2).
  assert (reach ex_ext w0 w) as Hr by (eapply run_reach; [apply reach_refl|exact E1]).
  assert (c_state (w_client w) = PC_ST_WORKING) as Hw.
  { assert (ends_in (ex_run None ex_answered) (λ w, c_state (w_client w) = PC_ST_WORKING)) as Hx
      by (vm_compute; reflexivity).
    unfold ex_run in Hx. rewrite E, bind_Val, E1 in Hx. exact Hx. }
  destruct (ex_stop_stopped w0 w E Hr Hw) as (w1 & Es & S).
  assert (run ex_ext ex_stopped w1 = Val (Some w')) as E3.
  { cbn [run enabled deliver] in E2. rewrite Es in E2. exact E2. }
  destruct (stopped_is_final pc_map_t _ ex_ext false [] w0 w w1 w' E Hr ltac:(rewrite Hw; discriminate) ltac:(rewrite Hw; discriminate) Es) as (H1 & _ & H2 & _ & H3);
    [eapply run_reach; [apply reach_refl|exact E3]|].
  split; [exact H1|]. split; [apply H2|exact H3].
Defined.

(** The answer of the server comes in two pieces. *)
Lemma client_connects_witness :
  match new_world (M := pc_map_t) None false [] with
  | Val w0 => ∃ w, run ex_ext (connect_events (1, 80) ++
                  map (λ c, LRead 2 (Some c)) [take 7 ex_answer; drop 7 ex_answer] ++ [LReq 5 0]) w0 = Val (Some w) ∧
                c_state (w_client w) = PC_ST_WORKING
  | _ => False
  end.
Proof.
  assert (∀ n, x_malloc ex_ext n = true) as H1 by reflexivity.
  assert (json_loadb (x_malloc ex_ext) ex_body 0 = Val (Some ex_response)) as H3 by (vm_compute; reflexivity).
  assert (accepts ex_response (json_object_set_new json_object "heartbeat" (Some (JInteger 3))) 3) as H4
    by (split; first [lia|vm_compute; reflexivity]).
  assert (Forall (λ c : bytes, c ≠ [] ∧ zlen c < 2 ^ 64) [take 7 ex_answer; drop 7 ex_answer]) as H5
    by (repeat constructor; discriminate).
  assert (concat [take 7 ex_answer; drop 7 ex_answer] = wire PC_PKG_HANDSHAKE ex_body) as H6 by (vm_compute; reflexivity).
  assert (zlen ex_body < 2 ^ 24) as H8 by (vm_compute; reflexivity).
  assert (false = true → x_handshake_cb ex_ext (json_object_get (Some ex_response) "user") = 0) as H9 by discriminate.
  pose proof (λ w0 E, client_connects pc_map_t _ ex_ext false w0 (1, 80) ex_response _ 3 ex_body _ E
    H1 eq_refl H3 H4 H8 H9 H6 H5) as H. clear H1 H3 H4 H5 H6 H8 H9.
  assert (match new_world (M := pc_map_t) None false [] with Val _ => True | _ => False end) as Hv
    by (vm_compute; exact I).
  destruct (new_world (M := pc_map_t) None false []) as [w0| |]; [|destruct Hv..].
  destruct (H w0 eq_refl) as (w & Er & Hs & _). exists w. split; [exact Er|exact Hs].
Defined.

(** A connected client with a request block (6). *)
Definition ex_ready : list event := ex_connect ++ [URequestNew].

Definition ex_facts (w : world pc_map_t) : Prop :=
  w_oracle w = [] ∧ c_state (w_client w) = PC_ST_WORKING ∧ c_transport (w_client w) = Some 2%positive ∧
  w_transports w !! 2%positive = Some (mkTransport PC_TP_ST_WORKING true) ∧
  c_parser (w_client w) = mkParser [1; 0; 0; 34] PNull 0 4 0 0 PC_PKG_HEAD ∧
  w_reqs w !! 6%positive = Some (mkReq PC_REQUEST 0 None None None) ∧
  c_ctx (w_client w) = mkCtx None None None None ∧ w_req_id w = 0 ∧ w_next w = 7%positive ∧
  w_closing w ++ w_closed w = [] ∧ sm_get (c_requests (w_client w)) (sprintf_u 1) = Val None.

Lemma ex_ready_facts : ends_in (ex_run None ex_ready) ex_facts.
Proof. vm_compute. repeat split. Qed.

Lemma ex_working w : ex_facts w → working 2 w.
Proof.
  intros (Ho & Hs & Ht & Htr & Hp & _ & _ & _ & _ & Hcl & _). split; [done|done|done| |by rewrite Hp].
  split; [done|unfold dead_handle; rewrite Hcl; apply not_elem_of_nil|rewrite Hp; repeat split; simpl; lia|by rewrite Hp].
Qed.

(** The codecs of the example at the request and its response. *)
Lemma ex_encode : x_encode_msg ex_ext (mkCtx None None None None) 1 "a" (Some json_object) = Val (Some [0; 1; 1; 97; 123; 125]).
Proof. vm_compute. reflexivity. Qed.

Lemma ex_parse look :
  look (sprintf_u 1) = Val (Some "a") →
  x_parse_msg ex_ext (mkCtx None None None None) look [4; 1; 123; 125] = Val (Some (mkMsg 1 None (Some json_object))).
Proof. intros Hl. vm_compute in Hl. vm_compute. rewrite Hl. reflexivity. Qed.

Lemma request_answered_witness :
  ends_in (ex_run None ex_ready) (λ w, ∃ w',
    run ex_ext ([URequest 6 (Some "a") (Some json_object); LAsync 7; LReq 8 0] ++
                map (λ c, LRead 2 (Some c)) [[4; 0; 0]; [4; 4]; [1; 123; 125]]) w = Val (Some w') ∧
    w_trace w' = w_trace w ++ [OAccepted 6; OSend 2 [4; 0; 0; 6; 0; 1; 1; 97; 123; 125]; ORequestCb 6 0 (Some json_object)]).
Proof.
  apply (ex_run_ends _ _ ex_facts); [exact ex_ready_facts|]. intros w0 w E Er F.
  pose proof (ex_working w F) as Hw. destruct F as (_ & _ & _ & _ & _ & Hr & Hc & Hid & Hnx & Hcl & Hg).
  assert (reach_disciplined ex_ext w0 w) as Hrd.
  { eapply ex_reach_disciplined; [|exact E|exact Er]. vm_compute. reflexivity. }
  destruct (reach_settled ex_ext _ _ _ _ _ E Hrd) as [G R]. clear E Er Hrd.
  pose proof (q_rep _ _ _ R) as HG. pose proof (sm_get_ok _ _ G (sprintf_u 1) HG) as Hk. rewrite Hg in Hk.
  injection Hk as Hk. symmetry in Hk.
  assert (¬ dead_handle w (HAsync (w_next w))) as Hd
    by (unfold dead_handle; rewrite Hcl; apply not_elem_of_nil).
  pose proof (request_answered pc_map_t _ _ ex_ext 2 6 (mkReq PC_REQUEST 0 None None None) "a" json_object (Some json_object) [0; 1; 1; 97; 123; 125] [4; 1; 123; 125]
    [[4; 0; 0]; [4; 4]; [1; 123; 125]] G w 1) as H.
  rewrite Hnx in H, Hd. rewrite Hid, Hc in H.
  destruct (H (λ _, eq_refl) Hw eq_refl ltac:(lia) Hr eq_refl Hd HG Hk ex_encode) as (w' & E & Ht & _).
  - vm_compute. reflexivity.
  - exact ex_parse.
  - vm_compute. reflexivity.
  - vm_compute. reflexivity.
  - repeat constructor; discriminate.
  - exists w'. split; [exact E|exact Ht].
Defined.

(** A client that reconnects, with a request in flight. *)
Definition ex_conf_facts (w : world pc_map_t) : Prop :=
  c_state (w_client w) = PC_ST_WORKING ∧ c_reconnecting (w_client w) = false ∧ c_reconnects (w_client w) = 0 ∧
  pkg_buf (c_parser (w_client w)) = PNull ∧ w_oracle w = [] ∧
  bool_decide (is_Some (w_reqs w !! 6%positive)) = true ∧
  w_trace w = [OSend 2 (wire PC_PKG_HANDSHAKE handshake_text); OSend 2 [2; 0; 0; 0]; OEvent "reconnect" [] ClientData; OAccepted 6;
               OSend 2 [4; 0; 0; 6; 0; 1; 1; 97; 123; 125]] ∧
  forallb (λ t, bool_decide (is_Some (c_timers (w_client w) t)) &&
                bool_decide (HTimer t ∉ w_closing w ++ w_closed w))
    [HeartbeatTimer; TimeoutTimer; HandshakeTimer; ReconnectTimer] = true.

Lemma ex_timers_open w :
  ex_conf_facts w → timers_open (λ t, default uv_timer_init (c_timers (w_client w) t)) w.
Proof.
  intros (_ & _ & _ & _ & _ & _ & _ & Ht) t. rewrite forallb_forall in Ht.
  assert (In t [HeartbeatTimer; TimeoutTimer; HandshakeTimer; ReconnectTimer]) as Hin by (destruct t; simpl; tauto).
  apply Ht, andb_true_iff in Hin as [H1%bool_decide_eq_true H2%bool_decide_eq_true].
  destruct H1 as [tm ->]. split; [done|exact H2].
Qed.

(** Only accepted requests are stored. *)
Lemma stored_accepted w G k rq :
  qrep (M := pc_map_t) (λ _, 0) w G → G !! k = Some rq → (0 < accepted rq w)%nat.
Proof.
  intros R Hk. pose proof (q_law _ _ _ R rq) as Hl. unfold stored in Hl.
  rewrite (total_delete _ G k rq Hk), one_same in Hl. lia.
Qed.

Lemma ex_conf_run : ends_in (ex_run (Some ex_conf) ex_request) ex_conf_facts.
Proof. vm_compute. repeat split. Qed.

Lemma ex_stored_live w G :
  ex_conf_facts w → qrep (λ _, 0) w G → ∀ k rq, G !! k = Some rq → is_Some (w_reqs w !! rq).
Proof.
  intros (_ & _ & _ & _ & _ & Hr & Ht & _) R k rq Hk. apply (stored_accepted w G) in Hk; [|done].
  unfold accepted in Hk. rewrite Ht in Hk. simpl in Hk. unfold one in Hk.
  case_decide as Hx; [|lia]. subst rq. by apply bool_decide_eq_true in Hr.
Qed.

Lemma stop_reconnects_witness :
  ends_in (ex_run (Some ex_conf) ex_request) (λ w, ∃ w' ms, pc_client_stop w = Val (w', tt) ∧
    c_state (w_client w') = PC_ST_INITED ∧ c_timers (w_client w') ReconnectTimer = Some (mkTimer true (Some ms) 0) ∧
    1000 ≤ ms).
Proof.
  apply (ex_run_ends _ _ ex_conf_facts); [exact ex_conf_run|]. intros w0 w E Er F.
  assert (reach_disciplined ex_ext w0 w) as Hrd.
  { eapply ex_reach_disciplined; [|exact E|exact Er]. vm_compute. reflexivity. }
  destruct (reach_settled ex_ext _ _ _ _ _ E Hrd) as [G R].
  assert (reach ex_ext w0 w) as Hre by (eapply run_reach; [apply reach_refl|exact Er]).
  pose proof (ex_timers_open w F) as Ho. pose proof (ex_stored_live w G F R) as Hl. pose proof (q_rep _ _ _ R) as HG.
  assert (conf_of ex_log 2 30 1 ex_conf) as Hc by (vm_compute; reflexivity).
  pose proof (stop_reconnects pc_map_t _ _ ex_ext ex_log 2 30 1 ex_conf false [] w0 w
    (λ t, default uv_timer_init (c_timers (w_client w) t)) G ex_log_floor Hc ltac:(lia) E Hre) as H.
  clear E Er Hrd Hre Hc R. destruct F as (F1 & F2 & F3 & F4 & F5 & _).
  rewrite F1, F2, F3, F4, F5 in H.
  destruct (H ltac:(discriminate) eq_refl Ho ltac:(lia) ltac:(discriminate) ltac:(simpl; lia) HG Hl)
    as (w' & ms & Es & H1 & _ & _ & _ & _ & _ & _ & _ & _ & _ & H2 & H3).
  exists w', ms. split; [exact Es|]. split; [exact H1|]. split; [exact H2|].
  exact H3.
Defined.

(** ** What goes wrong *)

(** A request whose write is still pending when the connection breaks
    is called back when libuv cancels the write, but stays in the table of
    requests, so that destroying the client calls it back again; if the user has
    destroyed it in its callback, as the documentation asks, the second callback
    uses a freed request. *)
Theorem request_called_back_twice :
  ends_in (ex_run None (ex_request ++ [LRead 2 None; LReq 8 (-1); LClosed (HSocket 2)])) (λ w,
    called 6 w = 1%nat ∧
    match pc_client_destroy w with Val (w', _) => called 6 w' = 2%nat | _ => False end ∧
    (pc_request_destroy 6;; pc_client_destroy) w = UB).
Proof. vm_compute. done. Qed.

(** A client that reconnects does not obey [pc_client_disconnect] when
    the write of the handshake acknowledgement completes after the call: the
    callback overwrites the state, and the disconnection becomes a reconnection
    attempt, with the timer running. A handshake that times out while
    reconnecting leaves the client connected with no timer running, so that it
    neither closes nor tries again. *)
Theorem reconnecting_client_misled :
  ends_in (ex_run (Some ex_conf) (ex_handshake ++ [UDisconnect; LReq 5 0; LCloseAsync])) (λ w,
    c_state (w_client w) = PC_ST_INITED ∧ c_reconnecting (w_client w) = true ∧
    active w ReconnectTimer = true) ∧
  ends_in (ex_run (Some ex_conf)
      (ex_connect ++ [LRead 2 None; LTimer ReconnectTimer; LReq 8 0; LReq 9 0; LTimer HandshakeTimer])) (λ w,
    c_state (w_client w) = PC_ST_CONNECTED ∧ w_pending w = ∅ ∧
    map (active w) [HeartbeatTimer; TimeoutTimer; HandshakeTimer; ReconnectTimer] = [false; false; false; false]).
Proof. split; vm_compute; done. Qed.

(** A client that is stopped while it connects leaves its socket open: when the
    connection is there the callback finds the client closed and returns, and the socket is
    closed by nobody. *)
Theorem connecting_socket_left :
  ends_in (ex_run None [UConnect3 (1, 80); UStop; LReq 3 0]) (λ w,
    c_state (w_client w) = PC_ST_CLOSED ∧ c_transport (w_client w) = None ∧ w_pending w = ∅ ∧
    tp_state <$> w_transports w !! 2%positive = Some PC_TP_ST_CONNECTING ∧
    HSocket 2 ∉ w_closing w ++ w_closed w).
Proof.
  apply (ex_run_ends _ _ (λ w, c_state (w_client w) = PC_ST_CLOSED ∧ c_transport (w_client w) = None ∧ w_pending w = ∅ ∧
    tp_state <$> w_transports w !! 2%positive = Some PC_TP_ST_CONNECTING ∧
    bool_decide (HSocket 2 ∉ w_closing w ++ w_closed w) = true)); [vm_compute; done|].
  intros w0 w _ _ (H1 & H2 & H3 & H4 & H5%bool_decide_eq_true). done.
Qed.

(** Runs that end in undefined behaviour: a malformed handshake
    response followed by a heartbeat in the same chunk (the timers are closed and
    their pointers null), a heartbeat whose write fails (the transport is taken
    for the client), a request submitted just before the transport is freed (its
    wake-up uses the transport), a disconnection while a client that
    reconnects is connecting (a closed timer is started), and a disconnection after a
    stop (the wake-up is null). *)
Theorem client_runs_undefined :
  ex_run None (ex_connect ++ [LRead 2 (Some [1; 0; 0; 1; 0; 3; 0; 0; 0])]) = UB ∧
  ex_run None (ex_connect ++ [LTimer HeartbeatTimer; LReq 6 (-1)]) = UB ∧
  ex_run None (ex_connect ++ [URequestNew; URequest 6 (Some "a") (Some json_object); LRead 2 None;
                               LClosed (HSocket 2); LAsync 7]) = UB ∧
  ex_run (Some ex_conf) [UConnect3 (1, 80); UDisconnect; LCloseAsync; LReq 3 0] = UB ∧
  ex_run None (ex_connect ++ [UStop; UDisconnect]) = UB.
Proof. vm_compute. done. Qed.
